(* ===== verification/_CoqProject ===== *)
-Q . S2P
Prelude.v
Ranges.v
Paging.v
Buddy.v
BuddySpec.v
BuddyTheorems.v
FrameAllocator.v
Slab.v
SlabTheorems.v
SlabBuddy.v
PageTables.v
Pipe.v
PipeTheorems.v
ExchangeHeap.v
ExchangeHeapTheorems.v
HeapRegistry.v
Sas.v
HeapRegistrySpec.v
SasTheorems.v
RRef.v
ChannelTheorems.v
DomainSystem.v
DomainTheorems.v
KernelHeap.v
KernelHeapTheorems.v
Boot.v
Capability.v
Mac.v
Policy.v
AuditLog.v
NetBytes.v
Ethernet.v
Ipv4.v
Icmp.v
Udp.v
Arp.v
NetStack.v
Ipv4Theorems.v
TransportTheorems.v
ArpTheorems.v
NetStackTheorems.v
Mempool.v
MempoolTheorems.v
TcpWindow.v
TcpWindowTheorems.v
TcpSegment.v
TcpSegmentTheorems.v
Endpoint.v
EndpointOps.v
EndpointTheorems.v
LockFree.v
LockFreeTheorems.v
MpmcTheorems.v
Scheduler.v
SchedulerTheorems.v
OrderedMap.v
PageCache.v
PageCacheTheorems.v
FsTypes.v
MemFs.v
MemFsSpec.v
MemFsTheorems.v
FsHandleTheorems.v
Async.v
AsyncTheorems.v
ExecutorTheorems.v
Loader.v
LoaderTheorems.v
Disk.v
Clock.v
ClockTheorems.v
Mmap.v
SharedMem.v
SharedMemTheorems.v
Process.v
ProcessTheorems.v
NetConfig.v
NetConfigTheorems.v
IoSched.v
IoSchedTheorems.v
