(* ===== verification/Prelude.v ===== *)
(** * ExoRust (Rany_OS) kernel: verification library

    ** The program

    ExoRust is a single-address-space kernel in Rust (src/src).  All domains
    share one address space and one privilege level; isolation comes from the
    type system, from the ownership of heap objects and from run-time checks.
    The parts modelled here are those that keep that promise, and the services
    built on them:

    - memory: physical frames (mm/buddy_allocator.rs, mm/frame_allocator.rs),
      the kernel heap and the start-up order (memory.rs), the linear mapping
      (mm/mapping.rs), the page tables (mm/higher_half.rs), the memory mappings
      (mm/mmap.rs) and the per-core object caches (mm/slab_cache.rs) that take
      pages from the frames and large layouts from the heap;
    - sharing: the exchange heap (mm/exchange_heap.rs), the registry of the
      objects on it (sas/heap_registry.rs), the single address space manager
      over both (sas/), remote references and zero-copy channels (ipc/rref.rs,
      ipc/pipe.rs), byte pipes (ipc/pipe.rs), shared memory and proxies
      (ipc/shared_mem.rs, ipc/proxy.rs), and the domains whose death must return
      everything (domain_system.rs);
    - security: capability sets, mandatory access control, the policy engine, the
      audit log and the permissions of domains (security/);
    - network: Ethernet, IPv4, ICMP, UDP, ARP, the stack that joins them and its
      packet buffers, name resolution and address configuration (net/), and the
      TCP endpoints: windows, segments, retransmission, control blocks, sockets,
      events and the receive path (net/endpoint/);
    - processors: the lock-free rings between cores (sync/lockfree.rs), the
      scheduler of threads (task/context.rs, task/scheduler.rs), and the
      asynchronous tasks: sleeping, wakers behind interrupts, time slices and the
      executor (task/timer.rs and others, interrupts/mod.rs);
    - processes: signals, the process table, environments and work queues
      (task/signal.rs, process.rs, environ.rs, work_stealing.rs, waker.rs);
    - cells: the loader of signed ELF files with its registry of symbols
      (loader/);
    - input and output: the scheduler of requests with its futures, mode controllers
      and coordinator, and the poll handlers of drivers (io/io_scheduler.rs);
    - time: the calendars, the real-time clock and the system clock (time/mod.rs,
      io/rtc.rs);
    - files: the page cache, the filesystem interface with open files and mounts,
      the memory filesystem the shell works on, block devices and FAT32 (fs/).

    ** The files

    This file has machine words with their wrap-around, [outcome] for code that
    panics, loops over ranges, bit lemmas, vectors used as maps.  [Ranges]
    (address ranges, frame bitmaps) is shared by the allocators, [Paging] is the
    interface to the x86_64 crate with the linear mapping of mm/mapping.rs.  A component [X] has its state and operations in [X.v], its
    invariant, lemmas, theorems and concrete runs in [XTheorems.v], with the
    invariant in [XSpec.v] where others use it.

    - [Buddy], [BuddySpec], [BuddyTheorems]:
      mm/buddy_allocator.rs.  A state is read as a multiset of free blocks.
    - [FrameAllocator]: mm/frame_allocator.rs, with its theorems.
    - [Slab], [SlabTheorems]: mm/slab_cache.rs against the
      interfaces [FrameSource] and [GlobalHeap]; [SlabBuddy] and [Boot]
      discharge them with the buddy allocator and the kernel heap.
    - [KernelHeap], [KernelHeapTheorems], [Boot]: memory.rs.  [Mmap]: mm/mmap.rs,
      with its theorems.
    - [PageTables]: mm/higher_half.rs over the frames of the buddy allocator, read as an
      address space, with its theorems.
    - [Pipe], [PipeTheorems]: the byte pipes of ipc/pipe.rs.
    - [ExchangeHeap], [ExchangeHeapTheorems]: mm/exchange_heap.rs.
    - [HeapRegistry], [HeapRegistrySpec], [Sas], [SasTheorems]: sas/.
    - [RRef], [ChannelTheorems]: ipc/rref.rs and the channels of
      ipc/pipe.rs.
    - [SharedMem], [SharedMemTheorems]: ipc/shared_mem.rs and ipc/proxy.rs.
    - [DomainSystem], [DomainTheorems]: domain_system.rs.
    - [Capability], [Mac], [Policy], [AuditLog], each with its theorems: security/.
    - [NetBytes], [Ethernet], [Ipv4], [Icmp], [Udp], [Arp], [NetStack],
      [Mempool]: the files of the same name in net/ (stack.rs for [NetStack];
      tcp.rs with [Mempool]); [Ipv4Theorems], [TransportTheorems],
      [ArpTheorems], [NetStackTheorems], [MempoolTheorems].
    - [NetConfig], [NetConfigTheorems]: net/dns.rs and net/dhcp.rs.
    - [TcpWindow], [TcpSegment], [Endpoint], [EndpointOps] and
      their Theorems: net/endpoint/.
    - [LockFree], [LockFreeTheorems], [MpmcTheorems]: sync/lockfree.rs.
    - [Scheduler], [SchedulerTheorems]: task/context.rs, task/scheduler.rs.
    - [Async], [AsyncTheorems], [ExecutorTheorems]: task/timer.rs,
      interrupt_waker.rs, preemption.rs, executor.rs and mod.rs, with the timer
      interrupt of interrupts/mod.rs.
    - [Process], [ProcessTheorems]: signals, processes, environments, work queues.
    - [Loader], [LoaderTheorems]: loader/elf.rs, signature.rs and mod.rs.
    - [IoSched], [IoSchedTheorems]: io/io_scheduler.rs, with io/ahci/poll_handler.rs
      as an instance of its handlers and the registration of io/nvme/scheduler.rs.
    - [Clock], [ClockTheorems]: time/mod.rs and io/rtc.rs.
    - [OrderedMap]: iteration over ordered maps, shared by what follows.
      [PageCache], [PageCacheTheorems]: fs/cache.rs, read as a
      list of pages in the order of their last use.  [FsTypes]:
      fs/fs_abstraction.rs, where the Inode trait is a class; [MemFs], its
      instance, [MemFsSpec] (the tree, paths as strings),
      [MemFsTheorems]: fs/memfs.rs; [FsHandleTheorems]: open files and mounts.
      [Disk]: fs/block.rs and fs/fat32.rs, over any device.

    ** Conventions

    Words are [Z] with the wrap-around of the release profile written out
    ([+w], [-w], [*w], [wrap32], ...), where overflow checks are off.  A panic of
    the source (array index, unwrap, expect, division by zero) and undefined
    behaviour (a read of memory that was never written, a dangling pointer) are
    [Panic], so a theorem that an operation returns also says that it does
    neither.  A method under a lock is one transition; where a guard outlives its
    statement (the ARP lock of [NetStack], the scheduler lock across a context
    switch) the lock is in the state and an operation may spin for ever; the
    lock-free structures are machines over single atomic accesses, interleaved
    arbitrarily, on a sequentially consistent memory.  What an operation wakes or
    prints is part of its result where the source relies on it.  Third-party code
    is an argument: the crate x86_64 a class with laws and an instance for the
    concrete runs, hashes and signatures functions.

    ** Loops and fuel

    Loops without a structural measure take fuel, and a lemma shows that the fuel
    given is enough: the free-list walks take the number of block headers
    ([ExchangeHeap.first_fit]) or of words plus one ([KernelHeap.remove_walk]),
    the start-up loops two rounds per unit plus two ([KernelHeap.init_loop],
    [Buddy.add_region_loop]), carry folding two rounds ([NetBytes.fold_carry]),
    the option search one per byte ([TcpWindow.find_loop]), padding three, the
    search for a port one per port of the range ([Endpoint.ephemeral_loop]), the
    event loop one per queued event plus one ([EndpointOps.drain_loop]), dropping
    a ring one per slot ([LockFree.drop_loop]), the year search one per 365 days
    ([Clock.Calendar.year_loop]), the address search what the mappings block
    ([Mmap.find_loop], by the pigeonhole principle), a name in a message one per
    byte ([NetConfig.Dns.name_loop]; by [NetConfigTheorems.DnsSpec.parse_name_decided]
    the loop ends by then or never), DHCP options one per byte, mapping a range one per
    page ([PageTables.Hh.map_range_loop]), freeing a chain one per entry of the table
    plus two ([Disk.Fat.free_cluster_chain]), reading a file one per byte
    ([Disk.Fat.read_loop]), eviction one per cached page plus
    two ([PageCache.evict_loop]).  Rings with free-running
    positions assume a capacity that divides 2^64, as powers of two do;
    [PipeTheorems.ring_capacity_3_wraps] shows why.
    ** What the theorems show

    - Frames: initialisation establishes the invariant of the buddy allocator,
      allocation and deallocation refine taking a block out of and putting one
      into the free multiset, buddies stay merged, a block handed out is not
      handed out again, an allocation and its return cancel; the kernel heap is
      always an exact partition into blocks; the object caches never hand out
      overlapping objects, on any core, over the real frame allocator; memory
      mappings stay apart and the search for an address ends; the page tables are
      an address space.
    - Sharing: pipes and channels are FIFO and lose nothing; nobody sleeps on a
      closed pipe; the registry keeps objects apart and its owner index exact;
      remote references live on the heap exactly while they are registered; a
      terminated domain leaves nothing behind; the names, totals and counts of
      shared regions are exact, and a ring in one is a bounded queue.
    - Security: capabilities are never gained back, information flows upwards
      only, the policy engine decides by the best rule, the audit log keeps the
      latest records.
    - Network: a changed word is detected by the checksum, what the stack sends
      reaches its peer, the ARP cache is a map with expiry, packet buffers are
      counted exactly; a TCP connection delivers the peer's bytes in order, its
      windows are sound, unacknowledged segments are given up after five
      retransmissions, options written are options read; a DNS query carries its
      name, and the DHCP exchange binds the acknowledged address.
    - Processors: the rings are bounded queues in every interleaving (the
      multi-producer one unless a producer is lapped), the sequence lock is a
      register while writers take turns; the scheduler keeps its tasks and serves
      the best level in turn; the executor loses no task and queues the ones that
      are woken; sleepers are woken by the tick of their deadline.
    - Processes: signals are neither lost nor delivered while they are blocked,
      parents and children agree and a wait collects the first child that ended,
      an environment prints as strings that parse to it.
    - Cells: a loaded cell was accepted by the verifier, symbols belong to loaded
      cells, segments are placed as the file says and relocations write what the
      ABI says; files that do not wrap around are never read out of bounds.
    - Input and output: requests are handed out once, by priority and age; the end of
      a request wakes the task that waits for it; counters are exact; a mode is
      switched rarely; a batch completes what the devices deliver.
    - Time: dates and timestamps are in bijection, both calendars agree, the clock
      reads back what was written, a reading taken twice is never torn.
    - Files: the page cache evicts the least recently used clean page and writes
      every dirty page back; the shell's filesystem is a map from paths to nodes,
      a failed call changes nothing, what is written is what is read; freeing a chain
      of a FAT32 volume ends on any device, a cyclic chain included, and a RAM disk, whose
      reads return nothing, is never mounted.
    Where the code does not do what it means to, the theorem says what it does
    (requests for unresolved addresses never return, a full ring never refuses,
    a new task keeps the scheduler locked, ...) or a concrete run shows it.

    ** Not modelled

    Device drivers, interrupt tables, control registers and processor start-up
    are register and assembly accesses whose meaning is in the hardware; the
    graphics code, shells, monitors and tests use the modelled parts without
    adding to what they promise; the guarantees of the static capability types
    are the type checker's.  Weak memory is not modelled: the rings run on x86
    with acquire and release accesses, on which the interleavings considered here
    are those that matter.
*)

From stdpp Require Import base list gmap strings sorting.
From Stdlib Require Import ZArith Lia Btauto.

Local Open Scope Z_scope.

(** ** Machine words

    [usize] and [u64] are 64 bits wide on the only target (x86_64-unknown-none).
    The plain operators of the source are modelled with the wrap-around of the
    release profile; a theorem that needs no overflow says so by a bound. *)

Definition u64_modulus : Z := 2 ^ 64.
Definition u32_modulus : Z := 2 ^ 32.
Definition u16_modulus : Z := 2 ^ 16.
Definition u64_max : Z := 2 ^ 64 - 1.
Definition u32_max : Z := 2 ^ 32 - 1.

Definition wrap64 (z : Z) : Z := z mod u64_modulus.
Definition wrap32 (z : Z) : Z := z mod u32_modulus.

Declare Scope word_scope.
Delimit Scope word_scope with word.
Notation "x +w y" := (wrap64 (x + y)) (at level 50, left associativity) : word_scope.
Notation "x -w y" := (wrap64 (x - y)) (at level 50, left associativity) : word_scope.
Notation "x *w y" := (wrap64 (x * y)) (at level 40, left associativity) : word_scope.
#[global] Open Scope word_scope.

Definition is_u64 (z : Z) : Prop := 0 <= z < u64_modulus.
Definition is_u32 (z : Z) : Prop := 0 <= z < u32_modulus.

(** Bitwise complement of a [u64]. *)
Definition not64 (z : Z) : Z := Z.lxor z (Z.ones 64).

(** [u64::trailing_zeros]: 64 on zero. *)
Fixpoint pos_trailing_zeros (p : positive) : Z :=
  match p with
  | xO q => 1 + pos_trailing_zeros q
  | _ => 0
  end.

Definition trailing_zeros64 (z : Z) : Z :=
  match z with
  | Zpos p => pos_trailing_zeros p
  | _ => 64
  end.

(** [u64::leading_zeros]: 64 on zero. *)
Definition leading_zeros64 (z : Z) : Z :=
  if z =? 0 then 64 else 63 - Z.log2 z.

(** ** Panics and results *)

(** A computation that may panic (an index out of range, an [unwrap]). *)
Inductive outcome (A : Type) : Type :=
| Ret (a : A)
| Panic.
Arguments Ret {A} a.
Arguments Panic {A}.

(** Rust's [Result]. *)
Inductive result (A E : Type) : Type :=
| Ok (a : A)
| Err (e : E).
Arguments Ok {A E} a.
Arguments Err {A E} e.

#[export] Instance result_eq_dec {A E} `{!EqDecision A, !EqDecision E} : EqDecision (result A E).
Proof. solve_decision. Defined.

Definition obind {A B} (m : outcome A) (k : A -> outcome B) : outcome B :=
  match m with
  | Ret a => k a
  | Panic => Panic
  end.

Notation "'let!' x := m 'in' k" := (obind m (fun x => k))
  (at level 10, x pattern, m at level 100, k at level 200) : word_scope.

(** [vec[i]] with its bounds check. *)
Definition index {A} (l : list A) (i : nat) : outcome A :=
  match l !! i with
  | Some a => Ret a
  | None => Panic
  end.

(** [vec[i] = a] with its bounds check. *)
Definition index_set {A} (l : list A) (i : nat) (a : A) : outcome (list A) :=
  match l !! i with
  | Some _ => Ret (<[i := a]> l)
  | None => Panic
  end.

(** [for x in l { s = f(s, x)? }] where the body may panic. *)
Fixpoint ofold {A S} (f : S -> A -> outcome S) (s : S) (l : list A) : outcome S :=
  match l with
  | [] => Ret s
  | x :: l' => let! s' := f s x in ofold f s' l'
  end.

(** ** Tactics and hints of the library *)

Create HintDb exo.

(** Splits the boolean tests of the goal and of the hypotheses into facts. *)
Ltac bool_to_prop :=
  repeat match goal with
  | H : negb _ = true |- _ => apply negb_true_iff in H
  | H : negb _ = false |- _ => apply negb_false_iff in H
  | H : (_ && _)%bool = true |- _ => apply andb_true_iff in H; destruct H
  | H : (_ || _)%bool = false |- _ => apply orb_false_iff in H; destruct H
  | H : (_ || _)%bool = true |- _ => apply orb_true_iff in H
  | H : (_ && _)%bool = false |- _ => apply andb_false_iff in H
  | H : (_ =? _) = true |- _ => apply Z.eqb_eq in H
  | H : (_ =? _) = false |- _ => apply Z.eqb_neq in H
  | H : (_ <? _) = true |- _ => apply Z.ltb_lt in H
  | H : (_ <? _) = false |- _ => apply Z.ltb_ge in H
  | H : (_ <=? _) = true |- _ => apply Z.leb_le in H
  | H : (_ <=? _) = false |- _ => apply Z.leb_gt in H
  | H : (_ >? _) = true |- _ => rewrite Z.gtb_ltb in H
  | H : (_ >? _) = false |- _ => rewrite Z.gtb_ltb in H
  | H : (_ >=? _) = true |- _ => rewrite Z.geb_leb in H
  | H : (_ >=? _) = false |- _ => rewrite Z.geb_leb in H
  | H : bool_decide _ = true |- _ => apply bool_decide_eq_true in H
  | H : bool_decide _ = false |- _ => apply bool_decide_eq_false in H
  end.

(** Case analysis on the first [if] or [match] scrutinee of a hypothesis or
    of the goal, keeping the equation as facts. *)
Ltac case_if :=
  match goal with
  | |- context [if ?b then _ else _] =>
      lazymatch type of b with bool => let E := fresh "E" in destruct b eqn:E end
  end; bool_to_prop.

Ltac case_if_in H :=
  match type of H with
  | context [if ?b then _ else _] =>
      lazymatch type of b with bool => let E := fresh "E" in destruct b eqn:E end
  end; bool_to_prop.

(** ** Lemmas on words *)

Lemma u64_modulus_pos : 0 < u64_modulus.
Proof. reflexivity. Qed.

Lemma wrap64_small (z : Z) : is_u64 z -> wrap64 z = z.
Proof. apply Z.mod_small. Qed.

Lemma wrap64_range (z : Z) : is_u64 (wrap64 z).
Proof. apply Z.mod_pos_bound, u64_modulus_pos. Qed.

Lemma wrap32_small (z : Z) : is_u32 z -> wrap32 z = z.
Proof. apply Z.mod_small. Qed.

Lemma wrap64_sub_add (r n : Z) : wrap64 (wrap64 (r + n) - r) = wrap64 n.
Proof.
  unfold wrap64. rewrite Zminus_mod_idemp_l. f_equal. lia.
Qed.

#[export] Hint Resolve u64_modulus_pos wrap64_range : exo.

Lemma Ret_inj {A} (a b : A) : Ret a = Ret b -> a = b.
Proof. congruence. Qed.

Lemma Ret_pair_inj {A B} (a c : A) (b d : B) : Ret (a, b) = Ret (c, d) -> a = c /\ b = d.
Proof. by intros [= -> ->]. Qed.

Lemma obind_Ret {A B} (m : outcome A) (k : A -> outcome B) (b : B) :
  obind m k = Ret b -> exists a, m = Ret a /\ k a = Ret b.
Proof. destruct m; simpl; [eauto | discriminate]. Qed.

(** Inverts a chain of binds that returned. *)
Ltac inv_bind H :=
  repeat match type of H with
  | obind _ _ = Ret _ =>
      let a := fresh "a" in let Ha := fresh "Ha" in let Hk := fresh "Hk" in
      apply obind_Ret in H; destruct H as (a & Ha & Hk); rename Hk into H
  end.

Lemma index_Ret {A} (l : list A) (i : nat) (a : A) :
  index l i = Ret a <-> l !! i = Some a.
Proof. unfold index. destruct (l !! i); split; congruence. Qed.

Lemma index_set_Ret {A} (l l' : list A) (i : nat) (a : A) :
  index_set l i a = Ret l' <-> (i < length l)%nat /\ l' = <[i := a]> l.
Proof.
  unfold index_set. destruct (l !! i) eqn:E.
  - apply lookup_lt_Some in E. split; [intros [= <-]; done | intros [_ ->]; done].
  - apply lookup_ge_None in E. split; [discriminate | lia].
Qed.

(** ** Powers of two and alignment *)

Lemma pow2_pos (n : nat) : 0 < 2 ^ Z.of_nat n.
Proof. apply Z.pow_pos_nonneg; lia. Qed.
#[export] Hint Resolve pow2_pos : exo.

Lemma pow2_S (n : nat) : 2 ^ Z.of_nat (S n) = 2 * 2 ^ Z.of_nat n.
Proof. rewrite Nat2Z.inj_succ, Z.pow_succ_r; lia. Qed.

Lemma pow2_divide (m n : nat) : (m <= n)%nat -> (2 ^ Z.of_nat m | 2 ^ Z.of_nat n).
Proof.
  intros H. exists (2 ^ Z.of_nat (n - m)). rewrite <- Z.pow_add_r by lia. f_equal. lia.
Qed.

(** Distinct multiples of [a] are at least [a] apart. *)
Lemma divide_lt_step (a x y : Z) : 0 < a -> (a | x) -> (a | y) -> x < y -> x + a <= y.
Proof.
  intros Ha [c ->] [d ->] Hlt. apply Z.mul_lt_mono_pos_r in Hlt; [|done].
  replace (c * a + a) with ((c + 1) * a) by ring. apply Z.mul_le_mono_nonneg_r; lia.
Qed.

Lemma testbit_single (n i : Z) : 0 <= n -> Z.testbit (2 ^ n) i = (i =? n).
Proof.
  intros Hn. rewrite Z.pow2_bits_eqb by done. apply Z.eqb_sym.
Qed.

(** Flipping bit [n] of a multiple of [2^n] adds or removes [2^n]. *)
Lemma lxor_pow2_aligned (f : Z) (n : nat) :
  0 <= f -> (2 ^ Z.of_nat n | f) ->
  Z.lxor f (2 ^ Z.of_nat n) =
    if Z.testbit f (Z.of_nat n) then f - 2 ^ Z.of_nat n else f + 2 ^ Z.of_nat n.
Proof.
  intros Hf Hd. destruct (Z.testbit f (Z.of_nat n)) eqn:E.
  - rewrite Z.sub_nocarry_ldiff.
    + apply Z.bits_inj'. intros i Hi.
      rewrite Z.lxor_spec, Z.ldiff_spec, testbit_single by lia.
      destruct (Z.eqb_spec i (Z.of_nat n)) as [->|]; [rewrite E|]; simpl; btauto.
    + apply Z.bits_inj'. intros i Hi.
      rewrite Z.ldiff_spec, testbit_single, Z.bits_0 by lia.
      destruct (Z.eqb_spec i (Z.of_nat n)) as [->|]; [by rewrite E | done].
  - symmetry. apply Z.add_nocarry_lxor. apply Z.bits_inj'. intros i Hi.
    rewrite Z.land_spec, testbit_single, Z.bits_0 by lia.
    destruct (Z.eqb_spec i (Z.of_nat n)) as [->|]; [by rewrite E | btauto].
Qed.

Lemma testbit_aligned (f : Z) (n : nat) :
  (2 ^ Z.of_nat n | f) ->
  Z.testbit f (Z.of_nat n) = false <-> (2 ^ Z.of_nat (S n) | f).
Proof.
  intros [k ->]. rewrite <- (Z.shiftl_mul_pow2 k) by lia.
  rewrite Z.shiftl_spec, Z.sub_diag by lia. rewrite Z.shiftl_mul_pow2 by lia.
  rewrite pow2_S, Z.bit0_odd. split.
  - intros Ho. destruct (Z.Even_or_Odd k) as [[m ->]|Hodd].
    + exists m. ring.
    + apply Z.odd_spec in Hodd. congruence.
  - intros [m Hm]. destruct (Z.odd k) eqn:Ho; [|done].
    apply Z.odd_spec in Ho as [j ->]. pose proof (pow2_pos n).
    assert (2 * j + 1 = 2 * m) by (apply (Z.mul_reg_r _ _ (2 ^ Z.of_nat n)); lia). lia.
Qed.

(** ** Counted loops

    [for i in a..b { s = f(s, i) }]. *)

Fixpoint for_from {S : Type} (n : nat) (i : Z) (f : S -> Z -> S) (s : S) : S :=
  match n with
  | O => s
  | S n' => for_from n' (i + 1) f (f s i)
  end.

Definition for_range {S : Type} (a b : Z) (f : S -> Z -> S) (s : S) : S :=
  for_from (Z.to_nat (b - a)) a f s.

(** [(a..b).all(p)] with its early exit. *)
Fixpoint all_from (n : nat) (i : Z) (p : Z -> bool) : bool :=
  match n with
  | O => true
  | S n' => if p i then all_from n' (i + 1) p else false
  end.

Definition all_range (a b : Z) (p : Z -> bool) : bool := all_from (Z.to_nat (b - a)) a p.

Lemma for_from_ind {S : Type} (P : Z -> S -> Prop) (f : S -> Z -> S) (n : nat) (i : Z) (s : S) :
  P i s ->
  (forall j s, i <= j < i + Z.of_nat n -> P j s -> P (j + 1) (f s j)) ->
  P (i + Z.of_nat n) (for_from n i f s).
Proof.
  revert i s. induction n as [|n IH]; intros i s H0 Hstep; simpl.
  - by rewrite Z.add_0_r.
  - replace (i + Z.of_nat (Datatypes.S n)) with ((i + 1) + Z.of_nat n) by lia.
    apply IH; [apply Hstep; [lia | done] | intros j s' Hj; apply Hstep; lia].
Qed.

(** The loop rule: an invariant indexed by the loop counter. *)
Lemma for_range_ind {S : Type} (P : Z -> S -> Prop) (f : S -> Z -> S) (a b : Z) (s : S) :
  a <= b -> P a s ->
  (forall j s, a <= j < b -> P j s -> P (j + 1) (f s j)) ->
  P b (for_range a b f s).
Proof.
  intros Hab H0 Hstep. unfold for_range.
  replace b with (a + Z.of_nat (Z.to_nat (b - a))) at 1 by lia.
  apply for_from_ind; [done | intros; apply Hstep; [lia | done]].
Qed.

Lemma all_from_spec (p : Z -> bool) (n : nat) (i : Z) :
  all_from n i p = true <-> forall j, i <= j < i + Z.of_nat n -> p j = true.
Proof.
  revert i. induction n as [|n IH]; intros i; simpl.
  - split; [lia | done].
  - destruct (p i) eqn:E.
    + rewrite IH. split; intros H j Hj.
      * destruct (Z.eq_dec j i) as [->|]; [done | apply H; lia].
      * apply H; lia.
    + split; [done | intros H; rewrite H in E; [done | lia]].
Qed.

Lemma all_range_spec (p : Z -> bool) (a b : Z) :
  all_range a b p = true <-> forall j, a <= j < b -> p j = true.
Proof.
  unfold all_range. rewrite all_from_spec. split; intros H j Hj; apply H; lia.
Qed.

(** [for i in a..b { if let Some(r) = f(i) { return Some(r) } } None] *)
Fixpoint find_from {A : Type} (n : nat) (i : Z) (f : Z -> option A) : option A :=
  match n with
  | O => None
  | S n' =>
      match f i with
      | Some a => Some a
      | None => find_from n' (i + 1) f
      end
  end.

Lemma find_from_Some {A : Type} (f : Z -> option A) (n : nat) (i : Z) (a : A) :
  find_from n i f = Some a -> exists j, i <= j < i + Z.of_nat n /\ f j = Some a.
Proof.
  revert i. induction n as [|n IH]; intros i; simpl; [done|].
  destruct (f i) eqn:E.
  - intros [= <-]. exists i. split; [lia | done].
  - intros (j & Hj & Hf)%IH. exists j. split; [lia | done].
Qed.

Lemma find_from_None {A : Type} (f : Z -> option A) (n : nat) (i : Z) :
  find_from n i f = None <-> forall j, i <= j < i + Z.of_nat n -> f j = None.
Proof.
  revert i. induction n as [|n IH]; intros i; simpl.
  - split; [lia | done].
  - destruct (f i) eqn:E.
    + split; [done | intros H; rewrite H in E; [done | lia]].
    + rewrite IH. split; intros H j Hj.
      * destruct (Z.eq_dec j i) as [->|]; [done | apply H; lia].
      * apply H; lia.
Qed.

Lemma pos_trailing_zeros_spec (p : positive) :
  0 <= pos_trailing_zeros p /\ Z.testbit (Zpos p) (pos_trailing_zeros p) = true /\
  forall i, 0 <= i < pos_trailing_zeros p -> Z.testbit (Zpos p) i = false.
Proof.
  induction p as [p IH|p IH|]; simpl.
  - split; [done|]. split; [done | lia].
  - destruct IH as (H0 & H1 & H2). split; [lia|]. rewrite Pos2Z.inj_xO. split.
    + rewrite Z.add_1_l, Z.testbit_even_succ by lia. done.
    + intros i Hi. destruct (Z.eq_dec i 0) as [->|Hne].
      * apply Z.testbit_even_0.
      * replace i with (Z.succ (i - 1)) by lia. rewrite Z.testbit_even_succ by lia. apply H2. lia.
  - split; [done|]. split; [done | lia].
Qed.

Lemma testbit_u64_high (z i : Z) : 0 <= z < u64_modulus -> 64 <= i -> Z.testbit z i = false.
Proof.
  intros Hz Hi. rewrite <- (Z.mod_small z (2 ^ 64)) by done. by apply Z.mod_pow2_bits_high.
Qed.

(** The first set bit of a nonzero [u64]. *)
Lemma trailing_zeros64_spec (z : Z) :
  0 < z < u64_modulus ->
  0 <= trailing_zeros64 z < 64 /\ Z.testbit z (trailing_zeros64 z) = true /\
  forall i, 0 <= i < trailing_zeros64 z -> Z.testbit z i = false.
Proof.
  destruct z as [|p|p]; [lia | | lia]. intros Hz. simpl.
  destruct (pos_trailing_zeros_spec p) as (H0 & H1 & H2). split; [|done]. split; [done|].
  destruct (Z.le_gt_cases 64 (pos_trailing_zeros p)) as [Hge|]; [|done].
  rewrite testbit_u64_high in H1 by lia. done.
Qed.

Lemma not64_bits (z i : Z) : 0 <= i < 64 -> Z.testbit (not64 z) i = negb (Z.testbit z i).
Proof. intros Hi. unfold not64. rewrite Z.lxor_spec, Z.ones_spec_low by lia. btauto. Qed.

Lemma not64_sub (z : Z) : 0 <= z < u64_modulus -> not64 z = u64_max - z.
Proof.
  intros Hz. change u64_max with (Z.ones 64).
  rewrite Z.sub_nocarry_ldiff.
  - apply Z.bits_inj'. intros i Hi. unfold not64. rewrite Z.lxor_spec, Z.ldiff_spec.
    destruct (Z.lt_ge_cases i 64).
    + rewrite Z.ones_spec_low by lia. btauto.
    + rewrite Z.ones_spec_high by lia. rewrite testbit_u64_high by done. done.
  - apply Z.bits_inj'. intros i Hi. rewrite Z.ldiff_spec, Z.bits_0.
    destruct (Z.lt_ge_cases i 64).
    + rewrite Z.ones_spec_low by lia. btauto.
    + by rewrite testbit_u64_high.
Qed.

(** ** Rounding up to a power of two

    [(addr + align - 1) & !(align - 1)] *)

Definition align_up64 (addr align : Z) : Z := Z.land ((addr +w align) -w 1) (not64 (align -w 1)).

Lemma land_not_ones (x k : Z) :
  0 <= k <= 64 -> 0 <= x < u64_modulus -> Z.land x (not64 (Z.ones k)) = x - x mod 2 ^ k.
Proof.
  intros Hk Hx.
  assert (Hd : Z.land x (not64 (Z.ones k)) = Z.ldiff x (Z.ones k)).
  { apply Z.bits_inj'. intros i Hi. unfold not64. rewrite Z.land_spec, Z.ldiff_spec, Z.lxor_spec.
    destruct (Z.lt_ge_cases i 64).
    - rewrite (Z.ones_spec_low 64 i) by lia. btauto.
    - by rewrite (testbit_u64_high x i). }
  rewrite Hd, Z.ldiff_ones_r by lia. rewrite Z.shiftl_mul_pow2, Z.shiftr_div_pow2 by lia.
  pose proof (Z.div_mod x (2 ^ k)). assert (0 < 2 ^ k) by (apply Z.pow_pos_nonneg; lia). lia.
Qed.

(** Rounding up gives the least multiple not below. *)
Lemma align_up64_spec (addr k : Z) :
  0 <= k < 64 -> 0 <= addr -> addr + 2 ^ k <= u64_modulus ->
  let r := align_up64 addr (2 ^ k) in (2 ^ k | r) /\ addr <= r < addr + 2 ^ k.
Proof.
  intros Hk Ha Hlt. cbv zeta. assert (Hp : 0 < 2 ^ k) by (apply Z.pow_pos_nonneg; lia).
  assert (Hp' : 2 ^ k < u64_modulus) by (apply Z.pow_lt_mono_r; lia).
  assert (Hw : wrap64 (wrap64 (addr + 2 ^ k) - 1) = addr + 2 ^ k - 1).
  { unfold wrap64. rewrite Zminus_mod_idemp_l. apply Z.mod_small. lia. }
  unfold align_up64. rewrite Hw, wrap64_small by (unfold is_u64; lia).
  replace (2 ^ k - 1) with (Z.ones k) by (rewrite Z.ones_equiv; lia).
  rewrite land_not_ones by lia.
  pose proof (Z.mod_pos_bound (addr + 2 ^ k - 1) (2 ^ k) Hp). split; [|lia].
  exists ((addr + 2 ^ k - 1) / 2 ^ k). pose proof (Z.div_mod (addr + 2 ^ k - 1) (2 ^ k) ltac:(lia)). lia.
Qed.

(** ** Allocation requests *)

(** [core::alloc::Layout]. *)
Record Layout := mkLayout { layout_size : Z; layout_align : Z }.

Definition ISIZE_MAX : Z := 2 ^ 63 - 1.

(** A layout as Rust's [Layout] guarantees it: a power-of-two alignment and a
    size within [isize]. *)
Definition layout_ok (l : Layout) : Prop :=
  (exists k, 0 <= k <= 32 /\ layout_align l = 2 ^ k) /\ 0 <= layout_size l <= ISIZE_MAX.

(** ** Lists *)

(** Extracting one index from an indexed union. *)
Lemma flat_map_focus {A} (f : nat -> list A) (l : list nat) (i : nat) :
  NoDup l -> i ∈ l ->
  exists r, flat_map f l ≡ₚ f i ++ r /\
    forall g : nat -> list A, (forall j, j ∈ l -> j <> i -> g j = f j) -> flat_map g l ≡ₚ g i ++ r.
Proof.
  intros Hnd (l1 & l2 & ->)%list_elem_of_split.
  apply NoDup_app in Hnd as (_ & Hn1 & Hn2%NoDup_cons). destruct Hn2 as [Hn2 _].
  exists (flat_map f l1 ++ flat_map f l2).
  assert (Hperm : forall g : nat -> list A, flat_map g (l1 ++ i :: l2) ≡ₚ g i ++ flat_map g l1 ++ flat_map g l2).
  { intros g. rewrite flat_map_app. simpl. rewrite !app_assoc. by rewrite (Permutation_app_comm (flat_map g l1)). }
  split; [apply Hperm|]. intros g Hg. rewrite Hperm.
  assert (Hext : forall k, (forall j, j ∈ k -> g j = f j) -> flat_map g k = flat_map f k).
  { intros k. induction k as [|x k IH]; intros H; [done|]. simpl. rewrite H by (left; done).
    rewrite IH; [done|]. intros j Hj. apply H. by right. }
  rewrite !Hext; [done | |].
  - intros j Hj. apply Hg; [set_solver|]. intros ->. done.
  - intros j Hj. apply Hg; [set_solver|]. intros ->. apply (Hn1 i Hj). by left.
Qed.

Lemma elem_flat_map_seq {A} (f : nat -> list A) (n : nat) (x : A) :
  x ∈ flat_map f (seq 0 n) <-> exists i, (i < n)%nat /\ x ∈ f i.
Proof.
  rewrite list_elem_of_In, in_flat_map. setoid_rewrite <- list_elem_of_In.
  setoid_rewrite elem_of_seq. split; intros (i & H1 & H2); exists i; (split; [lia | done]).
Qed.

(** ** Vectors of pairs used as maps

    [iter().find(|(id, _)| *id == k)] and its [iter_mut] counterpart with a
    [push] when nothing is found. *)

Section VecMap.
Context {A : Type}.

Fixpoint vec_find (k : Z) (l : list (Z * A)) : option A :=
  match l with
  | [] => None
  | (k', a) :: l' => if k' =? k then Some a else vec_find k l'
  end.

Fixpoint vec_set (k : Z) (a : A) (l : list (Z * A)) : list (Z * A) :=
  match l with
  | [] => [(k, a)]
  | (k', a') :: l' => if k' =? k then (k', a) :: l' else (k', a') :: vec_set k a l'
  end.

(** [retain(|(id, _)| *id != k)] *)
Definition vec_remove (k : Z) (l : list (Z * A)) : list (Z * A) := filter (fun kv => kv.1 <> k) l.

Lemma vec_find_set (k k' : Z) (a : A) (l : list (Z * A)) :
  vec_find k' (vec_set k a l) = if k' =? k then Some a else vec_find k' l.
Proof.
  induction l as [|[x b] l IH]; cbn [vec_set vec_find].
  - by rewrite (Z.eqb_sym k k').
  - destruct (Z.eqb_spec x k) as [->|Hne]; cbn [vec_find].
    + rewrite (Z.eqb_sym k k'). by destruct (k' =? k).
    + destruct (Z.eqb_spec x k') as [->|]; [|done]. by destruct (Z.eqb_spec k' k).
Qed.

Lemma vec_find_remove (k k' : Z) (l : list (Z * A)) :
  vec_find k' (vec_remove k l) = if k' =? k then None else vec_find k' l.
Proof.
  unfold vec_remove. induction l as [|[x b] l IH]; [by destruct (k' =? k)|]. rewrite filter_cons. cbn [fst vec_find].
  destruct (decide (x <> k)) as [Hne|He]; cbn [vec_find].
  - destruct (Z.eqb_spec x k') as [->|]; [|done]. by destruct (Z.eqb_spec k' k).
  - apply dec_stable in He. subst x. rewrite IH, (Z.eqb_sym k k'). by destruct (k' =? k).
Qed.

Lemma vec_find_elem (k : Z) (a : A) (l : list (Z * A)) : vec_find k l = Some a -> (k, a) ∈ l.
Proof.
  induction l as [|[x b] l IH]; cbn [vec_find]; [done|]. destruct (Z.eqb_spec x k) as [->|]; [intros [= ->]; left | right; auto].
Qed.

End VecMap.

(** ** Memory as bytes

    Little-endian words, and reads and slices of byte buffers.  [read] is a read
    through a pointer: outside the buffer it is undefined. *)

Module Bytes.

Fixpoint from_le (l : list Z) : Z :=
  match l with
  | [] => 0
  | b :: l' => b + 256 * from_le l'
  end.

Fixpoint to_le (n : nat) (v : Z) : list Z :=
  match n with
  | O => []
  | S n' => v mod 256 :: to_le n' (v / 256)
  end.

Definition len (data : list Z) : Z := Z.of_nat (length data).

(** [ptr::read(data.as_ptr().add(off))] of [n] bytes. *)
Definition read (data : list Z) (off : Z) (n : nat) : outcome (list Z) :=
  if (0 <=? off) && (off + Z.of_nat n <=? len data) then Ret (take n (drop (Z.to_nat off) data)) else Panic.

(** The field of [n] bytes at [i] of a struct. *)
Definition field (s : list Z) (i n : nat) : Z := from_le (take n (drop i s)).

(** [&data[a..b]] *)
Definition slice (data : list Z) (a b : Z) : outcome (list Z) :=
  if (0 <=? a) && (a <=? b) && (b <=? len data) then Ret (take (Z.to_nat (b - a)) (drop (Z.to_nat a) data)) else Panic.

Lemma from_to_le n v : 0 <= v -> from_le (to_le n v) = v mod 256 ^ Z.of_nat n.
Proof.
  revert v. induction n as [|n IH]; intros v Hv; cbn [from_le to_le]; [by rewrite Z.mod_1_r|].
  rewrite IH by (apply Z.div_pos; lia). rewrite Nat2Z.inj_succ, Z.pow_succ_r by lia.
  rewrite (Z.rem_mul_r v 256 (256 ^ Z.of_nat n)) by (try lia; apply Z.pow_pos_nonneg; lia). done.
Qed.

Lemma length_to_le n v : length (to_le n v) = n.
Proof. revert v. induction n as [|n IH]; intros v; cbn; [done | by rewrite IH]. Qed.

Lemma from_le_bound l : Forall (fun b => 0 <= b < 256) l -> 0 <= from_le l < 256 ^ Z.of_nat (length l).
Proof.
  induction 1 as [|b l Hb Hl IH]; [done|]. cbn [from_le length]. rewrite Nat2Z.inj_succ, Z.pow_succ_r by lia. nia.
Qed.

End Bytes.
