(* ===== verification/Ranges.v ===== *)
(** * Address ranges and frame bitmaps

    A range is a start and a size.  The allocators and the object registry keep
    sets of ranges apart from each other.

    Both physical frame allocators (src/src/mm/buddy_allocator.rs and
    src/src/mm/frame_allocator.rs) track 4 KiB frames in an array of [u64]
    words, bit [f % 64] of word [f / 64] set when frame [f] is in use.  The
    second part holds the reference reading of such an array, [bit_used], and the
    lemmas on setting and clearing one bit; the two allocators' operations are
    modelled in their own files and related to it there. *)

From stdpp Require Import base list.
From Stdlib Require Import ZArith Lia Btauto.
From S2P Require Import Prelude.

Local Open Scope Z_scope.

Definition range : Type := Z * Z.

Definition ranges_apart (r1 r2 : range) : Prop := r1.1 + r1.2 <= r2.1 \/ r2.1 + r2.2 <= r1.1.

#[export] Instance ranges_apart_sym : Symmetric ranges_apart.
Proof. intros x y [H|H]; [by right | by left]. Qed.

(** Every two ranges of the list are apart. *)
Fixpoint all_apart (l : list range) : Prop :=
  match l with
  | [] => True
  | r :: l' => Forall (ranges_apart r) l' /\ all_apart l'
  end.

#[export] Instance all_apart_perm : Proper ((≡ₚ) ==> iff) all_apart.
Proof.
  intros l l' Hp. induction Hp as [|x l l' Hp IH|x y l|l1 l2 l3 _ IH1 _ IH2]; simpl.
  - done.
  - by rewrite IH, Hp.
  - rewrite !Forall_cons. split; intros [[H1 H2] [H3 H4]]; (split; [split; [by symmetry | done] | done]).
  - by rewrite IH1.
Qed.

Lemma all_apart_app (l1 l2 : list range) :
  all_apart (l1 ++ l2) <->
  all_apart l1 /\ all_apart l2 /\ forall x y, x ∈ l1 -> y ∈ l2 -> ranges_apart x y.
Proof.
  induction l1 as [|x l1 IH]; simpl.
  - split; [intros H; split; [done|]; split; [done|]; by intros ?? ?%elem_of_nil | tauto].
  - rewrite IH, Forall_app. rewrite !Forall_forall. split.
    + intros ((Hx1 & Hx2) & H1 & H2 & H3). split; [done|]. split; [done|].
      intros a b [-> | Ha]%elem_of_cons Hb; auto.
    + intros ((Hx & H1) & H2 & H3). split; [split; [done|]|].
      * intros b Hb. apply H3; [by left | done].
      * split; [done|]. split; [done|]. intros a b Ha Hb. apply H3; [by right | done].
Qed.

Lemma all_apart_lookup (l : list range) (i j : nat) (x y : range) :
  all_apart l -> l !! i = Some x -> l !! j = Some y -> i <> j -> ranges_apart x y.
Proof.
  revert i j. induction l as [|r l IH]; intros i j Hall Hi Hj Hne; [done|]. destruct Hall as [Hr Hl].
  rewrite Forall_forall in Hr. destruct i as [|i], j as [|j]; simpl in *; simplify_eq.
  - apply Hr. by eapply list_elem_of_lookup_2.
  - symmetry. apply Hr. by eapply list_elem_of_lookup_2.
  - eapply (IH i j); eauto.
Qed.

(** A sub-range of a range that is apart is apart. *)
Definition sub_range (r1 r2 : range) : Prop := r2.1 <= r1.1 /\ r1.1 + r1.2 <= r2.1 + r2.2.

Lemma sub_range_apart (r1 r2 r3 : range) :
  sub_range r1 r2 -> ranges_apart r2 r3 -> ranges_apart r1 r3.
Proof. unfold sub_range, ranges_apart. lia. Qed.

(** Replacing a range by parts of it that are apart keeps everything apart. *)
Lemma all_apart_refine (r : range) (parts rest : list range) :
  all_apart (r :: rest) -> all_apart parts -> Forall (fun p => sub_range p r) parts ->
  all_apart (parts ++ rest).
Proof.
  intros [Hr Hrest] Hparts Hsub. apply all_apart_app. split; [done|]. split; [done|].
  rewrite Forall_forall in Hsub, Hr. intros x y Hx Hy. eapply sub_range_apart; eauto.
Qed.

(** ** Frame bitmaps *)

(** The bit of frame [f]: [true] when the frame is in use or outside the map. *)
Definition bit_used (bm : list Z) (f : Z) : bool :=
  match bm !! Z.to_nat (f / 64) with
  | Some w => Z.testbit w (f mod 64)
  | None => true
  end.

Definition set_bit (bm : list Z) (f : Z) : list Z :=
  alter (fun w => Z.lor w (Z.shiftl 1 (f mod 64))) (Z.to_nat (f / 64)) bm.

Definition clear_bit (bm : list Z) (f : Z) : list Z :=
  alter (fun w => Z.land w (not64 (Z.shiftl 1 (f mod 64)))) (Z.to_nat (f / 64)) bm.

(** Two frames share a word and a bit only when they are the same frame. *)
Lemma frame_split_inj (f g : Z) :
  0 <= f -> 0 <= g -> Z.to_nat (f / 64) = Z.to_nat (g / 64) -> f mod 64 = g mod 64 -> f = g.
Proof.
  intros Hf Hg Hd Hm.
  pose proof (Z.div_pos f 64 Hf ltac:(lia)). pose proof (Z.div_pos g 64 Hg ltac:(lia)).
  rewrite (Z.div_mod f 64), (Z.div_mod g 64) by lia. lia.
Qed.

Lemma testbit_shiftl_1 (b i : Z) : 0 <= b -> 0 <= i -> Z.testbit (Z.shiftl 1 b) i = (i =? b).
Proof.
  intros Hb Hi. rewrite Z.shiftl_mul_pow2, Z.mul_1_l by done. by apply testbit_single.
Qed.

Lemma testbit_not64_shiftl_1 (b i : Z) :
  0 <= b < 64 -> 0 <= i < 64 -> Z.testbit (not64 (Z.shiftl 1 b)) i = negb (i =? b).
Proof.
  intros Hb Hi. unfold not64.
  rewrite Z.lxor_spec, testbit_shiftl_1, Z.ones_spec_low by lia. btauto.
Qed.

Lemma frame_bit_range (f : Z) : 0 <= f mod 64 < 64.
Proof. apply Z.mod_pos_bound. lia. Qed.

Lemma bit_used_set (bm : list Z) (f g : Z) :
  0 <= f -> 0 <= g ->
  bit_used (set_bit bm f) g = (f =? g) || bit_used bm g.
Proof.
  intros Hf Hg. unfold bit_used, set_bit. rewrite list_lookup_alter.
  pose proof (frame_bit_range f). pose proof (frame_bit_range g).
  destruct (decide (Z.to_nat (f / 64) = Z.to_nat (g / 64))) as [Hw|Hw].
  - rewrite <- Hw. destruct (bm !! Z.to_nat (f / 64)) as [w|]; simpl; [|btauto].
    rewrite Z.lor_spec, testbit_shiftl_1 by lia.
    destruct (Z.eqb_spec f g) as [->|Hne]; [rewrite Z.eqb_refl; btauto|].
    destruct (Z.eqb_spec (g mod 64) (f mod 64)) as [He|]; [|btauto].
    exfalso. apply Hne. by apply frame_split_inj.
  - destruct (Z.eqb_spec f g) as [->|]; done.
Qed.

Lemma bit_used_clear (bm : list Z) (f g : Z) :
  0 <= f -> 0 <= g -> (Z.to_nat (f / 64) < length bm)%nat ->
  bit_used (clear_bit bm f) g = negb (f =? g) && bit_used bm g.
Proof.
  intros Hf Hg Hin. unfold bit_used, clear_bit. rewrite list_lookup_alter.
  pose proof (frame_bit_range f). pose proof (frame_bit_range g).
  destruct (decide (Z.to_nat (f / 64) = Z.to_nat (g / 64))) as [Hw|Hw].
  - rewrite <- Hw. destruct (lookup_lt_is_Some_2 _ _ Hin) as [w ->]; simpl.
    rewrite Z.land_spec, testbit_not64_shiftl_1 by lia.
    destruct (Z.eqb_spec f g) as [->|Hne]; [rewrite Z.eqb_refl; btauto|].
    destruct (Z.eqb_spec (g mod 64) (f mod 64)) as [He|]; [|btauto].
    exfalso. apply Hne. by apply frame_split_inj.
  - destruct (Z.eqb_spec f g) as [->|]; done.
Qed.

Lemma length_set_bit (bm : list Z) (f : Z) : length (set_bit bm f) = length bm.
Proof. apply length_alter. Qed.

Lemma length_clear_bit (bm : list Z) (f : Z) : length (clear_bit bm f) = length bm.
Proof. apply length_alter. Qed.

(** The test [word & (1 << bit) == 0] of the sources. *)
Lemma land_shiftl_1_eqb (w b : Z) :
  0 <= b -> (Z.land w (Z.shiftl 1 b) =? 0) = negb (Z.testbit w b).
Proof.
  intros Hb. destruct (Z.testbit w b) eqn:E; simpl.
  - apply Z.eqb_neq. intros H0.
    assert (Z.testbit (Z.land w (Z.shiftl 1 b)) b = false) as Hc by (rewrite H0; apply Z.bits_0).
    rewrite Z.land_spec, testbit_shiftl_1, Z.eqb_refl, E in Hc by done. done.
  - apply Z.eqb_eq. apply Z.bits_inj'. intros i Hi.
    rewrite Z.land_spec, testbit_shiftl_1, Z.bits_0 by done.
    destruct (Z.eqb_spec i b) as [->|]; [by rewrite E | btauto].
Qed.

(** A full word [u64::MAX] has every bit set. *)
Lemma testbit_u64_max (i : Z) : 0 <= i < 64 -> Z.testbit u64_max i = true.
Proof.
  intros Hi. change u64_max with (Z.ones 64). by apply Z.ones_spec_low.
Qed.
