(* ===== verification/Paging.v ===== *)
(** * The paging types of the x86_64 crate, as an interface, and the linear mapping

    The memory manager passes physical addresses and frames to the rest of the
    kernel as [PhysAddr] and [PhysFrame<S>] of the third-party crate [x86_64].
    [X86Paging] is the part of that crate the modelled code calls and
    [X86PagingLaws] its documented behaviour: [PhysAddr::new] accepts the
    addresses below [2^52] and panics on others, [as_u64] gives the address
    back, [containing_address] rounds down to the page size of the frame.  The last
    part is the linear mapping of physical memory (src/src/mm/mapping.rs). *)

From stdpp Require Import base tactics numbers.
From Stdlib Require Import ZArith Lia.
From S2P Require Import Prelude.

Local Open Scope Z_scope.

Definition PHYS_ADDR_LIMIT : Z := 2 ^ 52.

Class X86Paging := {
  PhysAddr : Type;
  PhysFrame : Type;
  phys_addr_new : Z -> outcome PhysAddr;
  phys_as_u64 : PhysAddr -> Z;
  containing_address : Z -> PhysAddr -> PhysFrame;
  start_address : PhysFrame -> PhysAddr
}.

Class X86PagingLaws `{P : X86Paging} : Prop := {
  phys_addr_new_ok : forall a, 0 <= a < PHYS_ADDR_LIMIT ->
    exists p, phys_addr_new a = Ret p /\ phys_as_u64 p = a;
  phys_addr_new_panics : forall a, PHYS_ADDR_LIMIT <= a -> phys_addr_new a = Panic;
  containing_address_start : forall size p, 0 < size ->
    phys_as_u64 (start_address (containing_address size p)) =
      phys_as_u64 p - phys_as_u64 p mod size
}.

(** A concrete reading of the interface: an address is its number. *)
#[export] Instance Z_paging : X86Paging := {|
  PhysAddr := Z;
  PhysFrame := Z;
  phys_addr_new := fun a => if (0 <=? a) && (a <? PHYS_ADDR_LIMIT) then Ret a else Panic;
  phys_as_u64 := fun a => a;
  containing_address := fun size a => a - a mod size;
  start_address := fun f => f
|}.

#[export] Instance Z_paging_laws : X86PagingLaws (P := Z_paging).
Proof.
  split.
  - intros a Ha. exists a. simpl.
    destruct (Z.leb_spec 0 a), (Z.ltb_spec a PHYS_ADDR_LIMIT); simpl; try lia. done.
  - intros a Ha. simpl. rewrite (proj2 (Z.ltb_ge _ _)) by lia. by rewrite andb_false_r.
  - done.
Qed.

Section Frames.
Context `{L : X86PagingLaws}.

(** An aligned address survives the trip through a frame. *)
Lemma frame_roundtrip (a size : Z) :
  0 <= a < PHYS_ADDR_LIMIT -> 0 < size -> (size | a) ->
  exists p, phys_addr_new a = Ret p /\
    phys_as_u64 (start_address (containing_address size p)) = a.
Proof.
  intros Ha Hs Hd. destruct (phys_addr_new_ok a Ha) as (p & Hp & Hu).
  exists p. split; [done|]. rewrite containing_address_start, Hu by done.
  apply Z.mod_divide in Hd; lia.
Qed.

End Frames.

(** ** Virtual addresses

    [VirtAddr::new] accepts the canonical addresses (bits 47 to 63 equal) and
    panics on others. *)

Definition is_canonical (a : Z) : Prop := 0 <= a < 2 ^ 47 \/ 2 ^ 64 - 2 ^ 47 <= a < 2 ^ 64.

#[export] Instance is_canonical_dec (a : Z) : Decision (is_canonical a).
Proof. unfold is_canonical. solve_decision. Defined.

Class X86Virtual := {
  VirtAddr : Type;
  virt_addr_new : Z -> outcome VirtAddr;
  virt_as_u64 : VirtAddr -> Z
}.

Class X86VirtualLaws `{V : X86Virtual} : Prop := {
  virt_addr_new_ok : forall a, is_canonical a ->
    exists v, virt_addr_new a = Ret v /\ virt_as_u64 v = a
}.

#[export] Instance Z_virtual : X86Virtual := {|
  VirtAddr := Z;
  virt_addr_new := fun a => if decide (is_canonical a) then Ret a else Panic;
  virt_as_u64 := fun a => a
|}.

#[export] Instance Z_virtual_laws : X86VirtualLaws (V := Z_virtual).
Proof. split. intros a Ha. exists a. simpl. by rewrite decide_True. Qed.

(** ** The linear mapping of physical memory *)

Definition PHYSICAL_MEMORY_OFFSET : Z := 0xFFFF800000000000.

Section Mapping.
Context `{P : X86Paging} `{V : X86Virtual}.

Definition phys_to_virt (phys : PhysAddr) : outcome VirtAddr :=
  virt_addr_new (phys_as_u64 phys +w PHYSICAL_MEMORY_OFFSET).

Definition virt_to_phys (virt : VirtAddr) : outcome PhysAddr :=
  phys_addr_new (virt_as_u64 virt -w PHYSICAL_MEMORY_OFFSET).

End Mapping.

(** The physical addresses the mapping reaches: the upper half is 128 TiB. *)
Definition MAPPED_LIMIT : Z := 2 ^ 47.

Section MappingLaws.
Context `{L : X86PagingLaws} `{LV : X86VirtualLaws}.

(** Below 128 TiB the mapping is total and adds the offset. *)
Lemma phys_to_virt_ok (p : PhysAddr) :
  0 <= phys_as_u64 p < MAPPED_LIMIT ->
  exists v, phys_to_virt p = Ret v /\ virt_as_u64 v = phys_as_u64 p + PHYSICAL_MEMORY_OFFSET.
Proof using LV.
  intros Hp. unfold phys_to_virt, MAPPED_LIMIT, PHYSICAL_MEMORY_OFFSET in *.
  rewrite wrap64_small by (unfold is_u64, u64_modulus; lia).
  apply virt_addr_new_ok. right. lia.
Qed.

Lemma phys_virt_roundtrip (p : PhysAddr) :
  0 <= phys_as_u64 p < MAPPED_LIMIT ->
  exists v p', phys_to_virt p = Ret v /\ virt_to_phys v = Ret p' /\ phys_as_u64 p' = phys_as_u64 p.
Proof using L LV.
  intros Hp. destruct (phys_to_virt_ok p Hp) as (v & Hv & Hu).
  unfold MAPPED_LIMIT in Hp.
  destruct (phys_addr_new_ok (phys_as_u64 p)) as (p' & Hp' & Hu').
  { unfold PHYS_ADDR_LIMIT. lia. }
  exists v, p'. split; [done|]. unfold virt_to_phys. rewrite Hu, Z.add_simpl_r.
  rewrite wrap64_small by (unfold is_u64, u64_modulus; lia). done.
Qed.

End MappingLaws.
