(* ===== verification/Buddy.v ===== *)
(** * The buddy allocator for physical frames (src/src/mm/buddy_allocator.rs)

    [FreeList] is the array-backed list of free block heads of one order,
    [BuddyFrameAllocator] the allocator itself.  A block of order [o] is a run
    of [2^o] frames; orders are array indices and shift counts between 0 and
    [MAX_ORDER], modelled by [nat], and frame numbers are [usize] words,
    modelled by [Z].  Array accesses that the source does not guard panic out
    of range: [outcome] records it. *)

From stdpp Require Import base list.
From Stdlib Require Import ZArith Lia Btauto Permutation.
From S2P Require Import Prelude Ranges Paging.

Local Open Scope Z_scope.

Definition PAGE_SIZE_4K : Z := 4096.
Definition PAGE_SIZE_2M : Z := 2 * 1024 * 1024.
Definition PAGE_SIZE_1G : Z := 1024 * 1024 * 1024.
Definition MAX_ORDER : nat := 18.
Definition MAX_PHYSICAL_MEMORY : Z := 16 * 1024 * 1024 * 1024.
Definition MAX_4K_FRAMES : Z := MAX_PHYSICAL_MEMORY / PAGE_SIZE_4K.
(** The capacity the source announces for a free list; nothing uses it. *)
Definition MAX_FREE_LIST_ENTRIES : Z := MAX_4K_FRAMES / 2.
(** The number of words of the bitmap array, [bitmap.len()]. *)
Definition BITMAP_LEN : Z := MAX_4K_FRAMES / 64.
(** The number of entries of a free list array, [entries.len()]. *)
Definition ENTRIES_LEN : nat := Z.to_nat 8192.

(** ** FrameIndex *)

Definition from_phys_addr (addr : Z) : Z := addr / PAGE_SIZE_4K.
Definition to_phys_addr (f : Z) : Z := f *w PAGE_SIZE_4K.
Definition buddy (f : Z) (order : nat) : Z := Z.lxor f (Z.shiftl 1 (Z.of_nat order)).
Definition align_down (f : Z) (order : nat) : Z :=
  let block_size := Z.shiftl 1 (Z.of_nat order) in (f / block_size) * block_size.

(** ** FreeList *)

Record FreeList := mkFreeList {
  entries : list (option Z);
  count : nat
}.

Definition FreeList_new : FreeList := mkFreeList (replicate ENTRIES_LEN None) 0.

(** A full list drops the frame. *)
Definition FreeList_push (fl : FreeList) (frame : Z) : FreeList :=
  if (count fl <? ENTRIES_LEN)%nat
  then mkFreeList (<[count fl := Some frame]> (entries fl)) (S (count fl))
  else fl.

Definition FreeList_pop (fl : FreeList) : outcome (option Z * FreeList) :=
  if (0 <? count fl)%nat then
    let c := (count fl - 1)%nat in
    let! e := index (entries fl) c in
    Ret (e, mkFreeList (<[c := None]> (entries fl)) c)
  else Ret (None, fl).

(** The search loop of [remove]: the first index below [i + n] that holds [frame]. *)
Fixpoint FreeList_find (es : list (option Z)) (frame : Z) (i n : nat) : outcome (option nat) :=
  match n with
  | O => Ret None
  | S n' =>
      let! e := index es i in
      if bool_decide (e = Some frame) then Ret (Some i) else FreeList_find es frame (S i) n'
  end.

(** The last entry is taken before the hole is overwritten: when the hole is
    the last entry itself, the removed frame stays in the array beyond [count]. *)
Definition FreeList_remove (fl : FreeList) (frame : Z) : outcome (bool * FreeList) :=
  let! found := FreeList_find (entries fl) frame 0 (count fl) in
  match found with
  | None => Ret (false, fl)
  | Some i =>
      let c := (count fl - 1)%nat in
      let! lst := index (entries fl) c in
      let! es := index_set (<[c := None]> (entries fl)) i lst in
      Ret (true, mkFreeList es c)
  end.

Definition FreeList_is_empty (fl : FreeList) : bool := (count fl =? 0)%nat.
Definition FreeList_len (fl : FreeList) : nat := count fl.

(** ** BuddyFrameAllocator *)

Record BuddyFrameAllocator := mkBuddy {
  free_lists : list FreeList;
  bitmap : list Z;
  total_frames : Z;
  free_frames : Z;
  split_count : Z;
  coalesce_count : Z
}.

Definition with_free_lists (st : BuddyFrameAllocator) (fls : list FreeList) : BuddyFrameAllocator :=
  mkBuddy fls (bitmap st) (total_frames st) (free_frames st) (split_count st) (coalesce_count st).
Definition with_bitmap (st : BuddyFrameAllocator) (bm : list Z) : BuddyFrameAllocator :=
  mkBuddy (free_lists st) bm (total_frames st) (free_frames st) (split_count st) (coalesce_count st).
Definition with_total_frames (st : BuddyFrameAllocator) (n : Z) : BuddyFrameAllocator :=
  mkBuddy (free_lists st) (bitmap st) n (free_frames st) (split_count st) (coalesce_count st).
Definition with_free_frames (st : BuddyFrameAllocator) (n : Z) : BuddyFrameAllocator :=
  mkBuddy (free_lists st) (bitmap st) (total_frames st) n (split_count st) (coalesce_count st).
Definition with_split_count (st : BuddyFrameAllocator) (n : Z) : BuddyFrameAllocator :=
  mkBuddy (free_lists st) (bitmap st) (total_frames st) (free_frames st) n (coalesce_count st).
Definition with_coalesce_count (st : BuddyFrameAllocator) (n : Z) : BuddyFrameAllocator :=
  mkBuddy (free_lists st) (bitmap st) (total_frames st) (free_frames st) (split_count st) n.

Definition BuddyFrameAllocator_new : BuddyFrameAllocator :=
  mkBuddy (replicate (MAX_ORDER + 1) FreeList_new) (replicate (Z.to_nat BITMAP_LEN) 0) 0 0 0 0.

(** [self.free_lists[order].push(frame)] *)
Definition push_at (st : BuddyFrameAllocator) (order : nat) (frame : Z) : outcome BuddyFrameAllocator :=
  let! fl := index (free_lists st) order in
  Ret (with_free_lists st (<[order := FreeList_push fl frame]> (free_lists st))).

(** [self.free_lists[order].pop()] *)
Definition pop_at (st : BuddyFrameAllocator) (order : nat) : outcome (option Z * BuddyFrameAllocator) :=
  let! fl := index (free_lists st) order in
  let! (r, fl') := FreeList_pop fl in
  Ret (r, with_free_lists st (<[order := fl']> (free_lists st))).

(** [self.free_lists[order].remove(frame)] *)
Definition remove_at (st : BuddyFrameAllocator) (order : nat) (frame : Z) :
    outcome (bool * BuddyFrameAllocator) :=
  let! fl := index (free_lists st) order in
  let! (r, fl') := FreeList_remove fl frame in
  Ret (r, with_free_lists st (<[order := fl']> (free_lists st))).

Definition mark_frame_free (st : BuddyFrameAllocator) (frame : Z) : BuddyFrameAllocator :=
  let word_idx := frame / 64 in
  let bit_idx := frame mod 64 in
  if word_idx <? BITMAP_LEN
  then with_bitmap st
         (alter (fun w => Z.land w (not64 (Z.shiftl 1 bit_idx))) (Z.to_nat word_idx) (bitmap st))
  else st.

Definition mark_frame_used (st : BuddyFrameAllocator) (frame : Z) : BuddyFrameAllocator :=
  let word_idx := frame / 64 in
  let bit_idx := frame mod 64 in
  if word_idx <? BITMAP_LEN
  then with_bitmap st
         (alter (fun w => Z.lor w (Z.shiftl 1 bit_idx)) (Z.to_nat word_idx) (bitmap st))
  else st.

Definition is_frame_free (st : BuddyFrameAllocator) (frame : Z) : bool :=
  let word_idx := frame / 64 in
  let bit_idx := frame mod 64 in
  if word_idx >=? BITMAP_LEN then false
  else match bitmap st !! Z.to_nat word_idx with
       | Some w => Z.land w (Z.shiftl 1 bit_idx) =? 0
       | None => false
       end.

(** [for i in 0..block_size { self.mark_frame_free(frame + i) }] *)
Definition mark_block_free (st : BuddyFrameAllocator) (frame block_size : Z) : BuddyFrameAllocator :=
  for_range 0 block_size (fun s i => mark_frame_free s (frame +w i)) st.

Definition mark_block_used (st : BuddyFrameAllocator) (frame block_size : Z) : BuddyFrameAllocator :=
  for_range 0 block_size (fun s i => mark_frame_used s (frame +w i)) st.

(** The order [add_region] gives to the block at [current]. *)
Definition region_order (current end_idx : Z) : nat :=
  let remaining := end_idx - current in
  let max_order_by_alignment := trailing_zeros64 current in
  let max_order_by_size := 64 - leading_zeros64 remaining - 1 in
  Z.to_nat (Z.min (Z.min max_order_by_alignment max_order_by_size) (Z.of_nat MAX_ORDER)).

(** The body of the loop of [add_region]. *)
Definition add_block (st : BuddyFrameAllocator) (current : Z) (order : nat) :
    outcome BuddyFrameAllocator :=
  let block_size := Z.shiftl 1 (Z.of_nat order) in
  let! st1 := push_at st order current in
  let st2 := with_free_frames st1 (free_frames st1 +w block_size) in
  Ret (mark_block_free st2 current block_size).

(** [while current < end_idx]; each turn advances [current] by at least one,
    so [end_idx - current] turns are enough. *)
Fixpoint add_region_loop (fuel : nat) (st : BuddyFrameAllocator) (current end_idx : Z) :
    outcome BuddyFrameAllocator :=
  if current <? end_idx then
    match fuel with
    | O => Ret st
    | S fuel' =>
        let order := region_order current end_idx in
        let! st1 := add_block st current order in
        add_region_loop fuel' st1 (current +w Z.shiftl 1 (Z.of_nat order)) end_idx
    end
  else Ret st.

Definition add_region (st : BuddyFrameAllocator) (start end_ : Z) : outcome BuddyFrameAllocator :=
  add_region_loop (Z.to_nat (end_ - start)) st start end_.

(** The regions are (physical address, byte size) pairs. *)
Definition init_region (acc : BuddyFrameAllocator * Z) (region : Z * Z) :
    outcome (BuddyFrameAllocator * Z) :=
  let '(st, total) := acc in
  let '(start, size) := region in
  let start_frame := from_phys_addr start in
  let end_frame := from_phys_addr (start +w size) in
  let! st1 := add_region st start_frame end_frame in
  Ret (st1, Z.max total end_frame).

Definition init (st : BuddyFrameAllocator) (usable_regions : list (Z * Z)) :
    outcome BuddyFrameAllocator :=
  let st0 := with_bitmap st ((fun _ => u64_max) <$> bitmap st) in
  let! (st1, total) := ofold init_region (st0, 0) usable_regions in
  Ret (with_total_frames st1 total).

(** The loop of [split_block] with [n = current_order - to_order] turns left. *)
Fixpoint split_loop (n : nat) (st : BuddyFrameAllocator) (frame : Z) (to_order : nat) :
    outcome BuddyFrameAllocator :=
  match n with
  | O => Ret st
  | S n' =>
      let current_order := (to_order + n')%nat in
      let b := frame +w Z.shiftl 1 (Z.of_nat current_order) in
      let! st1 := push_at st current_order b in
      split_loop n' (with_split_count st1 (split_count st1 +w 1)) frame to_order
  end.

Definition split_block (st : BuddyFrameAllocator) (frame : Z) (from_order to_order : nat) :
    outcome BuddyFrameAllocator :=
  split_loop (from_order - to_order) st frame to_order.

(** The part of [allocate_order] that follows a successful [pop]. *)
Definition take_block (st : BuddyFrameAllocator) (frame : Z) (current_order order : nat) :
    outcome BuddyFrameAllocator :=
  let! st1 := split_block st frame current_order order in
  let block_size := Z.shiftl 1 (Z.of_nat order) in
  let st2 := mark_block_used st1 frame block_size in
  Ret (with_free_frames st2 (free_frames st2 -w block_size)).

(** [for current_order in order..=MAX_ORDER] *)
Fixpoint allocate_scan (st : BuddyFrameAllocator) (order : nat) (orders : list nat) :
    outcome (option Z * BuddyFrameAllocator) :=
  match orders with
  | [] => Ret (None, st)
  | current_order :: rest =>
      let! (r, st1) := pop_at st current_order in
      match r with
      | Some frame =>
          let! st2 := take_block st1 frame current_order order in
          Ret (Some frame, st2)
      | None => allocate_scan st1 order rest
      end
  end.

Definition allocate_order (st : BuddyFrameAllocator) (order : nat) :
    outcome (option Z * BuddyFrameAllocator) :=
  allocate_scan st order (seq order (MAX_ORDER + 1 - order)).

Definition is_buddy_free (st : BuddyFrameAllocator) (b : Z) (order : nat) : bool :=
  let block_size := Z.shiftl 1 (Z.of_nat order) in
  if b +w block_size >? total_frames st then false
  else all_range 0 block_size (fun i => is_frame_free st (b +w i)).

(** The loop of [coalesce] with [n = MAX_ORDER - current_order] turns left;
    the state, the head and the order it stops with. *)
Fixpoint coalesce_loop (n : nat) (st : BuddyFrameAllocator) (current_frame : Z) (current_order : nat) :
    outcome (BuddyFrameAllocator * Z * nat) :=
  match n with
  | O => Ret (st, current_frame, current_order)
  | S n' =>
      let b := buddy current_frame current_order in
      if is_buddy_free st b current_order then
        let! (removed, st1) := remove_at st current_order b in
        if removed then
          coalesce_loop n'
            (with_coalesce_count st1 (coalesce_count st1 +w 1))
            (if current_frame <? b then current_frame else b)
            (S current_order)
        else Ret (st1, current_frame, current_order)
      else Ret (st, current_frame, current_order)
  end.

Definition coalesce (st : BuddyFrameAllocator) (frame : Z) (order : nat) : outcome BuddyFrameAllocator :=
  let! (st1, f, o) := coalesce_loop (MAX_ORDER - order) st frame order in
  push_at st1 o f.

Definition deallocate_order (st : BuddyFrameAllocator) (frame : Z) (order : nat) :
    outcome BuddyFrameAllocator :=
  let block_size := Z.shiftl 1 (Z.of_nat order) in
  let st1 := mark_block_free st frame block_size in
  let st2 := with_free_frames st1 (free_frames st1 +w block_size) in
  coalesce st2 frame order.

Definition frames_to_order (frames : Z) : nat :=
  if frames =? 0 then 0%nat
  else Z.to_nat (64 - leading_zeros64 (frames - 1)).

(** ** The public interface *)

Section Api.
Context `{P : X86Paging}.

(** [PhysFrame::containing_address(PhysAddr::new(frame.to_phys_addr()))] *)
Definition frame_of_index (page_size : Z) (r : option Z) : outcome (option PhysFrame) :=
  match r with
  | Some f => let! a := phys_addr_new (to_phys_addr f) in Ret (Some (containing_address page_size a))
  | None => Ret None
  end.

Definition allocate_4k_frame (st : BuddyFrameAllocator) : outcome (option PhysFrame * BuddyFrameAllocator) :=
  let! (r, st1) := allocate_order st 0 in
  let! fr := frame_of_index PAGE_SIZE_4K r in Ret (fr, st1).

Definition allocate_2m_frame (st : BuddyFrameAllocator) : outcome (option PhysFrame * BuddyFrameAllocator) :=
  let order := frames_to_order (PAGE_SIZE_2M / PAGE_SIZE_4K) in
  let! (r, st1) := allocate_order st order in
  let! fr := frame_of_index PAGE_SIZE_2M r in Ret (fr, st1).

Definition allocate_1g_frame (st : BuddyFrameAllocator) : outcome (option PhysFrame * BuddyFrameAllocator) :=
  let order := frames_to_order (PAGE_SIZE_1G / PAGE_SIZE_4K) in
  let! (r, st1) := allocate_order st order in
  let! fr := frame_of_index PAGE_SIZE_1G r in Ret (fr, st1).

Definition deallocate_4k_frame (st : BuddyFrameAllocator) (fr : PhysFrame) : outcome BuddyFrameAllocator :=
  let frame_idx := from_phys_addr (phys_as_u64 (start_address fr)) in
  deallocate_order st frame_idx 0.

Definition deallocate_2m_frame (st : BuddyFrameAllocator) (fr : PhysFrame) : outcome BuddyFrameAllocator :=
  let frame_idx := from_phys_addr (phys_as_u64 (start_address fr)) in
  let order := frames_to_order (PAGE_SIZE_2M / PAGE_SIZE_4K) in
  deallocate_order st frame_idx order.

Definition deallocate_1g_frame (st : BuddyFrameAllocator) (fr : PhysFrame) : outcome BuddyFrameAllocator :=
  let frame_idx := from_phys_addr (phys_as_u64 (start_address fr)) in
  let order := frames_to_order (PAGE_SIZE_1G / PAGE_SIZE_4K) in
  deallocate_order st frame_idx order.

Definition allocate_contiguous (st : BuddyFrameAllocator) (frame_count : Z) :
    outcome (option PhysAddr * BuddyFrameAllocator) :=
  let order := frames_to_order frame_count in
  let! (r, st1) := allocate_order st order in
  match r with
  | Some f => let! a := phys_addr_new (to_phys_addr f) in Ret (Some a, st1)
  | None => Ret (None, st1)
  end.

(** The global allocator is this state behind one lock: each public function
    locks it, runs the method and unlocks it. *)
Definition init_buddy_allocator := init.
Definition buddy_alloc_frame := allocate_4k_frame.
Definition buddy_alloc_frame_2m := allocate_2m_frame.
Definition buddy_alloc_frame_1g := allocate_1g_frame.
Definition buddy_dealloc_frame := deallocate_4k_frame.
Definition buddy_dealloc_frame_2m := deallocate_2m_frame.
Definition buddy_dealloc_frame_1g := deallocate_1g_frame.

Definition is_managed_by_buddy (st : BuddyFrameAllocator) (addr : PhysAddr) : bool :=
  if total_frames st =? 0 then false
  else phys_as_u64 addr <? total_frames st *w PAGE_SIZE_4K.

End Api.

Definition free_frame_count (st : BuddyFrameAllocator) : Z := free_frames st.
Definition total_frame_count (st : BuddyFrameAllocator) : Z := total_frames st.

Record BuddyAllocatorStats := mkStats {
  stats_total_frames : Z;
  stats_free_frames : Z;
  stats_split_count : Z;
  stats_coalesce_count : Z;
  stats_order_stats : list (Z * Z)
}.

Definition order_stat (order : nat) (fl : FreeList) : Z * Z :=
  (Z.of_nat (FreeList_len fl), Z.of_nat (FreeList_len fl) *w Z.shiftl 1 (Z.of_nat order)).

Definition stats (st : BuddyFrameAllocator) : BuddyAllocatorStats :=
  mkStats (total_frames st) (free_frames st) (split_count st) (coalesce_count st)
    (imap order_stat (free_lists st)).
