(* ===== verification/BuddySpec.v ===== *)
(** * The buddy allocator: invariant and correctness

    The specification of src/src/mm/buddy_allocator.rs is a multiset of free
    blocks read through [cover], the number of free blocks a frame lies in.
    Splitting and coalescing do not change it ([same_frames]); allocation takes
    one block out of it and deallocation puts one back. *)

From stdpp Require Import base list.
From Stdlib Require Import ZArith Lia Permutation Btauto.
From S2P Require Import Prelude Ranges Buddy.

Local Open Scope Z_scope.

(** * The buddy allocator's free lists: refinement to multisets of blocks

    A [FreeList] refines a list of frames ([fl_rep]); the array of free lists
    refines a list of blocks [(order, head)] taken up to permutation
    ([blocks_of]).  The operations of src/src/mm/buddy_allocator.rs on free
    lists become insertions into and removals from that multiset. *)

#[local] Opaque ENTRIES_LEN.

(** ** One free list *)

(** The frames a free list holds: the first [count] entries. *)
Definition fl_frames (fl : FreeList) : list Z := omap id (take (count fl) (entries fl)).

Definition fl_rep (fl : FreeList) (fs : list Z) : Prop :=
  length (entries fl) = ENTRIES_LEN /\ take (count fl) (entries fl) = Some <$> fs /\
  count fl = length fs.

Definition fl_ok (fl : FreeList) : Prop := fl_rep fl (fl_frames fl).

Lemma omap_id_Some (fs : list Z) : omap id (Some <$> fs) = fs.
Proof. induction fs as [|f fs IH]; simpl; [done | by f_equal]. Qed.

Lemma fl_rep_frames (fl : FreeList) (fs : list Z) : fl_rep fl fs -> fl_frames fl = fs.
Proof. intros (_ & Ht & _). unfold fl_frames. rewrite Ht. apply omap_id_Some. Qed.

Lemma fl_rep_ok (fl : FreeList) (fs : list Z) : fl_rep fl fs -> fl_ok fl.
Proof. intros H. unfold fl_ok. by rewrite (fl_rep_frames _ _ H). Qed.

Lemma fl_rep_lookup (fl : FreeList) (fs : list Z) (i : nat) :
  fl_rep fl fs -> (i < length fs)%nat -> entries fl !! i = Some <$> fs !! i.
Proof.
  intros (Hl & Ht & Hc) Hi.
  rewrite <- (lookup_take_lt (entries fl) (count fl) i) by lia.
  rewrite Ht, list_lookup_fmap. done.
Qed.

Lemma fl_rep_count (fl : FreeList) (fs : list Z) :
  fl_rep fl fs -> (length fs <= ENTRIES_LEN)%nat.
Proof.
  intros (Hl & Ht & Hc). apply (f_equal length) in Ht.
  rewrite length_take, length_fmap in Ht. lia.
Qed.

Lemma fl_new_rep : fl_rep FreeList_new [].
Proof. unfold fl_rep, FreeList_new. simpl. rewrite length_replicate. done. Qed.

Lemma fl_push_rep (fl : FreeList) (fs : list Z) (f : Z) :
  fl_rep fl fs -> (length fs < ENTRIES_LEN)%nat -> fl_rep (FreeList_push fl f) (fs ++ [f]).
Proof.
  intros (Hl & Ht & Hc) Hlt. unfold FreeList_push.
  destruct (Nat.ltb_spec (count fl) ENTRIES_LEN); [|lia].
  split; [|split]; simpl.
  - by rewrite length_insert.
  - rewrite (take_S_r _ _ (Some f)) by (apply list_lookup_insert_eq; lia).
    rewrite take_insert_ge by lia. by rewrite Ht, fmap_app.
  - rewrite length_app. simpl. lia.
Qed.

Lemma fl_push_full (fl : FreeList) (f : Z) :
  (ENTRIES_LEN <= count fl)%nat -> FreeList_push fl f = fl.
Proof. intros H. unfold FreeList_push. by destruct (Nat.ltb_spec (count fl) ENTRIES_LEN); [lia|]. Qed.

Lemma fl_pop_nil (fl : FreeList) : fl_rep fl [] -> FreeList_pop fl = Ret (None, fl).
Proof. intros (_ & _ & Hc). unfold FreeList_pop. by rewrite Hc. Qed.

(** Dropping the last entry of a list. *)
Lemma fl_rep_shrink (fl : FreeList) (fs : list Z) (f : Z) (e : option Z) :
  fl_rep fl (fs ++ [f]) ->
  fl_rep (mkFreeList (<[length fs := e]> (entries fl)) (length fs)) fs.
Proof.
  intros (Hl & Ht & Hc). rewrite length_app in Hc. simpl in Hc.
  split; [|split]; simpl; [by rewrite length_insert | | done].
  rewrite take_insert_ge by lia.
  apply (f_equal (take (length fs))) in Ht.
  rewrite take_take, Nat.min_l, fmap_app, take_app_le in Ht by (rewrite ?length_fmap; lia).
  rewrite Ht. apply take_ge. rewrite length_fmap. lia.
Qed.

Lemma fl_pop_snoc (fl : FreeList) (fs : list Z) (f : Z) :
  fl_rep fl (fs ++ [f]) ->
  exists fl', FreeList_pop fl = Ret (Some f, fl') /\ fl_rep fl' fs.
Proof.
  intros Hrep. pose proof Hrep as (Hl & Ht & Hc). rewrite length_app in Hc. simpl in Hc.
  unfold FreeList_pop. destruct (Nat.ltb_spec 0 (count fl)); [|lia].
  replace (count fl - 1)%nat with (length fs) by lia.
  assert (entries fl !! length fs = Some (Some f)) as He.
  { rewrite (fl_rep_lookup _ _ _ Hrep) by (rewrite length_app; simpl; lia).
    by rewrite list_lookup_middle. }
  unfold index. rewrite He. simpl.
  eexists. split; [done | by eapply fl_rep_shrink].
Qed.

Lemma fl_find_spec (fl : FreeList) (fs : list Z) (f : Z) (n i : nat) :
  fl_rep fl fs -> (i + n = length fs)%nat ->
  match FreeList_find (entries fl) f i n with
  | Ret (Some j) => (i <= j < length fs)%nat /\ fs !! j = Some f
  | Ret None => f ∉ drop i fs
  | Panic => False
  end.
Proof.
  intros Hrep. revert i. induction n as [|n IH]; intros i Hi; simpl.
  - rewrite drop_ge by lia. apply not_elem_of_nil.
  - destruct (lookup_lt_is_Some_2 fs i) as [g Hg]; [lia|].
    unfold index. rewrite (fl_rep_lookup _ _ _ Hrep) by lia. rewrite Hg. simpl.
    case_bool_decide as Hd.
    + injection Hd as <-. split; [lia | done].
    + specialize (IH (S i) ltac:(lia)).
      destruct (FreeList_find _ _ _ _) as [[j|]|]; [destruct IH; split; [lia|done] | | done].
      rewrite (drop_S fs g i) by done. rewrite not_elem_of_cons. split; [congruence | done].
Qed.

(** Overwriting position [j] with the last frame removes the frame at [j]. *)
Lemma swap_remove_perm (fs : list Z) (l f : Z) (j : nat) :
  (fs ++ [l]) !! j = Some f ->
  f :: take (length fs) (<[j := l]> (fs ++ [l])) ≡ₚ fs ++ [l].
Proof.
  intros Hj. destruct (decide (j = length fs)) as [->|Hne].
  - rewrite list_lookup_middle in Hj by done. injection Hj as ->.
    rewrite insert_app_r_alt, Nat.sub_diag by lia. simpl.
    rewrite take_app_length. by rewrite Permutation_cons_append.
  - assert (j < length fs)%nat.
    { apply lookup_lt_Some in Hj. rewrite length_app in Hj. simpl in Hj. lia. }
    rewrite insert_app_l by lia.
    rewrite take_app_le, take_ge by (rewrite length_insert; lia).
    rewrite lookup_app_l in Hj by lia.
    rewrite <- (Permutation_cons_append fs l).
    rewrite <- (list_insert_id fs j f Hj) at 2. rewrite !insert_take_drop by lia.
    rewrite <- !Permutation_middle. apply perm_swap.
Qed.

Lemma fl_remove_spec (fl : FreeList) (fs : list Z) (f : Z) :
  fl_rep fl fs ->
  ((f ∉ fs) /\ FreeList_remove fl f = Ret (false, fl)) \/
  (exists fl' fs', FreeList_remove fl f = Ret (true, fl') /\ fl_rep fl' fs' /\ f :: fs' ≡ₚ fs).
Proof.
  intros Hrep. pose proof Hrep as (Hl & Ht & Hc). pose proof (fl_rep_count _ _ Hrep) as Hcap.
  unfold FreeList_remove. rewrite Hc.
  pose proof (fl_find_spec fl fs f (length fs) 0 Hrep eq_refl) as Hf.
  destruct (FreeList_find _ _ _ _) as [[j|]|]; simpl; [right | left | done].
  - destruct Hf as [Hj Hfj].
    destruct fs as [|l fs _] using rev_ind; [simpl in Hj; lia|].
    rewrite length_app in *. simpl in *.
    replace (length fs + 1 - 1)%nat with (length fs) by lia.
    unfold index. rewrite (fl_rep_lookup _ _ _ Hrep) by (rewrite length_app; simpl; lia).
    rewrite list_lookup_middle by done. simpl.
    unfold index_set. destruct (lookup_lt_is_Some_2 (<[length fs:=None]> (entries fl)) j) as [? ->];
      [rewrite length_insert; lia|]. simpl.
    exists (mkFreeList (<[j:=Some l]> (<[length fs:=None]> (entries fl))) (length fs)).
    exists (take (length fs) (<[j := l]> (fs ++ [l]))). split; [done|].
    split; [|by apply swap_remove_perm].
    pose proof (fl_rep_shrink _ _ _ None Hrep) as (Hl' & Ht' & _). simpl in *.
    split; [|split]; simpl.
    + by rewrite length_insert.
    + destruct (decide (j = length fs)) as [->|Hne].
      * rewrite take_insert_ge by lia. rewrite Ht'.
        rewrite insert_app_r_alt, Nat.sub_diag by lia. simpl. by rewrite take_app_length.
      * rewrite take_insert_lt by lia. rewrite Ht'.
        rewrite insert_app_l by lia.
        rewrite take_app_le, (take_ge (<[j:=l]> fs)) by (rewrite length_insert; lia).
        by rewrite list_fmap_insert.
    + rewrite length_take, length_insert, length_app. simpl. lia.
  - rewrite drop_0 in Hf. done.
Qed.

(** ** The array of free lists *)

(** A block: its order and its first frame. *)
Abbreviation block := (nat * Z)%type.

Fixpoint blocks_from (o : nat) (fls : list FreeList) : list block :=
  match fls with
  | [] => []
  | fl :: fls' => (pair o <$> fl_frames fl) ++ blocks_from (S o) fls'
  end.

(** The free blocks of the allocator. *)
Definition blocks_of (fls : list FreeList) : list block := blocks_from 0 fls.

Definition lists_ok (fls : list FreeList) : Prop :=
  length fls = (MAX_ORDER + 1)%nat /\ Forall fl_ok fls.

(** The number of blocks of one order. *)
Definition order_count (fls : list FreeList) (o : nat) : nat :=
  match fls !! o with
  | Some fl => count fl
  | None => 0
  end.

Lemma elem_of_blocks_from (fls : list FreeList) (k o : nat) (f : Z) :
  (o, f) ∈ blocks_from k fls <->
  exists i fl, fls !! i = Some fl /\ o = (k + i)%nat /\ f ∈ fl_frames fl.
Proof.
  revert k. induction fls as [|fl fls IH]; intros k; simpl.
  - split; [by intros ?%elem_of_nil | intros (i & ? & Hi & _); done].
  - rewrite elem_of_app, IH, list_elem_of_fmap. split.
    + intros [(g & [= -> ->] & Hg) | (i & fl' & Hi & -> & Hf)].
      * exists 0%nat, fl. split; [done | split; [lia | done]].
      * exists (S i), fl'. split; [done | split; [lia | done]].
    + intros ([|i] & fl' & Hi & -> & Hf); simpl in Hi.
      * injection Hi as ->. left. exists f. rewrite Nat.add_0_r. done.
      * right. exists i, fl'. split; [done | split; [lia | done]].
Qed.

Lemma elem_of_blocks (fls : list FreeList) (o : nat) (f : Z) :
  (o, f) ∈ blocks_of fls <-> exists fl, fls !! o = Some fl /\ f ∈ fl_frames fl.
Proof.
  unfold blocks_of. rewrite elem_of_blocks_from. simpl. split.
  - intros (i & fl & Hi & -> & Hf). eauto.
  - intros (fl & Hi & Hf). eauto 6.
Qed.

(** Replacing list [i] replaces its share of the blocks. *)
Lemma blocks_from_insert (fls : list FreeList) (k i : nat) (fl fl' : FreeList) :
  fls !! i = Some fl ->
  (pair (k + i)%nat <$> fl_frames fl) ++ blocks_from k (<[i := fl']> fls) ≡ₚ
  (pair (k + i)%nat <$> fl_frames fl') ++ blocks_from k fls.
Proof.
  revert k i. induction fls as [|x fls IH]; intros k i Hi; [done|].
  destruct i as [|i]; simpl in Hi |- *.
  - injection Hi as ->. rewrite Nat.add_0_r, !app_assoc.
    apply Permutation_app_tail, Permutation_app_comm.
  - specialize (IH (S k) i Hi). rewrite Nat.add_succ_comm in IH.
    rewrite !app_assoc, (Permutation_app_comm (pair (k + S i)%nat <$> fl_frames fl)).
    rewrite (Permutation_app_comm (pair (k + S i)%nat <$> fl_frames fl')).
    rewrite <- !app_assoc. by apply Permutation_app_head.
Qed.

Lemma blocks_insert_cons (fls : list FreeList) (o : nat) (f : Z) (fl fl' : FreeList) :
  fls !! o = Some fl -> fl_frames fl' ≡ₚ f :: fl_frames fl ->
  blocks_of (<[o := fl']> fls) ≡ₚ (o, f) :: blocks_of fls.
Proof.
  intros Ho Hp. pose proof (blocks_from_insert fls 0 o fl fl' Ho) as H.
  change (0 + o)%nat with o in H. rewrite Hp, fmap_cons, <- app_comm_cons, Permutation_middle in H.
  by apply Permutation_app_inv_l in H.
Qed.

Lemma blocks_insert_uncons (fls : list FreeList) (o : nat) (f : Z) (fl fl' : FreeList) :
  fls !! o = Some fl -> fl_frames fl ≡ₚ f :: fl_frames fl' ->
  blocks_of fls ≡ₚ (o, f) :: blocks_of (<[o := fl']> fls).
Proof.
  intros Ho Hp. pose proof (blocks_from_insert fls 0 o fl fl' Ho) as H.
  change (0 + o)%nat with o in H. rewrite Hp, fmap_cons, <- app_comm_cons, Permutation_middle in H.
  apply Permutation_app_inv_l in H. by symmetry.
Qed.

Lemma lists_ok_lookup (fls : list FreeList) (o : nat) :
  lists_ok fls -> (o <= MAX_ORDER)%nat -> exists fl, fls !! o = Some fl /\ fl_ok fl.
Proof.
  intros [Hl Hf] Ho. destruct (lookup_lt_is_Some_2 fls o) as [fl Hfl]; [lia|].
  exists fl. split; [done|]. by eapply (Forall_lookup_1 _ _ o).
Qed.

Lemma lists_ok_insert (fls : list FreeList) (o : nat) (fl : FreeList) :
  lists_ok fls -> fl_ok fl -> lists_ok (<[o := fl]> fls).
Proof.
  intros [Hl Hf] Hfl. split; [by rewrite length_insert | by apply Forall_insert].
Qed.

Lemma order_count_insert (fls : list FreeList) (o o' : nat) (fl : FreeList) :
  o' ≠ o -> order_count (<[o := fl]> fls) o' = order_count fls o'.
Proof. intros Hne. unfold order_count. by rewrite list_lookup_insert_ne. Qed.

Lemma fl_ok_count (fl : FreeList) : fl_ok fl -> count fl = length (fl_frames fl).
Proof. by intros (_ & _ & H). Qed.

(** The state after an operation on the free lists differs only there. *)
Lemma push_at_room (st : BuddyFrameAllocator) (o : nat) (f : Z) :
  lists_ok (free_lists st) -> (o <= MAX_ORDER)%nat ->
  (order_count (free_lists st) o < ENTRIES_LEN)%nat ->
  exists fls, push_at st o f = Ret (with_free_lists st fls) /\ lists_ok fls /\
    blocks_of fls ≡ₚ (o, f) :: blocks_of (free_lists st) /\
    (forall o', o' ≠ o -> order_count fls o' = order_count (free_lists st) o').
Proof.
  intros Hok Ho Hroom. destruct (lists_ok_lookup _ _ Hok Ho) as (fl & Hfl & Hflok).
  unfold order_count in Hroom. rewrite Hfl, (fl_ok_count _ Hflok) in Hroom.
  unfold push_at, index. rewrite Hfl. simpl.
  pose proof (fl_push_rep fl _ f Hflok Hroom) as Hrep.
  exists (<[o:=FreeList_push fl f]> (free_lists st)). split; [done|]. split; [|split].
  - apply lists_ok_insert; [done | by eapply fl_rep_ok].
  - eapply blocks_insert_cons; [done|]. rewrite (fl_rep_frames _ _ Hrep).
    by rewrite <- Permutation_cons_append.
  - intros o' Hne. by apply order_count_insert.
Qed.

Lemma push_at_full (st : BuddyFrameAllocator) (o : nat) (f : Z) :
  lists_ok (free_lists st) -> (o <= MAX_ORDER)%nat ->
  (ENTRIES_LEN <= order_count (free_lists st) o)%nat ->
  push_at st o f = Ret (with_free_lists st (free_lists st)).
Proof.
  intros Hok Ho Hfull. destruct (lists_ok_lookup _ _ Hok Ho) as (fl & Hfl & Hflok).
  unfold order_count in Hfull. rewrite Hfl in Hfull.
  unfold push_at, index. rewrite Hfl. simpl. rewrite fl_push_full by done.
  by rewrite list_insert_id.
Qed.

Lemma pop_at_spec (st : BuddyFrameAllocator) (o : nat) :
  lists_ok (free_lists st) -> (o <= MAX_ORDER)%nat ->
  (order_count (free_lists st) o = 0%nat /\ (forall f, (o, f) ∉ blocks_of (free_lists st)) /\
     pop_at st o = Ret (None, with_free_lists st (free_lists st))) \/
  (exists f fls, pop_at st o = Ret (Some f, with_free_lists st fls) /\ lists_ok fls /\
     blocks_of (free_lists st) ≡ₚ (o, f) :: blocks_of fls /\
     (forall o', o' ≠ o -> order_count fls o' = order_count (free_lists st) o')).
Proof.
  intros Hok Ho. destruct (lists_ok_lookup _ _ Hok Ho) as (fl & Hfl & Hflok).
  unfold pop_at, index. rewrite Hfl. simpl.
  destruct (fl_frames fl) as [|f fs _] eqn:Hfs using rev_ind; [left|right].
  - unfold fl_ok in Hflok. rewrite Hfs in Hflok.
    rewrite (fl_pop_nil _ Hflok). simpl. rewrite list_insert_id by done.
    destruct Hflok as (_ & _ & Hc). unfold order_count. rewrite Hfl. split; [done|].
    split; [|done]. intros f. rewrite elem_of_blocks. intros (fl' & Hfl' & Hin).
    rewrite Hfl in Hfl'. injection Hfl' as <-. rewrite Hfs in Hin. by apply elem_of_nil in Hin.
  - unfold fl_ok in Hflok. rewrite Hfs in Hflok.
    destruct (fl_pop_snoc _ _ _ Hflok) as (fl' & -> & Hrep). simpl.
    exists f, (<[o:=fl']> (free_lists st)). split; [done|]. split; [|split].
    + apply lists_ok_insert; [done | by eapply fl_rep_ok].
    + eapply blocks_insert_uncons; [done|].
      rewrite Hfs, (fl_rep_frames _ _ Hrep). by rewrite <- Permutation_cons_append.
    + intros o' Hne. by apply order_count_insert.
Qed.

Lemma remove_at_spec (st : BuddyFrameAllocator) (o : nat) (f : Z) :
  lists_ok (free_lists st) -> (o <= MAX_ORDER)%nat ->
  (((o, f) ∉ blocks_of (free_lists st)) /\
     remove_at st o f = Ret (false, with_free_lists st (free_lists st))) \/
  (exists fls, remove_at st o f = Ret (true, with_free_lists st fls) /\ lists_ok fls /\
     blocks_of (free_lists st) ≡ₚ (o, f) :: blocks_of fls /\
     (forall o', o' ≠ o -> order_count fls o' = order_count (free_lists st) o')).
Proof.
  intros Hok Ho. destruct (lists_ok_lookup _ _ Hok Ho) as (fl & Hfl & Hflok).
  unfold remove_at, index. rewrite Hfl. simpl.
  destruct (fl_remove_spec fl _ f Hflok) as [[Hnin ->] | (fl' & fs' & -> & Hrep & Hp)]; simpl.
  - left. rewrite list_insert_id by done. split; [|done].
    rewrite elem_of_blocks. intros (fl' & Hfl' & Hin).
    rewrite Hfl in Hfl'. by injection Hfl' as <-.
  - right. exists (<[o:=fl']> (free_lists st)). split; [done|]. split; [|split].
    + apply lists_ok_insert; [done | by eapply fl_rep_ok].
    + eapply blocks_insert_uncons; [done|]. by rewrite (fl_rep_frames _ _ Hrep).
    + intros o' Hne. by apply order_count_insert.
Qed.

Lemma lists_ok_new : lists_ok (replicate (MAX_ORDER + 1) FreeList_new).
Proof.
  split; [by rewrite length_replicate|].
  apply Forall_replicate. by eapply fl_rep_ok, fl_new_rep.
Qed.

Lemma blocks_from_new (n k : nat) : blocks_from k (replicate n FreeList_new) = [].
Proof.
  revert k. induction n as [|n IH]; intros k; [done|].
  rewrite replicate_S. cbn [blocks_from]. by rewrite (fl_rep_frames _ _ fl_new_rep), IH.
Qed.

Lemma blocks_of_new : blocks_of (replicate (MAX_ORDER + 1) FreeList_new) = [].
Proof. apply blocks_from_new. Qed.

Lemma order_count_le (fls : list FreeList) (o : nat) :
  lists_ok fls -> (order_count fls o <= ENTRIES_LEN)%nat.
Proof.
  intros [Hl HF]. unfold order_count. destruct (fls !! o) as [fl|] eqn:E; [|lia].
  pose proof (Forall_lookup_1 _ _ _ _ HF E) as Hok.
  rewrite (fl_ok_count _ Hok). by apply fl_rep_count with fl.
Qed.

(** [push] either stores the block or, on a full list, loses it. *)
Lemma push_at_any (st : BuddyFrameAllocator) (o : nat) (f : Z) :
  lists_ok (free_lists st) -> (o <= MAX_ORDER)%nat ->
  exists fls lost, push_at st o f = Ret (with_free_lists st fls) /\ lists_ok fls /\
    (o, f) :: blocks_of (free_lists st) ≡ₚ lost ++ blocks_of fls /\
    (forall k, (order_count (free_lists st) k <= order_count fls k)%nat) /\
    (lost = [] \/ order_count fls o = ENTRIES_LEN).
Proof.
  intros Hok Ho.
  destruct (Nat.lt_ge_cases (order_count (free_lists st) o) ENTRIES_LEN) as [Hroom|Hfull].
  - destruct (push_at_room st o f Hok Ho Hroom) as (fls & Hpush & Hok' & Hp & Hcnt).
    exists fls, []. rewrite Hp. split; [done|]. split; [done|]. split; [done|]. split; [|by left].
    intros k. destruct (decide (k = o)) as [->|Hne]; [|by rewrite Hcnt].
    destruct (lists_ok_lookup _ _ Hok Ho) as (fl & Hfl & Hflok).
    unfold push_at, index in Hpush. rewrite Hfl in Hpush. simpl in Hpush.
    injection Hpush as <-. unfold order_count.
    rewrite list_lookup_insert_eq by (destruct Hok; lia). rewrite Hfl.
    unfold FreeList_push. destruct (_ <? _)%nat; simpl; lia.
  - exists (free_lists st), [(o, f)]. rewrite (push_at_full st o f Hok Ho Hfull).
    repeat split; try done; try apply Hok. right.
    pose proof (order_count_le _ o Hok). lia.
Qed.

#[local] Opaque ENTRIES_LEN BITMAP_LEN.

(** ** Geometry of blocks *)

Definition in_block (b : block) (x : Z) : bool := (b.2 <=? x) && (x <? b.2 + 2 ^ Z.of_nat b.1).

Fixpoint cover (bs : list block) (x : Z) : Z :=
  match bs with
  | [] => 0
  | b :: bs' => Z.b2z (in_block b x) + cover bs' x
  end.

Fixpoint held (bs : list block) : Z :=
  match bs with
  | [] => 0
  | b :: bs' => 2 ^ Z.of_nat b.1 + held bs'
  end.

(** Frame numbers stay below [2^52], the number of 4 KiB frames a 64-bit
    address space has. *)
Definition FRAME_LIMIT : Z := 2 ^ 52.

Definition block_ok (b : block) : Prop :=
  (b.1 <= MAX_ORDER)%nat /\ 0 <= b.2 /\ b.2 + 2 ^ Z.of_nat b.1 <= FRAME_LIMIT /\
  (2 ^ Z.of_nat b.1 | b.2).

(** Two lists of blocks hold the same frames, as often. *)
Definition same_frames (bs bs' : list block) : Prop :=
  (forall x, cover bs x = cover bs' x) /\ held bs = held bs'.

#[export] Instance same_frames_equiv : Equivalence same_frames.
Proof.
  split.
  - done.
  - intros a b [H1 H2]. split; [intros x; by rewrite H1 | done].
  - intros a b c [H1 H2] [H3 H4]. split; [intros x; by rewrite H1 | congruence].
Qed.

#[export] Instance cover_perm : Proper ((≡ₚ) ==> eq ==> eq) cover.
Proof.
  intros a b Hp x ? <-. induction Hp; simpl; lia.
Qed.

#[export] Instance held_perm : Proper ((≡ₚ) ==> eq) held.
Proof. intros a b Hp. induction Hp; simpl; lia. Qed.

#[export] Instance same_frames_perm : subrelation (≡ₚ) same_frames.
Proof. intros a b Hp. split; [intros x; by rewrite Hp | by rewrite Hp]. Qed.

Lemma cover_app (a b : list block) (x : Z) : cover (a ++ b) x = cover a x + cover b x.
Proof. induction a; simpl; lia. Qed.

Lemma held_app (a b : list block) : held (a ++ b) = held a + held b.
Proof. induction a; simpl; lia. Qed.

#[export] Instance same_frames_app : Proper (same_frames ==> same_frames ==> same_frames) app.
Proof.
  intros a a' [H1 H2] b b' [H3 H4]. split.
  - intros x. rewrite !cover_app. by rewrite H1, H3.
  - rewrite !held_app. lia.
Qed.

#[export] Instance same_frames_cons (b : block) : Proper (same_frames ==> same_frames) (cons b).
Proof. intros a a' H. by apply (same_frames_app [b] [b] (reflexivity _) a a'). Qed.

Lemma cover_nonneg (bs : list block) (x : Z) : 0 <= cover bs x.
Proof. induction bs as [|b bs IH]; simpl; [done|]. destruct (in_block b x); simpl; lia. Qed.

Lemma cover_pos (bs : list block) (x : Z) :
  0 < cover bs x <-> exists b, b ∈ bs /\ in_block b x = true.
Proof.
  induction bs as [|b bs IH]; simpl.
  - split; [lia | intros (b & Hb & _); by apply elem_of_nil in Hb].
  - pose proof (cover_nonneg bs x). destruct (in_block b x) eqn:E; simpl.
    + split; [|lia]. intros _. exists b. split; [by left | done].
    + rewrite Z.add_0_l, IH. split.
      * intros (c & Hc & Hx). exists c. split; [by right | done].
      * intros (c & [->|Hc]%elem_of_cons & Hx); [congruence | eauto].
Qed.

Lemma in_block_spec (o : nat) (f x : Z) :
  in_block (o, f) x = true <-> f <= x < f + 2 ^ Z.of_nat o.
Proof. unfold in_block. simpl. rewrite andb_true_iff, Z.leb_le, Z.ltb_lt. done. Qed.

(** A block is the union of its two halves. *)
Lemma halve (k : nat) (f : Z) (bs : list block) :
  same_frames ((S k, f) :: bs) ((k, f) :: (k, f + 2 ^ Z.of_nat k) :: bs).
Proof.
  pose proof (pow2_S k) as HS. pose proof (pow2_pos k). split.
  - intros x. simpl. unfold in_block. simpl. rewrite HS.
    destruct (Z.leb_spec f x), (Z.ltb_spec x (f + 2 * 2 ^ Z.of_nat k)),
      (Z.ltb_spec x (f + 2 ^ Z.of_nat k)), (Z.leb_spec (f + 2 ^ Z.of_nat k) x),
      (Z.ltb_spec x (f + 2 ^ Z.of_nat k + 2 ^ Z.of_nat k)); simpl; lia.
  - simpl. rewrite HS. lia.
Qed.

Lemma block_ok_halves (k : nat) (f : Z) :
  block_ok (S k, f) -> block_ok (k, f) /\ block_ok (k, f + 2 ^ Z.of_nat k).
Proof.
  unfold block_ok. simpl. rewrite pow2_S. pose proof (pow2_pos k).
  intros (Ho & Hf & Hl & Hd).
  assert (2 ^ Z.of_nat k | f) by (eapply Z.divide_trans; [|exact Hd]; exists 2; lia).
  repeat split; try lia; [done | by apply Z.divide_add_r; [|reflexivity]].
Qed.

Lemma block_ok_le (b : block) : block_ok b -> 0 <= b.2 < FRAME_LIMIT.
Proof. intros (_ & H & Hl & _). pose proof (pow2_pos b.1). lia. Qed.

Lemma FRAME_LIMIT_u64 (x : Z) : 0 <= x <= FRAME_LIMIT -> wrap64 x = x.
Proof. intros H. apply wrap64_small. unfold is_u64, u64_modulus. unfold FRAME_LIMIT in H. lia. Qed.

Lemma shiftl_1_pow2 (o : nat) : Z.shiftl 1 (Z.of_nat o) = 2 ^ Z.of_nat o.
Proof. rewrite Z.shiftl_mul_pow2, Z.mul_1_l; lia. Qed.

(** ** Buddies *)

Lemma buddy_cases (f : Z) (o : nat) :
  0 <= f -> (2 ^ Z.of_nat o | f) ->
  ((2 ^ Z.of_nat (S o) | f) /\ buddy f o = f + 2 ^ Z.of_nat o) \/
  ((2 ^ Z.of_nat (S o) | f - 2 ^ Z.of_nat o) /\ buddy f o = f - 2 ^ Z.of_nat o).
Proof.
  intros Hf Hd. unfold buddy. rewrite shiftl_1_pow2, lxor_pow2_aligned by done.
  destruct (Z.testbit f (Z.of_nat o)) eqn:E; [right | left]; split; try done.
  - destruct Hd as [k ->]. rewrite pow2_S.
    rewrite <- Z.shiftl_mul_pow2, Z.shiftl_spec, Z.sub_diag, Z.bit0_odd in E by lia.
    apply Z.odd_spec in E as [j ->]. exists j. ring.
  - by apply testbit_aligned.
Qed.

Lemma buddy_involutive (f : Z) (o : nat) : buddy (buddy f o) o = f.
Proof. unfold buddy. by rewrite Z.lxor_assoc, Z.lxor_nilpotent, Z.lxor_0_r. Qed.

(** Merging a block with its buddy gives a block of the next order. *)
Lemma merge_buddies (f : Z) (o : nat) :
  (o < MAX_ORDER)%nat -> block_ok (o, f) -> block_ok (o, buddy f o) ->
  block_ok (S o, if f <? buddy f o then f else buddy f o) /\
  (forall bs, same_frames ((o, f) :: (o, buddy f o) :: bs)
                ((S o, if f <? buddy f o then f else buddy f o) :: bs)).
Proof.
  intros Ho (_ & Hf & Hfl & Hd) (_ & Hb & Hbl & Hbd). cbn [fst snd] in *.
  pose proof (pow2_pos o). pose proof (pow2_S o) as HS.
  destruct (buddy_cases f o Hf Hd) as [[Ha Hbud] | [Ha Hbud]]; rewrite Hbud in *.
  - destruct (Z.ltb_spec f (f + 2 ^ Z.of_nat o)); [|lia]. split.
    + unfold block_ok. cbn [fst snd]. repeat split; try done; rewrite ?HS; lia.
    + intros bs. symmetry. apply halve.
  - destruct (Z.ltb_spec f (f - 2 ^ Z.of_nat o)); [lia|]. split.
    + unfold block_ok. cbn [fst snd]. repeat split; try done; rewrite ?HS; lia.
    + intros bs. symmetry. rewrite halve. rewrite Z.sub_add. apply same_frames_perm, perm_swap.
Qed.

Lemma buddy_block_ok (f : Z) (o : nat) :
  block_ok (o, f) -> 0 <= buddy f o -> buddy f o + 2 ^ Z.of_nat o <= FRAME_LIMIT ->
  block_ok (o, buddy f o).
Proof.
  intros (Ho & Hf & Hl & Hd) Hb Hbl. cbn [fst snd] in *. unfold block_ok. cbn [fst snd].
  repeat split; try done.
  destruct (buddy_cases f o Hf Hd) as [[_ ->] | [_ ->]].
  - apply Z.divide_add_r; [done | reflexivity].
  - apply Z.divide_sub_r; [done | reflexivity].
Qed.

(** ** The bitmap *)

Lemma BITMAP_LEN_frames (x : Z) : 0 <= x -> (x / 64 <? BITMAP_LEN) = (x <? MAX_4K_FRAMES).
Proof.
  intros Hx. change MAX_4K_FRAMES with (BITMAP_LEN * 64).
  destruct (Z.ltb_spec (x / 64) BITMAP_LEN), (Z.ltb_spec x (BITMAP_LEN * 64)); try done.
  - pose proof (Z.div_mod x 64). pose proof (Z.mod_pos_bound x 64). lia.
  - pose proof (Z.div_lt_upper_bound x 64 BITMAP_LEN). lia.
Qed.

Definition bitmap_ok (st : BuddyFrameAllocator) : Prop :=
  length (bitmap st) = Z.to_nat BITMAP_LEN.

Lemma is_frame_free_bit (st : BuddyFrameAllocator) (x : Z) :
  bitmap_ok st -> 0 <= x ->
  is_frame_free st x = (x <? MAX_4K_FRAMES) && negb (bit_used (bitmap st) x).
Proof.
  intros Hb Hx. unfold is_frame_free, bit_used.
  rewrite Z.geb_leb, Z.leb_antisym, BITMAP_LEN_frames by done.
  destruct (x <? MAX_4K_FRAMES); simpl; [|done].
  destruct (bitmap st !! Z.to_nat (x / 64)); [|done].
  by rewrite land_shiftl_1_eqb by apply frame_bit_range.
Qed.

Lemma mark_frame_free_spec (st : BuddyFrameAllocator) (f x : Z) :
  bitmap_ok st -> 0 <= f -> 0 <= x ->
  is_frame_free (mark_frame_free st f) x =
    ((x =? f) && (x <? MAX_4K_FRAMES)) || is_frame_free st x.
Proof.
  intros Hb Hf Hx. unfold mark_frame_free. rewrite BITMAP_LEN_frames by done.
  destruct (Z.ltb_spec f MAX_4K_FRAMES) as [Hlt|Hge].
  - rewrite !is_frame_free_bit; [|done|done|unfold bitmap_ok; simpl; by rewrite length_alter|done].
    simpl. change (alter _ _ (bitmap st)) with (clear_bit (bitmap st) f).
    rewrite bit_used_clear; [|done|done|].
    + rewrite (Z.eqb_sym x f). destruct (f =? x), (x <? MAX_4K_FRAMES); simpl; btauto.
    + rewrite Hb. pose proof (BITMAP_LEN_frames f Hf) as E.
      apply Z.ltb_lt in Hlt. rewrite Hlt in E. apply Z.ltb_lt in E.
      pose proof (Z.div_pos f 64). lia.
  - destruct (Z.eqb_spec x f) as [->|]; [|done].
    destruct (Z.ltb_spec f MAX_4K_FRAMES); [lia | done].
Qed.

Lemma mark_frame_used_spec (st : BuddyFrameAllocator) (f x : Z) :
  bitmap_ok st -> 0 <= f -> 0 <= x ->
  is_frame_free (mark_frame_used st f) x = negb (x =? f) && is_frame_free st x.
Proof.
  intros Hb Hf Hx. unfold mark_frame_used. rewrite BITMAP_LEN_frames by done.
  destruct (Z.ltb_spec f MAX_4K_FRAMES) as [Hlt|Hge].
  - rewrite !is_frame_free_bit; [|done|done|unfold bitmap_ok; simpl; by rewrite length_alter|done].
    simpl. change (alter _ _ (bitmap st)) with (set_bit (bitmap st) f).
    rewrite bit_used_set by done. rewrite (Z.eqb_sym x f). btauto.
  - destruct (Z.eqb_spec x f) as [->|]; [|done]. simpl.
    rewrite is_frame_free_bit by done. destruct (Z.ltb_spec f MAX_4K_FRAMES); [lia | done].
Qed.

(** What a marking loop leaves alone. *)
Definition only_bitmap (st st' : BuddyFrameAllocator) : Prop :=
  st' = with_bitmap st (bitmap st') /\ length (bitmap st') = length (bitmap st).

Lemma only_bitmap_refl (st : BuddyFrameAllocator) : only_bitmap st st.
Proof. by destruct st. Qed.

Lemma only_bitmap_trans (a b c : BuddyFrameAllocator) :
  only_bitmap a b -> only_bitmap b c -> only_bitmap a c.
Proof.
  intros [H1 H2] [H3 H4]. split; [|congruence].
  rewrite H3. rewrite H1. done.
Qed.

Lemma mark_frame_free_only (st : BuddyFrameAllocator) (f : Z) : only_bitmap st (mark_frame_free st f).
Proof.
  unfold mark_frame_free. destruct (_ <? _); [|apply only_bitmap_refl].
  split; [done | apply length_alter].
Qed.

Lemma mark_frame_used_only (st : BuddyFrameAllocator) (f : Z) : only_bitmap st (mark_frame_used st f).
Proof.
  unfold mark_frame_used. destruct (_ <? _); [|apply only_bitmap_refl].
  split; [done | apply length_alter].
Qed.

Lemma bitmap_ok_only (st st' : BuddyFrameAllocator) :
  only_bitmap st st' -> bitmap_ok st -> bitmap_ok st'.
Proof. intros [_ H] Hb. unfold bitmap_ok. by rewrite H. Qed.

Lemma mark_block_free_spec (st : BuddyFrameAllocator) (f n : Z) :
  bitmap_ok st -> 0 <= f -> 0 <= n -> f + n <= FRAME_LIMIT ->
  only_bitmap st (mark_block_free st f n) /\
  (forall x, 0 <= x -> is_frame_free (mark_block_free st f n) x =
     ((f <=? x) && (x <? f + n) && (x <? MAX_4K_FRAMES)) || is_frame_free st x).
Proof.
  intros Hb Hf Hn Hlim. unfold mark_block_free.
  apply (for_range_ind (fun i s => only_bitmap st s /\ forall x, 0 <= x -> is_frame_free s x =
    ((f <=? x) && (x <? f + i) && (x <? MAX_4K_FRAMES)) || is_frame_free st x)); [done | |].
  - split; [apply only_bitmap_refl|]. intros x Hx. rewrite Z.add_0_r.
    destruct (Z.leb_spec f x), (Z.ltb_spec x f); simpl; try lia; done.
  - intros i s Hi [Honly Hs]. rewrite FRAME_LIMIT_u64 by lia. split.
    + eapply only_bitmap_trans; [done | apply mark_frame_free_only].
    + intros x Hx. rewrite mark_frame_free_spec, Hs; [|done|by eapply bitmap_ok_only|lia|done].
      destruct (Z.eqb_spec x (f + i)), (Z.leb_spec f x), (Z.ltb_spec x (f + i)),
        (Z.ltb_spec x (f + (i + 1))); try lia; simpl; btauto.
Qed.

Lemma mark_block_used_spec (st : BuddyFrameAllocator) (f n : Z) :
  bitmap_ok st -> 0 <= f -> 0 <= n -> f + n <= FRAME_LIMIT ->
  only_bitmap st (mark_block_used st f n) /\
  (forall x, 0 <= x -> is_frame_free (mark_block_used st f n) x =
     negb ((f <=? x) && (x <? f + n)) && is_frame_free st x).
Proof.
  intros Hb Hf Hn Hlim. unfold mark_block_used.
  apply (for_range_ind (fun i s => only_bitmap st s /\ forall x, 0 <= x -> is_frame_free s x =
    negb ((f <=? x) && (x <? f + i)) && is_frame_free st x)); [done | |].
  - split; [apply only_bitmap_refl|]. intros x Hx. rewrite Z.add_0_r.
    destruct (Z.leb_spec f x), (Z.ltb_spec x f); simpl; try lia; done.
  - intros i s Hi [Honly Hs]. rewrite FRAME_LIMIT_u64 by lia. split.
    + eapply only_bitmap_trans; [done | apply mark_frame_used_only].
    + intros x Hx. rewrite mark_frame_used_spec, Hs; [|done|by eapply bitmap_ok_only|lia|done].
      destruct (Z.eqb_spec x (f + i)), (Z.leb_spec f x), (Z.ltb_spec x (f + i)),
        (Z.ltb_spec x (f + (i + 1))); try lia; simpl; btauto.
Qed.

(** ** The invariant *)

(** The free blocks of a state. *)
Definition free_blocks (st : BuddyFrameAllocator) : list block := blocks_of (free_lists st).

(** What the free lists and the bitmap promise about a set of blocks. *)
Record blocks_wf (st : BuddyFrameAllocator) (bs : list block) : Prop := {
  bw_ok : Forall block_ok bs;
  bw_disjoint : forall x, cover bs x <= 1;
  bw_marked : forall x, 0 < cover bs x -> x < MAX_4K_FRAMES -> is_frame_free st x = true
}.

Record buddy_wf (st : BuddyFrameAllocator) : Prop := {
  wf_lists : lists_ok (free_lists st);
  wf_bitmap : bitmap_ok st;
  wf_blocks : blocks_wf st (free_blocks st);
  wf_total : forall x, 0 < cover (free_blocks st) x -> x < total_frames st
}.

Lemma cover_in_bounds (bs : list block) (x : Z) :
  Forall block_ok bs -> 0 < cover bs x -> 0 <= x < FRAME_LIMIT.
Proof.
  intros Hok ([o f] & Hb & Hx)%cover_pos. apply in_block_spec in Hx.
  rewrite Forall_forall in Hok. destruct (Hok _ Hb) as (_ & ? & ? & _). simpl in *. lia.
Qed.

Lemma with_free_lists_id (st : BuddyFrameAllocator) : with_free_lists st (free_lists st) = st.
Proof. by destruct st. Qed.

(** ** Splitting *)

(** The buddies [split_block] returns to the free lists. *)
Fixpoint split_pieces (n : nat) (f : Z) (to_order : nat) : list block :=
  match n with
  | O => []
  | S n' => ((to_order + n')%nat, f + 2 ^ Z.of_nat (to_order + n')) :: split_pieces n' f to_order
  end.

Lemma split_pieces_frames (n : nat) (f : Z) (o : nat) :
  same_frames [((o + n)%nat, f)] ((o, f) :: split_pieces n f o).
Proof.
  induction n as [|n IH]; simpl.
  - by rewrite Nat.add_0_r.
  - rewrite Nat.add_succ_r, halve.
    rewrite (same_frames_perm _ _ (perm_swap _ _ _)).
    rewrite (same_frames_perm _ _ (perm_swap (_, _) (o, f) _)).
    by apply same_frames_cons.
Qed.

Lemma split_pieces_ok (n : nat) (f : Z) (o : nat) :
  block_ok ((o + n)%nat, f) -> block_ok (o, f) /\ Forall block_ok (split_pieces n f o).
Proof.
  induction n as [|n IH]; simpl; rewrite ?Nat.add_0_r; [done|].
  rewrite Nat.add_succ_r. intros [H1 H2]%block_ok_halves.
  destruct (IH H1). split; [done | by constructor].
Qed.

Lemma split_loop_spec (n : nat) (st : BuddyFrameAllocator) (f : Z) (o : nat) :
  lists_ok (free_lists st) -> block_ok ((o + n)%nat, f) ->
  (forall k, (o <= k < o + n)%nat -> order_count (free_lists st) k = 0%nat) ->
  exists fls sc, split_loop n st f o = Ret (with_split_count (with_free_lists st fls) sc) /\
    lists_ok fls /\ blocks_of fls ≡ₚ split_pieces n f o ++ blocks_of (free_lists st).
Proof.
  revert st. induction n as [|n IH]; intros st Hok Hb Hemp; simpl.
  - exists (free_lists st), (split_count st). split; [by destruct st | done].
  - pose proof Hb as Hb'. rewrite Nat.add_succ_r in Hb'.
    apply block_ok_halves in Hb' as [Hb1 Hb2].
    pose proof (block_ok_le _ Hb2) as Hlim. cbn [snd] in Hlim.
    rewrite shiftl_1_pow2, FRAME_LIMIT_u64 by lia.
    destruct (push_at_room st (o + n) (f + 2 ^ Z.of_nat (o + n))) as (fls & -> & Hok' & Hp & Hcnt);
      [done | destruct Hb1; done | rewrite Hemp by lia; by apply Nat.ltb_lt |].
    simpl.
    destruct (IH (with_split_count (with_free_lists st fls) (split_count st +w 1)))
      as (fls' & sc & Heq & Hok'' & Hp'); simpl; [done | done | |].
    { intros k Hk. rewrite Hcnt by lia. apply Hemp. lia. }
    exists fls', sc. rewrite Heq. split; [done|]. split; [done|].
    rewrite Hp'. simpl. rewrite Hp. by rewrite <- Permutation_middle.
Qed.

(** ** Allocation *)

Lemma take_block_spec (st : BuddyFrameAllocator) (f : Z) (co o : nat) :
  lists_ok (free_lists st) -> bitmap_ok st -> (o <= co)%nat -> block_ok (co, f) ->
  (forall k, (o <= k < co)%nat -> order_count (free_lists st) k = 0%nat) ->
  exists st', take_block st f co o = Ret st' /\
    lists_ok (free_lists st') /\ bitmap_ok st' /\ total_frames st' = total_frames st /\
    free_frames st' = wrap64 (free_frames st - 2 ^ Z.of_nat o) /\
    free_blocks st' ≡ₚ split_pieces (co - o) f o ++ free_blocks st /\
    (forall x, 0 <= x -> is_frame_free st' x = negb (in_block (o, f) x) && is_frame_free st x).
Proof.
  intros Hok Hbm Hle Hb Hemp. unfold take_block, split_block.
  replace co with (o + (co - o))%nat in Hb by lia.
  destruct (split_loop_spec (co - o) st f o) as (fls & sc & -> & Hok' & Hp); [done|done| |].
  { intros k Hk. apply Hemp. lia. }
  simpl. rewrite shiftl_1_pow2.
  destruct (split_pieces_ok _ _ _ Hb) as [(_ & Hf & Hfl & _) _]. cbn [fst snd] in *.
  pose proof (pow2_pos o).
  destruct (mark_block_used_spec (with_split_count (with_free_lists st fls) sc) f (2 ^ Z.of_nat o))
    as [[Honly Hlen] Hfree]; [done | done | lia | done |].
  eexists. split; [done|]. simpl.
  set (st2 := mark_block_used _ _ _) in *. rewrite Honly. simpl.
  split; [done|]. split; [unfold bitmap_ok in *; simpl in *; congruence|].
  split; [done|]. split; [done|]. split; [done|].
  intros x Hx. specialize (Hfree x Hx). unfold in_block. simpl.
  rewrite Honly in Hfree. exact Hfree.
Qed.

(** The scan finds the lowest order with a block, or there is none. *)
Lemma allocate_scan_spec (st : BuddyFrameAllocator) (o lo n : nat) :
  buddy_wf st -> (o <= lo)%nat -> (lo + n <= MAX_ORDER + 1)%nat ->
  (forall k, (o <= k < lo)%nat -> order_count (free_lists st) k = 0%nat) ->
  (allocate_scan st o (seq lo n) = Ret (None, st) /\
     forall k f, (lo <= k < lo + n)%nat -> (k, f) ∉ free_blocks st) \/
  (exists co f fls st', allocate_scan st o (seq lo n) = Ret (Some f, st') /\
     (o <= co)%nat /\ lists_ok fls /\
     free_blocks st ≡ₚ (co, f) :: blocks_of fls /\
     (forall k, (o <= k < co)%nat -> order_count fls k = 0%nat) /\
     take_block (with_free_lists st fls) f co o = Ret st').
Proof.
  intros Hwf. revert lo. induction n as [|n IH]; intros lo Hlo Hn Hemp; simpl.
  - left. split; [done | lia].
  - destruct (pop_at_spec st lo) as [(Hc & Hno & ->) | (f & fls & -> & Hok & Hp & Hcnt)];
      [apply Hwf | lia | |]; simpl.
    + rewrite with_free_lists_id.
      destruct (IH (S lo)) as [[-> Hnone] | Hsome]; [lia|lia| | |].
      * intros k Hk. destruct (decide (k = lo)) as [->|]; [done | apply Hemp; lia].
      * left. split; [done|]. intros k g Hk.
        destruct (decide (k = lo)) as [->|]; [apply Hno | apply Hnone; lia].
      * by right.
    + right. assert (Hempty : forall k, (o <= k < lo)%nat -> order_count fls k = 0%nat).
      { intros k Hk. rewrite Hcnt by lia. by apply Hemp. }
      assert (block_ok (lo, f)) as Hb.
      { pose proof (bw_ok _ _ (wf_blocks _ Hwf)) as HF. unfold free_blocks in HF.
        rewrite Hp in HF. by inversion HF. }
      destruct (take_block_spec (with_free_lists st fls) f lo o) as (st' & Ht & _);
        [done | apply Hwf | done | done | done |].
      rewrite Ht. simpl. exists lo, f, fls, st'. done.
Qed.

(** The frame conditions of one allocation, from the multiset equation. *)
Lemma allocate_wf (st st' : BuddyFrameAllocator) (o : nat) (f : Z) :
  buddy_wf st -> lists_ok (free_lists st') -> bitmap_ok st' -> total_frames st' = total_frames st ->
  Forall block_ok (free_blocks st') -> same_frames (free_blocks st) ((o, f) :: free_blocks st') ->
  (forall x, 0 <= x -> is_frame_free st' x = negb (in_block (o, f) x) && is_frame_free st x) ->
  buddy_wf st'.
Proof.
  intros [Hl Hbm [Hok Hd Hm] Ht] Hl' Hbm' Htot Hok' [Hs _] Hfree. simpl in Hs.
  assert (Hcov : forall x, cover (free_blocks st') x = cover (free_blocks st) x - Z.b2z (in_block (o, f) x)).
  { intros x. rewrite Hs. lia. }
  split; [done | done | split; [done | |] |].
  - intros x. rewrite Hcov. specialize (Hd x). destruct (in_block (o, f) x); simpl; lia.
  - intros x Hx Hlt. pose proof (cover_in_bounds _ _ Hok' Hx).
    rewrite Hfree by lia. rewrite Hcov in Hx. specialize (Hd x).
    destruct (in_block (o, f) x); simpl in *; [lia|]. apply Hm; [lia | done].
  - intros x Hx. rewrite Htot. apply Ht. rewrite Hcov in Hx.
    destruct (in_block (o, f) x); simpl in Hx; lia.
Qed.

(** The complete behaviour of [allocate_order] on a well-formed state. *)
Lemma allocate_order_spec (st : BuddyFrameAllocator) (o : nat) :
  buddy_wf st ->
  (allocate_order st o = Ret (None, st) /\
     forall k f, (o <= k)%nat -> (k, f) ∉ free_blocks st) \/
  (exists f st', allocate_order st o = Ret (Some f, st') /\ buddy_wf st' /\
     block_ok (o, f) /\ same_frames (free_blocks st) ((o, f) :: free_blocks st') /\
     total_frames st' = total_frames st /\
     free_frames st' = wrap64 (free_frames st - 2 ^ Z.of_nat o) /\
     exists co rest, (o <= co)%nat /\ free_blocks st ≡ₚ (co, f) :: rest /\
       free_blocks st' ≡ₚ split_pieces (co - o) f o ++ rest).
Proof.
  intros Hwf. unfold allocate_order.
  destruct (Nat.le_gt_cases o MAX_ORDER) as [Ho|Ho].
  2: { left. replace (MAX_ORDER + 1 - o)%nat with 0%nat by lia. split; [done|].
       intros k f Hk Hin. pose proof (bw_ok _ _ (wf_blocks _ Hwf)) as HF.
       rewrite Forall_forall in HF. destruct (HF _ Hin). cbn [fst snd] in *. lia. }
  destruct (allocate_scan_spec st o o (MAX_ORDER + 1 - o)) as
    [[-> Hnone] | (co & f & fls & st' & -> & Hco & Hok & Hp & Hemp & Htake)];
    [done | done | lia | lia | left | right].
  - split; [done|]. intros k f Hk Hin.
    pose proof (bw_ok _ _ (wf_blocks _ Hwf)) as HF.
    rewrite Forall_forall in HF. destruct (HF _ Hin). cbn [fst snd] in *.
    apply (Hnone k f); [lia | done].
  - pose proof (bw_ok _ _ (wf_blocks _ Hwf)) as HF. rewrite Hp in HF.
    inversion HF as [|? ? Hb HF']; subst.
    destruct (take_block_spec (with_free_lists st fls) f co o)
      as (st'' & Htake' & Hl' & Hbm' & Htot & Hff & Hp' & Hfree);
      [done | apply Hwf | done | done | done |].
    rewrite Htake in Htake'. injection Htake' as <-. unfold free_blocks in Hp' at 2. simpl in *.
    replace co with (o + (co - o))%nat in Hb by lia.
    pose proof (split_pieces_ok _ _ _ Hb) as [Hb0 Hbs].
    assert (Hsame : same_frames (free_blocks st) ((o, f) :: free_blocks st')).
    { rewrite (same_frames_perm _ _ Hp), (same_frames_perm _ _ (perm_skip (o, f) Hp')).
      change ((co, f) :: blocks_of fls) with ([(co, f)] ++ blocks_of fls).
      replace co with (o + (co - o))%nat at 1 by lia. rewrite split_pieces_frames. done. }
    exists f, st'. split; [done|]. split; [|split; [done|split; [done|]]].
    + eapply allocate_wf; try done. rewrite Hp'. by apply Forall_app.
    + split; [done|]. split; [done|]. exists co, (blocks_of fls). done.
Qed.

(** ** Deallocation *)

(** The buddy of the block at which coalescing stops is not a free block. *)
Definition merge_stopped (st : BuddyFrameAllocator) (fls : list FreeList) (o : nat) (f : Z) : Prop :=
  o = MAX_ORDER \/ is_buddy_free st (buddy f o) o = false \/ (o, buddy f o) ∉ blocks_of fls.

(** What the coalescing loop that started with block [(o, f)] in state [st]
    returns. *)
Definition coalesced (st : BuddyFrameAllocator) (f : Z) (o : nat)
    (r : outcome (BuddyFrameAllocator * Z * nat)) : Prop :=
  exists fls cc f' o', r = Ret (with_coalesce_count (with_free_lists st fls) cc, f', o') /\
    (o <= o')%nat /\ lists_ok fls /\ block_ok (o', f') /\ Forall block_ok (blocks_of fls) /\
    same_frames ((o, f) :: free_blocks st) ((o', f') :: blocks_of fls) /\
    (forall k, (o' <= k)%nat -> order_count fls k = order_count (free_lists st) k) /\
    (forall b, b ∈ blocks_of fls -> b ∈ free_blocks st) /\
    merge_stopped st fls o' f'.

Lemma coalesced_stop (st : BuddyFrameAllocator) (f : Z) (o : nat) :
  lists_ok (free_lists st) -> Forall block_ok (free_blocks st) -> block_ok (o, f) ->
  merge_stopped st (free_lists st) o f -> coalesced st f o (Ret (st, f, o)).
Proof.
  intros. exists (free_lists st), (coalesce_count st), f, o. split; [by destruct st | done].
Qed.

Lemma coalesce_loop_spec (n : nat) (st : BuddyFrameAllocator) (f : Z) (o : nat) :
  lists_ok (free_lists st) -> Forall block_ok (free_blocks st) -> block_ok (o, f) ->
  (n = MAX_ORDER - o)%nat -> coalesced st f o (coalesce_loop n st f o).
Proof.
  revert st f o. induction n as [|n IH]; intros st f o Hok HF Hb Hn; cbn [coalesce_loop].
  - apply coalesced_stop; try done. left. destruct Hb as [Hb _]. cbn [fst] in Hb. lia.
  - destruct (is_buddy_free st (buddy f o) o) eqn:Ebf;
      [|by apply coalesced_stop; try done; right; left].
    assert (Ho : (o < MAX_ORDER)%nat) by lia.
    destruct (remove_at_spec st o (buddy f o) Hok (Nat.lt_le_incl _ _ Ho))
      as [[Hnin ->] | (fls & -> & Hok' & Hp & Hcnt)]; cbn [obind].
    + rewrite with_free_lists_id. apply coalesced_stop; try done. by right; right.
    + unfold free_blocks in HF. rewrite Hp in HF. inversion HF as [|? ? Hbb HF']; subst.
      destruct (merge_buddies f o Ho Hb Hbb) as [Hm Hsame].
      set (f1 := if f <? buddy f o then f else buddy f o) in *.
      destruct (IH (with_coalesce_count (with_free_lists st fls) (coalesce_count st +w 1)) f1 (S o))
        as (fls' & cc & f' & o' & Heq & H0 & H1 & H2 & H3 & H4 & H5 & H6 & H7);
        [done | done | done | lia |].
      exists fls', cc, f', o'. split; [exact Heq|]. split; [lia|]. do 3 (split; [done|]).
      split; [|split; [|split; [|done]]].
      * unfold free_blocks at 1. rewrite (same_frames_perm _ _ (perm_skip (o, f) Hp)).
        rewrite Hsame. exact H4.
      * intros k Hk. rewrite H5 by done. apply Hcnt. lia.
      * intros b Hin. specialize (H6 b Hin). unfold free_blocks in *. simpl in H6.
        rewrite Hp. by right.
Qed.

(** A block the caller may return: well-formed, inside the managed memory and
    not free. *)
Definition returnable (st : BuddyFrameAllocator) (o : nat) (f : Z) : Prop :=
  block_ok (o, f) /\
  forall x, in_block (o, f) x = true -> cover (free_blocks st) x = 0 /\ x < total_frames st.

Lemma blocks_wf_same (st : BuddyFrameAllocator) (bs bs' lost : list block) :
  blocks_wf st bs -> Forall block_ok bs' -> same_frames bs (lost ++ bs') -> blocks_wf st bs'.
Proof.
  intros [Hok Hd Hm] Hok' [Hs _].
  assert (Hle : forall x, cover bs' x <= cover bs x).
  { intros x. rewrite Hs, cover_app. pose proof (cover_nonneg lost x). lia. }
  split; [done | |].
  - intros x. specialize (Hd x). specialize (Hle x). lia.
  - intros x Hx. apply Hm. specialize (Hle x). lia.
Qed.

(** Marking a new block free makes it a legitimate free block. *)
Lemma mark_block_wf (st : BuddyFrameAllocator) (bs : list block) (o : nat) (f : Z) :
  bitmap_ok st -> blocks_wf st bs -> block_ok (o, f) ->
  (forall x, in_block (o, f) x = true -> cover bs x = 0) ->
  only_bitmap st (mark_block_free st f (2 ^ Z.of_nat o)) /\
  blocks_wf (mark_block_free st f (2 ^ Z.of_nat o)) ((o, f) :: bs).
Proof.
  intros Hbm [Hok Hd Hm] Hb Hnew.
  pose proof Hb as (_ & Hf & Hfl & _). cbn [fst snd] in *. pose proof (pow2_pos o).
  destruct (mark_block_free_spec st f (2 ^ Z.of_nat o)) as [Honly Hfree];
    [done | done | lia | done |].
  split; [done|]. split; [by constructor | |].
  - intros x. simpl. destruct (in_block (o, f) x) eqn:E; simpl; [rewrite Hnew by done; lia | apply Hd].
  - intros x Hx Hlt. simpl in Hx. unfold in_block in Hx. cbn [fst snd] in Hx.
    destruct ((f <=? x) && (x <? f + 2 ^ Z.of_nat o)) eqn:E; simpl in Hx.
    + rewrite Hfree by (bool_to_prop; lia). rewrite E. apply Z.ltb_lt in Hlt. by rewrite Hlt.
    + pose proof (cover_in_bounds _ _ Hok Hx). rewrite Hfree by lia.
      rewrite E. simpl. apply Hm; [lia | done].
Qed.

Lemma deallocate_order_spec (st : BuddyFrameAllocator) (f : Z) (o : nat) :
  buddy_wf st -> returnable st o f ->
  exists st' fls o' f' lost, deallocate_order st f o = Ret st' /\ buddy_wf st' /\
    total_frames st' = total_frames st /\
    free_frames st' = wrap64 (free_frames st + 2 ^ Z.of_nat o) /\
    same_frames ((o, f) :: free_blocks st) (lost ++ free_blocks st') /\
    (free_blocks st' ≡ₚ (o', f') :: blocks_of fls /\ lost = [] \/
     free_blocks st' = blocks_of fls /\ lost = [(o', f')] /\
       order_count (free_lists st) o' = ENTRIES_LEN) /\
    (forall b, b ∈ blocks_of fls -> b ∈ free_blocks st) /\
    block_ok (o', f') /\ exists bm, length bm = length (bitmap st) /\
      blocks_wf (with_bitmap st bm) ((o, f) :: free_blocks st) /\
      merge_stopped (with_bitmap st bm) fls o' f'.
Proof.
  intros [Hl Hbm Hblk Ht] [Hb Hown].
  destruct (mark_block_wf st _ o f Hbm Hblk Hb) as [[Hmark Hlen] Hbw]; [apply Hown|].
  set (bm := bitmap _) in Hmark, Hlen. clearbody bm. rewrite Hmark in Hbw.
  destruct Hblk as [Hok Hd Hm].
  unfold deallocate_order, coalesce. rewrite shiftl_1_pow2, Hmark. cbn [free_frames with_bitmap].
  set (st2 := with_free_frames (with_bitmap st bm) _).
  destruct (coalesce_loop_spec (MAX_ORDER - o) st2 f o Hl Hok Hb eq_refl)
    as (fls & cc & f' & o' & -> & Hoo & Hok' & Hb' & HF' & Hs & Hcnt & Hsub & Hstop).
  cbn [obind]. set (st3 := with_coalesce_count (with_free_lists st2 fls) cc).
  pose proof Hb' as [Ho' _]. cbn [fst] in Ho'.
  assert (Hcap : (order_count fls o' <= ENTRIES_LEN)%nat).
  { destruct (lists_ok_lookup fls o' Hok' Ho') as (fl & Hfl & Hflok).
    unfold order_count. rewrite Hfl, (fl_ok_count _ Hflok). by apply fl_rep_count with fl. }
  assert (Hfinal : forall fls' lost, push_at st3 o' f' = Ret (with_free_lists st3 fls') ->
    lists_ok fls' -> Forall block_ok (blocks_of fls') ->
    same_frames ((o', f') :: blocks_of fls) (lost ++ blocks_of fls') ->
    buddy_wf (with_free_lists st3 fls')).
  { intros fls' lost _ H1 H2 H3.
    assert (Hsame : same_frames ((o, f) :: free_blocks st) (lost ++ blocks_of fls')) by (etrans; done).
    pose proof (blocks_wf_same _ _ _ _ Hbw H2 Hsame) as Hbw'.
    split; [done | unfold bitmap_ok; simpl; by rewrite Hlen | by destruct Hbw' |].
    intros x Hx. destruct Hsame as [Hsame _]. specialize (Hsame x).
    rewrite cover_app in Hsame. pose proof (cover_nonneg lost x).
    unfold free_blocks in Hx. simpl in Hx, Hsame |- *.
    destruct (in_block (o, f) x) eqn:E; [apply (Hown _ E) | apply Ht; simpl in Hsame; lia]. }
  destruct (Nat.lt_ge_cases (order_count fls o') ENTRIES_LEN) as [Hroom|Hfull].
  - destruct (push_at_room st3 o' f' Hok' Ho' Hroom) as (fls' & Hpush & Hokk & Hp & _).
    rewrite Hpush. exists (with_free_lists st3 fls'), fls, o', f', []. split; [done|].
    change (free_blocks (with_free_lists st3 fls')) with (blocks_of fls').
    split; [|split; [done|split; [done|]]].
    + apply (Hfinal fls' []); try done; [rewrite Hp; by constructor | by rewrite (same_frames_perm _ _ Hp)].
    + split; [simpl; by rewrite (same_frames_perm _ _ Hp)|]. split; [by left|].
      split; [done|]. split; [done|]. by exists bm.
  - rewrite (push_at_full st3 o' f' Hok' Ho' Hfull).
    exists (with_free_lists st3 fls), fls, o', f', [(o', f')]. split; [done|].
    change (free_blocks (with_free_lists st3 fls)) with (blocks_of fls).
    split; [|split; [done|split; [done|]]].
    + apply (Hfinal fls [(o', f')]); try done. by apply push_at_full.
    + split; [done|]. split; [right; split; [done|split; [done|]]|].
      * rewrite Hcnt in Hfull, Hcap by done. simpl in *. lia.
      * split; [done|]. split; [done|]. by exists bm.
Qed.

(** ** Initialisation *)

Lemma pos_trailing_zeros_divide (p : positive) :
  0 <= pos_trailing_zeros p /\ (2 ^ pos_trailing_zeros p | Zpos p).
Proof.
  induction p as [p IH|p IH|]; simpl.
  - split; [done | apply Z.divide_1_l].
  - destruct IH as [H0 [k Hk]]. split; [lia|]. exists k.
    rewrite Z.pow_add_r, Pos2Z.inj_xO by lia. rewrite Hk at 1. ring.
  - split; [done | apply Z.divide_1_l].
Qed.

(** The order chosen by [add_region] fits the alignment and the room left. *)
Lemma region_order_ok (current end_idx : Z) :
  0 <= current < end_idx -> end_idx <= FRAME_LIMIT ->
  block_ok (region_order current end_idx, current) /\
  current + 2 ^ Z.of_nat (region_order current end_idx) <= end_idx.
Proof.
  intros Hc He. unfold region_order, block_ok. cbn [fst snd].
  assert (Hsize : 64 - leading_zeros64 (end_idx - current) - 1 = Z.log2 (end_idx - current)).
  { unfold leading_zeros64. destruct (Z.eqb_spec (end_idx - current) 0); lia. }
  rewrite Hsize. pose proof (Z.log2_nonneg (end_idx - current)).
  destruct (Z.log2_spec (end_idx - current)) as [Hlog _]; [lia|].
  assert (Htz : 0 <= trailing_zeros64 current /\
    forall n : nat, Z.of_nat n <= trailing_zeros64 current -> (2 ^ Z.of_nat n | current)).
  { destruct current as [|p|p]; simpl; [split; [done | intros; apply Z.divide_0_r] | | lia].
    destruct (pos_trailing_zeros_divide p) as [H0 Hd]. split; [done|]. intros n Hn.
    eapply Z.divide_trans; [|exact Hd]. rewrite <- (Z2Nat.id (pos_trailing_zeros p)) by done.
    apply pow2_divide. lia. }
  destruct Htz as [Htz Hdiv].
  set (o := Z.to_nat (Z.min _ _)).
  assert (Ho : Z.of_nat o <= trailing_zeros64 current /\ Z.of_nat o <= Z.log2 (end_idx - current) /\
    (o <= MAX_ORDER)%nat) by (unfold o; lia).
  destruct Ho as (Ho1 & Ho2 & Ho3).
  assert (2 ^ Z.of_nat o <= 2 ^ Z.log2 (end_idx - current)) by (apply Z.pow_le_mono_r; lia).
  repeat split; try lia. by apply Hdiv.
Qed.

(** The state while regions are added: everything but [total_frames]. *)
Record adding_wf (st : BuddyFrameAllocator) : Prop := {
  aw_lists : lists_ok (free_lists st);
  aw_bitmap : bitmap_ok st;
  aw_blocks : blocks_wf st (free_blocks st);
  aw_free : is_u64 (free_frames st)
}.

Definition some_list_full (st : BuddyFrameAllocator) : Prop :=
  exists k, order_count (free_lists st) k = ENTRIES_LEN.

(** From [st] to [st'] the blocks [added] came in, [lost] of them dropped by
    full lists. *)
Definition grown (st st' : BuddyFrameAllocator) (added lost : list block) : Prop :=
  same_frames (added ++ free_blocks st) (lost ++ free_blocks st') /\
  (forall k, (order_count (free_lists st) k <= order_count (free_lists st') k)%nat) /\
  (lost = [] \/ some_list_full st') /\
  free_frames st' = wrap64 (free_frames st + held added).

Lemma some_list_full_mono (st st' : BuddyFrameAllocator) :
  lists_ok (free_lists st') ->
  (forall k, (order_count (free_lists st) k <= order_count (free_lists st') k)%nat) ->
  some_list_full st -> some_list_full st'.
Proof.
  intros Hok Hle [k Hk]. exists k. specialize (Hle k).
  pose proof (order_count_le _ k Hok). lia.
Qed.

Lemma grown_refl (st : BuddyFrameAllocator) : is_u64 (free_frames st) -> grown st st [] [].
Proof.
  intros Hu. split; [done|]. split; [done|]. split; [by left|].
  simpl. by rewrite Z.add_0_r, wrap64_small.
Qed.

Lemma grown_trans (a b c : BuddyFrameAllocator) (x y lx ly : list block) :
  lists_ok (free_lists c) -> grown a b x lx -> grown b c y ly -> grown a c (y ++ x) (lx ++ ly).
Proof.
  intros Hok (Hs1 & Hc1 & Hl1 & Hf1) (Hs2 & Hc2 & Hl2 & Hf2). split; [|split; [|split]].
  - rewrite <- (app_assoc y), Hs1, <- (app_assoc lx), <- Hs2.
    apply same_frames_perm. rewrite !app_assoc. by rewrite (Permutation_app_comm y lx).
  - intros k. specialize (Hc1 k). specialize (Hc2 k). lia.
  - destruct Hl2 as [-> | Hfull]; [|by right].
    destruct Hl1 as [-> | Hfull]; [by left | right; by eapply some_list_full_mono].
  - rewrite Hf2, Hf1, held_app. unfold wrap64. rewrite Zplus_mod_idemp_l. f_equal. lia.
Qed.

Lemma add_block_spec (st : BuddyFrameAllocator) (f : Z) (o : nat) :
  adding_wf st -> block_ok (o, f) ->
  (forall x, in_block (o, f) x = true -> cover (free_blocks st) x = 0) ->
  exists st' lost, add_block st f o = Ret st' /\ adding_wf st' /\ grown st st' [(o, f)] lost.
Proof.
  intros [Hl Hbm Hblk Hu] Hb Hnew. pose proof Hb as (Ho & _). cbn [fst] in *.
  unfold add_block.
  destruct (push_at_any st o f Hl Ho) as (fls & lost & -> & Hl' & Hp & Hcnt & Hlost).
  cbn [obind]. rewrite shiftl_1_pow2. cbn [free_frames with_free_lists].
  set (st2 := with_free_frames (with_free_lists st fls) _).
  assert (Hblk2 : blocks_wf st2 (free_blocks st)) by (by destruct Hblk).
  destruct (mark_block_wf st2 (free_blocks st) o f Hbm Hblk2 Hb Hnew) as [[Honly Hlen] Hbw].
  set (st3 := mark_block_free st2 f (2 ^ Z.of_nat o)) in *.
  assert (Hfb : free_blocks st3 = blocks_of fls) by (by rewrite Honly).
  assert (Hlists : free_lists st3 = fls) by (by rewrite Honly).
  assert (Hff : free_frames st3 = wrap64 (free_frames st + 2 ^ Z.of_nat o)) by (by rewrite Honly).
  clearbody st3. exists st3, lost. split; [done|]. split.
  - split; [by rewrite Hlists | by unfold bitmap_ok; rewrite Hlen | | rewrite Hff; apply wrap64_range].
    rewrite Hfb. apply (blocks_wf_same _ _ _ lost Hbw); [|by apply same_frames_perm].
    destruct Hblk as [Hok _ _].
    assert (Forall block_ok (lost ++ blocks_of fls)) as HF by (rewrite <- Hp; by constructor).
    by apply Forall_app in HF as [_ HF].
  - split; [rewrite Hfb; by apply same_frames_perm | split; [by rewrite Hlists|split]].
    + destruct Hlost as [->|Hfull]; [by left|]. right. exists o. by rewrite Hlists.
    + rewrite Hff. simpl. by rewrite Z.add_0_r.
Qed.

(** Frames [lo..hi) as a membership count. *)
Definition in_range (lo hi x : Z) : bool := (lo <=? x) && (x <? hi).

(** [bs] tiles the frames [lo..hi). *)
Definition tiles (bs : list block) (lo hi : Z) : Prop :=
  (forall x, cover bs x = Z.b2z (in_range lo hi x)) /\ held bs = Z.max 0 (hi - lo).

Lemma tiles_nil (lo hi : Z) : hi <= lo -> tiles [] lo hi.
Proof.
  intros H. split; [|simpl; lia]. intros x. unfold in_range. simpl.
  destruct (Z.leb_spec lo x), (Z.ltb_spec x hi); simpl; lia.
Qed.

Lemma tiles_cons (bs : list block) (o : nat) (lo hi : Z) :
  lo + 2 ^ Z.of_nat o <= hi -> tiles bs (lo + 2 ^ Z.of_nat o) hi -> tiles (bs ++ [(o, lo)]) lo hi.
Proof.
  intros Hle [Hc Hh]. pose proof (pow2_pos o). split.
  - intros x. rewrite cover_app, Hc. simpl. unfold in_block, in_range. simpl.
    destruct (Z.leb_spec (lo + 2 ^ Z.of_nat o) x), (Z.ltb_spec x hi), (Z.leb_spec lo x),
      (Z.ltb_spec x (lo + 2 ^ Z.of_nat o)); simpl; lia.
  - rewrite held_app, Hh. simpl. lia.
Qed.

Lemma add_region_loop_spec (fuel : nat) (st : BuddyFrameAllocator) (cur hi : Z) :
  (Z.to_nat (hi - cur) <= fuel)%nat -> adding_wf st -> 0 <= cur -> hi <= FRAME_LIMIT ->
  (forall x, in_range cur hi x = true -> cover (free_blocks st) x = 0) ->
  exists st' added lost, add_region_loop fuel st cur hi = Ret st' /\ adding_wf st' /\
    tiles added cur hi /\ grown st st' added lost.
Proof.
  revert st cur. induction fuel as [|fuel IH]; intros st cur Hfuel Hwf Hcur Hhi Hnew; simpl.
  - destruct (Z.ltb_spec cur hi); [lia|].
    exists st, [], []. split; [done|]. split; [done|]. split; [by apply tiles_nil | apply grown_refl, Hwf].
  - destruct (Z.ltb_spec cur hi) as [Hlt|].
    2: { exists st, [], []. split; [done|]. split; [done|].
         split; [by apply tiles_nil | apply grown_refl, Hwf]. }
    destruct (region_order_ok cur hi) as [Hb Hle]; [lia | done |].
    set (o := region_order cur hi) in *. pose proof (pow2_pos o).
    destruct (add_block_spec st cur o Hwf Hb) as (st1 & lost1 & -> & Hwf1 & Hg1).
    { intros x Hx%in_block_spec. apply Hnew. unfold in_range. lia. }
    cbn [obind]. rewrite shiftl_1_pow2, FRAME_LIMIT_u64 by lia.
    destruct (IH st1 (cur + 2 ^ Z.of_nat o)) as (st' & added & lost & Heq & Hwf' & Ht & Hg);
      [lia | done | lia | done | |].
    { intros x Hx. destruct Hg1 as [[Hs _] _]. specialize (Hs x). rewrite !cover_app in Hs.
      pose proof (cover_nonneg lost1 x). pose proof (cover_nonneg (free_blocks st1) x).
      unfold in_range in Hx. bool_to_prop.
      rewrite Hnew in Hs by (unfold in_range; lia). simpl in Hs.
      destruct (in_block (o, cur) x) eqn:E; [apply in_block_spec in E; lia | simpl in Hs; lia]. }
    exists st', (added ++ [(o, cur)]), (lost1 ++ lost). split; [done|]. split; [done|].
    split; [by apply tiles_cons | eapply grown_trans; [apply Hwf' | done | done]].
Qed.

Definition region_lo (r : Z * Z) : Z := from_phys_addr r.1.
Definition region_hi (r : Z * Z) : Z := from_phys_addr (r.1 + r.2).

(** The number of regions frame [x] lies in, and their frames in total. *)
Fixpoint region_cover (rs : list (Z * Z)) (x : Z) : Z :=
  match rs with
  | [] => 0
  | r :: rs' => Z.b2z (in_range (region_lo r) (region_hi r) x) + region_cover rs' x
  end.

Fixpoint region_frames (rs : list (Z * Z)) : Z :=
  match rs with
  | [] => 0
  | r :: rs' => Z.max 0 (region_hi r - region_lo r) + region_frames rs'
  end.

(** A memory map: regions inside the 64-bit address space, no frame in two. *)
Definition region_ok (r : Z * Z) : Prop := 0 <= r.1 /\ 0 <= r.2 /\ r.1 + r.2 < u64_modulus.
Definition memory_map_ok (rs : list (Z * Z)) : Prop :=
  Forall region_ok rs /\ forall x, region_cover rs x <= 1.

Lemma region_cover_nonneg (rs : list (Z * Z)) (x : Z) : 0 <= region_cover rs x.
Proof. induction rs as [|r rs IH]; simpl; [done|]. destruct (in_range _ _ _); simpl; lia. Qed.

Lemma region_ok_bounds (r : Z * Z) :
  region_ok r -> 0 <= region_lo r /\ region_hi r <= FRAME_LIMIT /\ wrap64 (r.1 + r.2) = r.1 + r.2.
Proof.
  intros (H1 & H2 & H3). unfold region_lo, region_hi, from_phys_addr, PAGE_SIZE_4K.
  split; [apply Z.div_pos; lia|]. split; [|by apply wrap64_small; split; [lia|]].
  apply Z.lt_le_incl, Z.div_lt_upper_bound; [lia|]. exact H3.
Qed.

Lemma grown_cover (st st' : BuddyFrameAllocator) (added lost : list block) (x : Z) :
  grown st st' added lost -> cover (free_blocks st') x <= cover added x + cover (free_blocks st) x.
Proof.
  intros ([Hs _] & _). specialize (Hs x). rewrite !cover_app in Hs.
  pose proof (cover_nonneg lost x). lia.
Qed.

Lemma init_fold_spec (rs : list (Z * Z)) (st : BuddyFrameAllocator) (total : Z) :
  adding_wf st -> Forall region_ok rs ->
  (forall x, region_cover rs x + cover (free_blocks st) x <= 1) ->
  exists st' total' added lost, ofold init_region (st, total) rs = Ret (st', total') /\
    adding_wf st' /\ grown st st' added lost /\ total <= total' /\
    (forall x, cover added x = region_cover rs x) /\ held added = region_frames rs /\
    (forall x, 0 < region_cover rs x -> x < total').
Proof.
  revert st total. induction rs as [|[start size] rs IH]; intros st total Hwf Hrs Hdisj; simpl.
  - exists st, total, [], []. repeat split; try done; try apply Hwf; try lia; [by left|].
    simpl. rewrite Z.add_0_r, wrap64_small; [done | apply Hwf].
  - inversion Hrs as [|? ? Hr Hrs']; subst.
    destruct (region_ok_bounds _ Hr) as (Hlo & Hhi & Hw). cbn [fst snd] in Hw. rewrite Hw.
    change (from_phys_addr start) with (region_lo (start, size)).
    change (from_phys_addr (start + size)) with (region_hi (start, size)).
    set (r := (start, size)) in *.
    destruct (add_region_loop_spec (Z.to_nat (region_hi r - region_lo r)) st (region_lo r) (region_hi r))
      as (st1 & a1 & l1 & Heq & Hwf1 & [Ht Hth] & Hg1); [done | done | done | done | |].
    { intros x Hx. specialize (Hdisj x). simpl in Hdisj. rewrite Hx in Hdisj. simpl in Hdisj.
      pose proof (region_cover_nonneg rs x). pose proof (cover_nonneg (free_blocks st) x). lia. }
    unfold add_region. rewrite Heq. cbn [obind].
    destruct (IH st1 (Z.max total (region_hi r)) Hwf1 Hrs')
      as (st' & total' & a2 & l2 & -> & Hwf' & Hg2 & Htot & Hc2 & Hh2 & Hin2).
    { intros x. specialize (Hdisj x). simpl in Hdisj. pose proof (grown_cover _ _ _ _ x Hg1).
      rewrite Ht in *. lia. }
    exists st', total', (a2 ++ a1), (l1 ++ l2). split; [done|]. split; [done|].
    split; [eapply grown_trans; [apply Hwf' | done | done]|]. split; [lia|].
    split; [intros x; rewrite cover_app, Hc2, Ht; simpl; lia|].
    split; [rewrite held_app, Hh2, Hth; simpl; lia|].
    intros x Hx. simpl in Hx. destruct (in_range (region_lo r) (region_hi r) x) eqn:E.
    + unfold in_range in E. bool_to_prop. lia.
    + apply Hin2. simpl in Hx. lia.
Qed.

Lemma adding_wf_start :
  adding_wf (with_bitmap BuddyFrameAllocator_new ((fun _ => u64_max) <$> bitmap BuddyFrameAllocator_new)) /\
  free_blocks BuddyFrameAllocator_new = [].
Proof.
  assert (Hfb : free_blocks BuddyFrameAllocator_new = []) by apply blocks_of_new.
  split; [|done]. split; [apply lists_ok_new | | | done].
  - unfold bitmap_ok. simpl. by rewrite length_fmap, length_replicate.
  - change (free_blocks (with_bitmap _ _)) with (free_blocks BuddyFrameAllocator_new).
    rewrite Hfb. split; [constructor | done | intros x Hx; simpl in Hx; lia].
Qed.
