(* ===== verification/BuddyTheorems.v ===== *)
(** * The buddy allocator: the theorems

    The properties of src/src/mm/buddy_allocator.rs that its clients rely on,
    derived from the specification lemmas of [BuddySpec]. *)

From stdpp Require Import base list relations.
From Stdlib Require Import ZArith Lia Permutation.
From S2P Require Import Prelude Ranges Paging Buddy BuddySpec.

Local Open Scope Z_scope.

(** ** Initialisation *)

(** Enough to know that no list filled up: then no block was dropped. *)
Definition no_list_full (st : BuddyFrameAllocator) : Prop :=
  forall k, (order_count (free_lists st) k < ENTRIES_LEN)%nat.

(** The free blocks with no buddy of the same order free as well. *)
Definition no_free_buddies (st : BuddyFrameAllocator) : Prop :=
  forall o f, (o < MAX_ORDER)%nat -> (o, f) ∈ free_blocks st -> (o, buddy f o) ∈ free_blocks st -> False.

(** ** The allocator and its clients

    A run of the system: blocks are handed out and returned in any order; the
    ghost component lists the blocks in use. *)

Inductive buddy_step : BuddyFrameAllocator * list block -> BuddyFrameAllocator * list block -> Prop :=
| step_alloc (st st' : BuddyFrameAllocator) (owned : list block) (o : nat) (f : Z) :
    allocate_order st o = Ret (Some f, st') -> buddy_step (st, owned) (st', (o, f) :: owned)
| step_alloc_fail (st st' : BuddyFrameAllocator) (owned : list block) (o : nat) :
    allocate_order st o = Ret (None, st') -> buddy_step (st, owned) (st', owned)
| step_dealloc (st st' : BuddyFrameAllocator) (owned owned' : list block) (o : nat) (f : Z) :
    owned ≡ₚ (o, f) :: owned' -> deallocate_order st f o = Ret st' ->
    buddy_step (st, owned) (st', owned').

(** What every reachable state satisfies, relative to the initial state. *)
Record system_inv (st0 st : BuddyFrameAllocator) (owned : list block) : Prop := {
  si_wf : buddy_wf st;
  si_owned : Forall block_ok owned;
  si_cover : forall x, cover (owned ++ free_blocks st) x <= cover (free_blocks st0) x;
  si_total : total_frames st = total_frames st0
}.

Section System.
Context (st0 : BuddyFrameAllocator) (Hwf0 : buddy_wf st0).

Lemma system_inv_returnable (st : BuddyFrameAllocator) (owned owned' : list block) (o : nat) (f : Z) :
  system_inv st0 st owned -> owned ≡ₚ (o, f) :: owned' -> returnable st o f.
Proof using Hwf0.
  intros [Hwf Hok Hc Ht] Hp. rewrite Hp in Hok. inversion Hok as [|? ? Hb _]; subst.
  split; [done|]. intros x Hx. specialize (Hc x). rewrite cover_app, Hp in Hc. simpl in Hc.
  rewrite Hx in Hc. simpl in Hc.
  pose proof (bw_disjoint _ _ (wf_blocks _ Hwf0) x).
  pose proof (cover_nonneg owned' x). pose proof (cover_nonneg (free_blocks st) x).
  split; [lia|]. rewrite Ht. apply (wf_total _ Hwf0). lia.
Qed.

Lemma system_inv_step (st st' : BuddyFrameAllocator) (owned owned' : list block) :
  system_inv st0 st owned -> buddy_step (st, owned) (st', owned') -> system_inv st0 st' owned'.
Proof using Hwf0.
  intros Hinv Hstep. pose proof Hinv as [Hwf Hok Hc Ht].
  inversion Hstep as [? ? ? o f Ha | ? ? ? o Ha | ? ? ? ? o f Hp Hd]; subst.
  - destruct (allocate_order_spec st o Hwf)
      as [[Heq _] | (f' & st1 & Heq & Hwf' & Hb & [Hs _] & Htot & _)]; [congruence|].
    rewrite Ha in Heq. injection Heq as <- <-.
    split; [done | by constructor | | congruence].
    intros x. specialize (Hs x). specialize (Hc x). simpl in *. rewrite cover_app in *. lia.
  - destruct (allocate_order_spec st o Hwf) as [[Heq _] | (f' & st1 & Heq & _)]; [|congruence].
    rewrite Ha in Heq. by injection Heq as ->.
  - pose proof (system_inv_returnable _ _ _ _ _ Hinv Hp) as Hret.
    destruct (deallocate_order_spec st f o Hwf Hret)
      as (st1 & fls & o' & f' & lost & Heq & Hwf' & Htot & _ & [Hs _] & _).
    rewrite Hd in Heq. injection Heq as <-. rewrite Hp in Hok. inversion Hok; subst.
    split; [done | done | | congruence].
    intros x. specialize (Hs x). specialize (Hc x). rewrite Hp in Hc. simpl in *.
    rewrite cover_app in *. pose proof (cover_nonneg lost x). lia.
Qed.

Lemma system_inv_reachable (st : BuddyFrameAllocator) (owned : list block) :
  rtc buddy_step (st0, []) (st, owned) -> system_inv st0 st owned.
Proof using Hwf0.
  intros Hr. apply (rtc_ind_r (fun s => system_inv st0 s.1 s.2) (st0, [])) in Hr; [done | |].
  - split; [done | constructor | done | done].
  - intros [s1 o1] [s2 o2] _ Hstep Hinv. by eapply system_inv_step.
Qed.

End System.

(** ** Buddies are merged *)

Lemma buddy_aligned (f : Z) (k : nat) :
  0 <= f -> (2 ^ Z.of_nat (S k) | f) -> buddy f k = f + 2 ^ Z.of_nat k.
Proof.
  intros Hf Hd.
  assert (Hdk : (2 ^ Z.of_nat k | f)) by (eapply Z.divide_trans; [|exact Hd]; apply pow2_divide; lia).
  unfold buddy. rewrite shiftl_1_pow2, lxor_pow2_aligned by done.
  apply (testbit_aligned f k Hdk) in Hd. by rewrite Hd.
Qed.

Lemma buddy_ne (f : Z) (k : nat) : 0 <= f -> (2 ^ Z.of_nat k | f) -> buddy f k ≠ f.
Proof. intros Hf Hd. pose proof (pow2_pos k). destruct (buddy_cases f k Hf Hd) as [[_ ->]|[_ ->]]; lia. Qed.

Lemma elem_of_split_pieces (n : nat) (f g : Z) (o k : nat) :
  block_ok ((o + n)%nat, f) -> (k, g) ∈ split_pieces n f o -> buddy g k = f.
Proof.
  intros Hb. induction n as [|n IH]; simpl; [by intros ?%elem_of_nil|].
  rewrite Nat.add_succ_r in Hb. pose proof (block_ok_halves _ _ Hb) as [Hb1 _].
  intros [[= -> ->]|Hin]%elem_of_cons; [|by apply IH].
  destruct Hb as (_ & Hf & _ & Hd). cbn [fst snd] in *.
  rewrite <- (buddy_aligned f (o + n) Hf Hd). apply buddy_involutive.
Qed.

Lemma block_covers_head (bs : list block) (k : nat) (f : Z) :
  (k, f) ∈ bs -> 0 < cover bs f.
Proof.
  intros Hin. apply cover_pos. exists (k, f). split; [done|].
  apply in_block_spec. pose proof (pow2_pos k). lia.
Qed.

(** A free block of a small enough machine passes the bitmap test. *)
Lemma free_block_is_buddy_free (st : BuddyFrameAllocator) (bs : list block) (o : nat) (b : Z) :
  blocks_wf st bs -> (o, b) ∈ bs -> (forall x, 0 < cover bs x -> x < total_frames st) ->
  total_frames st <= MAX_4K_FRAMES -> is_buddy_free st b o = true.
Proof.
  intros [Hok _ Hm] Hin Ht Hmax. rewrite Forall_forall in Hok.
  destruct (Hok _ Hin) as (_ & Hb & Hl & _). cbn [fst snd] in *. pose proof (pow2_pos o).
  assert (Hcov : forall x, b <= x < b + 2 ^ Z.of_nat o -> 0 < cover bs x).
  { intros x Hx. apply cover_pos. exists (o, b). split; [done | by apply in_block_spec]. }
  unfold is_buddy_free. rewrite shiftl_1_pow2, FRAME_LIMIT_u64 by lia.
  rewrite Z.gtb_ltb. pose proof (Ht _ (Hcov (b + 2 ^ Z.of_nat o - 1) ltac:(lia))).
  destruct (Z.ltb_spec (total_frames st) (b + 2 ^ Z.of_nat o)); [lia|].
  apply all_range_spec. intros i Hi. rewrite FRAME_LIMIT_u64 by lia.
  pose proof (Hcov (b + i) ltac:(lia)) as Hc. apply Hm; [done|]. specialize (Ht _ Hc). lia.
Qed.

Lemma allocate_no_free_buddies (st st' : BuddyFrameAllocator) (o : nat) (r : option Z) :
  buddy_wf st -> no_free_buddies st -> allocate_order st o = Ret (r, st') -> no_free_buddies st'.
Proof.
  intros Hwf Hno Heq. destruct (allocate_order_spec st o Hwf)
    as [[Heq' _] | (f & st1 & Heq' & _ & Hb & [Hs _] & _ & _ & co & rest & Hco & Hp & Hp')];
    rewrite Heq in Heq'; injection Heq' as -> ->; [done|].
  assert (Hbco : block_ok ((o + (co - o))%nat, f)).
  { replace (o + (co - o))%nat with co by lia.
    pose proof (bw_ok _ _ (wf_blocks _ Hwf)) as HF. rewrite Hp in HF. by inversion HF. }
  assert (Hf : cover (free_blocks st1) f = 0).
  { specialize (Hs f). simpl in Hs. pose proof (pow2_pos o).
    rewrite (proj2 (in_block_spec o f f) ltac:(lia)) in Hs. simpl in Hs.
    pose proof (bw_disjoint _ _ (wf_blocks _ Hwf) f). pose proof (cover_nonneg (free_blocks st1) f). lia. }
  assert (Hpiece : forall k g, (k, g) ∈ split_pieces (co - o) f o -> (k, buddy g k) ∉ free_blocks st1).
  { intros k g Hin Hin'. rewrite (elem_of_split_pieces _ _ _ _ _ Hbco Hin) in Hin'.
    pose proof (block_covers_head _ _ _ Hin'). lia. }
  intros k g Hk H1 H2. pose proof H1 as H1'. pose proof H2 as H2'.
  rewrite Hp', elem_of_app in H1', H2'.
  destruct H1' as [H1'|H1']; [by apply (Hpiece k g)|].
  destruct H2' as [H2'|H2']; [apply (Hpiece k _ H2'); by rewrite buddy_involutive|].
  apply (Hno k g Hk); rewrite Hp; by right.
Qed.

Lemma deallocate_no_free_buddies (st st' : BuddyFrameAllocator) (f : Z) (o : nat) :
  buddy_wf st -> returnable st o f -> total_frames st <= MAX_4K_FRAMES ->
  no_free_buddies st -> deallocate_order st f o = Ret st' -> no_free_buddies st'.
Proof.
  intros Hwf Hret Hmax Hno Heq. destruct (deallocate_order_spec st f o Hwf Hret)
    as (st1 & fls & o' & f' & lost & Heq' & _ & _ & _ & _ & Hcase & Hsub & Hb' & bm & _ & Hbw & Hstop).
  rewrite Heq in Heq'. injection Heq' as <-.
  assert (Hnew : (o' < MAX_ORDER)%nat -> (o', buddy f' o') ∉ blocks_of fls).
  { intros Ho' Hin. destruct Hstop as [->|[Hfalse|Hnin]]; [lia | | done].
    assert (is_buddy_free (with_bitmap st bm) (buddy f' o') o' = true); [|congruence].
    eapply free_block_is_buddy_free; [exact Hbw | right; by apply Hsub | | done].
    intros x Hx. simpl in Hx |- *. destruct Hret as [_ Hown].
    destruct (in_block (o, f) x) eqn:E; [apply (Hown _ E) | apply (wf_total _ Hwf); simpl in Hx; lia]. }
  destruct Hb' as (_ & Hf' & _ & Hd'). cbn [fst snd] in *.
  destruct Hcase as [[Hp _] | [Hp _]]; intros k g Hk H1 H2; rewrite Hp in H1, H2.
  - apply elem_of_cons in H1 as [[= -> ->]|H1].
    + apply elem_of_cons in H2 as [[= H2]|H2]; [by apply (buddy_ne f' o') | by apply Hnew].
    + apply elem_of_cons in H2 as [[= -> <-]|H2].
      * apply Hnew; [done|]. by rewrite buddy_involutive.
      * apply (Hno k g Hk); by apply Hsub.
  - apply (Hno k g Hk); by apply Hsub.
Qed.

(** ** Properties *)

Lemma init_spec (rs : list (Z * Z)) :
  memory_map_ok rs ->
  exists st lost, init BuddyFrameAllocator_new rs = Ret st /\ buddy_wf st /\
    (forall x, cover (lost ++ free_blocks st) x = region_cover rs x) /\
    (no_list_full st -> lost = []) /\
    held (lost ++ free_blocks st) = region_frames rs /\
    free_frames st = wrap64 (region_frames rs).
Proof.
  intros [Hrs Hdisj]. destruct adding_wf_start as [Hwf0 Hfb]. unfold init.
  set (st0 := with_bitmap _ _) in *.
  assert (Hfb0 : free_blocks st0 = []) by exact Hfb.
  destruct (init_fold_spec rs st0 0 Hwf0 Hrs)
    as (st & total & added & lost & -> & Hwf & (Hs & Hcnt & Hlost & Hff) & _ & Hc & Hh & Hin).
  { intros x. rewrite Hfb0. simpl. specialize (Hdisj x). lia. }
  cbn [obind]. rewrite Hfb0, app_nil_r in Hs. destruct Hs as [Hs1 Hs2].
  exists (with_total_frames st total), lost. split; [done|].
  change (free_blocks (with_total_frames st total)) with (free_blocks st).
  split; [|split; [|split; [|split]]].
  - destruct Hwf as [Hl Hbm Hblk Hu]. split; [done | done | by destruct Hblk |].
    intros x Hx. simpl. apply Hin. change (0 < cover (free_blocks st) x) in Hx.
    rewrite <- Hc, Hs1, cover_app. pose proof (cover_nonneg lost x). lia.
  - intros x. by rewrite <- Hs1.
  - intros Hnf. destruct Hlost as [->|[k Hk]]; [done|].
    specialize (Hnf k). simpl in Hnf. lia.
  - by rewrite <- Hs2.
  - change (free_frames (with_total_frames st total)) with (free_frames st).
    rewrite Hff, Hh. done.
Qed.

(** C1: [init] over a memory map of disjoint regions never panics and
    establishes the invariant; the free blocks cover exactly the frames of the
    map, each once, unless some free list reached its capacity, in which case
    they cover a part of them. *)
Theorem init_establishes_invariant (rs : list (Z * Z)) :
  memory_map_ok rs ->
  exists st, init BuddyFrameAllocator_new rs = Ret st /\ buddy_wf st /\
    (forall x, cover (free_blocks st) x <= region_cover rs x) /\
    (no_list_full st -> forall x, cover (free_blocks st) x = region_cover rs x) /\
    (no_list_full st -> held (free_blocks st) = region_frames rs) /\
    free_frames st = wrap64 (region_frames rs).
Proof.
  intros Hrs. destruct (init_spec rs Hrs) as (st & lost & Heq & Hwf & Hc & Hl & Hh & Hff).
  exists st. split; [done|]. split; [done|]. split; [|split; [|split; [|done]]].
  - intros x. rewrite <- Hc, cover_app. pose proof (cover_nonneg lost x). lia.
  - intros Hnf x. by rewrite <- Hc, (Hl Hnf).
  - intros Hnf. by rewrite <- Hh, (Hl Hnf).
Qed.

(** C2: [allocate_order] never panics.  A block it returns is aligned, was
    free before in every frame and is free in none after; all other frames keep
    their status; the counter drops by the size of the block.  It fails only
    when no free block of the order or above exists, and then changes nothing. *)
Theorem allocate_order_correct (st : BuddyFrameAllocator) (o : nat) :
  buddy_wf st ->
  exists r st', allocate_order st o = Ret (r, st') /\ buddy_wf st' /\
    match r with
    | Some f =>
        block_ok (o, f) /\ same_frames (free_blocks st) ((o, f) :: free_blocks st') /\
        (forall x, in_block (o, f) x = true ->
           cover (free_blocks st) x = 1 /\ cover (free_blocks st') x = 0) /\
        free_frames st' = wrap64 (free_frames st - 2 ^ Z.of_nat o)
    | None => st' = st /\ forall k f, (o <= k)%nat -> (k, f) ∉ free_blocks st
    end.
Proof.
  intros Hwf. destruct (allocate_order_spec st o Hwf)
    as [[Heq Hno] | (f & st' & Heq & Hwf' & Hb & Hs & _ & Hff & _)].
  - exists None, st. done.
  - exists (Some f), st'. split; [done|]. split; [done|]. split; [done|]. split; [done|]. split; [|done].
    intros x Hx. destruct Hs as [Hs _]. specialize (Hs x). simpl in Hs. rewrite Hx in Hs. simpl in Hs.
    pose proof (bw_disjoint _ _ (wf_blocks _ Hwf) x). pose proof (cover_nonneg (free_blocks st') x). lia.
Qed.

(** C3: [deallocate_order] of a block in use never panics and keeps the
    invariant; when no free list is full, the frames of the block become free,
    each once, and nothing else changes; in every case no other frame becomes
    free.  The counter grows by the size of the block. *)
Theorem deallocate_order_correct (st : BuddyFrameAllocator) (f : Z) (o : nat) :
  buddy_wf st -> returnable st o f ->
  exists st', deallocate_order st f o = Ret st' /\ buddy_wf st' /\
    (no_list_full st -> same_frames ((o, f) :: free_blocks st) (free_blocks st')) /\
    (forall x, cover (free_blocks st') x <= Z.b2z (in_block (o, f) x) + cover (free_blocks st) x) /\
    free_frames st' = wrap64 (free_frames st + 2 ^ Z.of_nat o).
Proof.
  intros Hwf Hret. destruct (deallocate_order_spec st f o Hwf Hret)
    as (st' & fls & o' & f' & lost & Heq & Hwf' & _ & Hff & Hs & Hcase & _).
  exists st'. split; [done|]. split; [done|]. split; [|split; [|done]].
  - intros Hnf. destruct Hcase as [[_ ->] | (_ & _ & Hfull)]; [done|].
    specialize (Hnf o'). lia.
  - intros x. destruct Hs as [Hs _]. specialize (Hs x). rewrite cover_app in Hs. simpl in Hs.
    pose proof (cover_nonneg lost x). lia.
Qed.

(** C4: after boot, in every state reached by any interleaving of allocations
    and deallocations of blocks in use, the blocks in use and the free blocks
    together cover no frame more often than the memory map does: no frame is
    handed out twice, none is free while in use, none is outside the map. *)
Theorem no_frame_shared (rs : list (Z * Z)) (st0 st : BuddyFrameAllocator) (owned : list block) :
  memory_map_ok rs -> init BuddyFrameAllocator_new rs = Ret st0 ->
  rtc buddy_step (st0, []) (st, owned) ->
  forall x, cover owned x + cover (free_blocks st) x <= region_cover rs x <= 1.
Proof.
  intros Hrs Hinit Hr x. pose proof Hrs as [_ Hdisj].
  destruct (init_spec rs Hrs) as (st1 & lost & Heq & Hwf & Hc & _).
  rewrite Hinit in Heq. injection Heq as <-.
  pose proof (si_cover _ _ _ (system_inv_reachable st0 Hwf st owned Hr) x) as Hle.
  rewrite cover_app in Hle. specialize (Hc x). rewrite cover_app in Hc.
  pose proof (cover_nonneg lost x). split; [lia | apply Hdisj].
Qed.

(** a block can always be returned: in every reachable state,
    [deallocate_order] of a block in use returns. *)
Theorem owned_block_can_be_freed (rs : list (Z * Z)) (st0 st : BuddyFrameAllocator)
    (owned owned' : list block) (o : nat) (f : Z) :
  memory_map_ok rs -> init BuddyFrameAllocator_new rs = Ret st0 ->
  rtc buddy_step (st0, []) (st, owned) -> owned ≡ₚ (o, f) :: owned' ->
  exists st', deallocate_order st f o = Ret st'.
Proof.
  intros Hrs Hinit Hr Hp.
  destruct (init_spec rs Hrs) as (st1 & lost & Heq & Hwf & _).
  rewrite Hinit in Heq. injection Heq as <-.
  pose proof (system_inv_reachable st0 Hwf st owned Hr) as Hinv.
  destruct (deallocate_order_spec st f o (si_wf _ _ _ Hinv)
    (system_inv_returnable st0 Hwf _ _ _ _ _ Hinv Hp)) as (st' & ? & ? & ? & ? & Hd & _).
  by exists st'.
Qed.

(** coalescing is complete: on a machine within the bitmap's reach, if no
    two buddies of the same order are free, the same holds after any step of
    the system. *)
Theorem buddies_stay_merged (st0 st' : BuddyFrameAllocator) (owned' : list block) :
  buddy_wf st0 -> total_frames st0 <= MAX_4K_FRAMES -> no_free_buddies st0 ->
  rtc buddy_step (st0, []) (st', owned') -> no_free_buddies st'.
Proof.
  intros Hwf0 Hmax Hno Hr.
  assert (Hgoal : system_inv st0 st' owned' /\ no_free_buddies st'); [|apply Hgoal].
  apply (rtc_ind_r (fun s => system_inv st0 s.1 s.2 /\ no_free_buddies s.1) (st0, [])) in Hr; [done | |].
  - split; [|done]. split; [done | constructor | done | done].
  - intros [s1 o1] [s2 o2] _ Hstep [Hinv Hn]. cbn [fst snd] in *.
    split; [by eapply system_inv_step|].
    pose proof Hinv as [Hwf _ _ Ht].
    inversion Hstep as [? ? ? o f Ha | ? ? ? o Ha | ? ? ? ? o f Hp Hd]; subst.
    + by eapply allocate_no_free_buddies.
    + by eapply allocate_no_free_buddies.
    + apply (deallocate_no_free_buddies s1 s2 f o); [done | | lia | done | done].
      by apply (system_inv_returnable st0 Hwf0 s1 o1 o2).
Qed.

(** allocation and deallocation cancel: returning a block just allocated,
    while no free list is full, restores the free frames and the counter. *)
Theorem allocate_deallocate_roundtrip (st st' : BuddyFrameAllocator) (o : nat) (f : Z) :
  buddy_wf st -> is_u64 (free_frames st) ->
  allocate_order st o = Ret (Some f, st') -> no_list_full st' ->
  exists st'', deallocate_order st' f o = Ret st'' /\ buddy_wf st'' /\
    same_frames (free_blocks st'') (free_blocks st) /\ free_frames st'' = free_frames st.
Proof.
  intros Hwf Hu Ha Hnf. destruct (allocate_order_spec st o Hwf)
    as [[Heq _] | (f' & st1 & Heq & Hwf' & Hb & Hs & Ht & Hff & _)]; rewrite Ha in Heq; [congruence|].
  injection Heq as <- <-.
  assert (Hret : returnable st' o f).
  { split; [done|]. intros x Hx. destruct Hs as [Hs _]. specialize (Hs x). simpl in Hs.
    rewrite Hx in Hs. simpl in Hs. pose proof (bw_disjoint _ _ (wf_blocks _ Hwf) x).
    pose proof (cover_nonneg (free_blocks st') x). split; [lia|].
    rewrite Ht. apply (wf_total _ Hwf). lia. }
  destruct (deallocate_order_spec st' f o Hwf' Hret)
    as (st2 & fls & o' & f'' & lost & Heq2 & Hwf2 & _ & Hff2 & Hs2 & Hcase & _).
  exists st2. split; [done|]. split; [done|]. split.
  - destruct Hcase as [[_ ->] | (_ & _ & Hfull)]; [symmetry; etrans; [exact Hs | exact Hs2]|].
    specialize (Hnf o'). lia.
  - rewrite Hff2, Hff. unfold wrap64. rewrite Zplus_mod_idemp_l, Z.sub_add. by apply Z.mod_small.
Qed.

(** a free list holds 8192 blocks and [push] drops what does not fit:
    returning a block that has no free buddy while its list is full leaves the
    free blocks as they were, so the frames are never handed out again, although
    the counter of free frames grows. *)
Theorem deallocate_full_list_loses_block (st : BuddyFrameAllocator) (f : Z) (o : nat) :
  buddy_wf st -> returnable st o f -> order_count (free_lists st) o = ENTRIES_LEN ->
  (o, buddy f o) ∉ free_blocks st ->
  exists st', deallocate_order st f o = Ret st' /\ free_blocks st' = free_blocks st /\
    free_frames st' = wrap64 (free_frames st + 2 ^ Z.of_nat o).
Proof.
  intros [Hl Hbm Hblk Ht] [Hb Hown] Hfull Hnin. pose proof Hb as [Ho _]. cbn [fst] in Ho.
  destruct (mark_block_wf st _ o f Hbm Hblk Hb) as [[Hmark _] _]; [apply Hown|].
  unfold deallocate_order, coalesce. rewrite shiftl_1_pow2, Hmark.
  set (bm := bitmap _). clearbody bm. cbn [free_frames with_bitmap].
  set (st2 := with_free_frames (with_bitmap st bm) _).
  assert (Hloop : coalesce_loop (MAX_ORDER - o) st2 f o = Ret (st2, f, o)).
  { destruct (MAX_ORDER - o)%nat eqn:E; [done|]. cbn [coalesce_loop].
    destruct (is_buddy_free st2 (buddy f o) o); [|done].
    destruct (remove_at_spec st2 o (buddy f o) Hl Ho) as [[_ ->] | (fls & _ & _ & Hp & _)]; [done|].
    exfalso. apply Hnin. unfold free_blocks. change (free_lists st) with (free_lists st2).
    rewrite Hp. by left. }
  rewrite Hloop. cbn [obind].
  rewrite push_at_full by (simpl; rewrite ?Hfull; done). by eexists.
Qed.

(** [frames_to_order] gives the least order whose blocks hold the frames
    asked for. *)
Theorem frames_to_order_least (n : Z) :
  1 <= n <= 2 ^ 63 ->
  n <= 2 ^ Z.of_nat (frames_to_order n) /\
  forall o, n <= 2 ^ Z.of_nat o -> (frames_to_order n <= o)%nat.
Proof.
  intros Hn. unfold frames_to_order, leading_zeros64.
  destruct (Z.eqb_spec n 0); [lia|]. destruct (Z.eqb_spec (n - 1) 0).
  - assert (n = 1) by lia. subst n. split; [done | intros; simpl; lia].
  - destruct (Z.log2_spec (n - 1)) as [Hlo Hhi]; [lia|].
    pose proof (Z.log2_nonneg (n - 1)).
    assert (Hk : Z.of_nat (Z.to_nat (64 - (63 - Z.log2 (n - 1)))) = Z.succ (Z.log2 (n - 1))) by lia.
    rewrite Hk. split; [lia|]. intros o Ho.
    assert (Z.log2 (n - 1) < Z.of_nat o); [|lia].
    apply (Z.pow_lt_mono_r_iff 2); lia.
Qed.

(** ** The frame interface *)

Section FrameApi.
Context `{L : X86PagingLaws}.

(** What a frame allocation of a page size promises. *)
Definition frame_allocated (st : BuddyFrameAllocator) (size : Z)
    (m : outcome (option PhysFrame * BuddyFrameAllocator)) : Prop :=
  exists r st', m = Ret (r, st') /\ buddy_wf st' /\
    match r with
    | Some fr =>
        let a := phys_as_u64 (start_address fr) in
        (size | a) /\
        forall x, a / PAGE_SIZE_4K <= x < (a + size) / PAGE_SIZE_4K ->
          cover (free_blocks st) x = 1 /\ cover (free_blocks st') x = 0
    | None => st' = st
    end.

Lemma frame_of_order (st : BuddyFrameAllocator) (o : nat) (size : Z) :
  buddy_wf st -> total_frames st <= 2 ^ 40 -> size = 2 ^ Z.of_nat o * PAGE_SIZE_4K ->
  frame_allocated st size
    (let! (r, st1) := allocate_order st o in let! fr := frame_of_index size r in Ret (fr, st1)).
Proof using L.
  intros Hwf Htot ->. pose proof (pow2_pos o).
  destruct (allocate_order_spec st o Hwf) as [[-> _] | (f & st' & -> & Hwf' & Hb & [Hs _] & _)].
  - exists None, st. done.
  - assert (Hin : forall x, f <= x < f + 2 ^ Z.of_nat o ->
      cover (free_blocks st) x = 1 /\ cover (free_blocks st') x = 0).
    { intros x Hx%in_block_spec. specialize (Hs x). simpl in Hs. rewrite Hx in Hs. simpl in Hs.
      pose proof (bw_disjoint _ _ (wf_blocks _ Hwf) x).
      pose proof (cover_nonneg (free_blocks st') x). lia. }
    destruct Hb as (_ & Hf & _ & [k Hk]). cbn [fst snd] in *.
    assert (f < 2 ^ 40).
    { destruct (Hin f) as [H1 _]; [lia|]. pose proof (wf_total _ Hwf f). lia. }
    cbn [obind frame_of_index]. unfold to_phys_addr, PAGE_SIZE_4K.
    rewrite wrap64_small by (unfold is_u64, u64_modulus; lia).
    destruct (frame_roundtrip (f * 4096) (2 ^ Z.of_nat o * 4096)) as (p & -> & Hstart).
    + unfold PHYS_ADDR_LIMIT. lia.
    + lia.
    + exists k. rewrite Hk. ring.
    + cbn [obind]. eexists _, st'. split; [done|]. split; [done|]. cbn zeta. rewrite Hstart.
      split; [exists k; rewrite Hk; unfold PAGE_SIZE_4K; ring|]. intros x Hx. apply Hin.
      unfold PAGE_SIZE_4K in Hx.
      rewrite <- Z.mul_add_distr_r, !Z.div_mul in Hx by lia. done.
Qed.

(** on a machine with 52-bit physical addresses the three frame
    allocation functions never panic; a frame they return is aligned to its
    page size, and every 4 KiB frame inside it was free before and is not free
    after. *)
Theorem frame_allocation_correct (st : BuddyFrameAllocator) :
  buddy_wf st -> total_frames st <= 2 ^ 40 ->
  frame_allocated st PAGE_SIZE_4K (allocate_4k_frame st) /\
  frame_allocated st PAGE_SIZE_2M (allocate_2m_frame st) /\
  frame_allocated st PAGE_SIZE_1G (allocate_1g_frame st).
Proof using L.
  intros Hwf Htot. split; [|split].
  - by apply frame_of_order.
  - change (frames_to_order (PAGE_SIZE_2M / PAGE_SIZE_4K)) with 9%nat. by apply frame_of_order.
  - change (frames_to_order (PAGE_SIZE_1G / PAGE_SIZE_4K)) with 18%nat. by apply frame_of_order.
Qed.

End FrameApi.

(** ** Concrete runs

    A machine with 4 MiB of memory at 1 MiB, as in the unit test of
    src/src/mm/buddy_allocator.rs, and one with 8192 isolated frames. *)

#[local] Opaque init allocate_order deallocate_order.

Definition of_outcome {A} (d : A) (m : outcome A) : A :=
  match m with
  | Ret a => a
  | Panic => d
  end.

Definition boot_map : list (Z * Z) := [(0x100000, 0x400000)].
Definition booted : BuddyFrameAllocator :=
  of_outcome BuddyFrameAllocator_new (init BuddyFrameAllocator_new boot_map).

Lemma boot_map_ok : memory_map_ok boot_map.
Proof.
  split; [repeat constructor; simpl; unfold u64_modulus; lia|].
  intros x. unfold boot_map. cbn [region_cover]. destruct (in_range _ _ x); simpl; lia.
Qed.

Lemma booted_init : init BuddyFrameAllocator_new boot_map = Ret booted.
Proof.
  unfold booted. destruct (init_spec boot_map boot_map_ok) as (st & lost & -> & _). done.
Qed.

Lemma booted_wf : buddy_wf booted.
Proof.
  destruct (init_spec boot_map boot_map_ok) as (st & lost & Heq & Hwf & _).
  rewrite booted_init in Heq. apply Ret_inj in Heq. by rewrite Heq.
Qed.

(** The state after one 4 KiB allocation, which takes frame 1024. *)
Definition booted1 : BuddyFrameAllocator :=
  (of_outcome (None, BuddyFrameAllocator_new) (allocate_order booted 0)).2.

Lemma of_outcome_fst {A B} (d : A * B) (m : outcome (A * B)) (a : A) (p : A * B) :
  m = Ret p -> (of_outcome d m).1 = a -> m = Ret (a, (of_outcome d m).2).
Proof. intros -> <-. by destruct p. Qed.

Lemma booted_alloc : allocate_order booted 0 = Ret (Some 1024, booted1).
Proof.
  assert (Hp : exists p, allocate_order booted 0 = Ret p).
  { destruct (allocate_order_spec booted 0 booted_wf) as [[Heq _] | (f & st' & Heq & _)]; eauto. }
  destruct Hp as [p Hp]. unfold booted1.
  apply (of_outcome_fst (None, BuddyFrameAllocator_new) (allocate_order booted 0) (Some 1024) p Hp).
  vm_compute. reflexivity.
Qed.

Lemma no_list_full_dec (st : BuddyFrameAllocator) :
  forallb (fun fl => Nat.ltb (count fl) ENTRIES_LEN) (free_lists st) = true -> no_list_full st.
Proof.
  intros H k. unfold order_count. destruct (free_lists st !! k) as [fl|] eqn:E.
  - apply list_elem_of_lookup_2, list_elem_of_In in E. rewrite forallb_forall in H.
    by apply Nat.ltb_lt, H.
  - by apply Nat.ltb_lt.
Qed.

Lemma init_establishes_invariant_witness :
  memory_map_ok boot_map /\
  exists st, init BuddyFrameAllocator_new boot_map = Ret st /\ buddy_wf st /\
    (forall x, cover (free_blocks st) x <= region_cover boot_map x) /\
    (no_list_full st -> forall x, cover (free_blocks st) x = region_cover boot_map x) /\
    (no_list_full st -> held (free_blocks st) = region_frames boot_map) /\
    free_frames st = wrap64 (region_frames boot_map).
Proof.
  split; [exact boot_map_ok | exact (init_establishes_invariant boot_map boot_map_ok)].
Defined.

Lemma allocate_order_correct_witness :
  buddy_wf booted /\
  exists r st', allocate_order booted 3 = Ret (r, st') /\ buddy_wf st' /\
    match r with
    | Some f =>
        block_ok (3%nat, f) /\ same_frames (free_blocks booted) ((3%nat, f) :: free_blocks st') /\
        (forall x, in_block (3%nat, f) x = true ->
           cover (free_blocks booted) x = 1 /\ cover (free_blocks st') x = 0) /\
        free_frames st' = wrap64 (free_frames booted - 2 ^ Z.of_nat 3)
    | None => st' = booted /\ forall k f, (3 <= k)%nat -> (k, f) ∉ free_blocks booted
    end.
Proof.
  split; [exact booted_wf | exact (allocate_order_correct booted 3 booted_wf)].
Defined.

(** Frame 1024 is in use in [booted1]. *)
Lemma booted1_inv : system_inv booted booted1 [(0%nat, 1024)].
Proof.
  apply (system_inv_reachable booted booted_wf). apply rtc_once, step_alloc, booted_alloc.
Qed.

Lemma booted1_returnable : returnable booted1 0 1024.
Proof.
  by apply (system_inv_returnable booted booted_wf booted1 [(0%nat, 1024)] [] 0 1024 booted1_inv).
Qed.

Lemma deallocate_order_correct_witness :
  returnable booted1 0 1024 /\
  exists st', deallocate_order booted1 1024 0 = Ret st' /\ buddy_wf st' /\
    (no_list_full booted1 -> same_frames ((0%nat, 1024) :: free_blocks booted1) (free_blocks st')) /\
    (forall x, cover (free_blocks st') x <=
       Z.b2z (in_block (0%nat, 1024) x) + cover (free_blocks booted1) x) /\
    free_frames st' = wrap64 (free_frames booted1 + 2 ^ Z.of_nat 0).
Proof.
  split; [exact booted1_returnable|].
  exact (deallocate_order_correct booted1 1024 0 (si_wf _ _ _ booted1_inv) booted1_returnable).
Defined.

Lemma no_frame_shared_witness :
  rtc buddy_step (booted, []) (booted1, [(0%nat, 1024)]) /\
  cover [(0%nat, 1024)] 1024 + cover (free_blocks booted1) 1024 <= region_cover boot_map 1024 <= 1.
Proof.
  assert (Hr : rtc buddy_step (booted, []) (booted1, [(0%nat, 1024)]))
    by (apply rtc_once, step_alloc, booted_alloc).
  split; [exact Hr|].
  exact (no_frame_shared boot_map booted booted1 [(0%nat, 1024)] boot_map_ok booted_init Hr 1024).
Defined.

Lemma owned_block_can_be_freed_witness : exists st', deallocate_order booted1 1024 0 = Ret st'.
Proof.
  exact (owned_block_can_be_freed boot_map booted booted1 [(0%nat, 1024)] [] 0 1024
    boot_map_ok booted_init (rtc_once _ _ (step_alloc _ _ _ _ _ booted_alloc)) (reflexivity _)).
Defined.

(** The boot state has no free buddies: decided block by block. *)
Definition no_free_buddies_b (st : BuddyFrameAllocator) : bool :=
  forallb (fun b => negb (Nat.ltb b.1 MAX_ORDER) ||
    negb (bool_decide ((b.1, buddy b.2 b.1) ∈ free_blocks st))) (free_blocks st).

Lemma no_free_buddies_b_sound (st : BuddyFrameAllocator) :
  no_free_buddies_b st = true -> no_free_buddies st.
Proof.
  intros H o f Ho H1 H2. unfold no_free_buddies_b in H. rewrite forallb_forall in H.
  specialize (H (o, f) (proj1 (list_elem_of_In _ _) H1)). cbn [fst snd] in H.
  apply Nat.ltb_lt in Ho. rewrite Ho in H. simpl in H.
  by rewrite bool_decide_eq_true_2 in H.
Qed.

Lemma buddies_stay_merged_witness : no_free_buddies booted /\ no_free_buddies booted1.
Proof.
  assert (Hno : no_free_buddies booted) by (apply no_free_buddies_b_sound; vm_compute; reflexivity).
  split; [exact Hno|].
  apply (buddies_stay_merged booted booted1 [(0%nat, 1024)]).
  - exact booted_wf.
  - vm_compute; discriminate.
  - exact Hno.
  - exact (rtc_once _ _ (step_alloc _ _ _ _ _ booted_alloc)).
Defined.

Lemma allocate_deallocate_roundtrip_witness :
  exists st'', deallocate_order booted1 1024 0 = Ret st'' /\ buddy_wf st'' /\
    same_frames (free_blocks st'') (free_blocks booted) /\ free_frames st'' = free_frames booted.
Proof.
  apply (allocate_deallocate_roundtrip booted booted1 0 1024).
  - exact booted_wf.
  - vm_compute. split; [discriminate | reflexivity].
  - exact booted_alloc.
  - apply no_list_full_dec. vm_compute. reflexivity.
Defined.

Lemma frames_to_order_least_witness :
  3 <= 2 ^ Z.of_nat (frames_to_order 3) /\
  forall o, 3 <= 2 ^ Z.of_nat o -> (frames_to_order 3 <= o)%nat.
Proof. apply (frames_to_order_least 3). lia. Defined.

Lemma frame_allocation_correct_witness :
  frame_allocated booted PAGE_SIZE_4K (allocate_4k_frame booted) /\
  frame_allocated booted PAGE_SIZE_2M (allocate_2m_frame booted) /\
  frame_allocated booted PAGE_SIZE_1G (allocate_1g_frame booted).
Proof.
  apply (frame_allocation_correct booted).
  - exact booted_wf.
  - vm_compute; discriminate.
Defined.

(** ** A full free list: the frames 2, 4, ..., 16384 free one by one *)

Fixpoint evens (i : Z) (n : nat) : list Z :=
  match n with
  | O => []
  | S n' => 2 * i :: evens (i + 1) n'
  end.

Definition full_list : FreeList := mkFreeList (Some <$> evens 1 ENTRIES_LEN) ENTRIES_LEN.
Definition full_state : BuddyFrameAllocator :=
  mkBuddy (full_list :: replicate MAX_ORDER FreeList_new) (replicate (Z.to_nat BITMAP_LEN) 0)
    (2 * (1 + Z.of_nat ENTRIES_LEN)) (Z.of_nat ENTRIES_LEN) 0 0.

#[local] Opaque ENTRIES_LEN BITMAP_LEN.

Lemma length_evens (i : Z) (n : nat) : length (evens i n) = n.
Proof. revert i. induction n as [|n IH]; intros i; simpl; [done | by rewrite IH]. Qed.

Lemma elem_of_evens (i x : Z) (n : nat) : x ∈ evens i n -> 2 * i <= x /\ Z.even x = true.
Proof.
  revert i. induction n as [|n IH]; intros i; simpl; [by intros ?%elem_of_nil|].
  intros [->|H]%elem_of_cons; [split; [lia | by rewrite Z.even_mul]|].
  destruct (IH _ H). split; [lia | done].
Qed.

Lemma evens_cover (i x : Z) (n : nat) :
  cover (pair 0%nat <$> evens i n) x <= Z.b2z ((2 * i <=? x) && (x <? 2 * (i + Z.of_nat n))).
Proof.
  revert i. induction n as [|n IH]; intros i.
  - simpl. destruct (_ && _); done.
  - specialize (IH (i + 1)). rewrite Nat2Z.inj_succ. cbn [evens]. rewrite fmap_cons.
    cbn [cover]. unfold in_block. cbn [fst snd].
    change (2 ^ Z.of_nat 0) with 1.
    destruct (Z.leb_spec (2 * i) x), (Z.ltb_spec x (2 * (i + Z.succ (Z.of_nat n)))),
      (Z.ltb_spec x (2 * i + 1)), (Z.leb_spec (2 * (i + 1)) x),
      (Z.ltb_spec x (2 * (i + 1 + Z.of_nat n))); simpl in *; lia.
Qed.

Lemma full_list_rep : fl_rep full_list (evens 1 ENTRIES_LEN).
Proof.
  unfold fl_rep, full_list. simpl. rewrite length_fmap, length_evens.
  split; [done|]. split; [|done]. apply take_ge. by rewrite length_fmap, length_evens.
Qed.

Lemma full_state_blocks : free_blocks full_state = pair 0%nat <$> evens 1 ENTRIES_LEN.
Proof.
  unfold free_blocks, blocks_of, full_state. cbn [free_lists blocks_from].
  by rewrite (fl_rep_frames _ _ full_list_rep), blocks_from_new, app_nil_r.
Qed.

Lemma full_state_wf : buddy_wf full_state.
Proof.
  assert (Hcov := fun x => evens_cover 1 x ENTRIES_LEN).
  split.
  - split; [reflexivity|].
    constructor; [eapply fl_rep_ok, full_list_rep|].
    apply Forall_replicate. eapply fl_rep_ok, fl_new_rep.
  - unfold bitmap_ok, full_state. simpl. by rewrite length_replicate.
  - rewrite full_state_blocks. split.
    + apply Forall_forall. intros b (f & -> & Hf)%list_elem_of_fmap.
      assert (Hhi : f < 2 * (1 + Z.of_nat ENTRIES_LEN)).
      { specialize (Hcov f). assert (0 < cover (pair 0%nat <$> evens 1 ENTRIES_LEN) f) as Hp.
        { eapply block_covers_head. apply list_elem_of_fmap. eauto. }
        destruct (_ && _) eqn:E in Hcov; simpl in Hcov; [bool_to_prop; lia | lia]. }
      apply elem_of_evens in Hf as [Hlo _]. change (Z.of_nat ENTRIES_LEN) with 8192 in Hhi.
      unfold block_ok, FRAME_LIMIT. cbn [fst snd].
      split; [apply Nat.le_0_l|]. change (2 ^ Z.of_nat 0) with 1. repeat split; try lia.
      apply Z.divide_1_l.
    + intros x. specialize (Hcov x). destruct (_ && _) in Hcov; simpl in Hcov; lia.
    + intros x Hx Hlt. specialize (Hcov x).
      destruct (_ && _) eqn:E in Hcov; simpl in Hcov; [bool_to_prop | lia].
      rewrite is_frame_free_bit; [|unfold bitmap_ok; simpl; by rewrite length_replicate | lia].
      apply Z.ltb_lt in Hlt as Hlt'. rewrite Hlt'. unfold bit_used. simpl.
      rewrite lookup_replicate_2; [by rewrite Z.bits_0|].
      pose proof (BITMAP_LEN_frames x ltac:(lia)) as Hb. rewrite Hlt' in Hb. apply Z.ltb_lt in Hb.
      pose proof (Z.div_pos x 64). lia.
  - rewrite full_state_blocks. intros x Hx. specialize (Hcov x). simpl.
    destruct (_ && _) eqn:E in Hcov; simpl in Hcov; [bool_to_prop; lia | lia].
Qed.

Lemma full_state_returnable : returnable full_state 0 0.
Proof.
  split; [split; [apply Nat.le_0_l | split; [done | split; [done | by exists 0]]]|].
  intros x Hx%in_block_spec. assert (x = 0) as -> by (simpl in Hx; lia).
  rewrite full_state_blocks. pose proof (evens_cover 1 0 ENTRIES_LEN) as H.
  pose proof (cover_nonneg (pair 0%nat <$> evens 1 ENTRIES_LEN) 0).
  split; [simpl in H; lia | simpl; lia].
Qed.

Lemma deallocate_full_list_loses_block_witness :
  exists st', deallocate_order full_state 0 0 = Ret st' /\ free_blocks st' = free_blocks full_state /\
    free_frames st' = wrap64 (free_frames full_state + 2 ^ Z.of_nat 0).
Proof.
  apply (deallocate_full_list_loses_block full_state 0 0).
  - exact full_state_wf.
  - exact full_state_returnable.
  - reflexivity.
  - rewrite full_state_blocks. change (buddy 0 0) with 1.
    intros (f & [= <-] & Hf)%list_elem_of_fmap. by apply elem_of_evens in Hf as [_ Hf].
Defined.
