(* ===== verification/FrameAllocator.v ===== *)
(** * The bitmap frame allocator (src/src/mm/frame_allocator.rs)

    One bit per 4 KiB frame, a hint for the next search, and a search for runs
    of frames.  [FrameIndex] is a [usize]; the array always has [BITMAP_WORDS]
    words, so the unguarded accesses of the source are in range. *)

From stdpp Require Import base list.
From Stdlib Require Import ZArith Lia Btauto.
From S2P Require Import Prelude Ranges Paging.

Local Open Scope Z_scope.

Definition PAGE_SIZE_4K : Z := 4096.
Definition PAGE_SIZE_2M : Z := 2 * 1024 * 1024.
Definition PAGE_SIZE_1G : Z := 1024 * 1024 * 1024.
Definition MAX_PHYSICAL_MEMORY : Z := 16 * 1024 * 1024 * 1024.
Definition MAX_4K_FRAMES : Z := MAX_PHYSICAL_MEMORY / PAGE_SIZE_4K.
Definition BITMAP_WORDS : Z := MAX_4K_FRAMES / 64.

Definition from_phys_addr (addr : Z) : Z := addr / PAGE_SIZE_4K.
Definition to_phys_addr (f : Z) : Z := f *w PAGE_SIZE_4K.
Definition word_index (f : Z) : Z := f / 64.
Definition bit_index (f : Z) : Z := f mod 64.

Record BitmapFrameAllocator := mkFrames {
  bitmap : list Z;
  total_frames : Z;
  free_frames : Z;
  next_free_hint : Z
}.

Definition BitmapFrameAllocator_new : BitmapFrameAllocator :=
  mkFrames (replicate (Z.to_nat BITMAP_WORDS) 0) 0 0 0.

Definition with_bitmap (st : BitmapFrameAllocator) (bm : list Z) : BitmapFrameAllocator :=
  mkFrames bm (total_frames st) (free_frames st) (next_free_hint st).
Definition with_free_frames (st : BitmapFrameAllocator) (n : Z) : BitmapFrameAllocator :=
  mkFrames (bitmap st) (total_frames st) n (next_free_hint st).

Definition mark_frame_free (st : BitmapFrameAllocator) (frame : Z) : BitmapFrameAllocator :=
  let word_idx := word_index frame in
  let bit_idx := bit_index frame in
  if word_idx <? BITMAP_WORDS then
    let mask := not64 (Z.shiftl 1 bit_idx) in
    with_bitmap st (alter (fun w => Z.land w mask) (Z.to_nat word_idx) (bitmap st))
  else st.

Definition mark_frame_used (st : BitmapFrameAllocator) (frame : Z) : BitmapFrameAllocator :=
  let word_idx := word_index frame in
  let bit_idx := bit_index frame in
  if word_idx <? BITMAP_WORDS then
    let mask := Z.shiftl 1 bit_idx in
    with_bitmap st (alter (fun w => Z.lor w mask) (Z.to_nat word_idx) (bitmap st))
  else st.

Definition is_frame_free (st : BitmapFrameAllocator) (frame : Z) : bool :=
  let word_idx := word_index frame in
  let bit_idx := bit_index frame in
  if word_idx >=? BITMAP_WORDS then false
  else match bitmap st !! Z.to_nat word_idx with
       | Some w => Z.land w (Z.shiftl 1 bit_idx) =? 0
       | None => false
       end.

(** The state of [init]'s loops: allocator, [total], [free]. *)
Definition init_frame (acc : BitmapFrameAllocator * Z) (frame_idx : Z) : BitmapFrameAllocator * Z :=
  let '(st, free) := acc in
  if frame_idx <? MAX_4K_FRAMES then (mark_frame_free st frame_idx, free +w 1) else (st, free).

Definition init_region (acc : BitmapFrameAllocator * Z * Z) (region : Z * Z) : BitmapFrameAllocator * Z * Z :=
  let '(st, total, free) := acc in
  let '(start, size) := region in
  let start_frame := from_phys_addr start in
  let end_frame := from_phys_addr (start +w size) in
  let '(st1, free1) := for_range start_frame end_frame init_frame (st, free) in
  (st1, Z.max total end_frame, free1).

Definition init (st : BitmapFrameAllocator) (usable_regions : list (Z * Z)) : BitmapFrameAllocator :=
  let st0 := with_bitmap st ((fun _ => u64_max) <$> bitmap st) in
  let '(st1, total, free) := foldl init_region (st0, 0, 0) usable_regions in
  mkFrames (bitmap st1) total free (next_free_hint st1).

(** One turn of the search of [allocate_4k_frame]: the word and the bit of a
    free frame of the word, if the lowest one lies below [total_frames]. *)
Definition scan_word (st : BitmapFrameAllocator) (word_idx : Z) : option (Z * Z) :=
  match bitmap st !! Z.to_nat word_idx with
  | Some word =>
      if word =? u64_max then None
      else
        let bit_idx := trailing_zeros64 (not64 word) in
        if word_idx * 64 + bit_idx >=? total_frames st then None
        else Some (word_idx, bit_idx)
  | None => None
  end.

Definition allocate_4k_index (st : BitmapFrameAllocator) : option Z * BitmapFrameAllocator :=
  let hint_word := word_index (next_free_hint st) in
  match find_from (Z.to_nat BITMAP_WORDS) 0
          (fun word_offset => scan_word st ((hint_word + word_offset) mod BITMAP_WORDS)) with
  | Some (word_idx, bit_idx) =>
      let frame := word_idx * 64 + bit_idx in
      (Some frame,
       mkFrames (alter (fun w => Z.lor w (Z.shiftl 1 bit_idx)) (Z.to_nat word_idx) (bitmap st))
         (total_frames st) (free_frames st -w 1) (frame +w 1))
  | None => (None, st)
  end.

(** The search of [allocate_contiguous].  [aligned_frames] is at most [2^52]
    and a start frame below [2^22]: only the addition of the caller's
    [frame_count] can overflow. *)
Definition align_start (start_word aligned_frames : Z) : Z :=
  let start_frame := start_word * 64 in
  (start_frame + aligned_frames - 1) / aligned_frames * aligned_frames.

Fixpoint find_run (n : nat) (start_word : Z) (st : BitmapFrameAllocator)
    (frame_count aligned_frames : Z) : option Z :=
  match n with
  | O => None
  | S n' =>
      let aligned_start := align_start start_word aligned_frames in
      if aligned_start +w frame_count >? total_frames st then None
      else if all_range 0 frame_count (fun i => is_frame_free st (aligned_start +w i))
      then Some aligned_start
      else find_run n' (start_word + 1) st frame_count aligned_frames
  end.

(** The first frame of the run, [Panic] for the division by zero of an
    alignment below one page. *)
Definition allocate_run (st : BitmapFrameAllocator) (frame_count alignment : Z) :
    outcome (option Z * BitmapFrameAllocator) :=
  let aligned_frames := alignment / PAGE_SIZE_4K in
  if aligned_frames =? 0 then Panic
  else
    match find_run (Z.to_nat BITMAP_WORDS) 0 st frame_count aligned_frames with
    | Some aligned_start =>
        let st1 := for_range 0 frame_count (fun s i => mark_frame_used s (aligned_start +w i)) st in
        Ret (Some aligned_start, with_free_frames st1 (free_frames st1 -w frame_count))
    | None => Ret (None, st)
    end.

Section Api.
Context `{P : X86Paging}.

Definition allocate_4k_frame (st : BitmapFrameAllocator) : outcome (option PhysFrame * BitmapFrameAllocator) :=
  match allocate_4k_index st with
  | (Some frame, st1) =>
      let! addr := phys_addr_new (to_phys_addr frame) in
      Ret (Some (containing_address PAGE_SIZE_4K addr), st1)
  | (None, st1) => Ret (None, st1)
  end.

Definition allocate_contiguous (st : BitmapFrameAllocator) (frame_count alignment : Z) :
    outcome (option PhysAddr * BitmapFrameAllocator) :=
  let! (r, st1) := allocate_run st frame_count alignment in
  match r with
  | Some start_frame => let! a := phys_addr_new (to_phys_addr start_frame) in Ret (Some a, st1)
  | None => Ret (None, st1)
  end.

Definition allocate_2m_frame (st : BitmapFrameAllocator) : outcome (option PhysFrame * BitmapFrameAllocator) :=
  let frames_needed := PAGE_SIZE_2M / PAGE_SIZE_4K in
  let! (r, st1) := allocate_contiguous st frames_needed PAGE_SIZE_2M in
  Ret (option_map (containing_address PAGE_SIZE_2M) r, st1).

Definition allocate_1g_frame (st : BitmapFrameAllocator) : outcome (option PhysFrame * BitmapFrameAllocator) :=
  let frames_needed := PAGE_SIZE_1G / PAGE_SIZE_4K in
  let! (r, st1) := allocate_contiguous st frames_needed PAGE_SIZE_1G in
  Ret (option_map (containing_address PAGE_SIZE_1G) r, st1).

Definition deallocate_4k_frame (st : BitmapFrameAllocator) (frame : PhysFrame) : BitmapFrameAllocator :=
  let frame_idx := from_phys_addr (phys_as_u64 (start_address frame)) in
  let st1 := mark_frame_free st frame_idx in
  with_free_frames st1 (free_frames st1 +w 1).

Definition deallocate_2m_frame (st : BitmapFrameAllocator) (frame : PhysFrame) : BitmapFrameAllocator :=
  let start_frame := from_phys_addr (phys_as_u64 (start_address frame)) in
  let frames_count := PAGE_SIZE_2M / PAGE_SIZE_4K in
  let st1 := for_range 0 frames_count (fun s i => mark_frame_free s (start_frame +w i)) st in
  with_free_frames st1 (free_frames st1 +w frames_count).

(** The global allocator is this state behind one lock. *)
Definition alloc_frame := allocate_4k_frame.
Definition alloc_frame_2m := allocate_2m_frame.
Definition alloc_frame_1g := allocate_1g_frame.
Definition dealloc_frame := deallocate_4k_frame.
Definition init_frame_allocator := init.

End Api.

Definition free_frame_count (st : BitmapFrameAllocator) : Z := free_frames st.
Definition total_frame_count (st : BitmapFrameAllocator) : Z := total_frames st.
Definition frame_allocator_stats (st : BitmapFrameAllocator) : Z * Z :=
  (free_frame_count st, total_frame_count st).

(** * The bitmap frame allocator: correctness

    A state of src/src/mm/frame_allocator.rs is read as the set of its free
    frames ([is_frame_free]); the searches are sound and complete for it. *)

#[local] Opaque BITMAP_WORDS.

Lemma BITMAP_WORDS_frames : MAX_4K_FRAMES = BITMAP_WORDS * 64.
Proof. reflexivity. Qed.

Lemma BITMAP_WORDS_pos : 0 < BITMAP_WORDS.
Proof. reflexivity. Qed.

Record frames_wf (st : BitmapFrameAllocator) : Prop := {
  fw_length : length (bitmap st) = Z.to_nat BITMAP_WORDS;
  fw_words : Forall is_u64 (bitmap st);
  fw_hint : 0 <= next_free_hint st
}.

Lemma word_in_map (x : Z) : 0 <= x -> (x / 64 <? BITMAP_WORDS) = (x <? MAX_4K_FRAMES).
Proof.
  intros Hx. rewrite BITMAP_WORDS_frames.
  pose proof (Z.div_mod x 64). pose proof (Z.mod_pos_bound x 64).
  destruct (Z.ltb_spec (x / 64) BITMAP_WORDS), (Z.ltb_spec x (BITMAP_WORDS * 64)); lia.
Qed.

Lemma frame_free_bit (st : BitmapFrameAllocator) (x : Z) :
  length (bitmap st) = Z.to_nat BITMAP_WORDS -> 0 <= x ->
  is_frame_free st x = (x <? MAX_4K_FRAMES) && negb (bit_used (bitmap st) x).
Proof.
  intros Hl Hx. unfold is_frame_free, bit_used, word_index, bit_index.
  rewrite Z.geb_leb, Z.leb_antisym, word_in_map by done.
  destruct (x <? MAX_4K_FRAMES); simpl; [|done].
  destruct (bitmap st !! Z.to_nat (x / 64)); [|done].
  by rewrite land_shiftl_1_eqb by apply frame_bit_range.
Qed.

Lemma mark_used_spec (st : BitmapFrameAllocator) (f x : Z) :
  length (bitmap st) = Z.to_nat BITMAP_WORDS -> 0 <= f -> 0 <= x ->
  is_frame_free (mark_frame_used st f) x = negb (x =? f) && is_frame_free st x.
Proof.
  intros Hl Hf Hx. unfold mark_frame_used, word_index, bit_index. rewrite word_in_map by done.
  destruct (Z.ltb_spec f MAX_4K_FRAMES) as [Hlt|Hge].
  - rewrite !frame_free_bit; [|done|done|simpl; by rewrite length_alter|done]. simpl.
    change (alter _ _ (bitmap st)) with (set_bit (bitmap st) f).
    rewrite bit_used_set by done. rewrite (Z.eqb_sym x f). btauto.
  - destruct (Z.eqb_spec x f) as [->|]; [|done]. simpl.
    rewrite frame_free_bit by done. destruct (Z.ltb_spec f MAX_4K_FRAMES); [lia | done].
Qed.

Lemma mark_free_spec (st : BitmapFrameAllocator) (f x : Z) :
  length (bitmap st) = Z.to_nat BITMAP_WORDS -> 0 <= f -> 0 <= x ->
  is_frame_free (mark_frame_free st f) x = ((x =? f) && (x <? MAX_4K_FRAMES)) || is_frame_free st x.
Proof.
  intros Hl Hf Hx. unfold mark_frame_free, word_index, bit_index. rewrite word_in_map by done.
  destruct (Z.ltb_spec f MAX_4K_FRAMES) as [Hlt|Hge].
  - rewrite !frame_free_bit; [|done|done|simpl; by rewrite length_alter|done]. simpl.
    change (alter _ _ (bitmap st)) with (clear_bit (bitmap st) f).
    rewrite bit_used_clear; [|done|done|].
    + rewrite (Z.eqb_sym x f). destruct (f =? x), (x <? MAX_4K_FRAMES); simpl; btauto.
    + rewrite Hl. pose proof (word_in_map f Hf) as E. apply Z.ltb_lt in Hlt. rewrite Hlt in E.
      apply Z.ltb_lt in E. pose proof (Z.div_pos f 64). lia.
  - destruct (Z.eqb_spec x f) as [->|]; [|done].
    destruct (Z.ltb_spec f MAX_4K_FRAMES); [lia | done].
Qed.

(** Words stay 64-bit. *)
Lemma set_bit_u64 (w b : Z) : is_u64 w -> 0 <= b < 64 -> is_u64 (Z.lor w (Z.shiftl 1 b)).
Proof.
  intros Hw Hb. split.
  - apply Z.lor_nonneg. split; [apply Hw | apply Z.shiftl_nonneg; lia].
  - change u64_modulus with (2 ^ 64). destruct (Z.eq_dec (Z.lor w (Z.shiftl 1 b)) 0) as [->|Hne]; [done|].
    apply Z.log2_lt_pow2.
    { assert (0 <= Z.lor w (Z.shiftl 1 b)) by (apply Z.lor_nonneg; split; [apply Hw | apply Z.shiftl_nonneg; lia]). lia. }
    rewrite Z.log2_lor by (apply Hw || apply Z.shiftl_nonneg; lia).
    rewrite Z.log2_shiftl by lia. change (Z.log2 1) with 0.
    destruct (Z.eq_dec w 0) as [->|]; [simpl; lia|].
    assert (Z.log2 w < 64) by (apply Z.log2_lt_pow2; destruct Hw; [lia | done]). lia.
Qed.

(** ** Single frames *)

Lemma scan_word_Some (st : BitmapFrameAllocator) (w b i : Z) :
  frames_wf st -> 0 <= i < BITMAP_WORDS -> scan_word st i = Some (w, b) ->
  w = i /\ 0 <= b < 64 /\ is_frame_free st (w * 64 + b) = true /\ w * 64 + b < total_frames st.
Proof.
  intros [Hl Hw _] Hi H. unfold scan_word in H.
  destruct (bitmap st !! Z.to_nat i) as [word|] eqn:E; [|done].
  pose proof (Forall_lookup_1 _ _ _ _ Hw E) as Hu.
  destruct (Z.eqb_spec word u64_max) as [|Hne]; [done|].
  assert (Hnz : 0 < not64 word < u64_modulus).
  { rewrite not64_sub by done. unfold u64_max, is_u64, u64_modulus in *. lia. }
  destruct (trailing_zeros64_spec _ Hnz) as (Hb & Hbit & _).
  case_if_in H; [done|]. injection H as <- <-. split; [done|]. split; [done|]. split; [|lia].
  rewrite frame_free_bit by lia. unfold bit_used.
  replace ((i * 64 + trailing_zeros64 (not64 word)) / 64) with i
    by (rewrite Z.div_add_l by lia; rewrite (Z.div_small (trailing_zeros64 _)); lia).
  replace ((i * 64 + trailing_zeros64 (not64 word)) mod 64) with (trailing_zeros64 (not64 word))
    by (rewrite Z.add_comm, Z.mod_add by lia; rewrite Z.mod_small; lia).
  rewrite E. rewrite not64_bits in Hbit by lia. rewrite Hbit.
  rewrite BITMAP_WORDS_frames. destruct (Z.ltb_spec (i * 64 + trailing_zeros64 (not64 word)) (BITMAP_WORDS * 64)); [done|lia].
Qed.

Lemma scan_word_None (st : BitmapFrameAllocator) (i x : Z) :
  frames_wf st -> 0 <= i < BITMAP_WORDS -> scan_word st i = None ->
  x / 64 = i -> 0 <= x < total_frames st -> is_frame_free st x = false.
Proof.
  intros [Hl Hw _] Hi H Hxi Hx. rewrite frame_free_bit by lia.
  unfold scan_word in H. unfold bit_used. rewrite Hxi.
  destruct (bitmap st !! Z.to_nat i) as [word|] eqn:E; [|btauto].
  pose proof (Forall_lookup_1 _ _ _ _ Hw E) as Hu. pose proof (frame_bit_range x).
  destruct (Z.eqb_spec word u64_max) as [->|Hne]; [rewrite testbit_u64_max by done; btauto|].
  assert (Hnz : 0 < not64 word < u64_modulus).
  { rewrite not64_sub by done. unfold u64_max, is_u64, u64_modulus in *. lia. }
  destruct (trailing_zeros64_spec _ Hnz) as (Hb & _ & Hlow).
  case_if_in H; [|done].
  assert (x mod 64 < trailing_zeros64 (not64 word)).
  { pose proof (Z.div_mod x 64). lia. }
  specialize (Hlow (x mod 64) ltac:(lia)). rewrite not64_bits in Hlow by done.
  apply negb_false_iff in Hlow. rewrite Hlow. btauto.
Qed.

(** [allocate_4k_frame]'s search is sound and complete: a frame it takes
    was free and below [total_frames], becomes used, and no other frame changes;
    it fails only when no frame below [total_frames] is free.  The invariant
    is kept. *)
Theorem allocate_4k_index_correct (st : BitmapFrameAllocator) :
  frames_wf st ->
  match allocate_4k_index st with
  | (Some f, st') =>
      0 <= f < total_frames st /\ is_frame_free st f = true /\ frames_wf st' /\
      total_frames st' = total_frames st /\ free_frames st' = wrap64 (free_frames st - 1) /\
      next_free_hint st' = wrap64 (f + 1) /\
      forall x, 0 <= x -> is_frame_free st' x = negb (x =? f) && is_frame_free st x
  | (None, st') => st' = st /\ forall x, 0 <= x < total_frames st -> is_frame_free st x = false
  end.
Proof.
  intros Hwf. pose proof Hwf as [Hl Hw Hh]. pose proof BITMAP_WORDS_pos as Hpos.
  unfold allocate_4k_index. set (hw := word_index (next_free_hint st)).
  assert (Hmod : forall off, 0 <= (hw + off) mod BITMAP_WORDS < BITMAP_WORDS)
    by (intros; by apply Z.mod_pos_bound).
  destruct (find_from _ _ _) as [[w b]|] eqn:Ef.
  - apply find_from_Some in Ef as (off & Hoff & Hs).
    apply scan_word_Some in Hs as (Hwi & Hb & Hfree & Htot); [|done|apply Hmod].
    specialize (Hmod off). rewrite <- Hwi in Hmod.
    assert (Hdiv : (w * 64 + b) / 64 = w) by (rewrite Z.div_add_l by lia; rewrite (Z.div_small b); lia).
    assert (Hrem : (w * 64 + b) mod 64 = b) by (rewrite Z.add_comm, Z.mod_add by lia; by apply Z.mod_small).
    set (f := w * 64 + b) in *.
    replace (alter (fun w0 => Z.lor w0 (Z.shiftl 1 b)) (Z.to_nat w) (bitmap st)) with (set_bit (bitmap st) f)
      by (unfold set_bit; by rewrite Hdiv, Hrem).
    split; [lia|]. split; [done|]. split; [|split; [done|split; [done|split; [done|]]]].
    + split; simpl; [by rewrite length_set_bit | | apply wrap64_range].
      unfold set_bit. apply Forall_alter; [done|]. intros y Hy Hu.
      apply set_bit_u64; [done | apply frame_bit_range].
    + intros x Hx. rewrite !frame_free_bit by (simpl; rewrite ?length_set_bit; done || lia). simpl.
      rewrite bit_used_set by lia. rewrite (Z.eqb_sym x f). btauto.
  - split; [done|]. intros x Hx. rewrite find_from_None in Ef.
    destruct (Z.lt_ge_cases x MAX_4K_FRAMES) as [Hlt|Hge].
    + assert (Hxw : x / 64 < BITMAP_WORDS).
      { apply Z.ltb_lt. rewrite word_in_map by lia. by apply Z.ltb_lt. }
      pose proof (Z.div_pos x 64 ltac:(lia) ltac:(lia)).
      pose proof (Z.mod_pos_bound (x / 64 - hw) BITMAP_WORDS Hpos).
      specialize (Ef ((x / 64 - hw) mod BITMAP_WORDS) ltac:(lia)).
      rewrite Zplus_mod_idemp_r in Ef.
      replace (hw + (x / 64 - hw)) with (x / 64) in Ef by lia.
      rewrite Z.mod_small in Ef by lia. apply (scan_word_None st (x / 64)); done || lia.
    + rewrite frame_free_bit by lia. destruct (Z.ltb_spec x MAX_4K_FRAMES); [lia | done].
Qed.

(** ** Runs of frames *)

Lemma align_start_spec (w a : Z) :
  0 <= w -> 0 < a -> w * 64 <= align_start w a < w * 64 + a /\ (a | align_start w a).
Proof.
  intros Hw Ha. unfold align_start.
  pose proof (Z.div_mod (w * 64 + a - 1) a ltac:(lia)).
  pose proof (Z.mod_pos_bound (w * 64 + a - 1) a Ha).
  split; [nia | apply Z.divide_factor_r].
Qed.

Definition run_free (st : BitmapFrameAllocator) (start n : Z) : Prop :=
  forall x, start <= x < start + n -> is_frame_free st x = true.

(** No overflow: the frames asked for and the alignment are those of a page. *)
Definition run_args (n a : Z) : Prop := 0 <= n <= 2 ^ 40 /\ 0 < a <= 2 ^ 40.

Lemma find_run_Some (st : BitmapFrameAllocator) (n a s w : Z) (k : nat) :
  run_args n a -> 0 <= w -> w + Z.of_nat k <= BITMAP_WORDS -> find_run k w st n a = Some s ->
  0 <= s /\ (a | s) /\ s + n <= total_frames st /\ s + n < u64_modulus /\ run_free st s n.
Proof.
  intros [Hn Ha]. revert w. induction k as [|k IH]; intros w Hw Hk H; cbn [find_run] in H; [done|].
  destruct (align_start_spec w a) as [Hs Hd]; [lia|lia|].
  set (s0 := align_start w a) in *.
  assert (HB : BITMAP_WORDS = 65536) by reflexivity.
  assert (Hs0 : 0 <= s0 + n < u64_modulus) by (unfold u64_modulus; lia).
  rewrite wrap64_small in H by done. case_if_in H; [done|].
  destruct (all_range 0 n _) eqn:Eall.
  - injection H as <-. split; [lia|]. split; [done|]. split; [lia|]. split; [lia|].
    intros x Hx. rewrite all_range_spec in Eall. specialize (Eall (x - s0) ltac:(lia)).
    rewrite wrap64_small in Eall by (unfold is_u64; lia).
    by replace (s0 + (x - s0)) with x in Eall by lia.
  - apply (IH (w + 1)); [lia | lia | done].
Qed.

(** With an alignment of at least a word of frames, the search sees every
    aligned start. *)
Lemma find_run_None (st : BitmapFrameAllocator) (n a w : Z) (k : nat) :
  run_args n a -> (64 | a) -> 0 <= w -> w + Z.of_nat k = BITMAP_WORDS ->
  find_run k w st n a = None ->
  forall s, w * 64 <= s < MAX_4K_FRAMES -> (a | s) -> s + n <= total_frames st -> ~ run_free st s n.
Proof.
  intros [Hn Ha] [c Hc]. revert w. induction k as [|k IH]; intros w Hw Hk H s Hs Hd Htot Hrun;
    cbn [find_run] in H; [rewrite BITMAP_WORDS_frames in Hs; lia|].
  destruct (align_start_spec w a) as [Hs0 Hd0]; [lia|lia|].
  set (s0 := align_start w a) in *. assert (HB : BITMAP_WORDS = 65536) by reflexivity.
  assert (Hbound : 0 <= s0 + n < u64_modulus) by (unfold u64_modulus; lia).
  rewrite wrap64_small in H by done.
  assert (Hge : s0 <= s).
  { pose proof (divide_lt_step a s0 (s + a) ltac:(lia) Hd0 (Z.divide_add_r _ _ _ Hd (Z.divide_refl a)) ltac:(lia)).
    lia. }
  destruct (Z.eq_dec s s0) as [->|Hne].
  - case_if_in H; [lia|]. destruct (all_range 0 n _) eqn:Eall; [done|].
    apply not_true_iff_false in Eall. apply Eall, all_range_spec. intros i Hi.
    rewrite wrap64_small by (unfold is_u64; lia). apply Hrun. lia.
  - case_if_in H.
    + lia.
    + destruct (all_range 0 n _); [done|].
      apply (IH (w + 1) ltac:(lia) ltac:(lia) H s); [|done|done|done].
      split; [|lia]. pose proof (divide_lt_step a s0 s ltac:(lia) Hd0 Hd ltac:(lia)).
      assert (64 <= a); [|lia]. destruct (Z.lt_ge_cases c 1); lia.
Qed.

Lemma mark_run_used (st : BitmapFrameAllocator) (s n : Z) :
  frames_wf st -> 0 <= s -> 0 <= n -> s + n < u64_modulus ->
  let st' := for_range 0 n (fun a i => mark_frame_used a (s +w i)) st in
  frames_wf st' /\ total_frames st' = total_frames st /\ free_frames st' = free_frames st /\
  forall x, 0 <= x -> is_frame_free st' x = negb ((s <=? x) && (x <? s + n)) && is_frame_free st x.
Proof.
  intros Hwf Hs Hn Hlim. cbn zeta.
  apply (for_range_ind (fun i a => frames_wf a /\ total_frames a = total_frames st /\
    free_frames a = free_frames st /\ forall x, 0 <= x ->
    is_frame_free a x = negb ((s <=? x) && (x <? s + i)) && is_frame_free st x)); [done | |].
  - split; [done|]. split; [done|]. split; [done|]. intros x Hx. rewrite Z.add_0_r.
    destruct (Z.leb_spec s x), (Z.ltb_spec x s); simpl; try lia; done.
  - intros i a Hi (Hwa & Ht & Hf & Hx). rewrite wrap64_small by (unfold is_u64; lia).
    split; [|split; [|split]].
    + unfold mark_frame_used. destruct (_ <? _); [|done]. destruct Hwa as [Hl Hw Hh].
      split; simpl; [by rewrite length_alter | | done]. apply Forall_alter; [done|].
      intros y Hy Hu. apply set_bit_u64; [done | apply frame_bit_range].
    + unfold mark_frame_used. by destruct (_ <? _).
    + unfold mark_frame_used. by destruct (_ <? _).
    + intros x Hx0. rewrite mark_used_spec by (apply Hwa || lia). rewrite Hx by done.
      destruct (Z.eqb_spec x (s + i)), (Z.leb_spec s x), (Z.ltb_spec x (s + i)),
        (Z.ltb_spec x (s + (i + 1))); try lia; simpl; btauto.
Qed.

(** the run search behind 2 MiB and 1 GiB frames is sound and complete
    for alignments of at least 64 frames: the run it takes is aligned, inside
    [total_frames], was free in every frame, and exactly its frames become
    used; it fails only when no aligned run of that length starting below the
    bitmap's end is free. *)
Theorem allocate_run_correct (st : BitmapFrameAllocator) (n alignment : Z) :
  frames_wf st -> run_args n (alignment / PAGE_SIZE_4K) -> (64 | alignment / PAGE_SIZE_4K) ->
  exists r st', allocate_run st n alignment = Ret (r, st') /\
    match r with
    | Some s =>
        (alignment / PAGE_SIZE_4K | s) /\ 0 <= s /\ s + n <= total_frames st /\ run_free st s n /\
        frames_wf st' /\ free_frames st' = wrap64 (free_frames st - n) /\
        forall x, 0 <= x ->
          is_frame_free st' x = negb ((s <=? x) && (x <? s + n)) && is_frame_free st x
    | None => st' = st /\
        forall s, 0 <= s < MAX_4K_FRAMES -> (alignment / PAGE_SIZE_4K | s) ->
          s + n <= total_frames st -> ~ run_free st s n
    end.
Proof.
  intros Hwf Hargs H64. pose proof Hargs as [Hn Ha]. unfold allocate_run.
  destruct (Z.eqb_spec (alignment / PAGE_SIZE_4K) 0); [lia|].
  destruct (find_run _ _ _ _ _) as [s|] eqn:Ef.
  - pose proof BITMAP_WORDS_pos.
    apply find_run_Some in Ef as (H0 & Hd & Htot & Hlim & Hrun); [|done|lia|lia].
    eexists (Some s), _. split; [done|].
    destruct (mark_run_used st s n Hwf H0 ltac:(lia) Hlim) as (Hwf' & Ht & Hff & Hx).
    split; [done|]. split; [done|]. split; [done|]. split; [done|].
    split; [by destruct Hwf'|]. split; [simpl; by rewrite Hff | exact Hx].
  - exists None, st. split; [done|]. split; [done|]. intros s Hs Hd Htot.
    pose proof BITMAP_WORDS_pos.
    apply (find_run_None st n _ 0 (Z.to_nat BITMAP_WORDS) Hargs H64 (Z.le_refl 0) ltac:(lia) Ef s Hs Hd Htot).
Qed.

(** ** Initialisation *)

Definition in_region (r : Z * Z) (x : Z) : bool :=
  (from_phys_addr r.1 <=? x) && (x <? from_phys_addr (r.1 + r.2)).

Definition usable_region (r : Z * Z) : Prop := 0 <= r.1 /\ 0 <= r.2 /\ r.1 + r.2 < u64_modulus.

Lemma clear_bit_u64 (w m : Z) : is_u64 w -> 0 <= m -> is_u64 (Z.land w m).
Proof.
  intros [Hw0 Hw] Hm. split; [apply Z.land_nonneg; lia|].
  assert (Z.land w m <= w); [|lia]. apply Z.ldiff_le; [done|].
  apply Z.bits_inj'. intros i Hi. rewrite Z.ldiff_spec, Z.land_spec, Z.bits_0. btauto.
Qed.

Lemma not64_shiftl_nonneg (b : Z) : 0 <= b < 64 -> 0 <= not64 (Z.shiftl 1 b).
Proof.
  intros Hb. unfold not64. apply Z.lxor_nonneg. split; intros _; [done|].
  apply Z.shiftl_nonneg. lia.
Qed.

Lemma mark_free_wf (st : BitmapFrameAllocator) (f : Z) : frames_wf st -> frames_wf (mark_frame_free st f).
Proof.
  intros [Hl Hw Hh]. unfold mark_frame_free. destruct (_ <? _); [|done].
  split; simpl; [by rewrite length_alter | | done]. apply Forall_alter; [done|].
  intros y Hy Hu. apply clear_bit_u64; [done|]. apply not64_shiftl_nonneg, frame_bit_range.
Qed.

Lemma init_region_spec (st : BitmapFrameAllocator) (total free : Z) (r : Z * Z) :
  frames_wf st -> usable_region r ->
  exists st' free', init_region (st, total, free) r = (st', Z.max total (from_phys_addr (r.1 + r.2)), free') /\
    frames_wf st' /\
    forall x, 0 <= x -> is_frame_free st' x = (in_region r x && (x <? MAX_4K_FRAMES)) || is_frame_free st x.
Proof.
  intros Hwf (H1 & H2 & H3). destruct r as [start size]. cbn [fst snd] in *.
  unfold init_region, in_region. cbn [fst snd]. rewrite wrap64_small by (split; [lia | done]).
  set (lo := from_phys_addr start). set (hi := from_phys_addr (start + size)).
  assert (Hlo : 0 <= lo) by (apply Z.div_pos; unfold PAGE_SIZE_4K; lia).
  assert (Hlohi : lo <= hi) by (apply Z.div_le_mono; unfold PAGE_SIZE_4K; lia).
  pose proof (for_range_ind (fun i (acc : BitmapFrameAllocator * Z) => frames_wf acc.1 /\ forall x, 0 <= x ->
      is_frame_free acc.1 x = ((lo <=? x) && (x <? i) && (x <? MAX_4K_FRAMES)) || is_frame_free st x)
    init_frame lo hi (st, free) Hlohi) as Hloop.
  destruct (for_range lo hi init_frame (st, free)) as [st' free'].
  exists st', free'. split; [done|]. apply Hloop.
  - split; [done|]. intros x Hx. destruct (Z.leb_spec lo x), (Z.ltb_spec x lo); simpl; try lia; done.
  - intros i [s fr] Hi [Hs Hx]. unfold init_frame. cbn [fst] in *.
    destruct (Z.ltb_spec i MAX_4K_FRAMES); cbn [fst].
    + split; [by apply mark_free_wf|]. intros x Hx0.
      rewrite mark_free_spec, Hx by (apply Hs || lia).
      destruct (Z.eqb_spec x i), (Z.leb_spec lo x), (Z.ltb_spec x i), (Z.ltb_spec x (i + 1)),
        (Z.ltb_spec x MAX_4K_FRAMES); try lia; simpl; btauto.
    + split; [done|]. intros x Hx0. rewrite Hx by done.
      destruct (Z.leb_spec lo x), (Z.ltb_spec x i), (Z.ltb_spec x (i + 1)),
        (Z.ltb_spec x MAX_4K_FRAMES); try lia; simpl; btauto.
Qed.

Lemma init_fold_wf (rs : list (Z * Z)) (st : BitmapFrameAllocator) (total free : Z) :
  frames_wf st -> Forall usable_region rs ->
  exists st' total' free', foldl init_region (st, total, free) rs = (st', total', free') /\
    frames_wf st' /\
    forall x, 0 <= x -> is_frame_free st' x =
      (existsb (fun r => in_region r x) rs && (x <? MAX_4K_FRAMES)) || is_frame_free st x.
Proof.
  revert st total free. induction rs as [|r rs IH]; intros st total free Hwf Hrs; cbn [foldl existsb].
  - exists st, total, free. done.
  - inversion Hrs as [|? ? Hr Hrs']; subst.
    destruct (init_region_spec st total free r Hwf Hr) as (st1 & free1 & -> & Hwf1 & Hx1).
    destruct (IH st1 (Z.max total (from_phys_addr (r.1 + r.2))) free1 Hwf1 Hrs')
      as (st' & total' & free' & -> & Hwf' & Hx').
    exists st', total', free'. split; [done|]. split; [done|].
    intros x Hx. rewrite Hx', Hx1 by done. btauto.
Qed.

Lemma init_start_wf :
  frames_wf (with_bitmap BitmapFrameAllocator_new ((fun _ => u64_max) <$> bitmap BitmapFrameAllocator_new)).
Proof.
  split; simpl; [by rewrite length_fmap, length_replicate | | done].
  apply Forall_fmap, Forall_forall. intros y _. by split.
Qed.

(** after [init] exactly the frames of the usable regions that the bitmap
    reaches are free, and the allocator's invariant holds. *)
Theorem frame_init_correct (rs : list (Z * Z)) :
  Forall usable_region rs ->
  frames_wf (init BitmapFrameAllocator_new rs) /\
  forall x, 0 <= x -> is_frame_free (init BitmapFrameAllocator_new rs) x =
    existsb (fun r => in_region r x) rs && (x <? MAX_4K_FRAMES).
Proof.
  intros Hrs. unfold init. pose proof init_start_wf as Hwf0. set (st0 := with_bitmap _ _) in *.
  destruct (init_fold_wf rs st0 0 0 Hwf0 Hrs) as (st' & total' & free' & -> & Hwf' & Hx).
  split; [by destruct Hwf'|]. intros x Hx0.
  change (is_frame_free (mkFrames (bitmap st') total' free' (next_free_hint st')) x) with (is_frame_free st' x).
  rewrite Hx by done. rewrite (frame_free_bit st0) by (apply Hwf0 || done).
  unfold bit_used, st0. simpl. rewrite list_lookup_fmap.
  destruct (replicate _ _ !! _) as [w|]; simpl; [rewrite testbit_u64_max by apply frame_bit_range|]; btauto.
Qed.

(** ** Concrete runs: 4 MiB of memory at 1 MiB *)

Definition demo_map : list (Z * Z) := [(0x100000, 0x400000)].
Definition demo : BitmapFrameAllocator := init BitmapFrameAllocator_new demo_map.

Lemma demo_map_ok : Forall usable_region demo_map.
Proof. repeat constructor; simpl; unfold u64_modulus; lia. Qed.

Lemma frame_init_correct_witness : Forall usable_region demo_map /\ is_frame_free demo 256 = true.
Proof.
  split; [exact demo_map_ok|].
  exact (proj2 (frame_init_correct demo_map demo_map_ok) 256 ltac:(lia)).
Defined.

Lemma demo_wf : frames_wf demo.
Proof.
  unfold demo, init. destruct (init_fold_wf demo_map _ 0 0 init_start_wf demo_map_ok) as (st' & total' & free' & -> & Hwf' & _).
  by destruct Hwf'.
Qed.

Lemma allocate_4k_index_correct_witness :
  frames_wf demo /\ 0 <= 256 < total_frames demo /\ is_frame_free demo 256 = true.
Proof.
  split; [exact demo_wf|].
  pose proof (allocate_4k_index_correct demo demo_wf) as H.
  assert (Hf : (allocate_4k_index demo).1 = Some 256) by (vm_compute; reflexivity).
  destruct (allocate_4k_index demo) as [r st']. simpl in Hf. subst r.
  exact (conj (proj1 H) (proj1 (proj2 H))).
Defined.

Lemma allocate_run_correct_witness :
  run_args 512 (PAGE_SIZE_2M / PAGE_SIZE_4K) /\
  exists r st', allocate_run demo 512 PAGE_SIZE_2M = Ret (r, st') /\
    match r with
    | Some s =>
        (PAGE_SIZE_2M / PAGE_SIZE_4K | s) /\ 0 <= s /\ s + 512 <= total_frames demo /\ run_free demo s 512 /\
        frames_wf st' /\ free_frames st' = wrap64 (free_frames demo - 512) /\
        forall x, 0 <= x ->
          is_frame_free st' x = negb ((s <=? x) && (x <? s + 512)) && is_frame_free demo x
    | None => st' = demo /\
        forall s, 0 <= s < MAX_4K_FRAMES -> (PAGE_SIZE_2M / PAGE_SIZE_4K | s) ->
          s + 512 <= total_frames demo -> ~ run_free demo s 512
    end.
Proof.
  assert (Ha : run_args 512 (PAGE_SIZE_2M / PAGE_SIZE_4K)).
  { change (PAGE_SIZE_2M / PAGE_SIZE_4K) with 512. split; lia. }
  split; [exact Ha|].
  apply (allocate_run_correct demo 512 PAGE_SIZE_2M demo_wf Ha). exists 8. reflexivity.
Defined.
