(* ===== verification/Slab.v ===== *)
(** * Per-core slab caches (src/src/mm/slab_cache.rs)

    A cache keeps its free objects in an intrusive list: the first word of a
    free object is the link ([FreeNode]) to the next.  The memory is explicit,
    so that user writes into objects, the links and the pages of several cores
    live in one store.  The buddy allocator is used through [FrameSource], the
    global heap through [GlobalHeap]; the lock of a core serialises its
    operations. *)

From stdpp Require Import base list gmap.
From Stdlib Require Import ZArith Lia.
From S2P Require Import Prelude Paging.

Local Open Scope Z_scope.

(** ** What the caches use *)

(** The supplier of 4 KiB frames ([buddy_alloc_frame]). *)
Class FrameSource `{P : X86Paging} := {
  fs_state : Type;
  fs_alloc : fs_state -> outcome (option PhysFrame * fs_state)
}.

(** [alloc::alloc::alloc] and [dealloc]; a null pointer is 0. *)
Class GlobalHeap := {
  heap_state : Type;
  heap_alloc : heap_state -> Layout -> outcome (Z * heap_state);
  heap_dealloc : heap_state -> Z -> Layout -> outcome heap_state
}.

(** ** Constants *)

Definition SLAB_SIZES : list Z := [8; 16; 32; 64; 128; 256; 512; 1024].
Definition SLAB_PAGE_SIZE : Z := 4096.
Definition CACHE_LINE_SIZE : Z := 64.
Definition SIZE_OF_FREE_NODE : Z := 8.
Definition MAX_CPUS : Z := 64.

(** ** The intrusive free list *)

(** The [FreeNode]s in memory: address to [next].  Reading a node where none
    was written is undefined behaviour, a [Panic] here. *)
Abbreviation memory := (gmap Z (option Z)).

Record FreeList := mkFreeList { head : option Z; count : Z }.

Definition FreeList_new : FreeList := mkFreeList None 0.

Definition FreeList_push (m : memory) (fl : FreeList) (ptr : Z) : memory * FreeList :=
  (<[ptr := head fl]> m, mkFreeList (Some ptr) (count fl +w 1)).

Definition FreeList_pop (m : memory) (fl : FreeList) : outcome (option Z * FreeList) :=
  match head fl with
  | None => Ret (None, fl)
  | Some node =>
      match m !! node with
      | Some next => Ret (Some node, mkFreeList next (count fl -w 1))
      | None => Panic
      end
  end.

Definition FreeList_is_empty (fl : FreeList) : bool := bool_decide (head fl = None).

(** ** A cache of one size class *)

Record SlabCache := mkSlab {
  object_size : Z;
  free_list : FreeList;
  pages : list Z;
  alloc_count : Z;
  dealloc_count : Z
}.

Definition SlabCache_new (size : Z) : SlabCache :=
  let aligned_size := ((size +w CACHE_LINE_SIZE) -w 1) / CACHE_LINE_SIZE * CACHE_LINE_SIZE in
  mkSlab (Z.max aligned_size SIZE_OF_FREE_NODE) FreeList_new [] 0 0.

Definition with_free_list (c : SlabCache) (fl : FreeList) : SlabCache :=
  mkSlab (object_size c) fl (pages c) (alloc_count c) (dealloc_count c).
Definition count_alloc (c : SlabCache) : SlabCache :=
  mkSlab (object_size c) (free_list c) (pages c) (alloc_count c +w 1) (dealloc_count c).

Record SlabStats := mkStats {
  st_object_size : Z; st_free_count : Z; st_page_count : Z; st_alloc_count : Z; st_dealloc_count : Z
}.

Definition SlabCache_stats (c : SlabCache) : SlabStats :=
  mkStats (object_size c) (count (free_list c)) (Z.of_nat (length (pages c)))
    (alloc_count c) (dealloc_count c).

Definition SlabCache_deallocate (m : memory) (c : SlabCache) (ptr : Z) : memory * SlabCache :=
  let '(m1, fl) := FreeList_push m (free_list c) ptr in
  (m1, mkSlab (object_size c) fl (pages c) (alloc_count c) (dealloc_count c +w 1)).

(** The loop of [grow] that threads the objects of a page. *)
Definition push_object (page size : Z) (s : memory * FreeList) (i : Z) : memory * FreeList :=
  FreeList_push (fst s) (snd s) (page +w (i *w size)).

Section Cache.
Context `{P : X86Paging} `{V : X86Virtual} `{F : !FrameSource}.

(** The result tells whether a page was added ([Some(())]). *)
Definition grow (m : memory) (fs : fs_state) (c : SlabCache) :
    outcome (bool * memory * fs_state * SlabCache) :=
  let! (r, fs1) := fs_alloc fs in
  match r with
  | None => Ret (false, m, fs1, c)
  | Some frame =>
      let! virt_addr := phys_to_virt (start_address frame) in
      let page_ptr := virt_as_u64 virt_addr in
      if object_size c =? 0 then Panic
      else
        let objects_per_page := SLAB_PAGE_SIZE / object_size c in
        let '(m1, fl) := for_range 0 objects_per_page (push_object page_ptr (object_size c)) (m, free_list c) in
        Ret (true, m1, fs1,
             mkSlab (object_size c) fl (pages c ++ [page_ptr]) (alloc_count c) (dealloc_count c))
  end.

Definition SlabCache_allocate (m : memory) (fs : fs_state) (c : SlabCache) :
    outcome (option Z * memory * fs_state * SlabCache) :=
  let! (r, fl) := FreeList_pop m (free_list c) in
  match r with
  | Some ptr => Ret (Some ptr, m, fs, count_alloc (with_free_list c fl))
  | None =>
      let! (g, m1, fs1, c1) := grow m fs (with_free_list c fl) in
      if g then
        let! (r1, fl1) := FreeList_pop m1 (free_list c1) in
        match r1 with
        | Some ptr => Ret (Some ptr, m1, fs1, count_alloc (with_free_list c1 fl1))
        | None => Ret (None, m1, fs1, with_free_list c1 fl1)
        end
      else Ret (None, m1, fs1, c1)
  end.

End Cache.

(** ** The caches of the cores *)

Record PerCoreCache := mkCore { caches : list SlabCache; cpu_id : Z }.

Definition PerCoreCache_new (cpu : Z) : PerCoreCache := mkCore (SlabCache_new <$> SLAB_SIZES) cpu.

(** [SLAB_SIZES.iter().position(|&s| size <= s)] *)
Fixpoint position (size : Z) (sizes : list Z) : option nat :=
  match sizes with
  | [] => None
  | s :: sizes' => if size <=? s then Some 0%nat else S <$> position size sizes'
  end.

Definition size_class (size : Z) : option nat := position size SLAB_SIZES.

Definition PerCoreCache_stats (pc : PerCoreCache) : list SlabStats := SlabCache_stats <$> caches pc.

Section Cores.
Context `{P : X86Paging} `{V : X86Virtual} `{F : !FrameSource} `{G : GlobalHeap}.

(** What the allocator works on besides the caches. *)
Record env := mkEnv { mem : memory; frames : fs_state; heap : heap_state }.

Definition PerCoreCache_allocate (e : env) (pc : PerCoreCache) (layout : Layout) :
    outcome (option Z * env * PerCoreCache) :=
  let size := Z.max (layout_size layout) (layout_align layout) in
  match size_class size with
  | Some class =>
      let! c := index (caches pc) class in
      let! (r, m1, fs1, c1) := SlabCache_allocate (mem e) (frames e) c in
      Ret (r, mkEnv m1 fs1 (heap e), mkCore (<[class := c1]> (caches pc)) (cpu_id pc))
  | None =>
      let! (ptr, h1) := heap_alloc (heap e) layout in
      Ret (if ptr =? 0 then None else Some ptr, mkEnv (mem e) (frames e) h1, pc)
  end.

Definition PerCoreCache_deallocate (e : env) (pc : PerCoreCache) (ptr : Z) (layout : Layout) :
    outcome (env * PerCoreCache) :=
  let size := Z.max (layout_size layout) (layout_align layout) in
  match size_class size with
  | Some class =>
      let! c := index (caches pc) class in
      let '(m1, c1) := SlabCache_deallocate (mem e) c ptr in
      Ret (mkEnv m1 (frames e) (heap e), mkCore (<[class := c1]> (caches pc)) (cpu_id pc))
  | None =>
      let! h1 := heap_dealloc (heap e) ptr layout in
      Ret (mkEnv (mem e) (frames e) h1, pc)
  end.

(** [PER_CORE_CACHES] *)
Record slab_system := mkSlabSystem { cores : list (option PerCoreCache); senv : env }.

Definition PER_CORE_CACHES_init : list (option PerCoreCache) := replicate (Z.to_nat MAX_CPUS) None.

Definition init_core (cs : list (option PerCoreCache)) (cpu : Z) : list (option PerCoreCache) :=
  <[Z.to_nat cpu := Some (PerCoreCache_new cpu)]> cs.

Definition init_per_core_caches (s : slab_system) (num_cpus : Z) : slab_system :=
  mkSlabSystem (for_range 0 (Z.min num_cpus MAX_CPUS) init_core (cores s)) (senv s).

Definition per_core_alloc (s : slab_system) (cpu : Z) (layout : Layout) :
    outcome (option Z * slab_system) :=
  if cpu >=? MAX_CPUS then Ret (None, s)
  else
    let! guard := index (cores s) (Z.to_nat cpu) in
    match guard with
    | None => Ret (None, s)
    | Some cache =>
        let! (r, e1, cache1) := PerCoreCache_allocate (senv s) cache layout in
        Ret (r, mkSlabSystem (<[Z.to_nat cpu := Some cache1]> (cores s)) e1)
    end.

Definition per_core_dealloc (s : slab_system) (cpu : Z) (ptr : Z) (layout : Layout) :
    outcome slab_system :=
  if cpu >=? MAX_CPUS then Ret s
  else
    let! guard := index (cores s) (Z.to_nat cpu) in
    match guard with
    | None => Ret s
    | Some cache =>
        let! (e1, cache1) := PerCoreCache_deallocate (senv s) cache ptr layout in
        Ret (mkSlabSystem (<[Z.to_nat cpu := Some cache1]> (cores s)) e1)
    end.

(** [current] is [try_current_cpu_id()]. *)
Definition per_core_alloc_auto (s : slab_system) (current : option Z) (layout : Layout) :
    outcome (option Z * slab_system) :=
  match current with
  | Some cpu => per_core_alloc s cpu layout
  | None => Ret (None, s)
  end.

Definition per_core_dealloc_auto (s : slab_system) (current : option Z) (ptr : Z) (layout : Layout) :
    outcome slab_system :=
  match current with
  | Some cpu => per_core_dealloc s cpu ptr layout
  | None => Ret s
  end.

End Cores.
