(* ===== verification/SlabTheorems.v ===== *)
(** * The slab allocator of all cores: invariant and safety *)

From stdpp Require Import base list gmap relations.
From Stdlib Require Import ZArith Lia.
From S2P Require Import Prelude Paging Slab.

Local Open Scope Z_scope.

(** * The slab caches hand out disjoint objects

    The free lists of all cores together with the objects handed out are
    exactly the objects of the pages taken from the frame source: nothing is
    lost, nothing is handed out twice, on whichever core it is freed. *)

(** What the caches rely on from the supplier of frames: a frame it hands out
    is page aligned, was free, is not free any more, and nothing becomes free
    by an allocation. *)
Class FrameSourceLaws `{F : FrameSource} := {
  fs_inv : fs_state -> Prop;
  fs_free : fs_state -> Z -> Prop;
  fs_alloc_spec : forall s, fs_inv s ->
    exists r s', fs_alloc s = Ret (r, s') /\ fs_inv s' /\
      (forall a, fs_free s' a -> fs_free s a) /\
      match r with
      | Some fr =>
          let a := phys_as_u64 (start_address fr) in
          (SLAB_PAGE_SIZE | a) /\ 0 <= a < MAPPED_LIMIT /\ fs_free s a /\ ~ fs_free s' a
      | None => True
      end
}.

(** ** Intrusive lists *)

(** The nodes reached from a head pointer. *)
Fixpoint chain (m : memory) (h : option Z) (l : list Z) : Prop :=
  match l with
  | [] => h = None
  | a :: l' => h = Some a /\ exists nx, m !! a = Some nx /\ chain m nx l'
  end.

Lemma chain_frame (m m' : memory) (h : option Z) (l : list Z) :
  chain m h l -> (forall a, a ∈ l -> m' !! a = m !! a) -> chain m' h l.
Proof.
  revert h. induction l as [|a l IH]; intros h; [done|].
  intros (-> & nx & Hnx & Hc) Heq. split; [done|]. exists nx.
  rewrite Heq by (left; done). split; [done|]. apply IH; [done|]. intros b Hb. apply Heq. by right.
Qed.

Definition fl_ok (m : memory) (fl : FreeList) (l : list Z) : Prop :=
  chain m (head fl) l /\ count fl = wrap64 (Z.of_nat (length l)).

Lemma fl_ok_frame (m m' : memory) (fl : FreeList) (l : list Z) :
  fl_ok m fl l -> (forall a, a ∈ l -> m' !! a = m !! a) -> fl_ok m' fl l.
Proof. intros [Hc Hn] Heq. split; [by eapply chain_frame | done]. Qed.

Lemma fl_ok_new (m : memory) : fl_ok m FreeList_new [].
Proof. done. Qed.

Lemma push_spec (m : memory) (fl : FreeList) (l : list Z) (a : Z) :
  fl_ok m fl l -> a ∉ l ->
  fl_ok (fst (FreeList_push m fl a)) (snd (FreeList_push m fl a)) (a :: l).
Proof.
  intros [Hc Hn] Ha. split; cbn [FreeList_push fst snd head count].
  - split; [done|]. exists (head fl). rewrite lookup_insert_eq. split; [done|].
    eapply chain_frame; [done|]. intros b Hb. apply lookup_insert_ne. set_solver.
  - rewrite Hn. unfold wrap64. rewrite Zplus_mod_idemp_l. f_equal. simpl length. lia.
Qed.

Lemma push_other (m : memory) (fl : FreeList) (a b : Z) :
  b <> a -> fst (FreeList_push m fl a) !! b = m !! b.
Proof. intros H. by apply lookup_insert_ne. Qed.

Lemma pop_spec (m : memory) (fl : FreeList) (a : Z) (l : list Z) :
  fl_ok m fl (a :: l) -> exists fl', FreeList_pop m fl = Ret (Some a, fl') /\ fl_ok m fl' l.
Proof.
  intros [(Hh & nx & Hnx & Hc) Hn]. unfold FreeList_pop. rewrite Hh, Hnx. eexists. split; [done|].
  split; [done|]. cbn [count]. rewrite Hn. unfold wrap64. rewrite Zminus_mod_idemp_l.
  f_equal. simpl length. lia.
Qed.

Lemma pop_empty (m : memory) (fl : FreeList) :
  fl_ok m fl [] -> FreeList_pop m fl = Ret (None, fl).
Proof. intros [Hc _]. unfold FreeList_pop. by rewrite Hc. Qed.

(** ** The objects of a page *)

Definition objects (size page : Z) : list Z :=
  (fun i => page + i * size) <$> seqZ 0 (SLAB_PAGE_SIZE / size).

Lemma elem_objects (size page a : Z) :
  0 < size -> a ∈ objects size page <-> exists i, 0 <= i < SLAB_PAGE_SIZE / size /\ a = page + i * size.
Proof.
  intros Hs. unfold objects. rewrite list_elem_of_fmap. setoid_rewrite elem_of_seqZ.
  split; intros (i & H1 & H2); exists i; split; (done || lia).
Qed.

(** An object lies in its page. *)
Lemma object_in_page (size page a : Z) :
  0 < size -> a ∈ objects size page -> page <= a /\ a + size <= page + SLAB_PAGE_SIZE.
Proof.
  intros Hs (i & Hi & ->)%elem_objects; [|done].
  pose proof (Z.mul_div_le SLAB_PAGE_SIZE size Hs).
  assert (i * size + size <= SLAB_PAGE_SIZE); [|nia].
  replace (i * size + size) with ((i + 1) * size) by ring.
  transitivity (SLAB_PAGE_SIZE / size * size); [apply Z.mul_le_mono_nonneg_r; lia | lia].
Qed.

Lemma objects_NoDup (size page : Z) : 0 < size -> NoDup (objects size page).
Proof.
  intros Hs. apply NoDup_fmap_2_strong; [|apply NoDup_seqZ].
  intros x y _ _ Heq. nia.
Qed.

(** Pages are 4 KiB apart. *)
Definition page_aligned (p : Z) : Prop := (SLAB_PAGE_SIZE | p).

Lemma pages_apart (p q : Z) :
  page_aligned p -> page_aligned q -> p <> q ->
  p + SLAB_PAGE_SIZE <= q \/ q + SLAB_PAGE_SIZE <= p.
Proof.
  intros Hp Hq Hne. destruct (Z.lt_total p q) as [|[|]]; [left | lia | right];
    apply divide_lt_step; done.
Qed.

Definition all_objects (size : Z) (ps : list Z) : list Z := flat_map (objects size) ps.

Lemma elem_all_objects (size : Z) (ps : list Z) (a : Z) :
  a ∈ all_objects size ps <-> exists p, p ∈ ps /\ a ∈ objects size p.
Proof.
  unfold all_objects. rewrite list_elem_of_In, in_flat_map.
  by setoid_rewrite <- list_elem_of_In.
Qed.

(** Objects of different pages, or different objects of one class, are
    disjoint ranges. *)
Lemma objects_disjoint (s1 s2 p1 p2 a b : Z) :
  0 < s1 -> 0 < s2 -> page_aligned p1 -> page_aligned p2 ->
  a ∈ objects s1 p1 -> b ∈ objects s2 p2 ->
  p1 <> p2 \/ (s1 = s2 /\ a <> b) ->
  a + s1 <= b \/ b + s2 <= a.
Proof.
  intros H1 H2 Hp1 Hp2 Ha Hb Hne.
  pose proof (object_in_page _ _ _ H1 Ha). pose proof (object_in_page _ _ _ H2 Hb).
  destruct (Z.eq_dec p1 p2) as [->|Hp].
  - destruct Hne as [|[<- Hab]]; [done|].
    apply elem_objects in Ha as (i & Hi & ->); [|done].
    apply elem_objects in Hb as (j & Hj & ->); [|done].
    destruct (Z.lt_total i j) as [|[->|]]; [left; nia | done | right; nia].
  - destruct (pages_apart p1 p2 Hp1 Hp2 Hp); lia.
Qed.

Lemma all_objects_NoDup (size : Z) (ps : list Z) :
  0 < size -> NoDup ps -> Forall page_aligned ps -> NoDup (all_objects size ps).
Proof.
  intros Hs. induction 1 as [|p ps Hp Hnd IH]; intros Hal; [constructor|].
  apply Forall_cons in Hal as [Hpa Hal]. simpl. apply NoDup_app. split; [by apply objects_NoDup|].
  split; [|by apply IH]. intros a Ha (q & Hq & Hb)%elem_all_objects.
  assert (p <> q) by (intros ->; done).
  rewrite Forall_forall in Hal.
  pose proof (objects_disjoint size size p q a a Hs Hs Hpa (Hal q Hq) Ha Hb). lia.
Qed.

(** ** One cache *)

Definition cache_ok (m : memory) (c : SlabCache) (size : Z) (l : list Z) : Prop :=
  object_size c = size /\ fl_ok m (free_list c) l.

Lemma push_objects_spec (page size n : Z) (m : memory) (fl : FreeList) (l : list Z) :
  0 < size -> 0 <= n <= SLAB_PAGE_SIZE / size -> 0 <= page -> page + SLAB_PAGE_SIZE <= u64_modulus ->
  fl_ok m fl l -> (forall a, a ∈ l -> a ∉ objects size page) ->
  let '(m', fl') := for_range 0 n (push_object page size) (m, fl) in
  fl_ok m' fl' (reverse ((fun i => page + i * size) <$> seqZ 0 n) ++ l) /\
  (forall b, (forall i, 0 <= i < n -> b <> page + i * size) -> m' !! b = m !! b).
Proof.
  intros Hs Hn Hp0 Hp Hfl Hl.
  apply (for_range_ind (fun j s => let '(m', fl') := s in
    fl_ok m' fl' (reverse ((fun i => page + i * size) <$> seqZ 0 j) ++ l) /\
    (forall b, (forall i, 0 <= i < j -> b <> page + i * size) -> m' !! b = m !! b))
    (push_object page size) 0 n (m, fl)); [lia | by split |].
  intros j [m' fl'] Hj [Hok Hoth]. unfold push_object. cbn [fst snd].
  assert (Hin : page + j * size ∈ objects size page).
  { apply elem_objects; [done|]. exists j. split; [lia | done]. }
  pose proof (object_in_page size page _ Hs Hin).
  rewrite (wrap64_small (j * size)) by (unfold is_u64; nia).
  rewrite (wrap64_small (page + j * size)) by (unfold is_u64; lia).
  set (a := page + j * size) in *.
  destruct (FreeList_push m' fl' a) as [m2 fl2] eqn:E. split.
  - replace (seqZ 0 (j + 1)) with (seqZ 0 j ++ [j]).
    2:{ rewrite (seqZ_app 0 j 1) by lia. by rewrite Z.add_0_l. }
    rewrite fmap_app, reverse_app. cbn [fmap list_fmap reverse app].
    assert (Hpush := push_spec m' fl' _ a Hok). rewrite E in Hpush. apply Hpush.
    rewrite elem_of_app, elem_of_reverse, list_elem_of_fmap. intros [(i & Heq & Hi)|Hb].
    + apply elem_of_seqZ in Hi. unfold a in Heq. nia.
    + by apply (Hl a).
  - intros b Hb. replace m2 with (fst (FreeList_push m' fl' a)) by by rewrite E.
    rewrite push_other by (apply Hb; lia). apply Hoth. intros i Hi. apply Hb. lia.
Qed.

Section Cache.
Context `{P : X86Paging} `{LV : X86VirtualLaws} `{F : !FrameSource} `{LF : !FrameSourceLaws}.

(** The virtual page of a physical page. *)
Definition page_of (a : Z) : Z := a + PHYSICAL_MEMORY_OFFSET.

Lemma page_of_aligned (a : Z) : (SLAB_PAGE_SIZE | a) -> page_aligned (page_of a).
Proof. intros H. apply Z.divide_add_r; [done|]. by exists 0xFFFF800000000. Qed.

(** [allocate] either pops a free object, or adds one fresh page whose objects
    become free and pops one of them, or finds the frame source exhausted. *)
Lemma SlabCache_allocate_spec (m : memory) (fs : fs_state) (c : SlabCache) (size : Z) (l : list Z) :
  fs_inv fs -> 0 < size <= SLAB_PAGE_SIZE -> cache_ok m c size l ->
  (forall a p, fs_free fs p -> (SLAB_PAGE_SIZE | p) -> a ∈ l -> a ∉ objects size (page_of p)) ->
  exists r m' fs' c', SlabCache_allocate m fs c = Ret (r, m', fs', c') /\ fs_inv fs' /\
    (forall a, fs_free fs' a -> fs_free fs a) /\
    match r with
    | None => m' = m /\ pages c' = pages c /\ l = [] /\ cache_ok m' c' size [] /\ fs_alloc fs = Ret (None, fs')
    | Some p =>
        (m' = m /\ pages c' = pages c /\ fs' = fs /\ exists l', l = p :: l' /\ cache_ok m' c' size l') \/
        (l = [] /\ exists a l', pages c' = pages c ++ [page_of a] /\
           (SLAB_PAGE_SIZE | a) /\ 0 <= a < MAPPED_LIMIT /\ fs_free fs a /\ ~ fs_free fs' a /\
           p :: l' ≡ₚ objects size (page_of a) /\ cache_ok m' c' size l' /\
           forall b, b ∉ objects size (page_of a) -> m' !! b = m !! b)
    end.
Proof using LV LF.
  intros Hfs Hsize [Hos Hfl] Hsep. unfold SlabCache_allocate. destruct l as [|p l].
  - rewrite (pop_empty _ _ Hfl). cbn [obind]. unfold grow.
    destruct (fs_alloc_spec fs Hfs) as (r & fs' & Hal0 & Hfs' & Hmono & Hr). rewrite Hal0. cbn [obind].
    destruct r as [fr|].
    2:{ exists None, m, fs', (with_free_list c (free_list c)). split; [done|]. by split_and!. }
    cbv zeta in Hr. destruct Hr as (Hal & Hlim & Hfree & Hnfree).
    destruct (phys_to_virt_ok (start_address fr) Hlim) as (v & -> & Hv). cbn [obind].
    cbn [object_size with_free_list free_list pages]. rewrite Hos, Hv.
    set (a := phys_as_u64 (start_address fr)) in *. fold (page_of a).
    destruct (Z.eqb_spec size 0); [lia|].
    assert (Hn : 1 <= SLAB_PAGE_SIZE / size) by (apply Z.div_le_lower_bound; lia).
    assert (Hpg : 0 <= page_of a /\ page_of a + SLAB_PAGE_SIZE <= u64_modulus).
    { destruct Hal as [k Hk]. unfold page_of, MAPPED_LIMIT, SLAB_PAGE_SIZE, PHYSICAL_MEMORY_OFFSET, u64_modulus in *. lia. }
    pose proof (push_objects_spec (page_of a) size (SLAB_PAGE_SIZE / size) m (free_list c) []) as Hpush.
    destruct (for_range _ _ _ _) as [m1 fl1]. destruct Hpush as [Hok Hoth];
      [lia | lia | lia | lia | done | set_solver |].
    cbn [obind free_list with_free_list].
    rewrite app_nil_r in Hok. fold (objects size (page_of a)) in Hok.
    destruct (reverse (objects size (page_of a))) as [|p l'] eqn:Erev.
    { exfalso. apply (f_equal length) in Erev. rewrite length_reverse in Erev. unfold objects in Erev.
      rewrite length_fmap, length_seqZ in Erev. simpl in Erev. lia. }
    destruct (pop_spec _ _ _ _ Hok) as (fl2 & -> & Hok2). cbn [obind].
    eexists (Some p), m1, fs', _. split; [done|]. split; [done|]. split; [done|]. right.
    split; [done|]. exists a, l'. split; [done|]. do 4 (split; [done|]).
    split; [rewrite <- Erev; apply reverse_Permutation|]. split; [by split|].
    intros b Hb. apply Hoth. intros i Hi ->. apply Hb. apply elem_objects; [lia|]. by exists i.
  - destruct (pop_spec _ _ _ _ Hfl) as (fl' & -> & Hfl'). cbn [obind].
    eexists (Some p), m, fs, _. split; [done|]. split; [done|]. split; [done|]. left.
    split; [done|]. split; [done|]. split; [done|]. exists l. by split.
Qed.

End Cache.

Definition CPUS : nat := Z.to_nat MAX_CPUS.
Definition CLASSES : nat := length SLAB_SIZES.

(** The object size of a size class. *)
Definition class_size (cl : nat) : Z := object_size (SlabCache_new (nth cl SLAB_SIZES 0)).

Lemma class_lt (cl : nat) : (cl < CLASSES)%nat ->
  cl = 0%nat \/ cl = 1%nat \/ cl = 2%nat \/ cl = 3%nat \/ cl = 4%nat \/ cl = 5%nat \/ cl = 6%nat \/ cl = 7%nat.
Proof. unfold CLASSES. simpl. lia. Qed.

(** Every class has objects of a power of two bytes that hold the class's
    sizes. *)
Lemma class_size_pow2 (cl : nat) : (cl < CLASSES)%nat ->
  exists k, 6 <= k <= 10 /\ class_size cl = 2 ^ k /\ nth cl SLAB_SIZES 0 <= class_size cl.
Proof.
  intros H%class_lt.
  destruct H as [->|[->|[->|[->|[->|[->|[-> | ->]]]]]]];
    [exists 6 | exists 6 | exists 6 | exists 6 | exists 7 | exists 8 | exists 9 | exists 10];
    (split; [lia|]); split; done || (vm_compute; discriminate).
Qed.

Lemma class_size_range (cl : nat) : (cl < CLASSES)%nat -> 0 < class_size cl <= SLAB_PAGE_SIZE.
Proof.
  intros (k & Hk & -> & _)%class_size_pow2. split; [apply Z.pow_pos_nonneg; lia|].
  transitivity (2 ^ 10); [apply Z.pow_le_mono_r; lia | done].
Qed.

Lemma position_spec (size : Z) (l : list Z) (i : nat) :
  position size l = Some i -> (i < length l)%nat /\ size <= nth i l 0.
Proof.
  revert i. induction l as [|x l IH]; intros i; [done|]. simpl.
  destruct (Z.leb_spec size x).
  - intros [= <-]. split; [lia | done].
  - destruct (position size l) as [j|]; [|done]. intros [= <-].
    destruct (IH j eq_refl). split; [lia | done].
Qed.

Lemma size_class_spec (size : Z) (cl : nat) :
  size_class size = Some cl -> (cl < CLASSES)%nat /\ size <= class_size cl.
Proof.
  intros [Hlt Hle]%position_spec. split; [done|].
  destruct (class_size_pow2 cl Hlt) as (? & _ & _ & ?). lia.
Qed.

(** All objects of a class are aligned to any power of two the class holds. *)
Lemma object_aligned (cl : nat) (k p a : Z) :
  (cl < CLASSES)%nat -> 0 <= k -> 2 ^ k <= class_size cl -> page_aligned p ->
  a ∈ objects (class_size cl) p -> (2 ^ k | a).
Proof.
  intros Hcl Hk Hle Hp Ha. pose proof (class_size_range cl Hcl) as [Hpos _].
  destruct (class_size_pow2 cl Hcl) as (j & Hj & Heq & _).
  apply elem_objects in Ha as (i & _ & ->); [|done].
  assert (k <= j) by (rewrite Heq in Hle; apply Z.pow_le_mono_r_iff in Hle; lia).
  assert (Hd : forall n, j <= n -> (2 ^ k | 2 ^ n)).
  { intros n Hn. exists (2 ^ (n - k)). rewrite <- Z.pow_add_r by lia. f_equal. lia. }
  apply Z.divide_add_r.
  - etrans; [|exact Hp]. apply (Hd 12). lia.
  - apply Z.divide_mul_r. rewrite Heq. apply Hd. lia.
Qed.

Section System.
Context `{P : X86Paging} `{LV : X86VirtualLaws} `{F : !FrameSource} `{LF : !FrameSourceLaws} `{G : GlobalHeap}.

Definition cache_at (s : slab_system) (cpu cl : nat) : option SlabCache :=
  match cores s !! cpu with
  | Some (Some pc) => caches pc !! cl
  | _ => None
  end.

Definition pages_at (s : slab_system) (cpu cl : nat) : list Z :=
  match cache_at s cpu cl with
  | Some c => pages c
  | None => []
  end.

Definition class_pages (s : slab_system) (cl : nat) : list Z :=
  flat_map (fun cpu => pages_at s cpu cl) (seq 0 CPUS).
Definition all_pages (s : slab_system) : list Z := flat_map (class_pages s) (seq 0 CLASSES).
Definition class_free (L : nat -> nat -> list Z) (cl : nat) : list Z :=
  flat_map (fun cpu => L cpu cl) (seq 0 CPUS).

(** A page taken from the frame source, which will not hand it out again. *)
Definition page_owned (fs : fs_state) (p : Z) : Prop :=
  exists a, p = page_of a /\ (SLAB_PAGE_SIZE | a) /\ ~ fs_free fs a.

(** [L cpu cl] is the free list of a cache, [live cl] the objects of a class
    that are handed out. *)
Record slab_inv (s : slab_system) (L : nat -> nat -> list Z) (live : nat -> list Z) : Prop := {
  si_cores : length (cores s) = CPUS;
  si_caches : forall cpu pc, cores s !! cpu = Some (Some pc) -> length (caches pc) = CLASSES;
  si_cache : forall cpu cl c, cache_at s cpu cl = Some c ->
    cache_ok (mem (senv s)) c (class_size cl) (L cpu cl);
  si_none : forall cpu cl, cache_at s cpu cl = None -> L cpu cl = [];
  si_objects : forall cl, (cl < CLASSES)%nat ->
    class_free L cl ++ live cl ≡ₚ all_objects (class_size cl) (class_pages s cl);
  si_pages : NoDup (all_pages s);
  si_owned : forall p, p ∈ all_pages s -> page_owned (frames (senv s)) p;
  si_frames : fs_inv (frames (senv s))
}.

Definition slab_ok (s : slab_system) (live : nat -> list Z) : Prop := exists L, slab_inv s L live.

Lemma page_owned_aligned (fs : fs_state) (p : Z) : page_owned fs p -> page_aligned p.
Proof. intros (a & -> & Ha & _). by apply page_of_aligned. Qed.

Lemma elem_all_pages (s : slab_system) (p : Z) :
  p ∈ all_pages s <-> exists cl, (cl < CLASSES)%nat /\ p ∈ class_pages s cl.
Proof. apply elem_flat_map_seq. Qed.

Lemma cache_at_bounds (s : slab_system) (L : nat -> nat -> list Z) (live : nat -> list Z) (cpu cl : nat) (c : SlabCache) :
  slab_inv s L live -> cache_at s cpu cl = Some c -> (cpu < CPUS)%nat /\ (cl < CLASSES)%nat.
Proof.
  intros Hinv. unfold cache_at. destruct (cores s !! cpu) as [[pc|]|] eqn:E; try done. intros Hc.
  split.
  - rewrite <- (si_cores _ _ _ Hinv). by eapply lookup_lt_Some.
  - rewrite <- (si_caches _ _ _ Hinv _ _ E). by eapply lookup_lt_Some.
Qed.

(** Two classes have no page in common, and a class has no page twice. *)
Lemma class_pages_spec (s : slab_system) (L : nat -> nat -> list Z) (live : nat -> list Z) (cl : nat) :
  slab_inv s L live -> (cl < CLASSES)%nat ->
  NoDup (class_pages s cl) /\ Forall page_aligned (class_pages s cl) /\
  forall cl' p, (cl' < CLASSES)%nat -> cl' <> cl -> p ∈ class_pages s cl -> p ∉ class_pages s cl'.
Proof.
  intros Hinv Hcl. pose proof (si_pages _ _ _ Hinv) as Hnd. unfold all_pages in Hnd.
  destruct (flat_map_focus (class_pages s) (seq 0 CLASSES) cl) as (r & Hr & Hg);
    [apply NoDup_seq | apply elem_of_seq; lia|].
  rewrite Hr in Hnd. apply NoDup_app in Hnd as (H1 & H2 & _). split; [done|]. split.
  - apply Forall_forall. intros p Hp. eapply page_owned_aligned, (si_owned _ _ _ Hinv).
    apply elem_all_pages. eauto.
  - intros cl' p Hcl' Hne Hp Hp'. apply (H2 p Hp).
    assert (Hin : p ∈ flat_map (fun j => if decide (j = cl) then [] else class_pages s j) (seq 0 CLASSES)).
    { apply elem_flat_map_seq. exists cl'. split; [done|]. by rewrite decide_False. }
    rewrite (Hg (fun j => if decide (j = cl) then [] else class_pages s j)) in Hin.
    + by rewrite decide_True in Hin by done.
    + intros j _ Hj. by rewrite decide_False.
Qed.

(** Objects free or handed out are objects of the class's pages. *)
Lemma live_object (s : slab_system) (L : nat -> nat -> list Z) (live : nat -> list Z) (cl : nat) (a : Z) :
  slab_inv s L live -> (cl < CLASSES)%nat -> a ∈ live cl ->
  exists p, p ∈ class_pages s cl /\ a ∈ objects (class_size cl) p.
Proof.
  intros Hinv Hcl Ha. apply elem_all_objects. rewrite <- (si_objects _ _ _ Hinv cl Hcl). set_solver.
Qed.

Lemma free_object (s : slab_system) (L : nat -> nat -> list Z) (live : nat -> list Z) (cpu cl : nat) (a : Z) :
  slab_inv s L live -> a ∈ L cpu cl ->
  (cl < CLASSES)%nat /\ exists p, p ∈ class_pages s cl /\ a ∈ objects (class_size cl) p.
Proof.
  intros Hinv Ha. destruct (cache_at s cpu cl) as [c|] eqn:Ec.
  2:{ rewrite (si_none _ _ _ Hinv _ _ Ec) in Ha. set_solver. }
  destruct (cache_at_bounds _ _ _ _ _ _ Hinv Ec) as [Hcpu Hcl]. split; [done|].
  apply elem_all_objects. rewrite <- (si_objects _ _ _ Hinv cl Hcl).
  apply elem_of_app. left. apply elem_flat_map_seq. eauto.
Qed.

(** No object is both free and handed out, or twice in either. *)
Lemma objects_unique (s : slab_system) (L : nat -> nat -> list Z) (live : nat -> list Z) (cl : nat) :
  slab_inv s L live -> (cl < CLASSES)%nat -> NoDup (class_free L cl ++ live cl).
Proof.
  intros Hinv Hcl. rewrite (si_objects _ _ _ Hinv cl Hcl).
  destruct (class_pages_spec _ _ _ cl Hinv Hcl) as (H1 & H2 & _).
  apply all_objects_NoDup; [apply class_size_range | |]; done.
Qed.

Definition apart (cl1 cl2 : nat) (a b : Z) : Prop :=
  a + class_size cl1 <= b \/ b + class_size cl2 <= a.

(** Objects of the pages of two classes, or different objects of one class,
    do not overlap. *)
Lemma class_objects_apart (s : slab_system) (L : nat -> nat -> list Z) (live : nat -> list Z)
    (c1 c2 : nat) (p1 p2 a b : Z) :
  slab_inv s L live -> (c1 < CLASSES)%nat -> (c2 < CLASSES)%nat ->
  p1 ∈ class_pages s c1 -> p2 ∈ class_pages s c2 ->
  a ∈ objects (class_size c1) p1 -> b ∈ objects (class_size c2) p2 ->
  c1 <> c2 \/ a <> b -> apart c1 c2 a b.
Proof.
  intros Hinv H1 H2 Hp1 Hp2 Ha Hb Hne.
  pose proof (class_size_range c1 H1). pose proof (class_size_range c2 H2).
  destruct (class_pages_spec _ _ _ c1 Hinv H1) as (_ & Hal1 & Hd).
  destruct (class_pages_spec _ _ _ c2 Hinv H2) as (_ & Hal2 & _).
  rewrite Forall_forall in Hal1, Hal2.
  apply (objects_disjoint _ _ p1 p2); auto; try lia.
  destruct (decide (c1 = c2)) as [<-|Hc].
  - destruct Hne; [done|]. right. done.
  - left. intros ->. by apply (Hd c2 p2 H2 (not_eq_sym Hc)).
Qed.

(** ** Replacing one cache *)

Definition set_cache (s : slab_system) (cpu : nat) (pc : PerCoreCache) (cl : nat) (c : SlabCache) (e : env) : slab_system :=
  mkSlabSystem (<[cpu := Some (mkCore (<[cl := c]> (caches pc)) (cpu_id pc))]> (cores s)) e.

Definition at_cache {A} (cpu cl cpu' cl' : nat) (x y : A) : A :=
  if decide (cpu' = cpu /\ cl' = cl) then x else y.

Lemma cache_at_set (s : slab_system) (cpu : nat) (pc : PerCoreCache) (cl : nat) (c : SlabCache) (e : env) (cpu' cl' : nat) :
  cores s !! cpu = Some (Some pc) -> (cl < length (caches pc))%nat ->
  cache_at (set_cache s cpu pc cl c e) cpu' cl' = at_cache cpu cl cpu' cl' (Some c) (cache_at s cpu' cl').
Proof.
  intros Hpc Hcl. unfold cache_at, set_cache, at_cache. cbn [cores].
  destruct (decide (cpu' = cpu)) as [->|Hne].
  - rewrite list_lookup_insert_eq by (by eapply lookup_lt_Some). cbn [caches]. rewrite Hpc.
    destruct (decide (cl' = cl)) as [->|Hne'].
    + rewrite list_lookup_insert_eq by done. by rewrite decide_True.
    + rewrite list_lookup_insert_ne by done. by rewrite decide_False by tauto.
  - rewrite list_lookup_insert_ne by done. by rewrite decide_False by tauto.
Qed.

#[local] Instance all_objects_perm (size : Z) : Proper ((≡ₚ) ==> (≡ₚ)) (all_objects size).
Proof. intros l l' H. unfold all_objects. by apply Permutation_flat_map. Qed.

(** The page lists after a cache got the pages [np]. *)
Lemma pages_set (s : slab_system) (cpu : nat) (pc : PerCoreCache) (cl : nat) (c c' : SlabCache) (e : env) (np : list Z) :
  cores s !! cpu = Some (Some pc) -> caches pc !! cl = Some c -> pages c' = pages c ++ np ->
  (cpu < CPUS)%nat -> (cl < CLASSES)%nat ->
  (forall cl', class_pages (set_cache s cpu pc cl c' e) cl' ≡ₚ
     if decide (cl' = cl) then np ++ class_pages s cl' else class_pages s cl') /\
  all_pages (set_cache s cpu pc cl c' e) ≡ₚ np ++ all_pages s.
Proof.
  intros Hpc Hc Hp Hcpu Hcl. set (s' := set_cache s cpu pc cl c' e).
  assert (Hlen : (cl < length (caches pc))%nat) by (by eapply lookup_lt_Some).
  assert (Hat : forall cpu' cl', pages_at s' cpu' cl' = at_cache cpu cl cpu' cl' (pages c ++ np) (pages_at s cpu' cl')).
  { intros cpu' cl'. unfold pages_at, s'. rewrite cache_at_set by done. unfold at_cache.
    by destruct (decide _). }
  assert (Hcp : forall cl', class_pages s' cl' ≡ₚ
     if decide (cl' = cl) then np ++ class_pages s cl' else class_pages s cl').
  { intros cl'. unfold class_pages.
    destruct (flat_map_focus (fun cpu' => pages_at s cpu' cl') (seq 0 CPUS) cpu) as (r & Hr & Hg);
      [apply NoDup_seq | apply elem_of_seq; lia|].
    rewrite (Hg (fun cpu' => pages_at s' cpu' cl')).
    2:{ intros j _ Hj. rewrite Hat. unfold at_cache. by rewrite decide_False by tauto. }
    rewrite Hat. unfold at_cache. destruct (decide (cl' = cl)) as [->|Hne].
    - rewrite decide_True, Hr by done. unfold pages_at, cache_at. rewrite Hpc, Hc.
      by rewrite (Permutation_app_comm (pages c) np), <- app_assoc.
    - rewrite decide_False by tauto. by rewrite Hr. }
  split; [exact Hcp|]. unfold all_pages.
  destruct (flat_map_focus (class_pages s) (seq 0 CLASSES) cl) as (r & Hr & Hg);
    [apply NoDup_seq | apply elem_of_seq; lia|].
  assert (Hext : flat_map (class_pages s') (seq 0 CLASSES) ≡ₚ
    flat_map (fun cl' => if decide (cl' = cl) then np ++ class_pages s cl' else class_pages s cl') (seq 0 CLASSES)).
  { clear Hg Hr r. induction (seq 0 CLASSES) as [|x l IH]; [done|]. simpl. by rewrite Hcp, IH. }
  rewrite Hext, (Hg (fun cl' => if decide (cl' = cl) then np ++ class_pages s cl' else class_pages s cl')), Hr.
  - rewrite decide_True by done. by rewrite app_assoc.
  - intros j _ Hj. by rewrite decide_False.
Qed.

(** The invariant after one cache [c] became [c'] with free list [l'] and new
    pages [np], when the objects are conserved and the other caches' links are
    untouched. *)
Lemma slab_update (s : slab_system) (L : nat -> nat -> list Z) (live live' : nat -> list Z)
    (cpu cl : nat) (pc : PerCoreCache) (c c' : SlabCache) (e : env) (l' np : list Z) :
  slab_inv s L live -> cores s !! cpu = Some (Some pc) -> caches pc !! cl = Some c ->
  cache_ok (mem e) c' (class_size cl) l' -> pages c' = pages c ++ np ->
  (forall cpu' cl' a, ~ (cpu' = cpu /\ cl' = cl) -> a ∈ L cpu' cl' -> mem e !! a = mem (senv s) !! a) ->
  l' ++ live' cl ≡ₚ L cpu cl ++ live cl ++ all_objects (class_size cl) np ->
  (forall cl', cl' <> cl -> live' cl' = live cl') ->
  NoDup np -> (forall p, p ∈ np -> (p ∉ all_pages s) /\ page_owned (frames e) p) ->
  fs_inv (frames e) -> (forall a, fs_free (frames e) a -> fs_free (frames (senv s)) a) ->
  slab_inv (set_cache s cpu pc cl c' e) (fun cpu' cl' => at_cache cpu cl cpu' cl' l' (L cpu' cl')) live'.
Proof.
  intros Hinv Hpc Hc Hok' Hpg Hmem Hcons Hlive Hnd Hnp Hfs Hmono.
  assert (Hat : cache_at s cpu cl = Some c) by (unfold cache_at; by rewrite Hpc).
  destruct (cache_at_bounds _ _ _ _ _ _ Hinv Hat) as [Hcpu Hcl].
  assert (Hlen : (cl < length (caches pc))%nat) by (by eapply lookup_lt_Some).
  destruct (pages_set s cpu pc cl c c' e np Hpc Hc Hpg Hcpu Hcl) as [Hcps Hall].
  split.
  - unfold set_cache. cbn [cores]. rewrite length_insert. apply Hinv.
  - intros cpu' pc' Hpc'. unfold set_cache in Hpc'. cbn [cores] in Hpc'.
    destruct (decide (cpu' = cpu)) as [->|Hne].
    + rewrite list_lookup_insert_eq in Hpc' by (by eapply lookup_lt_Some). injection Hpc' as <-.
      cbn [caches]. rewrite length_insert. by apply (si_caches _ _ _ Hinv cpu).
    + rewrite list_lookup_insert_ne in Hpc' by done. by apply (si_caches _ _ _ Hinv cpu').
  - intros cpu' cl' c0. rewrite cache_at_set by done. unfold at_cache. cbn [senv set_cache].
    destruct (decide (cpu' = cpu /\ cl' = cl)) as [[-> ->]|Hne]; [intros [= <-]; done|].
    intros Hc0. destruct (si_cache _ _ _ Hinv _ _ _ Hc0) as [Hsz Hfl]. split; [done|].
    eapply fl_ok_frame; [done|]. intros a Ha. by apply (Hmem cpu' cl').
  - intros cpu' cl'. rewrite cache_at_set by done. unfold at_cache.
    destruct (decide _); [done | apply (si_none _ _ _ Hinv)].
  - intros cl' Hcl'. rewrite Hcps. pose proof (si_objects _ _ _ Hinv cl' Hcl') as Hobj.
    unfold class_free in *.
    destruct (flat_map_focus (fun cpu' => L cpu' cl') (seq 0 CPUS) cpu) as (r & Hr & Hg);
      [apply NoDup_seq | apply elem_of_seq; lia|].
    rewrite (Hg (fun cpu' => at_cache cpu cl cpu' cl' l' (L cpu' cl'))).
    2:{ intros j _ Hj. unfold at_cache. by rewrite decide_False by tauto. }
    unfold at_cache. destruct (decide (cl' = cl)) as [->|Hne].
    + rewrite decide_True by done. unfold all_objects at 1. rewrite flat_map_app.
      fold (all_objects (class_size cl) np) (all_objects (class_size cl) (class_pages s cl)).
      rewrite <- Hobj, Hr.
      rewrite <- (app_assoc l'), (Permutation_app_comm r), app_assoc, Hcons. solve_Permutation.
    + rewrite decide_False by tauto. by rewrite Hlive, <- Hobj, Hr.
  - rewrite Hall. apply NoDup_app. split; [done|]. split; [|apply Hinv].
    intros p Hp. by apply Hnp.
  - intros p. rewrite Hall, elem_of_app. cbn [senv set_cache]. intros [Hp|Hp]; [by apply Hnp|].
    destruct (si_owned _ _ _ Hinv p Hp) as (a & -> & Ha & Hf). exists a. split; [done|]. split; [done|].
    intros Hf'. by apply Hf, Hmono.
  - exact Hfs.
Qed.

(** ** The operations *)

Definition add_live (live : nat -> list Z) (cl : nat) (p : Z) : nat -> list Z :=
  fun cl' => if decide (cl' = cl) then p :: live cl' else live cl'.

(** [live'] is [live] with one occurrence of [p] removed from class [cl]. *)
Definition remove_live (live live' : nat -> list Z) (cl : nat) (p : Z) : Prop :=
  live cl ≡ₚ p :: live' cl /\ forall cl', cl' <> cl -> live' cl' = live cl'.

Lemma page_of_inj (a b : Z) : page_of a = page_of b -> a = b.
Proof. unfold page_of. lia. Qed.

(** A page the frame source can still hand out has no object of a cache. *)
Lemma free_page_fresh (s : slab_system) (L : nat -> nat -> list Z) (live : nat -> list Z) (p : Z) (cpu cl : nat) (a : Z) (size : Z) :
  slab_inv s L live -> fs_free (frames (senv s)) p -> (SLAB_PAGE_SIZE | p) -> a ∈ L cpu cl -> 0 < size ->
  a ∉ objects size (page_of p).
Proof.
  intros Hinv Hf Hp Ha Hsz Hin.
  destruct (free_object _ _ _ _ _ _ Hinv Ha) as (Hcl & q & Hq & Haq).
  pose proof (class_size_range cl Hcl).
  assert (Hown : page_owned (frames (senv s)) q) by (apply (si_owned _ _ _ Hinv), elem_all_pages; eauto).
  assert (Hne : page_of p <> q).
  { intros <-. destruct Hown as (a' & Heq%page_of_inj & _ & Hnf). subst a'. done. }
  destruct (objects_disjoint size (class_size cl) (page_of p) q a a); auto; try lia.
  - by apply page_of_aligned.
  - by eapply page_owned_aligned.
Qed.

(** What an allocation of a layout from a class promises. *)
Definition object_for (live : nat -> list Z) (cl : nat) (layout : Layout) (p : Z) : Prop :=
  layout_size layout <= class_size cl /\
  (forall k, 0 <= k -> layout_align layout = 2 ^ k -> (layout_align layout | p)) /\
  (forall cl' q, (cl' < CLASSES)%nat -> q ∈ live cl' -> apart cl cl' p q).

Lemma object_for_intro (s : slab_system) (L : nat -> nat -> list Z) (live : nat -> list Z) (cl : nat) (layout : Layout) (p : Z) :
  slab_inv s L (add_live live cl p) ->
  size_class (Z.max (layout_size layout) (layout_align layout)) = Some cl ->
  object_for live cl layout p.
Proof.
  intros Hinv Hsz. destruct (size_class_spec _ _ Hsz) as [Hcl Hle].
  assert (Hlive : forall cl' q, q ∈ live cl' -> q ∈ add_live live cl p cl').
  { intros cl' q Hq. unfold add_live. destruct (decide _); [by right | done]. }
  assert (Hp : p ∈ add_live live cl p cl) by (unfold add_live; rewrite decide_True by done; left).
  destruct (live_object _ _ _ cl p Hinv Hcl Hp) as (pg & Hpg & Hobj).
  split; [lia|]. split.
  - intros k Hk Hal. rewrite Hal in *.
    destruct (class_pages_spec _ _ _ cl Hinv Hcl) as (_ & Hpal & _). rewrite Forall_forall in Hpal.
    apply (object_aligned cl k pg); auto. lia.
  - intros cl' q Hcl' Hq. destruct (live_object _ _ _ cl' q Hinv Hcl' (Hlive _ _ Hq)) as (qg & Hqg & Hq').
    eapply (class_objects_apart s L (add_live live cl p) cl cl' pg qg); eauto.
    destruct (decide (cl = cl')) as [<-|]; [right | by left]. intros <-.
    pose proof (objects_unique _ _ _ cl Hinv Hcl) as Hnd. apply NoDup_app in Hnd as (_ & _ & Hnd).
    unfold add_live in Hnd. rewrite decide_True in Hnd by done. by apply NoDup_cons in Hnd as [? _].
Qed.

(** Allocation from the cache of one core. *)
Lemma allocate_step (s : slab_system) (live : nat -> list Z) (cpu : nat) (pc : PerCoreCache) (layout : Layout) (cl : nat) :
  slab_ok s live -> cores s !! cpu = Some (Some pc) ->
  size_class (Z.max (layout_size layout) (layout_align layout)) = Some cl ->
  exists r e' pc', PerCoreCache_allocate (senv s) pc layout = Ret (r, e', pc') /\
    let s' := mkSlabSystem (<[cpu := Some pc']> (cores s)) e' in
    match r with
    | Some p => slab_ok s' (add_live live cl p) /\ object_for live cl layout p
    | None => slab_ok s' live /\ exists fs', fs_alloc (frames (senv s)) = Ret (None, fs')
    end.
Proof using LV LF.
  intros [L Hinv] Hpc Hsz. destruct (size_class_spec _ _ Hsz) as [Hcl _].
  destruct (lookup_lt_is_Some_2 (caches pc) cl) as [c Hc].
  { rewrite (si_caches _ _ _ Hinv _ _ Hpc). done. }
  assert (Hat : cache_at s cpu cl = Some c) by (unfold cache_at; by rewrite Hpc).
  pose proof (class_size_range cl Hcl) as Hrange.
  destruct (SlabCache_allocate_spec (mem (senv s)) (frames (senv s)) c (class_size cl) (L cpu cl))
    as (r & m' & fs' & c' & Heq & Hfs' & Hmono & Hr); [apply Hinv | done | by apply (si_cache _ _ _ Hinv) | |].
  { intros a p Hf Hp Ha. eapply free_page_fresh; eauto. lia. }
  unfold PerCoreCache_allocate. rewrite Hsz. unfold index. rewrite Hc. cbn [obind]. rewrite Heq. cbn [obind].
  exists r. do 2 eexists. split; [done|]. cbv zeta.
  set (e' := mkEnv m' fs' (heap (senv s))).
  change (mkSlabSystem _ _) with (set_cache s cpu pc cl c' e').
  destruct r as [p|].
  - cut (exists L', slab_inv (set_cache s cpu pc cl c' e') L' (add_live live cl p)).
    { intros [L' HL']. split; [by exists L' | by eapply object_for_intro]. }
    destruct Hr as [(-> & Hpg & -> & l' & Hl & Hok) | (Hl & a & l' & Hpg & Hal & Hlim & Hf & Hnf & Hperm & Hok & Hm)].
    + eexists. eapply (slab_update s L live (add_live live cl p) cpu cl pc c c' e' l' []); eauto.
      * by rewrite Hpg, app_nil_r.
      * unfold add_live. rewrite decide_True, Hl by done. simpl. rewrite app_nil_r. by rewrite Permutation_middle.
      * intros cl' Hne. unfold add_live. by rewrite decide_False.
      * constructor.
      * intros q Hq. by apply elem_of_nil in Hq.
    + eexists. eapply (slab_update s L live (add_live live cl p) cpu cl pc c c' e' l' [page_of a]); eauto.
      * intros cpu' cl' b _ Hb. apply Hm. eapply free_page_fresh; eauto. lia.
      * unfold add_live. rewrite decide_True, Hl by done. simpl. rewrite app_nil_r.
        rewrite <- Permutation_middle, <- Hperm. simpl. by rewrite (Permutation_app_comm l'), <- Permutation_middle.
      * intros cl' Hne. unfold add_live. by rewrite decide_False.
      * apply NoDup_singleton.
      * intros q ->%list_elem_of_singleton. split.
        -- intros Hin. destruct (si_owned _ _ _ Hinv _ Hin) as (a' & Ha'%page_of_inj & _ & Hnf'). by subst a'.
        -- exists a. done.
  - destruct Hr as (-> & Hpg & Hl & Hok & Hnone). split; [|by exists fs'].
    eexists. eapply (slab_update s L live live cpu cl pc c c' e' [] []); eauto.
    + by rewrite Hpg, app_nil_r.
    + simpl. by rewrite Hl, app_nil_r.
    + constructor.
    + intros q Hq. by apply elem_of_nil in Hq.
Qed.

Lemma alloc_spec (s : slab_system) (live : nat -> list Z) (cpu : Z) (layout : Layout) (cl : nat) :
  slab_ok s live -> 0 <= cpu ->
  size_class (Z.max (layout_size layout) (layout_align layout)) = Some cl ->
  exists r s', per_core_alloc s cpu layout = Ret (r, s') /\
    match r with
    | Some p => slab_ok s' (add_live live cl p) /\ object_for live cl layout p
    | None => slab_ok s' live /\
        (MAX_CPUS <= cpu \/ cores s !! Z.to_nat cpu = Some None \/
         exists fs', fs_alloc (frames (senv s)) = Ret (None, fs'))
    end.
Proof using LV LF.
  intros Hok Hcpu Hsz. pose proof Hok as [L Hinv]. unfold per_core_alloc.
  destruct (Z.geb_spec cpu MAX_CPUS).
  { exists None, s. split; [done|]. split; [done|]. by left. }
  destruct (lookup_lt_is_Some_2 (cores s) (Z.to_nat cpu)) as [g Hg].
  { rewrite (si_cores _ _ _ Hinv). unfold CPUS. lia. }
  unfold index. rewrite Hg. cbn [obind]. destruct g as [pc|].
  - destruct (allocate_step s live (Z.to_nat cpu) pc layout cl Hok Hg Hsz) as (r & e' & pc' & -> & Hr).
    cbn [obind]. exists r. eexists. split; [done|]. destruct r as [p|]; [done|].
    destruct Hr as [H1 H2]. split; [done|]. by right; right.
  - exists None, s. split; [done|]. split; [done|]. by right; left.
Qed.

Lemma dealloc_spec (s : slab_system) (live live' : nat -> list Z) (cpu p : Z) (layout : Layout) (cl : nat) (pc : PerCoreCache) :
  slab_ok s live -> 0 <= cpu < MAX_CPUS -> cores s !! Z.to_nat cpu = Some (Some pc) ->
  size_class (Z.max (layout_size layout) (layout_align layout)) = Some cl ->
  remove_live live live' cl p ->
  exists s', per_core_dealloc s cpu p layout = Ret s' /\ slab_ok s' live' /\ all_pages s' ≡ₚ all_pages s.
Proof using LV LF.
  intros [L Hinv] Hcpu Hpc Hsz [Hrem Hoth]. destruct (size_class_spec _ _ Hsz) as [Hcl _].
  destruct (lookup_lt_is_Some_2 (caches pc) cl) as [c Hc].
  { rewrite (si_caches _ _ _ Hinv _ _ Hpc). done. }
  assert (Hat : cache_at s (Z.to_nat cpu) cl = Some c) by (unfold cache_at; by rewrite Hpc).
  destruct (si_cache _ _ _ Hinv _ _ _ Hat) as [Hos Hfl].
  pose proof (objects_unique _ _ _ cl Hinv Hcl) as Hnd. rewrite Hrem in Hnd.
  destruct (cache_at_bounds _ _ _ _ _ _ Hinv Hat) as [Hcpu' _].
  assert (Hnp : forall cpu' cl', p ∉ L cpu' cl').
  { intros cpu' cl' Hin. destruct (free_object _ _ _ _ _ _ Hinv Hin) as (Hcl' & q & Hq & Hpq).
    destruct (live_object _ _ _ cl p Hinv Hcl) as (q' & Hq' & Hpq'); [rewrite Hrem; left|].
    pose proof (class_size_range cl Hcl). pose proof (class_size_range cl' Hcl').
    destruct (decide (cl' = cl)) as [->|Hne].
    - apply NoDup_app in Hnd as (_ & Hd & _). apply (Hd p); [|by left].
      apply elem_flat_map_seq. exists cpu'. split; [|done].
      destruct (cache_at s cpu' cl) as [c0|] eqn:E0; [by eapply cache_at_bounds|].
      rewrite (si_none _ _ _ Hinv _ _ E0) in Hin. by apply elem_of_nil in Hin.
    - destruct (class_objects_apart s L live cl' cl q q' p p); auto; lia. }
  unfold per_core_dealloc. destruct (Z.geb_spec cpu MAX_CPUS); [lia|].
  unfold index at 1. rewrite Hpc. cbn [obind]. unfold PerCoreCache_deallocate. rewrite Hsz.
  unfold index. rewrite Hc. cbn [obind]. unfold SlabCache_deallocate.
  pose proof (push_spec _ _ _ p Hfl (Hnp _ _)) as Hpush.
  pose proof (push_other (mem (senv s)) (free_list c) p) as Hpo.
  destruct (FreeList_push _ _ _) as [m1 fl1]. cbn [fst snd obind] in *.
  set (c' := mkSlab _ _ _ _ _). set (e' := mkEnv _ _ _).
  change (mkSlabSystem _ _) with (set_cache s (Z.to_nat cpu) pc cl c' e').
  eexists. split; [done|]. split.
  - eexists. eapply (slab_update s L live live' (Z.to_nat cpu) cl pc c c' e' (p :: L (Z.to_nat cpu) cl) []); eauto.
    + by split.
    + by rewrite app_nil_r.
    + intros cpu' cl' a _ Ha. apply Hpo. intros ->. by apply (Hnp cpu' cl').
    + simpl. rewrite app_nil_r, Hrem. by rewrite Permutation_middle.
    + constructor.
    + intros q Hq. by apply elem_of_nil in Hq.
    + apply Hinv.
  - apply (pages_set s (Z.to_nat cpu) pc cl c c' e' []); auto. by rewrite app_nil_r.
Qed.

(** ** Boot and runs *)

Definition no_live : nat -> list Z := fun _ => [].

Lemma boot_core (n : Z) (cpu : nat) (pc : PerCoreCache) :
  for_range 0 (Z.min n MAX_CPUS) init_core PER_CORE_CACHES_init !! cpu = Some (Some pc) ->
  caches pc = SlabCache_new <$> SLAB_SIZES.
Proof.
  set (Q := fun cs : list (option PerCoreCache) =>
    forall i pc, cs !! i = Some (Some pc) -> caches pc = SlabCache_new <$> SLAB_SIZES).
  enough (HQ : Q (for_range 0 (Z.min n MAX_CPUS) init_core PER_CORE_CACHES_init)) by apply HQ.
  assert (H0 : Q PER_CORE_CACHES_init).
  { intros i p Hi%list_elem_of_lookup_2. unfold PER_CORE_CACHES_init in Hi.
    apply elem_of_replicate in Hi as [? _]. done. }
  destruct (Z.le_gt_cases 0 (Z.min n MAX_CPUS)) as [Hn|Hn].
  - apply (for_range_ind (fun _ => Q)); [done | done |]. intros j cs _ Hcs i p. unfold init_core.
    intros [(_ & [= <-] & _)|[_ Hi]]%list_lookup_insert_Some; [done | by apply (Hcs i)].
  - unfold for_range. by replace (Z.to_nat (Z.min n MAX_CPUS - 0)) with 0%nat by lia.
Qed.

Lemma length_boot_cores (n : Z) :
  length (for_range 0 (Z.min n MAX_CPUS) init_core PER_CORE_CACHES_init) = CPUS.
Proof.
  destruct (Z.le_gt_cases 0 (Z.min n MAX_CPUS)) as [Hn|Hn].
  - apply (for_range_ind (fun _ cs => length cs = CPUS)); [done | done |].
    intros j cs _ Hcs. unfold init_core. by rewrite length_insert.
  - unfold for_range. by replace (Z.to_nat (Z.min n MAX_CPUS - 0)) with 0%nat by lia.
Qed.

Definition boot (e : env) (n : Z) : slab_system :=
  init_per_core_caches (mkSlabSystem PER_CORE_CACHES_init e) n.

Lemma boot_cache (e : env) (n : Z) (cpu cl : nat) (c : SlabCache) :
  cache_at (boot e n) cpu cl = Some c -> c = SlabCache_new (nth cl SLAB_SIZES 0).
Proof.
  unfold cache_at, boot, init_per_core_caches. cbn [cores].
  destruct (_ !! cpu) as [[pc|]|] eqn:E; try done. rewrite (boot_core _ _ _ E), list_lookup_fmap.
  destruct (SLAB_SIZES !! cl) as [z|] eqn:Ez; [|done].
  intros [= <-]. by rewrite (nth_lookup_Some _ _ _ _ Ez).
Qed.

Lemma flat_map_nil {A B} (f : A -> list B) (l : list A) : (forall x, f x = []) -> flat_map f l = [].
Proof. intros H. induction l as [|x l IH]; [done|]. simpl. by rewrite H. Qed.

Lemma boot_slab_ok (e : env) (n : Z) : fs_inv (frames e) -> slab_ok (boot e n) no_live.
Proof.
  intros Hfs.
  assert (Hpg : forall cl, class_pages (boot e n) cl = []).
  { intros cl. apply flat_map_nil. intros cpu. unfold pages_at.
    destruct (cache_at _ cpu cl) as [c|] eqn:E; [|done]. by rewrite (boot_cache _ _ _ _ _ E). }
  assert (Hall : all_pages (boot e n) = []) by (by apply flat_map_nil).
  exists (fun _ _ => []). split.
  - apply length_boot_cores.
  - intros cpu pc Hpc. by rewrite (boot_core _ _ _ Hpc).
  - intros cpu cl c Hc. rewrite (boot_cache _ _ _ _ _ Hc). by split.
  - done.
  - intros cl _. rewrite Hpg. unfold class_free. by rewrite flat_map_nil.
  - rewrite Hall. constructor.
  - intros p. rewrite Hall. by intros ?%elem_of_nil.
  - exact Hfs.
Qed.

(** The address lies in an object that is handed out. *)
Definition in_live (live : nat -> list Z) (a : Z) : Prop :=
  exists cl q, (cl < CLASSES)%nat /\ q ∈ live cl /\ q <= a < q + class_size cl.

(** A step of the system: an allocation or a deallocation on some core, or
    writes of the owners into their objects. *)
Inductive slab_step : slab_system * (nat -> list Z) -> slab_system * (nat -> list Z) -> Prop :=
| step_alloc s live cpu layout cl p s' :
    0 <= cpu -> size_class (Z.max (layout_size layout) (layout_align layout)) = Some cl ->
    per_core_alloc s cpu layout = Ret (Some p, s') ->
    slab_step (s, live) (s', add_live live cl p)
| step_alloc_fail s live cpu layout cl s' :
    0 <= cpu -> size_class (Z.max (layout_size layout) (layout_align layout)) = Some cl ->
    per_core_alloc s cpu layout = Ret (None, s') ->
    slab_step (s, live) (s', live)
| step_dealloc s live live' cpu pc layout cl p s' :
    0 <= cpu < MAX_CPUS -> cores s !! Z.to_nat cpu = Some (Some pc) ->
    size_class (Z.max (layout_size layout) (layout_align layout)) = Some cl ->
    remove_live live live' cl p -> per_core_dealloc s cpu p layout = Ret s' ->
    slab_step (s, live) (s', live')
| step_write s live m' :
    (forall a, ~ in_live live a -> m' !! a = mem (senv s) !! a) ->
    slab_step (s, live) (mkSlabSystem (cores s) (mkEnv m' (frames (senv s)) (heap (senv s))), live).

(** Writes into objects that are handed out do not reach a link. *)
Lemma write_ok (s : slab_system) (live : nat -> list Z) (m' : memory) :
  slab_ok s live -> (forall a, ~ in_live live a -> m' !! a = mem (senv s) !! a) ->
  slab_ok (mkSlabSystem (cores s) (mkEnv m' (frames (senv s)) (heap (senv s)))) live.
Proof.
  intros [L Hinv] Hm. exists L. destruct Hinv as [? ? Hc ? ? ? ? ?] eqn:Ei. split; try done.
  intros cpu cl c Hat. destruct (Hc cpu cl c Hat) as [Hsz Hfl]. split; [done|].
  eapply fl_ok_frame; [done|]. intros a Ha. apply Hm. clear Ei.
  intros (cl' & q & Hcl' & Hq & Hrange).
  destruct (free_object _ _ _ _ _ _ Hinv Ha) as (Hcl & p & Hp & Hap).
  destruct (live_object _ _ _ _ _ Hinv Hcl' Hq) as (p' & Hp' & Hq').
  pose proof (class_size_range cl Hcl). pose proof (class_size_range cl' Hcl').
  destruct (class_objects_apart s L live cl cl' p p' a q); auto; try lia.
  destruct (decide (cl = cl')) as [<-|]; [right | by left]. intros ->.
  pose proof (objects_unique _ _ _ cl Hinv Hcl) as Hnd. apply NoDup_app in Hnd as (_ & Hd & _).
  apply (Hd q); [|done]. apply elem_flat_map_seq. exists cpu. split; [|done].
  by eapply cache_at_bounds.
Qed.

Lemma dealloc_step (s s' : slab_system) (live live' : nat -> list Z) (cpu p : Z) (layout : Layout) (cl : nat) (pc : PerCoreCache) :
  slab_ok s live -> 0 <= cpu < MAX_CPUS -> cores s !! Z.to_nat cpu = Some (Some pc) ->
  size_class (Z.max (layout_size layout) (layout_align layout)) = Some cl ->
  remove_live live live' cl p -> per_core_dealloc s cpu p layout = Ret s' -> slab_ok s' live'.
Proof using LV LF.
  intros. edestruct dealloc_spec as (s1 & Heq & Hok & _); eauto. congruence.
Qed.

Lemma slab_step_ok (s s' : slab_system) (live live' : nat -> list Z) :
  slab_ok s live -> slab_step (s, live) (s', live') -> slab_ok s' live'.
Proof using LV LF.
  intros Hok Hstep. inversion Hstep; subst.
  - destruct (alloc_spec s live cpu layout cl) as (r & s1 & Heq & Hr); auto.
    rewrite Heq in *. simplify_eq. by destruct Hr.
  - destruct (alloc_spec s live' cpu layout cl) as (r & s1 & Heq & Hr); auto.
    rewrite Heq in *. simplify_eq. by destruct Hr.
  - eapply dealloc_step; eauto.
  - by apply write_ok.
Qed.

Lemma slab_runs_ok (s s' : slab_system) (live live' : nat -> list Z) :
  slab_ok s live -> rtc slab_step (s, live) (s', live') -> slab_ok s' live'.
Proof using LV LF.
  intros Hok Hrun. remember (s, live) as x eqn:Ex. remember (s', live') as y eqn:Ey.
  revert s live Ex Hok. induction Hrun as [x|x [s1 live1] y Hst _ IH]; intros s live Ex Hok; subst.
  - injection Ex as -> ->. done.
  - apply (IH eq_refl s1 live1); [done|]. by eapply slab_step_ok.
Qed.

(** Distinct objects handed out are disjoint, each is handed out once. *)
Definition live_disjoint (live : nat -> list Z) : Prop :=
  (forall cl, (cl < CLASSES)%nat -> NoDup (live cl)) /\
  forall c1 c2 a b, (c1 < CLASSES)%nat -> (c2 < CLASSES)%nat -> a ∈ live c1 -> b ∈ live c2 ->
    c1 <> c2 \/ a <> b -> apart c1 c2 a b.

Lemma slab_ok_disjoint (s : slab_system) (live : nat -> list Z) : slab_ok s live -> live_disjoint live.
Proof.
  intros [L Hinv]. split.
  - intros cl Hcl. pose proof (objects_unique _ _ _ cl Hinv Hcl) as Hnd. by apply NoDup_app in Hnd as (_ & _ & ?).
  - intros c1 c2 a b H1 H2 Ha Hb Hne.
    destruct (live_object _ _ _ _ _ Hinv H1 Ha) as (p & Hp & Hap).
    destruct (live_object _ _ _ _ _ Hinv H2 Hb) as (q & Hq & Hbq).
    by apply (class_objects_apart s L live c1 c2 p q).
Qed.

(** C5: an allocation of a slab-sized layout on any core never fails in
    memory-unsafe ways (no panic, no read of a link that was never written)
    and hands out an object that is big enough, aligned as the layout asks, and
    disjoint from every object any core has handed out and not got back; the
    invariant is kept.  It returns [None] only for a core without a cache or
    when the frame source is exhausted. *)
Theorem per_core_alloc_correct (s : slab_system) (live : nat -> list Z) (cpu : Z) (layout : Layout) (cl : nat) :
  slab_ok s live -> 0 <= cpu ->
  size_class (Z.max (layout_size layout) (layout_align layout)) = Some cl ->
  exists r s', per_core_alloc s cpu layout = Ret (r, s') /\
    match r with
    | Some p => slab_ok s' (add_live live cl p) /\ object_for live cl layout p
    | None => slab_ok s' live /\
        (MAX_CPUS <= cpu \/ cores s !! Z.to_nat cpu = Some None \/
         exists fs', fs_alloc (frames (senv s)) = Ret (None, fs'))
    end.
Proof using LV LF. apply alloc_spec. Qed.

(** an object handed out by any core may be returned on any core that has
    its caches: the call never fails, and the object is free again and nothing
    else changes hands. *)
Theorem per_core_dealloc_correct (s : slab_system) (live live' : nat -> list Z) (cpu p : Z) (layout : Layout) (cl : nat) (pc : PerCoreCache) :
  slab_ok s live -> 0 <= cpu < MAX_CPUS -> cores s !! Z.to_nat cpu = Some (Some pc) ->
  size_class (Z.max (layout_size layout) (layout_align layout)) = Some cl ->
  remove_live live live' cl p ->
  exists s', per_core_dealloc s cpu p layout = Ret s' /\ slab_ok s' live' /\ all_pages s' ≡ₚ all_pages s.
Proof using LV LF. apply dealloc_spec. Qed.

End System.
