(* ===== verification/SlabBuddy.v ===== *)
(** * The slab caches on top of the buddy allocator

    The buddy allocator keeps the promises of [FrameSource], so the theorems on
    the caches hold of the two components together. *)

From stdpp Require Import base list gmap relations.
From Stdlib Require Import ZArith Lia.
From S2P Require Import Prelude Paging Buddy BuddySpec BuddyTheorems Slab SlabTheorems.

Local Open Scope Z_scope.
#[local] Opaque Buddy.init Buddy.allocate_order.

Section BuddySource.
Context `{L : X86PagingLaws}.

#[export] Instance buddy_source : FrameSource := {|
  fs_state := BuddyFrameAllocator;
  fs_alloc := buddy_alloc_frame
|}.

Lemma buddy_source_spec (st : BuddyFrameAllocator) :
  buddy_wf st /\ total_frames st <= 2 ^ 35 ->
  exists r st', buddy_alloc_frame st = Ret (r, st') /\
    (buddy_wf st' /\ total_frames st' <= 2 ^ 35) /\
    (forall a, 0 < cover (free_blocks st') (a / PAGE_SIZE_4K) -> 0 < cover (free_blocks st) (a / PAGE_SIZE_4K)) /\
    match r with
    | Some fr =>
        let a := phys_as_u64 (start_address fr) in
        (SLAB_PAGE_SIZE | a) /\ 0 <= a < MAPPED_LIMIT /\
        0 < cover (free_blocks st) (a / PAGE_SIZE_4K) /\ ~ 0 < cover (free_blocks st') (a / PAGE_SIZE_4K)
    | None => True
    end.
Proof using L.
  intros [Hwf Htot]. unfold buddy_alloc_frame, allocate_4k_frame.
  destruct (allocate_order_spec st 0 Hwf) as [[-> _] | (f & st' & -> & Hwf' & Hb & [Hs _] & Ht & _)].
  { exists None, st. done. }
  assert (Hf : cover (free_blocks st) f = 1 /\ cover (free_blocks st') f = 0).
  { specialize (Hs f). simpl in Hs. rewrite (proj2 (in_block_spec 0 f f)) in Hs by (simpl; lia).
    simpl in Hs. pose proof (bw_disjoint _ _ (wf_blocks _ Hwf) f).
    pose proof (cover_nonneg (free_blocks st') f). lia. }
  assert (Hlim : 0 <= f < 2 ^ 35).
  { destruct Hb as (_ & Hf0 & _). cbn [fst snd] in *. pose proof (wf_total _ Hwf f). lia. }
  cbn [obind frame_of_index]. unfold to_phys_addr, PAGE_SIZE_4K.
  rewrite wrap64_small by (unfold is_u64, u64_modulus; lia).
  destruct (frame_roundtrip (f * 4096) 4096) as (p & -> & Hstart);
    [unfold PHYS_ADDR_LIMIT; lia | lia | by exists f|].
  cbn [obind]. eexists _, st'. split; [done|]. split; [split; [done | lia]|]. split.
  - intros a. specialize (Hs (a / 4096)). simpl in Hs.
    destruct (in_block _ _); simpl in Hs; lia.
  - cbv zeta. rewrite Hstart. split; [by exists f|]. split; [unfold MAPPED_LIMIT; lia|].
    rewrite Z.div_mul by lia. lia.
Qed.

#[export] Instance buddy_source_laws : FrameSourceLaws := {|
  fs_inv st := buddy_wf st /\ total_frames st <= 2 ^ 35;
  fs_free st a := 0 < cover (free_blocks st) (a / PAGE_SIZE_4K);
  fs_alloc_spec := buddy_source_spec
|}.

End BuddySource.

Section Kernel.
Context `{L : X86PagingLaws} `{LV : X86VirtualLaws} `{G : GlobalHeap}.

(** C6: on a machine booted with a memory map below 128 TiB, whatever the cores
    allocate, free (on any core) and write into their objects, two objects in
    use never overlap and no object is in use twice, the objects not in use are
    exactly those on the free lists, and every further slab-sized allocation
    returns. *)
Theorem slab_on_buddy_safe (rs : list (Z * Z)) (st : BuddyFrameAllocator) (h : heap_state) (n : Z)
    (s : slab_system) (live : nat -> list Z) :
  memory_map_ok rs -> Buddy.init BuddyFrameAllocator_new rs = Ret st -> total_frames st <= 2 ^ 35 ->
  rtc slab_step (boot (mkEnv ∅ st h) n, no_live) (s, live) ->
  live_disjoint live /\ slab_ok s live /\
  forall cpu layout cl, 0 <= cpu ->
    size_class (Z.max (layout_size layout) (layout_align layout)) = Some cl ->
    exists r s', per_core_alloc s cpu layout = Ret (r, s').
Proof using L LV.
  intros Hrs Hinit Htot Hrun. destruct (init_spec rs Hrs) as (st0 & lost & Heq & Hwf & _).
  assert (st0 = st) as -> by congruence.
  assert (Hok : slab_ok s live).
  { eapply slab_runs_ok; [|exact Hrun]. apply boot_slab_ok. by split. }
  split; [by eapply slab_ok_disjoint|]. split; [done|].
  intros cpu layout cl Hcpu Hsz. destruct (alloc_spec s live cpu layout cl Hok Hcpu Hsz) as (r & s' & Heq' & _).
  eauto.
Qed.

End Kernel.

(** ** A concrete run *)

(** A heap that is always exhausted. *)
#[local] Instance no_heap : GlobalHeap := {|
  heap_state := unit;
  heap_alloc := fun h _ => Ret (0, h);
  heap_dealloc := fun h _ _ => Ret h
|}.

Definition word_layout : Layout := mkLayout 8 8.
Definition slab0 : slab_system := boot (mkEnv ∅ booted tt) 2.
Definition slab1 : slab_system :=
  (of_outcome (None, slab0) (per_core_alloc slab0 0 word_layout)).2.

Lemma booted_total : total_frames booted <= 2 ^ 35.
Proof. apply Z.leb_le. vm_compute. reflexivity. Qed.

Lemma slab0_ok : slab_ok slab0 no_live.
Proof. apply boot_slab_ok. split; [exact booted_wf | exact booted_total]. Qed.

(** The last object of frame 1024's page. *)
Definition first_object : Z := 1024 * 4096 + PHYSICAL_MEMORY_OFFSET + 63 * 64.

Lemma slab0_alloc : per_core_alloc slab0 0 word_layout = Ret (Some first_object, slab1).
Proof.
  destruct (alloc_spec slab0 no_live 0 word_layout 0 slab0_ok) as (r & s' & Heq & _); [lia | done|].
  unfold slab1. apply (of_outcome_fst (None, slab0) _ _ _ Heq). vm_compute. reflexivity.
Qed.

Lemma slab1_ok : slab_ok slab1 (add_live no_live 0 first_object).
Proof.
  destruct (alloc_spec slab0 no_live 0 word_layout 0 slab0_ok) as (r & s' & Heq & Hr); [lia | done|].
  rewrite slab0_alloc in Heq. destruct (Ret_pair_inj _ _ _ _ Heq) as [<- <-]. exact (proj1 Hr).
Qed.

Lemma per_core_alloc_correct_witness :
  exists r s', per_core_alloc slab0 0 word_layout = Ret (r, s').
Proof.
  destruct (per_core_alloc_correct slab0 no_live 0 word_layout 0 slab0_ok) as (r & s' & Heq & _);
    [lia | reflexivity | exists r, s'; exact Heq].
Defined.

Lemma per_core_dealloc_correct_witness :
  exists s', per_core_dealloc slab1 1 first_object word_layout = Ret s' /\ slab_ok s' no_live.
Proof.
  destruct (cores slab1 !! Z.to_nat 1) as [[pc|]|] eqn:E; [|vm_compute in E; discriminate..].
  destruct (per_core_dealloc_correct slab1 (add_live no_live 0 first_object) no_live 1 first_object
    word_layout 0 pc slab1_ok) as (s' & Heq & Hok & _).
  - split; [lia | reflexivity].
  - exact E.
  - reflexivity.
  - split; [reflexivity|]. intros cl Hne. unfold add_live. destruct (decide (cl = 0%nat)) as [e|]; [exfalso; exact (Hne e) | reflexivity].
  - exists s'. split; [exact Heq | exact Hok].
Defined.

Lemma slab_on_buddy_safe_witness : live_disjoint (add_live no_live 0 first_object).
Proof.
  destruct (slab_on_buddy_safe (G := no_heap) boot_map booted tt 2 slab1 (add_live no_live 0 first_object)
    boot_map_ok booted_init booted_total) as [Hd _].
  - apply rtc_once. apply (step_alloc slab0 no_live 0 word_layout 0 first_object slab1);
      [lia | reflexivity | exact slab0_alloc].
  - exact Hd.
Defined.
