(* ===== verification/PageTables.v ===== *)
(** * Page tables (src/src/mm/higher_half.rs)

    Addresses, page table entries and the four-level tables, which live in memory
    that is reached through the linear mapping, the walker that translates an
    address and the manager that maps, unmaps and protects pages of three sizes.
    The theorems read the tables as an address space: a function from virtual
    addresses to physical ones.

    Tables are words at virtual addresses of the linear mapping; a word that was
    never written cannot be read.  New tables come from [FrameSource], which the
    buddy allocator implements.  [invalidated] are the addresses whose translation
    the processor was told to forget, the latest first. *)

From stdpp Require Import base list gmap relations.
From Stdlib Require Import ZArith Lia Btauto.
From S2P Require Import Prelude Paging Buddy BuddySpec BuddyTheorems Slab SlabTheorems SlabBuddy.

Local Open Scope Z_scope.

Module Hh.

(** ** Addresses *)

Definition KERNEL_BASE : Z := 0xFFFF800000000000.
Definition PHYS_MAP_BASE : Z := 0xFFFF888000000000.
Definition KERNEL_HEAP_BASE : Z := 0xFFFFC00000000000.
Definition KERNEL_STACK_BASE : Z := 0xFFFFE00000000000.

Definition virt_new (addr : Z) : Z :=
  if negb (Z.land addr (Z.shiftl 1 47) =? 0) then Z.lor addr 0xFFFF000000000000 else Z.land addr 0x0000FFFFFFFFFFFF.
Definition is_kernel_space (v : Z) : bool := v >=? KERNEL_BASE.
Definition is_user_space (v : Z) : bool := v <? KERNEL_BASE.
(** Also [PhysAddr::is_page_aligned] *)
Definition is_page_aligned (v : Z) : bool := Z.land v 0xFFF =? 0.
Definition align_down (v : Z) : Z := Z.land v (not64 0xFFF).
Definition align_up (v : Z) : Z := Z.land (v +w 0xFFF) (not64 0xFFF).
Definition virt_offset (v bytes : Z) : Z := virt_new (v +w bytes).
Definition page_table_indices (v : Z) : list Z :=
  [Z.land (Z.shiftr v 39) 0x1FF; Z.land (Z.shiftr v 30) 0x1FF; Z.land (Z.shiftr v 21) 0x1FF; Z.land (Z.shiftr v 12) 0x1FF].
Definition page_offset (v : Z) : Z := Z.land v 0xFFF.

Definition PHYS_MAX : Z := Z.shiftl 1 52 - 1.
Definition phys_new (addr : Z) : Z := Z.land addr PHYS_MAX.
Definition frame_number (p : Z) : Z := Z.shiftr p 12.
Definition from_frame_number (f : Z) : Z := wrap64 (Z.shiftl f 12).

Inductive PageSize := Size4KiB | Size2MiB | Size1GiB.
Definition as_bytes (s : PageSize) : Z :=
  match s with Size4KiB => 4 * 1024 | Size2MiB => 2 * 1024 * 1024 | Size1GiB => 1024 * 1024 * 1024 end.
Definition table_level (s : PageSize) : nat := match s with Size4KiB => 0 | Size2MiB => 1 | Size1GiB => 2 end.

(** ** Entries *)

Definition PRESENT : Z := Z.shiftl 1 0.
Definition WRITABLE : Z := Z.shiftl 1 1.
Definition USER : Z := Z.shiftl 1 2.
Definition HUGE_PAGE : Z := Z.shiftl 1 7.
Definition GLOBAL : Z := Z.shiftl 1 8.
Definition NO_EXECUTE : Z := Z.shiftl 1 63.

Definition kernel_data : Z := Z.lor (Z.lor (Z.lor PRESENT WRITABLE) NO_EXECUTE) GLOBAL.
Definition kernel_code : Z := Z.lor PRESENT GLOBAL.
Definition kernel_rodata : Z := Z.lor (Z.lor PRESENT NO_EXECUTE) GLOBAL.
Definition user_data : Z := Z.lor (Z.lor (Z.lor PRESENT WRITABLE) USER) NO_EXECUTE.
Definition user_code : Z := Z.lor PRESENT USER.

Definition flags_set (f flag : Z) : Z := Z.lor f flag.
Definition flags_clear (f flag : Z) : Z := Z.land f (not64 flag).
Definition flags_contains (f flag : Z) : bool := Z.land f flag =? flag.

Definition ADDR_MASK : Z := 0x000FFFFFFFFFF000.
Definition entry_new (phys flags : Z) : Z := Z.lor (Z.land phys ADDR_MASK) flags.
Definition entry_huge (phys flags : Z) : Z := Z.lor (Z.lor (Z.land phys ADDR_MASK) flags) HUGE_PAGE.
Definition is_present (e : Z) : bool := negb (Z.land e PRESENT =? 0).
Definition is_huge (e : Z) : bool := negb (Z.land e HUGE_PAGE =? 0).
Definition phys_addr (e : Z) : Z := phys_new (Z.land e ADDR_MASK).
Definition entry_flags (e : Z) : Z := Z.land e (not64 ADDR_MASK).
Definition set_flags (e flags : Z) : Z := Z.lor (Z.land e ADDR_MASK) flags.

(** ** Physical memory through the linear mapping *)

(** [PhysicalMemoryMapper]; [off] is its offset. *)
Definition phys_to_virt (off phys : Z) : Z := virt_new (phys +w off).
Definition virt_to_phys (off virt : Z) : option Z := if virt >=? off then Some (phys_new (virt -w off)) else None.

Abbreviation words := (gmap Z Z).

(** [PageTable::entry] of the table at the physical address [t]; indices are below 512. *)
Definition entry (off : Z) (m : words) (t i : Z) : outcome Z :=
  match m !! (phys_to_virt off t + 8 * i) with Some e => Ret e | None => Panic end.
Definition set_entry (off : Z) (m : words) (t i e : Z) : words := <[phys_to_virt off t + 8 * i := e]> m.

(** [PageTable::clear] *)
Definition clear_table (off : Z) (m : words) (t : Z) : words := foldl (fun m' i => set_entry off m' t i 0) m (seqZ 0 512).

(** *** The walker *)

Definition idx (v : Z) (k : nat) : Z := nth k (page_table_indices v) 0.

Definition translate (off : Z) (m : words) (pml4_phys virt : Z) : outcome (option Z) :=
  let! pml4e := entry off m pml4_phys (idx virt 0) in
  if negb (is_present pml4e) then Ret None
  else
    let! pdpte := entry off m (phys_addr pml4e) (idx virt 1) in
    if negb (is_present pdpte) then Ret None
    else if is_huge pdpte then
      let base := Z.land (phys_addr pdpte) (not64 (as_bytes Size1GiB - 1)) in
      Ret (Some (phys_new (base +w Z.land virt (as_bytes Size1GiB - 1))))
    else
      let! pde := entry off m (phys_addr pdpte) (idx virt 2) in
      if negb (is_present pde) then Ret None
      else if is_huge pde then
        let base := Z.land (phys_addr pde) (not64 (as_bytes Size2MiB - 1)) in
        Ret (Some (phys_new (base +w Z.land virt (as_bytes Size2MiB - 1))))
      else
        let! pte := entry off m (phys_addr pde) (idx virt 3) in
        if negb (is_present pte) then Ret None else Ret (Some (phys_new (phys_addr pte +w page_offset virt))).

(** ** The manager *)

Inductive MapError := FrameAllocationFailed | AlreadyMapped | NotMapped | InvalidAddress | AlignmentError | ParentEntryHugePage.

Record PageTableManager := mkManager { pml4_phys : Z; mapper : Z }.

Section Manager.
Context `{P : X86Paging} `{F : !FrameSource}.

Record machine := mkMachine { mem : words; frames : fs_state; invalidated : list Z }.

(** Methods that fail with [?] *)
Definition M (A : Type) : Type := machine -> outcome (result A MapError * machine).
Definition mret {A} (a : A) : M A := fun s => Ret (Ok a, s).
Definition mfail {A} (e : MapError) : M A := fun s => Ret (Err e, s).
Definition mbind {A B} (m : M A) (k : A -> M B) : M B := fun s =>
  let! x := m s in match x with (Ok a, s') => k a s' | (Err e, s') => Ret (Err e, s') end.
Local Notation "x <- m ;; k" := (mbind m (fun x => k)) (at level 100, m at next level, right associativity).
Local Notation "m ;;; k" := (mbind m (fun _ => k)) (at level 100, right associativity).

Definition read_entry (g : PageTableManager) (t i : Z) : M Z := fun s => let! e := entry (mapper g) (mem s) t i in Ret (Ok e, s).
Definition write_entry (g : PageTableManager) (t i e : Z) : M unit := fun s => Ret (Ok tt, mkMachine (set_entry (mapper g) (mem s) t i e) (frames s) (invalidated s)).
Definition invalidate_page (v : Z) : M unit := fun s => Ret (Ok tt, mkMachine (mem s) (frames s) (v :: invalidated s)).

Definition alloc_page_table : M Z := fun s =>
  let! r := fs_alloc (frames s) in
  let s' := mkMachine (mem s) r.2 (invalidated s) in
  match r.1 with
  | Some fr => Ret (Ok (phys_new (phys_as_u64 (start_address fr))), s')
  | None => Ret (Err FrameAllocationFailed, s')
  end.

Definition ensure_table_entry (g : PageTableManager) (t i : Z) : M Z :=
  e <- read_entry g t i ;;
  if is_present e then if is_huge e then mfail ParentEntryHugePage else mret (phys_addr e)
  else
    n <- alloc_page_table ;;
    (fun s => Ret (Ok tt, mkMachine (clear_table (mapper g) (mem s) n) (frames s) (invalidated s))) ;;;
    write_entry g t i (entry_new n (Z.lor (Z.lor PRESENT WRITABLE) USER)) ;;;
    mret n.

(** A huge page where a table is needed *)
Definition check_parent (g : PageTableManager) (t i : Z) : M unit :=
  e <- read_entry g t i ;; if is_present e && is_huge e then mfail ParentEntryHugePage else mret tt.

Definition map_page (g : PageTableManager) (virt phys flags : Z) : M unit :=
  if negb (is_page_aligned virt) || negb (is_page_aligned phys) then mfail AlignmentError
  else
    pdpt <- ensure_table_entry g (pml4_phys g) (idx virt 0) ;;
    check_parent g pdpt (idx virt 1) ;;;
    pd <- ensure_table_entry g pdpt (idx virt 1) ;;
    check_parent g pd (idx virt 2) ;;;
    pt <- ensure_table_entry g pd (idx virt 2) ;;
    pte <- read_entry g pt (idx virt 3) ;;
    if is_present pte then mfail AlreadyMapped
    else
      write_entry g pt (idx virt 3) (entry_new phys (flags_set flags PRESENT)) ;;;
      invalidate_page virt.

Definition map_2mb_page (g : PageTableManager) (virt phys flags : Z) : M unit :=
  if negb (virt mod as_bytes Size2MiB =? 0) || negb (phys mod as_bytes Size2MiB =? 0) then mfail AlignmentError
  else
    pdpt <- ensure_table_entry g (pml4_phys g) (idx virt 0) ;;
    check_parent g pdpt (idx virt 1) ;;;
    pd <- ensure_table_entry g pdpt (idx virt 1) ;;
    pde <- read_entry g pd (idx virt 2) ;;
    if is_present pde then mfail AlreadyMapped
    else
      write_entry g pd (idx virt 2) (entry_huge phys (flags_set flags PRESENT)) ;;;
      invalidate_page virt.

Definition map_1gb_page (g : PageTableManager) (virt phys flags : Z) : M unit :=
  if negb (virt mod as_bytes Size1GiB =? 0) || negb (phys mod as_bytes Size1GiB =? 0) then mfail AlignmentError
  else
    pdpt <- ensure_table_entry g (pml4_phys g) (idx virt 0) ;;
    pdpte <- read_entry g pdpt (idx virt 1) ;;
    if is_present pdpte then mfail AlreadyMapped
    else
      write_entry g pdpt (idx virt 1) (entry_huge phys (flags_set flags PRESENT)) ;;;
      invalidate_page virt.

(** The entry is cleared, its address returned. *)
Definition take_entry (g : PageTableManager) (t i e virt : Z) : M Z :=
  write_entry g t i 0 ;;; invalidate_page virt ;;; mret (phys_addr e).

Definition unmap_page (g : PageTableManager) (virt : Z) : M Z :=
  if negb (is_page_aligned virt) then mfail AlignmentError
  else
    pml4e <- read_entry g (pml4_phys g) (idx virt 0) ;;
    if negb (is_present pml4e) then mfail NotMapped
    else
      pdpte <- read_entry g (phys_addr pml4e) (idx virt 1) ;;
      if negb (is_present pdpte) then mfail NotMapped
      else if is_huge pdpte then take_entry g (phys_addr pml4e) (idx virt 1) pdpte virt
      else
        pde <- read_entry g (phys_addr pdpte) (idx virt 2) ;;
        if negb (is_present pde) then mfail NotMapped
        else if is_huge pde then take_entry g (phys_addr pdpte) (idx virt 2) pde virt
        else
          pte <- read_entry g (phys_addr pde) (idx virt 3) ;;
          if negb (is_present pte) then mfail NotMapped else take_entry g (phys_addr pde) (idx virt 3) pte virt.

Definition change_entry (g : PageTableManager) (t i e flags virt : Z) : M unit :=
  write_entry g t i (set_flags e flags) ;;; invalidate_page virt.

Definition update_flags (g : PageTableManager) (virt flags : Z) : M unit :=
  if negb (is_page_aligned virt) then mfail AlignmentError
  else
    pml4e <- read_entry g (pml4_phys g) (idx virt 0) ;;
    if negb (is_present pml4e) then mfail NotMapped
    else
      pdpte <- read_entry g (phys_addr pml4e) (idx virt 1) ;;
      if negb (is_present pdpte) then mfail NotMapped
      else if is_huge pdpte then change_entry g (phys_addr pml4e) (idx virt 1) pdpte (flags_set (flags_set flags PRESENT) HUGE_PAGE) virt
      else
        pde <- read_entry g (phys_addr pdpte) (idx virt 2) ;;
        if negb (is_present pde) then mfail NotMapped
        else if is_huge pde then change_entry g (phys_addr pdpte) (idx virt 2) pde (flags_set (flags_set flags PRESENT) HUGE_PAGE) virt
        else
          pte <- read_entry g (phys_addr pde) (idx virt 3) ;;
          if negb (is_present pte) then mfail NotMapped else change_entry g (phys_addr pde) (idx virt 3) pte (flags_set flags PRESENT) virt.

(** The loops of [map_range] and [unmap_range]; [None] is a loop that goes on. *)
Fixpoint map_range_loop (fuel : nat) (g : PageTableManager) (virt phys last flags : Z) (s : machine) : option (outcome (result unit MapError * machine)) :=
  if negb (virt <? last) then Some (Ret (Ok tt, s))
  else
    match fuel with
    | O => None
    | S f =>
        let remaining := last -w virt in
        let go (size : Z) (m : M unit) :=
          match m s with
          | Ret (Ok _, s') => map_range_loop f g (virt +w size) (phys +w size) last flags s'
          | x => Some x
          end in
        if (virt mod as_bytes Size1GiB =? 0) && (phys mod as_bytes Size1GiB =? 0) && (remaining >=? as_bytes Size1GiB) then
          go (as_bytes Size1GiB) (map_1gb_page g (virt_new virt) (phys_new phys) flags)
        else if (virt mod as_bytes Size2MiB =? 0) && (phys mod as_bytes Size2MiB =? 0) && (remaining >=? as_bytes Size2MiB) then
          go (as_bytes Size2MiB) (map_2mb_page g (virt_new virt) (phys_new phys) flags)
        else go (as_bytes Size4KiB) (map_page g (virt_new virt) (phys_new phys) flags)
    end.

Definition map_range (fuel : nat) (g : PageTableManager) (virt_start phys_start size flags : Z) (s : machine) : option (outcome (result unit MapError * machine)) :=
  map_range_loop fuel g virt_start phys_start (virt_start +w size) flags s.

Fixpoint unmap_range_loop (fuel : nat) (g : PageTableManager) (virt last : Z) (s : machine) : option (outcome (result unit MapError * machine)) :=
  if negb (virt <? last) then Some (Ret (Ok tt, s))
  else
    match fuel with
    | O => None
    | S f =>
        match unmap_page g (virt_new virt) s with
        | Ret (Ok _, s') | Ret (Err NotMapped, s') => unmap_range_loop f g (virt +w as_bytes Size4KiB) last s'
        | Ret (Err e, s') => Some (Ret (Err e, s'))
        | Panic => Some Panic
        end
    end.

Definition unmap_range (fuel : nat) (g : PageTableManager) (virt_start size : Z) (s : machine) : option (outcome (result unit MapError * machine)) :=
  unmap_range_loop fuel g virt_start (virt_start +w size) s.

(** *** The global manager *)

Definition global_map_page (g : option PageTableManager) (virt phys flags : Z) : M unit :=
  match g with Some g => map_page g virt phys flags | None => mfail InvalidAddress end.
Definition global_unmap_page (g : option PageTableManager) (virt : Z) : M Z :=
  match g with Some g => unmap_page g virt | None => mfail InvalidAddress end.
Definition global_translate (g : option PageTableManager) (s : machine) (virt : Z) : outcome (option Z) :=
  match g with Some g => translate (mapper g) (mem s) (pml4_phys g) virt | None => Ret None end.

End Manager.

(** [HigherHalfManager] *)
Record HigherHalfManager := mkHigherHalf { hh_mapper : Z; kernel_start : Z; kernel_end : Z; next_kernel_addr : Z }.
Definition higher_half_new (off : Z) : HigherHalfManager := mkHigherHalf off (virt_new KERNEL_BASE) (virt_new KERNEL_BASE) KERNEL_HEAP_BASE.
Definition allocate_kernel_virt (h : HigherHalfManager) (pages : Z) : Z * HigherHalfManager :=
  (virt_new (next_kernel_addr h), mkHigherHalf (hh_mapper h) (kernel_start h) (kernel_end h) (next_kernel_addr h +w (pages *w as_bytes Size4KiB))).

End Hh.

(** ** The theorems *)

Module HhSpec.
Import Hh.

(** *** Words and addresses *)

Lemma land_mod (x k : Z) : 0 <= k -> Z.land x (2 ^ k - 1) = x mod 2 ^ k.
Proof. intros Hk. rewrite <- Z.land_ones by done. by rewrite Z.ones_equiv. Qed.

Lemma bit_of (e k : Z) : 0 <= k -> negb (Z.land e (Z.shiftl 1 k) =? 0) = Z.testbit e k.
Proof.
  intros Hk. rewrite Z.shiftl_1_l. destruct (Z.testbit e k) eqn:E.
  - apply negb_true_iff, Z.eqb_neq. intros H0. assert (Ht : Z.testbit (Z.land e (2 ^ k)) k = true) by (rewrite Z.land_spec, E, testbit_single, Z.eqb_refl by done; done).
    rewrite H0, Z.bits_0 in Ht. done.
  - apply negb_false_iff, Z.eqb_eq. apply Z.bits_inj'. intros i Hi. rewrite Z.land_spec, testbit_single, Z.bits_0 by done. destruct (Z.eqb_spec i k) as [->|]; [by rewrite E | by rewrite andb_false_r].
Qed.

Lemma is_present_bit e : is_present e = Z.testbit e 0.
Proof. unfold is_present, PRESENT. by apply bit_of. Qed.
Lemma is_huge_bit e : is_huge e = Z.testbit e 7.
Proof. unfold is_huge, HUGE_PAGE. by apply bit_of. Qed.

(** [x] is the address of an entry. *)
Lemma mask_aligned x : 0 <= x < 2 ^ 52 -> (4096 | x) -> Z.land x ADDR_MASK = x.
Proof.
  intros Hx [q ->]. change ADDR_MASK with (Z.shiftl (Z.ones 40) 12). change 4096 with (2 ^ 12). rewrite <- Z.shiftl_mul_pow2, <- Z.shiftl_land by lia. f_equal.
  rewrite Z.land_ones by lia. apply Z.mod_small. lia.
Qed.

Lemma phys_addr_mask e : phys_addr e = Z.land e ADDR_MASK.
Proof. unfold phys_addr, phys_new. rewrite <- Z.land_assoc. reflexivity. Qed.

Lemma phys_addr_ok e : 0 <= phys_addr e < 2 ^ 52 /\ (4096 | phys_addr e).
Proof.
  rewrite phys_addr_mask. change ADDR_MASK with (Z.shiftl (Z.ones 40) 12). assert (H : Z.land e (Z.shiftl (Z.ones 40) 12) = Z.shiftl (Z.land (Z.shiftr e 12) (Z.ones 40)) 12).
  { apply Z.bits_inj'. intros i Hi. rewrite Z.land_spec, !Z.shiftl_spec by done. destruct (Z.lt_ge_cases i 12); [rewrite !(Z.testbit_neg_r _ (i - 12)) by lia; btauto|].
    rewrite Z.land_spec, Z.shiftr_spec by lia. by replace (i - 12 + 12) with i by lia. }
  rewrite H, Z.shiftl_mul_pow2, Z.land_ones by lia. pose proof (Z.mod_pos_bound (Z.shiftr e 12) (2 ^ 40)). split; [lia|]. by eexists.
Qed.

(** Flags do not reach into the address. *)
Definition flags_ok (f : Z) : Prop := Z.land f ADDR_MASK = 0.

Lemma entry_address x f : Z.land x ADDR_MASK = x -> flags_ok f -> phys_addr (Z.lor x f) = x.
Proof. intros Hx Hf. rewrite phys_addr_mask, Z.land_lor_distr_l, Hx, Hf. apply Z.lor_0_r. Qed.

Lemma flags_ok_lor f f' : flags_ok f -> flags_ok f' -> flags_ok (Z.lor f f').
Proof. unfold flags_ok. intros Hf Hf'. by rewrite Z.land_lor_distr_l, Hf, Hf'. Qed.

Lemma new_entry_spec x f : 0 <= x < 2 ^ 52 -> (4096 | x) -> flags_ok f ->
  let e := entry_new x (flags_set f PRESENT) in is_present e = true /\ phys_addr e = x.
Proof.
  intros Hx Hd Hf. unfold entry_new, flags_set. rewrite mask_aligned by done. split.
  - rewrite is_present_bit, !Z.lor_spec. by rewrite !orb_true_r.
  - apply entry_address; [by apply mask_aligned | by apply flags_ok_lor].
Qed.

Lemma huge_entry_spec x f : 0 <= x < 2 ^ 52 -> (4096 | x) -> flags_ok f ->
  let e := entry_huge x (flags_set f PRESENT) in is_present e = true /\ is_huge e = true /\ phys_addr e = x.
Proof.
  intros Hx Hd Hf. unfold entry_huge, flags_set. rewrite mask_aligned, <- Z.lor_assoc by done. split; [|split].
  - rewrite is_present_bit, !Z.lor_spec. by rewrite !orb_true_r.
  - rewrite is_huge_bit, !Z.lor_spec. by rewrite !orb_true_r.
  - apply entry_address; [by apply mask_aligned|]. apply flags_ok_lor; [by apply flags_ok_lor | done].
Qed.

Lemma table_entry_spec x : 0 <= x < 2 ^ 52 -> (4096 | x) ->
  let e := entry_new x (Z.lor (Z.lor PRESENT WRITABLE) USER) in is_present e = true /\ is_huge e = false /\ phys_addr e = x.
Proof.
  intros Hx Hd. unfold entry_new. rewrite mask_aligned by done. split; [|split].
  - rewrite is_present_bit, Z.lor_spec. by rewrite orb_true_r.
  - rewrite is_huge_bit, Z.lor_spec. destruct Hd as [q ->]. change 4096 with (2 ^ 12). by rewrite Z.mul_pow2_bits_low by lia.
  - apply entry_address; [by apply mask_aligned | done].
Qed.

Lemma set_flags_spec e f : flags_ok f -> phys_addr (set_flags e (flags_set f PRESENT)) = phys_addr e /\ is_present (set_flags e (flags_set f PRESENT)) = true.
Proof.
  intros Hf. unfold set_flags, flags_set. rewrite <- phys_addr_mask. destruct (phys_addr_ok e) as [Hb Hd]. split.
  - apply entry_address; [by apply mask_aligned | by apply flags_ok_lor].
  - rewrite is_present_bit, !Z.lor_spec. by rewrite !orb_true_r.
Qed.

(** *** Indices *)

(** The bytes an entry at depth [k] of the tables stands for *)
Definition span (k : nat) : Z := 2 ^ (39 - 9 * Z.of_nat k).

Lemma idx_div v k : (k < 4)%nat -> idx v k = (v / span k) mod 512.
Proof.
  intros Hk. unfold idx, page_table_indices, span. change 0x1FF with (2 ^ 9 - 1). do 4 (destruct k as [|k]; [cbn [nth]; rewrite land_mod, Z.shiftr_div_pow2 by lia; reflexivity|]). lia.
Qed.

Lemma idx_range v k : (k < 4)%nat -> 0 <= idx v k < 512.
Proof. intros Hk. rewrite idx_div by done. apply Z.mod_pos_bound. lia. Qed.

Lemma indices_idx v : page_table_indices v = [idx v 0; idx v 1; idx v 2; idx v 3].
Proof. reflexivity. Qed.

Lemma top_index a b : is_canonical a -> is_canonical b -> idx a 0 = idx b 0 <-> a / span 0 = b / span 0.
Proof.
  intros Ha Hb. rewrite !idx_div by lia. split; [|by intros ->]. unfold is_canonical, span in *. change (2 ^ (39 - 9 * Z.of_nat 0)) with (2 ^ 39).
  assert (Hc : forall c, 0 <= c < 2 ^ 47 \/ 2 ^ 64 - 2 ^ 47 <= c < 2 ^ 64 -> 0 <= c / 2 ^ 39 < 256 \/ 2 ^ 25 - 256 <= c / 2 ^ 39 < 2 ^ 25).
  { intros c [H|H]; [left | right]; (split; [apply Z.div_le_lower_bound | apply Z.div_lt_upper_bound]; lia). }
  pose proof (Hc a Ha). pose proof (Hc b Hb). clear Ha Hb Hc. intros E. Z.div_mod_to_equations. lia.
Qed.

Lemma next_index a b k : (k < 3)%nat -> a / span k = b / span k -> idx a (S k) = idx b (S k) <-> a / span (S k) = b / span (S k).
Proof.
  intros Hk E. rewrite !idx_div by lia. split; [|by intros ->]. assert (Hs : span k = span (S k) * 512).
  { unfold span. change 512 with (2 ^ 9). rewrite <- Z.pow_add_r by lia. f_equal. lia. }
  assert (Hp : 0 < span (S k)) by (apply Z.pow_pos_nonneg; lia). rewrite Hs, <- !Z.div_div in E by lia. intros Em.
  rewrite (Z.div_mod (a / span (S k)) 512), (Z.div_mod (b / span (S k)) 512) by lia. lia.
Qed.

(** Addresses with the same first indices are in the same region. *)
Lemma same_path a b k : (k < 4)%nat -> is_canonical a -> is_canonical b ->
  take (S k) (page_table_indices a) = take (S k) (page_table_indices b) <-> a / span k = b / span k.
Proof.
  intros Hk Ha Hb. rewrite !indices_idx. induction k as [|k IH].
  - cbn [take]. rewrite <- top_index by done. split; [by intros [=] | by intros ->].
  - assert (Hup : a / span (S k) = b / span (S k) -> a / span k = b / span k).
    { assert (Hs : span k = span (S k) * 512) by (unfold span; change 512 with (2 ^ 9); rewrite <- Z.pow_add_r by lia; f_equal; lia).
      assert (Hp : 0 < span (S k)) by (apply Z.pow_pos_nonneg; lia). intros E. by rewrite Hs, <- !Z.div_div, E by lia. }
    specialize (IH ltac:(lia)). assert (Hsplit : forall c, take (S (S k)) [idx c 0; idx c 1; idx c 2; idx c 3] = take (S k) [idx c 0; idx c 1; idx c 2; idx c 3] ++ [idx c (S k)]).
    { intros c. do 3 (destruct k as [|k]; [reflexivity|]). lia. }
    rewrite !Hsplit. split.
    + intros E. apply app_inj_2 in E as [E1 E2]; [|done]. injection E2 as E2. apply IH in E1. by apply next_index in E2; [|lia|].
    + intros E. pose proof (Hup E) as E1. apply IH in E1 as E3. rewrite E3. f_equal. f_equal. by apply next_index; [lia | |].
Qed.

(** *** Tables in memory *)

(** A frame the linear mapping reaches *)
Definition table_at (t : Z) : Prop := 0 <= t < MAPPED_LIMIT /\ (4096 | t).

Lemma virt_new_high a : 2 ^ 64 - 2 ^ 47 <= a < 2 ^ 64 -> virt_new a = a.
Proof.
  intros Ha. set (x := a - (2 ^ 64 - 2 ^ 47)). assert (Hx : 0 <= x < 2 ^ 47) by lia. assert (E : a = Z.lor (Z.shiftl (Z.ones 17) 47) x).
  { rewrite <- Z.lxor_lor, <- Z.add_nocarry_lxor; [change (Z.shiftl (Z.ones 17) 47) with (2 ^ 64 - 2 ^ 47); lia | |];
    (apply Z.bits_inj'; intros i Hi; rewrite Z.land_spec, Z.shiftl_spec, Z.bits_0 by done; destruct (Z.lt_ge_cases i 47); [by rewrite Z.testbit_neg_r by lia|];
     rewrite <- (Z.mod_small x (2 ^ 47)), Z.mod_pow2_bits_high by lia; apply andb_false_r). }
  unfold virt_new. rewrite bit_of by lia. rewrite E at 1. rewrite Z.lor_spec, Z.shiftl_spec by lia. change (Z.testbit (Z.ones 17) (47 - 47)) with true. cbn [orb].
  rewrite E, <- Z.lor_assoc, (Z.lor_comm x), Z.lor_assoc. by change (Z.lor (Z.shiftl (Z.ones 17) 47) 0xFFFF000000000000) with (Z.shiftl (Z.ones 17) 47).
Qed.

Abbreviation OFF := PHYSICAL_MEMORY_OFFSET.

Lemma table_virt t : table_at t -> phys_to_virt OFF t = t + OFF.
Proof.
  intros [Ht _]. unfold phys_to_virt, OFF, MAPPED_LIMIT in *. rewrite wrap64_small by (unfold is_u64, u64_modulus; lia). apply virt_new_high. lia.
Qed.

Lemma word_inj t t' i i' : table_at t -> table_at t' -> 0 <= i < 512 -> 0 <= i' < 512 ->
  phys_to_virt OFF t + 8 * i = phys_to_virt OFF t' + 8 * i' <-> t = t' /\ i = i'.
Proof. intros Ht Ht' Hi Hi'. rewrite !table_virt by done. destruct Ht as [_ [q ->]], Ht' as [_ [q' ->]]. lia. Qed.

Lemma entry_set m t i e t' i' : table_at t -> table_at t' -> 0 <= i < 512 -> 0 <= i' < 512 ->
  entry OFF (set_entry OFF m t i e) t' i' = if decide (t = t' /\ i = i') then Ret e else entry OFF m t' i'.
Proof.
  intros Ht Ht' Hi Hi'. unfold entry, set_entry. destruct (decide (t = t' /\ i = i')) as [[-> ->]|Hne]; [by rewrite lookup_insert, decide_True|].
  rewrite lookup_insert_ne; [done|]. intros E. by apply word_inj in E.
Qed.

Lemma entry_clear m t t' i' : table_at t -> table_at t' -> 0 <= i' < 512 ->
  entry OFF (clear_table OFF m t) t' i' = if decide (t = t') then Ret 0 else entry OFF m t' i'.
Proof.
  intros Ht Ht' Hi'. unfold clear_table.
  assert (H : forall n, (n <= 512)%nat -> entry OFF (foldl (fun m' i => set_entry OFF m' t i 0) m (seqZ 0 (Z.of_nat n))) t' i' = if decide (t = t' /\ i' < Z.of_nat n) then Ret 0 else entry OFF m t' i').
  { induction n as [|n IH]; intros Hn; [cbn; rewrite decide_False by lia; done|].
    replace (Z.of_nat (S n)) with (Z.of_nat n + 1) by lia. rewrite seqZ_app by lia. rewrite foldl_app. change (seqZ (0 + Z.of_nat n) 1) with [0 + (0 + Z.of_nat n)]. cbn [foldl].
    rewrite entry_set, IH by (done || lia). destruct (decide (t = t')) as [->|Hne].
    - repeat case_decide; try done; lia.
    - rewrite !decide_False by tauto. done. }
  change 512 with (Z.of_nat 512) at 1. rewrite (H 512%nat) by lia. destruct (decide (t = t')) as [->|]; [rewrite decide_True by lia | rewrite decide_False by tauto]; done.
Qed.

(** *** The invariant

    [tabs] gives the table for the first indices of an address: the tables form a
    tree in which each is reached by one path only. *)

Definition child (k : nat) (e : Z) : option Z := if (k <? 3)%nat && is_present e && negb (is_huge e) then Some (phys_addr e) else None.

Definition entry_ok (k : nat) (e : Z) : Prop :=
  is_present e = true -> is_huge e = true -> (k = 0%nat -> False) /\ (k = 1%nat -> (span 1 | phys_addr e)) /\ (k = 2%nat -> (span 2 | phys_addr e)).

Section Spec.
Context `{P : X86Paging} `{F : !FrameSource} `{LF : !FrameSourceLaws}.

Record tables_ok (g : PageTableManager) (s : machine) (tabs : gmap (list Z) Z) : Prop := {
  t_off : mapper g = OFF;
  t_root : tabs !! [] = Some (pml4_phys g);
  t_table : forall p t, tabs !! p = Some t -> (length p <= 3)%nat /\ table_at t /\ ~ fs_free (frames s) t;
  t_inj : forall p q t, tabs !! p = Some t -> tabs !! q = Some t -> p = q;
  t_closed : forall p i, is_Some (tabs !! (p ++ [i])) -> is_Some (tabs !! p) /\ 0 <= i < 512;
  t_entry : forall p t i, tabs !! p = Some t -> 0 <= i < 512 -> exists e, entry OFF (mem s) t i = Ret e /\ entry_ok (length p) e /\ tabs !! (p ++ [i]) = child (length p) e;
  t_frames : fs_inv (frames s) }.

(** *** Walks *)

Definition leaf (k : nat) (e : Z) : bool := (3 <=? k)%nat || (1 <=? k)%nat && is_huge e.

(** The leaf an address reaches from a table at depth [k] *)
Fixpoint walk (m : words) (k : nat) (t : Z) (ix : list Z) : outcome (option (Z * nat)) :=
  match ix with
  | [] => Ret None
  | i :: ix' =>
      let! e := entry OFF m t i in
      if negb (is_present e) then Ret None else if leaf k e then Ret (Some (e, k)) else walk m (S k) (phys_addr e) ix'
  end.

(** The address space: the physical address and the size of the page *)
Definition aspace (g : PageTableManager) (s : machine) (v : Z) : option (Z * Z) :=
  match walk (mem s) 0 (pml4_phys g) (page_table_indices v) with
  | Ret (Some (e, k)) => Some (phys_addr e + v mod span k, span k)
  | _ => None
  end.

Definition path_ok (ix : list Z) : Prop := Forall (fun i => 0 <= i < 512) ix.

Lemma indices_ok v : path_ok (page_table_indices v).
Proof. rewrite indices_idx. repeat constructor; apply idx_range; lia. Qed.

Lemma child_some k e : is_present e = true -> entry_ok k e -> leaf k e = false -> child k e = Some (phys_addr e).
Proof.
  intros Hp He Hl. unfold leaf in Hl. unfold child. rewrite Hp. destruct (Nat.leb_spec 3 k); [done|]. rewrite (proj2 (Nat.ltb_lt _ _)) by lia. cbn [andb orb] in *. destruct (is_huge e) eqn:Eh; [|done].
  destruct (He Hp Eh) as [H0 _]. destruct k; [by destruct H0 | done].
Qed.

Lemma child_leaf k e : is_present e = true -> child k e = None -> leaf k e = true \/ k = 0%nat /\ is_huge e = true.
Proof.
  unfold leaf, child. intros ->. destruct (Nat.leb_spec 3 k); [by left|]. rewrite (proj2 (Nat.ltb_lt _ _)) by lia. cbn [andb orb]. destruct (is_huge e); [|done]. destruct k; [by right | by left].
Qed.

Lemma walk_returns g s tabs p t ix : tables_ok g s tabs -> tabs !! p = Some t -> path_ok ix -> (length p + length ix = 4)%nat ->
  exists r, walk (mem s) (length p) t ix = Ret r /\ match r with Some (e, k) => is_present e = true /\ leaf k e = true /\ entry_ok k e /\ (1 <= k <= 3)%nat | None => True end.
Proof.
  intros Hok. revert p t. induction ix as [|i ix IH]; intros p t Hp Hix Hl; [by exists None|]. inversion Hix as [|? ? Hi Hix']; subst. cbn [walk length] in *.
  destruct (t_entry _ _ _ Hok p t i Hp Hi) as (e & -> & He & Hc). cbn [obind]. destruct (is_present e) eqn:Ep; cbn [negb]; [|by exists None].
  destruct (leaf (length p) e) eqn:El; [exists (Some (e, length p)); split; [done|]; split_and!; try done; [|lia]; unfold leaf in El; destruct (length p); [done | lia]|].
  rewrite (child_some _ _ Ep He El) in Hc. replace (S (length p)) with (length (p ++ [i])) by (rewrite length_app; cbn; lia). apply (IH _ _ Hc Hix'). rewrite length_app. cbn. lia.
Qed.

(** A walk only depends on the entries on its path. *)
Lemma walk_frame g s s' tabs tabs' p t ix : tables_ok g s tabs -> tables_ok g s' tabs' -> tabs !! p = Some t -> path_ok ix -> (length p + length ix = 4)%nat ->
  (forall q i suf t', ix = q ++ i :: suf -> tabs !! (p ++ q) = Some t' -> entry OFF (mem s') t' i = entry OFF (mem s) t' i) ->
  walk (mem s') (length p) t ix = walk (mem s) (length p) t ix.
Proof.
  intros Hok Hok'. revert p t. induction ix as [|i ix IH]; intros p t Hp Hix Hl Hf; [done|]. inversion Hix as [|? ? Hi Hix']; subst. cbn [walk length] in *.
  rewrite (Hf [] i ix t eq_refl) by by rewrite app_nil_r. destruct (t_entry _ _ _ Hok p t i Hp Hi) as (e & -> & He & Hc). cbn [obind]. destruct (is_present e) eqn:Ep; [|done]. cbn [negb].
  destruct (leaf (length p) e) eqn:El; [done|]. rewrite (child_some _ _ Ep He El) in Hc. replace (S (length p)) with (length (p ++ [i])) by (rewrite length_app; cbn; lia).
  apply IH; [done | done | rewrite length_app; cbn; lia|]. intros q j suf t' -> Ht'. apply (Hf (i :: q) j suf); [done|]. by rewrite <- app_assoc in Ht'.
Qed.

(** A walk through a table continues there. *)
Lemma walk_through g s tabs p t q t' ix : tables_ok g s tabs -> tabs !! p = Some t -> tabs !! (p ++ q) = Some t' ->
  walk (mem s) (length p) t (q ++ ix) = walk (mem s) (length (p ++ q)) t' ix.
Proof.
  intros Hok. revert p t. induction q as [|i q IH]; intros p t Hp Hq; [rewrite app_nil_r in *; cbn; congruence|].
  assert (Hpre : forall r, is_Some (tabs !! ((p ++ [i]) ++ r)) -> is_Some (tabs !! (p ++ [i]))).
  { intros r. induction r as [|x r IHr] using rev_ind; [by rewrite app_nil_r|]. rewrite app_assoc. intros Hs. by apply IHr, (t_closed _ _ _ Hok _ x). }
  assert (Hs : is_Some (tabs !! (p ++ [i]))) by (apply (Hpre q); rewrite <- app_assoc; by exists t'). destruct (t_closed _ _ _ Hok _ _ Hs) as [_ Hi]. destruct Hs as [c Hcc].
  cbn [app walk]. destruct (t_entry _ _ _ Hok p t i Hp Hi) as (e & -> & He & Hc). cbn [obind]. rewrite Hcc in Hc. unfold child in Hc. destruct (Nat.ltb_spec (length p) 3); [|done]. destruct (is_present e); [|done].
  destruct (is_huge e) eqn:Eh; [done|]. cbn [andb negb] in *. injection Hc as Hc. unfold leaf. rewrite Eh, andb_false_r, (proj2 (Nat.leb_gt 3 (length p))) by lia. cbn [orb].
  replace (S (length p)) with (length (p ++ [i])) by (rewrite length_app; cbn; lia). replace (p ++ i :: q) with ((p ++ [i]) ++ q) in Hq |- * by by rewrite <- app_assoc. apply IH; [congruence | done].
Qed.

(** The walker of the source reads the address space. *)
Lemma base_offset b k : 0 <= b < 2 ^ 52 -> (1 <= k <= 3)%nat -> (span k | b) -> forall v, Z.land b (not64 (span k - 1)) +w Z.land v (span k - 1) = b + v mod span k /\ phys_new (b + v mod span k) = b + v mod span k.
Proof.
  intros Hb Hk [q Hq] v. unfold span in *. set (n := 39 - 9 * Z.of_nat k) in *. assert (Hn : 0 <= n <= 39) by lia. assert (Hp : 0 < 2 ^ n) by (apply Z.pow_pos_nonneg; lia).
  assert (Hp' : 2 ^ n <= 2 ^ 39) by (apply Z.pow_le_mono_r; lia). assert (Hp52 : 2 ^ 52 = 2 ^ (52 - n) * 2 ^ n) by (rewrite <- Z.pow_add_r by lia; f_equal; lia).
  pose proof (Z.mod_pos_bound v (2 ^ n) Hp). assert (Hq' : q < 2 ^ (52 - n)) by (apply (Z.mul_lt_mono_pos_r (2 ^ n)); lia).
  assert (Hlt : b + v mod 2 ^ n < 2 ^ 52).
  { rewrite Hp52, Hq. assert ((q + 1) * 2 ^ n <= 2 ^ (52 - n) * 2 ^ n) by (apply Z.mul_le_mono_nonneg_r; lia). lia. }
  replace (2 ^ n - 1) with (Z.ones n) by (rewrite Z.ones_equiv; lia). rewrite land_not_ones by (unfold u64_modulus; lia). rewrite Z.land_ones by lia. replace (b mod 2 ^ n) with 0 by (rewrite Hq, Z.mod_mul; lia).
  rewrite Z.sub_0_r. split; [apply wrap64_small; unfold is_u64, u64_modulus; lia|]. unfold phys_new, PHYS_MAX. change (Z.shiftl 1 52 - 1) with (2 ^ 52 - 1). rewrite land_mod by lia. apply Z.mod_small. lia.
Qed.

Lemma translate_walk m r v : translate OFF m r v =
  let! x := walk m 0 r (page_table_indices v) in
  Ret match x with
      | Some (e, 1%nat) => Some (phys_new (Z.land (phys_addr e) (not64 (as_bytes Size1GiB - 1)) +w Z.land v (as_bytes Size1GiB - 1)))
      | Some (e, 2%nat) => Some (phys_new (Z.land (phys_addr e) (not64 (as_bytes Size2MiB - 1)) +w Z.land v (as_bytes Size2MiB - 1)))
      | Some (e, _) => Some (phys_new (phys_addr e +w page_offset v))
      | None => None
      end.
Proof.
  unfold translate. rewrite indices_idx. cbn [walk]. destruct (entry OFF m r (idx v 0)) as [e0|]; [|done]. cbn [obind]. destruct (is_present e0); [|done]. cbn [negb leaf Nat.leb andb orb].
  destruct (entry OFF m _ (idx v 1)) as [e1|]; [|done]. cbn [obind]. destruct (is_present e1); [|done]. cbn [negb leaf Nat.leb andb orb]. destruct (is_huge e1); [done|].
  destruct (entry OFF m _ (idx v 2)) as [e2|]; [|done]. cbn [obind]. destruct (is_present e2); [|done]. cbn [negb leaf Nat.leb andb orb]. destruct (is_huge e2); [done|].
  destruct (entry OFF m _ (idx v 3)) as [e3|]; [|done]. cbn [obind]. by destruct (is_present e3).
Qed.

Lemma translate_aspace g s tabs v : tables_ok g s tabs -> translate (mapper g) (mem s) (pml4_phys g) v = Ret (fst <$> aspace g s v).
Proof.
  intros Hok. rewrite (t_off _ _ _ Hok), translate_walk. unfold aspace. destruct (walk_returns _ _ _ [] _ (page_table_indices v) Hok (t_root _ _ _ Hok) (indices_ok v) eq_refl) as (r & Hw & Hr).
  cbn [length] in Hw. rewrite Hw. cbn [obind]. destruct r as [[e k]|]; [|done]. destruct Hr as (Hp & Hl & He & Hk). f_equal. cbn [fmap option_fmap option_map fst]. destruct (phys_addr_ok e) as [Hb Hd].
  assert (Hs : (span k | phys_addr e)).
  { unfold leaf in Hl. destruct (decide (k = 3%nat)) as [->|]; [done|]. rewrite (proj2 (Nat.leb_gt 3 k)), (proj2 (Nat.leb_le 1 k)) in Hl by lia. cbn in Hl. destruct (He Hp Hl) as (_ & H1 & H2). assert (k = 1%nat \/ k = 2%nat) as [->| ->] by lia; auto. }
  destruct (base_offset _ k Hb Hk Hs v) as [E1 E2]. assert (k = 1%nat \/ k = 2%nat \/ k = 3%nat) as [->|[->| ->]] by lia.
  { change (as_bytes Size1GiB) with (span 1). by rewrite E1, E2. }
  { change (as_bytes Size2MiB) with (span 2). by rewrite E1, E2. }
  rewrite <- E2, <- E1. do 2 f_equal. unfold page_offset. change 4095 with (span 3 - 1). f_equal. destruct Hd as [q Hq]. change (span 3 - 1) with (Z.ones 12). rewrite land_not_ones by (unfold u64_modulus; lia). rewrite Hq. change (2 ^ 12) with 4096. rewrite Z.mod_mul by lia. by rewrite Z.sub_0_r.
Qed.

(** *** Writing an entry *)

Definition put_entry (s : machine) (t i e : Z) : machine := mkMachine (set_entry OFF (mem s) t i e) (frames s) (invalidated s).

Lemma put_entry_lookup g s tabs p t i e q t' i' : tables_ok g s tabs -> tabs !! p = Some t -> 0 <= i < 512 -> tabs !! q = Some t' -> 0 <= i' < 512 ->
  entry OFF (mem (put_entry s t i e)) t' i' = if decide (p = q /\ i = i') then Ret e else entry OFF (mem s) t' i'.
Proof.
  intros Hok Hp Hi Hq Hi'. destruct (t_table _ _ _ Hok _ _ Hp) as (_ & Ht & _). destruct (t_table _ _ _ Hok _ _ Hq) as (_ & Ht' & _). cbn. rewrite entry_set by done.
  destruct (decide (t = t' /\ i = i')) as [[-> ->]|Hne]; [rewrite decide_True; [done|]; split; [by eapply t_inj | done]|]. rewrite decide_False; [done|]. intros [-> ->]. apply Hne. split; [congruence | done].
Qed.

(** An entry that was and is no table may change. *)
Lemma write_leaf g s tabs p t i e :
  tables_ok g s tabs -> tabs !! p = Some t -> (1 <= length p)%nat -> 0 <= i < 512 -> tabs !! (p ++ [i]) = None -> child (length p) e = None -> entry_ok (length p) e ->
  tables_ok g (put_entry s t i e) tabs /\
  forall v, aspace g (put_entry s t i e) v =
    if decide (take (S (length p)) (page_table_indices v) = p ++ [i]) then if is_present e then Some (phys_addr e + v mod span (length p), span (length p)) else None else aspace g s v.
Proof.
  intros Hok Hp Hl Hi Hn Hc He. assert (Hok' : tables_ok g (put_entry s t i e) tabs).
  { destruct Hok as [O1 O2 O3 O4 O5 O6 O7]. split; try done. intros q t' j Hq Hj.
    rewrite (put_entry_lookup g s tabs p t i e q t' j) by (done || by split). case_decide as Hd; [|by apply O6]. destruct Hd as [<- <-]. exists e. rewrite Hn, Hc. done. }
  split; [done|]. intros v. unfold aspace. destruct (t_table _ _ _ Hok _ _ Hp) as (Hl3 & _ & _). set (ix := page_table_indices v). assert (Hix : path_ok ix) by apply indices_ok. assert (Hlx : length ix = 4%nat) by done.
  destruct (decide (take (S (length p)) ix = p ++ [i])) as [E|Hne].
  - assert (Es : ix = p ++ i :: drop (S (length p)) ix) by (rewrite <- (take_drop (S (length p)) ix) at 1; rewrite E, <- app_assoc; done). rewrite Es.
    pose proof (walk_through g _ tabs [] _ p t (i :: drop (S (length p)) ix) Hok' (t_root _ _ _ Hok') Hp) as Hw. cbn [length app] in Hw. rewrite Hw. cbn [walk].
    rewrite (put_entry_lookup g s tabs p t i e p t i), decide_True by done. cbn [obind]. destruct (is_present e) eqn:Ep; [|done]. cbn [negb].
    destruct (child_leaf _ _ Ep Hc) as [->|[H0 _]]; [done | lia].
  - pose proof (walk_frame g s (put_entry s t i e) tabs tabs [] _ ix Hok Hok' (t_root _ _ _ Hok) Hix) as Hw. cbn [length] in Hw. rewrite Hw; [done | done|].
    intros q j suf t' Es Hq. cbn [app] in Hq. assert (Hj : 0 <= j < 512) by (unfold path_ok in Hix; rewrite Es in Hix; apply Forall_app in Hix as [_ Hix]; by inversion Hix).
    rewrite (put_entry_lookup g s tabs p t i e q t' j) by done. rewrite decide_False; [done|]. intros [<- <-]. apply Hne. rewrite Es. change (p ++ i :: suf) with (p ++ [i] ++ suf). rewrite app_assoc. apply take_app_length'. rewrite length_app. cbn. lia.
Qed.

(** *** A new table *)

Definition hang_table (s : machine) (fr : fs_state) (t i n : Z) : machine :=
  mkMachine (set_entry OFF (clear_table OFF (mem s) n) t i (entry_new n (Z.lor (Z.lor PRESENT WRITABLE) USER))) fr (invalidated s).

Lemma snoc_inj {A} (p q : list A) i j : p ++ [i] = q ++ [j] <-> p = q /\ i = j.
Proof. split; [|by intros [-> ->]]. intros E. apply app_inj_2 in E as [-> E]; [|done]. by injection E as ->. Qed.

Lemma fresh_table g s tabs n : tables_ok g s tabs -> fs_free (frames s) n -> forall q, tabs !! q <> Some n.
Proof. intros Hok Hf q Hq. by destruct (t_table _ _ _ Hok _ _ Hq) as (_ & _ & Hn). Qed.

Lemma hang_table_lookup g s tabs fr p t i n q t' j : tables_ok g s tabs -> tabs !! p = Some t -> 0 <= i < 512 -> table_at n -> fs_free (frames s) n -> tabs !! q = Some t' -> 0 <= j < 512 ->
  entry OFF (mem (hang_table s fr t i n)) t' j = if decide (p = q /\ i = j) then Ret (entry_new n (Z.lor (Z.lor PRESENT WRITABLE) USER)) else entry OFF (mem s) t' j.
Proof.
  intros Hok Hp Hi Hn Hf Hq Hj. destruct (t_table _ _ _ Hok _ _ Hp) as (_ & Ht & _). destruct (t_table _ _ _ Hok _ _ Hq) as (_ & Ht' & _). cbn. rewrite entry_set by done.
  destruct (decide (t = t' /\ i = j)) as [[-> ->]|Hne]; [rewrite decide_True; [done|]; split; [by eapply t_inj | done]|]. rewrite decide_False; [|intros [-> ->]; apply Hne; split; [congruence | done]].
  rewrite entry_clear, decide_False by (done || intros ->; by eapply fresh_table). done.
Qed.

Lemma hang_table_new g s tabs fr p t i n j : tables_ok g s tabs -> tabs !! p = Some t -> 0 <= i < 512 -> table_at n -> fs_free (frames s) n -> 0 <= j < 512 ->
  entry OFF (mem (hang_table s fr t i n)) n j = Ret 0.
Proof.
  intros Hok Hp Hi Hn Hf Hj. destruct (t_table _ _ _ Hok _ _ Hp) as (_ & Ht & _). cbn. rewrite entry_set by done. rewrite decide_False by (intros [-> _]; by eapply fresh_table). by rewrite entry_clear, decide_True.
Qed.

Lemma hang_table_ok g s tabs fr p t i n e :
  tables_ok g s tabs -> tabs !! p = Some t -> (length p <= 2)%nat -> 0 <= i < 512 -> entry OFF (mem s) t i = Ret e -> is_present e = false ->
  table_at n -> fs_free (frames s) n -> fs_inv fr -> ~ fs_free fr n -> (forall a, fs_free fr a -> fs_free (frames s) a) ->
  tables_ok g (hang_table s fr t i n) (<[p ++ [i] := n]> tabs).
Proof.
  intros Hok Hp Hl Hi Ee Ep Hn Hf Hinv Hnf Hmono. assert (Hnone : tabs !! (p ++ [i]) = None).
  { destruct (t_entry _ _ _ Hok p t i Hp Hi) as (e' & Ee' & _ & ->). assert (e' = e) as -> by congruence. unfold child. by rewrite Ep, andb_false_r. }
  assert (Hpp : p ++ [i] <> p) by (intros E; apply (f_equal length) in E; rewrite length_app in E; cbn in E; lia).
  destruct (table_entry_spec n) as (E1 & E2 & E3); [destruct Hn; unfold MAPPED_LIMIT in *; lia | by destruct Hn|].
  split; cbn [frames hang_table mem].
  - apply (t_off _ _ _ Hok).
  - rewrite lookup_insert_ne by (by destruct p). apply (t_root _ _ _ Hok).
  - intros q t' Hq. apply lookup_insert_Some in Hq as [[<- <-]|[_ Hq]]; [rewrite length_app; cbn; split_and!; [lia | done | done]|]. destruct (t_table _ _ _ Hok _ _ Hq) as (? & ? & Hfr). split_and!; [done | done|]. intros Ha. by apply Hfr, Hmono.
  - intros q q' t' Hq Hq'. apply lookup_insert_Some in Hq as [[<- <-]|[Hne Hq]]; apply lookup_insert_Some in Hq' as [[<- E]|[Hne' Hq']]; try done.
    + by destruct (fresh_table g s tabs n Hok Hf q').
    + subst. by destruct (fresh_table g s tabs t' Hok Hf q).
    + by apply (t_inj _ _ _ Hok q q' t').
  - intros q j Hs. destruct (decide (p ++ [i] = q ++ [j])) as [E|Hne]; [apply snoc_inj in E as [<- <-]; rewrite lookup_insert_ne by done; by rewrite Hp|].
    rewrite lookup_insert_ne in Hs by done. destruct (t_closed _ _ _ Hok _ _ Hs) as [[t' Ht'] Hj]. split; [|done]. destruct (decide (p ++ [i] = q)) as [<-|]; [by rewrite Hnone in Ht'|]. rewrite lookup_insert_ne by done. by exists t'.
  - intros q t' j Hq Hj. apply lookup_insert_Some in Hq as [[<- <-]|[Hne Hq]].
    + exists 0. split; [by apply (hang_table_new g s tabs fr p t)|]. split; [done|]. rewrite lookup_insert_ne by (intros E; apply (f_equal length) in E; rewrite !length_app in E; cbn in E; lia).
      change (child (length (p ++ [i])) 0) with (if (length (p ++ [i]) <? 3)%nat && is_present 0 && negb (is_huge 0) then Some (phys_addr 0) else None). rewrite andb_false_r. cbn.
      destruct (tabs !! ((p ++ [i]) ++ [j])) eqn:E; [|done]. destruct (t_closed _ _ _ Hok (p ++ [i]) j) as [[? Hx] _]; [by exists z | by rewrite Hnone in Hx].
    + pose proof (hang_table_lookup g s tabs fr p t i n q t' j Hok Hp Hi Hn Hf Hq Hj) as Hlk. cbn in Hlk. rewrite Hlk.
      destruct (decide (p = q /\ i = j)) as [[<- <-]|Hd].
      * exists (entry_new n (Z.lor (Z.lor PRESENT WRITABLE) USER)). split; [done|]. split; [intros _; by rewrite E2|]. rewrite lookup_insert, decide_True by done. unfold child. rewrite E1, E2, E3, (proj2 (Nat.ltb_lt _ _)) by lia. done.
      * rewrite lookup_insert_ne by (rewrite snoc_inj; tauto). by apply (t_entry _ _ _ Hok).
  - done.
Qed.

Lemma hang_table_aspace g s tabs fr p t i n e :
  tables_ok g s tabs -> tabs !! p = Some t -> (length p <= 2)%nat -> 0 <= i < 512 -> entry OFF (mem s) t i = Ret e -> is_present e = false ->
  table_at n -> fs_free (frames s) n -> tables_ok g (hang_table s fr t i n) (<[p ++ [i] := n]> tabs) ->
  forall v, aspace g (hang_table s fr t i n) v = aspace g s v.
Proof.
  intros Hok Hp Hl Hi Ee Ep Hn Hf Hok' v. unfold aspace. set (ix := page_table_indices v). assert (Hix : path_ok ix) by apply indices_ok. assert (Hlx : length ix = 4%nat) by done.
  destruct (decide (take (S (length p)) ix = p ++ [i])) as [E|Hne].
  - assert (Es : ix = p ++ i :: drop (S (length p)) ix) by (rewrite <- (take_drop (S (length p)) ix) at 1; rewrite E, <- app_assoc; done).
    assert (Hld : length (drop (S (length p)) ix) = (3 - length p)%nat) by (rewrite length_drop; lia). destruct (drop (S (length p)) ix) as [|j suf]; [cbn in Hld; lia|].
    assert (Hj : 0 <= j < 512) by (unfold path_ok in Hix; rewrite Es in Hix; apply Forall_app in Hix as [_ Hix]; inversion Hix as [|? ? _ Hx]; by inversion Hx). rewrite Es.
    pose proof (walk_through g s tabs [] _ p t (i :: j :: suf) Hok (t_root _ _ _ Hok) Hp) as Hw. cbn [length app] in Hw. rewrite Hw. cbn [walk]. rewrite Ee. cbn [obind]. rewrite Ep. cbn [negb].
    pose proof (walk_through g _ _ [] _ (p ++ [i]) n (j :: suf) Hok' (t_root _ _ _ Hok')) as Hw'. cbn [length app] in Hw'. rewrite <- app_assoc in Hw'. cbn [app] in Hw'. rewrite Hw' by by rewrite lookup_insert, decide_True.
    cbn [walk]. by rewrite (hang_table_new g s tabs fr p t i n j).
  - pose proof (walk_frame g s _ tabs _ [] _ ix Hok Hok' (t_root _ _ _ Hok) Hix) as Hw. cbn [length] in Hw. rewrite Hw; [done | done|].
    intros q j suf t' Es Hq. cbn [app] in Hq. assert (Hj : 0 <= j < 512) by (unfold path_ok in Hix; rewrite Es in Hix; apply Forall_app in Hix as [_ Hix]; by inversion Hix).
    rewrite (hang_table_lookup g s tabs fr p t i n q t' j) by done. rewrite decide_False; [done|]. intros [<- <-]. apply Hne. rewrite Es. change (p ++ i :: suf) with (p ++ [i] ++ suf). rewrite app_assoc. apply take_app_length'. rewrite length_app. cbn. lia.
Qed.

(** *** The operations of the manager *)

Lemma bind_ok {A B} (m : M A) (k : A -> M B) s a s' : m s = Ret (Ok a, s') -> mbind m k s = k a s'.
Proof. unfold mbind. by intros ->. Qed.
Lemma bind_err {A B} (m : M A) (k : A -> M B) s e s' : m s = Ret (Err e, s') -> mbind m k s = Ret (Err e, s').
Proof. unfold mbind. by intros ->. Qed.

(** What an entry that is no table means for the addresses below it *)
Lemma aspace_entry g s tabs p t i e v :
  tables_ok g s tabs -> tabs !! p = Some t -> entry OFF (mem s) t i = Ret e -> take (S (length p)) (page_table_indices v) = p ++ [i] -> is_present e = false \/ leaf (length p) e = true ->
  aspace g s v = if is_present e then Some (phys_addr e + v mod span (length p), span (length p)) else None.
Proof.
  intros Hok Hp Ee E Hl. unfold aspace. set (ix := page_table_indices v) in *. assert (Es : ix = p ++ i :: drop (S (length p)) ix) by (rewrite <- (take_drop (S (length p)) ix) at 1; rewrite E, <- app_assoc; done). rewrite Es.
  pose proof (walk_through g s tabs [] _ p t (i :: drop (S (length p)) ix) Hok (t_root _ _ _ Hok) Hp) as Hw. cbn [length app] in Hw. rewrite Hw. cbn [walk]. rewrite Ee. cbn [obind].
  destruct Hl as [->| ->]; [done|]. by destruct (is_present e).
Qed.

Lemma read_spec g s tabs p t i : tables_ok g s tabs -> tabs !! p = Some t -> 0 <= i < 512 ->
  exists e, read_entry g t i s = Ret (Ok e, s) /\ entry OFF (mem s) t i = Ret e /\ entry_ok (length p) e /\ tabs !! (p ++ [i]) = child (length p) e.
Proof. intros Hok Hp Hi. destruct (t_entry _ _ _ Hok p t i Hp Hi) as (e & Ee & H). exists e. unfold read_entry. rewrite (t_off _ _ _ Hok), Ee. done. Qed.

Lemma frames_ok g s tabs fr : tables_ok g s tabs -> fs_inv fr -> (forall a, fs_free fr a -> fs_free (frames s) a) -> tables_ok g (mkMachine (mem s) fr (invalidated s)) tabs.
Proof. intros [O1 O2 O3 O4 O5 O6 O7] Hi Hm. split; try done. intros p t Hp. destruct (O3 p t Hp) as (? & ? & Hn). split_and!; [done | done|]. intros Hf. by apply Hn, Hm. Qed.

Lemma ensure_spec g s tabs p t i : tables_ok g s tabs -> tabs !! p = Some t -> (length p <= 2)%nat -> 0 <= i < 512 ->
  exists r s' tabs', ensure_table_entry g t i s = Ret (r, s') /\ tables_ok g s' tabs' /\ (forall v, aspace g s' v = aspace g s v) /\ invalidated s' = invalidated s /\
    match r with
    | Ok n => tabs' !! (p ++ [i]) = Some n
    | Err FrameAllocationFailed => True
    | Err ParentEntryHugePage => s' = s /\ (1 <= length p)%nat /\ exists e, entry OFF (mem s) t i = Ret e /\ is_present e = true /\ is_huge e = true
    | Err _ => False
    end.
Proof.
  intros Hok Hp Hl Hi. unfold ensure_table_entry. destruct (read_spec _ _ _ _ _ _ Hok Hp Hi) as (e & Hr & Ee & He & Hc). rewrite (bind_ok _ _ _ _ _ Hr). destruct (is_present e) eqn:Ep.
  - destruct (is_huge e) eqn:Eh.
    + exists (Err ParentEntryHugePage), s, tabs. split_and!; try done; [|by exists e]. destruct (He Ep Eh) as [H0 _]. destruct (length p); [by destruct H0 | lia].
    + exists (Ok (phys_addr e)), s, tabs. split_and!; try done. rewrite Hc. unfold child. rewrite Ep, Eh, (proj2 (Nat.ltb_lt _ _)) by lia. done.
  - unfold alloc_page_table. destruct (fs_alloc_spec (frames s) (t_frames _ _ _ Hok)) as (r & fr & Ea & Hinv & Hm & Hr'). unfold mbind at 1. rewrite Ea. cbn [obind fst snd]. destruct r as [x|]; cbn [obind].
    + destruct Hr' as (Hd & Hb & Hf & Hnf). set (n := phys_as_u64 (start_address x)) in *. assert (Hn : phys_new n = n).
      { unfold phys_new, PHYS_MAX. change (Z.shiftl 1 52 - 1) with (2 ^ 52 - 1). rewrite land_mod by lia. apply Z.mod_small. unfold MAPPED_LIMIT in Hb. lia. }
      rewrite Hn. assert (Ht : table_at n) by (split; [done | exact Hd]). unfold mbind, write_entry, mret. cbn [obind mem frames invalidated]. rewrite (t_off _ _ _ Hok).
      assert (Hok' : tables_ok g (hang_table s fr t i n) (<[p ++ [i] := n]> tabs)) by by eapply hang_table_ok.
      exists (Ok n), (hang_table s fr t i n), (<[p ++ [i] := n]> tabs). split_and!; try done; [|by rewrite lookup_insert, decide_True].
      by apply (hang_table_aspace g s tabs fr p t i n e).
    + exists (Err FrameAllocationFailed), (mkMachine (mem s) fr (invalidated s)), tabs. split_and!; try done. by apply frames_ok.
Qed.

Lemma check_parent_spec g s tabs p t i : tables_ok g s tabs -> tabs !! p = Some t -> (1 <= length p)%nat -> 0 <= i < 512 ->
  check_parent g t i s = Ret (Ok tt, s) \/ check_parent g t i s = Ret (Err ParentEntryHugePage, s) /\ exists e, entry OFF (mem s) t i = Ret e /\ is_present e = true /\ is_huge e = true.
Proof.
  intros Hok Hp Hl Hi. unfold check_parent. destruct (read_spec _ _ _ _ _ _ Hok Hp Hi) as (e & Hr & Ee & _). rewrite (bind_ok _ _ _ _ _ Hr). destruct (is_present e) eqn:E1, (is_huge e) eqn:E2; cbn; eauto 10.
Qed.

(** What mapping a page of [span k] bytes does *)
Definition map_spec (g : PageTableManager) (k : nat) (virt phys : Z) (s s' : machine) (r : result unit MapError) : Prop :=
  match r with
  | Ok _ =>
      (forall v, is_canonical v -> v / span k = virt / span k -> aspace g s v = None) /\
      (forall v, is_canonical v -> aspace g s' v = if decide (v / span k = virt / span k) then Some (phys + v mod span k, span k) else aspace g s v) /\
      invalidated s' = virt :: invalidated s
  | Err e =>
      (forall v, aspace g s' v = aspace g s v) /\ invalidated s' = invalidated s /\
      match e with
      | AlignmentError => ~ ((span k | virt) /\ (span k | phys))
      | ParentEntryHugePage => exists q j, (1 <= j < k)%nat /\ aspace g s virt = Some (q, span j)
      | AlreadyMapped => k = 3%nat -> is_Some (aspace g s virt)
      | FrameAllocationFailed => True
      | _ => False
      end
  end.

Lemma path_of virt k : (k < 4)%nat -> take (S k) (page_table_indices virt) = take k (page_table_indices virt) ++ [idx virt k].
Proof. intros Hk. rewrite indices_idx. do 4 (destruct k as [|k]; [reflexivity|]). lia. Qed.

Lemma path_length virt k : (k <= 4)%nat -> length (take k (page_table_indices virt)) = k.
Proof. intros Hk. rewrite length_take. cbn. lia. Qed.

(** A huge page on the way *)
Lemma parent_huge g s tabs k t e virt : tables_ok g s tabs -> (1 <= k < 3)%nat -> tabs !! take k (page_table_indices virt) = Some t -> entry OFF (mem s) t (idx virt k) = Ret e ->
  is_present e = true -> is_huge e = true -> exists q, aspace g s virt = Some (q, span k).
Proof.
  intros Hok Hk Hp Ee Ep Eh. pose proof (aspace_entry g s tabs _ t (idx virt k) e virt Hok Hp Ee) as Ha. rewrite path_length in Ha by lia. rewrite Ep in Ha. eexists. apply Ha; [by apply path_of; lia|]. right. unfold leaf. rewrite Eh, (proj2 (Nat.leb_le 1 k)) by lia. by rewrite orb_true_r.
Qed.

(** The last step: the entry is free and is written. *)
Lemma finish_map g s tabs k t e e' virt phys : tables_ok g s tabs -> is_canonical virt -> (1 <= k <= 3)%nat -> tabs !! take k (page_table_indices virt) = Some t ->
  entry OFF (mem s) t (idx virt k) = Ret e -> is_present e = false -> is_present e' = true -> phys_addr e' = phys -> child k e' = None -> entry_ok k e' ->
  exists s', mbind (write_entry g t (idx virt k) e') (fun _ => invalidate_page virt) s = Ret (Ok tt, s') /\ tables_ok g s' tabs /\ map_spec g k virt phys s s' (Ok tt).
Proof.
  intros Hok Hv Hk Hp Ee Ep Ep' Ea Hc He. set (p := take k (page_table_indices virt)) in *. assert (Hl : length p = k) by (apply path_length; lia). assert (Hi : 0 <= idx virt k < 512) by (apply idx_range; lia).
  destruct (t_entry _ _ _ Hok p t _ Hp Hi) as (e0 & Ee0 & _ & Hn). assert (e0 = e) as -> by congruence. unfold child in Hn. rewrite Ep, andb_false_r in Hn. cbn in Hn.
  destruct (write_leaf g s tabs p t (idx virt k) e' Hok Hp) as [Hok' Ha']; rewrite ?Hl; try (done || lia). unfold mbind, write_entry, invalidate_page. cbn [obind mem frames invalidated]. rewrite (t_off _ _ _ Hok).
  set (s1 := put_entry s t (idx virt k) e') in *. exists (mkMachine (mem s1) (frames s1) (virt :: invalidated s1)). split; [done|]. split; [by destruct Hok' as [O1 O2 O3 O4 O5 O6 O7]; split|]. split; [|split; [|done]].
  - intros v Hcv E. pose proof (aspace_entry g s tabs p t (idx virt k) e v Hok Hp Ee) as Hx. rewrite Ep, Hl in Hx. apply Hx; [|by left]. unfold p. rewrite <- path_of by lia. by apply same_path; [lia | | |].
  - intros v Hcv. change (aspace g (mkMachine (mem s1) (frames s1) (virt :: invalidated s1)) v) with (aspace g s1 v). rewrite Ha', Ep', Hl, Ea. unfold p. rewrite <- path_of by lia.
    destruct (decide (v / span k = virt / span k)) as [E|E]; [rewrite decide_True; [done|] | rewrite decide_False; [done|]]; rewrite same_path by (done || lia); done.
Qed.

Lemma aligned_dvd x : is_page_aligned x = true <-> (span 3 | x).
Proof. unfold is_page_aligned. change 0xFFF with (2 ^ 12 - 1). rewrite land_mod, Z.eqb_eq by lia. change (span 3) with (2 ^ 12). split; intros H; [by apply Z.mod_divide | by apply Z.mod_divide]. Qed.

(** The table for the next index, or an error that changes nothing *)
Lemma ensure_step g s tabs k t virt : tables_ok g s tabs -> (k <= 2)%nat -> tabs !! take k (page_table_indices virt) = Some t ->
  exists r s' tabs', ensure_table_entry g t (idx virt k) s = Ret (r, s') /\ tables_ok g s' tabs' /\ (forall v, aspace g s' v = aspace g s v) /\ invalidated s' = invalidated s /\
    match r with
    | Ok n => tabs' !! take (S k) (page_table_indices virt) = Some n
    | Err FrameAllocationFailed => True
    | Err ParentEntryHugePage => exists q, (1 <= k)%nat /\ aspace g s virt = Some (q, span k)
    | Err _ => False
    end.
Proof.
  intros Hok Hk Hp. destruct (ensure_spec g s tabs _ t (idx virt k) Hok Hp) as (r & s' & tabs' & Hr & Hok' & Ha & Hi & Hm); [rewrite path_length; lia | apply idx_range; lia|].
  exists r, s', tabs'. split_and!; try done. destruct r as [n|[]]; try done; [by rewrite path_of by lia|]. rewrite path_length in Hm by lia. destruct Hm as (_ & Hk1 & e & Ee & Ep & Eh). destruct (parent_huge g s tabs k t e virt) as [q Hq]; try done; [lia|]. by exists q.
Qed.

Lemma check_step g s tabs k t virt : tables_ok g s tabs -> (1 <= k <= 2)%nat -> tabs !! take k (page_table_indices virt) = Some t ->
  check_parent g t (idx virt k) s = Ret (Ok tt, s) \/ check_parent g t (idx virt k) s = Ret (Err ParentEntryHugePage, s) /\ exists q, aspace g s virt = Some (q, span k).
Proof.
  intros Hok Hk Hp. destruct (check_parent_spec g s tabs _ t (idx virt k) Hok Hp) as [|[Hr (e & Ee & Ep & Eh)]]; [rewrite path_length; lia | apply idx_range; lia | by left|]. right. split; [done|]. apply (parent_huge g s tabs k t e virt); try done; lia.
Qed.

(** Errors on the way change nothing the processor sees. *)
Lemma err_spec g k virt phys s s0 e :
  (forall v, aspace g s0 v = aspace g s v) -> invalidated s0 = invalidated s ->
  match e with FrameAllocationFailed => True | ParentEntryHugePage => exists q j, (1 <= j < k)%nat /\ aspace g s virt = Some (q, span j) | AlreadyMapped => k = 3%nat -> is_Some (aspace g s virt) | _ => False end ->
  map_spec g k virt phys s s0 (Err e).
Proof. intros Ha Hi He. split; [done|]. split; [done|]. by destruct e. Qed.

(** After some tables were added, the rest of the operation is as from the start. *)
Lemma map_spec_trans g k virt phys s s0 s' r : (forall v, aspace g s0 v = aspace g s v) -> invalidated s0 = invalidated s -> map_spec g k virt phys s0 s' r -> map_spec g k virt phys s s' r.
Proof.
  intros Ha Hi. destruct r as [u|e]; cbn [map_spec].
  - intros (H1 & H2 & H3). split_and!; [intros v Hc Hv; rewrite <- Ha; by apply H1 | intros v Hc; rewrite H2, Ha by done; done | by rewrite H3, Hi].
  - intros (H1 & H2 & H3). split_and!; [intros v; by rewrite H1 | by rewrite H2 | by rewrite <- Ha].
Qed.

(** The steps of a mapping, one lemma each, so that the three sizes share them *)
Lemma map_via_ensure g s tabs k t virt phys d (rest : Z -> M unit) : tables_ok g s tabs -> (d <= 2)%nat -> (d < k)%nat -> tabs !! take d (page_table_indices virt) = Some t ->
  (forall s0 tabs0 n, tables_ok g s0 tabs0 -> tabs0 !! take (S d) (page_table_indices virt) = Some n ->
     exists r s' tabs', rest n s0 = Ret (r, s') /\ tables_ok g s' tabs' /\ map_spec g k virt phys s0 s' r) ->
  exists r s' tabs', mbind (ensure_table_entry g t (idx virt d)) rest s = Ret (r, s') /\ tables_ok g s' tabs' /\ map_spec g k virt phys s s' r.
Proof.
  intros Hok Hd Hk Hp Hrest. destruct (ensure_step g s tabs d t virt Hok Hd Hp) as ([n|e] & s0 & tabs0 & Hr & Hok0 & Ha & Hi & Hm).
  - rewrite (bind_ok _ _ _ _ _ Hr). destruct (Hrest s0 tabs0 n Hok0 Hm) as (r & s' & tabs' & H1 & H2 & H3). exists r, s', tabs'. split_and!; try done. by eapply map_spec_trans.
  - rewrite (bind_err _ _ _ _ _ Hr). exists (Err e), s0, tabs0. split_and!; try done. apply err_spec; [done | done|]. destruct e; try done. destruct Hm as (q & Hd1 & Hq). exists q, d. split; [lia | done].
Qed.

Lemma map_via_check g s tabs k t virt phys d (rest : M unit) : tables_ok g s tabs -> (1 <= d <= 2)%nat -> (d < k)%nat -> tabs !! take d (page_table_indices virt) = Some t ->
  (exists r s' tabs', rest s = Ret (r, s') /\ tables_ok g s' tabs' /\ map_spec g k virt phys s s' r) ->
  exists r s' tabs', mbind (check_parent g t (idx virt d)) (fun _ => rest) s = Ret (r, s') /\ tables_ok g s' tabs' /\ map_spec g k virt phys s s' r.
Proof.
  intros Hok Hd Hk Hp Hrest. destruct (check_step g s tabs d t virt Hok Hd Hp) as [Hr|[Hr [q Hq]]]; [by rewrite (bind_ok _ _ _ _ _ Hr)|].
  rewrite (bind_err _ _ _ _ _ Hr). exists (Err ParentEntryHugePage), s, tabs. split_and!; try done. apply err_spec; [done | done|]. exists q, d. split; [lia | done].
Qed.

Lemma map_via_write g s tabs k t virt phys e' : tables_ok g s tabs -> is_canonical virt -> (1 <= k <= 3)%nat -> tabs !! take k (page_table_indices virt) = Some t ->
  is_present e' = true -> phys_addr e' = phys -> child k e' = None -> entry_ok k e' ->
  exists r s' tabs', mbind (read_entry g t (idx virt k)) (fun e => if is_present e then mfail AlreadyMapped else mbind (write_entry g t (idx virt k) e') (fun _ => invalidate_page virt)) s = Ret (r, s') /\
    tables_ok g s' tabs' /\ map_spec g k virt phys s s' r.
Proof.
  intros Hok Hv Hk Hp Ep' Ea Hc He. destruct (read_spec g s tabs _ t (idx virt k) Hok Hp) as (e & Hr & Ee & Hoe & Hch); [apply idx_range; lia|]. rewrite (bind_ok _ _ _ _ _ Hr). destruct (is_present e) eqn:Ep.
  - exists (Err AlreadyMapped), s, tabs. split_and!; try done. apply err_spec; [done | done|]. intros ->. pose proof (aspace_entry g s tabs _ t (idx virt 3) e virt Hok Hp Ee) as Ha. rewrite path_length, Ep in Ha by lia. rewrite Ha; [done | exact (path_of virt 3 ltac:(lia)) | by right].
  - destruct (finish_map g s tabs k t e e' virt phys) as (s' & H1 & H2 & H3); try done. exists (Ok tt), s', tabs. done.
Qed.

(** *** Mapping *)

Definition depth (z : PageSize) : nat := match z with Size4KiB => 3 | Size2MiB => 2 | Size1GiB => 1 end.

Definition map_sized (z : PageSize) (g : PageTableManager) (virt phys flags : Z) : M unit :=
  match z with Size4KiB => map_page g virt phys flags | Size2MiB => map_2mb_page g virt phys flags | Size1GiB => map_1gb_page g virt phys flags end.

Lemma unaligned_spec g s tabs k virt phys : tables_ok g s tabs -> ~ ((span k | virt) /\ (span k | phys)) ->
  exists r s' tabs', mfail (A := unit) AlignmentError s = Ret (r, s') /\ tables_ok g s' tabs' /\ map_spec g k virt phys s s' r.
Proof. intros Hok Hn. exists (Err AlignmentError), s, tabs. done. Qed.

Lemma dvd_mod k x : (span k | x) <-> x mod span k = 0.
Proof. assert (0 < span k \/ span k = 0) as [H|H] by (unfold span; pose proof (Z.pow_nonneg 2 (39 - 9 * Z.of_nat k)); lia); [symmetry; apply Z.mod_divide; lia|]. rewrite H, Zmod_0_r. split; [intros [q ->]; lia | by intros ->]. Qed.

Lemma map_sized_spec z g s tabs virt phys flags : tables_ok g s tabs -> is_canonical virt -> 0 <= phys < 2 ^ 52 -> flags_ok flags ->
  exists r s' tabs', map_sized z g virt phys flags s = Ret (r, s') /\ tables_ok g s' tabs' /\ map_spec g (depth z) virt phys s s' r.
Proof.
  intros Hok Hv Hb Hf. assert (Hdvd : forall k, (k <= 3)%nat -> (span k | phys) -> (4096 | phys)).
  { intros k Hk Hd. etrans; [|exact Hd]. change 4096 with (2 ^ 12). unfold span. replace (39 - 9 * Z.of_nat k) with (27 - 9 * Z.of_nat k + 12) by lia. rewrite Z.pow_add_r by lia. apply Z.divide_factor_r. }
  destruct z; cbn [map_sized depth].
  - unfold map_page. destruct (is_page_aligned virt) eqn:E1; cbn [negb orb]; [|apply (unaligned_spec _ _ tabs); [done|]; rewrite <- !aligned_dvd, E1; naive_solver].
    destruct (is_page_aligned phys) eqn:E2; cbn [negb]; [|apply (unaligned_spec _ _ tabs); [done|]; rewrite <- !aligned_dvd, E2; naive_solver]. apply aligned_dvd in E2.
    destruct (new_entry_spec phys flags Hb (Hdvd 3%nat ltac:(lia) E2) Hf) as [P1 P2].
    eapply map_via_ensure; [done | lia | lia | apply (t_root _ _ _ Hok)|]. intros s1 tabs1 pdpt Hok1 Ht1. eapply map_via_check; [done | lia | lia | done|]. eapply map_via_ensure; [done | lia | lia | done|].
    intros s2 tabs2 pd Hok2 Ht2. eapply map_via_check; [done | lia | lia | done|]. eapply map_via_ensure; [done | lia | lia | done|]. intros s3 tabs3 pt Hok3 Ht3.
    eapply map_via_write; [done | done | lia | done | done | done | done|]. intros _ _. split_and!; lia.
  - unfold map_2mb_page. change (as_bytes Size2MiB) with (span 2). destruct (Z.eqb_spec (virt mod span 2) 0) as [E1|E1]; cbn [negb orb]; [|apply (unaligned_spec _ _ tabs); [done|]; rewrite !dvd_mod; naive_solver].
    destruct (Z.eqb_spec (phys mod span 2) 0) as [E2|E2]; cbn [negb]; [|apply (unaligned_spec _ _ tabs); [done|]; rewrite !dvd_mod; naive_solver]. apply dvd_mod in E2.
    destruct (huge_entry_spec phys flags Hb (Hdvd 2%nat ltac:(lia) E2) Hf) as (P1 & P2 & P3).
    eapply map_via_ensure; [done | lia | lia | apply (t_root _ _ _ Hok)|]. intros s1 tabs1 pdpt Hok1 Ht1. eapply map_via_check; [done | lia | lia | done|]. eapply map_via_ensure; [done | lia | lia | done|]. intros s2 tabs2 pd Hok2 Ht2.
    eapply map_via_write; [done | done | lia | done | done | done | unfold child; by rewrite P2, andb_false_r|]. intros _ _. rewrite P3. split_and!; [lia | lia | done].
  - unfold map_1gb_page. change (as_bytes Size1GiB) with (span 1). destruct (Z.eqb_spec (virt mod span 1) 0) as [E1|E1]; cbn [negb orb]; [|apply (unaligned_spec _ _ tabs); [done|]; rewrite !dvd_mod; naive_solver].
    destruct (Z.eqb_spec (phys mod span 1) 0) as [E2|E2]; cbn [negb]; [|apply (unaligned_spec _ _ tabs); [done|]; rewrite !dvd_mod; naive_solver]. apply dvd_mod in E2.
    destruct (huge_entry_spec phys flags Hb (Hdvd 1%nat ltac:(lia) E2) Hf) as (P1 & P2 & P3).
    eapply map_via_ensure; [done | lia | lia | apply (t_root _ _ _ Hok)|]. intros s1 tabs1 pdpt Hok1 Ht1.
    eapply map_via_write; [done | done | lia | done | done | done | unfold child; by rewrite P2, andb_false_r|]. intros _ _. rewrite P3. split_and!; [lia | done | lia].
Qed.

(** *** Unmapping and protecting

    Both walk down to the entry of the page. *)

Definition reach {A} (g : PageTableManager) (virt : Z) (found : nat -> Z -> Z -> M A) : M A :=
  mbind (read_entry g (pml4_phys g) (idx virt 0)) (fun e0 =>
  if negb (is_present e0) then mfail NotMapped else
  mbind (read_entry g (phys_addr e0) (idx virt 1)) (fun e1 =>
  if negb (is_present e1) then mfail NotMapped else if is_huge e1 then found 1%nat (phys_addr e0) e1 else
  mbind (read_entry g (phys_addr e1) (idx virt 2)) (fun e2 =>
  if negb (is_present e2) then mfail NotMapped else if is_huge e2 then found 2%nat (phys_addr e1) e2 else
  mbind (read_entry g (phys_addr e2) (idx virt 3)) (fun e3 =>
  if negb (is_present e3) then mfail NotMapped else found 3%nat (phys_addr e2) e3)))).

Lemma reach_spec {A} g s tabs virt (found : nat -> Z -> Z -> M A) : tables_ok g s tabs ->
  reach g virt found s = Ret (Err NotMapped, s) /\ aspace g s virt = None \/
  exists k t e, (1 <= k <= 3)%nat /\ tabs !! take k (page_table_indices virt) = Some t /\ entry OFF (mem s) t (idx virt k) = Ret e /\ is_present e = true /\ leaf k e = true /\ entry_ok k e /\
    reach g virt found s = found k t e s /\ aspace g s virt = Some (phys_addr e + virt mod span k, span k).
Proof.
  intros Hok. unfold reach. assert (Hi : forall k, (k < 4)%nat -> 0 <= idx virt k < 512) by (intros k; apply idx_range).
  assert (Hstep : forall k t, (k < 4)%nat -> tabs !! take k (page_table_indices virt) = Some t -> exists e, read_entry g t (idx virt k) s = Ret (Ok e, s) /\ entry OFF (mem s) t (idx virt k) = Ret e /\ entry_ok k e /\
    (is_present e = false -> aspace g s virt = None) /\ (is_present e = true -> leaf k e = true -> aspace g s virt = Some (phys_addr e + virt mod span k, span k)) /\
    (is_present e = true -> leaf k e = false -> tabs !! take (S k) (page_table_indices virt) = Some (phys_addr e))).
  { intros k t Hk Ht. destruct (read_spec g s tabs _ t (idx virt k) Hok Ht (Hi k Hk)) as (e & Hr & Ee & He & Hc). rewrite path_length in He, Hc by lia. exists e. pose proof (aspace_entry g s tabs _ t (idx virt k) e virt Hok Ht Ee) as Ha. rewrite path_length in Ha by lia.
    specialize (Ha (path_of virt k Hk)). split_and!; try done; intros Ep; [by rewrite Ha, Ep by by left | intros El; by rewrite Ha, Ep by by right | intros El; rewrite path_of, Hc by done; by apply child_some]. }
  destruct (Hstep 0%nat _ ltac:(lia) (t_root _ _ _ Hok)) as (e0 & R0 & E0 & O0 & N0 & _ & D0). rewrite (bind_ok _ _ _ _ _ R0). destruct (is_present e0) eqn:P0; cbn [negb]; [|by left; auto].
  destruct (Hstep 1%nat _ ltac:(lia) (D0 eq_refl eq_refl)) as (e1 & R1 & E1 & O1 & N1 & L1 & D1). rewrite (bind_ok _ _ _ _ _ R1). destruct (is_present e1) eqn:P1; cbn [negb]; [|by left; auto].
  destruct (is_huge e1) eqn:H1; [right; exists 1%nat, (phys_addr e0), e1; unfold leaf in *; rewrite H1 in *; split_and!; auto; lia|].
  destruct (Hstep 2%nat _ ltac:(lia) (D1 eq_refl ltac:(unfold leaf; by rewrite H1))) as (e2 & R2 & E2 & O2 & N2 & L2 & D2). rewrite (bind_ok _ _ _ _ _ R2). destruct (is_present e2) eqn:P2; cbn [negb]; [|by left; auto].
  destruct (is_huge e2) eqn:H2; [right; exists 2%nat, (phys_addr e1), e2; unfold leaf in *; rewrite H2 in *; split_and!; auto; lia|].
  destruct (Hstep 3%nat _ ltac:(lia) (D2 eq_refl ltac:(unfold leaf; by rewrite H2))) as (e3 & R3 & E3 & O3 & N3 & L3 & _). rewrite (bind_ok _ _ _ _ _ R3). destruct (is_present e3) eqn:P3; cbn [negb]; [|by left; auto].
  right. exists 3%nat, (phys_addr e2), e3. split_and!; auto; lia.
Qed.

Lemma unmap_reach g virt s : is_page_aligned virt = true -> unmap_page g virt s = reach g virt (fun k t e => take_entry g t (idx virt k) e virt) s.
Proof. intros Ha. unfold unmap_page, reach. by rewrite Ha. Qed.

Definition protect_entry (g : PageTableManager) (virt flags : Z) (k : nat) (t e : Z) : M unit :=
  change_entry g t (idx virt k) e (if (k =? 3)%nat then flags_set flags PRESENT else flags_set (flags_set flags PRESENT) HUGE_PAGE) virt.

Lemma update_reach g virt flags s : is_page_aligned virt = true -> update_flags g virt flags s = reach g virt (protect_entry g virt flags) s.
Proof. intros Ha. unfold update_flags, reach. by rewrite Ha. Qed.

Lemma invalidate_ok g s tabs virt : tables_ok g s tabs -> tables_ok g (mkMachine (mem s) (frames s) (virt :: invalidated s)) tabs.
Proof. by intros [O1 O2 O3 O4 O5 O6 O7]; split. Qed.

Lemma in_page virt k v : (1 <= k <= 3)%nat -> is_canonical virt -> is_canonical v ->
  take (S k) (page_table_indices v) = take k (page_table_indices virt) ++ [idx virt k] <-> v / span k = virt / span k.
Proof. intros Hk Hv Hc. rewrite <- path_of by lia. apply same_path; [lia | done | done]. Qed.

Lemma unmap_page_spec g s tabs virt : tables_ok g s tabs -> is_canonical virt ->
  exists r s', unmap_page g virt s = Ret (r, s') /\ tables_ok g s' tabs /\
    match r with
    | Ok q => exists k, (1 <= k <= 3)%nat /\ aspace g s virt = Some (q + virt mod span k, span k) /\ invalidated s' = virt :: invalidated s /\
        forall v, is_canonical v -> aspace g s' v = if decide (v / span k = virt / span k) then None else aspace g s v
    | Err e => s' = s /\ (e = NotMapped /\ aspace g s virt = None \/ e = AlignmentError /\ ~ (span 3 | virt))
    end.
Proof.
  intros Hok Hv. destruct (is_page_aligned virt) eqn:Ea; [|exists (Err AlignmentError), s; unfold unmap_page; rewrite Ea; split_and!; try done; right; by rewrite <- aligned_dvd, Ea].
  rewrite unmap_reach by done. destruct (reach_spec g s tabs virt (fun k t e => take_entry g t (idx virt k) e virt) Hok) as [[-> Hn]|(k & t & e & Hk & Ht & Ee & Ep & El & He & -> & Hs)]; [exists (Err NotMapped), s; split_and!; try done; by left|].
  set (p := take k (page_table_indices virt)) in *. assert (Hl : length p = k) by (apply path_length; lia). assert (Hi : 0 <= idx virt k < 512) by (apply idx_range; lia).
  assert (Hn : tabs !! (p ++ [idx virt k]) = None).
  { destruct (t_entry _ _ _ Hok p t _ Ht Hi) as (e' & Ee' & _ & ->). assert (e' = e) as -> by congruence. rewrite Hl. unfold leaf in El. unfold child. rewrite Ep. destruct (Nat.leb_spec 3 k); [by rewrite (proj2 (Nat.ltb_ge _ _)) by lia|]. cbn in El. apply andb_true_iff in El as [_ ->]. by rewrite andb_false_r. }
  destruct (write_leaf g s tabs p t (idx virt k) 0 Hok Ht) as [Hok' Ha']; rewrite ?Hl; try (done || lia); [unfold child; change (is_present 0) with false; by rewrite andb_false_r|].
  unfold take_entry, mbind, write_entry, invalidate_page, mret. cbn [obind mem frames invalidated]. rewrite (t_off _ _ _ Hok). eexists _, _. split; [reflexivity|]. split; [by apply (invalidate_ok g (put_entry s t (idx virt k) 0))|].
  exists k. split; [done|]. split; [done|]. split; [done|]. intros v Hc. change (aspace g _ v) with (aspace g (put_entry s t (idx virt k) 0) v) at 1. rewrite Ha'. change (is_present 0) with false. rewrite Hl.
  destruct (decide (v / span k = virt / span k)) as [E|E]; [rewrite decide_True; [done|] | rewrite decide_False; [done|]]; unfold p; rewrite in_page by done; done.
Qed.

Lemma protect_entry_ok k e flags : (1 <= k <= 3)%nat -> flags_ok flags -> is_present e = true -> leaf k e = true -> entry_ok k e ->
  let e' := set_flags e (if (k =? 3)%nat then flags_set flags PRESENT else flags_set (flags_set flags PRESENT) HUGE_PAGE) in
  is_present e' = true /\ phys_addr e' = phys_addr e /\ child k e' = None /\ entry_ok k e'.
Proof.
  intros Hk Hf Ep El He. cbv zeta. destruct (Nat.eqb_spec k 3) as [->|Hne].
  - destruct (set_flags_spec e flags Hf) as [H1 H2]. by split_and!.
  - unfold leaf in El. rewrite (proj2 (Nat.leb_gt 3 k)), (proj2 (Nat.leb_le 1 k)) in El by lia. cbn in El. destruct (He Ep El) as (_ & H1 & H2).
    assert (Hc : flags_set (flags_set flags PRESENT) HUGE_PAGE = flags_set (Z.lor flags HUGE_PAGE) PRESENT) by (unfold flags_set; by rewrite <- !Z.lor_assoc, (Z.lor_comm PRESENT)). rewrite Hc.
    destruct (set_flags_spec e (Z.lor flags HUGE_PAGE)) as [G1 G2]; [by apply flags_ok_lor|]. assert (G3 : is_huge (set_flags e (flags_set (Z.lor flags HUGE_PAGE) PRESENT)) = true) by (rewrite is_huge_bit; unfold set_flags, flags_set; rewrite !Z.lor_spec; change (Z.testbit HUGE_PAGE 7) with true; by rewrite orb_true_r, orb_true_l, orb_true_r).
    split_and!; try done; [unfold child; by rewrite G3, andb_false_r|]. intros _ _. rewrite G1. split_and!; [lia | done | done].
Qed.

Lemma update_flags_spec g s tabs virt flags : tables_ok g s tabs -> is_canonical virt -> flags_ok flags ->
  exists r s', update_flags g virt flags s = Ret (r, s') /\ tables_ok g s' tabs /\ (forall v, is_canonical v -> aspace g s' v = aspace g s v) /\
    match r with
    | Ok _ => is_Some (aspace g s virt) /\ invalidated s' = virt :: invalidated s
    | Err e => s' = s /\ (e = NotMapped /\ aspace g s virt = None \/ e = AlignmentError /\ ~ (span 3 | virt))
    end.
Proof.
  intros Hok Hv Hf. destruct (is_page_aligned virt) eqn:Ea; [|exists (Err AlignmentError), s; unfold update_flags; rewrite Ea; split_and!; try done; right; by rewrite <- aligned_dvd, Ea].
  rewrite update_reach by done. destruct (reach_spec g s tabs virt (protect_entry g virt flags) Hok) as [[-> Hn]|(k & t & e & Hk & Ht & Ee & Ep & El & He & -> & Hs)]; [exists (Err NotMapped), s; split_and!; try done; by left|].
  set (p := take k (page_table_indices virt)) in *. assert (Hl : length p = k) by (apply path_length; lia). assert (Hi : 0 <= idx virt k < 512) by (apply idx_range; lia).
  destruct (protect_entry_ok k e flags Hk Hf Ep El He) as (H1 & H2 & H3 & H4). unfold protect_entry, change_entry. set (e' := set_flags e _) in *.
  assert (Hn : tabs !! (p ++ [idx virt k]) = None).
  { destruct (t_entry _ _ _ Hok p t _ Ht Hi) as (e0 & Ee' & _ & ->). assert (e0 = e) as -> by congruence. rewrite Hl. unfold leaf in El. unfold child. rewrite Ep. destruct (Nat.leb_spec 3 k); [by rewrite (proj2 (Nat.ltb_ge _ _)) by lia|]. cbn in El. apply andb_true_iff in El as [_ ->]. by rewrite andb_false_r. }
  destruct (write_leaf g s tabs p t (idx virt k) e' Hok Ht) as [Hok' Ha']; rewrite ?Hl; try (done || lia).
  unfold mbind, write_entry, invalidate_page. cbn [obind mem frames invalidated]. rewrite (t_off _ _ _ Hok). eexists _, _. split; [reflexivity|]. split; [by apply (invalidate_ok g (put_entry s t (idx virt k) e'))|].
  split; [|split; [rewrite Hs; by eexists | done]]. intros v Hc. change (aspace g _ v) with (aspace g (put_entry s t (idx virt k) e') v) at 1. rewrite Ha', H1, H2, Hl.
  destruct (decide _) as [E|E]; [|done]. symmetry. pose proof (aspace_entry g s tabs p t (idx virt k) e v Hok Ht Ee) as Hx. rewrite Hl, Ep in Hx. apply Hx; [done | by right].
Qed.

(** *** The address space as the specification *)

Inductive op := Map (z : PageSize) (virt phys flags : Z) | Unmap (virt : Z) | Protect (virt flags : Z).

Definition op_ok (o : op) : Prop :=
  match o with
  | Map _ virt phys flags => is_canonical virt /\ 0 <= phys < 2 ^ 52 /\ flags_ok flags
  | Unmap virt => is_canonical virt
  | Protect virt flags => is_canonical virt /\ flags_ok flags
  end.

Definition exec (g : PageTableManager) (o : op) : M Z :=
  match o with
  | Map z virt phys flags => mbind (map_sized z g virt phys flags) (fun _ => mret 0)
  | Unmap virt => unmap_page g virt
  | Protect virt flags => mbind (update_flags g virt flags) (fun _ => mret 0)
  end.

Fixpoint exec_all (g : PageTableManager) (ops : list op) (s : machine) : outcome (list (result Z MapError) * machine) :=
  match ops with
  | [] => Ret ([], s)
  | o :: ops' => let! x := exec g o s in let! y := exec_all g ops' x.2 in Ret (x.1 :: y.1, y.2)
  end.

(** What an operation that answers [r] does to an address space, that is to the physical
    address and the page size of every canonical address *)
Definition space : Type := Z -> option (Z * Z).
Definition same_space (A A' : space) : Prop := forall v, is_canonical v -> A' v = A v.

Definition space_step (A : space) (o : op) (r : result Z MapError) (A' : space) : Prop :=
  match o, r with
  | Map z virt phys _, Ok _ =>
      let sz := as_bytes z in
      (forall v, is_canonical v -> v / sz = virt / sz -> A v = None) /\
      forall v, is_canonical v -> A' v = if decide (v / sz = virt / sz) then Some (phys + v mod sz, sz) else A v
  | Map z virt phys _, Err e =>
      same_space A A' /\
      match e with
      | AlignmentError => ~ ((as_bytes z | virt) /\ (as_bytes z | phys))
      | ParentEntryHugePage => exists q sz, as_bytes z < sz /\ A virt = Some (q, sz)
      | AlreadyMapped => z = Size4KiB -> is_Some (A virt)
      | FrameAllocationFailed => True
      | _ => False
      end
  | Unmap virt, Ok q => exists sz, A virt = Some (q + virt mod sz, sz) /\ forall v, is_canonical v -> A' v = if decide (v / sz = virt / sz) then None else A v
  | Protect virt _, Ok _ => same_space A A' /\ is_Some (A virt)
  | Unmap virt, Err e | Protect virt _, Err e => same_space A A' /\ (e = NotMapped /\ A virt = None \/ e = AlignmentError /\ ~ (as_bytes Size4KiB | virt))
  end.

Inductive space_run : space -> list op -> list (result Z MapError) -> space -> Prop :=
  | run_done A A' : same_space A A' -> space_run A [] [] A'
  | run_step A o r A1 ops rs A' : space_step A o r A1 -> space_run A1 ops rs A' -> space_run A (o :: ops) (r :: rs) A'.

Lemma span_depth z : span (depth z) = as_bytes z.
Proof. by destruct z. Qed.

Lemma exec_spec g s tabs o : tables_ok g s tabs -> op_ok o -> exists r s' tabs', exec g o s = Ret (r, s') /\ tables_ok g s' tabs' /\ space_step (aspace g s) o r (aspace g s').
Proof.
  intros Hok Ho. destruct o as [z virt phys flags|virt|virt flags]; cbn [op_ok exec] in *.
  - destruct Ho as (Hv & Hb & Hf). destruct (map_sized_spec z g s tabs virt phys flags Hok Hv Hb Hf) as ([u|e] & s' & tabs' & Hr & Hok' & Hm).
    + rewrite (bind_ok _ _ _ _ _ Hr). exists (Ok 0), s', tabs'. split_and!; try done. cbn in Hm. rewrite span_depth in Hm. destruct Hm as (H1 & H2 & _). split; [exact H1 | exact H2].
    + rewrite (bind_err _ _ _ _ _ Hr). exists (Err e), s', tabs'. split_and!; try done. cbn in Hm. rewrite span_depth in Hm. destruct Hm as (H1 & _ & H2). split; [by intros v _|]. destruct e; try done.
      * intros ->. by apply H2.
      * destruct H2 as (q & j & Hj & Hq). exists q, (span j). split; [|done]. rewrite <- span_depth. unfold span. apply Z.pow_lt_mono_r; destruct z; cbn in *; lia.
  - destruct (unmap_page_spec g s tabs virt Hok Ho) as ([q|e] & s' & Hr & Hok' & Hm); rewrite Hr; (eexists _, s', tabs; split_and!; [done | done|]).
    + destruct Hm as (k & _ & H1 & _ & H2). by exists (span k).
    + destruct Hm as [-> Hm]. by split.
  - destruct Ho as [Hv Hf]. destruct (update_flags_spec g s tabs virt flags Hok Hv Hf) as ([u|e] & s' & Hr & Hok' & Ha & Hm).
    + rewrite (bind_ok _ _ _ _ _ Hr). exists (Ok 0), s', tabs. split_and!; try done. split; [exact Ha | by destruct Hm].
    + rewrite (bind_err _ _ _ _ _ Hr). exists (Err e), s', tabs. split_and!; try done. destruct Hm as [_ Hm]. by split.
Qed.

(** C8: the page tables are an address space: whatever is mapped, unmapped and protected,
    in pages of all three sizes and also when frames run out on the way, no
    operation panics, each changes the translations as the specification of the
    address space says and no others, and the walker answers with the translation
    at the end. *)
Theorem page_tables_refine_address_space g s tabs ops :
  tables_ok g s tabs -> Forall op_ok ops ->
  exists rs s' tabs', exec_all g ops s = Ret (rs, s') /\ tables_ok g s' tabs' /\ space_run (aspace g s) ops rs (aspace g s') /\
    forall v, translate (mapper g) (mem s') (pml4_phys g) v = Ret (fst <$> aspace g s' v).
Proof.
  intros Hok Hops. revert s tabs Hok. induction Hops as [|o ops Ho Hops IH]; intros s tabs Hok; cbn [exec_all].
  - exists [], s, tabs. split_and!; try done; [by constructor|]. intros v. by apply (translate_aspace g s tabs).
  - destruct (exec_spec g s tabs o Hok Ho) as (r & s1 & tabs1 & -> & Hok1 & Hs). cbn [obind fst snd]. destruct (IH s1 tabs1 Hok1) as (rs & s' & tabs' & -> & Hok' & Hr & Ht). cbn [obind fst snd].
    exists (r :: rs), s', tabs'. split_and!; try done. by econstructor.
Qed.

(** An empty top-level table is an empty address space. *)
Lemma empty_tables_ok m fr t : table_at t -> fs_inv fr -> ~ fs_free fr t -> tables_ok (mkManager t OFF) (mkMachine (clear_table OFF m t) fr []) {[ [] := t ]}.
Proof.
  intros Ht Hi Hf. split; cbn [mapper pml4_phys mem frames]; [done | done | | | | | done].
  - intros p t' Hp. apply lookup_singleton_Some in Hp as [<- <-]. split; [cbn; lia | done].
  - intros p q t' Hp Hq. apply lookup_singleton_Some in Hp as [<- <-]. by apply lookup_singleton_Some in Hq as [<- _].
  - intros p i [x Hx]. apply lookup_singleton_Some in Hx as [Hx _]. by destruct p.
  - intros p t' i Hp Hi'. apply lookup_singleton_Some in Hp as [<- <-]. exists 0. rewrite entry_clear, decide_True by done. split_and!; try done. cbn. by rewrite lookup_singleton_ne.
Qed.

Lemma empty_aspace m fr t v : table_at t -> aspace (mkManager t OFF) (mkMachine (clear_table OFF m t) fr []) v = None.
Proof. intros Ht. unfold aspace. cbn [mem pml4_phys]. rewrite indices_idx. cbn [walk]. rewrite entry_clear, decide_True by (done || apply idx_range; lia). done. Qed.

(** *** Ranges *)

Lemma virt_new_canonical a : is_canonical a -> virt_new a = a.
Proof.
  intros [H|H]; [|by apply virt_new_high]. unfold virt_new. rewrite bit_of by lia. rewrite <- (Z.mod_small a (2 ^ 47)), Z.mod_pow2_bits_high by lia. rewrite Z.mod_small by lia.
  change 0x0000FFFFFFFFFFFF with (2 ^ 48 - 1). rewrite land_mod by lia. apply Z.mod_small. lia.
Qed.

Lemma phys_new_small a : 0 <= a < 2 ^ 52 -> phys_new a = a.
Proof. intros H. unfold phys_new, PHYS_MAX. change (Z.shiftl 1 52 - 1) with (2 ^ 52 - 1). rewrite land_mod by lia. by apply Z.mod_small. Qed.

(** [n] bytes from [virt] on are mapped to those from [phys] on, the rest is as before. *)
Definition range_mapped (g : PageTableManager) (s s' : machine) (virt phys n : Z) : Prop :=
  (forall v, is_canonical v -> virt <= v < virt + n -> aspace g s v = None) /\
  forall v, is_canonical v -> fst <$> aspace g s' v = if decide (virt <= v < virt + n) then Some (phys + (v - virt)) else fst <$> aspace g s v.

(** The range is canonical, physical and does not reach the end of the address space. *)
Definition range_ok (virt phys size : Z) : Prop :=
  0 <= size /\ (0 <= virt /\ virt + size <= 2 ^ 47 \/ 2 ^ 64 - 2 ^ 47 <= virt /\ virt + size < 2 ^ 64) /\ 0 <= phys /\ phys + size <= 2 ^ 52.

Lemma page_of sz cur v : 0 < sz -> cur mod sz = 0 -> (v / sz = cur / sz <-> cur <= v < cur + sz) /\ (cur <= v < cur + sz -> v mod sz = v - cur).
Proof.
  intros Hs Hc. pose proof (Z.div_mod cur sz) as Ec. pose proof (Z.div_mod v sz) as Ev. pose proof (Z.mod_pos_bound v sz Hs). assert (Hq : cur <= v < cur + sz -> v / sz = cur / sz).
  { intros Hr. symmetry. apply (Z.div_unique v sz (cur / sz) (v - cur)); lia. }
  split; [split; [intros E; rewrite E in Ev; lia | done]|]. intros Hr. rewrite (Hq Hr) in Ev. lia.
Qed.

Lemma range_step g s s1 s' z virt phys n : is_canonical virt -> virt mod as_bytes z = 0 ->
  map_spec g (depth z) virt phys s s1 (Ok tt) -> 0 <= n -> range_mapped g s1 s' (virt + as_bytes z) (phys + as_bytes z) n -> range_mapped g s s' virt phys (as_bytes z + n).
Proof.
  intros Hv Ha (H1 & H2 & _) Hn (G1 & G2). rewrite span_depth in *. assert (Hp : 0 < as_bytes z) by by destruct z. pose proof (fun v => page_of (as_bytes z) virt v Hp Ha) as Hpg. split.
  - intros v Hc Hr. destruct (decide (v < virt + as_bytes z)); [apply H1; [done|]; apply Hpg; lia|]. rewrite <- (G1 v Hc) by lia. rewrite H2, decide_False by (done || rewrite (proj1 (Hpg v)); lia). done.
  - intros v Hc. rewrite G2, H2 by done. destruct (Hpg v) as [Hin Hmod]. destruct (decide (virt + as_bytes z <= v < virt + as_bytes z + n)) as [Hd|Hd].
    + rewrite decide_True by lia. f_equal. lia.
    + destruct (decide (v / as_bytes z = virt / as_bytes z)) as [E|E]; rewrite Hin in E; [rewrite decide_True by lia; cbn; f_equal; rewrite Hmod by done; lia | rewrite decide_False by lia; done].
Qed.

Lemma map_page_aligned g virt phys flags s u s' : map_page g virt phys flags s = Ret (Ok u, s') -> virt mod as_bytes Size4KiB = 0.
Proof. unfold map_page. destruct (is_page_aligned virt) eqn:E; [|done]. intros _. apply aligned_dvd, dvd_mod in E. exact E. Qed.

Lemma map_range_loop_spec fuel g s tabs virt phys size flags : tables_ok g s tabs -> range_ok virt phys size -> (4096 | size) -> flags_ok flags -> size <= 4096 * Z.of_nat fuel ->
  exists r s' tabs' n, map_range_loop fuel g virt phys (virt + size) flags s = Some (Ret (r, s')) /\ tables_ok g s' tabs' /\ range_mapped g s s' virt phys n /\ 0 <= n <= size /\
    match r with Ok _ => n = size | Err _ => n < size end.
Proof.
  revert s tabs virt phys size. induction fuel as [|fuel IH]; intros s tabs virt phys size Hok Hr Hd Hf Hfuel; cbn [map_range_loop].
  { assert (size = 0) as -> by (destruct Hr; lia). rewrite (proj2 (Z.ltb_ge virt (virt + 0))) by lia. cbn [negb]. exists (Ok tt), s, tabs, 0. split_and!; try (done || lia). split; [lia|]. intros v _. by rewrite decide_False by lia. }
  destruct (Z.ltb_spec virt (virt + size)) as [Hlt|Hge]; cbn [negb].
  2: { exists (Ok tt), s, tabs, 0. destruct Hr as [H0 _]. split_and!; try (done || lia). split; [lia|]. intros v _. by rewrite decide_False by lia. }
  destruct Hr as (Hs0 & Hcan & Hp0 & Hp1). assert (Hv : is_canonical virt) by (unfold is_canonical; lia). assert (H4096 : 4096 <= size) by (destruct Hd; lia).
  rewrite virt_new_canonical, phys_new_small by (done || lia). replace (virt + size -w virt) with size by (rewrite wrap64_small; [lia | unfold is_u64, u64_modulus; lia]).
  assert (Hgo : forall z, as_bytes z <= size -> z = Size4KiB \/ (virt mod as_bytes z = 0 /\ phys mod as_bytes z = 0) ->
    exists r s' tabs' n, match map_sized z g virt phys flags s with Ret (Ok _, s') => map_range_loop fuel g (virt +w as_bytes z) (phys +w as_bytes z) (virt + size) flags s' | x => Some x end = Some (Ret (r, s')) /\
      tables_ok g s' tabs' /\ range_mapped g s s' virt phys n /\ 0 <= n <= size /\ match r with Ok _ => n = size | Err _ => n < size end).
  { intros z Hz Hal. assert (Hpz : 4096 <= as_bytes z) by by destruct z. assert (Hdz : (4096 | as_bytes z)) by (destruct z; [by exists 1 | by exists 512 | by exists 262144]).
    destruct (map_sized_spec z g s tabs virt phys flags Hok Hv) as ([u|e] & s1 & tabs1 & Er & Hok1 & Hm); [lia | done | |]; rewrite Er.
    - rewrite !wrap64_small by (unfold is_u64, u64_modulus; lia). replace (virt + size) with (virt + as_bytes z + (size - as_bytes z)) by lia.
      assert (Hva : virt mod as_bytes z = 0).
      { destruct Hal as [->|[? _]]; [|done]. exact (map_page_aligned _ _ _ _ _ _ _ Er). }
      destruct (IH s1 tabs1 (virt + as_bytes z) (phys + as_bytes z) (size - as_bytes z) Hok1) as (r & s' & tabs' & n & H1 & H2 & H3 & H4 & H5); [unfold range_ok; lia | by apply Z.divide_sub_r | done | lia|].
      exists r, s', tabs', (as_bytes z + n). split_and!; try done; [destruct u; by eapply range_step; try done; lia | lia | lia | destruct r; lia].
    - exists (Err e), s1, tabs1, 0. destruct Hm as (Ha & _). split_and!; try (done || lia). split; [lia|]. intros v _. rewrite decide_False by lia. by rewrite Ha. }
  rewrite !Z.geb_leb. destruct ((virt mod as_bytes Size1GiB =? 0) && (phys mod as_bytes Size1GiB =? 0) && (as_bytes Size1GiB <=? size)) eqn:E1.
  { rewrite !andb_true_iff, !Z.eqb_eq, Z.leb_le in E1. apply (Hgo Size1GiB); [lia | right; lia]. }
  destruct ((virt mod as_bytes Size2MiB =? 0) && (phys mod as_bytes Size2MiB =? 0) && (as_bytes Size2MiB <=? size)) eqn:E2.
  { rewrite !andb_true_iff, !Z.eqb_eq, Z.leb_le in E2. apply (Hgo Size2MiB); [lia | right; lia]. }
  apply (Hgo Size4KiB); [done | by left].
Qed.

(** mapping a range of whole pages ends, with as many rounds as pages at most, and
    either maps every address of it in order, whatever page sizes are used, or
    fails after a first part of it; nothing else changes and what it maps was free. *)
Theorem map_range_correct fuel g s tabs virt phys size flags :
  tables_ok g s tabs -> range_ok virt phys size -> (4096 | size) -> flags_ok flags -> size <= 4096 * Z.of_nat fuel ->
  exists r s' tabs' n, map_range fuel g virt phys size flags s = Some (Ret (r, s')) /\ tables_ok g s' tabs' /\ range_mapped g s s' virt phys n /\ 0 <= n <= size /\
    match r with Ok _ => n = size | Err _ => n < size end.
Proof.
  intros Hok Hr Hd Hf Hfuel. unfold map_range. rewrite wrap64_small by (destruct Hr; unfold is_u64, u64_modulus; lia). by apply (map_range_loop_spec fuel g s tabs).
Qed.

(** A range that ends at the end of the address space is reported as mapped although
    nothing is done: its end wraps to zero. *)
Lemma map_range_at_the_top fuel g s phys flags : map_range fuel g (2 ^ 64 - 4096) phys 4096 flags s = Some (Ret (Ok tt, s)).
Proof. unfold map_range. by destruct fuel. Qed.

(** Unmapping one small page in a huge one unmaps all of the huge one. *)
Lemma unmap_takes_whole_page g s tabs virt q sz : tables_ok g s tabs -> is_canonical virt -> (span 3 | virt) -> aspace g s virt = Some (q, sz) ->
  exists p s', unmap_page g virt s = Ret (Ok p, s') /\ forall v, is_canonical v -> v / sz = virt / sz -> aspace g s' v = None.
Proof.
  intros Hok Hv Hd Hq. destruct (unmap_page_spec g s tabs virt Hok Hv) as ([p|e] & s' & Hr & Hok' & Hm).
  - destruct Hm as (k & _ & H1 & _ & H2). rewrite Hq in H1. injection H1 as _ ->. exists p, s'. split; [done|]. intros v Hc E. by rewrite H2, decide_True.
  - destruct Hm as [_ [[_ Hn]|[_ Hn]]]; [congruence | done].
Qed.

End Spec.

(** *** On the buddy allocator *)

(** Frames that the allocator does not have are free for the first table. *)
Lemma buddy_tables_ok `{L : X86PagingLaws} st t :
  buddy_wf st /\ total_frames st <= 2 ^ 35 -> table_at t -> ~ 0 < cover (free_blocks st) (t / PAGE_SIZE_4K) ->
  tables_ok (mkManager t OFF) (mkMachine (clear_table OFF ∅ t) st []) {[ [] := t ]}.
Proof. intros Hi Ht Hf. by apply empty_tables_ok. Qed.

(** The machine of the concrete runs of the allocator; its memory begins at 1 MiB, and
    the top-level table is below it. *)
Definition demo_manager : PageTableManager := mkManager 4096 OFF.
Definition demo_machine : machine (P := Z_paging) (F := buddy_source) := mkMachine (clear_table OFF ∅ 4096) booted [].

Lemma demo_tables_ok : tables_ok demo_manager demo_machine {[ [] := 4096 ]}.
Proof.
  apply buddy_tables_ok; [split; [exact booted_wf | exact booted_total] | split; [unfold MAPPED_LIMIT; lia | by exists 1]|].
  intros Hc. vm_compute in Hc. discriminate.
Qed.

Definition demo_page : Z := 0xFFFFC00000000000.
Definition demo_run : list op := [Map Size4KiB demo_page 0x200000 kernel_data; Map Size2MiB (demo_page + 0x40000000) 0x400000 kernel_data; Protect demo_page kernel_rodata; Unmap demo_page].

Lemma demo_run_ok : Forall op_ok demo_run.
Proof. repeat constructor; try (unfold is_canonical, demo_page; lia); reflexivity. Qed.

Lemma page_tables_refine_address_space_witness :
  exists rs s', exec_all demo_manager demo_run demo_machine = Ret (rs, s') /\ space_run (aspace demo_manager demo_machine) demo_run rs (aspace demo_manager s').
Proof.
  destruct (page_tables_refine_address_space demo_manager demo_machine {[ [] := 4096 ]} demo_run demo_tables_ok demo_run_ok) as (rs & s' & tabs' & H1 & _ & H2 & _).
  exists rs, s'. exact (conj H1 H2).
Defined.

Lemma map_range_correct_witness :
  exists r s' n, map_range 3 demo_manager demo_page 0x100000 0x3000 kernel_data demo_machine = Some (Ret (r, s')) /\ range_mapped demo_manager demo_machine s' demo_page 0x100000 n.
Proof.
  destruct (map_range_correct 3 demo_manager demo_machine {[ [] := 4096 ]} demo_page 0x100000 0x3000 kernel_data demo_tables_ok) as (r & s' & tabs' & n & H1 & _ & H2 & _).
  - unfold range_ok, demo_page. lia.
  - exists 3. reflexivity.
  - reflexivity.
  - lia.
  - exists r, s', n. exact (conj H1 H2).
Defined.

(** Tables are never given back: where a small page was mapped and unmapped, no huge page
    can be mapped although nothing is mapped there. *)
Example unmap_keeps_tables :
  match exec_all demo_manager [Map Size4KiB demo_page 0x200000 kernel_data; Unmap demo_page; Map Size2MiB demo_page 0x200000 kernel_data] demo_machine with
  | Ret (rs, s') => rs = [Ok 0; Ok 0x200000; Err AlreadyMapped] /\ translate OFF (mem s') 4096 demo_page = Ret None
  | Panic => False
  end.
Proof. by vm_compute. Qed.

End HhSpec.
