(* ===== verification/Pipe.v ===== *)
(** * Pipes (src/src/ipc/pipe.rs, lines 1 to 680)

    A ring buffer with free-running positions, the pipe around it (open flags,
    wakers, statistics), its two ends, and the pipe manager.  A waker is a
    number; an operation returns the wakers it wakes, in order.  The ends of a
    pipe share it through an [Arc]: the manager's state holds a store of pipes,
    and an end is the index of its pipe. *)

From stdpp Require Import base list gmap strings.
From Stdlib Require Import ZArith Lia.
From S2P Require Import Prelude.

Local Open Scope Z_scope.

(** ** The ring buffer *)

Record RingBuffer := mkRing {
  rb_buffer : list Z;
  capacity : Z;
  read_pos : Z;
  write_pos : Z
}.

Definition RingBuffer_new (cap : Z) : RingBuffer := mkRing (replicate (Z.to_nat cap) 0) cap 0 0.

Definition rb_len (b : RingBuffer) : Z := write_pos b -w read_pos b.
Definition rb_available (b : RingBuffer) : Z := capacity b -w rb_len b.
Definition rb_is_empty (b : RingBuffer) : bool := rb_len b =? 0.
Definition rb_is_full (b : RingBuffer) : bool := rb_len b >=? capacity b.

(** The loop of [write], from index [i]. *)
Fixpoint copy_in (buf : list Z) (cap wpos i : Z) (data : list Z) : outcome (list Z) :=
  match data with
  | [] => Ret buf
  | d :: data' =>
      if cap =? 0 then Panic
      else
        let pos := (wpos +w i) mod cap in
        let! buf1 := index_set buf (Z.to_nat pos) d in
        copy_in buf1 cap wpos (i + 1) data'
  end.

Definition rb_write (b : RingBuffer) (data : list Z) : outcome (Z * RingBuffer) :=
  let available := rb_available b in
  let to_write := Z.min (Z.of_nat (length data)) available in
  if to_write =? 0 then Ret (0, b)
  else
    let! buf := copy_in (rb_buffer b) (capacity b) (write_pos b) 0 (take (Z.to_nat to_write) data) in
    Ret (to_write, mkRing buf (capacity b) (read_pos b) (write_pos b +w to_write)).

(** The loop of [read] and [peek] for [n] more bytes from index [i]. *)
Fixpoint copy_out (buf : list Z) (cap rpos : Z) (i n : nat) (dst : list Z) : outcome (list Z) :=
  match n with
  | O => Ret dst
  | S n' =>
      if cap =? 0 then Panic
      else
        let pos := (rpos +w Z.of_nat i) mod cap in
        let! d := index buf (Z.to_nat pos) in
        let! dst1 := index_set dst i d in
        copy_out buf cap rpos (S i) n' dst1
  end.

(** Both return the count, the caller's slice and the ring. *)
Definition rb_read (b : RingBuffer) (buf : list Z) : outcome (Z * list Z * RingBuffer) :=
  let to_read := Z.min (Z.of_nat (length buf)) (rb_len b) in
  if to_read =? 0 then Ret (0, buf, b)
  else
    let! buf1 := copy_out (rb_buffer b) (capacity b) (read_pos b) 0 (Z.to_nat to_read) buf in
    Ret (to_read, buf1, mkRing (rb_buffer b) (capacity b) (read_pos b +w to_read) (write_pos b)).

Definition rb_peek (b : RingBuffer) (buf : list Z) : outcome (Z * list Z) :=
  let to_read := Z.min (Z.of_nat (length buf)) (rb_len b) in
  if to_read =? 0 then Ret (0, buf)
  else
    let! buf1 := copy_out (rb_buffer b) (capacity b) (read_pos b) 0 (Z.to_nat to_read) buf in
    Ret (to_read, buf1).

(** ** The pipe *)

Definition DEFAULT_BUFFER_SIZE : Z := 65536.
Definition MIN_BUFFER_SIZE : Z := 4096.
Definition MAX_BUFFER_SIZE : Z := 1048576.

Inductive PipeError :=
| BrokenPipe | WouldBlock | InvalidFd | CreationFailed | OutOfMemory
| ReaderClosed | WriterClosed | Timeout | Interrupted.

#[export] Instance PipeError_eq_dec : EqDecision PipeError.
Proof. solve_decision. Defined.

Record PipeFlags := mkFlags { non_blocking : bool; cloexec : bool; direct : bool }.
Definition PipeFlags_default : PipeFlags := mkFlags false false false.

Record PipeStats := mkPipeStats {
  bytes_read : Z; bytes_written : Z; read_ops : Z; write_ops : Z; read_blocks : Z; write_blocks : Z
}.
Definition PipeStats_new : PipeStats := mkPipeStats 0 0 0 0 0 0.

Definition Waker : Type := Z.

Record PipeInner := mkPipe {
  pipe_id : Z;
  buffer : RingBuffer;
  reader_open : bool;
  writer_open : bool;
  read_wakers : list Waker;
  write_wakers : list Waker;
  stats : PipeStats;
  flags : PipeFlags
}.

Definition PipeInner_new (id buffer_size : Z) (fl : PipeFlags) : PipeInner :=
  mkPipe id (RingBuffer_new buffer_size) true true [] [] PipeStats_new fl.

(** [Poll<Result<usize, PipeError>>] *)
Inductive poll (A : Type) := Ready (a : A) | Pending.
Arguments Ready {A} a.
Arguments Pending {A}.

Definition with_buffer (p : PipeInner) (b : RingBuffer) : PipeInner :=
  mkPipe (pipe_id p) b (reader_open p) (writer_open p) (read_wakers p) (write_wakers p) (stats p) (flags p).

(** The pipe after the end is closed and the wakers woken, all in order. *)
Definition close_reader (p : PipeInner) : PipeInner * list Waker :=
  (mkPipe (pipe_id p) (buffer p) false (writer_open p) (read_wakers p) [] (stats p) (flags p), write_wakers p).

Definition close_writer (p : PipeInner) : PipeInner * list Waker :=
  (mkPipe (pipe_id p) (buffer p) (reader_open p) false [] (write_wakers p) (stats p) (flags p), read_wakers p).

Definition note_read (s : PipeStats) (n : Z) : PipeStats :=
  mkPipeStats (bytes_read s +w n) (bytes_written s) (read_ops s +w 1) (write_ops s) (read_blocks s) (write_blocks s).
Definition note_write (s : PipeStats) (n : Z) : PipeStats :=
  mkPipeStats (bytes_read s) (bytes_written s +w n) (read_ops s) (write_ops s +w 1) (read_blocks s) (write_blocks s).
Definition note_read_block (s : PipeStats) : PipeStats :=
  mkPipeStats (bytes_read s) (bytes_written s) (read_ops s) (write_ops s) (read_blocks s +w 1) (write_blocks s).
Definition note_write_block (s : PipeStats) : PipeStats :=
  mkPipeStats (bytes_read s) (bytes_written s) (read_ops s) (write_ops s) (read_blocks s) (write_blocks s +w 1).

(** The second part of [poll_read], under the lock of the buffer. *)
Definition poll_read_buffer (p : PipeInner) (buf : list Z) (cx : Waker) :
    outcome (poll (result Z PipeError) * list Z * PipeInner * list Waker) :=
  let! (read, buf1, b1) := rb_read (buffer p) buf in
  if read >? 0 then
    Ret (Ready (Ok read), buf1,
         mkPipe (pipe_id p) b1 (reader_open p) (writer_open p) (read_wakers p) (tail (write_wakers p))
           (note_read (stats p) read) (flags p),
         take 1 (write_wakers p))
  else if non_blocking (flags p) then Ret (Ready (Err WouldBlock), buf1, with_buffer p b1, [])
  else
    Ret (Pending, buf1,
         mkPipe (pipe_id p) b1 (reader_open p) (writer_open p) (read_wakers p ++ [cx]) (write_wakers p)
           (note_read_block (stats p)) (flags p),
         []).

Definition poll_read (p : PipeInner) (buf : list Z) (cx : Waker) :
    outcome (poll (result Z PipeError) * list Z * PipeInner * list Waker) :=
  if negb (writer_open p) && rb_is_empty (buffer p) then Ret (Ready (Ok 0), buf, p, [])
  else poll_read_buffer p buf cx.

Definition poll_write (p : PipeInner) (data : list Z) (cx : Waker) :
    outcome (poll (result Z PipeError) * PipeInner * list Waker) :=
  if negb (reader_open p) then Ret (Ready (Err BrokenPipe), p, [])
  else
    let! (written, b1) := rb_write (buffer p) data in
    if written >? 0 then
      Ret (Ready (Ok written),
           mkPipe (pipe_id p) b1 (reader_open p) (writer_open p) (tail (read_wakers p)) (write_wakers p)
             (note_write (stats p) written) (flags p),
           take 1 (read_wakers p))
    else if non_blocking (flags p) then Ret (Ready (Err WouldBlock), with_buffer p b1, [])
    else
      Ret (Pending,
           mkPipe (pipe_id p) b1 (reader_open p) (writer_open p) (read_wakers p) (write_wakers p ++ [cx])
             (note_write_block (stats p)) (flags p),
           []).

Definition buffer_size (p : PipeInner) : Z := capacity (buffer p).
Definition data_len (p : PipeInner) : Z := rb_len (buffer p).

(** The ends' synchronous operations. *)
Definition read_sync (p : PipeInner) (buf : list Z) : outcome (result Z PipeError * list Z * PipeInner) :=
  let! (read, buf1, b1) := rb_read (buffer p) buf in
  Ret (if read >? 0 then Ok read else if negb (writer_open p) then Ok 0 else Err WouldBlock,
       buf1, with_buffer p b1).

Definition write_sync (p : PipeInner) (data : list Z) : outcome (result Z PipeError * PipeInner) :=
  if negb (reader_open p) then Ret (Err BrokenPipe, p)
  else
    let! (written, b1) := rb_write (buffer p) data in
    Ret (if written >? 0 then Ok written else Err WouldBlock, with_buffer p b1).

(** Dropping an end. *)
Definition drop_reader := close_reader.
Definition drop_writer := close_writer.

(** ** The pipe manager *)

(** A [PipeReader], [PipeWriter] or [NamedPipe] holds the location of its pipe. *)
Record Pipe := mkPipePair { reader : nat; writer : nat }.
Record NamedPipe := mkNamed { np_inner : nat; np_name : string }.

Record PipeManager := mkManager {
  store : list PipeInner;
  next_id : Z;
  named_pipes : gmap string nat;
  total_created : Z;
  total_destroyed : Z
}.

Definition PipeManager_new : PipeManager := mkManager [] 1 ∅ 0 0.

(** [Arc::new] *)
Definition alloc_pipe (m : PipeManager) (p : PipeInner) : nat * PipeManager :=
  (length (store m),
   mkManager (store m ++ [p]) (next_id m) (named_pipes m) (total_created m) (total_destroyed m)).

(** [next_id.fetch_add(1)] *)
Definition take_id (m : PipeManager) : Z * PipeManager :=
  (next_id m, mkManager (store m) (next_id m +w 1) (named_pipes m) (total_created m) (total_destroyed m)).

Definition count_created (m : PipeManager) : PipeManager :=
  mkManager (store m) (next_id m) (named_pipes m) (total_created m +w 1) (total_destroyed m).

Definition Pipe_with_options (m : PipeManager) (id size : Z) (fl : PipeFlags) : Pipe * PipeManager :=
  let '(loc, m1) := alloc_pipe m (PipeInner_new id size fl) in
  (mkPipePair loc loc, m1).

Definition create_with_options (m : PipeManager) (size : Z) (fl : PipeFlags) : Pipe * PipeManager :=
  let '(id, m1) := take_id m in
  Pipe_with_options (count_created m1) id size fl.

Definition create (m : PipeManager) : Pipe * PipeManager :=
  create_with_options m DEFAULT_BUFFER_SIZE PipeFlags_default.

Definition create_named (m : PipeManager) (name : string) : result NamedPipe PipeError * PipeManager :=
  let '(id, m1) := take_id m in
  let '(loc, m2) := alloc_pipe m1 (PipeInner_new id DEFAULT_BUFFER_SIZE PipeFlags_default) in
  match named_pipes m2 !! name with
  | Some _ => (Err CreationFailed, m2)
  | None =>
      (Ok (mkNamed loc name),
       count_created (mkManager (store m2) (next_id m2) (<[name := loc]> (named_pipes m2))
                        (total_created m2) (total_destroyed m2)))
  end.

Definition open_named (m : PipeManager) (name : string) : option NamedPipe :=
  (fun loc => mkNamed loc name) <$> named_pipes m !! name.

Definition remove_named (m : PipeManager) (name : string) : bool * PipeManager :=
  match named_pipes m !! name with
  | Some _ =>
      (true, mkManager (store m) (next_id m) (delete name (named_pipes m)) (total_created m) (total_destroyed m +w 1))
  | None => (false, m)
  end.

(** The ends of a named pipe. *)
Definition named_reader (np : NamedPipe) : nat := np_inner np.
Definition named_writer (np : NamedPipe) : nat := np_inner np.

(** An operation on the pipe behind an end. *)
Definition on_pipe {A} (m : PipeManager) (loc : nat) (f : PipeInner -> A * PipeInner) : option (A * PipeManager) :=
  match store m !! loc with
  | Some p =>
      let '(a, p1) := f p in
      Some (a, mkManager (<[loc := p1]> (store m)) (next_id m) (named_pipes m) (total_created m) (total_destroyed m))
  | None => None
  end.

Definition pipe := create.
Definition pipe2 (m : PipeManager) (fl : PipeFlags) : Pipe * PipeManager :=
  create_with_options m DEFAULT_BUFFER_SIZE fl.
Definition mkfifo := create_named.
