(* ===== verification/PipeTheorems.v ===== *)
(** * Pipes: byte streams, end of file, wake-ups, names *)

From stdpp Require Import base list gmap strings relations.
From Stdlib Require Import ZArith Lia.
From S2P Require Import Prelude Pipe.

Local Open Scope Z_scope.

(** * The pipe as a queue of bytes *)

(** ** The ring buffer refines a bounded queue *)

(** The byte at offset [i] from a position. *)
Definition slot (cap pos i : Z) : nat := Z.to_nat ((pos + i) mod cap).

Definition byte_at (buf : list Z) (cap pos i : Z) : Z := default 0 (buf !! slot cap pos i).

(** The abstract queue of a ring buffer. *)
Definition contents (b : RingBuffer) : list Z :=
  byte_at (rb_buffer b) (capacity b) (read_pos b) <$> seqZ 0 (rb_len b).

(** The capacity divides the range of the positions (every power of two does),
    so that the positions may wrap. *)
Record ring_ok (b : RingBuffer) : Prop := {
  ro_pos : 0 < capacity b < u64_modulus;
  ro_div : (capacity b | u64_modulus);
  ro_length : length (rb_buffer b) = Z.to_nat (capacity b);
  ro_read : is_u64 (read_pos b);
  ro_write : is_u64 (write_pos b);
  ro_len : rb_len b <= capacity b
}.

Lemma rb_len_nonneg (b : RingBuffer) : 0 <= rb_len b < u64_modulus.
Proof. apply wrap64_range. Qed.

Lemma wrap_mod (z cap : Z) : (cap | u64_modulus) -> wrap64 z mod cap = z mod cap.
Proof. apply Z.mod_mod_divide. Qed.

Lemma wrap_slot (cap pos i : Z) :
  (cap | u64_modulus) -> Z.to_nat ((pos +w i) mod cap) = slot cap pos i.
Proof. intros H. unfold slot. by rewrite wrap_mod. Qed.

Lemma slot_lt (cap pos i : Z) : 0 < cap -> (slot cap pos i < Z.to_nat cap)%nat.
Proof. intros H. unfold slot. pose proof (Z.mod_pos_bound (pos + i) cap). lia. Qed.

(** Offsets closer than the capacity have different slots. *)
Lemma slot_inj (cap pos i j : Z) :
  0 < cap -> i < j < i + cap -> slot cap pos i <> slot cap pos j.
Proof.
  intros Hc Hij Heq. unfold slot in Heq.
  pose proof (Z.mod_pos_bound (pos + i) cap Hc). pose proof (Z.mod_pos_bound (pos + j) cap Hc).
  apply Z2Nat.inj in Heq; [|lia..].
  pose proof (Z.div_mod (pos + i) cap ltac:(lia)). pose proof (Z.div_mod (pos + j) cap ltac:(lia)).
  assert (j - i = cap * ((pos + j) / cap - (pos + i) / cap)) as Hd by (rewrite Z.mul_sub_distr_l; lia).
  set (q := (pos + j) / cap - (pos + i) / cap) in *. clearbody q. clear - Hc Hij Hd. destruct (Z.le_gt_cases q 0); nia.
Qed.

Lemma slot_shift (cap pos n i : Z) : (cap | u64_modulus) -> slot cap (pos +w n) i = slot cap pos (n + i).
Proof.
  intros H. unfold slot. f_equal. rewrite <- Zplus_mod_idemp_l, wrap_mod by done.
  rewrite Zplus_mod_idemp_l. f_equal. lia.
Qed.

(** What [copy_in] stores, and that it stores nothing else. *)
Lemma copy_in_spec (data buf : list Z) (cap wpos i : Z) :
  0 < cap -> (cap | u64_modulus) -> length buf = Z.to_nat cap -> Z.of_nat (length data) <= cap ->
  exists buf', copy_in buf cap wpos i data = Ret buf' /\ length buf' = length buf /\
    (forall (j : nat) d, data !! j = Some d -> buf' !! slot cap wpos (i + Z.of_nat j) = Some d) /\
    (forall k, (forall j : nat, (j < length data)%nat -> k <> slot cap wpos (i + Z.of_nat j)) -> buf' !! k = buf !! k).
Proof.
  intros Hc Hdiv. revert buf i. induction data as [|d data IH]; intros buf i Hlen Hfit; simpl.
  - exists buf. done.
  - destruct (Z.eqb_spec cap 0); [lia|]. rewrite wrap_slot by done.
    pose proof (slot_lt cap wpos i Hc) as Hs. simpl in Hfit.
    rewrite (proj2 (index_set_Ret buf (<[slot cap wpos i := d]> buf) (slot cap wpos i) d)) by (split; [lia | done]).
    cbn [obind]. destruct (IH (<[slot cap wpos i := d]> buf) (i + 1)) as (buf' & -> & Hl & Ha & Hb);
      [by rewrite length_insert | lia|].
    exists buf'. split; [done|]. rewrite length_insert in Hl. split; [done|]. split.
    + intros [|j] x; simpl.
      * intros [= <-]. rewrite Z.add_0_r, Hb; [apply list_lookup_insert_eq; lia|].
        intros j Hj. apply slot_inj; lia.
      * intros Hx. rewrite <- (Ha j x Hx). f_equal. f_equal. lia.
    + intros k Hk. rewrite Hb.
      * apply list_lookup_insert_ne. specialize (Hk 0%nat). rewrite Z.add_0_r in Hk. intros Heq. apply Hk; [lia | done].
      * intros j Hj. specialize (Hk (S j)). replace (i + 1 + Z.of_nat j) with (i + Z.of_nat (S j)) by lia. apply Hk. lia.
Qed.

Lemma copy_out_spec (buf : list Z) (cap rpos : Z) (n : nat) :
  0 < cap -> (cap | u64_modulus) -> length buf = Z.to_nat cap ->
  forall (i : nat) (dst : list Z), (i + n <= length dst)%nat ->
  copy_out buf cap rpos i n dst =
    Ret (take i dst ++ (byte_at buf cap rpos <$> seqZ (Z.of_nat i) (Z.of_nat n)) ++ drop (i + n) dst).
Proof.
  intros Hc Hdiv Hlen. induction n as [|n IH]; intros i dst Hi; cbn [copy_out].
  - rewrite Nat.add_0_r. simpl. by rewrite take_drop.
  - destruct (Z.eqb_spec cap 0); [lia|]. rewrite wrap_slot by done.
    pose proof (slot_lt cap rpos (Z.of_nat i) Hc) as Hs.
    destruct (lookup_lt_is_Some_2 buf (slot cap rpos (Z.of_nat i))) as [d Hd]; [lia|].
    rewrite (proj2 (index_Ret _ _ _) Hd). cbn [obind].
    rewrite (proj2 (index_set_Ret dst (<[i := d]> dst) i d)) by (split; [lia | done]). cbn [obind].
    rewrite IH by (rewrite length_insert; lia). f_equal.
    rewrite (take_S_r _ i d) by (apply list_lookup_insert_eq; lia).
    rewrite take_insert_ge by lia.
    rewrite <- app_assoc. f_equal. rewrite (seqZ_cons (Z.of_nat i)) by lia.
    cbn [fmap list_fmap app]. unfold byte_at at 2. rewrite Hd. cbn [default app]. f_equal.
    replace (Z.pred (Z.of_nat (S n))) with (Z.of_nat n) by lia.
    replace (Z.succ (Z.of_nat i)) with (Z.of_nat (S i)) by lia. f_equal.
    replace (S i + n)%nat with (i + S n)%nat by lia. by rewrite drop_insert_lt by lia.
Qed.

Lemma contents_length (b : RingBuffer) : length (contents b) = Z.to_nat (rb_len b).
Proof. unfold contents. by rewrite length_fmap, length_seqZ. Qed.

(** The number of bytes a ring accepts. *)
Definition room (b : RingBuffer) : Z := capacity b - rb_len b.

Lemma available_room (b : RingBuffer) : ring_ok b -> rb_available b = room b.
Proof.
  intros Hok. unfold rb_available, room. apply wrap64_small. unfold is_u64.
  pose proof (rb_len_nonneg b). pose proof (ro_len b Hok).
  pose proof (ro_pos b Hok). lia.
Qed.

(** Adding to the write position or the read position within the room. *)
Lemma len_add (b : RingBuffer) (n : Z) :
  0 <= n -> rb_len b + n < u64_modulus -> wrap64 ((write_pos b +w n) - read_pos b) = rb_len b + n.
Proof.
  intros Hn Hlt. pose proof (rb_len_nonneg b). unfold rb_len in *. unfold wrap64 in *.
  rewrite Zminus_mod_idemp_l. replace (write_pos b + n - read_pos b) with (write_pos b - read_pos b + n) by lia.
  rewrite <- Zplus_mod_idemp_l. apply Z.mod_small. lia.
Qed.

Lemma len_sub (b : RingBuffer) (n : Z) :
  0 <= n <= rb_len b -> wrap64 (write_pos b - (read_pos b +w n)) = rb_len b - n.
Proof.
  intros Hn. pose proof (rb_len_nonneg b). unfold rb_len in *. unfold wrap64 in *.
  rewrite Zminus_mod_idemp_r. replace (write_pos b - (read_pos b + n)) with (write_pos b - read_pos b - n) by lia.
  rewrite <- Zminus_mod_idemp_l. apply Z.mod_small. lia.
Qed.

(** The write position is the read position plus the length. *)
Lemma slot_write_pos (b : RingBuffer) (i : Z) :
  (capacity b | u64_modulus) -> slot (capacity b) (write_pos b) i = slot (capacity b) (read_pos b) (rb_len b + i).
Proof.
  intros H. unfold slot. f_equal. unfold rb_len.
  rewrite <- (Zplus_mod_idemp_r (_ + i)), <- (Zplus_mod_idemp_l (wrap64 _)), wrap_mod by done.
  rewrite Zplus_mod_idemp_l, Zplus_mod_idemp_r. f_equal. lia.
Qed.

(** [write] appends as many bytes as there is room for. *)
Lemma rb_write_spec (b : RingBuffer) (data : list Z) :
  ring_ok b ->
  let n := Z.min (Z.of_nat (length data)) (room b) in
  exists b', rb_write b data = Ret (n, b') /\ ring_ok b' /\ capacity b' = capacity b /\
    contents b' = contents b ++ take (Z.to_nat n) data.
Proof.
  intros Hok n. pose proof (rb_len_nonneg b) as Hl0. pose proof Hok as [Hc Hdiv Hlen Hr Hw Hle].
  unfold rb_write. rewrite available_room by done. fold n.
  assert (Hn : 0 <= n <= room b) by (unfold n, room in *; lia).
  destruct (Z.eqb_spec n 0) as [->|Hne].
  { exists b. split; [done|]. split; [done|]. split; [done|]. by rewrite app_nil_r. }
  assert (Hfit : length (take (Z.to_nat n) data) = Z.to_nat n) by (rewrite length_take; unfold n in *; lia).
  destruct (copy_in_spec (take (Z.to_nat n) data) (rb_buffer b) (capacity b) (write_pos b) 0)
    as (buf' & -> & Hl & Ha & Hb); [lia | done | done | unfold room in *; lia |].
  cbn [obind]. eexists. split; [done|]. rewrite Hfit in Hb.
  set (b' := mkRing _ _ _ _). unfold room in Hn.
  assert (Hlen' : rb_len b' = rb_len b + n) by (apply (len_add b n); lia).
  split; [|split; [done|]].
  - split; cbn [b' rb_buffer capacity read_pos write_pos]; try done.
    + by rewrite Hl.
    + apply wrap64_range.
    + rewrite Hlen'. lia.
  - unfold contents. rewrite Hlen'. cbn [b' rb_buffer capacity read_pos].
    rewrite (seqZ_app 0 (rb_len b) n) by lia. rewrite fmap_app, Z.add_0_l. f_equal.
    + apply list_fmap_ext. intros _ i Hi%list_elem_of_lookup_2%elem_of_seqZ. unfold byte_at. f_equal. apply Hb.
      intros j Hj. rewrite slot_write_pos by done. apply slot_inj; lia.
    + apply list_eq_same_length with (n := Z.to_nat n); [|by rewrite length_fmap, length_seqZ|].
      * done.
      * intros j x y Hj. rewrite list_lookup_fmap, lookup_seqZ_lt by lia. simpl. intros [= <-] Hy.
        unfold byte_at. specialize (Ha j y Hy). rewrite slot_write_pos in Ha by done. rewrite Z.add_0_l in Ha.
        by rewrite Ha.
Qed.

(** [read] moves the oldest bytes into the caller's slice. *)
Lemma rb_read_spec (b : RingBuffer) (buf : list Z) :
  ring_ok b ->
  let n := Z.min (Z.of_nat (length buf)) (rb_len b) in
  exists b', rb_read b buf = Ret (n, take (Z.to_nat n) (contents b) ++ drop (Z.to_nat n) buf, b') /\
    ring_ok b' /\ capacity b' = capacity b /\ contents b' = drop (Z.to_nat n) (contents b).
Proof.
  intros Hok n. pose proof (rb_len_nonneg b) as Hl0. pose proof Hok as [Hc Hdiv Hlen Hr Hw Hle].
  unfold rb_read. fold n. assert (Hn : 0 <= n <= rb_len b) by (unfold n; lia).
  destruct (Z.eqb_spec n 0) as [->|Hne]; [by exists b|].
  rewrite copy_out_spec by (lia || done || (unfold n in *; lia)). cbn [obind].
  assert (Hsplit : contents b =
    (byte_at (rb_buffer b) (capacity b) (read_pos b) <$> seqZ 0 n) ++
    (byte_at (rb_buffer b) (capacity b) (read_pos b) <$> seqZ n (rb_len b - n))).
  { unfold contents. rewrite <- fmap_app. f_equal. replace (rb_len b) with (n + (rb_len b - n)) at 1 by lia.
    by rewrite seqZ_app by lia. }
  assert (Hfl : length (byte_at (rb_buffer b) (capacity b) (read_pos b) <$> seqZ 0 n) = Z.to_nat n)
    by (by rewrite length_fmap, length_seqZ).
  exists (mkRing (rb_buffer b) (capacity b) (read_pos b +w n) (write_pos b)).
  split; [|split; [|split; [done|]]].
  - rewrite take_0, !app_nil_l, Nat.add_0_l. rewrite Z2Nat.id by lia.
    rewrite Hsplit, take_app_length' by (symmetry; exact Hfl). reflexivity.
  - split; cbn [rb_buffer capacity read_pos write_pos]; try done.
    + apply wrap64_range.
    + unfold rb_len. cbn [read_pos write_pos]. rewrite len_sub by lia. lia.
  - rewrite Hsplit, drop_app_length' by (symmetry; exact Hfl). unfold contents, rb_len at 1. cbn [rb_buffer capacity read_pos write_pos].
    rewrite len_sub by lia. apply list_eq_same_length with (n := Z.to_nat (rb_len b - n));
      [by rewrite length_fmap, length_seqZ..|].
    intros j x y Hj. rewrite !list_lookup_fmap, !lookup_seqZ_lt by lia. simpl. intros [= <-] [= <-].
    unfold byte_at. by rewrite slot_shift.
Qed.

(** [peek] shows them and leaves them. *)
Lemma rb_peek_spec (b : RingBuffer) (buf : list Z) :
  ring_ok b ->
  let n := Z.min (Z.of_nat (length buf)) (rb_len b) in
  rb_peek b buf = Ret (n, take (Z.to_nat n) (contents b) ++ drop (Z.to_nat n) buf).
Proof.
  intros Hok n. destruct (rb_read_spec b buf Hok) as (b' & Hread & _). fold n in Hread.
  unfold rb_peek. unfold rb_read in Hread. fold n in Hread |- *.
  destruct (n =? 0); [by injection Hread as <- _|].
  destruct (copy_out _ _ _ _ _ _); [|done]. simpl in *. injection Hread as -> _. done.
Qed.

Lemma ring_new_ok (k : nat) :
  (k < 64)%nat -> ring_ok (RingBuffer_new (2 ^ Z.of_nat k)) /\ contents (RingBuffer_new (2 ^ Z.of_nat k)) = [].
Proof.
  intros Hk. pose proof (pow2_pos k). split; [|done]. split; simpl; try done.
  - split; [done|]. apply Z.pow_lt_mono_r; lia.
  - change u64_modulus with (2 ^ Z.of_nat 64). apply pow2_divide. lia.
  - apply length_replicate.
  - unfold rb_len. simpl. rewrite wrap64_small by done. lia.
Qed.

Definition pipe_ok (p : PipeInner) : Prop := ring_ok (buffer p).
Definition pipe_contents (p : PipeInner) : list Z := contents (buffer p).

Lemma empty_contents (b : RingBuffer) : rb_is_empty b = true <-> contents b = [].
Proof.
  unfold rb_is_empty. rewrite Z.eqb_eq. pose proof (rb_len_nonneg b). pose proof (contents_length b) as Hl.
  split; intros E.
  - apply length_zero_iff_nil. rewrite Hl, E. done.
  - rewrite E in Hl. simpl in Hl. lia.
Qed.

(** ** The operations, branch by branch *)

(** What a read of at most [k] bytes takes. *)
Definition read_count (p : PipeInner) (k : nat) : nat := Nat.min k (length (pipe_contents p)).
(** What a write of [k] bytes adds. *)
Definition write_count (p : PipeInner) (k : nat) : nat := Z.to_nat (Z.min (Z.of_nat k) (room (buffer p))).

(** A read as [poll_read] and [read_sync] do it. *)
Lemma ring_read (p : PipeInner) (buf : list Z) :
  pipe_ok p ->
  let n := read_count p (length buf) in
  exists b', rb_read (buffer p) buf = Ret (Z.of_nat n, take n (pipe_contents p) ++ drop n buf, b') /\
    ring_ok b' /\ capacity b' = capacity (buffer p) /\ contents b' = drop n (pipe_contents p).
Proof.
  intros Hok n. destruct (rb_read_spec (buffer p) buf Hok) as (b' & Heq & Hok' & Hc & Hcont).
  pose proof (rb_len_nonneg (buffer p)). pose proof (contents_length (buffer p)) as Hl.
  assert (Hn : Z.to_nat (Z.min (Z.of_nat (length buf)) (rb_len (buffer p))) = n).
  { unfold n, read_count, pipe_contents. rewrite Hl. lia. }
  rewrite Hn in Heq, Hcont. exists b'. split; [|done]. rewrite Heq. repeat f_equal. lia.
Qed.

Lemma ring_write (p : PipeInner) (data : list Z) :
  pipe_ok p ->
  let n := write_count p (length data) in
  exists b', rb_write (buffer p) data = Ret (Z.of_nat n, b') /\
    ring_ok b' /\ capacity b' = capacity (buffer p) /\ contents b' = pipe_contents p ++ take n data.
Proof.
  intros Hok n. destruct (rb_write_spec (buffer p) data Hok) as (b' & Heq & Hok' & Hc & Hcont).
  exists b'. split; [|done]. rewrite Heq. repeat f_equal. unfold n, write_count.
  pose proof (ro_len _ Hok). unfold room. lia.
Qed.

(** ** Runs of operations *)

Inductive pipe_op :=
| PollRead (buf : list Z) (cx : Waker)
| PollWrite (data : list Z) (cx : Waker)
| ReadSync (buf : list Z)
| WriteSync (data : list Z)
| CloseReader
| CloseWriter.

(** The bytes a result says were transferred. *)
Definition transferred (r : result Z PipeError) (l : list Z) : list Z :=
  match r with
  | Ok n => take (Z.to_nat n) l
  | Err _ => []
  end.
Definition poll_transferred (r : poll (result Z PipeError)) (l : list Z) : list Z :=
  match r with
  | Ready r => transferred r l
  | Pending => []
  end.

(** The next state, the bytes accepted and the bytes delivered. *)
Definition pipe_step (p : PipeInner) (op : pipe_op) : outcome (PipeInner * list Z * list Z) :=
  match op with
  | PollRead buf cx =>
      let! (r, buf1, p1, _) := poll_read p buf cx in Ret (p1, [], poll_transferred r buf1)
  | PollWrite data cx =>
      let! (r, p1, _) := poll_write p data cx in Ret (p1, poll_transferred r data, [])
  | ReadSync buf => let! (r, buf1, p1) := read_sync p buf in Ret (p1, [], transferred r buf1)
  | WriteSync data => let! (r, p1) := write_sync p data in Ret (p1, transferred r data, [])
  | CloseReader => Ret ((close_reader p).1, [], [])
  | CloseWriter => Ret ((close_writer p).1, [], [])
  end.

Fixpoint pipe_run (p : PipeInner) (ops : list pipe_op) : outcome (PipeInner * list Z * list Z) :=
  match ops with
  | [] => Ret (p, [], [])
  | op :: ops' =>
      let! (p1, s1, g1) := pipe_step p op in
      let! (p2, s2, g2) := pipe_run p1 ops' in
      Ret (p2, s1 ++ s2, g1 ++ g2)
  end.

(** The read queue is empty once the writer is gone, and the other way round. *)
Definition parked_ok (p : PipeInner) : Prop :=
  (writer_open p = false -> read_wakers p = []) /\ (reader_open p = false -> write_wakers p = []).

Lemma transferred_read (n : nat) (c buf : list Z) :
  (n <= length c)%nat -> transferred (Ok (Z.of_nat n)) (take n c ++ drop n buf) = take n c.
Proof.
  intros Hn. simpl. rewrite Nat2Z.id. rewrite take_app_length'; [done|]. rewrite length_take. lia.
Qed.

Lemma ifgt_pos {A} (n : nat) (x y : A) : (if Z.of_nat n >? 0 then x else y) = if decide (n = 0)%nat then y else x.
Proof. destruct (Z.gtb_spec (Z.of_nat n) 0), (decide (n = 0%nat)); (done || lia). Qed.

(** The outcome of [poll_read] on every branch. *)
Lemma poll_read_cases (p : PipeInner) (buf : list Z) (cx : Waker) :
  pipe_ok p ->
  let n := read_count p (length buf) in
  exists r buf' p' ws, poll_read p buf cx = Ret (r, buf', p', ws) /\ pipe_ok p' /\
    reader_open p' = reader_open p /\ writer_open p' = writer_open p /\
    pipe_contents p' = drop n (pipe_contents p) /\
    poll_transferred r buf' = take n (pipe_contents p) /\
    ((n <> 0%nat /\ r = Ready (Ok (Z.of_nat n)) /\ ws = take 1 (write_wakers p) /\
        write_wakers p' = tail (write_wakers p) /\ read_wakers p' = read_wakers p) \/
     (n = 0%nat /\ writer_open p = false /\ pipe_contents p = [] /\ r = Ready (Ok 0) /\ p' = p /\ ws = []) \/
     (n = 0%nat /\ (writer_open p = true \/ pipe_contents p <> []) /\ ws = [] /\ write_wakers p' = write_wakers p /\
        if non_blocking (flags p) then r = Ready (Err WouldBlock) /\ read_wakers p' = read_wakers p
        else r = Pending /\ read_wakers p' = read_wakers p ++ [cx])).
Proof.
  intros Hok n. unfold poll_read.
  destruct (negb (writer_open p) && rb_is_empty (buffer p)) eqn:Eof.
  { apply andb_true_iff in Eof as [Hw He]. apply negb_true_iff in Hw. apply empty_contents in He.
    assert (Hn0 : n = 0%nat) by (unfold n, read_count, pipe_contents; rewrite He; simpl; lia).
    exists (Ready (Ok 0)), buf, p, []. rewrite Hn0. split; [done|]. split; [done|]. do 4 (split; [done|]).
    right. left. done. }
  assert (Hne : writer_open p = true \/ pipe_contents p <> []).
  { apply andb_false_iff in Eof as [Hw|He]; [left; by apply negb_false_iff|right].
    intros Hc%empty_contents. congruence. }
  unfold poll_read_buffer. destruct (ring_read p buf Hok) as (b' & -> & Hok' & _ & Hc). fold n in Hc |- *.
  cbn [obind]. rewrite ifgt_pos. destruct (decide (n = 0%nat)) as [Hn|Hn].
  - rewrite Hn. rewrite Hn in Hc. destruct (non_blocking (flags p)) eqn:Enb; do 4 eexists; (split; [done|]);
      (split; [done|]); do 4 (split; [done|]); right; right; done.
  - do 4 eexists. split; [done|]. split; [done|]. do 3 (split; [done|]). split.
    + apply transferred_read. unfold n, read_count. lia.
    + left. done.
Qed.

Lemma poll_write_cases (p : PipeInner) (data : list Z) (cx : Waker) :
  pipe_ok p ->
  let n := write_count p (length data) in
  exists r p' ws, poll_write p data cx = Ret (r, p', ws) /\ pipe_ok p' /\
    reader_open p' = reader_open p /\ writer_open p' = writer_open p /\
    ((reader_open p = false /\ r = Ready (Err BrokenPipe) /\ p' = p /\ ws = []) \/
     (reader_open p = true /\ pipe_contents p' = pipe_contents p ++ take n data /\
       ((n <> 0%nat /\ r = Ready (Ok (Z.of_nat n)) /\ ws = take 1 (read_wakers p) /\
           read_wakers p' = tail (read_wakers p) /\ write_wakers p' = write_wakers p) \/
        (n = 0%nat /\ ws = [] /\ read_wakers p' = read_wakers p /\
           if non_blocking (flags p) then r = Ready (Err WouldBlock) /\ write_wakers p' = write_wakers p
           else r = Pending /\ write_wakers p' = write_wakers p ++ [cx])))).
Proof.
  intros Hok n. unfold poll_write. destruct (reader_open p) eqn:Er; simpl.
  2:{ exists (Ready (Err BrokenPipe)), p, []. split; [done|]. split; [done|]. split; [done|]. split; [done|]. by left. }
  destruct (ring_write p data Hok) as (b' & -> & Hok' & _ & Hc). fold n in Hc |- *.
  cbn [obind]. rewrite ifgt_pos. destruct (decide (n = 0%nat)) as [Hn|Hn].
  - destruct (non_blocking (flags p)) eqn:Enb; do 3 eexists; (split; [done|]);
      (split; [done|]); do 2 (split; [done|]); right; (split; [done|]); (split; [done|]); right; done.
  - do 3 eexists. split; [done|]. split; [done|]. do 2 (split; [done|]). right.
    split; [done|]. split; [done|]. left. done.
Qed.

Lemma poll_write_transferred (p p' : PipeInner) (data : list Z) (cx : Waker) r ws :
  pipe_ok p -> poll_write p data cx = Ret (r, p', ws) ->
  pipe_contents p ++ poll_transferred r data = pipe_contents p'.
Proof.
  intros Hok Heq. destruct (poll_write_cases p data cx Hok) as (r' & p1 & ws' & Heq' & _ & _ & _ & H).
  rewrite Heq in Heq'. injection Heq' as <- <- <-.
  destruct H as [(_ & -> & -> & _) | (_ & Hc & [(_ & -> & _) | (Hn & _ & _ & Hr)])].
  - apply app_nil_r.
  - rewrite Hc. simpl. by rewrite Nat2Z.id.
  - rewrite Hc, Hn. simpl. destruct (non_blocking (flags p)); destruct Hr as [-> _]; done.
Qed.

(** One operation moves bytes through the queue in order. *)
Lemma pipe_step_spec (p : PipeInner) (op : pipe_op) :
  pipe_ok p ->
  exists p' s g, pipe_step p op = Ret (p', s, g) /\ pipe_ok p' /\
    pipe_contents p ++ s = g ++ pipe_contents p'.
Proof.
  intros Hok. destruct op as [buf cx|data cx|buf|data| |]; simpl.
  - destruct (poll_read_cases p buf cx Hok) as (r & buf' & p' & ws & -> & Hok' & _ & _ & Hc & Htr & _).
    cbn [obind]. do 3 eexists. split; [done|]. split; [done|].
    by rewrite Htr, Hc, app_nil_r, take_drop.
  - destruct (poll_write_cases p data cx Hok) as (r & p' & ws & Heq & Hok' & _).
    rewrite Heq. cbn [obind]. do 3 eexists. split; [done|]. split; [done|].
    by eapply poll_write_transferred.
  - unfold read_sync. destruct (ring_read p buf Hok) as (b' & -> & Hok' & _ & Hc).
    set (n := read_count p (length buf)) in *. cbn [obind]. do 3 eexists. split; [done|]. split; [done|].
    change (pipe_contents (with_buffer p b')) with (contents b'). rewrite Hc, app_nil_r, ifgt_pos.
    destruct (decide (n = 0%nat)) as [->|Hn]; [by destruct (negb _)|].
    rewrite transferred_read by (unfold n, read_count; lia). by rewrite take_drop.
  - unfold write_sync. destruct (reader_open p); simpl.
    + destruct (ring_write p data Hok) as (b' & -> & Hok' & _ & Hc).
      set (n := write_count p (length data)) in *. cbn [obind]. do 3 eexists. split; [done|]. split; [done|].
      change (pipe_contents (with_buffer p b')) with (contents b'). cbn [app]. rewrite Hc, ifgt_pos.
      destruct (decide (n = 0%nat)) as [->|Hn]; [done|]. simpl. by rewrite Nat2Z.id.
    + do 3 eexists. split; [done|]. split; [done|]. by rewrite app_nil_r.
  - do 3 eexists. split; [done|]. split; [done|]. by rewrite app_nil_r.
  - do 3 eexists. split; [done|]. split; [done|]. by rewrite app_nil_r.
Qed.

(** C11: a pipe whose capacity is a power of two, as the default one is, is a byte
    stream.  Whatever the readers and writers do, no
    operation panics, and the bytes delivered followed by the bytes still in the
    buffer are the bytes that were in it followed by the bytes accepted: none is
    lost, duplicated, altered or reordered, and the buffer never holds more than
    its capacity. *)
Theorem pipe_fifo (p : PipeInner) (ops : list pipe_op) :
  pipe_ok p ->
  exists p' sent got, pipe_run p ops = Ret (p', sent, got) /\ pipe_ok p' /\
    pipe_contents p ++ sent = got ++ pipe_contents p' /\
    Z.of_nat (length (pipe_contents p')) <= capacity (buffer p').
Proof.
  revert p. induction ops as [|op ops IH]; intros p Hok; simpl.
  - exists p, [], []. split; [done|]. split; [done|]. split; [by rewrite app_nil_r|].
    unfold pipe_contents. rewrite contents_length.
    pose proof (rb_len_nonneg (buffer p)). pose proof (ro_len _ Hok). lia.
  - destruct (pipe_step_spec p op Hok) as (p1 & s1 & g1 & -> & Hok1 & Hc1). cbn [obind].
    destruct (IH p1 Hok1) as (p2 & s2 & g2 & -> & Hok2 & Hc2 & Hlen). cbn [obind].
    exists p2, (s1 ++ s2), (g1 ++ g2). split; [done|]. split; [done|]. split; [|done].
    by rewrite app_assoc, Hc1, <- !app_assoc, Hc2.
Qed.

(** ** End of file *)

(** Reading until [fuel] reads were made or one returned no byte. *)
Fixpoint drain (fuel : nat) (p : PipeInner) (buf : list Z) (cx : Waker) : outcome (list Z * bool * PipeInner) :=
  match fuel with
  | O => Ret ([], false, p)
  | S fuel' =>
      let! (r, buf1, p1, _) := poll_read p buf cx in
      match r with
      | Ready (Ok n) =>
          if n =? 0 then Ret ([], true, p1)
          else
            let! (l, eof, p2) := drain fuel' p1 buf cx in
            Ret (take (Z.to_nat n) buf1 ++ l, eof, p2)
      | _ => Ret ([], false, p1)
      end
  end.

(** after the writer closed its end, repeated reads deliver exactly the
    bytes left in the buffer and then end of file ([Ok(0)]); a reader never
    waits for a writer that is gone. *)
Theorem closed_pipe_drains (p : PipeInner) (buf : list Z) (cx : Waker) (fuel : nat) :
  pipe_ok p -> writer_open p = false -> buf <> [] -> (length (pipe_contents p) < fuel)%nat ->
  exists p', drain fuel p buf cx = Ret (pipe_contents p, true, p') /\ pipe_contents p' = [] /\ read_wakers p' = read_wakers p.
Proof.
  intros Hok Hw Hbuf. revert p Hok Hw. induction fuel as [|fuel IH]; intros p Hok Hw Hf; [lia|]. cbn [drain].
  assert (Hlen : (0 < length buf)%nat) by (destruct buf; [done | simpl; lia]).
  destruct (poll_read_cases p buf cx Hok) as (r & buf' & p' & ws & -> & Hok' & _ & Hwo & Hc & Htr & Hcase).
  cbn [obind]. destruct Hcase as [(Hn & -> & _ & _ & Hrw) | [(_ & _ & He & -> & -> & _) | (Hn & Hne & _)]].
  - destruct (Z.eqb_spec (Z.of_nat (read_count p (length buf))) 0); [lia|].
    destruct (IH p' Hok') as (p2 & -> & He & Hrw2).
    { congruence. }
    { rewrite Hc, length_drop. unfold read_count in *. lia. }
    cbn [obind]. exists p2. split; [|split; [done | congruence]]. simpl in Htr. rewrite Htr, Hc, take_drop. done.
  - exists p. by rewrite He.
  - exfalso. destruct Hne as [|Hne]; [congruence|]. unfold read_count in Hn.
    destruct (pipe_contents p); [done|]. simpl in Hn. lia.
Qed.

(** ** Wake-ups *)

Definition op_ok (op : pipe_op) : Prop :=
  match op with
  | PollRead buf _ => buf <> []
  | _ => True
  end.

Lemma parked_step (p p' : PipeInner) (op : pipe_op) (s g : list Z) :
  pipe_ok p -> op_ok op -> parked_ok p -> pipe_step p op = Ret (p', s, g) -> parked_ok p'.
Proof.
  intros Hok Hop [Hpr Hpw]. destruct op as [buf cx|data cx|buf|data| |]; simpl in *.
  - destruct (poll_read_cases p buf cx Hok) as (r & buf' & p1 & ws & -> & _ & Hro & Hwo & _ & _ & Hcase).
    cbn [obind]. intros [= <- _ _]. unfold parked_ok. rewrite Hro, Hwo.
    destruct Hcase as [(_ & _ & _ & -> & ->) | [(_ & _ & _ & _ & -> & _) | (Hn & Hne & _ & -> & Hr)]].
    + split; [done|]. intros H. by rewrite Hpw.
    + done.
    + split; [|done]. intros Hw. exfalso. destruct Hne as [|Hne]; [congruence|].
      unfold read_count in Hn. destruct (pipe_contents p), buf; simpl in Hn; (done || lia).
  - destruct (poll_write_cases p data cx Hok) as (r & p1 & ws & -> & _ & Hro & Hwo & Hcase).
    cbn [obind]. intros [= <- _ _]. unfold parked_ok. rewrite Hro, Hwo.
    destruct Hcase as [(_ & _ & -> & _) | (Hr & _ & [(_ & _ & _ & -> & ->) | (_ & _ & -> & Hw)])].
    + done.
    + split; [|done]. intros H. by rewrite Hpr.
    + split; [done|]. congruence.
  - unfold read_sync. destruct (rb_read _ _) as [[[n b'] c]|]; [|done]. cbn [obind]. by intros [= <- _ _].
  - unfold write_sync. destruct (negb _); [by intros [= <- _ _]|].
    destruct (rb_write _ _) as [[n b']|]; [|done]. cbn [obind]. by intros [= <- _ _].
  - intros [= <- _ _]. by split.
  - intros [= <- _ _]. by split.
Qed.

(** closing an end wakes every task parked at the other, and no operation
    that runs as a whole parks a task on a pipe whose other end is closed: in
    every reachable state a parked reader has an open writer and a parked
    writer an open reader. *)
Theorem no_task_parked_on_closed_pipe (id size : Z) (fl : PipeFlags) (k : nat) (ops : list pipe_op)
    (p : PipeInner) (s g : list Z) :
  (k < 64)%nat -> size = 2 ^ Z.of_nat k -> Forall op_ok ops ->
  pipe_run (PipeInner_new id size fl) ops = Ret (p, s, g) ->
  (read_wakers p <> [] -> writer_open p = true) /\ (write_wakers p <> [] -> reader_open p = true) /\
  (close_writer p).2 = read_wakers p /\ parked_ok (close_writer p).1 /\
  (close_reader p).2 = write_wakers p /\ parked_ok (close_reader p).1.
Proof.
  intros Hk -> Hops Hrun.
  enough (Hpark : parked_ok p).
  { destruct Hpark as [H1 H2]. split; [|split; [|by split_and!]].
    - intros Hne. destruct (writer_open p); [done|]. by rewrite H1 in Hne.
    - intros Hne. destruct (reader_open p); [done|]. by rewrite H2 in Hne. }
  assert (Hok : pipe_ok (PipeInner_new id (2 ^ Z.of_nat k) fl)) by (by apply ring_new_ok).
  assert (Hpk : parked_ok (PipeInner_new id (2 ^ Z.of_nat k) fl)) by done.
  revert Hok Hpk s g Hrun. generalize (PipeInner_new id (2 ^ Z.of_nat k) fl). clear Hk.
  induction Hops as [|op ops Hop _ IH]; intros p0 Hok Hpk s g Hrun; simpl in Hrun.
  - by injection Hrun as <- _ _.
  - destruct (pipe_step_spec p0 op Hok) as (p1 & s1 & g1 & Heq & Hok1 & _). rewrite Heq in Hrun. cbn [obind] in Hrun.
    destruct (pipe_run p1 ops) as [[[p2 s2] g2]|] eqn:E; [|done]. cbn [obind] in Hrun. injection Hrun as -> _ _.
    apply (IH p1 Hok1 (parked_step p0 p1 op s1 g1 Hok Hop Hpk Heq) s2 g2). exact E.
Qed.

(** [poll_read] tests [writer_open] before it takes the lock of the buffer.
    When the writer closes between the two steps, the reader of an empty
    pipe still parks, after the only wake-up it could get: it waits although
    the pipe is at end of file. *)
Theorem poll_read_misses_close (p : PipeInner) (buf : list Z) (cx : Waker) :
  pipe_ok p -> writer_open p = true -> pipe_contents p = [] -> non_blocking (flags p) = false ->
  let p1 := (close_writer p).1 in
  exists p2, poll_read_buffer p1 buf cx = Ret (Pending, buf, p2, []) /\
    writer_open p2 = false /\ cx ∈ read_wakers p2 /\ pipe_contents p2 = [] /\
    poll_read p1 buf cx = Ret (Ready (Ok 0), buf, p1, []).
Proof.
  intros Hok Hw He Hnb p1. unfold poll_read_buffer.
  destruct (ring_read p1 buf Hok) as (b' & -> & _ & _ & Hc).
  assert (Hn : read_count p1 (length buf) = 0%nat).
  { unfold read_count. change (pipe_contents p1) with (pipe_contents p). rewrite He. simpl. lia. }
  rewrite Hn in Hc |- *. simpl. rewrite Hnb. eexists. split; [done|]. split; [done|]. split; [set_solver|].
  split.
  - unfold pipe_contents. cbn [buffer]. rewrite Hc. change (pipe_contents p1) with (pipe_contents p). by rewrite He.
  - unfold poll_read. change (buffer p1) with (buffer p). by rewrite (proj2 (empty_contents (buffer p)) He).
Qed.

(** ** Named pipes *)

(** The pipes have distinct identifiers, all below the next one, and a name
    refers to a pipe. *)
Record manager_ok (m : PipeManager) : Prop := {
  mo_ids : NoDup (pipe_id <$> store m);
  mo_next : Forall (fun p => 1 <= pipe_id p < next_id m) (store m);
  mo_pos : 1 <= next_id m;
  mo_names : map_Forall (fun _ loc => (loc < length (store m))%nat) (named_pipes m)
}.

Lemma manager_new_ok : manager_ok PipeManager_new.
Proof. split; simpl; [constructor | constructor | lia | apply map_Forall_empty]. Qed.

Lemma add_pipe_ok (m : PipeManager) (size : Z) (fl : PipeFlags) (names : gmap string nat) (tc td : Z) :
  manager_ok m -> next_id m + 1 < u64_modulus ->
  map_Forall (fun _ loc => (loc < S (length (store m)))%nat) names ->
  manager_ok (mkManager (store m ++ [PipeInner_new (next_id m) size fl]) (next_id m +w 1) names tc td).
Proof.
  intros [Hids Hnext Hpos Hn] Hlt Hnames.
  assert (Hw : next_id m +w 1 = next_id m + 1) by (apply wrap64_small; unfold is_u64; lia).
  split; cbn [store next_id named_pipes].
  - rewrite fmap_app. apply NoDup_app. split; [done|]. split; [|apply NoDup_singleton].
    intros x (p & -> & Hp)%list_elem_of_fmap. rewrite Forall_forall in Hnext. specialize (Hnext p Hp).
    simpl. intros Heq%list_elem_of_singleton. lia.
  - rewrite Hw. apply Forall_app. split; [|constructor; [simpl; lia | constructor]].
    eapply Forall_impl; [done|]. simpl. lia.
  - lia.
  - rewrite length_app. simpl. by rewrite Nat.add_1_r.
Qed.

(** the name table behaves as a finite map and every pipe has an identifier
    of its own: creating a name that is taken fails and changes no name;
    otherwise it gives a fresh pipe that [open_named] then finds, until
    [remove_named] removes the name; the pipes created so far keep distinct
    identifiers (up to 2^64 pipes). *)
Theorem named_pipes_correct (m : PipeManager) (name : string) :
  manager_ok m -> next_id m + 1 < u64_modulus ->
  match create_named m name with
  | (Ok np, m') =>
      open_named m name = None /\ open_named m' name = Some np /\ manager_ok m' /\
      np_inner np = length (store m) /\
      store m' = store m ++ [PipeInner_new (next_id m) DEFAULT_BUFFER_SIZE PipeFlags_default] /\
      (forall name', name' <> name -> open_named m' name' = open_named m name') /\
      exists m'', remove_named m' name = (true, m'') /\ open_named m'' name = None /\ manager_ok m''
  | (Err e, m') => e = CreationFailed /\ open_named m name <> None /\ named_pipes m' = named_pipes m /\ manager_ok m'
  end.
Proof.
  intros Hok Hlt. unfold create_named, take_id, alloc_pipe. cbn [named_pipes store].
  assert (Hnames : map_Forall (fun _ loc => (loc < S (length (store m)))%nat) (named_pipes m)).
  { intros n loc Hl. pose proof (mo_names m Hok n loc Hl). simpl in *. lia. }
  unfold open_named. destruct (named_pipes m !! name) as [loc|] eqn:E.
  - split; [done|]. split; [done|]. split; [done|]. by apply add_pipe_ok.
  - unfold remove_named, count_created. cbn [named_pipes store next_id total_created total_destroyed]. rewrite lookup_insert_eq.
    assert (Hok' : forall names, map_Forall (fun _ loc => (loc < S (length (store m)))%nat) names -> forall tc td,
      manager_ok (mkManager (store m ++ [PipeInner_new (next_id m) DEFAULT_BUFFER_SIZE PipeFlags_default]) (next_id m +w 1) names tc td)).
    { intros names Hn tc td. by apply add_pipe_ok. }
    split; [done|]. split; [done|]. split; [|split; [done|]; split; [done|]; split].
    + apply Hok'. by apply map_Forall_insert_2; [lia|].
    + intros name' Hne. by rewrite lookup_insert_ne.
    + eexists. split; [done|].
      cbn [named_pipes]. rewrite lookup_delete_eq. split; [done|]. apply Hok'.
      apply map_Forall_delete. by apply map_Forall_insert_2; [lia|].
Qed.

(** ** Concrete pipes *)

Definition small_pipe : PipeInner := PipeInner_new 1 4 PipeFlags_default.

Lemma small_pipe_ok : pipe_ok small_pipe.
Proof. apply (ring_new_ok 2). lia. Qed.

Definition small_ops : list pipe_op :=
  [WriteSync [1; 2; 3]; PollRead [0; 0] 7; PollWrite [4; 5; 6; 7] 8; CloseWriter; ReadSync [0; 0; 0]].

Lemma pipe_fifo_witness :
  pipe_ok small_pipe /\
  exists p' sent got, pipe_run small_pipe small_ops = Ret (p', sent, got) /\ sent = got ++ pipe_contents p'.
Proof.
  split; [exact small_pipe_ok|].
  destruct (pipe_fifo small_pipe small_ops small_pipe_ok) as (p' & sent & got & Heq & _ & Hc & _).
  exists p', sent, got. split; [exact Heq | exact Hc].
Defined.

(** The run writes [1; 2; 3; 4; 5; 6], of which five bytes are read. *)
Example small_run :
  (fun r => match r with Ret (p, s, g) => Some (s, g, pipe_contents p) | Panic => None end)
    (pipe_run small_pipe small_ops) = Some ([1; 2; 3; 4; 5; 6], [1; 2; 3; 4; 5], [6]).
Proof. reflexivity. Qed.

(** A pipe whose writer wrote three bytes and left. *)
Definition left_pipe : PipeInner :=
  (close_writer (with_buffer small_pipe (mkRing [1; 2; 3; 0] 4 0 3))).1.

Lemma left_pipe_ok : pipe_ok left_pipe.
Proof. split; try done. by exists (2 ^ 62). Qed.

Lemma closed_pipe_drains_witness :
  exists p', drain 4 left_pipe [0; 0] 7 = Ret ([1; 2; 3], true, p') /\ pipe_contents p' = [].
Proof.
  destruct (closed_pipe_drains left_pipe [0; 0] 7 4 left_pipe_ok) as (p' & Heq & He & _);
    [reflexivity | discriminate | simpl; lia|].
  exists p'. split; [exact Heq | exact He].
Defined.

Lemma no_task_parked_on_closed_pipe_witness :
  exists p s g, pipe_run small_pipe [PollRead [0] 7; CloseWriter; PollRead [0] 7] = Ret (p, s, g) /\
    (read_wakers p <> [] -> writer_open p = true).
Proof.
  destruct (pipe_run small_pipe [PollRead [0] 7; CloseWriter; PollRead [0] 7]) as [[[p s] g]|] eqn:E;
    [|discriminate].
  exists p, s, g. split; [reflexivity|].
  apply (no_task_parked_on_closed_pipe 1 4 PipeFlags_default 2 [PollRead [0] 7; CloseWriter; PollRead [0] 7] p s g);
    [lia | reflexivity | repeat constructor; discriminate | exact E].
Defined.

Lemma poll_read_misses_close_witness :
  exists p2, poll_read_buffer (close_writer small_pipe).1 [0] 7 = Ret (Pending, [0], p2, []).
Proof.
  destruct (poll_read_misses_close small_pipe [0] 7 small_pipe_ok) as (p2 & Heq & _); try reflexivity.
  exists p2. exact Heq.
Defined.

Lemma named_pipes_correct_witness :
  manager_ok PipeManager_new /\
  exists np m', create_named PipeManager_new "log" = (Ok np, m') /\ open_named m' "log" = Some np.
Proof.
  split; [exact manager_new_ok|].
  pose proof (named_pipes_correct PipeManager_new "log" manager_new_ok) as H.
  destruct (create_named PipeManager_new "log") as [[np|e] m'] eqn:E; [|discriminate].
  exists np, m'. split; [reflexivity|]. apply H. reflexivity.
Defined.

(** With a capacity that does not divide 2^64 the positions wrap to another
    slot: two bytes written across the wrap are read back as one byte twice. *)
Lemma ring_capacity_3_wraps :
  let b := mkRing [0; 0; 0] 3 (2 ^ 64 - 1) (2 ^ 64 - 1) in
  (let! (_, b1) := rb_write b [1; 2] in let! (_, buf, _) := rb_read b1 [0; 0] in Ret buf) = Ret [2; 2].
Proof. reflexivity. Qed.
