(* ===== verification/ExchangeHeap.v ===== *)
(** * The exchange heap (src/src/mm/exchange_heap.rs)

    A first-fit allocator whose free blocks are linked through headers in the
    heap itself, and the slice types on top of it.  [headers] is the memory seen
    as block headers, [cells] the memory seen as elements of one type: reading a
    header or an element that was never written is undefined behaviour, a
    [Panic] here. *)

From stdpp Require Import base list gmap.
From Stdlib Require Import ZArith Lia.
From S2P Require Import Prelude.

Local Open Scope Z_scope.

(** [FreeBlock]: size and next. *)
Record FreeBlock := mkBlock { block_size : Z; block_next : option Z }.
Definition SIZE_OF_FREE_BLOCK : Z := 16.
Definition ALIGN_OF_FREE_BLOCK : Z := 8.

Abbreviation headers := (gmap Z FreeBlock).

Record SimpleFreeListHeap := mkHeap {
  heap_start : Z;
  heap_end : Z;
  free_list_head : option Z;
  allocated_bytes : Z
}.

Definition heap_empty : SimpleFreeListHeap := mkHeap 0 0 None 0.

(** [NonNull::new] *)
Definition non_null (a : Z) : option Z := if a =? 0 then None else Some a.

Definition heap_init (m : headers) (h : SimpleFreeListHeap) (start size : Z) : headers * SimpleFreeListHeap :=
  let h1 := mkHeap start (start +w size) (free_list_head h) 0 in
  if size >=? SIZE_OF_FREE_BLOCK then
    (<[start := mkBlock size None]> m, mkHeap start (start +w size) (non_null start) 0)
  else (m, h1).

(** [p.as_mut().next = next], or the list head when there is no predecessor. *)
Definition set_link (m : headers) (head prev next : option Z) : outcome (headers * option Z) :=
  match prev with
  | Some p =>
      match m !! p with
      | Some b => Ret (<[p := mkBlock (block_size b) next]> m, head)
      | None => Panic
      end
  | None => Ret (m, next)
  end.

(** Where an allocation starts in a block, and the bytes it takes of it. *)
Definition aligned_addr (block_addr align : Z) : Z := align_up64 block_addr align.
Definition total_needed (block_addr size align : Z) : Z :=
  (aligned_addr block_addr align -w block_addr) +w size.

(** Taking a block that is large enough: the rest of it goes back on the list
    when it can hold a header and 16 bytes. *)
Definition take_block (m : headers) (head prev : option Z) (block_addr : Z) (block : FreeBlock) (size align : Z) :
    outcome (headers * option Z) :=
  let remaining := block_size block -w total_needed block_addr size align in
  if remaining >=? SIZE_OF_FREE_BLOCK + 16 then
    let new_block := aligned_addr block_addr align +w size in
    let m1 := <[new_block := mkBlock remaining (block_next block)]> m in
    set_link m1 head prev (non_null new_block)
  else set_link m head prev (block_next block).

(** The search of [allocate_first_fit] from [current]; [None] when no block
    fits.  The result carries [total_needed]. *)
Fixpoint first_fit (fuel : nat) (m : headers) (head prev current : option Z) (size align : Z) :
    outcome (option (Z * Z) * headers * option Z) :=
  match current with
  | None => Ret (None, m, head)
  | Some block_addr =>
      match fuel with
      | O => Panic
      | S fuel' =>
          match m !! block_addr with
          | None => Panic
          | Some block =>
              let needed := total_needed block_addr size align in
              if block_size block >=? needed then
                let! (m1, head1) := take_block m head prev block_addr block size align in
                Ret (Some (aligned_addr block_addr align, needed), m1, head1)
              else first_fit fuel' m head current (block_next block) size align
          end
      end
  end.

(** The list has at most one entry per header. *)
Definition allocate_first_fit (m : headers) (h : SimpleFreeListHeap) (layout : Layout) :
    outcome (option Z * headers * SimpleFreeListHeap) :=
  let align := Z.max (layout_align layout) ALIGN_OF_FREE_BLOCK in
  let size := Z.max (layout_size layout) SIZE_OF_FREE_BLOCK in
  let! (r, m1, head1) := first_fit (S (base.size m)) m (free_list_head h) None (free_list_head h) size align in
  match r with
  | Some (ptr, needed) =>
      Ret (Some ptr, m1, mkHeap (heap_start h) (heap_end h) head1 (allocated_bytes h +w needed))
  | None => Ret (None, m1, mkHeap (heap_start h) (heap_end h) head1 (allocated_bytes h))
  end.

Definition heap_deallocate (m : headers) (h : SimpleFreeListHeap) (addr : Z) (layout : Layout) :
    headers * SimpleFreeListHeap :=
  let size := Z.max (layout_size layout) SIZE_OF_FREE_BLOCK in
  if (addr <? heap_start h) || (addr >=? heap_end h) then (m, h)
  else
    (<[addr := mkBlock size (free_list_head h)]> m,
     mkHeap (heap_start h) (heap_end h) (non_null addr) (Z.max 0 (allocated_bytes h - size))).

Definition heap_used (h : SimpleFreeListHeap) : Z := allocated_bytes h.
Definition heap_free (h : SimpleFreeListHeap) : Z :=
  Z.max 0 ((heap_end h -w heap_start h) - allocated_bytes h).

Record HeapStats := mkHeapStats { hs_allocated : Z; hs_free : Z }.

(** ** The global heap, typed values and slices *)

(** [Layout::array::<T>(len)]: an error when the size exceeds [isize::MAX]
    rounded down to the alignment. *)
Definition layout_array (elem : Layout) (len : Z) : option Layout :=
  if layout_size elem * len >? ISIZE_MAX - (layout_align elem - 1) then None
  else Some (mkLayout (layout_size elem * len) (layout_align elem)).

Section Typed.
(** The type of the elements, its layout, its all-zero value. *)
Context {V : Type} (T : Layout) (zero : V).

(** [EXCHANGE_HEAP] with its memory. *)
Record exchange := mkExchange { xm : headers; xh : SimpleFreeListHeap; cells : gmap Z V }.

Definition exchange_allocate (x : exchange) (layout : Layout) : outcome (option Z * exchange) :=
  let! (r, m1, h1) := allocate_first_fit (xm x) (xh x) layout in
  Ret (r, mkExchange m1 h1 (cells x)).

Definition exchange_deallocate (x : exchange) (ptr : Z) (layout : Layout) : exchange :=
  let '(m1, h1) := heap_deallocate (xm x) (xh x) ptr layout in mkExchange m1 h1 (cells x).

Definition exchange_stats (x : exchange) : HeapStats := mkHeapStats (heap_used (xh x)) (heap_free (xh x)).

(** [GlobalAlloc] for the exchange heap. *)
Definition exchange_alloc (x : exchange) (layout : Layout) : outcome (Z * exchange) :=
  let! (r, x1) := exchange_allocate x layout in Ret (default 0 r, x1).
Definition exchange_dealloc (x : exchange) (ptr : Z) (layout : Layout) : exchange :=
  match non_null ptr with
  | Some p => exchange_deallocate x p layout
  | None => x
  end.

(** [ptr.write(v)], [ptr.read()] / [drop_in_place]. *)
Definition cell_write (x : exchange) (a : Z) (v : V) : exchange :=
  mkExchange (xm x) (xh x) (<[a := v]> (cells x)).
Definition cell_read (x : exchange) (a : Z) : outcome V :=
  match cells x !! a with
  | Some v => Ret v
  | None => Panic
  end.
Definition cell_forget (x : exchange) (a : Z) : exchange :=
  mkExchange (xm x) (xh x) (delete a (cells x)).
Definition cell_drop (x : exchange) (a : Z) : outcome exchange :=
  let! _ := cell_read x a in Ret (cell_forget x a).

Definition allocate_on_exchange (x : exchange) (value : V) : outcome (option Z * exchange) :=
  let! (r, x1) := exchange_allocate x T in
  match r with
  | Some ptr => Ret (Some ptr, cell_write x1 ptr value)
  | None => Ret (None, x1)
  end.

Definition deallocate_raw := exchange_deallocate.

Definition deallocate_on_exchange (x : exchange) (ptr : Z) : outcome exchange :=
  let! x1 := cell_drop x ptr in Ret (exchange_deallocate x1 ptr T).

(** The address of element [i]. *)
Definition elem_addr (ptr i : Z) : Z := ptr +w (i *w layout_size T).

Definition allocate_uninit_slice (x : exchange) (len : Z) : outcome (option (Z * Layout) * exchange) :=
  if len =? 0 then Ret (None, x)
  else
    match layout_array T len with
    | None => Ret (None, x)
    | Some layout =>
        let! (r, x1) := exchange_allocate x layout in
        Ret ((fun ptr => (ptr, layout)) <$> r, x1)
    end.

Definition allocate_slice_with (x : exchange) (len : Z) (init : Z -> V) : outcome (option (Z * Layout) * exchange) :=
  let! (r, x1) := allocate_uninit_slice x len in
  match r with
  | Some (ptr, layout) =>
      Ret (Some (ptr, layout), for_range 0 len (fun x i => cell_write x (elem_addr ptr i) (init i)) x1)
  | None => Ret (None, x1)
  end.

Definition allocate_zeroed_slice (x : exchange) (len : Z) : outcome (option (Z * Layout) * exchange) :=
  allocate_slice_with x len (fun _ => zero).

(** Drops the elements [i..i+n]. *)
Fixpoint drop_elements (n : nat) (x : exchange) (ptr i : Z) : outcome exchange :=
  match n with
  | O => Ret x
  | S n' => let! x1 := cell_drop x (elem_addr ptr i) in drop_elements n' x1 ptr (i + 1)
  end.

Definition deallocate_slice (x : exchange) (ptr len : Z) : outcome exchange :=
  if len =? 0 then Ret x
  else
    let! x1 := drop_elements (Z.to_nat len) x ptr 0 in
    match layout_array T len with
    | Some layout => Ret (exchange_deallocate x1 ptr layout)
    | None => Ret x1
    end.

(** [InitializedSlice] *)
Record InitializedSlice := mkInit { is_ptr : Z; is_len : Z; is_layout : Layout }.

Definition InitializedSlice_with_init (x : exchange) (len : Z) (init : Z -> V) : outcome (option InitializedSlice * exchange) :=
  let! (r, x1) := allocate_slice_with x len init in
  Ret ((fun p => mkInit p.1 len p.2) <$> r, x1).

Definition InitializedSlice_zeroed (x : exchange) (len : Z) : outcome (option InitializedSlice * exchange) :=
  let! (r, x1) := allocate_zeroed_slice x len in
  Ret ((fun p => mkInit p.1 len p.2) <$> r, x1).

(** [as_slice()[i]] *)
Definition InitializedSlice_get (x : exchange) (s : InitializedSlice) (i : Z) : outcome V :=
  if i <? is_len s then cell_read x (elem_addr (is_ptr s) i) else Panic.

Definition InitializedSlice_drop (x : exchange) (s : InitializedSlice) : outcome exchange :=
  if is_len s >? 0 then
    let! x1 := drop_elements (Z.to_nat (is_len s)) x (is_ptr s) 0 in
    Ret (exchange_deallocate x1 (is_ptr s) (is_layout s))
  else Ret x.

(** [UninitializedSlice] *)
Record UninitializedSlice := mkUninit { us_ptr : Z; us_len : Z; us_layout : Layout; initialized_count : Z }.

Inductive ExchangeHeapError := OutOfMemory | SliceFull | PartiallyInitialized.

Definition UninitializedSlice_new (x : exchange) (len : Z) : outcome (option UninitializedSlice * exchange) :=
  let! (r, x1) := allocate_uninit_slice x len in
  Ret ((fun p => mkUninit p.1 len p.2 0) <$> r, x1).

Definition is_fully_initialized (s : UninitializedSlice) : bool := initialized_count s =? us_len s.

Definition init_at (x : exchange) (s : UninitializedSlice) (i : Z) (value : V) : exchange * UninitializedSlice :=
  (cell_write x (elem_addr (us_ptr s) i) value,
   mkUninit (us_ptr s) (us_len s) (us_layout s) (Z.max (initialized_count s) (i +w 1))).

Definition init_next (x : exchange) (s : UninitializedSlice) (value : V) :
    result unit ExchangeHeapError * exchange * UninitializedSlice :=
  if initialized_count s >=? us_len s then (Err SliceFull, x, s)
  else
    let '(x1, s1) := init_at x s (initialized_count s) value in
    (Ok tt, x1, mkUninit (us_ptr s1) (us_len s1) (us_layout s1) (initialized_count s1 +w 1)).

Definition assume_init (s : UninitializedSlice) : InitializedSlice := mkInit (us_ptr s) (us_len s) (us_layout s).

Definition try_into_initialized (s : UninitializedSlice) : result InitializedSlice UninitializedSlice :=
  if is_fully_initialized s then Ok (assume_init s) else Err s.

(** The loop of [init_from_iter] over [(i, value)]. *)
Fixpoint init_items (x : exchange) (s : UninitializedSlice) (i : Z) (items : list V) : exchange * UninitializedSlice :=
  match items with
  | [] => (x, s)
  | v :: items' =>
      if i >=? us_len s then (x, s)
      else let '(x1, s1) := init_at x s i v in init_items x1 s1 (i + 1) items'
  end.

Definition init_from_iter (x : exchange) (s : UninitializedSlice) (items : list V) :
    exchange * result InitializedSlice UninitializedSlice :=
  let '(x1, s1) := init_items x s 0 items in (x1, try_into_initialized s1).

Definition UninitializedSlice_drop (x : exchange) (s : UninitializedSlice) : outcome exchange :=
  let! x1 := drop_elements (Z.to_nat (initialized_count s)) x (us_ptr s) 0 in
  Ret (exchange_deallocate x1 (us_ptr s) (us_layout s)).

End Typed.
