(* ===== verification/ExchangeHeapTheorems.v ===== *)
(** * The exchange heap: theorems and concrete heaps *)

From stdpp Require Import base list gmap relations.
From Stdlib Require Import ZArith Lia.
From S2P Require Import Prelude Ranges ExchangeHeap.

Local Open Scope Z_scope.

(** * The exchange heap keeps free blocks and allocations apart *)

(** ** The linked list of free blocks *)

(** The headers from [h] up to the link [h2], as ranges. *)
Fixpoint seg (m : headers) (h : option Z) (l : list range) (h2 : option Z) : Prop :=
  match l with
  | [] => h = h2
  | (a, s) :: l' => h = Some a /\ exists nx, m !! a = Some (mkBlock s nx) /\ seg m nx l' h2
  end.

Lemma seg_app (m : headers) (l1 l2 : list range) (h h2 : option Z) :
  seg m h (l1 ++ l2) h2 <-> exists h1, seg m h l1 h1 /\ seg m h1 l2 h2.
Proof.
  revert h. induction l1 as [|[a s] l1 IH]; intros h; simpl.
  - split; [eauto | intros (h1 & -> & H); done].
  - split.
    + intros (-> & nx & Hm & (h1 & H1 & H2)%IH). eauto 10.
    + intros (h1 & (-> & nx & Hm & H1) & H2). split; [done|]. exists nx. split; [done|]. apply IH. eauto.
Qed.

Lemma seg_frame (m m' : headers) (l : list range) (h h2 : option Z) :
  seg m h l h2 -> (forall a, a ∈ l.*1 -> m' !! a = m !! a) -> seg m' h l h2.
Proof.
  revert h. induction l as [|[a s] l IH]; intros h; [done|]. simpl.
  intros (-> & nx & Hm & H) Heq. split; [done|]. exists nx. rewrite Heq by left. split; [done|].
  apply IH; [done|]. intros b Hb. apply Heq. by right.
Qed.

(** The last header of a segment. *)
Definition last_addr (l : list range) : option Z := fst <$> last l.

(** Linking the last header of the segment (or the head) elsewhere. *)
Lemma set_link_spec (m : headers) (l : list range) (h h1 next : option Z) :
  seg m h l h1 -> NoDup l.*1 ->
  exists m' h', set_link m h (last_addr l) next = Ret (m', h') /\ seg m' h' l next /\
    (forall a, a ∉ l.*1 -> m' !! a = m !! a).
Proof.
  intros Hseg Hnd. destruct l as [|r l _] using rev_ind.
  { exists m, next. done. }
  destruct r as [a s]. apply seg_app in Hseg as (h2 & H1 & -> & nx & Hm & Hn). simpl in Hn. subst nx.
  unfold last_addr. rewrite last_snoc. simpl. rewrite Hm. simpl. do 2 eexists. split; [done|].
  rewrite fmap_app in Hnd |- *. simpl in *. apply NoDup_app in Hnd as (_ & Hnin & _). split.
  - apply seg_app. exists (Some a). split.
    + eapply seg_frame; [done|]. intros b Hb. apply lookup_insert_ne. intros ->.
      apply (Hnin b Hb). by left.
    + simpl. split; [done|]. exists next. by rewrite lookup_insert_eq.
  - intros b Hb. apply lookup_insert_ne. set_solver.
Qed.

(** ** The invariant *)

Definition blocks_in (lo hi : Z) (l : list range) : Prop :=
  Forall (fun r => lo <= r.1 /\ SIZE_OF_FREE_BLOCK <= r.2 /\ r.1 + r.2 <= hi) l.

(** [free] are the blocks of the list, in order, [live] the ranges handed out. *)
Record heap_inv (m : headers) (h : SimpleFreeListHeap) (free live : list range) : Prop := {
  hi_bounds : 0 < heap_start h /\ heap_end h + 2 ^ 32 < u64_modulus;
  hi_list : seg m (free_list_head h) free None;
  hi_in : blocks_in (heap_start h) (heap_end h) (free ++ live);
  hi_apart : all_apart (free ++ live)
}.

Lemma blocks_in_app (lo hi : Z) (l1 l2 : list range) :
  blocks_in lo hi (l1 ++ l2) <-> blocks_in lo hi l1 /\ blocks_in lo hi l2.
Proof. apply Forall_app. Qed.

#[export] Instance blocks_in_perm (lo hi : Z) : Proper ((≡ₚ) ==> iff) (blocks_in lo hi).
Proof. intros l l' H. unfold blocks_in. by rewrite H. Qed.

(** Blocks that are apart have different addresses. *)
Lemma apart_NoDup (lo hi : Z) (l : list range) : blocks_in lo hi l -> all_apart l -> NoDup l.*1.
Proof.
  induction l as [|r l IH]; intros Hin Hap; [constructor|].
  apply Forall_cons in Hin as [Hr Hin]. destruct Hap as [Ha Hap]. simpl. constructor; [|by apply IH].
  intros (r' & Heq & Hr')%list_elem_of_fmap. rewrite Forall_forall in Ha. specialize (Ha r' Hr').
  unfold blocks_in in Hin. rewrite Forall_forall in Hin. specialize (Hin r' Hr').
  unfold ranges_apart, SIZE_OF_FREE_BLOCK in *. lia.
Qed.

(** Each block of the list has a header, so the list is not longer than the
    memory has headers. *)
Lemma seg_length (m : headers) (l : list range) (h h2 : option Z) :
  seg m h l h2 -> NoDup l.*1 -> (length l <= base.size m)%nat.
Proof.
  intros Hseg Hnd.
  assert (Hsub : list_to_set (l.*1) ⊆ (dom m : gset Z)).
  { intros a. rewrite elem_of_list_to_set, elem_of_dom. revert h Hseg. clear Hnd.
    induction l as [|[b s] l IH]; intros h; simpl; [by intros _ ?%elem_of_nil|].
    intros (-> & nx & Hm & H) [-> | Ha]%elem_of_cons; [by eexists | by eapply IH]. }
  apply subseteq_size in Hsub. rewrite size_list_to_set in Hsub by done.
  rewrite length_fmap, size_dom in Hsub. done.
Qed.

(** ** The search *)

(** What an allocation needs of a block. *)
Definition need (size align : Z) (b : range) : Z := aligned_addr b.1 align - b.1 + size.
Definition fits (size align : Z) (b : range) : Prop := need size align b <= b.2.

(** The remains of a block that stay on the list. *)
Definition split_rest (size align : Z) (b : range) : list range :=
  if decide (32 <= b.2 - need size align b)
  then [(aligned_addr b.1 align + size, b.2 - need size align b)] else [].

Section Search.
(** The bounds of the heap, the alignment as a power of two, the size. *)
Context (lo hi size k : Z).
Hypothesis Hk : 0 <= k <= 32.
Hypothesis Hlo : 0 < lo.
Hypothesis Hhi : hi + 2 ^ 32 < u64_modulus.
Hypothesis Hsize : SIZE_OF_FREE_BLOCK <= size < 2 ^ 63.

Lemma aligned_addr_spec (b : range) :
  lo <= b.1 -> b.1 + b.2 <= hi -> 0 <= b.2 ->
  (2 ^ k | aligned_addr b.1 (2 ^ k)) /\ b.1 <= aligned_addr b.1 (2 ^ k) < b.1 + 2 ^ 32 /\
  total_needed b.1 size (2 ^ k) = need size (2 ^ k) b.
Proof using Hk Hlo Hhi Hsize.
  intros H1 H2 H3. assert (2 ^ k <= 2 ^ 32) by (apply Z.pow_le_mono_r; lia).
  destruct (align_up64_spec b.1 k) as [Hd Hr]; [lia..|]. unfold total_needed, need, aligned_addr in *.
  assert (2 ^ 63 + 2 ^ 63 = u64_modulus) by done.
  assert (Hs : 16 <= size < 2 ^ 63) by exact Hsize. clear Hsize.
  set (p := align_up64 b.1 (2 ^ k)) in *. clearbody p.
  rewrite (wrap64_small (p - b.1)) by (unfold is_u64; lia).
  rewrite wrap64_small by (unfold is_u64; lia). split; [done | lia].
Qed.

(** A header written inside a block is none of the other blocks' headers. *)
Lemma inside_block (b r : range) (l : list range) (a : Z) :
  all_apart (b :: l) -> blocks_in lo hi l -> r ∈ l -> b.1 <= a < b.1 + b.2 -> r.1 <> a.
Proof.
  intros [Ha _] Hin Hr Hab Heq. rewrite Forall_forall in Ha. specialize (Ha r Hr).
  unfold blocks_in in Hin. rewrite Forall_forall in Hin. specialize (Hin r Hr).
  unfold ranges_apart, SIZE_OF_FREE_BLOCK in *. lia.
Qed.

Lemma heap_take_block_spec (m : headers) (head nx : option Z) (a s : Z) (pre rest : list range) :
  seg m head pre (Some a) -> seg m nx rest None ->
  blocks_in lo hi (pre ++ (a, s) :: rest) -> all_apart (pre ++ (a, s) :: rest) -> fits size (2 ^ k) (a, s) ->
  exists m' head', take_block m head (last_addr pre) a (mkBlock s nx) size (2 ^ k) = Ret (m', head') /\
    seg m' head' (pre ++ split_rest size (2 ^ k) (a, s) ++ rest) None.
Proof using Hk Hlo Hhi Hsize.
  intros Hpre Hrest Hin Hap Hfit. pose proof (apart_NoDup _ _ _ Hin Hap) as Hnd.
  rewrite <- Permutation_middle in Hin, Hap. apply Forall_cons in Hin as [Hb Hin].
  rewrite fmap_app in Hnd. apply NoDup_app in Hnd as (Hnd1 & Hnd12 & _).
  assert (Hnd12' : forall b, b ∈ rest.*1 -> b ∉ pre.*1) by (intros b Hb1 Hb2; apply (Hnd12 b Hb2); by right).
  clear Hnd12. cbn [fst snd] in *. unfold SIZE_OF_FREE_BLOCK in *.
  destruct (aligned_addr_spec (a, s)) as (_ & Hp & Htn); [simpl; lia..|]. cbn [fst snd] in *.
  unfold take_block, split_rest, fits in *. cbn [block_size block_next fst snd] in *. rewrite Htn.
  unfold SIZE_OF_FREE_BLOCK. change (16 + 16) with 32.
  unfold need in *. cbn [fst snd] in *. set (p := aligned_addr a (2 ^ k)) in *.
  rewrite (wrap64_small (s - _)) by (unfold is_u64; lia).
  rewrite (wrap64_small (p + size)) by (unfold is_u64; lia).
  destruct (Z.geb_spec (s - (p - a + size)) 32) as [Hrem|Hrem].
  - rewrite decide_True by lia. unfold non_null. destruct (Z.eqb_spec (p + size) 0); [lia|].
    set (m1 := <[p + size := _]> m).
    assert (Hold : forall l, (forall r, r ∈ l -> r ∈ pre ++ rest) -> forall b, b ∈ l.*1 -> m1 !! b = m !! b).
    { intros l Hl b (r & -> & Hr)%list_elem_of_fmap. apply lookup_insert_ne. apply not_eq_sym.
      apply (inside_block (a, s) r (pre ++ rest)); auto. simpl. lia. }
    destruct (set_link_spec m1 pre head (Some a) (Some (p + size))) as (m' & head' & -> & Hseg' & Hoth); [|done|].
    { eapply seg_frame; [done|]. apply Hold. intros r Hr. apply elem_of_app. by left. }
    exists m', head'. split; [done|]. apply seg_app. exists (Some (p + size)). split; [done|].
    split; [done|]. exists nx. split.
    + rewrite Hoth; [apply lookup_insert_eq|]. intros (r & Hr1 & Hr2)%list_elem_of_fmap.
      apply (inside_block (a, s) r (pre ++ rest) (p + size)); auto; [apply elem_of_app; by left | simpl; lia].
    + eapply seg_frame; [done|]. intros b Hb'. rewrite Hoth by (by apply Hnd12').
      apply (Hold rest); [|done]. intros r Hr. apply elem_of_app. by right.
  - rewrite decide_False by lia.
    destruct (set_link_spec m pre head (Some a) nx) as (m' & head' & -> & Hseg' & Hoth); [done | done|].
    exists m', head'. split; [done|]. apply seg_app. exists nx. split; [done|].
    eapply seg_frame; [done|]. intros b Hb'. apply Hoth. by apply Hnd12'.
Qed.

(** The search finds the first block that fits, if there is one. *)
Lemma first_fit_spec (rest : list range) (fuel : nat) (m : headers) (head current : option Z) (pre : list range) :
  (length rest <= fuel)%nat ->
  seg m head pre current -> seg m current rest None ->
  blocks_in lo hi (pre ++ rest) -> all_apart (pre ++ rest) ->
  (first_fit fuel m head (last_addr pre) current size (2 ^ k) = Ret (None, m, head) /\
     Forall (fun b => ~ fits size (2 ^ k) b) rest) \/
  (exists b l1 l2 m' head', rest = l1 ++ b :: l2 /\ Forall (fun b => ~ fits size (2 ^ k) b) l1 /\ fits size (2 ^ k) b /\
     first_fit fuel m head (last_addr pre) current size (2 ^ k) =
       Ret (Some (aligned_addr b.1 (2 ^ k), need size (2 ^ k) b), m', head') /\
     seg m' head' (pre ++ l1 ++ split_rest size (2 ^ k) b ++ l2) None).
Proof using Hk Hlo Hhi Hsize.
  revert fuel current pre.
  induction rest as [|[a s] rest IH]; intros fuel current pre Hfuel Hpre Hrest Hin Hap.
  { simpl in Hrest. subst current. left. destruct fuel; done. }
  simpl in Hfuel. destruct fuel as [|fuel]; [lia|].
  destruct Hrest as (-> & nx & Hm & Hrest).
  assert (Hb : lo <= a /\ 0 <= s /\ a + s <= hi).
  { unfold blocks_in, SIZE_OF_FREE_BLOCK in Hin. rewrite Forall_app, Forall_cons in Hin. simpl in Hin. lia. }
  destruct (aligned_addr_spec (a, s)) as (_ & _ & Htn); [simpl; lia..|]. cbn [fst snd] in Htn.
  cbn [first_fit]. rewrite Hm, Htn. cbn [block_size block_next].
  destruct (Z.geb_spec s (need size (2 ^ k) (a, s))) as [Hfit|Hnofit].
  - right. exists (a, s), [], rest.
    destruct (heap_take_block_spec m head nx a s pre rest) as (m' & head' & -> & Hseg); auto.
    exists m', head'. split; [done|]. split; [constructor | done].
  - assert (Hpre' : seg m head (pre ++ [(a, s)]) nx).
    { apply seg_app. exists (Some a). split; [done|]. simpl. split; [done|]. by exists nx. }
    specialize (IH fuel nx (pre ++ [(a, s)]) ltac:(lia) Hpre' Hrest).
    rewrite <- !app_assoc in IH. specialize (IH Hin Hap).
    assert (Hlast : last_addr (pre ++ [(a, s)]) = Some a) by (unfold last_addr; by rewrite last_snoc).
    rewrite Hlast in IH. destruct IH as [[-> Hall]|(b & l1 & l2 & m' & head' & -> & Hnf & Hf & -> & Hseg)].
    + left. split; [done|]. constructor; [|done]. unfold fits. simpl. lia.
    + right. exists b, ((a, s) :: l1), l2, m', head'. split; [done|].
      split; [constructor; [unfold fits; simpl; lia | done]|]. split; [done|]. split; [done|].
      by rewrite <- app_assoc in Hseg.
Qed.

(** A block fits when there is an aligned place in it; the first one is taken. *)
Lemma fits_place (b : range) :
  lo <= b.1 -> b.1 + b.2 <= hi -> 0 <= b.2 -> fits size (2 ^ k) b <-> exists p, (2 ^ k | p) /\ sub_range (p, size) b.
Proof using Hk Hlo Hhi Hsize.
  intros H1 H2 H3. assert (2 ^ k <= 2 ^ 32) by (apply Z.pow_le_mono_r; lia). assert (0 < 2 ^ k) by (apply Z.pow_pos_nonneg; lia).
  destruct (align_up64_spec b.1 k) as [Hd Hr]; [lia..|]. unfold fits, need, aligned_addr, sub_range. cbn [fst snd]. split.
  - intros Hf. exists (align_up64 b.1 (2 ^ k)). split; [done | lia].
  - intros (p & Hp & Hs). destruct Hd as [x Hx], Hp as [y Hy]. assert (x <= y) by nia. nia.
Qed.

End Search.

(** ** Allocation and deallocation *)

(** The bytes an allocation of the layout owns. *)
Definition owned_size (l : Layout) : Z := Z.max (layout_size l) SIZE_OF_FREE_BLOCK.

Lemma effective_align (l : Layout) :
  layout_ok l -> exists k, 0 <= k <= 32 /\ Z.max (layout_align l) ALIGN_OF_FREE_BLOCK = 2 ^ k /\ (layout_align l | 2 ^ k).
Proof.
  intros [(k & Hk & ->) _]. unfold ALIGN_OF_FREE_BLOCK. change 8 with (2 ^ 3).
  destruct (Z.le_gt_cases 3 k).
  - exists k. split; [lia|]. split; [|done]. apply Z.max_l. apply Z.pow_le_mono_r; lia.
  - exists 3. split; [lia|]. split; [apply Z.max_r; apply Z.pow_le_mono_r; lia|].
    exists (2 ^ (3 - k)). rewrite <- Z.pow_add_r by lia. f_equal. lia.
Qed.

(** Places for the layout in a block. *)
Definition place_in (l : Layout) (b : range) : Prop :=
  exists p, (Z.max (layout_align l) ALIGN_OF_FREE_BLOCK | p) /\ sub_range (p, owned_size l) b.

Lemma allocate_spec (m : headers) (h : SimpleFreeListHeap) (free live : list range) (l : Layout) :
  heap_inv m h free live -> layout_ok l ->
  exists r m' h', allocate_first_fit m h l = Ret (r, m', h') /\
    match r with
    | Some p =>
        (layout_align l | p) /\
        exists b l1 l2 rest, free = l1 ++ b :: l2 /\ Forall (fun b => ~ place_in l b) l1 /\ place_in l b /\ sub_range (p, owned_size l) b /\
          Forall (fun r => sub_range r b) rest /\
          heap_inv m' h' (l1 ++ rest ++ l2) ((p, owned_size l) :: live)
    | None => m' = m /\ h' = h /\ Forall (fun b => ~ place_in l b) free
    end.
Proof.
  intros [[Hlo Hhi] Hl Hin Hap] Hlay. destruct (effective_align l Hlay) as (k & Hk & Hal & Hdvd).
  apply all_apart_app in Hap as Hap'. destruct Hap' as (Hap1 & _).
  apply blocks_in_app in Hin as Hin'. destruct Hin' as (Hin1 & Hin2).
  assert (Hsz : SIZE_OF_FREE_BLOCK <= owned_size l < 2 ^ 63).
  { destruct Hlay as [_ ?]. unfold owned_size, SIZE_OF_FREE_BLOCK, ISIZE_MAX in *. lia. }
  assert (Hpl : forall b, b ∈ free -> fits (owned_size l) (2 ^ k) b <-> place_in l b).
  { intros b Hb. unfold blocks_in in Hin1. rewrite Forall_forall in Hin1. specialize (Hin1 b Hb). unfold place_in, SIZE_OF_FREE_BLOCK in *. rewrite Hal.
    apply (fits_place (heap_start h) (heap_end h) (owned_size l) k Hk Hlo Hhi Hsz b); lia. }
  unfold allocate_first_fit. rewrite Hal. fold (owned_size l).
  destruct (first_fit_spec (heap_start h) (heap_end h) (owned_size l) k Hk Hlo Hhi Hsz
    free (S (base.size m)) m (free_list_head h) (free_list_head h) [])
    as [[Heq Hall] | (b & l1 & l2 & m' & head' & Hfree & Hbefore & Hfit & Heq & Hseg)]; try done.
  { pose proof (seg_length _ _ _ _ Hl (apart_NoDup _ _ _ Hin1 Hap1)). lia. }
  - change (last_addr []) with (@None Z) in Heq. rewrite Heq. cbn [obind].
    exists None, m, h. split; [by destruct h|]. split; [done|]. split; [done|].
    rewrite Forall_forall in Hall |- *. intros b Hb Hp. apply (Hall b Hb). by apply Hpl.
  - change (last_addr []) with (@None Z) in Heq. rewrite Heq. cbn [obind].
    assert (Hb : heap_start h <= b.1 /\ SIZE_OF_FREE_BLOCK <= b.2 /\ b.1 + b.2 <= heap_end h).
    { unfold blocks_in in Hin1. rewrite Forall_forall in Hin1. apply Hin1. rewrite Hfree. set_solver. }
    destruct (aligned_addr_spec (heap_start h) (heap_end h) (owned_size l) k Hk Hlo Hhi Hsz b) as (Hd & Hp & _);
      [unfold SIZE_OF_FREE_BLOCK in *; lia..|].
    unfold fits, need in Hfit. set (p := aligned_addr b.1 (2 ^ k)) in *.
    exists (Some p). do 2 eexists. split; [done|]. split; [by etrans|].
    exists b, l1, l2, (split_rest (owned_size l) (2 ^ k) b).
    assert (Hsub : Forall (fun r => sub_range r b) (split_rest (owned_size l) (2 ^ k) b) /\
                   all_apart ((p, owned_size l) :: split_rest (owned_size l) (2 ^ k) b) /\
                   blocks_in (heap_start h) (heap_end h) (split_rest (owned_size l) (2 ^ k) b)).
    { unfold split_rest, need. fold p. unfold SIZE_OF_FREE_BLOCK in *.
      destruct (decide _) as [Hrem|];
        [|split; [constructor|]; split; [split; [constructor | done] | constructor]].
      split; [|split; [split; [|split; [constructor | done]]|]]; (constructor; [|constructor]).
      - unfold sub_range. simpl. lia.
      - left. simpl. lia.
      - simpl. unfold SIZE_OF_FREE_BLOCK. lia. }
    destruct Hsub as (Hsub & Hsap & Hsin).
    split; [done|]. split; [rewrite Forall_forall in Hbefore |- *; intros c Hc Hcp; apply (Hbefore c Hc), Hpl; [rewrite Hfree; set_solver | done]|].
    split; [apply Hpl; [rewrite Hfree; set_solver | done]|]. split; [unfold sub_range; simpl; lia|]. split; [done|].
    assert (Hperm : (l1 ++ split_rest (owned_size l) (2 ^ k) b ++ l2) ++ (p, owned_size l) :: live ≡ₚ
      ((p, owned_size l) :: split_rest (owned_size l) (2 ^ k) b) ++ (l1 ++ l2 ++ live)) by solve_Permutation.
    assert (Hperm0 : free ++ live ≡ₚ b :: l1 ++ l2 ++ live) by (rewrite Hfree; solve_Permutation).
    split.
    + done.
    + exact Hseg.
    + cbn [heap_start heap_end]. rewrite Hperm. apply blocks_in_app. split.
      * constructor; [simpl; unfold SIZE_OF_FREE_BLOCK in *; lia | exact Hsin].
      * rewrite Hperm0 in Hin. by apply Forall_cons in Hin as [_ ?].
    + rewrite Hperm. apply (all_apart_refine b); [by rewrite <- Hperm0 | done|].
      constructor; [unfold sub_range; simpl; lia | done].
Qed.

Lemma deallocate_spec (m : headers) (h : SimpleFreeListHeap) (free live live' : list range) (p : Z) (l : Layout) :
  heap_inv m h free live -> live ≡ₚ (p, owned_size l) :: live' ->
  let '(m', h') := heap_deallocate m h p l in heap_inv m' h' ((p, owned_size l) :: free) live'.
Proof.
  intros [[Hlo Hhi] Hl Hin Hap] Hlive.
  assert (Hperm : ((p, owned_size l) :: free) ++ live' ≡ₚ free ++ live) by (rewrite Hlive; solve_Permutation).
  assert (Hp : heap_start h <= p /\ 16 <= owned_size l /\ p + owned_size l <= heap_end h).
  { rewrite <- Hperm in Hin. by apply Forall_cons in Hin as [? _]. }
  unfold heap_deallocate. fold (owned_size l).
  destruct (Z.ltb_spec p (heap_start h)); [lia|]. destruct (Z.geb_spec p (heap_end h)); [lia|]. cbn [orb].
  split; cbn [heap_start heap_end free_list_head].
  - done.
  - unfold non_null. destruct (Z.eqb_spec p 0); [lia|]. split; [done|]. exists (free_list_head h).
    rewrite lookup_insert_eq. split; [done|]. eapply seg_frame; [done|]. intros a Ha.
    apply lookup_insert_ne. intros ->. rewrite <- Hperm in Hin, Hap.
    pose proof (apart_NoDup _ _ _ Hin Hap) as Hnd. simpl in Hnd. apply NoDup_cons in Hnd as [Hn _].
    apply Hn. rewrite fmap_app. apply elem_of_app. by left.
  - by rewrite Hperm.
  - by rewrite Hperm.
Qed.

Lemma heap_init_spec (m : headers) (start size : Z) :
  0 < start -> SIZE_OF_FREE_BLOCK <= size -> start + size + 2 ^ 32 < u64_modulus ->
  let '(m', h') := heap_init m heap_empty start size in heap_inv m' h' [(start, size)] [].
Proof.
  unfold heap_init, SIZE_OF_FREE_BLOCK. intros H1 H2 H3. destruct (Z.geb_spec size 16); [|lia].
  rewrite wrap64_small by (unfold is_u64; lia). split; cbn [heap_start heap_end free_list_head].
  - lia.
  - unfold non_null. destruct (Z.eqb_spec start 0); [lia|]. split; [done|]. exists None.
    by rewrite lookup_insert_eq.
  - repeat constructor; simpl; unfold SIZE_OF_FREE_BLOCK; lia.
  - repeat constructor.
Qed.

(** Writes into ranges handed out do not reach a header. *)
Lemma heap_write_ok (m m' : headers) (h : SimpleFreeListHeap) (free live : list range) :
  heap_inv m h free live ->
  (forall a, (forall r, r ∈ live -> ~ (r.1 <= a < r.1 + r.2)) -> m' !! a = m !! a) ->
  heap_inv m' h free live.
Proof.
  intros [Hb Hl Hin Hap] Hm. split; try done. eapply seg_frame; [done|].
  intros a (r & -> & Hr)%list_elem_of_fmap. apply Hm. intros q Hq Hrange.
  apply all_apart_app in Hap as (_ & _ & Hap). specialize (Hap r q Hr Hq).
  unfold blocks_in in Hin. rewrite Forall_forall in Hin.
  assert (Hr' := Hin r). assert (Hq' := Hin q). unfold ranges_apart, SIZE_OF_FREE_BLOCK in *.
  rewrite !elem_of_app in Hr', Hq'. specialize (Hr' (or_introl Hr)). lia.
Qed.

(** C12: an allocation terminates without reading an invalid header; the memory
    it hands out is aligned as asked, lies in the heap inside the first free block
    of the list that has an aligned place of its size, and is apart from every block
    still free and every range in use; the invariant is kept.  It fails, changing
    nothing, exactly when no free block has such a place (places are aligned to at
    least the 8 bytes of a block header). *)
Theorem exchange_allocate_correct (m : headers) (h : SimpleFreeListHeap) (free live : list range) (l : Layout) :
  heap_inv m h free live -> layout_ok l ->
  exists r m' h', allocate_first_fit m h l = Ret (r, m', h') /\
    (r = None <-> forall b p, b ∈ free -> (Z.max (layout_align l) 8 | p) -> ~ sub_range (p, owned_size l) b) /\
    match r with
    | Some p =>
        (layout_align l | p) /\ heap_start h <= p /\ p + owned_size l <= heap_end h /\
        (exists b l1 l2, free = l1 ++ b :: l2 /\ sub_range (p, owned_size l) b /\
           forall c q, c ∈ l1 -> (Z.max (layout_align l) 8 | q) -> ~ sub_range (q, owned_size l) c) /\
        Forall (ranges_apart (p, owned_size l)) live /\
        exists free', heap_inv m' h' free' ((p, owned_size l) :: live)
    | None => m' = m /\ h' = h
    end.
Proof.
  intros Hinv Hl. destruct (allocate_spec m h free live l Hinv Hl) as (r & m' & h' & Heq & Hr).
  exists r, m', h'. split; [done|]. destruct r as [p|].
  - destruct Hr as (Hal & b & l1 & l2 & rest & Hfree & Hbef & Hpl & Hsub & _ & Hinv').
    assert (Hb : b ∈ free) by (rewrite Hfree; set_solver).
    split; [split; [done|]; destruct Hpl as (q & Hq1 & Hq2); intros Hno; destruct (Hno b q Hb Hq1 Hq2)|]. split; [done|].
    pose proof (hi_in _ _ _ _ Hinv) as Hin. unfold blocks_in in Hin. rewrite Forall_forall in Hin.
    destruct (Hin b) as (Hb1 & _ & Hb2); [apply elem_of_app; by left|]. rewrite Forall_forall in Hbef.
    pose proof Hsub as Hsub'. unfold sub_range in Hsub'. cbn [fst snd] in *. split; [lia|]. split; [lia|].
    split; [exists b, l1, l2; split; [done|]; split; [done|]; intros c q Hc Hq Hs; apply (Hbef c Hc); by exists q|].
    pose proof (hi_apart _ _ _ _ Hinv') as Hap. apply all_apart_app in Hap as (_ & [Hap _] & _). eauto.
  - destruct Hr as (-> & -> & Hno). rewrite Forall_forall in Hno. split; [|done]. split; [|done].
    intros _ b p Hb Hp Hs. apply (Hno b Hb). by exists p.
Qed.

(** ** Runs of the heap *)

Inductive heap_step : headers * SimpleFreeListHeap * list range -> headers * SimpleFreeListHeap * list range -> Prop :=
| heap_step_alloc m h live l p m' h' :
    layout_ok l -> allocate_first_fit m h l = Ret (Some p, m', h') ->
    heap_step (m, h, live) (m', h', (p, owned_size l) :: live)
| heap_step_fail m h live l m' h' :
    layout_ok l -> allocate_first_fit m h l = Ret (None, m', h') ->
    heap_step (m, h, live) (m', h', live)
| heap_step_dealloc m h live live' l p m' h' :
    live ≡ₚ (p, owned_size l) :: live' -> heap_deallocate m h p l = (m', h') ->
    heap_step (m, h, live) (m', h', live')
| heap_step_write m h live m' :
    (forall a, (forall r, r ∈ live -> ~ (r.1 <= a < r.1 + r.2)) -> m' !! a = m !! a) ->
    heap_step (m, h, live) (m', h, live).

Definition heap_ok (s : headers * SimpleFreeListHeap * list range) : Prop :=
  exists free, heap_inv s.1.1 s.1.2 free s.2.

Lemma heap_step_ok (s s' : headers * SimpleFreeListHeap * list range) :
  heap_ok s -> heap_step s s' -> heap_ok s'.
Proof.
  intros [free Hinv] Hstep. destruct Hstep as [m h live l p m' h' Hl Heq | m h live l m' h' Hl Heq | m h live live' l p m' h' Hp Heq | m h live m' Hm]; simpl in *.
  - destruct (allocate_spec m h free live l Hinv Hl) as (r & m1 & h1 & Heq' & Hr).
    rewrite Heq in Heq'. injection Heq' as <- <- <-. destruct Hr as (_ & b & l1 & l2 & rest & _ & _ & _ & _ & _ & H). by eexists.
  - destruct (allocate_spec m h free live l Hinv Hl) as (r & m1 & h1 & Heq' & Hr).
    rewrite Heq in Heq'. injection Heq' as <- <- <-. destruct Hr as (-> & -> & _). by exists free.
  - pose proof (deallocate_spec m h free live live' p l Hinv Hp) as H. rewrite Heq in H. by eexists.
  - exists free. by eapply heap_write_ok.
Qed.

(** from initialisation on, whatever is allocated, freed and written by the
    owners, the ranges in use stay inside the heap and pairwise disjoint, and
    every further allocation returns. *)
Theorem exchange_heap_safe (m0 : headers) (start size : Z) (m : headers) (h : SimpleFreeListHeap) (live : list range) :
  0 < start -> SIZE_OF_FREE_BLOCK <= size -> start + size + 2 ^ 32 < u64_modulus ->
  rtc heap_step (heap_init m0 heap_empty start size, []) (m, h, live) ->
  all_apart live /\ Forall (fun r => start <= r.1 /\ r.1 + r.2 <= start + size) live /\
  forall l, layout_ok l -> exists r m' h', allocate_first_fit m h l = Ret (r, m', h').
Proof.
  intros H1 H2 H3 Hrun. pose proof (heap_init_spec m0 start size H1 H2 H3) as Hinit.
  set (s0 := (heap_init m0 heap_empty start size, [] : list range)) in *.
  assert (Hb0 : heap_start s0.1.2 = start /\ heap_end s0.1.2 = start + size).
  { unfold s0, heap_init. rewrite wrap64_small by (unfold is_u64, SIZE_OF_FREE_BLOCK in *; lia).
    by destruct (_ >=? _). }
  assert (Hok0 : heap_ok s0).
  { unfold s0. destruct (heap_init m0 heap_empty start size) as [m' h']. by eexists. }
  assert (Hgen : heap_ok (m, h, live) /\ heap_start h = start /\ heap_end h = start + size).
  { clear Hinit. change (heap_ok (m, h, live) /\ heap_start (m, h, live).1.2 = start /\ heap_end (m, h, live).1.2 = start + size).
    revert Hok0 Hb0. induction Hrun as [x|x y z Hst _ IH]; intros Hok Hb; [done|].
    apply IH; [by eapply heap_step_ok|].
    destruct Hst as [? ? ? ? ? ? ? _ Heq | ? ? ? ? ? ? _ Heq | ? ? ? ? ? ? ? ? _ Heq | ? ? ? ? _]; simpl in *; try done.
    - unfold allocate_first_fit in Heq. inv_bind Heq. destruct a as [[[[? ?]|] ?] ?]; simpl in Heq; by simplify_eq.
    - unfold allocate_first_fit in Heq. inv_bind Heq. destruct a as [[[[? ?]|] ?] ?]; simpl in Heq; by simplify_eq.
    - unfold heap_deallocate in Heq. destruct (_ || _); by simplify_eq. }
  destruct Hgen as ([free Hinv] & Hs & He). cbn [fst snd] in Hinv. split; [|split].
  - pose proof (hi_apart _ _ _ _ Hinv) as Hap. by apply all_apart_app in Hap as (_ & ? & _).
  - pose proof (hi_in _ _ _ _ Hinv) as Hin. apply blocks_in_app in Hin as [_ Hin]. rewrite Hs, He in Hin.
    eapply Forall_impl; [exact Hin|]. simpl. intros r (? & _ & ?). done.
  - intros l Hl. destruct (allocate_spec m h free live l Hinv Hl) as (r & m' & h' & Heq & _). eauto.
Qed.

(** memory that is freed serves the next request of the same layout: after
    [deallocate] of an allocation, [allocate] with its layout returns the same
    pointer. *)
Theorem dealloc_alloc_roundtrip (m : headers) (h : SimpleFreeListHeap) (free live live' : list range) (p : Z) (l : Layout) :
  heap_inv m h free live -> layout_ok l -> live ≡ₚ (p, owned_size l) :: live' ->
  (Z.max (layout_align l) ALIGN_OF_FREE_BLOCK | p) ->
  let '(m1, h1) := heap_deallocate m h p l in
  exists m2 h2, allocate_first_fit m1 h1 l = Ret (Some p, m2, h2) /\ free_list_head h2 = free_list_head h.
Proof.
  intros Hinv Hl Hlive Hdiv. pose proof (deallocate_spec m h free live live' p l Hinv Hlive) as Hd.
  assert (Hp : heap_start h <= p /\ 16 <= owned_size l /\ p + owned_size l <= heap_end h).
  { pose proof (hi_in _ _ _ _ Hinv) as Hin. apply blocks_in_app in Hin as [_ Hin]. rewrite Hlive in Hin.
    by apply Forall_cons in Hin as [? _]. }
  destruct (effective_align l Hl) as (k & Hk & Hal & _).
  assert (Hsz : SIZE_OF_FREE_BLOCK <= owned_size l < 2 ^ 63).
  { destruct Hl as [_ ?]. unfold owned_size, SIZE_OF_FREE_BLOCK, ISIZE_MAX in *. lia. }
  destruct (hi_bounds _ _ _ _ Hinv) as [Hlo Hhi].
  destruct (aligned_addr_spec (heap_start h) (heap_end h) (owned_size l) k Hk Hlo Hhi Hsz (p, owned_size l))
    as (Had & Har & Htn); [simpl; lia..|]. cbn [fst snd] in *.
  assert (Ha : aligned_addr p (2 ^ k) = p).
  { rewrite Hal in Hdiv. pose proof (align_up64_spec p k) as Hup. cbv zeta in Hup.
    assert (2 ^ k <= 2 ^ 32) by (apply Z.pow_le_mono_r; lia).
    destruct Hup as [_ Hup]; [lia..|]. unfold aligned_addr in *.
    destruct (Z.eq_dec (align_up64 p (2 ^ k)) p) as [|Hne]; [done|].
    assert (0 < 2 ^ k) by (apply Z.pow_pos_nonneg; lia).
    pose proof (divide_lt_step (2 ^ k) p (align_up64 p (2 ^ k)) ltac:(lia) Hdiv Had ltac:(lia)). lia. }
  unfold heap_deallocate in *. fold (owned_size l) in *.
  destruct (Z.ltb_spec p (heap_start h)); [lia|]. destruct (Z.geb_spec p (heap_end h)); [lia|]. cbn [orb] in *.
  unfold allocate_first_fit. rewrite Hal. fold (owned_size l). cbn [free_list_head].
  unfold non_null. destruct (Z.eqb_spec p 0); [lia|]. cbn [first_fit].
  rewrite lookup_insert_eq. cbn [block_size block_next]. rewrite Htn. unfold need. cbn [fst snd]. rewrite Ha.
  replace (p - p + owned_size l) with (owned_size l) by lia.
  destruct (Z.geb_spec (owned_size l) (owned_size l)); [|lia].
  unfold take_block. cbn [block_size block_next]. rewrite Htn. unfold need. cbn [fst snd]. rewrite Ha.
  replace (owned_size l - (p - p + owned_size l)) with 0 by lia. rewrite wrap64_small by done.
  simpl. eexists _, _. split; [done|]. done.
Qed.

(** ** Slices *)

Section Slices.
Context {V : Type} (T : Layout).
Hypothesis T_pos : 0 < layout_size T.

(** The elements of the slice do not wrap around the address space. *)
Definition slice_fits (ptr len : Z) : Prop := 0 <= ptr /\ 0 <= len /\ ptr + len * layout_size T < u64_modulus.

Lemma elem_addr_eq (ptr len i : Z) :
  slice_fits ptr len -> 0 <= i < len -> elem_addr T ptr i = ptr + i * layout_size T.
Proof using T_pos.
  intros (H1 & H2 & H3) Hi. unfold elem_addr.
  assert (0 <= i * layout_size T < len * layout_size T) by (split; [nia | apply Z.mul_lt_mono_pos_r; lia]).
  rewrite (wrap64_small (i * _)) by (unfold is_u64; lia). apply wrap64_small. unfold is_u64. lia.
Qed.

Lemma elem_addr_inj (ptr len i j : Z) :
  slice_fits ptr len -> 0 <= i < len -> 0 <= j < len -> i <> j -> elem_addr T ptr i <> elem_addr T ptr j.
Proof using T_pos. intros H Hi Hj Hne. rewrite !(elem_addr_eq _ len) by done. nia. Qed.

Lemma init_items_spec (items : list V) (x : exchange) (s : UninitializedSlice) (i : Z) :
  slice_fits (us_ptr s) (us_len s) -> us_len s < u64_modulus -> 0 <= i <= us_len s -> initialized_count s <= i ->
  let '(x', s') := init_items T x s i items in
  let n := Z.min (us_len s - i) (Z.of_nat (length items)) in
  us_ptr s' = us_ptr s /\ us_len s' = us_len s /\ us_layout s' = us_layout s /\
  initialized_count s' = (if decide (n = 0) then initialized_count s else i + n) /\
  (forall j v, items !! j = Some v -> i + Z.of_nat j < us_len s ->
     cells x' !! elem_addr T (us_ptr s) (i + Z.of_nat j) = Some v) /\
  (forall j, 0 <= j < i -> cells x' !! elem_addr T (us_ptr s) j = cells x !! elem_addr T (us_ptr s) j).
Proof using T_pos.
  revert x s i. induction items as [|v items IH]; intros x s i Hfit Hlen Hi Hc.
  - simpl. rewrite Z.min_r by lia. by rewrite decide_True.
  - cbn [init_items]. destruct (Z.geb_spec i (us_len s)) as [Hge|Hlt].
    + simpl length. rewrite Z.min_l by lia. rewrite decide_True by lia.
      do 4 (split; [done|]). split; [|done]. intros j w _ Hj. lia.
    + unfold init_at. rewrite wrap64_small by (unfold is_u64; lia). set (s1 := mkUninit _ _ _ _).
      set (x1 := cell_write _ _ _). specialize (IH x1 s1 (i + 1)).
      destruct (init_items T x1 s1 (i + 1) items) as [x' s'].
      destruct IH as (Hp & Hl & Hly & Hcnt & Hnew & Hold); [done | done | simpl; lia | simpl; lia|].
      cbn [us_ptr us_len us_layout s1 initialized_count] in *. do 3 (split; [done|]).
      rewrite decide_False by (simpl length; lia). split.
      * rewrite Hcnt. simpl length. destruct (decide _); lia.
      * split.
        -- intros [|j] w.
           ++ intros [= <-] _. rewrite Z.add_0_r, Hold by lia. unfold x1. simpl. by rewrite lookup_insert_eq.
           ++ simpl. intros Hw Hj. replace (i + Z.of_nat (S j)) with (i + 1 + Z.of_nat j) by lia.
              apply Hnew; [done | lia].
        -- intros j Hj. rewrite Hold by lia. unfold x1. simpl. apply lookup_insert_ne.
           by apply (elem_addr_inj _ (us_len s)); [|lia|lia|lia].
Qed.

(** [init_from_iter] on a fresh slice stores the iterator's values in order
    and succeeds exactly when the iterator has at least as many values as the
    slice elements; then every element of the result reads back its value. *)
Theorem init_from_iter_correct (x : exchange) (s : UninitializedSlice) (items : list V) :
  slice_fits (us_ptr s) (us_len s) -> us_len s < u64_modulus -> initialized_count s = 0 ->
  match init_from_iter T x s items with
  | (x', Ok r) =>
      us_len s <= Z.of_nat (length items) /\ is_len r = us_len s /\ is_ptr r = us_ptr s /\
      forall j v, items !! j = Some v -> Z.of_nat j < us_len s -> InitializedSlice_get T x' r (Z.of_nat j) = Ret v
  | (x', Err s') => Z.of_nat (length items) < us_len s /\ initialized_count s' = Z.of_nat (length items)
  end.
Proof using T_pos.
  intros Hfit Hlen Hc. unfold init_from_iter.
  pose proof (init_items_spec items x s 0 Hfit Hlen) as H.
  destruct (init_items T x s 0 items) as [x' s'].
  destruct H as (Hp & Hl & _ & Hcnt & Hnew & _); [destruct Hfit; lia | lia|].
  rewrite Z.sub_0_r, Z.add_0_l in Hcnt. unfold try_into_initialized, is_fully_initialized.
  destruct Hfit as (Hp0 & Hl0 & _).
  destruct (Z.eqb_spec (initialized_count s') (us_len s')) as [He|Hne]; rewrite ?Hl in *.
  - assert (us_len s <= Z.of_nat (length items)) by (destruct (decide _); lia).
    split; [done|]. split; [done|]. split; [done|]. intros j v Hv Hj.
    unfold InitializedSlice_get. cbn [assume_init is_len is_ptr]. rewrite Hl, Hp.
    destruct (Z.ltb_spec (Z.of_nat j) (us_len s)); [|lia]. unfold cell_read.
    specialize (Hnew j v Hv). rewrite Z.add_0_l in Hnew. by rewrite Hnew.
  - destruct (decide _); lia.
Qed.

(** [init_next] advances the count twice, once in [init_at] and once itself:
    after a call that initialised one element of a slice of two, the slice
    passes for fully initialised although its last element was never written. *)
Theorem init_next_counts_twice (x : exchange) (s : UninitializedSlice) (v : V) :
  0 <= initialized_count s < us_len s -> us_len s + 1 < u64_modulus ->
  let '(r, x', s') := init_next T x s v in
  r = Ok tt /\ initialized_count s' = initialized_count s + 2 /\
  (us_len s = 2 -> initialized_count s = 0 -> slice_fits (us_ptr s) 2 ->
   cells x !! elem_addr T (us_ptr s) 1 = None ->
   exists r, try_into_initialized s' = Ok r /\ InitializedSlice_get T x' r 1 = Panic).
Proof using T_pos.
  intros Hc Hlen. unfold init_next. destruct (Z.geb_spec (initialized_count s) (us_len s)); [lia|].
  cbn [init_at us_ptr us_len us_layout initialized_count].
  rewrite (wrap64_small (initialized_count s + 1)) by (unfold is_u64; lia).
  rewrite wrap64_small by (unfold is_u64; lia). split; [done|]. split; [lia|].
  intros Hl2 H0 Hfit Hnone. unfold try_into_initialized, is_fully_initialized.
  cbn [initialized_count us_len]. rewrite Hl2, H0. simpl. eexists. split; [done|].
  unfold InitializedSlice_get. simpl. unfold cell_read. cbn [cells cell_write].
  rewrite lookup_insert_ne; [by rewrite Hnone|]. apply (elem_addr_inj _ 2); done.
Qed.

End Slices.

(** ** Concrete heaps *)

Definition w_heap : headers * SimpleFreeListHeap := heap_init ∅ heap_empty 0x1008 4096.
Definition w_layout : Layout := mkLayout 64 64.

Lemma w_heap_inv : heap_inv w_heap.1 w_heap.2 [(0x1008, 4096)] [].
Proof. apply (heap_init_spec ∅ 0x1008 4096); (lia || done || (unfold u64_modulus, SIZE_OF_FREE_BLOCK; lia)). Qed.

Lemma w_layout_ok : layout_ok w_layout.
Proof. split; [exists 6; split; [lia | done] | unfold ISIZE_MAX; simpl; lia]. Qed.

Lemma exchange_allocate_correct_witness :
  exists r m' h', allocate_first_fit w_heap.1 w_heap.2 w_layout = Ret (r, m', h').
Proof.
  destruct (exchange_allocate_correct w_heap.1 w_heap.2 [(0x1008, 4096)] [] w_layout w_heap_inv w_layout_ok)
    as (r & m' & h' & Heq & _).
  exists r, m', h'. exact Heq.
Defined.

Definition w_heap1 : headers * SimpleFreeListHeap :=
  match allocate_first_fit w_heap.1 w_heap.2 w_layout with
  | Ret (_, m, h) => (m, h)
  | Panic => w_heap
  end.

Lemma w_alloc : allocate_first_fit w_heap.1 w_heap.2 w_layout = Ret (Some 0x1040, w_heap1.1, w_heap1.2).
Proof. reflexivity. Qed.

Lemma exchange_heap_safe_witness : all_apart [(0x1040, 64)].
Proof.
  apply (exchange_heap_safe ∅ 0x1008 4096 w_heap1.1 w_heap1.2 [(0x1040, 64)]);
    [lia | unfold SIZE_OF_FREE_BLOCK; lia | unfold u64_modulus; lia |].
  apply rtc_once. apply (heap_step_alloc w_heap.1 w_heap.2 [] w_layout 0x1040);
    [exact w_layout_ok | exact w_alloc].
Defined.

Lemma w_heap1_inv : exists free, heap_inv w_heap1.1 w_heap1.2 free [(0x1040, 64)].
Proof.
  apply (heap_step_ok (w_heap.1, w_heap.2, []) (w_heap1.1, w_heap1.2, [(0x1040, 64)])).
  - eexists. exact w_heap_inv.
  - apply (heap_step_alloc w_heap.1 w_heap.2 [] w_layout 0x1040); [exact w_layout_ok | exact w_alloc].
Qed.

Lemma dealloc_alloc_roundtrip_witness :
  let '(m1, h1) := heap_deallocate w_heap1.1 w_heap1.2 0x1040 w_layout in
  exists m2 h2, allocate_first_fit m1 h1 w_layout = Ret (Some 0x1040, m2, h2).
Proof.
  destruct w_heap1_inv as [free Hinv].
  pose proof (dealloc_alloc_roundtrip w_heap1.1 w_heap1.2 free [(0x1040, 64)] [] 0x1040 w_layout Hinv w_layout_ok) as H.
  destruct (heap_deallocate _ _ _ _) as [m1 h1]. destruct H as (m2 & h2 & Heq & _).
  - reflexivity.
  - by exists 65.
  - exists m2, h2. exact Heq.
Defined.

(** The padding in front of an aligned allocation is counted as allocated and
    never comes back: after the allocation is freed, 56 bytes stay counted. *)
Lemma padding_stays_allocated :
  allocated_bytes w_heap1.2 = 120 /\
  allocated_bytes (heap_deallocate w_heap1.1 w_heap1.2 0x1040 w_layout).2 = 56.
Proof. split; reflexivity. Qed.

Definition w_exchange : exchange (V := Z) := mkExchange ∅ heap_empty ∅.
Definition w_slice : UninitializedSlice := mkUninit 0x1000 2 (mkLayout 16 8) 0.

Lemma init_from_iter_correct_witness :
  exists x' r, init_from_iter (mkLayout 8 8) w_exchange w_slice [5; 6; 7] = (x', Ok r) /\
    InitializedSlice_get (mkLayout 8 8) x' r 1 = Ret 6.
Proof.
  assert (Hpos : 0 < layout_size (mkLayout 8 8)) by (simpl; lia).
  assert (Hfit : slice_fits (mkLayout 8 8) (us_ptr w_slice) (us_len w_slice)) by (unfold slice_fits; simpl; unfold u64_modulus; lia).
  pose proof (init_from_iter_correct (mkLayout 8 8) Hpos w_exchange w_slice [5; 6; 7] Hfit eq_refl eq_refl) as H.
  destruct (init_from_iter _ _ _ _) as [x' [r|s']] eqn:E; [|destruct H as [H _]; simpl in H; lia].
  exists x', r. split; [reflexivity|]. destruct H as (_ & _ & _ & H). apply (H 1%nat 6); reflexivity.
Defined.

Lemma init_next_counts_twice_witness :
  exists r, try_into_initialized (init_next (mkLayout 8 8) w_exchange w_slice 5).2 = Ok r /\
    InitializedSlice_get (mkLayout 8 8) (init_next (mkLayout 8 8) w_exchange w_slice 5).1.2 r 1 = Panic.
Proof.
  assert (Hpos : 0 < layout_size (mkLayout 8 8)) by (simpl; lia).
  pose proof (init_next_counts_twice (mkLayout 8 8) Hpos w_exchange w_slice 5) as H.
  destruct (init_next (mkLayout 8 8) w_exchange w_slice 5) as [[r x'] s'].
  apply H; try reflexivity.
  - split; simpl; lia.
  - unfold slice_fits; simpl; unfold u64_modulus; lia.
Defined.
