(* ===== verification/HeapRegistry.v ===== *)
(** * The registry of heap objects (src/src/sas/heap_registry.rs)

    Objects by start address, and for each domain the addresses it owns.  A
    [BTreeMap] is a [gmap]; where the source walks a range of it in order, the
    order shows only in [last_below], the greatest key not above an address.
    The methods take [&mut self] under a lock, so they are the transitions. *)

From stdpp Require Import base list gmap.
From Stdlib Require Import ZArith Lia.
From S2P Require Import Prelude.

Local Open Scope Z_scope.

(** [DomainId] of src/src/domain_system.rs, a [u64]. *)
Definition DomainId : Type := Z.
Definition DOMAIN_KERNEL : DomainId := 0.

Record HeapObject := mkObject {
  address : Z;
  size : Z;
  owner : DomainId;
  type_id : Z;
  generation : Z;
  ref_count : Z
}.

Record RegistryStats := mkRegistryStats {
  total_registered : Z;
  total_transferred : Z;
  total_freed : Z;
  access_checks : Z;
  access_denials : Z
}.

Record HeapRegistry := mkRegistry {
  objects : gmap Z HeapObject;
  owner_index : gmap Z (list Z);
  next_generation : Z;
  rstats : RegistryStats
}.

Definition HeapRegistry_new : HeapRegistry := mkRegistry ∅ ∅ 1 (mkRegistryStats 0 0 0 0 0).

Inductive RegistryError :=
| AlreadyRegistered | NotFound | PermissionDenied | StillReferenced | Overlapping
| RefCountOverflow | RefCountUnderflow.

#[export] Instance RegistryError_eq_dec : EqDecision RegistryError.
Proof. solve_decision. Defined.

(** [OwnershipError] of src/src/sas/ownership.rs. *)
Inductive OwnershipError :=
| NotOwner | InvalidDestination | AlreadyTransferred | NotRegistered | TypeMismatch
| AccessDenied (ptr : Z) (own accessor : DomainId)
| UnregisteredPointer (ptr : Z).

#[export] Instance OwnershipError_eq_dec : EqDecision OwnershipError.
Proof. solve_decision. Defined.

(** The addresses [owner_index] lists for a domain. *)
Definition indexed (idx : gmap Z (list Z)) (d : DomainId) : list Z := default [] (idx !! d).

(** [entry(d).or_insert_with(Vec::new).push(a)] *)
Definition index_push (idx : gmap Z (list Z)) (d : DomainId) (a : Z) : gmap Z (list Z) :=
  <[d := indexed idx d ++ [a]]> idx.

(** [if let Some(addrs) = get_mut(d) { addrs.retain(|&x| x != a) }] *)
Definition index_retain (idx : gmap Z (list Z)) (d : DomainId) (a : Z) : gmap Z (list Z) :=
  match idx !! d with
  | Some addrs => <[d := filter (fun x => x <> a) addrs]> idx
  | None => idx
  end.

(** [objects.range(..=a).rev().take(1)] *)
Definition later (a : Z) (kv : Z * HeapObject) (acc : option (Z * HeapObject)) : option (Z * HeapObject) :=
  if kv.1 <=? a then
    match acc with
    | Some kv' => if kv'.1 <? kv.1 then Some kv else acc
    | None => Some kv
    end
  else acc.

Definition last_below (m : gmap Z HeapObject) (a : Z) : option HeapObject :=
  snd <$> foldr (later a) None (map_to_list m).

Definition check_overlap (r : HeapRegistry) (addr sz : Z) : bool :=
  let end_ := addr +w sz in
  existsb (fun kv => (kv.1 <? end_) &&
      ((address kv.2 <? end_) && (addr <? address kv.2 +w size kv.2)))
    (map_to_list (objects r)).

Definition count_registered (s : RegistryStats) : RegistryStats :=
  mkRegistryStats (total_registered s +w 1) (total_transferred s) (total_freed s) (access_checks s) (access_denials s).
Definition count_transferred (s : RegistryStats) : RegistryStats :=
  mkRegistryStats (total_registered s) (total_transferred s +w 1) (total_freed s) (access_checks s) (access_denials s).
Definition count_freed (s : RegistryStats) (n : Z) : RegistryStats :=
  mkRegistryStats (total_registered s) (total_transferred s) (total_freed s +w n) (access_checks s) (access_denials s).
Definition count_check (s : RegistryStats) : RegistryStats :=
  mkRegistryStats (total_registered s) (total_transferred s) (total_freed s) (access_checks s +w 1) (access_denials s).
Definition count_denial (s : RegistryStats) : RegistryStats :=
  mkRegistryStats (total_registered s) (total_transferred s) (total_freed s) (access_checks s) (access_denials s +w 1).

Definition register (r : HeapRegistry) (addr sz : Z) (own : DomainId) (ty : Z) :
    result Z RegistryError * HeapRegistry :=
  match objects r !! addr with
  | Some _ => (Err AlreadyRegistered, r)
  | None =>
      if check_overlap r addr sz then (Err Overlapping, r)
      else
        let gen := next_generation r in
        (Ok gen,
         mkRegistry (<[addr := mkObject addr sz own ty gen 1]> (objects r))
           (index_push (owner_index r) own addr) (next_generation r +w 1)
           (count_registered (rstats r)))
  end.

Definition unregister (r : HeapRegistry) (addr : Z) (own : DomainId) : result unit RegistryError * HeapRegistry :=
  match objects r !! addr with
  | None => (Err NotFound, r)
  | Some o =>
      if negb (owner o =? own) then (Err PermissionDenied, r)
      else if ref_count o >? 1 then (Err StillReferenced, r)
      else
        (Ok tt, mkRegistry (delete addr (objects r)) (index_retain (owner_index r) own addr)
                  (next_generation r) (count_freed (rstats r) 1))
  end.

Definition set_owner (o : HeapObject) (d : DomainId) : HeapObject :=
  mkObject (address o) (size o) d (type_id o) (generation o) (ref_count o).

Definition transfer_ownership (r : HeapRegistry) (addr : Z) (from to : DomainId) :
    result unit RegistryError * HeapRegistry :=
  match objects r !! addr with
  | None => (Err NotFound, r)
  | Some o =>
      if negb (owner o =? from) then (Err PermissionDenied, r)
      else if negb (ref_count o =? 1) then (Err StillReferenced, r)
      else
        (Ok tt, mkRegistry (<[addr := set_owner o to]> (objects r))
                  (index_push (index_retain (owner_index r) from addr) to addr)
                  (next_generation r) (count_transferred (rstats r)))
  end.

Definition with_rstats (r : HeapRegistry) (s : RegistryStats) : HeapRegistry :=
  mkRegistry (objects r) (owner_index r) (next_generation r) s.

Definition check_access (r : HeapRegistry) (addr : Z) (accessor : DomainId) : bool * HeapRegistry :=
  let r1 := with_rstats r (count_check (rstats r)) in
  match objects r !! addr with
  | Some o => (owner o =? accessor, r1)
  | None =>
      match last_below (objects r) addr with
      | Some o =>
          if (addr <? address o +w size o) && (owner o =? accessor) then (true, r1)
          else (false, with_rstats r1 (count_denial (rstats r1)))
      | None => (false, with_rstats r1 (count_denial (rstats r1)))
      end
  end.

Definition get_object (r : HeapRegistry) (addr : Z) : option HeapObject := objects r !! addr.
Definition get_domain_objects (r : HeapRegistry) (d : DomainId) : option (list Z) := owner_index r !! d.

Definition set_ref_count (o : HeapObject) (n : Z) : HeapObject :=
  mkObject (address o) (size o) (owner o) (type_id o) (generation o) n.

Definition with_objects (r : HeapRegistry) (m : gmap Z HeapObject) : HeapRegistry :=
  mkRegistry m (owner_index r) (next_generation r) (rstats r).

Definition add_ref (r : HeapRegistry) (addr : Z) : result unit RegistryError * HeapRegistry :=
  match objects r !! addr with
  | None => (Err NotFound, r)
  | Some o =>
      if ref_count o + 1 >? u32_max then (Err RefCountOverflow, r)
      else (Ok tt, with_objects r (<[addr := set_ref_count o (ref_count o + 1)]> (objects r)))
  end.

Definition release_ref (r : HeapRegistry) (addr : Z) : result Z RegistryError * HeapRegistry :=
  match objects r !! addr with
  | None => (Err NotFound, r)
  | Some o =>
      if ref_count o - 1 <? 0 then (Err RefCountUnderflow, r)
      else (Ok (ref_count o - 1), with_objects r (<[addr := set_ref_count o (ref_count o - 1)]> (objects r)))
  end.

Definition change_owner (r : HeapRegistry) (ptr : Z) (from to : DomainId) :
    result unit OwnershipError * HeapRegistry :=
  let '(res, r1) := transfer_ownership r ptr from to in
  (match res with
   | Ok u => Ok u
   | Err NotFound => Err NotRegistered
   | Err PermissionDenied => Err NotOwner
   | Err _ => Err AlreadyTransferred
   end, r1).

Definition get_owner (r : HeapRegistry) (ptr : Z) : option DomainId :=
  match objects r !! ptr with
  | Some o => Some (owner o)
  | None =>
      match last_below (objects r) ptr with
      | Some o => if ptr <? address o +w size o then Some (owner o) else None
      | None => None
      end
  end.

Definition register_simple (r : HeapRegistry) (ptr sz : Z) (own : DomainId) : HeapRegistry :=
  (register r ptr sz own 0).2.

Definition unregister_simple (r : HeapRegistry) (ptr : Z) : HeapRegistry :=
  match objects r !! ptr with
  | Some o =>
      mkRegistry (delete ptr (objects r)) (index_retain (owner_index r) (owner o) ptr)
        (next_generation r) (count_freed (rstats r) 1)
  | None => r
  end.

(** The loop of [reclaim_all]. *)
Definition reclaim_one (m : gmap Z HeapObject) (addr : Z) : gmap Z HeapObject := delete addr m.

Definition reclaim_all (r : HeapRegistry) (d : DomainId) : Z * HeapRegistry :=
  let addrs := indexed (owner_index r) d in
  let count := Z.of_nat (length addrs) in
  (count, mkRegistry (foldl reclaim_one (objects r) addrs) (delete d (owner_index r))
            (next_generation r) (count_freed (rstats r) count)).

Definition object_count (r : HeapRegistry) : Z := Z.of_nat (base.size (objects r)).
