(* ===== verification/Sas.v ===== *)
(** * The single address space (src/src/sas/mod.rs, memory_region.rs, ownership.rs)

    The manager allocates address ranges to domains and delegates object
    ownership to the registry; [Transferable] and [ZeroCopyTransfer] hand an
    object from one domain to another. *)

From stdpp Require Import base list gmap.
From Stdlib Require Import ZArith Lia.
From S2P Require Import Prelude HeapRegistry.

Local Open Scope Z_scope.

(** ** Memory regions *)

(** [RegionPermissions], a bit set. *)
Definition PERM_READ : Z := 1.
Definition PERM_WRITE : Z := 2.
Definition PERM_EXECUTE : Z := 4.
Definition PERM_KERNEL : Z := Z.lor PERM_READ (Z.lor PERM_WRITE PERM_EXECUTE).

Record MemoryRegion := mkRegion { start : Z; rsize : Z; permissions : Z }.

Definition region_end (r : MemoryRegion) : Z := start r +w rsize r.
Definition region_contains (r : MemoryRegion) (addr : Z) : bool := (addr >=? start r) && (addr <? region_end r).
Definition region_contains_range (r : MemoryRegion) (s sz : Z) : bool :=
  (s >=? start r) && (s +w sz <=? region_end r).
Definition region_overlaps (r other : MemoryRegion) : bool :=
  (start r <? region_end other) && (start other <? region_end r).

(** ** The manager *)

Definition SAS_BASE_ADDRESS : Z := 0x666666660000.
Definition SAS_MAX_ADDRESS : Z := 0xFFFFFFFF0000.
Definition KERNEL_BASE : Z := 0.
Definition KERNEL_SIZE : Z := 16 * 1024 * 1024.
Definition PAGE_SIZE : Z := 4096.

Definition align_up (addr align : Z) : Z := align_up64 addr align.

Record SasManager := mkSas {
  cell_regions : gmap Z (list MemoryRegion);
  heap_registry : HeapRegistry;
  next_alloc_addr : Z;
  initialized : bool
}.

Definition SasManager_new : SasManager := mkSas ∅ HeapRegistry_new SAS_BASE_ADDRESS false.

Inductive SasError := OutOfAddressSpace | Ownership (e : OwnershipError) | InvalidRegion.

Definition sas_init (m : SasManager) : SasManager :=
  if initialized m then m
  else
    mkSas (<[DOMAIN_KERNEL := [mkRegion KERNEL_BASE KERNEL_SIZE PERM_KERNEL]]> (cell_regions m))
      (heap_registry m) (next_alloc_addr m) true.

Definition regions_of (m : SasManager) (d : DomainId) : list MemoryRegion := default [] (cell_regions m !! d).

Definition allocate_region (m : SasManager) (d : DomainId) (sz perms : Z) :
    result MemoryRegion SasError * SasManager :=
  let addr := next_alloc_addr m in
  let next := addr +w align_up sz PAGE_SIZE in
  if addr +w sz >? SAS_MAX_ADDRESS then
    (Err OutOfAddressSpace, mkSas (cell_regions m) (heap_registry m) next (initialized m))
  else
    let region := mkRegion addr sz perms in
    (Ok region, mkSas (<[d := regions_of m d ++ [region]]> (cell_regions m)) (heap_registry m) next (initialized m)).

Definition with_registry (m : SasManager) (r : HeapRegistry) : SasManager :=
  mkSas (cell_regions m) r (next_alloc_addr m) (initialized m).

Definition sas_transfer_ownership (m : SasManager) (ptr : Z) (from to : DomainId) :
    result unit OwnershipError * SasManager :=
  let '(res, r) := change_owner (heap_registry m) ptr from to in (res, with_registry m r).

Definition register_object (m : SasManager) (ptr sz : Z) (own : DomainId) : SasManager :=
  with_registry m (register_simple (heap_registry m) ptr sz own).

Definition unregister_object (m : SasManager) (ptr : Z) : option DomainId * SasManager :=
  (get_owner (heap_registry m) ptr, m).

Definition sas_get_owner (m : SasManager) (ptr : Z) : option DomainId := get_owner (heap_registry m) ptr.

Definition sas_check_access (m : SasManager) (ptr : Z) (accessor : DomainId) : result unit OwnershipError :=
  if accessor =? DOMAIN_KERNEL then Ok tt
  else
    match get_owner (heap_registry m) ptr with
    | Some own => if own =? accessor then Ok tt else Err (AccessDenied ptr own accessor)
    | None => Err (UnregisteredPointer ptr)
    end.

Definition sas_reclaim (m : SasManager) (d : DomainId) : Z * SasManager :=
  let '(count, r) := reclaim_all (heap_registry m) d in
  (count, mkSas (delete d (cell_regions m)) r (next_alloc_addr m) (initialized m)).

Record SasStats := mkSasStats { total_regions : Z; total_objects : Z; domains : Z; next_addr : Z }.

Definition sas_stats (m : SasManager) : SasStats :=
  mkSasStats (foldr Z.add 0 ((fun kv => Z.of_nat (length (snd kv))) <$> map_to_list (cell_regions m)))
    (object_count (heap_registry m)) (Z.of_nat (base.size (cell_regions m))) (next_alloc_addr m).

(** ** Transferable objects *)

Inductive TransferState := Owned | InTransfer | Transferred.

#[export] Instance TransferState_eq_dec : EqDecision TransferState.
Proof. solve_decision. Defined.

Record OwnershipToken := mkToken { tok_from : DomainId; tok_to : DomainId; tok_address : Z; tok_size : Z }.

Definition token_complete (t : OwnershipToken) (current : DomainId) : result Z OwnershipError :=
  if negb (current =? tok_to t) then Err NotOwner else Ok (tok_address t).

Record Transferable (T : Type) := mkTransferable { data : T; towner : DomainId; tstate : TransferState }.
Arguments mkTransferable {T} data towner tstate.
Arguments data {T} _.
Arguments towner {T} _.
Arguments tstate {T} _.

Section Transfer.
Context {T : Type}.

Definition Transferable_new (d : T) (own : DomainId) : Transferable T := mkTransferable d own Owned.

(** [here] and [sz] are the address and the size of the data. *)
Definition begin_transfer (t : Transferable T) (current target : DomainId) (here sz : Z) :
    result OwnershipToken OwnershipError * Transferable T :=
  if negb (towner t =? current) then (Err NotOwner, t)
  else if negb (bool_decide (tstate t = Owned)) then (Err AlreadyTransferred, t)
  else (Ok (mkToken current target here sz), mkTransferable (data t) (towner t) InTransfer).

Definition complete_transfer (t : Transferable T) (token : OwnershipToken) (new_owner : DomainId) : Transferable T :=
  mkTransferable (data t) new_owner Owned.

Definition transferable_get (t : Transferable T) (accessor : DomainId) : result T OwnershipError :=
  if negb (towner t =? accessor) then Err NotOwner
  else if negb (bool_decide (tstate t = Owned)) then Err AlreadyTransferred
  else Ok (data t).

End Transfer.

Record ZeroCopyTransfer := mkZct { zptr : Z; zsize : Z; original_owner : DomainId; current_owner : DomainId; valid : bool }.

Definition zct_from_ptr (ptr sz : Z) (own : DomainId) : ZeroCopyTransfer := mkZct ptr sz own own true.

Definition zct_transfer (z : ZeroCopyTransfer) (from to : DomainId) : result unit OwnershipError * ZeroCopyTransfer :=
  if negb (valid z) then (Err AlreadyTransferred, z)
  else if negb (current_owner z =? from) then (Err NotOwner, z)
  else (Ok tt, mkZct (zptr z) (zsize z) (original_owner z) to (valid z)).

Definition zct_as_ptr (z : ZeroCopyTransfer) (accessor : DomainId) : result Z OwnershipError :=
  if negb (valid z) then Err AlreadyTransferred
  else if negb (current_owner z =? accessor) then Err NotOwner
  else Ok (zptr z).

Definition zct_invalidate (z : ZeroCopyTransfer) : ZeroCopyTransfer :=
  mkZct (zptr z) (zsize z) (original_owner z) (current_owner z) false.
