(* ===== verification/HeapRegistrySpec.v ===== *)
(** * The registry refines an ownership map *)

From stdpp Require Import base list gmap relations.
From Stdlib Require Import ZArith Lia.
From S2P Require Import Prelude Ranges HeapRegistry.

Local Open Scope Z_scope.

(** ** Lookup of the object around an address *)

Lemma later_foldr_spec (a : Z) (l : list (Z * HeapObject)) :
  match foldr (later a) None l with
  | Some kv => kv ∈ l /\ kv.1 <= a /\ forall kv', kv' ∈ l -> kv'.1 <= a -> kv'.1 <= kv.1
  | None => forall kv', kv' ∈ l -> a < kv'.1
  end.
Proof.
  induction l as [|kv l IH]; simpl; [by intros kv' ?%elem_of_nil|].
  unfold later at 1. destruct (Z.leb_spec kv.1 a) as [Hle|Hgt].
  - destruct (foldr (later a) None l) as [kv1|].
    + destruct IH as (Hin & Hle1 & Hmax). destruct (Z.ltb_spec kv1.1 kv.1).
      * split; [left|]. split; [done|]. intros kv' [->|Hk]%elem_of_cons Hk'; [done|].
        specialize (Hmax kv' Hk Hk'). lia.
      * split; [by right|]. split; [done|]. intros kv' [->|Hk]%elem_of_cons Hk'; [done | by apply Hmax].
    + split; [left|]. split; [done|]. intros kv' [->|Hk]%elem_of_cons Hk'; [done|].
      specialize (IH kv' Hk). lia.
  - destruct (foldr (later a) None l) as [kv1|].
    + destruct IH as (Hin & Hle1 & Hmax). split; [by right|]. split; [done|].
      intros kv' [->|Hk]%elem_of_cons Hk'; [lia | by apply Hmax].
    + intros kv' [->|Hk]%elem_of_cons; [done | by apply IH].
Qed.

Lemma last_below_spec (m : gmap Z HeapObject) (a : Z) :
  match last_below m a with
  | Some o => exists k, m !! k = Some o /\ k <= a /\ forall k' o', m !! k' = Some o' -> k' <= a -> k' <= k
  | None => forall k' o', m !! k' = Some o' -> a < k'
  end.
Proof.
  unfold last_below. pose proof (later_foldr_spec a (map_to_list m)) as H.
  destruct (foldr (later a) None (map_to_list m)) as [[k o]|]; simpl.
  - destruct H as (Hin & Hle & Hmax). exists k. apply elem_of_map_to_list in Hin.
    split; [done|]. split; [done|]. intros k' o' Hk' Hle'. apply (Hmax (k', o')); [by apply elem_of_map_to_list | done].
  - intros k' o' Hk'. apply (H (k', o')). by apply elem_of_map_to_list.
Qed.

(** ** The invariant *)

Definition object_range (o : HeapObject) : range := (address o, size o).

Record registry_ok (r : HeapRegistry) : Prop := {
  ro_addr : forall a o, objects r !! a = Some o -> address o = a /\ 0 <= a /\ 0 <= size o /\ a + size o < u64_modulus;
  ro_apart : forall a b o o', objects r !! a = Some o -> objects r !! b = Some o' -> a <> b ->
    ranges_apart (object_range o) (object_range o');
  ro_index : forall d a, a ∈ indexed (owner_index r) d <-> exists o, objects r !! a = Some o /\ owner o = d;
  ro_nodup : forall d, NoDup (indexed (owner_index r) d)
}.

Lemma registry_new_ok : registry_ok HeapRegistry_new.
Proof.
  split; simpl.
  - intros a o H. by rewrite lookup_empty in H.
  - intros a b o o' H. by rewrite lookup_empty in H.
  - intros d a. unfold indexed. rewrite lookup_empty. simpl. split; [by intros ?%elem_of_nil|].
    intros (o & Ho & _). by rewrite lookup_empty in Ho.
  - intros d. unfold indexed. rewrite lookup_empty. constructor.
Qed.

(** The index after its two updates. *)
Lemma indexed_push (idx : gmap Z (list Z)) (d d' : DomainId) (a : Z) :
  indexed (index_push idx d a) d' = if decide (d' = d) then indexed idx d ++ [a] else indexed idx d'.
Proof.
  unfold indexed, index_push. destruct (decide (d' = d)) as [->|].
  - by rewrite lookup_insert_eq.
  - by rewrite lookup_insert_ne.
Qed.

Lemma indexed_retain (idx : gmap Z (list Z)) (d d' : DomainId) (a : Z) :
  indexed (index_retain idx d a) d' =
    if decide (d' = d) then filter (fun x => x <> a) (indexed idx d) else indexed idx d'.
Proof.
  unfold indexed, index_retain. destruct (decide (d' = d)) as [->|Hne].
  - destruct (idx !! d) eqn:E; [by rewrite lookup_insert_eq | by rewrite E].
  - destruct (idx !! d) eqn:E; [by rewrite lookup_insert_ne | done].
Qed.

(** ** Overlap detection *)

Lemma check_overlap_spec (r : HeapRegistry) (addr sz : Z) :
  registry_ok r -> 0 <= addr -> 0 <= sz -> addr + sz < u64_modulus ->
  check_overlap r addr sz = true <->
  exists a o, objects r !! a = Some o /\ a < addr + sz /\ addr < a + size o.
Proof.
  intros Hok H1 H2 H3. unfold check_overlap. rewrite wrap64_small by (unfold is_u64; lia).
  rewrite existsb_exists. split.
  - intros ([a o] & Hin & Hb). apply list_elem_of_In, elem_of_map_to_list in Hin. cbn [fst snd] in Hb.
    apply andb_true_iff in Hb as [_ [Hb1 Hb2]%andb_true_iff]. apply Z.ltb_lt in Hb1, Hb2.
    destruct (ro_addr r Hok a o Hin) as (Ha & Ha0 & Hs & Hlt). exists a, o. rewrite Ha in Hb1, Hb2.
    rewrite wrap64_small in Hb2 by (unfold is_u64; lia). done.
  - intros (a & o & Ho & Hlt1 & Hlt2). exists (a, o). split; [by apply list_elem_of_In, elem_of_map_to_list|].
    destruct (ro_addr r Hok a o Ho) as (Ha & Ha0 & Hs & Hlt). simpl. rewrite Ha.
    rewrite wrap64_small by (unfold is_u64; lia).
    destruct (Z.ltb_spec a (addr + sz)), (Z.ltb_spec addr (a + size o)); simpl; (done || lia).
Qed.

(** ** The operations preserve the invariant *)

Lemma register_ok (r : HeapRegistry) (addr sz : Z) (own : DomainId) (ty : Z) :
  registry_ok r -> 0 <= addr -> 0 <= sz -> addr + sz < u64_modulus ->
  registry_ok (register r addr sz own ty).2.
Proof.
  intros Hok H1 H2 H3. unfold register. destruct (objects r !! addr) as [o|] eqn:E; [done|].
  destruct (check_overlap r addr sz) eqn:Eov; [done|].
  assert (Hno : forall a o, objects r !! a = Some o -> ranges_apart (addr, sz) (object_range o)).
  { intros a o Ho. destruct (ro_addr r Hok a o Ho) as (Ha & _ & Hs & _). unfold ranges_apart, object_range. simpl. rewrite Ha.
    destruct (Z.lt_ge_cases a (addr + sz)) as [Hl1|]; [|lia].
    destruct (Z.lt_ge_cases addr (a + size o)) as [Hl2|]; [|lia].
    rewrite (proj2 (check_overlap_spec r addr sz Hok H1 H2 H3)) in Eov; [done|]. exists a, o. done. }
  split; cbn [snd objects owner_index].
  - intros a o. rewrite lookup_insert_Some. intros [[<- <-]|[_ Ho]]; [done | by apply (ro_addr r Hok)].
  - intros a b o o'. rewrite !lookup_insert_Some. intros [[<- <-]|[Hna Ho]] [[<- <-]|[Hnb Ho']] Hne.
    + done.
    + by apply (Hno b).
    + symmetry. by apply (Hno a).
    + by apply (ro_apart r Hok a b).
  - intros d a. rewrite indexed_push. setoid_rewrite lookup_insert_Some.
    pose proof (ro_index r Hok d a) as Hi. destruct (decide (d = own)) as [->|Hne].
    + rewrite elem_of_app, list_elem_of_singleton, Hi. split.
      * intros [(o & Ho & Hd) | ->]; [|by eauto]. exists o. split; [|done]. right. split; [congruence | done].
      * intros (o & [[-> _]|[_ Ho]] & Hd); [by right | left; eauto].
    + rewrite Hi. split.
      * intros (o & Ho & Hd). exists o. split; [|done]. right. split; [congruence | done].
      * intros (o & [[_ <-]|[_ Ho]] & Hd); [simpl in Hd; congruence | eauto].
  - intros d. rewrite indexed_push. destruct (decide _) as [->|]; [|apply Hok].
    apply NoDup_app. split; [apply Hok|]. split; [|apply NoDup_singleton].
    intros a Ha ->%list_elem_of_singleton. apply (ro_index r Hok) in Ha as (o & Ho & _). congruence.
Qed.

(** Removing an object together with its index entry. *)
Lemma remove_ok (r : HeapRegistry) (addr : Z) (o : HeapObject) (g : Z) (s : RegistryStats) :
  registry_ok r -> objects r !! addr = Some o ->
  registry_ok (mkRegistry (delete addr (objects r)) (index_retain (owner_index r) (owner o) addr) g s).
Proof.
  intros Hok Ho. split; cbn [objects owner_index].
  - intros a o'. rewrite lookup_delete_Some. intros [_ H]. by apply (ro_addr r Hok).
  - intros a b o1 o2. rewrite !lookup_delete_Some. intros [_ H1] [_ H2]. by apply (ro_apart r Hok a b).
  - intros d a. rewrite indexed_retain. setoid_rewrite lookup_delete_Some.
    pose proof (ro_index r Hok d a) as Hi. destruct (decide (d = owner o)) as [->|Hne].
    + rewrite list_elem_of_filter, Hi. split.
      * intros [Hna (o' & Ho' & Hd)]. exists o'. split; [|done]. split; [done|]. done.
      * intros (o' & [Hna Ho'] & Hd). split; [done|]. eauto.
    + rewrite Hi. split.
      * intros (o' & Ho' & Hd). exists o'. split; [|done]. split; [|done]. intros ->. congruence.
      * intros (o' & [_ Ho'] & Hd). eauto.
  - intros d. rewrite indexed_retain. destruct (decide _); [apply NoDup_filter|]; apply Hok.
Qed.

Lemma transfer_ok (r : HeapRegistry) (addr : Z) (o : HeapObject) (to : DomainId) (g : Z) (s : RegistryStats) :
  registry_ok r -> objects r !! addr = Some o ->
  registry_ok (mkRegistry (<[addr := set_owner o to]> (objects r))
    (index_push (index_retain (owner_index r) (owner o) addr) to addr) g s).
Proof.
  intros Hok Ho. destruct (ro_addr r Hok addr o Ho) as (Ha & Ha0 & Hsz & Hlt).
  split; cbn [objects owner_index].
  - intros a o'. rewrite lookup_insert_Some. intros [[<- <-]|[_ H]]; [done | by apply (ro_addr r Hok)].
  - intros a b o1 o2. rewrite !lookup_insert_Some. intros [[<- <-]|[Hna H1]] [[<- <-]|[Hnb H2]] Hne.
    + done.
    + by apply (ro_apart r Hok addr b o).
    + by apply (ro_apart r Hok a addr o1 o).
    + by apply (ro_apart r Hok a b).
  - intros d a. rewrite indexed_push, !indexed_retain. setoid_rewrite lookup_insert_Some.
    pose proof (ro_index r Hok) as Hi.
    assert (Hret : forall d' a', a' ∈ (if decide (d' = owner o) then filter (fun x => x <> addr) (indexed (owner_index r) (owner o)) else indexed (owner_index r) d')
      <-> a' <> addr /\ exists o', objects r !! a' = Some o' /\ owner o' = d').
    { intros d' a'. destruct (decide (d' = owner o)) as [->|Hne].
      - by rewrite list_elem_of_filter, Hi.
      - rewrite Hi. split; [|tauto]. intros (o' & Ho' & Hd). split; [intros ->; congruence | eauto]. }
    destruct (decide (d = to)) as [->|Hne].
    + rewrite elem_of_app, list_elem_of_singleton, Hret. split.
      * intros [(Hna & o' & Ho' & Hd) | ->].
        -- exists o'. split; [|done]. by right.
        -- exists (set_owner o to). split; [by left | done].
      * intros (o' & [[<- _]|[Hna Ho']] & Hd); [by right | left]. split; [done | eauto].
    + rewrite Hret. split.
      * intros (Hna & o' & Ho' & Hd). exists o'. split; [|done]. by right.
      * intros (o' & [[_ <-]|[Hna Ho']] & Hd); [simpl in Hd; congruence|]. split; [done | eauto].
  - intros d. rewrite indexed_push, !indexed_retain. pose proof (ro_nodup r Hok) as Hnd.
    assert (Hnf : forall d', NoDup (if decide (d' = owner o) then filter (fun x => x <> addr) (indexed (owner_index r) (owner o)) else indexed (owner_index r) d')).
    { intros d'. destruct (decide _); [by apply NoDup_filter | done]. }
    destruct (decide (d = to)) as [->|]; [|done]. apply NoDup_app. split; [done|]. split; [|apply NoDup_singleton].
    intros a Hin ->%list_elem_of_singleton. destruct (decide (to = owner o)) as [->|Hne].
    + by apply list_elem_of_filter in Hin as [? _].
    + apply (ro_index r Hok) in Hin as (o' & Ho' & Hd). congruence.
Qed.

(** Changing only the reference count. *)
Lemma ref_count_ok (r : HeapRegistry) (addr n : Z) (o : HeapObject) :
  registry_ok r -> objects r !! addr = Some o ->
  registry_ok (with_objects r (<[addr := set_ref_count o n]> (objects r))).
Proof.
  intros Hok Ho. split; cbn [with_objects objects owner_index].
  - intros a o'. rewrite lookup_insert_Some. intros [[<- <-]|[_ H]]; [exact (ro_addr r Hok addr o Ho) | by apply (ro_addr r Hok)].
  - intros a b o1 o2. rewrite !lookup_insert_Some. intros [[<- <-]|[Hna H1]] [[<- <-]|[Hnb H2]] Hne.
    + done.
    + by apply (ro_apart r Hok addr b o).
    + by apply (ro_apart r Hok a addr o1 o).
    + by apply (ro_apart r Hok a b).
  - intros d a. rewrite (ro_index r Hok). setoid_rewrite lookup_insert_Some. split.
    + intros (o' & Ho' & Hd). destruct (decide (addr = a)) as [<-|Hne].
      * exists (set_ref_count o n). split; [by left|]. assert (o' = o) as -> by congruence. done.
      * exists o'. split; [by right | done].
    + intros (o' & [[<- <-]|[_ Ho']] & Hd); [exists o; done | eauto].
  - apply Hok.
Qed.

Lemma foldl_delete_lookup (l : list Z) (m : gmap Z HeapObject) (a : Z) :
  foldl reclaim_one m l !! a = if decide (a ∈ l) then None else m !! a.
Proof.
  revert m. induction l as [|x l IH]; intros m; cbn [foldl].
  - destruct (decide (a ∈ [])) as [H|]; [by apply elem_of_nil in H | done].
  - rewrite IH. unfold reclaim_one. destruct (decide (a ∈ l)) as [Hin|Hnin].
    + by rewrite decide_True by (by right).
    + destruct (decide (a = x)) as [->|Hne].
      * rewrite decide_True by left. by rewrite lookup_delete_eq.
      * rewrite decide_False by set_solver. by rewrite lookup_delete_ne.
Qed.

(** Exactly the objects of the domain go. *)
Lemma reclaim_lookup (r : HeapRegistry) (d : DomainId) (a : Z) (o : HeapObject) :
  registry_ok r ->
  objects (reclaim_all r d).2 !! a = Some o <-> objects r !! a = Some o /\ owner o <> d.
Proof.
  intros Hok. simpl. rewrite foldl_delete_lookup. pose proof (ro_index r Hok d a) as Hi.
  destruct (decide _) as [Hin|Hnin].
  - split; [done|]. intros [Ho Hne]. apply Hi in Hin as (o' & Ho' & Hd). congruence.
  - split; [|tauto]. intros Ho. split; [done|]. intros Hd. apply Hnin, Hi. eauto.
Qed.

Lemma reclaim_ok (r : HeapRegistry) (d : DomainId) : registry_ok r -> registry_ok (reclaim_all r d).2.
Proof.
  intros Hok. split.
  - intros a o [Ho _]%reclaim_lookup; [|done]. by apply (ro_addr r Hok).
  - intros a b o o' [Ho _]%reclaim_lookup [Ho' _]%reclaim_lookup; [|done..]. by apply (ro_apart r Hok a b).
  - intros d' a. setoid_rewrite (reclaim_lookup r d); [|done].
    pose proof (ro_index r Hok d' a) as Hi. unfold indexed in *. simpl. destruct (decide (d' = d)) as [->|Hne].
    + rewrite lookup_delete_eq. split; [by intros ?%elem_of_nil|]. intros (o & [_ Ho] & Hd). done.
    + rewrite lookup_delete_ne by done. rewrite Hi. split.
      * intros (o & Ho & Hd). exists o. split; [|done]. split; congruence.
      * intros (o & [Ho _] & Hd). eauto.
  - intros d'. unfold indexed. simpl. destruct (decide (d' = d)) as [->|Hne].
    + rewrite lookup_delete_eq. constructor.
    + rewrite lookup_delete_ne by done. apply (ro_nodup r Hok d').
Qed.
