(* ===== verification/SasTheorems.v ===== *)
(** * Object ownership and address ranges in the single address space *)

From stdpp Require Import base list gmap relations.
From Stdlib Require Import ZArith Lia.
From S2P Require Import Prelude Ranges HeapRegistry HeapRegistrySpec Sas.

Local Open Scope Z_scope.

(** ** Runs of the registry *)

Inductive registry_op :=
| Register (addr sz : Z) (own : DomainId) (ty : Z)
| Unregister (addr : Z) (own : DomainId)
| Transfer (addr : Z) (from to : DomainId)
| CheckAccess (addr : Z) (accessor : DomainId)
| AddRef (addr : Z)
| ReleaseRef (addr : Z)
| UnregisterSimple (addr : Z)
| Reclaim (d : DomainId).

Definition registry_apply (r : HeapRegistry) (op : registry_op) : HeapRegistry :=
  match op with
  | Register addr sz own ty => (register r addr sz own ty).2
  | Unregister addr own => (unregister r addr own).2
  | Transfer addr from to => (transfer_ownership r addr from to).2
  | CheckAccess addr accessor => (check_access r addr accessor).2
  | AddRef addr => (add_ref r addr).2
  | ReleaseRef addr => (release_ref r addr).2
  | UnregisterSimple addr => unregister_simple r addr
  | Reclaim d => (reclaim_all r d).2
  end.

(** A registered object does not wrap around the address space. *)
Definition registry_op_ok (op : registry_op) : Prop :=
  match op with
  | Register addr sz _ _ => 0 <= addr /\ 0 <= sz /\ addr + sz < u64_modulus
  | _ => True
  end.

Lemma with_rstats_ok (r : HeapRegistry) (s : RegistryStats) : registry_ok r -> registry_ok (with_rstats r s).
Proof. intros [H1 H2 H3 H4]. by split. Qed.

Lemma registry_apply_ok (r : HeapRegistry) (op : registry_op) :
  registry_ok r -> registry_op_ok op -> registry_ok (registry_apply r op).
Proof.
  intros Hok Hop. destruct op as [addr sz own ty|addr own|addr from to|addr acc|addr|addr|addr|d]; simpl in *.
  - destruct Hop as (H1 & H2 & H3). by apply register_ok.
  - unfold unregister. destruct (objects r !! addr) as [o|] eqn:E; [|done].
    case_if; [done|]. case_if; [done|]. subst own. by apply remove_ok.
  - unfold transfer_ownership. destruct (objects r !! addr) as [o|] eqn:E; [|done].
    case_if; [done|]. case_if; [done|]. subst from. by apply transfer_ok.
  - unfold check_access. destruct (objects r !! addr); [by apply with_rstats_ok|].
    destruct (last_below _ _); [case_if|]; simpl; repeat apply with_rstats_ok; done.
  - unfold add_ref. destruct (objects r !! addr) as [o|] eqn:E; [|done]. case_if; [done | by apply ref_count_ok].
  - unfold release_ref. destruct (objects r !! addr) as [o|] eqn:E; [|done]. case_if; [done | by apply ref_count_ok].
  - unfold unregister_simple. destruct (objects r !! addr) as [o|] eqn:E; [by apply remove_ok | done].
  - by apply reclaim_ok.
Qed.

(** C13: whatever sequence of operations is applied to a new registry, the
    registered objects do not overlap, and the list kept for a domain names
    exactly the objects the domain owns, each once. *)
Theorem registry_invariant (ops : list registry_op) :
  Forall registry_op_ok ops -> registry_ok (foldl registry_apply HeapRegistry_new ops).
Proof.
  intros Hops. assert (Hgen : forall r, registry_ok r -> registry_ok (foldl registry_apply r ops)).
  { induction Hops as [|op ops Hop _ IH]; intros r Hok; [done|]. simpl. apply IH. by apply registry_apply_ok. }
  apply Hgen, registry_new_ok.
Qed.

(** ** Lookup *)

(** The pointer is the start of the object or lies inside it. *)
Definition within (o : HeapObject) (p : Z) : Prop := p = address o \/ address o <= p < address o + size o.

Lemma get_owner_spec (r : HeapRegistry) (p : Z) (d : DomainId) :
  registry_ok r -> get_owner r p = Some d <-> exists a o, objects r !! a = Some o /\ owner o = d /\ within o p.
Proof.
  intros Hok. unfold get_owner, within. destruct (objects r !! p) as [o|] eqn:E.
  - destruct (ro_addr r Hok p o E) as (Ha & _). split.
    + intros [= <-]. exists p, o. rewrite Ha. auto.
    + intros (a & o' & Ho' & Hd & Hin). destruct (decide (a = p)) as [->|Hne]; [congruence|].
      destruct (ro_addr r Hok a o' Ho') as (Ha' & _ & Hs' & _).
      pose proof (ro_apart r Hok a p o' o Ho' E Hne) as Hap. destruct (ro_addr r Hok p o E) as (_ & _ & Hs & _).
      unfold ranges_apart, object_range in Hap. simpl in Hap. lia.
  - pose proof (last_below_spec (objects r) p) as Hlb. destruct (last_below (objects r) p) as [o|].
    + destruct Hlb as (k & Hk & Hle & Hmax). destruct (ro_addr r Hok k o Hk) as (Ha & Ha0 & Hs & Hlt).
      rewrite Ha, wrap64_small by (unfold is_u64; lia). destruct (Z.ltb_spec p (k + size o)) as [Hin|Hout].
      * split.
        -- intros [= <-]. exists k, o. rewrite Ha. auto.
        -- intros (a & o' & Ho' & Hd & Hin'). destruct (decide (a = k)) as [->|Hne]; [congruence|].
           destruct (ro_addr r Hok a o' Ho') as (Ha' & _ & Hs' & _). rewrite Ha' in Hin'.
           pose proof (ro_apart r Hok a k o' o Ho' Hk Hne) as Hap. unfold ranges_apart, object_range in Hap. simpl in Hap.
           specialize (Hmax a o' Ho'). assert (a <> p) by (intros ->; congruence). lia.
      * split; [done|]. intros (a & o' & Ho' & Hd & Hin').
        destruct (ro_addr r Hok a o' Ho') as (Ha' & _ & Hs' & _). rewrite Ha' in Hin'.
        assert (a <> p) by (intros ->; congruence).
        specialize (Hmax a o' Ho'). destruct (decide (a = k)) as [->|Hne]; [|].
        -- assert (o' = o) as -> by congruence. lia.
        -- pose proof (ro_apart r Hok a k o' o Ho' Hk Hne) as Hap. unfold ranges_apart, object_range in Hap. simpl in Hap. lia.
    + split; [done|]. intros (a & o' & Ho' & Hd & Hin').
      destruct (ro_addr r Hok a o' Ho') as (Ha' & _ & Hs' & _). rewrite Ha' in Hin'.
      assert (a <> p) by (intros ->; congruence). specialize (Hlb a o' Ho'). lia.
Qed.

(** [get_owner] finds the owner of exactly the object a pointer points to
    or into, [check_access] grants access to exactly that domain, and the
    manager's check grants it to the kernel and that domain and names the
    owner it denies it for. *)
Theorem access_checks_correct (m : SasManager) (p : Z) (d : DomainId) :
  registry_ok (heap_registry m) ->
  (forall d', get_owner (heap_registry m) p = Some d' <->
     exists a o, objects (heap_registry m) !! a = Some o /\ owner o = d' /\ within o p) /\
  ((check_access (heap_registry m) p d).1 = true <-> get_owner (heap_registry m) p = Some d) /\
  sas_check_access m p d =
    (if decide (d = DOMAIN_KERNEL) then Ok tt
     else match get_owner (heap_registry m) p with
          | Some d' => if decide (d' = d) then Ok tt else Err (AccessDenied p d' d)
          | None => Err (UnregisteredPointer p)
          end).
Proof.
  intros Hok. split; [intros d'; by apply get_owner_spec|]. split.
  - unfold check_access, get_owner. destruct (objects (heap_registry m) !! p) as [o|]; simpl.
    + rewrite Z.eqb_eq. split; congruence.
    + destruct (last_below _ p) as [o|]; [|done].
      destruct (Z.ltb_spec p (address o +w size o)); simpl; [|done].
      destruct (Z.eqb_spec (owner o) d) as [->|]; simpl; split; congruence.
  - unfold sas_check_access. destruct (Z.eqb_spec d DOMAIN_KERNEL) as [->|Hne]; [by rewrite decide_True|].
    rewrite decide_False by done. destruct (get_owner _ _) as [d'|]; [|done].
    destruct (Z.eqb_spec d' d) as [->|]; [by rewrite decide_True | by rewrite decide_False].
Qed.

(** [transfer_ownership] succeeds exactly for a registered object owned by
    the sender with no other reference; then the pointers to and into the object
    change owner and no other pointer does; on error nothing changes. *)
Theorem transfer_ownership_correct (r : HeapRegistry) (addr : Z) (from to : DomainId) :
  registry_ok r ->
  match transfer_ownership r addr from to with
  | (Ok _, r') =>
      registry_ok r' /\
      exists o, objects r !! addr = Some o /\ owner o = from /\ ref_count o = 1 /\
        (forall p, within o p -> get_owner r' p = Some to) /\
        (forall p, ~ within o p -> get_owner r' p = get_owner r p)
  | (Err e, r') =>
      r' = r /\
      match objects r !! addr with
      | None => e = NotFound
      | Some o => (owner o <> from /\ e = PermissionDenied) \/ (owner o = from /\ ref_count o <> 1 /\ e = StillReferenced)
      end
  end.
Proof.
  intros Hok. pose proof (registry_apply_ok r (Transfer addr from to) Hok I) as Hok'. simpl in Hok'.
  unfold transfer_ownership in *. destruct (objects r !! addr) as [o|] eqn:E; [|done].
  case_if; [by split; [|left]|]. case_if; [split; [done|]; right; done|]. cbn [snd] in Hok'.
  split; [exact Hok'|]. exists o. split; [done|]. split; [done|]. split; [done|]. split.
  - intros p Hp. apply get_owner_spec; [exact Hok'|]. exists addr, (set_owner o to).
    cbn [objects]. rewrite lookup_insert_eq. done.
  - intros p Hp. apply option_eq. intros d. rewrite !get_owner_spec by done. cbn [objects]. split.
    + intros (a & o' & Ho' & Hd & Hin). apply lookup_insert_Some in Ho' as [[<- <-]|[Hne Ho']]; [done | eauto].
    + intros (a & o' & Ho' & Hd & Hin). exists a, o'. split; [|done].
      apply lookup_insert_Some. right. split; [|done]. intros <-. congruence.
Qed.

(** when a domain is reclaimed, the count returned is the number of its
    objects, no pointer belongs to it any more, and every other object keeps its
    owner. *)
Theorem reclaim_correct (m : SasManager) (d : DomainId) :
  registry_ok (heap_registry m) ->
  let '(count, m') := sas_reclaim m d in
  registry_ok (heap_registry m') /\
  (exists addrs, NoDup addrs /\ count = Z.of_nat (length addrs) /\
     forall a, a ∈ addrs <-> exists o, objects (heap_registry m) !! a = Some o /\ owner o = d) /\
  (forall p, get_owner (heap_registry m') p <> Some d) /\
  (forall p d', d' <> d -> get_owner (heap_registry m') p = Some d' <-> get_owner (heap_registry m) p = Some d') /\
  cell_regions m' !! d = None.
Proof.
  intros Hok. unfold sas_reclaim. pose proof (reclaim_ok (heap_registry m) d Hok) as Hok'.
  pose proof (reclaim_lookup (heap_registry m) d) as Hl.
  destruct (reclaim_all (heap_registry m) d) as [count r'] eqn:E. cbn [snd] in *. cbn [heap_registry cell_regions].
  split; [done|]. split; [|split; [|split]].
  - exists (indexed (owner_index (heap_registry m)) d). split; [apply Hok|]. split; [by injection E as <- _|].
    intros a. apply Hok.
  - intros p (a & o & [Ho Hne]%Hl & Hd & _)%get_owner_spec; done.
  - intros p d' Hne. rewrite !get_owner_spec by done. split.
    + intros (a & o & [Ho _]%Hl & H); eauto.
    + intros (a & o & Ho & Hd & H). exists a, o. split; [|done]. apply Hl; [done|]. split; [done | congruence].
  - apply lookup_delete_eq.
Qed.

(** ** Address ranges of domains *)

Definition region_range (g : MemoryRegion) : range := (start g, rsize g).

(** The regions handed out by [allocate_region] lie between the base and the
    next address, page aligned and apart. *)
Record sas_ok (m : SasManager) : Prop := {
  so_next : SAS_BASE_ADDRESS <= next_alloc_addr m < u64_modulus /\ (PAGE_SIZE | next_alloc_addr m);
  so_below : forall d g, g ∈ regions_of m d -> 0 <= rsize g /\ start g + rsize g <= next_alloc_addr m;
  so_apart : forall d d' i j g g', regions_of m d !! i = Some g -> regions_of m d' !! j = Some g' ->
    (d, i) <> (d', j) -> ranges_apart (region_range g) (region_range g')
}.

Lemma sas_new_ok : sas_ok (sas_init SasManager_new).
Proof.
  assert (Hr : forall d g i, regions_of (sas_init SasManager_new) d !! i = Some g ->
    g = mkRegion KERNEL_BASE KERNEL_SIZE PERM_KERNEL /\ d = DOMAIN_KERNEL /\ i = 0%nat).
  { intros d g i. unfold regions_of. simpl. destruct (decide (d = DOMAIN_KERNEL)) as [->|Hne].
    - rewrite lookup_insert_eq. simpl. destruct i; [|done]. by intros [= <-].
    - rewrite lookup_insert_ne by done. rewrite lookup_empty. done. }
  split.
  - split; [split; vm_compute; (discriminate || reflexivity)|]. by exists 27487790688.
  - intros d g (i & (-> & _)%Hr)%list_elem_of_lookup_1. vm_compute. split; discriminate.
  - intros d d' i j g g' (_ & -> & ->)%Hr (_ & -> & ->)%Hr Hne. done.
Qed.

Lemma regions_of_push (m : SasManager) (d d' : DomainId) (g : MemoryRegion) (r : HeapRegistry) (n : Z) (b : bool) :
  regions_of (mkSas (<[d := regions_of m d ++ [g]]> (cell_regions m)) r n b) d' =
    if decide (d' = d) then regions_of m d ++ [g] else regions_of m d'.
Proof.
  unfold regions_of. simpl. destruct (decide (d' = d)) as [->|Hne].
  - by rewrite lookup_insert_eq.
  - by rewrite lookup_insert_ne.
Qed.

(** as long as the bump address does not wrap, a region handed out is page
    aligned, lies below the limit and is apart from every region of every
    domain; the request fails exactly when it would pass the limit, and then no
    domain's regions change. *)
Theorem allocate_region_correct (m : SasManager) (d : DomainId) (sz perms : Z) :
  sas_ok m -> 0 <= sz -> next_alloc_addr m + sz + PAGE_SIZE < u64_modulus ->
  let '(res, m') := allocate_region m d sz perms in
  sas_ok m' /\
  match res with
  | Ok g =>
      rsize g = sz /\ permissions g = perms /\ (PAGE_SIZE | start g) /\
      SAS_BASE_ADDRESS <= start g /\ start g + sz <= SAS_MAX_ADDRESS /\
      (forall d' g', g' ∈ regions_of m d' -> ranges_apart (region_range g) (region_range g')) /\
      forall d', regions_of m' d' = if decide (d' = d) then regions_of m d ++ [g] else regions_of m d'
  | Err e => e = OutOfAddressSpace /\ SAS_MAX_ADDRESS < next_alloc_addr m + sz /\ cell_regions m' = cell_regions m
  end.
Proof.
  intros [[Hn Hnd] Hb Hap] Hsz Hlt. unfold allocate_region.
  destruct (align_up64_spec sz 12) as [Hd Hr]; [lia | lia | unfold PAGE_SIZE, SAS_BASE_ADDRESS in *; lia|].
  change (align_up64 sz (2 ^ 12)) with (align_up sz PAGE_SIZE) in *. change (2 ^ 12) with PAGE_SIZE in *.
  assert (0 < SAS_BASE_ADDRESS) by done.
  rewrite (wrap64_small (next_alloc_addr m + align_up sz PAGE_SIZE)) by (unfold is_u64; lia).
  rewrite wrap64_small by (unfold is_u64, PAGE_SIZE in *; lia).
  assert (Hn' : SAS_BASE_ADDRESS <= next_alloc_addr m + align_up sz PAGE_SIZE < u64_modulus) by lia.
  assert (Hnd' : (PAGE_SIZE | next_alloc_addr m + align_up sz PAGE_SIZE)) by (by apply Z.divide_add_r).
  destruct (Z.gtb_spec (next_alloc_addr m + sz) SAS_MAX_ADDRESS) as [Hout|Hin].
  { split; [|done]. split; [done | | done]. intros d' g Hg. destruct (Hb d' g Hg). simpl. lia. }
  set (g := mkRegion (next_alloc_addr m) sz perms).
  assert (Hnew : forall d' g', g' ∈ regions_of m d' -> ranges_apart (region_range g) (region_range g')).
  { intros d' g' Hg'. destruct (Hb d' g' Hg'). right. simpl. lia. }
  split.
  - split; [done | |].
    + intros d' g'. rewrite regions_of_push. cbn [next_alloc_addr]. intros Hg'.
      assert (g' ∈ regions_of m d' \/ g' = g) as [Hold | ->].
      { destruct (decide _) as [->|]; [|by left]. apply elem_of_app in Hg' as [|Hg']; [by left|].
        right. by apply list_elem_of_singleton. }
      * destruct (Hb d' g' Hold). lia.
      * simpl. lia.
    + assert (Hsplit : forall d' i g', regions_of (mkSas (<[d := regions_of m d ++ [g]]> (cell_regions m)) (heap_registry m)
          (next_alloc_addr m + align_up sz PAGE_SIZE) (initialized m)) d' !! i = Some g' ->
        regions_of m d' !! i = Some g' \/ (d' = d /\ i = length (regions_of m d) /\ g' = g)).
      { intros d' i g'. rewrite regions_of_push. destruct (decide _) as [->|]; [|by left].
        intros [Hi|[Hi1 Hi2]]%lookup_app_Some; [by left|right]. apply list_lookup_singleton_Some in Hi2 as [Hi2 ->].
        split; [done|]. split; [lia | done]. }
      intros d1 d2 i j g1 g2 [H1|(-> & -> & ->)]%Hsplit [H2|(-> & -> & ->)]%Hsplit Hne.
      * by apply (Hap d1 d2 i j).
      * symmetry. apply (Hnew d1). by eapply list_elem_of_lookup_2.
      * apply (Hnew d2). by eapply list_elem_of_lookup_2.
      * done.
  - split; [done|]. split; [done|]. split; [done|]. split; [simpl; lia|]. split; [simpl; lia|].
    split; [done|]. intros d'. apply regions_of_push.
Qed.

(** the limit test adds the size to the address without an overflow check.
    A request of 2^64 - 4096 bytes passes it and moves the bump address one page
    down, so the next request is given a page that is already in use. *)
Theorem huge_request_rewinds (m : SasManager) (d1 d2 : DomainId) (perms : Z) :
  SAS_BASE_ADDRESS + PAGE_SIZE <= next_alloc_addr m <= SAS_MAX_ADDRESS ->
  let '(r1, m1) := allocate_region m d1 (2 ^ 64 - PAGE_SIZE) perms in
  r1 = Ok (mkRegion (next_alloc_addr m) (2 ^ 64 - PAGE_SIZE) perms) /\
  (allocate_region m1 d2 PAGE_SIZE perms).1 = Ok (mkRegion (next_alloc_addr m - PAGE_SIZE) PAGE_SIZE perms).
Proof.
  intros Hn. unfold allocate_region. change (align_up (2 ^ 64 - PAGE_SIZE) PAGE_SIZE) with (2 ^ 64 - PAGE_SIZE).
  change (align_up PAGE_SIZE PAGE_SIZE) with PAGE_SIZE.
  unfold SAS_MAX_ADDRESS, SAS_BASE_ADDRESS, PAGE_SIZE in *.
  assert (Hw : wrap64 (next_alloc_addr m + (2 ^ 64 - 4096)) = next_alloc_addr m - 4096).
  { unfold wrap64. replace (next_alloc_addr m + (2 ^ 64 - 4096)) with (next_alloc_addr m - 4096 + 1 * u64_modulus) by (unfold u64_modulus; lia).
    rewrite Z.mod_add by done. apply Z.mod_small. unfold u64_modulus. lia. }
  rewrite Hw. destruct (Z.gtb_spec (next_alloc_addr m - 4096) 0xFFFFFFFF0000); [lia|]. split; [done|].
  cbn [next_alloc_addr]. rewrite wrap64_small by (unfold is_u64, u64_modulus; lia).
  destruct (Z.gtb_spec (next_alloc_addr m - 4096 + 4096) 0xFFFFFFFF0000); [lia | done].
Qed.

(** ** Concrete runs *)

Definition demo_ops : list registry_op :=
  [Register 0x1000 64 1 0; Register 0x1020 8 2 0; Register 0x2000 16 2 0; Transfer 0x1000 1 2; AddRef 0x2000].
Definition demo_registry : HeapRegistry := foldl registry_apply HeapRegistry_new demo_ops.

Lemma demo_ops_ok : Forall registry_op_ok demo_ops.
Proof. repeat constructor; simpl; unfold u64_modulus; lia. Qed.

Lemma registry_invariant_witness : registry_ok demo_registry.
Proof. exact (registry_invariant demo_ops demo_ops_ok). Defined.

Definition demo_sas : SasManager := with_registry SasManager_new demo_registry.

Lemma demo_registry_ok : registry_ok (heap_registry demo_sas).
Proof.
  apply (registry_apply_ok _ (AddRef 0x2000)); [|done]. apply (registry_apply_ok _ (Transfer 0x1000 1 2)); [|done].
  do 3 (apply (registry_apply_ok _ (Register _ _ _ _)); [|simpl; unfold u64_modulus; lia]). apply registry_new_ok.
Qed.

Lemma access_checks_correct_witness :
  (check_access demo_registry 0x1010 2).1 = true /\ get_owner demo_registry 0x1010 = Some 2.
Proof.
  destruct (access_checks_correct demo_sas 0x1010 2 demo_registry_ok) as (_ & [_ H] & _).
  split; [apply H; reflexivity | reflexivity].
Defined.

Lemma transfer_ownership_correct_witness :
  get_owner (transfer_ownership demo_registry 0x1000 2 3).2 0x103f = Some 3.
Proof.
  pose proof (transfer_ownership_correct demo_registry 0x1000 2 3 demo_registry_ok) as H.
  destruct (transfer_ownership demo_registry 0x1000 2 3) as [[u|e] r'] eqn:E; [|discriminate].
  destruct H as (_ & o & Ho & _ & _ & H & _). apply H.
  vm_compute in Ho. injection Ho as <-. right. simpl. lia.
Defined.

Lemma reclaim_correct_witness :
  exists count m', sas_reclaim demo_sas 2 = (count, m') /\ forall p, get_owner (heap_registry m') p <> Some 2.
Proof.
  pose proof (reclaim_correct demo_sas 2 demo_registry_ok) as H.
  destruct (sas_reclaim demo_sas 2) as [count m']. exists count, m'. split; [reflexivity | apply H].
Defined.

Lemma allocate_region_correct_witness :
  sas_ok (allocate_region (sas_init SasManager_new) 1 5000 PERM_READ).2.
Proof.
  pose proof (allocate_region_correct (sas_init SasManager_new) 1 5000 PERM_READ sas_new_ok) as H.
  destruct (allocate_region (sas_init SasManager_new) 1 5000 PERM_READ) as [res m']. apply H; [lia | reflexivity].
Defined.

Lemma huge_request_rewinds_witness :
  let m0 := (allocate_region (sas_init SasManager_new) 1 PAGE_SIZE PERM_READ).2 in
  let m1 := (allocate_region m0 2 (2 ^ 64 - PAGE_SIZE) PERM_READ).2 in
  (allocate_region (sas_init SasManager_new) 1 PAGE_SIZE PERM_READ).1 = (allocate_region m1 3 PAGE_SIZE PERM_READ).1.
Proof.
  intros m0 m1. pose proof (huge_request_rewinds m0 2 3 PERM_READ) as H. unfold m1.
  destruct (allocate_region m0 2 (2 ^ 64 - PAGE_SIZE) PERM_READ) as [r1 m'] eqn:E.
  destruct H as [_ H]; [vm_compute; split; discriminate|]. cbn [snd]. rewrite H. reflexivity.
Defined.

(** A denied access at the start of an object is not counted as a denial. *)
Lemma direct_denial_not_counted :
  let '(ok, r) := check_access demo_registry 0x1000 7 in ok = false /\ access_denials (rstats r) = 0.
Proof. vm_compute. split; reflexivity. Qed.

(** [unregister_object] reports the owner and leaves the object registered. *)
Lemma unregister_object_keeps_object (m : SasManager) (ptr : Z) (d : DomainId) :
  sas_get_owner m ptr = Some d -> let '(r, m') := unregister_object m ptr in r = Some d /\ sas_get_owner m' ptr = Some d.
Proof. intros H. split; exact H. Qed.

(** [complete_transfer] takes any token and any new owner: a domain the token was
    not issued for becomes the owner. *)
Lemma complete_transfer_ignores_token {T : Type} (d : T) (here : Z) :
  let '(tok, t1) := begin_transfer (Transferable_new d 1) 1 2 here 8 in
  match tok with
  | Ok tok => transferable_get (complete_transfer t1 tok 9) 9 = Ok d /\ token_complete tok 9 = Err NotOwner
  | Err _ => False
  end.
Proof. done. Qed.
