(* ===== verification/RRef.v ===== *)
(** * Remote references (src/src/ipc/rref.rs) and zero-copy channels
    (src/src/ipc/pipe.rs, lines 680 to 932)

    A remote reference owns a value on the exchange heap and is registered with
    its owner in the heap registry.  [V] are the values, of any type; a reference
    knows the layout of its type.  References move: an operation that consumes
    one and fails drops it. *)

From stdpp Require Import base list gmap relations.
From Stdlib Require Import ZArith Lia.
From S2P Require Import Prelude Ranges ExchangeHeap ExchangeHeapTheorems HeapRegistry HeapRegistrySpec SasTheorems.

Local Open Scope Z_scope.

(** [Poll] *)
Inductive cpoll (A : Type) := CReady (a : A) | CPending.
Arguments CReady {A} a.
Arguments CPending {A}.

Section RRefs.
Context {V : Type}.

(** [HEAP_REGISTRY] and [EXCHANGE_HEAP]. *)
Record world := mkWorld { registry : HeapRegistry; xchg : exchange (V := V) }.

Record RRef := mkRRef { rptr : Z; rowner : DomainId; rlayout : Layout }.

Inductive AccessError := AccessNotOwner.

Definition RRef_new (w : world) (own : DomainId) (layout : Layout) (val : V) : outcome (RRef * world) :=
  let! (r, x1) := allocate_on_exchange layout (xchg w) val in
  match r with
  | None => Panic
  | Some ptr =>
      let reg1 := register_simple (registry w) ptr (layout_size layout) own in
      Ret (mkRRef ptr own layout, mkWorld reg1 x1)
  end.

Definition move_to (w : world) (r : RRef) (new_owner : DomainId) : RRef * world :=
  let '(_, reg1) := change_owner (registry w) (rptr r) (rowner r) new_owner in
  (mkRRef (rptr r) new_owner (rlayout r), mkWorld reg1 (xchg w)).

Definition as_ref_checked (w : world) (r : RRef) (requester : DomainId) : result (outcome V) AccessError :=
  if rowner r =? requester then Ok (cell_read (xchg w) (rptr r)) else Err AccessNotOwner.

(** [Deref] *)
Definition rref_deref (w : world) (r : RRef) : outcome V := cell_read (xchg w) (rptr r).

Definition into_inner (w : world) (r : RRef) : outcome (V * world) :=
  let reg1 := unregister_simple (registry w) (rptr r) in
  let! value := cell_read (xchg w) (rptr r) in
  Ret (value, mkWorld reg1 (deallocate_raw (cell_forget (xchg w) (rptr r)) (rptr r) (rlayout r))).

Definition rref_drop (w : world) (r : RRef) : outcome world :=
  let reg1 := unregister_simple (registry w) (rptr r) in
  let! x1 := cell_drop (xchg w) (rptr r) in
  Ret (mkWorld reg1 (deallocate_raw x1 (rptr r) (rlayout r))).

(** [reclaim_domain_resources] *)
Definition reclaim_domain_resources (w : world) (d : DomainId) : world :=
  mkWorld (reclaim_all (registry w) d).2 (xchg w).

(** ** Zero-copy channels *)

Inductive ChannelError := Disconnected | Full | Empty | SendClosed | RecvClosed.

Record ZeroCopyChannel := mkChannel {
  queue : list RRef;
  sender_open : bool;
  receiver_open : bool;
  send_wakers : list Z;
  recv_wakers : list Z;
  ch_capacity : Z
}.

Definition ZeroCopyChannel_new (cap : Z) : ZeroCopyChannel := mkChannel [] true true [] [] cap.

(** The result, the world, the channel and the wakers woken.  On an error the
    argument goes out of scope and is dropped. *)
Definition channel_send (w : world) (c : ZeroCopyChannel) (d : RRef) :
    outcome (result unit ChannelError * world * ZeroCopyChannel * list Z) :=
  if negb (receiver_open c) then
    let! w1 := rref_drop w d in Ret (Err RecvClosed, w1, c, [])
  else if Z.of_nat (length (queue c)) >=? ch_capacity c then
    let! w1 := rref_drop w d in Ret (Err Full, w1, c, [])
  else
    Ret (Ok tt, w,
         mkChannel (queue c ++ [d]) (sender_open c) (receiver_open c) (send_wakers c) (tail (recv_wakers c)) (ch_capacity c),
         take 1 (recv_wakers c)).

Definition channel_recv (c : ZeroCopyChannel) : result RRef ChannelError * ZeroCopyChannel * list Z :=
  if negb (sender_open c) && bool_decide (queue c = []) then (Err Disconnected, c, [])
  else
    match queue c with
    | d :: q =>
        (Ok d,
         mkChannel q (sender_open c) (receiver_open c) (tail (send_wakers c)) (recv_wakers c) (ch_capacity c),
         take 1 (send_wakers c))
    | [] => (Err Empty, c, [])
    end.

Definition channel_poll_send (w : world) (c : ZeroCopyChannel) (d : RRef) (cx : Z) :
    outcome (cpoll (result unit ChannelError) * world * ZeroCopyChannel * list Z) :=
  let! (r, w1, c1, ws) := channel_send w c d in
  match r with
  | Ok _ => Ret (CReady (Ok tt), w1, c1, ws)
  | Err Full =>
      Ret (CPending, w1,
           mkChannel (queue c1) (sender_open c1) (receiver_open c1) (send_wakers c1 ++ [cx]) (recv_wakers c1) (ch_capacity c1), ws)
  | Err e => Ret (CReady (Err e), w1, c1, ws)
  end.

Definition channel_poll_recv (c : ZeroCopyChannel) (cx : Z) : cpoll (result RRef ChannelError) * ZeroCopyChannel * list Z :=
  match channel_recv c with
  | (Ok d, c1, ws) => (CReady (Ok d), c1, ws)
  | (Err Empty, c1, ws) =>
      if negb (sender_open c1) then (CReady (Err Disconnected), c1, ws)
      else
        (CPending,
         mkChannel (queue c1) (sender_open c1) (receiver_open c1) (send_wakers c1) (recv_wakers c1 ++ [cx]) (ch_capacity c1), ws)
  | (Err e, c1, ws) => (CReady (Err e), c1, ws)
  end.

Definition close_sender (c : ZeroCopyChannel) : ZeroCopyChannel * list Z :=
  (mkChannel (queue c) false (receiver_open c) (send_wakers c) [] (ch_capacity c), recv_wakers c).

Definition close_receiver (c : ZeroCopyChannel) : ZeroCopyChannel * list Z :=
  (mkChannel (queue c) (sender_open c) false [] (recv_wakers c) (ch_capacity c), send_wakers c).

(** The ends; [own] is the domain of the end. *)
Definition sender_send (w : world) (c : ZeroCopyChannel) (own : DomainId) (layout : Layout) (value : V) :
    outcome (result unit ChannelError * world * ZeroCopyChannel * list Z) :=
  let! (r, w1) := RRef_new w own layout value in channel_send w1 c r.

Definition sender_send_rref := channel_send.

(** Dropping any clone of the sender. *)
Definition sender_drop := close_sender.

Definition receiver_recv (w : world) (c : ZeroCopyChannel) (own : DomainId) :
    result RRef ChannelError * world * ZeroCopyChannel * list Z :=
  match channel_recv c with
  | (Ok r, c1, ws) => let '(r1, w1) := move_to w r own in (Ok r1, w1, c1, ws)
  | (Err e, c1, ws) => (Err e, w, c1, ws)
  end.

(** [recv_into] consumes the receiver, which closes. *)
Definition receiver_recv_into (w : world) (c : ZeroCopyChannel) (own : DomainId) :
    outcome (result V ChannelError * world * ZeroCopyChannel * list Z) :=
  let '(r, w1, c1, ws) := receiver_recv w c own in
  match r with
  | Ok rref =>
      let! (v, w2) := into_inner w1 rref in
      let '(c2, ws2) := close_receiver c1 in Ret (Ok v, w2, c2, ws ++ ws2)
  | Err e => let '(c2, ws2) := close_receiver c1 in Ret (Err e, w1, c2, ws ++ ws2)
  end.

Definition receiver_drop := close_receiver.

Definition zero_copy_channel := ZeroCopyChannel_new.

End RRefs.

Arguments world V : clear implicits.

(** ** Ownership, lifetime and channels *)

Section RRefSpec.
Context {V : Type}.

(** The bytes of the exchange heap a reference owns. *)
Definition ref_range (rv : RRef * V) : range := (rptr rv.1, owned_size (rlayout rv.1)).

(** The registry entry of a reference. *)
Definition entry_for (r : RRef) (o : HeapObject) : Prop :=
  address o = rptr r /\ owner o = rowner r /\ size o = layout_size (rlayout r) /\ ref_count o = 1.

(** [refs] are the live references with their values: each has its memory, its
    value in place and its entry in the registry, and the registry has no other
    entry. *)
Record world_inv (w : world V) (refs : list (RRef * V)) : Prop := {
  wi_heap : exists free, heap_inv (xm (xchg w)) (xh (xchg w)) free (ref_range <$> refs);
  wi_reg : registry_ok (registry w);
  wi_entry : forall r v, (r, v) ∈ refs -> exists o, objects (registry w) !! rptr r = Some o /\ entry_for r o;
  wi_only : forall a o, objects (registry w) !! a = Some o -> exists rv, rv ∈ refs /\ rptr rv.1 = a;
  wi_cell : forall r v, (r, v) ∈ refs -> cells (xchg w) !! rptr r = Some v;
  wi_layout : forall r v, (r, v) ∈ refs -> layout_ok (rlayout r)
}.

#[export] Instance world_inv_perm (w : world V) : Proper ((≡ₚ) ==> iff) (world_inv w).
Proof.
  assert (H : forall refs refs', refs ≡ₚ refs' -> world_inv w refs -> world_inv w refs').
  { intros refs refs' Hp [[free [H1 H2 H3 H4]] Hr He Ho Hc Hl]. split; try done.
    - exists free. split; [done | done | |]; by rewrite <- Hp.
    - intros r v Hin. apply (He r v). by rewrite Hp.
    - intros a o Hao. destruct (Ho a o Hao) as (rv & Hin & Heq). exists rv. by rewrite <- Hp.
    - intros r v Hin. apply Hc. by rewrite Hp.
    - intros r v Hin. apply (Hl r v). by rewrite Hp. }
  intros refs refs' Hp. split; apply H; done.
Qed.

(** Live references have different pointers. *)
Lemma refs_ptr_NoDup (w : world V) (refs : list (RRef * V)) :
  world_inv w refs -> NoDup ((fun rv => rptr rv.1) <$> refs).
Proof.
  intros [[free [_ _ Hin Hap]] _ _ _ _ _]. apply blocks_in_app in Hin as [_ Hin]. apply all_apart_app in Hap as (_ & Hap & _).
  pose proof (apart_NoDup _ _ _ Hin Hap) as Hnd. by rewrite <- list_fmap_compose in Hnd.
Qed.

Lemma refs_ptr_bounds (w : world V) (refs : list (RRef * V)) (r : RRef) (v : V) :
  world_inv w refs -> (r, v) ∈ refs -> 0 < rptr r /\ rptr r + owned_size (rlayout r) < u64_modulus.
Proof.
  intros [[free [[Hlo Hhi] _ Hin _]] _ _ _ _ _] Hr. apply blocks_in_app in Hin as [_ Hin].
  unfold blocks_in in Hin. rewrite Forall_forall in Hin. specialize (Hin (ref_range (r, v))).
  destruct Hin as (H1 & H2 & H3); [by apply list_elem_of_fmap_2|]. simpl in *. lia.
Qed.

Lemma owned_covers (l : Layout) : layout_size l <= owned_size l.
Proof. unfold owned_size. lia. Qed.

(** ** Creation *)

Lemma RRef_new_spec (w : world V) (refs : list (RRef * V)) (own : DomainId) (l : Layout) (v : V) :
  world_inv w refs -> layout_ok l ->
  (RRef_new w own l v = Panic /\ exists free, heap_inv (xm (xchg w)) (xh (xchg w)) free (ref_range <$> refs) /\
     Forall (fun b => ~ place_in l b) free) \/
  (exists r w', RRef_new w own l v = Ret (r, w') /\ rowner r = own /\ rlayout r = l /\ world_inv w' ((r, v) :: refs)).
Proof.
  intros Hw Hl. pose proof Hw as [[free Hinv] Hr He Ho Hc Hly].
  destruct (allocate_spec _ _ _ _ l Hinv Hl) as (res & m' & h' & Heq & Hres).
  unfold RRef_new, allocate_on_exchange, exchange_allocate. rewrite Heq. cbn [obind].
  destruct res as [p|]; [right | left].
  2:{ split; [done|]. exists free. by destruct Hres as (_ & _ & ?). }
  destruct Hres as (_ & b & l1 & l2 & rest & _ & _ & _ & _ & _ & Hinv'). cbn [obind].
  pose proof Hinv' as [[Hlo Hhi] _ Hin' Hap']. apply blocks_in_app in Hin' as [_ Hin'].
  apply Forall_cons in Hin' as [Hp Hin']. cbn [fst snd] in Hp. pose proof (owned_covers l).
  destruct Hl as [Hal [Hsz0 Hsz]].
  apply all_apart_app in Hap' as (_ & [Hpap _] & _). rewrite Forall_forall in Hpap.
  assert (Happ : forall rv, rv ∈ refs -> ranges_apart (p, owned_size l) (ref_range rv))
    by (intros rv Hrv; apply Hpap; by apply list_elem_of_fmap_2).
  assert (Hfresh : objects (registry w) !! p = None).
  { destruct (objects (registry w) !! p) as [o|] eqn:E; [|done]. destruct (Ho p o E) as ([r v'] & Hin & Hpr).
    specialize (Happ _ Hin). unfold blocks_in in Hin'. rewrite Forall_forall in Hin'.
    specialize (Hin' (ref_range (r, v'))). destruct Hin' as (_ & H16 & _); [by apply list_elem_of_fmap_2|].
    unfold ranges_apart, SIZE_OF_FREE_BLOCK in *. simpl in *. lia. }
  assert (Hno : check_overlap (registry w) p (layout_size l) = false).
  { apply not_true_iff_false. rewrite check_overlap_spec by (done || lia). intros (a & o & Hao & H1 & H2).
    destruct (Ho a o Hao) as ([r v'] & Hin & Hpr). destruct (He r v' Hin) as (o' & Ho' & _ & _ & Hso & _).
    cbn [fst] in Hpr. rewrite Hpr in Ho'. assert (o' = o) as -> by congruence.
    specialize (Happ _ Hin). pose proof (owned_covers (rlayout r)). unfold ranges_apart in Happ. simpl in *. lia. }
  assert (Hreg : register_simple (registry w) p (layout_size l) own =
    mkRegistry (<[p := mkObject p (layout_size l) own 0 (next_generation (registry w)) 1]> (objects (registry w)))
      (index_push (owner_index (registry w)) own p) (next_generation (registry w) +w 1)
      (count_registered (rstats (registry w)))).
  { unfold register_simple, register. by rewrite Hfresh, Hno. }
  do 2 eexists. split; [done|]. split; [done|]. split; [done|]. split; cbn [registry xchg].
  - eexists. exact Hinv'.
  - apply register_ok; [done | lia | done | lia].
  - intros r' v' [[= -> ->]|Hin]%elem_of_cons; rewrite Hreg; cbn [objects rptr].
    + rewrite lookup_insert_eq. eexists. split; [done|]. done.
    + destruct (He r' v' Hin) as (o & Hao & Hent). exists o. split; [|done].
      rewrite lookup_insert_ne; [done|]. intros ->. congruence.
  - intros a o. rewrite Hreg. cbn [objects]. rewrite lookup_insert_Some. intros [[<- _]|[_ Hao]].
    + exists (mkRRef p own l, v). split; [left | done].
    + destruct (Ho a o Hao) as (rv & Hin & Heq'). exists rv. split; [by right | done].
  - intros r' v' [[= -> ->]|Hin]%elem_of_cons; cbn [cells cell_write rptr].
    + by rewrite lookup_insert_eq.
    + rewrite lookup_insert_ne; [by apply Hc|]. intros Heq'. destruct (He r' v' Hin) as (o & Hao & _). congruence.
  - intros r' v' [[= -> ->]|Hin]%elem_of_cons; [done | by apply (Hly r' v')].
Qed.

(** ** Moving *)

Lemma move_to_spec (w : world V) (refs : list (RRef * V)) (r : RRef) (v : V) (to : DomainId) :
  world_inv w ((r, v) :: refs) ->
  let '(r', w') := move_to w r to in
  r' = mkRRef (rptr r) to (rlayout r) /\ world_inv w' ((r', v) :: refs) /\
  (forall p, p = rptr r \/ rptr r <= p < rptr r + layout_size (rlayout r) -> get_owner (registry w') p = Some to) /\
  xchg w' = xchg w.
Proof.
  intros Hw. pose proof (refs_ptr_NoDup _ _ Hw) as Hnd. simpl in Hnd. apply NoDup_cons in Hnd as [Hnin _].
  pose proof Hw as [Hh Hr He Ho Hc Hly].
  destruct (He r v) as (o & Hao & Ha & Hown & Hso & Href); [left|].
  unfold move_to, change_owner, transfer_ownership. rewrite Hao, Hown, Href, !Z.eqb_refl. cbn [negb].
  split; [done|].
  assert (Hreg' : registry_ok (mkRegistry (<[rptr r := set_owner o to]> (objects (registry w)))
    (index_push (index_retain (owner_index (registry w)) (rowner r) (rptr r)) to (rptr r))
    (next_generation (registry w)) (count_transferred (rstats (registry w))))).
  { rewrite <- Hown. by apply transfer_ok. }
  split; [|split; [|done]].
  - split; cbn [registry xchg]; try done.
    + intros r' v' [[= -> ->]|Hin]%elem_of_cons; cbn [objects rptr].
      * rewrite lookup_insert_eq. eexists. done.
      * destruct (He r' v') as (o' & Hao' & Hent); [by right|]. exists o'. split; [|done].
        rewrite lookup_insert_ne; [done|]. intros Heq. apply Hnin. apply list_elem_of_fmap. by exists (r', v').
    + intros a o'. cbn [objects]. rewrite lookup_insert_Some. intros [[<- _]|[Hne Hao']].
      * eexists. split; [left | done].
      * destruct (Ho a o' Hao') as (rv & [->|Hin]%elem_of_cons & Heq); [done|]. exists rv. split; [by right | done].
    + intros r' v' [[= -> ->]|Hin]%elem_of_cons; [apply (Hc r v); left | apply Hc; by right].
    + intros r' v' [[= -> ->]|Hin]%elem_of_cons; [apply (Hly r v); left | apply (Hly r' v'); by right].
  - intros p Hp. cbn [registry]. apply get_owner_spec; [exact Hreg'|]. exists (rptr r), (set_owner o to).
    cbn [objects]. rewrite lookup_insert_eq. split; [done|]. split; [done|]. unfold within. simpl. by rewrite Ha, Hso.
Qed.

(** ** Destruction *)

Lemma remove_ref_spec (w : world V) (refs : list (RRef * V)) (r : RRef) (v : V) :
  world_inv w ((r, v) :: refs) ->
  cells (xchg w) !! rptr r = Some v /\
  world_inv (mkWorld (unregister_simple (registry w) (rptr r))
    (deallocate_raw (cell_forget (xchg w) (rptr r)) (rptr r) (rlayout r))) refs.
Proof.
  intros Hw. pose proof (refs_ptr_NoDup _ _ Hw) as Hnd. simpl in Hnd. apply NoDup_cons in Hnd as [Hnin _].
  pose proof Hw as [[free Hinv] Hr He Ho Hc Hly].
  destruct (He r v) as (o & Hao & Ha & Hown & Hso & Href); [left|]. split; [apply Hc; left|].
  assert (Hne : forall r' v', (r', v') ∈ refs -> rptr r' <> rptr r).
  { intros r' v' Hin Heq. apply Hnin. apply list_elem_of_fmap. by exists (r', v'). }
  unfold unregister_simple. rewrite Hao.
  pose proof (deallocate_spec _ _ _ _ (ref_range <$> refs) (rptr r) (rlayout r) Hinv) as Hd.
  unfold deallocate_raw, exchange_deallocate. cbn [xm xh cells cell_forget].
  destruct (heap_deallocate _ _ _ _) as [m1 h1]. split; cbn [registry xchg xm xh cells objects].
  - eexists. by apply Hd.
  - by apply remove_ok.
  - intros r' v' Hin. destruct (He r' v') as (o' & Hao' & Hent); [by right|]. exists o'. split; [|done].
    apply lookup_delete_Some. split; [|done]. by apply not_eq_sym, (Hne r' v').
  - intros a o'. rewrite lookup_delete_Some. intros [Hna Hao'].
    destruct (Ho a o' Hao') as (rv & [->|Hin]%elem_of_cons & Heq); [done|]. by exists rv.
  - intros r' v' Hin. rewrite lookup_delete_ne by (by apply not_eq_sym, (Hne r' v')). apply Hc. by right.
  - intros r' v' Hin. apply (Hly r' v'). by right.
Qed.

Lemma into_inner_spec (w : world V) (refs : list (RRef * V)) (r : RRef) (v : V) :
  world_inv w ((r, v) :: refs) -> exists w', into_inner w r = Ret (v, w') /\ world_inv w' refs.
Proof.
  intros [Hcell Hw]%remove_ref_spec. unfold into_inner, cell_read. rewrite Hcell. cbn [obind]. eauto.
Qed.

Lemma rref_drop_spec (w : world V) (refs : list (RRef * V)) (r : RRef) (v : V) :
  world_inv w ((r, v) :: refs) -> exists w', rref_drop w r = Ret w' /\ world_inv w' refs.
Proof.
  intros [Hcell Hw]%remove_ref_spec. unfold rref_drop, cell_drop, cell_read. rewrite Hcell. cbn [obind]. eauto.
Qed.

(** the life of a remote reference.  A reference created for a domain is
    readable by that domain only; moving it makes the new owner the only reader
    and the owner the registry reports for every pointer into the value, with
    the value in place; taking the value out returns it, and the memory and the
    registry entry are released; all other references keep their owners and
    values throughout. *)
Theorem rref_lifecycle (w : world V) (refs : list (RRef * V)) (d1 d2 : DomainId) (l : Layout) (v : V) (r : RRef) (w1 : world V) :
  world_inv w refs -> layout_ok l -> d1 <> d2 -> RRef_new w d1 l v = Ret (r, w1) ->
  world_inv w1 ((r, v) :: refs) /\
  as_ref_checked w1 r d1 = Ok (Ret v) /\ as_ref_checked w1 r d2 = Err AccessNotOwner /\
  let '(r2, w2) := move_to w1 r d2 in
  world_inv w2 ((r2, v) :: refs) /\
  as_ref_checked w2 r2 d2 = Ok (Ret v) /\ as_ref_checked w2 r2 d1 = Err AccessNotOwner /\
  get_owner (registry w2) (rptr r2) = Some d2 /\
  exists w3, into_inner w2 r2 = Ret (v, w3) /\ world_inv w3 refs /\ objects (registry w3) !! rptr r2 = None.
Proof.
  intros Hw Hl Hne Hnew. destruct (RRef_new_spec w refs d1 l v Hw Hl) as [[Hp _] | (r' & w' & Heq & Hown & Hly & Hw1)];
    [congruence|].
  rewrite Heq in Hnew. injection Hnew as -> ->.
  assert (Href : forall w' r' v' d, world_inv w' ((r', v') :: refs) ->
    as_ref_checked w' r' d = if decide (rowner r' = d) then Ok (Ret v') else Err AccessNotOwner).
  { intros w' r' v' d Hi. unfold as_ref_checked, cell_read. rewrite (wi_cell _ _ Hi r' v') by left.
    destruct (Z.eqb_spec (rowner r') d); [by rewrite decide_True | by rewrite decide_False]. }
  split; [done|]. rewrite !(Href w1 r v) by done. split; [by rewrite decide_True|]. split; [by rewrite decide_False by congruence|].
  pose proof (move_to_spec w1 refs r v d2 Hw1) as Hmv. destruct (move_to w1 r d2) as [r2 w2].
  destruct Hmv as (-> & Hw2 & Hget & _). split; [done|].
  rewrite !(Href w2 _ v) by done. cbn [rowner]. split; [by rewrite decide_True|]. split; [by rewrite decide_False by congruence|].
  split; [apply Hget; by left|].
  destruct (into_inner_spec w2 refs _ v Hw2) as (w3 & Heq3 & Hw3). exists w3. split; [done|]. split; [done|].
  destruct (objects (registry w3) !! _) as [o|] eqn:E; [|done]. destruct (wi_only _ _ Hw3 _ o E) as ([r' v'] & Hin & Hp).
  pose proof (refs_ptr_NoDup _ _ Hw2) as Hnd. simpl in Hnd. apply NoDup_cons in Hnd as [Hnin _].
  exfalso. apply Hnin. apply list_elem_of_fmap. by exists (r', v').
Qed.

End RRefSpec.
