(* ===== verification/ChannelTheorems.v ===== *)
(** * Zero-copy channels: order, ownership, loss *)

From stdpp Require Import base list gmap relations.
From Stdlib Require Import ZArith Lia.
From S2P Require Import Prelude Ranges ExchangeHeap ExchangeHeapTheorems HeapRegistry HeapRegistrySpec RRef.

Local Open Scope Z_scope.

Section Channel.
Context {V : Type}.

(** The channel holds the references of [qv], in order; [held] are the live
    references outside of it. *)
Record channel_inv (w : world V) (c : ZeroCopyChannel) (qv held : list (RRef * V)) : Prop := {
  ci_queue : queue c = fst <$> qv;
  ci_world : world_inv w (qv ++ held);
  ci_capacity : Z.of_nat (length (queue c)) <= Z.max 0 (ch_capacity c)
}.

Lemma channel_send_spec (w : world V) (c : ZeroCopyChannel) (qv held : list (RRef * V)) (r : RRef) (v : V) :
  channel_inv w c qv ((r, v) :: held) ->
  exists res w' c' ws, channel_send w c r = Ret (res, w', c', ws) /\
    match res with
    | Ok _ => receiver_open c = true /\ w' = w /\ channel_inv w' c' (qv ++ [(r, v)]) held
    | Err e => c' = c /\ channel_inv w' c' qv held /\
        ((e = RecvClosed /\ receiver_open c = false) \/
         (e = Full /\ receiver_open c = true /\ ch_capacity c <= Z.of_nat (length (queue c))))
    end.
Proof.
  intros [Hq Hw Hcap]. unfold channel_send.
  assert (Hdrop : exists w', rref_drop w r = Ret w' /\ world_inv w' (qv ++ held)).
  { apply (rref_drop_spec w (qv ++ held) r v). by rewrite Permutation_middle. }
  destruct Hdrop as (w' & Hd & Hw'). destruct (receiver_open c) eqn:Er; cbn [negb].
  - destruct (Z.geb_spec (Z.of_nat (length (queue c))) (ch_capacity c)) as [Hfull|Hroom].
    + rewrite Hd. cbn [obind]. do 4 eexists. split; [done|]. split; [done|]. split; [done|]. right. done.
    + do 4 eexists. split; [done|]. split; [done|]. split; [done|]. split; cbn [queue ch_capacity].
      * by rewrite Hq, fmap_app.
      * by rewrite <- app_assoc.
      * rewrite length_app. simpl. lia.
  - rewrite Hd. cbn [obind]. do 4 eexists. split; [done|]. split; [done|]. split; [done|]. left. done.
Qed.

Lemma receiver_recv_spec (w : world V) (c : ZeroCopyChannel) (qv held : list (RRef * V)) (own : DomainId) :
  channel_inv w c qv held ->
  match qv with
  | (r, v) :: qv' =>
      exists r' w' c' ws, receiver_recv w c own = (Ok r', w', c', ws) /\ rowner r' = own /\ rptr r' = rptr r /\
        rref_deref w' r' = Ret v /\ get_owner (registry w') (rptr r') = Some own /\
        channel_inv w' c' qv' ((r', v) :: held) /\ ws = take 1 (send_wakers c)
  | [] => receiver_recv w c own = (Err (if sender_open c then Empty else Disconnected), w, c, [])
  end.
Proof.
  intros [Hq Hw Hcap]. destruct qv as [|[r v] qv']; simpl in Hq.
  - unfold receiver_recv, channel_recv. rewrite Hq. rewrite bool_decide_true by done. by destruct (sender_open c).
  - unfold receiver_recv, channel_recv. rewrite Hq. rewrite bool_decide_false by done. rewrite andb_false_r.
    pose proof (move_to_spec w (qv' ++ held) r v own Hw) as Hmv. destruct (move_to w r own) as [r' w'].
    destruct Hmv as (Hr' & Hw' & Hget & _). do 4 eexists. split; [done|].
    assert (Hcell := wi_cell _ _ Hw' r' v ltac:(left)). rewrite Hr' in *. cbn [rowner rptr] in *.
    split; [done|]. split; [done|]. split; [unfold rref_deref, cell_read; simpl; by rewrite Hcell|].
    split; [apply Hget; by left|]. split; [|done]. split; cbn [queue ch_capacity].
    + done.
    + by rewrite <- Permutation_middle.
    + rewrite Hq in Hcap. simpl in Hcap. rewrite length_fmap in *. lia.
Qed.

(** ** Runs *)

(** The world, the channel, the references outside, the values accepted and the
    values delivered. *)
Definition chan_state : Type := world V * ZeroCopyChannel * list (RRef * V) * list V * list V.

Inductive chan_step (own : DomainId) : chan_state -> chan_state -> Prop :=
| chan_send_ok w c held sent got from l v w' c' ws :
    layout_ok l -> sender_send w c from l v = Ret (Ok tt, w', c', ws) ->
    chan_step own (w, c, held, sent, got) (w', c', held, sent ++ [v], got)
| chan_send_err w c held sent got from l v e w' c' ws :
    layout_ok l -> sender_send w c from l v = Ret (Err e, w', c', ws) ->
    chan_step own (w, c, held, sent, got) (w', c', held, sent, got)
| chan_recv_ok w c held sent got r v w' c' ws :
    receiver_recv w c own = (Ok r, w', c', ws) -> rref_deref w' r = Ret v ->
    chan_step own (w, c, held, sent, got) (w', c', (r, v) :: held, sent, got ++ [v])
| chan_drop w c held held' sent got r v w' :
    held ≡ₚ (r, v) :: held' -> rref_drop w r = Ret w' ->
    chan_step own (w, c, held, sent, got) (w', c, held', sent, got)
| chan_close_sender w c held sent got :
    chan_step own (w, c, held, sent, got) (w, (close_sender c).1, held, sent, got)
| chan_close_receiver w c held sent got :
    chan_step own (w, c, held, sent, got) (w, (close_receiver c).1, held, sent, got).

Definition chan_ok (s : chan_state) : Prop :=
  let '(w, c, held, sent, got) := s in
  exists qv, channel_inv w c qv held /\ sent = got ++ (snd <$> qv).

Lemma sender_send_spec (w : world V) (c : ZeroCopyChannel) (qv held : list (RRef * V)) (from : DomainId) (l : Layout) (v : V)
    res w' c' ws :
  channel_inv w c qv held -> layout_ok l -> sender_send w c from l v = Ret (res, w', c', ws) ->
  match res with
  | Ok _ => exists r, channel_inv w' c' (qv ++ [(r, v)]) held
  | Err _ => channel_inv w' c' qv held
  end.
Proof.
  intros [Hq Hw Hcap] Hl Heq. unfold sender_send in Heq.
  destruct (RRef_new_spec w (qv ++ held) from l v Hw Hl) as [[Hp _] | (r & w1 & Hn & _ & _ & Hw1)].
  { rewrite Hp in Heq. done. }
  rewrite Hn in Heq. cbn [obind] in Heq.
  assert (Hc : channel_inv w1 c qv ((r, v) :: held)) by (split; [done | by rewrite <- Permutation_middle | done]).
  destruct (channel_send_spec w1 c qv held r v Hc) as (res' & w2 & c2 & ws2 & Heq2 & Hres).
  rewrite Heq2 in Heq. injection Heq as <- <- <- <-. destruct res' as [u|e].
  - exists r. by destruct Hres as (_ & _ & ?).
  - by destruct Hres as (_ & ? & _).
Qed.

Lemma chan_step_ok (own : DomainId) (s s' : chan_state) : chan_ok s -> chan_step own s s' -> chan_ok s'.
Proof.
  intros Hok Hst. destruct Hst as [w c held sent got from l v w' c' ws Hl Heq | w c held sent got from l v e w' c' ws Hl Heq
    | w c held sent got r v w' c' ws Heq Hd | w c held held' sent got r v w' Hp Heq | w c held sent got | w c held sent got];
    destruct Hok as (qv & Hinv & Hsent).
  - destruct (sender_send_spec _ _ _ _ _ _ _ _ _ _ _ Hinv Hl Heq) as [r Hinv'].
    exists (qv ++ [(r, v)]). split; [done|]. by rewrite Hsent, fmap_app, app_assoc.
  - exists qv. split; [|done]. apply (sender_send_spec _ _ _ _ _ _ _ _ _ _ _ Hinv Hl Heq).
  - pose proof (receiver_recv_spec w c qv held own Hinv) as Hr. destruct qv as [|[r0 v0] qv']; [congruence|].
    destruct Hr as (r1 & w1 & c1 & ws1 & Heq1 & _ & _ & Hd1 & _ & Hinv1 & _).
    rewrite Heq1 in Heq. injection Heq as -> -> -> ->. rewrite Hd1 in Hd. injection Hd as ->.
    exists qv'. split; [done|]. rewrite Hsent. simpl. by rewrite <- app_assoc.
  - exists qv. split; [|done]. destruct Hinv as [Hq Hw Hcap].
    destruct (rref_drop_spec w (qv ++ held') r v) as (w1 & Heq1 & Hw1).
    { rewrite Hp in Hw. by rewrite Permutation_middle. }
    rewrite Heq1 in Heq. injection Heq as ->. by split.
  - exists qv. split; [|done]. by destruct Hinv as [Hq Hw Hcap].
  - exists qv. split; [|done]. by destruct Hinv as [Hq Hw Hcap].
Qed.

(** C15: a channel delivers the accepted values in order, each once, never holds
    more than its capacity, and every value delivered is the one sent; this for
    any interleaving of senders of any domain, a receiver, drops and closes,
    starting from a world with arbitrary other references. *)
Theorem channel_fifo (own : DomainId) (cap : Z) (w0 : world V) (refs : list (RRef * V)) (w : world V)
    (c : ZeroCopyChannel) (held : list (RRef * V)) (sent got : list V) :
  world_inv w0 refs -> rtc (chan_step own) (w0, ZeroCopyChannel_new cap, refs, [], []) (w, c, held, sent, got) ->
  exists qv, queue c = fst <$> qv /\ sent = got ++ (snd <$> qv) /\ world_inv w (qv ++ held) /\
    Z.of_nat (length (queue c)) <= Z.max 0 (ch_capacity c).
Proof.
  intros Hw0 Hrun.
  assert (Hok : chan_ok (w, c, held, sent, got)).
  { assert (H0 : chan_ok (w0, ZeroCopyChannel_new cap, refs, [], [])).
    { exists []. split; [|done]. split; [done | done |]. simpl. lia. }
    revert H0. induction Hrun as [x|x y z Hst _ IH]; intros H0; [done|]. apply IH. by eapply chan_step_ok. }
  destruct Hok as (qv & [Hq Hw Hcap] & Hsent). exists qv. done.
Qed.

(** receiving from a channel that holds a value gives the receiver a
    reference to the oldest value, in place (the same pointer), which the
    receiver's domain now owns in the registry; on an empty channel it reports
    [Empty], or [Disconnected] once the sender is gone. *)
Theorem channel_recv_moves_ownership (w : world V) (c : ZeroCopyChannel) (qv held : list (RRef * V)) (own : DomainId) :
  channel_inv w c qv held ->
  match qv with
  | (r, v) :: qv' =>
      exists r' w' c' ws, receiver_recv w c own = (Ok r', w', c', ws) /\ rptr r' = rptr r /\
        as_ref_checked w' r' own = Ok (Ret v) /\ get_owner (registry w') (rptr r') = Some own /\
        channel_inv w' c' qv' ((r', v) :: held) /\ ws = take 1 (send_wakers c)
  | [] => receiver_recv w c own = (Err (if sender_open c then Empty else Disconnected), w, c, [])
  end.
Proof.
  intros Hinv. pose proof (receiver_recv_spec w c qv held own Hinv) as H. destruct qv as [|[r v] qv']; [done|].
  destruct H as (r' & w' & c' & ws & H1 & H2 & H3 & H4 & H5). do 4 eexists. split; [done|]. split; [done|].
  split; [|done]. unfold as_ref_checked. rewrite H2, Z.eqb_refl. unfold rref_deref in H4. by rewrite H4.
Qed.

(** [poll_send] on a full channel reports [Pending], as if the send were
    still to happen, but the reference it was given is already dropped: its
    value is gone from the exchange heap and from the registry. *)
Theorem poll_send_full_loses_value (w : world V) (c : ZeroCopyChannel) (qv held : list (RRef * V)) (r : RRef) (v : V) (cx : Z) :
  channel_inv w c qv ((r, v) :: held) -> receiver_open c = true -> ch_capacity c <= Z.of_nat (length (queue c)) ->
  exists w' c' ws, channel_poll_send w c r cx = Ret (CPending, w', c', ws) /\
    queue c' = queue c /\ send_wakers c' = send_wakers c ++ [cx] /\ world_inv w' (qv ++ held) /\
    rref_deref w' r = Panic /\ objects (registry w') !! rptr r = None.
Proof.
  intros [Hq Hw Hcap] Hro Hfull. unfold channel_poll_send, channel_send. rewrite Hro. cbn [negb].
  destruct (Z.geb_spec (Z.of_nat (length (queue c))) (ch_capacity c)); [|lia].
  rewrite <- Permutation_middle in Hw.
  destruct (remove_ref_spec w (qv ++ held) r v Hw) as [Hcell Hw'].
  unfold rref_drop, cell_drop, cell_read. rewrite Hcell. cbn [obind]. do 3 eexists. split; [done|].
  split; [done|]. split; [done|]. split; [done|]. split.
  - unfold rref_deref, cell_read, deallocate_raw, exchange_deallocate. cbn [xchg].
    destruct (heap_deallocate _ _ _ _). cbn [cells cell_forget]. by rewrite lookup_delete_eq.
  - cbn [registry]. destruct (wi_entry _ _ Hw r v) as (o & Ho & _); [left|].
    unfold unregister_simple. rewrite Ho. cbn [objects]. apply lookup_delete_eq.
Qed.

End Channel.

(** ** A concrete channel *)

Definition demo_heap : headers * SimpleFreeListHeap := heap_init ∅ heap_empty 0x1000 4096.
Definition demo_world : world Z := mkWorld HeapRegistry_new (mkExchange demo_heap.1 demo_heap.2 ∅).
Definition demo_layout : Layout := mkLayout 8 8.

Lemma demo_layout_ok : layout_ok demo_layout.
Proof. split; [exists 3; split; [lia | done] | unfold ISIZE_MAX; simpl; lia]. Qed.

Lemma demo_world_inv : world_inv demo_world [].
Proof.
  split.
  - eexists. apply (heap_init_spec ∅ 0x1000 4096); unfold SIZE_OF_FREE_BLOCK, u64_modulus; lia.
  - apply registry_new_ok.
  - by intros r v ?%elem_of_nil.
  - intros a o H. simpl in H. by rewrite lookup_empty in H.
  - by intros r v ?%elem_of_nil.
  - by intros r v ?%elem_of_nil.
Qed.

Definition demo_ref : RRef := mkRRef 0x1000 1 demo_layout.
Definition demo_world1 : world Z :=
  match RRef_new demo_world 1 demo_layout 42 with
  | Ret (_, w) => w
  | Panic => demo_world
  end.

Lemma demo_new : RRef_new demo_world 1 demo_layout 42 = Ret (demo_ref, demo_world1).
Proof. reflexivity. Qed.

Lemma rref_lifecycle_witness :
  get_owner (registry (move_to demo_world1 demo_ref 2).2) 0x1000 = Some 2.
Proof.
  pose proof (rref_lifecycle demo_world [] 1 2 demo_layout 42 demo_ref demo_world1 demo_world_inv demo_layout_ok
    ltac:(discriminate) demo_new) as H.
  destruct H as (_ & _ & _ & H). pose proof (move_to_spec demo_world1 [] demo_ref 42 2) as Hm.
  destruct (move_to demo_world1 demo_ref 2) as [r2 w2] eqn:E. destruct H as (_ & _ & _ & H & _).
  injection E as <- _. exact H.
Defined.

Lemma demo_world1_inv : world_inv demo_world1 [(demo_ref, 42)].
Proof.
  destruct (RRef_new_spec demo_world [] 1 demo_layout 42 demo_world_inv demo_layout_ok) as [[H _]|(r & w & H & _ & _ & Hw)];
    rewrite demo_new in H; [discriminate|]. by injection H as <- <-.
Qed.

Definition demo_channel : ZeroCopyChannel := mkChannel [demo_ref] true true [] [] 1.

Lemma channel_fifo_witness :
  exists qv, [demo_ref] = fst <$> qv /\ [42] = [] ++ (snd <$> qv).
Proof.
  destruct (channel_fifo 2 1 demo_world [] demo_world1 demo_channel [] [42] [] demo_world_inv) as (qv & H1 & H2 & _).
  - apply rtc_once. apply (chan_send_ok 2 demo_world (ZeroCopyChannel_new 1) [] [] [] 1 demo_layout 42 demo_world1 demo_channel []);
      [exact demo_layout_ok | reflexivity].
  - exists qv. split; [exact H1 | exact H2].
Defined.

Lemma channel_recv_moves_ownership_witness :
  exists r' w' c' ws, receiver_recv demo_world1 demo_channel 2 = (Ok r', w', c', ws) /\
    get_owner (registry w') (rptr r') = Some 2.
Proof.
  assert (Hinv : channel_inv demo_world1 demo_channel [(demo_ref, 42)] []).
  { split; [reflexivity | exact demo_world1_inv | simpl; lia]. }
  destruct (channel_recv_moves_ownership demo_world1 demo_channel [(demo_ref, 42)] [] 2 Hinv)
    as (r' & w' & c' & ws & H1 & _ & _ & H2 & _).
  exists r', w', c', ws. split; [exact H1 | exact H2].
Defined.

Lemma poll_send_full_loses_value_witness :
  exists w' c' ws, channel_poll_send demo_world1 (ZeroCopyChannel_new 0) demo_ref 7 = Ret (CPending, w', c', ws).
Proof.
  assert (Hinv : channel_inv demo_world1 (ZeroCopyChannel_new 0) [] [(demo_ref, 42)]).
  { split; [reflexivity | exact demo_world1_inv | simpl; lia]. }
  destruct (poll_send_full_loses_value demo_world1 (ZeroCopyChannel_new 0) [] [] demo_ref 42 7 Hinv)
    as (w' & c' & ws & H & _); [reflexivity | simpl; lia|].
  exists w', c', ws. exact H.
Defined.
