(* ===== verification/DomainSystem.v ===== *)
(** * Domains (src/src/domain_system.rs)

    The table of domains with their life cycle and resource counters, over a
    heap registry of its own and the exchange heap.  Each function of the source
    takes the locks it needs one after the other; the state here is what the
    locks protect.  [now] is [task::current_tick()]. *)

From stdpp Require Import base list gmap strings pretty.
From Stdlib Require Import ZArith Lia.
From S2P Require Import Prelude ExchangeHeap HeapRegistry.

Local Open Scope Z_scope.

Inductive DomainState := Initializing | Running | Suspended | Stopped | Terminated.

#[export] Instance DomainState_eq_dec : EqDecision DomainState.
Proof. solve_decision. Defined.

Definition state_is_runnable (s : DomainState) : bool :=
  match s with
  | Running | Initializing => true
  | _ => false
  end.

Definition state_is_active (s : DomainState) : bool :=
  match s with
  | Terminated => false
  | _ => true
  end.

Record Domain := mkDomain {
  dom_id : DomainId;
  dom_name : string;
  state : DomainState;
  tasks : list Z;
  dependencies : list DomainId;
  dependents : list DomainId;
  rref_count : Z;
  allocated_memory : Z;
  runtime_ticks : Z;
  context_switches : Z;
  created_at : Z;
  panic_message : option string;
  last_error : option string
}.

Definition Domain_new (now : Z) (id : DomainId) (name : string) : Domain :=
  mkDomain id name Initializing [] [] [] 0 0 0 0 now None None.

Definition with_state (d : Domain) (s : DomainState) : Domain :=
  mkDomain (dom_id d) (dom_name d) s (tasks d) (dependencies d) (dependents d)
    (rref_count d) (allocated_memory d) (runtime_ticks d) (context_switches d) (created_at d) (panic_message d) (last_error d).
Definition with_tasks (d : Domain) (ts : list Z) : Domain :=
  mkDomain (dom_id d) (dom_name d) (state d) ts (dependencies d) (dependents d)
    (rref_count d) (allocated_memory d) (runtime_ticks d) (context_switches d) (created_at d) (panic_message d) (last_error d).
Definition with_dependencies (d : Domain) (l : list DomainId) : Domain :=
  mkDomain (dom_id d) (dom_name d) (state d) (tasks d) l (dependents d)
    (rref_count d) (allocated_memory d) (runtime_ticks d) (context_switches d) (created_at d) (panic_message d) (last_error d).
Definition with_dependents (d : Domain) (l : list DomainId) : Domain :=
  mkDomain (dom_id d) (dom_name d) (state d) (tasks d) (dependencies d) l
    (rref_count d) (allocated_memory d) (runtime_ticks d) (context_switches d) (created_at d) (panic_message d) (last_error d).
Definition with_resources (d : Domain) (n mem : Z) : Domain :=
  mkDomain (dom_id d) (dom_name d) (state d) (tasks d) (dependencies d) (dependents d)
    n mem (runtime_ticks d) (context_switches d) (created_at d) (panic_message d) (last_error d).
Definition with_panic (d : Domain) (msg : string) : Domain :=
  mkDomain (dom_id d) (dom_name d) (state d) (tasks d) (dependencies d) (dependents d)
    (rref_count d) (allocated_memory d) (runtime_ticks d) (context_switches d) (created_at d) (Some msg) (last_error d).
Definition with_error (d : Domain) (e : string) : Domain :=
  mkDomain (dom_id d) (dom_name d) (state d) (tasks d) (dependencies d) (dependents d)
    (rref_count d) (allocated_memory d) (runtime_ticks d) (context_switches d) (created_at d) (panic_message d) (Some e).

Definition is_runnable (d : Domain) : bool := state_is_runnable (state d).

Definition add_task (d : Domain) (t : Z) : Domain :=
  if bool_decide (t ∈ tasks d) then d else with_tasks d (tasks d ++ [t]).
Definition remove_task (d : Domain) (t : Z) : Domain := with_tasks d (filter (fun x => x <> t) (tasks d)).
Definition add_dependency (d : Domain) (dep : DomainId) : Domain :=
  if bool_decide (dep ∈ dependencies d) then d else with_dependencies d (dependencies d ++ [dep]).
Definition add_dependent (d : Domain) (dep : DomainId) : Domain :=
  if bool_decide (dep ∈ dependents d) then d else with_dependents d (dependents d ++ [dep]).

Definition increment_rref (d : Domain) : Domain := with_resources d (rref_count d +w 1) (allocated_memory d).
Definition decrement_rref (d : Domain) : Domain :=
  if rref_count d >? 0 then with_resources d (rref_count d - 1) (allocated_memory d) else d.
(** Saturating. *)
Definition add_memory (d : Domain) (size : Z) : Domain :=
  with_resources d (rref_count d) (Z.min u64_max (allocated_memory d + size)).
Definition free_memory (d : Domain) (size : Z) : Domain :=
  with_resources d (rref_count d) (Z.max 0 (allocated_memory d - size)).

Section System.
Context {V : Type}.

Record system := mkSystem {
  domains : gmap Z Domain;
  next_id : Z;
  heap_reg : HeapRegistry;
  xheap : exchange (V := V);
  current_domain : DomainId
}.

Definition with_domains (s : system) (m : gmap Z Domain) : system :=
  mkSystem m (next_id s) (heap_reg s) (xheap s) (current_domain s).
Definition with_heap_reg (s : system) (r : HeapRegistry) : system :=
  mkSystem (domains s) (next_id s) r (xheap s) (current_domain s).

(** [if let Some(d) = domains.get_mut(&id) { f(d) }] *)
Definition update_domain (s : system) (id : DomainId) (f : Domain -> Domain) : system :=
  with_domains s (alter f id (domains s)).

Definition system_new (x : exchange (V := V)) : system := mkSystem ∅ 1 HeapRegistry_new x 0.

Definition domain_init (s : system) (now : Z) : system :=
  with_domains s (<[DOMAIN_KERNEL := with_state (Domain_new now DOMAIN_KERNEL "kernel") Running]> (domains s)).

(** [fetch_add], which wraps. *)
Definition generate_id (s : system) : DomainId * system :=
  (next_id s, mkSystem (domains s) (next_id s +w 1) (heap_reg s) (xheap s) (current_domain s)).

Definition create_domain (s : system) (now : Z) (name : string) : DomainId * system :=
  let '(id, s1) := generate_id s in
  (id, with_domains s1 (<[id := Domain_new now id name]> (domains s1))).

Definition get_domain_state (s : system) (id : DomainId) : option DomainState := state <$> domains s !! id.

Definition set_domain_state (s : system) (id : DomainId) (st : DomainState) : system :=
  update_domain s id (fun d => with_state d st).

Inductive LifecycleError :=
| NotInitializing | DomainNotFound | CannotStopKernel | CannotTerminateKernel.

Definition start_domain (s : system) (id : DomainId) : result unit LifecycleError * system :=
  match domains s !! id with
  | Some d =>
      if negb (bool_decide (state d = Initializing)) then (Err NotInitializing, s)
      else (Ok tt, update_domain s id (fun d => with_state d Running))
  | None => (Err DomainNotFound, s)
  end.

Definition stop_domain (s : system) (id : DomainId) : result unit LifecycleError * system :=
  if id =? DOMAIN_KERNEL then (Err CannotStopKernel, s)
  else
    match domains s !! id with
    | Some d => (Ok tt, update_domain s id (fun d => with_state d Stopped))
    | None => (Err DomainNotFound, s)
    end.

(** The memory of one object goes back to the exchange heap; the registry is not
    changed in the loop. *)
Definition free_object (r : HeapRegistry) (x : exchange (V := V)) (addr : Z) : exchange (V := V) :=
  match get_object r addr with
  | Some o => deallocate_raw x addr (mkLayout (size o) 8)
  | None => x
  end.

Definition reclaim_domain_resources (s : system) (d : DomainId) : system :=
  let addrs := default [] (get_domain_objects (heap_reg s) d) in
  let x1 := foldl (free_object (heap_reg s)) (xheap s) addrs in
  let s1 := mkSystem (domains s) (next_id s) (reclaim_all (heap_reg s) d).2 x1 (current_domain s) in
  update_domain s1 d (fun dom => with_resources dom 0 0).

(** [format!("Dependency {} terminated", id.as_u64())] *)
Definition dependency_terminated (id : DomainId) : string := "Dependency " +:+ pretty id +:+ " terminated".

(** The loop over the dependents. *)
Definition notify (id : DomainId) (s : system) (dep : DomainId) : system :=
  update_domain s dep (fun d => with_error d (dependency_terminated id)).

Definition terminate_domain (s : system) (id : DomainId) : result unit LifecycleError * system :=
  if id =? DOMAIN_KERNEL then (Err CannotTerminateKernel, s)
  else
    match domains s !! id with
    | None => (Err DomainNotFound, s)
    | Some d =>
        let s1 := update_domain s id (fun d => with_state d Terminated) in
        let s2 := reclaim_domain_resources s1 id in
        (Ok tt, foldl (notify id) s2 (dependents d))
    end.

Definition handle_domain_panic (s : system) (id : DomainId) (message : string) : system :=
  let s1 := update_domain s id (fun d => with_panic (with_state d Stopped) message) in
  reclaim_domain_resources s1 id.

Definition add_task_to_domain (s : system) (id : DomainId) (t : Z) : system := update_domain s id (fun d => add_task d t).
Definition remove_task_from_domain (s : system) (id : DomainId) (t : Z) : system := update_domain s id (fun d => remove_task d t).

Definition register_heap_object (s : system) (ptr : Z) (layout : Layout) (own : DomainId) : system :=
  let s1 := with_heap_reg s (register_simple (heap_reg s) ptr (layout_size layout) own) in
  update_domain s1 own (fun d => add_memory (increment_rref d) (layout_size layout)).

Definition unregister_heap_object (s : system) (ptr : Z) : system :=
  match get_object (heap_reg s) ptr with
  | Some o =>
      let s1 := with_heap_reg s (unregister_simple (heap_reg s) ptr) in
      update_domain s1 (owner o) (fun d => free_memory (decrement_rref d) (size o))
  | None => s
  end.

Definition domain_transfer_ownership (s : system) (ptr : Z) (new_owner : DomainId) : bool * system :=
  match get_object (heap_reg s) ptr with
  | Some o =>
      let s1 := with_heap_reg s (change_owner (heap_reg s) ptr (owner o) new_owner).2 in
      let s2 := update_domain s1 (owner o) (fun d => free_memory (decrement_rref d) (size o)) in
      (true, update_domain s2 new_owner (fun d => add_memory (increment_rref d) (size o)))
  | None => (false, s)
  end.

Record DomainStats := mkDomainStats {
  total : Z; running : Z; stopped : Z; terminated : Z; memory_used : Z; total_rrefs : Z
}.

Definition count_domain (st : DomainStats) (d : Domain) : DomainStats :=
  let st1 :=
    match state d with
    | Running | Initializing => mkDomainStats (total st) (running st + 1) (stopped st) (terminated st) (memory_used st) (total_rrefs st)
    | Stopped | Suspended => mkDomainStats (total st) (running st) (stopped st + 1) (terminated st) (memory_used st) (total_rrefs st)
    | Terminated => mkDomainStats (total st) (running st) (stopped st) (terminated st + 1) (memory_used st) (total_rrefs st)
    end in
  mkDomainStats (total st1) (running st1) (stopped st1) (terminated st1)
    (memory_used st1 +w allocated_memory d) (total_rrefs st1 +w rref_count d).

Definition get_domain_stats (s : system) : DomainStats :=
  foldl count_domain (mkDomainStats (Z.of_nat (base.size (domains s))) 0 0 0 0 0) (snd <$> map_to_list (domains s)).

Definition set_current_domain (s : system) (id : DomainId) : system :=
  mkSystem (domains s) (next_id s) (heap_reg s) (xheap s) id.
Definition is_kernel_domain (s : system) : bool := current_domain s =? DOMAIN_KERNEL.

End System.
Arguments system V : clear implicits.
