(* ===== verification/DomainTheorems.v ===== *)
(** * Domains: life cycle, resource accounts, reclamation *)

From stdpp Require Import base list gmap strings relations.
From Stdlib Require Import ZArith Lia.
From S2P Require Import Prelude Ranges ExchangeHeap ExchangeHeapTheorems HeapRegistry HeapRegistrySpec DomainSystem.
From S2P Require ExchangeHeapTheorems.

Local Open Scope Z_scope.

Section Lifecycle.
Context {V : Type}.

(** ** Life cycle *)

Inductive domain_op :=
| OpCreate (now : Z) (name : string)
| OpStart (id : DomainId)
| OpStop (id : DomainId)
| OpTerminate (id : DomainId)
| OpPanic (id : DomainId) (message : string)
| OpAddTask (id : DomainId) (t : Z)
| OpRemoveTask (id : DomainId) (t : Z)
| OpRegister (ptr : Z) (layout : Layout) (own : DomainId)
| OpUnregister (ptr : Z)
| OpTransfer (ptr : Z) (to : DomainId).

Definition domain_apply (s : system V) (op : domain_op) : system V :=
  match op with
  | OpCreate now name => (create_domain s now name).2
  | OpStart id => (start_domain s id).2
  | OpStop id => (stop_domain s id).2
  | OpTerminate id => (terminate_domain s id).2
  | OpPanic id message => handle_domain_panic s id message
  | OpAddTask id t => add_task_to_domain s id t
  | OpRemoveTask id t => remove_task_from_domain s id t
  | OpRegister ptr layout own => register_heap_object s ptr layout own
  | OpUnregister ptr => unregister_heap_object s ptr
  | OpTransfer ptr to => (domain_transfer_ownership s ptr to).2
  end.

(** How an operation may change the state of a domain. *)
Definition state_step (st st' : DomainState) : Prop :=
  st' = st \/ (st = Initializing /\ st' = Running) \/ st' = Stopped \/ st' = Terminated.

(** An update that keeps every state. *)
Definition keeps_states (s s' : system V) : Prop :=
  next_id s' = next_id s /\ forall id, get_domain_state s' id = get_domain_state s id.

Lemma keeps_states_refl (s : system V) : keeps_states s s.
Proof. done. Qed.

Lemma keeps_states_trans (s1 s2 s3 : system V) : keeps_states s1 s2 -> keeps_states s2 s3 -> keeps_states s1 s3.
Proof. intros [H1 H2] [H3 H4]. split; [congruence|]. intros id. by rewrite H4. Qed.

Lemma update_keeps (s : system V) (id : DomainId) (f : Domain -> Domain) :
  (forall d, state (f d) = state d) -> keeps_states s (update_domain s id f).
Proof.
  intros Hf. split; [done|]. intros id'. unfold get_domain_state, update_domain. simpl.
  destruct (decide (id = id')) as [->|Hne].
  - rewrite lookup_alter_eq. destruct (domains s !! id'); simpl; [by rewrite Hf | done].
  - by rewrite lookup_alter_ne.
Qed.

Lemma with_heap_reg_keeps (s : system V) (r : HeapRegistry) : keeps_states s (with_heap_reg s r).
Proof. done. Qed.

Lemma free_memory_state (d : Domain) (n : Z) : state (free_memory (decrement_rref d) n) = state d.
Proof. unfold decrement_rref. by destruct (_ >? _). Qed.

Lemma reclaim_keeps (s : system V) (id : DomainId) : keeps_states s (reclaim_domain_resources s id).
Proof. eapply keeps_states_trans; [|by apply update_keeps]. done. Qed.

Lemma notify_keeps (id : DomainId) (deps : list DomainId) (s : system V) : keeps_states s (foldl (notify id) s deps).
Proof.
  revert s. induction deps as [|d deps IH]; intros s; [done|]. simpl.
  eapply keeps_states_trans; [|apply IH]. by apply update_keeps.
Qed.

(** The state after a domain's state was set. *)
Lemma set_state_lookup (s : system V) (id id' : DomainId) (f : Domain -> Domain) (st : DomainState) :
  (forall d, state (f d) = st) -> is_Some (domains s !! id) ->
  get_domain_state (update_domain s id f) id' = if decide (id' = id) then Some st else get_domain_state s id'.
Proof.
  intros Hf [d Hd]. unfold get_domain_state, update_domain. simpl. destruct (decide (id' = id)) as [->|Hne].
  - rewrite lookup_alter_eq, Hd. simpl. by rewrite Hf.
  - by rewrite lookup_alter_ne.
Qed.

(** An operation changes states only along [state_step], never removes a domain
    and touches the kernel's state only by a panic of the kernel. *)
Lemma domain_apply_state (s : system V) (op : domain_op) (id : DomainId) (st : DomainState) :
  (forall i, is_Some (domains s !! i) -> i < next_id s) ->
  get_domain_state s id = Some st ->
  exists st', get_domain_state (domain_apply s op) id = Some st' /\ state_step st st' /\
    (id = DOMAIN_KERNEL -> st = Running -> (forall msg, op <> OpPanic DOMAIN_KERNEL msg) -> st' = Running).
Proof.
  intros Hids Hst.
  assert (Hkeep : forall s', keeps_states s s' ->
    exists st', get_domain_state s' id = Some st' /\ state_step st st' /\
      (id = DOMAIN_KERNEL -> st = Running -> (forall msg, op <> OpPanic DOMAIN_KERNEL msg) -> st' = Running)).
  { intros s' [_ Hk]. exists st. rewrite Hk. split; [done|]. split; [by left | done]. }
  assert (Hset : forall id0 f st0 s', (forall d, state (f d) = st0) -> is_Some (domains s !! id0) ->
    state_step (default Initializing (get_domain_state s id0)) st0 ->
    (id0 = DOMAIN_KERNEL -> default Initializing (get_domain_state s id0) = Running -> exists msg, op = OpPanic DOMAIN_KERNEL msg) ->
    keeps_states (update_domain s id0 f) s' ->
    exists st', get_domain_state s' id = Some st' /\ state_step st st' /\
      (id = DOMAIN_KERNEL -> st = Running -> (forall msg, op <> OpPanic DOMAIN_KERNEL msg) -> st' = Running)).
  { intros id0 f st0 s' Hf Hid0 Hstep Hker [_ Hk]. rewrite Hk. rewrite (set_state_lookup s id0 id f st0) by done.
    destruct (decide (id = id0)) as [->|Hne]; [|exists st; split; [exact Hst|]; split; [by left | intros _ Hr _; exact Hr]].
    rewrite Hst in Hstep, Hker. simpl in *. exists st0. split; [done|]. split; [done|].
    intros Hk0 Hrun Hno. destruct (Hker Hk0 Hrun) as [msg Hm]. by destruct (Hno msg). }
  destruct op as [now name|id0|id0|id0|id0 msg|id0 t|id0 t|ptr layout own|ptr|ptr to]; cbn [domain_apply].
  - exists st. split; [|split; [by left | done]]. unfold get_domain_state in *. simpl.
    rewrite lookup_insert_ne; [done|]. intros <-. apply fmap_Some in Hst as (d & Hd & _).
    specialize (Hids (next_id s) (mk_is_Some _ _ Hd)). lia.
  - unfold start_domain. destruct (domains s !! id0) as [d|] eqn:E; [|by apply Hkeep].
    case_if; [by apply Hkeep|]. cbn [snd].
    assert (Hg : default Initializing (get_domain_state s id0) = Initializing).
    { unfold get_domain_state. rewrite E. simpl. done. }
    apply (Hset id0 (fun d => with_state d Running) Running); [done | by eexists | rewrite Hg; right; by left | congruence | done].
  - unfold stop_domain. destruct (Z.eqb_spec id0 DOMAIN_KERNEL); [by apply Hkeep|].
    destruct (domains s !! id0) as [d|] eqn:E; [|by apply Hkeep]. cbn [snd].
    apply (Hset id0 (fun d => with_state d Stopped) Stopped); [done | by eexists | right; right; by left | done | done].
  - unfold terminate_domain. destruct (Z.eqb_spec id0 DOMAIN_KERNEL); [by apply Hkeep|].
    destruct (domains s !! id0) as [d|] eqn:E; [|by apply Hkeep]. cbn [snd].
    apply (Hset id0 (fun d => with_state d Terminated) Terminated); [done | by eexists | by right; right; right | done |].
    eapply keeps_states_trans; [apply reclaim_keeps | apply notify_keeps].
  - unfold handle_domain_panic. destruct (domains s !! id0) as [d|] eqn:E.
    + apply (Hset id0 (fun d => with_panic (with_state d Stopped) msg) Stopped);
        [done | by eexists | right; right; by left | intros -> _; by exists msg | apply reclaim_keeps].
    + apply Hkeep. eapply keeps_states_trans; [|apply reclaim_keeps]. split; [done|]. intros i.
      unfold get_domain_state, update_domain. simpl. destruct (decide (id0 = i)) as [<-|Hne].
      * by rewrite lookup_alter_eq, E.
      * by rewrite lookup_alter_ne.
  - apply Hkeep. apply update_keeps. intros d. unfold add_task. by destruct (bool_decide _).
  - apply Hkeep. by apply update_keeps.
  - apply Hkeep. unfold register_heap_object. eapply keeps_states_trans; [apply with_heap_reg_keeps | by apply update_keeps].
  - apply Hkeep. unfold unregister_heap_object. destruct (get_object _ _); [|done].
    eapply keeps_states_trans; [apply with_heap_reg_keeps | apply update_keeps; intros; apply free_memory_state].
  - apply Hkeep. unfold domain_transfer_ownership. destruct (get_object _ _); [|done]. cbn [snd].
    eapply keeps_states_trans; [apply with_heap_reg_keeps|].
    eapply keeps_states_trans; [apply update_keeps; intros; apply free_memory_state | by apply update_keeps].
Qed.

(** Identifiers in use are below the next one. *)
Definition ids_ok (s : system V) : Prop := forall i, is_Some (domains s !! i) -> i < next_id s.

Definition same_table (s s' : system V) : Prop :=
  next_id s' = next_id s /\ forall i, is_Some (domains s' !! i) <-> is_Some (domains s !! i).

Lemma update_same_table (s : system V) (id : DomainId) (f : Domain -> Domain) : same_table s (update_domain s id f).
Proof.
  split; [done|]. intros i. unfold update_domain. simpl. destruct (decide (id = i)) as [<-|Hne].
  - rewrite lookup_alter_eq. by rewrite fmap_is_Some.
  - by rewrite lookup_alter_ne.
Qed.

Lemma same_table_trans (s1 s2 s3 : system V) : same_table s1 s2 -> same_table s2 s3 -> same_table s1 s3.
Proof. intros [H1 H2] [H3 H4]. split; [congruence|]. intros i. by rewrite H4. Qed.

Lemma notify_same_table (id : DomainId) (deps : list DomainId) (s : system V) : same_table s (foldl (notify id) s deps).
Proof.
  revert s. induction deps as [|d deps IH]; intros s; [done|]. simpl.
  eapply same_table_trans; [apply update_same_table | apply IH].
Qed.

Lemma reclaim_same_table (s : system V) (id : DomainId) : same_table s (reclaim_domain_resources s id).
Proof. eapply same_table_trans; [|apply update_same_table]. done. Qed.

Lemma domain_apply_table (s : system V) (op : domain_op) :
  (forall now name, op <> OpCreate now name) -> same_table s (domain_apply s op).
Proof.
  destruct op as [now name|id|id|id|id msg|id t|id t|ptr layout own|ptr|ptr to]; intros Hop; cbn [domain_apply].
  - by destruct (Hop now name).
  - unfold start_domain. destruct (domains s !! id); [|done]. case_if; [done | apply update_same_table].
  - unfold stop_domain. destruct (id =? DOMAIN_KERNEL); [done|]. destruct (domains s !! id); [apply update_same_table | done].
  - unfold terminate_domain. destruct (id =? DOMAIN_KERNEL); [done|]. destruct (domains s !! id); [|done].
    eapply same_table_trans; [apply update_same_table|].
    eapply same_table_trans; [apply reclaim_same_table | apply notify_same_table].
  - eapply same_table_trans; [apply update_same_table | apply reclaim_same_table].
  - apply update_same_table.
  - apply update_same_table.
  - unfold register_heap_object. eapply same_table_trans; [|apply update_same_table]. done.
  - unfold unregister_heap_object. destruct (get_object _ _); [|done]. eapply same_table_trans; [|apply update_same_table]. done.
  - unfold domain_transfer_ownership. destruct (get_object _ _); [|done]. cbn [snd].
    eapply same_table_trans; [|apply update_same_table]. eapply same_table_trans; [|apply update_same_table]. done.
Qed.

Lemma domain_apply_ids (s : system V) (op : domain_op) :
  ids_ok s -> 0 <= next_id s -> next_id s + 1 < u64_modulus ->
  ids_ok (domain_apply s op) /\ next_id s <= next_id (domain_apply s op) <= next_id s + 1.
Proof.
  intros Hok H0 Hlt. destruct op as [now name|id|id|id|id msg|id t|id t|ptr layout own|ptr|ptr to] eqn:Eop.
  { unfold ids_ok. simpl. rewrite wrap64_small by (unfold is_u64; lia). split; [|lia].
    intros i [d Hd]. apply lookup_insert_Some in Hd as [[<- _]|[_ Hd]]; [lia|].
    specialize (Hok i (mk_is_Some _ _ Hd)). lia. }
  all: destruct (domain_apply_table s op) as [Hn Hd]; [by rewrite Eop|]; rewrite Eop in Hn, Hd.
  all: split; [|lia]; intros i Hi; rewrite Hn; apply Hok, Hd; exact Hi.
Qed.

Lemma state_step_trans (a b c : DomainState) : state_step a b -> state_step b c -> state_step a c.
Proof. unfold state_step. intuition subst; auto; discriminate. Qed.

(** the life cycle.  Along any sequence of operations (those of the public
    interface but [set_domain_state], which stores any state it is given) a
    domain never disappears from the table, and its state either stays, or goes
    from [Initializing] to [Running], or becomes [Stopped] or [Terminated]; a
    domain that was stopped, suspended or terminated never runs again, and the
    kernel domain stays running unless it panics itself. *)
Theorem domain_lifecycle (s : system V) (ops : list domain_op) (id : DomainId) (st : DomainState) :
  ids_ok s -> 0 <= next_id s -> next_id s + Z.of_nat (length ops) < u64_modulus ->
  get_domain_state s id = Some st ->
  exists st', get_domain_state (foldl domain_apply s ops) id = Some st' /\ state_step st st' /\
    (state_is_runnable st = false -> state_is_runnable st' = false) /\
    (id = DOMAIN_KERNEL -> st = Running -> (forall msg, OpPanic DOMAIN_KERNEL msg ∉ ops) -> st' = Running).
Proof.
  intros Hok H0 Hlt Hst.
  enough (H : exists st', get_domain_state (foldl domain_apply s ops) id = Some st' /\ state_step st st' /\
    (id = DOMAIN_KERNEL -> st = Running -> (forall msg, OpPanic DOMAIN_KERNEL msg ∉ ops) -> st' = Running)).
  { destruct H as (st' & H1 & H2 & H3). exists st'. split; [done|]. split; [done|]. split; [|done].
    intros Hr. destruct H2 as [->|[[-> _]|[->| ->]]]; done. }
  revert s st Hok H0 Hlt Hst. induction ops as [|op ops IH]; intros s st Hok H0 Hlt Hst.
  { exists st. split; [done|]. split; [by left | done]. }
  simpl in Hlt |- *. destruct (domain_apply_state s op id st Hok Hst) as (st1 & Hst1 & Hstep1 & Hk1).
  destruct (domain_apply_ids s op Hok H0) as [Hok1 Hn1]; [lia|].
  destruct (IH (domain_apply s op) st1 Hok1) as (st2 & Hst2 & Hstep2 & Hk2); [lia | lia | done |].
  exists st2. split; [done|]. split; [by eapply state_step_trans|].
  intros Hid Hrun Hno. apply Hk2; [done | | intros msg Hin; apply (Hno msg); by right].
  apply Hk1; [done | done|]. intros msg ->. apply (Hno msg). by left.
Qed.

End Lifecycle.

(** ** Resource accounts *)

Section Accounts.
Context {V : Type}.

Definition object_size_at (r : HeapRegistry) (a : Z) : Z :=
  match objects r !! a with
  | Some o => size o
  | None => 0
  end.

(** The bytes of the objects a domain owns. *)
Definition owned_bytes (r : HeapRegistry) (d : DomainId) : Z :=
  foldr Z.add 0 (object_size_at r <$> indexed (owner_index r) d).

(** Every domain's counters agree with the registry. *)
Record accounts_ok (s : system V) : Prop := {
  ac_reg : registry_ok (heap_reg s);
  ac_count : forall id d, domains s !! id = Some d ->
    rref_count d = Z.of_nat (length (indexed (owner_index (heap_reg s)) id)) /\
    allocated_memory d = owned_bytes (heap_reg s) id
}.

Lemma filter_ne_id (l : list Z) (a : Z) : a ∉ l -> filter (fun x => x <> a) l = l.
Proof.
  induction l as [|x l IH]; intros Ha; [done|]. rewrite filter_cons, decide_True by set_solver.
  rewrite IH by set_solver. done.
Qed.

Lemma sum_filter (f : Z -> Z) (l : list Z) (a : Z) :
  NoDup l -> a ∈ l ->
  foldr Z.add 0 (f <$> filter (fun x => x <> a) l) = foldr Z.add 0 (f <$> l) - f a /\
  Z.of_nat (length (filter (fun x => x <> a) l)) = Z.of_nat (length l) - 1.
Proof.
  induction l as [|x l IH]; intros Hnd Ha; [by apply elem_of_nil in Ha|].
  apply NoDup_cons in Hnd as [Hx Hnd]. rewrite filter_cons. destruct (decide (x <> a)) as [Hne|He].
  - apply elem_of_cons in Ha as [->|Ha]; [done|]. destruct (IH Hnd Ha) as [H1 H2]. rewrite !fmap_cons. cbn [foldr length]. rewrite H1. lia.
  - assert (x = a) as -> by (destruct (Z.eq_dec x a); [done | by destruct He]).
    rewrite filter_ne_id by done. rewrite fmap_cons. cbn [foldr length]. lia.
Qed.

Lemma sum_ext (f g : Z -> Z) (l : list Z) :
  (forall x, x ∈ l -> f x = g x) -> foldr Z.add 0 (f <$> l) = foldr Z.add 0 (g <$> l).
Proof.
  intros H. f_equal. apply list_fmap_ext. intros i x Hx. apply H. by eapply list_elem_of_lookup_2.
Qed.

Lemma foldr_add_app (l1 l2 : list Z) : foldr Z.add 0 (l1 ++ l2) = foldr Z.add 0 l1 + foldr Z.add 0 l2.
Proof. induction l1; simpl; lia. Qed.

Lemma owned_bytes_nonneg (r : HeapRegistry) (d : DomainId) : registry_ok r -> 0 <= owned_bytes r d.
Proof.
  intros Hok. unfold owned_bytes. induction (indexed (owner_index r) d) as [|a l IH]; [done|].
  rewrite fmap_cons. cbn [foldr]. assert (0 <= object_size_at r a); [|lia].
  unfold object_size_at. destruct (objects r !! a) as [o|] eqn:E; [|done].
  by destruct (ro_addr r Hok a o E) as (_ & _ & ? & _).
Qed.

(** The size of another object does not depend on the entry of this one. *)
Lemma object_size_at_insert (r : HeapRegistry) (a b : Z) (o : HeapObject) (idx : gmap Z (list Z)) (g : Z) (st : RegistryStats) :
  object_size_at (mkRegistry (<[a := o]> (objects r)) idx g st) b =
    if decide (b = a) then size o else object_size_at r b.
Proof.
  unfold object_size_at. simpl. destruct (decide (b = a)) as [->|Hne].
  - by rewrite lookup_insert_eq.
  - by rewrite lookup_insert_ne.
Qed.

Lemma object_size_at_delete (r : HeapRegistry) (a b : Z) (idx : gmap Z (list Z)) (g : Z) (st : RegistryStats) :
  b <> a -> object_size_at (mkRegistry (delete a (objects r)) idx g st) b = object_size_at r b.
Proof. intros Hne. unfold object_size_at. simpl. by rewrite lookup_delete_ne. Qed.

(** Counts and bytes of every domain after an object is added, removed, or
    moved. *)
Lemma account_register (r : HeapRegistry) (a sz : Z) (own d : DomainId) :
  registry_ok r -> objects r !! a = None -> check_overlap r a sz = false ->
  let r' := register_simple r a sz own in
  Z.of_nat (length (indexed (owner_index r') d)) =
    Z.of_nat (length (indexed (owner_index r) d)) + (if decide (d = own) then 1 else 0) /\
  owned_bytes r' d = owned_bytes r d + (if decide (d = own) then sz else 0).
Proof.
  intros Hok Hnone Hov r'. unfold r', register_simple, register. rewrite Hnone, Hov. cbn [snd].
  unfold owned_bytes. cbn [owner_index]. rewrite indexed_push.
  assert (Hold : forall d', foldr Z.add 0 (object_size_at (mkRegistry (<[a := mkObject a sz own 0 (next_generation r) 1]> (objects r))
      (index_push (owner_index r) own a) (next_generation r +w 1) (count_registered (rstats r))) <$> indexed (owner_index r) d') =
    foldr Z.add 0 (object_size_at r <$> indexed (owner_index r) d')).
  { intros d'. apply sum_ext. intros b Hb. rewrite object_size_at_insert. rewrite decide_False; [done|].
    intros ->. apply (ro_index r Hok) in Hb as (o & Ho & _). congruence. }
  destruct (decide (d = own)) as [->|Hne].
  - rewrite length_app, fmap_app, foldr_add_app, Hold. cbn [fmap list_fmap foldr length].
    rewrite object_size_at_insert, decide_True by done. cbn [size]. lia.
  - rewrite Hold. lia.
Qed.

Lemma account_remove (r : HeapRegistry) (a : Z) (o : HeapObject) (d : DomainId) :
  registry_ok r -> objects r !! a = Some o ->
  let r' := unregister_simple r a in
  Z.of_nat (length (indexed (owner_index r') d)) =
    Z.of_nat (length (indexed (owner_index r) d)) - (if decide (d = owner o) then 1 else 0) /\
  owned_bytes r' d = owned_bytes r d - (if decide (d = owner o) then size o else 0).
Proof.
  intros Hok Ho r'. unfold r', unregister_simple. rewrite Ho. unfold owned_bytes. cbn [owner_index].
  rewrite indexed_retain.
  assert (Hin : a ∈ indexed (owner_index r) (owner o)) by (apply (ro_index r Hok); eauto).
  destruct (sum_filter (object_size_at r) _ a (ro_nodup r Hok (owner o)) Hin) as [Hs Hl].
  destruct (decide (d = owner o)) as [->|Hne].
  - rewrite Hl. split; [lia|]. erewrite sum_ext; [rewrite Hs|].
    + f_equal. unfold object_size_at. by rewrite Ho.
    + intros b Hb. apply object_size_at_delete. by apply list_elem_of_filter in Hb as [? _].
  - split; [lia|]. rewrite Z.sub_0_r. apply sum_ext. intros b Hb. apply object_size_at_delete.
    intros ->. apply (ro_index r Hok) in Hb as (o' & Ho' & Hd). congruence.
Qed.

Lemma account_transfer (r : HeapRegistry) (a : Z) (o : HeapObject) (to d : DomainId) :
  registry_ok r -> objects r !! a = Some o -> ref_count o = 1 ->
  let r' := (change_owner r a (owner o) to).2 in
  Z.of_nat (length (indexed (owner_index r') d)) = Z.of_nat (length (indexed (owner_index r) d))
    - (if decide (d = owner o) then 1 else 0) + (if decide (d = to) then 1 else 0) /\
  owned_bytes r' d = owned_bytes r d
    - (if decide (d = owner o) then size o else 0) + (if decide (d = to) then size o else 0).
Proof.
  intros Hok Ho Href r'. unfold r', change_owner, transfer_ownership. rewrite Ho, Href, !Z.eqb_refl. cbn [negb snd].
  unfold owned_bytes. cbn [owner_index]. rewrite indexed_push, !indexed_retain.
  set (f := object_size_at _).
  assert (Hf : forall b, f b = object_size_at r b).
  { intros b. unfold f. rewrite object_size_at_insert. destruct (decide (b = a)) as [->|]; [|done].
    unfold object_size_at. by rewrite Ho. }
  assert (Hfs : forall l, foldr Z.add 0 (f <$> l) = foldr Z.add 0 (object_size_at r <$> l)) by (intros l; by apply sum_ext).
  assert (Hin : a ∈ indexed (owner_index r) (owner o)) by (apply (ro_index r Hok); eauto).
  destruct (sum_filter (object_size_at r) _ a (ro_nodup r Hok (owner o)) Hin) as [Hs Hl].
  assert (Hsz : object_size_at r a = size o) by (unfold object_size_at; by rewrite Ho).
  destruct (decide (d = to)) as [->|Hnt]; rewrite ?length_app, ?fmap_app, ?foldr_add_app, ?Hfs;
    destruct (decide (_ = owner o)) as [->|Hno]; cbn [fmap list_fmap foldr length]; rewrite ?Hl, ?Hs, ?Hf, ?Hsz; lia.
Qed.

(** The counters of one domain after [f], everything else unchanged. *)
Lemma accounts_update (s : system V) (r : HeapRegistry) (id : DomainId) (f : Domain -> Domain) :
  registry_ok r ->
  (forall d, domains s !! id = Some d ->
     rref_count (f d) = Z.of_nat (length (indexed (owner_index r) id)) /\ allocated_memory (f d) = owned_bytes r id) ->
  (forall id' d, id' <> id -> domains s !! id' = Some d ->
     rref_count d = Z.of_nat (length (indexed (owner_index r) id')) /\ allocated_memory d = owned_bytes r id') ->
  accounts_ok (update_domain (with_heap_reg s r) id f).
Proof.
  intros Hr Hf Hoth. split; [done|]. intros id' d. unfold update_domain. simpl.
  destruct (decide (id' = id)) as [->|Hne].
  - rewrite lookup_alter_eq. destruct (domains s !! id) as [d0|] eqn:E; [|done]. simpl. intros [= <-]. by apply Hf.
  - rewrite lookup_alter_ne by done. by apply Hoth.
Qed.

(** An update that leaves the counters alone. *)
Lemma accounts_keep (s : system V) (id : DomainId) (f : Domain -> Domain) :
  (forall d, rref_count (f d) = rref_count d /\ allocated_memory (f d) = allocated_memory d) ->
  accounts_ok s -> accounts_ok (update_domain s id f).
Proof.
  intros Hf [Hr Hc]. apply (accounts_update s (heap_reg s)); [done | |].
  - intros d Hd. destruct (Hf d) as [-> ->]. by apply Hc.
  - intros id' d _ Hd. by apply Hc.
Qed.

Lemma indexed_reclaim (r : HeapRegistry) (d d' : DomainId) :
  indexed (owner_index (reclaim_all r d).2) d' = if decide (d' = d) then [] else indexed (owner_index r) d'.
Proof.
  unfold indexed. simpl. destruct (decide (d' = d)) as [->|Hne]; [by rewrite lookup_delete_eq | by rewrite lookup_delete_ne].
Qed.

Lemma account_reclaim (r : HeapRegistry) (d d' : DomainId) :
  registry_ok r -> d' <> d -> owned_bytes (reclaim_all r d).2 d' = owned_bytes r d'.
Proof.
  intros Hok Hne. unfold owned_bytes. rewrite indexed_reclaim, decide_False by done.
  apply sum_ext. intros a Ha. apply (ro_index r Hok) in Ha as (o & Ho & Hd). unfold object_size_at.
  assert (Ho' : objects (reclaim_all r d).2 !! a = Some o) by (apply reclaim_lookup; [done|]; split; congruence).
  by rewrite Ho, Ho'.
Qed.

Lemma reclaim_accounts (s : system V) (id : DomainId) : accounts_ok s -> accounts_ok (reclaim_domain_resources s id).
Proof.
  intros [Hr Hc]. unfold reclaim_domain_resources. set (x1 := foldl _ _ _).
  apply (accounts_update (mkSystem (domains s) (next_id s) (reclaim_all (heap_reg s) id).2 x1 (current_domain s)) (reclaim_all (heap_reg s) id).2).
  - by apply reclaim_ok.
  - intros d _. unfold owned_bytes. by rewrite indexed_reclaim, decide_True.
  - intros id' d Hne Hd. rewrite indexed_reclaim, decide_False, account_reclaim by done. by apply Hc.
Qed.

Lemma notify_accounts (id : DomainId) (deps : list DomainId) (s : system V) :
  accounts_ok s -> accounts_ok (foldl (notify id) s deps).
Proof.
  revert s. induction deps as [|d deps IH]; intros s Hok; [done|]. simpl. apply IH. by apply accounts_keep.
Qed.

(** What an operation needs: addresses and totals fit their words, and a new domain
    owns nothing yet. *)
Definition account_op_fits (s : system V) (op : domain_op) : Prop :=
  let fits d n := owned_bytes (heap_reg s) d + n <= u64_max /\
    Z.of_nat (length (indexed (owner_index (heap_reg s)) d)) + 1 < u64_modulus in
  match op with
  | OpCreate _ _ => indexed (owner_index (heap_reg s)) (next_id s) = []
  | OpRegister ptr layout own =>
      0 <= ptr /\ 0 <= layout_size layout /\ ptr + layout_size layout < u64_modulus /\ fits own (layout_size layout)
  | OpTransfer ptr to => forall o, objects (heap_reg s) !! ptr = Some o -> fits to (size o)
  | _ => True
  end.

(** The registry refuses the object. *)
Definition refuses (r : HeapRegistry) (ptr sz : Z) : bool := bool_decide (is_Some (objects r !! ptr)) || check_overlap r ptr sz.

(** By how much an operation makes the count and the bytes of a domain differ from
    what the registry holds for it: a refused object is counted all the same, and a
    shared object changes accounts but not its owner. *)
Definition drift (s : system V) (op : domain_op) (id : DomainId) : Z * Z :=
  match op with
  | OpRegister ptr layout own => if refuses (heap_reg s) ptr (layout_size layout) && (id =? own) then (1, layout_size layout) else (0, 0)
  | OpTransfer ptr to =>
      match objects (heap_reg s) !! ptr with
      | Some o =>
          if ref_count o =? 1 then (0, 0)
          else ((if id =? to then 1 else 0) - (if id =? owner o then 1 else 0), (if id =? to then size o else 0) - (if id =? owner o then size o else 0))
      | None => (0, 0)
      end
  | _ => (0, 0)
  end.

(** The counters of the domains, up to a difference. *)
Definition accounts_off (s : system V) (f : DomainId -> Z * Z) : Prop :=
  registry_ok (heap_reg s) /\ forall id d, domains s !! id = Some d ->
    rref_count d = Z.of_nat (length (indexed (owner_index (heap_reg s)) id)) + (f id).1 /\ allocated_memory d = owned_bytes (heap_reg s) id + (f id).2.

Lemma accounts_off_ok (s : system V) (f : DomainId -> Z * Z) : (forall id, f id = (0, 0)) -> accounts_ok s -> accounts_off s f.
Proof. intros Hf [Hr Hc]. split; [done|]. intros id d Hd. rewrite Hf. destruct (Hc id d Hd) as [-> ->]. cbn. lia. Qed.

Lemma credit (d : Domain) (n : Z) :
  0 <= rref_count d -> rref_count d + 1 < u64_modulus -> allocated_memory d + n <= u64_max ->
  rref_count (add_memory (increment_rref d) n) = rref_count d + 1 /\
  allocated_memory (add_memory (increment_rref d) n) = allocated_memory d + n.
Proof. intros H0 H1 H2. simpl. rewrite wrap64_small by (unfold is_u64; lia). lia. Qed.

Lemma debit (d : Domain) (n : Z) :
  1 <= rref_count d -> n <= allocated_memory d ->
  rref_count (free_memory (decrement_rref d) n) = rref_count d - 1 /\
  allocated_memory (free_memory (decrement_rref d) n) = allocated_memory d - n.
Proof.
  intros H1 H2. unfold decrement_rref. destruct (Z.gtb_spec (rref_count d) 0); [|lia]. simpl. lia.
Qed.

(** The owner of an object has it in its account. *)
Lemma owner_account (r : HeapRegistry) (a : Z) (o : HeapObject) :
  registry_ok r -> objects r !! a = Some o ->
  1 <= Z.of_nat (length (indexed (owner_index r) (owner o))) /\ size o <= owned_bytes r (owner o).
Proof.
  intros Hok Ho. destruct (account_remove r a o (owner o) Hok Ho) as [Hl Hb]. rewrite !decide_True in Hl, Hb by done.
  assert (Hok' : registry_ok (unregister_simple r a)) by (unfold unregister_simple; rewrite Ho; by apply remove_ok).
  pose proof (owned_bytes_nonneg _ (owner o) Hok'). lia.
Qed.

(** The counters after a transfer: the owner is debited, then the new owner credited. *)
Lemma transfer_counters (s : system V) (r : HeapRegistry) (from to : DomainId) (n : Z) (id : DomainId) (d : Domain) :
  (forall d0, domains s !! from = Some d0 -> 1 <= rref_count d0 /\ n <= allocated_memory d0) ->
  (forall d0, domains s !! to = Some d0 -> 0 <= rref_count d0 /\ rref_count d0 + 1 < u64_modulus /\ allocated_memory d0 + n <= u64_max) -> 0 <= n ->
  domains (update_domain (update_domain (with_heap_reg s r) from (fun d => free_memory (decrement_rref d) n)) to (fun d => add_memory (increment_rref d) n)) !! id = Some d ->
  exists d0, domains s !! id = Some d0 /\
    rref_count d = rref_count d0 + (if id =? to then 1 else 0) - (if id =? from then 1 else 0) /\
    allocated_memory d = allocated_memory d0 + (if id =? to then n else 0) - (if id =? from then n else 0).
Proof.
  intros Hf Ht Hn. unfold update_domain. cbn [domains with_domains with_heap_reg]. destruct (Z.eqb_spec id to) as [->|Hto].
  - rewrite lookup_alter_eq. intros (d1 & Hd1 & ->)%fmap_Some. destruct (Z.eqb_spec to from) as [->|Hne].
    + rewrite lookup_alter_eq in Hd1. apply fmap_Some in Hd1 as (d0 & Hd0 & ->). exists d0. split; [done|]. destruct (Hf d0 Hd0), (Ht d0 Hd0) as (? & ? & ?).
      destruct (debit d0 n) as [Ec Em]; [lia | lia|]. destruct (credit (free_memory (decrement_rref d0) n) n) as [-> ->]; lia.
    + rewrite lookup_alter_ne in Hd1 by done. exists d1. split; [done|]. destruct (Ht d1 Hd1) as (? & ? & ?). destruct (credit d1 n) as [-> ->]; lia.
  - rewrite lookup_alter_ne by done. destruct (Z.eqb_spec id from) as [->|Hfr].
    + rewrite lookup_alter_eq. intros (d0 & Hd0 & ->)%fmap_Some. exists d0. split; [done|]. destruct (Hf d0 Hd0). destruct (debit d0 n) as [-> ->]; lia.
    + rewrite lookup_alter_ne by done. intros Hd. exists d. split; [done | lia].
Qed.

Lemma transfer_accounts (s : system V) (ptr : Z) (to : DomainId) :
  accounts_ok s -> account_op_fits s (OpTransfer ptr to) -> accounts_off (domain_transfer_ownership s ptr to).2 (drift s (OpTransfer ptr to)).
Proof.
  intros Hok Hop. pose proof Hok as [Hr Hc]. unfold domain_transfer_ownership, get_object.
  destruct (objects (heap_reg s) !! ptr) as [o|] eqn:E; [|apply accounts_off_ok; [intros id; cbn [drift]; by rewrite E | done]]. cbn [snd].
  destruct (Hop o E) as [Hfit Hcnt]. destruct (owner_account _ _ _ Hr E) as [Ho1 Ho2]. destruct (ro_addr _ Hr ptr o E) as (_ & _ & Hsz & _).
  set (r' := (change_owner (heap_reg s) ptr (owner o) to).2) in *.
  assert (Hr' : registry_ok r' /\ (ref_count o <> 1 -> r' = heap_reg s)).
  { unfold r', change_owner, transfer_ownership. rewrite E, !Z.eqb_refl. cbn [negb]. destruct (Z.eqb_spec (ref_count o) 1); cbn [negb snd]; [split; [by apply transfer_ok | done] | done]. }
  destruct Hr' as [Hr' Hsame]. split; [exact Hr'|]. intros id d Hd.
  apply transfer_counters in Hd as (d0 & Hd0 & -> & ->); [|intros d0 Hd0; destruct (Hc _ d0 Hd0); lia | intros d0 Hd0; destruct (Hc _ d0 Hd0); lia | done].
  destruct (Hc id d0 Hd0) as [-> ->]. change (heap_reg (update_domain _ _ _)) with r'. cbn [drift]. rewrite E. destruct (Z.eqb_spec (ref_count o) 1) as [H1|H1].
  - destruct (account_transfer (heap_reg s) ptr o to id Hr E H1) as [Hl Hb]. fold r' in Hl, Hb. rewrite Hl, Hb. cbn [fst snd].
    destruct (Z.eqb_spec id to), (Z.eqb_spec id (owner o)), (decide (id = to)), (decide (id = owner o)); try done; lia.
  - rewrite (Hsame H1). cbn [fst snd]. lia.
Qed.

Lemma register_accounts (s : system V) (ptr : Z) (layout : Layout) (own : DomainId) :
  accounts_ok s -> account_op_fits s (OpRegister ptr layout own) -> accounts_off (register_heap_object s ptr layout own) (drift s (OpRegister ptr layout own)).
Proof.
  intros [Hr Hc] (H1 & H2 & H3 & Hfit & Hcnt). unfold register_heap_object.
  assert (Hcred : forall d, domains s !! own = Some d -> rref_count (add_memory (increment_rref d) (layout_size layout)) = rref_count d + 1 /\
    allocated_memory (add_memory (increment_rref d) (layout_size layout)) = allocated_memory d + layout_size layout) by (intros d Hd; destruct (Hc own d Hd); apply credit; lia).
  destruct (objects (heap_reg s) !! ptr) as [o|] eqn:E; [|destruct (check_overlap (heap_reg s) ptr (layout_size layout)) eqn:Eo].
  3:{ apply accounts_off_ok; [intros id; cbn [drift]; unfold refuses; rewrite E, Eo, bool_decide_eq_false_2 by (intros [? ?]; done); done|].
      pose proof (account_register (heap_reg s) ptr (layout_size layout) own) as Ha. apply accounts_update; [by apply register_ok | |].
      - intros d Hd. destruct (Hc own d Hd) as [Hn Hm]. destruct (Ha own Hr E Eo) as [-> ->]. rewrite !decide_True by done. rewrite <- Hn, <- Hm. by apply Hcred.
      - intros id d Hne Hd. destruct (Ha id Hr E Eo) as [-> ->]. rewrite !decide_False by done. rewrite !Z.add_0_r. by apply Hc. }
  all: unfold register_simple, register; rewrite E, ?Eo; cbn [snd]; split; [exact Hr|]; intros id d; cbn [drift]; unfold refuses, update_domain; cbn [domains heap_reg with_domains with_heap_reg]; rewrite E, ?Eo.
  all: destruct (Z.eqb_spec id own) as [->|Hne]; [rewrite lookup_alter_eq; intros (d0 & Hd0 & ->)%fmap_Some; destruct (Hc own d0 Hd0) as [<- <-]; rewrite ?orb_true_r, ?bool_decide_eq_true_2 by done; cbn [orb andb fst snd]; by apply Hcred|].
  all: rewrite lookup_alter_ne by done; intros Hd; destruct (Hc id d Hd) as [-> ->]; rewrite andb_false_r; cbn [fst snd]; lia.
Qed.

(** C16: the resource counters of the domains follow the registry.  Starting from exact
    accounts every operation leaves each domain with a reference count and a memory equal
    to the number and the total size of the objects the registry holds for it, but for
    two: an object the registry refuses is counted all the same, and the transfer of a
    shared object, which the registry refuses, moves it from one account to the other
    ([drift] says by how much).  Addresses and totals are assumed to fit their words,
    and a new domain to own nothing. *)
Theorem resource_accounts_exact (s : system V) (op : domain_op) :
  accounts_ok s -> account_op_fits s op ->
  registry_ok (heap_reg (domain_apply s op)) /\
  forall id d, domains (domain_apply s op) !! id = Some d ->
    rref_count d = Z.of_nat (length (indexed (owner_index (heap_reg (domain_apply s op))) id)) + (drift s op id).1 /\
    allocated_memory d = owned_bytes (heap_reg (domain_apply s op)) id + (drift s op id).2.
Proof.
  intros Hok Hop. change (accounts_off (domain_apply s op) (drift s op)). pose proof Hok as [Hr Hc].
  destruct op as [now name|id|id|id|id msg|id t|id t|ptr layout own|ptr|ptr to]; cbn [domain_apply]; [| | | | | | |by apply register_accounts| |by apply transfer_accounts].
  all: apply accounts_off_ok; [done|].
  - split; [done|]. intros id d. simpl. rewrite lookup_insert_Some. intros [[<- <-]|[_ Hd]]; [|by apply Hc].
    simpl in Hop |- *. unfold owned_bytes. by rewrite Hop.
  - unfold start_domain. destruct (domains s !! id); [|done]. case_if; [done | by apply accounts_keep].
  - unfold stop_domain. destruct (id =? DOMAIN_KERNEL); [done|]. destruct (domains s !! id); [by apply accounts_keep | done].
  - unfold terminate_domain. destruct (id =? DOMAIN_KERNEL); [done|]. destruct (domains s !! id); [|done].
    apply notify_accounts, reclaim_accounts. by apply accounts_keep.
  - apply reclaim_accounts. by apply accounts_keep.
  - apply accounts_keep; [|done]. intros d. unfold add_task. by destruct (bool_decide _).
  - by apply accounts_keep.
  - unfold unregister_heap_object, get_object. destruct (objects (heap_reg s) !! ptr) as [o|] eqn:E; [|done].
    pose proof (account_remove (heap_reg s) ptr o) as Ha. destruct (owner_account _ _ _ Hr E) as [Ho1 Ho2].
    apply accounts_update.
    + unfold unregister_simple. rewrite E. by apply remove_ok.
    + intros d Hd. destruct (Hc _ d Hd) as [Hn Hm]. destruct (Ha (owner o) Hr E) as [-> ->].
      rewrite !decide_True by done. rewrite <- Hn, <- Hm. apply debit; lia.
    + intros id d Hne Hd. destruct (Ha id Hr E) as [-> ->]. rewrite !decide_False by done.
      rewrite !Z.sub_0_r. by apply Hc.
Qed.

(** ** Termination *)






End Accounts.

(** ** A concrete system: the kernel, domain 1, which owns one object of 64
    bytes on the exchange heap, and domain 2, which depends on it *)

Definition demo_exchange : exchange (V := Z) :=
  mkExchange ExchangeHeapTheorems.w_heap1.1 ExchangeHeapTheorems.w_heap1.2 ∅.
Definition demo_boot : system Z :=
  let s1 := (create_domain (domain_init (system_new demo_exchange) 0) 5 "net").2 in
  let s2 := (create_domain s1 6 "fs").2 in
  update_domain s2 1 (fun d => add_dependent d 2).
Definition demo_system : system Z := register_heap_object demo_boot 0x1040 (mkLayout 64 64) 1.

Lemma demo_boot_domains (i : Z) (d : Domain) :
  domains demo_boot !! i = Some d -> i < 3 /\ rref_count d = 0 /\ allocated_memory d = 0.
Proof.
  unfold demo_boot. cbn [create_domain generate_id domain_init system_new update_domain with_domains domains next_id snd].
  change (1 +w 1) with 2. intros H.
  apply lookup_alter_Some in H as [(<- & d0 & H & ->)|(_ & H)];
    repeat (apply lookup_insert_Some in H as [[E1 E2]|[_ H]]; [by simplify_eq|]); by rewrite lookup_empty in H.
Qed.

Lemma demo_boot_accounts : accounts_ok demo_boot.
Proof.
  split; [apply registry_new_ok|]. intros i d (_ & -> & ->)%demo_boot_domains.
  unfold owned_bytes. change (indexed _ i) with (default [] ((∅ : gmap Z (list Z)) !! i)). by rewrite lookup_empty.
Qed.

Lemma domain_lifecycle_witness :
  exists st, get_domain_state (foldl domain_apply demo_boot [OpStop 1; OpStart 1; OpTerminate 2]) 1 = Some st /\
    state_is_runnable st = false.
Proof.
  destruct (domain_lifecycle (domain_apply demo_boot (OpStop 1)) [OpStart 1; OpTerminate 2] 1 Stopped) as (st & H1 & _ & H2 & _).
  - apply (domain_apply_ids demo_boot (OpStop 1)).
    + intros i [d Hd]. change (next_id _) with 3. by apply demo_boot_domains in Hd as [? _].
    + change (next_id _) with 3. lia.
    + change (next_id _) with 3. unfold u64_modulus. lia.
  - change (next_id _) with 3. lia.
  - change (next_id _) with 3. unfold u64_modulus. simpl. lia.
  - reflexivity.
  - exists st. split; [exact H1 | by apply H2].
Defined.

Lemma resource_accounts_exact_witness : registry_ok (heap_reg demo_system) /\ drift demo_boot (OpRegister 0x1040 (mkLayout 64 64) 1) 1 = (0, 0).
Proof.
  split; [|vm_compute; reflexivity].
  apply (resource_accounts_exact demo_boot (OpRegister 0x1040 (mkLayout 64 64) 1) demo_boot_accounts).
  repeat split; vm_compute; congruence.
Defined.


(** [stop_domain] has no guard on the state: a terminated domain, whose resources
    were reclaimed, becomes [Stopped] and counts as active again. *)
Lemma stop_reactivates_terminated :
  let s1 := (terminate_domain demo_system 1).2 in
  get_domain_state s1 1 = Some Terminated /\
  (stop_domain s1 1).1 = Ok tt /\ get_domain_state (stop_domain s1 1).2 1 = Some Stopped.
Proof. vm_compute. done. Qed.

(** [transfer_ownership] drops the error of [change_owner]: on a shared object the
    counters move to the new owner while the registry keeps the old one. *)
Lemma shared_transfer_moves_counters :
  let s1 := with_heap_reg demo_system (add_ref (heap_reg demo_system) 0x1040).2 in
  let '(ok, s2) := domain_transfer_ownership s1 0x1040 2 in
  ok = true /\ get_owner (heap_reg s2) 0x1040 = Some 1 /\
  (allocated_memory <$> domains s2 !! 1) = Some 0 /\ (allocated_memory <$> domains s2 !! 2) = Some 64.
Proof. vm_compute. done. Qed.

(** [register_heap_object] counts an object the registry refuses. *)
Lemma refused_object_counted :
  let s1 := register_heap_object demo_system 0x1040 (mkLayout 64 64) 1 in
  indexed (owner_index (heap_reg s1)) 1 = [0x1040] /\ (allocated_memory <$> domains s1 !! 1) = Some 128.
Proof. vm_compute. done. Qed.
