(* ===== verification/KernelHeap.v ===== *)
(** * The kernel heap (src/src/memory.rs, lines 38 to 305)

    The allocator behind [alloc] and [dealloc]: a buddy system whose free blocks
    are linked through their first word.  [words] is the memory of the heap as
    64-bit words by address; reading a word that was never written is undefined
    behaviour, a [Panic] here.  The lock around the allocator makes each
    operation a transition. *)

From stdpp Require Import base list gmap.
From Stdlib Require Import ZArith Lia.
From S2P Require Import Prelude.

Local Open Scope Z_scope.

Abbreviation words := (gmap Z Z).

(** [block_states] is never used by the source. *)
Record BuddyHeapAllocator := mkHeap {
  heap_start : Z;
  heap_size : Z;
  initialized : bool;
  free_lists : list (option Z);
  block_states : list Z
}.

Definition MIN_BLOCK_SIZE : Z := 64.
Definition MAX_ORDER : nat := 16.

Definition BuddyHeapAllocator_new : BuddyHeapAllocator :=
  mkHeap 0 0 false (replicate (MAX_ORDER + 1) None) (replicate (Z.to_nat 1024) 0).

Definition with_free_lists (st : BuddyHeapAllocator) (fls : list (option Z)) : BuddyHeapAllocator :=
  mkHeap (heap_start st) (heap_size st) (initialized st) fls (block_states st).

Definition size_to_order (size : Z) : nat :=
  let blocks := (size +w MIN_BLOCK_SIZE -w 1) / MIN_BLOCK_SIZE in
  if blocks <=? 1 then 0%nat else Z.to_nat (64 - leading_zeros64 (blocks - 1)).

Definition order_to_size (order : nat) : Z := wrap64 (Z.shiftl MIN_BLOCK_SIZE (Z.of_nat order)).

(** [if next == 0 { None } else { Some(next) }] *)
Definition ptr_opt (next : Z) : option Z := if next =? 0 then None else Some next.

(** [*(addr as *const usize)] *)
Definition read_word (m : words) (addr : Z) : outcome Z :=
  match m !! addr with
  | Some w => Ret w
  | None => Panic
  end.

Definition add_to_free_list (m : words) (st : BuddyHeapAllocator) (addr : Z) (order : nat) :
    outcome (words * BuddyHeapAllocator) :=
  let! head := index (free_lists st) order in
  Ret (<[addr := default 0 head]> m, with_free_lists st (<[order := Some addr]> (free_lists st))).

Definition remove_from_free_list (m : words) (st : BuddyHeapAllocator) (order : nat) :
    outcome (option Z * BuddyHeapAllocator) :=
  let! head := index (free_lists st) order in
  match head with
  | None => Ret (None, st)
  | Some addr =>
      let! next := read_word m addr in
      Ret (Some addr, with_free_lists st (<[order := ptr_opt next]> (free_lists st)))
  end.

(** The walk of [remove_specific] from [current].  A list has at most as many
    blocks as words were written, so [size m] turns and one more are enough. *)
Fixpoint remove_walk (fuel : nat) (m : words) (st : BuddyHeapAllocator) (addr : Z) (order : nat)
    (prev current : option Z) : outcome (bool * words * BuddyHeapAllocator) :=
  match current with
  | None => Ret (false, m, st)
  | Some curr_addr =>
      match fuel with
      | O => Panic
      | S fuel' =>
          let! next := read_word m curr_addr in
          if curr_addr =? addr then
            match prev with
            | Some prev_addr => Ret (true, <[prev_addr := next]> m, st)
            | None => Ret (true, m, with_free_lists st (<[order := ptr_opt next]> (free_lists st)))
            end
          else remove_walk fuel' m st addr order current (ptr_opt next)
      end
  end.

Definition remove_specific (m : words) (st : BuddyHeapAllocator) (addr : Z) (order : nat) :
    outcome (bool * words * BuddyHeapAllocator) :=
  let! head := index (free_lists st) order in
  remove_walk (S (size m)) m st addr order None head.

(** [while order > 0]: down to an order whose blocks fit at [current]. *)
Fixpoint lower_order (current end_ : Z) (order : nat) : nat :=
  match order with
  | O => O
  | S order' =>
      let block_size := order_to_size order in
      if (current mod block_size =? 0) && (current +w block_size <=? end_) then order
      else lower_order current end_ order'
  end.

(** [while current < end].  Every turn moves [current] on by a block of at least
    64 bytes, or to the next multiple of 64: [2 * (heap_size / 64) + 2] turns are
    enough. *)
Fixpoint init_loop (fuel : nat) (m : words) (st : BuddyHeapAllocator) (current end_ : Z) :
    outcome (words * BuddyHeapAllocator) :=
  if current <? end_ then
    match fuel with
    | O => Panic
    | S fuel' =>
        let remaining := end_ - current in
        if remaining <? MIN_BLOCK_SIZE then Ret (m, st)
        else
          let order := lower_order current end_ (Nat.min (size_to_order remaining) MAX_ORDER) in
          let block_size := order_to_size order in
          if negb (current mod block_size =? 0) then
            let aligned := align_up64 current block_size in
            if aligned >=? end_ then Ret (m, st)
            else init_loop fuel' m st aligned end_
          else if current +w block_size <=? end_ then
            let! (m1, st1) := add_to_free_list m st current order in
            init_loop fuel' m1 st1 (current +w block_size) end_
          else Ret (m, st)
    end
  else Ret (m, st).

Definition init (m : words) (st : BuddyHeapAllocator) (start sz : Z) : outcome (words * BuddyHeapAllocator) :=
  let st1 := mkHeap start sz true ((fun _ => None) <$> free_lists st) (block_states st) in
  init_loop (Z.to_nat (2 * (sz / MIN_BLOCK_SIZE) + 2)) m st1 start (start +w sz).

(** The loop of [split_block] with [n = current_order - to_order] turns left. *)
Fixpoint split_loop (n : nat) (m : words) (st : BuddyHeapAllocator) (addr : Z) (to_order : nat) :
    outcome (words * BuddyHeapAllocator) :=
  match n with
  | O => Ret (m, st)
  | S n' =>
      let current_order := (to_order + n')%nat in
      let! (m1, st1) := add_to_free_list m st (addr +w order_to_size current_order) current_order in
      split_loop n' m1 st1 addr to_order
  end.

Definition split_block (m : words) (st : BuddyHeapAllocator) (addr : Z) (from_order to_order : nat) :
    outcome (words * BuddyHeapAllocator) :=
  split_loop (from_order - to_order) m st addr to_order.

(** [for current_order in order..=MAX_ORDER] *)
Fixpoint allocate_scan (m : words) (st : BuddyHeapAllocator) (order : nat) (orders : list nat) :
    outcome (Z * words * BuddyHeapAllocator) :=
  match orders with
  | [] => Ret (0, m, st)
  | current_order :: rest =>
      let! (r, st1) := remove_from_free_list m st current_order in
      match r with
      | Some block =>
          let! (m2, st2) := split_block m st1 block current_order order in
          Ret (block, m2, st2)
      | None => allocate_scan m st1 order rest
      end
  end.

(** The size and the order a layout asks for. *)
Definition layout_order (layout : Layout) : nat :=
  size_to_order (Z.max (Z.max (layout_size layout) (layout_align layout)) MIN_BLOCK_SIZE).

(** A null pointer is 0. *)
Definition allocate (m : words) (st : BuddyHeapAllocator) (layout : Layout) :
    outcome (Z * words * BuddyHeapAllocator) :=
  if negb (initialized st) then Ret (0, m, st)
  else
    let order := layout_order layout in
    if (MAX_ORDER <? order)%nat then Ret (0, m, st)
    else allocate_scan m st order (seq order (MAX_ORDER + 1 - order)).

Definition buddy_addr (st : BuddyHeapAllocator) (addr : Z) (order : nat) : Z :=
  let offset := addr -w heap_start st in
  heap_start st +w Z.lxor offset (order_to_size order).

(** The loop of [coalesce] with [n = MAX_ORDER - current_order] turns left. *)
Fixpoint coalesce_loop (n : nat) (m : words) (st : BuddyHeapAllocator) (current_addr : Z) (current_order : nat) :
    outcome (words * BuddyHeapAllocator * Z * nat) :=
  match n with
  | O => Ret (m, st, current_addr, current_order)
  | S n' =>
      let b := buddy_addr st current_addr current_order in
      let! (removed, m1, st1) := remove_specific m st b current_order in
      if negb removed then Ret (m1, st1, current_addr, current_order)
      else coalesce_loop n' m1 st1 (Z.min current_addr b) (S current_order)
  end.

Definition coalesce (m : words) (st : BuddyHeapAllocator) (addr : Z) (order : nat) :
    outcome (words * BuddyHeapAllocator) :=
  let! (m1, st1, a, o) := coalesce_loop (MAX_ORDER - order) m st addr order in
  add_to_free_list m1 st1 a o.

Definition deallocate (m : words) (st : BuddyHeapAllocator) (ptr : Z) (layout : Layout) :
    outcome (words * BuddyHeapAllocator) :=
  if (ptr =? 0) || negb (initialized st) then Ret (m, st)
  else coalesce m st ptr (layout_order layout).
