(* ===== verification/KernelHeapTheorems.v ===== *)
(** * The kernel heap: allocation, deallocation, start-up *)

From stdpp Require Import base list gmap relations.
From Stdlib Require Import ZArith Lia Permutation.
From S2P Require Import Prelude Ranges Buddy BuddySpec BuddyTheorems KernelHeap.

Local Open Scope Z_scope.

(** * The kernel heap keeps a partition of its memory into blocks

    The heap of [units] 64-byte units is, at any time, divided exactly into free
    blocks, linked per order, and blocks in use: the operations move blocks from
    one side to the other, cut them in halves and join the halves again.  The
    geometry of blocks is that of the frame allocator ([BuddySpec]). *)

(** ** Intrusive lists *)

(** The list from [head] through the words of [m] visits the addresses [l]. *)
Fixpoint chain (m : words) (head : option Z) (l : list Z) : Prop :=
  match l with
  | [] => head = None
  | a :: l' => head = Some a /\ a <> 0 /\ exists w, m !! a = Some w /\ chain m (ptr_opt w) l'
  end.

Lemma chain_write (m : words) (head : option Z) (l : list Z) (a w : Z) :
  chain m head l -> a ∉ l -> chain (<[a := w]> m) head l.
Proof.
  revert head. induction l as [|b l IH]; intros head; simpl; [done|].
  intros (-> & Hb & w' & Hw & Hc) Hn. split; [done|]. split; [done|]. exists w'.
  rewrite lookup_insert_ne by set_solver. split; [done|]. apply IH; [done | set_solver].
Qed.

Lemma chain_agree (m m' : words) (head : option Z) (l : list Z) :
  chain m head l -> (forall a, a ∈ l -> m' !! a = m !! a) -> chain m' head l.
Proof.
  revert head. induction l as [|b l IH]; intros head; simpl; [done|].
  intros (-> & Hb & w' & Hw & Hc) Hm. split; [done|]. split; [done|]. exists w'.
  rewrite Hm by left. split; [done|]. apply IH; [done|]. intros a Ha. apply Hm. by right.
Qed.

Lemma chain_push (m : words) (head : option Z) (l : list Z) (a : Z) :
  chain m head l -> a ∉ l -> a <> 0 -> chain (<[a := default 0 head]> m) (Some a) (a :: l).
Proof.
  intros Hc Hn Ha. split; [done|]. split; [done|]. exists (default 0 head). rewrite lookup_insert_eq. split; [done|].
  replace (ptr_opt (default 0 head)) with head; [by apply chain_write|].
  destruct l as [|b l]; simpl in Hc; [by subst|]. destruct Hc as (-> & Hb & _). simpl. unfold ptr_opt.
  by destruct (Z.eqb_spec b 0).
Qed.

(** Taking a block out of the middle of a list. *)
Lemma chain_unlink (m : words) (head : option Z) (l1 l2 : list Z) (p b w : Z) :
  chain m head (l1 ++ p :: b :: l2) -> NoDup (l1 ++ p :: b :: l2) -> m !! b = Some w ->
  chain (<[p := w]> m) head (l1 ++ p :: l2).
Proof.
  revert head. induction l1 as [|a l1 IH]; intros head; simpl.
  - intros (-> & Hp & wp & Hwp & Hb & _ & w' & Hw' & Hc) Hnd Hw. split; [done|]. split; [done|].
    exists w. rewrite lookup_insert_eq. split; [done|]. assert (w' = w) as -> by congruence.
    apply NoDup_cons in Hnd as [Hnd _]. apply chain_write; [done | set_solver].
  - intros (-> & Ha & wa & Hwa & Hc) Hnd Hw. apply NoDup_cons in Hnd as [Hna Hnd]. split; [done|]. split; [done|].
    exists wa. rewrite lookup_insert_ne by set_solver. split; [done|]. by apply IH.
Qed.

Lemma chain_length (m : words) (head : option Z) (l : list Z) :
  chain m head l -> NoDup l -> (length l <= base.size m)%nat.
Proof.
  intros Hc Hnd.
  assert (Hsub : list_to_set l ⊆ (dom m : gset Z)).
  { intros a. rewrite elem_of_list_to_set, elem_of_dom. revert head Hc. clear Hnd.
    induction l as [|b l IH]; intros head; simpl; [by intros _ ?%elem_of_nil|].
    intros (_ & _ & w & Hw & Hc) [-> | Ha]%elem_of_cons; [by eexists | by eapply IH]. }
  apply subseteq_size in Hsub. by rewrite size_list_to_set, size_dom in Hsub.
Qed.

(** The walk of [remove_specific]: the predecessor is the last block passed. *)
Lemma remove_walk_spec (fuel : nat) (m : words) (st : BuddyHeapAllocator) (addr : Z) (o : nat)
    (prev current : option Z) (l : list Z) :
  chain m current l -> (length l < fuel)%nat ->
  ((addr ∉ l) /\ remove_walk fuel m st addr o prev current = Ret (false, m, st)) \/
  (exists l1 l2 w, l = l1 ++ addr :: l2 /\ (addr ∉ l1) /\ m !! addr = Some w /\ chain m (ptr_opt w) l2 /\
     remove_walk fuel m st addr o prev current =
       match (match last l1 with Some p => Some p | None => prev end) with
       | Some p => Ret (true, <[p := w]> m, st)
       | None => Ret (true, m, with_free_lists st (<[o := ptr_opt w]> (free_lists st)))
       end).
Proof.
  revert prev current l. induction fuel as [|fuel IH]; intros prev current l Hc Hf; [lia|].
  destruct l as [|a l]; simpl in Hc; [subst; left; split; [set_solver | done]|].
  destruct Hc as (-> & Ha & w & Hw & Hc). simpl. unfold read_word. rewrite Hw. simpl.
  destruct (Z.eqb_spec a addr) as [->|Hne].
  - right. exists [], l, w. split; [done|]. split; [apply not_elem_of_nil|]. split; [done|]. split; [done|]. by destruct prev.
  - destruct (IH (Some a) (ptr_opt w) l Hc) as [[Hn ->] | (l1 & l2 & w' & -> & Hn & Hw' & Hc' & ->)]; [simpl in Hf; lia | |].
    + left. split; [set_solver | done].
    + right. exists (a :: l1), l2, w'. split; [done|]. split; [set_solver|]. split; [done|]. split; [done|].
      destruct l1 as [|b l1]; [done|]. change (last (a :: b :: l1)) with (last (b :: l1)).
      destruct (last (b :: l1)) eqn:E; [done | by apply last_None in E].
Qed.

(** ** Blocks of the heap *)

Definition unit_addr (start f : Z) : Z := start + MIN_BLOCK_SIZE * f.

(** Where the heap lies: its start is a multiple of the greatest block size. *)
Record heap_place (start units : Z) : Prop := {
  hp_start : 0 < start;
  hp_align : (2 ^ 22 | start);
  hp_units : 0 <= units <= FRAME_LIMIT;
  hp_end : start + MIN_BLOCK_SIZE * units + 2 ^ 23 < u64_modulus
}.

Definition heap_block_ok (units : Z) (b : block) : Prop :=
  block_ok b /\ (b.1 <= MAX_ORDER)%nat /\ b.2 + 2 ^ Z.of_nat b.1 <= units.

Definition upd (ls : nat -> list Z) (o : nat) (l : list Z) : nat -> list Z := fun k => if decide (k = o) then l else ls k.

(** The free blocks, from the units listed per order. *)
Definition free_of (ls : nat -> list Z) : list block := flat_map (fun o => (o,.) <$> ls o) (seq 0 (MAX_ORDER + 1)).

Record heap_ok (start units : Z) (m : words) (st : BuddyHeapAllocator) (ls : nat -> list Z) (live : list block) : Prop := {
  ho_init : initialized st = true;
  ho_start : heap_start st = start;
  ho_len : length (free_lists st) = (MAX_ORDER + 1)%nat;
  ho_chain : forall o h, free_lists st !! o = Some h -> chain m h (unit_addr start <$> ls o);
  ho_blocks : Forall (heap_block_ok units) (free_of ls ++ live);
  ho_cover : forall x, cover (free_of ls ++ live) x = Z.b2z ((0 <=? x) && (x <? units))
}.

Lemma upd_eq (ls : nat -> list Z) (o : nat) (l : list Z) : upd ls o l o = l.
Proof. unfold upd. by rewrite decide_True. Qed.

Lemma upd_ne (ls : nat -> list Z) (o k : nat) (l : list Z) : k <> o -> upd ls o l k = ls k.
Proof. intros H. unfold upd. by rewrite decide_False. Qed.

Lemma elem_of_free (ls : nat -> list Z) (o : nat) (f : Z) :
  (o, f) ∈ free_of ls <-> (o <= MAX_ORDER)%nat /\ f ∈ ls o.
Proof.
  unfold free_of. rewrite elem_flat_map_seq. split.
  - intros (k & Hk & (g & [= -> ->] & Hg)%list_elem_of_fmap). split; [lia | done].
  - intros [Ho Hf]. exists o. split; [lia|]. by apply list_elem_of_fmap_2.
Qed.

Lemma free_of_upd (ls : nat -> list Z) (o : nat) :
  (o <= MAX_ORDER)%nat ->
  exists r, free_of ls ≡ₚ ((o,.) <$> ls o) ++ r /\ forall l, free_of (upd ls o l) ≡ₚ ((o,.) <$> l) ++ r.
Proof.
  intros Ho. destruct (flat_map_focus (fun o => (o,.) <$> ls o) (seq 0 (MAX_ORDER + 1)) o) as (r & H1 & H2);
    [apply NoDup_seq | apply elem_of_seq; lia |].
  exists r. split; [exact H1|]. intros l. unfold free_of. rewrite H2.
  - by rewrite upd_eq.
  - intros j _ Hj. by rewrite upd_ne.
Qed.

(** Moving a block between the lists and the blocks in use. *)
Lemma free_of_push (ls : nat -> list Z) (o : nat) (l1 l2 : list Z) (f : Z) :
  (o <= MAX_ORDER)%nat -> ls o = l1 ++ l2 -> free_of (upd ls o (l1 ++ f :: l2)) ≡ₚ (o, f) :: free_of ls.
Proof.
  intros Ho Hl. destruct (free_of_upd ls o Ho) as (r & H1 & H2). rewrite H1, H2, Hl, !fmap_app. simpl. solve_Permutation.
Qed.

Lemma free_of_take (ls : nat -> list Z) (o : nat) (l1 l2 : list Z) (f : Z) :
  (o <= MAX_ORDER)%nat -> ls o = l1 ++ f :: l2 -> free_of ls ≡ₚ (o, f) :: free_of (upd ls o (l1 ++ l2)).
Proof.
  intros Ho Hl. destruct (free_of_upd ls o Ho) as (r & H1 & H2). rewrite H1, H2, Hl, !fmap_app. simpl. solve_Permutation.
Qed.

Lemma order_size (o : nat) : (o <= MAX_ORDER)%nat -> order_to_size o = MIN_BLOCK_SIZE * 2 ^ Z.of_nat o.
Proof.
  intros Ho. unfold order_to_size. rewrite Z.shiftl_mul_pow2 by lia. apply wrap64_small.
  assert (2 ^ Z.of_nat o <= 2 ^ 16) by (apply Z.pow_le_mono_r; unfold MAX_ORDER in Ho; lia).
  pose proof (pow2_pos o). unfold is_u64, u64_modulus, MIN_BLOCK_SIZE. lia.
Qed.

(** A unit lies in one block only. *)
Lemma cover_distinct (bs r : list block) (b1 b2 : block) (x : Z) :
  bs ≡ₚ b1 :: b2 :: r -> cover bs x <= 1 -> in_block b1 x = true -> in_block b2 x = false.
Proof.
  intros Hp Hc Hx. rewrite Hp in Hc. simpl in Hc. pose proof (cover_nonneg r x). rewrite Hx in Hc.
  destruct (in_block b2 x); [simpl in Hc; lia | done].
Qed.

Lemma in_block_head (o : nat) (f : Z) : in_block (o, f) f = true.
Proof. apply in_block_spec. pose proof (pow2_pos o). lia. Qed.

Lemma cover_NoDup (bs : list block) : (forall x, cover bs x <= 1) -> NoDup bs.
Proof.
  induction bs as [|[o f] bs IH]; intros Hc; [constructor|]. constructor.
  - intros (r & Hr)%elem_of_Permutation. pose proof (cover_distinct ((o, f) :: bs) r (o, f) (o, f) f) as H.
    rewrite in_block_head in H. discriminate H; [by rewrite Hr | apply Hc | done].
  - apply IH. intros x. specialize (Hc x). simpl in Hc. destruct (in_block (o, f) x); simpl in Hc; lia.
Qed.

(** The bytes of a block, and memory that keeps the bytes of some blocks. *)
Definition in_bytes (start : Z) (b : block) (a : Z) : Prop :=
  unit_addr start b.2 <= a < unit_addr start (b.2 + 2 ^ Z.of_nat b.1).

Definition kept (start : Z) (live : list block) (m m' : words) : Prop :=
  forall b a, b ∈ live -> in_bytes start b a -> m' !! a = m !! a.

Lemma kept_refl (start : Z) (live : list block) (m : words) : kept start live m m.
Proof. done. Qed.

Lemma kept_trans (start : Z) (live : list block) (m1 m2 m3 : words) :
  kept start live m1 m2 -> kept start live m2 m3 -> kept start live m1 m3.
Proof. intros H1 H2 b a Hb Ha. by rewrite (H2 b a), (H1 b a). Qed.

Lemma unit_addr_block (start f : Z) (b : block) :
  in_bytes start b (unit_addr start f) -> in_block b f = true.
Proof. destruct b as [o g]. rewrite in_block_spec. unfold in_bytes, unit_addr, MIN_BLOCK_SIZE. simpl. lia. Qed.

(** The link of a block is outside all other blocks. *)
Lemma write_kept (start : Z) (bs live : list block) (r : list block) (b : block) (m : words) (w : Z) :
  (forall x, cover bs x <= 1) -> bs ≡ₚ b :: live ++ r -> kept start live m (<[unit_addr start b.2 := w]> m).
Proof.
  destruct b as [o f]. intros Hc Hp c a (r' & Hr)%elem_of_Permutation Ha. apply lookup_insert_ne. intros <-.
  apply unit_addr_block in Ha. cbn [snd] in Ha.
  rewrite (cover_distinct bs (r' ++ r) (o, f) c f) in Ha; [done | | apply Hc | apply in_block_head].
  by rewrite Hp, Hr.
Qed.

(** ** The operations *)

Section Operations.
Context (start units : Z) (place : heap_place start units).

#[local] Abbreviation ok := (heap_ok start units).
#[local] Abbreviation addr := (unit_addr start).

Lemma unit_addr_inj (f g : Z) : addr f = addr g -> f = g.
Proof. unfold unit_addr, MIN_BLOCK_SIZE. lia. Qed.

Lemma unit_addr_pos (f : Z) : 0 <= f -> addr f <> 0.
Proof using place. pose proof (hp_start _ _ place). unfold unit_addr, MIN_BLOCK_SIZE. lia. Qed.

Lemma ok_cover (m : words) (st : BuddyHeapAllocator) (ls : nat -> list Z) (live : list block) (x : Z) :
  ok m st ls live -> cover (free_of ls ++ live) x <= 1.
Proof. intros Hok. rewrite (ho_cover _ _ _ _ _ _ Hok). destruct ((0 <=? x) && (x <? units)); simpl; lia. Qed.

Lemma ok_block (m : words) (st : BuddyHeapAllocator) (ls : nat -> list Z) (live : list block) (b : block) :
  ok m st ls live -> b ∈ free_of ls ++ live -> heap_block_ok units b.
Proof. intros Hok Hb. pose proof (ho_blocks _ _ _ _ _ _ Hok) as H. rewrite Forall_forall in H. by apply H. Qed.

Lemma ok_live_not_free (m : words) (st : BuddyHeapAllocator) (ls : nat -> list Z) (live : list block) (o k : nat) (f : Z) :
  ok m st ls ((o, f) :: live) -> (k <= MAX_ORDER)%nat -> f ∉ ls k.
Proof.
  intros Hok Hk Hf. assert (Hin : (k, f) ∈ free_of ls) by (by apply elem_of_free).
  apply elem_of_Permutation in Hin as [r Hr].
  pose proof (cover_distinct (free_of ls ++ (o, f) :: live) (r ++ live) (k, f) (o, f) f) as H.
  rewrite !in_block_head in H. discriminate H; [|by eapply ok_cover | done].
  rewrite Hr. simpl. solve_Permutation.
Qed.

Lemma ok_list_NoDup (m : words) (st : BuddyHeapAllocator) (ls : nat -> list Z) (live : list block) (o : nat) :
  ok m st ls live -> (o <= MAX_ORDER)%nat -> NoDup (addr <$> ls o).
Proof.
  intros Hok Ho. apply NoDup_fmap_2; [exact unit_addr_inj|].
  assert (Hnd : NoDup (free_of ls ++ live)) by (apply cover_NoDup; intros x; by eapply ok_cover).
  apply NoDup_app in Hnd as (Hnd & _). destruct (free_of_upd ls o Ho) as (r & Hr & _). rewrite Hr in Hnd.
  apply NoDup_app in Hnd as (Hnd & _). by apply NoDup_fmap_1 in Hnd.
Qed.

(** The blocks in use may be cut and joined freely. *)
Lemma ok_same (m : words) (st : BuddyHeapAllocator) (ls : nat -> list Z) (live live' : list block) :
  ok m st ls live -> Forall (heap_block_ok units) live' -> (forall x, cover live x = cover live' x) -> ok m st ls live'.
Proof.
  intros [H1 H2 H3 H4 H5 H6] Hb Hc. split; try done.
  - apply Forall_app. apply Forall_app in H5 as [H5 _]. done.
  - intros x. specialize (H6 x). rewrite cover_app in *. by rewrite <- Hc.
Qed.

Lemma ok_list_lookup (m : words) (st : BuddyHeapAllocator) (ls : nat -> list Z) (live : list block) (o : nat) :
  ok m st ls live -> (o <= MAX_ORDER)%nat ->
  exists h, index (free_lists st) o = Ret h /\ free_lists st !! o = Some h /\ chain m h (addr <$> ls o).
Proof.
  intros Hok Ho. destruct (lookup_lt_is_Some_2 (free_lists st) o) as [h Hh]; [rewrite (ho_len _ _ _ _ _ _ Hok); lia|].
  exists h. unfold index. rewrite Hh. split; [done|]. split; [done|]. by apply (ho_chain _ _ _ _ _ _ Hok).
Qed.

(** A list of one order changes and the others keep their links. *)
Lemma ok_relink (m m' : words) (st : BuddyHeapAllocator) (ls : nat -> list Z) (live live' : list block) (o : nat)
    (h : option Z) (l : list Z) :
  ok m st ls live -> (o <= MAX_ORDER)%nat -> chain m' h (addr <$> l) ->
  (forall k h', k <> o -> free_lists st !! k = Some h' -> chain m' h' (addr <$> ls k)) ->
  free_of (upd ls o l) ++ live' ≡ₚ free_of ls ++ live ->
  ok m' (with_free_lists st (<[o := h]> (free_lists st))) (upd ls o l) live'.
Proof.
  intros [H1 H2 H3 H4 H5 H6] Ho Hc Hother Hp. split; try done.
  - simpl. by rewrite length_insert.
  - intros k h' Hk. simpl in Hk. apply list_lookup_insert_Some in Hk as [(-> & -> & _) | (Hne & Hk)].
    + by rewrite upd_eq.
    + rewrite upd_ne by done. by apply Hother.
  - by rewrite Hp.
  - intros x. by rewrite Hp.
Qed.

Lemma add_spec (m : words) (st : BuddyHeapAllocator) (ls : nat -> list Z) (live : list block) (o : nat) (f : Z) :
  ok m st ls ((o, f) :: live) ->
  exists m' st', add_to_free_list m st (addr f) o = Ret (m', st') /\
    ok m' st' (upd ls o (f :: ls o)) live /\ kept start live m m'.
Proof using place.
  intros Hok. destruct (ok_block _ _ _ _ (o, f) Hok) as ((_ & Hf & _) & Ho & _); [set_solver|]. cbn [fst snd] in *.
  destruct (ok_list_lookup _ _ _ _ o Hok Ho) as (h & Hi & _ & Hc).
  assert (Hn : forall k, (k <= MAX_ORDER)%nat -> addr f ∉ addr <$> ls k).
  { intros k Hk (g & Heq & Hg)%list_elem_of_fmap. apply unit_addr_inj in Heq as <-.
    by apply (ok_live_not_free _ _ _ _ _ k f Hok Hk). }
  unfold add_to_free_list. rewrite Hi. simpl. do 2 eexists. split; [done|]. split.
  - apply (ok_relink m _ st ls ((o, f) :: live)); [done | done | | |].
    + rewrite fmap_cons. apply chain_push; [done | by apply Hn | by apply unit_addr_pos].
    + intros k h' _ Hk. apply chain_write; [by apply (ho_chain _ _ _ _ _ _ Hok)|]. apply Hn.
      apply lookup_lt_Some in Hk. rewrite (ho_len _ _ _ _ _ _ Hok) in Hk. lia.
    + rewrite (free_of_push ls o [] (ls o) f Ho eq_refl). simpl. by rewrite Permutation_middle.
  - apply (write_kept start (free_of ls ++ (o, f) :: live) live (free_of ls) (o, f)); [intros x; by eapply ok_cover|].
    solve_Permutation.
Qed.

Lemma remove_first_spec (m : words) (st : BuddyHeapAllocator) (ls : nat -> list Z) (live : list block) (o : nat) :
  ok m st ls live -> (o <= MAX_ORDER)%nat ->
  (ls o = [] /\ remove_from_free_list m st o = Ret (None, st)) \/
  (exists f l st', ls o = f :: l /\ remove_from_free_list m st o = Ret (Some (addr f), st') /\
     ok m st' (upd ls o l) ((o, f) :: live)).
Proof.
  intros Hok Ho. destruct (ok_list_lookup _ _ _ _ o Hok Ho) as (h & Hi & _ & Hc).
  unfold remove_from_free_list. rewrite Hi. simpl. destruct (ls o) as [|f l] eqn:El; simpl in Hc.
  - left. by subst h.
  - right. destruct Hc as (-> & _ & w & Hw & Hc). exists f, l. unfold read_word. rewrite Hw. simpl.
    eexists. split; [done|]. split; [done|]. apply (ok_relink m m st ls live); [done | done | done | |].
    + intros k h' _ Hk. by apply (ho_chain _ _ _ _ _ _ Hok).
    + rewrite (free_of_take ls o [] l f Ho El). simpl. by rewrite Permutation_middle.
Qed.

Lemma ok_orders_apart (m : words) (st : BuddyHeapAllocator) (ls : nat -> list Z) (live : list block) (o k : nat) (p : Z) :
  ok m st ls live -> (o, p) ∈ free_of ls -> k <> o -> (k, p) ∉ free_of ls.
Proof.
  intros Hok [r Hr]%elem_of_Permutation Hk Hg. rewrite Hr in Hg. apply elem_of_cons in Hg as [[= ->]|Hg]; [done|].
  apply elem_of_Permutation in Hg as [r' Hr'].
  pose proof (cover_distinct (free_of ls ++ live) (r' ++ live) (o, p) (k, p) p) as H.
  rewrite !in_block_head in H. discriminate H; [by rewrite Hr, Hr' | by eapply ok_cover | done].
Qed.

Lemma remove_specific_spec (m : words) (st : BuddyHeapAllocator) (ls : nat -> list Z) (live : list block) (o : nat) (b : Z) :
  ok m st ls live -> (o <= MAX_ORDER)%nat ->
  ((b ∉ ls o) /\ remove_specific m st (addr b) o = Ret (false, m, st)) \/
  (exists l m' st', b ∈ ls o /\ remove_specific m st (addr b) o = Ret (true, m', st') /\
     ok m' st' (upd ls o l) ((o, b) :: live) /\ kept start live m m').
Proof.
  intros Hok Ho. destruct (ok_list_lookup _ _ _ _ o Hok Ho) as (h & Hi & Hh & Hc).
  pose proof (ok_list_NoDup _ _ _ _ o Hok Ho) as Hnd.
  unfold remove_specific. rewrite Hi. cbn [obind].
  destruct (remove_walk_spec (S (base.size m)) m st (addr b) o None h (addr <$> ls o))
    as [[Hn ->] | (l1 & l2 & w & Hl & Hn & Hw & Hc' & ->)]; [done | apply chain_length in Hc; [lia | done] | |].
  - left. split; [|done]. intros Hb. apply Hn. by apply list_elem_of_fmap_2.
  - right. pose proof Hl as Hl0. apply fmap_app_inv in Hl as (k1 & k2 & -> & Hk2 & Hls).
    destruct k2 as [|b' k2]; [done|]. injection Hk2 as Hb' ->. apply unit_addr_inj in Hb' as <-.
    exists (k1 ++ k2). assert (Hin : b ∈ ls o) by (rewrite Hls; set_solver).
    assert (Hperm : free_of (upd ls o (k1 ++ k2)) ++ (o, b) :: live ≡ₚ free_of ls ++ live).
    { rewrite (free_of_take ls o k1 k2 b Ho Hls). simpl. by rewrite Permutation_middle. }
    destruct (decide (k1 = [])) as [->|Hne].
    + simpl. do 2 eexists. split; [done|]. split; [done|]. split; [|apply kept_refl].
      apply (ok_relink m m st ls live); [done | done | done | | done].
      intros k h' _ Hk. by apply (ho_chain _ _ _ _ _ _ Hok).
    + destruct (exists_last Hne) as (k1' & p & ->). rewrite fmap_app. change (addr <$> [p]) with [addr p]. rewrite last_snoc.
      do 2 eexists. split; [done|]. split; [done|]. rewrite <- app_assoc in Hls. simpl in Hls.
      assert (Hp : (o, p) ∈ free_of ls) by (apply elem_of_free; split; [done | rewrite Hls; set_solver]). split.
      * assert (Est : st = with_free_lists st (<[o := h]> (free_lists st))) by (rewrite list_insert_id by done; by destruct st).
        rewrite Est.
        apply (ok_relink m _ st ls live); [done | done | | | done].
        -- rewrite <- app_assoc, fmap_app. simpl. apply chain_unlink with (b := addr b); [|  | done].
           ++ rewrite Hls, fmap_app in Hc. exact Hc.
           ++ rewrite Hls, fmap_app in Hnd. exact Hnd.
        -- intros k h' Hk Hlk. apply chain_write; [by apply (ho_chain _ _ _ _ _ _ Hok)|].
           intros (g & Heq & Hg)%list_elem_of_fmap. apply unit_addr_inj in Heq as <-.
           apply lookup_lt_Some in Hlk. rewrite (ho_len _ _ _ _ _ _ Hok) in Hlk.
           apply (ok_orders_apart _ _ _ _ o k p Hok Hp Hk). apply elem_of_free. split; [lia | done].
      * apply elem_of_Permutation in Hp as [r Hr].
        apply (write_kept start (free_of ls ++ live) live r (o, p)); [intros x; by eapply ok_cover|].
        rewrite Hr. simpl. solve_Permutation.
Qed.

(** *** Joining *)

Lemma buddy_addr_spec (m : words) (st : BuddyHeapAllocator) (ls : nat -> list Z) (live : list block) (o : nat) (f : Z) :
  ok m st ls ((o, f) :: live) -> buddy_addr st (addr f) o = addr (buddy f o).
Proof using place.
  intros Hok. destruct (ok_block _ _ _ _ (o, f) Hok) as ((_ & Hf & _ & Hd) & Ho & Hu); [set_solver|]. cbn [fst snd] in *.
  pose proof (hp_start _ _ place). pose proof (hp_end _ _ place). pose proof (hp_units _ _ place). pose proof (pow2_pos o).
  assert (Hb : 0 <= buddy f o <= units).
  { destruct (buddy_cases f o Hf Hd) as [[_ ->] | [Hd' ->]]; [lia|].
    destruct Hd as [q ->], Hd' as [j Hj]. rewrite pow2_S in Hj. set (p := 2 ^ Z.of_nat o) in *.
    assert (q = 1 + 2 * j) by nia. assert (0 <= q) by nia. assert (0 <= (q - 1) * p) by (apply Z.mul_nonneg_nonneg; lia). lia. }
  unfold buddy_addr. rewrite (ho_start _ _ _ _ _ _ Hok), order_size by done. unfold unit_addr, MIN_BLOCK_SIZE in *.
  replace (start + 64 * f - start) with (64 * f) by lia. rewrite (wrap64_small (64 * f)) by (unfold is_u64; lia).
  assert (Hx : Z.lxor (64 * f) (64 * 2 ^ Z.of_nat o) = 64 * buddy f o).
  { unfold buddy. rewrite shiftl_1_pow2. rewrite !(Z.mul_comm 64). change 64 with (2 ^ 6).
    rewrite <- !Z.shiftl_mul_pow2 by lia. symmetry. apply Z.shiftl_lxor. }
  rewrite Hx. apply wrap64_small. unfold is_u64. lia.
Qed.

(** Joining a block in hand with its free buddy. *)
Lemma join_spec (m : words) (st : BuddyHeapAllocator) (ls : nat -> list Z) (live : list block) (o : nat) (f : Z) :
  (o < MAX_ORDER)%nat -> ok m st ls ((o, buddy f o) :: (o, f) :: live) ->
  ok m st ls ((S o, Z.min f (buddy f o)) :: live).
Proof.
  intros Ho Hok. destruct (ok_block _ _ _ _ (o, f) Hok) as (Hf & _ & Hu1); [set_solver|].
  destruct (ok_block _ _ _ _ (o, buddy f o) Hok) as (Hb & _ & Hu2); [set_solver|]. cbn [fst snd] in *.
  destruct (merge_buddies f o) as [Hm Hs]; [unfold MAX_ORDER, Buddy.MAX_ORDER in *; lia | done | done |].
  replace (if f <? buddy f o then f else buddy f o) with (Z.min f (buddy f o)) in Hm, Hs by (destruct (Z.ltb_spec f (buddy f o)); lia).
  apply (ok_same m st ls ((o, buddy f o) :: (o, f) :: live)); [done | |].
  - pose proof (ho_blocks _ _ _ _ _ _ Hok) as Hall. apply Forall_app in Hall as [_ Hall].
    inversion Hall as [|? ? _ Hall']; subst. inversion Hall' as [|? ? _ Hall'']; subst. constructor; [|done].
    split; [done|]. cbn [fst snd]. split; [lia|]. rewrite pow2_S.
    destruct Hf as (_ & Hf & _ & Hd). cbn [fst snd] in *. destruct (buddy_cases f o Hf Hd) as [[_ E] | [_ E]]; rewrite E in *; lia.
  - intros x. rewrite <- (proj1 (Hs live) x). simpl. lia.
Qed.

Lemma coalesce_loop_ok (n : nat) (m : words) (st : BuddyHeapAllocator) (ls : nat -> list Z) (live : list block) (o : nat) (f : Z) :
  ok m st ls ((o, f) :: live) -> (o + n = MAX_ORDER)%nat ->
  exists m' st' ls' f' o', coalesce_loop n m st (addr f) o = Ret (m', st', addr f', o') /\
    ok m' st' ls' ((o', f') :: live) /\ kept start live m m'.
Proof using place.
  revert m st ls o f. induction n as [|n IH]; intros m st ls o f Hok Hn.
  - exists m, st, ls, f, o. split; [done|]. split; [done | apply kept_refl].
  - cbn [coalesce_loop]. rewrite (buddy_addr_spec m st ls live) by done.
    destruct (remove_specific_spec m st ls ((o, f) :: live) o (buddy f o) Hok)
      as [[_ ->] | (l & m' & st' & _ & -> & Hok' & Hk)]; [lia | |]; cbn [obind negb].
    + exists m, st, ls, f, o. split; [done|]. split; [done | apply kept_refl].
    + replace (Z.min (addr f) (addr (buddy f o))) with (addr (Z.min f (buddy f o))) by (unfold unit_addr, MIN_BLOCK_SIZE; lia).
      destruct (IH m' st' (upd ls o l) (S o) (Z.min f (buddy f o))) as (m2 & st2 & ls2 & f2 & o2 & -> & Hok2 & Hk2);
        [apply join_spec; [lia | done] | lia |].
      exists m2, st2, ls2, f2, o2. split; [done|]. split; [done|]. eapply kept_trans; [|exact Hk2].
      intros b a Hb. apply Hk. by right.
Qed.

Lemma coalesce_ok (m : words) (st : BuddyHeapAllocator) (ls : nat -> list Z) (live : list block) (o : nat) (f : Z) :
  ok m st ls ((o, f) :: live) ->
  exists m' st' ls', coalesce m st (addr f) o = Ret (m', st') /\ ok m' st' ls' live /\ kept start live m m'.
Proof using place.
  intros Hok. destruct (ok_block _ _ _ _ (o, f) Hok) as (_ & Ho & _); [set_solver|]. cbn [fst snd] in Ho.
  unfold coalesce. destruct (coalesce_loop_ok (MAX_ORDER - o) m st ls live o f Hok) as (m1 & st1 & ls1 & f1 & o1 & -> & Hok1 & Hk1);
    [lia|]. cbn [obind]. destruct (add_spec m1 st1 ls1 live o1 f1 Hok1) as (m2 & st2 & -> & Hok2 & Hk2).
  exists m2, st2, (upd ls1 o1 (f1 :: ls1 o1)). split; [done|]. split; [done|]. by eapply kept_trans.
Qed.

(** *** Cutting *)

Lemma cut_spec (m : words) (st : BuddyHeapAllocator) (ls : nat -> list Z) (live : list block) (o : nat) (f : Z) :
  ok m st ls ((S o, f) :: live) -> ok m st ls ((o, f + 2 ^ Z.of_nat o) :: (o, f) :: live).
Proof.
  intros Hok. destruct (ok_block _ _ _ _ (S o, f) Hok) as (Hb & Ho & Hu); [set_solver|]. cbn [fst snd] in *.
  destruct (block_ok_halves o f Hb) as [H1 H2]. rewrite pow2_S in Hu. pose proof (pow2_pos o).
  apply (ok_same m st ls ((S o, f) :: live)); [done | |].
  - pose proof (ho_blocks _ _ _ _ _ _ Hok) as Hall. apply Forall_app in Hall as [_ Hall].
    inversion Hall as [|? ? _ Hall']; subst. constructor; [|constructor; [|done]].
    + split; [exact H2 | cbn [fst snd]; lia].
    + split; [exact H1 | cbn [fst snd]; lia].
  - intros x. rewrite (proj1 (halve o f live) x). simpl. lia.
Qed.

Lemma split_ok (n : nat) (m : words) (st : BuddyHeapAllocator) (ls : nat -> list Z) (live : list block) (o : nat) (f : Z) :
  ok m st ls (((o + n)%nat, f) :: live) ->
  exists m' st' ls', split_loop n m st (addr f) o = Ret (m', st') /\ ok m' st' ls' ((o, f) :: live) /\
    kept start ((o, f) :: live) m m'.
Proof using place.
  revert m st ls. induction n as [|n IH]; intros m st ls Hok.
  - rewrite Nat.add_0_r in Hok. exists m, st, ls. split; [done|]. split; [done | apply kept_refl].
  - rewrite Nat.add_succ_r in Hok. destruct (ok_block _ _ _ _ (S (o + n), f) Hok) as ((_ & Hf & _) & Ho & Hu);
      [apply elem_of_app; right; left|]. cbn [fst snd] in *.
    apply cut_spec in Hok. cbn [split_loop].
    assert (Ha : addr f +w order_to_size (o + n) = addr (f + 2 ^ Z.of_nat (o + n))).
    { rewrite order_size by lia. rewrite pow2_S in Hu. pose proof (pow2_pos (o + n)). pose proof (hp_start _ _ place).
      pose proof (hp_end _ _ place). unfold unit_addr, MIN_BLOCK_SIZE in *. rewrite wrap64_small by (unfold is_u64; lia). lia. }
    rewrite Ha. destruct (add_spec m st ls _ (o + n) _ Hok) as (m1 & st1 & -> & Hok1 & Hk1). cbn [obind].
    destruct (IH m1 st1 _ Hok1) as (m2 & st2 & ls2 & -> & Hok2 & Hk2).
    exists m2, st2, ls2. split; [done|]. split; [done|]. eapply kept_trans; [|exact Hk2].
    intros b a Hb Hin. apply (Hk1 (if decide (b = (o, f)) then ((o + n)%nat, f) else b)).
    + case_decide; [left|]. set_solver.
    + case_decide as E; [|done]. subst b. unfold in_bytes in *. cbn [fst snd] in *. unfold unit_addr, MIN_BLOCK_SIZE in *.
      assert (2 ^ Z.of_nat o <= 2 ^ Z.of_nat (o + n)) by (apply Z.pow_le_mono_r; lia). lia.
Qed.

End Operations.

(** ** Orders *)

Lemma size_to_order_spec (n : Z) :
  1 <= n <= 2 ^ 63 ->
  n <= MIN_BLOCK_SIZE * 2 ^ Z.of_nat (size_to_order n) /\
  forall o, n <= MIN_BLOCK_SIZE * 2 ^ Z.of_nat o -> (size_to_order n <= o)%nat.
Proof.
  intros Hn. unfold size_to_order, MIN_BLOCK_SIZE.
  assert (Hw : n +w 64 -w 1 = n + 63).
  { rewrite (wrap64_small (n + 64)) by (unfold is_u64, u64_modulus; lia).
    rewrite wrap64_small by (unfold is_u64, u64_modulus; lia). lia. }
  rewrite Hw. set (b := (n + 63) / 64).
  assert (Hb : 64 * (b - 1) < n <= 64 * b) by (unfold b; pose proof (Z.div_mod (n + 63) 64); pose proof (Z.mod_pos_bound (n + 63) 64); lia).
  assert (Hb1 : 1 <= b <= 2 ^ 63) by lia. destruct (frames_to_order_least b Hb1) as [H1 H2].
  replace (if b <=? 1 then 0%nat else Z.to_nat (64 - leading_zeros64 (b - 1))) with (frames_to_order b).
  - split; [lia|]. intros o Ho. apply H2. lia.
  - unfold frames_to_order. destruct (Z.eqb_spec b 0); [lia|]. destruct (Z.leb_spec b 1); [|done].
    assert (b = 1) as -> by lia. done.
Qed.

Lemma layout_order_spec (l : Layout) :
  layout_ok l ->
  Z.max (layout_size l) (layout_align l) <= MIN_BLOCK_SIZE * 2 ^ Z.of_nat (layout_order l).
Proof.
  intros [(k & Hk & Ha) Hs]. unfold layout_order.
  assert (2 ^ k <= 2 ^ 32) by (apply Z.pow_le_mono_r; lia).
  assert (0 < 2 ^ k) by (apply Z.pow_pos_nonneg; lia).
  destruct (size_to_order_spec (Z.max (Z.max (layout_size l) (layout_align l)) MIN_BLOCK_SIZE)) as [Hmax _];
    [unfold MIN_BLOCK_SIZE, ISIZE_MAX in *; lia | lia].
Qed.

(** A block of at least the alignment starts at a multiple of it. *)
Lemma block_aligned (start units : Z) (o : nat) (f a k : Z) :
  heap_place start units -> heap_block_ok units (o, f) -> 0 <= k -> a = 2 ^ k -> a <= MIN_BLOCK_SIZE * 2 ^ Z.of_nat o ->
  (a | unit_addr start f).
Proof.
  intros Hpl ((_ & _ & _ & Hd) & Ho & _) Hk -> Hle. cbn [fst snd] in *.
  unfold unit_addr, MIN_BLOCK_SIZE in *. change 64 with (2 ^ 6) in *. rewrite <- Z.pow_add_r in Hle by lia.
  apply Z.pow_le_mono_r_iff in Hle; [|lia|lia].
  assert (Hdiv : forall i j, 0 <= i <= j -> (2 ^ i | 2 ^ j)).
  { intros i j Hij. exists (2 ^ (j - i)). rewrite <- Z.pow_add_r by lia. f_equal. lia. }
  apply Z.divide_add_r.
  - etrans; [|exact (hp_align _ _ Hpl)]. apply Hdiv. unfold MAX_ORDER in Ho. lia.
  - etrans; [apply (Hdiv k (6 + Z.of_nat o)); lia|]. rewrite Z.pow_add_r by lia.
    by apply Z.mul_divide_mono_l.
Qed.

Section Heap.
Context (start units : Z) (place : heap_place start units).

#[local] Abbreviation ok := (heap_ok start units).
#[local] Abbreviation addr := (unit_addr start).

Lemma allocate_scan_ok (n lo o : nat) (m : words) (st : BuddyHeapAllocator) (ls : nat -> list Z) (live : list block) :
  ok m st ls live -> (o <= lo)%nat -> (lo + n = MAX_ORDER + 1)%nat ->
  (allocate_scan m st o (seq lo n) = Ret (0, m, st) /\ forall k, (lo <= k <= MAX_ORDER)%nat -> ls k = []) \/
  (exists f m' st' ls', allocate_scan m st o (seq lo n) = Ret (addr f, m', st') /\
     ok m' st' ls' ((o, f) :: live) /\ kept start live m m').
Proof using place.
  revert lo. induction n as [|n IH]; intros lo Hok Hlo Hn; [left; split; [done | lia]|]. cbn [seq allocate_scan].
  destruct (remove_first_spec start units m st ls live lo Hok) as [[Hnil ->] | (f & l & st1 & Hl & -> & Hok1)]; [lia | |]; cbn [obind].
  - destruct (IH (S lo)) as [[-> Hnone] | Hsome]; [done | lia | lia | |by right].
    left. split; [done|]. intros k Hk. destruct (decide (k = lo)) as [->|]; [done | apply Hnone; lia].
  - right. unfold split_block. replace lo with (o + (lo - o))%nat in Hok1 by lia.
    destruct (split_ok start units place (lo - o) m st1 _ live o f Hok1) as (m2 & st2 & ls2 & -> & Hok2 & Hk).
    exists f, m2, st2, ls2. split; [done|]. split; [done|]. intros b a Hb. apply Hk. by right.
Qed.

Lemma allocate_ok (m : words) (st : BuddyHeapAllocator) (ls : nat -> list Z) (live : list block) (l : Layout) :
  ok m st ls live ->
  (allocate m st l = Ret (0, m, st) /\ forall o f, (layout_order l <= o)%nat -> (o, f) ∉ free_of ls) \/
  (exists f m' st' ls', allocate m st l = Ret (addr f, m', st') /\
     ok m' st' ls' ((layout_order l, f) :: live) /\ kept start live m m').
Proof using place.
  intros Hok. unfold allocate. rewrite (ho_init _ _ _ _ _ _ Hok). cbn [negb].
  destruct (Nat.ltb_spec MAX_ORDER (layout_order l)) as [Hlt|Hle].
  - left. split; [done|]. intros o f Ho [Hmax _]%elem_of_free. lia.
  - destruct (allocate_scan_ok (MAX_ORDER + 1 - layout_order l) (layout_order l) (layout_order l) m st ls live) as [[-> Hnone] | Hsome];
      [done | lia | lia | |by right].
    left. split; [done|]. intros o f Ho [Hmax Hf]%elem_of_free. rewrite Hnone in Hf by lia. by apply elem_of_nil in Hf.
Qed.

Lemma ok_perm (m : words) (st : BuddyHeapAllocator) (ls : nat -> list Z) (live live' : list block) :
  live ≡ₚ live' -> ok m st ls live -> ok m st ls live'.
Proof.
  intros Hp Hok. apply (ok_same start units m st ls live); [done | |].
  - rewrite <- Hp. pose proof (ho_blocks _ _ _ _ _ _ Hok) as H. by apply Forall_app in H as [_ ?].
  - intros x. by rewrite Hp.
Qed.

Lemma deallocate_ok (m : words) (st : BuddyHeapAllocator) (ls : nat -> list Z) (live : list block) (f : Z) (l : Layout) :
  ok m st ls ((layout_order l, f) :: live) ->
  exists m' st' ls', deallocate m st (addr f) l = Ret (m', st') /\ ok m' st' ls' live /\ kept start live m m'.
Proof using place.
  intros Hok. destruct (ok_block start units _ _ _ _ (layout_order l, f) Hok) as ((_ & Hf & _) & _); [set_solver|].
  unfold deallocate. rewrite (ho_init _ _ _ _ _ _ Hok).
  destruct (Z.eqb_spec (addr f) 0) as [E|_]; [by apply (unit_addr_pos start units place f Hf) in E|].
  cbn [orb negb]. by apply (coalesce_ok start units place m st ls).
Qed.

End Heap.

(** ** Start-up *)

Lemma place_le (start units c : Z) : heap_place start units -> 0 <= c <= units -> heap_place start c.
Proof. intros [? ? ? ?] Hc. split; [done | done | lia | unfold MIN_BLOCK_SIZE in *; lia]. Qed.

(** A heap grows by a block at its end. *)
Lemma ok_extend (start c : Z) (m : words) (st : BuddyHeapAllocator) (ls : nat -> list Z) (o : nat) :
  0 <= c -> c + 2 ^ Z.of_nat o <= FRAME_LIMIT -> (o <= MAX_ORDER)%nat -> (2 ^ Z.of_nat o | c) ->
  heap_ok start c m st ls [] -> heap_ok start (c + 2 ^ Z.of_nat o) m st ls [(o, c)].
Proof.
  intros Hc Hlim Ho Hd [H1 H2 H3 H4 H5 H6]. pose proof (pow2_pos o). rewrite app_nil_r in H5. split; try done.
  - apply Forall_app. split.
    + eapply Forall_impl; [exact H5|]. intros b (Hb & Hb1 & Hb2). split; [done|]. split; [done | lia].
    + constructor; [|constructor]. split; [|cbn [fst snd]; lia].
      split; cbn [fst snd]; [unfold Buddy.MAX_ORDER, MAX_ORDER in *; lia | done].
  - intros x. rewrite cover_app. specialize (H6 x). rewrite app_nil_r in H6. rewrite H6. cbn [cover].
    unfold in_block. cbn [fst snd].
    destruct (Z.leb_spec 0 x), (Z.ltb_spec x c), (Z.leb_spec c x), (Z.ltb_spec x (c + 2 ^ Z.of_nat o)); simpl; lia.
Qed.

Lemma lower_order_ok (start size c : Z) (o : nat) :
  heap_place start (size / MIN_BLOCK_SIZE) -> 0 <= c -> unit_addr start c + MIN_BLOCK_SIZE <= start + size -> (o <= MAX_ORDER)%nat ->
  let r := lower_order (unit_addr start c) (start + size) o in
  (r <= MAX_ORDER)%nat /\ (2 ^ Z.of_nat r | c) /\ c + 2 ^ Z.of_nat r <= size / MIN_BLOCK_SIZE /\
  unit_addr start c mod order_to_size r = 0.
Proof.
  intros Hpl Hc Hfit. pose proof (hp_start _ _ Hpl). pose proof (hp_end _ _ Hpl).
  assert (Hsz : size / MIN_BLOCK_SIZE * 64 <= size < size / MIN_BLOCK_SIZE * 64 + 64)
    by (unfold MIN_BLOCK_SIZE; pose proof (Z.div_mod size 64); pose proof (Z.mod_pos_bound size 64); lia).
  set (u := size / MIN_BLOCK_SIZE) in *.
  assert (Hal : forall k, (k <= MAX_ORDER)%nat -> (order_to_size k | start)).
  { intros k Hk. rewrite order_size by done. unfold MIN_BLOCK_SIZE. change 64 with (2 ^ 6). rewrite <- Z.pow_add_r by lia.
    etrans; [|exact (hp_align _ _ Hpl)]. exists (2 ^ (16 - Z.of_nat k)). rewrite <- Z.pow_add_r by (unfold MAX_ORDER in Hk; lia). f_equal. lia. }
  induction o as [|o IH]; intros Ho; cbn [lower_order].
  - split; [lia|]. change (2 ^ Z.of_nat 0) with 1. split; [apply Z.divide_1_l|].
    split; [unfold unit_addr, MIN_BLOCK_SIZE in *; lia|]. apply Z.mod_divide; [done|].
    unfold unit_addr. apply Z.divide_add_r; [by apply Hal|]. exists c. change (order_to_size 0) with MIN_BLOCK_SIZE. lia.
  - pose proof (order_size (S o) Ho) as Hos.
    assert (2 ^ Z.of_nat (S o) <= 2 ^ 16) by (apply Z.pow_le_mono_r; unfold MAX_ORDER in Ho; lia).
    pose proof (pow2_pos (S o)). rewrite (wrap64_small (unit_addr start c + _))
      by (unfold is_u64; rewrite Hos; unfold unit_addr, MIN_BLOCK_SIZE in *; lia).
    destruct (Z.eqb_spec (unit_addr start c mod order_to_size (S o)) 0) as [E|E]; cbn [andb]; [|apply IH; lia].
    destruct (Z.leb_spec (unit_addr start c + order_to_size (S o)) (start + size)) as [Hle|Hgt]; [|apply IH; lia].
    split; [done|]. split; [|split; [|done]].
    + apply Z.mod_divide in E; [|rewrite Hos; unfold MIN_BLOCK_SIZE; lia].
      unfold unit_addr in E. apply Z.divide_add_cancel_r in E; [|by apply Hal]. rewrite Hos in E.
      apply Z.mul_divide_cancel_l in E; [done | done].
    + rewrite Hos in Hle. unfold unit_addr, MIN_BLOCK_SIZE in *. lia.
Qed.

Lemma init_loop_ok (start size : Z) (fuel : nat) (m : words) (st : BuddyHeapAllocator) (ls : nat -> list Z) (c : Z) :
  heap_place start (size / MIN_BLOCK_SIZE) -> heap_ok start c m st ls [] -> 0 <= c <= size / MIN_BLOCK_SIZE ->
  size / MIN_BLOCK_SIZE - c < Z.of_nat fuel ->
  exists m' st' ls', init_loop fuel m st (unit_addr start c) (start + size) = Ret (m', st') /\
    heap_ok start (size / MIN_BLOCK_SIZE) m' st' ls' [].
Proof.
  intros Hpl. pose proof (hp_start _ _ Hpl). pose proof (hp_end _ _ Hpl). pose proof (hp_units _ _ Hpl).
  assert (Hsz : size / MIN_BLOCK_SIZE * 64 <= size < size / MIN_BLOCK_SIZE * 64 + 64)
    by (unfold MIN_BLOCK_SIZE; pose proof (Z.div_mod size 64); pose proof (Z.mod_pos_bound size 64); lia).
  revert m st ls c. induction fuel as [|fuel IH]; intros m st ls c Hok Hc Hf; [lia|]. cbn [init_loop].
  destruct (Z.ltb_spec (unit_addr start c) (start + size)) as [Hlt|Hge].
  - destruct (Z.ltb_spec (start + size - unit_addr start c) MIN_BLOCK_SIZE) as [Hend|Hroom].
    + assert (c = size / MIN_BLOCK_SIZE) as -> by (unfold unit_addr, MIN_BLOCK_SIZE in *; lia). by exists m, st, ls.
    + destruct (lower_order_ok start size c (Nat.min (size_to_order (start + size - unit_addr start c)) MAX_ORDER))
        as (Ho & Hd & Hfit & Hmod); [done | lia | lia | lia |].
      set (o := lower_order _ _ _) in *. rewrite Hmod. cbn [Z.eqb negb]. pose proof (pow2_pos o).
      assert (Hnext : unit_addr start c +w order_to_size o = unit_addr start (c + 2 ^ Z.of_nat o)).
      { rewrite order_size by done. unfold unit_addr, MIN_BLOCK_SIZE in *. rewrite wrap64_small by (unfold is_u64; lia). lia. }
      rewrite Hnext. destruct (Z.leb_spec (unit_addr start (c + 2 ^ Z.of_nat o)) (start + size)) as [_|Hbad];
        [|unfold unit_addr, MIN_BLOCK_SIZE in *; lia].
      apply (ok_extend start c m st ls o) in Hok; [|lia|lia|done|done].
      destruct (add_spec start (c + 2 ^ Z.of_nat o)) with (m := m) (st := st) (ls := ls) (live := @nil block) (o := o) (f := c)
        as (m1 & st1 & -> & Hok1 & _); [apply (place_le _ _ _ Hpl); lia | done |]. cbn [obind].
      by apply (IH m1 st1 _ _ Hok1); [lia | lia].
  - assert (c = size / MIN_BLOCK_SIZE) as -> by (unfold unit_addr, MIN_BLOCK_SIZE in *; lia). by exists m, st, ls.
Qed.

Lemma init_ok (start size : Z) (m : words) :
  heap_place start (size / MIN_BLOCK_SIZE) -> 0 <= size ->
  exists m' st' ls, init m BuddyHeapAllocator_new start size = Ret (m', st') /\
    heap_ok start (size / MIN_BLOCK_SIZE) m' st' ls [].
Proof.
  intros Hpl Hs. pose proof (hp_units _ _ Hpl). unfold init.
  assert (Hend : start +w size = start + size).
  { pose proof (hp_start _ _ Hpl). pose proof (hp_end _ _ Hpl). apply wrap64_small. unfold is_u64, MIN_BLOCK_SIZE in *.
    pose proof (Z.div_mod size 64). pose proof (Z.mod_pos_bound size 64). lia. }
  rewrite Hend. set (st1 := mkHeap _ _ _ _ _).
  pose proof (init_loop_ok start size (Z.to_nat (2 * (size / MIN_BLOCK_SIZE) + 2)) m st1 (fun _ => []) 0 Hpl) as Hloop.
  replace (unit_addr start 0) with start in Hloop by (unfold unit_addr; lia). apply Hloop; [|lia | lia].
  split; [done | done | done | | |].
  - intros o h Ho. unfold st1 in Ho. cbn [free_lists] in Ho. rewrite list_lookup_fmap in Ho.
    destruct (free_lists BuddyHeapAllocator_new !! o); simpl in Ho; [by simplify_eq | done].
  - constructor.
  - intros x. change (cover _ x) with 0. destruct (Z.leb_spec 0 x), (Z.ltb_spec x 0); (done || lia).
Qed.

(** ** The theorems *)

Section Theorems.
Context (start units : Z) (place : heap_place start units).

(** an allocation never panics.  A pointer it returns starts a block that was
    free and belongs to no other allocation, is aligned as asked and big enough;
    the contents of all other allocations are kept.  It fails only when no free
    block is big enough, and then changes nothing. *)
Theorem heap_allocate_correct (m : words) (st : BuddyHeapAllocator) (ls : nat -> list Z) (live : list block) (l : Layout) :
  heap_ok start units m st ls live -> layout_ok l ->
  exists p m' st', allocate m st l = Ret (p, m', st') /\
    (if decide (p = 0) then
       m' = m /\ st' = st /\ forall o f, (o, f) ∉ free_of ls \/ MIN_BLOCK_SIZE * 2 ^ Z.of_nat o < Z.max (layout_size l) (layout_align l)
     else
       exists f ls', p = unit_addr start f /\ heap_ok start units m' st' ls' ((layout_order l, f) :: live) /\
         (layout_align l | p) /\ layout_size l <= MIN_BLOCK_SIZE * 2 ^ Z.of_nat (layout_order l) /\
         start <= p /\ p + layout_size l <= start + MIN_BLOCK_SIZE * units /\
         kept start live m m').
Proof using place.
  intros Hok Hl. pose proof (layout_order_spec l Hl) as Hsize. pose proof (hp_start _ _ place).
  destruct (allocate_ok start units place m st ls live l Hok) as [[-> Hnone] | (f & m' & st' & ls' & -> & Hok' & Hk)].
  - exists 0, m, st. split; [done|]. rewrite decide_True by done. split; [done|]. split; [done|]. intros o f.
    destruct (decide (layout_order l <= o)%nat) as [Ho|Ho]; [left; by apply Hnone|].
    destruct (decide ((o, f) ∈ free_of ls)) as [Hin|]; [right|by left].
    destruct Hl as [(k & Hk & Ha) Hs]. assert (0 < 2 ^ k) by (apply Z.pow_pos_nonneg; lia).
    assert (2 ^ k <= 2 ^ 32) by (apply Z.pow_le_mono_r; lia). pose proof (pow2_pos o).
    unfold layout_order in Ho.
    set (n := Z.max (Z.max (layout_size l) (layout_align l)) MIN_BLOCK_SIZE) in *.
    destruct (size_to_order_spec n) as [_ Hleast]; [unfold n, MIN_BLOCK_SIZE, ISIZE_MAX in *; lia|].
    apply Z.nle_gt. intros Hle. apply Ho, Hleast. unfold n, MIN_BLOCK_SIZE in *. lia.
  - assert (Hb : heap_block_ok units (layout_order l, f)) by (apply (ok_block start units _ _ _ _ _ Hok'); set_solver).
    pose proof Hb as ((_ & Hf & _) & _ & Hu). cbn [fst snd] in Hf, Hu.
    exists (unit_addr start f), m', st'. split; [done|].
    rewrite decide_False by (by apply (unit_addr_pos start units)). exists f, ls'. split; [done|]. split; [done|].
    destruct Hl as [(k & Hk1 & Ha) Hs].
    split; [apply (block_aligned start units (layout_order l) f _ k); [done | done | lia | done | lia]|].
    split; [lia|]. unfold unit_addr, MIN_BLOCK_SIZE in *. split; [lia|]. split; [lia | done].
Qed.

(** a deallocation of a block in use never panics: the block, joined with its
    free buddies, is free again, every other allocation stays and keeps its
    contents. *)
Theorem heap_deallocate_correct (m : words) (st : BuddyHeapAllocator) (ls : nat -> list Z) (live live' : list block) (f : Z) (l : Layout) :
  heap_ok start units m st ls live -> live ≡ₚ (layout_order l, f) :: live' ->
  exists m' st' ls', deallocate m st (unit_addr start f) l = Ret (m', st') /\
    heap_ok start units m' st' ls' live' /\ kept start live' m m' /\
    forall x, cover (free_of ls') x = Z.b2z (in_block (layout_order l, f) x) + cover (free_of ls) x.
Proof using place.
  intros Hok Hp. destruct (deallocate_ok start units place m st ls live' f l) as (m' & st' & ls' & Heq & Hok' & Hk);
    [by apply (ok_perm start units m st ls live)|].
  exists m', st', ls'. split; [done|]. split; [done|]. split; [done|]. intros x.
  pose proof (ho_cover _ _ _ _ _ _ Hok x) as H1. pose proof (ho_cover _ _ _ _ _ _ Hok' x) as H2.
  rewrite cover_app in H1, H2. rewrite Hp in H1. cbn [cover] in H1. lia.
Qed.

(** *** The heap in use *)

(** An allocation is its pointer and its layout. *)
Definition alloc_block (a : Z * Layout) : block := (layout_order a.2, (a.1 - start) / MIN_BLOCK_SIZE).
Definition alloc_range (a : Z * Layout) : range := (a.1, MIN_BLOCK_SIZE * 2 ^ Z.of_nat (layout_order a.2)).

Inductive kheap_step : words * BuddyHeapAllocator * list (Z * Layout) -> words * BuddyHeapAllocator * list (Z * Layout) -> Prop :=
| kheap_alloc m st live l p m' st' :
    layout_ok l -> allocate m st l = Ret (p, m', st') -> p <> 0 -> kheap_step (m, st, live) (m', st', (p, l) :: live)
| kheap_fail m st live l m' st' :
    allocate m st l = Ret (0, m', st') -> kheap_step (m, st, live) (m', st', live)
| kheap_dealloc m st live live' p l m' st' :
    live ≡ₚ (p, l) :: live' -> deallocate m st p l = Ret (m', st') -> kheap_step (m, st, live) (m', st', live')
| kheap_write m st live m' :
    (forall a, (forall b, b ∈ live -> ~ in_bytes start (alloc_block b) a) -> m' !! a = m !! a) ->
    kheap_step (m, st, live) (m', st, live).

(** What holds of every reachable state. *)
Record kheap_inv (s : words * BuddyHeapAllocator * list (Z * Layout)) : Prop := {
  ki_ok : exists ls, heap_ok start units s.1.1 s.1.2 ls (alloc_block <$> s.2);
  ki_layout : forall p l, (p, l) ∈ s.2 -> layout_ok l /\ exists f, p = unit_addr start f
}.

Lemma alloc_block_at (f : Z) (l : Layout) : alloc_block (unit_addr start f, l) = (layout_order l, f).
Proof.
  unfold alloc_block, unit_addr, MIN_BLOCK_SIZE. cbn [fst snd]. f_equal.
  replace (start + 64 * f - start) with (f * 64) by lia. by apply Z.div_mul.
Qed.

Lemma write_heap_ok (m m' : words) (st : BuddyHeapAllocator) (ls : nat -> list Z) (live : list block) :
  heap_ok start units m st ls live -> (forall a, (forall b, b ∈ live -> ~ in_bytes start b a) -> m' !! a = m !! a) ->
  heap_ok start units m' st ls live.
Proof.
  intros Hok Hm. pose proof Hok as [H1 H2 H3 H4 H5 H6]. split; try done. intros o h Ho.
  apply (chain_agree m); [by apply H4|]. intros a (f & -> & Hf)%list_elem_of_fmap. apply Hm.
  intros b (r & Hr)%elem_of_Permutation Hin%unit_addr_block.
  assert (Hfree : (o, f) ∈ free_of ls) by (apply elem_of_free; split; [apply lookup_lt_Some in Ho; lia | done]).
  apply elem_of_Permutation in Hfree as [r' Hr'].
  rewrite (cover_distinct (free_of ls ++ live) (r' ++ r) (o, f) b f) in Hin;
    [done | | by eapply ok_cover | apply in_block_head].
  rewrite Hr, Hr'. simpl. solve_Permutation.
Qed.

Lemma kheap_step_inv (s s' : words * BuddyHeapAllocator * list (Z * Layout)) :
  kheap_inv s -> kheap_step s s' -> kheap_inv s'.
Proof using place.
  intros [[ls Hok] Hlay] Hstep. destruct Hstep as [m st live l p m' st' Hl Ha Hp | m st live l m' st' Ha | m st live live' p l m' st' Hp Hd | m st live m' Hm]; cbn [fst snd] in *.
  - destruct (allocate_ok start units place m st ls _ l Hok) as [[Hn _] | (f & m1 & st1 & ls' & Heq & Hok' & _)]; [congruence|].
    rewrite Ha in Heq. simplify_eq. split; cbn [fst snd].
    + exists ls'. rewrite fmap_cons. by rewrite alloc_block_at.
    + intros q l' [[= -> ->] | Hin]%elem_of_cons; [split; [done | by exists f] | by apply Hlay].
  - destruct (allocate_ok start units place m st ls _ l Hok) as [[Hn _] | (f & m1 & st1 & ls' & Heq & Hok' & _)].
    + rewrite Ha in Hn. simplify_eq. split; [by exists ls | done].
    + rewrite Ha in Heq. injection Heq as Heq _ _.
      destruct (ok_block start units _ _ _ _ (layout_order l, f) Hok') as ((_ & Hf & _) & _); [set_solver|].
      symmetry in Heq. by apply (unit_addr_pos start units) in Heq.
  - destruct (Hlay p l) as [Hl (f & ->)]; [rewrite Hp; left|].
    destruct (deallocate_ok start units place m st ls (alloc_block <$> live') f l) as (m1 & st1 & ls' & Heq & Hok' & _).
    { apply (ok_perm start units m st ls (alloc_block <$> live)); [|done]. rewrite Hp, fmap_cons. by rewrite alloc_block_at. }
    rewrite Hd in Heq. simplify_eq. split; [by exists ls'|]. intros q l' Hin. apply Hlay. rewrite Hp. by right.
  - split; [|done]. exists ls. apply (write_heap_ok m); [done|]. intros a Hno. apply Hm. intros b Hb. apply Hno. by apply list_elem_of_fmap_2.
Qed.

Lemma kheap_reachable_inv (s s' : words * BuddyHeapAllocator * list (Z * Layout)) :
  kheap_inv s -> rtc kheap_step s s' -> kheap_inv s'.
Proof using place. intros Hi Hr. induction Hr; [done|]. apply IHHr. by eapply kheap_step_inv. Qed.

(** Blocks that share no unit have byte ranges apart. *)
Lemma blocks_apart (live : list (Z * Layout)) :
  (forall p l, (p, l) ∈ live -> exists f, p = unit_addr start f) ->
  (forall x, cover (alloc_block <$> live) x <= 1) -> all_apart (alloc_range <$> live).
Proof.
  induction live as [|[p l] live IH]; intros Hat Hc; [done|]. split.
  - apply Forall_forall. intros r ([q l'] & -> & Hin)%list_elem_of_fmap.
    destruct (Hat p l) as [f ->]; [left|]. destruct (Hat q l') as [g ->]; [by right|].
    unfold alloc_range, ranges_apart, unit_addr, MIN_BLOCK_SIZE. cbn [fst snd].
    pose proof (pow2_pos (layout_order l)). pose proof (pow2_pos (layout_order l')).
    destruct (decide (f + 2 ^ Z.of_nat (layout_order l) <= g \/ g + 2 ^ Z.of_nat (layout_order l') <= f)) as [?|Hno]; [lia|].
    exfalso. apply elem_of_Permutation in Hin as [r Hr].
    assert (H1 : in_block (layout_order l', g) (Z.max f g) = false).
    { apply (cover_distinct (alloc_block <$> (unit_addr start f, l) :: live) (alloc_block <$> r) (layout_order l, f));
        [rewrite Hr, !fmap_cons; by rewrite !alloc_block_at | apply Hc | apply in_block_spec; lia]. }
    rewrite (proj2 (in_block_spec _ _ _)) in H1 by lia. done.
  - apply IH; [intros q l' Hq; apply (Hat q l'); by right|]. intros x. specialize (Hc x). rewrite fmap_cons in Hc.
    cbn [cover] in Hc. destruct (in_block _ _); cbn [Z.b2z] in Hc; lia.
Qed.

End Theorems.

(** C7: a kernel heap that starts at a multiple of 4 MiB, the greatest block, as the
    one [memory.rs] sets up does, has at most 2^58 bytes and ends 8 MiB or more below the top of the address
    space is safe: after [init], along any interleaving of
    allocations, deallocations and writes of the owners into their allocations,
    the allocations lie in the heap, apart from each other and aligned; no byte
    of the heap is lost, every 64-byte unit is in exactly one free block or
    allocation; and every allocation can be freed. *)
Theorem kernel_heap_safe (start size : Z) (m0 m1 m : words) (st1 st : BuddyHeapAllocator) (live : list (Z * Layout)) :
  0 < start -> (2 ^ 22 | start) -> 0 <= size / MIN_BLOCK_SIZE <= FRAME_LIMIT -> start + size + 2 ^ 23 < u64_modulus -> 0 <= size ->
  init m0 BuddyHeapAllocator_new start size = Ret (m1, st1) ->
  rtc (kheap_step start) (m1, st1, []) (m, st, live) ->
  all_apart (alloc_range <$> live) /\
  (forall p l, (p, l) ∈ live ->
     start <= p /\ p + layout_size l <= start + size /\ (layout_align l | p) /\ exists m' st', deallocate m st p l = Ret (m', st')) /\
  exists ls, (forall o h, free_lists st !! o = Some h -> chain m h (unit_addr start <$> ls o)) /\
    forall x, 0 <= x < size / MIN_BLOCK_SIZE -> cover (free_of ls) x + cover (alloc_block start <$> live) x = 1.
Proof.
  intros H0 Hal Hun He Hs Hinit Hr.
  assert (Hpl : heap_place start (size / MIN_BLOCK_SIZE)) by (split; try done; pose proof (Z.mul_div_le size MIN_BLOCK_SIZE); unfold MIN_BLOCK_SIZE in *; lia).
  destruct (init_ok start size m0 Hpl Hs) as (m' & st' & ls0 & Heq & Hok0).
  rewrite Hinit in Heq. simplify_eq.
  assert (Hi : kheap_inv start (size / MIN_BLOCK_SIZE) (m', st', [])) by (split; [by exists ls0 | by intros ? ? ?%elem_of_nil]).
  destruct (kheap_reachable_inv start (size / MIN_BLOCK_SIZE) Hpl _ _ Hi Hr) as [[ls Hok] Hlay].
  cbn [fst snd] in *. split; [|split].
  - apply (blocks_apart start); [intros p l Hin; by apply Hlay in Hin as [_ ?]|]. intros x.
    pose proof (ok_cover _ _ _ _ _ _ x Hok) as Hc. rewrite cover_app in Hc. pose proof (cover_nonneg (free_of ls) x). lia.
  - intros p l Hin. destruct (Hlay p l Hin) as [Hl (f & ->)].
    apply elem_of_Permutation in Hin as [live' Hp].
    apply (ok_perm start _ m st ls _ (alloc_block start <$> (unit_addr start f, l) :: live')) in Hok; [|by rewrite Hp].
    rewrite fmap_cons, alloc_block_at in Hok.
    assert (Hb : heap_block_ok (size / MIN_BLOCK_SIZE) (layout_order l, f)) by (apply (ok_block start _ _ _ _ _ _ Hok); set_solver).
    pose proof Hb as ((_ & Hf & _) & _ & Hu). cbn [fst snd] in Hf, Hu. pose proof (layout_order_spec l Hl).
    pose proof (Z.mul_div_le size 64). destruct Hl as [(k & Hk & Ha) Hsz].
    split; [unfold unit_addr, MIN_BLOCK_SIZE; lia|]. split; [unfold unit_addr, MIN_BLOCK_SIZE in *; lia|].
    split; [apply (block_aligned start (size / MIN_BLOCK_SIZE) (layout_order l) f _ k); [done | done | lia | done | lia]|].
    destruct (deallocate_ok start (size / MIN_BLOCK_SIZE) Hpl m st ls _ f l Hok) as (m2 & st2 & _ & Heq & _). by exists m2, st2.
  - exists ls. split; [exact (ho_chain _ _ _ _ _ _ Hok)|]. intros x Hx. rewrite <- cover_app, (ho_cover _ _ _ _ _ _ Hok).
    destruct (Z.leb_spec 0 x), (Z.ltb_spec x (size / MIN_BLOCK_SIZE)); (done || lia).
Qed.

(** ** Concrete heaps *)

(** A heap of 4 KiB at 4 MiB, and the state after one allocation. *)
Definition small_init : outcome (words * BuddyHeapAllocator) := init ∅ BuddyHeapAllocator_new 0x400000 4096.
Definition small_heap : words * BuddyHeapAllocator :=
  match small_init with
  | Ret s => s
  | Panic => (∅, BuddyHeapAllocator_new)
  end.
Definition small_layout : Layout := mkLayout 100 8.
Definition small_heap1 : words * BuddyHeapAllocator :=
  match allocate small_heap.1 small_heap.2 small_layout with
  | Ret (_, m, st) => (m, st)
  | Panic => small_heap
  end.

Lemma small_place : heap_place 0x400000 (4096 / MIN_BLOCK_SIZE).
Proof. split; [done | by exists 1 | |]; vm_compute; (done || split; congruence). Qed.

Lemma small_layout_ok : layout_ok small_layout.
Proof. split; [exists 3; split; [lia | done] | unfold ISIZE_MAX; simpl; lia]. Qed.

Lemma small_ok : exists ls, heap_ok 0x400000 (4096 / MIN_BLOCK_SIZE) small_heap.1 small_heap.2 ls [].
Proof.
  destruct (init_ok 0x400000 4096 ∅ small_place) as (m & st & ls & Heq & Hok); [lia|].
  exists ls. unfold small_heap, small_init. rewrite Heq. exact Hok.
Qed.

Lemma small_alloc : allocate small_heap.1 small_heap.2 small_layout = Ret (0x400000, small_heap1.1, small_heap1.2).
Proof. vm_compute. reflexivity. Qed.

Lemma small_init_eq : init ∅ BuddyHeapAllocator_new 0x400000 4096 = Ret (small_heap.1, small_heap.2).
Proof. vm_compute. reflexivity. Qed.

#[local] Opaque small_heap small_heap1.

Lemma small_ok1 : exists ls,
  heap_ok 0x400000 (4096 / MIN_BLOCK_SIZE) small_heap1.1 small_heap1.2 ls [(layout_order small_layout, 0)].
Proof.
  destruct small_ok as [ls Hok].
  destruct (allocate_ok _ _ small_place _ _ ls [] small_layout Hok) as [[Hn _] | (f & m1 & st1 & ls' & Heq & Hok' & _)];
    rewrite small_alloc in *; [discriminate|].
  destruct (Ret_pair_inj _ _ _ _ Heq) as [Hpair Hst]. pose proof (f_equal fst Hpair) as Hf. pose proof (f_equal snd Hpair) as Hm.
  cbn [fst snd] in Hf, Hm. exists ls'. rewrite Hm, Hst.
  assert (f = 0) as <- by (unfold unit_addr, MIN_BLOCK_SIZE in Hf; lia). exact Hok'.
Qed.

Lemma heap_allocate_correct_witness :
  exists p m' st', allocate small_heap.1 small_heap.2 small_layout = Ret (p, m', st').
Proof.
  destruct small_ok as [ls Hok].
  destruct (heap_allocate_correct 0x400000 (4096 / MIN_BLOCK_SIZE) small_place _ _ ls [] small_layout Hok small_layout_ok)
    as (p & m' & st' & Heq & _).
  exists p, m', st'. exact Heq.
Defined.

Lemma heap_deallocate_correct_witness :
  exists m' st', deallocate small_heap1.1 small_heap1.2 0x400000 small_layout = Ret (m', st').
Proof.
  destruct small_ok1 as [ls Hok].
  destruct (heap_deallocate_correct 0x400000 (4096 / MIN_BLOCK_SIZE) small_place _ _ ls _ [] 0 small_layout Hok (reflexivity _))
    as (m' & st' & _ & Hd & _).
  exists m', st'. exact Hd.
Defined.

Lemma kernel_heap_safe_witness : all_apart (alloc_range <$> [(0x400000, small_layout)]).
Proof.
  apply (kernel_heap_safe 0x400000 4096 ∅ small_heap.1 small_heap1.1 small_heap.2 small_heap1.2 [(0x400000, small_layout)]).
  - lia.
  - exists 1. reflexivity.
  - vm_compute. split; discriminate.
  - reflexivity.
  - lia.
  - exact small_init_eq.
  - apply rtc_once. apply (kheap_alloc _ small_heap.1 small_heap.2 [] small_layout 0x400000);
      [exact small_layout_ok | exact small_alloc | discriminate].
Defined.

(** [init] aligns blocks to absolute addresses, [buddy_addr] pairs them by their
    offset from the start of the heap.  On a heap that does not start at a
    multiple of the block size the two disagree: here two blocks that are not
    buddies are joined, and an allocation aligned to 128 bytes is not. *)
Definition odd_run : outcome Z :=
  let unit_layout := mkLayout 64 64 in
  let! (m, st) := init ∅ BuddyHeapAllocator_new 0x1040 192 in
  let! (p, m, st) := allocate m st unit_layout in
  let! (q, m, st) := allocate m st unit_layout in
  let! (m, st) := deallocate m st q unit_layout in
  let! (m, st) := deallocate m st p unit_layout in
  let! (r, m, st) := allocate m st (mkLayout 128 128) in
  Ret r.

Lemma odd_start_breaks_alignment : odd_run = Ret 0x1040 /\ 0x1040 mod 128 = 64.
Proof. vm_compute. split; reflexivity. Qed.
