(* ===== verification/Boot.v ===== *)
(** * Start-up of the memory subsystem (src/src/memory.rs, lines 17 to 31 and 308 to 470)

    [init] brings up the kernel heap, the frame allocator, the exchange heap and
    the slab caches, in this order.  The caches take frames from the frame
    allocator ([SlabBuddy]) and large layouts from the kernel heap, whose
    instance of [GlobalHeap] is here.  [init_per_cpu], which sets up the
    per-CPU area through machine registers, changes nothing of this state. *)

From stdpp Require Import base list gmap.
From Stdlib Require Import ZArith Lia Permutation.
From S2P Require Import Prelude Ranges Paging Buddy BuddySpec BuddyTheorems Slab SlabTheorems SlabBuddy ExchangeHeap ExchangeHeapTheorems KernelHeap KernelHeapTheorems.

Local Open Scope Z_scope.

(** [GlobalAlloc for LockedBuddyHeap] *)
#[export] Instance kernel_heap : GlobalHeap := {|
  heap_state := words * BuddyHeapAllocator;
  heap_alloc := fun h layout => let! (p, m, st) := KernelHeap.allocate h.1 h.2 layout in Ret (p, (m, st));
  heap_dealloc := fun h ptr layout => KernelHeap.deallocate h.1 h.2 ptr layout
|}.

(** The initial value of the [PHYSICAL_MEMORY_OFFSET] of memory.rs. *)
Definition INITIAL_OFFSET : Z := 0xFFFF800000000000.
Definition HEAP_SIZE : Z := 1024 * 1024.
Definition EXCHANGE_HEAP_SIZE : Z := 4 * 1024 * 1024.

Section Boot.
Context `{P : X86Paging} `{V : X86Virtual}.

(** The statics: the offset of the linear mapping, [MEMORY_INITIALIZED], the
    caches with the frame allocator and the kernel heap, the exchange heap. *)
Record memory := mkMemory {
  phys_offset : Z;
  mem_initialized : bool;
  slab : slab_system;
  xheaders : headers;
  xheap : SimpleFreeListHeap
}.

Definition memory_static : memory :=
  mkMemory INITIAL_OFFSET false
    (mkSlabSystem PER_CORE_CACHES_init (mkEnv ∅ BuddyFrameAllocator_new (∅, BuddyHeapAllocator_new)))
    ∅ heap_empty.

Definition physical_memory_offset (s : memory) : Z := phys_offset s.
Definition set_physical_memory_offset (s : memory) (offset : Z) : memory :=
  mkMemory offset (mem_initialized s) (slab s) (xheaders s) (xheap s).

Definition kernel_heap_start (s : memory) : Z := physical_memory_offset s +w 0x1000000.
Definition exchange_heap_start (s : memory) : Z := physical_memory_offset s +w 0x2000000.

Definition mem_phys_to_virt (s : memory) (phys : PhysAddr) : outcome VirtAddr :=
  virt_addr_new (phys_as_u64 phys +w physical_memory_offset s).
Definition mem_virt_to_phys (s : memory) (virt : VirtAddr) : outcome PhysAddr :=
  phys_addr_new (virt_as_u64 virt -w physical_memory_offset s).

(** 16 MiB to 256 MiB, as (physical address, byte size). *)
Definition get_default_memory_regions : list (Z * Z) := [(0x1000000, 240 * 1024 * 1024)].

Definition with_env (s : memory) (e : env) : memory :=
  mkMemory (phys_offset s) (mem_initialized s) (mkSlabSystem (cores (slab s)) e) (xheaders s) (xheap s).

Definition init_global_heap (s : memory) : outcome memory :=
  let e := senv (slab s) in
  let! h := KernelHeap.init (heap e).1 (heap e).2 (kernel_heap_start s) HEAP_SIZE in
  Ret (with_env s (mkEnv (mem e) (frames e) h)).

Definition memory_init (s : memory) : outcome memory :=
  if mem_initialized s then Ret s
  else
    let s0 := mkMemory (phys_offset s) true (slab s) (xheaders s) (xheap s) in
    let! s1 := init_global_heap s0 in
    let e1 := senv (slab s1) in
    let! fr := init_buddy_allocator (frames e1) get_default_memory_regions in
    let s2 := with_env s1 (mkEnv (mem e1) fr (heap e1)) in
    let '(hs, xh) := heap_init (xheaders s2) (xheap s2) (exchange_heap_start s2) EXCHANGE_HEAP_SIZE in
    Ret (mkMemory (phys_offset s2) (mem_initialized s2) (init_per_core_caches (slab s2) 1) hs xh).

Definition mem_is_initialized (s : memory) : bool := mem_initialized s.

(** A constant answer: nothing is counted. *)
Definition heap_stats : Z * Z := (0, HEAP_SIZE).

End Boot.

(** * The memory subsystem after start-up *)

#[local] Opaque ENTRIES_LEN BITMAP_LEN BuddyFrameAllocator_new BuddyHeapAllocator_new.

(** ** The frame allocator over the default memory map *)

Lemma add_block_room (st : BuddyFrameAllocator) (f : Z) (o : nat) :
  lists_ok (Buddy.free_lists st) -> bitmap_ok st -> block_ok (o, f) ->
  (order_count (Buddy.free_lists st) o < ENTRIES_LEN)%nat ->
  exists st', add_block st f o = Ret st' /\ lists_ok (Buddy.free_lists st') /\ bitmap_ok st' /\
    free_blocks st' ≡ₚ (o, f) :: free_blocks st /\
    (forall k, k <> o -> order_count (Buddy.free_lists st') k = order_count (Buddy.free_lists st) k).
Proof.
  intros Hok Hbm (Ho & Hf & Hlim & _) Hroom. cbn [fst snd] in *. pose proof (pow2_pos o). unfold add_block.
  destruct (push_at_room st o f Hok Ho Hroom) as (fls & -> & Hok' & Hp & Hcnt). cbn [obind]. rewrite shiftl_1_pow2.
  set (st2 := with_free_frames _ _).
  destruct (mark_block_free_spec st2 f (2 ^ Z.of_nat o)) as [[Honly Hlen] _]; [done | done | lia | done |].
  set (st3 := mark_block_free _ _ _) in *.
  assert (Hfl : Buddy.free_lists st3 = fls) by (by rewrite Honly).
  exists st3. split; [done|]. unfold free_blocks. rewrite Hfl.
  split; [done|]. split; [unfold bitmap_ok in *; by rewrite Hlen|]. done.
Qed.

Lemma add_region_turn (fuel : nat) (st st1 : BuddyFrameAllocator) (cur hi : Z) (o : nat) :
  cur < hi -> region_order cur hi = o -> add_block st cur o = Ret st1 ->
  add_region_loop (S fuel) st cur hi = add_region_loop fuel st1 (cur +w Z.shiftl 1 (Z.of_nat o)) hi.
Proof. intros Hlt Ho Ha. cbn [add_region_loop]. destruct (Z.ltb_spec cur hi); [|lia]. by rewrite Ho, Ha. Qed.

Definition default_blocks : list block := [(15%nat, 32768); (14%nat, 16384); (13%nat, 8192); (12%nat, 4096)].

Lemma default_region_blocks (st : BuddyFrameAllocator) :
  lists_ok (Buddy.free_lists st) -> bitmap_ok st ->
  (forall k, order_count (Buddy.free_lists st) k = 0%nat) ->
  exists st', add_region st 4096 65536 = Ret st' /\ free_blocks st' ≡ₚ default_blocks ++ free_blocks st.
Proof.
  intros Hok Hbm Hemp. unfold add_region.
  replace (Z.to_nat (65536 - 4096)) with (S (S (S (S (Z.to_nat 61436))))) by lia.
  assert (HE : (0 < ENTRIES_LEN)%nat) by (apply Nat.ltb_lt; reflexivity).
  assert (Hb : forall o f, (o, f) ∈ default_blocks -> block_ok (o, f)).
  { intros o f H. unfold default_blocks in H. rewrite !elem_of_cons in H.
    destruct H as [[= -> ->]|[[= -> ->]|[[= -> ->]|[[= -> ->]|?%elem_of_nil]]]]; [..|done];
      (split; [apply Nat.leb_le; reflexivity|]; cbn [fst snd]; split; [lia|]; split; [done|]).
    - by exists 1.
    - by exists 1.
    - by exists 1.
    - by exists 1. }
  destruct (add_block_room st 4096 12 Hok Hbm) as (s1 & E1 & Hok1 & Hbm1 & Hp1 & Hc1);
    [apply Hb; apply (bool_decide_unpack _); by vm_compute | rewrite Hemp; lia |].
  destruct (add_block_room s1 8192 13 Hok1 Hbm1) as (s2 & E2 & Hok2 & Hbm2 & Hp2 & Hc2);
    [apply Hb; apply (bool_decide_unpack _); by vm_compute | rewrite Hc1, Hemp by lia; lia |].
  destruct (add_block_room s2 16384 14 Hok2 Hbm2) as (s3 & E3 & Hok3 & Hbm3 & Hp3 & Hc3);
    [apply Hb; apply (bool_decide_unpack _); by vm_compute | rewrite Hc2, Hc1, Hemp by lia; lia |].
  destruct (add_block_room s3 32768 15 Hok3 Hbm3) as (s4 & E4 & Hok4 & Hbm4 & Hp4 & _);
    [apply Hb; apply (bool_decide_unpack _); by vm_compute | rewrite Hc3, Hc2, Hc1, Hemp by lia; lia |].
  rewrite (add_region_turn _ st s1 4096 65536 12) by (reflexivity || done).
  rewrite (add_region_turn _ s1 s2 _ 65536 13) by (reflexivity || done).
  rewrite (add_region_turn _ s2 s3 _ 65536 14) by (reflexivity || done).
  rewrite (add_region_turn _ s3 s4 _ 65536 15) by (reflexivity || done).
  exists s4. split.
  - destruct (Z.to_nat 61436); reflexivity.
  - unfold default_blocks. simpl. by rewrite Hp4, Hp3, Hp2, Hp1.
Qed.

Lemma default_map_ok : memory_map_ok get_default_memory_regions.
Proof.
  split; [repeat constructor; simpl; unfold u64_modulus; lia|].
  intros x. unfold get_default_memory_regions. cbn [region_cover]. destruct (in_range _ _ x); simpl; lia.
Qed.

Lemma new_order_count (k : nat) : order_count (Buddy.free_lists BuddyFrameAllocator_new) k = 0%nat.
Proof.
  unfold order_count. destruct (Buddy.free_lists BuddyFrameAllocator_new !! k) as [fl|] eqn:E; [|done].
  apply lookup_replicate in E as [-> _]. done.
Qed.

Lemma default_fold (st st1 : BuddyFrameAllocator) :
  add_region st 4096 65536 = Ret st1 -> ofold init_region (st, 0) get_default_memory_regions = Ret (st1, 65536).
Proof.
  intros Hreg. unfold get_default_memory_regions. cbn [ofold]. unfold init_region.
  replace (from_phys_addr 0x1000000) with 4096 by reflexivity.
  replace (from_phys_addr (0x1000000 +w 240 * 1024 * 1024)) with 65536 by reflexivity.
  rewrite Hreg. reflexivity.
Qed.

Lemma init_unfold (s : BuddyFrameAllocator) (rs : list (Z * Z)) :
  Buddy.init s rs =
    (let! (st1, total) := ofold init_region (with_bitmap s ((fun _ => u64_max) <$> bitmap s), 0) rs in Ret (with_total_frames st1 total)).
Proof. reflexivity. Qed.

Lemma default_init (s st : BuddyFrameAllocator) :
  lists_ok (Buddy.free_lists s) -> bitmap_ok s -> (forall k, order_count (Buddy.free_lists s) k = 0%nat) ->
  Buddy.init s get_default_memory_regions = Ret st ->
  free_blocks st ≡ₚ default_blocks ++ free_blocks s /\ Buddy.total_frames st = 65536.
Proof.
  intros Hok Hbm Hemp Heq. rewrite init_unfold in Heq. set (st0 := with_bitmap s _) in *.
  destruct (default_region_blocks st0) as (st1 & Hreg & Hp);
    [done | unfold bitmap_ok, st0; simpl; by rewrite length_fmap | done |].
  rewrite (default_fold st0 st1 Hreg) in Heq. cbn [obind] in Heq. apply Ret_inj in Heq as <-. split; [exact Hp | done].
Qed.

Lemma default_boot :
  exists st, Buddy.init BuddyFrameAllocator_new get_default_memory_regions = Ret st /\ buddy_wf st /\
    free_blocks st ≡ₚ default_blocks /\ Buddy.total_frames st = 65536.
Proof.
  destruct (init_spec get_default_memory_regions default_map_ok) as (st & lost & Heq & Hwf & _).
  exists st. split; [exact Heq|]. split; [exact Hwf|].
  rewrite <- (app_nil_r default_blocks), <- (proj2 adding_wf_start).
  apply default_init; [apply lists_ok_new | apply length_replicate | exact new_order_count | exact Heq].
Qed.

(** The blocks of the lowest order are taken first. *)
Lemma default_first_frame (st : BuddyFrameAllocator) :
  buddy_wf st -> free_blocks st ≡ₚ default_blocks -> exists st', Buddy.allocate_order st 0 = Ret (Some 4096, st').
Proof.
  intros Hwf Hp. unfold Buddy.allocate_order.
  destruct (BuddySpec.allocate_scan_spec st 0 0 (Buddy.MAX_ORDER + 1 - 0) Hwf) as [[_ Hnone] | (co & f & fls & st' & Heq & _ & Hok & Hblk & Hemp & _)];
    [lia | lia | intros k Hk; lia | |].
  - exfalso. apply (Hnone 12%nat 4096); [unfold Buddy.MAX_ORDER; lia|]. rewrite Hp. apply (bool_decide_unpack _). by vm_compute.
  - exists st'. rewrite Heq. do 2 f_equal. rewrite Hp in Hblk.
    assert (Hin : (co, f) ∈ default_blocks) by (rewrite Hblk; left).
    assert (H12 : (12%nat, 4096) ∈ (co, f) :: blocks_of fls) by (rewrite <- Hblk; apply (bool_decide_unpack _); by vm_compute).
    apply elem_of_cons in H12 as [E | H12]; [by injection E as <- <-|]. exfalso.
    assert (Hlt : (12 < co)%nat \/ co = 12%nat).
    { unfold default_blocks in Hin. rewrite !elem_of_cons in Hin.
      destruct Hin as [[= -> ->]|[[= -> ->]|[[= -> ->]|[[= -> ->]|?%elem_of_nil]]]]; (lia || done). }
    destruct Hlt as [Hlt|E].
    + specialize (Hemp 12%nat ltac:(lia)). apply elem_of_blocks in H12 as (fl & Hfl & Hf).
      destruct (lists_ok_lookup fls 12 Hok) as (fl' & Hfl' & Hflok); [unfold Buddy.MAX_ORDER; lia|].
      assert (fl' = fl) as -> by congruence. unfold order_count in Hemp. rewrite Hfl, (fl_ok_count fl Hflok) in Hemp.
      apply nil_length_inv in Hemp. rewrite Hemp in Hf. by apply elem_of_nil in Hf.
    + subst co. assert (Hnd : NoDup default_blocks) by (apply (bool_decide_unpack _); by vm_compute).
      rewrite Hblk in Hnd. apply NoDup_cons in Hnd as [Hnd _].
      unfold default_blocks in Hin. rewrite !elem_of_cons in Hin.
      destruct Hin as [[= ->]|[[= ->]|[[= ->]|[[= ->]|?%elem_of_nil]]]]; (done || lia).
Qed.

Lemma default_cover (st : BuddyFrameAllocator) (x : Z) :
  free_blocks st ≡ₚ default_blocks -> cover (free_blocks st) x = region_cover get_default_memory_regions x.
Proof.
  intros ->. unfold default_blocks, get_default_memory_regions. cbn [cover region_cover].
  unfold in_block, in_range, region_lo, region_hi. cbn [fst snd].
  change (from_phys_addr 0x1000000) with 4096. change (from_phys_addr (0x1000000 + 240 * 1024 * 1024)) with 65536.
  change (2 ^ Z.of_nat 12) with 4096. change (2 ^ Z.of_nat 13) with 8192.
  change (2 ^ Z.of_nat 14) with 16384. change (2 ^ Z.of_nat 15) with 32768.
  repeat match goal with
  | |- context [?a <=? x] => destruct (Z.leb_spec a x)
  | |- context [x <? ?a] => destruct (Z.ltb_spec x a)
  end; simpl; lia.
Qed.

(** ** Start-up *)

Section Boot.
Context `{L : X86PagingLaws} `{LV : X86VirtualLaws}.

Lemma kernel_heap_place : heap_place (INITIAL_OFFSET + 0x1000000) (HEAP_SIZE / MIN_BLOCK_SIZE).
Proof.
  split; [done | by exists 0x3FFFE000004 | | ]; unfold FRAME_LIMIT, u64_modulus; vm_compute; (done || split; congruence).
Qed.

(** The state [memory_init] leaves. *)
Lemma memory_init_spec :
  exists s, memory_init memory_static = Ret s /\ mem_initialized s = true /\ phys_offset s = INITIAL_OFFSET /\
    (exists ls, heap_ok (INITIAL_OFFSET + 0x1000000) (HEAP_SIZE / MIN_BLOCK_SIZE) (heap (senv (slab s))).1 (heap (senv (slab s))).2 ls []) /\
    buddy_wf (frames (senv (slab s))) /\ free_blocks (frames (senv (slab s))) ≡ₚ default_blocks /\
    heap_inv (xheaders s) (xheap s) [(INITIAL_OFFSET + 0x2000000, EXCHANGE_HEAP_SIZE)] [] /\
    slab_ok (slab s) no_live.
Proof using L LV.
  destruct (init_ok (INITIAL_OFFSET + 0x1000000) HEAP_SIZE ∅ kernel_heap_place) as (m1 & st1 & ls & Hinit & Hok); [done|].
  destruct default_boot as (fr & Hbuddy & Hwf & Hp & Htot).
  pose proof (heap_init_spec ∅ (INITIAL_OFFSET + 0x2000000) EXCHANGE_HEAP_SIZE) as Hx.
  destruct (heap_init ∅ heap_empty (INITIAL_OFFSET + 0x2000000) EXCHANGE_HEAP_SIZE) as [hs xh] eqn:Ex.
  exists (mkMemory INITIAL_OFFSET true (boot (mkEnv (F := buddy_source) (G := kernel_heap) ∅ fr (m1, st1)) 1) hs xh).
  split; [|split; [done|]; split; [done|]; split; [by exists ls|]; split; [done|]; split; [done|]; split].
  - unfold memory_init, memory_static. cbn [mem_initialized phys_offset slab xheaders xheap].
    unfold init_global_heap, kernel_heap_start, exchange_heap_start, physical_memory_offset.
    cbn [senv slab heap phys_offset fst snd mem frames].
    change (INITIAL_OFFSET +w 0x1000000) with (INITIAL_OFFSET + 0x1000000). rewrite Hinit. cbn [obind with_env senv slab frames mem heap].
    unfold init_buddy_allocator. rewrite Hbuddy. cbn [obind with_env phys_offset xheaders xheap mem_initialized slab cores].
    change (INITIAL_OFFSET +w 0x2000000) with (INITIAL_OFFSET + 0x2000000). by rewrite Ex.
  - apply Hx; [done | done | reflexivity].
  - apply boot_slab_ok. split; [exact Hwf|]. cbn [frames]. rewrite Htot. lia.
Qed.

(** start-up never panics and brings every part into its initial state: the
    kernel heap and the exchange heap are one free region each, the frame
    allocator holds exactly the frames of the default memory map, the slab
    caches of the first core are empty; a second call changes nothing. *)
Theorem memory_init_correct :
  exists s, memory_init memory_static = Ret s /\ memory_init s = Ret s /\
    (exists ls, heap_ok (kernel_heap_start s) (HEAP_SIZE / MIN_BLOCK_SIZE) (heap (senv (slab s))).1 (heap (senv (slab s))).2 ls []) /\
    buddy_wf (frames (senv (slab s))) /\
    (forall x, cover (free_blocks (frames (senv (slab s)))) x = region_cover get_default_memory_regions x) /\
    heap_inv (xheaders s) (xheap s) [(exchange_heap_start s, EXCHANGE_HEAP_SIZE)] [] /\
    slab_ok (slab s) no_live.
Proof using L LV.
  destruct memory_init_spec as (s & Hs & Hi & Hoff & Hh & Hwf & Hp & Hx & Hsl). exists s.
  unfold kernel_heap_start, exchange_heap_start, physical_memory_offset. rewrite Hoff.
  split; [done|]. split; [unfold memory_init; rewrite Hi; reflexivity|].
  split; [exact Hh|]. split; [done|]. split; [intros x; by apply default_cover|]. by split.
Qed.

(** the default memory map contains the two heaps: after start-up every
    frame of the kernel heap and of the exchange heap is free in the frame
    allocator, and the first 4 KiB frame it hands out is mapped at the start of
    the kernel heap. *)
Theorem boot_map_contains_heaps :
  exists s st' fr v, memory_init memory_static = Ret s /\
    buddy_alloc_frame (frames (senv (slab s))) = Ret (Some fr, st') /\
    mem_phys_to_virt s (start_address fr) = Ret v /\ virt_as_u64 v = kernel_heap_start s /\
    forall a, kernel_heap_start s <= a < kernel_heap_start s + HEAP_SIZE \/
              exchange_heap_start s <= a < exchange_heap_start s + EXCHANGE_HEAP_SIZE ->
      cover (free_blocks (frames (senv (slab s)))) ((a - physical_memory_offset s) / PAGE_SIZE_4K) = 1.
Proof using L LV.
  destruct memory_init_spec as (s & Hs & _ & Hoff & _ & Hwf & Hp & _).
  destruct (default_first_frame (frames (senv (slab s))) Hwf Hp) as (st' & Hst').
  destruct (frame_roundtrip (4096 * 4096) 4096) as (p & Hpa & Hstart); [unfold PHYS_ADDR_LIMIT; lia | lia | by exists 4096|].
  exists s, st', (containing_address PAGE_SIZE_4K p).
  destruct (virt_addr_new_ok (INITIAL_OFFSET + 0x1000000)) as (v & Hv & Hvu); [right; unfold INITIAL_OFFSET; lia|].
  exists v. split; [done|]. split.
  { unfold buddy_alloc_frame, allocate_4k_frame. rewrite Hst'. cbn [obind frame_of_index].
    change (to_phys_addr 4096) with (4096 * 4096). by rewrite Hpa. }
  unfold kernel_heap_start, exchange_heap_start, mem_phys_to_virt, physical_memory_offset. rewrite Hoff.
  change (INITIAL_OFFSET +w 0x1000000) with (INITIAL_OFFSET + 0x1000000).
  change (INITIAL_OFFSET +w 0x2000000) with (INITIAL_OFFSET + 0x2000000).
  unfold PAGE_SIZE_4K at 1. rewrite Hstart.
  split; [change (4096 * 4096 +w INITIAL_OFFSET) with (INITIAL_OFFSET + 0x1000000); exact Hv|]. split; [exact Hvu|].
  intros a Ha. rewrite (default_cover _ _ Hp). unfold get_default_memory_regions. cbn [region_cover].
  unfold in_range, region_lo, region_hi. cbn [fst snd].
  change (from_phys_addr 0x1000000) with 4096. change (from_phys_addr (0x1000000 + 240 * 1024 * 1024)) with 65536.
  unfold HEAP_SIZE, EXCHANGE_HEAP_SIZE, PAGE_SIZE_4K in *.
  assert (4096 <= (a - INITIAL_OFFSET) / 4096 < 65536) as [H1 H2]
    by (split; [apply Z.div_le_lower_bound | apply Z.div_lt_upper_bound]; lia).
  apply Z.leb_le in H1. apply Z.ltb_lt in H2. by rewrite H1, H2.
Qed.

End Boot.

(** On the addresses of the machine. *)
Lemma memory_init_correct_witness : exists s, memory_init (P := Z_paging) memory_static = Ret s.
Proof.
  destruct (memory_init_correct (P := Z_paging) (L := Z_paging_laws) (V := Z_virtual) (LV := Z_virtual_laws)) as (s & H & _).
  exists s. exact H.
Defined.

Lemma boot_map_contains_heaps_witness :
  exists s st' fr, memory_init (P := Z_paging) memory_static = Ret s /\
    buddy_alloc_frame (P := Z_paging) (frames (senv (slab s))) = Ret (Some fr, st').
Proof.
  destruct (boot_map_contains_heaps (P := Z_paging) (L := Z_paging_laws) (V := Z_virtual) (LV := Z_virtual_laws))
    as (s & st' & fr & v & H1 & H2 & _).
  exists s, st', fr. split; [exact H1 | exact H2].
Defined.
