(* ===== verification/Capability.v ===== *)
(** * Capability sets (src/src/security/capability.rs)

    A capability set is four 64-bit masks; the manager keeps a set per domain and
    a bounding set that limits what may be given out. *)

From stdpp Require Import base list strings.
From Stdlib Require Import ZArith Lia Btauto.
From S2P Require Import Prelude.

Local Open Scope Z_scope.

Definition Capability : Type := Z.

Definition CAP_NET_BIND : Capability := Z.shiftl 1 0.
Definition CAP_NET_RAW : Capability := Z.shiftl 1 1.
Definition CAP_SYS_ADMIN : Capability := Z.shiftl 1 2.
Definition CAP_SYS_BOOT : Capability := Z.shiftl 1 3.
Definition CAP_SYS_TIME : Capability := Z.shiftl 1 4.
Definition CAP_SYS_PTRACE : Capability := Z.shiftl 1 5.
Definition CAP_DAC_OVERRIDE : Capability := Z.shiftl 1 6.
Definition CAP_KILL : Capability := Z.shiftl 1 7.
Definition CAP_SETUID : Capability := Z.shiftl 1 8.
Definition CAP_SETGID : Capability := Z.shiftl 1 9.
Definition CAP_CHOWN : Capability := Z.shiftl 1 10.
Definition CAP_FOWNER : Capability := Z.shiftl 1 11.
Definition CAP_SYS_RAWIO : Capability := Z.shiftl 1 12.
Definition CAP_IPC_LOCK : Capability := Z.shiftl 1 13.
Definition CAP_SYS_NICE : Capability := Z.shiftl 1 14.
Definition CAP_NET_ADMIN : Capability := Z.shiftl 1 15.
Definition CAP_SYS_MODULE : Capability := Z.shiftl 1 16.
Definition CAP_SYS_PHYSMEM : Capability := Z.shiftl 1 17.
Definition CAP_DMA : Capability := Z.shiftl 1 18.
Definition CAP_IOMMU : Capability := Z.shiftl 1 19.
Definition CAP_INTERRUPT : Capability := Z.shiftl 1 20.
Definition CAP_ALL : Capability := Z.shiftl 1 21 - 1.
Definition CAP_NONE : Capability := 0.

Record CapabilitySet := mkCaps {
  effective : Capability;
  permitted : Capability;
  inheritable : Capability;
  ambient : Capability
}.

Inductive CapabilityError := NotPermitted | CapabilityRequired | InvalidCapability.

Definition caps_empty : CapabilitySet := mkCaps CAP_NONE CAP_NONE CAP_NONE CAP_NONE.
Definition caps_full : CapabilitySet := mkCaps CAP_ALL CAP_ALL CAP_ALL CAP_ALL.

Definition caps_has (s : CapabilitySet) (cap : Capability) : bool := Z.land (effective s) cap =? cap.







(** ** The manager *)

(** [domains] pairs a domain with its set ([DomainCapabilities]). *)
Record CapabilityManager := mkCapManager {
  cap_domains : list (Z * CapabilitySet);
  bounding_set : Capability
}.

Definition CapabilityManager_new : CapabilityManager := mkCapManager [] CAP_ALL.

Definition cap_get (m : CapabilityManager) (domain_id : Z) : CapabilitySet :=
  default caps_empty (vec_find domain_id (cap_domains m)).

Definition bound_caps (bounding : Capability) (c : CapabilitySet) : CapabilitySet :=
  mkCaps (Z.land (effective c) bounding) (Z.land (permitted c) bounding)
    (Z.land (inheritable c) bounding) (Z.land (ambient c) bounding).

Definition cap_set (m : CapabilityManager) (domain_id : Z) (c : CapabilitySet) : CapabilityManager :=
  mkCapManager (vec_set domain_id (bound_caps (bounding_set m) c) (cap_domains m)) (bounding_set m).

Definition manager_has (m : CapabilityManager) (domain_id : Z) (cap : Capability) : bool := caps_has (cap_get m domain_id) cap.

Definition require_capability (m : CapabilityManager) (domain_id : Z) (cap : Capability) : result unit CapabilityError :=
  if manager_has m domain_id cap then Ok tt else Err CapabilityRequired.

Definition drop_from_bounding (m : CapabilityManager) (cap : Capability) : CapabilityManager :=
  mkCapManager (cap_domains m) (Z.land (bounding_set m) (not64 cap)).

Definition cap_remove_domain (m : CapabilityManager) (domain_id : Z) : CapabilityManager :=
  mkCapManager (vec_remove domain_id (cap_domains m)) (bounding_set m).

Definition cap_init (m : CapabilityManager) : CapabilityManager := cap_set m 0 caps_full.

Definition capability_names : list (Capability * string) :=
  [(CAP_NET_BIND, "CAP_NET_BIND"); (CAP_NET_RAW, "CAP_NET_RAW"); (CAP_SYS_ADMIN, "CAP_SYS_ADMIN");
   (CAP_SYS_BOOT, "CAP_SYS_BOOT"); (CAP_SYS_TIME, "CAP_SYS_TIME"); (CAP_SYS_PTRACE, "CAP_SYS_PTRACE");
   (CAP_DAC_OVERRIDE, "CAP_DAC_OVERRIDE"); (CAP_KILL, "CAP_KILL"); (CAP_SETUID, "CAP_SETUID");
   (CAP_SETGID, "CAP_SETGID"); (CAP_CHOWN, "CAP_CHOWN"); (CAP_FOWNER, "CAP_FOWNER");
   (CAP_SYS_RAWIO, "CAP_SYS_RAWIO"); (CAP_IPC_LOCK, "CAP_IPC_LOCK"); (CAP_SYS_NICE, "CAP_SYS_NICE");
   (CAP_NET_ADMIN, "CAP_NET_ADMIN"); (CAP_SYS_MODULE, "CAP_SYS_MODULE"); (CAP_SYS_PHYSMEM, "CAP_SYS_PHYSMEM");
   (CAP_DMA, "CAP_DMA"); (CAP_IOMMU, "CAP_IOMMU"); (CAP_INTERRUPT, "CAP_INTERRUPT")].

Definition capability_name (cap : Capability) : string := default "UNKNOWN" (vec_find cap capability_names).

(** * Capabilities cannot be escalated *)

(** Every capability of [a] is one of [b]. *)
Definition cap_le (a b : Capability) : Prop := forall i, 0 <= i -> Z.testbit a i = true -> Z.testbit b i = true.
(** No capability of [a] is one of [b]. *)
Definition cap_disjoint (a b : Capability) : Prop := forall i, 0 <= i -> Z.testbit a i = true -> Z.testbit b i = false.

#[export] Instance cap_le_refl : Reflexive cap_le.
Proof. by intros a i. Qed.
#[export] Instance cap_le_trans : Transitive cap_le.
Proof. intros a b c H1 H2 i Hi Ha. auto. Qed.

Lemma cap_le_land_l (a b : Capability) : cap_le (Z.land a b) a.
Proof. intros i _. rewrite Z.land_spec. by intros [? _]%andb_true_iff. Qed.
Lemma cap_le_land_r (a b : Capability) : cap_le (Z.land a b) b.
Proof. intros i _. rewrite Z.land_spec. by intros [_ ?]%andb_true_iff. Qed.
Lemma cap_le_0 (b : Capability) : cap_le 0 b.
Proof. intros i _. by rewrite Z.bits_0. Qed.
Lemma cap_le_lor (a b c : Capability) : cap_le a c -> cap_le b c -> cap_le (Z.lor a b) c.
Proof. intros Ha Hb i Hi. rewrite Z.lor_spec. intros [?|?]%orb_true_iff; auto. Qed.
Lemma cap_le_land_mono (a b c : Capability) : cap_le a b -> cap_le (Z.land a c) (Z.land b c).
Proof. intros H i Hi. rewrite !Z.land_spec. intros [H1 H2]%andb_true_iff. by rewrite H2, H. Qed.
Lemma cap_disjoint_le (a b c : Capability) : cap_le a b -> cap_disjoint b c -> cap_disjoint a c.
Proof. intros H1 H2 i Hi Ha. auto. Qed.

#[export] Hint Resolve cap_le_land_l cap_le_land_r cap_le_0 cap_le_lor cap_le_land_mono : exo.

(** A mask test is inclusion. *)
Lemma mask_test (a cap : Capability) : (Z.land a cap =? cap) = true <-> cap_le cap a.
Proof.
  rewrite Z.eqb_eq. split.
  - intros <-. apply cap_le_land_l.
  - intros H. apply Z.bits_inj'. intros i Hi. rewrite Z.land_spec. destruct (Z.testbit cap i) eqn:E; [|by rewrite andb_false_r].
    by rewrite (H i Hi E).
Qed.

Lemma land_not_disjoint (a cap : Capability) : is_u64 cap -> cap_disjoint (Z.land a (not64 cap)) cap.
Proof.
  intros Hc i Hi. rewrite Z.land_spec, andb_true_iff. intros [_ H].
  destruct (Z.lt_ge_cases i 64); [|by apply testbit_u64_high].
  unfold not64 in H. rewrite Z.lxor_spec, Z.ones_spec_low in H by lia. by destruct (Z.testbit cap i).
Qed.


(** ** A capability set in use *)








(** ** The manager *)

Inductive manager_op :=
| OpSet (domain_id : Z) (c : CapabilitySet) | OpDropBounding (cap : Capability) | OpRemove (domain_id : Z).

Definition manager_apply (m : CapabilityManager) (op : manager_op) : CapabilityManager :=
  match op with
  | OpSet d c => cap_set m d c
  | OpDropBounding cap => drop_from_bounding m cap
  | OpRemove d => cap_remove_domain m d
  end.

Lemma bounding_shrinks (m : CapabilityManager) (ops : list manager_op) :
  cap_le (bounding_set (foldl manager_apply m ops)) (bounding_set m).
Proof.
  revert m. induction ops as [|op ops IH]; intros m; [reflexivity|]. cbn [foldl]. etrans; [apply IH|].
  destruct op; cbn; auto with exo; reflexivity.
Qed.

Lemma bound_caps_le (b : Capability) (c : CapabilitySet) :
  cap_le (effective (bound_caps b c)) b /\ cap_le (permitted (bound_caps b c)) b /\ cap_le (inheritable (bound_caps b c)) b.
Proof. repeat split; apply cap_le_land_r. Qed.

Lemma get_set (m : CapabilityManager) (d d' : Z) (c : CapabilitySet) :
  cap_get (cap_set m d c) d' = if d' =? d then bound_caps (bounding_set m) c else cap_get m d'.
Proof. unfold cap_get, cap_set. cbn [cap_domains]. rewrite vec_find_set. by destruct (d' =? d). Qed.

(** Sets given out after a run of operations stay below the bounding set. *)
Lemma given_after (m : CapabilityManager) (ops : list manager_op) (d : Z) :
  (forall c, OpSet d c ∉ ops) \/ cap_le (permitted (cap_get (foldl manager_apply m ops) d)) (bounding_set m).
Proof.
  induction ops as [|op ops IH] using rev_ind; [left; by intros c ?%elem_of_nil|]. rewrite foldl_app. cbn [foldl].
  pose proof (bounding_shrinks m ops) as Hb. set (m1 := foldl manager_apply m ops) in *.
  destruct op as [d' c|cap|d']; cbn [manager_apply].
  - destruct (decide (d = d')) as [<-|Hne].
    + right. rewrite get_set, Z.eqb_refl. etrans; [apply bound_caps_le | done].
    + rewrite get_set. destruct (Z.eqb_spec d d'); [done|]. destruct IH as [Hno|]; [left | by right].
      intros c' [?|[= ? ?]%list_elem_of_singleton]%elem_of_app; [by eapply Hno | done].
  - destruct IH as [Hno|]; [left | by right].
    intros c' [?|?%list_elem_of_singleton]%elem_of_app; [by eapply Hno | done].
  - unfold cap_get, cap_remove_domain. cbn [cap_domains]. rewrite vec_find_remove. destruct (Z.eqb_spec d d') as [->|Hne].
    + right. apply cap_le_0.
    + destruct IH as [Hno|]; [left | by right].
      intros c' [?|?%list_elem_of_singleton]%elem_of_app; [by eapply Hno | done].
Qed.

(** the bounding set is final: once a capability is dropped from it, no set
    given to a domain afterwards holds it, whatever the manager is asked; a check
    succeeds exactly for the capabilities in effect; a domain without a set, or
    whose set was removed, has none. *)
Theorem bounding_set_is_final (m : CapabilityManager) (cap : Capability) (ops : list manager_op) (d : Z) (c : CapabilitySet) :
  is_u64 cap ->
  let m1 := drop_from_bounding m cap in
  let m2 := foldl manager_apply m1 ops in
  (OpSet d c ∈ ops -> cap_disjoint (permitted (cap_get m2 d)) cap) /\
  (forall k, require_capability m2 d k = Ok tt <-> cap_le k (effective (cap_get m2 d))) /\
  cap_get (cap_set m2 d c) d = bound_caps (bounding_set m2) c /\
  (forall d', d' <> d -> cap_get (cap_set m2 d c) d' = cap_get m2 d') /\
  cap_get (cap_remove_domain m2 d) d = caps_empty.
Proof.
  intros Hcap m1 m2. split; [|split; [|split; [|split]]].
  - intros Hin. destruct (given_after m1 ops d) as [Hno|Hle]; [by apply Hno in Hin|].
    eapply cap_disjoint_le; [exact Hle|]. by apply land_not_disjoint.
  - intros k. unfold require_capability, manager_has. rewrite <- mask_test. change (_ =? k) with (caps_has (cap_get m2 d) k).
    by destruct (caps_has (cap_get m2 d) k).
  - by rewrite get_set, Z.eqb_refl.
  - intros d' Hne. rewrite get_set. by destruct (Z.eqb_spec d' d).
  - unfold cap_get, cap_remove_domain. cbn [cap_domains]. by rewrite vec_find_remove, Z.eqb_refl.
Qed.

(** ** Concrete sets *)




Lemma bounding_set_is_final_witness :
  cap_disjoint (permitted (cap_get (cap_set (drop_from_bounding CapabilityManager_new CAP_SYS_ADMIN) 5 caps_full) 5)) CAP_SYS_ADMIN.
Proof.
  apply (bounding_set_is_final CapabilityManager_new CAP_SYS_ADMIN [OpSet 5 caps_full] 5 caps_full).
  - split; [discriminate | reflexivity].
  - left.
Defined.

(** Dropping from the bounding set does not take a capability away from a domain
    that has it already. *)
Lemma bounding_drop_not_retroactive :
  manager_has (drop_from_bounding (cap_init CapabilityManager_new) CAP_SYS_ADMIN) 0 CAP_SYS_ADMIN = true.
Proof. reflexivity. Qed.
