(* ===== verification/Mac.v ===== *)
(** * Mandatory access control (src/src/security/mac.rs)

    Subjects and objects carry a level and a set of categories; reading needs the
    subject to dominate the object, writing the object to dominate the subject.
    A [BTreeSet] is a [gset]; its difference is listed in the order of the
    enumeration. *)

From stdpp Require Import base list gmap strings relations.
From Stdlib Require Import ZArith Lia.
From S2P Require Import Prelude.

Local Open Scope Z_scope.

Inductive SecurityLevel := Public | Internal | Confidential | Secret | TopSecret.

(** [level as u8] *)
Definition level_u8 (l : SecurityLevel) : Z :=
  match l with
  | Public => 0 | Internal => 1 | Confidential => 2 | Secret => 3 | TopSecret => 4
  end.

Definition level_name (l : SecurityLevel) : string :=
  match l with
  | Public => "Public" | Internal => "Internal" | Confidential => "Confidential"
  | Secret => "Secret" | TopSecret => "Top Secret"
  end.

Definition level_dominates (l other : SecurityLevel) : bool := level_u8 l >=? level_u8 other.

Inductive SecurityCategory :=
| CatNone | Network | FileSystem | Process | Memory | Hardware | Crypto | Audit | Ipc | Custom1 | Custom2 | Custom3.

#[export] Instance SecurityCategory_eq_dec : EqDecision SecurityCategory.
Proof. solve_decision. Defined.

(** In the order of the discriminants. *)
Definition all_categories : list SecurityCategory :=
  [CatNone; Network; FileSystem; Process; Memory; Hardware; Crypto; Audit; Ipc; Custom1; Custom2; Custom3].

Definition category_u16 (c : SecurityCategory) : Z :=
  match c with
  | CatNone => 0 | Network => 1 | FileSystem => 2 | Process => 3 | Memory => 4 | Hardware => 5 | Crypto => 6
  | Audit => 7 | Ipc => 8 | Custom1 => 100 | Custom2 => 101 | Custom3 => 102
  end.

Definition category_of_u16 (z : Z) : SecurityCategory :=
  default CatNone (head (filter (fun c => category_u16 c = z) all_categories)).

#[export] Instance SecurityCategory_countable : Countable SecurityCategory.
Proof. apply (inj_countable' category_u16 category_of_u16). by intros []. Defined.

Record SecurityContext := mkContext {
  level : SecurityLevel;
  categories : gset SecurityCategory;
  user_id : Z;
  role_id : Z;
  type_name : string
}.

Definition SecurityContext_new (l : SecurityLevel) (user role : Z) : SecurityContext := mkContext l ∅ user role "unconfined".
Definition context_public : SecurityContext := mkContext Public ∅ 0 0 "public".
Definition context_kernel : SecurityContext :=
  mkContext TopSecret {[Network; FileSystem; Process; Memory; Hardware; Crypto; Audit; Ipc]} 0 0 "kernel".

Definition add_category (c : SecurityContext) (k : SecurityCategory) : SecurityContext :=
  mkContext (level c) ({[k]} ∪ categories c) (user_id c) (role_id c) (type_name c).
Definition remove_category (c : SecurityContext) (k : SecurityCategory) : SecurityContext :=
  mkContext (level c) (categories c ∖ {[k]}) (user_id c) (role_id c) (type_name c).
Definition has_category (c : SecurityContext) (k : SecurityCategory) : bool := bool_decide (k ∈ categories c).
Definition set_type (c : SecurityContext) (t : string) : SecurityContext :=
  mkContext (level c) (categories c) (user_id c) (role_id c) t.

Definition dominates (c other : SecurityContext) : bool :=
  level_dominates (level c) (level other) && bool_decide (categories other ⊆ categories c).

Inductive MacDecision := Allow | Deny | AllowWithAudit.

Inductive MacError :=
| LevelDenied (subject_level object_level : SecurityLevel)
| CategoryDenied (missing : list SecurityCategory)
| TypeTransitionDenied (from to : string)
| NoPolicyLoaded.

Inductive AccessType := Read | Write | Execute | Append | Create | Delete.

Record MacPolicy := mkPolicy {
  enabled : bool;
  enforcing : bool;
  domain_contexts : list (Z * SecurityContext);
  object_contexts : list (Z * SecurityContext)
}.

Definition MacPolicy_new : MacPolicy := mkPolicy false false [] [].

Definition mac_enable (p : MacPolicy) : MacPolicy := mkPolicy true (enforcing p) (domain_contexts p) (object_contexts p).
Definition mac_disable (p : MacPolicy) : MacPolicy := mkPolicy false (enforcing p) (domain_contexts p) (object_contexts p).
Definition set_enforcing (p : MacPolicy) (e : bool) : MacPolicy := mkPolicy (enabled p) e (domain_contexts p) (object_contexts p).

Definition set_domain_context (p : MacPolicy) (id : Z) (c : SecurityContext) : MacPolicy :=
  mkPolicy (enabled p) (enforcing p) (vec_set id c (domain_contexts p)) (object_contexts p).
Definition get_domain_context (p : MacPolicy) (id : Z) : option SecurityContext := vec_find id (domain_contexts p).
Definition set_object_context (p : MacPolicy) (id : Z) (c : SecurityContext) : MacPolicy :=
  mkPolicy (enabled p) (enforcing p) (domain_contexts p) (vec_set id c (object_contexts p)).
Definition get_object_context (p : MacPolicy) (id : Z) : option SecurityContext := vec_find id (object_contexts p).

(** [a.difference(&b).copied().collect()] *)
Definition set_difference (a b : gset SecurityCategory) : list SecurityCategory :=
  filter (fun c => c ∈ a /\ c ∉ b) all_categories.

Definition check_access (p : MacPolicy) (subject object : SecurityContext) (access : AccessType) :
    result MacDecision MacError :=
  if negb (enabled p) then Ok Allow
  else
    match access with
    | Read | Execute =>
        if negb (dominates subject object) then
          if enforcing p then
            if negb (level_dominates (level subject) (level object)) then Err (LevelDenied (level subject) (level object))
            else Err (CategoryDenied (set_difference (categories object) (categories subject)))
          else Ok AllowWithAudit
        else Ok Allow
    | Write | Append | Create | Delete =>
        if negb (dominates object subject) then
          if enforcing p then
            if negb (level_dominates (level object) (level subject)) then Err (LevelDenied (level subject) (level object))
            else Err (CategoryDenied (set_difference (categories subject) (categories object)))
          else Ok AllowWithAudit
        else Ok Allow
    end.

Definition check_domain_access (p : MacPolicy) (subject_domain object_domain : Z) (access : AccessType) :
    result MacDecision MacError :=
  let subject := default context_public (get_domain_context p subject_domain) in
  let object := default context_public (get_domain_context p object_domain) in
  check_access p subject object access.

(** [init] over the static policy. *)
Definition mac_init (p : MacPolicy) : MacPolicy :=
  set_enforcing (mac_enable (set_domain_context p 0 context_kernel)) false.

(** * Information flows upwards only *)

Lemma level_dominates_spec (a b : SecurityLevel) : level_dominates a b = true <-> level_u8 b <= level_u8 a.
Proof. unfold level_dominates. rewrite Z.geb_le. done. Qed.




Lemma in_all_categories (c : SecurityCategory) : c ∈ all_categories.
Proof. apply (bool_decide_unpack _). by destruct c. Qed.

Lemma set_difference_spec (a b : gset SecurityCategory) (c : SecurityCategory) : c ∈ set_difference a b <-> c ∈ a /\ c ∉ b.
Proof. unfold set_difference. rewrite list_elem_of_filter. pose proof (in_all_categories c). tauto. Qed.

(** The accesses that move information from the object to the subject; the others
    move it from the subject to the object. *)
Definition reads (t : AccessType) : bool :=
  match t with
  | Read | Execute => true
  | _ => false
  end.

(** The side of an access that has to dominate, and the other. *)
Definition upper (t : AccessType) (s o : SecurityContext) : SecurityContext := if reads t then s else o.
Definition lower (t : AccessType) (s o : SecurityContext) : SecurityContext := if reads t then o else s.

(** [check_access] on the two sides. *)
Lemma check_access_sides (p : MacPolicy) (s o : SecurityContext) (t : AccessType) :
  check_access p s o t =
    if negb (enabled p) then Ok Allow
    else if dominates (upper t s o) (lower t s o) then Ok Allow
    else if enforcing p then
      if level_dominates (level (upper t s o)) (level (lower t s o))
      then Err (CategoryDenied (set_difference (categories (lower t s o)) (categories (upper t s o))))
      else Err (LevelDenied (level s) (level o))
    else Ok AllowWithAudit.
Proof.
  unfold check_access, upper, lower. destruct (enabled p); [|done].
  destruct t; cbn [reads negb]; (destruct (dominates _ _); [done|]; destruct (enforcing p); [|done]; by destruct (level_dominates _ _)).
Qed.

(** what [check_access] answers.  With the policy on, an access is allowed
    exactly when the reading side dominates; otherwise an enforcing policy refuses it,
    naming the two levels when they are the reason and else the categories that
    are missing, at least one; a permissive policy allows it with an audit. *)
Theorem check_access_correct (p : MacPolicy) (s o : SecurityContext) (t : AccessType) :
  enabled p = true ->
  match check_access p s o t with
  | Ok Allow => dominates (upper t s o) (lower t s o) = true
  | Ok AllowWithAudit => enforcing p = false /\ dominates (upper t s o) (lower t s o) = false
  | Ok Deny => False
  | Err (LevelDenied sl ol) =>
      enforcing p = true /\ sl = level s /\ ol = level o /\ level_u8 (level (upper t s o)) < level_u8 (level (lower t s o))
  | Err (CategoryDenied missing) =>
      enforcing p = true /\ missing <> [] /\
      forall c, c ∈ missing <-> c ∈ categories (lower t s o) /\ c ∉ categories (upper t s o)
  | Err _ => False
  end.
Proof.
  intros He. rewrite check_access_sides, He. cbn [negb]. destruct (dominates _ _) eqn:Ed; [done|].
  destruct (enforcing p); [|done]. destruct (level_dominates _ _) eqn:El.
  - split; [done|]. split; [|intros c; apply set_difference_spec]. intros Hnil.
    unfold dominates in Ed. rewrite El in Ed. cbn [andb] in Ed. apply bool_decide_eq_false in Ed. apply Ed. intros c Hc.
    destruct (decide (c ∈ categories (upper t s o))) as [|Hn]; [done|]. exfalso.
    assert (Hin : c ∈ set_difference (categories (lower t s o)) (categories (upper t s o))) by (by apply set_difference_spec).
    rewrite Hnil in Hin. by apply elem_of_nil in Hin.
  - split; [done|]. split; [done|]. split; [done|]. apply Z.nle_gt. rewrite <- level_dominates_spec. congruence.
Qed.




(** ** Concrete contexts *)

Definition strict_policy : MacPolicy := set_enforcing (mac_enable MacPolicy_new) true.
Definition clerk : SecurityContext := add_category (SecurityContext_new Internal 1 1) Network.
Definition officer : SecurityContext := add_category (add_category (SecurityContext_new Secret 2 1) Network) FileSystem.

Lemma check_access_correct_witness :
  exists e, check_access strict_policy clerk officer Read = Err e /\ level_u8 (level clerk) < level_u8 (level officer).
Proof.
  pose proof (check_access_correct strict_policy clerk officer Read eq_refl) as H.
  exists (LevelDenied Internal Secret). split; [reflexivity | exact (proj2 (proj2 (proj2 H)))].
Defined.


(** After [init] the policy is on but not enforcing: nothing is refused. *)
Lemma initial_policy_is_permissive (s o : SecurityContext) (t : AccessType) (e : MacError) :
  check_access (mac_init MacPolicy_new) s o t <> Err e.
Proof. rewrite check_access_sides. cbn [mac_init enabled enforcing negb]. by destruct (dominates _ _). Qed.
