(* ===== verification/Policy.v ===== *)
(** * The policy engine (src/src/security/policy.rs)

    Rules with a subject, an object, an operation and a priority; the rules are
    kept sorted and the first that matches decides.  [sort_by] is a stable sort,
    here by insertion.  Strings are byte strings. *)

From stdpp Require Import base list strings sorting sets.
From Stdlib Require Import ZArith Lia.
From S2P Require Import Prelude.

Local Open Scope Z_scope.

Inductive PolicyAction := PAllow | PDeny | AllowAudit | DenyAudit.

Definition is_allow (a : PolicyAction) : bool :=
  match a with
  | PAllow | AllowAudit => true
  | _ => false
  end.
Definition needs_audit (a : PolicyAction) : bool :=
  match a with
  | AllowAudit | DenyAudit => true
  | _ => false
  end.

Inductive PolicySubject :=
| AnySubject | SubjDomain (id : Z) | DomainType (t : string) | User (id : Z) | Group (id : Z).

Definition matches_domain (s : PolicySubject) (domain_id : Z) (domain_type : string) : bool :=
  match s with
  | AnySubject => true
  | SubjDomain id => id =? domain_id
  | DomainType t => String.eqb t domain_type
  | _ => false
  end.

Inductive PolicyObject :=
| AnyObject | Resource (id : Z) | ResourceType (t : string) | Path (pattern : string) | NetworkObj (t : string) | SyscallObj (n : Z).

Definition matches_resource (o : PolicyObject) (resource_id : Z) (resource_type : string) : bool :=
  match o with
  | AnyObject => true
  | Resource id => id =? resource_id
  | ResourceType t => String.eqb t resource_type
  | _ => false
  end.

(** [str::ends_with] and [&s[..s.len() - n]] *)
Definition ends_with (s suffix : string) : bool :=
  (String.length suffix <=? String.length s)%nat &&
  String.eqb (String.substring (String.length s - String.length suffix) (String.length suffix) s) suffix.
Definition without_last (s : string) (n : nat) : string := String.substring 0 (String.length s - n) s.

Definition object_matches_path (o : PolicyObject) (path : string) : bool :=
  match o with
  | AnyObject => true
  | Path pattern =>
      if ends_with pattern "/*" then String.prefix (without_last pattern 2) path
      else if ends_with pattern "/**" then String.prefix (without_last pattern 3) path
      else String.eqb pattern path
  | _ => false
  end.

Inductive PolicyOperation :=
| AnyOp | PRead | PWrite | PExecute | PCreate | PDelete | Send | Receive | Map | IpcSend | IpcReceive.

#[export] Instance PolicyOperation_eq_dec : EqDecision PolicyOperation.
Proof. solve_decision. Defined.

Record PolicyRule := mkRule {
  rule_id : Z;
  priority : Z;
  subject : PolicySubject;
  object : PolicyObject;
  operation : PolicyOperation;
  action : PolicyAction;
  description : string;
  rule_enabled : bool
}.

(** The identifier comes from a counter, [fetch_add]. *)
Definition PolicyRule_new (counter : Z) (s : PolicySubject) (o : PolicyObject) (op : PolicyOperation) (a : PolicyAction) :
    PolicyRule * Z :=
  (mkRule counter 100 s o op a EmptyString true, counter +w 1).

Definition with_priority (r : PolicyRule) (p : Z) : PolicyRule :=
  mkRule (rule_id r) p (subject r) (object r) (operation r) (action r) (description r) (rule_enabled r).
Definition with_description (r : PolicyRule) (d : string) : PolicyRule :=
  mkRule (rule_id r) (priority r) (subject r) (object r) (operation r) (action r) d (rule_enabled r).

Definition operation_matches (r : PolicyRule) (op : PolicyOperation) : bool :=
  negb (negb (bool_decide (operation r = AnyOp)) && negb (bool_decide (operation r = op))).

Definition rule_matches (domain_id : Z) (domain_type : string) (resource_id : Z) (resource_type : string)
    (op : PolicyOperation) (r : PolicyRule) : bool :=
  if negb (rule_enabled r) then false
  else if negb (matches_domain (subject r) domain_id domain_type) then false
  else if negb (matches_resource (object r) resource_id resource_type) then false
  else operation_matches r op.

Definition rule_matches_path (domain_id : Z) (domain_type : string) (path : string) (op : PolicyOperation) (r : PolicyRule) : bool :=
  if negb (rule_enabled r) then false
  else if negb (matches_domain (subject r) domain_id domain_type) then false
  else if negb (object_matches_path (object r) path) then false
  else operation_matches r op.

Record PolicyDecision := mkDecision {
  dec_action : PolicyAction;
  matched_rule : option Z;
  audit_message : option string
}.

Definition default_deny : PolicyDecision := mkDecision PDeny None (Some "No matching rule, default deny").
Definition from_rule (r : PolicyRule) : PolicyDecision :=
  mkDecision (action r) (Some (rule_id r)) (if needs_audit (action r) then Some (description r) else None).
Definition disabled_allow : PolicyDecision := mkDecision PAllow None None.

Record PolicyStats := mkPolicyStats { total_checks : Z; allowed : Z; denied : Z }.

Record SecurityPolicy := mkSecPolicy {
  pol_name : string;
  version : Z;
  rules : list PolicyRule;
  default_action : PolicyAction;
  pol_enabled : bool;
  pol_stats : PolicyStats
}.

Definition SecurityPolicy_new (name : string) : SecurityPolicy := mkSecPolicy name 1 [] PDeny true (mkPolicyStats 0 0 0).

Definition with_rules (p : SecurityPolicy) (rs : list PolicyRule) : SecurityPolicy :=
  mkSecPolicy (pol_name p) (version p) rs (default_action p) (pol_enabled p) (pol_stats p).
Definition with_stats (p : SecurityPolicy) (s : PolicyStats) : SecurityPolicy :=
  mkSecPolicy (pol_name p) (version p) (rules p) (default_action p) (pol_enabled p) s.

(** [sort_by(|a, b| b.priority.cmp(&a.priority))]: a rule goes behind all rules
    of its priority or above. *)
Fixpoint insert_rule (r : PolicyRule) (l : list PolicyRule) : list PolicyRule :=
  match l with
  | [] => [r]
  | x :: l' => if priority x >=? priority r then x :: insert_rule r l' else r :: l
  end.
Definition sort_rules (l : list PolicyRule) : list PolicyRule := foldl (fun acc r => insert_rule r acc) [] l.

Definition add_rule (p : SecurityPolicy) (r : PolicyRule) : SecurityPolicy := with_rules p (sort_rules (rules p ++ [r])).

Definition remove_rule (p : SecurityPolicy) (id : Z) : bool * SecurityPolicy :=
  let len := length (rules p) in
  let rs := filter (fun r => rule_id r <> id) (rules p) in
  ((length rs <? len)%nat, with_rules p rs).

Definition get_rule (p : SecurityPolicy) (id : Z) : option PolicyRule := List.find (fun r => rule_id r =? id) (rules p).

Definition count_check (s : PolicyStats) : PolicyStats := mkPolicyStats (total_checks s +w 1) (allowed s) (denied s).
Definition count_allowed (s : PolicyStats) : PolicyStats := mkPolicyStats (total_checks s) (allowed s +w 1) (denied s).
Definition count_denied (s : PolicyStats) : PolicyStats := mkPolicyStats (total_checks s) (allowed s) (denied s +w 1).

(** The body of [check] and [check_path], which differ in the test of a rule. *)
Definition check_with (p : SecurityPolicy) (test : PolicyRule -> bool) : PolicyDecision * SecurityPolicy :=
  let s1 := count_check (pol_stats p) in
  if negb (pol_enabled p) then (disabled_allow, with_stats p s1)
  else
    match List.find test (rules p) with
    | Some r => (from_rule r, with_stats p (if is_allow (action r) then count_allowed s1 else count_denied s1))
    | None => (default_deny, with_stats p (count_denied s1))
    end.

Definition check (p : SecurityPolicy) (domain_id : Z) (domain_type : string) (resource_id : Z) (resource_type : string)
    (op : PolicyOperation) : PolicyDecision * SecurityPolicy :=
  check_with p (rule_matches domain_id domain_type resource_id resource_type op).

Definition check_path (p : SecurityPolicy) (domain_id : Z) (domain_type : string) (path : string) (op : PolicyOperation) :
    PolicyDecision * SecurityPolicy :=
  check_with p (rule_matches_path domain_id domain_type path op).

Definition set_enabled (p : SecurityPolicy) (e : bool) : SecurityPolicy :=
  mkSecPolicy (pol_name p) (version p) (rules p) (default_action p) e (pol_stats p).
Definition set_default_action (p : SecurityPolicy) (a : PolicyAction) : SecurityPolicy :=
  mkSecPolicy (pol_name p) (version p) (rules p) a (pol_enabled p) (pol_stats p).
Definition policy_clear (p : SecurityPolicy) : SecurityPolicy :=
  mkSecPolicy (pol_name p) (wrap32 (version p + 1)) [] (default_action p) (pol_enabled p) (pol_stats p).

(** The static before [init]. *)
Definition POLICY_static : SecurityPolicy := mkSecPolicy EmptyString 0 [] PDeny false (mkPolicyStats 0 0 0).

(** [init] replaces the policy; the rules take the next two identifiers. *)
Definition policy_init (counter : Z) : SecurityPolicy :=
  let '(kernel, c1) := PolicyRule_new counter (SubjDomain 0) AnyObject AnyOp PAllow in
  let '(fallback, c2) := PolicyRule_new c1 AnySubject AnyObject AnyOp DenyAudit in
  let p1 := add_rule (SecurityPolicy_new "kernel_policy") (with_description (with_priority kernel 1000) "Kernel unrestricted") in
  let p2 := add_rule p1 (with_description (with_priority fallback 0) "Default deny") in
  set_enabled p2 true.

(** * The policy engine decides by the best rule *)

(** ** Sorting *)

Definition prio_desc (a b : PolicyRule) : Prop := priority b <= priority a.

(** Descending priorities. *)
Fixpoint sorted (l : list PolicyRule) : Prop :=
  match l with
  | [] => True
  | x :: l' => Forall (prio_desc x) l' /\ sorted l'
  end.

Lemma insert_elem (r x : PolicyRule) (l : list PolicyRule) : x ∈ insert_rule r l <-> x = r \/ x ∈ l.
Proof.
  induction l as [|y l IH]; cbn [insert_rule]; [rewrite list_elem_of_singleton; set_solver|].
  destruct (priority y >=? priority r); [|set_solver]. rewrite !elem_of_cons, IH. tauto.
Qed.

Lemma insert_sorted (r : PolicyRule) (l : list PolicyRule) : sorted l -> sorted (insert_rule r l).
Proof.
  induction l as [|y l IH]; cbn [insert_rule]; [by repeat split|]. intros [Hy Hl].
  destruct (Z.geb_spec (priority y) (priority r)) as [Hge|Hlt].
  - split; [|by apply IH]. rewrite Forall_forall in *. intros x [->|Hx]%insert_elem; [done | by apply Hy].
  - split; [|done]. constructor; [unfold prio_desc; lia|]. eapply Forall_impl; [exact Hy|]. unfold prio_desc. lia.
Qed.

Lemma sort_snoc (l : list PolicyRule) (r : PolicyRule) : sort_rules (l ++ [r]) = insert_rule r (sort_rules l).
Proof. unfold sort_rules. by rewrite foldl_app. Qed.

Lemma sort_sorted (l : list PolicyRule) : sorted (sort_rules l).
Proof. induction l as [|r l IH] using rev_ind; [done|]. rewrite sort_snoc. by apply insert_sorted. Qed.

(** Inserting behind a list of higher priorities appends. *)
Lemma insert_last (r : PolicyRule) (l : list PolicyRule) :
  Forall (fun x => prio_desc x r) l -> insert_rule r l = l ++ [r].
Proof.
  induction 1 as [|x l Hx _ IH]; [done|]. cbn [insert_rule app]. unfold prio_desc in Hx.
  destruct (Z.geb_spec (priority x) (priority r)); [by rewrite IH | lia].
Qed.

Lemma sorted_snoc (l : list PolicyRule) (r : PolicyRule) : sorted (l ++ [r]) -> sorted l /\ Forall (fun x => prio_desc x r) l.
Proof.
  induction l as [|x l IH]; [done|]. cbn [app sorted]. intros [Hx Hl]. apply Forall_app in Hx as [Hx Hr].
  apply IH in Hl as [Hl1 Hl2]. inversion Hr; subst. split; [done | by constructor].
Qed.

Lemma sort_id (l : list PolicyRule) : sorted l -> sort_rules l = l.
Proof.
  induction l as [|r l IH] using rev_ind; [done|]. intros [Hl Hr]%sorted_snoc. rewrite sort_snoc, IH by done. by apply insert_last.
Qed.

Lemma filter_insert (P : PolicyRule -> Prop) `{!forall x, Decision (P x)} (r : PolicyRule) (l : list PolicyRule) :
  sorted l -> filter P (insert_rule r l) = if decide (P r) then insert_rule r (filter P l) else filter P l.
Proof.
  induction l as [|y l IH]; intros Hs; cbn [insert_rule].
  - rewrite filter_cons. by destruct (decide (P r)).
  - destruct Hs as [Hy Hl]. destruct (Z.geb_spec (priority y) (priority r)) as [Hge|Hlt].
    + rewrite !filter_cons, IH by done. destruct (decide (P y)), (decide (P r)); try done.
      cbn [insert_rule]. by destruct (Z.geb_spec (priority y) (priority r)); [|lia].
    + rewrite (filter_cons P r). destruct (decide (P r)); [|done].
      assert (Hall : Forall (fun x => priority x < priority r) (filter P (y :: l))).
      { apply Forall_forall. intros x [_ Hx]%list_elem_of_filter. rewrite Forall_forall in Hy.
        apply elem_of_cons in Hx as [->|Hx]; [lia|]. specialize (Hy x Hx). unfold prio_desc in Hy. lia. }
      destruct (filter P (y :: l)) as [|z l']; [done|]. cbn [insert_rule]. inversion Hall; subst.
      by destruct (Z.geb_spec (priority z) (priority r)); [lia|].
Qed.

Lemma filter_sort (P : PolicyRule -> Prop) `{!forall x, Decision (P x)} (l : list PolicyRule) :
  filter P (sort_rules l) = sort_rules (filter P l).
Proof.
  induction l as [|r l IH] using rev_ind; [done|]. rewrite sort_snoc, filter_insert by apply sort_sorted.
  rewrite filter_app, filter_cons, filter_nil. destruct (decide (P r)); [by rewrite sort_snoc, IH | by rewrite app_nil_r].
Qed.

(** ** The reference: the best of the rules in the order they were added *)

(** A later rule has to have a higher priority to win. *)
Definition better (test : PolicyRule -> bool) (best : option PolicyRule) (r : PolicyRule) : option PolicyRule :=
  if test r then
    match best with
    | Some b => if priority b >=? priority r then best else Some r
    | None => Some r
    end
  else best.

Definition best_match (test : PolicyRule -> bool) (l : list PolicyRule) : option PolicyRule := foldl (better test) None l.

Lemma find_insert (test : PolicyRule -> bool) (r : PolicyRule) (l : list PolicyRule) :
  sorted l -> List.find test (insert_rule r l) = better test (List.find test l) r.
Proof.
  unfold better. induction l as [|y l IH]; intros Hs; cbn [insert_rule List.find]; [by destruct (test r)|].
  destruct Hs as [Hy Hl]. destruct (Z.geb_spec (priority y) (priority r)) as [Hge|Hlt]; cbn [List.find].
  - rewrite IH by done. destruct (test y); [|done]. destruct (test r); [|done].
    by destruct (Z.geb_spec (priority y) (priority r)); [|lia].
  - destruct (test r); [|done]. destruct (test y).
    + by destruct (Z.geb_spec (priority y) (priority r)); [lia|].
    + destruct (List.find test l) as [z|] eqn:Ez; [|done]. apply List.find_some in Ez as [Hz _].
      rewrite Forall_forall in Hy. assert (Hz' : z ∈ l) by (by apply list_elem_of_In). specialize (Hy z Hz'). unfold prio_desc in Hy.
      by destruct (Z.geb_spec (priority z) (priority r)); [lia|].
Qed.

Lemma find_sort (test : PolicyRule -> bool) (l : list PolicyRule) : List.find test (sort_rules l) = best_match test l.
Proof.
  induction l as [|r l IH] using rev_ind; [done|]. rewrite sort_snoc, find_insert by apply sort_sorted.
  rewrite IH. unfold best_match. by rewrite foldl_app.
Qed.

(** What the reference picks. *)
Lemma best_match_spec (test : PolicyRule -> bool) (l : list PolicyRule) :
  match best_match test l with
  | Some b => exists l1 l2, l = l1 ++ b :: l2 /\ test b = true /\
      Forall (fun x => test x = true -> priority x < priority b) l1 /\
      Forall (fun x => test x = true -> priority x <= priority b) l2
  | None => Forall (fun x => test x = false) l
  end.
Proof.
  induction l as [|r l IH] using rev_ind; [constructor|]. unfold best_match in *. rewrite foldl_app. cbn [foldl].
  set (best := foldl (better test) None l) in *. unfold better. destruct (test r) eqn:Er.
  - destruct best as [b|].
    + destruct IH as (l1 & l2 & -> & Hb & H1 & H2). destruct (Z.geb_spec (priority b) (priority r)) as [Hge|Hlt].
      * exists l1, (l2 ++ [r]). rewrite <- app_assoc. split; [done|]. split; [done|]. split; [done|].
        apply Forall_app. split; [done|]. constructor; [lia | constructor].
      * exists (l1 ++ b :: l2), []. split; [done|]. split; [done|]. split; [|constructor].
        apply Forall_app. split; [eapply Forall_impl; [exact H1|]; intros x Hx Ht; specialize (Hx Ht); lia|].
        constructor; [lia|]. eapply Forall_impl; [exact H2|]. intros x Hx Ht. specialize (Hx Ht). lia.
    + exists l, []. split; [done|]. split; [done|]. split; [|constructor]. eapply Forall_impl; [exact IH|]. intros x Hx. simpl. congruence.
  - destruct best as [b|].
    + destruct IH as (l1 & l2 & -> & Hb & H1 & H2). exists l1, (l2 ++ [r]). rewrite <- app_assoc.
      split; [done|]. split; [done|]. split; [done|]. apply Forall_app. split; [done|]. constructor; [congruence | constructor].
    + apply Forall_app. split; [done | by constructor].
Qed.

(** ** The engine in use *)

Inductive policy_op :=
| OpAddRule (r : PolicyRule) | OpRemoveRule (id : Z) | OpCheck (test : PolicyRule -> bool) | OpClearRules.

Definition policy_apply (p : SecurityPolicy) (op : policy_op) : SecurityPolicy :=
  match op with
  | OpAddRule r => add_rule p r
  | OpRemoveRule id => (remove_rule p id).2
  | OpCheck test => (check_with p test).2
  | OpClearRules => policy_clear p
  end.

(** The rules in the order they were added. *)
Definition added_apply (l : list PolicyRule) (op : policy_op) : list PolicyRule :=
  match op with
  | OpAddRule r => l ++ [r]
  | OpRemoveRule id => filter (fun r => rule_id r <> id) l
  | OpCheck _ => l
  | OpClearRules => []
  end.

Lemma check_with_rules (p : SecurityPolicy) (test : PolicyRule -> bool) :
  rules (check_with p test).2 = rules p /\ pol_enabled (check_with p test).2 = pol_enabled p.
Proof. unfold check_with. destruct (pol_enabled p) eqn:E; cbn [negb snd]; [|by split]. by destruct (List.find test (rules p)). Qed.

Lemma policy_run_rules (p : SecurityPolicy) (l : list PolicyRule) (ops : list policy_op) :
  rules p = sort_rules l ->
  rules (foldl policy_apply p ops) = sort_rules (foldl added_apply l ops) /\ pol_enabled (foldl policy_apply p ops) = pol_enabled p.
Proof.
  revert p l. induction ops as [|op ops IH]; intros p l Hp; [done|]. cbn [foldl].
  assert (He : pol_enabled (policy_apply p op) = pol_enabled p) by (destruct op; [done | done | apply check_with_rules | done]).
  rewrite <- He. apply IH. destruct op as [r|id|test|]; cbn [policy_apply added_apply].
  - cbn [add_rule with_rules rules]. rewrite Hp, !sort_snoc. by rewrite sort_id by apply sort_sorted.
  - cbn [remove_rule snd with_rules rules]. by rewrite Hp, filter_sort.
  - by rewrite (proj1 (check_with_rules p test)).
  - done.
Qed.

(** C18: the engine is equivalent to its specification: after any additions,
    removals, clearings and checks, a check is decided by the rule that matches
    with the highest priority, the one added first among equals, and denied when
    none matches; exactly one of the two counters grows. *)
Theorem policy_decides_by_best_rule (name : string) (ops : list policy_op) (test : PolicyRule -> bool) :
  let p := foldl policy_apply (SecurityPolicy_new name) ops in
  let added := foldl added_apply [] ops in
  let '(d, p') := check_with p test in
  d = match best_match test added with Some r => from_rule r | None => default_deny end /\
  match best_match test added with
  | Some r => r ∈ added /\ test r = true /\ forall x, x ∈ added -> test x = true -> priority x <= priority r
  | None => forall x, x ∈ added -> test x = false
  end /\
  pol_stats p' = (if is_allow (dec_action d) then count_allowed else count_denied) (count_check (pol_stats p)).
Proof.
  intros p added. destruct (policy_run_rules (SecurityPolicy_new name) [] ops eq_refl) as [Hr He].
  fold p in Hr, He. fold added in Hr. unfold check_with. rewrite He, Hr, find_sort. cbn [negb SecurityPolicy_new pol_enabled].
  pose proof (best_match_spec test added) as Hs. destruct (best_match test added) as [r|].
  - split; [done|]. split; [|cbn [from_rule dec_action with_stats pol_stats]; by destruct (is_allow (action r))].
    destruct Hs as (l1 & l2 & -> & Ht & H1 & H2). split; [set_solver|]. split; [done|]. rewrite Forall_forall in H1, H2.
    intros x [Hx|[->|Hx]%elem_of_cons]%elem_of_app Htx; [specialize (H1 x Hx Htx); lia | lia | by apply H2].
  - split; [done|]. split; [|done]. rewrite Forall_forall in Hs. done.
Qed.

(** the initial policy lets the kernel domain do everything and denies all
    other domains everything, with an audit. *)
Theorem initial_policy_correct (counter domain_id : Z) (ty path rty : string) (rid : Z) (op : PolicyOperation) :
  dec_action (check (policy_init counter) domain_id ty rid rty op).1 = (if domain_id =? 0 then PAllow else DenyAudit) /\
  dec_action (check_path (policy_init counter) domain_id ty path op).1 = (if domain_id =? 0 then PAllow else DenyAudit).
Proof.
  unfold check, check_path, check_with, policy_init, PolicyRule_new.
  cbn [set_enabled add_rule with_rules rules sort_rules foldl insert_rule app SecurityPolicy_new with_priority with_description priority pol_enabled negb Z.geb Z.compare Pos.compare Pos.compare_cont List.find].
  unfold rule_matches, rule_matches_path, operation_matches, matches_domain. cbn. destruct domain_id; split; reflexivity.
Qed.

(** ** Paths *)

(** A pattern that ends in [/*] is compared without the slash: it also matches
    siblings whose names extend the directory's, and deeper paths. *)
Lemma star_pattern_matches_sibling :
  object_matches_path (Path "/home/*") "/homework" = true /\ object_matches_path (Path "/home/*") "/home/a/b" = true.
Proof. split; reflexivity. Qed.

(** The default action that can be set is never consulted. *)
Lemma default_action_ignored (p : SecurityPolicy) (a : PolicyAction) (test : PolicyRule -> bool) :
  (check_with (set_default_action p a) test).1 = (check_with p test).1.
Proof. unfold check_with. cbn. destruct (pol_enabled p); [|done]. by destruct (List.find test (rules p)). Qed.
