(* ===== verification/AuditLog.v ===== *)
(** * The audit log and the access control of domains
    (src/src/security/audit.rs and src/src/security/mod.rs)

    The audit log is a bounded queue of records with counters; records take their
    identifiers from a static counter.  The access control manager keeps one set
    of permissions per domain.  What [crate::log!] prints is returned, as the
    lines printed. *)

From stdpp Require Import base list strings pretty sets.
From Stdlib Require Import ZArith Lia Ascii.
From S2P Require Import Prelude.

Local Open Scope Z_scope.

(** ** audit.rs *)

Module Audit.

Inductive AuditEventType :=
| DomainCreate | DomainTerminate | DomainContextChange
| FileAccess | NetworkAccess | MemoryMap | IpcOperation
| MacDecision | CapabilityCheck | PermissionDenied | PrivilegeEscalation
| Syscall | ModuleLoad | ConfigChange
| LoginAttempt | Logout | AuthFailure.

#[export] Instance AuditEventType_eq_dec : EqDecision AuditEventType.
Proof. solve_decision. Defined.

Definition event_name (t : AuditEventType) : string :=
  match t with
  | DomainCreate => "DOMAIN_CREATE"
  | DomainTerminate => "DOMAIN_TERMINATE"
  | DomainContextChange => "DOMAIN_CONTEXT_CHANGE"
  | FileAccess => "FILE_ACCESS"
  | NetworkAccess => "NETWORK_ACCESS"
  | MemoryMap => "MEMORY_MAP"
  | IpcOperation => "IPC_OPERATION"
  | MacDecision => "MAC_DECISION"
  | CapabilityCheck => "CAPABILITY_CHECK"
  | PermissionDenied => "PERMISSION_DENIED"
  | PrivilegeEscalation => "PRIVILEGE_ESCALATION"
  | Syscall => "SYSCALL"
  | ModuleLoad => "MODULE_LOAD"
  | ConfigChange => "CONFIG_CHANGE"
  | LoginAttempt => "LOGIN_ATTEMPT"
  | Logout => "LOGOUT"
  | AuthFailure => "AUTH_FAILURE"
  end.

Definition is_critical (t : AuditEventType) : bool :=
  match t with
  | PrivilegeEscalation | PermissionDenied | AuthFailure | ModuleLoad => true
  | _ => false
  end.

Record AuditRecord := mkRecord {
  id : Z;
  timestamp : Z;
  event_type : AuditEventType;
  domain_id : Z;
  success : bool;
  message : string;
  fields : list (string * string)
}.

(** [AuditRecord::new] at the tick [now] takes the identifier [next_id]. *)
Definition AuditRecord_new (now next_id : Z) (t : AuditEventType) (d : Z) (ok : bool) : AuditRecord * Z :=
  (mkRecord next_id now t d ok EmptyString [], next_id +w 1).

Definition with_message (r : AuditRecord) (m : string) : AuditRecord :=
  mkRecord (id r) (timestamp r) (event_type r) (domain_id r) (success r) m (fields r).
Definition with_field (r : AuditRecord) (k v : string) : AuditRecord :=
  mkRecord (id r) (timestamp r) (event_type r) (domain_id r) (success r) (message r) (fields r ++ [(k, v)]).

Definition quote : string := String (ascii_of_nat 34) EmptyString.

(** [AuditRecord::format] *)
Definition record_format (r : AuditRecord) : string :=
  let head := "audit(" +:+ pretty (timestamp r) +:+ ":" +:+ pretty (id r) +:+ "): type=" +:+ event_name (event_type r)
    +:+ " domain=" +:+ pretty (domain_id r) +:+ " success=" +:+ (if success r then "yes" else "no") in
  let with_msg := if String.eqb (message r) EmptyString then head else head +:+ " msg=" +:+ quote +:+ message r +:+ quote in
  foldl (fun acc f => acc +:+ " " +:+ f.1 +:+ "=" +:+ f.2) with_msg (fields r).

Record AuditEvent := mkEvent {
  ev_type : AuditEventType;
  ev_domain : Z;
  ev_success : bool;
  ev_message : option string;
  ev_fields : list (string * string)
}.

Definition AuditEvent_new (t : AuditEventType) (d : Z) : AuditEvent := mkEvent t d true None [].
Definition event_success (e : AuditEvent) (b : bool) : AuditEvent :=
  mkEvent (ev_type e) (ev_domain e) b (ev_message e) (ev_fields e).
Definition event_message (e : AuditEvent) (m : string) : AuditEvent :=
  mkEvent (ev_type e) (ev_domain e) (ev_success e) (Some m) (ev_fields e).
Definition event_field (e : AuditEvent) (k v : string) : AuditEvent :=
  mkEvent (ev_type e) (ev_domain e) (ev_success e) (ev_message e) (ev_fields e ++ [(k, v)]).

Definition to_record (now next_id : Z) (e : AuditEvent) : AuditRecord * Z :=
  let '(r, n) := AuditRecord_new now next_id (ev_type e) (ev_domain e) (ev_success e) in
  let r1 := match ev_message e with Some m => with_message r m | None => r end in
  (mkRecord (id r1) (timestamp r1) (event_type r1) (domain_id r1) (success r1) (message r1) (ev_fields e), n).

Record AuditLog := mkLog {
  records : list AuditRecord;
  max_records : Z;
  enabled : bool;
  total_records : Z;
  dropped_records : Z;
  critical_only : bool
}.

Definition AuditLog_new (max : Z) : AuditLog := mkLog [] max true 0 0 false.

(** The tail of [log] and [log_record]: the oldest record makes room. *)
Definition push_record (l : AuditLog) (r : AuditRecord) : AuditLog :=
  let full := max_records l <=? Z.of_nat (length (records l)) in
  mkLog ((if full then tail (records l) else records l) ++ [r]) (max_records l) (enabled l)
    (total_records l +w 1) (if full then dropped_records l +w 1 else dropped_records l) (critical_only l).

(** [log]: the new log, the next identifier and what is printed. *)
Definition log (now next_id : Z) (l : AuditLog) (e : AuditEvent) : AuditLog * Z * list string :=
  if negb (enabled l) then (l, next_id, [])
  else if critical_only l && negb (is_critical (ev_type e)) then (l, next_id, [])
  else
    let '(r, n) := to_record now next_id e in
    (push_record l r, n, if is_critical (ev_type e) then ["[AUDIT] " +:+ record_format r] else []).

Definition log_record (l : AuditLog) (r : AuditRecord) : AuditLog * list string :=
  if negb (enabled l) then (l, [])
  else if critical_only l && negb (is_critical (event_type r)) then (l, [])
  else (push_record l r, if is_critical (event_type r) then ["[AUDIT] " +:+ record_format r] else []).

Definition get_by_type (l : AuditLog) (t : AuditEventType) : list AuditRecord := filter (fun r => event_type r = t) (records l).
Definition get_by_domain (l : AuditLog) (d : Z) : list AuditRecord := filter (fun r => domain_id r = d) (records l).
Definition get_failures (l : AuditLog) : list AuditRecord := filter (fun r => success r = false) (records l).

Definition audit_clear (l : AuditLog) : AuditLog :=
  mkLog [] (max_records l) (enabled l) (total_records l) (dropped_records l) (critical_only l).
Definition audit_set_enabled (l : AuditLog) (b : bool) : AuditLog :=
  mkLog (records l) (max_records l) b (total_records l) (dropped_records l) (critical_only l).
Definition set_critical_only (l : AuditLog) (b : bool) : AuditLog :=
  mkLog (records l) (max_records l) (enabled l) (total_records l) (dropped_records l) b.

Record AuditStats := mkAuditStats { st_total : Z; st_dropped : Z; st_current : Z; st_max : Z }.

Definition audit_stats (l : AuditLog) : AuditStats :=
  mkAuditStats (total_records l) (dropped_records l) (Z.of_nat (length (records l))) (max_records l).

Definition AUDIT_LOG : AuditLog := AuditLog_new 10000.

End Audit.

(** ** security/mod.rs *)

Module AccessControl.

Record SecurityCapabilities := mkSecCaps {
  can_call_kernel_api : bool;
  can_map_memory : bool;
  can_access_io : bool;
  can_register_interrupts : bool;
  can_ipc : bool;
  allows_unsafe : bool;
  can_network : bool;
  can_filesystem : bool
}.

Definition SANDBOXED : SecurityCapabilities := mkSecCaps false false false false false false false false.
Definition USER_APP : SecurityCapabilities := mkSecCaps true false false false true false true true.
Definition DRIVER : SecurityCapabilities := mkSecCaps true true true true true true false false.
Definition KERNEL : SecurityCapabilities := mkSecCaps true true true true true true true true.

Inductive SecurityLevel := Untrusted | SafeRust | AuditedUnsafe | Framework | KernelCore.

Definition level_u8 (l : SecurityLevel) : Z :=
  match l with
  | Untrusted => 0
  | SafeRust => 1
  | AuditedUnsafe => 2
  | Framework => 3
  | KernelCore => 4
  end.
Definition has_privilege_over (l other : SecurityLevel) : bool := level_u8 l >=? level_u8 other.

Record AccessControlManager := mkACM {
  domain_caps : list (Z * SecurityCapabilities);
  violations : Z;
  audit_enabled : bool
}.

Definition ACM_new : AccessControlManager := mkACM [] 0 true.

(** The entry is updated in place, or pushed. *)
Definition set_capabilities (m : AccessControlManager) (d : Z) (c : SecurityCapabilities) : AccessControlManager :=
  mkACM (vec_set d c (domain_caps m)) (violations m) (audit_enabled m).

Definition get_capabilities (m : AccessControlManager) (d : Z) : SecurityCapabilities :=
  default SANDBOXED (vec_find d (domain_caps m)).

Record SecurityViolation := mkViolation { viol_domain : Z; viol_operation : string }.

Definition violation (m : AccessControlManager) (d : Z) (op : string) :
    result unit SecurityViolation * AccessControlManager :=
  (Err (mkViolation d op), mkACM (domain_caps m) (violations m +w 1) (audit_enabled m)).

(** The [if required.x && !actual.x] of [check_permission], in their order. *)
Definition check_permission (m : AccessControlManager) (d : Z) (required : SecurityCapabilities) :
    result unit SecurityViolation * AccessControlManager :=
  let actual := get_capabilities m d in
  if can_call_kernel_api required && negb (can_call_kernel_api actual) then violation m d "kernel API call"
  else if can_map_memory required && negb (can_map_memory actual) then violation m d "memory mapping"
  else if can_access_io required && negb (can_access_io actual) then violation m d "I/O access"
  else if can_register_interrupts required && negb (can_register_interrupts actual) then violation m d "interrupt registration"
  else if can_ipc required && negb (can_ipc actual) then violation m d "IPC"
  else if allows_unsafe required && negb (allows_unsafe actual) then violation m d "unsafe code"
  else if can_network required && negb (can_network actual) then violation m d "network access"
  else if can_filesystem required && negb (can_filesystem actual) then violation m d "filesystem access"
  else (Ok tt, m).

Record ZeroCopySecurityBarrier := mkBarrier { bytes_transferred : Z; transfers_denied : Z }.

Definition Barrier_new : ZeroCopySecurityBarrier := mkBarrier 0 0.

Inductive TransferSecurityError := NullPointer | SizeTooLarge | AddressOverflow | AccessDenied.

Definition MAX_TRANSFER_SIZE : Z := Z.shiftl 1 30.

Definition deny_transfer (b : ZeroCopySecurityBarrier) : ZeroCopySecurityBarrier :=
  mkBarrier (bytes_transferred b) (transfers_denied b +w 1).
Definition count_transfer (b : ZeroCopySecurityBarrier) (size : Z) : ZeroCopySecurityBarrier :=
  mkBarrier (bytes_transferred b +w size) (transfers_denied b).

Definition check_transfer (b : ZeroCopySecurityBarrier) (from_domain to_domain ptr size : Z) :
    result unit TransferSecurityError * ZeroCopySecurityBarrier :=
  if ptr =? 0 then (Err NullPointer, deny_transfer b)
  else if size >? MAX_TRANSFER_SIZE then (Err SizeTooLarge, deny_transfer b)
  else if from_domain =? to_domain then (Ok tt, count_transfer b size)
  else if u64_max <? ptr + size then (Err AddressOverflow, deny_transfer b)
  else (Ok tt, count_transfer b size).

(** The second audit log: [events.remove(0)] panics on an empty vector. *)
Section SecAudit.

Context {Event : Type}.

Record SecAuditLog := mkSecLog { events : list Event; max_events : Z; sec_enabled : bool }.

Definition SecAuditLog_new (max : Z) : SecAuditLog := mkSecLog [] max true.

Definition sec_log (l : SecAuditLog) (e : Event) : outcome SecAuditLog :=
  if negb (sec_enabled l) then Ret l
  else if max_events l <=? Z.of_nat (length (events l)) then
    match events l with
    | [] => Panic
    | _ :: es => Ret (mkSecLog (es ++ [e]) (max_events l) (sec_enabled l))
    end
  else Ret (mkSecLog (events l ++ [e]) (max_events l) (sec_enabled l)).

Definition sec_clear (l : SecAuditLog) : SecAuditLog := mkSecLog [] (max_events l) (sec_enabled l).
Definition sec_set_enabled (l : SecAuditLog) (b : bool) : SecAuditLog := mkSecLog (events l) (max_events l) b.

End SecAudit.

Record TcbTracker := mkTcb { unsafe_blocks : Z; unsafe_functions : Z; framework_loc : Z; safe_loc : Z }.

Definition register_unsafe_block (t : TcbTracker) : TcbTracker :=
  mkTcb (unsafe_blocks t +w 1) (unsafe_functions t) (framework_loc t) (safe_loc t).
Definition register_unsafe_function (t : TcbTracker) : TcbTracker :=
  mkTcb (unsafe_blocks t) (unsafe_functions t +w 1) (framework_loc t) (safe_loc t).

(** [init] *)
Definition security_init (m : AccessControlManager) : AccessControlManager := set_capabilities m 0 KERNEL.

End AccessControl.

(** * The audit log keeps the latest records; permissions are checked exactly *)

(** ** The audit log *)

Module AuditSpec.
Import Audit.

Inductive audit_op :=
| OpLog (now : Z) (e : AuditEvent) | OpLogRecord (r : AuditRecord) | OpClear | OpEnable (b : bool) | OpCriticalOnly (b : bool).

(** One operation on the log, the identifier counter and the console. *)
Definition audit_apply (s : AuditLog * Z * list string) (op : audit_op) : AuditLog * Z * list string :=
  let '(l, n, out) := s in
  match op with
  | OpLog now e => let '(l', n', o) := log now n l e in (l', n', out ++ o)
  | OpLogRecord r => let '(l', o) := log_record l r in (l', n, out ++ o)
  | OpClear => (audit_clear l, n, out)
  | OpEnable b => (audit_set_enabled l b, n, out)
  | OpCriticalOnly b => (set_critical_only l b, n, out)
  end.

(** The specification keeps every record. *)
Record history := mkHist {
  h_enabled : bool;
  h_critical : bool;
  h_next : Z;
  h_since_clear : list AuditRecord;
  h_all : list AuditRecord
}.

Definition hist_add (h : history) (n : Z) (r : AuditRecord) : history :=
  mkHist (h_enabled h) (h_critical h) n (h_since_clear h ++ [r]) (h_all h ++ [r]).

Definition accepts (h : history) (t : AuditEventType) : bool := h_enabled h && (negb (h_critical h) || is_critical t).

Definition hist_apply (h : history) (op : audit_op) : history :=
  match op with
  | OpLog now e =>
      if accepts h (ev_type e) then let '(r, n) := to_record now (h_next h) e in hist_add h n r else h
  | OpLogRecord r => if accepts h (event_type r) then hist_add h (h_next h) r else h
  | OpClear => mkHist (h_enabled h) (h_critical h) (h_next h) [] (h_all h)
  | OpEnable b => mkHist b (h_critical h) (h_next h) (h_since_clear h) (h_all h)
  | OpCriticalOnly b => mkHist (h_enabled h) b (h_next h) (h_since_clear h) (h_all h)
  end.

Definition latest {A} (n : Z) (l : list A) : list A := drop (length l - Z.to_nat n) l.

Lemma latest_snoc {A} (n : Z) (l : list A) (x : A) :
  1 <= n -> latest n (l ++ [x]) = (if n <=? Z.of_nat (length (latest n l)) then tail (latest n l) else latest n l) ++ [x].
Proof.
  intros Hn. unfold latest. rewrite length_app, length_drop. cbn [length].
  destruct (Z.leb_spec n (Z.of_nat (length l - (length l - Z.to_nat n)))).
  - replace (tail (drop (length l - Z.to_nat n) l)) with (drop 1 (drop (length l - Z.to_nat n) l)) by (by destruct (drop _ l)).
    rewrite drop_drop. rewrite drop_app_le by lia. do 2 f_equal. lia.
  - rewrite drop_app_le by lia. do 2 f_equal. lia.
Qed.

Lemma latest_length {A} (n : Z) (l : list A) : 0 <= n -> Z.of_nat (length (latest n l)) = Z.min n (Z.of_nat (length l)).
Proof. intros. unfold latest. rewrite length_drop. lia. Qed.

Definition console_of (all : list AuditRecord) : list string :=
  map (fun r => "[AUDIT] " +:+ record_format r) (filter (fun r => is_critical (event_type r) = true) all).

(** The log refines the history. *)
Definition refines (m : Z) (s : AuditLog * Z * list string) (h : history) : Prop :=
  let '(l, n, out) := s in
  max_records l = m /\ enabled l = h_enabled h /\ critical_only l = h_critical h /\ n = h_next h /\
  records l = latest m (h_since_clear h) /\ total_records l = wrap64 (Z.of_nat (length (h_all h))) /\
  out = console_of (h_all h).

Lemma to_record_type (now n : Z) (e : AuditEvent) : event_type (to_record now n e).1 = ev_type e.
Proof. unfold to_record. cbn. by destruct (ev_message e). Qed.

Lemma wrap_succ (z : Z) : wrap64 z +w 1 = wrap64 (z + 1).
Proof. unfold wrap64. by rewrite Zplus_mod_idemp_l. Qed.

Lemma refines_push (m : Z) (l : AuditLog) (n n' : Z) (out : list string) (h : history) (r : AuditRecord) :
  1 <= m -> refines m (l, n, out) h ->
  refines m (push_record l r, n', out ++ (if is_critical (event_type r) then ["[AUDIT] " +:+ record_format r] else [])) (hist_add h n' r).
Proof.
  intros Hm (H1 & H2 & H3 & H4 & H5 & H6 & H7). unfold refines, push_record, hist_add. cbn [max_records enabled critical_only records total_records h_enabled h_critical h_next h_since_clear h_all].
  split; [done|]. split; [done|]. split; [done|]. split; [done|]. split; [|split].
  - by rewrite H1, H5, latest_snoc.
  - rewrite H6, wrap_succ, length_app. cbn [length]. f_equal. lia.
  - unfold console_of. rewrite filter_app, map_app, H7. unfold console_of. f_equal.
    rewrite filter_cons, filter_nil. by destruct (is_critical (event_type r)).
Qed.

Lemma accepts_iff (l : AuditLog) (h : history) (t : AuditEventType) :
  enabled l = h_enabled h -> critical_only l = h_critical h ->
  accepts h t = negb (negb (enabled l)) && negb (critical_only l && negb (is_critical t)).
Proof. intros -> ->. unfold accepts. by destruct (h_enabled h), (h_critical h), (is_critical t). Qed.

Lemma refines_apply (m : Z) (s : AuditLog * Z * list string) (h : history) (op : audit_op) :
  1 <= m -> refines m s h -> refines m (audit_apply s op) (hist_apply h op).
Proof.
  intros Hm Hr. destruct s as [[l n] out]. pose proof Hr as (H1 & H2 & H3 & H4 & H5 & H6 & H7).
  assert (Hid : refines m (l, n, out ++ []) h) by (by rewrite app_nil_r).
  destruct op as [now e|r| |b|b]; cbn [audit_apply hist_apply]; try done.
  - unfold log. rewrite (accepts_iff l) by done. destruct (enabled l); [|done].
    destruct (critical_only l && negb (is_critical (ev_type e))); [done|]. cbn [negb andb].
    pose proof (to_record_type now n e) as Ht. rewrite <- H4. destruct (to_record now n e) as [r n']. cbn [fst] in Ht.
    rewrite <- Ht. by apply (refines_push m l n n').
  - unfold log_record. rewrite (accepts_iff l) by done. destruct (enabled l); [|done].
    destruct (critical_only l && negb (is_critical (event_type r))); [done|]. cbn [negb andb]. rewrite <- H4. by apply (refines_push m l n n).
Qed.

Definition hist_init (n : Z) : history := mkHist true false n [] [].

(** a run of the audit log holds exactly the latest [max] of the records the
    filter accepted since the last clearing, in order, its length never exceeds
    [max], the total counts all of them, and exactly the critical ones were
    printed. *)
Theorem audit_log_keeps_latest (m n : Z) (ops : list audit_op) :
  1 <= m ->
  let '(l, _, out) := foldl audit_apply (AuditLog_new m, n, []) ops in
  let h := foldl hist_apply (hist_init n) ops in
  records l = latest m (h_since_clear h) /\ Z.of_nat (length (records l)) = Z.min m (Z.of_nat (length (h_since_clear h))) /\
  total_records l = wrap64 (Z.of_nat (length (h_all h))) /\ out = console_of (h_all h).
Proof.
  intros Hm.
  assert (H : forall s h, refines m s h -> refines m (foldl audit_apply s ops) (foldl hist_apply h ops)).
  { induction ops as [|op ops IH]; intros s h Hr; [done|]. cbn [foldl]. apply IH. by apply refines_apply. }
  specialize (H (AuditLog_new m, n, []) (hist_init n)). destruct (foldl audit_apply (AuditLog_new m, n, []) ops) as [[l n'] out].
  destruct H as (H1 & H2 & H3 & H4 & H5 & H6 & H7); [by repeat split|].
  split; [done|]. split; [rewrite H5; apply latest_length; lia | done].
Qed.

(** With room for two records, the third critical event displaces the first. *)
Lemma audit_log_keeps_latest_witness :
  let ops := [OpLog 5 (AuditEvent_new AuthFailure 1); OpLog 6 (AuditEvent_new ModuleLoad 2); OpCriticalOnly true;
              OpLog 7 (AuditEvent_new Syscall 3); OpLog 8 (AuditEvent_new PermissionDenied 4)] in
  let '(l, _, out) := foldl audit_apply (AuditLog_new 2, 1, []) ops in
  let h := foldl hist_apply (hist_init 1) ops in
  map domain_id (records l) = [2; 4] /\ length out = 3%nat /\
  (records l = latest 2 (h_since_clear h) /\ Z.of_nat (length (records l)) = Z.min 2 (Z.of_nat (length (h_since_clear h))) /\
   total_records l = wrap64 (Z.of_nat (length (h_all h))) /\ out = console_of (h_all h)).
Proof.
  cbv zeta. pose proof (audit_log_keeps_latest 2 1 [OpLog 5 (AuditEvent_new AuthFailure 1); OpLog 6 (AuditEvent_new ModuleLoad 2);
    OpCriticalOnly true; OpLog 7 (AuditEvent_new Syscall 3); OpLog 8 (AuditEvent_new PermissionDenied 4)] ltac:(lia)) as H.
  assert (Hc : let '(l, _, out) := foldl audit_apply (AuditLog_new 2, 1, []) [OpLog 5 (AuditEvent_new AuthFailure 1);
    OpLog 6 (AuditEvent_new ModuleLoad 2); OpCriticalOnly true; OpLog 7 (AuditEvent_new Syscall 3); OpLog 8 (AuditEvent_new PermissionDenied 4)] in
    map domain_id (records l) = [2; 4] /\ length out = 3%nat) by (vm_compute; split; reflexivity).
  destruct (foldl audit_apply _ _) as [[l n] out]. destruct Hc as [Hc1 Hc2]. split; [exact Hc1|]. split; [exact Hc2|]. exact H.
Defined.

End AuditSpec.

(** ** Access control *)

Module AccessSpec.
Import AccessControl.

(** Every permission that is required is held. *)
Definition covers (actual required : SecurityCapabilities) : Prop :=
  Forall (fun f => f required = true -> f actual = true)
    [can_call_kernel_api; can_map_memory; can_access_io; can_register_interrupts; can_ipc; allows_unsafe; can_network; can_filesystem].

Inductive access_op := OpSet (d : Z) (c : SecurityCapabilities) | OpCheck (d : Z) (r : SecurityCapabilities).

Definition access_apply (m : AccessControlManager) (op : access_op) : AccessControlManager :=
  match op with
  | OpSet d c => set_capabilities m d c
  | OpCheck d r => (check_permission m d r).2
  end.

(** The permissions last given to a domain. *)
Definition granted (d : Z) (ops : list access_op) (c0 : SecurityCapabilities) : SecurityCapabilities :=
  foldl (fun c op => match op with OpSet d' c' => if d' =? d then c' else c | OpCheck _ _ => c end) c0 ops.

Lemma set_get (m : AccessControlManager) (d d' : Z) (c : SecurityCapabilities) :
  get_capabilities (set_capabilities m d c) d' = if d =? d' then c else get_capabilities m d'.
Proof.
  unfold get_capabilities, set_capabilities. cbn [domain_caps].
  rewrite vec_find_set, (Z.eqb_sym d' d). by destruct (d =? d').
Qed.

Lemma missing_spec (x y : bool) : reflect (~ (x = true -> y = true)) (x && negb y).
Proof. destruct x, y; constructor; naive_solver. Qed.

Lemma check_permission_cases (m : AccessControlManager) (d : Z) (r : SecurityCapabilities) :
  (check_permission m d r = (Ok tt, m) /\ covers (get_capabilities m d) r) \/
  ((exists op, check_permission m d r = violation m d op) /\ ~ covers (get_capabilities m d) r).
Proof.
  unfold check_permission, covers. rewrite !Forall_cons, Forall_nil. generalize (get_capabilities m d). cbv beta. intros a.
  repeat match goal with |- context [if (?x && negb ?y) then _ else _] =>
    destruct (missing_spec x y) as [Hm|?%dec_stable]; [right; split; [by eexists|tauto]|] end.
  left. split; [reflexivity|tauto].
Qed.

Lemma granted_run (m : AccessControlManager) (d : Z) (ops : list access_op) :
  get_capabilities (foldl access_apply m ops) d = granted d ops (get_capabilities m d).
Proof.
  revert m. induction ops as [|op ops IH]; intros m; [done|]. cbn [foldl]. rewrite IH. unfold granted. cbn [foldl]. f_equal.
  destruct op as [d' c|d' r]; cbn [access_apply]; [apply set_get|].
  destruct (check_permission_cases m d' r) as [[-> _]|[[op ->] _]]; done.
Qed.

(** after any run on a fresh manager a permission check of a domain succeeds
    exactly when all the permissions it needs are among those last given to the
    domain (none for a domain never given any); a refused check is counted as a
    violation, and no check changes any domain's permissions. *)
Theorem check_permission_correct (ops : list access_op) (d : Z) (r : SecurityCapabilities) :
  let m := foldl access_apply (security_init ACM_new) ops in
  let actual := granted d ops (if d =? 0 then KERNEL else SANDBOXED) in
  ((check_permission m d r).1 = Ok tt <-> covers actual r) /\
  ((check_permission m d r).1 <> Ok tt -> violations (check_permission m d r).2 = violations m +w 1) /\
  forall d', get_capabilities (check_permission m d r).2 d' = get_capabilities m d'.
Proof.
  intros m actual. assert (Ha : get_capabilities m d = actual).
  { unfold m, actual. rewrite granted_run. unfold security_init. rewrite set_get, (Z.eqb_sym 0 d). by destruct (d =? 0). }
  destruct (check_permission_cases m d r) as [[-> H]|[[op ->] H]]; rewrite Ha in H; (split; [|split]); cbn [fst snd violation]; try done.
Qed.

(** a transfer between domains is let through exactly when the pointer is not
    null, the size is at most a gigabyte and the range does not pass the end of
    the address space; the counters record every answer. *)
Theorem check_transfer_correct (b : ZeroCopySecurityBarrier) (from to ptr size : Z) :
  from <> to ->
  ((check_transfer b from to ptr size).1 = Ok tt <-> ptr <> 0 /\ size <= 2 ^ 30 /\ ptr + size < 2 ^ 64) /\
  (check_transfer b from to ptr size).2 =
    match (check_transfer b from to ptr size).1 with
    | Ok _ => mkBarrier (bytes_transferred b +w size) (transfers_denied b)
    | Err _ => mkBarrier (bytes_transferred b) (transfers_denied b +w 1)
    end.
Proof.
  intros Hn. unfold check_transfer, u64_max. change MAX_TRANSFER_SIZE with (2 ^ 30).
  destruct (Z.eqb_spec ptr 0); [split; [split; [first [done | lia] | first [done | intros; exfalso; lia]] | done]|].
  rewrite Z.gtb_ltb. destruct (Z.ltb_spec (2 ^ 30) size); [split; [split; [first [done | lia] | first [done | intros; exfalso; lia]] | done]|].
  destruct (Z.eqb_spec from to); [done|].
  destruct (Z.ltb_spec (2 ^ 64 - 1) (ptr + size)); (split; [split; [first [done | lia] | first [done | intros; exfalso; lia]] | done]).
Qed.

Lemma check_transfer_correct_witness :
  1 <> 2 /\ ((check_transfer Barrier_new 1 2 4096 8192).1 = Ok tt <-> 4096 <> 0 /\ 8192 <= 2 ^ 30 /\ 4096 + 8192 < 2 ^ 64) /\
  (check_transfer Barrier_new 1 2 4096 8192).1 = Ok tt.
Proof. split; [lia|]. split; [apply (check_transfer_correct Barrier_new 1 2 4096 8192); lia | reflexivity]. Defined.

(** Inside one domain a range that passes the end of the address space is let through. *)
Lemma same_domain_overflow_accepted : (check_transfer Barrier_new 1 1 (2 ^ 64 - 1) 4096).1 = Ok tt.
Proof. reflexivity. Qed.

End AccessSpec.
