(* ===== verification/NetBytes.v ===== *)
(** * Packet buffers and the Internet checksum

    Packets are lists of bytes, a byte a [Z] below 256.  The sources overlay
    packed structs on buffers; a field is read and written at its offset.
    The checksum loops are those of src/src/net/ipv4.rs and
    src/src/net/stack.rs; the reference is arithmetic modulo 65535. *)

From stdpp Require Import base list.
From Stdlib Require Import ZArith Lia.
From S2P Require Import Prelude.

Local Open Scope Z_scope.

Definition is_byte (b : Z) : Prop := 0 <= b < 256.
Definition is_u16 (w : Z) : Prop := 0 <= w < 65536.
Definition wrap16 (z : Z) : Z := z mod 65536.
Definition bytes (l : list Z) : Prop := Forall is_byte l.

(** ** Reading and writing *)

(** A byte of the buffer. *)
Definition get (data : list Z) (i : nat) : Z := nth i data 0.

(** [u16::from_be_bytes] and [u16::to_be_bytes] *)
Definition from_be16 (hi lo : Z) : Z := Z.lor (Z.shiftl hi 8) lo.
Definition to_be16 (w : Z) : list Z := [Z.land (Z.shiftr w 8) 255; Z.land w 255].
Definition get16 (data : list Z) (i : nat) : Z := from_be16 (get data i) (get data (i + 1)).

(** [data[i..i + n].copy_from_slice(bs)] *)
Definition put (data : list Z) (i : nat) (bs : list Z) : list Z := take i data ++ bs ++ drop (i + length bs) data.

(** [&data[a..b]] with its bounds check. *)
Definition slice (data : list Z) (a b : nat) : outcome (list Z) :=
  if ((a <=? b) && (b <=? length data))%nat then Ret (take (b - a) (drop a data)) else Panic.

(** [f] applied to the part of the buffer from [n] on, in place. *)
Definition on_tail (data : list Z) (n : nat) (tail : list Z) : list Z := take n data ++ tail.

(** ** The checksum loops *)

(** [for i in (0..len).step_by(2)] *)
Definition steps (len : nat) : list nat := map (fun k => (2 * k)%nat) (seq 0 ((len + 1) / 2)).

Definition word_at (data : list Z) (len i : nat) : Z :=
  if (i + 1 <? len)%nat then from_be16 (get data i) (get data (i + 1)) else from_be16 (get data i) 0.

(** [sum += word as u32] *)
Definition add_words (initial : Z) (ws : list Z) : Z := foldl (fun s w => wrap32 (s + w)) initial ws.

(** [while sum >> 16 != 0 { sum = (sum & 0xFFFF) + (sum >> 16) }] *)
Fixpoint fold_carry (fuel : nat) (sum : Z) : option Z :=
  if Z.shiftr sum 16 =? 0 then Some sum
  else match fuel with
       | O => None
       | S f => fold_carry f (wrap32 (Z.land sum 65535 + Z.shiftr sum 16))
       end.

(** Two rounds are enough for every [u32]. *)
Definition fold16 (sum : Z) : Z := default 0 (fold_carry 2 sum).

(** [!(sum as u16)] *)
Definition not16 (w : Z) : Z := 65535 - wrap16 w.

(** [data_checksum] of ipv4.rs *)
Definition data_checksum (data : list Z) (initial : Z) : Z :=
  not16 (fold16 (add_words initial (map (word_at data (length data)) (steps (length data))))).

(** ** The reference *)

Fixpoint words (l : list Z) : list Z :=
  match l with
  | a :: b :: l' => from_be16 a b :: words l'
  | [a] => [from_be16 a 0]
  | [] => []
  end.

Definition zsum (l : list Z) : Z := foldr Z.add 0 l.

(** The one's complement sum of a non-negative number. *)
Definition ones_sum (s : Z) : Z := if s =? 0 then 0 else 1 + (s - 1) mod 65535.

(** ** Words *)

Lemma from_be16_eq (hi lo : Z) : is_byte lo -> from_be16 hi lo = hi * 256 + lo.
Proof.
  intros [H1 H2]. unfold from_be16.
  assert (E : Z.land (Z.shiftl hi 8) lo = 0).
  { apply Z.bits_inj'. intros n Hn. rewrite Z.land_spec, Z.bits_0, Z.shiftl_spec by lia.
    destruct (Z.ltb_spec n 8); [by rewrite Z.testbit_neg_r by lia|].
    rewrite (Z.bits_above_log2 lo n), andb_false_r; [done | lia|].
    destruct (decide (lo = 0)) as [->|]; [cbn; lia|].
    apply Z.log2_lt_pow2; [lia|]. assert (2 ^ 8 <= 2 ^ n) by (apply Z.pow_le_mono_r; lia). change (2 ^ 8) with 256 in *. lia. }
  rewrite <- Z.lxor_lor by done. rewrite <- Z.add_nocarry_lxor by done. rewrite Z.shiftl_mul_pow2 by lia. done.
Qed.

Lemma from_be16_range (hi lo : Z) : is_byte hi -> is_byte lo -> is_u16 (from_be16 hi lo).
Proof. intros H1 H2. rewrite from_be16_eq by done. unfold is_byte, is_u16 in *. lia. Qed.

Lemma to_be16_eq (w : Z) : is_u16 w -> to_be16 w = [w / 256; w mod 256].
Proof.
  intros H. unfold to_be16. change 255 with (Z.ones 8). rewrite !Z.land_ones by lia.
  rewrite Z.shiftr_div_pow2 by lia. change (2 ^ 8) with 256.
  rewrite (Z.mod_small (w / 256)); [done|]. unfold is_u16 in H. split; [apply Z.div_pos; lia|]. apply Z.div_lt_upper_bound; lia.
Qed.

Lemma to_be16_bytes (w : Z) : bytes (to_be16 w).
Proof.
  unfold to_be16, bytes. change 255 with (Z.ones 8). rewrite !Z.land_ones by lia.
  constructor; [apply Z.mod_pos_bound; lia|]. constructor; [apply Z.mod_pos_bound; lia | constructor].
Qed.

Lemma from_to_be16 (w : Z) : is_u16 w -> from_be16 (Z.land (Z.shiftr w 8) 255) (Z.land w 255) = w.
Proof.
  intros H. pose proof (to_be16_eq w H) as E. unfold to_be16 in E. injection E as -> ->.
  rewrite from_be16_eq by (apply Z.mod_pos_bound; lia). rewrite (Z.div_mod w 256) at 3 by lia. lia.
Qed.

Lemma bytes_get (data : list Z) (i : nat) : bytes data -> is_byte (get data i).
Proof.
  intros H. unfold get. destruct (nth_in_or_default i data 0) as [Hin| ->]; [|unfold is_byte; lia].
  unfold bytes in H. rewrite List.Forall_forall in H. by apply H.
Qed.

Lemma words_u16 (l : list Z) : bytes l -> Forall is_u16 (words l).
Proof.
  remember (length l) as n eqn:Hn. revert l Hn. induction n as [n IH] using lt_wf_ind. intros l -> H.
  destruct l as [|a [|b l]]; cbn [words]; [constructor| |].
  - constructor; [|constructor]. inversion H; subst. apply from_be16_range; [done | unfold is_byte; lia].
  - inversion H as [|?? Ha H']; inversion H' as [|?? Hb H'']; subst. constructor; [by apply from_be16_range|].
    apply (IH (length l)); [cbn; lia | done | done].
Qed.

Lemma seq_shift_map {A} (f : nat -> A) (n : nat) : map f (seq 1 n) = map (fun k => f (S k)) (seq 0 n).
Proof. rewrite <- seq_shift. by rewrite map_map. Qed.

(** The index loop visits the words of the list. *)
Lemma words_steps (l : list Z) : map (word_at l (length l)) (steps (length l)) = words l.
Proof.
  unfold steps. rewrite map_map. remember (length l) as n eqn:Hn. revert l Hn.
  induction n as [n IH] using lt_wf_ind. intros l ->. destruct l as [|a [|b l]]; [done | done|].
  cbn [length words]. replace ((S (S (length l)) + 1) / 2)%nat with (S ((length l + 1) / 2)).
  2: { replace (S (S (length l)) + 1)%nat with (length l + 1 + 1 * 2)%nat by lia. rewrite Nat.div_add by lia. lia. }
  cbn [seq map]. f_equal. rewrite seq_shift_map. rewrite <- (IH (length l)) by (cbn; lia).
  apply map_ext. intros k. unfold word_at, get. replace (2 * S k)%nat with (S (S (2 * k))) by lia.
  replace (S (S (2 * k)) + 1)%nat with (S (S (2 * k + 1))) by lia. cbn [nth].
  destruct (Nat.ltb_spec (2 * k + 1) (length l)), (Nat.ltb_spec (S (S (2 * k + 1))) (S (S (length l)))); try lia; done.
Qed.

Lemma words_length (l : list Z) : length (words l) = ((length l + 1) / 2)%nat.
Proof. rewrite <- words_steps. unfold steps. by rewrite !length_map, length_seq. Qed.

(** ** Sums *)

Lemma zsum_cons (x : Z) (l : list Z) : zsum (x :: l) = x + zsum l.
Proof. done. Qed.

Lemma zsum_bound (l : list Z) : Forall is_u16 l -> 0 <= zsum l <= 65535 * Z.of_nat (length l).
Proof. induction 1 as [|x l Hx _ IH]; [cbn; lia|]. rewrite zsum_cons. cbn [length]. unfold is_u16 in Hx. lia. Qed.

Lemma zsum_zero (l : list Z) : Forall is_u16 l -> zsum l = 0 -> Forall (fun w => w = 0) l.
Proof.
  induction 1 as [|x l Hx Hl IH]; [constructor|]. rewrite zsum_cons. pose proof (zsum_bound l Hl). unfold is_u16 in Hx.
  intros E. constructor; [lia|]. apply IH. lia.
Qed.

(** Without overflow of the [u32] the loop adds the words. *)
Lemma add_words_eq (ws : list Z) (s : Z) :
  Forall is_u16 ws -> 0 <= s -> s + 65535 * Z.of_nat (length ws) < 2 ^ 32 -> add_words s ws = s + zsum ws.
Proof.
  intros H. revert s. induction H as [|w ws Hw _ IH]; intros s Hs Hb; [cbn; lia|].
  unfold add_words in *. cbn [foldl length] in *. unfold is_u16 in Hw.
  replace (wrap32 (s + w)) with (s + w) by (unfold wrap32, u32_modulus; rewrite Z.mod_small; lia).
  rewrite IH by lia. rewrite zsum_cons. lia.
Qed.

Lemma shiftr16_zero (s : Z) : 0 <= s -> (Z.shiftr s 16 =? 0) = (s <? 65536).
Proof.
  intros. rewrite Z.shiftr_div_pow2 by lia. change (2 ^ 16) with 65536.
  destruct (Z.ltb_spec s 65536); [apply Z.eqb_eq, Z.div_small; lia|].
  apply Z.eqb_neq. pose proof (Z.div_le_mono 65536 s 65536 ltac:(lia) ltac:(lia)). rewrite Z.div_same in * by lia. lia.
Qed.

(** One round keeps the residue and stays positive. *)
Lemma fold_round (s : Z) :
  65536 <= s < 2 ^ 32 ->
  let s' := wrap32 (Z.land s 65535 + Z.shiftr s 16) in
  ones_sum s' = ones_sum s /\ 0 < s' <= s mod 65536 + s / 65536 /\ s' = s mod 65536 + s / 65536.
Proof.
  intros H s'. assert (Hs' : s' = s mod 65536 + s / 65536).
  { unfold s'. change 65535 with (Z.ones 16). rewrite Z.land_ones, Z.shiftr_div_pow2 by lia. change (2 ^ 16) with 65536.
    unfold wrap32, u32_modulus. apply Z.mod_small. pose proof (Z.mod_pos_bound s 65536 ltac:(lia)).
    assert (0 <= s / 65536 < 65536) by (split; [apply Z.div_pos; lia | apply Z.div_lt_upper_bound; lia]). lia. }
  pose proof (Z.div_mod s 65536 ltac:(lia)) as Hd. pose proof (Z.mod_pos_bound s 65536 ltac:(lia)).
  assert (1 <= s / 65536) by (apply Z.div_le_lower_bound; lia).
  split; [|lia]. unfold ones_sum. destruct (Z.eqb_spec s' 0); [lia|]. destruct (Z.eqb_spec s 0); [lia|]. f_equal.
  rewrite Hs'. replace (s - 1) with (s mod 65536 + s / 65536 - 1 + s / 65536 * 65535) by lia. by rewrite Z.mod_add by lia.
Qed.

Lemma ones_sum_small (s : Z) : 0 <= s < 65536 -> ones_sum s = s.
Proof. intros H. unfold ones_sum. destruct (Z.eqb_spec s 0); [done|]. rewrite Z.mod_small by lia. lia. Qed.

(** The loop ends within two rounds with the one's complement sum. *)
Lemma fold_carry_eq (s : Z) : is_u32 s -> fold_carry 2 s = Some (ones_sum s).
Proof.
  unfold is_u32, u32_modulus. intros H. cbn [fold_carry]. rewrite shiftr16_zero by lia.
  destruct (Z.ltb_spec s 65536); [by rewrite ones_sum_small by lia|].
  destruct (fold_round s) as (E1 & B1 & F1); [lia|]. set (s1 := wrap32 (Z.land s 65535 + Z.shiftr s 16)) in *.
  rewrite shiftr16_zero by lia. destruct (Z.ltb_spec s1 65536); [by rewrite <- E1, ones_sum_small by lia|].
  assert (Hs1 : s1 <= 131070).
  { pose proof (Z.mod_pos_bound s 65536 ltac:(lia)). assert (s / 65536 < 65536) by (apply Z.div_lt_upper_bound; lia). lia. }
  destruct (fold_round s1) as (E2 & B2 & F2); [lia|]. set (s2 := wrap32 (Z.land s1 65535 + Z.shiftr s1 16)) in *.
  assert (s2 < 65536).
  { pose proof (Z.div_mod s1 65536 ltac:(lia)). assert (s1 / 65536 = 1) by (symmetry; apply Z.div_unique with (s1 - 65536); lia). lia. }
  rewrite shiftr16_zero by lia. destruct (Z.ltb_spec s2 65536); [|lia]. by rewrite <- E1, <- E2, ones_sum_small by lia.
Qed.

Lemma fold16_eq (s : Z) : is_u32 s -> fold16 s = ones_sum s.
Proof. intros H. unfold fold16. by rewrite fold_carry_eq. Qed.

Lemma ones_sum_range (s : Z) : 0 <= s -> 0 <= ones_sum s <= 65535 /\ (ones_sum s = 0 <-> s = 0).
Proof.
  intros H. unfold ones_sum. destruct (Z.eqb_spec s 0); [lia|]. pose proof (Z.mod_pos_bound (s - 1) 65535 ltac:(lia)). lia.
Qed.

(** Adding the complement of the sum gives all ones. *)
Lemma ones_sum_complement (s : Z) : 0 <= s -> ones_sum (s + (65535 - ones_sum s)) = 65535.
Proof.
  intros H. unfold ones_sum at 2. destruct (Z.eqb_spec s 0) as [->|]; [done|].
  unfold ones_sum. pose proof (Z.mod_pos_bound (s - 1) 65535 ltac:(lia)) as Hb.
  match goal with |- context [?x =? 0] => destruct (Z.eqb_spec x 0); [lia|] end.
  replace (s + (65535 - (1 + (s - 1) mod 65535)) - 1) with (65534 + (s - 1) / 65535 * 65535).
  - rewrite Z.mod_add by lia. reflexivity.
  - pose proof (Z.div_mod (s - 1) 65535 ltac:(lia)). lia.
Qed.

(** The sum is all ones exactly on the positive multiples of 65535. *)
Lemma ones_sum_full (s : Z) : 0 <= s -> ones_sum s = 65535 <-> 0 < s /\ s mod 65535 = 0.
Proof.
  intros H. unfold ones_sum. destruct (Z.eqb_spec s 0); [lia|].
  pose proof (Z.mod_pos_bound (s - 1) 65535 ltac:(lia)) as Hb. pose proof (Z.div_mod (s - 1) 65535 ltac:(lia)) as Hd.
  pose proof (Z.div_mod s 65535 ltac:(lia)) as Hs. pose proof (Z.mod_pos_bound s 65535 ltac:(lia)).
  split.
  - intros E. split; [lia|]. replace s with (((s - 1) / 65535 + 1) * 65535) by lia. apply Z.mod_mul. lia.
  - intros [_ E]. assert (s - 1 = (s / 65535 - 1) * 65535 + 65534) as -> by lia. rewrite (Z.add_comm (_ * _) 65534), Z.mod_add by lia. done.
Qed.

(** The checksum of a buffer is the complement of the one's complement sum. *)
Lemma data_checksum_eq (data : list Z) (initial : Z) :
  bytes data -> 0 <= initial <= 400000 -> Z.of_nat (length data) <= 65536 ->
  data_checksum data initial = 65535 - ones_sum (initial + zsum (words data)).
Proof.
  intros Hb Hi Hl. unfold data_checksum. rewrite words_steps. pose proof (words_u16 data Hb) as Hw.
  pose proof (zsum_bound _ Hw) as Hz.
  assert (Hlen : Z.of_nat (length (words data)) <= 32768).
  { rewrite words_length, Nat2Z.inj_div. apply Z.lt_succ_r, Z.div_lt_upper_bound; lia. }
  rewrite add_words_eq by (done || lia). rewrite fold16_eq by (unfold is_u32, u32_modulus; lia).
  unfold not16, wrap16. rewrite Z.mod_small; [done|]. pose proof (ones_sum_range (initial + zsum (words data)) ltac:(lia)). lia.
Qed.

(** ** Buffers *)

Lemma put_length (data : list Z) (i : nat) (bs : list Z) :
  (i + length bs <= length data)%nat -> length (put data i bs) = length data.
Proof. intros H. unfold put. rewrite !length_app, length_take, length_drop. lia. Qed.

(** Two writes side by side are one. *)
Lemma put_put (b : list Z) (i : nat) (x y : list Z) : (i + length x + length y <= length b)%nat -> put (put b i x) (i + length x) y = put b i (x ++ y).
Proof.
  intros H. unfold put. assert (Ht : length (take i b) = i) by (rewrite length_take; lia). set (r := drop (i + length x) b).
  assert (E1 : take (i + length x) (take i b ++ x ++ r) = take i b ++ x) by (rewrite app_assoc, take_app_length' by (rewrite length_app; lia); done).
  assert (E2 : drop (i + length x + length y) (take i b ++ x ++ r) = drop (length y) r).
  { rewrite app_assoc, drop_app_ge by (rewrite length_app; lia). f_equal. rewrite length_app. lia. }
  rewrite E1, E2. unfold r. rewrite drop_drop, length_app, <- !app_assoc. do 4 f_equal. lia.
Qed.

Lemma put_bytes (data : list Z) (i : nat) (bs : list Z) : bytes data -> bytes bs -> bytes (put data i bs).
Proof.
  intros H1 H2. unfold put, bytes. rewrite !Forall_app. split; [by apply Forall_take|]. split; [done | by apply Forall_drop].
Qed.

Lemma on_tail_length (data : list Z) (n : nat) (tail : list Z) :
  (n <= length data)%nat -> length tail = (length data - n)%nat -> length (on_tail data n tail) = length data.
Proof. intros H1 H2. unfold on_tail. rewrite length_app, length_take. lia. Qed.

Lemma bytes_check (l : list Z) : forallb (fun b => (0 <=? b) && (b <? 256)) l = true -> bytes l.
Proof. intros H. apply Forall_forall. intros b Hb%list_elem_of_In. rewrite forallb_forall in H. apply H in Hb. unfold is_byte. lia. Qed.

(** A buffer of at least [n] bytes with its first bytes spelled out. *)
Lemma split_head {A} (l : list A) (n : nat) : (S n <= length l)%nat -> exists x l', l = x :: l' /\ (n <= length l')%nat.
Proof. destruct l as [|x l']; cbn; [lia|]. intros. exists x, l'. split; [done | lia]. Qed.

(** [spell H] names the bytes of a list with [H : n <= length l], [n] a numeral. *)
Ltac spell H :=
  lazymatch type of H with
  | (S _ <= length ?l)%nat =>
      let x := fresh "b" in let l' := fresh "rest" in let E := fresh "E" in
      apply split_head in H; destruct H as (x & l' & E & H); subst l; spell H
  | _ => idtac
  end.
