(* ===== verification/Ethernet.v ===== *)
(** * Ethernet frames (src/src/net/ethernet.rs)

    A frame is its buffer; the header is at the front of it.  A MAC address is
    a list of six bytes. *)

From stdpp Require Import base list.
From Stdlib Require Import ZArith Lia.
From S2P Require Import Prelude NetBytes.

Local Open Scope Z_scope.

Inductive EtherType := EtIpv4 | EtArp | EtIpv6 | EtVlan | EtUnknown (v : Z).

Definition ether_type_from (v : Z) : EtherType :=
  if v =? 0x0800 then EtIpv4
  else if v =? 0x0806 then EtArp
  else if v =? 0x86DD then EtIpv6
  else if v =? 0x8100 then EtVlan
  else EtUnknown v.

Definition ether_type_into (t : EtherType) : Z :=
  match t with
  | EtIpv4 => 0x0800
  | EtArp => 0x0806
  | EtIpv6 => 0x86DD
  | EtVlan => 0x8100
  | EtUnknown v => v
  end.

Definition MacAddress : Type := list Z.
Definition MAC_BROADCAST : MacAddress := [255; 255; 255; 255; 255; 255].
Definition MAC_ZERO : MacAddress := [0; 0; 0; 0; 0; 0].

Definition mac_is_broadcast (m : MacAddress) : bool :=
  (get m 0 =? 255) && (get m 1 =? 255) && (get m 2 =? 255) && (get m 3 =? 255) && (get m 4 =? 255) && (get m 5 =? 255).
Definition mac_is_multicast (m : MacAddress) : bool := negb (Z.land (get m 0) 1 =? 0).
Definition mac_is_unicast (m : MacAddress) : bool := negb (mac_is_multicast m).
Definition mac_is_local (m : MacAddress) : bool := negb (Z.land (get m 0) 2 =? 0).

(** ** The header: destination at 0, source at 6, type at 12 *)

Definition ETH_SIZE : nat := 14.

Definition eth_destination (d : list Z) : MacAddress := take 6 d.
Definition eth_source (d : list Z) : MacAddress := take 6 (drop 6 d).
Definition eth_ether_type (d : list Z) : EtherType := ether_type_from (get16 d 12).
Definition eth_set_destination (d : list Z) (m : MacAddress) : list Z := put d 0 m.
Definition eth_set_source (d : list Z) (m : MacAddress) : list Z := put d 6 m.
Definition eth_set_ether_type (d : list Z) (t : EtherType) : list Z := put d 12 (to_be16 (ether_type_into t)).

(** ** Frames *)

Definition ETH_MIN_SIZE : nat := 60.

Definition eth_parse (data : list Z) : option (list Z) := if (length data <? ETH_SIZE)%nat then None else Some data.
Definition eth_payload (data : list Z) : outcome (list Z) := slice data ETH_SIZE (length data).

Record EthernetFrameMut := mkFrame { frame_data : list Z; frame_payload_len : nat }.

Definition frame_new (buffer : list Z) : option EthernetFrameMut :=
  if (length buffer <? ETH_SIZE)%nat then None else Some (mkFrame buffer 0).

Definition frame_set_destination (f : EthernetFrameMut) (m : MacAddress) : EthernetFrameMut :=
  mkFrame (eth_set_destination (frame_data f) m) (frame_payload_len f).
Definition frame_set_source (f : EthernetFrameMut) (m : MacAddress) : EthernetFrameMut :=
  mkFrame (eth_set_source (frame_data f) m) (frame_payload_len f).
Definition frame_set_ether_type (f : EthernetFrameMut) (t : EtherType) : EthernetFrameMut :=
  mkFrame (eth_set_ether_type (frame_data f) t) (frame_payload_len f).

(** [payload_mut]: what is borrowed, and the frame after the borrow ends with
    the bytes [p] in it. *)
Definition frame_payload_mut (f : EthernetFrameMut) : list Z := drop ETH_SIZE (frame_data f).
Definition frame_return_payload (f : EthernetFrameMut) (p : list Z) : EthernetFrameMut :=
  mkFrame (on_tail (frame_data f) ETH_SIZE p) (frame_payload_len f).

Definition frame_set_payload_len (f : EthernetFrameMut) (len : nat) : EthernetFrameMut :=
  mkFrame (frame_data f) (Nat.min len (length (frame_data f) - ETH_SIZE)).

Definition frame_write_payload (f : EthernetFrameMut) (payload : list Z) : nat * EthernetFrameMut :=
  let copy_len := Nat.min (length payload) (length (frame_data f) - ETH_SIZE) in
  (copy_len, mkFrame (put (frame_data f) ETH_SIZE (take copy_len payload)) copy_len).

Definition frame_total_len (f : EthernetFrameMut) : nat := (ETH_SIZE + frame_payload_len f)%nat.

Definition frame_as_bytes (f : EthernetFrameMut) : outcome (list Z) := slice (frame_data f) 0 (frame_total_len f).

(** The padding slice is bounds checked. *)
Definition frame_pad_to_minimum (f : EthernetFrameMut) : outcome EthernetFrameMut :=
  let current_len := frame_total_len f in
  if (current_len <? ETH_MIN_SIZE)%nat then
    let! pad := slice (frame_data f) current_len ETH_MIN_SIZE in
    Ret (mkFrame (put (frame_data f) current_len (replicate (length pad) 0)) (ETH_MIN_SIZE - ETH_SIZE))
  else Ret f.

(** ** The processor *)

Record EthernetStats := mkEthStats {
  eth_rx_packets : Z;
  eth_rx_bytes : Z;
  eth_tx_packets : Z;
  eth_tx_bytes : Z;
  eth_rx_dropped : Z;
  eth_rx_errors : Z
}.

Record EthernetProcessor := mkEth { local_mac : MacAddress; eth_stats : EthernetStats }.

Definition eth_new (mac : MacAddress) : EthernetProcessor := mkEth mac (mkEthStats 0 0 0 0 0 0).
Definition set_local_mac (p : EthernetProcessor) (mac : MacAddress) : EthernetProcessor := mkEth mac (eth_stats p).
Definition eth_reset_stats (p : EthernetProcessor) : EthernetProcessor := mkEth (local_mac p) (mkEthStats 0 0 0 0 0 0).

Inductive ProcessResult := ResIpv4 (p : list Z) | ResIpv6 (p : list Z) | ResArp (p : list Z) | ResDropped | ResError.

Definition eth_is_for_us (p : EthernetProcessor) (mac : MacAddress) : bool :=
  bool_decide (mac = local_mac p) || mac_is_broadcast mac.

Definition eth_process (p : EthernetProcessor) (data : list Z) : outcome (ProcessResult * EthernetProcessor) :=
  let st := eth_stats p in
  match eth_parse data with
  | None =>
      Ret (ResError, mkEth (local_mac p) (mkEthStats (eth_rx_packets st) (eth_rx_bytes st) (eth_tx_packets st) (eth_tx_bytes st)
                                            (eth_rx_dropped st) (eth_rx_errors st +w 1)))
  | Some frame =>
      let dst := eth_destination frame in
      if negb (mac_is_broadcast dst) && negb (eth_is_for_us p dst) then
        Ret (ResDropped, mkEth (local_mac p) (mkEthStats (eth_rx_packets st) (eth_rx_bytes st) (eth_tx_packets st) (eth_tx_bytes st)
                                                (eth_rx_dropped st +w 1) (eth_rx_errors st)))
      else
        let p' := mkEth (local_mac p) (mkEthStats (eth_rx_packets st +w 1) (eth_rx_bytes st +w Z.of_nat (length data))
                                         (eth_tx_packets st) (eth_tx_bytes st) (eth_rx_dropped st) (eth_rx_errors st)) in
        let! payload := eth_payload frame in
        Ret (match eth_ether_type frame with
             | EtIpv4 => ResIpv4 payload
             | EtIpv6 => ResIpv6 payload
             | EtArp => ResArp payload
             | _ => ResDropped
             end, p')
  end.

Definition eth_build_reply (p : EthernetProcessor) (buffer : list Z) (dst_mac : MacAddress) (t : EtherType) : option EthernetFrameMut :=
  match frame_new buffer with
  | None => None
  | Some f => Some (frame_set_ether_type (frame_set_source (frame_set_destination f dst_mac) (local_mac p)) t)
  end.

Definition eth_record_tx (p : EthernetProcessor) (len : Z) : EthernetProcessor :=
  let st := eth_stats p in
  mkEth (local_mac p) (mkEthStats (eth_rx_packets st) (eth_rx_bytes st) (eth_tx_packets st +w 1) (eth_tx_bytes st +w len)
                         (eth_rx_dropped st) (eth_rx_errors st)).

(** ** VLAN tags: control information at offset 2 *)

Definition vlan_id (tag : list Z) : Z := Z.land (get16 tag 2) 0x0FFF.
Definition vlan_pcp (tag : list Z) : Z := Z.land (Z.shiftr (get tag 2) 5) 7.
Definition vlan_dei (tag : list Z) : bool := negb (Z.land (get tag 2) 0x10 =? 0).
