(* ===== verification/Ipv4.v ===== *)
(** * IPv4 packets (src/src/net/ipv4.rs)

    A packet is its buffer; the header is at the front of it.  An address is a
    list of four bytes. *)

From stdpp Require Import base list.
From Stdlib Require Import ZArith Lia.
From S2P Require Import Prelude NetBytes.

Local Open Scope Z_scope.

Definition Ipv4Address : Type := list Z.
Definition IP_ANY : Ipv4Address := [0; 0; 0; 0].
Definition IP_BROADCAST : Ipv4Address := [255; 255; 255; 255].
Definition IP_LOOPBACK : Ipv4Address := [127; 0; 0; 1].

Definition to_u32 (a : Ipv4Address) : Z :=
  Z.lor (Z.lor (Z.lor (Z.shiftl (get a 0) 24) (Z.shiftl (get a 1) 16)) (Z.shiftl (get a 2) 8)) (get a 3).
Definition from_u32 (v : Z) : Ipv4Address :=
  [Z.land (Z.shiftr v 24) 255; Z.land (Z.shiftr v 16) 255; Z.land (Z.shiftr v 8) 255; Z.land v 255].

Definition ip_is_broadcast (a : Ipv4Address) : bool :=
  (get a 0 =? 255) && (get a 1 =? 255) && (get a 2 =? 255) && (get a 3 =? 255).
Definition ip_is_any (a : Ipv4Address) : bool := (get a 0 =? 0) && (get a 1 =? 0) && (get a 2 =? 0) && (get a 3 =? 0).
Definition ip_is_loopback (a : Ipv4Address) : bool := get a 0 =? 127.
Definition ip_is_multicast (a : Ipv4Address) : bool := (get a 0 >=? 224) && (get a 0 <=? 239).
Definition ip_is_link_local (a : Ipv4Address) : bool := (get a 0 =? 169) && (get a 1 =? 254).
Definition ip_is_private (a : Ipv4Address) : bool :=
  (get a 0 =? 10) || ((get a 0 =? 172) && (Z.land (get a 1) 0xf0 =? 16)) || ((get a 0 =? 192) && (get a 1 =? 168)).

Definition apply_mask (a mask : Ipv4Address) : Ipv4Address :=
  [Z.land (get a 0) (get mask 0); Z.land (get a 1) (get mask 1); Z.land (get a 2) (get mask 2); Z.land (get a 3) (get mask 3)].
Definition same_subnet (a other mask : Ipv4Address) : bool :=
  (Z.land (get a 0) (get mask 0) =? Z.land (get other 0) (get mask 0)) &&
  (Z.land (get a 1) (get mask 1) =? Z.land (get other 1) (get mask 1)) &&
  (Z.land (get a 2) (get mask 2) =? Z.land (get other 2) (get mask 2)) &&
  (Z.land (get a 3) (get mask 3) =? Z.land (get other 3) (get mask 3)).

Inductive IpProtocol := IpIcmp | IpTcp | IpUdp | IpGre | IpUnknown (v : Z).

#[export] Instance IpProtocol_eq_dec : EqDecision IpProtocol.
Proof. solve_decision. Defined.

Definition protocol_from (v : Z) : IpProtocol :=
  if v =? 1 then IpIcmp
  else if v =? 6 then IpTcp
  else if v =? 17 then IpUdp
  else if v =? 47 then IpGre
  else IpUnknown v.

Definition protocol_into (p : IpProtocol) : Z :=
  match p with
  | IpIcmp => 1
  | IpTcp => 6
  | IpUdp => 17
  | IpGre => 47
  | IpUnknown v => v
  end.

(** ** The header *)

Definition IP_MIN_SIZE : nat := 20.

Definition ip_version (h : list Z) : Z := Z.shiftr (get h 0) 4.
Definition ip_ihl (h : list Z) : Z := Z.land (get h 0) 0x0F.
Definition ip_header_len (h : list Z) : nat := Z.to_nat (ip_ihl h * 4).
Definition ip_dscp (h : list Z) : Z := Z.shiftr (get h 1) 2.
Definition ip_ecn (h : list Z) : Z := Z.land (get h 1) 3.
Definition ip_total_length (h : list Z) : Z := get16 h 2.
Definition ip_set_total_length (h : list Z) (len : Z) : list Z := put h 2 (to_be16 len).
Definition ip_identification (h : list Z) : Z := get16 h 4.
Definition ip_set_identification (h : list Z) (id : Z) : list Z := put h 4 (to_be16 id).
Definition ip_flags (h : list Z) : Z := Z.shiftr (get h 6) 5.
Definition ip_dont_fragment (h : list Z) : bool := negb (Z.land (get h 6) 0x40 =? 0).
Definition ip_more_fragments (h : list Z) : bool := negb (Z.land (get h 6) 0x20 =? 0).
Definition ip_fragment_offset (h : list Z) : Z := from_be16 (Z.land (get h 6) 0x1F) (get h 7).
Definition ip_ttl (h : list Z) : Z := get h 8.
Definition ip_set_ttl (h : list Z) (ttl : Z) : list Z := put h 8 [ttl].
Definition ip_protocol (h : list Z) : IpProtocol := protocol_from (get h 9).
Definition ip_set_protocol (h : list Z) (p : IpProtocol) : list Z := put h 9 [protocol_into p].
Definition ip_checksum (h : list Z) : Z := get16 h 10.
Definition ip_set_checksum (h : list Z) (c : Z) : list Z := put h 10 (to_be16 c).
Definition ip_source (h : list Z) : Ipv4Address := take 4 (drop 12 h).
Definition ip_set_source (h : list Z) (a : Ipv4Address) : list Z := put h 12 a.
Definition ip_destination (h : list Z) : Ipv4Address := take 4 (drop 16 h).
Definition ip_set_destination (h : list Z) (a : Ipv4Address) : list Z := put h 16 a.

(** [saturating_sub] *)
Definition ip_payload_len (h : list Z) : nat := (Z.to_nat (ip_total_length h) - ip_header_len h)%nat.

(** The words of the header, without the one at offset 10. *)
Definition compute_checksum (h : list Z) : Z :=
  let header_len := ip_header_len h in
  not16 (fold16 (add_words 0 (map (word_at h header_len) (filter (fun i => i <> 10%nat) (steps header_len))))).

Definition update_checksum (h : list Z) : list Z :=
  let h1 := put h 10 [0; 0] in
  ip_set_checksum h1 (compute_checksum h1).

Definition ip_verify_checksum (h : list Z) : bool :=
  let header_len := ip_header_len h in
  wrap16 (fold16 (add_words 0 (map (word_at h header_len) (steps header_len)))) =? 0xFFFF.

(** ** Views *)

Definition ip_parse (data : list Z) : option (list Z) :=
  if (length data <? IP_MIN_SIZE)%nat then None
  else if negb (ip_version data =? 4) then None
  else
    let header_len := ip_header_len data in
    if (header_len <? IP_MIN_SIZE)%nat || (length data <? header_len)%nat then None
    else
      let total_len := Z.to_nat (ip_total_length data) in
      if (total_len <? header_len)%nat || (length data <? total_len)%nat then None
      else Some data.

Definition ip_payload (data : list Z) : outcome (list Z) := slice data (ip_header_len data) (Z.to_nat (ip_total_length data)).

Definition ip_options (data : list Z) : outcome (list Z) :=
  if (IP_MIN_SIZE <? ip_header_len data)%nat then slice data IP_MIN_SIZE (ip_header_len data) else Ret [].

Definition ip_as_bytes (data : list Z) : outcome (list Z) := slice data 0 (Z.to_nat (ip_total_length data)).

(** ** Builders *)

Definition ip_packet_new (buffer : list Z) : option (list Z) := if (length buffer <? IP_MIN_SIZE)%nat then None else Some buffer.

Definition ip_init_header (d : list Z) : list Z :=
  let d := put d 0 [0x45] in
  let d := put d 1 [0] in
  let d := put d 2 [0; 20] in
  let d := put d 4 [0; 0] in
  let d := put d 6 [0x40; 0] in
  let d := put d 8 [64] in
  let d := put d 9 [0] in
  let d := put d 10 [0; 0] in
  let d := put d 12 [0; 0; 0; 0] in
  put d 16 [0; 0; 0; 0].

Definition ip_payload_mut (d : list Z) : list Z := drop IP_MIN_SIZE d.
Definition ip_return_payload (d p : list Z) : list Z := on_tail d IP_MIN_SIZE p.

(** The length is cut to 16 bits. *)
Definition ip_finalize (d : list Z) (payload_len : nat) : list Z :=
  update_checksum (ip_set_total_length d (wrap16 (Z.of_nat (IP_MIN_SIZE + payload_len)))).

Definition ip_total_len (d : list Z) : nat := Z.to_nat (ip_total_length d).

(** ** Configuration and processor *)

Record Ipv4Config := mkIpConfig {
  address : Ipv4Address;
  subnet_mask : Ipv4Address;
  gateway : Ipv4Address;
  dns : option Ipv4Address
}.

Definition Ipv4Config_default : Ipv4Config := mkIpConfig IP_ANY [255; 255; 255; 0] IP_ANY None.

Definition config_is_local (c : Ipv4Config) (a : Ipv4Address) : bool := same_subnet (address c) a (subnet_mask c).

(** [!b] of a byte *)
Definition not8 (b : Z) : Z := 255 - b.

Definition broadcast_address (c : Ipv4Config) : Ipv4Address :=
  let net := apply_mask (address c) (subnet_mask c) in
  let inv_mask := [not8 (get (subnet_mask c) 0); not8 (get (subnet_mask c) 1); not8 (get (subnet_mask c) 2); not8 (get (subnet_mask c) 3)] in
  [Z.lor (get net 0) (get inv_mask 0); Z.lor (get net 1) (get inv_mask 1); Z.lor (get net 2) (get inv_mask 2); Z.lor (get net 3) (get inv_mask 3)].

Record Ipv4Stats := mkIpStats {
  ip_rx_packets : Z;
  ip_tx_packets : Z;
  ip_rx_errors : Z;
  ip_rx_dropped : Z;
  checksum_errors : Z
}.

Record Ipv4Processor := mkIp { ip_config : Ipv4Config; ip_stats : Ipv4Stats; next_id : Z }.

Inductive Ipv4ProcessResult :=
| IpResIcmp (p : list Z) (src : Ipv4Address)
| IpResTcp (p : list Z) (src dst : Ipv4Address)
| IpResUdp (p : list Z) (src dst : Ipv4Address)
| IpResDropped
| IpResError.

Definition ip_new (c : Ipv4Config) : Ipv4Processor := mkIp c (mkIpStats 0 0 0 0 0) 1.
Definition ip_set_config (p : Ipv4Processor) (c : Ipv4Config) : Ipv4Processor := mkIp c (ip_stats p) (next_id p).

Definition ip_is_for_us (p : Ipv4Processor) (a : Ipv4Address) : bool :=
  bool_decide (a = address (ip_config p)) || ip_is_broadcast a || bool_decide (a = broadcast_address (ip_config p)).

Definition ip_process (p : Ipv4Processor) (data : list Z) : outcome (Ipv4ProcessResult * Ipv4Processor) :=
  let st := ip_stats p in
  match ip_parse data with
  | None =>
      Ret (IpResError, mkIp (ip_config p) (mkIpStats (ip_rx_packets st) (ip_tx_packets st) (ip_rx_errors st +w 1) (ip_rx_dropped st) (checksum_errors st)) (next_id p))
  | Some packet =>
      if negb (ip_verify_checksum packet) then
        Ret (IpResError, mkIp (ip_config p) (mkIpStats (ip_rx_packets st) (ip_tx_packets st) (ip_rx_errors st) (ip_rx_dropped st) (checksum_errors st +w 1)) (next_id p))
      else
        let dst := ip_destination packet in
        if negb (ip_is_for_us p dst) then
          Ret (IpResDropped, mkIp (ip_config p) (mkIpStats (ip_rx_packets st) (ip_tx_packets st) (ip_rx_errors st) (ip_rx_dropped st +w 1) (checksum_errors st)) (next_id p))
        else
          let p' := mkIp (ip_config p) (mkIpStats (ip_rx_packets st +w 1) (ip_tx_packets st) (ip_rx_errors st) (ip_rx_dropped st) (checksum_errors st)) (next_id p) in
          let src := ip_source packet in
          let! payload := ip_payload packet in
          Ret (match ip_protocol packet with
               | IpIcmp => IpResIcmp payload src
               | IpTcp => IpResTcp payload src dst
               | IpUdp => IpResUdp payload src dst
               | _ => IpResDropped
               end, p')
  end.

(** [wrapping_add] of a [u16] *)
Definition ip_next_id (p : Ipv4Processor) : Z * Ipv4Processor :=
  (next_id p, mkIp (ip_config p) (ip_stats p) (wrap16 (next_id p + 1))).

Definition ip_build_packet (p : Ipv4Processor) (buffer : list Z) (dst : Ipv4Address) (proto : IpProtocol) :
    option (list Z) * Ipv4Processor :=
  match ip_packet_new buffer with
  | None => (None, p)
  | Some d =>
      let d := ip_init_header d in
      let d := ip_set_source d (address (ip_config p)) in
      let d := ip_set_destination d dst in
      let d := ip_set_protocol d proto in
      let '(id, p') := ip_next_id p in
      (Some (ip_set_identification d id), p')
  end.

(** ** Checksums of the transport layers *)

Definition pseudo_header_checksum (src dst : Ipv4Address) (protocol : IpProtocol) (len : Z) : Z :=
  let sum := 0 in
  let sum := wrap32 (sum + from_be16 (get src 0) (get src 1)) in
  let sum := wrap32 (sum + from_be16 (get src 2) (get src 3)) in
  let sum := wrap32 (sum + from_be16 (get dst 0) (get dst 1)) in
  let sum := wrap32 (sum + from_be16 (get dst 2) (get dst 3)) in
  let sum := wrap32 (sum + protocol_into protocol) in
  wrap32 (sum + len).
