(* ===== verification/Icmp.v ===== *)
(** * ICMP messages (src/src/net/icmp.rs)

    Type at offset 0, code at 1, checksum at 2; an echo message has an
    identifier at 4 and a sequence number at 6. *)

From stdpp Require Import base list.
From Stdlib Require Import ZArith Lia.
From S2P Require Import Prelude NetBytes Ipv4.

Local Open Scope Z_scope.

Inductive IcmpType :=
| EchoReply | DestinationUnreachable | Redirect | EchoRequest | TimeExceeded | ParameterProblem
| TimestampRequest | TimestampReply | IcmpUnknown (v : Z).

Definition icmp_type_from (v : Z) : IcmpType :=
  if v =? 0 then EchoReply
  else if v =? 3 then DestinationUnreachable
  else if v =? 5 then Redirect
  else if v =? 8 then EchoRequest
  else if v =? 11 then TimeExceeded
  else if v =? 12 then ParameterProblem
  else if v =? 13 then TimestampRequest
  else if v =? 14 then TimestampReply
  else IcmpUnknown v.

Definition icmp_type_into (t : IcmpType) : Z :=
  match t with
  | EchoReply => 0
  | DestinationUnreachable => 3
  | Redirect => 5
  | EchoRequest => 8
  | TimeExceeded => 11
  | ParameterProblem => 12
  | TimestampRequest => 13
  | TimestampReply => 14
  | IcmpUnknown v => v
  end.

Inductive DestUnreachCode :=
| NetworkUnreachable | HostUnreachable | ProtocolUnreachable | PortUnreachable | FragmentationNeeded | SourceRouteFailed.
Definition unreach_u8 (c : DestUnreachCode) : Z :=
  match c with
  | NetworkUnreachable => 0
  | HostUnreachable => 1
  | ProtocolUnreachable => 2
  | PortUnreachable => 3
  | FragmentationNeeded => 4
  | SourceRouteFailed => 5
  end.

Inductive TimeExceededCode := TtlExceeded | FragmentReassemblyExceeded.
Definition exceeded_u8 (c : TimeExceededCode) : Z := match c with TtlExceeded => 0 | FragmentReassemblyExceeded => 1 end.

Definition ICMP_SIZE : nat := 4.
Definition ECHO_SIZE : nat := 8.

Definition icmp_type (d : list Z) : IcmpType := icmp_type_from (get d 0).
Definition icmp_set_type (d : list Z) (t : IcmpType) : list Z := put d 0 [icmp_type_into t].
Definition icmp_code (d : list Z) : Z := get d 1.
Definition icmp_set_code (d : list Z) (c : Z) : list Z := put d 1 [c].
Definition icmp_checksum (d : list Z) : Z := get16 d 2.
Definition icmp_set_checksum (d : list Z) (c : Z) : list Z := put d 2 (to_be16 c).
Definition echo_identifier (d : list Z) : Z := get16 d 4.
Definition echo_set_identifier (d : list Z) (id : Z) : list Z := put d 4 (to_be16 id).
Definition echo_sequence (d : list Z) : Z := get16 d 6.
Definition echo_set_sequence (d : list Z) (s : Z) : list Z := put d 6 (to_be16 s).

(** ** Views *)

Definition icmp_parse (data : list Z) : option (list Z) := if (length data <? ICMP_SIZE)%nat then None else Some data.
Definition icmp_verify_checksum (data : list Z) : bool := data_checksum data 0 =? 0xFFFF.

Definition as_echo (data : list Z) : option (list Z) :=
  if (length data <? ECHO_SIZE)%nat then None
  else match icmp_type data with
       | EchoRequest | EchoReply => Some data
       | _ => None
       end.

Definition echo_data (data : list Z) : outcome (list Z) := slice data ECHO_SIZE (length data).

(** ** Builders *)

Record IcmpBuilder := mkIcmpBuilder { ib_buffer : list Z; ib_len : nat }.

Definition icmp_builder_new (buffer : list Z) : option IcmpBuilder :=
  if (length buffer <? ICMP_SIZE)%nat then None else Some (mkIcmpBuilder buffer 0).
Definition builder_set_type (b : IcmpBuilder) (t : IcmpType) : IcmpBuilder := mkIcmpBuilder (icmp_set_type (ib_buffer b) t) (ib_len b).
Definition builder_set_code (b : IcmpBuilder) (c : Z) : IcmpBuilder := mkIcmpBuilder (icmp_set_code (ib_buffer b) c) (ib_len b).
Definition builder_set_payload_len (b : IcmpBuilder) (len : nat) : IcmpBuilder :=
  mkIcmpBuilder (ib_buffer b) (Nat.min len (length (ib_buffer b) - ICMP_SIZE)).

(** Both [finalize]: the checksum over the header of size [h] and the data. *)
Definition icmp_finalize (h : nat) (b : IcmpBuilder) : outcome (nat * IcmpBuilder) :=
  let total_len := (h + ib_len b)%nat in
  let b1 := icmp_set_checksum (ib_buffer b) 0 in
  let! s := slice b1 0 total_len in
  Ret (total_len, mkIcmpBuilder (icmp_set_checksum b1 (data_checksum s 0)) (ib_len b)).

Definition echo_builder_new (buffer : list Z) : option IcmpBuilder :=
  if (length buffer <? ECHO_SIZE)%nat then None else Some (mkIcmpBuilder buffer 0).

Definition echo_build (t : IcmpType) (b : IcmpBuilder) (identifier sequence : Z) : IcmpBuilder :=
  let d := icmp_set_type (ib_buffer b) t in
  let d := icmp_set_code d 0 in
  let d := echo_set_identifier d identifier in
  mkIcmpBuilder (echo_set_sequence d sequence) (ib_len b).
Definition echo_build_request : IcmpBuilder -> Z -> Z -> IcmpBuilder := echo_build EchoRequest.
Definition echo_build_reply : IcmpBuilder -> Z -> Z -> IcmpBuilder := echo_build EchoReply.

Definition echo_write_data (b : IcmpBuilder) (data : list Z) : nat * IcmpBuilder :=
  let len := Nat.min (length data) (length (ib_buffer b) - ECHO_SIZE) in
  (len, mkIcmpBuilder (put (ib_buffer b) ECHO_SIZE (take len data)) len).

(** ** The processor *)

Record IcmpStats := mkIcmpStats {
  echo_requests_rx : Z;
  echo_replies_rx : Z;
  echo_replies_tx : Z;
  errors_rx : Z;
  icmp_invalid : Z
}.

Inductive IcmpResult :=
| SendEchoReply (src_ip : Ipv4Address) (identifier sequence : Z) (data_offset data_len : nat)
| EchoReplyReceived (identifier sequence : Z)
| IcmpError (t : IcmpType) (code : Z)
| IcmpIgnored
| IcmpInvalid.

Definition count_invalid (s : IcmpStats) : IcmpStats :=
  mkIcmpStats (echo_requests_rx s) (echo_replies_rx s) (echo_replies_tx s) (errors_rx s) (icmp_invalid s +w 1).
Definition count_request (s : IcmpStats) : IcmpStats :=
  mkIcmpStats (echo_requests_rx s +w 1) (echo_replies_rx s) (echo_replies_tx s) (errors_rx s) (icmp_invalid s).
Definition count_reply (s : IcmpStats) : IcmpStats :=
  mkIcmpStats (echo_requests_rx s) (echo_replies_rx s +w 1) (echo_replies_tx s) (errors_rx s) (icmp_invalid s).
Definition count_error (s : IcmpStats) : IcmpStats :=
  mkIcmpStats (echo_requests_rx s) (echo_replies_rx s) (echo_replies_tx s) (errors_rx s +w 1) (icmp_invalid s).

Definition icmp_process (s : IcmpStats) (data : list Z) (src_ip : Ipv4Address) : outcome (IcmpResult * IcmpStats) :=
  match icmp_parse data with
  | None => Ret (IcmpInvalid, count_invalid s)
  | Some packet =>
      if negb (icmp_verify_checksum packet) then Ret (IcmpInvalid, count_invalid s)
      else
        match icmp_type packet with
        | EchoRequest =>
            match as_echo packet with
            | Some echo =>
                let! d := echo_data echo in
                Ret (SendEchoReply src_ip (echo_identifier echo) (echo_sequence echo) ECHO_SIZE (length d), count_request s)
            | None => Ret (IcmpInvalid, count_request s)
            end
        | EchoReply =>
            match as_echo packet with
            | Some echo => Ret (EchoReplyReceived (echo_identifier echo) (echo_sequence echo), count_reply s)
            | None => Ret (IcmpInvalid, count_reply s)
            end
        | DestinationUnreachable | TimeExceeded | ParameterProblem => Ret (IcmpError (icmp_type packet) (icmp_code packet), count_error s)
        | _ => Ret (IcmpIgnored, s)
        end
  end.

(** [build_echo_reply] and [build_echo_request]: the length and the buffer. *)
Definition build_echo (t : IcmpType) (buffer : list Z) (identifier sequence : Z) (data : list Z) : outcome (option nat * list Z) :=
  match echo_builder_new buffer with
  | None => Ret (None, buffer)
  | Some b =>
      let! r := icmp_finalize ECHO_SIZE (echo_write_data (echo_build t b identifier sequence) data).2 in
      Ret (Some r.1, ib_buffer r.2)
  end.
Definition build_echo_reply : list Z -> Z -> Z -> list Z -> outcome (option nat * list Z) := build_echo EchoReply.
Definition build_echo_request : list Z -> Z -> Z -> list Z -> outcome (option nat * list Z) := build_echo EchoRequest.

(** [build_dest_unreachable] and [build_time_exceeded] *)
Definition build_error (t : IcmpType) (code : Z) (buffer original : list Z) : outcome (option nat * list Z) :=
  if (length buffer <? ICMP_SIZE + 4 + 8)%nat then Ret (None, buffer)
  else
    match icmp_builder_new buffer with
    | None => Ret (None, buffer)
    | Some b =>
        let b := builder_set_code (builder_set_type b t) code in
        let payload := drop ICMP_SIZE (ib_buffer b) in
        let payload := put payload 0 [0; 0; 0; 0] in
        let copy_len := Nat.min (Nat.min (length original) (length payload - 4)) 28 in
        let payload := put payload 4 (take copy_len original) in
        let b := mkIcmpBuilder (on_tail (ib_buffer b) ICMP_SIZE payload) (ib_len b) in
        let b := builder_set_payload_len b (4 + copy_len) in
        let! r := icmp_finalize ICMP_SIZE b in
        Ret (Some r.1, ib_buffer r.2)
    end.
Definition build_dest_unreachable (buffer : list Z) (code : DestUnreachCode) (original : list Z) : outcome (option nat * list Z) :=
  build_error DestinationUnreachable (unreach_u8 code) buffer original.
Definition build_time_exceeded (buffer : list Z) (code : TimeExceededCode) (original : list Z) : outcome (option nat * list Z) :=
  build_error TimeExceeded (exceeded_u8 code) buffer original.
