(* ===== verification/Udp.v ===== *)
(** * UDP datagrams and sockets (src/src/net/udp.rs)

    Source port at offset 0, destination port at 2, length at 4, checksum at 6.
    A socket is shared between the table and its owner, so sockets live in a
    store and the table holds their numbers. *)

From stdpp Require Import base list gmap.
From Stdlib Require Import ZArith Lia.
From S2P Require Import Prelude NetBytes Ipv4.

Local Open Scope Z_scope.

Definition UDP_SIZE : nat := 8.

Definition udp_src_port (d : list Z) : Z := get16 d 0.
Definition udp_set_src_port (d : list Z) (p : Z) : list Z := put d 0 (to_be16 p).
Definition udp_dst_port (d : list Z) : Z := get16 d 2.
Definition udp_set_dst_port (d : list Z) (p : Z) : list Z := put d 2 (to_be16 p).
Definition udp_length (d : list Z) : Z := get16 d 4.
Definition udp_set_length (d : list Z) (l : Z) : list Z := put d 4 (to_be16 l).
Definition udp_checksum (d : list Z) : Z := get16 d 6.
Definition udp_set_checksum (d : list Z) (c : Z) : list Z := put d 6 (to_be16 c).

Definition udp_parse (data : list Z) : option (list Z) :=
  if (length data <? UDP_SIZE)%nat then None
  else
    let len := Z.to_nat (udp_length data) in
    if (len <? UDP_SIZE)%nat || (length data <? len)%nat then None else Some data.

Definition udp_payload (data : list Z) : outcome (list Z) := slice data UDP_SIZE (Z.to_nat (udp_length data)).

Definition udp_verify_checksum (data : list Z) (src_ip dst_ip : Ipv4Address) : outcome bool :=
  if udp_checksum data =? 0 then Ret true
  else
    let len := udp_length data in
    let pseudo := pseudo_header_checksum src_ip dst_ip IpUdp len in
    let! s := slice data 0 (Z.to_nat len) in
    Ret (data_checksum s pseudo =? 0xFFFF).

(** ** The builder *)

Record UdpPacketMut := mkUdpBuilder { ub_buffer : list Z; ub_len : nat }.

Definition udp_builder_new (buffer : list Z) : option UdpPacketMut :=
  if (length buffer <? UDP_SIZE)%nat then None else Some (mkUdpBuilder buffer 0).

Definition udp_write_payload (b : UdpPacketMut) (data : list Z) : nat * UdpPacketMut :=
  let len := Nat.min (length data) (length (ub_buffer b) - UDP_SIZE) in
  (len, mkUdpBuilder (put (ub_buffer b) UDP_SIZE (take len data)) len).

(** The length is cut to 16 bits; a checksum of zero is sent as all ones. *)
Definition udp_finalize (b : UdpPacketMut) (src_ip dst_ip : Ipv4Address) : outcome (nat * UdpPacketMut) :=
  let total_len := wrap16 (Z.of_nat (UDP_SIZE + ub_len b)) in
  let d := udp_set_length (ub_buffer b) total_len in
  let d := udp_set_checksum d 0 in
  let pseudo := pseudo_header_checksum src_ip dst_ip IpUdp total_len in
  let! s := slice d 0 (Z.to_nat total_len) in
  let checksum := data_checksum s pseudo in
  let final_checksum := if checksum =? 0 then 0xFFFF else checksum in
  Ret (Z.to_nat total_len, mkUdpBuilder (udp_set_checksum d final_checksum) (ub_len b)).

(** [UdpProcessor::build_packet]: the length and the buffer. *)
Definition udp_build_packet (buffer : list Z) (src_ip : Ipv4Address) (src_port : Z) (dst_ip : Ipv4Address) (dst_port : Z)
    (payload : list Z) : outcome (option nat * list Z) :=
  match udp_builder_new buffer with
  | None => Ret (None, buffer)
  | Some b =>
      let b := mkUdpBuilder (udp_set_dst_port (udp_set_src_port (ub_buffer b) src_port) dst_port) (ub_len b) in
      let! r := udp_finalize (udp_write_payload b payload).2 src_ip dst_ip in
      Ret (Some r.1, ub_buffer r.2)
  end.

(** ** Sockets *)

Record UdpAddr := mkUdpAddr { addr_ip : Ipv4Address; addr_port : Z }.
Record UdpDatagram := mkDatagram { dg_src : UdpAddr; dg_dst_port : Z; dg_data : list Z }.

(** A waker is the number of the task it wakes. *)
Record UdpSocketInner := mkSocket {
  sk_port : Z;
  rx_queue : list UdpDatagram;
  sk_waker : option Z;
  sk_closed : bool
}.

Record udp_state := mkUdp {
  u_store : gmap nat UdpSocketInner;
  u_slots : list (option nat);
  u_next : nat;
  udp_rx : Z;
  udp_tx : Z;
  udp_dropped : Z;
  udp_checksum_errors : Z;
  u_woken : list Z
}.

Definition MAX_UDP_SOCKETS : nat := 256.
Definition udp_table_new : udp_state := mkUdp ∅ (replicate MAX_UDP_SOCKETS None) 0 0 0 0 0 [].

Definition udp_slot (port : Z) : nat := Z.to_nat (port mod Z.of_nat MAX_UDP_SOCKETS).

Definition with_store (u : udp_state) (m : gmap nat UdpSocketInner) : udp_state :=
  mkUdp m (u_slots u) (u_next u) (udp_rx u) (udp_tx u) (udp_dropped u) (udp_checksum_errors u) (u_woken u).
Definition with_slots (u : udp_state) (l : list (option nat)) : udp_state :=
  mkUdp (u_store u) l (u_next u) (udp_rx u) (udp_tx u) (udp_dropped u) (udp_checksum_errors u) (u_woken u).
Definition udp_wake (u : udp_state) (w : option Z) : udp_state :=
  mkUdp (u_store u) (u_slots u) (u_next u) (udp_rx u) (udp_tx u) (udp_dropped u) (udp_checksum_errors u)
    (match w with Some t => u_woken u ++ [t] | None => u_woken u end).

Definition udp_bind (u : udp_state) (port : Z) : outcome (option nat * udp_state) :=
  let! slot := index (u_slots u) (udp_slot port) in
  match slot with
  | Some _ => Ret (None, u)
  | None =>
      let s := u_next u in
      let! slots := index_set (u_slots u) (udp_slot port) (Some s) in
      Ret (Some s, mkUdp (<[s := mkSocket port [] None false]> (u_store u)) slots (S s) (udp_rx u) (udp_tx u) (udp_dropped u)
                     (udp_checksum_errors u) (u_woken u))
  end.

Definition udp_unbind (u : udp_state) (port : Z) : outcome udp_state :=
  let! slots := index_set (u_slots u) (udp_slot port) None in
  Ret (with_slots u slots).

Definition udp_find (u : udp_state) (port : Z) : outcome (option nat) :=
  let! slot := index (u_slots u) (udp_slot port) in
  match slot with
  | Some s =>
      match u_store u !! s with
      | Some k => if (sk_port k =? port) && negb (sk_closed k) then Ret (Some s) else Ret None
      | None => Ret None
      end
  | None => Ret None
  end.

Definition count_dropped (u : udp_state) : udp_state :=
  mkUdp (u_store u) (u_slots u) (u_next u) (udp_rx u) (udp_tx u) (udp_dropped u +w 1) (udp_checksum_errors u) (u_woken u).
Definition count_rx (u : udp_state) : udp_state :=
  mkUdp (u_store u) (u_slots u) (u_next u) (udp_rx u +w 1) (udp_tx u) (udp_dropped u) (udp_checksum_errors u) (u_woken u).
Definition count_checksum_error (u : udp_state) : udp_state :=
  mkUdp (u_store u) (u_slots u) (u_next u) (udp_rx u) (udp_tx u) (udp_dropped u) (udp_checksum_errors u +w 1) (u_woken u).

(** [UdpSocketTable::deliver] *)
Definition udp_deliver (u : udp_state) (d : UdpDatagram) : outcome (bool * udp_state) :=
  let! found := udp_find u (dg_dst_port d) in
  match found with
  | Some s =>
      match u_store u !! s with
      | Some k =>
          if sk_closed k then Ret (false, count_dropped u)
          else
            let k' := mkSocket (sk_port k) (rx_queue k ++ [d]) None (sk_closed k) in
            Ret (true, count_rx (udp_wake (with_store u (<[s := k']> (u_store u))) (sk_waker k)))
      | None => Ret (false, count_dropped u)
      end
  | None => Ret (false, count_dropped u)
  end.

(** [UdpSocket::deliver] *)
Definition udp_socket_deliver (u : udp_state) (s : nat) (d : UdpDatagram) : udp_state :=
  match u_store u !! s with
  | Some k =>
      if sk_closed k then u
      else udp_wake (with_store u (<[s := mkSocket (sk_port k) (rx_queue k ++ [d]) None (sk_closed k)]> (u_store u))) (sk_waker k)
  | None => u
  end.

(** [UdpSocket::close] of socket [s] *)
Definition udp_close (u : udp_state) (s : nat) : udp_state :=
  match u_store u !! s with
  | Some k => udp_wake (with_store u (<[s := mkSocket (sk_port k) [] None true]> (u_store u))) (sk_waker k)
  | None => u
  end.

Inductive udp_poll := UdpReady (d : option UdpDatagram) | UdpPending.

(** [UdpRecvFuture::poll] by task [t] *)
Definition udp_recv (u : udp_state) (s : nat) (t : Z) : udp_poll * udp_state :=
  match u_store u !! s with
  | Some k =>
      if sk_closed k then (UdpReady None, u)
      else
        match rx_queue k with
        | d :: q => (UdpReady (Some d), with_store u (<[s := mkSocket (sk_port k) q (sk_waker k) (sk_closed k)]> (u_store u)))
        | [] => (UdpPending, with_store u (<[s := mkSocket (sk_port k) [] (Some t) (sk_closed k)]> (u_store u)))
        end
  | None => (UdpReady None, u)
  end.

Inductive UdpResult := UdpDelivered | NoSocket | ChecksumError | UdpInvalid.

Definition udp_process (u : udp_state) (data : list Z) (src_ip dst_ip : Ipv4Address) : outcome (UdpResult * udp_state) :=
  match udp_parse data with
  | None => Ret (UdpInvalid, u)
  | Some packet =>
      let! ok := udp_verify_checksum packet src_ip dst_ip in
      if negb ok then Ret (ChecksumError, count_checksum_error u)
      else
        let! payload := udp_payload packet in
        let! r := udp_deliver u (mkDatagram (mkUdpAddr src_ip (udp_src_port packet)) (udp_dst_port packet) payload) in
        Ret (if r.1 then UdpDelivered else NoSocket, r.2)
  end.
