(* ===== verification/Arp.v ===== *)
(** * ARP (src/src/net/arp.rs)

    The packet fields at their offsets, the cache as an array of 64 optional
    entries, and the processor over both. *)

From stdpp Require Import base list.
From Stdlib Require Import ZArith Lia.
From S2P Require Import Prelude NetBytes Ethernet Ipv4.

Local Open Scope Z_scope.

Inductive ArpHardwareType := HwEthernet | HwUnknown (v : Z).
Definition hw_from (v : Z) : ArpHardwareType := if v =? 1 then HwEthernet else HwUnknown v.
Definition hw_into (t : ArpHardwareType) : Z := match t with HwEthernet => 1 | HwUnknown v => v end.

Inductive ArpOperation := ArpRequest | ArpReply | ArpUnknown (v : Z).
Definition op_from (v : Z) : ArpOperation := if v =? 1 then ArpRequest else if v =? 2 then ArpReply else ArpUnknown v.
Definition op_into (t : ArpOperation) : Z := match t with ArpRequest => 1 | ArpReply => 2 | ArpUnknown v => v end.

Definition ARP_SIZE : nat := 28.

Definition arp_hardware_type (d : list Z) : ArpHardwareType := hw_from (get16 d 0).
Definition arp_protocol_type (d : list Z) : Z := get16 d 2.
Definition arp_hardware_len (d : list Z) : Z := get d 4.
Definition arp_protocol_len (d : list Z) : Z := get d 5.
Definition arp_operation (d : list Z) : ArpOperation := op_from (get16 d 6).
Definition arp_sender_mac (d : list Z) : MacAddress := take 6 (drop 8 d).
Definition arp_sender_ip (d : list Z) : Ipv4Address := take 4 (drop 14 d).
Definition arp_target_mac (d : list Z) : MacAddress := take 6 (drop 18 d).
Definition arp_target_ip (d : list Z) : Ipv4Address := take 4 (drop 24 d).

(** The common body of [init_request] and [init_reply]. *)
Definition arp_init (op : ArpOperation) (d : list Z) (sender_mac : MacAddress) (sender_ip : Ipv4Address) (target_mac : MacAddress)
    (target_ip : Ipv4Address) : list Z :=
  let d := put d 0 (to_be16 (hw_into HwEthernet)) in
  let d := put d 2 (to_be16 0x0800) in
  let d := put d 4 [6] in
  let d := put d 5 [4] in
  let d := put d 6 (to_be16 (op_into op)) in
  let d := put d 8 sender_mac in
  let d := put d 14 sender_ip in
  let d := put d 18 target_mac in
  put d 24 target_ip.

Definition init_request (d : list Z) (sender_mac : MacAddress) (sender_ip target_ip : Ipv4Address) : list Z :=
  arp_init ArpRequest d sender_mac sender_ip MAC_ZERO target_ip.
Definition init_reply (d : list Z) (sender_mac : MacAddress) (sender_ip : Ipv4Address) (target_mac : MacAddress) (target_ip : Ipv4Address) : list Z :=
  arp_init ArpReply d sender_mac sender_ip target_mac target_ip.

Definition arp_is_valid (d : list Z) : bool :=
  (match arp_hardware_type d with HwEthernet => true | _ => false end) && (arp_protocol_type d =? 0x0800) &&
  (arp_hardware_len d =? 6) && (arp_protocol_len d =? 4).

(** ** The cache *)

Inductive ArpEntryState := Incomplete | Resolved | Stale.
#[export] Instance ArpEntryState_eq_dec : EqDecision ArpEntryState.
Proof. solve_decision. Defined.

Record ArpEntry := mkEntry { e_ip : Ipv4Address; e_mac : MacAddress; e_time : Z; e_state : ArpEntryState }.

#[export] Instance ArpEntry_eq_dec : EqDecision ArpEntry.
Proof. solve_decision. Defined.

Definition new_resolved (ip : Ipv4Address) (mac : MacAddress) (t : Z) : ArpEntry := mkEntry ip mac t Resolved.
Definition new_incomplete (ip : Ipv4Address) (t : Z) : ArpEntry := mkEntry ip MAC_ZERO t Incomplete.

(** [saturating_sub] *)
Definition is_expired (e : ArpEntry) (now timeout : Z) : bool := Z.max 0 (now - e_time e) >? timeout.

Definition ARP_CACHE_SIZE : nat := 64.
Definition ARP_CACHE_TIMEOUT : Z := 20 * 60 * 1000.
Definition ARP_INCOMPLETE_TIMEOUT : Z := 3 * 1000.

Record ArpCache := mkCache {
  entries : list (option ArpEntry);
  hits : Z;
  misses : Z;
  entries_added : Z;
  entries_expired : Z
}.

Definition cache_new : ArpCache := mkCache (replicate ARP_CACHE_SIZE None) 0 0 0 0.

Definition with_entries (c : ArpCache) (es : list (option ArpEntry)) : ArpCache :=
  mkCache es (hits c) (misses c) (entries_added c) (entries_expired c).

(** The test of the loop of [lookup]. *)
Definition hit (ip : Ipv4Address) (now : Z) (e : ArpEntry) : bool :=
  bool_decide (e_ip e = ip) && bool_decide (e_state e = Resolved) && negb (is_expired e now ARP_CACHE_TIMEOUT).

Fixpoint find_entry (test : ArpEntry -> bool) (es : list (option ArpEntry)) : option ArpEntry :=
  match es with
  | [] => None
  | Some e :: es' => if test e then Some e else find_entry test es'
  | None :: es' => find_entry test es'
  end.

Definition cache_lookup (c : ArpCache) (ip : Ipv4Address) (now : Z) : option MacAddress * ArpCache :=
  match find_entry (hit ip now) (entries c) with
  | Some e => (Some (e_mac e), mkCache (entries c) (hits c +w 1) (misses c) (entries_added c) (entries_expired c))
  | None => (None, mkCache (entries c) (hits c) (misses c +w 1) (entries_added c) (entries_expired c))
  end.

(** The loops of [insert] and [mark_incomplete] that look for a slot: the first
    free one, else the one with the smallest time stamp. *)
Record scan := mkScan { empty_slot : option nat; oldest_slot : option nat; oldest_time : Z }.

Definition scan_step (s : scan) (i : nat) (e : option ArpEntry) : scan :=
  match e with
  | None => match empty_slot s with None => mkScan (Some i) (oldest_slot s) (oldest_time s) | Some _ => s end
  | Some e => if e_time e <? oldest_time s then mkScan (empty_slot s) (Some i) (e_time e) else s
  end.

Fixpoint scan_slots (s : scan) (i : nat) (es : list (option ArpEntry)) : scan :=
  match es with
  | [] => s
  | e :: es' => scan_slots (scan_step s i e) (S i) es'
  end.

Definition chosen_slot (es : list (option ArpEntry)) : option nat :=
  let s := scan_slots (mkScan None None u64_max) 0 es in
  match empty_slot s with
  | Some i => Some i
  | None => oldest_slot s
  end.

(** The first entry for [ip] changed by [f]; [None] when there is none. *)
Fixpoint update_first (ip : Ipv4Address) (f : ArpEntry -> option ArpEntry) (es : list (option ArpEntry)) : option (list (option ArpEntry)) :=
  match es with
  | [] => None
  | Some e :: es' =>
      if bool_decide (e_ip e = ip) then Some (f e :: es')
      else match update_first ip f es' with Some r => Some (Some e :: r) | None => None end
  | None :: es' => match update_first ip f es' with Some r => Some (None :: r) | None => None end
  end.

Definition cache_insert (c : ArpCache) (ip : Ipv4Address) (mac : MacAddress) (now : Z) : ArpCache :=
  match update_first ip (fun e => Some (mkEntry (e_ip e) mac now Resolved)) (entries c) with
  | Some es => with_entries c es
  | None =>
      match chosen_slot (entries c) with
      | Some i => mkCache (<[i := Some (new_resolved ip mac now)]> (entries c)) (hits c) (misses c) (entries_added c +w 1) (entries_expired c)
      | None => c
      end
  end.

Definition mark_incomplete (c : ArpCache) (ip : Ipv4Address) (now : Z) : ArpCache :=
  match update_first ip (fun e => Some (mkEntry (e_ip e) (e_mac e) now Incomplete)) (entries c) with
  | Some es => with_entries c es
  | None =>
      match chosen_slot (entries c) with
      | Some i => with_entries c (<[i := Some (new_incomplete ip now)]> (entries c))
      | None => c
      end
  end.

Definition is_pending (c : ArpCache) (ip : Ipv4Address) (now : Z) : bool :=
  match find_entry (fun e => bool_decide (e_ip e = ip) && bool_decide (e_state e = Incomplete)) (entries c) with
  | Some e => negb (is_expired e now ARP_INCOMPLETE_TIMEOUT)
  | None => false
  end.

Definition cache_remove (c : ArpCache) (ip : Ipv4Address) : ArpCache :=
  match update_first ip (fun _ => None) (entries c) with
  | Some es => with_entries c es
  | None => c
  end.

Definition entry_timeout (e : ArpEntry) : Z :=
  if bool_decide (e_state e = Incomplete) then ARP_INCOMPLETE_TIMEOUT else ARP_CACHE_TIMEOUT.

Definition expires (now : Z) (e : option ArpEntry) : bool :=
  match e with
  | Some e => is_expired e now (entry_timeout e)
  | None => false
  end.

Definition expire_old (c : ArpCache) (now : Z) : ArpCache :=
  mkCache (map (fun e => if expires now e then None else e) (entries c)) (hits c) (misses c) (entries_added c)
    (foldl (fun n e => if expires now e then n +w 1 else n) (entries_expired c) (entries c)).

Definition all_entries (c : ArpCache) : list ArpEntry := omap id (entries c).

(** ** The processor *)

Record ArpProcessor := mkArp { arp_local_mac : MacAddress; arp_local_ip : Ipv4Address; arp_cache : ArpCache }.

Definition arp_new (mac : MacAddress) (ip : Ipv4Address) : ArpProcessor := mkArp mac ip cache_new.
Definition arp_set_local (p : ArpProcessor) (mac : MacAddress) (ip : Ipv4Address) : ArpProcessor := mkArp mac ip (arp_cache p).
Definition with_cache (p : ArpProcessor) (c : ArpCache) : ArpProcessor := mkArp (arp_local_mac p) (arp_local_ip p) c.

Inductive ArpResult := SendReply (target_mac : MacAddress) (target_ip : Ipv4Address) | CacheUpdated | ArpIgnored | ArpInvalid.

Definition arp_process (p : ArpProcessor) (data : list Z) (now : Z) : ArpResult * ArpProcessor :=
  if (length data <? ARP_SIZE)%nat then (ArpInvalid, p)
  else if negb (arp_is_valid data) then (ArpInvalid, p)
  else
    let sender_mac := arp_sender_mac data in
    let sender_ip := arp_sender_ip data in
    let target_ip := arp_target_ip data in
    let p' := if negb (ip_is_any sender_ip) && negb (mac_is_broadcast sender_mac)
              then with_cache p (cache_insert (arp_cache p) sender_ip sender_mac now) else p in
    match arp_operation data with
    | ArpRequest => if bool_decide (target_ip = arp_local_ip p') then (SendReply sender_mac sender_ip, p') else (ArpIgnored, p')
    | ArpReply => (CacheUpdated, p')
    | _ => (ArpIgnored, p')
    end.

(** The length and the buffer. *)
Definition arp_build_request (p : ArpProcessor) (buffer : list Z) (target_ip : Ipv4Address) : option nat * list Z :=
  if (length buffer <? ARP_SIZE)%nat then (None, buffer)
  else (Some ARP_SIZE, init_request buffer (arp_local_mac p) (arp_local_ip p) target_ip).
Definition arp_build_reply (p : ArpProcessor) (buffer : list Z) (target_mac : MacAddress) (target_ip : Ipv4Address) : option nat * list Z :=
  if (length buffer <? ARP_SIZE)%nat then (None, buffer)
  else (Some ARP_SIZE, init_reply buffer (arp_local_mac p) (arp_local_ip p) target_mac target_ip).

Definition arp_resolve (p : ArpProcessor) (ip : Ipv4Address) (now : Z) : option MacAddress * ArpProcessor :=
  if ip_is_broadcast ip then (Some MAC_BROADCAST, p)
  else let '(r, c) := cache_lookup (arp_cache p) ip now in (r, with_cache p c).

(** [needs_request] *)
Definition needs_request (p : ArpProcessor) (ip : Ipv4Address) (now : Z) : bool * ArpProcessor :=
  let '(r, c) := cache_lookup (arp_cache p) ip now in
  (match r with None => negb (is_pending c ip now) | Some _ => false end, with_cache p c).
Definition request_sent (p : ArpProcessor) (ip : Ipv4Address) (now : Z) : ArpProcessor :=
  with_cache p (mark_incomplete (arp_cache p) ip now).
