(* ===== verification/NetStack.v ===== *)
(** * The network stack (src/src/net/stack.rs, with the transmit pool of
    src/src/net/mempool.rs)

    The stack owns the protocol processors behind spin locks.  All its locks but
    the ARP one are only held inside one statement; the guard of the ARP lock
    outlives the call it is taken for wherever it is the scrutinee of a [match]
    or [if let], so taking and releasing that lock is explicit: a second
    [lock()] while the guard lives spins for ever.  The transmit callback is a
    function of the frame; the frames it was given are kept. *)

From stdpp Require Import base list.
From Stdlib Require Import ZArith Lia.
From S2P Require Import Prelude NetBytes Ethernet Ipv4 Icmp Udp Arp.

Local Open Scope Z_scope.

(** ** The transmit pool *)

Record PacketPool := mkPool { pool_buffers : list (list Z); buffer_size : nat; capacity : nat }.

Definition pool_new (cap size : nat) : PacketPool := mkPool (replicate cap (replicate size 0)) size cap.

(** [pop] takes from the end. *)
Definition pool_alloc (p : PacketPool) : option (list Z) * PacketPool :=
  match last (pool_buffers p) with
  | Some b => (Some b, mkPool (removelast (pool_buffers p)) (buffer_size p) (capacity p))
  | None => (None, p)
  end.

Definition pool_free (p : PacketPool) (b : list Z) : PacketPool :=
  if (length (pool_buffers p) <? capacity p)%nat
  then mkPool (pool_buffers p ++ [replicate (length b) 0]) (buffer_size p) (capacity p) else p.

(** ** State *)

Definition MAX_PACKET_SIZE : nat := Z.to_nat 1518.

Record NetworkConfig := mkNetConfig { cfg_mac : MacAddress; cfg_ipv4 : Ipv4Config; icmp_echo_enabled : bool }.

Definition NetworkConfig_default : NetworkConfig := mkNetConfig [2; 0; 0; 0; 0; 1] Ipv4Config_default true.

Record NetworkStats := mkNetStats {
  n_rx_packets : Z;
  n_tx_packets : Z;
  n_rx_bytes : Z;
  n_tx_bytes : Z;
  n_rx_errors : Z;
  n_tx_errors : Z;
  n_rx_dropped : Z
}.

Record NetworkStack := mkStack {
  ns_config : NetworkConfig;
  ns_ethernet : EthernetProcessor;
  ns_ipv4 : Ipv4Processor;
  ns_arp : ArpProcessor;
  ns_arp_held : bool;
  ns_icmp : IcmpStats;
  ns_udp : udp_state;
  ns_pool : PacketPool;
  ns_stats : NetworkStats;
  ns_transmit : option (list Z -> bool);
  ns_time : Z;
  ns_sent : list (list Z)
}.

Definition stack_new (c : NetworkConfig) : NetworkStack :=
  mkStack c (eth_new (cfg_mac c)) (ip_new (cfg_ipv4 c)) (arp_new (cfg_mac c) (address (cfg_ipv4 c))) false
    (mkIcmpStats 0 0 0 0 0) udp_table_new (pool_new 64 MAX_PACKET_SIZE) (mkNetStats 0 0 0 0 0 0 0) None 0 [].

Section Setters.

Variable s : NetworkStack.

Definition set_ns_config (c : NetworkConfig) : NetworkStack :=
  mkStack c (ns_ethernet s) (ns_ipv4 s) (ns_arp s) (ns_arp_held s) (ns_icmp s) (ns_udp s) (ns_pool s) (ns_stats s) (ns_transmit s) (ns_time s) (ns_sent s).
Definition set_ns_ethernet (e : EthernetProcessor) : NetworkStack :=
  mkStack (ns_config s) e (ns_ipv4 s) (ns_arp s) (ns_arp_held s) (ns_icmp s) (ns_udp s) (ns_pool s) (ns_stats s) (ns_transmit s) (ns_time s) (ns_sent s).
Definition set_ns_ipv4 (i : Ipv4Processor) : NetworkStack :=
  mkStack (ns_config s) (ns_ethernet s) i (ns_arp s) (ns_arp_held s) (ns_icmp s) (ns_udp s) (ns_pool s) (ns_stats s) (ns_transmit s) (ns_time s) (ns_sent s).
Definition set_ns_arp (a : ArpProcessor) : NetworkStack :=
  mkStack (ns_config s) (ns_ethernet s) (ns_ipv4 s) a (ns_arp_held s) (ns_icmp s) (ns_udp s) (ns_pool s) (ns_stats s) (ns_transmit s) (ns_time s) (ns_sent s).
Definition set_ns_held (b : bool) : NetworkStack :=
  mkStack (ns_config s) (ns_ethernet s) (ns_ipv4 s) (ns_arp s) b (ns_icmp s) (ns_udp s) (ns_pool s) (ns_stats s) (ns_transmit s) (ns_time s) (ns_sent s).
Definition set_ns_icmp (i : IcmpStats) : NetworkStack :=
  mkStack (ns_config s) (ns_ethernet s) (ns_ipv4 s) (ns_arp s) (ns_arp_held s) i (ns_udp s) (ns_pool s) (ns_stats s) (ns_transmit s) (ns_time s) (ns_sent s).
Definition set_ns_udp (u : udp_state) : NetworkStack :=
  mkStack (ns_config s) (ns_ethernet s) (ns_ipv4 s) (ns_arp s) (ns_arp_held s) (ns_icmp s) u (ns_pool s) (ns_stats s) (ns_transmit s) (ns_time s) (ns_sent s).
Definition set_ns_pool (p : PacketPool) : NetworkStack :=
  mkStack (ns_config s) (ns_ethernet s) (ns_ipv4 s) (ns_arp s) (ns_arp_held s) (ns_icmp s) (ns_udp s) p (ns_stats s) (ns_transmit s) (ns_time s) (ns_sent s).
Definition set_ns_stats (t : NetworkStats) : NetworkStack :=
  mkStack (ns_config s) (ns_ethernet s) (ns_ipv4 s) (ns_arp s) (ns_arp_held s) (ns_icmp s) (ns_udp s) (ns_pool s) t (ns_transmit s) (ns_time s) (ns_sent s).
Definition set_ns_transmit (f : list Z -> bool) : NetworkStack :=
  mkStack (ns_config s) (ns_ethernet s) (ns_ipv4 s) (ns_arp s) (ns_arp_held s) (ns_icmp s) (ns_udp s) (ns_pool s) (ns_stats s) (Some f) (ns_time s) (ns_sent s).
Definition set_ns_time (t : Z) : NetworkStack :=
  mkStack (ns_config s) (ns_ethernet s) (ns_ipv4 s) (ns_arp s) (ns_arp_held s) (ns_icmp s) (ns_udp s) (ns_pool s) (ns_stats s) (ns_transmit s) t (ns_sent s).
Definition set_ns_sent (l : list (list Z)) : NetworkStack :=
  mkStack (ns_config s) (ns_ethernet s) (ns_ipv4 s) (ns_arp s) (ns_arp_held s) (ns_icmp s) (ns_udp s) (ns_pool s) (ns_stats s) (ns_transmit s) (ns_time s) l.

End Setters.

(** ** Runs of the stack *)

(** A call returns, panics, or spins for ever on a lock it holds. *)
Inductive run (A : Type) := Done (a : A) (s : NetworkStack) | Panics | Spins.
Arguments Done {A} a s.
Arguments Panics {A}.
Arguments Spins {A}.

Definition net (A : Type) : Type := NetworkStack -> run A.

Definition nret {A} (a : A) : net A := fun s => Done a s.
Definition nbind {A B} (m : net A) (k : A -> net B) : net B :=
  fun s => match m s with
           | Done a s' => k a s'
           | Panics => Panics
           | Spins => Spins
           end.
Definition nget : net NetworkStack := fun s => Done s s.
Definition nput (f : NetworkStack -> NetworkStack) : net unit := fun s => Done tt (f s).
Definition nlift {A} (m : outcome A) : net A :=
  fun s => match m with
           | Ret a => Done a s
           | Panic => Panics
           end.

Notation "'do' x <- m ; k" := (nbind m (fun x => k)) (at level 10, x pattern, m at level 100, k at level 200) : word_scope.
Notation "'do_' m ; k" := (nbind m (fun _ => k)) (at level 10, m at level 100, k at level 200) : word_scope.

Definition lock_arp : net unit := fun s => if ns_arp_held s then Spins else Done tt (set_ns_held s true).
Definition unlock_arp : net unit := nput (fun s => set_ns_held s false).

(** A statement that locks, uses the processor and releases. *)
Definition with_arp {A} (f : ArpProcessor -> A * ArpProcessor) : net A :=
  do_ lock_arp;
  do s <- nget;
  let '(a, p) := f (ns_arp s) in
  do_ nput (fun s => set_ns_arp s p);
  do_ unlock_arp;
  nret a.

(** ** Statistics *)

Definition record_rx (len : Z) : net unit :=
  nput (fun s => let t := ns_stats s in
    set_ns_stats s (mkNetStats (n_rx_packets t +w 1) (n_tx_packets t) (n_rx_bytes t +w len) (n_tx_bytes t) (n_rx_errors t) (n_tx_errors t) (n_rx_dropped t))).
Definition record_tx (len : Z) : net unit :=
  nput (fun s => let t := ns_stats s in
    set_ns_stats s (mkNetStats (n_rx_packets t) (n_tx_packets t +w 1) (n_rx_bytes t) (n_tx_bytes t +w len) (n_rx_errors t) (n_tx_errors t) (n_rx_dropped t))).
Definition record_rx_error : net unit :=
  nput (fun s => let t := ns_stats s in
    set_ns_stats s (mkNetStats (n_rx_packets t) (n_tx_packets t) (n_rx_bytes t) (n_tx_bytes t) (n_rx_errors t +w 1) (n_tx_errors t) (n_rx_dropped t))).
Definition record_tx_error : net unit :=
  nput (fun s => let t := ns_stats s in
    set_ns_stats s (mkNetStats (n_rx_packets t) (n_tx_packets t) (n_rx_bytes t) (n_tx_bytes t) (n_rx_errors t) (n_tx_errors t +w 1) (n_rx_dropped t))).
Definition record_dropped : net unit :=
  nput (fun s => let t := ns_stats s in
    set_ns_stats s (mkNetStats (n_rx_packets t) (n_tx_packets t) (n_rx_bytes t) (n_tx_bytes t) (n_rx_errors t) (n_tx_errors t) (n_rx_dropped t +w 1))).

(** ** Sending *)

Definition transmit (data : list Z) : net bool :=
  do s <- nget;
  match ns_transmit s with
  | Some f =>
      do_ nput (fun s => set_ns_sent s (ns_sent s ++ [data]));
      if f data then do_ record_tx (Z.of_nat (length data)); nret true
      else do_ record_tx_error; nret false
  | None => nret false
  end.

(** A frame of a zeroed buffer with its header set. *)
Definition new_frame (size : nat) (dst src : MacAddress) (t : EtherType) : option EthernetFrameMut :=
  match frame_new (replicate size 0) with
  | Some f => Some (frame_set_ether_type (frame_set_source (frame_set_destination f dst) src) t)
  | None => None
  end.

(** The guard of the scrutinee [self.arp.lock().build_reply(..)] lives to the end of the body. *)
Definition send_arp_reply (target_mac : MacAddress) (target_ip : Ipv4Address) : net unit :=
  do s <- nget;
  match new_frame 64 target_mac (cfg_mac (ns_config s)) EtArp with
  | None => nret tt
  | Some frame =>
      do_ lock_arp;
      do s <- nget;
      match arp_build_reply (ns_arp s) (frame_payload_mut frame) target_mac target_ip with
      | (Some len, p) =>
          do frame <- nlift (frame_pad_to_minimum (frame_set_payload_len (frame_return_payload frame p) len));
          do d <- nlift (frame_as_bytes frame);
          do _ <- transmit d;
          unlock_arp
      | (None, _) => unlock_arp
      end
  end.

(** The guard of [self.arp.lock().build_request(..)] is alive when
    [self.arp.lock().request_sent(..)] asks for the lock again. *)
Definition send_arp_request (target_ip : Ipv4Address) : net unit :=
  do s <- nget;
  let now := ns_time s in
  do_ lock_arp;
  do s <- nget;
  let pending := is_pending (arp_cache (ns_arp s)) target_ip now in
  do_ unlock_arp;
  if pending then nret tt
  else
    match new_frame 64 MAC_BROADCAST (cfg_mac (ns_config s)) EtArp with
    | None => nret tt
    | Some frame =>
        do_ lock_arp;
        do s <- nget;
        match arp_build_request (ns_arp s) (frame_payload_mut frame) target_ip with
        | (Some len, p) =>
            do frame <- nlift (frame_pad_to_minimum (frame_set_payload_len (frame_return_payload frame p) len));
            do_ with_arp (fun a => (tt, request_sent a target_ip now));
            do d <- nlift (frame_as_bytes frame);
            do _ <- transmit d;
            unlock_arp
        | (None, _) => unlock_arp
        end
    end.

(** [match self.arp.lock().resolve(..)] of [send_icmp_echo_reply]: the guard
    lives through both arms. *)
Definition resolve_or_request (ip : Ipv4Address) (now : Z) : net (option MacAddress) :=
  do_ lock_arp;
  do s <- nget;
  let '(r, a) := arp_resolve (ns_arp s) ip now in
  do_ nput (fun s => set_ns_arp s a);
  match r with
  | Some mac => do_ unlock_arp; nret (Some mac)
  | None => do_ send_arp_request ip; do_ unlock_arp; nret None
  end.

(** The header set up by every sender. *)
Definition ip_start (eth_payload : list Z) (src dst : Ipv4Address) (proto : IpProtocol) : option (list Z) :=
  match ip_packet_new eth_payload with
  | Some d => Some (ip_set_ttl (ip_set_protocol (ip_set_destination (ip_set_source (ip_init_header d) src) dst) proto) 64)
  | None => None
  end.

(** The last statements of every sender: the packet is finalized around the
    transport payload [p], of which [len] bytes count. *)
Definition ip_finish (frame : EthernetFrameMut) (ip_packet p : list Z) (len : nat) : net bool :=
  let ip_packet := ip_finalize (ip_return_payload ip_packet p) len in
  let frame := frame_set_payload_len (frame_return_payload frame ip_packet) (ip_total_len ip_packet) in
  do d <- nlift (frame_as_bytes frame);
  transmit d.

Definition send_icmp_echo_reply (dst_ip : Ipv4Address) (identifier sequence : Z) (data : list Z) (now : Z) : net unit :=
  do s <- nget;
  let config := ns_config s in
  do dst_mac <- (if config_is_local (cfg_ipv4 config) dst_ip then resolve_or_request dst_ip now
                 else resolve_or_request (gateway (cfg_ipv4 config)) now);
  match dst_mac with
  | None => nret tt
  | Some mac =>
      match new_frame MAX_PACKET_SIZE mac (cfg_mac config) EtIpv4 with
      | None => nret tt
      | Some frame =>
          match ip_start (frame_payload_mut frame) (address (cfg_ipv4 config)) dst_ip IpIcmp with
          | None => nret tt
          | Some ip_packet =>
              match echo_builder_new (ip_payload_mut ip_packet) with
              | None => nret tt
              | Some icmp =>
                  do r <- nlift (icmp_finalize ECHO_SIZE (echo_write_data (echo_build_reply icmp identifier sequence) data).2);
                  do _ <- ip_finish frame ip_packet (ib_buffer r.2) r.1;
                  nret tt
              end
          end
      end
  end.

(** Here the guard is dropped before the request. *)
Definition resolve_mac (dst_ip : Ipv4Address) (config : NetworkConfig) (now : Z) : net (option MacAddress) :=
  if ip_is_broadcast dst_ip then nret (Some MAC_BROADCAST)
  else
    let next_hop := if config_is_local (cfg_ipv4 config) dst_ip then dst_ip else gateway (cfg_ipv4 config) in
    do r <- with_arp (fun a => arp_resolve a next_hop now);
    match r with
    | Some mac => nret (Some mac)
    | None => do_ send_arp_request next_hop; nret None
    end.

Definition send_udp (src_port : Z) (dst_ip : Ipv4Address) (dst_port : Z) (data : list Z) : net bool :=
  do s <- nget;
  let config := ns_config s in
  do dst_mac <- resolve_mac dst_ip config (ns_time s);
  match dst_mac with
  | None => nret false
  | Some mac =>
      match new_frame MAX_PACKET_SIZE mac (cfg_mac config) EtIpv4 with
      | None => nret false
      | Some frame =>
          match ip_start (frame_payload_mut frame) (address (cfg_ipv4 config)) dst_ip IpUdp with
          | None => nret false
          | Some ip_packet =>
              do r <- nlift (udp_build_packet (ip_payload_mut ip_packet) (address (cfg_ipv4 config)) src_port dst_ip dst_port data);
              match r with
              | (Some udp_len, p) => ip_finish frame ip_packet p udp_len
              | (None, _) => nret false
              end
          end
      end
  end.

Definition send_tcp (src_ip dst_ip : Ipv4Address) (tcp_segment : list Z) : net bool :=
  do s <- nget;
  let config := ns_config s in
  do dst_mac <- resolve_mac dst_ip config (ns_time s);
  match dst_mac with
  | None => nret false
  | Some mac =>
      match new_frame MAX_PACKET_SIZE mac (cfg_mac config) EtIpv4 with
      | None => nret false
      | Some frame =>
          match ip_start (frame_payload_mut frame) src_ip dst_ip IpTcp with
          | None => nret false
          | Some ip_packet =>
              let ip_payload := ip_payload_mut ip_packet in
              if (length tcp_segment <=? length ip_payload)%nat then
                ip_finish frame ip_packet (put ip_payload 0 tcp_segment) (length tcp_segment)
              else nret false
          end
      end
  end.

(** [checksum] of stack.rs: [data.len() - 1] wraps on an empty slice, whose
    first access then panics. *)
Definition stack_checksum (data : list Z) : outcome Z :=
  match data with
  | [] => Panic
  | _ => Ret (not16 (fold16 (add_words 0 (words data))))
  end.

(** The echo request is written into a buffer of the pool, which is dropped. *)
Definition send_icmp_echo_request (target : Ipv4Address) (sequence : Z) : net (result Z unit) :=
  do s <- nget;
  let local_ip := address (cfg_ipv4 (ns_config s)) in
  let '(b, pool) := pool_alloc (ns_pool s) in
  do_ nput (fun s => set_ns_pool s pool);
  match b with
  | None => nret (Err tt)
  | Some buf =>
      if (length buf <? 42)%nat then nret (Err tt)
      else
        do mac <- with_arp (fun a => let '(r, c) := cache_lookup (arp_cache a) target (ns_time s) in (r, with_cache a c));
        let dst_mac := default MAC_BROADCAST mac in
        let buf := put buf 0 dst_mac in
        let buf := put buf 6 (cfg_mac (ns_config s)) in
        let buf := put buf 12 [0x08; 0x00] in
        let buf := put buf 14 [0x45; 0x00] in
        let buf := put buf 16 (to_be16 28) in
        let buf := put buf 18 [0; 0; 0x40; 0; 64; 1; 0; 0] in
        let buf := put buf 26 local_ip in
        let buf := put buf 30 target in
        do c <- nlift (let! d := slice buf 14 34 in stack_checksum d);
        let buf := put buf 24 (to_be16 c) in
        let buf := put buf 34 [8; 0; 0; 0] in
        let buf := put buf 38 (to_be16 0x1234) in
        let buf := put buf 40 (to_be16 sequence) in
        do c <- nlift (let! d := slice buf 34 42 in stack_checksum d);
        let buf := put buf 36 (to_be16 c) in
        do d <- nlift (slice buf 0 42);
        do ok <- transmit d;
        nret (if ok then Ok (ns_time s) else Err tt)
  end.

(** ** Receiving *)

Definition process_arp (data : list Z) (now : Z) : net unit :=
  do r <- with_arp (fun a => arp_process a data now);
  match r with
  | SendReply target_mac target_ip => send_arp_reply target_mac target_ip
  | _ => nret tt
  end.

Definition process_icmp (data : list Z) (src_ip : Ipv4Address) (now : Z) : net unit :=
  do s <- nget;
  if negb (icmp_echo_enabled (ns_config s)) then nret tt
  else
    do r <- nlift (icmp_process (ns_icmp s) data src_ip);
    do_ nput (fun s => set_ns_icmp s r.2);
    match r.1 with
    | SendEchoReply src identifier sequence data_offset data_len =>
        do echo <- (if (data_offset + data_len <=? length data)%nat then nlift (slice data data_offset (data_offset + data_len)) else nret []);
        send_icmp_echo_reply src identifier sequence echo now
    | _ => nret tt
    end.

Definition process_udp (data : list Z) (src_ip dst_ip : Ipv4Address) : net unit :=
  do s <- nget;
  do r <- nlift (udp_process (ns_udp s) data src_ip dst_ip);
  do_ nput (fun s => set_ns_udp s r.2);
  match r.1 with
  | UdpDelivered => nret tt
  | NoSocket => record_dropped
  | ChecksumError | UdpInvalid => record_rx_error
  end.

(** [TcpProcessor::process] of tcp.rs reads the ports and drops them. *)
Definition process_tcp (data : list Z) (src_ip dst_ip : Ipv4Address) : net unit := nret tt.

Definition process_ipv4 (data : list Z) (now : Z) : net unit :=
  do s <- nget;
  do r <- nlift (ip_process (ns_ipv4 s) data);
  do_ nput (fun s => set_ns_ipv4 s r.2);
  match r.1 with
  | IpResIcmp payload src => process_icmp payload src now
  | IpResUdp payload src dst => process_udp payload src dst
  | IpResTcp payload src dst => process_tcp payload src dst
  | IpResDropped => record_dropped
  | IpResError => record_rx_error
  end.

Definition receive (data : list Z) : net unit :=
  do s <- nget;
  let now := ns_time s in
  do r <- nlift (eth_process (ns_ethernet s) data);
  do_ nput (fun s => set_ns_ethernet s r.2);
  do_ match r.1 with
      | ResIpv4 payload => process_ipv4 payload now
      | ResArp payload => process_arp payload now
      | ResIpv6 _ => record_dropped
      | ResDropped => record_dropped
      | ResError => record_rx_error
      end;
  record_rx (Z.of_nat (length data)).

(** ** Configuration and maintenance *)

Definition set_config (config : NetworkConfig) : net unit :=
  do_ nput (fun s => set_ns_ethernet s (set_local_mac (ns_ethernet s) (cfg_mac config)));
  do_ nput (fun s => set_ns_ipv4 s (ip_set_config (ns_ipv4 s) (cfg_ipv4 config)));
  do_ with_arp (fun a => (tt, arp_set_local a (cfg_mac config) (address (cfg_ipv4 config))));
  nput (fun s => set_ns_config s config).

Definition update_ip (ip : Ipv4Address) : net unit :=
  do_ nput (fun s => let c := ns_config s in let i := cfg_ipv4 c in
    set_ns_config s (mkNetConfig (cfg_mac c) (mkIpConfig ip (subnet_mask i) (gateway i) (dns i)) (icmp_echo_enabled c)));
  do_ nput (fun s => set_ns_ipv4 s (ip_set_config (ns_ipv4 s) (cfg_ipv4 (ns_config s))));
  do s <- nget;
  with_arp (fun a => (tt, arp_set_local a (cfg_mac (ns_config s)) ip)).

Definition update_time (ticks : Z) : net unit := nput (fun s => set_ns_time s ticks).
Definition set_transmit_fn (f : list Z -> bool) : net unit := nput (fun s => set_ns_transmit s f).

Definition bind_udp (port : Z) : net (option nat) :=
  do s <- nget;
  do r <- nlift (udp_bind (ns_udp s) port);
  do_ nput (fun s => set_ns_udp s r.2);
  nret r.1.

Definition periodic : net unit :=
  do s <- nget;
  with_arp (fun a => (tt, with_cache a (expire_old (arp_cache a) (ns_time s)))).
