(* ===== verification/Ipv4Theorems.v ===== *)
(** * Internet checksums: the loop terminates, what is sent verifies, errors are
    detected, and two verifiers that test the complement *)

From stdpp Require Import base list sets.
From Stdlib Require Import ZArith Lia.
From S2P Require Import Prelude NetBytes Ipv4 Icmp Udp.

Local Open Scope Z_scope.

(** ** Buffers *)

Lemma nth_take (n i : nat) (l : list Z) : (i < n)%nat -> nth i (take n l) 0 = nth i l 0.
Proof. revert n l. induction i as [|i IH]; intros [|n] [|x l] H; cbn; try lia; try done. apply IH. lia. Qed.

Lemma nth_drop (n i : nat) (l : list Z) : nth i (drop n l) 0 = nth (n + i) l 0.
Proof. revert l. induction n as [|n IH]; intros [|x l]; try done; [by destruct i | apply IH]. Qed.

(** What is read after a write. *)
Lemma get_put (data : list Z) (i k : nat) (bs : list Z) :
  (i + length bs <= length data)%nat ->
  get (put data i bs) k = if (i <=? k)%nat && (k <? i + length bs)%nat then get bs (k - i) else get data k.
Proof.
  intros H. unfold get, put.
  assert (Hl : length (take i data) = i) by (rewrite length_take; lia).
  destruct (Nat.leb_spec i k); cbn [andb].
  - rewrite app_nth2 by lia. rewrite Hl. destruct (Nat.ltb_spec k (i + length bs)).
    + rewrite app_nth1 by lia. done.
    + rewrite app_nth2 by lia. rewrite nth_drop. f_equal. lia.
  - rewrite app_nth1 by lia. apply nth_take. lia.
Qed.

Lemma get16_put_same (data : list Z) (i : nat) (w : Z) :
  is_u16 w -> (i + 2 <= length data)%nat -> get16 (put data i (to_be16 w)) i = w.
Proof.
  intros Hw H. unfold get16. rewrite !get_put by (cbn; lia).
  destruct (Nat.leb_spec i i), (Nat.leb_spec i (i + 1)); try lia. cbn [length to_be16].
  destruct (Nat.ltb_spec i (i + 2)), (Nat.ltb_spec (i + 1) (i + 2)); try lia. cbn [andb].
  replace (i - i)%nat with 0%nat by lia. replace (i + 1 - i)%nat with 1%nat by lia. cbn. by apply from_to_be16.
Qed.

(** ** The folding loop *)

(** the loop that folds the carries of a checksum ends within two rounds for
    every 32-bit sum, with a 16-bit value congruent to the sum modulo 65535 that
    is zero only when the sum is. *)
Theorem fold_carry_terminates (sum : Z) :
  is_u32 sum ->
  exists r, fold_carry 2 sum = Some r /\ is_u16 r /\ r mod 65535 = sum mod 65535 /\ (r = 0 <-> sum = 0).
Proof.
  intros H. rewrite fold_carry_eq by done. exists (ones_sum sum). split; [done|]. unfold is_u32, u32_modulus in H.
  pose proof (ones_sum_range sum ltac:(lia)) as [H1 H2]. split; [unfold is_u16; lia|]. split; [|done].
  unfold ones_sum. destruct (Z.eqb_spec sum 0) as [->|]; [done|]. rewrite Zplus_mod_idemp_r. f_equal. lia.
Qed.

(** A sum that needs both rounds. *)
Lemma fold_carry_terminates_witness :
  is_u32 4294901761 /\ fold_carry 1 4294901761 = None /\
  (exists r, fold_carry 2 4294901761 = Some r /\ is_u16 r /\ r mod 65535 = 4294901761 mod 65535 /\ (r = 0 <-> 4294901761 = 0)).
Proof.
  split; [unfold is_u32, u32_modulus; lia|]. split; [reflexivity|].
  apply (fold_carry_terminates 4294901761). unfold is_u32, u32_modulus. lia.
Defined.

(** ** Header checksums *)

Lemma word_at_u16 (data : list Z) (len i : nat) : bytes data -> is_u16 (word_at data len i).
Proof.
  intros H. unfold word_at. destruct (i + 1 <? len)%nat; apply from_be16_range; try (by apply bytes_get). unfold is_byte; lia.
Qed.

Lemma words_at_u16 (data : list Z) (len : nat) (l : list nat) : bytes data -> Forall is_u16 (map (word_at data len) l).
Proof. intros H. apply Forall_forall. intros w (i & -> & _)%list_elem_of_fmap. by apply word_at_u16. Qed.

Lemma filter_absent (k : nat) (l : list nat) : k ∉ l -> filter (fun i => i <> k) l = l.
Proof.
  induction l as [|x l IH]; intros H; [done|]. rewrite filter_cons. apply not_elem_of_cons in H as [H1 H2].
  rewrite decide_True by done. by rewrite IH.
Qed.

(** The word at one index and the others. *)
Lemma zsum_pick (f : nat -> Z) (k : nat) (l : list nat) :
  NoDup l -> k ∈ l -> zsum (map f l) = f k + zsum (map f (filter (fun i => i <> k) l)).
Proof.
  induction 1 as [|x l Hx Hl IH]; intros Hk; [by apply elem_of_nil in Hk|]. rewrite filter_cons. cbn [map]. rewrite zsum_cons.
  apply elem_of_cons in Hk as [->|Hk].
  - rewrite decide_False by tauto. by rewrite filter_absent.
  - rewrite decide_True by (intros ->; done). cbn [map]. rewrite zsum_cons, IH by done. lia.
Qed.

Lemma steps_NoDup (n : nat) : NoDup (steps n).
Proof. unfold steps. apply NoDup_fmap_2; [intros x y; lia | apply NoDup_seq]. Qed.

Lemma steps_elem (n i : nat) : i ∈ steps n <-> exists k, i = (2 * k)%nat /\ (i < n)%nat.
Proof.
  unfold steps. rewrite list_elem_of_fmap. split.
  - intros (k & -> & Hk). apply elem_of_seq in Hk. exists k. split; [done|].
    assert (k < (n + 1) / 2)%nat as Hlt by lia. pose proof (Nat.Div0.mul_div_le (n + 1) 2). lia.
  - intros (k & -> & Hk). exists k. split; [done|]. apply elem_of_seq. split; [lia|].
    assert (k + 1 <= (n + 1) / 2)%nat by (apply Nat.div_le_lower_bound; lia). lia.
Qed.

(** A write of one aligned word changes that word only. *)
Lemma word_at_put (data : list Z) (len i j : nat) (w : Z) :
  is_u16 w -> (2 * i + 2 <= length data)%nat -> (2 * i + 1 < len)%nat ->
  word_at (put data (2 * i) (to_be16 w)) len (2 * j) = if decide (j = i) then w else word_at data len (2 * j).
Proof.
  intros Hw Hl Hlen. destruct (decide (j = i)) as [->|Hne].
  - unfold word_at. destruct (Nat.ltb_spec (2 * i + 1) len); [|lia]. by apply get16_put_same.
  - unfold word_at. rewrite !get_put by (cbn; lia). cbn [length to_be16].
    destruct (Nat.leb_spec (2 * i) (2 * j)), (Nat.ltb_spec (2 * j) (2 * i + 2)), (Nat.leb_spec (2 * i) (2 * j + 1)),
      (Nat.ltb_spec (2 * j + 1) (2 * i + 2)); try lia; done.
Qed.

Lemma header_len_bound (h : list Z) : (ip_header_len h <= 60)%nat.
Proof.
  unfold ip_header_len, ip_ihl. change 0x0F with (Z.ones 4). rewrite Z.land_ones by lia.
  pose proof (Z.mod_pos_bound (get h 0) (2 ^ 4) ltac:(lia)). change (2 ^ 4) with 16 in *. lia.
Qed.

Lemma steps_length (n : nat) : (n <= 60)%nat -> (length (steps n) <= 30)%nat.
Proof. intros H. unfold steps. rewrite length_map, length_seq. apply Nat.lt_succ_r, Nat.Div0.div_lt_upper_bound. lia. Qed.

Lemma header_sum_eq (h : list Z) (l : list nat) :
  bytes h -> (length l <= 30)%nat ->
  let s := zsum (map (word_at h (ip_header_len h)) l) in
  add_words 0 (map (word_at h (ip_header_len h)) l) = s /\ 0 <= s <= 1966050.
Proof.
  intros Hb Hl. pose proof (words_at_u16 h (ip_header_len h) l Hb) as Hw. pose proof (zsum_bound _ Hw) as Hz.
  rewrite length_map in Hz. cbv zeta. rewrite add_words_eq by (done || (rewrite ?length_map; lia)). lia.
Qed.

(** The sum of the header words. *)
Definition header_sum (h : list Z) : Z := zsum (map (word_at h (ip_header_len h)) (steps (ip_header_len h))).

Lemma header_sum_range (h : list Z) : bytes h -> 0 <= header_sum h <= 1966050.
Proof.
  intros Hb. pose proof (steps_length _ (header_len_bound h)) as Hl.
  by destruct (header_sum_eq h (steps (ip_header_len h)) Hb Hl).
Qed.

Lemma verify_header (h : list Z) : bytes h -> ip_verify_checksum h = (ones_sum (header_sum h) =? 65535).
Proof.
  intros Hb. pose proof (steps_length _ (header_len_bound h)) as Hl. unfold ip_verify_checksum.
  destruct (header_sum_eq h (steps (ip_header_len h)) Hb Hl) as [-> Hr]. fold (header_sum h) in *.
  rewrite fold16_eq by (unfold is_u32, u32_modulus; lia). unfold wrap16.
  rewrite Z.mod_small; [done|]. pose proof (ones_sum_range (header_sum h) ltac:(lia)). lia.
Qed.

Lemma compute_header (h : list Z) :
  bytes h -> (20 <= ip_header_len h)%nat ->
  compute_checksum h = 65535 - ones_sum (header_sum h - word_at h (ip_header_len h) 10) /\
  word_at h (ip_header_len h) 10 <= header_sum h.
Proof.
  intros Hb H20. pose proof (steps_length _ (header_len_bound h)) as Hl. unfold compute_checksum.
  assert (Hf : (length (filter (fun i => i <> 10%nat) (steps (ip_header_len h))) <= 30)%nat).
  { pose proof (length_filter (fun i => i <> 10%nat) (steps (ip_header_len h))). lia. }
  destruct (header_sum_eq h _ Hb Hf) as [-> Hr].
  assert (Hp : header_sum h = word_at h (ip_header_len h) 10 + zsum (map (word_at h (ip_header_len h)) (filter (fun i => i <> 10%nat) (steps (ip_header_len h))))).
  { unfold header_sum. apply zsum_pick; [apply steps_NoDup|]. apply steps_elem. exists 5%nat. lia. }
  rewrite fold16_eq by (unfold is_u32, u32_modulus; lia). unfold not16, wrap16.
  set (z := zsum _) in *. pose proof (ones_sum_range z ltac:(lia)) as [Hz _].
  split; [|lia]. rewrite Z.mod_small by lia. do 2 f_equal. lia.
Qed.

Lemma put_keeps_get (data : list Z) (i k : nat) (bs : list Z) :
  (i + length bs <= length data)%nat -> (k < i \/ i + length bs <= k)%nat -> get (put data i bs) k = get data k.
Proof.
  intros H Hk. rewrite get_put by done. destruct (Nat.leb_spec i k), (Nat.ltb_spec k (i + length bs)); try lia; done.
Qed.

Lemma header_len_put (h : list Z) (i : nat) (bs : list Z) :
  (0 < i)%nat -> (i + length bs <= length h)%nat -> ip_header_len (put h i bs) = ip_header_len h.
Proof. intros H1 H2. unfold ip_header_len, ip_ihl. rewrite put_keeps_get by lia. done. Qed.

(** Changing an aligned word changes the sum by the difference. *)
Lemma header_sum_put (h : list Z) (i : nat) (w : Z) :
  is_u16 w -> (0 < i)%nat -> (2 * i + 1 < ip_header_len h)%nat -> (ip_header_len h <= length h)%nat ->
  header_sum (put h (2 * i) (to_be16 w)) = header_sum h - word_at h (ip_header_len h) (2 * i) + w.
Proof.
  intros Hw Hi Hlen Hl. unfold header_sum. rewrite header_len_put by (cbn; lia). set (n := ip_header_len h) in *.
  assert (Hin : (2 * i)%nat ∈ steps n) by (apply steps_elem; exists i; lia).
  rewrite !(zsum_pick _ (2 * i) (steps n)) by (done || apply steps_NoDup).
  rewrite word_at_put, decide_True by (done || lia).
  enough (E : map (word_at (put h (2 * i) (to_be16 w)) n) (filter (fun k => k <> (2 * i)%nat) (steps n)) =
              map (word_at h n) (filter (fun k => k <> (2 * i)%nat) (steps n))) by (rewrite E; lia).
  apply map_ext_in. intros k Hk. apply list_elem_of_In, list_elem_of_filter in Hk as [Hne Hk].
  apply steps_elem in Hk as (j & -> & _). rewrite word_at_put, decide_False by (done || lia). done.
Qed.

(** A header given a fresh checksum verifies. *)
Lemma update_verifies (h : list Z) :
  bytes h -> (20 <= ip_header_len h)%nat -> (ip_header_len h <= length h)%nat ->
  ip_verify_checksum (update_checksum h) = true /\ length (update_checksum h) = length h /\
  bytes (update_checksum h) /\ forall k, (k < 10 \/ 12 <= k)%nat -> get (update_checksum h) k = get h k.
Proof.
  intros Hb H20 Hl. unfold update_checksum, ip_set_checksum. change [0; 0] with (to_be16 0).
  set (h1 := put h 10 (to_be16 0)).
  assert (Hb1 : bytes h1) by (by apply put_bytes; [|apply to_be16_bytes]).
  assert (Hn : ip_header_len h1 = ip_header_len h) by (apply header_len_put; cbn; lia).
  assert (Hl1 : length h1 = length h) by (apply put_length; cbn; lia).
  destruct (compute_header h1) as [Ec Hle]; [done | lia|]. rewrite Hn in Ec, Hle.
  assert (H10 : word_at h1 (ip_header_len h) 10 = 0).
  { unfold h1. change 10%nat with (2 * 5)%nat. rewrite word_at_put by (unfold is_u16; lia). by rewrite decide_True. }
  rewrite H10, Z.sub_0_r in Ec. pose proof (header_sum_range h1 Hb1) as Hr.
  pose proof (ones_sum_range (header_sum h1) ltac:(lia)) as [Ho _].
  assert (Hc : is_u16 (compute_checksum h1)) by (rewrite Ec; unfold is_u16; lia).
  split; [|split; [rewrite put_length; [done | cbn; lia]|split]].
  - rewrite verify_header by (apply put_bytes; [done | apply to_be16_bytes]).
    change 10%nat with (2 * 5)%nat. rewrite header_sum_put by (done || lia). rewrite Hn. change (2 * 5)%nat with 10%nat.
    rewrite H10, Ec, Z.sub_0_r, ones_sum_complement by lia. done.
  - apply put_bytes; [done | apply to_be16_bytes].
  - intros k Hk. rewrite put_keeps_get by (cbn; lia). unfold h1. by rewrite put_keeps_get by (cbn; lia).
Qed.

(** the header checksum detects every change of a single aligned word of the
    header (the first word, with the header length, apart): a header that
    verified does not verify any more, unless the word went between zero and all
    ones, which one's complement sums do not tell apart. *)
Theorem single_word_change_detected (h : list Z) (i : nat) (w : Z) :
  bytes h -> is_u16 w -> (0 < i)%nat -> (2 * i + 1 < ip_header_len h)%nat -> (ip_header_len h <= length h)%nat ->
  ip_verify_checksum h = true ->
  ip_verify_checksum (put h (2 * i) (to_be16 w)) =
    bool_decide (w mod 65535 = word_at h (ip_header_len h) (2 * i) mod 65535 /\ 0 < header_sum h - word_at h (ip_header_len h) (2 * i) + w).
Proof.
  intros Hb Hw Hi Hlen Hl Hv. rewrite verify_header in Hv by done. apply Z.eqb_eq in Hv.
  pose proof (header_sum_range h Hb) as Hr. apply ones_sum_full in Hv as [Hpos Hmod]; [|lia].
  rewrite verify_header by (apply put_bytes; [done | apply to_be16_bytes]).
  assert (Hb' : bytes (put h (2 * i) (to_be16 w))) by (apply put_bytes; [done | apply to_be16_bytes]).
  pose proof (header_sum_range _ Hb') as Hr'. rewrite header_sum_put in * by (done || lia).
  set (o := word_at h (ip_header_len h) (2 * i)) in *. set (s := header_sum h) in *.
  assert (Hiff : ones_sum (s - o + w) = 65535 <-> w mod 65535 = o mod 65535 /\ 0 < s - o + w).
  { rewrite ones_sum_full by lia. replace (s - o + w) with (s + (w - o)) by lia. rewrite Zplus_mod, Hmod, Z.add_0_l, Zmod_mod.
    split.
    - intros [H1 H2]. split; [|lia]. assert ((w - o) mod 65535 = 0) as H3 by done. apply Z.mod_divide in H3 as [q Hq]; [|lia].
      replace w with (o + q * 65535) by lia. by rewrite Z.mod_add by lia.
    - intros [H1 H2]. split; [lia|]. rewrite Zminus_mod, H1, Z.sub_diag. done. }
  destruct (Z.eqb_spec (ones_sum (s - o + w)) 65535) as [E|E]; symmetry; [apply bool_decide_eq_true | apply bool_decide_eq_false]; tauto.
Qed.

(** An IPv4 header that verifies, with its TTL and protocol word overwritten. *)
Lemma single_word_change_detected_witness :
  let h := update_checksum (ip_set_source (ip_init_header (replicate 20 0)) [192; 168; 1; 1]) in
  (bytes h /\ is_u16 0x3F06 /\ (0 < 4)%nat /\ (2 * 4 + 1 < ip_header_len h)%nat /\ (ip_header_len h <= length h)%nat /\ ip_verify_checksum h = true) /\
  ip_verify_checksum (put h 8 (to_be16 0x3F06)) = false /\
  ip_verify_checksum (put h (2 * 4) (to_be16 0x3F06)) =
    bool_decide (0x3F06 mod 65535 = word_at h (ip_header_len h) (2 * 4) mod 65535 /\ 0 < header_sum h - word_at h (ip_header_len h) (2 * 4) + 0x3F06).
Proof.
  cbv zeta.
  assert (Hb : bytes (update_checksum (ip_set_source (ip_init_header (replicate 20 0)) [192; 168; 1; 1]))).
  { vm_compute. repeat (constructor; [split; [discriminate | reflexivity]|]). constructor. }
  assert (Hw : is_u16 0x3F06) by (unfold is_u16; lia).
  split; [split; [exact Hb|]; split; [exact Hw|]; vm_compute; repeat split; lia|]. split; [vm_compute; reflexivity|].
  apply (single_word_change_detected _ 4 0x3F06 Hb Hw); vm_compute; lia || reflexivity.
Defined.
