(* ===== verification/TransportTheorems.v ===== *)
(** * ICMP and UDP packets: what the builders send is valid, and what the
    verifiers accept *)

From stdpp Require Import base list gmap.
From Stdlib Require Import ZArith Lia.
From S2P Require Import Prelude NetBytes Ipv4 Icmp Udp Ipv4Theorems.

Local Open Scope Z_scope.

(** The sum of a packet and a pseudo header is right on the wire. *)
Definition valid_sum (pseudo : Z) (data : list Z) : Prop := ones_sum (pseudo + zsum (words data)) = 65535.

Lemma words_zero (l : list Z) : bytes l -> Forall (fun w => w = 0) (words l) <-> Forall (fun b => b = 0) l.
Proof.
  remember (length l) as n eqn:Hn. revert l Hn. induction n as [n IH] using lt_wf_ind. intros l -> H.
  destruct l as [|a [|b l]]; cbn [words]; [done| |].
  - inversion H as [|?? Ha _]; subst. rewrite !Forall_singleton. rewrite from_be16_eq by (unfold is_byte; lia). unfold is_byte in Ha. lia.
  - inversion H as [|?? Ha H']; inversion H' as [|?? Hb H'']; subst. rewrite !Forall_cons, (IH (length l)) by (done || cbn; lia).
    rewrite from_be16_eq by done. unfold is_byte in *. split; intros [? ?]; [split; [lia|split; [lia|tauto]] | split; [lia|tauto]].
Qed.

(** The test against all ones of a complemented sum holds only for a zero sum. *)
Lemma checksum_full_iff (data : list Z) (initial : Z) :
  bytes data -> 0 <= initial <= 400000 -> Z.of_nat (length data) <= 65536 ->
  (data_checksum data initial =? 0xFFFF) = true <-> initial = 0 /\ Forall (fun b => b = 0) data.
Proof.
  intros Hb Hi Hl. rewrite data_checksum_eq by done. pose proof (words_u16 data Hb) as Hw. pose proof (zsum_bound _ Hw) as Hz.
  rewrite Z.eqb_eq. pose proof (ones_sum_range (initial + zsum (words data)) ltac:(lia)) as [H1 H2].
  rewrite <- (words_zero data Hb). split.
  - intros E. assert (ones_sum (initial + zsum (words data)) = 0) as E0 by lia. apply H2 in E0. split; [lia|].
    apply zsum_zero; [done | lia].
  - intros [-> H0]. assert (zsum (words data) = 0) as Hs.
    { clear -H0. induction H0 as [|w l -> _ IH]; [done|]. rewrite zsum_cons, IH. done. }
    rewrite Hs. done.
Qed.

(** ** ICMP *)

Lemma icmp_verify_iff (data : list Z) :
  bytes data -> Z.of_nat (length data) <= 65536 -> icmp_verify_checksum data = true <-> Forall (fun b => b = 0) data.
Proof. intros Hb Hl. unfold icmp_verify_checksum. rewrite checksum_full_iff by (done || lia). tauto. Qed.

(** the ICMP processor answers no echo request: whatever message it is given,
    it never asks for an echo reply and counts no request, and every message
    that is not all zeros is counted as invalid. *)
Theorem icmp_echo_never_answered (s : IcmpStats) (data : list Z) (src : Ipv4Address) :
  bytes data -> Z.of_nat (length data) <= 65536 ->
  exists r s', icmp_process s data src = Ret (r, s') /\
    (forall ip id seq off len, r <> SendEchoReply ip id seq off len) /\ echo_requests_rx s' = echo_requests_rx s /\
    (~ Forall (fun b => b = 0) data -> r = IcmpInvalid /\ s' = count_invalid s).
Proof.
  intros Hb Hl. unfold icmp_process, icmp_parse. destruct (Nat.ltb_spec (length data) ICMP_SIZE) as [H4|H4]; [by eexists _, _|].
  destruct (icmp_verify_checksum data) eqn:Ev; cbn [negb]; [|by eexists _, _].
  apply icmp_verify_iff in Ev; [|done|done].
  assert (Ht : icmp_type data = EchoReply).
  { unfold ICMP_SIZE in H4. unfold icmp_type, get. destruct data as [|b data]; [cbn in H4; lia|]. inversion Ev; subst. done. }
  rewrite Ht. destruct (as_echo data); (eexists _, _; split; [reflexivity|]; split; [done|]; split; [done | tauto]).
Qed.

(** A correct echo request, as other hosts send it. *)
Lemma icmp_echo_never_answered_witness :
  let data := [8; 0; 0xE5; 0xCA; 0x12; 0x34; 0; 1] in
  (bytes data /\ Z.of_nat (length data) <= 65536 /\ valid_sum 0 data) /\
  exists r s', icmp_process (mkIcmpStats 0 0 0 0 0) data [10; 0; 0; 2] = Ret (r, s') /\
    (forall ip id seq off len, r <> SendEchoReply ip id seq off len) /\ echo_requests_rx s' = echo_requests_rx (mkIcmpStats 0 0 0 0 0) /\
    (~ Forall (fun b => b = 0) data -> r = IcmpInvalid /\ s' = count_invalid (mkIcmpStats 0 0 0 0 0)).
Proof.
  cbv zeta.
  assert (Hb : bytes [8; 0; 0xE5; 0xCA; 0x12; 0x34; 0; 1]) by (repeat (constructor; [unfold is_byte; lia|]); constructor).
  split; [split; [exact Hb|]; split; [cbn; lia | reflexivity]|].
  apply (icmp_echo_never_answered (mkIcmpStats 0 0 0 0 0) _ [10; 0; 0; 2] Hb). cbn. lia.
Defined.

(** The checksum field of a message of [total] bytes completes its sum. *)
Lemma icmp_checksum_completes (d : list Z) (total : nat) :
  bytes d -> (4 <= total)%nat -> (total <= length d)%nat -> Z.of_nat total <= 65536 ->
  let d1 := icmp_set_checksum d 0 in
  let d2 := icmp_set_checksum d1 (data_checksum (take total d1) 0) in
  valid_sum 0 (take total d2) /\ length d2 = length d /\ bytes d2.
Proof.
  intros Hb H4 Hl Hz d1 d2.
  assert (Hb1 : bytes d1) by (apply put_bytes; [done | apply to_be16_bytes]).
  assert (Hl1 : length d1 = length d) by (apply put_length; cbn; lia).
  split; [|split; [rewrite <- Hl1; apply put_length; cbn; lia | apply put_bytes; [done | apply to_be16_bytes]]].
  assert (Ht : (total = 4 + (total - 4))%nat) by lia. assert (H4' : (4 <= length d)%nat) by lia. unfold valid_sum.
  destruct d as [|b0 [|b1 [|b2 [|b3 rest]]]]; cbn in H4'; try lia. clear H4'.
  set (t := take (total - 4) rest).
  assert (E1 : take total d1 = b0 :: b1 :: 0 :: 0 :: t) by (rewrite Ht; unfold d1, icmp_set_checksum, put; cbn; by rewrite drop_0).
  set (c := data_checksum (take total d1) 0) in *.
  assert (Hbt : bytes (take total d1)) by (by apply Forall_take).
  assert (Hc : c = 65535 - ones_sum (from_be16 b0 b1 + zsum (words t))).
  { unfold c. rewrite data_checksum_eq by (done || lia || (rewrite length_take; lia)). rewrite E1. cbn [words]. rewrite !zsum_cons.
    change (from_be16 0 0) with 0. f_equal. }
  assert (Hw : Forall is_u16 (words (take total d1))) by (by apply words_u16). rewrite E1 in Hw. cbn [words] in Hw.
  inversion Hw as [|?? Hw0 Hw1]; inversion Hw1 as [|?? _ Hw2]; subst. pose proof (zsum_bound _ Hw2). unfold is_u16 in Hw0.
  pose proof (ones_sum_range (from_be16 b0 b1 + zsum (words t)) ltac:(lia)) as [Ho _].
  assert (Hc16 : is_u16 c) by (unfold is_u16; lia).
  assert (E2 : take total d2 = b0 :: b1 :: Z.land (Z.shiftr c 8) 255 :: Z.land c 255 :: t).
  { rewrite Ht. unfold d2, d1, icmp_set_checksum, put. cbn. by rewrite !drop_0. }
  rewrite E2. cbn [words]. rewrite !zsum_cons, from_to_be16 by done.
  replace (0 + _) with (from_be16 b0 b1 + zsum (words t) + (65535 - ones_sum (from_be16 b0 b1 + zsum (words t)))) by lia.
  apply ones_sum_complement. lia.
Qed.

Lemma slice_prefix (d : list Z) (n : nat) : (n <= length d)%nat -> slice d 0 n = Ret (take n d).
Proof. intros H. unfold slice. cbn [Nat.leb andb]. destruct (Nat.leb_spec n (length d)); [|lia]. by rewrite Nat.sub_0_r, drop_0. Qed.

Lemma slice_ret (d : list Z) (a b : nat) : (a <= b)%nat -> (b <= length d)%nat -> slice d a b = Ret (take (b - a) (drop a d)).
Proof. intros H1 H2. unfold slice. destruct (Nat.leb_spec a b), (Nat.leb_spec b (length d)); try lia. done. Qed.

(** A valid message that is not empty of information fails the test. *)
Lemma valid_rejected (data : list Z) : bytes data -> Z.of_nat (length data) <= 65536 -> valid_sum 0 data -> icmp_verify_checksum data = false.
Proof.
  intros Hb Hl Hv. destruct (icmp_verify_checksum data) eqn:E; [|done]. apply icmp_verify_iff in E; [|done|done].
  apply words_zero in E; [|done]. assert (Hs : zsum (words data) = 0) by (induction E as [|w l -> _ IH]; [done | by rewrite zsum_cons, IH]).
  unfold valid_sum in Hv. rewrite Hs in Hv. discriminate.
Qed.

Definition echo_kind (t : IcmpType) : Prop := t = EchoRequest \/ t = EchoReply.

(** The bytes the echo builder leaves before the checksum. *)
Lemma echo_layout (t : IcmpType) (buffer data : list Z) (id seq : Z) :
  (8 <= length buffer)%nat ->
  let n := Nat.min (length data) (length buffer - 8) in
  let b := (echo_write_data (echo_build t (mkIcmpBuilder buffer 0) id seq) data).2 in
  ib_len b = n /\
  exists x y rest, ib_buffer b = icmp_type_into t :: 0 :: x :: y :: to_be16 id ++ to_be16 seq ++ take n data ++ rest /\
    length (ib_buffer b) = length buffer.
Proof.
  intros H8 n b. destruct buffer as [|b0 [|b1 [|b2 [|b3 [|b4 [|b5 [|b6 [|b7 rest]]]]]]]]; cbn in H8; try lia. clear H8.
  assert (E0 : ib_buffer (echo_build t (mkIcmpBuilder (b0 :: b1 :: b2 :: b3 :: b4 :: b5 :: b6 :: b7 :: rest) 0) id seq) =
               icmp_type_into t :: 0 :: b2 :: b3 :: to_be16 id ++ to_be16 seq ++ rest) by reflexivity.
  assert (Hn : n = Nat.min (length data) (length rest)) by (unfold n; cbn; lia).
  assert (E1 : Nat.min (length data) (length (icmp_type_into t :: 0 :: b2 :: b3 :: to_be16 id ++ to_be16 seq ++ rest) - ECHO_SIZE) = n)
    by (rewrite Hn; cbn; lia).
  unfold b, echo_write_data. rewrite E0, E1. cbn [snd ib_len ib_buffer]. split; [done|]. exists b2, b3, (drop n rest).
  assert (Eb : put (icmp_type_into t :: 0 :: b2 :: b3 :: to_be16 id ++ to_be16 seq ++ rest) ECHO_SIZE (take n data) =
               icmp_type_into t :: 0 :: b2 :: b3 :: to_be16 id ++ to_be16 seq ++ take n data ++ drop n rest).
  { unfold put. rewrite length_take, Nat.min_l by lia. reflexivity. }
  split; [done|]. rewrite Eb. cbn. rewrite length_app, length_take, length_drop. lia.
Qed.

(** an echo message round trips as far as its contents go: the builder writes
    type, identifier, sequence number and data so that they are read back, and a
    checksum that is valid on the wire; the verifier of the same file rejects
    every such message. *)
Theorem echo_built_valid_but_rejected (t : IcmpType) (buffer data : list Z) (id seq : Z) :
  echo_kind t -> (8 <= length buffer)%nat -> Z.of_nat (length buffer) <= 65536 -> bytes buffer -> bytes data -> is_u16 id -> is_u16 seq ->
  exists buf', build_echo t buffer id seq data = Ret (Some (8 + Nat.min (length data) (length buffer - 8))%nat, buf') /\
    let msg := take (8 + Nat.min (length data) (length buffer - 8)) buf' in
    as_echo msg = Some msg /\ icmp_type msg = t /\ echo_identifier msg = id /\ echo_sequence msg = seq /\
    echo_data msg = Ret (take (length buffer - 8) data) /\ valid_sum 0 msg /\ icmp_verify_checksum msg = false.
Proof.
  intros Ht H8 Hz Hb Hd Hid Hseq. unfold build_echo, echo_builder_new. destruct (Nat.ltb_spec (length buffer) ECHO_SIZE); [unfold ECHO_SIZE in *; lia|].
  destruct (echo_layout t buffer data id seq H8) as (Hlen & x & y & rest & Eb & Hbl). set (n := Nat.min (length data) (length buffer - 8)) in *.
  set (b := (echo_write_data (echo_build t (mkIcmpBuilder buffer 0) id seq) data).2) in *.
  assert (Hbb : bytes (ib_buffer b)).
  { unfold b, echo_write_data. cbn [snd ib_buffer]. apply put_bytes; [|by apply Forall_take].
    unfold echo_build. cbn [ib_buffer]. apply put_bytes; [|apply to_be16_bytes]. apply put_bytes; [|apply to_be16_bytes].
    apply put_bytes; [|constructor; [unfold is_byte; lia | constructor]]. apply put_bytes; [done|].
    constructor; [destruct Ht as [->| ->]; unfold is_byte; cbn; lia | constructor]. }
  unfold icmp_finalize. rewrite Hlen. rewrite slice_prefix by (unfold icmp_set_checksum; rewrite put_length by (cbn [length to_be16]; lia); unfold ECHO_SIZE; lia).
  cbn [obind fst snd ib_buffer]. eexists. split; [reflexivity|]. change (ECHO_SIZE + n)%nat with (8 + n)%nat.
  destruct (icmp_checksum_completes (ib_buffer b) (8 + n)) as (Hv & Hl2 & Hb2); [done | lia | lia | lia|].
  set (d1 := icmp_set_checksum (ib_buffer b) 0) in *. set (c := data_checksum (take (8 + n) d1) 0) in *.
  set (msg := take (8 + n) (icmp_set_checksum d1 c)) in *.
  assert (Hm : msg = icmp_type_into t :: 0 :: Z.land (Z.shiftr c 8) 255 :: Z.land c 255 :: to_be16 id ++ to_be16 seq ++ take n data).
  { unfold msg, d1, icmp_set_checksum, put. rewrite Eb. cbn. rewrite take_app_length'; [done|]. rewrite length_take. lia. }
  assert (Hml : length msg = (8 + n)%nat) by (unfold msg; rewrite length_take; lia).
  assert (Hty : icmp_type msg = t) by (rewrite Hm; destruct Ht as [->| ->]; done).
  split; [unfold as_echo; rewrite Hty, Hml; destruct (Nat.ltb_spec (8 + n) ECHO_SIZE) as [Hlt|_]; [unfold ECHO_SIZE in Hlt; lia|]; destruct Ht as [->| ->]; done|].
  split; [done|]. split; [rewrite Hm; by apply from_to_be16|]. split; [rewrite Hm; by apply from_to_be16|].
  split; [|split; [done|]].
  - unfold echo_data. rewrite slice_ret by (unfold ECHO_SIZE; lia). rewrite Hml, Hm. cbn. rewrite drop_0, Nat.sub_0_r, take_take, Nat.min_id.
    unfold n. f_equal. destruct (Nat.min_spec (length data) (length buffer - 8)) as [[? ->]|[? ->]]; [|done]. by rewrite !take_ge by lia.
  - apply valid_rejected; [by apply Forall_take | lia | done].
Qed.

Lemma echo_built_valid_but_rejected_witness :
  (echo_kind EchoRequest /\ (8 <= length (replicate 64 0))%nat /\ bytes (replicate 64 0) /\ bytes [104; 101; 108; 108; 111] /\ is_u16 1234 /\ is_u16 1) /\
  exists buf', build_echo EchoRequest (replicate 64 0) 1234 1 [104; 101; 108; 108; 111] = Ret (Some 13%nat, buf') /\
    icmp_verify_checksum (take 13 buf') = false.
Proof.
  assert (Hk : echo_kind EchoRequest) by (by left).
  assert (Hb : bytes (replicate 64 0)) by (apply Forall_replicate; unfold is_byte; lia).
  assert (Hd : bytes [104; 101; 108; 108; 111]) by (repeat (constructor; [unfold is_byte; lia|]); constructor).
  assert (H1 : is_u16 1234) by (unfold is_u16; lia). assert (H2 : is_u16 1) by (unfold is_u16; lia).
  split; [split; [exact Hk|]; split; [cbn; lia|]; exact (conj Hb (conj Hd (conj H1 H2)))|].
  destruct (echo_built_valid_but_rejected EchoRequest (replicate 64 0) [104; 101; 108; 108; 111] 1234 1 Hk) as (buf' & E & H);
    [cbn; lia | rewrite length_replicate; lia | exact Hb | exact Hd | exact H1 | exact H2|].
  exists buf'. split; [exact E|]. apply H.
Defined.

(** ** UDP *)

(** Removes the wrap-around of sums that fit, from the inside out. *)
Ltac unwrap32 :=
  repeat match goal with
  | |- context [wrap32 ?z] =>
      lazymatch z with context [wrap32 _] => fail | _ => rewrite (wrap32_small z) by (unfold is_u32, u32_modulus; lia) end
  end.

Lemma pseudo_range (src dst : Ipv4Address) (len : Z) :
  bytes src -> bytes dst -> is_u16 len -> 17 <= pseudo_header_checksum src dst IpUdp len <= 327692.
Proof.
  intros Hs Hd Hl. unfold pseudo_header_checksum, is_u16 in *.
  pose proof (from_be16_range _ _ (bytes_get src 0 Hs) (bytes_get src 1 Hs)). pose proof (from_be16_range _ _ (bytes_get src 2 Hs) (bytes_get src 3 Hs)).
  pose proof (from_be16_range _ _ (bytes_get dst 0 Hd) (bytes_get dst 1 Hd)). pose proof (from_be16_range _ _ (bytes_get dst 2 Hd) (bytes_get dst 3 Hd)).
  unfold is_u16 in *. cbn [protocol_into]. unwrap32. lia.
Qed.

Lemma get16_u16 (d : list Z) (i : nat) : bytes d -> is_u16 (get16 d i).
Proof. intros H. apply from_be16_range; by apply bytes_get. Qed.

Lemma udp_verify_eq (data : list Z) (src dst : Ipv4Address) :
  bytes data -> bytes src -> bytes dst -> udp_parse data = Some data ->
  udp_verify_checksum data src dst = Ret (udp_checksum data =? 0).
Proof.
  intros Hb Hs Hd Hp. unfold udp_verify_checksum. destruct (Z.eqb_spec (udp_checksum data) 0); [done|].
  unfold udp_parse in Hp. destruct (length data <? UDP_SIZE)%nat; [done|].
  destruct ((Z.to_nat (udp_length data) <? UDP_SIZE)%nat || (length data <? Z.to_nat (udp_length data))%nat) eqn:E; [done|].
  apply orb_false_iff in E as [E1%Nat.ltb_ge E2%Nat.ltb_ge]. rewrite slice_prefix by done. cbn [obind].
  assert (Hu : is_u16 (udp_length data)) by (by apply get16_u16).
  pose proof (pseudo_range src dst (udp_length data) Hs Hd Hu) as Hr.
  destruct (data_checksum (take (Z.to_nat (udp_length data)) data) (pseudo_header_checksum src dst IpUdp (udp_length data)) =? 0xFFFF) eqn:Ec; [|done].
  apply checksum_full_iff in Ec as [Ec _]; [lia | by apply Forall_take | lia|]. unfold is_u16 in Hu. rewrite length_take. lia.
Qed.

(** a UDP packet that parses passes the verifier exactly when its checksum
    field is zero, that is when it carries no checksum. *)
Theorem udp_verifies_only_without_checksum (data : list Z) (src dst : Ipv4Address) :
  bytes data -> bytes src -> bytes dst -> udp_parse data = Some data ->
  udp_verify_checksum data src dst = Ret (udp_checksum data =? 0).
Proof. apply udp_verify_eq. Qed.

(** Ports 53 and 1024, four bytes of data and a checksum. *)
Lemma udp_verifies_only_without_checksum_witness :
  let data := [0; 53; 4; 0; 0; 12; 0xAB; 0xCD; 1; 2; 3; 4] in
  (bytes data /\ bytes [10; 0; 0; 1] /\ bytes [10; 0; 0; 2] /\ udp_parse data = Some data) /\
  udp_verify_checksum data [10; 0; 0; 1] [10; 0; 0; 2] = Ret (udp_checksum data =? 0) /\ udp_checksum data <> 0.
Proof.
  cbv zeta.
  assert (H1 : bytes [0; 53; 4; 0; 0; 12; 0xAB; 0xCD; 1; 2; 3; 4]) by (repeat (constructor; [unfold is_byte; lia|]); constructor).
  assert (H2 : bytes [10; 0; 0; 1]) by (repeat (constructor; [unfold is_byte; lia|]); constructor).
  assert (H3 : bytes [10; 0; 0; 2]) by (repeat (constructor; [unfold is_byte; lia|]); constructor).
  split; [exact (conj H1 (conj H2 (conj H3 eq_refl)))|]. split; [|discriminate].
  apply (udp_verifies_only_without_checksum _ [10; 0; 0; 1] [10; 0; 0; 2] H1 H2 H3 eq_refl).
Defined.

(** The checksum field of a packet of [total] bytes completes its sum. *)
Lemma udp_checksum_completes (d : list Z) (total : nat) (pseudo : Z) :
  bytes d -> (8 <= total)%nat -> (total <= length d)%nat -> Z.of_nat total <= 65536 -> 0 <= pseudo <= 400000 ->
  let d1 := udp_set_checksum d 0 in
  let c := data_checksum (take total d1) pseudo in
  let f := if c =? 0 then 0xFFFF else c in
  valid_sum pseudo (take total (udp_set_checksum d1 f)) /\ is_u16 f /\ f <> 0.
Proof.
  intros Hb H8 Hl Hz Hp d1 c f.
  assert (Hb1 : bytes d1) by (apply put_bytes; [done | apply to_be16_bytes]).
  assert (Hl1 : length d1 = length d) by (apply put_length; cbn; lia).
  assert (Ht : (total = 8 + (total - 8))%nat) by lia. assert (H8' : (8 <= length d)%nat) by lia. unfold valid_sum.
  destruct d as [|b0 [|b1 [|b2 [|b3 [|b4 [|b5 [|b6 [|b7 rest]]]]]]]]; cbn in H8'; try lia. clear H8'.
  set (t := take (total - 8) rest). set (w := from_be16 b0 b1 + (from_be16 b2 b3 + (from_be16 b4 b5 + zsum (words t)))).
  assert (E1 : take total d1 = b0 :: b1 :: b2 :: b3 :: b4 :: b5 :: 0 :: 0 :: t) by (rewrite Ht; reflexivity).
  assert (Hbt : bytes (take total d1)) by (by apply Forall_take).
  assert (Hs : zsum (words (take total d1)) = w) by (rewrite E1; reflexivity).
  pose proof (zsum_bound _ (words_u16 _ Hbt)) as Hw. rewrite Hs in Hw.
  assert (Hc : c = 65535 - ones_sum (pseudo + w)).
  { unfold c. rewrite data_checksum_eq by (done || lia || (rewrite length_take; lia)). by rewrite Hs. }
  pose proof (ones_sum_range (pseudo + w) ltac:(lia)) as [Ho _].
  assert (Hf : is_u16 f /\ f <> 0) by (unfold f, is_u16; destruct (Z.eqb_spec c 0); lia). split; [|done].
  assert (E2 : take total (udp_set_checksum d1 f) = b0 :: b1 :: b2 :: b3 :: b4 :: b5 :: Z.land (Z.shiftr f 8) 255 :: Z.land f 255 :: t)
    by (rewrite Ht; reflexivity).
  rewrite E2. cbn [words]. rewrite !zsum_cons, (from_to_be16 f) by apply Hf.
  replace (pseudo + _) with (pseudo + w + f) by (unfold w; lia). unfold f. destruct (Z.eqb_spec c 0) as [E0|].
  - assert (Hfull : ones_sum (pseudo + w) = 65535) by lia. apply ones_sum_full in Hfull as [F1 F2]; [|lia].
    apply ones_sum_full; [lia|]. split; [lia|]. change 65535 with (1 * 65535) at 1. by rewrite Z.mod_add by lia.
  - rewrite Hc. apply ones_sum_complement. lia.
Qed.

(** The bytes the UDP builder leaves before length and checksum are set. *)
Lemma udp_layout (buffer payload : list Z) (sp dp : Z) :
  (8 <= length buffer)%nat ->
  let n := Nat.min (length payload) (length buffer - 8) in
  let b := (udp_write_payload (mkUdpBuilder (udp_set_dst_port (udp_set_src_port buffer sp) dp) 0) payload).2 in
  ub_len b = n /\ length (ub_buffer b) = length buffer /\
  exists x y z w rest, ub_buffer b = to_be16 sp ++ to_be16 dp ++ x :: y :: z :: w :: take n payload ++ rest.
Proof.
  intros H8 n b. destruct buffer as [|b0 [|b1 [|b2 [|b3 [|b4 [|b5 [|b6 [|b7 rest]]]]]]]]; cbn in H8; try lia. clear H8.
  assert (E0 : udp_set_dst_port (udp_set_src_port (b0 :: b1 :: b2 :: b3 :: b4 :: b5 :: b6 :: b7 :: rest) sp) dp =
               to_be16 sp ++ to_be16 dp ++ b4 :: b5 :: b6 :: b7 :: rest) by reflexivity.
  assert (Hn : n = Nat.min (length payload) (length rest)) by (unfold n; cbn; lia).
  assert (E1 : Nat.min (length payload) (length (to_be16 sp ++ to_be16 dp ++ b4 :: b5 :: b6 :: b7 :: rest) - UDP_SIZE) = n) by (rewrite Hn; cbn; lia).
  unfold b, udp_write_payload. cbn [ub_buffer]. rewrite E0, E1. cbn [snd ub_len ub_buffer]. split; [done|].
  assert (Eb : put (to_be16 sp ++ to_be16 dp ++ b4 :: b5 :: b6 :: b7 :: rest) UDP_SIZE (take n payload) =
               to_be16 sp ++ to_be16 dp ++ b4 :: b5 :: b6 :: b7 :: take n payload ++ drop n rest).
  { unfold put. rewrite length_take, Nat.min_l by lia. reflexivity. }
  split; [|by exists b4, b5, b6, b7, (drop n rest)]. rewrite Eb. cbn. rewrite length_app, length_take, length_drop. lia.
Qed.

(** The packet built is the header and the payload. *)
Lemma udp_build_eq (buffer payload : list Z) (src dst : Ipv4Address) (sp dp : Z) :
  (8 <= length buffer)%nat -> Z.of_nat (length buffer) <= 65535 -> bytes buffer -> bytes payload -> bytes src -> bytes dst ->
  let n := Nat.min (length payload) (length buffer - 8) in
  let total := Z.of_nat (8 + n) in
  exists buf' f, udp_build_packet buffer src sp dst dp payload = Ret (Some (8 + n)%nat, buf') /\ is_u16 f /\ f <> 0 /\
    length buf' = length buffer /\ bytes buf' /\
    take (8 + n) buf' = to_be16 sp ++ to_be16 dp ++ to_be16 total ++ to_be16 f ++ take n payload /\
    valid_sum (pseudo_header_checksum src dst IpUdp total) (take (8 + n) buf').
Proof.
  intros H8 Hz Hb Hp Hs Hd n total. unfold udp_build_packet, udp_builder_new.
  destruct (Nat.ltb_spec (length buffer) UDP_SIZE); [unfold UDP_SIZE in *; lia|]. cbn [ub_buffer ub_len].
  destruct (udp_layout buffer payload sp dp H8) as (Hlen & Hbl & x & y & z & w & rest & Eb). fold n in Hlen, Eb.
  set (b := (udp_write_payload (mkUdpBuilder (udp_set_dst_port (udp_set_src_port buffer sp) dp) 0) payload).2) in *.
  assert (Hbb : bytes (ub_buffer b)).
  { unfold b, udp_write_payload. cbn [snd ub_buffer]. apply put_bytes; [|by apply Forall_take].
    apply put_bytes; [|apply to_be16_bytes]. by apply put_bytes; [|apply to_be16_bytes]. }
  unfold udp_finalize. rewrite Hlen. change (UDP_SIZE + n)%nat with (8 + n)%nat. fold total.
  assert (Ht16 : is_u16 total) by (unfold is_u16, total; lia). replace (wrap16 total) with total by (symmetry; apply Z.mod_small, Ht16).
  assert (Htn : Z.to_nat total = (8 + n)%nat) by (unfold total; lia). rewrite Htn.
  set (d := udp_set_length (ub_buffer b) total).
  assert (Hdl : length d = length buffer) by (unfold d, udp_set_length; rewrite put_length by (cbn [length to_be16]; lia); done).
  assert (Hdb : bytes d) by (apply put_bytes; [done | apply to_be16_bytes]).
  rewrite slice_prefix by (unfold udp_set_checksum; rewrite put_length by (cbn [length to_be16]; lia); lia). cbn [obind fst snd ub_buffer].
  pose proof (pseudo_range src dst total Hs Hd Ht16) as Hpr.
  destruct (udp_checksum_completes d (8 + n) (pseudo_header_checksum src dst IpUdp total)) as (Hv & Hf & Hf0); [done | lia | lia | lia | lia|].
  set (f := if data_checksum _ _ =? 0 then 0xFFFF else _) in *. eexists _, f. split; [reflexivity|]. split; [done|]. split; [done|].
  assert (Hl1 : length (udp_set_checksum d 0) = length buffer) by (unfold udp_set_checksum; rewrite put_length by (cbn [length to_be16]; lia); done).
  split; [unfold udp_set_checksum at 1; rewrite put_length by (cbn [length to_be16]; lia); done|].
  split; [apply put_bytes; [apply put_bytes; [done | apply to_be16_bytes] | apply to_be16_bytes]|]. split; [|done].
  unfold d, udp_set_checksum, udp_set_length, put. rewrite Eb. cbn. rewrite !drop_0, take_app_length'; [done|]. rewrite length_take. lia.
Qed.

(** All there is to know of a packet that was built. *)
Lemma udp_built (u : udp_state) (buffer payload : list Z) (src dst : Ipv4Address) (sp dp : Z) :
  (8 <= length buffer)%nat -> Z.of_nat (length buffer) <= 65535 -> bytes buffer -> bytes payload -> bytes src -> bytes dst ->
  is_u16 sp -> is_u16 dp ->
  exists len buf', udp_build_packet buffer src sp dst dp payload = Ret (Some len, buf') /\ (len <= length buf')%nat /\ length buf' = length buffer /\ bytes buf' /\
    let pkt := take len buf' in
    udp_parse pkt = Some pkt /\ udp_src_port pkt = sp /\ udp_dst_port pkt = dp /\
    udp_payload pkt = Ret (take (length buffer - 8) payload) /\
    valid_sum (pseudo_header_checksum src dst IpUdp (udp_length pkt)) pkt /\
    udp_process u pkt src dst = Ret (ChecksumError, count_checksum_error u).
Proof.
  intros H8 Hz Hb Hp Hs Hd Hsp Hdp. destruct (udp_build_eq buffer payload src dst sp dp H8 Hz Hb Hp Hs Hd) as (buf' & f & E & Hf & Hf0 & Hl & Hb' & Epkt & Hv).
  set (n := Nat.min (length payload) (length buffer - 8)) in *. exists (8 + n)%nat, buf'. split; [exact E|]. split; [lia|]. split; [done|]. split; [done|]. cbv zeta.
  set (pkt := take (8 + n) buf') in *. assert (Hpl : length pkt = (8 + n)%nat) by (unfold pkt; rewrite length_take; lia).
  assert (Hpb : bytes pkt) by (by apply Forall_take).
  assert (Ht : is_u16 (Z.of_nat (8 + n))) by (unfold is_u16; lia).
  assert (Hlen : udp_length pkt = Z.of_nat (8 + n)) by (rewrite Epkt; by apply from_to_be16).
  assert (Hck : udp_checksum pkt = f) by (rewrite Epkt; by apply from_to_be16).
  assert (Hparse : udp_parse pkt = Some pkt).
  { unfold udp_parse. rewrite Hlen, Hpl, Nat2Z.id. unfold UDP_SIZE. destruct (Nat.ltb_spec (8 + n) 8), (Nat.ltb_spec (8 + n) (8 + n)); try lia. done. }
  split; [exact Hparse|]. split; [rewrite Epkt; by apply from_to_be16|]. split; [rewrite Epkt; by apply from_to_be16|]. split; [|split].
  - unfold udp_payload. rewrite Hlen, Nat2Z.id, slice_ret by (unfold UDP_SIZE; lia).
    replace (8 + n - UDP_SIZE)%nat with n by (unfold UDP_SIZE; lia). rewrite Epkt. cbn. rewrite drop_0, take_take, Nat.min_id.
    unfold n. f_equal. destruct (Nat.min_spec (length payload) (length buffer - 8)) as [[? ->]|[? ->]]; [|done]. by rewrite !take_ge by lia.
  - by rewrite Hlen.
  - unfold udp_process. rewrite Hparse, udp_verify_eq by done. rewrite Hck. cbn [obind].
    destruct (Z.eqb_spec f 0); [done|]. done.
Qed.

(** a UDP packet round trips as far as its contents go: what the builder
    writes parses, with the ports and the payload (cut to the buffer) it was
    given and a checksum that is valid on the wire; and the processor of the
    receiving side answers every such packet with a checksum error. *)
Theorem udp_built_valid_but_rejected (u : udp_state) (buffer payload : list Z) (src dst : Ipv4Address) (sp dp : Z) :
  (8 <= length buffer)%nat -> Z.of_nat (length buffer) <= 65535 -> bytes buffer -> bytes payload -> bytes src -> bytes dst ->
  is_u16 sp -> is_u16 dp ->
  exists len buf', udp_build_packet buffer src sp dst dp payload = Ret (Some len, buf') /\
    let pkt := take len buf' in
    udp_parse pkt = Some pkt /\ udp_src_port pkt = sp /\ udp_dst_port pkt = dp /\
    udp_payload pkt = Ret (take (length buffer - 8) payload) /\
    valid_sum (pseudo_header_checksum src dst IpUdp (udp_length pkt)) pkt /\
    udp_process u pkt src dst = Ret (ChecksumError, count_checksum_error u).
Proof.
  intros H8 Hz Hb Hp Hs Hd Hsp Hdp. destruct (udp_built u buffer payload src dst sp dp) as (len & buf' & E & _ & _ & _ & H); try done. eauto.
Qed.

Lemma udp_built_valid_but_rejected_witness :
  ((8 <= length (replicate 64 0))%nat /\ bytes (replicate 64 0) /\ bytes [104; 105] /\ bytes [10; 0; 0; 1] /\ bytes [10; 0; 0; 2] /\ is_u16 12345 /\ is_u16 53) /\
  exists len buf', udp_build_packet (replicate 64 0) [10; 0; 0; 1] 12345 [10; 0; 0; 2] 53 [104; 105] = Ret (Some len, buf') /\
    udp_process udp_table_new (take len buf') [10; 0; 0; 1] [10; 0; 0; 2] = Ret (ChecksumError, count_checksum_error udp_table_new).
Proof.
  assert (Hb : bytes (replicate 64 0)) by (apply Forall_replicate; unfold is_byte; lia).
  assert (Hp : bytes [104; 105]) by (repeat (constructor; [unfold is_byte; lia|]); constructor).
  assert (H2 : bytes [10; 0; 0; 1]) by (repeat (constructor; [unfold is_byte; lia|]); constructor).
  assert (H3 : bytes [10; 0; 0; 2]) by (repeat (constructor; [unfold is_byte; lia|]); constructor).
  assert (H4 : is_u16 12345) by (unfold is_u16; lia). assert (H5 : is_u16 53) by (unfold is_u16; lia).
  split; [split; [cbn; lia|]; exact (conj Hb (conj Hp (conj H2 (conj H3 (conj H4 H5)))))|].
  destruct (udp_built_valid_but_rejected udp_table_new (replicate 64 0) [104; 105] [10; 0; 0; 1] [10; 0; 0; 2] 12345 53) as (len & buf' & E & H);
    [cbn; lia | rewrite length_replicate; lia | exact Hb | exact Hp | exact H2 | exact H3 | exact H4 | exact H5|].
  exists len, buf'. split; [exact E|]. apply H.
Defined.

(** ** The socket table *)

(** The table has its 256 slots, every slot holds a socket of the store, and a
    socket that is not closed and still in the table is in the slot of its port. *)
Record udp_inv (u : udp_state) : Prop := {
  ui_len : length (u_slots u) = MAX_UDP_SOCKETS;
  ui_slot : forall i s, u_slots u !! i = Some (Some s) -> exists k, u_store u !! s = Some k /\ udp_slot (sk_port k) = i;
  ui_next : forall s, is_Some (u_store u !! s) -> (s < u_next u)%nat
}.

Inductive udp_op :=
| OpBind (p : Z) | OpUnbind (p : Z) | OpDeliver (d : UdpDatagram) | OpClose (s : nat) | OpRecv (s : nat) (t : Z).

Definition udp_apply (u : udp_state) (op : udp_op) : outcome udp_state :=
  match op with
  | OpBind p => let! r := udp_bind u p in Ret r.2
  | OpUnbind p => udp_unbind u p
  | OpDeliver d => let! r := udp_deliver u d in Ret r.2
  | OpClose s => Ret (udp_close u s)
  | OpRecv s t => Ret (udp_recv u s t).2
  end.

Lemma udp_slot_lt (p : Z) : (udp_slot p < MAX_UDP_SOCKETS)%nat.
Proof. unfold udp_slot, MAX_UDP_SOCKETS. pose proof (Z.mod_pos_bound p (Z.of_nat 256) ltac:(lia)). lia. Qed.

Lemma udp_index (u : udp_state) (p : Z) : udp_inv u -> exists o, u_slots u !! udp_slot p = Some o.
Proof.
  intros [H _ _]. destruct (u_slots u !! udp_slot p) as [o|] eqn:E; [by exists o|]. apply lookup_ge_None in E.
  pose proof (udp_slot_lt p). lia.
Qed.

(** Changing the contents of one socket keeps the invariant. *)
Lemma udp_inv_update (u : udp_state) (s : nat) (k k' : UdpSocketInner) (u' : udp_state) :
  udp_inv u -> u_store u !! s = Some k -> sk_port k' = sk_port k ->
  u_store u' = <[s := k']> (u_store u) -> u_slots u' = u_slots u -> u_next u' = u_next u -> udp_inv u'.
Proof.
  intros [H1 H2 H3] Hk Hp Hs Hl Hn. split; rewrite ?Hs, ?Hl, ?Hn; [done| |].
  - intros i j Hi. destruct (H2 i j Hi) as (k0 & Hk0 & Hs0). destruct (decide (j = s)) as [->|Hne].
    + rewrite lookup_insert_eq. exists k'. split; [done|]. rewrite Hp. congruence.
    + rewrite lookup_insert_ne by done. eauto.
  - intros j. destruct (decide (j = s)) as [->|Hne]; [intros _; apply H3; by eexists|]. rewrite lookup_insert_ne by done. apply H3.
Qed.

Lemma udp_apply_inv (u : udp_state) (op : udp_op) : udp_inv u -> exists u', udp_apply u op = Ret u' /\ udp_inv u'.
Proof.
  intros Hi. pose proof Hi as [H1 H2 H3]. destruct op as [p|p|d|s|s t]; cbn [udp_apply].
  - destruct (udp_index u p Hi) as [o Ho]. unfold udp_bind, index. rewrite Ho. cbn [obind]. destruct o as [s|]; cbn [obind snd]; [by exists u|].
    unfold index_set. rewrite Ho. cbn [obind snd]. eexists. split; [reflexivity|]. split; cbn [u_slots u_store u_next].
    + by rewrite length_insert.
    + intros i s. destruct (decide (i = udp_slot p)) as [->|Hne].
      * rewrite list_lookup_insert_eq by (rewrite H1; apply udp_slot_lt). intros [= <-]. rewrite lookup_insert_eq. by eexists.
      * rewrite list_lookup_insert_ne by done. intros Hs. destruct (H2 i s Hs) as (k & Hk & Hp).
        rewrite lookup_insert_ne; [by exists k|]. assert (s < u_next u)%nat by (apply H3; by eexists). lia.
    + intros s. destruct (decide (s = u_next u)) as [->|Hne]; [lia|]. rewrite lookup_insert_ne by done. intros Hs. specialize (H3 s Hs). lia.
  - destruct (udp_index u p Hi) as [o Ho]. unfold udp_unbind, index_set. rewrite Ho. cbn [obind]. eexists. split; [reflexivity|].
    split; cbn [u_slots u_store u_next with_slots]; [by rewrite length_insert| |done].
    intros i s. destruct (decide (i = udp_slot p)) as [->|Hne]; [rewrite list_lookup_insert_eq by (rewrite H1; apply udp_slot_lt); done|].
    rewrite list_lookup_insert_ne by done. apply H2.
  - destruct (udp_index u (dg_dst_port d) Hi) as [o Ho]. unfold udp_deliver, udp_find, index. rewrite Ho. cbn [obind].
    assert (Hd : udp_inv (count_dropped u)) by (destruct Hi; by split).
    destruct o as [s|]; cbn [obind snd]; [|by eexists]. destruct (H2 _ _ Ho) as (k & Hk & _). rewrite Hk.
    destruct ((sk_port k =? dg_dst_port d) && negb (sk_closed k)) eqn:E; cbn [obind snd]; [|by eexists]. rewrite Hk.
    destruct (sk_closed k); cbn [obind snd]; [by eexists|]. eexists. split; [reflexivity|]. (eapply (udp_inv_update u s k); [done|done| |reflexivity..]; done).
  - eexists. split; [reflexivity|]. unfold udp_close. destruct (u_store u !! s) as [k|] eqn:Hk; [|done]. (eapply (udp_inv_update u s k); [done|done| |reflexivity..]; done).
  - eexists. split; [reflexivity|]. unfold udp_recv. destruct (u_store u !! s) as [k|] eqn:Hk; [|done].
    destruct (sk_closed k) eqn:Ec; [done|]. destruct (rx_queue k); cbn [snd]; (eapply (udp_inv_update u s k); [done|done| |reflexivity..]; done).
Qed.

Lemma udp_table_new_inv : udp_inv udp_table_new.
Proof.
  split; cbn [udp_table_new u_slots u_store u_next]; [by rewrite length_replicate| |].
  - intros i s H. apply lookup_replicate in H as [H _]. done.
  - intros s [k Hk]. by rewrite lookup_empty in Hk.
Qed.

(** after any run of binds, unbinds, deliveries, closes and receives (none of
    which can panic) a datagram goes to the socket that is bound to its port and
    open, at the end of that socket's queue and waking its reader, and to no
    other socket; without one it is dropped and counted. *)
Theorem udp_deliver_correct (ops : list udp_op) (d : UdpDatagram) :
  exists u, ofold udp_apply udp_table_new ops = Ret u /\
  exists ok u', udp_deliver u d = Ret (ok, u') /\
    if ok then
      exists s k, u_slots u !! udp_slot (dg_dst_port d) = Some (Some s) /\ u_store u !! s = Some k /\
        sk_port k = dg_dst_port d /\ sk_closed k = false /\
        u_store u' = <[s := mkSocket (sk_port k) (rx_queue k ++ [d]) None false]> (u_store u) /\
        u_woken u' = u_woken u ++ option_list (sk_waker k) /\ udp_rx u' = udp_rx u +w 1
    else
      (forall s k, u_slots u !! udp_slot (dg_dst_port d) = Some (Some s) -> u_store u !! s = Some k -> sk_port k = dg_dst_port d -> sk_closed k = true) /\
      u_store u' = u_store u /\ u_woken u' = u_woken u /\ udp_dropped u' = udp_dropped u +w 1.
Proof.
  assert (H : forall u0, udp_inv u0 -> exists u, ofold udp_apply u0 ops = Ret u /\ udp_inv u).
  { induction ops as [|op ops IH]; intros u0 Hu; [by exists u0|]. cbn [ofold]. destruct (udp_apply_inv u0 op Hu) as (u1 & -> & Hu1). by apply IH. }
  destruct (H udp_table_new udp_table_new_inv) as (u & -> & Hi). exists u. split; [done|].
  destruct (udp_index u (dg_dst_port d) Hi) as [o Ho]. unfold udp_deliver, udp_find, index. rewrite Ho. cbn [obind].
  destruct o as [s|]; cbn [obind]; [|eexists false, _; split; [reflexivity|]; split; [intros s k [=] | done]].
  destruct (ui_slot u Hi _ _ Ho) as (k & Hk & _). rewrite Hk.
  destruct (Z.eqb_spec (sk_port k) (dg_dst_port d)) as [Ep|Ep]; cbn [andb].
  - destruct (sk_closed k) eqn:Ec; cbn [negb obind]; [eexists false, _; split; [reflexivity|]; split; [intros s' k' [= <-]; congruence | done]|].
    rewrite Hk, Ec. eexists true, _. split; [reflexivity|]. exists s, k. split; [done|]. split; [done|]. split; [done|]. split; [done|].
    split; [done|]. split; [|done]. cbn [u_woken count_rx udp_wake with_store]. destruct (sk_waker k); cbn [option_list]; [done | by rewrite app_nil_r].
  - cbn [obind]. eexists false, _. split; [reflexivity|]. split; [intros s' k' [= <-]; congruence | done].
Qed.

(** Unbinding a port takes away the socket of another port of the same slot. *)
Lemma unbind_removes_other_port :
  exists u, ofold udp_apply udp_table_new [OpBind 53; OpUnbind 309] = Ret u /\ udp_find u 53 = Ret None.
Proof. eexists. split; [vm_compute; reflexivity|]. vm_compute. reflexivity. Qed.
