(* ===== verification/ArpTheorems.v ===== *)
(** * The ARP cache refines a map from addresses to hardware addresses *)

From stdpp Require Import base list gmap sets.
From Stdlib Require Import ZArith Lia.
From S2P Require Import Prelude NetBytes Ethernet Ipv4 Arp.

Local Open Scope Z_scope.

(** ** The specification *)

Inductive arp_op :=
| OpInsert (ip : Ipv4Address) (mac : MacAddress) (now : Z) | OpMark (ip : Ipv4Address) (now : Z)
| OpRemove (ip : Ipv4Address) | OpExpire (now : Z) | OpLookup (ip : Ipv4Address) (now : Z).

Definition arp_apply (c : ArpCache) (op : arp_op) : ArpCache :=
  match op with
  | OpInsert ip mac now => cache_insert c ip mac now
  | OpMark ip now => mark_incomplete c ip now
  | OpRemove ip => cache_remove c ip
  | OpExpire now => expire_old c now
  | OpLookup ip now => (cache_lookup c ip now).2
  end.

(** The bindings learnt, with the time each was learnt. *)
Definition bindings : Type := gmap (list Z) (MacAddress * Z).

Definition too_old (now t : Z) : Prop := ARP_CACHE_TIMEOUT < now - t.
#[export] Instance too_old_dec (now t : Z) : Decision (too_old now t).
Proof. unfold too_old. apply _. Defined.

Definition spec_apply (m : bindings) (op : arp_op) : bindings :=
  match op with
  | OpInsert ip mac now => <[ip := (mac, now)]> m
  | OpMark ip _ | OpRemove ip => delete ip m
  | OpExpire now => filter (fun kv => ~ too_old now kv.2.2) m
  | OpLookup _ _ => m
  end.

(** The addresses a run is about. *)
Definition op_ips (op : arp_op) : gset (list Z) :=
  match op with
  | OpInsert ip _ _ | OpMark ip _ => {[ip]}
  | _ => ∅
  end.
Definition run_ips (ops : list arp_op) : gset (list Z) := foldr (fun op s => op_ips op ∪ s) ∅ ops.

(** ** Slots *)

Definition live (es : list (option ArpEntry)) : list ArpEntry := omap id es.
Definition ips (es : list (option ArpEntry)) : list (list Z) := map e_ip (live es).

Lemma live_elem (es : list (option ArpEntry)) (e : ArpEntry) : e ∈ live es <-> Some e ∈ es.
Proof. unfold live. rewrite list_elem_of_omap. split; [intros (o & H & Ho); cbn in Ho; by subst|]. intros H. by exists (Some e). Qed.

Lemma ips_split (l1 l2 : list (option ArpEntry)) (o : option ArpEntry) :
  ips (l1 ++ o :: l2) = ips l1 ++ option_list (e_ip <$> o) ++ ips l2.
Proof. unfold ips, live. rewrite omap_app, map_app. cbn. by destruct o. Qed.

Lemma ips_elem (es : list (option ArpEntry)) (ip : list Z) : ip ∈ ips es <-> exists e, Some e ∈ es /\ e_ip e = ip.
Proof.
  unfold ips. rewrite list_elem_of_fmap. split.
  - intros (e & -> & He%live_elem). eauto.
  - intros (e & He%live_elem & <-). eauto.
Qed.

Lemma find_entry_spec (test : ArpEntry -> bool) (es : list (option ArpEntry)) :
  match find_entry test es with
  | Some e => Some e ∈ es /\ test e = true
  | None => forall e, Some e ∈ es -> test e = false
  end.
Proof.
  induction es as [|[e|] es IH]; cbn [find_entry]; [by intros e ?%elem_of_nil| |].
  - destruct (test e) eqn:E; [split; [left | done]|]. destruct (find_entry test es); [destruct IH; split; [by right | done]|].
    intros e' [[= ->]|H]%elem_of_cons; [done | by apply IH].
  - destruct (find_entry test es); [destruct IH; split; [by right | done]|]. intros e' [?|H]%elem_of_cons; [done | by apply IH].
Qed.

(** The entry for an address, in its place. *)
Lemma update_first_spec (ip : Ipv4Address) (f : ArpEntry -> option ArpEntry) (es : list (option ArpEntry)) :
  match update_first ip f es with
  | Some es' => exists l1 e l2, es = l1 ++ Some e :: l2 /\ es' = l1 ++ f e :: l2 /\ e_ip e = ip
  | None => ip ∉ ips es
  end.
Proof.
  induction es as [|[e|] es IH]; cbn [update_first].
  - apply not_elem_of_nil.
  - case_bool_decide as E; [by exists [], e, es|]. destruct (update_first ip f es) as [es'|].
    + destruct IH as (l1 & e1 & l2 & -> & -> & H). by exists (Some e :: l1), e1, l2.
    + rewrite (ips_split [] es (Some e) : ips (Some e :: es) = _). cbn. set_solver.
  - destruct (update_first ip f es) as [es'|]; [|done].
    destruct IH as (l1 & e1 & l2 & -> & -> & H). by exists (None :: l1), e1, l2.
Qed.

Lemma scan_slots_spec (es : list (option ArpEntry)) (s : scan) (i : nat) :
  let r := scan_slots s i es in
  (match empty_slot s with
   | Some j => empty_slot r = Some j
   | None => match empty_slot r with
             | Some j => (i <= j)%nat /\ es !! (j - i)%nat = Some None
             | None => None ∉ es
             end
   end) /\
  (oldest_slot r = oldest_slot s \/ exists j, oldest_slot r = Some j /\ (i <= j < i + length es)%nat).
Proof.
  revert s i. induction es as [|e es IH]; intros s i; cbn [scan_slots].
  - split; [destruct (empty_slot s); [done | apply not_elem_of_nil] | by left].
  - destruct (IH (scan_step s i e) (S i)) as [H1 H2]. split.
    + destruct e as [e|]; cbn [scan_step] in *.
      * assert (He : empty_slot (if e_time e <? oldest_time s then mkScan (empty_slot s) (Some i) (e_time e) else s) = empty_slot s) by (by destruct (_ <? _)).
        rewrite He in H1. destruct (empty_slot s); [done|]. destruct (empty_slot _) as [j|].
        -- destruct H1 as [Hj Hl]. split; [lia|]. replace (j - i)%nat with (S (j - S i)) by lia. done.
        -- set_solver.
      * destruct (empty_slot s) as [j|] eqn:Es; [by rewrite Es in H1|]. cbn [empty_slot] in H1. rewrite H1. split; [done|]. by rewrite Nat.sub_diag.
    + assert (Hs : oldest_slot (scan_step s i e) = oldest_slot s \/ oldest_slot (scan_step s i e) = Some i).
      { unfold scan_step. destruct e as [e|]; [destruct (_ <? _); cbn; tauto|]. destruct (empty_slot s); cbn; tauto. }
      destruct H2 as [->|(j & -> & Hj)].
      * destruct Hs as [->| ->]; [by left|]. right. exists i. cbn [length]. split; [done | lia].
      * right. exists j. cbn [length]. split; [done | lia].
Qed.

(** The chosen slot exists, and is free when one is. *)
Lemma chosen_slot_spec (es : list (option ArpEntry)) :
  match chosen_slot es with
  | Some i => exists o, es !! i = Some o /\ (None ∈ es -> o = None)
  | None => None ∉ es
  end.
Proof.
  unfold chosen_slot. destruct (scan_slots_spec es (mkScan None None u64_max) 0) as [H1 H2]. cbn [empty_slot oldest_slot] in *.
  destruct (empty_slot _) as [i|] eqn:E; [destruct H1 as [_ H1]; rewrite Nat.sub_0_r in H1; by exists None|].
  destruct H2 as [H2|(j & H2 & Hj)]; rewrite H2; [done|].
  destruct (es !! j) as [o|] eqn:Eo; [|apply lookup_ge_None in Eo; lia]. exists o. split; [done|]. done.
Qed.

(** Writing a slot. *)
Lemma insert_split (es : list (option ArpEntry)) (i : nat) (o x : option ArpEntry) :
  es !! i = Some o -> exists l1 l2, es = l1 ++ o :: l2 /\ <[i := x]> es = l1 ++ x :: l2.
Proof.
  intros H. exists (take i es), (drop (S i) es). split; [symmetry; by apply take_drop_middle|].
  rewrite insert_take_drop by (by eapply lookup_lt_Some). done.
Qed.

(** ** The simulation *)

(** The entries against the bindings and the addresses seen so far. *)
Record arp_sim (c : ArpCache) (m : bindings) (seen : gset (list Z)) : Prop := {
  as_len : length (entries c) = ARP_CACHE_SIZE;
  as_nodup : NoDup (ips (entries c));
  as_seen : forall ip, ip ∈ ips (entries c) -> ip ∈ seen;
  as_sound : forall e, Some e ∈ entries c -> e_state e = Resolved -> m !! e_ip e = Some (e_mac e, e_time e);
  as_complete : (size seen <= ARP_CACHE_SIZE)%nat -> forall ip mac t, m !! ip = Some (mac, t) -> Some (mkEntry ip mac t Resolved) ∈ entries c
}.

(** While few addresses were seen, an address that is not cached finds a free slot. *)
Lemma free_slot (c : ArpCache) (m : bindings) (seen : gset (list Z)) (ip : list Z) :
  arp_sim c m seen -> ip ∉ ips (entries c) -> (size ({[ip]} ∪ seen) <= ARP_CACHE_SIZE)%nat -> None ∈ entries c.
Proof.
  intros [Hl Hn Hs _ _] Hip Hsz. destruct (decide (None ∈ entries c)) as [|Hno]; [done|]. exfalso.
  assert (Hlen : length (ips (entries c)) = length (entries c)).
  { unfold ips, live. rewrite length_map. clear -Hno. induction (entries c) as [|[e|] es IH]; [done| |set_solver]. cbn. rewrite IH; set_solver. }
  assert (Hsub : list_to_set (ip :: ips (entries c)) ⊆ ({[ip]} ∪ seen : gset (list Z))) by (intros x; rewrite elem_of_list_to_set; set_solver).
  apply subseteq_size in Hsub. rewrite size_list_to_set in Hsub by (by constructor). cbn [length] in Hsub. lia.
Qed.

(** Replacing one slot: the common step of [insert], [mark_incomplete] and [remove]. *)
Lemma sim_replace (c c' : ArpCache) (m m' : bindings) (seen seen' : gset (list Z)) (l1 l2 : list (option ArpEntry)) (o o' : option ArpEntry) (ip : list Z) :
  arp_sim c m seen -> entries c = l1 ++ o :: l2 -> entries c' = l1 ++ o' :: l2 -> seen ⊆ seen' ->
  (forall e, o' = Some e -> e_ip e = ip /\ ip ∈ seen') ->
  (forall e, o = Some e -> e_ip e <> ip -> ip ∉ ips (entries c)) ->
  (o = None -> ip ∉ ips (entries c)) ->
  (forall k, k <> ip -> m' !! k = m !! k) ->
  (forall e, o' = Some e -> e_state e = Resolved -> m' !! ip = Some (e_mac e, e_time e)) ->
  (forall mac t, m' !! ip = Some (mac, t) -> o' = Some (mkEntry ip mac t Resolved)) ->
  ((size seen' <= ARP_CACHE_SIZE)%nat -> forall e, o = Some e -> e_ip e = ip) ->
  arp_sim c' m' seen'.
Proof.
  intros [Hl Hn Hs Hd Hc] E E' Hsub Ho' Ho HoN Hm Hr Hb Hfull.
  assert (Hips : forall x, x ∈ ips (entries c') -> x = ip \/ x ∈ ips (entries c)).
  { rewrite E, E', !ips_split. intros x. destruct o' as [e|]; cbn; [destruct (Ho' e eq_refl) as [<- _]|]; set_solver. }
  assert (Hother : (ip ∉ ips l1) /\ (ip ∉ ips l2)).
  { rewrite E, ips_split in Ho, HoN, Hn. destruct o as [e|]; cbn in *.
    - destruct (decide (e_ip e = ip)) as [Ee|Ne]; [|specialize (Ho e eq_refl Ne); set_solver].
      rewrite Ee in Hn. apply NoDup_app in Hn as (_ & H1 & H2). apply NoDup_cons in H2 as [H2 _]. set_solver.
    - specialize (HoN eq_refl). set_solver. }
  split.
  - rewrite <- Hl, E, E', !length_app. done.
  - rewrite E', ips_split. rewrite E, ips_split in Hn. apply NoDup_app in Hn as (N1 & N2 & N3). apply NoDup_app in N3 as (_ & N4 & N5).
    assert (Hd12 : forall x, x ∈ ips l1 -> x ∉ ips l2) by (intros x Hx; specialize (N2 x Hx); set_solver).
    destruct o' as [e|]; cbn; [|apply NoDup_app; split; [exact N1|]; split; [exact Hd12 | exact N5]].
    destruct (Ho' e eq_refl) as [-> _]. apply NoDup_app. split; [done|]. split; [|apply NoDup_cons; split; [apply Hother | exact N5]].
    intros x Hx [->|Hx']%elem_of_cons; [tauto | by apply (Hd12 x)].
  - intros x Hx. destruct (Hips x Hx) as [->|Hx']; [|by apply Hsub, Hs].
    rewrite E', ips_split in Hx. destruct o' as [e|]; [by destruct (Ho' e eq_refl)|]. cbn in Hx. set_solver.
  - intros e He Hst. rewrite E' in He. apply elem_of_app in He as [He|[<-|He]%elem_of_cons].
    + rewrite Hm; [apply Hd; [rewrite E; set_solver | done]|]. intros Heq. apply (proj1 Hother). apply ips_elem. eauto.
    + destruct (Ho' e eq_refl) as [-> _]. by apply Hr.
    + rewrite Hm; [apply Hd; [rewrite E; set_solver | done]|]. intros Heq. apply (proj2 Hother). apply ips_elem. eauto.
  - intros Hsz k mac t Hk. destruct (decide (k = ip)) as [->|Hne].
    + rewrite (Hb mac t Hk) in E'. rewrite E'. set_solver.
    + rewrite Hm in Hk by done. assert (Hin : Some (mkEntry k mac t Resolved) ∈ entries c).
      { apply Hc; [|done]. etransitivity; [apply subseteq_size, Hsub | done]. }
      rewrite E in Hin. rewrite E'. apply elem_of_app in Hin as [Hin|[Heq|Hin]%elem_of_cons]; [set_solver| |set_solver].
      symmetry in Heq. specialize (Hfull Hsz _ Heq). cbn in Hfull. done.
Qed.

Lemma sim_same_entries (c c' : ArpCache) (m : bindings) (seen seen' : gset (list Z)) :
  arp_sim c m seen -> entries c' = entries c -> seen ⊆ seen' -> arp_sim c' m seen'.
Proof.
  intros [Hl Hn Hs Hd Hc] E Hsub. split; rewrite ?E; try done; [set_solver|]. intros Hsz. apply Hc.
  etransitivity; [apply subseteq_size, Hsub | done].
Qed.

(** Writing an entry for [ip]: over the entry it has, or into a chosen slot. *)
Lemma sim_write (c : ArpCache) (c1 : list (option ArpEntry) -> ArpCache) (c2 : nat -> ArpCache) (m m' : bindings) (seen : gset (list Z)) (ip : Ipv4Address) (f : ArpEntry -> ArpEntry) (new : ArpEntry) :
  arp_sim c m seen ->
  (forall e, e_ip e = ip -> e_ip (f e) = ip) -> e_ip new = ip ->
  (forall es, entries (c1 es) = es) -> (forall i, entries (c2 i) = <[i := Some new]> (entries c)) ->
  (forall k, k <> ip -> m' !! k = m !! k) ->
  (forall e, (e = new \/ exists e0, e = f e0 /\ e_ip e0 = ip) ->
     (e_state e = Resolved -> m' !! ip = Some (e_mac e, e_time e)) /\ (forall mac t, m' !! ip = Some (mac, t) -> e = mkEntry ip mac t Resolved)) ->
  arp_sim (match update_first ip (fun e => Some (f e)) (entries c) with
           | Some es => c1 es
           | None => match chosen_slot (entries c) with Some i => c2 i | None => c end
           end) m' ({[ip]} ∪ seen).
Proof.
  intros Hsim Hf Hnew H1 H2 Hm He. pose proof (update_first_spec ip (fun e => Some (f e)) (entries c)) as Hu.
  destruct (update_first ip (fun e => Some (f e)) (entries c)) as [es|].
  - destruct Hu as (l1 & e & l2 & E & Ees & Eip). destruct (He (f e) ltac:(eauto)) as [Hr Hb]. specialize (H1 es). rewrite Ees in H1.
    rewrite Ees. apply (sim_replace c _ m m' seen _ l1 l2 (Some e) (Some (f e)) ip Hsim E H1).
    + apply union_subseteq_r.
    + intros e' [= <-]. split; [by apply Hf | apply elem_of_union_l, elem_of_singleton_2; done].
    + intros e' [= <-] Hne. done.
    + done.
    + exact Hm.
    + intros e' [= <-] Hst. by apply Hr.
    + intros mac t Hk. by rewrite (Hb mac t Hk).
    + by intros _ e' [= <-].
  - pose proof (chosen_slot_spec (entries c)) as Hch. destruct (chosen_slot (entries c)) as [i|] eqn:Ei.
    + destruct Hch as (o & Ho & Hnone). destruct (insert_split (entries c) i o (Some new) Ho) as (l1 & l2 & E & E'). specialize (H2 i).
      destruct (He new ltac:(eauto)) as [Hr Hb].
      apply (sim_replace c (c2 i) m m' seen _ l1 l2 o (Some new) ip Hsim E).
      * by rewrite H2.
      * apply union_subseteq_r.
      * intros e' [= <-]. split; [done | apply elem_of_union_l, elem_of_singleton_2; done].
      * intros _ _ _. exact Hu.
      * intros _. exact Hu.
      * exact Hm.
      * intros e [= <-] Hst. by apply Hr.
      * intros mac t Hk. by rewrite (Hb mac t Hk).
      * intros Hsz e ->. specialize (Hnone (free_slot c m seen ip Hsim Hu Hsz)). done.
    + pose proof Hsim as [Hl Hnd Hs Hd Hc]. split; try done; [set_solver| |].
      * intros e Hin Hst. rewrite Hm; [by apply Hd|]. intros Heq. apply Hu, ips_elem. eauto.
      * intros Hsz. by destruct (Hch (free_slot c m seen ip Hsim Hu Hsz)).
Qed.

Lemma sim_insert (c : ArpCache) (m : bindings) (seen : gset (list Z)) (ip : Ipv4Address) (mac : MacAddress) (now : Z) :
  arp_sim c m seen -> arp_sim (cache_insert c ip mac now) (<[ip := (mac, now)]> m) ({[ip]} ∪ seen).
Proof.
  intros Hsim. apply (sim_write c (with_entries c)
    (fun i => mkCache (<[i := Some (new_resolved ip mac now)]> (entries c)) (hits c) (misses c) (entries_added c +w 1) (entries_expired c))
    m _ seen ip (fun e => mkEntry (e_ip e) mac now Resolved) (new_resolved ip mac now) Hsim); try done.
  - intros k Hk. apply lookup_insert_ne. congruence.
  - intros e He. rewrite (lookup_insert_eq m ip (mac, now) : <[ip := (mac, now)]> m !! ip = _). destruct He as [->|(e0 & -> & He0)]; (split; [done|]); intros mac' t [= <- <-]; [done | by rewrite He0].
Qed.

Lemma sim_mark (c : ArpCache) (m : bindings) (seen : gset (list Z)) (ip : Ipv4Address) (now : Z) :
  arp_sim c m seen -> arp_sim (mark_incomplete c ip now) (delete ip m) ({[ip]} ∪ seen).
Proof.
  intros Hsim. apply (sim_write c (with_entries c) (fun i => with_entries c (<[i := Some (new_incomplete ip now)]> (entries c)))
    m _ seen ip (fun e => mkEntry (e_ip e) (e_mac e) now Incomplete) (new_incomplete ip now) Hsim); try done.
  - intros k Hk. apply lookup_delete_ne. congruence.
  - intros e He. rewrite (lookup_delete_eq m ip : delete ip m !! ip = _). destruct He as [->|(e0 & -> & He0)]; by split.
Qed.

Lemma sim_remove (c : ArpCache) (m : bindings) (seen : gset (list Z)) (ip : Ipv4Address) :
  arp_sim c m seen -> arp_sim (cache_remove c ip) (delete ip m) seen.
Proof.
  intros Hsim. unfold cache_remove. pose proof (update_first_spec ip (fun _ => None) (entries c)) as Hu.
  destruct (update_first ip (fun _ => None) (entries c)) as [es|].
  - destruct Hu as (l1 & e & l2 & E & Ees & Eip).
    apply (sim_replace c (with_entries c es) m (delete ip m) seen seen l1 l2 (Some e) None ip Hsim E Ees); try done.
    + intros e' [= <-]. done.
    + intros k Hk. apply lookup_delete_ne. congruence.
    + intros mac t Hk. rewrite (lookup_delete_eq m ip : delete ip m !! ip = _) in Hk. done.
    + by intros _ e' [= <-].
  - destruct Hsim as [Hl Hn Hs Hd Hc]. split; try done.
    + intros e He Hst. etransitivity; [apply lookup_delete_ne | by apply Hd]. intros ->. apply Hu, ips_elem. eauto.
    + intros Hsz k mac t [Hne Hk]%lookup_delete_Some. by apply Hc.
Qed.

Lemma expired_resolved (e : ArpEntry) (now : Z) : e_state e = Resolved -> is_expired e now (entry_timeout e) = true <-> too_old now (e_time e).
Proof.
  intros Hs. unfold is_expired, entry_timeout, too_old. rewrite Hs. cbn [bool_decide decide]. rewrite bool_decide_false by done.
  rewrite Z.gtb_ltb, Z.ltb_lt. unfold ARP_CACHE_TIMEOUT. lia.
Qed.

Lemma ips_expire_sublist (f : option ArpEntry -> bool) (es : list (option ArpEntry)) :
  sublist (ips (map (fun e => if f e then None else e) es)) (ips es).
Proof.
  induction es as [|[e|] es IH]; [done| |].
  - cbn [map]. rewrite (ips_split [] es (Some e) : ips (Some e :: es) = _). cbn.
    destruct (f (Some e)); [by apply sublist_cons | by apply sublist_skip].
  - cbn [map]. by destruct (f None).
Qed.

Lemma sim_expire (c : ArpCache) (m : bindings) (seen : gset (list Z)) (now : Z) :
  arp_sim c m seen -> arp_sim (expire_old c now) (filter (fun kv => ~ too_old now kv.2.2) m) seen.
Proof.
  intros [Hl Hn Hs Hd Hc]. unfold expire_old. split; cbn [entries].
  - by rewrite length_map.
  - eapply sublist_NoDup; [exact Hn | apply ips_expire_sublist].
  - intros ip Hip. apply Hs. eapply elem_of_sublist; [exact Hip | apply ips_expire_sublist].
  - intros e He Hst. apply list_elem_of_fmap in He as (o & Ho & Hin).
    destruct (expires now o) eqn:Ex; [done|]. subst o. cbn [expires] in Ex.
    apply map_lookup_filter_Some. split; [by apply Hd|]. cbn. rewrite <- expired_resolved by done. congruence.
  - intros Hsz ip mac t [Hk Hold]%map_lookup_filter_Some. cbn in Hold. apply list_elem_of_fmap.
    exists (Some (mkEntry ip mac t Resolved)). split; [|by apply Hc]. cbn [expires].
    destruct (is_expired _ _ _) eqn:Ex; [|done]. apply expired_resolved in Ex; [|done]. done.
Qed.

Lemma sim_init : arp_sim cache_new ∅ ∅.
Proof.
  split; cbn [cache_new entries]; [by rewrite length_replicate| | | |].
  - unfold ips, live. apply (NoDup_nil_2 : NoDup (@nil (list Z))).
  - intros ip (e & He & _)%ips_elem. by apply elem_of_replicate_inv in He.
  - intros e He. by apply elem_of_replicate_inv in He.
  - intros _ ip mac t H. pose proof (eq_trans (eq_sym (lookup_empty ip)) H) as E. done.
Qed.

Lemma sim_run (ops : list arp_op) (c : ArpCache) (m : bindings) (seen : gset (list Z)) :
  arp_sim c m seen -> arp_sim (foldl arp_apply c ops) (foldl spec_apply m ops) (run_ips ops ∪ seen).
Proof.
  revert c m seen. induction ops as [|op ops IH]; intros c m seen Hsim; cbn [foldl run_ips foldr]; [by rewrite union_empty_l_L|].
  assert (Hstep : arp_sim (arp_apply c op) (spec_apply m op) (op_ips op ∪ seen)).
  { destruct op as [ip mac now|ip now|ip|now|ip now]; cbn [arp_apply spec_apply op_ips]; rewrite ?union_empty_l_L.
    - by apply sim_insert.
    - by apply sim_mark.
    - by apply sim_remove.
    - by apply sim_expire.
    - eapply sim_same_entries; [done| |reflexivity]. unfold cache_lookup. by destruct (find_entry _ _). }
  specialize (IH _ _ _ Hstep). fold (run_ips ops). replace (op_ips op ∪ run_ips ops ∪ seen) with (run_ips ops ∪ (op_ips op ∪ seen)); [exact IH|].
  rewrite union_assoc_L, (union_comm_L (run_ips ops)). reflexivity.
Qed.

Lemma hit_iff (ip : Ipv4Address) (now : Z) (e : ArpEntry) :
  hit ip now e = true <-> e_ip e = ip /\ e_state e = Resolved /\ ~ too_old now (e_time e).
Proof.
  unfold hit, is_expired, too_old. rewrite !andb_true_iff, !bool_decide_eq_true, negb_true_iff, Z.gtb_ltb, Z.ltb_ge.
  unfold ARP_CACHE_TIMEOUT. split.
  - intros [[? ?] ?]. split; [done|]. split; [done | lia].
  - intros (? & ? & ?). split; [by split | lia].
Qed.

(** What a lookup answers after a run. *)
Lemma cache_lookup_run (ops : list arp_op) (ip : Ipv4Address) (now : Z) (mac : MacAddress) :
  let c := foldl arp_apply cache_new ops in
  let m := foldl spec_apply ∅ ops in
  ((cache_lookup c ip now).1 = Some mac -> exists t, m !! ip = Some (mac, t) /\ ~ too_old now t) /\
  ((size (run_ips ops) <= ARP_CACHE_SIZE)%nat -> (exists t, m !! ip = Some (mac, t) /\ ~ too_old now t) -> (cache_lookup c ip now).1 = Some mac).
Proof.
  intros c m. pose proof (sim_run ops cache_new ∅ ∅ sim_init) as Hsim. fold c m in Hsim. rewrite union_empty_r_L in Hsim.
  pose proof Hsim as [Hl Hn Hs Hd Hc]. unfold cache_lookup. pose proof (find_entry_spec (hit ip now) (entries c)) as Hf.
  destruct (find_entry (hit ip now) (entries c)) as [e|]; cbn [fst].
  - destruct Hf as [He Hh]. apply hit_iff in Hh as (Hip & Hst & Hold). specialize (Hd e He Hst). rewrite Hip in Hd. split.
    + intros [= <-]. eauto.
    + intros _ (t & Hm & _). rewrite Hd in Hm. by injection Hm as -> _.
  - split; [done|]. intros Hsz (t & Hm & Hold). specialize (Hf _ (Hc Hsz _ _ _ Hm)).
    assert (hit ip now (mkEntry ip mac t Resolved) = true) by (by apply hit_iff). congruence.
Qed.

(** C23: after any run of insertions, requests, removals, expirations and lookups
    the cache answers with a hardware address only if that is what was last learnt
    for the address, not withdrawn since and learnt within the time-out; and as
    long as no more than 64 addresses were used it always answers then. *)
Theorem arp_cache_refines_map (ops : list arp_op) (ip : Ipv4Address) (now : Z) (mac : MacAddress) :
  let c := foldl arp_apply cache_new ops in
  let m := foldl spec_apply ∅ ops in
  ((cache_lookup c ip now).1 = Some mac -> exists t, m !! ip = Some (mac, t) /\ ~ too_old now t) /\
  ((size (run_ips ops) <= ARP_CACHE_SIZE)%nat -> (exists t, m !! ip = Some (mac, t) /\ ~ too_old now t) -> (cache_lookup c ip now).1 = Some mac).
Proof. apply cache_lookup_run. Qed.

(** ** Packets *)

(** The bytes of a packet. *)
Lemma arp_init_layout (op : ArpOperation) (buffer sm si tm ti : list Z) :
  (28 <= length buffer)%nat -> length sm = 6%nat -> length si = 4%nat -> length tm = 6%nat -> length ti = 4%nat ->
  exists rest, arp_init op buffer sm si tm ti = [0; 1; 8; 0; 6; 4] ++ to_be16 (op_into op) ++ sm ++ si ++ tm ++ ti ++ rest.
Proof.
  intros Hb H1 H2 H3 H4. exists (drop 28 buffer).
  destruct sm as [|a0 [|a1 [|a2 [|a3 [|a4 [|a5 [|? ?]]]]]]]; cbn in H1; try lia. destruct si as [|c0 [|c1 [|c2 [|c3 [|? ?]]]]]; cbn in H2; try lia.
  destruct tm as [|d0 [|d1 [|d2 [|d3 [|d4 [|d5 [|? ?]]]]]]]; cbn in H3; try lia. destruct ti as [|f0 [|f1 [|f2 [|f3 [|? ?]]]]]; cbn in H4; try lia.
  clear H1 H2 H3 H4. spell Hb. cbn. rewrite ?drop_0. reflexivity.
Qed.

(** an ARP reply is learnt: the packet the replying host builds is valid, and
    a host that receives it resolves the replier's address to the replier's
    hardware address from then on. *)
Theorem arp_reply_learnt (sender : ArpProcessor) (mac : MacAddress) (ip : Ipv4Address) (ops : list arp_op) (buffer : list Z)
    (tm : MacAddress) (ti : Ipv4Address) (now : Z) :
  (28 <= length buffer)%nat -> length (arp_local_mac sender) = 6%nat -> length (arp_local_ip sender) = 4%nat ->
  length tm = 6%nat -> length ti = 4%nat ->
  ip_is_any (arp_local_ip sender) = false -> mac_is_broadcast (arp_local_mac sender) = false ->
  (size (run_ips (ops ++ [OpInsert (arp_local_ip sender) (arp_local_mac sender) now])) <= ARP_CACHE_SIZE)%nat ->
  exists pkt, arp_build_reply sender buffer tm ti = (Some 28%nat, pkt) /\
  exists r', arp_process (mkArp mac ip (foldl arp_apply cache_new ops)) pkt now = (CacheUpdated, r') /\
    (cache_lookup (arp_cache r') (arp_local_ip sender) now).1 = Some (arp_local_mac sender).
Proof.
  intros Hb Hm6 Hi4 Ht6 Ht4 Hany Hbc Hsz. unfold arp_build_reply.
  destruct (Nat.ltb_spec (length buffer) ARP_SIZE) as [Hlt|_]; [unfold ARP_SIZE in Hlt; lia|].
  eexists. split; [reflexivity|]. set (sm := arp_local_mac sender) in *. set (si := arp_local_ip sender) in *.
  destruct (arp_init_layout ArpReply buffer sm si tm ti Hb Hm6 Hi4 Ht6 Ht4) as [rest E]. unfold init_reply. rewrite E. clear E.
  assert (Hl : Nat.ltb (length ([0; 1; 8; 0; 6; 4] ++ to_be16 (op_into ArpReply) ++ sm ++ si ++ tm ++ ti ++ rest)) ARP_SIZE = false).
  { apply Nat.ltb_ge. rewrite !length_app. cbn. unfold ARP_SIZE. lia. }
  assert (Hsm : arp_sender_mac ([0; 1; 8; 0; 6; 4] ++ to_be16 (op_into ArpReply) ++ sm ++ si ++ tm ++ ti ++ rest) = sm).
  { unfold arp_sender_mac. cbn. by rewrite drop_0, take_app_length'. }
  assert (Hsi : arp_sender_ip ([0; 1; 8; 0; 6; 4] ++ to_be16 (op_into ArpReply) ++ sm ++ si ++ tm ++ ti ++ rest) = si).
  { unfold arp_sender_ip. cbn. rewrite (drop_app_length' sm) by lia. by rewrite take_app_length'. }
  unfold arp_process. rewrite Hl, Hsm, Hsi, Hany, Hbc. cbn [negb andb].
  eexists. split; [reflexivity|]. cbn [arp_cache with_cache].
  assert (E : cache_insert (foldl arp_apply cache_new ops) si sm now = foldl arp_apply cache_new (ops ++ [OpInsert si sm now])) by (by rewrite foldl_app).
  rewrite E. apply cache_lookup_run; [done|]. exists now. rewrite foldl_app. cbn [foldl spec_apply]. split; [apply lookup_insert_eq|].
  unfold too_old, ARP_CACHE_TIMEOUT. lia.
Qed.

Lemma arp_reply_learnt_witness :
  let sender := arp_new [2; 0; 0; 0; 0; 7] [10; 0; 0; 7] in
  ((28 <= length (replicate 46 0))%nat /\ ip_is_any (arp_local_ip sender) = false /\
   (size (run_ips ([OpMark ([10; 0; 0; 7])%Z 90%Z] ++ [OpInsert (arp_local_ip sender) (arp_local_mac sender) 100%Z])) <= ARP_CACHE_SIZE)%nat) /\
  exists pkt, arp_build_reply sender (replicate 46 0) [2; 0; 0; 0; 0; 1] [10; 0; 0; 1] = (Some 28%nat, pkt) /\
  exists r', arp_process (mkArp [2; 0; 0; 0; 0; 1] [10; 0; 0; 1] (foldl arp_apply cache_new [OpMark [10; 0; 0; 7] 90])) pkt 100 = (CacheUpdated, r') /\
    (cache_lookup (arp_cache r') (arp_local_ip sender) 100).1 = Some (arp_local_mac sender).
Proof.
  cbv zeta.
  assert (Hs : Nat.le (size (run_ips ([OpMark [10; 0; 0; 7] 90] ++ [OpInsert [10; 0; 0; 7] [2; 0; 0; 0; 0; 7] 100]))) ARP_CACHE_SIZE) by (vm_compute; lia).
  split; [split; [cbn; lia|]; split; [reflexivity | exact Hs]|].
  apply (arp_reply_learnt (arp_new [2; 0; 0; 0; 0; 7] [10; 0; 0; 7]) [2; 0; 0; 0; 0; 1] [10; 0; 0; 1] [OpMark [10; 0; 0; 7] 90] (replicate 46 0));
    try reflexivity; [cbn; lia | exact Hs].
Defined.
