(* ===== verification/NetStackTheorems.v ===== *)
(** * Packets sent by the stack reach their peer; requests for unresolved
    addresses never return *)

From stdpp Require Import base list gmap sets.
From Stdlib Require Import ZArith Lia.
From S2P Require Import Prelude NetBytes Ethernet Ipv4 Icmp Udp Arp NetStack Ipv4Theorems TransportTheorems ArpTheorems.

Local Open Scope Z_scope.

(** ** The bytes on the wire *)

(** An IPv4 header of this stack, with its total length and checksum. *)
Definition ip_header (total checksum : Z) (proto : IpProtocol) (src dst : list Z) : list Z :=
  [0x45; 0] ++ to_be16 total ++ [0; 0; 0x40; 0; 64; protocol_into proto] ++ to_be16 checksum ++ src ++ dst.

Definition wire_frame (mac smac : list Z) (header payload : list Z) : list Z := mac ++ smac ++ [8; 0] ++ header ++ payload.

Ltac four H :=
  lazymatch type of H with
  | length ?l = 4%nat => destruct l as [|? [|? [|? [|? [|? ?]]]]]; try (exfalso; cbn in H; lia); clear H
  end.
Ltac six H :=
  lazymatch type of H with
  | length ?l = 6%nat => destruct l as [|? [|? [|? [|? [|? [|? [|? ?]]]]]]]; try (exfalso; cbn in H; lia); clear H
  end.

Lemma ip_start_layout (d src dst : list Z) (proto : IpProtocol) :
  (20 <= length d)%nat -> length src = 4%nat -> length dst = 4%nat ->
  ip_start d src dst proto = Some (ip_header 20 0 proto src dst ++ drop 20 d).
Proof.
  intros Hd Hs Ht. four Hs. four Ht. unfold ip_start, ip_packet_new.
  destruct (Nat.ltb_spec (length d) IP_MIN_SIZE) as [H|_]; [unfold IP_MIN_SIZE in H; lia|]. spell Hd. reflexivity.
Qed.

(** The checksum depends on the header only. *)
Lemma compute_ext (h h' : list Z) :
  ip_header_len h' = ip_header_len h -> (forall k, (k < ip_header_len h)%nat -> get h' k = get h k) -> compute_checksum h' = compute_checksum h.
Proof.
  intros Hl Hg. unfold compute_checksum. rewrite Hl. do 3 f_equal. apply map_ext_in. intros i Hi.
  apply list_elem_of_In, list_elem_of_filter in Hi as [_ Hi]. apply steps_elem in Hi as (k & -> & Hk). unfold word_at.
  destruct (Nat.ltb_spec (2 * k + 1) (ip_header_len h)); rewrite !Hg by lia; done.
Qed.

Lemma header_get (total c : Z) (proto : IpProtocol) (src dst tail : list Z) (k : nat) :
  length src = 4%nat -> length dst = 4%nat -> (k < 20)%nat -> get (ip_header total c proto src dst ++ tail) k = get (ip_header total c proto src dst) k.
Proof. intros Hs Ht Hk. unfold get. apply app_nth1. four Hs. four Ht. cbn. lia. Qed.

Definition header_checksum (total : Z) (proto : IpProtocol) (src dst : list Z) : Z := compute_checksum (ip_header total 0 proto src dst).

(** The checksum written by [update_checksum]. *)
Lemma update_layout (total c0 : Z) (src dst tail : list Z) (proto : IpProtocol) :
  length src = 4%nat -> length dst = 4%nat ->
  update_checksum (ip_header total c0 proto src dst ++ tail) = ip_header total (header_checksum total proto src dst) proto src dst ++ tail.
Proof.
  intros Hs Ht. unfold update_checksum.
  assert (E : put (ip_header total c0 proto src dst ++ tail) 10 [0; 0] = ip_header total 0 proto src dst ++ tail) by (four Hs; four Ht; reflexivity).
  assert (Ec : compute_checksum (ip_header total 0 proto src dst ++ tail) = header_checksum total proto src dst).
  { apply compute_ext; [reflexivity|]. intros k Hk. apply header_get; [done | done|].
    change (ip_header_len (ip_header total 0 proto src dst)) with 20%nat in Hk. lia. }
  rewrite E, Ec. generalize (header_checksum total proto src dst). intros c. four Hs. four Ht. reflexivity.
Qed.

(** [finalize] of a packet whose payload is [p]. *)
Lemma ip_finalize_layout (src dst p tail : list Z) (proto : IpProtocol) (len : nat) :
  length src = 4%nat -> length dst = 4%nat -> Z.of_nat len < 65516 ->
  let total := Z.of_nat (20 + len) in
  ip_finalize (ip_return_payload (ip_header 20 0 proto src dst ++ tail) p) len =
  ip_header total (header_checksum total proto src dst) proto src dst ++ p.
Proof.
  intros Hs Ht Hl total. unfold ip_finalize. change (IP_MIN_SIZE + len)%nat with (20 + len)%nat. fold total.
  replace (wrap16 total) with total by (symmetry; apply Z.mod_small; unfold total; lia).
  rewrite <- (update_layout total 0 src dst p proto Hs Ht). f_equal. four Hs. four Ht. reflexivity.
Qed.

Lemma header_bytes (total c : Z) (proto : IpProtocol) (src dst : list Z) :
  bytes src -> bytes dst -> is_byte (protocol_into proto) -> bytes (ip_header total c proto src dst).
Proof.
  intros Hs Hd Hp. unfold ip_header, bytes. rewrite !Forall_app. split; [repeat (constructor; [unfold is_byte; lia|]); constructor|].
  split; [apply to_be16_bytes|]. split; [repeat (constructor; [unfold is_byte in *; lia|]); constructor|].
  split; [apply to_be16_bytes | by split].
Qed.

Lemma header_length (total c : Z) (proto : IpProtocol) (src dst : list Z) :
  length src = 4%nat -> length dst = 4%nat -> length (ip_header total c proto src dst) = 20%nat.
Proof. intros Hs Ht. unfold ip_header. rewrite !length_app, Hs, Ht. reflexivity. Qed.

Definition deliverable (proto : IpProtocol) : Prop := proto = IpTcp \/ proto = IpUdp \/ proto = IpIcmp.

Definition delivered (proto : IpProtocol) (payload src dst : list Z) : Ipv4ProcessResult :=
  match proto with
  | IpIcmp => IpResIcmp payload src
  | IpTcp => IpResTcp payload src dst
  | IpUdp => IpResUdp payload src dst
  | _ => IpResDropped
  end.

(** What the receiver's IP layer makes of such a packet. *)
Lemma ip_process_delivers (p : Ipv4Processor) (src dst payload : list Z) (proto : IpProtocol) :
  length src = 4%nat -> length dst = 4%nat -> bytes src -> bytes dst -> bytes payload -> Z.of_nat (length payload) < 65516 ->
  deliverable proto -> address (ip_config p) = dst ->
  let total := Z.of_nat (20 + length payload) in
  exists p', ip_process p (ip_header total (header_checksum total proto src dst) proto src dst ++ payload) = Ret (delivered proto payload src dst, p').
Proof.
  intros Hs Ht Hsb Hdb Hpb Hl Hpr Hadr total.
  assert (Hp8 : is_byte (protocol_into proto)) by (destruct Hpr as [->|[->| ->]]; unfold is_byte; cbn; lia).
  rewrite <- (update_layout total 0 src dst payload proto Hs Ht).
  destruct (update_verifies (ip_header total 0 proto src dst ++ payload)) as (Hcs & Hul & _ & _).
  { apply Forall_app. split; [by apply header_bytes | done]. }
  { by change (ip_header_len _) with 20%nat. }
  { change (ip_header_len _) with 20%nat. rewrite length_app, header_length by done. lia. }
  rewrite length_app, header_length in Hul by done. rewrite update_layout in * by done.
  set (c := header_checksum total proto src dst) in *. set (pkt := ip_header total c proto src dst ++ payload) in *.
  assert (Ht16 : is_u16 total) by (unfold is_u16, total; lia).
  assert (Htl : Z.to_nat (ip_total_length pkt) = (20 + length payload)%nat).
  { replace (ip_total_length pkt) with total; [unfold total; lia|]. symmetry. by apply from_to_be16. }
  assert (Hparse : ip_parse pkt = Some pkt).
  { unfold ip_parse. rewrite Htl, Hul. change (ip_version pkt =? 4) with true. change (ip_header_len pkt) with 20%nat. unfold IP_MIN_SIZE.
    repeat match goal with |- context [(?a <? ?b)%nat] => destruct (Nat.ltb_spec a b); [lia|] end. done. }
  assert (Hdst : ip_destination pkt = dst) by (unfold pkt; clear -Hs Ht; four Hs; four Ht; reflexivity).
  assert (Hsrc : ip_source pkt = src) by (unfold pkt; clear -Hs Ht; four Hs; four Ht; reflexivity).
  assert (Hpay : ip_payload pkt = Ret payload).
  { unfold ip_payload. change (ip_header_len pkt) with 20%nat. rewrite Htl, slice_ret by lia. f_equal.
    replace (20 + length payload - 20)%nat with (length payload) by lia. unfold pkt.
    rewrite drop_app_length' by (symmetry; by apply header_length). by rewrite take_ge by lia. }
  assert (Hproto : ip_protocol pkt = proto) by (destruct Hpr as [->|[->| ->]]; reflexivity).
  unfold ip_process. rewrite Hparse, Hcs. cbn [negb]. rewrite Hdst. unfold ip_is_for_us. rewrite Hadr, bool_decide_true by done. cbn [orb negb].
  rewrite Hpay, Hproto, Hsrc. cbn [obind]. eexists. destruct Hpr as [->|[->| ->]]; reflexivity.
Qed.

(** What the receiver's Ethernet layer makes of a frame for it. *)
Lemma eth_process_delivers (e : EthernetProcessor) (mac smac rest : list Z) :
  length mac = 6%nat -> length smac = 6%nat -> local_mac e = mac ->
  exists e', eth_process e (mac ++ smac ++ [8; 0] ++ rest) = Ret (ResIpv4 rest, e').
Proof.
  intros Hm Hs Hl. unfold eth_process, eth_parse.
  assert (Hlen : length (mac ++ smac ++ [8; 0] ++ rest) = (14 + length rest)%nat) by (rewrite !length_app, Hm, Hs; reflexivity).
  rewrite Hlen. unfold ETH_SIZE. destruct (Nat.ltb_spec (14 + length rest) 14); [lia|].
  assert (Hd : eth_destination (mac ++ smac ++ [8; 0] ++ rest) = mac) by (unfold eth_destination; by rewrite take_app_length').
  rewrite Hd. unfold eth_is_for_us. rewrite bool_decide_true by done. cbn [orb negb]. rewrite andb_false_r.
  assert (Hp : eth_payload (mac ++ smac ++ [8; 0] ++ rest) = Ret rest).
  { unfold eth_payload. rewrite slice_ret by (unfold ETH_SIZE; lia). rewrite Hlen. unfold ETH_SIZE.
    replace (14 + length rest - 14)%nat with (length rest) by lia. f_equal.
    rewrite (app_assoc smac), (app_assoc mac), drop_app_length' by (rewrite !length_app, Hm, Hs; reflexivity). by rewrite take_ge by lia. }
  rewrite Hp. cbn [obind]. assert (Ht : eth_ether_type (mac ++ smac ++ [8; 0] ++ rest) = EtIpv4) by (clear -Hm Hs; six Hm; six Hs; reflexivity).
  rewrite Ht. by eexists.
Qed.

(** ** Senders *)

(** A frame that makes a host with this hardware and IP address deliver [r]. *)
Definition reaches (frame mac dst : list Z) (r : Ipv4ProcessResult) : Prop :=
  forall e p, local_mac e = mac -> address (ip_config p) = dst ->
  exists packet e' p', eth_process e frame = Ret (ResIpv4 packet, e') /\ ip_process p packet = Ret (r, p').

Lemma wire_frame_reaches (mac smac src dst payload : list Z) (proto : IpProtocol) :
  length mac = 6%nat -> length smac = 6%nat -> length src = 4%nat -> length dst = 4%nat -> bytes src -> bytes dst -> bytes payload ->
  Z.of_nat (length payload) < 65516 -> deliverable proto ->
  let total := Z.of_nat (20 + length payload) in
  reaches (wire_frame mac smac (ip_header total (header_checksum total proto src dst) proto src dst) payload) mac dst (delivered proto payload src dst).
Proof.
  intros Hm Hsm Hs Ht Hsb Hdb Hpb Hl Hpr total e p He Hp.
  destruct (ip_process_delivers p src dst payload proto) as [p' Ep]; try done.
  destruct (eth_process_delivers e mac smac (ip_header total (header_checksum total proto src dst) proto src dst ++ payload) Hm Hsm He) as [e' Ee].
  by eexists _, e', p'.
Qed.

Lemma new_frame_layout (size : nat) (mac smac : list Z) :
  (14 <= size)%nat -> length mac = 6%nat -> length smac = 6%nat ->
  new_frame size mac smac EtIpv4 = Some (mkFrame (mac ++ smac ++ [8; 0] ++ replicate (size - 14) 0) 0).
Proof.
  intros Hsz Hm Hs. unfold new_frame, frame_new. rewrite length_replicate.
  destruct (Nat.ltb_spec size ETH_SIZE) as [H|_]; [unfold ETH_SIZE in H; lia|].
  replace (replicate size 0) with (replicate 14 0 ++ replicate (size - 14) 0) by (rewrite <- replicate_add; f_equal; lia).
  generalize (replicate (size - 14) 0). intros tail. six Hm. six Hs. reflexivity.
Qed.

(** The last steps of a sender hand the frame to [transmit]. *)
Lemma ip_finish_eq (mac smac src dst tail tail2 p : list Z) (proto : IpProtocol) (len : nat) (s : NetworkStack) :
  length mac = 6%nat -> length smac = 6%nat -> length src = 4%nat -> length dst = 4%nat -> (len <= length p)%nat -> Z.of_nat len < 65516 ->
  let total := Z.of_nat (20 + len) in
  ip_finish (mkFrame (mac ++ smac ++ [8; 0] ++ tail) 0) (ip_header 20 0 proto src dst ++ tail2) p len s =
  transmit (wire_frame mac smac (ip_header total (header_checksum total proto src dst) proto src dst) (take len p)) s.
Proof.
  intros Hm Hsm Hs Ht Hlen Hl total. unfold ip_finish. rewrite ip_finalize_layout by done. fold total.
  set (h := ip_header total (header_checksum total proto src dst) proto src dst).
  assert (Hh : length h = 20%nat) by (by apply header_length).
  assert (Htl : ip_total_len (h ++ p) = (20 + len)%nat).
  { unfold ip_total_len. replace (ip_total_length (h ++ p)) with total; [unfold total; lia|]. symmetry. apply from_to_be16. unfold is_u16, total. lia. }
  rewrite Htl. unfold frame_return_payload, frame_set_payload_len, frame_as_bytes, frame_total_len, ETH_SIZE. cbn [frame_data frame_payload_len].
  assert (Et : on_tail (mac ++ smac ++ [8; 0] ++ tail) 14 (h ++ p) = (mac ++ smac ++ [8; 0]) ++ h ++ p).
  { unfold on_tail. f_equal. rewrite !(app_assoc smac), app_assoc. rewrite take_app_length' by (rewrite !length_app, Hm, Hsm; reflexivity). done. }
  rewrite Et. assert (Hfl : length ((mac ++ smac ++ [8; 0]) ++ h ++ p) = (14 + 20 + length p)%nat) by (rewrite !length_app, Hm, Hsm, Hh; cbn [length]; lia).
  rewrite Hfl. replace (Nat.min (20 + len) (14 + 20 + length p - 14)) with (20 + len)%nat by lia.
  rewrite slice_prefix by lia. unfold nbind, nlift. f_equal. unfold wire_frame.
  replace (mac ++ smac ++ [8; 0] ++ h ++ take len p) with ((mac ++ smac ++ [8; 0]) ++ h ++ take len p) by (by rewrite <- !app_assoc).
  assert (H14 : length (mac ++ smac ++ [8; 0]) = 14%nat) by (rewrite !length_app, Hm, Hsm; reflexivity).
  rewrite take_app, H14, (take_ge (mac ++ smac ++ [8; 0])) by lia. f_equal.
  replace (14 + (20 + len) - 14)%nat with (20 + len)%nat by lia. rewrite take_app, Hh, (take_ge h) by lia. do 2 f_equal. lia.
Qed.

(** A stack whose callback takes every frame. *)
Lemma transmit_ok (frame : list Z) (s : NetworkStack) (f : list Z -> bool) :
  ns_transmit s = Some f -> f frame = true -> exists s', transmit frame s = Done true s' /\ ns_sent s' = ns_sent s ++ [frame].
Proof. intros Hf Ht. unfold transmit, nbind, nget, nput, record_tx. rewrite Hf, Ht. eexists. split; reflexivity. Qed.

(** C22: a TCP segment handed to the stack reaches its peer: once the next hop is
    resolved, [send_tcp] transmits one frame, and any host with that hardware
    address and the destination's IP address takes exactly the segment, with both
    addresses, out of it through its Ethernet and IP layers. *)
Theorem send_tcp_reaches_peer (s s1 : NetworkStack) (src dst seg mac : list Z) (f : list Z -> bool) :
  length src = 4%nat -> length dst = 4%nat -> length mac = 6%nat -> length (cfg_mac (ns_config s)) = 6%nat ->
  bytes src -> bytes dst -> bytes seg -> (length seg <= 1484)%nat ->
  resolve_mac dst (ns_config s) (ns_time s) s = Done (Some mac) s1 -> ns_transmit s1 = Some f -> (forall d, f d = true) ->
  exists frame s', send_tcp src dst seg s = Done true s' /\ ns_sent s' = ns_sent s1 ++ [frame] /\
    reaches frame mac dst (IpResTcp seg src dst).
Proof.
  intros Hs Ht Hm Hcm Hsb Hdb Hgb Hl Hr Hf Hall. unfold send_tcp, nbind at 1, nget. unfold nbind at 1. rewrite Hr.
  assert (Hsz : (34 <= MAX_PACKET_SIZE)%nat) by (unfold MAX_PACKET_SIZE; lia).
  rewrite new_frame_layout by (done || lia). unfold frame_payload_mut, ETH_SIZE. cbn [frame_data].
  assert (Hd : drop 14 (mac ++ cfg_mac (ns_config s) ++ [8; 0] ++ replicate (MAX_PACKET_SIZE - 14) 0) = replicate (MAX_PACKET_SIZE - 14) 0).
  { rewrite (app_assoc (cfg_mac _)), app_assoc. rewrite drop_app_length' by (rewrite !length_app, Hm, Hcm; reflexivity). done. }
  rewrite Hd, ip_start_layout by (done || (rewrite length_replicate; lia)).
  unfold ip_payload_mut, IP_MIN_SIZE. rewrite (drop_app_length' (ip_header _ _ _ _ _)) by (symmetry; by apply header_length).
  rewrite drop_replicate, length_replicate. set (n := (MAX_PACKET_SIZE - 14 - 20)%nat).
  assert (Hn : n = Z.to_nat 1484) by (unfold n, MAX_PACKET_SIZE; lia).
  destruct (Nat.leb_spec (length seg) n); [|lia].
  rewrite ip_finish_eq; [|done..| |lia]; [|rewrite put_length; rewrite ?length_replicate; lia].
  destruct (transmit_ok (wire_frame mac (cfg_mac (ns_config s)) (ip_header (Z.of_nat (20 + length seg)) (header_checksum (Z.of_nat (20 + length seg)) IpTcp src dst) IpTcp src dst)
    (take (length seg) (put (replicate n 0) 0 seg))) s1 f Hf (Hall _)) as (s' & -> & Hs').
  eexists _, s'. split; [reflexivity|]. split; [exact Hs'|].
  replace (take (length seg) (put (replicate n 0) 0 seg)) with seg by (unfold put; by rewrite take_0, app_nil_l, take_app_length).
  apply (wire_frame_reaches mac (cfg_mac (ns_config s)) src dst seg IpTcp); try done; [lia | by left].
Qed.

(** a UDP datagram sent by this stack reaches the peer's UDP layer unchanged
    but is refused there: when the peer runs this stack, its UDP processor answers
    every one of them with a checksum error and delivers nothing. *)
Theorem send_udp_refused_by_peer (s s1 : NetworkStack) (dst data mac : list Z) (sp dp : Z) (f : list Z -> bool) (u : udp_state) :
  let src := address (cfg_ipv4 (ns_config s)) in
  length src = 4%nat -> length dst = 4%nat -> length mac = 6%nat -> length (cfg_mac (ns_config s)) = 6%nat ->
  bytes src -> bytes dst -> bytes data -> is_u16 sp -> is_u16 dp ->
  resolve_mac dst (ns_config s) (ns_time s) s = Done (Some mac) s1 -> ns_transmit s1 = Some f -> (forall d, f d = true) ->
  exists frame pkt s', send_udp sp dst dp data s = Done true s' /\ ns_sent s' = ns_sent s1 ++ [frame] /\
    reaches frame mac dst (IpResUdp pkt src dst) /\ udp_payload pkt = Ret (take 1476 data) /\
    udp_process u pkt src dst = Ret (ChecksumError, count_checksum_error u).
Proof.
  intros src Hs Ht Hm Hcm Hsb Hdb Hgb Hsp Hdp Hr Hf Hall. unfold send_udp, nbind at 1, nget. unfold nbind at 1. rewrite Hr.
  assert (Hsz : (34 <= MAX_PACKET_SIZE)%nat) by (unfold MAX_PACKET_SIZE; lia).
  rewrite new_frame_layout by (done || lia). unfold frame_payload_mut, ETH_SIZE. cbn [frame_data].
  assert (Hd : drop 14 (mac ++ cfg_mac (ns_config s) ++ [8; 0] ++ replicate (MAX_PACKET_SIZE - 14) 0) = replicate (MAX_PACKET_SIZE - 14) 0).
  { rewrite (app_assoc (cfg_mac _)), app_assoc. rewrite drop_app_length' by (rewrite !length_app, Hm, Hcm; reflexivity). done. }
  rewrite Hd, ip_start_layout by (done || (rewrite length_replicate; lia)). fold src.
  unfold ip_payload_mut, IP_MIN_SIZE. rewrite (drop_app_length' (ip_header _ _ _ _ _)) by (symmetry; by apply header_length).
  rewrite drop_replicate. set (n := (MAX_PACKET_SIZE - 14 - 20)%nat). assert (Hn : n = Z.to_nat 1484) by (unfold n, MAX_PACKET_SIZE; lia).
  assert (Hzb : bytes (replicate n 0)) by (apply Forall_replicate; unfold is_byte; lia).
  destruct (udp_built u (replicate n 0) data src dst sp dp) as (len & buf' & E & Hle & Hlb & Hb' & _ & _ & _ & Hpay & _ & Hproc);
    try done; [rewrite length_replicate; lia..|].
  rewrite length_replicate in *. unfold nbind, nlift at 1. rewrite E.
  rewrite ip_finish_eq; [|done..|lia|lia].
  destruct (transmit_ok (wire_frame mac (cfg_mac (ns_config s)) (ip_header (Z.of_nat (20 + len)) (header_checksum (Z.of_nat (20 + len)) IpUdp src dst) IpUdp src dst)
    (take len buf')) s1 f Hf (Hall _)) as (s' & -> & Hs').
  eexists _, (take len buf'), s'. split; [reflexivity|]. split; [exact Hs'|]. split; [|split; [|exact Hproc]].
  - assert (Hlt : length (take len buf') = len) by (rewrite length_take; lia). rewrite <- Hlt at 1 2.
    apply (wire_frame_reaches mac (cfg_mac (ns_config s)) src dst (take len buf') IpUdp); try done; [by apply Forall_take | lia | by right; left].
  - rewrite Hpay. replace (n - 8)%nat with 1476%nat by lia. reflexivity.
Qed.

(** ** The ARP lock *)

(** No entry is waiting for a reply; and nobody holds the lock. *)
Definition no_pending (s : NetworkStack) : Prop :=
  forall e, Some e ∈ entries (arp_cache (ns_arp s)) -> e_state e = Resolved.
Definition quiet (s : NetworkStack) : Prop := ns_arp_held s = false /\ no_pending s.

(** What holds after a call that returns. *)
Definition hoare {A} (P : NetworkStack -> Prop) (m : net A) (Q : NetworkStack -> Prop) : Prop :=
  forall s a s', P s -> m s = Done a s' -> Q s'.

Lemma hoare_seq {A B} (P Q R : NetworkStack -> Prop) (m : net A) (k : A -> net B) :
  hoare P m Q -> (forall a, hoare Q (k a) R) -> hoare P (nbind m k) R.
Proof. intros Hm Hk s b s' HP E. unfold nbind in E. destruct (m s) as [a s1| |] eqn:Em; try done. eapply Hk; [|exact E]. by eapply Hm. Qed.

Lemma hoare_ret {A} (P : NetworkStack -> Prop) (a : A) : hoare P (nret a) P.
Proof. by intros s b s' HP [= _ <-]. Qed.

Lemma hoare_lift {A} (P : NetworkStack -> Prop) (m : outcome A) : hoare P (nlift m) P.
Proof. intros s b s' HP E. unfold nlift in E. destruct m; [|done]. by injection E as _ <-. Qed.

Lemma hoare_get (P : NetworkStack -> Prop) : hoare P nget P.
Proof. by intros s b s' HP [= _ <-]. Qed.

(** An update of other fields than the ARP processor and its lock. *)
Lemma hoare_put (P : NetworkStack -> Prop) (f : NetworkStack -> NetworkStack) :
  (P = quiet \/ P = no_pending) -> (forall s, ns_arp (f s) = ns_arp s /\ ns_arp_held (f s) = ns_arp_held s) -> hoare P (nput f) P.
Proof.
  intros HP Hf s b s' Hs [= _ <-]. destruct (Hf s) as [E1 E2].
  destruct HP as [-> | ->]; [destruct Hs as [H1 H2]; split; [congruence|]; intros e; rewrite E1; apply H2 | intros e; rewrite E1; apply Hs].
Qed.

Lemma hoare_lock : hoare quiet lock_arp no_pending.
Proof. intros s b s' [H1 H2] E. unfold lock_arp in E. rewrite H1 in E. by injection E as _ <-. Qed.

Lemma hoare_unlock : hoare no_pending unlock_arp quiet.
Proof. by intros s b s' H [= _ <-]. Qed.

Create HintDb net.
#[export] Hint Resolve hoare_ret hoare_lift hoare_get hoare_lock hoare_unlock : net.

(** Runs through the statements of a call. *)
Ltac hoare_steps :=
  repeat match goal with
  | |- hoare _ (nbind lock_arp _) _ => eapply hoare_seq; [apply hoare_lock | intros _]
  | |- hoare _ (nbind unlock_arp _) _ => eapply hoare_seq; [apply hoare_unlock | intros _]
  | |- hoare ?P (nbind (nput _) _) _ => apply (hoare_seq P P); [apply hoare_put; [by (left || right) | done] | intros _]
  | |- hoare ?P (nbind nget _) _ => apply (hoare_seq P P); [apply hoare_get | intros ?]
  | |- hoare ?P (nbind (nlift _) _) _ => apply (hoare_seq P P); [apply hoare_lift | intros ?]
  | |- hoare ?P (nput _) ?P => apply hoare_put; [by (left || right) | done]
  | |- hoare _ (if ?b then _ else _) _ => destruct b
  | |- hoare _ (match ?x with _ => _ end) _ => destruct x
  end; auto with net.

Lemma hoare_transmit (P : NetworkStack -> Prop) (d : list Z) : (P = quiet \/ P = no_pending) -> hoare P (transmit d) P.
Proof.
  intros HP. unfold transmit, record_tx, record_tx_error. apply (hoare_seq P P); [apply hoare_get | intros s0]. destruct (ns_transmit s0); [|apply hoare_ret].
  apply (hoare_seq P P); [by apply hoare_put | intros _]. destruct (b d); (apply (hoare_seq P P); [by apply hoare_put | intros _; apply hoare_ret]).
Qed.

Lemma with_arp_eq {A} (f : ArpProcessor -> A * ArpProcessor) (s : NetworkStack) :
  ns_arp_held s = false -> with_arp f s = Done (f (ns_arp s)).1 (set_ns_held (set_ns_arp (set_ns_held s true) (f (ns_arp s)).2) false).
Proof.
  intros H. unfold with_arp, unlock_arp, nbind, lock_arp, nget, nput, nret. rewrite H. cbn [ns_arp set_ns_held].
  by destruct (f (ns_arp s)).
Qed.

Lemma hoare_with_arp {A} (f : ArpProcessor -> A * ArpProcessor) :
  (forall p, (forall e, Some e ∈ entries (arp_cache p) -> e_state e = Resolved) ->
             forall e, Some e ∈ entries (arp_cache (f p).2) -> e_state e = Resolved) ->
  hoare quiet (with_arp f) quiet.
Proof.
  intros Hf s a s' [H1 H2] E. rewrite with_arp_eq in E by done. injection E as _ <-. split; [done|]. exact (Hf (ns_arp s) H2).
Qed.

(** ** Requests for addresses that are not resolved *)

Lemma put_length_ge (d : list Z) (i : nat) (bs : list Z) : (length d <= length (put d i bs))%nat.
Proof. unfold put. rewrite !length_app, length_take, length_drop. lia. Qed.

Lemma no_pending_pending (s : NetworkStack) (ip : list Z) (now : Z) : no_pending s -> is_pending (arp_cache (ns_arp s)) ip now = false.
Proof.
  intros H. unfold is_pending. pose proof (find_entry_spec (fun e => bool_decide (e_ip e = ip) && bool_decide (e_state e = Incomplete)) (entries (arp_cache (ns_arp s)))) as Hf.
  destruct (find_entry _ _) as [e|]; [|done]. destruct Hf as [He Ht]. apply andb_true_iff in Ht as [_ Ht]. apply bool_decide_eq_true in Ht.
  rewrite (H e He) in Ht. done.
Qed.

Lemma arp_init_length (op : ArpOperation) (d sm si tm ti : list Z) : (length d <= length (arp_init op d sm si tm ti))%nat.
Proof. unfold arp_init. repeat (etransitivity; [|apply put_length_ge]). reflexivity. Qed.

Lemma arp_frame (dst src : list Z) : exists f, new_frame 64 dst src EtArp = Some f /\ frame_payload_len f = 0%nat /\ (64 <= length (frame_data f))%nat.
Proof.
  eexists. split; [reflexivity|]. split; [done|]. cbn [frame_data frame_set_ether_type frame_set_source frame_set_destination].
  unfold eth_set_ether_type, eth_set_source, eth_set_destination.
  repeat (etransitivity; [|apply put_length_ge]). by rewrite length_replicate.
Qed.

(** A frame with room for 28 bytes of ARP pads to 60 bytes. *)
Lemma arp_frame_pads (f : EthernetFrameMut) (p : list Z) :
  (64 <= length (frame_data f))%nat -> (50 <= length p)%nat ->
  exists f', frame_pad_to_minimum (frame_set_payload_len (frame_return_payload f p) 28) = Ret f'.
Proof.
  intros H1 H2. unfold frame_pad_to_minimum, frame_set_payload_len, frame_return_payload, frame_total_len. cbn [frame_data frame_payload_len].
  assert (Hl : (64 <= length (on_tail (frame_data f) ETH_SIZE p))%nat).
  { unfold on_tail. rewrite length_app, length_take. unfold ETH_SIZE. lia. }
  replace (Nat.min 28 (length (on_tail (frame_data f) ETH_SIZE p) - ETH_SIZE)) with 28%nat by (unfold ETH_SIZE in *; lia).
  unfold ETH_SIZE, ETH_MIN_SIZE. destruct (Nat.ltb_spec (14 + 28) 60); [|lia]. rewrite slice_ret by (unfold ETH_SIZE in *; lia). by eexists.
Qed.

Lemma send_arp_request_spins (ip : list Z) (s : NetworkStack) : quiet s -> send_arp_request ip s = Spins.
Proof.
  intros [Hh Hn]. unfold send_arp_request, nbind at 1, nget at 1. cbv zeta. unfold nbind at 1, lock_arp at 1. rewrite Hh.
  unfold nbind at 1, nget at 1. cbn [ns_arp set_ns_held]. rewrite no_pending_pending by done. unfold nbind at 1, unlock_arp at 1, nput at 1.
  destruct (arp_frame MAC_BROADCAST (cfg_mac (ns_config (set_ns_held s true)))) as (f & -> & Hf0 & Hfl).
  unfold nbind at 1, lock_arp at 1. cbn [ns_arp_held set_ns_held]. unfold nbind at 1, nget at 1.
  unfold arp_build_request, frame_payload_mut. assert (Hp : (50 <= length (drop ETH_SIZE (frame_data f)))%nat) by (rewrite length_drop; unfold ETH_SIZE; lia).
  destruct (Nat.ltb_spec (length (drop ETH_SIZE (frame_data f))) ARP_SIZE) as [Hlt|_]; [unfold ARP_SIZE in Hlt; lia|]. change ARP_SIZE with 28%nat.
  match goal with |- context [frame_return_payload f ?q] => destruct (arp_frame_pads f q Hfl) as [f' Hf'] end.
  { unfold init_request. etransitivity; [exact Hp | apply arp_init_length]. }
  unfold nbind at 1, nlift at 1. rewrite Hf'. reflexivity.
Qed.

Lemma resolve_entries (p : ArpProcessor) (ip : list Z) (now : Z) : entries (arp_cache (arp_resolve p ip now).2) = entries (arp_cache p).
Proof. unfold arp_resolve. destruct (ip_is_broadcast ip); [done|]. unfold cache_lookup. by destruct (find_entry _ _). Qed.

(** The hop a datagram goes to first. *)
Definition next_hop (s : NetworkStack) (dst : list Z) : list Z :=
  if config_is_local (cfg_ipv4 (ns_config s)) dst then dst else gateway (cfg_ipv4 (ns_config s)).

Lemma resolve_unresolved (s : NetworkStack) (dst : list Z) :
  quiet s -> ip_is_broadcast dst = false -> (arp_resolve (ns_arp s) (next_hop s dst) (ns_time s)).1 = None ->
  resolve_mac dst (ns_config s) (ns_time s) s = Spins.
Proof.
  intros Hq Hb Hr. unfold resolve_mac. rewrite Hb. cbv zeta. unfold next_hop in Hr. unfold nbind at 1.
  destruct (with_arp _ s) as [o s1| |] eqn:Ew; pose proof Ew as Ew'; rewrite with_arp_eq in Ew' by apply Hq; try done.
  injection Ew' as Eo Es. assert (o = None) as -> by (etransitivity; [symmetry; exact Eo | exact Hr]). unfold nbind. rewrite send_arp_request_spins; [done|].
  eapply hoare_with_arp; [|exact Hq|exact Ew]. intros p Hp e. cbv beta. rewrite resolve_entries. apply Hp.
Qed.

(** ** Reachable stacks *)

Inductive stack_op :=
| SReceive (d : list Z) | SSendUdp (sp : Z) (dst : list Z) (dp : Z) (d : list Z) | SSendTcp (src dst seg : list Z)
| SPing (target : list Z) (seq : Z) | SPeriodic | SSetConfig (c : NetworkConfig) | SUpdateIp (ip : list Z)
| STime (t : Z) | SBindUdp (p : Z) | STransmitFn (f : list Z -> bool).

Definition stack_apply (op : stack_op) : net unit :=
  match op with
  | SReceive d => receive d
  | SSendUdp sp dst dp d => do _ <- send_udp sp dst dp d; nret tt
  | SSendTcp src dst seg => do _ <- send_tcp src dst seg; nret tt
  | SPing target seq => do _ <- send_icmp_echo_request target seq; nret tt
  | SPeriodic => periodic
  | SSetConfig c => set_config c
  | SUpdateIp ip => update_ip ip
  | STime t => update_time t
  | SBindUdp p => do _ <- bind_udp p; nret tt
  | STransmitFn f => set_transmit_fn f
  end.

Inductive stack_reachable (c : NetworkConfig) : NetworkStack -> Prop :=
| sr_new : stack_reachable c (stack_new c)
| sr_step s op s' : stack_reachable c s -> stack_apply op s = Done tt s' -> stack_reachable c s'.

Lemma insert_resolved (c : ArpCache) (ip : Ipv4Address) (mac : MacAddress) (now : Z) :
  (forall e, Some e ∈ entries c -> e_state e = Resolved) -> forall e, Some e ∈ entries (cache_insert c ip mac now) -> e_state e = Resolved.
Proof.
  intros H e. unfold cache_insert. pose proof (update_first_spec ip (fun e => Some (mkEntry (e_ip e) mac now Resolved)) (entries c)) as Hu.
  destruct (update_first ip _ (entries c)) as [es|].
  - destruct Hu as (l1 & e0 & l2 & E & -> & _). cbn [entries with_entries]. intros [Hin|[[= ->]|Hin]%elem_of_cons]%elem_of_app; [|done|];
      apply H; rewrite E; apply elem_of_app; [by left | right; by apply elem_of_cons; right].
  - pose proof (chosen_slot_spec (entries c)) as Hc. destruct (chosen_slot (entries c)) as [i|]; [|apply H].
    destruct Hc as (o & Ho & _). destruct (insert_split (entries c) i o (Some (new_resolved ip mac now)) Ho) as (l1 & l2 & E & E'). cbn [entries]. rewrite E'.
    intros [Hin|[[= ->]|Hin]%elem_of_cons]%elem_of_app; [|done|]; apply H; rewrite E; apply elem_of_app; [by left | right; by apply elem_of_cons; right].
Qed.

Lemma hoare_send_arp_reply (tm ti : list Z) : hoare quiet (send_arp_reply tm ti) quiet.
Proof.
  unfold send_arp_reply. hoare_steps. apply (hoare_seq no_pending no_pending); [apply hoare_transmit; by right | intros _; apply hoare_unlock].
Qed.

Lemma hoare_request (ip : list Z) : hoare quiet (send_arp_request ip) quiet.
Proof. intros s a s' Hq E. by rewrite send_arp_request_spins in E. Qed.

Lemma hoare_resolve_mac (dst : list Z) (c : NetworkConfig) (now : Z) : hoare quiet (resolve_mac dst c now) quiet.
Proof.
  unfold resolve_mac. destruct (ip_is_broadcast dst); [apply hoare_ret|]. cbv zeta.
  apply (hoare_seq quiet quiet); [apply hoare_with_arp; intros p Hp e; rewrite resolve_entries; apply Hp|].
  intros [mac|]; [apply hoare_ret|]. apply (hoare_seq quiet quiet); [apply hoare_request | intros _; apply hoare_ret].
Qed.

(** [resolve_or_request] returns only when the address is resolved. *)
Lemma hoare_resolve_or_request (ip : list Z) (now : Z) : hoare quiet (resolve_or_request ip now) quiet.
Proof.
  intros s a s' Hq E. unfold resolve_or_request, nbind at 1, lock_arp in E. rewrite (proj1 Hq) in E.
  unfold nbind at 1, nget in E. cbn [ns_arp set_ns_held] in E. destruct (arp_resolve (ns_arp s) ip now) as [r p] eqn:Er.
  pose proof (resolve_entries (ns_arp s) ip now) as Hr. rewrite Er in Hr. cbn [snd] in Hr.
  destruct r as [mac|].
  - unfold unlock_arp, nbind, nput, nret in E. injection E as _ <-. split; [done|]. intros e. cbn. rewrite Hr. apply Hq.
  - exfalso. unfold nbind, nput in E. unfold send_arp_request, nbind, nget, lock_arp in E. cbn in E. done.
Qed.

Lemma hoare_ip_finish (f : EthernetFrameMut) (ip p : list Z) (len : nat) : hoare quiet (ip_finish f ip p len) quiet.
Proof. unfold ip_finish. hoare_steps. apply hoare_transmit. by left. Qed.

#[export] Hint Resolve hoare_send_arp_reply hoare_resolve_mac hoare_resolve_or_request hoare_ip_finish : net.

Lemma hoare_send_udp (sp : Z) (dst : list Z) (dp : Z) (d : list Z) : hoare quiet (send_udp sp dst dp d) quiet.
Proof.
  unfold send_udp. apply (hoare_seq quiet quiet); [apply hoare_get | intros s0]. cbv zeta.
  apply (hoare_seq quiet quiet); [apply hoare_resolve_mac | intros m]. hoare_steps.
Qed.

Lemma hoare_send_tcp (src dst seg : list Z) : hoare quiet (send_tcp src dst seg) quiet.
Proof.
  unfold send_tcp. apply (hoare_seq quiet quiet); [apply hoare_get | intros s0]. cbv zeta.
  apply (hoare_seq quiet quiet); [apply hoare_resolve_mac | intros m]. hoare_steps.
Qed.

Lemma hoare_echo_reply (dst : list Z) (id seq : Z) (d : list Z) (now : Z) : hoare quiet (send_icmp_echo_reply dst id seq d now) quiet.
Proof.
  unfold send_icmp_echo_reply. apply (hoare_seq quiet quiet); [apply hoare_get | intros s0]. cbv zeta.
  apply (hoare_seq quiet quiet); [destruct (config_is_local _ _); apply hoare_resolve_or_request | intros m]. hoare_steps.
  apply (hoare_seq quiet quiet); [apply hoare_ip_finish | intros _; apply hoare_ret].
Qed.

Lemma hoare_process_arp (d : list Z) (now : Z) : hoare quiet (process_arp d now) quiet.
Proof.
  unfold process_arp. apply (hoare_seq quiet quiet).
  - apply hoare_with_arp. intros p Hp e. unfold arp_process. destruct (length d <? ARP_SIZE)%nat; [apply Hp|]. destruct (negb (arp_is_valid d)); [apply Hp|]. cbv zeta.
    assert (Hi : forall e, Some e ∈ entries (arp_cache (if negb (ip_is_any (arp_sender_ip d)) && negb (mac_is_broadcast (arp_sender_mac d))
      then with_cache p (cache_insert (arp_cache p) (arp_sender_ip d) (arp_sender_mac d) now) else p)) -> e_state e = Resolved).
    { destruct (_ && _); [cbn [arp_cache with_cache]; by apply insert_resolved | exact Hp]. }
    destruct (arp_operation d); [case_bool_decide|..]; apply Hi.
  - intros r. hoare_steps.
Qed.

Lemma hoare_process_icmp (d src : list Z) (now : Z) : hoare quiet (process_icmp d src now) quiet.
Proof.
  unfold process_icmp. apply (hoare_seq quiet quiet); [apply hoare_get | intros s0]. destruct (negb _); [apply hoare_ret|].
  apply (hoare_seq quiet quiet); [apply hoare_lift | intros r]. apply (hoare_seq quiet quiet); [apply hoare_put; [by left | done] | intros _].
  destruct r.1; try apply hoare_ret. apply (hoare_seq quiet quiet); [destruct (_ <=? _)%nat; [apply hoare_lift | apply hoare_ret]|].
  intros echo. apply hoare_echo_reply.
Qed.

Lemma hoare_process_udp (d src dst : list Z) : hoare quiet (process_udp d src dst) quiet.
Proof. unfold process_udp, record_dropped, record_rx_error. hoare_steps. Qed.

Lemma hoare_process_ipv4 (d : list Z) (now : Z) : hoare quiet (process_ipv4 d now) quiet.
Proof.
  unfold process_ipv4, record_dropped, record_rx_error. apply (hoare_seq quiet quiet); [apply hoare_get | intros s0].
  apply (hoare_seq quiet quiet); [apply hoare_lift | intros r]. apply (hoare_seq quiet quiet); [apply hoare_put; [by left | done] | intros _].
  destruct r.1; [apply hoare_process_icmp | apply hoare_ret | apply hoare_process_udp | |]; (apply hoare_put; [by left | done]).
Qed.

Lemma hoare_receive (d : list Z) : hoare quiet (receive d) quiet.
Proof.
  unfold receive, record_dropped, record_rx_error, record_rx. apply (hoare_seq quiet quiet); [apply hoare_get | intros s0]. cbv zeta.
  apply (hoare_seq quiet quiet); [apply hoare_lift | intros r]. apply (hoare_seq quiet quiet); [apply hoare_put; [by left | done] | intros _].
  apply (hoare_seq quiet quiet); [|intros _; apply hoare_put; [by left | done]].
  destruct r.1; [apply hoare_process_ipv4 | | apply hoare_process_arp | |]; (apply hoare_put; [by left | done]).
Qed.

Lemma hoare_ping (target : list Z) (seq : Z) : hoare quiet (send_icmp_echo_request target seq) quiet.
Proof.
  unfold send_icmp_echo_request. apply (hoare_seq quiet quiet); [apply hoare_get | intros s0]. cbv zeta. destruct (pool_alloc (ns_pool s0)) as [b pool].
  apply (hoare_seq quiet quiet); [apply hoare_put; [by left | done] | intros _]. destruct b as [buf|]; [|apply hoare_ret].
  destruct (length buf <? 42)%nat; [apply hoare_ret|]. apply (hoare_seq quiet quiet).
  - apply hoare_with_arp. intros p Hp e. unfold cache_lookup. destruct (find_entry _ _); apply Hp.
  - intros mac. apply (hoare_seq quiet quiet); [apply hoare_lift | intros c]. apply (hoare_seq quiet quiet); [apply hoare_lift | intros c'].
    apply (hoare_seq quiet quiet); [apply hoare_lift | intros d']. apply (hoare_seq quiet quiet); [apply hoare_transmit; by left | intros ok; apply hoare_ret].
Qed.

Lemma hoare_stack_apply (op : stack_op) : hoare quiet (stack_apply op) quiet.
Proof.
  destruct op; cbn [stack_apply].
  - apply hoare_receive.
  - apply (hoare_seq quiet quiet); [apply hoare_send_udp | intros _; apply hoare_ret].
  - apply (hoare_seq quiet quiet); [apply hoare_send_tcp | intros _; apply hoare_ret].
  - apply (hoare_seq quiet quiet); [apply hoare_ping | intros _; apply hoare_ret].
  - unfold periodic. apply (hoare_seq quiet quiet); [apply hoare_get | intros s0]. apply hoare_with_arp. intros p Hp e. cbn.
    intros (o & Ho & Hin)%list_elem_of_fmap. destruct (expires _ o); [done|]. subst o. by apply Hp.
  - unfold set_config. hoare_steps. apply (hoare_seq quiet quiet); [apply hoare_with_arp; intros p Hp e; apply Hp | intros _; hoare_steps].
  - unfold update_ip. hoare_steps. apply hoare_with_arp. intros p Hp e. apply Hp.
  - unfold update_time. hoare_steps.
  - unfold bind_udp. apply (hoare_seq quiet quiet); [hoare_steps | intros _; apply hoare_ret].
  - unfold set_transmit_fn. hoare_steps.
Qed.

Lemma reachable_quiet (c : NetworkConfig) (s : NetworkStack) : stack_reachable c s -> quiet s.
Proof.
  induction 1 as [|s op s' _ IH E]; [|by eapply hoare_stack_apply]. split; [done|]. intros e He.
  by apply (elem_of_replicate_inv (Some e) ARP_CACHE_SIZE None) in He.
Qed.

(** in every state the stack can reach, sending a UDP datagram or a TCP segment
    to a host whose next hop is not in the ARP cache never returns: the request
    for the address asks for the ARP lock while the caller still holds it. *)
Theorem unresolved_send_never_returns (c : NetworkConfig) (s : NetworkStack) (dst src d : list Z) (sp dp : Z) :
  stack_reachable c s -> ip_is_broadcast dst = false ->
  (arp_resolve (ns_arp s) (next_hop s dst) (ns_time s)).1 = None ->
  send_udp sp dst dp d s = Spins /\ send_tcp src dst d s = Spins.
Proof.
  intros Hreach Hb Hr. pose proof (resolve_unresolved s dst (reachable_quiet c s Hreach) Hb Hr) as E.
  split; [unfold send_udp | unfold send_tcp]; unfold nbind at 1, nget; cbv zeta; unfold nbind at 1; by rewrite E.
Qed.

(** The default stack, after a reply taught it one address, and another one. *)
Definition taught : net unit :=
  do_ set_config (mkNetConfig [2; 0; 0; 0; 0; 1] (mkIpConfig [10; 0; 0; 1] [255; 255; 255; 0] [10; 0; 0; 254] None) true);
  do_ set_transmit_fn (fun _ => true);
  receive ([2; 0; 0; 0; 0; 1] ++ [2; 0; 0; 0; 0; 7] ++ [8; 6] ++ arp_init ArpReply (replicate 28 0) [2; 0; 0; 0; 0; 7] [10; 0; 0; 7] [2; 0; 0; 0; 0; 1] [10; 0; 0; 1]).

Definition taught_stack : NetworkStack :=
  match taught (stack_new NetworkConfig_default) with
  | Done _ s => s
  | _ => stack_new NetworkConfig_default
  end.

Lemma taught_reachable : stack_reachable NetworkConfig_default taught_stack.
Proof.
  eapply (sr_step _ _ (SReceive ([2; 0; 0; 0; 0; 1] ++ [2; 0; 0; 0; 0; 7] ++ [8; 6] ++ arp_init ArpReply (replicate 28 0) [2; 0; 0; 0; 0; 7] [10; 0; 0; 7] [2; 0; 0; 0; 0; 1] [10; 0; 0; 1])));
    [eapply (sr_step _ _ (STransmitFn (fun _ => true))); [eapply (sr_step _ _ (SSetConfig (mkNetConfig [2; 0; 0; 0; 0; 1] (mkIpConfig [10; 0; 0; 1] [255; 255; 255; 0] [10; 0; 0; 254] None) true))); [constructor | reflexivity] | reflexivity]|].
  vm_compute. reflexivity.
Qed.

Lemma unresolved_send_never_returns_witness :
  (stack_reachable NetworkConfig_default taught_stack /\ ip_is_broadcast [10; 0; 0; 9] = false /\
   (arp_resolve (ns_arp taught_stack) (next_hop taught_stack [10; 0; 0; 9]) (ns_time taught_stack)).1 = None) /\
  send_udp 1000 [10; 0; 0; 9] 53 [1; 2; 3] taught_stack = Spins /\ send_tcp [10; 0; 0; 1] [10; 0; 0; 9] [1; 2; 3] taught_stack = Spins.
Proof.
  assert (Hr : (arp_resolve (ns_arp taught_stack) (next_hop taught_stack [10; 0; 0; 9]) (ns_time taught_stack)).1 = None) by (vm_compute; reflexivity).
  split; [exact (conj taught_reachable (conj eq_refl Hr))|].
  exact (unresolved_send_never_returns NetworkConfig_default taught_stack [10; 0; 0; 9] [10; 0; 0; 1] [1; 2; 3] 1000 53 taught_reachable eq_refl Hr).
Defined.

(** The taught host resolves. *)
Definition resolved_stack : NetworkStack :=
  match resolve_mac [10; 0; 0; 7] (ns_config taught_stack) (ns_time taught_stack) taught_stack with
  | Done _ s => s
  | _ => taught_stack
  end.

Lemma taught_resolves : resolve_mac [10; 0; 0; 7] (ns_config taught_stack) (ns_time taught_stack) taught_stack = Done (Some [2; 0; 0; 0; 0; 7]) resolved_stack.
Proof. vm_compute. reflexivity. Qed.

Lemma send_tcp_reaches_peer_witness :
  exists frame s', send_tcp [10; 0; 0; 1] [10; 0; 0; 7] [1; 2; 3; 4] taught_stack = Done true s' /\ ns_sent s' = ns_sent resolved_stack ++ [frame] /\
    reaches frame [2; 0; 0; 0; 0; 7] [10; 0; 0; 7] (IpResTcp [1; 2; 3; 4] [10; 0; 0; 1] [10; 0; 0; 7]).
Proof.
  apply (send_tcp_reaches_peer taught_stack resolved_stack [10; 0; 0; 1] [10; 0; 0; 7] [1; 2; 3; 4] [2; 0; 0; 0; 0; 7] (fun _ => true)).
  1-4: reflexivity.
  1-3: repeat (constructor; [unfold is_byte; lia|]); constructor.
  - cbn. lia.
  - exact taught_resolves.
  - vm_compute. reflexivity.
  - done.
Defined.

Lemma send_udp_refused_by_peer_witness :
  exists frame pkt s', send_udp 1000 [10; 0; 0; 7] 53 [104; 105] taught_stack = Done true s' /\ ns_sent s' = ns_sent resolved_stack ++ [frame] /\
    reaches frame [2; 0; 0; 0; 0; 7] [10; 0; 0; 7] (IpResUdp pkt [10; 0; 0; 1] [10; 0; 0; 7]) /\ udp_payload pkt = Ret (take 1476 [104; 105]) /\
    udp_process udp_table_new pkt [10; 0; 0; 1] [10; 0; 0; 7] = Ret (ChecksumError, count_checksum_error udp_table_new).
Proof.
  apply (send_udp_refused_by_peer taught_stack resolved_stack [10; 0; 0; 7] [104; 105] [2; 0; 0; 0; 0; 7] 1000 53 (fun _ => true) udp_table_new).
  1-4: reflexivity.
  1-3: repeat (constructor; [unfold is_byte; lia|]); constructor.
  1-2: unfold is_u16; lia.
  - exact taught_resolves.
  - vm_compute. reflexivity.
  - done.
Defined.

(** ** The transmit pool *)

(** Every ping takes a buffer and none comes back: the 65th fails. *)
Lemma pings_exhaust_pool :
  let pings := repeat (SPing [10; 0; 0; 7] 1) 64 in
  let after := foldl (fun r op => match r with Done _ s => stack_apply op s | r => r end) (Done tt taught_stack) pings in
  match after with
  | Done _ s => match send_icmp_echo_request [10; 0; 0; 7] 65 s with Done r _ => r = Err tt | _ => False end
  | _ => False
  end.
Proof. vm_compute. reflexivity. Qed.
