(* ===== verification/Mempool.v ===== *)
(** * Packet buffers and the first TCP stream
    (src/src/net/mempool.rs and src/src/net/tcp.rs)

    Buffers live in a store under the addresses the allocator gave them; a
    [PacketRef] is an address.  The answers of the global allocator are an
    argument of [pool_init].  Wakers are task numbers. *)

From stdpp Require Import base list gmap.
From Stdlib Require Import ZArith Lia.
From S2P Require Import Prelude Paging NetBytes.

Local Open Scope Z_scope.

Module Mempool.

Definition DEFAULT_BUFFER_SIZE : nat := Z.to_nat 2048.

Record PacketBuffer := mkBuffer {
  data : list Z;
  len : nat;
  phys_addr : Z;
  pool_id : Z;
  buf_index : Z;
  ref_count : Z
}.

Definition with_len (b : PacketBuffer) (n : nat) : PacketBuffer :=
  mkBuffer (data b) n (phys_addr b) (pool_id b) (buf_index b) (ref_count b).
Definition with_refs (b : PacketBuffer) (r : Z) : PacketBuffer :=
  mkBuffer (data b) (len b) (phys_addr b) (pool_id b) (buf_index b) r.

(** [PacketBuffer::data] and [data_mut]: the bytes in use. *)
Definition buffer_data (b : PacketBuffer) : outcome (list Z) := slice (data b) 0 (len b).

Definition set_len (b : PacketBuffer) (n : nat) : PacketBuffer := with_len b (Nat.min n DEFAULT_BUFFER_SIZE).
Definition add_ref (b : PacketBuffer) : PacketBuffer := with_refs b (ref_count b +w 1).
(** [release]: whether the count was one. *)
Definition release (b : PacketBuffer) : bool * PacketBuffer := (ref_count b =? 1, with_refs b (ref_count b -w 1)).

Record Mempool := mkMempool {
  mp_id : Z;
  mp_store : gmap Z PacketBuffer;
  mp_buffers : list Z;
  mp_free : list Z;
  alloc_count : Z;
  free_count : Z;
  alloc_failed : Z
}.

Definition mempool_new (id : Z) : Mempool := mkMempool id ∅ [] [] 0 0 0.

Section Init.
Context `{P : X86Paging}.

(** One round of [init]: the allocator's answer is a pointer, which is taken as the physical
    address; [PhysAddr::new] panics when it is not one. *)
Definition init_one (m : Mempool) (i ptr : Z) : outcome Mempool :=
  let! a := phys_addr_new ptr in
  Ret (mkMempool (mp_id m) (<[ptr := mkBuffer (replicate DEFAULT_BUFFER_SIZE 0) 0 (phys_as_u64 a) (mp_id m) (wrap32 i) 0]> (mp_store m))
    (mp_buffers m ++ [ptr]) (mp_free m ++ [ptr]) (alloc_count m) (free_count m) (alloc_failed m)).

(** The pointer is 0 when the allocator failed. *)
Fixpoint pool_init_loop (m : Mempool) (i : Z) (ptrs : list Z) : outcome (bool * Mempool) :=
  match ptrs with
  | [] => Ret (true, m)
  | p :: ptrs' => if p =? 0 then Ret (false, m) else let! m' := init_one m i p in pool_init_loop m' (i + 1) ptrs'
  end.
Definition pool_init (m : Mempool) (ptrs : list Z) : outcome (bool * Mempool) := pool_init_loop m 0 ptrs.
End Init.

(** [alloc]: [pop] takes the last free buffer. *)
Definition mempool_alloc (m : Mempool) : option Z * Mempool :=
  match last (mp_free m) with
  | None => (None, m)
  | Some p =>
      let store := match mp_store m !! p with Some b => <[p := with_refs (with_len b 0) 1]> (mp_store m) | None => mp_store m end in
      (Some p, mkMempool (mp_id m) store (mp_buffers m) (removelast (mp_free m)) (alloc_count m +w 1) (free_count m) (alloc_failed m))
  end.

Definition return_buffer (m : Mempool) (p : Z) : Mempool :=
  mkMempool (mp_id m) (mp_store m) (mp_buffers m) (mp_free m ++ [p]) (alloc_count m) (free_count m +w 1) (alloc_failed m).

Definition with_store (m : Mempool) (s : gmap Z PacketBuffer) : Mempool :=
  mkMempool (mp_id m) s (mp_buffers m) (mp_free m) (alloc_count m) (free_count m) (alloc_failed m).

(** [PacketRef::clone_ref] and [drop] *)
Definition clone_ref (m : Mempool) (p : Z) : Mempool :=
  match mp_store m !! p with
  | Some b => with_store m (<[p := add_ref b]> (mp_store m))
  | None => m
  end.

Definition drop_ref (m : Mempool) (p : Z) : Mempool :=
  match mp_store m !! p with
  | Some b =>
      let '(last_one, b') := release b in
      let m' := with_store m (<[p := b']> (mp_store m)) in
      if last_one then return_buffer m' p else m'
  | None => m
  end.

(** [total - free] *)
Definition used_buffers (m : Mempool) : Z := Z.of_nat (length (mp_buffers m)) -w Z.of_nat (length (mp_free m)).

(** ** Per-core cache *)

Record PerCoreMempoolCache := mkPcCache { local_cache : list Z; cache_capacity : nat }.

Definition percore_alloc (c : PerCoreMempoolCache) (m : Mempool) : option Z * PerCoreMempoolCache * Mempool :=
  match last (local_cache c) with
  | Some p =>
      let store := match mp_store m !! p with Some b => <[p := with_refs (with_len b 0) 1]> (mp_store m) | None => mp_store m end in
      (Some p, mkPcCache (removelast (local_cache c)) (cache_capacity c), with_store m store)
  | None => let '(r, m') := mempool_alloc m in (r, c, m')
  end.

Definition percore_free (c : PerCoreMempoolCache) (m : Mempool) (p : Z) : PerCoreMempoolCache * Mempool :=
  if (length (local_cache c) <? cache_capacity c)%nat then (mkPcCache (local_cache c ++ [p]) (cache_capacity c), m)
  else (c, return_buffer m p).

End Mempool.

(** ** The TCP stream of tcp.rs *)

Module TcpStream.
Import Mempool.

Inductive TcpState :=
| Closed | Listen | SynSent | SynReceived | Established | FinWait1 | FinWait2 | CloseWait | Closing | LastAck | TimeWait.

#[export] Instance TcpState_eq_dec : EqDecision TcpState.
Proof. solve_decision. Defined.

Inductive TcpError :=
| ConnectionClosed | ConnectionRefused | ConnectionReset | Timeout | AddressInUse | BufferFull | InvalidState | NetworkUnreachable.

Record SocketAddr := mkAddr { sa_ip : list Z; sa_port : Z }.

Record TcpControlBlock := mkTcb {
  local_addr : SocketAddr;
  remote_addr : option SocketAddr;
  state : TcpState;
  snd_nxt : Z;
  snd_una : Z;
  snd_wnd : Z;
  rcv_nxt : Z;
  rcv_wnd : Z;
  send_buffer : list Z;
  recv_buffer : list Z;
  cwnd : Z;
  ssthresh : Z;
  read_waker : option Z;
  write_waker : option Z;
  connect_waker : option Z;
  bytes_sent : Z;
  bytes_received : Z;
  packets_sent : Z
}.

Definition tcb_new (a : SocketAddr) : TcpControlBlock :=
  mkTcb a None Closed 0 0 65535 0 65535 [] [] (10 * 1460) 65535 None None None 0 0 0.

Definition has_data (t : TcpControlBlock) : bool := match recv_buffer t with [] => false | _ => true end.
Definition can_send (t : TcpControlBlock) : bool :=
  bool_decide (state t = Established) && (wrap32 (Z.of_nat (length (send_buffer t))) <? cwnd t).

Inductive poll (A : Type) := Ready (a : A) | Pending.
Arguments Ready {A} a.
Arguments Pending {A}.

Section Setters.

Variable t : TcpControlBlock.

Definition set_state (s : TcpState) : TcpControlBlock :=
  mkTcb (local_addr t) (remote_addr t) s (snd_nxt t) (snd_una t) (snd_wnd t) (rcv_nxt t) (rcv_wnd t) (send_buffer t) (recv_buffer t)
    (cwnd t) (ssthresh t) (read_waker t) (write_waker t) (connect_waker t) (bytes_sent t) (bytes_received t) (packets_sent t).
Definition set_read_waker (w : Z) : TcpControlBlock :=
  mkTcb (local_addr t) (remote_addr t) (state t) (snd_nxt t) (snd_una t) (snd_wnd t) (rcv_nxt t) (rcv_wnd t) (send_buffer t) (recv_buffer t)
    (cwnd t) (ssthresh t) (Some w) (write_waker t) (connect_waker t) (bytes_sent t) (bytes_received t) (packets_sent t).
Definition set_write_waker (w : Z) : TcpControlBlock :=
  mkTcb (local_addr t) (remote_addr t) (state t) (snd_nxt t) (snd_una t) (snd_wnd t) (rcv_nxt t) (rcv_wnd t) (send_buffer t) (recv_buffer t)
    (cwnd t) (ssthresh t) (read_waker t) (Some w) (connect_waker t) (bytes_sent t) (bytes_received t) (packets_sent t).
Definition set_connect_waker (w : Z) : TcpControlBlock :=
  mkTcb (local_addr t) (remote_addr t) (state t) (snd_nxt t) (snd_una t) (snd_wnd t) (rcv_nxt t) (rcv_wnd t) (send_buffer t) (recv_buffer t)
    (cwnd t) (ssthresh t) (read_waker t) (write_waker t) (Some w) (bytes_sent t) (bytes_received t) (packets_sent t).
Definition pop_recv (rest : list Z) (n : Z) : TcpControlBlock :=
  mkTcb (local_addr t) (remote_addr t) (state t) (snd_nxt t) (snd_una t) (snd_wnd t) (rcv_nxt t) (rcv_wnd t) (send_buffer t) rest
    (cwnd t) (ssthresh t) (read_waker t) (write_waker t) (connect_waker t) (bytes_sent t) (bytes_received t +w n) (packets_sent t).
Definition push_send (p n : Z) : TcpControlBlock :=
  mkTcb (local_addr t) (remote_addr t) (state t) (snd_nxt t) (snd_una t) (snd_wnd t) (rcv_nxt t) (rcv_wnd t) (send_buffer t ++ [p]) (recv_buffer t)
    (cwnd t) (ssthresh t) (read_waker t) (write_waker t) (connect_waker t) (bytes_sent t +w n) (bytes_received t) (packets_sent t +w 1).
Definition set_syn (addr : SocketAddr) (seq : Z) : TcpControlBlock :=
  mkTcb (local_addr t) (Some addr) SynSent seq (snd_una t) (snd_wnd t) (rcv_nxt t) (rcv_wnd t) (send_buffer t) (recv_buffer t)
    (cwnd t) (ssthresh t) (read_waker t) (write_waker t) (connect_waker t) (bytes_sent t) (bytes_received t) (packets_sent t).

End Setters.

(** The part of [connect] before the wait, with the two static counters. *)
Definition allocate_ephemeral_port (next : Z) : Z * Z := (next, if next >=? 65535 then 49152 else wrap16 (next + 1)).
Definition generate_initial_seq (counter : Z) : Z * Z := (counter, wrap32 (counter + 64000)).

Definition connect_start (ports seqs : Z) (addr : SocketAddr) : TcpControlBlock * Z * Z :=
  let '(port, ports') := allocate_ephemeral_port ports in
  let '(seq, seqs') := generate_initial_seq seqs in
  (set_syn (tcb_new (mkAddr [0; 0; 0; 0] port)) addr seq, ports', seqs').

(** [ConnectFuture::poll] by task [w] *)
Definition connect_poll (t : TcpControlBlock) (w : Z) : poll (result unit TcpError) * TcpControlBlock :=
  match state t with
  | Established => (Ready (Ok tt), t)
  | Closed => (Ready (Err ConnectionRefused), t)
  | SynSent | SynReceived => (Pending, set_connect_waker t w)
  | _ => (Ready (Err InvalidState), t)
  end.

(** [poll_read]: the bytes copied.  The packet is dropped at the end. *)
Definition poll_read (m : Mempool) (t : TcpControlBlock) (w : Z) (buf_len : nat) :
    outcome (poll (result (list Z) TcpError) * TcpControlBlock * Mempool) :=
  if bool_decide (state t = Closed) then Ret (Ready (Err ConnectionClosed), t, m)
  else
    match recv_buffer t with
    | p :: rest =>
        match mp_store m !! p with
        | Some b =>
            let! d := buffer_data b in
            let n := Nat.min (length d) buf_len in
            Ret (Ready (Ok (take n d)), pop_recv t rest (Z.of_nat n), drop_ref m p)
        | None => Panic
        end
    | [] => Ret (Pending, set_read_waker t w, m)
    end.

(** [poll_write]: [packet.data_mut()[..len]] is bounds checked against the
    length in use, which [alloc] has set to zero. *)
Definition poll_write (m : Mempool) (t : TcpControlBlock) (w : Z) (buf : list Z) :
    outcome (poll (result nat TcpError) * TcpControlBlock * Mempool) :=
  if negb (bool_decide (state t = Established)) then Ret (Ready (Err InvalidState), t, m)
  else if negb (can_send t) then Ret (Pending, set_write_waker t w, m)
  else
    match mempool_alloc m with
    | (Some p, m') =>
        let n := Nat.min (length buf) (Z.to_nat 1460) in
        match mp_store m' !! p with
        | Some b =>
            let! whole := buffer_data b in
            let! dst := slice whole 0 n in
            let b' := mkBuffer (put (data b) 0 (take n buf)) (len b) (phys_addr b) (pool_id b) (buf_index b) (ref_count b) in
            Ret (Ready (Ok n), push_send t p (Z.of_nat n), with_store m' (<[p := set_len b' n]> (mp_store m')))
        | None => Panic
        end
    | (None, m') => Ret (Pending, set_write_waker t w, m')
    end.

Definition poll_shutdown (t : TcpControlBlock) : result unit TcpError * TcpControlBlock :=
  match state t with
  | Established => (Ok tt, set_state t FinWait1)
  | CloseWait => (Ok tt, set_state t LastAck)
  | _ => (Err InvalidState, t)
  end.

End TcpStream.
