(* ===== verification/MempoolTheorems.v ===== *)
(** * Packet buffers are counted exactly *)

From stdpp Require Import base list gmap sets.
From Stdlib Require Import ZArith Lia.
From S2P Require Import Prelude Paging NetBytes Mempool Ipv4Theorems TransportTheorems.

Local Open Scope Z_scope.

Import Mempool.

(** ** Clients hold references *)

(** The operations of the owners of references: an owner can only clone or drop
    a reference it has. *)
Inductive pool_op := OpAlloc | OpClone (p : Z) | OpDrop (p : Z).

Fixpoint remove_one (p : Z) (l : list Z) : list Z :=
  match l with
  | [] => []
  | x :: l' => if x =? p then l' else x :: remove_one p l'
  end.

Definition pool_apply (s : Mempool * list Z) (op : pool_op) : Mempool * list Z :=
  let '(m, held) := s in
  match op with
  | OpAlloc => let '(r, m') := mempool_alloc m in (m', match r with Some p => held ++ [p] | None => held end)
  | OpClone p => if bool_decide (p ∈ held) then (clone_ref m p, held ++ [p]) else s
  | OpDrop p => if bool_decide (p ∈ held) then (drop_ref m p, remove_one p held) else s
  end.

(** How often a buffer is referenced. *)
Definition refs (p : Z) (held : list Z) : Z := Z.of_nat (length (filter (fun q => q = p) held)).

Record pool_inv (m : Mempool) (held : list Z) : Prop := {
  pi_nodup : NoDup (mp_free m);
  pi_known : forall p, p ∈ mp_free m \/ p ∈ held -> is_Some (mp_store m !! p);
  pi_disjoint : forall p, p ∈ mp_free m -> p ∉ held;
  pi_count : forall p b, mp_store m !! p = Some b -> p ∈ held -> ref_count b = refs p held;
  pi_total : forall p, is_Some (mp_store m !! p) -> p ∈ mp_free m \/ p ∈ held;
  pi_buffers : forall p, p ∈ mp_buffers m <-> is_Some (mp_store m !! p)
}.

Lemma refs_app (p : Z) (a b : list Z) : refs p (a ++ b) = refs p a + refs p b.
Proof. unfold refs. rewrite filter_app, length_app. lia. Qed.

Lemma refs_self (p : Z) : refs p [p] = 1.
Proof. unfold refs. rewrite filter_cons, decide_True by done. done. Qed.

Lemma refs_other (p q : Z) : p <> q -> refs p [q] = 0.
Proof. intros H. unfold refs. rewrite filter_cons, decide_False by congruence. done. Qed.

Lemma refs_absent (p : Z) (l : list Z) : p ∉ l -> refs p l = 0.
Proof.
  induction l as [|x l IH]; intros H; [done|]. apply not_elem_of_cons in H as [H1 H2]. change (x :: l) with ([x] ++ l).
  rewrite refs_app, refs_other, IH by done. lia.
Qed.

Lemma refs_present (p : Z) (l : list Z) : p ∈ l -> 1 <= refs p l.
Proof.
  intros H. apply list_elem_of_split in H as (l1 & l2 & ->). change (p :: l2) with ([p] ++ l2). rewrite !refs_app, refs_self.
  assert (0 <= refs p l1 /\ 0 <= refs p l2) by (unfold refs; lia). lia.
Qed.

Lemma refs_length (p : Z) (l : list Z) : refs p l <= Z.of_nat (length l).
Proof. unfold refs. pose proof (length_filter (fun q => q = p) l). lia. Qed.

Lemma remove_one_refs (p q : Z) (l : list Z) : p ∈ l -> refs q (remove_one p l) = refs q l - (if decide (q = p) then 1 else 0).
Proof.
  induction l as [|x l IH]; intros H; [by apply elem_of_nil in H|]. cbn [remove_one]. replace (refs q (x :: l)) with (refs q [x] + refs q l) by (by rewrite <- refs_app).
  destruct (Z.eqb_spec x p) as [->|Hne].
  - destruct (decide (q = p)) as [->|]; [rewrite refs_self | rewrite refs_other by done]; lia.
  - apply elem_of_cons in H as [->|H]; [done|]. change (x :: remove_one p l) with ([x] ++ remove_one p l). rewrite refs_app, IH by done. lia.
Qed.

Lemma refs_elem (p : Z) (l : list Z) : p ∈ l <-> 1 <= refs p l.
Proof. split; [apply refs_present|]. intros H. destruct (decide (p ∈ l)) as [|Hn]; [done|]. rewrite refs_absent in H by done. lia. Qed.

Lemma remove_one_length (p : Z) (l : list Z) : (length (remove_one p l) <= length l)%nat.
Proof. induction l as [|x l IH]; [done|]. cbn. destruct (x =? p); cbn; lia. Qed.

Lemma last_split (l : list Z) (p : Z) : last l = Some p -> l = removelast l ++ [p].
Proof. intros H. apply last_Some in H as [l' ->]. by rewrite removelast_last. Qed.

(** Freshly allocated buffers are nobody else's. *)
Lemma alloc_inv (m : Mempool) (held : list Z) :
  pool_inv m held -> let '(m', held') := pool_apply (m, held) OpAlloc in pool_inv m' held' /\
  forall p, (mempool_alloc m).1 = Some p -> (p ∉ held) /\ exists b, mp_store m' !! p = Some b /\ ref_count b = 1 /\ len b = 0%nat.
Proof.
  intros [H1 H2 H3 H4 H5 H6]. cbn [pool_apply]. unfold mempool_alloc. destruct (last (mp_free m)) as [p|] eqn:El; [|by split].
  apply last_split in El. set (fr := removelast (mp_free m)) in *.
  assert (Hp : p ∈ mp_free m) by (rewrite El; apply elem_of_app; right; by apply list_elem_of_singleton).
  destruct (H2 p (or_introl Hp)) as [b Hb]. rewrite Hb. rewrite El in H1. apply NoDup_app in H1 as (N1 & N2 & _).
  assert (Hpf : p ∉ fr) by (intros Hf; apply (N2 p Hf), list_elem_of_singleton; done).
  assert (Hfr : forall q, q ∈ fr -> q ∈ mp_free m) by (intros q Hq; rewrite El; apply elem_of_app; by left).
  split.
  - split; cbn [mp_free mp_store mp_buffers].
    + done.
    + intros q Hq. destruct (decide (q = p)) as [->|Hne]; [rewrite lookup_insert_eq; by eexists|]. rewrite lookup_insert_ne by done. apply H2.
      destruct Hq as [Hq|[Hq|Hq]%elem_of_app]; [left; by apply Hfr | by right | apply list_elem_of_singleton in Hq; done].
    + intros q Hq [Hh|Hh%list_elem_of_singleton]%elem_of_app; [by apply (H3 q (Hfr q Hq)) | subst; done].
    + intros q b' Hb' Hq. destruct (decide (q = p)) as [->|Hne].
      * rewrite lookup_insert_eq in Hb'. injection Hb' as <-. rewrite refs_app, refs_self, refs_absent by (by apply H3). done.
      * rewrite lookup_insert_ne in Hb' by done. rewrite refs_app, refs_other by done. apply elem_of_app in Hq as [Hq|Hq%list_elem_of_singleton]; [|done].
        rewrite (H4 q b' Hb' Hq). lia.
    + intros q Hq. destruct (decide (q = p)) as [->|Hne]; [right; apply elem_of_app; right; by apply list_elem_of_singleton|].
      rewrite lookup_insert_ne in Hq by done. destruct (H5 q Hq) as [Hf|Hh]; [|right; apply elem_of_app; by left].
      rewrite El in Hf. apply elem_of_app in Hf as [Hf|Hf%list_elem_of_singleton]; [by left | done].
    + intros q. rewrite H6. destruct (decide (q = p)) as [->|Hne]; [rewrite lookup_insert_eq, Hb; split; by eexists|]. by rewrite lookup_insert_ne.
  - intros q [= <-]. split; [by apply H3|]. cbn [mp_store]. rewrite lookup_insert_eq. by eexists.
Qed.

(** A new count for one buffer, and other holders. *)
Lemma update_inv (m : Mempool) (held held' : list Z) (p : Z) (b b' : PacketBuffer) :
  pool_inv m held -> mp_store m !! p = Some b -> p ∈ held -> p ∈ held' -> ref_count b' = refs p held' ->
  (forall q, q <> p -> refs q held' = refs q held) -> pool_inv (with_store m (<[p := b']> (mp_store m))) held'.
Proof.
  intros [H1 H2 H3 H4 H5 H6] Hb Hp Hp' Hc Hq.
  assert (Hin : forall q, q <> p -> q ∈ held' <-> q ∈ held) by (intros q Hne; rewrite !refs_elem, Hq by done; done).
  split; cbn [with_store mp_free mp_store mp_buffers].
  - done.
  - intros q Hq'. destruct (decide (q = p)) as [->|Hne]; [rewrite lookup_insert_eq; by eexists|]. rewrite lookup_insert_ne by done. apply H2.
    destruct Hq' as [|Hh]; [by left | right; by apply Hin].
  - intros q Hf Hh. destruct (decide (q = p)) as [->|Hne]; [by apply (H3 p)|]. apply (H3 q Hf). by apply Hin.
  - intros q b0 Hb0 Hh. destruct (decide (q = p)) as [->|Hne]; [rewrite lookup_insert_eq in Hb0; by injection Hb0 as <-|].
    rewrite lookup_insert_ne in Hb0 by done. rewrite Hq by done. apply H4; [done | by apply Hin].
  - intros q Hs. destruct (decide (q = p)) as [->|Hne]; [by right|]. rewrite lookup_insert_ne in Hs by done.
    destruct (H5 q Hs) as [|Hh]; [by left | right; by apply Hin].
  - intros q. rewrite H6. destruct (decide (q = p)) as [->|Hne]; [rewrite lookup_insert_eq, Hb; split; by eexists|]. by rewrite lookup_insert_ne.
Qed.

Lemma clone_inv (m : Mempool) (held : list Z) (p : Z) :
  pool_inv m held -> Z.of_nat (length held) < 2 ^ 64 - 1 -> let '(m', held') := pool_apply (m, held) (OpClone p) in pool_inv m' held'.
Proof.
  intros Hi Hl. cbn [pool_apply]. case_bool_decide as Hp; [|done]. pose proof Hi as [H1 H2 H3 H4 H5 H6]. unfold clone_ref.
  destruct (H2 p (or_intror Hp)) as [b Hb]. rewrite Hb. apply (update_inv m held _ p b); try done.
  - apply elem_of_app. by left.
  - cbn [add_ref with_refs ref_count]. rewrite (H4 p b Hb Hp), refs_app, refs_self. apply wrap64_small.
    pose proof (refs_length p held). pose proof (refs_present p held Hp). unfold is_u64, u64_modulus. lia.
  - intros q Hne. rewrite refs_app, refs_other by done. lia.
Qed.

Lemma drop_inv (m : Mempool) (held : list Z) (p : Z) :
  pool_inv m held -> Z.of_nat (length held) < 2 ^ 64 - 1 -> let '(m', held') := pool_apply (m, held) (OpDrop p) in pool_inv m' held'.
Proof.
  intros Hi Hl. cbn [pool_apply]. case_bool_decide as Hp; [|done]. pose proof Hi as [H1 H2 H3 H4 H5 H6]. unfold drop_ref.
  destruct (H2 p (or_intror Hp)) as [b Hb]. rewrite Hb. unfold release. rewrite (H4 p b Hb Hp).
  pose proof (refs_length p held). pose proof (refs_present p held Hp).
  assert (Hw : refs p held -w 1 = refs p held - 1) by (apply wrap64_small; unfold is_u64, u64_modulus; lia). rewrite Hw.
  destruct (Z.eqb_spec (refs p held) 1) as [E1|E1].
  - assert (Hgone : p ∉ remove_one p held) by (rewrite refs_elem, remove_one_refs, decide_True by done; lia).
    assert (Hin : forall q, q <> p -> q ∈ remove_one p held <-> q ∈ held) by (intros q Hne; rewrite !refs_elem, remove_one_refs, decide_False by done; lia).
    split; cbn [return_buffer with_store mp_free mp_store mp_buffers].
    + apply NoDup_app. split; [done|]. split; [|apply NoDup_singleton]. intros q Hq ->%list_elem_of_singleton. by apply (H3 p).
    + intros q Hq. destruct (decide (q = p)) as [->|Hne]; [rewrite lookup_insert_eq; by eexists|]. rewrite lookup_insert_ne by done. apply H2.
      destruct Hq as [[Hq|Hq%list_elem_of_singleton]%elem_of_app|Hq]; [by left | done | right; by apply Hin].
    + intros q [Hq| ->%list_elem_of_singleton]%elem_of_app; [|done]. destruct (decide (q = p)) as [->|Hne]; [done|]. rewrite Hin by done. by apply H3.
    + intros q b0 Hb0 Hh. destruct (decide (q = p)) as [->|Hne]; [done|]. rewrite lookup_insert_ne in Hb0 by done.
      rewrite remove_one_refs, decide_False by done. rewrite Z.sub_0_r. apply H4; [done | by apply Hin].
    + intros q Hs. destruct (decide (q = p)) as [->|Hne]; [left; apply elem_of_app; right; by apply list_elem_of_singleton|].
      rewrite lookup_insert_ne in Hs by done. destruct (H5 q Hs) as [|Hh]; [left; apply elem_of_app; by left | right; by apply Hin].
    + intros q. rewrite H6. destruct (decide (q = p)) as [->|Hne]; [rewrite lookup_insert_eq, Hb; split; by eexists|]. by rewrite lookup_insert_ne.
  - apply (update_inv m held _ p b); try done.
    + rewrite refs_elem, remove_one_refs, decide_True by done. lia.
    + cbn [with_refs ref_count]. rewrite remove_one_refs, decide_True by done. done.
    + intros q Hne. rewrite remove_one_refs, decide_False by done. lia.
Qed.

Section InitSpec.
Context `{P : X86Paging}.

(** Initialisation with distinct addresses. *)
Lemma init_inv (m : Mempool) (i : Z) (ptrs : list Z) ok m0 :
  pool_inv m [] -> NoDup ptrs -> (forall p, p ∈ ptrs -> p ∉ mp_buffers m) -> pool_init_loop m i ptrs = Ret (ok, m0) -> pool_inv m0 [].
Proof.
  revert m i. induction ptrs as [|p ptrs IH]; intros m i Hi Hn Hd; cbn [pool_init_loop]; [by intros [= _ <-]|].
  destruct (p =? 0); [by intros [= _ <-]|]. unfold init_one. destruct (phys_addr_new p) as [a|]; cbn [obind]; [|done]. apply NoDup_cons in Hn as [Hp Hn].
  assert (Hnew : p ∉ mp_buffers m) by (apply Hd; by left). destruct Hi as [H1 H2 H3 H4 H5 H6].
  assert (Hnone : mp_store m !! p = None).
  { destruct (mp_store m !! p) as [b|] eqn:E; [|done]. exfalso. apply Hnew, H6. rewrite E. by eexists. }
  apply IH; [|done|].
  - split; cbn [mp_free mp_store mp_buffers].
    + apply NoDup_app. split; [done|]. split; [|apply NoDup_singleton]. intros q Hq ->%list_elem_of_singleton.
      destruct (H2 p (or_introl Hq)) as [b Hb]. congruence.
    + intros q [[Hq| ->%list_elem_of_singleton]%elem_of_app|Hq%elem_of_nil]; [|rewrite lookup_insert_eq; by eexists|done].
      destruct (decide (q = p)) as [->|Hne]; [rewrite lookup_insert_eq; by eexists|]. rewrite lookup_insert_ne by done. apply H2. by left.
    + intros q _. apply not_elem_of_nil.
    + intros q b _ Hq%elem_of_nil. done.
    + intros q Hs. left. apply elem_of_app. destruct (decide (q = p)) as [->|Hne]; [right; by apply list_elem_of_singleton|].
      rewrite lookup_insert_ne in Hs by done. destruct (H5 q Hs) as [|Hq%elem_of_nil]; [by left | done].
    + intros q. rewrite elem_of_app, list_elem_of_singleton, H6. destruct (decide (q = p)) as [->|Hne].
      * rewrite lookup_insert_eq. split; [by eexists | by right].
      * rewrite lookup_insert_ne by done. tauto.
  - intros q Hq [Hin| ->%list_elem_of_singleton]%elem_of_app; [|done]. apply (Hd q); [by right | done].
Qed.

(** Initialisation returns when the allocator answers with addresses below 2^52, and panics
    at the first other one. *)
Lemma init_returns `{L : !X86PagingLaws} (ptrs : list Z) : forall m i, Forall (fun p => 0 <= p < PHYS_ADDR_LIMIT) ptrs ->
  exists m0, pool_init_loop m i ptrs = Ret (forallb (fun p => negb (p =? 0)) ptrs, m0).
Proof.
  induction ptrs as [|p ptrs IH]; intros m i Hf; [by exists m|]. apply Forall_cons in Hf as [Hp Hf]. cbn [pool_init_loop forallb]. destruct (p =? 0); [by exists m|].
  unfold init_one. destruct (phys_addr_new_ok p Hp) as (a & -> & _). cbn [obind negb andb]. by apply IH.
Qed.

Lemma init_panics `{L : !X86PagingLaws} (ptrs : list Z) p rest : forall m i, Forall (fun q => 0 < q < PHYS_ADDR_LIMIT) ptrs -> PHYS_ADDR_LIMIT <= p ->
  pool_init_loop m i (ptrs ++ p :: rest) = Panic.
Proof.
  induction ptrs as [|q ptrs IH]; intros m i Hf Hp; cbn [app pool_init_loop].
  - rewrite (proj2 (Z.eqb_neq p 0)) by (unfold PHYS_ADDR_LIMIT in Hp; lia). unfold init_one. by rewrite phys_addr_new_panics.
  - apply Forall_cons in Hf as [Hq Hf]. rewrite (proj2 (Z.eqb_neq q 0)) by lia. unfold init_one. destruct (phys_addr_new_ok q) as (a & -> & _); [lia|]. cbn [obind]. by apply IH.
Qed.

(** The global allocator hands out virtual addresses of the linear mapping: the pool cannot
    be initialised with them. *)
Lemma heap_pointers_panic `{L : !X86PagingLaws} (m : Mempool) (off : Z) (ptrs : list Z) :
  0 <= off -> pool_init m (PHYSICAL_MEMORY_OFFSET + off :: ptrs) = Panic.
Proof. intros Ho. apply (init_panics []); [apply Forall_nil_2 | unfold PHYS_ADDR_LIMIT, PHYSICAL_MEMORY_OFFSET; lia]. Qed.

End InitSpec.

Lemma new_inv (id : Z) : pool_inv (mempool_new id) [].
Proof.
  split; cbn [mempool_new mp_free mp_store mp_buffers].
  - apply NoDup_nil_2.
  - intros p [H|H]; by apply elem_of_nil in H.
  - intros p H. by apply elem_of_nil in H.
  - intros p b _ H. by apply elem_of_nil in H.
  - intros p [b Hb]. by rewrite lookup_empty in Hb.
  - intros p. split; [intros H; by apply elem_of_nil in H | intros [b Hb]; by rewrite lookup_empty in Hb].
Qed.

Lemma held_length (s : Mempool * list Z) (op : pool_op) : (length (pool_apply s op).2 <= length s.2 + 1)%nat.
Proof.
  destruct s as [m held], op as [|p|p]; cbn [pool_apply].
  - destruct (mempool_alloc m) as [[p|] m']; cbn [snd]; rewrite ?length_app; cbn; lia.
  - case_bool_decide; cbn [snd]; rewrite ?length_app; cbn; lia.
  - case_bool_decide; cbn [snd]; [pose proof (remove_one_length p held)|]; lia.
Qed.

Lemma pool_run_inv (ops : list pool_op) (s : Mempool * list Z) :
  pool_inv s.1 s.2 -> Z.of_nat (length s.2 + length ops) < 2 ^ 64 - 1 ->
  pool_inv (foldl pool_apply s ops).1 (foldl pool_apply s ops).2.
Proof.
  revert s. induction ops as [|op ops IH]; intros [m held] Hi Hl; [done|]. cbn [foldl length] in *. pose proof (held_length (m, held) op) as Hlen.
  assert (Hstep : pool_inv (pool_apply (m, held) op).1 (pool_apply (m, held) op).2).
  { cbn [fst snd] in *. destruct op as [|p|p].
    - pose proof (alloc_inv m held Hi) as H. destruct (pool_apply (m, held) OpAlloc). apply H.
    - pose proof (clone_inv m held p Hi ltac:(lia)) as H. by destruct (pool_apply (m, held) (OpClone p)).
    - pose proof (drop_inv m held p Hi ltac:(lia)) as H. by destruct (pool_apply (m, held) (OpDrop p)). }
  apply IH; [done|]. cbn [snd] in *. lia.
Qed.

(** C25: packet buffers are never shared by accident and never lost: after a pool
    was initialised and any allocations, clones and drops of references took
    place, every buffer is either free, once, or referenced, with a count equal
    to the number of references to it; and a buffer handed out next is free, with
    one reference and no data. *)
Theorem packet_buffers_exact `{P : X86Paging} (id : Z) (ptrs : list Z) (ops : list pool_op) (ok : bool) (m0 : Mempool) :
  NoDup ptrs -> Z.of_nat (length ops) < 2 ^ 64 - 1 -> pool_init (mempool_new id) ptrs = Ret (ok, m0) ->
  let '(m, held) := foldl pool_apply (m0, []) ops in
  (forall p b, mp_store m !! p = Some b ->
     (p ∈ mp_free m /\ (p ∉ held)) \/ (p ∈ held /\ (p ∉ mp_free m) /\ ref_count b = refs p held)) /\
  NoDup (mp_free m) /\ length (mp_buffers m) = length (mp_buffers m0) /\
  forall p m', mempool_alloc m = (Some p, m') -> (p ∉ held) /\ exists b, mp_store m' !! p = Some b /\ ref_count b = 1 /\ len b = 0%nat.
Proof.
  intros Hn Hl Hinit. assert (H0 : pool_inv m0 []) by (apply (init_inv (mempool_new id) 0 ptrs ok); [apply new_inv | done | intros p _; apply not_elem_of_nil | done]).
  pose proof (pool_run_inv ops (m0, []) H0 Hl) as Hi.
  assert (Hb : forall s, mp_buffers (foldl pool_apply s ops).1 = mp_buffers s.1).
  { clear Hl Hi. induction ops as [|op ops IH]; intros [m held]; [done|]. cbn [foldl]. rewrite IH. destruct op as [|p|p]; cbn [pool_apply].
    - unfold mempool_alloc. by destruct (last (mp_free m)).
    - case_bool_decide; [|done]. unfold clone_ref. cbn. by destruct (mp_store m !! p).
    - case_bool_decide; [|done]. unfold drop_ref. destruct (mp_store m !! p); [|done]. unfold release. by destruct (_ =? 1). }
  specialize (Hb (m0, [])). destruct (foldl pool_apply _ ops) as [m held]. cbn [fst snd] in *.
  split; [|split; [apply Hi|split; [by rewrite Hb|]]].
  - intros p b Hp. pose proof Hi as [H1 H2 H3 H4 H5 H6]. destruct (H5 p ltac:(by eexists)) as [Hf|Hh].
    + left. split; [done | by apply H3].
    + right. split; [done|]. split; [intros Hf; by apply (H3 p) | by apply H4].
  - intros p m' E. pose proof (alloc_inv m held Hi) as H. cbn [pool_apply] in H. rewrite E in H. destruct H as [_ H]. by apply H.
Qed.

(** The pool of the concrete runs *)
Definition pool_with (ptrs : list Z) : Mempool := match pool_init (mempool_new 0) ptrs with Ret (_, m) => m | Panic => mempool_new 0 end.

Lemma packet_buffers_exact_witness :
  let ops := [OpAlloc; OpClone 8192; OpDrop 8192; OpDrop 8192; OpAlloc] in
  NoDup [4096; 8192] /\ Z.of_nat (length ops) < 2 ^ 64 - 1 /\ pool_init (mempool_new 0) [4096; 8192] = Ret (true, pool_with [4096; 8192]) /\
  let '(m, held) := foldl pool_apply (pool_with [4096; 8192], []) ops in
  held = [8192] /\ mp_free m = [4096] /\ NoDup (mp_free m).
Proof.
  intros ops. assert (Hn : NoDup [4096; 8192]) by (apply (bool_decide_unpack _); vm_compute; exact I).
  assert (Hi : pool_init (mempool_new 0) [4096; 8192] = Ret (true, pool_with [4096; 8192])) by (vm_compute; reflexivity).
  split; [exact Hn|]. split; [cbn; lia|]. split; [exact Hi|].
  pose proof (packet_buffers_exact 0 [4096; 8192] ops true (pool_with [4096; 8192]) Hn ltac:(cbn; lia) Hi) as H.
  assert (Hc : let '(m, held) := foldl pool_apply (pool_with [4096; 8192], []) ops in held = [8192] /\ mp_free m = [4096]) by (vm_compute; split; reflexivity).
  destruct (foldl pool_apply _ _) as [m held]. destruct Hc as [-> Hf]. split; [reflexivity|]. split; [exact Hf | apply H].
Defined.

(** ** The TCP stream *)

Module StreamTheorems.
Import TcpStream.

(** on an established connection that may send, with a buffer in the pool,
    writing any byte panics: the packet is copied into a slice of length zero. *)
Theorem poll_write_panics (m : Mempool) (t : TcpControlBlock) (w : Z) (buf held : list Z) :
  pool_inv m held -> can_send t = true -> mp_free m <> [] -> buf <> [] -> poll_write m t w buf = Panic.
Proof.
  intros Hi Hc Hf Hb. unfold poll_write. pose proof Hc as Hc'. unfold can_send in Hc'. apply andb_true_iff in Hc' as [-> _]. rewrite Hc. cbn [negb].
  pose proof (alloc_inv m held Hi) as Ha. cbn [pool_apply] in Ha. unfold mempool_alloc in *.
  destruct (last (mp_free m)) as [p|] eqn:El; [|by apply last_None in El]. destruct Ha as [_ Ha]. cbn [fst] in Ha.
  destruct (Ha p eq_refl) as (_ & b & Hb' & _ & Hlen). cbn [mp_store] in Hb'. cbn [mp_store]. rewrite Hb'.
  unfold buffer_data. rewrite Hlen. rewrite slice_prefix by lia. cbn [obind take]. unfold slice. destruct buf as [|x buf]; [done|].
  destruct (Nat.min (length (x :: buf)) (Z.to_nat 1460)) as [|n] eqn:E; [cbn [length] in E; lia|]. reflexivity.
Qed.

Lemma poll_write_panics_witness :
  let m := pool_with [4096] in
  let t := set_state (tcb_new (mkAddr [10; 0; 0; 1] 80)) Established in
  (pool_inv m [] /\ can_send t = true /\ mp_free m <> [] /\ [1] <> []) /\ poll_write m t 1 [1] = Panic.
Proof.
  cbv zeta. assert (Hn : NoDup [4096]) by apply NoDup_singleton.
  assert (Hi : pool_inv (pool_with [4096]) []) by (apply (init_inv (mempool_new 0) 0 [4096] true); [apply new_inv | exact Hn | intros p _; apply not_elem_of_nil | reflexivity]).
  split; [split; [exact Hi|]; split; [reflexivity|]; split; discriminate|].
  apply (poll_write_panics _ (set_state (tcb_new (mkAddr [10; 0; 0; 1] 80)) Established) 1 [1] [] Hi); [reflexivity | discriminate | discriminate].
Defined.

(** A read into a short buffer loses the rest of the packet. *)
Lemma short_read_loses_data :
  let b := mkBuffer [1; 2; 3; 4] 4 0 0 0 1 in
  let m := mkMempool 0 {[7 := b]} [7] [] 0 0 0 in
  let t := set_state (tcb_new (mkAddr [10; 0; 0; 1] 80)) Established in
  let t := mkTcb (local_addr t) None Established 0 0 65535 0 65535 [] [7] 14600 65535 None None None 0 0 0 in
  match poll_read m t 1 2 with
  | Ret (Ready (Ok got), t', _) => got = [1; 2] /\ recv_buffer t' = []
  | _ => False
  end.
Proof. vm_compute. split; reflexivity. Qed.

End StreamTheorems.
