(* ===== verification/TcpWindow.v ===== *)
(** * Windows of a TCP connection
    (src/src/net/endpoint/window_scale.rs, congestion.rs and flow_control.rs)

    The scale option with its parser and builder, the congestion window and the
    receive window.  Fields are 32-bit unless said otherwise. *)

From stdpp Require Import base list.
From Stdlib Require Import ZArith Lia.
From S2P Require Import Prelude NetBytes.

Local Open Scope Z_scope.

(** [u32::saturating_add], [saturating_sub], and [u8::saturating_add]. *)
Definition sat_add32 (a b : Z) : Z := Z.min u32_max (a + b).
Definition sat_sub (a b : Z) : Z := Z.max 0 (a - b).
Definition sat_inc8 (a : Z) : Z := Z.min 255 (a + 1).

(** ** window_scale.rs *)

Module WindowScale.

Definition MAX_WINDOW_SCALE : Z := 14.
Definition DEFAULT_WINDOW_SCALE : Z := 7.

Record WindowScaleOption := mkScale { ws_enabled : bool; snd_scale : Z; rcv_scale : Z }.

Definition ws_new : WindowScaleOption := mkScale false 0 0.
Definition with_scale (s : Z) : WindowScaleOption :=
  mkScale true 0 (if s >? MAX_WINDOW_SCALE then MAX_WINDOW_SCALE else s).
Definition default_enabled : WindowScaleOption := with_scale DEFAULT_WINDOW_SCALE.

Definition set_snd_scale (w : WindowScaleOption) (s : Z) : WindowScaleOption :=
  if ws_enabled w then mkScale (ws_enabled w) (Z.min s MAX_WINDOW_SCALE) (rcv_scale w) else w.

(** [(w as u32) << s] *)
Definition scale_snd_window (w : WindowScaleOption) (adv : Z) : Z :=
  if ws_enabled w then wrap32 (Z.shiftl adv (snd_scale w)) else adv.
Definition scale_rcv_window (w : WindowScaleOption) (adv : Z) : Z :=
  if ws_enabled w then wrap32 (Z.shiftl adv (rcv_scale w)) else adv.

Definition ws_advertised (w : WindowScaleOption) (actual : Z) : Z :=
  if ws_enabled w && (rcv_scale w >? 0) then Z.min (Z.shiftr actual (rcv_scale w)) 65535 else Z.min actual 65535.

(** *** Options *)

Definition OPT_END : Z := 0.
Definition OPT_NOP : Z := 1.
Definition OPT_MSS : Z := 2.
Definition OPT_WINDOW_SCALE : Z := 3.
Definition OPT_SACK_PERMITTED : Z := 4.

(** One iteration of the two search loops at [pos]: the loop goes on from another
    position, ends, finds the value, or indexes out of range. *)
Inductive find_step (A : Type) := Goto (pos : nat) | Break | Found (a : A).
Arguments Goto {A} pos.
Arguments Break {A}.
Arguments Found {A} a.

(** The arm of the options of variable length. *)
Definition skip_option {A} (data : list Z) (pos : nat) : outcome (find_step A) :=
  if (pos + 1 <? length data)%nat then
    let! l := index data (pos + 1) in
    let len := Z.to_nat l in
    Ret (if (len <? 2)%nat || (length data <? pos + len)%nat then Break else Goto (pos + len))
  else Ret Break.

Definition scale_step (data : list Z) (pos : nat) : outcome (find_step Z) :=
  let! kind := index data pos in
  if kind =? OPT_END then Ret Break
  else if kind =? OPT_NOP then Ret (Goto (pos + 1))
  else if kind =? OPT_WINDOW_SCALE then
    if (pos + 3 <=? length data)%nat then
      let! l := index data (pos + 1) in
      if l =? 3 then let! v := index data (pos + 2) in Ret (Found v) else Ret (Goto (pos + 3))
    else Ret (Goto (pos + 3))
  else skip_option data pos.

Definition mss_step (data : list Z) (pos : nat) : outcome (find_step Z) :=
  let! kind := index data pos in
  if kind =? OPT_END then Ret Break
  else if kind =? OPT_NOP then Ret (Goto (pos + 1))
  else if kind =? OPT_MSS then
    if (pos + 4 <=? length data)%nat then
      let! l := index data (pos + 1) in
      if l =? 4 then
        let! hi := index data (pos + 2) in
        let! lo := index data (pos + 3) in
        Ret (Found (from_be16 hi lo))
      else Ret (Goto (pos + 4))
    else Ret (Goto (pos + 4))
  else skip_option data pos.

(** [while self.pos < self.data.len()]; [None] when the fuel runs out. *)
Fixpoint find_loop {A} (step : nat -> outcome (find_step A)) (len fuel pos : nat) : option (outcome (option A)) :=
  if (pos <? len)%nat then
    match fuel with
    | O => None
    | S f =>
        match step pos with
        | Panic => Some Panic
        | Ret Break => Some (Ret None)
        | Ret (Found a) => Some (Ret (Some a))
        | Ret (Goto p) => find_loop step len f p
        end
    end
  else Some (Ret None).

(** Every iteration advances, so as many rounds as there are bytes are enough. *)
Definition find_window_scale (data : list Z) : option (outcome (option Z)) :=
  find_loop (scale_step data) (length data) (length data) 0.
Definition find_mss (data : list Z) : option (outcome (option Z)) :=
  find_loop (mss_step data) (length data) (length data) 0.

Record TcpOptionBuilder := mkOptions { opt_buffer : list Z; opt_len : nat }.

Definition options_new : TcpOptionBuilder := mkOptions (replicate 40 0) 0.

Definition add_mss (b : TcpOptionBuilder) (mss : Z) : TcpOptionBuilder :=
  if (opt_len b + 4 <=? 40)%nat then
    mkOptions (put (put (put (opt_buffer b) (opt_len b) [OPT_MSS]) (opt_len b + 1) [4]) (opt_len b + 2) (to_be16 mss)) (opt_len b + 4)
  else b.

Definition add_window_scale (b : TcpOptionBuilder) (scale : Z) : TcpOptionBuilder :=
  if (opt_len b + 4 <=? 40)%nat then
    mkOptions (put (put (put (put (opt_buffer b) (opt_len b) [OPT_NOP]) (opt_len b + 1) [OPT_WINDOW_SCALE])
      (opt_len b + 2) [3]) (opt_len b + 3) [Z.min scale MAX_WINDOW_SCALE]) (opt_len b + 4)
  else b.

Definition add_sack_permitted (b : TcpOptionBuilder) : TcpOptionBuilder :=
  if (opt_len b + 2 <=? 40)%nat then
    mkOptions (put (put (opt_buffer b) (opt_len b) [OPT_SACK_PERMITTED]) (opt_len b + 1) [2]) (opt_len b + 2)
  else b.

(** The padding loop runs at most three times. *)
Fixpoint pad_loop (fuel : nat) (b : TcpOptionBuilder) : TcpOptionBuilder :=
  match fuel with
  | O => b
  | S f =>
      if negb (opt_len b mod 4 =? 0)%nat && (opt_len b <? 40)%nat
      then pad_loop f (mkOptions (put (opt_buffer b) (opt_len b) [OPT_NOP]) (opt_len b + 1))
      else b
  end.
Definition options_finalize (b : TcpOptionBuilder) : list Z * TcpOptionBuilder :=
  let b1 := pad_loop 3 b in (take (opt_len b1) (opt_buffer b1), b1).

End WindowScale.

(** ** congestion.rs *)

Module Congestion.

Definition DEFAULT_MSS : Z := 1460.
Definition INITIAL_WINDOW : Z := 10.
Definition MIN_CWND : Z := 2.

Inductive CongestionAlgorithm := NewReno | Cubic | Bbr.
Inductive CongestionState := SlowStart | CongestionAvoidance | FastRecovery.

Record CongestionController := mkCongestion {
  algorithm : CongestionAlgorithm;
  cc_state : CongestionState;
  cwnd : Z;
  ssthresh : Z;
  cc_mss : Z;
  dup_ack_count : Z;
  recover : Z;
  bytes_acked : Z;
  bytes_in_flight : Z
}.

Definition cc_with_mss (mss : Z) : CongestionController :=
  mkCongestion NewReno SlowStart (wrap32 (INITIAL_WINDOW * mss)) u32_max mss 0 0 0 0.
Definition cc_new : CongestionController := cc_with_mss DEFAULT_MSS.

Definition available_window (c : CongestionController) (rwnd : Z) : Z := sat_sub (Z.min (cwnd c) rwnd) (bytes_in_flight c).
Definition cc_can_send (c : CongestionController) (rwnd bytes : Z) : bool := available_window c rwnd >=? bytes.

Definition set_in_flight (c : CongestionController) (n : Z) : CongestionController :=
  mkCongestion (algorithm c) (cc_state c) (cwnd c) (ssthresh c) (cc_mss c) (dup_ack_count c) (recover c) (bytes_acked c) n.
Definition set_dup (c : CongestionController) (n : Z) : CongestionController :=
  mkCongestion (algorithm c) (cc_state c) (cwnd c) (ssthresh c) (cc_mss c) n (recover c) (bytes_acked c) (bytes_in_flight c).
Definition set_window (c : CongestionController) (s : CongestionState) (w acked : Z) : CongestionController :=
  mkCongestion (algorithm c) s w (ssthresh c) (cc_mss c) (dup_ack_count c) (recover c) acked (bytes_in_flight c).

Definition cc_on_send (c : CongestionController) (bytes : Z) : CongestionController :=
  set_in_flight c (sat_add32 (bytes_in_flight c) bytes).

Definition half_flight (c : CongestionController) : Z := Z.max (bytes_in_flight c / 2) (wrap32 (MIN_CWND * cc_mss c)).

Definition enter_fast_recovery (c : CongestionController) (snd_una : Z) : CongestionController :=
  let s := half_flight c in
  mkCongestion (algorithm c) FastRecovery (wrap32 (s + wrap32 (3 * cc_mss c))) s (cc_mss c) (dup_ack_count c) snd_una
    (bytes_acked c) (bytes_in_flight c).

Definition on_dup_ack (c0 : CongestionController) (snd_una : Z) : CongestionController :=
  let c := set_dup c0 (sat_inc8 (dup_ack_count c0)) in
  match cc_state c with
  | SlowStart | CongestionAvoidance => if dup_ack_count c >=? 3 then enter_fast_recovery c snd_una else c
  | FastRecovery => set_window c FastRecovery (sat_add32 (cwnd c) (cc_mss c)) (bytes_acked c)
  end.

Definition on_ack (c0 : CongestionController) (acked : Z) (is_dup_ack : bool) (snd_una : Z) : CongestionController :=
  let c1 := set_in_flight c0 (sat_sub (bytes_in_flight c0) acked) in
  if is_dup_ack then on_dup_ack c1 snd_una
  else
    let c := set_dup c1 0 in
    match cc_state c with
    | SlowStart =>
        let w := sat_add32 (cwnd c) (Z.min acked (cc_mss c)) in
        if w >=? ssthresh c then set_window c CongestionAvoidance w 0 else set_window c SlowStart w (bytes_acked c)
    | CongestionAvoidance =>
        let n := sat_add32 (bytes_acked c) acked in
        if n >=? cwnd c then set_window c CongestionAvoidance (sat_add32 (cwnd c) (cc_mss c)) 0
        else set_window c CongestionAvoidance (cwnd c) n
    | FastRecovery =>
        if snd_una >? recover c then set_window c CongestionAvoidance (ssthresh c) 0
        else set_window c FastRecovery (sat_add32 (sat_sub (cwnd c) acked) (cc_mss c)) (bytes_acked c)
    end.

Definition on_timeout (c : CongestionController) : CongestionController :=
  mkCongestion (algorithm c) SlowStart (cc_mss c) (half_flight c) (cc_mss c) 0 (recover c) 0 (bytes_in_flight c).

Definition on_packet_loss (c : CongestionController) : CongestionController := on_timeout c.

Definition cc_reset (c : CongestionController) : CongestionController :=
  mkCongestion (algorithm c) SlowStart (wrap32 (INITIAL_WINDOW * cc_mss c)) u32_max (cc_mss c) 0 0 0 0.

End Congestion.

(** ** flow_control.rs *)

Module FlowControl.

Definition DEFAULT_RECV_BUFFER_SIZE : Z := 65536.
Definition MAX_RECV_BUFFER_SIZE : Z := 1048576.
Definition MIN_ADVERTISE_WINDOW : Z := 536.
Definition ZERO_WINDOW_PROBE_INTERVAL_MS : Z := 500.
Definition ZERO_WINDOW_PROBE_MAX_RETRIES : Z := 10.

Inductive FlowControlState := Normal | ZeroWindow | ZeroWindowProbe.

#[export] Instance FlowControlState_eq_dec : EqDecision FlowControlState.
Proof. solve_decision. Defined.

Record FlowController := mkFlow {
  buffer_size : Z;
  buffer_used : Z;
  advertised : Z;
  peer_window : Z;
  fc_state : FlowControlState;
  probe_count : Z;
  last_probe_tick : Z;
  window_update_needed : bool
}.

Definition with_buffer_size (s : Z) : FlowController :=
  let size := Z.min s MAX_RECV_BUFFER_SIZE in
  mkFlow size 0 size 65535 Normal 0 0 false.
Definition fc_new : FlowController := with_buffer_size DEFAULT_RECV_BUFFER_SIZE.

Definition available_buffer (f : FlowController) : Z := sat_sub (buffer_size f) (buffer_used f).
Definition clear_window_update (f : FlowController) : FlowController :=
  mkFlow (buffer_size f) (buffer_used f) (advertised f) (peer_window f) (fc_state f) (probe_count f) (last_probe_tick f) false.

Definition set_used (f : FlowController) (n : Z) : FlowController :=
  mkFlow (buffer_size f) n (advertised f) (peer_window f) (fc_state f) (probe_count f) (last_probe_tick f) (window_update_needed f).
Definition set_adv (f : FlowController) (w : Z) (s : FlowControlState) : FlowController :=
  mkFlow (buffer_size f) (buffer_used f) w (peer_window f) s (probe_count f) (last_probe_tick f) (window_update_needed f).
Definition set_probe (f : FlowController) (w : Z) (s : FlowControlState) (n : Z) : FlowController :=
  mkFlow (buffer_size f) (buffer_used f) (advertised f) w s n (last_probe_tick f) (window_update_needed f).

Definition update_advertised_window (f : FlowController) : FlowController :=
  let available := available_buffer f in
  if (available <? MIN_ADVERTISE_WINDOW) && (available <? buffer_size f / 4) then set_adv f 0 ZeroWindow
  else set_adv f available (if bool_decide (fc_state f = ZeroWindow) && (available >? 0) then Normal else fc_state f).

Definition on_receive (f : FlowController) (bytes : Z) : Z * FlowController :=
  let f1 := update_advertised_window (set_used f (sat_add32 (buffer_used f) bytes)) in
  (advertised f1, f1).

Definition on_consume (f : FlowController) (bytes : Z) : Z * FlowController :=
  let prev_window := advertised f in
  let f1 := update_advertised_window (set_used f (sat_sub (buffer_used f) bytes)) in
  let f2 := if bool_decide (fc_state f1 = ZeroWindow) && (advertised f1 >? 0) then set_probe f1 (peer_window f1) Normal 0 else f1 in
  let threshold := Z.max MIN_ADVERTISE_WINDOW (buffer_size f2 / 4) in
  let f3 :=
    if (advertised f2 >? prev_window) && (advertised f2 - prev_window >=? threshold) then
      mkFlow (buffer_size f2) (buffer_used f2) (advertised f2) (peer_window f2) (fc_state f2) (probe_count f2) (last_probe_tick f2) true
    else f2 in
  (advertised f3, f3).

Definition update_peer_window (f : FlowController) (window : Z) : FlowController :=
  let prev := peer_window f in
  let f1 := set_probe f window (fc_state f) (probe_count f) in
  if window =? 0 then
    if negb (bool_decide (fc_state f1 = ZeroWindowProbe)) then set_probe f1 window ZeroWindowProbe 0 else f1
  else if (prev =? 0) && (window >? 0) then set_probe f1 window Normal 0
  else f1.

(** [current_tick - self.last_probe_tick] wraps around. *)
Definition should_send_probe (f : FlowController) (current_tick : Z) : bool :=
  if negb (bool_decide (fc_state f = ZeroWindowProbe)) then false
  else if probe_count f >=? ZERO_WINDOW_PROBE_MAX_RETRIES then false
  else
    let interval := ZERO_WINDOW_PROBE_INTERVAL_MS *w Z.shiftl 1 (Z.min (probe_count f) 6) in
    (current_tick -w last_probe_tick f) >=? interval.

Definition on_probe_sent (f : FlowController) (current_tick : Z) : FlowController :=
  mkFlow (buffer_size f) (buffer_used f) (advertised f) (peer_window f) (fc_state f) (sat_inc8 (probe_count f)) current_tick
    (window_update_needed f).

Definition send_window (f : FlowController) (cw : Z) : Z := Z.min cw (peer_window f).
Definition fc_can_send (f : FlowController) : bool := (peer_window f >? 0) || bool_decide (fc_state f = ZeroWindowProbe).

(** [as u8] keeps the low byte. *)
Definition buffer_utilization (f : FlowController) : Z :=
  if buffer_size f =? 0 then 100 else ((buffer_used f *w 100) / buffer_size f) mod 256.

Definition fc_reset (f : FlowController) : FlowController :=
  mkFlow (buffer_size f) 0 (buffer_size f) 65535 Normal 0 0 false.

End FlowControl.
