(* ===== verification/TcpWindowTheorems.v ===== *)
(** * Theorems on the windows of a TCP connection *)

From stdpp Require Import base list.
From Stdlib Require Import ZArith Lia.
From S2P Require Import Prelude NetBytes TcpWindow.

Local Open Scope Z_scope.

(** ** The option parser *)

Module OptionSpec.
Import WindowScale.

(** Both loops read inside the options and either stop or move forward. *)
Definition step_ok {A} (data : list Z) (pos : nat) (r : outcome (find_step A)) : Prop :=
  match r with
  | Panic => False
  | Ret (Goto p) => (pos < p)%nat
  | _ => True
  end.

Lemma index_some {A} (l : list A) (i : nat) : (i < length l)%nat -> exists a, index l i = Ret a /\ l !! i = Some a.
Proof. intros H. destruct (lookup_lt_is_Some_2 l i H) as [a E]. exists a. unfold index. by rewrite E. Qed.

Lemma skip_option_ok {A} (data : list Z) (pos : nat) : step_ok (A := A) data pos (skip_option data pos).
Proof.
  unfold skip_option. destruct (Nat.ltb_spec (pos + 1) (length data)) as [H|]; [|done].
  destruct (index_some data (pos + 1) H) as (l & -> & _). cbn [obind].
  destruct (Nat.ltb_spec (Z.to_nat l) 2); cbn [orb]; [done|]. destruct (_ <? _)%nat; cbn; [done|lia].
Qed.

Ltac read_byte :=
  match goal with
  | |- context [index ?d ?i] =>
      let a := fresh "b" in destruct (index_some d i) as (a & -> & _); [lia|]; cbn [obind]
  end.
Ltac search_step :=
  repeat first [ done | apply skip_option_ok | progress cbn [step_ok]; lia | read_byte
    | match goal with
      | |- context [if (?x =? ?y)%Z then _ else _] => destruct (x =? y)
      | |- context [if (?x <=? ?y)%nat then _ else _] => destruct (Nat.leb_spec x y)
      end ].

Lemma scale_step_ok (data : list Z) (pos : nat) : (pos < length data)%nat -> step_ok data pos (scale_step data pos).
Proof. intros H. unfold scale_step. search_step. Qed.

Lemma mss_step_ok (data : list Z) (pos : nat) : (pos < length data)%nat -> step_ok data pos (mss_step data pos).
Proof. intros H. unfold mss_step. search_step. Qed.

Lemma find_loop_total {A} (data : list Z) (step : nat -> outcome (find_step A)) (fuel pos : nat) :
  (forall p, (p < length data)%nat -> step_ok data p (step p)) -> (length data <= pos + fuel)%nat ->
  exists r, find_loop step (length data) fuel pos = Some (Ret r).
Proof.
  intros Hs. revert pos. induction fuel as [|fuel IH]; intros pos Hf; cbn [find_loop].
  - rewrite (proj2 (Nat.ltb_ge _ _)) by lia. eauto.
  - destruct (Nat.ltb_spec pos (length data)) as [H|H]; [|eauto].
    specialize (Hs pos H). destruct (step pos) as [[p| |a]|]; cbn in Hs; [apply IH; lia | eauto | eauto | done].
Qed.

(** More fuel does not change an answer. *)
Lemma find_loop_fuel {A} (step : nat -> outcome (find_step A)) (len f1 f2 pos : nat) r :
  find_loop step len f1 pos = Some r -> (f1 <= f2)%nat -> find_loop step len f2 pos = Some r.
Proof.
  revert f2 pos. induction f1 as [|f1 IH]; intros f2 pos H Hle; destruct f2 as [|f2]; try lia; cbn [find_loop] in *;
    destruct (pos <? len)%nat; try done.
  destruct (step pos) as [[p| |a]|]; try done. apply IH; [done|lia].
Qed.

(** the two option searches end within as many rounds as there are bytes and
    never read outside of them, whatever the options hold. *)
Theorem option_search_terminates (data : list Z) :
  (exists r, find_window_scale data = Some (Ret r)) /\ (exists r, find_mss data = Some (Ret r)).
Proof.
  split; (apply find_loop_total; [|lia]); intros p Hp; [by apply scale_step_ok | by apply mss_step_ok].
Qed.

(** *** What the builder writes *)

Inductive tcp_opt := AddMss (m : Z) | AddScale (s : Z) | AddSack.

Definition opt_apply (b : TcpOptionBuilder) (o : tcp_opt) : TcpOptionBuilder :=
  match o with
  | AddMss m => add_mss b m
  | AddScale s => add_window_scale b s
  | AddSack => add_sack_permitted b
  end.

(** The bytes of an option and the options that fit behind [used] bytes. *)
Definition opt_bytes (o : tcp_opt) : list Z :=
  match o with
  | AddMss m => [2; 4] ++ to_be16 m
  | AddScale s => [1; 3; 3; Z.min s 14]
  | AddSack => [4; 2]
  end.
Fixpoint fitting (used : nat) (os : list tcp_opt) : list tcp_opt :=
  match os with
  | [] => []
  | o :: os' => if (used + length (opt_bytes o) <=? 40)%nat then o :: fitting (used + length (opt_bytes o)) os' else fitting used os'
  end.
Definition all_bytes (os : list tcp_opt) : list Z := concat (map opt_bytes os).

Fixpoint first_mss (os : list tcp_opt) : option Z :=
  match os with
  | [] => None
  | AddMss m :: _ => Some m
  | _ :: os' => first_mss os'
  end.
Fixpoint first_scale (os : list tcp_opt) : option Z :=
  match os with
  | [] => None
  | AddScale s :: _ => Some (Z.min s 14)
  | _ :: os' => first_scale os'
  end.

Definition holds (b : TcpOptionBuilder) (l : list Z) : Prop :=
  opt_len b = length l /\ exists rest, opt_buffer b = l ++ rest /\ length (opt_buffer b) = 40%nat.

Lemma put_app (l rest : list Z) (bs : list Z) : put (l ++ rest) (length l) bs = l ++ bs ++ drop (length bs) rest.
Proof. unfold put. rewrite take_app_length, drop_app_add. done. Qed.

Lemma put_next (l rest : list Z) (i : nat) (x : Z) : i = length l -> put (l ++ rest) i [x] = (l ++ [x]) ++ drop 1 rest.
Proof. intros ->. rewrite put_app, <- app_assoc. done. Qed.

Lemma put2_next (l rest : list Z) (i : nat) (x y : Z) : i = length l -> put (l ++ rest) i [x; y] = (l ++ [x; y]) ++ drop 2 rest.
Proof. intros ->. rewrite put_app, <- app_assoc. done. Qed.

(** The buffer keeps its size while the bytes fit. *)
Lemma put_keeps (l rest : list Z) (i : nat) (bs : list Z) :
  i = length l -> (i + length bs <= length (l ++ rest))%nat -> length (put (l ++ rest) i bs) = length (l ++ rest).
Proof. intros -> H. rewrite put_app, !length_app, length_drop. rewrite length_app in H. lia. Qed.

Lemma opt_apply_holds (b : TcpOptionBuilder) (l : list Z) (o : tcp_opt) :
  holds b l -> holds (opt_apply b o) (if (length l + length (opt_bytes o) <=? 40)%nat then l ++ opt_bytes o else l).
Proof.
  intros [Hl (rest & Hb & H40)].
  destruct o as [m|s|]; cbn [opt_apply add_mss add_window_scale add_sack_permitted opt_bytes length app to_be16];
    unfold add_mss, add_window_scale, add_sack_permitted; rewrite Hl;
    (match goal with |- context [(?x <=? 40)%nat] => destruct (Nat.leb_spec x 40) as [Hle|]; [|by split; [|exists rest]] end);
    (split; [cbn [opt_len]; rewrite length_app; done|]); cbn [opt_buffer]; rewrite Hb in *; unfold to_be16.
  - eexists. rewrite put_next, put_next, put2_next, <- !app_assoc by (rewrite ?length_app; cbn; lia). split; [done|].
    rewrite !length_app, !length_drop in *. cbn [length]. lia.
  - eexists. rewrite !put_next, <- !app_assoc by (rewrite ?length_app; cbn; lia). split; [done|].
    rewrite !length_app, !length_drop in *. cbn [length]. lia.
  - eexists. rewrite !put_next, <- !app_assoc by (rewrite ?length_app; cbn; lia). split; [done|].
    rewrite !length_app, !length_drop in *. cbn [length]. lia.
Qed.

Lemma run_holds (os : list tcp_opt) (b : TcpOptionBuilder) (l : list Z) :
  holds b l -> holds (foldl opt_apply b os) (l ++ all_bytes (fitting (length l) os)).
Proof.
  revert b l. induction os as [|o os IH]; intros b l H; [by rewrite app_nil_r|].
  cbn [foldl fitting]. pose proof (opt_apply_holds b l o H) as H1. destruct (_ <=? 40)%nat.
  - specialize (IH _ _ H1). rewrite length_app in IH. unfold all_bytes in *. cbn [map concat]. by rewrite app_assoc.
  - by apply IH.
Qed.

Lemma pad_loop_holds (n : nat) (b : TcpOptionBuilder) (l : list Z) :
  holds b l -> exists k, holds (pad_loop n b) (l ++ replicate k OPT_NOP).
Proof.
  revert b l. induction n as [|n IH]; intros b l H; cbn [pad_loop]; [exists 0%nat; by rewrite app_nil_r|].
  destruct H as [Hl (rest & Hb & H40)]. rewrite Hl. destruct (_ && _) eqn:E; [|exists 0%nat; rewrite app_nil_r; split; eauto].
  apply andb_true_iff in E as [_ E%Nat.ltb_lt]. destruct (IH (mkOptions (put (opt_buffer b) (length l) [OPT_NOP]) (length l + 1)) (l ++ [OPT_NOP])) as [k Hk].
  - split; [by rewrite length_app|]. cbn [opt_buffer]. rewrite Hb in *. rewrite put_next by done. eexists. split; [done|].
    rewrite !length_app, length_drop in *. cbn [length]. lia.
  - exists (S k). replace (l ++ replicate (S k) OPT_NOP) with ((l ++ [OPT_NOP]) ++ replicate k OPT_NOP) by (rewrite <- app_assoc; done). done.
Qed.

Lemma pad_aligned (b : TcpOptionBuilder) : (opt_len b <= 40)%nat -> (opt_len (pad_loop 3 b) mod 4 = 0)%nat /\ (opt_len (pad_loop 3 b) <= 40)%nat.
Proof.
  intros H. destruct b as [buf n]. cbn [opt_len] in *.
  do 41 (destruct n as [|n]; [cbn; split; [done|lia]|]). lia.
Qed.

(** *** Searching the bytes of options *)

Lemma index_app {A} (l r : list A) (i : nat) : index (l ++ r) (length l + i) = index r i.
Proof. unfold index. rewrite lookup_app_r by lia. f_equal. replace (length l + i - length l)%nat with i by lia. done. Qed.

Lemma index_app0 {A} (l r : list A) : index (l ++ r) (length l) = index r 0.
Proof. rewrite <- (Nat.add_0_r (length l)) at 1. apply index_app. Qed.

(** One iteration at an option steps over its bytes, or finds it. *)
Lemma nop_step (pre rest : list Z) :
  scale_step (pre ++ 1 :: rest) (length pre) = Ret (Goto (length pre + 1)) /\
  mss_step (pre ++ 1 :: rest) (length pre) = Ret (Goto (length pre + 1)).
Proof. unfold scale_step, mss_step. rewrite index_app0. done. Qed.

Lemma ltb_app (pre rest : list Z) (k : nat) :
  (length pre + k <? length (pre ++ rest))%nat = (k <? length rest)%nat.
Proof. rewrite length_app. destruct (Nat.ltb_spec k (length rest)); [apply Nat.ltb_lt | apply Nat.ltb_ge]; lia. Qed.

Lemma leb_app (pre rest : list Z) (k : nat) :
  (length pre + k <=? length (pre ++ rest))%nat = (k <=? length rest)%nat.
Proof. rewrite length_app. destruct (Nat.leb_spec k (length rest)); [apply Nat.leb_le | apply Nat.leb_gt]; lia. Qed.

Lemma scale_found (pre rest : list Z) (s : Z) : scale_step (pre ++ 3 :: 3 :: s :: rest) (length pre) = Ret (Found s).
Proof. unfold scale_step. rewrite index_app0, leb_app, !index_app. done. Qed.

Lemma mss_found (pre rest : list Z) (hi lo : Z) :
  mss_step (pre ++ 2 :: 4 :: hi :: lo :: rest) (length pre) = Ret (Found (from_be16 hi lo)).
Proof. unfold mss_step. rewrite index_app0, leb_app, !index_app. done. Qed.

Lemma ltb_app_l (pre rest : list Z) (k : nat) :
  (length (pre ++ rest) <? length pre + k)%nat = (length rest <? k)%nat.
Proof. rewrite length_app. destruct (Nat.ltb_spec (length rest) k); [apply Nat.ltb_lt | apply Nat.ltb_ge]; lia. Qed.

(** A variable option of [n] bytes is stepped over by both searches. *)
Lemma skip_step (pre rest body : list Z) (k n : Z) :
  (Z.of_nat (length body) + 2 = n) ->
  (k <> 0 /\ k <> 1 /\ k <> 3 -> scale_step (pre ++ k :: n :: body ++ rest) (length pre) = Ret (Goto (length pre + Z.to_nat n))) /\
  (k <> 0 /\ k <> 1 /\ k <> 2 -> mss_step (pre ++ k :: n :: body ++ rest) (length pre) = Ret (Goto (length pre + Z.to_nat n))).
Proof.
  intros Hn. assert (Hsk : forall A, skip_option (A := A) (pre ++ k :: n :: body ++ rest) (length pre) = Ret (Goto (length pre + Z.to_nat n))).
  { intros A. unfold skip_option. rewrite ltb_app, index_app, (proj2 (Nat.ltb_lt 1 _)) by (cbn [length]; lia).
    change (index (k :: n :: body ++ rest) 1) with (Ret n). cbn [obind].
    rewrite ltb_app_l, (proj2 (Nat.ltb_ge (Z.to_nat n) 2)) by lia. cbn [orb].
    rewrite (proj2 (Nat.ltb_ge _ _)); [done|]. cbn [length]. rewrite length_app. lia. }
  split; intros (H0 & H1 & H3); unfold scale_step, mss_step; rewrite index_app0;
    change (index (k :: n :: body ++ rest) 0) with (Ret k); cbn [obind];
    unfold OPT_END, OPT_NOP, OPT_WINDOW_SCALE, OPT_MSS; rewrite !(proj2 (Z.eqb_neq _ _)) by done; apply Hsk.
Qed.

(** The loop at the start of [rest], any fuel that covers it. *)
Definition find_at {A} (step : list Z -> nat -> outcome (find_step A)) (pre rest : list Z) (r : option A) : Prop :=
  forall fuel, (length rest <= fuel)%nat -> find_loop (step (pre ++ rest)) (length (pre ++ rest)) fuel (length pre) = Some (Ret r).

Lemma find_at_nil {A} (step : list Z -> nat -> outcome (find_step A)) (pre : list Z) : find_at step pre [] None.
Proof. intros fuel _. rewrite app_nil_r. destruct fuel; cbn [find_loop]; by rewrite Nat.ltb_irrefl. Qed.

Lemma find_at_goto {A} (step : list Z -> nat -> outcome (find_step A)) (pre bs rest : list Z) (r : option A) :
  (0 < length bs)%nat -> step (pre ++ bs ++ rest) (length pre) = Ret (Goto (length pre + length bs)) ->
  find_at step (pre ++ bs) rest r -> find_at step pre (bs ++ rest) r.
Proof.
  intros Hbs Hs H fuel Hf. rewrite length_app in Hf. destruct fuel as [|fuel]; [lia|]. cbn [find_loop].
  rewrite (proj2 (Nat.ltb_lt _ _)) by (rewrite !length_app; lia). rewrite Hs.
  specialize (H fuel ltac:(lia)). by rewrite <- !app_assoc, (length_app pre bs) in H.
Qed.

Lemma find_at_found {A} (step : list Z -> nat -> outcome (find_step A)) (pre rest : list Z) (a : A) :
  (0 < length rest)%nat -> step (pre ++ rest) (length pre) = Ret (Found a) -> find_at step pre rest (Some a).
Proof.
  intros Hr Hs fuel Hf. destruct fuel as [|fuel]; [lia|]. cbn [find_loop].
  rewrite (proj2 (Nat.ltb_lt _ _)) by (rewrite !length_app; lia). by rewrite Hs.
Qed.

Lemma find_nops (k : nat) (pre : list Z) : find_at scale_step pre (replicate k 1) None /\ find_at mss_step pre (replicate k 1) None.
Proof.
  revert pre. induction k as [|k IH]; intros pre; [split; apply find_at_nil|].
  split; apply (find_at_goto _ pre [1] (replicate k 1)); cbn [length]; [lia | apply nop_step | apply IH | lia | apply nop_step | apply IH].
Qed.

Definition opt_ok (o : tcp_opt) : Prop := match o with AddMss m => is_u16 m | _ => True end.

Lemma find_options (os : list tcp_opt) (k : nat) (pre : list Z) :
  Forall opt_ok os ->
  find_at scale_step pre (all_bytes os ++ replicate k 1) (first_scale os) /\
  find_at mss_step pre (all_bytes os ++ replicate k 1) (first_mss os).
Proof.
  intros Hos. revert pre. induction Hos as [|o os Ho _ IH]; intros pre; [apply find_nops|].
  unfold all_bytes. cbn [map concat]. rewrite <- app_assoc. fold (all_bytes os).
  destruct o as [m|s|]; cbn [opt_bytes first_scale first_mss].
  - pose proof (skip_step pre (all_bytes os ++ replicate k 1) (to_be16 m) 2 4 eq_refl) as [Hs _].
    split; [apply (find_at_goto _ pre ([2; 4] ++ to_be16 m)); [cbn; lia | apply Hs; lia | apply IH]|].
    unfold to_be16. cbn [app]. apply find_at_found; [cbn; lia|]. rewrite mss_found. by rewrite from_to_be16.
  - split.
    + apply (find_at_goto _ pre [1]); [cbn; lia | apply nop_step |]. apply find_at_found; [cbn; lia | apply scale_found].
    + apply (find_at_goto _ pre [1]); [cbn; lia | apply nop_step |].
      pose proof (skip_step (pre ++ [1]) (all_bytes os ++ replicate k 1) [Z.min s 14] 3 3 eq_refl) as [_ Hm].
      apply (find_at_goto _ (pre ++ [1]) [3; 3; Z.min s 14]); [cbn; lia | apply Hm; lia |]. rewrite <- app_assoc. apply IH.
  - pose proof (skip_step pre (all_bytes os ++ replicate k 1) [] 4 2 eq_refl) as [Hs Hm].
    split; apply (find_at_goto _ pre [4; 2]); first [cbn; lia | apply Hs; lia | apply Hm; lia | apply IH].
Qed.

Lemma fitting_ok (os : list tcp_opt) (n : nat) : Forall opt_ok os -> Forall opt_ok (fitting n os).
Proof. intros H. revert n. induction H as [|o os Ho _ IH]; intros n; [done|]. cbn [fitting]. case_match; [by constructor | done]. Qed.

Lemma options_new_holds : holds options_new [].
Proof. split; [done|]. eexists. split; done. Qed.

Lemma holds_fits (b : TcpOptionBuilder) (l : list Z) : holds b l -> (opt_len b <= 40)%nat /\ take (opt_len b) (opt_buffer b) = l.
Proof.
  intros [-> (rest & Hb & H40)]. rewrite Hb in *. rewrite take_app_length. split; [|done]. rewrite <- H40, length_app. lia.
Qed.

(** options round trip: the bytes a builder ends up with are a multiple of four
    and at most 40, and searching them gives back the first segment size and the
    first window scale (cut to 14) among the options that fitted. *)
Theorem options_roundtrip (os : list tcp_opt) :
  Forall opt_ok os ->
  let bytes := (options_finalize (foldl opt_apply options_new os)).1 in
  (length bytes mod 4 = 0)%nat /\ (length bytes <= 40)%nat /\
  find_mss bytes = Some (Ret (first_mss (fitting 0 os))) /\
  find_window_scale bytes = Some (Ret (first_scale (fitting 0 os))).
Proof.
  intros Hos bytes. set (b := foldl opt_apply options_new os) in bytes.
  pose proof (run_holds os _ _ options_new_holds) as Hr. fold b in Hr. cbn [app length] in Hr.
  pose proof (pad_aligned b (proj1 (holds_fits _ _ Hr))) as [Hal H40]. destruct (pad_loop_holds 3 b _ Hr) as [k Hk].
  assert (Eb : bytes = all_bytes (fitting 0 os) ++ replicate k 1) by exact (proj2 (holds_fits _ _ Hk)).
  assert (El : length bytes = opt_len (pad_loop 3 b)) by (rewrite Eb; symmetry; exact (proj1 Hk)).
  split; [by rewrite El|]. split; [by rewrite El|]. rewrite Eb. unfold find_mss, find_window_scale.
  destruct (find_options (fitting 0 os) k [] (fitting_ok os 0 Hos)) as [H1 H2]. split; [by apply H2 | by apply H1].
Qed.

Lemma options_roundtrip_witness :
  find_window_scale (options_finalize (foldl opt_apply options_new [AddMss 1460; AddSack; AddScale 20])).1 = Some (Ret (Some 14)).
Proof. apply (options_roundtrip [AddMss 1460; AddSack; AddScale 20]). constructor; [unfold opt_ok, is_u16; lia | repeat constructor]. Defined.

End OptionSpec.

(** ** The congestion window *)

Module CongestionSpec.
Import Congestion.

Inductive cc_op :=
| CcSend (n : Z) | CcAck (n una : Z) | CcDup (una : Z) | CcTimeout | CcReset.

Definition cc_apply (c : CongestionController) (o : cc_op) : CongestionController :=
  match o with
  | CcSend n => cc_on_send c n
  | CcAck n una => on_ack c n false una
  | CcDup una => on_ack c 0 true una
  | CcTimeout => on_timeout c
  | CcReset => cc_reset c
  end.

Definition cc_op_ok (o : cc_op) : Prop :=
  match o with
  | CcSend n | CcAck n _ => is_u32 n
  | _ => True
  end.

(** The window is at least one segment, the threshold at least two, and all
    fields are in range. *)
Record cc_ok (mss : Z) (c : CongestionController) : Prop := mkCcOk {
  cc_ok_mss : cc_mss c = mss;
  cc_ok_cwnd : mss <= cwnd c <= u32_max;
  cc_ok_thresh : 2 * mss <= ssthresh c <= u32_max;
  cc_ok_flight : 0 <= bytes_in_flight c <= u32_max;
  cc_ok_acked : 0 <= bytes_acked c <= u32_max;
  cc_ok_avoid : cc_state c = CongestionAvoidance -> bytes_acked c < cwnd c
}.

Lemma half_flight_range (mss : Z) (c : CongestionController) :
  1 <= mss <= 65535 -> cc_ok mss c -> half_flight c = Z.max (bytes_in_flight c / 2) (2 * mss) /\ half_flight c <= 2 ^ 31.
Proof.
  intros Hm Hc. unfold half_flight, MIN_CWND. rewrite (cc_ok_mss _ _ Hc). pose proof (cc_ok_flight _ _ Hc) as Hf. unfold u32_max in Hf.
  unfold wrap32. rewrite Z.mod_small by (unfold u32_modulus; lia). split; [done|].
  apply Z.max_lub; [|lia]. assert (bytes_in_flight c / 2 < 2 ^ 31) by (apply Z.div_lt_upper_bound; lia). lia.
Qed.

Ltac window_fields :=
  cbn [set_dup set_in_flight set_window cc_mss cwnd ssthresh bytes_in_flight bytes_acked cc_state dup_ack_count recover] in *.

Ltac solve_window := split; unfold u32_max; window_fields; first [done | lia].

Lemma enter_fast_recovery_ok (mss una : Z) (c : CongestionController) :
  1 <= mss <= 65535 -> cc_ok mss c -> cc_ok mss (enter_fast_recovery c una).
Proof.
  intros Hm Hc. destruct (half_flight_range mss c Hm Hc) as [Eh Lh]. destruct Hc as [E Hw Ht Hf Ha Hav]. unfold u32_max in *.
  unfold enter_fast_recovery, wrap32, u32_modulus. rewrite E, (Z.mod_small (3 * mss)), Z.mod_small by lia. solve_window.
Qed.

Lemma on_dup_ack_ok (mss una : Z) (c : CongestionController) :
  1 <= mss <= 65535 -> cc_ok mss c -> cc_ok mss (on_dup_ack c una).
Proof.
  intros Hm [E Hw Ht Hf Ha Hav]. unfold u32_max in *. unfold on_dup_ack.
  assert (Hc1 : cc_ok mss (set_dup c (sat_inc8 (dup_ack_count c)))) by solve_window.
  cbn [cc_state set_dup]. destruct (cc_state c) eqn:Es;
    [destruct (_ >=? 3); [by apply enter_fast_recovery_ok | done] .. |].
  unfold sat_add32. solve_window.
Qed.

Lemma cc_apply_ok (mss : Z) (c : CongestionController) (o : cc_op) :
  1 <= mss <= 65535 -> cc_ok mss c -> cc_op_ok o -> cc_ok mss (cc_apply c o).
Proof.
  intros Hm Hc Ho. pose proof (half_flight_range mss) as Hh. destruct Hc as [E Hw Ht Hf Ha Hav].
  destruct o as [n|n una|una| |]; cbn [cc_apply cc_op_ok] in *; unfold is_u32, u32_modulus, u32_max in *.
  - unfold cc_on_send, sat_add32, u32_max. solve_window.
  - unfold on_ack, sat_sub, sat_add32, u32_max. window_fields. destruct (cc_state c) eqn:Es; window_fields.
    + rewrite Z.geb_leb. destruct (Z.leb_spec (ssthresh c) (Z.min (2 ^ 32 - 1) (cwnd c + Z.min n (cc_mss c)))); solve_window.
    + rewrite Z.geb_leb. destruct (Z.leb_spec (cwnd c) (Z.min (2 ^ 32 - 1) (bytes_acked c + n))); solve_window.
    + destruct (una >? recover c); solve_window.
  - change (on_ack c 0 true una) with (on_dup_ack (set_in_flight c (sat_sub (bytes_in_flight c) 0)) una).
    apply on_dup_ack_ok; [done|]. unfold sat_sub. solve_window.
  - destruct (Hh c Hm) as [Eh Lh]; [by split|]. unfold on_timeout. solve_window.
  - unfold cc_reset, INITIAL_WINDOW, wrap32, u32_modulus, u32_max. rewrite E, Z.mod_small by lia. solve_window.
Qed.

Lemma cc_new_ok (mss : Z) : 1 <= mss <= 65535 -> cc_ok mss (cc_with_mss mss).
Proof.
  intros Hm. unfold cc_with_mss, INITIAL_WINDOW, wrap32, u32_modulus. rewrite Z.mod_small by lia. solve_window.
Qed.

Lemma cc_run_ok (mss : Z) (ops : list cc_op) (c : CongestionController) :
  1 <= mss <= 65535 -> cc_ok mss c -> Forall cc_op_ok ops -> cc_ok mss (foldl cc_apply c ops).
Proof. intros Hm Hc Ho. revert c Hc. induction Ho as [|o ops Ho _ IH]; intros c Hc; [done|]. cbn [foldl]. apply IH. by apply cc_apply_ok. Qed.

(** the congestion window stays sound: after any sends, acknowledgements, duplicates
    and time-outs it holds between one segment and the largest 32-bit number and
    the threshold is at least two segments; a new acknowledgement outside of
    recovery opens the window by at most a segment and never closes it; the
    third duplicate halves the flight into the threshold and enters recovery; a
    time-out goes back to one segment in slow start; and what may be sent never
    lets the flight pass the window. *)
Theorem congestion_window_sound (mss : Z) (ops : list cc_op) :
  1 <= mss <= 65535 -> Forall cc_op_ok ops ->
  let c := foldl cc_apply (cc_with_mss mss) ops in
  mss <= cwnd c <= u32_max /\ 2 * mss <= ssthresh c /\
  (forall n una, is_u32 n -> cc_state c <> FastRecovery ->
     cwnd c <= cwnd (on_ack c n false una) <= cwnd c + mss /\ dup_ack_count (on_ack c n false una) = 0) /\
  (forall una, cc_state c <> FastRecovery -> dup_ack_count c = 2 ->
     let c' := on_ack c 0 true una in
     cc_state c' = FastRecovery /\ ssthresh c' = Z.max (bytes_in_flight c / 2) (2 * mss) /\ cwnd c' = ssthresh c' + 3 * mss) /\
  (cwnd (on_timeout c) = mss /\ cc_state (on_timeout c) = SlowStart /\ ssthresh (on_timeout c) = Z.max (bytes_in_flight c / 2) (2 * mss)) /\
  forall rwnd n, cc_can_send c rwnd n = true -> 0 < n -> bytes_in_flight c + n <= Z.min (cwnd c) rwnd.
Proof.
  intros Hm Ho c. assert (Hc : cc_ok mss c) by (apply cc_run_ok; [done | by apply cc_new_ok | done]).
  destruct (half_flight_range mss c Hm Hc) as [Eh Lh]. clearbody c. pose proof Hc as [E Hw Ht Hf Ha Hav]. unfold u32_max in *.
  split; [done|]. split; [lia|]. split; [|split; [|split]].
  - intros n una Hn Hs. unfold is_u32, u32_modulus in Hn. unfold on_ack, sat_add32, u32_max. window_fields.
    destruct (cc_state c); [| |done]; match goal with |- context [if ?b then _ else _] => destruct b end; window_fields; (split; [lia|done]).
  - intros una Hs Hd. unfold on_ack, on_dup_ack, sat_sub. window_fields. rewrite Hd.
    replace (Z.max 0 (bytes_in_flight c - 0)) with (bytes_in_flight c) by lia.
    assert (Eh' : half_flight (set_dup (set_in_flight c (bytes_in_flight c)) (sat_inc8 2)) = half_flight c) by done.
    unfold enter_fast_recovery. rewrite Eh'. window_fields. change (sat_inc8 2 >=? 3) with true.
    destruct (cc_state c); [| |done]; window_fields; rewrite E, Eh; (split; [done|]; split; [done|]);
      unfold wrap32, u32_modulus; rewrite (Z.mod_small (3 * mss)), Z.mod_small by lia; done.
  - by rewrite <- Eh.
  - intros rwnd n. unfold cc_can_send, available_window, sat_sub. rewrite Z.geb_leb, Z.leb_le. lia.
Qed.

Lemma congestion_window_sound_witness :
  let c := foldl cc_apply (cc_with_mss 1000) [CcSend 9000; CcDup 5; CcDup 5] in
  cc_state (on_ack c 0 true 5) = FastRecovery /\ ssthresh (on_ack c 0 true 5) = 4500.
Proof.
  destruct (congestion_window_sound 1000 [CcSend 9000; CcDup 5; CcDup 5]) as (_ & _ & _ & H & _); [lia| |].
  - repeat constructor; unfold cc_op_ok, is_u32, u32_modulus; lia.
  - destruct (H 5) as (H1 & H2 & _); [done | reflexivity |]. split; [exact H1 | exact H2].
Defined.

End CongestionSpec.

(** ** The receive window *)

Module FlowSpec.
Import FlowControl WindowScale.

Inductive fc_op :=
| FcReceive (n : Z) | FcConsume (n : Z) | FcPeer (w : Z) | FcProbe (t : Z) | FcClear | FcReset.

Definition fc_apply (f : FlowController) (o : fc_op) : FlowController :=
  match o with
  | FcReceive n => (on_receive f n).2
  | FcConsume n => (on_consume f n).2
  | FcPeer w => update_peer_window f w
  | FcProbe t => on_probe_sent f t
  | FcClear => clear_window_update f
  | FcReset => fc_reset f
  end.

(** The peer sends no more than it was promised. *)
Fixpoint peer_honest (f : FlowController) (ops : list fc_op) : Prop :=
  match ops with
  | [] => True
  | o :: ops' =>
      match o with
      | FcReceive n => 0 <= n <= advertised f
      | FcConsume n => 0 <= n
      | _ => True
      end /\ peer_honest (fc_apply f o) ops'
  end.

(** The promise is the free space, or nothing when that is small. *)
Record fc_ok (size : Z) (f : FlowController) : Prop := mkFcOk {
  fc_ok_size : buffer_size f = size;
  fc_ok_used : 0 <= buffer_used f <= size;
  fc_ok_adv : advertised f = size - buffer_used f \/ (advertised f = 0 /\ size - buffer_used f < 536)
}.

Ltac flow_fields :=
  cbn [set_used set_adv set_probe buffer_size buffer_used advertised peer_window fc_state probe_count last_probe_tick window_update_needed fst snd] in *.

Lemma update_advertised_ok (size : Z) (f : FlowController) :
  buffer_size f = size -> 0 <= buffer_used f <= size -> fc_ok size (update_advertised_window f).
Proof.
  intros Hs Hu. unfold update_advertised_window, available_buffer, sat_sub, MIN_ADVERTISE_WINDOW. rewrite Hs.
  destruct (_ && _) eqn:E; bool_to_prop; split; flow_fields; (done || lia).
Qed.

(** Only the fields of the peer's side and the flags change. *)
Lemma fc_ok_same (size : Z) (f g : FlowController) :
  fc_ok size f -> buffer_size g = buffer_size f -> buffer_used g = buffer_used f -> advertised g = advertised f -> fc_ok size g.
Proof. intros [H1 H2 H3] E1 E2 E3. split; rewrite ?E1, ?E2, ?E3; done. Qed.

Lemma fc_apply_ok (size : Z) (f : FlowController) (o : fc_op) (ops : list fc_op) :
  0 <= size <= 1048576 -> fc_ok size f -> peer_honest f (o :: ops) -> fc_ok size (fc_apply f o).
Proof.
  intros Hz Hf [Ho _]. pose proof Hf as [Hs Hu Ha]. destruct o as [n|n|w|t| |]; cbn [fc_apply].
  - apply update_advertised_ok; [done|]. unfold sat_add32, u32_max. flow_fields. lia.
  - unfold on_consume. flow_fields.
    assert (H1 : fc_ok size (update_advertised_window (set_used f (sat_sub (buffer_used f) n))))
      by (apply update_advertised_ok; [done|]; unfold sat_sub; flow_fields; lia).
    set (f1 := update_advertised_window _) in *. clearbody f1.
    repeat match goal with |- context [if ?b then _ else _] => destruct b end; by apply (fc_ok_same size f1).
  - unfold update_peer_window. repeat match goal with |- context [if ?b then _ else _] => destruct b end; by apply (fc_ok_same size f).
  - by apply (fc_ok_same size f).
  - by apply (fc_ok_same size f).
  - unfold fc_reset. split; flow_fields; (done || lia).
Qed.

Lemma fc_run_ok (size : Z) (ops : list fc_op) (f : FlowController) :
  0 <= size <= 1048576 -> fc_ok size f -> peer_honest f ops -> fc_ok size (foldl fc_apply f ops).
Proof.
  intros Hz. revert f. induction ops as [|o ops IH]; intros f Hf Hp; [done|]. cbn [foldl].
  apply IH; [by eapply fc_apply_ok | apply Hp].
Qed.

(** The value on the wire, scaled back by the peer, is not more than the window. *)
Lemma scaled_back (w : WindowScaleOption) (win : Z) :
  0 <= rcv_scale w <= 14 -> is_u32 win -> 0 <= scale_rcv_window w (ws_advertised w win) <= win.
Proof.
  intros Hs Hw. unfold is_u32, u32_modulus in Hw. unfold scale_rcv_window, ws_advertised. destruct (ws_enabled w); cbn [andb]; [|lia].
  rewrite Z.gtb_ltb. destruct (Z.ltb_spec 0 (rcv_scale w)) as [H|H].
  - rewrite Z.shiftr_div_pow2, Z.shiftl_mul_pow2 by lia. set (p := 2 ^ rcv_scale w).
    assert (Hp : 0 < p <= 2 ^ 14) by (split; [apply Z.pow_pos_nonneg; lia | apply Z.pow_le_mono_r; lia]).
    pose proof (Z.mul_div_le win p ltac:(lia)). pose proof (Z.div_pos win p ltac:(lia) ltac:(lia)).
    unfold wrap32, u32_modulus. rewrite Z.mod_small; nia.
  - replace (rcv_scale w) with 0 by lia. rewrite Z.shiftl_0_r. unfold wrap32, u32_modulus. rewrite Z.mod_small; lia.
Qed.

(** the receive window is honest: as long as the peer sends no more than it was
    promised, the buffer never holds more than its size, the window promised is
    never more than what is free, it is never a silly one (less than 536 bytes and
    less than what is free), and the scaled 16-bit value on the wire promises no
    more than that. *)
Theorem advertised_window_honest (s : Z) (ops : list fc_op) (w : WindowScaleOption) :
  0 <= s -> peer_honest (with_buffer_size s) ops -> 0 <= rcv_scale w <= 14 ->
  let f := foldl fc_apply (with_buffer_size s) ops in
  0 <= buffer_used f <= buffer_size f /\ buffer_size f <= MAX_RECV_BUFFER_SIZE /\
  0 <= advertised f <= buffer_size f - buffer_used f /\
  (advertised f <> buffer_size f - buffer_used f -> advertised f = 0 /\ buffer_size f - buffer_used f < MIN_ADVERTISE_WINDOW) /\
  0 <= scale_rcv_window w (ws_advertised w (advertised f)) <= buffer_size f - buffer_used f.
Proof.
  intros Hs Hp Hw f. unfold MAX_RECV_BUFFER_SIZE, MIN_ADVERTISE_WINDOW. set (size := Z.min s 1048576).
  assert (Hf : fc_ok size f).
  { apply fc_run_ok; [lia | | done]. split; cbn; unfold size, MAX_RECV_BUFFER_SIZE; lia. }
  destruct Hf as [E Hu Ha]. rewrite E. split; [done|]. split; [lia|]. split; [lia|]. split; [lia|].
  pose proof (scaled_back w (advertised f) Hw) as Hsc. unfold is_u32, u32_modulus in Hsc. lia.
Qed.

Lemma advertised_window_honest_witness :
  let f := foldl fc_apply (with_buffer_size 10000) [FcReceive 9800; FcConsume 5000] in
  0 <= advertised f <= 5200.
Proof.
  destruct (advertised_window_honest 10000 [FcReceive 9800; FcConsume 5000] default_enabled) as (_ & _ & H & _);
    [lia | vm_compute; repeat split; discriminate | vm_compute; split; discriminate | exact H].
Defined.

(** *** Probing *)

Definition local_op (o : fc_op) : Prop := match o with FcPeer _ | FcReset => False | _ => True end.

(** Without a probing state the controller neither sends nor probes on a closed
    window, and only the peer or a reset ends that. *)
Definition stuck (f : FlowController) : Prop := peer_window f = 0 /\ fc_state f <> ZeroWindowProbe.

Lemma update_advertised_stuck (f : FlowController) : stuck f -> stuck (update_advertised_window f).
Proof.
  intros [Hp Hs]. unfold update_advertised_window. destruct (_ && _); [by split|]. split; [done|]. flow_fields. by destruct (_ && _).
Qed.

Lemma stuck_step (f : FlowController) (o : fc_op) : stuck f -> local_op o -> stuck (fc_apply f o).
Proof.
  intros Hf Ho. destruct o as [n|n|w|t| |]; try done; cbn [fc_apply].
  - by apply update_advertised_stuck.
  - unfold on_consume. flow_fields.
    assert (H1 : stuck (update_advertised_window (set_used f (sat_sub (buffer_used f) n)))) by by apply update_advertised_stuck.
    set (f1 := update_advertised_window _) in *. clearbody f1. destruct H1 as [H1 H2].
    repeat match goal with |- context [if ?b then _ else _] => destruct b end; by split.
Qed.

(** once the peer closed its window, filling and emptying the own receive
    buffer loses the probing state for good: from then on nothing may be sent
    and no probe is ever due, whatever is received and consumed, until the peer
    speaks first. *)
Theorem probing_lost (ops : list fc_op) (t : Z) :
  Forall local_op ops ->
  let f := foldl fc_apply fc_new ([FcPeer 0; FcReceive 65536; FcConsume 65536] ++ ops) in
  fc_can_send f = false /\ should_send_probe f t = false.
Proof.
  intros Ho f. assert (Hf : stuck f).
  { unfold f. rewrite foldl_app. assert (H : stuck (foldl fc_apply fc_new [FcPeer 0; FcReceive 65536; FcConsume 65536])) by done.
    revert H. generalize (foldl fc_apply fc_new [FcPeer 0; FcReceive 65536; FcConsume 65536]).
    induction Ho as [|o os Ho _ IH]; intros g Hg; [done|]. cbn [foldl]. apply IH. by apply stuck_step. }
  destruct Hf as [Hp Hs]. unfold fc_can_send, should_send_probe. rewrite Hp, (bool_decide_eq_false_2 _ Hs). done.
Qed.

Lemma probing_lost_witness :
  should_send_probe (foldl fc_apply fc_new [FcPeer 0; FcReceive 65536; FcConsume 65536; FcReceive 10]) 1000000 = false.
Proof. apply (probing_lost [FcReceive 10] 1000000). by repeat constructor. Defined.

(** The first probe waits for the interval, and the second for twice as long. *)
Lemma probe_intervals :
  let f := update_peer_window fc_new 0 in
  should_send_probe f 0 = false /\ should_send_probe f 500 = true /\ should_send_probe (on_probe_sent f 0) 500 = false /\
  should_send_probe (on_probe_sent f 0) 1000 = true.
Proof. repeat split. Qed.

End FlowSpec.
