(* ===== verification/TcpSegment.v ===== *)
(** * TCP segments and retransmission
    (src/src/net/endpoint/segment.rs and retransmit.rs, addresses of types.rs,
    the header reads of tcp_rx.rs)

    A queue table is a map from the pair of addresses of a connection; what
    iterates over it does so in the order of the keys, as a [BTreeMap]. *)

From stdpp Require Import base list gmap sorting.
From Stdlib Require Import ZArith Lia.
From S2P Require Import Prelude NetBytes.

Local Open Scope Z_scope.

(** ** Addresses *)

Record SocketAddr := mkAddr { sa_ip : list Z; sa_port : Z }.

#[export] Instance SocketAddr_eq_dec : EqDecision SocketAddr.
Proof. solve_decision. Defined.
#[export] Instance SocketAddr_countable : Countable SocketAddr.
Proof. apply (inj_countable' (fun a => (sa_ip a, sa_port a)) (fun p => mkAddr p.1 p.2)). by intros []. Defined.

Definition ADDR_ANY : SocketAddr := mkAddr [0; 0; 0; 0] 0.
Definition ADDR_LOCALHOST : SocketAddr := mkAddr [127; 0; 0; 1] 0.
Definition with_port (a : SocketAddr) (p : Z) : SocketAddr := mkAddr (sa_ip a) p.

(** The derived lexicographic order. *)
Fixpoint bytes_le (a b : list Z) : bool :=
  match a, b with
  | [], _ => true
  | _ :: _, [] => false
  | x :: a', y :: b' => (x <? y) || ((x =? y) && bytes_le a' b')
  end.
Definition addr_le (a b : SocketAddr) : bool :=
  if bool_decide (sa_ip a = sa_ip b) then sa_port a <=? sa_port b else bytes_le (sa_ip a) (sa_ip b).

Notation conn := (SocketAddr * SocketAddr)%type.
Definition conn_le (a b : conn) : bool := if bool_decide (a.1 = b.1) then addr_le a.2 b.2 else addr_le a.1 b.1.

(** The entries of a map in the order of their keys. *)
Definition in_key_order {A} (m : gmap conn A) : list (conn * A) :=
  merge_sort (fun x y => Is_true (conn_le x.1 y.1)) (map_to_list m).

(** ** segment.rs *)

Module Segment.

Definition FIN : Z := 1.
Definition SYN : Z := 2.
Definition RST : Z := 4.
Definition PSH : Z := 8.
Definition ACK : Z := 16.
Definition URG : Z := 32.

(** [u32::from_be_bytes] and [to_be_bytes] *)
Definition from_be32 (a b c d : Z) : Z := Z.lor (Z.shiftl (from_be16 a b) 16) (from_be16 c d).
Definition to_be32 (w : Z) : list Z := to_be16 (Z.land (Z.shiftr w 16) 65535) ++ to_be16 (Z.land w 65535).
Definition get32 (d : list Z) (i : nat) : Z := from_be32 (get d i) (get d (i + 1)) (get d (i + 2)) (get d (i + 3)).

Record TcpSegmentBuilder := mkSegment {
  src_port : Z;
  dst_port : Z;
  seq_num : Z;
  ack_num : Z;
  flags : Z;
  window : Z;
  payload : list Z
}.

Definition segment_new (src dst : Z) : TcpSegmentBuilder := mkSegment src dst 0 0 0 65535 [].

Section Setters.
Context (b : TcpSegmentBuilder).
Definition seg_seq (s : Z) : TcpSegmentBuilder := mkSegment (src_port b) (dst_port b) s (ack_num b) (flags b) (window b) (payload b).
Definition seg_ack (a : Z) : TcpSegmentBuilder := mkSegment (src_port b) (dst_port b) (seq_num b) a (flags b) (window b) (payload b).
Definition seg_flags (f : Z) : TcpSegmentBuilder := mkSegment (src_port b) (dst_port b) (seq_num b) (ack_num b) f (window b) (payload b).
Definition seg_syn : TcpSegmentBuilder := seg_flags (Z.lor (flags b) SYN).
Definition seg_ack_flag : TcpSegmentBuilder := seg_flags (Z.lor (flags b) ACK).
Definition seg_fin : TcpSegmentBuilder := seg_flags (Z.lor (flags b) FIN).
Definition seg_rst : TcpSegmentBuilder := seg_flags (Z.lor (flags b) RST).
Definition seg_window (w : Z) : TcpSegmentBuilder := mkSegment (src_port b) (dst_port b) (seq_num b) (ack_num b) (flags b) w (payload b).
Definition seg_data (d : list Z) : TcpSegmentBuilder := mkSegment (src_port b) (dst_port b) (seq_num b) (ack_num b) (flags b) (window b) d.
End Setters.

Definition segment_build (b : TcpSegmentBuilder) : list Z :=
  let data_offset := 5 in
  let header_len := 20%nat in
  let s := replicate (header_len + length (payload b)) 0 in
  let s := put s 0 (to_be16 (src_port b)) in
  let s := put s 2 (to_be16 (dst_port b)) in
  let s := put s 4 (to_be32 (seq_num b)) in
  let s := put s 8 (to_be32 (ack_num b)) in
  let data_off_flags := Z.lor (wrap16 (Z.shiftl data_offset 12)) (flags b) in
  let s := put s 12 (to_be16 data_off_flags) in
  let s := put s 14 (to_be16 (window b)) in
  let s := put s 16 (to_be16 0) in
  let s := put s 18 (to_be16 0) in
  match payload b with
  | [] => s
  | d => put s header_len d
  end.

(** [while i + 1 < segment.len() { .. i += 2 }] and the odd byte after it. *)
Fixpoint sum_pairs (sum : Z) (l : list Z) : Z :=
  match l with
  | a :: b :: l' => sum_pairs (wrap32 (sum + from_be16 a b)) l'
  | [a] => wrap32 (sum + Z.shiftl a 8)
  | [] => sum
  end.

Definition tcp_pseudo_sum (src dst : list Z) (len : nat) : Z :=
  add_words 0 [get16 src 0; get16 src 2; get16 dst 0; get16 dst 2; 6; wrap32 (Z.of_nat len)].

Definition calculate_checksum (segment src_ip dst_ip : list Z) : list Z :=
  let s := put segment 16 [0; 0] in
  let sum := fold16 (sum_pairs (tcp_pseudo_sum src_ip dst_ip (length s)) s) in
  put s 16 (to_be16 (not16 sum)).

(** The reads of [process_tcp_segment]. *)
Record tcp_header := mkHeader {
  h_src_port : Z;
  h_dst_port : Z;
  h_seq : Z;
  h_ack : Z;
  h_offset : nat;
  h_flags : Z
}.

Definition read_header (s : list Z) : tcp_header :=
  let data_off_flags := get16 s 12 in
  mkHeader (get16 s 0) (get16 s 2) (get32 s 4) (get32 s 8)
    (Z.to_nat (Z.land (Z.shiftr data_off_flags 12) 15) * 4) (Z.land data_off_flags 63).

End Segment.

(** ** retransmit.rs *)

Module Retransmit.

Record UnackedSegment := mkUnacked {
  ua_seq : Z;
  ua_data : list Z;
  send_tick : Z;
  ua_count : Z;
  is_retransmit : bool
}.

Record RtoCalculator := mkRto { srtt : option Z; rttvar : option Z; rto : Z; rto_min : Z; rto_max : Z }.

Definition rto_new : RtoCalculator := mkRto None None 1000 200 60000.

Definition clamp (x lo hi : Z) : Z := if x <? lo then lo else if hi <? x then hi else x.

Definition set_estimate (c : RtoCalculator) (s v : Z) : RtoCalculator :=
  mkRto (Some s) (Some v) (clamp (s +w Z.max 1 (4 *w v)) (rto_min c) (rto_max c)) (rto_min c) (rto_max c).

(** The arm of one known estimate is [unreachable!()]. *)
Definition rto_update (c : RtoCalculator) (rtt : Z) : outcome RtoCalculator :=
  match srtt c, rttvar c with
  | None, None => Ret (set_estimate c rtt (rtt / 2))
  | Some s, Some v =>
      let diff := if rtt >? s then rtt - s else s - rtt in
      Ret (set_estimate c (((7 *w s) +w rtt) / 8) (((3 *w v) +w diff) / 4))
  | _, _ => Panic
  end.

Definition backoff (c : RtoCalculator) : RtoCalculator :=
  mkRto (srtt c) (rttvar c) (Z.min (rto c *w 2) (rto_max c)) (rto_min c) (rto_max c).
Definition rto_reset (c : RtoCalculator) : RtoCalculator := mkRto None None 1000 (rto_min c) (rto_max c).

Record RetransmitQueue := mkQueue { unacked : list UnackedSegment; rto_calc : RtoCalculator; max_retries : Z }.

Definition queue_new : RetransmitQueue := mkQueue [] rto_new 5.

Definition queue_push (q : RetransmitQueue) (seq : Z) (data : list Z) (tick : Z) : RetransmitQueue :=
  mkQueue (unacked q ++ [mkUnacked seq data tick 0 false]) (rto_calc q) (max_retries q).

Definition seq_before (a b : Z) : bool :=
  let diff := wrap32 (b - a) in
  (diff >? 0) && (diff <? Z.shiftl 1 31).
Definition seq_leq (a b : Z) : bool := (a =? b) || seq_before a b.

(** The sample of a segment that is acknowledged (Karn's rule). *)
Definition sample (c : RtoCalculator) (seg : UnackedSegment) (tick : Z) : outcome RtoCalculator :=
  if negb (is_retransmit seg) then
    let rtt := Z.max 0 (tick - send_tick seg) in
    if rtt >? 0 then rto_update c rtt else Ret c
  else Ret c.

Fixpoint ack_loop (segs : list UnackedSegment) (c : RtoCalculator) (ack tick : Z) : outcome (list UnackedSegment * RtoCalculator) :=
  match segs with
  | [] => Ret ([], c)
  | seg :: rest =>
      if seq_before (ua_seq seg) ack then let! c1 := sample c seg tick in ack_loop rest c1 ack tick
      else Ret (segs, c)
  end.
Definition ack_received (q : RetransmitQueue) (ack tick : Z) : outcome RetransmitQueue :=
  let! (segs, c) := ack_loop (unacked q) (rto_calc q) ack tick in
  Ret (mkQueue segs c (max_retries q)).

Definition check_timeout (q : RetransmitQueue) (tick : Z) : option UnackedSegment :=
  match unacked q with
  | seg :: _ => if Z.max 0 (tick - send_tick seg) >=? rto (rto_calc q) then Some seg else None
  | [] => None
  end.

Definition retransmit (q : RetransmitQueue) (tick : Z) : option (list Z) * RetransmitQueue :=
  match unacked q with
  | seg :: rest =>
      if ua_count seg >=? max_retries q then (None, q)
      else
        (Some (ua_data seg),
         mkQueue (mkUnacked (ua_seq seg) (ua_data seg) tick ((ua_count seg + 1) mod 256) true :: rest) (backoff (rto_calc q)) (max_retries q))
  | [] => (None, q)
  end.

(** *** The table of queues *)

Notation queues := (gmap conn RetransmitQueue).

Definition get_or_create (qs : queues) (k : conn) : bool * queues :=
  match qs !! k with
  | None => (true, <[k := queue_new]> qs)
  | Some _ => (false, qs)
  end.
Definition queues_push (qs : queues) (k : conn) (seq : Z) (data : list Z) (tick : Z) : queues :=
  match qs !! k with
  | Some q => <[k := queue_push q seq data tick]> qs
  | None => qs
  end.
Definition queues_ack (qs : queues) (k : conn) (ack tick : Z) : outcome queues :=
  match qs !! k with
  | Some q => let! q1 := ack_received q ack tick in Ret (<[k := q1]> qs)
  | None => Ret qs
  end.
Definition queues_remove (qs : queues) (k : conn) : queues := delete k qs.

(** What the check does with one queue. *)
Inductive timeout_action := NotDue | Resend (data : list Z) | GiveUp.

Definition check_queue (q : RetransmitQueue) (tick : Z) : timeout_action * RetransmitQueue :=
  match check_timeout q tick with
  | None => (NotDue, q)
  | Some _ =>
      match retransmit q tick with
      | (Some d, q1) => (Resend d, q1)
      | (None, q1) => (GiveUp, q1)
      end
  end.

(** [check_retransmit_timeouts] over the queues: what is sent, in order, and the
    connections that are given up, whose control blocks go as well. *)
Definition check_timeouts (qs : queues) (tick : Z) : list (conn * list Z) * list conn * queues :=
  let visit acc kq :=
    let '(sent, gone, qs) := acc in
    let '(k, q) := kq in
    match check_queue q tick with
    | (NotDue, _) => acc
    | (Resend d, q1) => (sent ++ [(k, d)], gone, <[k := q1]> qs)
    | (GiveUp, q1) => (sent, gone ++ [k], <[k := q1]> qs)
    end in
  let '(sent, gone, qs1) := foldl visit ([], [], qs) (in_key_order qs) in
  (sent, gone, foldl (fun m k => delete k m) qs1 gone).

End Retransmit.
