(* ===== verification/TcpSegmentTheorems.v ===== *)
(** * Theorems on TCP segments and retransmission *)

From stdpp Require Import base list gmap sorting.
From Stdlib Require Import ZArith Lia.
From S2P Require Import Prelude NetBytes TcpSegment TransportTheorems.

Local Open Scope Z_scope.

(** ** Segments *)

Module SegmentSpec.
Import Segment.

Lemma from_to_be32 (w : Z) : is_u32 w ->
  from_be32 (Z.land (Z.shiftr (Z.land (Z.shiftr w 16) 65535) 8) 255) (Z.land (Z.land (Z.shiftr w 16) 65535) 255)
    (Z.land (Z.shiftr (Z.land w 65535) 8) 255) (Z.land (Z.land w 65535) 255) = w.
Proof.
  intros Hw. unfold is_u32, u32_modulus in Hw. unfold from_be32.
  change 65535 with (Z.ones 16). rewrite !Z.land_ones, (Z.shiftr_div_pow2 w 16) by lia. change (2 ^ 16) with 65536.
  assert (H1 : is_u16 (w / 65536 mod 65536)) by (unfold is_u16; apply Z.mod_pos_bound; lia).
  assert (H2 : is_u16 (w mod 65536)) by (unfold is_u16; apply Z.mod_pos_bound; lia).
  rewrite (from_to_be16 _ H1), (from_to_be16 _ H2). unfold is_u16 in *.
  rewrite (Z.mod_small (w / 65536)) by (split; [apply Z.div_pos; lia | apply Z.div_lt_upper_bound; lia]).
  rewrite Z.lor_comm. assert (E : Z.land (w mod 65536) (Z.shiftl (w / 65536) 16) = 0).
  { apply Z.bits_inj'. intros i Hi. rewrite Z.land_spec, Z.bits_0. destruct (Z.ltb_spec i 16).
    - rewrite Z.shiftl_spec_low by lia. apply andb_false_r.
    - change 65536 with (2 ^ 16). rewrite Z.mod_pow2_bits_high by lia. done. }
  rewrite <- Z.lxor_lor, <- Z.add_nocarry_lxor by done.
  rewrite Z.shiftl_mul_pow2 by lia. change (2 ^ 16) with 65536. pose proof (Z.div_mod w 65536 ltac:(lia)). lia.
Qed.

Lemma to_be32_bytes (w : Z) : bytes (to_be32 w).
Proof. unfold to_be32, bytes. rewrite Forall_app. split; apply to_be16_bytes. Qed.

Record segment_ok (b : TcpSegmentBuilder) : Prop := mkSegmentOk {
  so_src : is_u16 (src_port b);
  so_dst : is_u16 (dst_port b);
  so_seq : is_u32 (seq_num b);
  so_ack : is_u32 (ack_num b);
  so_flags : 0 <= flags b < 64;
  so_payload : bytes (payload b);
  so_len : Z.of_nat (length (payload b)) <= 65515
}.

(** The bytes of a segment with the checksum field [c]. *)
Definition segment_bytes (b : TcpSegmentBuilder) (c : list Z) : list Z :=
  to_be16 (src_port b) ++ to_be16 (dst_port b) ++ to_be32 (seq_num b) ++ to_be32 (ack_num b) ++
  to_be16 (Z.lor 20480 (flags b)) ++ to_be16 (window b) ++ c ++ [0; 0] ++ payload b.

Lemma build_layout (b : TcpSegmentBuilder) : segment_build b = segment_bytes b [0; 0].
Proof.
  unfold segment_build, segment_bytes. rewrite replicate_add. change (replicate 20 0) with (repeat 0 20). cbn [repeat].
  change (wrap16 (Z.shiftl 5 12)) with 20480.
  change (to_be16 0) with [0; 0]. unfold to_be32, to_be16, put. cbn [app take drop length Nat.add].
  rewrite !drop_0. destruct (payload b) as [|x p]; [done|]. cbn [app length replicate].
  rewrite (drop_ge (0 :: _)) by (cbn [length]; rewrite length_replicate; lia). by rewrite app_nil_r.
Qed.

Lemma segment_put (b : TcpSegmentBuilder) (c d : list Z) :
  length c = 2%nat -> length d = 2%nat -> put (segment_bytes b c) 16 d = segment_bytes b d.
Proof.
  intros Hc Hd. destruct c as [|c0 [|c1 [|]]]; try done. destruct d as [|d0 [|d1 [|]]]; try done.
Qed.

Lemma sum_pairs_words (l : list Z) (s : Z) : sum_pairs s l = add_words s (words l).
Proof.
  remember (length l) as n eqn:Hn. revert l s Hn. induction n as [n IH] using lt_wf_ind. intros l s ->.
  destruct l as [|a [|b l]]; [done | |].
  - cbn [sum_pairs words add_words foldl]. unfold from_be16. by rewrite Z.lor_0_r.
  - cbn [sum_pairs words]. rewrite (IH (length l)) by (done || cbn; lia). done.
Qed.

Lemma bytes_get16 (l : list Z) (i : nat) : bytes l -> is_u16 (get16 l i).
Proof. intros H. apply from_be16_range; by apply bytes_get. Qed.

Lemma pseudo_eq (src dst : list Z) (n : nat) :
  bytes src -> bytes dst -> Z.of_nat n <= 65535 ->
  tcp_pseudo_sum src dst n = zsum [get16 src 0; get16 src 2; get16 dst 0; get16 dst 2; 6; Z.of_nat n] /\
  0 <= tcp_pseudo_sum src dst n <= 400000.
Proof.
  intros Hs Hd Hn. unfold tcp_pseudo_sum. replace (wrap32 (Z.of_nat n)) with (Z.of_nat n) by (unfold wrap32, u32_modulus; rewrite Z.mod_small; lia).
  pose proof (bytes_get16 src 0 Hs). pose proof (bytes_get16 src 2 Hs). pose proof (bytes_get16 dst 0 Hd). pose proof (bytes_get16 dst 2 Hd).
  assert (Hf : Forall is_u16 [get16 src 0; get16 src 2; get16 dst 0; get16 dst 2; 6; Z.of_nat n])
    by (repeat (apply Forall_cons_2; [first [done | unfold is_u16; lia]|]); by apply Forall_nil_2).
  pose proof (zsum_bound _ Hf) as Hz. cbn [length] in Hz.
  rewrite add_words_eq by (done || (cbn [length]; lia)). rewrite Z.add_0_l. split; [done|]. lia.
Qed.

Lemma segment_words (b : TcpSegmentBuilder) (c0 c1 : Z) :
  zsum (words (segment_bytes b [c0; c1])) = zsum (words (segment_bytes b [0; 0])) + from_be16 c0 c1.
Proof.
  unfold segment_bytes, to_be32, to_be16. cbn [app words]. rewrite !zsum_cons. change (from_be16 0 0) with 0. ring.
Qed.

Lemma segment_bytes_ok (b : TcpSegmentBuilder) (c : list Z) : segment_ok b -> bytes c -> bytes (segment_bytes b c).
Proof.
  intros Hb Hc. unfold segment_bytes, bytes. rewrite !Forall_app.
  repeat split; try apply to_be16_bytes; try apply to_be32_bytes; try done; [|apply Hb].
  repeat constructor; unfold is_byte; lia.
Qed.

Lemma segment_bytes_length (b : TcpSegmentBuilder) (c : list Z) : length c = 2%nat -> length (segment_bytes b c) = (20 + length (payload b))%nat.
Proof. intros Hc. unfold segment_bytes, to_be32. rewrite !length_app. cbn [length to_be16]. lia. Qed.

(** The flags and the offset share a word. *)
Lemma offset_flags (f : Z) : 0 <= f < 64 ->
  is_u16 (Z.lor 20480 f) /\ Z.land (Z.shiftr (Z.lor 20480 f) 12) 15 = 5 /\ Z.land (Z.lor 20480 f) 63 = f.
Proof.
  intros Hf. assert (H : Forall (fun f => is_u16 (Z.lor 20480 f) /\ Z.land (Z.shiftr (Z.lor 20480 f) 12) 15 = 5 /\ Z.land (Z.lor 20480 f) 63 = f)
    (map Z.of_nat (seq 0 64))).
  { unfold is_u16. cbn [seq map]. repeat (constructor; [vm_compute; repeat split; discriminate|]). constructor. }
  rewrite Forall_forall in H. apply H. apply list_elem_of_fmap. exists (Z.to_nat f). split; [lia|]. apply elem_of_seq. lia.
Qed.

Lemma read_header_bytes (b : TcpSegmentBuilder) (c : list Z) :
  segment_ok b -> length c = 2%nat ->
  read_header (segment_bytes b c) = mkHeader (src_port b) (dst_port b) (seq_num b) (ack_num b) 20 (flags b) /\
  drop 20 (segment_bytes b c) = payload b.
Proof.
  intros Hb Hc. destruct c as [|c0 [|c1 [|]]]; try done. destruct (offset_flags (flags b) (so_flags _ Hb)) as (H1 & H2 & H3).
  split; [|done]. unfold read_header.
  assert (E : get16 (segment_bytes b [c0; c1]) 12 = Z.lor 20480 (flags b)) by exact (from_to_be16 _ H1).
  rewrite E, H2, H3. change (Z.to_nat 5 * 4)%nat with 20%nat. f_equal.
  - exact (from_to_be16 _ (so_src _ Hb)).
  - exact (from_to_be16 _ (so_dst _ Hb)).
  - exact (from_to_be32 _ (so_seq _ Hb)).
  - exact (from_to_be32 _ (so_ack _ Hb)).
Qed.

Lemma segment_spec (b : TcpSegmentBuilder) (src dst : list Z) :
  segment_ok b -> bytes src -> bytes dst ->
  let s := calculate_checksum (segment_build b) src dst in
  length s = (20 + length (payload b))%nat /\ bytes s /\
  read_header s = mkHeader (src_port b) (dst_port b) (seq_num b) (ack_num b) 20 (flags b) /\
  drop (h_offset (read_header s)) s = payload b /\
  valid_sum (zsum [get16 src 0; get16 src 2; get16 dst 0; get16 dst 2; 6; Z.of_nat (length s)]) s.
Proof.
  intros Hb Hs Hd s. unfold s, calculate_checksum. rewrite build_layout, segment_put by done.
  set (s0 := segment_bytes b [0; 0]). set (sum := sum_pairs _ s0). set (f := to_be16 (not16 (fold16 sum))).
  assert (Hf : length f = 2%nat) by done. assert (Eput : put s0 16 f = segment_bytes b f) by by apply segment_put. rewrite Eput.
  assert (Hbf : bytes f) by apply to_be16_bytes. pose proof (segment_bytes_length b f Hf) as Hlen.
  destruct (read_header_bytes b f Hb Hf) as [Hh Hp]. split; [done|]. split; [by apply segment_bytes_ok|]. split; [done|].
  split; [by rewrite Hh|].
  assert (Hl0 : length s0 = (20 + length (payload b))%nat) by by apply segment_bytes_length.
  pose proof (so_len _ Hb) as Hn. destruct (pseudo_eq src dst (length s0) Hs Hd ltac:(lia)) as [Ep Hpr].
  assert (Hw0 : Forall is_u16 (words s0)) by (apply words_u16, segment_bytes_ok; [done | repeat constructor; unfold is_byte; lia]).
  pose proof (zsum_bound _ Hw0) as Hz0.
  assert (Hwl : Z.of_nat (length (words s0)) <= 32768).
  { rewrite words_length, Nat2Z.inj_div. apply Z.lt_succ_r, Z.div_lt_upper_bound; lia. }
  assert (Es : sum = tcp_pseudo_sum src dst (length s0) + zsum (words s0)).
  { unfold sum. rewrite sum_pairs_words. apply add_words_eq; (done || lia). }
  assert (Ef : fold16 sum = ones_sum sum) by (apply fold16_eq; rewrite Es; unfold is_u32, u32_modulus; lia).
  pose proof (ones_sum_range sum ltac:(lia)) as [Hr _].
  assert (Hc : is_u16 (not16 (fold16 sum)) /\ not16 (fold16 sum) = 65535 - ones_sum sum).
  { rewrite Ef. unfold not16, wrap16, is_u16. rewrite Z.mod_small; lia. }
  destruct Hc as [Hc Ec]. unfold valid_sum. rewrite Hlen, <- Hl0, <- Ep. unfold f, to_be16. rewrite segment_words, (from_to_be16 _ Hc), Ec.
  rewrite Z.add_assoc. fold s0. rewrite <- Es. apply ones_sum_complement. lia.
Qed.

(** segments round trip: the bytes the builder makes, with their checksum,
    are read back by the receiver as the ports, the numbers and the flags they
    were built from, with the payload behind the header, and the checksum is the
    one that makes the sum with the pseudo header valid. *)
Theorem segment_roundtrip (b : TcpSegmentBuilder) (src dst : list Z) :
  segment_ok b -> bytes src -> bytes dst ->
  let s := calculate_checksum (segment_build b) src dst in
  length s = (20 + length (payload b))%nat /\ bytes s /\
  read_header s = mkHeader (src_port b) (dst_port b) (seq_num b) (ack_num b) 20 (flags b) /\
  drop (h_offset (read_header s)) s = payload b /\
  valid_sum (zsum [get16 src 0; get16 src 2; get16 dst 0; get16 dst 2; 6; Z.of_nat (length s)]) s.
Proof. apply segment_spec. Qed.

Lemma segment_roundtrip_witness :
  let b := seg_data (seg_ack_flag (seg_ack (seg_seq (segment_new 8080 80) 2000) 3000)) [72; 101; 108] in
  let s := calculate_checksum (segment_build b) [10; 0; 0; 1] [10; 0; 0; 2] in
  drop (h_offset (read_header s)) s = [72; 101; 108].
Proof.
  apply (segment_roundtrip (seg_data (seg_ack_flag (seg_ack (seg_seq (segment_new 8080 80) 2000) 3000)) [72; 101; 108]) [10; 0; 0; 1] [10; 0; 0; 2]).
  - split; [unfold is_u16; cbn; lia | unfold is_u16; cbn; lia | unfold is_u32, u32_modulus; cbn; lia
      | unfold is_u32, u32_modulus; cbn; lia | vm_compute; split; [discriminate | done] | by apply bytes_check | cbn; lia].
  - by apply bytes_check.
  - by apply bytes_check.
Defined.

End SegmentSpec.

(** ** Retransmission *)

Module RetransmitSpec.
Import Retransmit.

(** *** Sequence numbers *)

(** sequence numbers are compared on the circle: a number that lies [d] ahead,
    with wrap-around, counts as later exactly when [d] is positive and below
    half of the circle; so no two numbers are before each other. *)
Theorem seq_before_circle (a d : Z) :
  is_u32 a -> is_u32 d ->
  seq_before a (wrap32 (a + d)) = bool_decide (0 < d < 2 ^ 31) /\
  (seq_before a (wrap32 (a + d)) = true -> seq_before (wrap32 (a + d)) a = false).
Proof.
  intros Ha Hd. unfold is_u32, u32_modulus in *. unfold seq_before, wrap32, u32_modulus.
  rewrite Zminus_mod_idemp_l, Zminus_mod_idemp_r. replace (a + d - a) with d by lia. replace (a - (a + d)) with (- d) by lia.
  rewrite (Z.mod_small d) by lia. change (Z.shiftl 1 31) with (2 ^ 31). split.
  - destruct (bool_decide _) eqn:E; bool_to_prop; lia.
  - intros H. bool_to_prop. rewrite Z_mod_nz_opp_full by (rewrite Z.mod_small; lia). rewrite Z.mod_small by lia. lia.
Qed.

Lemma seq_before_circle_witness :
  seq_before 0xFFFFFFF0 (wrap32 (0xFFFFFFF0 + 32)) = bool_decide (0 < 32 < 2 ^ 31).
Proof. apply (seq_before_circle 0xFFFFFFF0 32); unfold is_u32, u32_modulus; lia. Defined.

(** *** The time-out *)

Inductive rto_op := RtoSample (rtt : Z) | RtoBackoff | RtoReset.

Definition rto_apply (c : RtoCalculator) (o : rto_op) : outcome RtoCalculator :=
  match o with
  | RtoSample r => rto_update c r
  | RtoBackoff => Ret (backoff c)
  | RtoReset => Ret (rto_reset c)
  end.

Record rto_ok (c : RtoCalculator) : Prop := mkRtoOk {
  ro_both : srtt c = None <-> rttvar c = None;
  ro_min : rto_min c = 200;
  ro_max : rto_max c = 60000;
  ro_range : 200 <= rto c <= 60000
}.

Lemma rto_new_ok : rto_ok rto_new.
Proof. split; cbn; (done || lia). Qed.

Lemma set_estimate_ok (c : RtoCalculator) (s v : Z) : rto_ok c -> rto_ok (set_estimate c s v).
Proof.
  intros [_ Hmin Hmax _]. split; cbn [set_estimate srtt rttvar rto rto_min rto_max]; try done. rewrite Hmin, Hmax. unfold clamp.
  destruct (Z.ltb_spec (s +w Z.max 1 (4 *w v)) 200); [lia|]. destruct (Z.ltb_spec 60000 (s +w Z.max 1 (4 *w v))); lia.
Qed.

Lemma rto_update_ok (c : RtoCalculator) (r : Z) : rto_ok c -> exists c', rto_update c r = Ret c' /\ rto_ok c'.
Proof.
  intros H. pose proof (ro_both _ H) as Hb. unfold rto_update. destruct (srtt c), (rttvar c);
    try (eexists; split; [reflexivity | by apply set_estimate_ok]); naive_solver.
Qed.

Lemma backoff_ok (c : RtoCalculator) : rto_ok c -> rto_ok (backoff c) /\ rto (backoff c) = Z.min (2 * rto c) 60000.
Proof.
  intros [Hb Hmin Hmax Hr]. assert (E : rto c *w 2 = 2 * rto c) by (unfold wrap64, u64_modulus; rewrite Z.mod_small; lia).
  split; [split|]; cbn [backoff srtt rttvar rto rto_min rto_max]; try done; rewrite E, Hmax; lia.
Qed.

Lemma rto_apply_ok (c : RtoCalculator) (o : rto_op) : rto_ok c -> exists c', rto_apply c o = Ret c' /\ rto_ok c'.
Proof.
  intros H. destruct o as [r| |]; cbn [rto_apply]; [by apply rto_update_ok | exists (backoff c); split; [done | by apply backoff_ok] |].
  eexists. split; [done|]. destruct H. split; cbn; (done || lia).
Qed.

(** the retransmission time-out is always defined and stays between 200 and
    60000 ticks, whatever samples are taken (the arithmetic may even wrap
    around), and the [unreachable!] arm of the update is never reached. *)
Theorem rto_stays_in_bounds (ops : list rto_op) :
  exists c, ofold rto_apply rto_new ops = Ret c /\ 200 <= rto c <= 60000 /\ (srtt c = None <-> rttvar c = None).
Proof.
  assert (H : forall c, rto_ok c -> exists c', ofold rto_apply c ops = Ret c' /\ rto_ok c').
  { induction ops as [|o ops IH]; intros c Hc; [by exists c|]. cbn [ofold]. destruct (rto_apply_ok c o Hc) as (c1 & -> & H1). by apply IH. }
  destruct (H _ rto_new_ok) as (c & E & Hc). exists c. split; [done|]. split; apply Hc.
Qed.

(** *** Acknowledgements *)

Fixpoint drop_acked (ack : Z) (l : list UnackedSegment) : list UnackedSegment :=
  match l with
  | [] => []
  | s :: l' => if seq_before (ua_seq s) ack then drop_acked ack l' else l
  end.

Lemma sample_ok (c : RtoCalculator) (s : UnackedSegment) (t : Z) : rto_ok c -> exists c', sample c s t = Ret c' /\ rto_ok c'.
Proof.
  intros H. unfold sample. destruct (negb _); [|by exists c]. destruct (_ >? 0); [by apply rto_update_ok | by exists c].
Qed.

Lemma ack_loop_ok (l : list UnackedSegment) (c : RtoCalculator) (ack t : Z) :
  rto_ok c -> exists c', ack_loop l c ack t = Ret (drop_acked ack l, c') /\ rto_ok c'.
Proof.
  revert c. induction l as [|s l IH]; intros c Hc; cbn [ack_loop drop_acked]; [by exists c|].
  destruct (seq_before _ _); [|by exists c]. destruct (sample_ok c s t Hc) as (c1 & -> & H1). cbn [obind]. by apply IH.
Qed.

(** An acknowledgement of part of a segment removes the whole of it. *)
Lemma partial_ack_drops_segment :
  ack_received (queue_push queue_new 1000 [1; 2; 3] 0) 1001 0 = Ret (mkQueue [] rto_new 5).
Proof. reflexivity. Qed.

(** *** Giving up *)

(** Checks at the given ticks, up to the one that gives up. *)
Fixpoint check_run (q : RetransmitQueue) (ticks : list Z) : list timeout_action * RetransmitQueue :=
  match ticks with
  | [] => ([], q)
  | t :: ts =>
      match check_queue q t with
      | (GiveUp, q1) => ([GiveUp], q1)
      | (a, q1) => let '(l, q2) := check_run q1 ts in (a :: l, q2)
      end
  end.

Definition resends (l : list timeout_action) : Z :=
  foldr (fun a n => match a with Resend _ => n + 1 | _ => n end) 0 l.

(** The schedule of a segment sent at [sent], with [wait] ticks to the next time-out and
    [left] retransmissions left: nothing before the end of the wait, then the segment
    again with a wait twice as long (at most a minute), and with none left the end. *)
Fixpoint schedule (data : list Z) (sent wait : Z) (left : nat) (ticks : list Z) : list timeout_action :=
  match ticks with
  | [] => []
  | t :: ts =>
      if t <? sent + wait then NotDue :: schedule data sent wait left ts
      else
        match left with
        | O => [GiveUp]
        | S n => Resend data :: schedule data t (Z.min (2 * wait) 60000) n ts
        end
  end.

(** *** The queues of a connection *)

Inductive queue_op := QPush (seq : Z) (data : list Z) (tick : Z) | QAck (ack tick : Z) | QCheck (tick : Z).

Definition queue_apply (q : RetransmitQueue) (o : queue_op) : outcome RetransmitQueue :=
  match o with
  | QPush seq data tick => Ret (queue_push q seq data tick)
  | QAck ack tick => ack_received q ack tick
  | QCheck tick => Ret (check_queue q tick).2
  end.

Record queue_ok (q : RetransmitQueue) : Prop := {
  qo_rto : rto_ok (rto_calc q);
  qo_retries : max_retries q = 5;
  qo_counts : Forall (fun u => 0 <= ua_count u <= 5) (unacked q) }.

Lemma drop_acked_counts (P : UnackedSegment -> Prop) (ack : Z) (l : list UnackedSegment) : Forall P l -> Forall P (drop_acked ack l).
Proof. induction 1 as [|u l Hu Hl IH]; cbn [drop_acked]; [done|]. destruct (seq_before _ _); [done | by constructor]. Qed.

Lemma check_queue_ok (q : RetransmitQueue) (t : Z) : queue_ok q -> queue_ok (check_queue q t).2.
Proof.
  intros Hq. pose proof Hq as [Hr Hm Hc]. unfold check_queue, check_timeout, retransmit. destruct (unacked q) as [|u rest] eqn:E; [done|].
  destruct (_ >=? _); [|done]. rewrite Hm. apply Forall_cons in Hc as [Hu Hc]. destruct (Z.geb_spec (ua_count u) 5); [done|]. cbn [snd].
  split; cbn [rto_calc max_retries unacked]; [by apply backoff_ok | done|]. constructor; [cbn [ua_count]; rewrite Z.mod_small; lia | done].
Qed.

Lemma queue_apply_ok (q : RetransmitQueue) (o : queue_op) : queue_ok q -> exists q', queue_apply q o = Ret q' /\ queue_ok q'.
Proof.
  intros Hq. pose proof Hq as [Hr Hm Hc]. destruct o as [sq data t|ack t|t]; cbn [queue_apply].
  - eexists. split; [done|]. split; cbn [queue_push rto_calc max_retries unacked]; [done | done|]. apply Forall_app. split; [done|]. repeat constructor; cbn; lia.
  - unfold ack_received. destruct (ack_loop_ok (unacked q) (rto_calc q) ack t Hr) as (c' & -> & Hc'). eexists. split; [done|]. split; [done | done | by apply drop_acked_counts].
  - eexists. split; [done | by apply check_queue_ok].
Qed.

Lemma queue_run_ok (ops : list queue_op) (q : RetransmitQueue) : queue_ok q -> exists q', ofold queue_apply q ops = Ret q' /\ queue_ok q'.
Proof.
  revert q. induction ops as [|o ops IH]; intros q Hq; [by exists q|]. cbn [ofold]. destruct (queue_apply_ok q o Hq) as (q1 & -> & H1). by apply IH.
Qed.

Lemma fresh_queue_ok : queue_ok queue_new.
Proof. split; [apply rto_new_ok | done | constructor]. Qed.

Lemma schedule_resends (data : list Z) (ticks : list Z) (sent wait : Z) (left : nat) :
  0 <= resends (schedule data sent wait left ticks) <= Z.of_nat left /\
  (GiveUp ∈ schedule data sent wait left ticks -> resends (schedule data sent wait left ticks) = Z.of_nat left).
Proof.
  revert sent wait left. induction ticks as [|t ts IH]; intros sent wait left; cbn [schedule]; [cbn; split; [lia | by intros ?%elem_of_nil]|].
  destruct (t <? sent + wait).
  - destruct (IH sent wait left) as [H1 H2]. split; [exact H1|]. intros [?|H]%elem_of_cons; [done | by apply H2].
  - destruct left as [|n]; [cbn; split; [lia | done]|]. destruct (IH t (Z.min (2 * wait) 60000) n) as [H1 H2]. cbn [resends foldr]. fold (resends (schedule data t (Z.min (2 * wait) 60000) n ts)).
    split; [lia|]. intros [?|H]%elem_of_cons; [done|]. specialize (H2 H). lia.
Qed.

(** The checks follow the schedule of the first segment, and leave the others alone. *)
Lemma check_run_schedule (ticks : list Z) (q : RetransmitQueue) (u : UnackedSegment) (rest : list UnackedSegment) :
  queue_ok q -> unacked q = u :: rest ->
  (check_run q ticks).1 = schedule (ua_data u) (send_tick u) (rto (rto_calc q)) (Z.to_nat (5 - ua_count u)) ticks /\
  exists u', unacked (check_run q ticks).2 = u' :: rest /\ ua_seq u' = ua_seq u /\ ua_data u' = ua_data u.
Proof.
  revert q u. induction ticks as [|t ts IH]; intros q u Hq Eu; [split; [done | by exists u]|].
  pose proof Hq as [Hr Hm Hc]. rewrite Eu in Hc. apply Forall_cons in Hc as [Hu Hc]. pose proof (ro_range _ Hr) as Hrr. pose proof (check_queue_ok q t Hq) as Hq1.
  cbn [check_run schedule]. unfold check_queue, check_timeout, retransmit in *. rewrite Eu, Hm in *. rewrite !Z.geb_leb in *.
  destruct (Z.ltb_spec t (send_tick u + rto (rto_calc q))) as [Hlt|Hge].
  - rewrite (proj2 (Z.leb_gt _ _)) by lia. destruct (IH q u Hq Eu) as [E1 E2]. destruct (check_run q ts) as [l q2]. cbn [fst snd] in *. by rewrite E1.
  - rewrite (proj2 (Z.leb_le _ _)) in * by lia. destruct (Z.leb_spec 5 (ua_count u)) as [H5|H5].
    + replace (5 - ua_count u) with 0 by lia. cbn. split; [done | by exists u].
    + cbn [snd] in Hq1. destruct (backoff_ok _ Hr) as [_ Eb].
      destruct (IH _ (mkUnacked (ua_seq u) (ua_data u) t ((ua_count u + 1) mod 256) true) Hq1 eq_refl) as [E1 (u' & E2 & E3 & E4)].
      destruct (check_run _ ts) as [l q2]. cbn [fst snd ua_data send_tick ua_count ua_seq rto_calc] in *. rewrite E1, Eb, Z.mod_small by lia.
      replace (Z.to_nat (5 - ua_count u)) with (S (Z.to_nat (5 - (ua_count u + 1)))) by lia. split; [done | by exists u'].
Qed.

(** C28: retransmission follows its schedule.  Whatever was pushed, acknowledged and
    checked before, checks at any ticks, without an acknowledgement in between, act as
    [schedule] says on the first segment of the queue: nothing before the time-out of the segment, then
    the same bytes again with a time-out twice as long (at most a minute), until it was
    sent again five times, and the end of the connection at the end of the next wait;
    the segments behind it stay as they are. *)
Theorem retransmission_gives_up (ops : list queue_op) (ticks : list Z) :
  exists q, ofold queue_apply queue_new ops = Ret q /\ 200 <= rto (rto_calc q) <= 60000 /\
    forall u rest, unacked q = u :: rest ->
      let acts := (check_run q ticks).1 in
      acts = schedule (ua_data u) (send_tick u) (rto (rto_calc q)) (Z.to_nat (5 - ua_count u)) ticks /\
      0 <= ua_count u <= 5 /\ resends acts <= 5 - ua_count u /\ (GiveUp ∈ acts -> resends acts = 5 - ua_count u) /\
      exists u', unacked (check_run q ticks).2 = u' :: rest /\ ua_seq u' = ua_seq u /\ ua_data u' = ua_data u.
Proof.
  destruct (queue_run_ok ops queue_new fresh_queue_ok) as (q & E & Hq). exists q. split; [exact E|]. split; [apply (ro_range _ (qo_rto _ Hq))|].
  intros u rest Eu acts. destruct (check_run_schedule ticks q u rest Hq Eu) as [Ha Hu]. fold acts in Ha.
  pose proof (qo_counts _ Hq) as Hc. rewrite Eu in Hc. apply Forall_cons in Hc as [Hcu _].
  destruct (schedule_resends (ua_data u) ticks (send_tick u) (rto (rto_calc q)) (Z.to_nat (5 - ua_count u))) as [H1 H2]. rewrite <- Ha in H1, H2.
  split; [exact Ha|]. split; [exact Hcu|]. split; [lia|]. split; [intros Hg; specialize (H2 Hg); lia | exact Hu].
Qed.

(** *** The table *)

(** What one check leaves of a queue. *)
Definition after_check (q : RetransmitQueue) (t : Z) : option RetransmitQueue :=
  match check_queue q t with
  | (GiveUp, _) => None
  | (_, q1) => Some q1
  end.

Definition resend_of (t : Z) (kq : conn * RetransmitQueue) : list (conn * list Z) :=
  match (check_queue kq.2 t).1 with Resend d => [(kq.1, d)] | _ => [] end.
Definition gone_of (t : Z) (kq : conn * RetransmitQueue) : list conn :=
  match (check_queue kq.2 t).1 with GiveUp => [kq.1] | _ => [] end.

Definition visit (t : Z) (acc : list (conn * list Z) * list conn * queues) (kq : conn * RetransmitQueue) :=
  let '(sent, gone, qs) := acc in
  let '(k, q) := kq in
  match check_queue q t with
  | (NotDue, _) => acc
  | (Resend d, q1) => (sent ++ [(k, d)], gone, <[k := q1]> qs)
  | (GiveUp, q1) => (sent, gone ++ [k], <[k := q1]> qs)
  end.

Lemma visit_eq (t : Z) (sent : list (conn * list Z)) (gone : list conn) (qs : queues) (k : conn) (q : RetransmitQueue) :
  qs !! k = Some q ->
  visit t (sent, gone, qs) (k, q) = (sent ++ resend_of t (k, q), gone ++ gone_of t (k, q), <[k := (check_queue q t).2]> qs).
Proof.
  intros Hq. unfold visit, resend_of, gone_of. cbn [fst snd]. destruct (check_queue q t) as [[|d|] q1] eqn:E; cbn [fst snd]; rewrite ?app_nil_r; try done.
  assert (q1 = q) as ->. { unfold check_queue in E. destruct (check_timeout q t); [|congruence]. by destruct (retransmit q t) as [[?|] ?]. }
  f_equal. symmetry. by apply insert_id.
Qed.

Lemma visit_all (t : Z) (l : list (conn * RetransmitQueue)) (sent : list (conn * list Z)) (gone : list conn) (qs : queues) :
  NoDup l.*1 -> (forall k q, (k, q) ∈ l -> qs !! k = Some q) ->
  exists qs', foldl (visit t) (sent, gone, qs) l = (sent ++ (l ≫= resend_of t), gone ++ (l ≫= gone_of t), qs') /\
    forall k, qs' !! k = if bool_decide (k ∈ l.*1) then (fun q => (check_queue q t).2) <$> qs !! k else qs !! k.
Proof.
  revert sent gone qs. induction l as [|[k q] l IH]; intros sent gone qs Hn Hl.
  - exists qs. cbn. rewrite !app_nil_r. done.
  - rewrite fmap_cons in Hn. apply NoDup_cons in Hn as [Hk Hn]. cbn [foldl]. rewrite visit_eq by (apply Hl; by left).
    destruct (IH (sent ++ resend_of t (k, q)) (gone ++ gone_of t (k, q)) (<[k := (check_queue q t).2]> qs) Hn) as (qs' & E & Hqs).
    { intros k' q' Hin. rewrite lookup_insert_ne; [apply Hl; by right|]. intros <-. apply Hk. apply list_elem_of_fmap. by exists (k, q'). }
    exists qs'. rewrite E, <- !app_assoc. split; [done|]. intros k'. rewrite Hqs, fmap_cons. cbn [fst].
    destruct (decide (k' = k)) as [->|Hne].
    + rewrite lookup_insert_eq, (bool_decide_eq_false_2 _ Hk), bool_decide_eq_true_2 by (by left). by rewrite (Hl k q) by (by left).
    + rewrite lookup_insert_ne by done. rewrite (bool_decide_ext (k' ∈ k :: l.*1) (k' ∈ l.*1)); [done|]. rewrite elem_of_cons. naive_solver.
Qed.

Lemma delete_all_lookup (ks : list conn) (m : queues) (k : conn) :
  foldl (fun m k => delete k m) m ks !! k = if bool_decide (k ∈ ks) then None else m !! k.
Proof.
  revert m. induction ks as [|k' ks IH]; intros m; [done|]. cbn [foldl]. rewrite IH. destruct (decide (k = k')) as [->|Hne].
  - rewrite lookup_delete_eq, (bool_decide_eq_true_2 (k' ∈ k' :: ks)) by (by left). by destruct (bool_decide _).
  - rewrite lookup_delete_ne by done. rewrite (bool_decide_ext (k ∈ k' :: ks) (k ∈ ks)); [done|]. rewrite elem_of_cons. naive_solver.
Qed.

Lemma check_timeouts_spec (qs : queues) (t : Z) :
  let '(sent, gone, qs') := check_timeouts qs t in
  (forall k, qs' !! k = qs !! k ≫= fun q => after_check q t) /\
  (forall k, k ∈ gone <-> exists q, qs !! k = Some q /\ (check_queue q t).1 = GiveUp) /\
  sent = (in_key_order qs ≫= resend_of t) /\
  forall k d, (k, d) ∈ sent <-> exists q, qs !! k = Some q /\ (check_queue q t).1 = Resend d.
Proof.
  set (l := in_key_order qs). assert (Hp : l ≡ₚ map_to_list qs) by apply merge_sort_Permutation.
  assert (Hin : forall k q, (k, q) ∈ l <-> qs !! k = Some q) by (intros k q; rewrite Hp; apply elem_of_map_to_list).
  assert (Hn : NoDup l.*1) by (rewrite Hp; apply NoDup_fst_map_to_list).
  unfold check_timeouts. fold l. destruct (visit_all t l [] [] qs Hn (fun k q => proj1 (Hin k q))) as (qs' & E & Hqs).
  unfold visit in E. rewrite E. cbn [app]. clear E.
  assert (Hg : forall k, k ∈ l ≫= gone_of t <-> exists q, qs !! k = Some q /\ (check_queue q t).1 = GiveUp).
  { intros k. rewrite list_elem_of_bind. unfold gone_of. split.
    - intros ([k' q] & Hk & Hq%Hin). cbn [fst snd] in Hk. destruct (check_queue q t).1 eqn:E; [by apply elem_of_nil in Hk .. |].
      apply list_elem_of_singleton in Hk as ->. by exists q.
    - intros (q & Hq%Hin & E). exists (k, q). split; [|done]. cbn [fst snd]. rewrite E. by apply list_elem_of_singleton. }
  split; [|split; [exact Hg|split; [done|]]].
  - intros k. rewrite delete_all_lookup, Hqs. unfold after_check. destruct (qs !! k) as [q|] eqn:Ek; cbn [mbind option_bind].
    + rewrite (bool_decide_eq_true_2 (k ∈ l.*1)) by (apply list_elem_of_fmap; exists (k, q); split; [done | by apply Hin]).
      destruct (check_queue q t) as [a q1] eqn:Eq. cbn [fmap option_fmap option_map snd].
      assert (Hk : k ∈ l ≫= gone_of t <-> a = GiveUp).
      { rewrite Hg. split; [intros (q' & Hq' & Hc); simplify_eq; by rewrite Eq in Hc | intros ->; exists q; by rewrite Eq]. }
      destruct a; [rewrite (bool_decide_eq_false_2 (k ∈ _)) by (intros Hx%Hk; discriminate Hx); cbn; by rewrite Eq .. |]. by rewrite (bool_decide_eq_true_2 (k ∈ _)) by by apply Hk.
    + destruct (bool_decide (k ∈ l ≫= gone_of t)); [done|]. by destruct (bool_decide _).
  - intros k d. rewrite list_elem_of_bind. unfold resend_of. split.
    + intros ([k' q] & Hk & Hq%Hin). cbn [fst snd] in Hk. destruct (check_queue q t).1 eqn:E; [by apply elem_of_nil in Hk | | by apply elem_of_nil in Hk].
      apply list_elem_of_singleton in Hk. simplify_eq. by exists q.
    + intros (q & Hq%Hin & E). exists (k, q). split; [|done]. cbn [fst snd]. rewrite E. by apply list_elem_of_singleton.
Qed.

Lemma check_timeouts_lookup (qs : queues) (t : Z) :
  let '(_, _, qs') := check_timeouts qs t in forall k, qs' !! k = qs !! k ≫= fun q => after_check q t.
Proof. pose proof (check_timeouts_spec qs t) as H. destruct (check_timeouts qs t) as [[sent gone] qs']. apply H. Qed.

(** one pass over the table treats every connection by itself: its queue becomes
    what the check makes of it, is removed exactly when the check gives up, and
    the segments due are sent once each, in the order of the connections. *)
Theorem check_timeouts_correct (qs : queues) (t : Z) :
  let '(sent, gone, qs') := check_timeouts qs t in
  (forall k, qs' !! k = qs !! k ≫= fun q => after_check q t) /\
  (forall k, k ∈ gone <-> exists q, qs !! k = Some q /\ (check_queue q t).1 = GiveUp) /\
  sent = (in_key_order qs ≫= resend_of t) /\
  forall k d, (k, d) ∈ sent <-> exists q, qs !! k = Some q /\ (check_queue q t).1 = Resend d.
Proof. apply check_timeouts_spec. Qed.

End RetransmitSpec.
