(* ===== verification/Endpoint.v ===== *)
(** * Sockets: state (src/src/net/endpoint/types.rs, inner.rs, tcb.rs, manager.rs,
    event.rs)

    A [Socket] is a handle on shared state behind an [Arc]: handles carry the
    index of that state in a store.  Wakers are numbers; those that are woken are
    appended to a list.  The statics of the module (manager, control blocks,
    retransmission queues, event queue, counters) are the fields of one record.
    The stream, listener and UDP socket objects of tcp.rs and udp.rs that a socket
    may hold are never used by the operations here, only whether they are there. *)

From stdpp Require Import base list gmap.
From Stdlib Require Import ZArith Lia.
From S2P Require Import Prelude NetBytes TcpWindow TcpSegment.

Import WindowScale Congestion FlowControl Segment Retransmit.

Local Open Scope Z_scope.

(** ** types.rs *)

Definition FD_INVALID : Z := u32_max.
Definition fd_is_valid (fd : Z) : bool := negb (fd =? u32_max).

Inductive SocketType := Tcp | Udp | Raw.

Inductive SocketState := Created | Bound | Listening | Connecting | Connected | Closing | Closed.

#[export] Instance SocketType_eq_dec : EqDecision SocketType.
Proof. solve_decision. Defined.
#[export] Instance SocketState_eq_dec : EqDecision SocketState.
Proof. solve_decision. Defined.

Definition can_send (s : SocketState) : bool := match s with Connected | Bound => true | _ => false end.
Definition can_receive (s : SocketState) : bool := match s with Connected | Bound | Listening => true | _ => false end.
Definition can_bind (s : SocketState) : bool := match s with Created => true | _ => false end.
Definition can_connect (s : SocketState) : bool := match s with Created | Bound => true | _ => false end.
Definition can_listen (s : SocketState) : bool := match s with Bound => true | _ => false end.

Inductive SocketError :=
| NotFound | InvalidArgument | AlreadyBound | AlreadyConnected | NotConnected | AddressInUse | ConnectionRefused
| Timeout | Interrupted | BufferFull | InvalidStateTransition | ResourceExhausted | PortInUse | Internal.

#[export] Instance SocketError_eq_dec : EqDecision SocketError.
Proof. solve_decision. Defined.

(** ** tcb.rs: control blocks *)

Inductive TcpConnectionState :=
| TClosed | TListen | SynSent | SynReceived | Established | FinWait1 | FinWait2 | CloseWait | TClosing | LastAck | TimeWait.

#[export] Instance TcpConnectionState_eq_dec : EqDecision TcpConnectionState.
Proof. solve_decision. Defined.

Record TcpControlBlockEntry := mkTcb {
  t_fd : Z;
  t_local : SocketAddr;
  t_remote : SocketAddr;
  t_state : TcpConnectionState;
  snd_nxt : Z;
  snd_una : Z;
  rcv_nxt : Z;
  snd_wnd : Z;
  rcv_wnd : Z;
  t_retransmits : Z;
  last_send_tick : Z;
  congestion : CongestionController;
  window_scale : WindowScaleOption;
  flow_control : FlowController;
  t_mss : Z
}.

Definition tcb_new (fd : Z) (local remote : SocketAddr) : TcpControlBlockEntry :=
  mkTcb fd local remote TClosed 0 0 0 65535 65535 0 0 cc_new default_enabled fc_new 1460.

Section TcbSetters.
Context (t : TcpControlBlockEntry).
Definition set_fd (fd : Z) := mkTcb fd (t_local t) (t_remote t) (t_state t) (snd_nxt t) (snd_una t) (rcv_nxt t) (snd_wnd t) (rcv_wnd t) (t_retransmits t) (last_send_tick t) (congestion t) (window_scale t) (flow_control t) (t_mss t).
Definition set_tstate (s : TcpConnectionState) := mkTcb (t_fd t) (t_local t) (t_remote t) s (snd_nxt t) (snd_una t) (rcv_nxt t) (snd_wnd t) (rcv_wnd t) (t_retransmits t) (last_send_tick t) (congestion t) (window_scale t) (flow_control t) (t_mss t).
Definition set_snd (nxt una : Z) := mkTcb (t_fd t) (t_local t) (t_remote t) (t_state t) nxt una (rcv_nxt t) (snd_wnd t) (rcv_wnd t) (t_retransmits t) (last_send_tick t) (congestion t) (window_scale t) (flow_control t) (t_mss t).
Definition set_rcv_nxt (n : Z) := mkTcb (t_fd t) (t_local t) (t_remote t) (t_state t) (snd_nxt t) (snd_una t) n (snd_wnd t) (rcv_wnd t) (t_retransmits t) (last_send_tick t) (congestion t) (window_scale t) (flow_control t) (t_mss t).
Definition set_wnds (s r : Z) := mkTcb (t_fd t) (t_local t) (t_remote t) (t_state t) (snd_nxt t) (snd_una t) (rcv_nxt t) s r (t_retransmits t) (last_send_tick t) (congestion t) (window_scale t) (flow_control t) (t_mss t).
Definition set_retransmits (n : Z) := mkTcb (t_fd t) (t_local t) (t_remote t) (t_state t) (snd_nxt t) (snd_una t) (rcv_nxt t) (snd_wnd t) (rcv_wnd t) n (last_send_tick t) (congestion t) (window_scale t) (flow_control t) (t_mss t).
Definition set_congestion (c : CongestionController) := mkTcb (t_fd t) (t_local t) (t_remote t) (t_state t) (snd_nxt t) (snd_una t) (rcv_nxt t) (snd_wnd t) (rcv_wnd t) (t_retransmits t) (last_send_tick t) c (window_scale t) (flow_control t) (t_mss t).
Definition set_flow (f : FlowController) := mkTcb (t_fd t) (t_local t) (t_remote t) (t_state t) (snd_nxt t) (snd_una t) (rcv_nxt t) (snd_wnd t) (rcv_wnd t) (t_retransmits t) (last_send_tick t) (congestion t) (window_scale t) f (t_mss t).
End TcbSetters.

Definition initialize_seq (t : TcpControlBlockEntry) (isn : Z) : TcpControlBlockEntry := set_snd t isn isn.

Definition effective_send_window (t : TcpControlBlockEntry) : Z :=
  available_window (congestion t) (scale_snd_window (window_scale t) (snd_wnd t)).
Definition effective_recv_window (t : TcpControlBlockEntry) : Z := advertised (flow_control t).
Definition advertised_recv_window (t : TcpControlBlockEntry) : Z := ws_advertised (window_scale t) (advertised (flow_control t)).

(** [ack_num > self.snd_una] compares the numbers, not their places on the circle. *)
Definition on_ack_received (t : TcpControlBlockEntry) (ack : Z) (is_dup : bool) : TcpControlBlockEntry :=
  let newer := (ack >? snd_una t) && negb is_dup in
  let acked := if newer then wrap32 (ack - snd_una t) else 0 in
  let t1 := set_congestion t (on_ack (congestion t) acked is_dup (snd_una t)) in
  if newer then set_snd t1 (snd_nxt t1) ack else t1.

Definition on_data_received (t : TcpControlBlockEntry) (bytes : Z) : TcpControlBlockEntry :=
  let t1 := set_flow t (on_receive (flow_control t) bytes).2 in set_wnds t1 (snd_wnd t1) (advertised_recv_window t1).
Definition on_data_consumed (t : TcpControlBlockEntry) (bytes : Z) : TcpControlBlockEntry :=
  let t1 := set_flow t (on_consume (flow_control t) bytes).2 in set_wnds t1 (snd_wnd t1) (advertised_recv_window t1).
Definition tcb_on_send (t : TcpControlBlockEntry) (bytes : Z) : TcpControlBlockEntry :=
  set_congestion t (cc_on_send (congestion t) bytes).
Definition tcb_on_timeout (t : TcpControlBlockEntry) : TcpControlBlockEntry :=
  set_retransmits (set_congestion t (on_timeout (congestion t))) (sat_inc8 (t_retransmits t)).
Definition tcb_update_peer_window (t : TcpControlBlockEntry) (w : Z) : TcpControlBlockEntry :=
  let t1 := set_wnds t w (rcv_wnd t) in
  set_flow t1 (update_peer_window (flow_control t1) (scale_snd_window (window_scale t1) w)).
Definition tcb_can_send (t : TcpControlBlockEntry) (bytes : Z) : bool :=
  (effective_send_window t >=? bytes) && fc_can_send (flow_control t).

Record TcbTable := mkTable { tcb_entries : gmap conn TcpControlBlockEntry; seq_counter : Z; current_tick : Z }.

Definition table_new : TcbTable := mkTable ∅ 0 0.
Definition generate_isn (t : TcbTable) : Z * TcbTable :=
  (seq_counter t, mkTable (tcb_entries t) (wrap32 (seq_counter t + 64000)) (current_tick t)).
Definition table_insert (t : TcbTable) (e : TcpControlBlockEntry) : TcbTable :=
  mkTable (<[(t_local e, t_remote e) := e]> (tcb_entries t)) (seq_counter t) (current_tick t).
Definition table_get (t : TcbTable) (local remote : SocketAddr) : option TcpControlBlockEntry := tcb_entries t !! (local, remote).
Definition table_update (t : TcbTable) (local remote : SocketAddr) (f : TcpControlBlockEntry -> TcpControlBlockEntry) : bool * TcbTable :=
  match tcb_entries t !! (local, remote) with
  | Some e => (true, mkTable (<[(local, remote) := f e]> (tcb_entries t)) (seq_counter t) (current_tick t))
  | None => (false, t)
  end.
Definition table_remove (t : TcbTable) (local remote : SocketAddr) : TcbTable :=
  mkTable (delete (local, remote) (tcb_entries t)) (seq_counter t) (current_tick t).
Definition find_by_fd (t : TcbTable) (fd : Z) : option TcpControlBlockEntry :=
  List.find (fun e => t_fd e =? fd) (in_key_order (tcb_entries t)).*2.

(** ** types.rs, inner.rs: the state of a socket *)

Record AcceptedConnection := mkAccepted {
  ac_fd : Z;
  ac_local : SocketAddr;
  ac_remote : SocketAddr;
  ac_tcb : TcpControlBlockEntry
}.

Record SocketInner := mkInner {
  i_state : SocketState;
  i_local : option SocketAddr;
  i_remote : option SocketAddr;
  recv_buffer : list Z;
  send_buffer : list Z;
  recv_buffer_limit : Z;
  send_buffer_limit : Z;
  tcp_stream : bool;
  tcp_listener : bool;
  udp_socket : bool;
  pending_packets : list (SocketAddr * list Z);
  accept_queue : list AcceptedConnection;
  accept_backlog : nat;
  last_error : option SocketError;
  recv_waker : option Z;
  send_waker : option Z;
  connect_waker : option Z;
  accept_waker : option Z
}.

Definition MAX_BUFFER_SIZE : Z := 65536.
Definition DEFAULT_BACKLOG : nat := 128.

Definition inner_new : SocketInner :=
  mkInner Created None None [] [] MAX_BUFFER_SIZE MAX_BUFFER_SIZE false false false [] [] DEFAULT_BACKLOG None None None None None.

Section InnerSetters.
Context (i : SocketInner).
Definition set_state (s : SocketState) := mkInner s (i_local i) (i_remote i) (recv_buffer i) (send_buffer i) (recv_buffer_limit i) (send_buffer_limit i) (tcp_stream i) (tcp_listener i) (udp_socket i) (pending_packets i) (accept_queue i) (accept_backlog i) (last_error i) (recv_waker i) (send_waker i) (connect_waker i) (accept_waker i).
Definition set_addrs (l r : option SocketAddr) := mkInner (i_state i) l r (recv_buffer i) (send_buffer i) (recv_buffer_limit i) (send_buffer_limit i) (tcp_stream i) (tcp_listener i) (udp_socket i) (pending_packets i) (accept_queue i) (accept_backlog i) (last_error i) (recv_waker i) (send_waker i) (connect_waker i) (accept_waker i).
Definition set_recv (b : list Z) := mkInner (i_state i) (i_local i) (i_remote i) b (send_buffer i) (recv_buffer_limit i) (send_buffer_limit i) (tcp_stream i) (tcp_listener i) (udp_socket i) (pending_packets i) (accept_queue i) (accept_backlog i) (last_error i) (recv_waker i) (send_waker i) (connect_waker i) (accept_waker i).
Definition set_send (b : list Z) := mkInner (i_state i) (i_local i) (i_remote i) (recv_buffer i) b (recv_buffer_limit i) (send_buffer_limit i) (tcp_stream i) (tcp_listener i) (udp_socket i) (pending_packets i) (accept_queue i) (accept_backlog i) (last_error i) (recv_waker i) (send_waker i) (connect_waker i) (accept_waker i).
Definition set_objects (s l u : bool) := mkInner (i_state i) (i_local i) (i_remote i) (recv_buffer i) (send_buffer i) (recv_buffer_limit i) (send_buffer_limit i) s l u (pending_packets i) (accept_queue i) (accept_backlog i) (last_error i) (recv_waker i) (send_waker i) (connect_waker i) (accept_waker i).
Definition set_pending (p : list (SocketAddr * list Z)) := mkInner (i_state i) (i_local i) (i_remote i) (recv_buffer i) (send_buffer i) (recv_buffer_limit i) (send_buffer_limit i) (tcp_stream i) (tcp_listener i) (udp_socket i) p (accept_queue i) (accept_backlog i) (last_error i) (recv_waker i) (send_waker i) (connect_waker i) (accept_waker i).
Definition set_accepts (q : list AcceptedConnection) := mkInner (i_state i) (i_local i) (i_remote i) (recv_buffer i) (send_buffer i) (recv_buffer_limit i) (send_buffer_limit i) (tcp_stream i) (tcp_listener i) (udp_socket i) (pending_packets i) q (accept_backlog i) (last_error i) (recv_waker i) (send_waker i) (connect_waker i) (accept_waker i).
Definition set_error (e : option SocketError) := mkInner (i_state i) (i_local i) (i_remote i) (recv_buffer i) (send_buffer i) (recv_buffer_limit i) (send_buffer_limit i) (tcp_stream i) (tcp_listener i) (udp_socket i) (pending_packets i) (accept_queue i) (accept_backlog i) e (recv_waker i) (send_waker i) (connect_waker i) (accept_waker i).
Definition set_wakers (r s c a : option Z) := mkInner (i_state i) (i_local i) (i_remote i) (recv_buffer i) (send_buffer i) (recv_buffer_limit i) (send_buffer_limit i) (tcp_stream i) (tcp_listener i) (udp_socket i) (pending_packets i) (accept_queue i) (accept_backlog i) (last_error i) r s c a.
End InnerSetters.

Definition no_recv_waker (i : SocketInner) := set_wakers i None (send_waker i) (connect_waker i) (accept_waker i).
Definition no_send_waker (i : SocketInner) := set_wakers i (recv_waker i) None (connect_waker i) (accept_waker i).
Definition no_connect_waker (i : SocketInner) := set_wakers i (recv_waker i) (send_waker i) None (accept_waker i).
Definition no_accept_waker (i : SocketInner) := set_wakers i (recv_waker i) (send_waker i) (connect_waker i) None.

(** The table of [transition_to]. *)
Definition valid_transition (a b : SocketState) : bool :=
  match a, b with
  | Created, Bound | Created, Connecting | Created, Closed => true
  | Bound, Listening | Bound, Connecting | Bound, Connected | Bound, Closed => true
  | Listening, Closing | Listening, Closed => true
  | Connecting, Connected | Connecting, Closed => true
  | Connected, Closing | Connected, Closed => true
  | Closing, Closed => true
  | s1, s2 => bool_decide (s1 = s2)
  end.

Definition transition_to (i : SocketInner) (s : SocketState) : result unit SocketError * SocketInner :=
  if valid_transition (i_state i) s then (Ok tt, set_state i s) else (Err InvalidStateTransition, i).

(** [limit.saturating_sub(buffer.len())] *)
Definition room (limit : Z) (b : list Z) : nat := Z.to_nat (limit - Z.of_nat (length b)).

(** [recv_from_buffer] into a buffer of [n] bytes: the bytes and the wakers woken. *)
Definition recv_from_buffer (i : SocketInner) (n : nat) : list Z * list Z * SocketInner :=
  let len := Nat.min n (length (recv_buffer i)) in
  (take len (recv_buffer i), option_list (send_waker i), no_send_waker (set_recv i (drop len (recv_buffer i)))).

Definition send_to_buffer (i : SocketInner) (data : list Z) : result nat SocketError * SocketInner :=
  let available := room (send_buffer_limit i) (send_buffer i) in
  if (available =? 0)%nat then (Err BufferFull, i)
  else
    let len := Nat.min (length data) available in
    (Ok len, set_send i (send_buffer i ++ take len data)).

Definition push_recv_data (i : SocketInner) (data : list Z) : list Z * SocketInner :=
  let available := room (recv_buffer_limit i) (recv_buffer i) in
  let len := Nat.min (length data) available in
  (option_list (recv_waker i), no_recv_waker (set_recv i (recv_buffer i ++ take len data))).

Definition notify_connected (i : SocketInner) : list Z * SocketInner := (option_list (connect_waker i), no_connect_waker i).

(** ** manager.rs *)

Record Socket := mkSocketHandle { fd : Z; socket_type : SocketType; inner : nat }.

Record SocketManager := mkManager {
  sockets : gmap Z Socket;
  tcp_ports : gmap Z Z;
  udp_ports : gmap Z Z;
  next_ephemeral_port : Z
}.

Definition EPHEMERAL_PORT_START : Z := 49152.
Definition EPHEMERAL_PORT_END : Z := 65535.

Definition manager_new : SocketManager := mkManager ∅ ∅ ∅ EPHEMERAL_PORT_START.

(** The port table of a type; raw sockets have none. *)
Definition ports_of (m : SocketManager) (t : SocketType) : option (gmap Z Z) :=
  match t with
  | Tcp => Some (tcp_ports m)
  | Udp => Some (udp_ports m)
  | Raw => None
  end.
Definition set_ports (m : SocketManager) (t : SocketType) (p : gmap Z Z) : SocketManager :=
  match t with
  | Tcp => mkManager (sockets m) p (udp_ports m) (next_ephemeral_port m)
  | Udp => mkManager (sockets m) (tcp_ports m) p (next_ephemeral_port m)
  | Raw => m
  end.

Definition RANGE_SIZE : Z := EPHEMERAL_PORT_END - EPHEMERAL_PORT_START + 1.

(** The port a value of the counter stands for. *)
Definition ephemeral (counter : Z) : Z := EPHEMERAL_PORT_START + wrap32 (counter - EPHEMERAL_PORT_START) mod RANGE_SIZE.

(** [for _ in 0..range_size], [n] more rounds. *)
Fixpoint ephemeral_loop (ports : gmap Z Z) (n : nat) (counter : Z) : option Z * Z :=
  match n with
  | O => (None, counter)
  | S n' =>
      match ports !! ephemeral counter with
      | None => (Some (ephemeral counter), wrap32 (counter + 1))
      | Some _ => ephemeral_loop ports n' (wrap32 (counter + 1))
      end
  end.

Definition allocate_ephemeral_port (m : SocketManager) (t : SocketType) : option Z * SocketManager :=
  match ports_of m t with
  | None => (Some 0, m)
  | Some ports =>
      let '(r, c) := ephemeral_loop ports (Z.to_nat RANGE_SIZE) (next_ephemeral_port m) in
      (r, mkManager (sockets m) (tcp_ports m) (udp_ports m) c)
  end.

Definition register (m : SocketManager) (s : Socket) : SocketManager :=
  mkManager (<[fd s := s]> (sockets m)) (tcp_ports m) (udp_ports m) (next_ephemeral_port m).

(** [unregister]; [local] gives the address of the socket behind a handle. *)
Definition unregister (local : Socket -> option SocketAddr) (m : SocketManager) (f : Z) : option Socket * SocketManager :=
  let m1 := mkManager (delete f (sockets m)) (tcp_ports m) (udp_ports m) (next_ephemeral_port m) in
  match sockets m !! f with
  | Some s =>
      (Some s,
       match local s with
       | Some addr =>
           match ports_of m1 (socket_type s) with
           | Some ports => set_ports m1 (socket_type s) (delete (sa_port addr) ports)
           | None => m1
           end
       | None => m1
       end)
  | None => (None, m1)
  end.

Definition manager_get (m : SocketManager) (f : Z) : option Socket := sockets m !! f.

Definition bind_port (m : SocketManager) (t : SocketType) (port f : Z) : result unit SocketError * SocketManager :=
  match ports_of m t with
  | None => (Ok tt, m)
  | Some ports =>
      match ports !! port with
      | Some _ => (Err PortInUse, m)
      | None => (Ok tt, set_ports m t (<[port := f]> ports))
      end
  end.

Definition find_by_port (m : SocketManager) (t : SocketType) (port : Z) : option Socket :=
  match ports_of m t with
  | None => None
  | Some ports => match ports !! port with Some f => manager_get m f | None => None end
  end.

(** ** event.rs *)

Inductive NetworkEvent :=
| DataReady (f : Z) (t : SocketType)
| Connect (f : Z) (local remote : SocketAddr)
| Listen (f : Z) (local : SocketAddr) (backlog : Z)
| Close (f : Z)
| SendTo (f : Z) (data : list Z) (remote : SocketAddr).

Record NetworkEventQueue := mkEvents { events : list NetworkEvent; ev_waker : option Z; has_events : bool }.

Definition EVENT_CAPACITY : nat := 256.
Definition events_new : NetworkEventQueue := mkEvents [] None false.

(** [send]: whether the event was taken, and who is woken. *)
Definition event_send (q : NetworkEventQueue) (e : NetworkEvent) : bool * list Z * NetworkEventQueue :=
  if (EVENT_CAPACITY <=? length (events q))%nat then (false, [], q)
  else (true, option_list (ev_waker q), mkEvents (events q ++ [e]) None true).

Definition event_recv (q : NetworkEventQueue) : option NetworkEvent * NetworkEventQueue :=
  match events q with
  | e :: es => (Some e, mkEvents es (ev_waker q) (match es with [] => false | _ => has_events q end))
  | [] => (None, mkEvents [] (ev_waker q) false)
  end.

Definition drain_all (q : NetworkEventQueue) : list NetworkEvent * NetworkEventQueue := (events q, mkEvents [] (ev_waker q) false).

(** [EventWaitFuture::poll] by task [w], with what the other tasks send between
    the registration of the waker and the second look. *)
Definition event_poll (q : NetworkEventQueue) (w : Z) (between : list NetworkEvent) : option NetworkEvent * list Z * NetworkEventQueue :=
  match event_recv q with
  | (Some e, q1) => (Some e, [], q1)
  | (None, q1) =>
      let send acc e := let '(woken, q) := acc in let '(_, ws, q') := event_send q e in (woken ++ ws, q') in
      let '(woken, q2) := foldl send ([], mkEvents (events q1) (Some w) (has_events q1)) between in
      let '(r, q3) := event_recv q2 in (r, woken, q3)
  end.
