(* ===== verification/EndpointOps.v ===== *)
(** * Sockets: operations (src/src/net/endpoint/socket.rs, handler.rs, tcp_rx.rs,
    futures.rs and the timer of tcb.rs)

    An operation runs on the statics of the module and the shared socket states;
    it returns or panics.  Segments the module builds and does not send (the
    source has a TODO there) are built by definitions of their own; only
    [check_retransmit_timeouts] hands segments to the IP layer, which is the list
    [ep_sent].  What is printed is left out. *)

From stdpp Require Import base list gmap.
From Stdlib Require Import ZArith Lia.
From S2P Require Import Prelude NetBytes TcpWindow TcpSegment Endpoint.

Import WindowScale Congestion FlowControl Segment Retransmit.

Local Open Scope Z_scope.

Record endpoint := mkEndpoint {
  ep_store : gmap nat SocketInner;
  ep_next : nat;
  ep_manager : option SocketManager;
  ep_table : TcbTable;
  ep_queues : queues;
  ep_events : NetworkEventQueue;
  ep_next_fd : Z;
  ep_fd_counter : Z;
  ep_woken : list Z;
  ep_sent : list (conn * list Z)
}.

(** The statics at start-up; [init_socket_manager] sets the manager. *)
Definition endpoint_new : endpoint := mkEndpoint ∅ 0 None table_new ∅ events_new 0 1 [] [].

Section Setters.
Context (s : endpoint).
Definition set_store (m : gmap nat SocketInner) := mkEndpoint m (ep_next s) (ep_manager s) (ep_table s) (ep_queues s) (ep_events s) (ep_next_fd s) (ep_fd_counter s) (ep_woken s) (ep_sent s).
Definition set_next (n : nat) := mkEndpoint (ep_store s) n (ep_manager s) (ep_table s) (ep_queues s) (ep_events s) (ep_next_fd s) (ep_fd_counter s) (ep_woken s) (ep_sent s).
Definition set_manager (m : option SocketManager) := mkEndpoint (ep_store s) (ep_next s) m (ep_table s) (ep_queues s) (ep_events s) (ep_next_fd s) (ep_fd_counter s) (ep_woken s) (ep_sent s).
Definition set_table (t : TcbTable) := mkEndpoint (ep_store s) (ep_next s) (ep_manager s) t (ep_queues s) (ep_events s) (ep_next_fd s) (ep_fd_counter s) (ep_woken s) (ep_sent s).
Definition set_queues (q : queues) := mkEndpoint (ep_store s) (ep_next s) (ep_manager s) (ep_table s) q (ep_events s) (ep_next_fd s) (ep_fd_counter s) (ep_woken s) (ep_sent s).
Definition set_events (q : NetworkEventQueue) := mkEndpoint (ep_store s) (ep_next s) (ep_manager s) (ep_table s) (ep_queues s) q (ep_next_fd s) (ep_fd_counter s) (ep_woken s) (ep_sent s).
Definition set_fds (a b : Z) := mkEndpoint (ep_store s) (ep_next s) (ep_manager s) (ep_table s) (ep_queues s) (ep_events s) a b (ep_woken s) (ep_sent s).
Definition set_woken (l : list Z) := mkEndpoint (ep_store s) (ep_next s) (ep_manager s) (ep_table s) (ep_queues s) (ep_events s) (ep_next_fd s) (ep_fd_counter s) l (ep_sent s).
Definition set_sent (l : list (conn * list Z)) := mkEndpoint (ep_store s) (ep_next s) (ep_manager s) (ep_table s) (ep_queues s) (ep_events s) (ep_next_fd s) (ep_fd_counter s) (ep_woken s) l.
End Setters.

(** ** Running on the state *)

Definition ep (A : Type) : Type := endpoint -> outcome (A * endpoint).

Definition eret {A} (a : A) : ep A := fun s => Ret (a, s).
Definition ebind {A B} (m : ep A) (k : A -> ep B) : ep B :=
  fun s => match m s with
           | Ret (a, s') => k a s'
           | Panic => Panic
           end.
Definition eget : ep endpoint := fun s => Ret (s, s).
Definition eput (f : endpoint -> endpoint) : ep unit := fun s => Ret (tt, f s).
Definition elift {A} (m : outcome A) : ep A :=
  fun s => match m with
           | Ret a => Ret (a, s)
           | Panic => Panic
           end.

Notation "'run' x <- m ; k" := (ebind m (fun x => k)) (at level 10, x pattern, m at level 100, k at level 200) : word_scope.
Notation "'run_' m ; k" := (ebind m (fun _ => k)) (at level 10, m at level 100, k at level 200) : word_scope.

Definition wake (l : list Z) : ep unit := eput (fun s => set_woken s (ep_woken s ++ l)).

(** [socket.inner.lock()] around [f]; a handle always has its state. *)
Definition on_inner {A} (k : Socket) (f : SocketInner -> A * SocketInner) : ep A :=
  fun s => match ep_store s !! inner k with
           | Some i => let '(a, i') := f i in Ret (a, set_store s (<[inner k := i']> (ep_store s)))
           | None => Panic
           end.

Definition on_manager {A} (f : SocketManager -> A * SocketManager) : ep (option A) :=
  fun s => match ep_manager s with
           | Some m => let '(a, m') := f m in Ret (Some a, set_manager s (Some m'))
           | None => Ret (None, s)
           end.

Definition update_tcb (t : TcpControlBlockEntry) (f : TcpControlBlockEntry -> TcpControlBlockEntry) : ep bool :=
  fun s => let '(b, tab) := table_update (ep_table s) (t_local t) (t_remote t) f in Ret (b, set_table s tab).

(** [send_event] *)
Definition send_event (e : NetworkEvent) : ep (result unit SocketError) :=
  run s <- eget;
  let '(taken, ws, q) := event_send (ep_events s) e in
  run_ eput (fun s => set_events s q);
  run_ wake ws;
  eret (if taken then Ok tt else Err ResourceExhausted).

(** ** socket.rs *)

Definition Socket_with_fd (t : SocketType) (f : Z) : ep Socket :=
  run s <- eget;
  let k := mkSocketHandle f t (ep_next s) in
  run_ eput (fun s => set_next (set_store s (<[ep_next s := inner_new]> (ep_store s))) (S (ep_next s)));
  eret k.

Definition Socket_new (t : SocketType) : ep Socket :=
  run s <- eget;
  run_ eput (fun s => set_fds s (wrap32 (ep_next_fd s + 1)) (ep_fd_counter s));
  Socket_with_fd t (ep_next_fd s).

Definition socket_bind (k : Socket) (addr : SocketAddr) : ep (result unit SocketError) :=
  on_inner k (fun i =>
    if negb (can_bind (i_state i)) then (Err AlreadyBound, i)
    else transition_to (set_addrs i (Some addr) (i_remote i)) Bound).

Definition socket_connect (k : Socket) (addr : SocketAddr) : ep (result unit SocketError) :=
  run r <- on_inner k (fun i =>
    if negb (can_connect (i_state i)) then (Err AlreadyConnected, i)
    else
      let local := default ADDR_ANY (i_local i) in
      match transition_to (set_addrs i (i_local i) (Some addr)) Connecting with
      | (Ok _, i') => (Ok local, i')
      | (Err e, i') => (Err e, i')
      end);
  match r with
  | Ok local => send_event (Connect (fd k) local addr)
  | Err e => eret (Err e)
  end.

(** [TcpListenerImpl::bind] of tcp.rs refuses no address. *)
Definition socket_listen (k : Socket) (backlog : Z) : ep (result unit SocketError) :=
  if negb (bool_decide (socket_type k = Tcp)) then eret (Err InvalidArgument)
  else
    run r <- on_inner k (fun i =>
      if negb (can_listen (i_state i)) then (Err InvalidStateTransition, i)
      else
        match i_local i with
        | None => (Err InvalidArgument, i)
        | Some local =>
            match transition_to (set_objects i (tcp_stream i) true (udp_socket i)) Listening with
            | (Ok _, i') => (Ok local, i')
            | (Err e, i') => (Err e, i')
            end
        end);
    match r with
    | Ok local => send_event (Listen (fd k) local backlog)
    | Err e => eret (Err e)
    end.

(** The result of [transition_to(Connected)] on the new socket is ignored. *)
Definition socket_accept (k : Socket) : ep (result (Socket * SocketAddr) SocketError) :=
  if negb (bool_decide (socket_type k = Tcp)) then eret (Err InvalidArgument)
  else
    run r <- on_inner k (fun i =>
      if negb (bool_decide (i_state i = Listening)) then (Err InvalidStateTransition, i)
      else
        match accept_queue i with
        | c :: rest => (Ok c, set_accepts i rest)
        | [] => (Err Timeout, i)
        end);
    match r with
    | Err e => eret (Err e)
    | Ok c =>
        run n <- Socket_with_fd Tcp (ac_fd c);
        run_ on_inner n (fun i => transition_to (set_addrs i (Some (ac_local c)) (Some (ac_remote c))) Connected);
        run_ on_manager (fun m => (tt, register m n));
        eret (Ok (n, ac_remote c))
    end.

Definition register_accept_waker (k : Socket) (w : Z) : ep unit :=
  on_inner k (fun i => (tt, set_wakers i (recv_waker i) (send_waker i) (connect_waker i) (Some w))).

Definition accept_from_backlog (k : Socket) (remote : SocketAddr) : ep (result Socket SocketError) :=
  if negb (bool_decide (socket_type k = Tcp)) then eret (Err InvalidArgument)
  else
    run i <- on_inner k (fun i => (i, i));
    if negb (bool_decide (i_state i = Listening)) then eret (Err InvalidStateTransition)
    else
      run n <- Socket_new Tcp;
      run_ on_inner n (fun j => transition_to (set_objects (set_addrs j (i_local i) (Some remote)) true (tcp_listener j) (udp_socket j)) Connected);
      eret (Ok n).

Definition socket_send (k : Socket) (data : list Z) : ep (result nat SocketError) :=
  run r <- on_inner k (fun i =>
    if negb (can_send (i_state i)) then (Err NotConnected, i) else send_to_buffer i data);
  match r with
  | Err e => eret (Err e)
  | Ok len =>
      if (0 <? len)%nat then
        run e <- send_event (DataReady (fd k) (socket_type k));
        match e with
        | Ok _ => eret (Ok len)
        | Err x => eret (Err x)
        end
      else eret (Ok len)
  end.

(** [recv] into a buffer of [n] bytes gives the bytes read. *)
Definition socket_recv (k : Socket) (n : nat) : ep (result (list Z) SocketError) :=
  run r <- on_inner k (fun i =>
    if negb (can_receive (i_state i)) then ((Err NotConnected, []), i)
    else
      let '(d, ws, i') := recv_from_buffer i n in
      ((match d with [] => Err Timeout | _ => Ok d end, ws), i'));
  run_ wake r.2;
  eret r.1.

Definition socket_send_to (k : Socket) (data : list Z) (addr : SocketAddr) : ep (result nat SocketError) :=
  if negb (bool_decide (socket_type k = Udp)) then eret (Err InvalidArgument)
  else
    run i <- on_inner k (fun i => (i, i));
    if negb (match i_state i with Bound | Connected => true | _ => false end) then eret (Err NotConnected)
    else
      run e <- send_event (SendTo (fd k) data addr);
      match e with
      | Ok _ => eret (Ok (length data))
      | Err x => eret (Err x)
      end.

Definition socket_recv_from (k : Socket) (n : nat) : ep (result (list Z * SocketAddr) SocketError) :=
  if negb (bool_decide (socket_type k = Udp)) then eret (Err InvalidArgument)
  else
    on_inner k (fun i =>
      match pending_packets i with
      | (addr, d) :: rest => (Ok (take (Nat.min n (length d)) d, addr), set_pending i rest)
      | [] => (Err Timeout, i)
      end).

(** The waker is woken inside [push_recv_data]; the second [take] finds none. *)
Definition push_data (k : Socket) (data : list Z) : ep unit :=
  run ws <- on_inner k (fun i =>
    let '(ws, i1) := push_recv_data i data in
    (ws ++ option_list (recv_waker i1), no_recv_waker i1));
  wake ws.

Definition push_packet (k : Socket) (addr : SocketAddr) (data : list Z) : ep unit :=
  run ws <- on_inner k (fun i =>
    (option_list (recv_waker i), no_recv_waker (set_pending i (pending_packets i ++ [(addr, data)]))));
  wake ws.

Definition socket_close (k : Socket) : ep (result unit SocketError) :=
  run r <- on_inner k (fun i =>
    let i1 := set_send (set_recv (set_objects i false false false) []) [] in
    let ws := option_list (recv_waker i1) ++ option_list (send_waker i1) ++ option_list (connect_waker i1) in
    let i2 := set_wakers i1 None None None (accept_waker i1) in
    let '(t, i3) := transition_to i2 Closed in ((t, ws), i3));
  run_ wake r.2;
  match r.1 with
  | Ok _ => run_ send_event (Close (fd k)); eret (Ok tt)
  | Err e => eret (Err e)
  end.

(** *** Owned sockets *)

Definition owned_new (t : SocketType) : ep Socket :=
  run k <- Socket_new t;
  run_ on_manager (fun m => (tt, register m k));
  eret k.

Definition local_of (s : endpoint) (k : Socket) : option SocketAddr :=
  match ep_store s !! inner k with
  | Some i => i_local i
  | None => None
  end.

(** [Drop for OwnedSocket] *)
Definition owned_drop (k : Socket) : ep unit :=
  run_ socket_close k;
  run s <- eget;
  run_ on_manager (fun m => unregister (local_of s) m (fd k));
  eret tt.

(** A failing step of the three helpers drops the socket. *)
Definition or_drop (k : Socket) (r : result unit SocketError) (next : ep (result Socket SocketError)) : ep (result Socket SocketError) :=
  match r with
  | Ok _ => next
  | Err e => run_ owned_drop k; eret (Err e)
  end.

Definition create_tcp_server (addr : SocketAddr) (backlog : Z) : ep (result Socket SocketError) :=
  run k <- owned_new Tcp;
  run r <- socket_bind k addr;
  or_drop k r (run r2 <- socket_listen k backlog; or_drop k r2 (eret (Ok k))).
Definition tcp_connect (addr : SocketAddr) : ep (result Socket SocketError) :=
  run k <- owned_new Tcp;
  run r <- socket_connect k addr;
  or_drop k r (eret (Ok k)).
Definition udp_bind (addr : SocketAddr) : ep (result Socket SocketError) :=
  run k <- owned_new Udp;
  run r <- socket_bind k addr;
  or_drop k r (eret (Ok k)).

(** ** futures.rs *)

Inductive poll (A : Type) := Ready (a : A) | Pending.
Arguments Ready {A} a.
Arguments Pending {A}.

(** [RecvFuture::poll] with a buffer of [n] bytes, by task [w] *)
Definition recv_poll (k : Socket) (n : nat) (w : Z) : ep (poll (result (list Z) SocketError)) :=
  on_inner k (fun i =>
    if negb (can_receive (i_state i)) then (Ready (Err NotConnected), i)
    else
      match recv_buffer i with
      | _ :: _ =>
          let len := Nat.min n (length (recv_buffer i)) in
          (Ready (Ok (take len (recv_buffer i))), set_recv i (drop len (recv_buffer i)))
      | [] =>
          if match i_state i with Closed | Closing => true | _ => false end then (Ready (Ok []), i)
          else (Pending, set_wakers i (Some w) (send_waker i) (connect_waker i) (accept_waker i))
      end).

(** [SendFuture::poll] with [offset] bytes sent so far: the new offset as well. *)
Definition send_poll (k : Socket) (data : list Z) (offset : nat) (w : Z) : ep (poll (result nat SocketError) * nat) :=
  on_inner k (fun i =>
    if negb (can_send (i_state i)) then ((Ready (Err NotConnected), offset), i)
    else if (length data <=? offset)%nat then ((Ready (Ok offset), offset), i)
    else
      let available := room (send_buffer_limit i) (send_buffer i) in
      let parked j := set_wakers j (recv_waker j) (Some w) (connect_waker j) (accept_waker j) in
      if (0 <? available)%nat then
        let remaining := drop offset data in
        let to_send := Nat.min (length remaining) available in
        let i1 := set_send i (send_buffer i ++ take to_send remaining) in
        let offset1 := (offset + to_send)%nat in
        if (length data <=? offset1)%nat then ((Ready (Ok offset1), offset1), i1)
        else ((Pending, offset1), parked i1)
      else ((Pending, offset), parked i)).

Definition accept_poll (k : Socket) (w : Z) : ep (poll (result (Socket * SocketAddr) SocketError)) :=
  run r <- socket_accept k;
  match r with
  | Ok p => eret (Ready (Ok p))
  | Err Timeout => run_ register_accept_waker k w; eret Pending
  | Err e => eret (Ready (Err e))
  end.

(** No waker is registered. *)
Definition recv_from_poll (k : Socket) (n : nat) : ep (poll (result (list Z * SocketAddr) SocketError)) :=
  run r <- socket_recv_from k n;
  match r with
  | Ok p => eret (Ready (Ok p))
  | Err Timeout => eret Pending
  | Err e => eret (Ready (Err e))
  end.

(** ** handler.rs *)

Inductive EventHandleResult := HSuccess | SocketNotFound (f : Z) | ProtocolError (e : SocketError) | Retry.

Definition with_socket (f : Z) (k : Socket -> ep EventHandleResult) : ep EventHandleResult :=
  run s <- eget;
  match ep_manager s with
  | None => eret (SocketNotFound f)
  | Some m =>
      match manager_get m f with
      | None => eret (SocketNotFound f)
      | Some sock => k sock
      end
  end.

(** The drained data is dropped. *)
Definition handle_data_ready (f : Z) (t : SocketType) : ep EventHandleResult :=
  with_socket f (fun sock =>
    on_inner sock (fun i =>
      match send_buffer i with
      | [] => (HSuccess, i)
      | _ => (if tcp_stream i then HSuccess else ProtocolError NotConnected, set_send i [])
      end)).

Definition syn_segment (local remote : SocketAddr) (isn : Z) : list Z :=
  calculate_checksum (segment_build (seg_window (seg_syn (seg_seq (segment_new (sa_port local) (sa_port remote)) isn)) 65535))
    (sa_ip local) (sa_ip remote).

(** [send_tcp_segment] of the handler is a stub that answers [Ok]. *)
Definition handler_send (src dst : SocketAddr) (segment : list Z) : ep (result unit SocketError) := eret (Ok tt).

Definition handle_connect (f : Z) (local remote : SocketAddr) : ep EventHandleResult :=
  with_socket f (fun sock =>
    run port <-
      (if sa_port local =? 0 then
         run p <- on_manager (fun m => allocate_ephemeral_port m Tcp);
         eret (default 49152 (match p with Some q => q | None => None end))
       else eret (sa_port local));
    let local_addr := mkAddr (sa_ip local) port in
    run_ on_inner sock (fun i => (tt, set_addrs i (Some local_addr) (i_remote i)));
    run s <- eget;
    let '(isn, tab) := generate_isn (ep_table s) in
    let tcb := set_tstate (initialize_seq (tcb_new f local_addr remote) isn) SynSent in
    run_ eput (fun s => set_table s (table_insert tab tcb));
    run r <- handler_send local_addr remote (syn_segment local_addr remote isn);
    match r with
    | Ok _ => eret HSuccess
    | Err _ => eret (ProtocolError Internal)
    end).

Definition handle_listen (f : Z) (local : SocketAddr) (backlog : Z) : ep EventHandleResult := with_socket f (fun _ => eret HSuccess).
Definition handle_close (f : Z) : ep EventHandleResult := with_socket f (fun _ => eret HSuccess).
Definition handle_send_to (f : Z) (remote : SocketAddr) (data : list Z) : ep EventHandleResult :=
  with_socket f (fun sock =>
    on_inner sock (fun i => (if udp_socket i then HSuccess else ProtocolError InvalidStateTransition, i))).

Definition handle_event (e : NetworkEvent) : ep EventHandleResult :=
  match e with
  | DataReady f t => handle_data_ready f t
  | Connect f local remote => handle_connect f local remote
  | Listen f local backlog => handle_listen f local backlog
  | Close f => handle_close f
  | SendTo f data remote => handle_send_to f remote data
  end.

(** ** tcp_rx.rs *)

Definition ack_segment (t : TcpControlBlockEntry) (seq ack : Z) : list Z :=
  calculate_checksum
    (segment_build (seg_window (seg_ack_flag (seg_ack (seg_seq (segment_new (sa_port (t_local t)) (sa_port (t_remote t))) seq) ack)) 65535))
    (sa_ip (t_local t)) (sa_ip (t_remote t)).
Definition syn_ack_segment (local remote : SocketAddr) (isn ack : Z) : list Z :=
  calculate_checksum
    (segment_build (seg_window (seg_ack_flag (seg_syn (seg_ack (seg_seq (segment_new (sa_port local) (sa_port remote)) isn) ack))) 65535))
    (sa_ip local) (sa_ip remote).

Definition get_socket_by_fd (f : Z) : ep (option Socket) :=
  run s <- eget;
  eret (match ep_manager s with Some m => manager_get m f | None => None end).

Definition notify_socket_connected (f : Z) : ep unit :=
  run r <- get_socket_by_fd f;
  match r with
  | Some k =>
      run ws <- on_inner k (fun i => notify_connected (transition_to i Connected).2);
      wake ws
  | None => eret tt
  end.

Definition handle_syn_ack_received (t : TcpControlBlockEntry) (seq ack : Z) : ep unit :=
  if negb (ack =? snd_nxt t) then eret tt
  else
    run updated <- update_tcb t (fun e => set_tstate (set_snd (set_rcv_nxt e (wrap32 (seq + 1))) (snd_nxt e) ack) Established);
    if negb updated then eret tt else notify_socket_connected (t_fd t).

Definition remove_connection (t : TcpControlBlockEntry) : ep unit :=
  eput (fun s => set_table (set_queues s (queues_remove (ep_queues s) (t_local t, t_remote t)))
                   (table_remove (ep_table s) (t_local t) (t_remote t))).

Definition handle_rst_received (t : TcpControlBlockEntry) : ep unit :=
  run_ update_tcb t (fun e => set_tstate e TClosed);
  run r <- get_socket_by_fd (t_fd t);
  run_ (match r with
        | Some k =>
            run ws <- on_inner k (fun i => notify_connected (set_error i (Some ConnectionRefused)));
            wake ws
        | None => eret tt
        end);
  remove_connection t.

Definition handle_ack_received (t : TcpControlBlockEntry) (ack : Z) : ep unit :=
  run_ update_tcb t (fun e => if ack >? snd_una e then set_retransmits (set_snd e (snd_nxt e) ack) 0 else e);
  run s <- eget;
  run qs <- elift (queues_ack (ep_queues s) (t_local t, t_remote t) ack (current_tick (ep_table s)));
  eput (fun s => set_queues s qs).

(** [mgr.generate_fd()] has a counter of its own. *)
Definition create_accepted_socket (t : TcpControlBlockEntry) : ep (option AcceptedConnection) :=
  run s <- eget;
  match ep_manager s with
  | None => eret None
  | Some _ =>
      let new_fd := ep_fd_counter s in
      run_ eput (fun s => set_fds s (ep_next_fd s) (wrap32 (ep_fd_counter s + 1)));
      run_ update_tcb t (fun e => set_fd e new_fd);
      run_ eput (fun s => set_queues s (get_or_create (ep_queues s) (t_local t, t_remote t)).2);
      run s <- eget;
      eret (match table_get (ep_table s) (t_local t) (t_remote t) with
            | Some e => Some (mkAccepted new_fd (t_local t) (t_remote t) e)
            | None => None
            end)
  end.

Definition push_to_accept_queue (port : Z) (c : AcceptedConnection) : ep bool :=
  run s <- eget;
  match ep_manager s with
  | None => eret false
  | Some m =>
      match find_by_port m Tcp port with
      | None => eret false
      | Some k =>
          run r <- on_inner k (fun i =>
            if negb (bool_decide (i_state i = Listening)) then ((false, []), i)
            else if (accept_backlog i <=? length (accept_queue i))%nat then ((false, []), i)
            else ((true, option_list (accept_waker i)), no_accept_waker (set_accepts i (accept_queue i ++ [c]))));
          run_ wake r.2;
          eret r.1
      end
  end.

Definition handle_ack_for_syn (t : TcpControlBlockEntry) (ack : Z) : ep unit :=
  if negb (ack =? snd_nxt t) then eret tt
  else
    run_ update_tcb t (fun e => set_tstate (set_snd e (snd_nxt e) ack) Established);
    run c <- create_accepted_socket t;
    match c with
    | None => eret tt
    | Some c => run_ push_to_accept_queue (sa_port (t_local t)) c; eret tt
    end.

Definition handle_data_received (t : TcpControlBlockEntry) (seq : Z) (data : list Z) : ep unit :=
  if negb (seq =? rcv_nxt t) then eret tt
  else
    run_ update_tcb t (fun e => set_rcv_nxt e (wrap32 (rcv_nxt e + Z.of_nat (length data))));
    run r <- get_socket_by_fd (t_fd t);
    match r with
    | Some k => push_data k data
    | None => eret tt
    end.

(** The sequence number of the FIN is not compared with [rcv_nxt]. *)
Definition handle_fin_received (t : TcpControlBlockEntry) (seq : Z) : ep unit :=
  run_ update_tcb t (fun e =>
    set_tstate (set_rcv_nxt e (wrap32 (seq + 1)))
      (match t_state e with
       | Established => CloseWait
       | FinWait1 => TClosing
       | FinWait2 => TimeWait
       | s => s
       end));
  eret tt.

Definition handle_fin_ack_received (t : TcpControlBlockEntry) (seq ack : Z) : ep unit :=
  run_ handle_ack_received t ack;
  handle_fin_received t seq.

Definition handle_ack_for_fin (t : TcpControlBlockEntry) (ack : Z) : ep unit :=
  if negb (ack =? snd_nxt t) then eret tt
  else run_ update_tcb t (fun e => set_tstate (set_snd e (snd_nxt e) ack) FinWait2); eret tt.

Definition handle_final_ack (t : TcpControlBlockEntry) (ack : Z) : ep unit :=
  if negb (ack =? snd_nxt t) then eret tt
  else
    run_ update_tcb t (fun e => set_tstate e TClosed);
    remove_connection t.

Definition has_flag (flags f : Z) : bool := negb (Z.land flags f =? 0).

Definition process_tcp_with_tcb (t : TcpControlBlockEntry) (flags seq ack : Z) (segment : list Z) (data_offset : nat) : ep unit :=
  let is_syn := has_flag flags SYN in
  let is_ack := has_flag flags ACK in
  let is_fin := has_flag flags FIN in
  let is_rst := has_flag flags RST in
  match t_state t with
  | SynSent =>
      if is_syn && is_ack then handle_syn_ack_received t seq ack
      else if is_rst then handle_rst_received t
      else eret tt
  | SynReceived => if is_ack then handle_ack_for_syn t ack else eret tt
  | Established =>
      if is_fin then handle_fin_received t seq
      else if is_rst then handle_rst_received t
      else if (data_offset <? length segment)%nat then handle_data_received t seq (drop data_offset segment)
      else if is_ack then handle_ack_received t ack
      else eret tt
  | FinWait1 =>
      if is_fin && is_ack then handle_fin_ack_received t seq ack
      else if is_ack then handle_ack_for_fin t ack
      else eret tt
  | FinWait2 => if is_fin then handle_fin_received t seq else eret tt
  | CloseWait | LastAck => if is_ack then handle_final_ack t ack else eret tt
  | _ => eret tt
  end.

Definition process_tcp_new_connection (local remote : SocketAddr) (flags seq : Z) : ep unit :=
  if negb (has_flag flags SYN) then eret tt
  else
    run s <- eget;
    match ep_manager s with
    | None => eret tt
    | Some m =>
        match find_by_port m Tcp (sa_port local) with
        | None => eret tt
        | Some k =>
            run i <- on_inner k (fun i => (i, i));
            if negb (bool_decide (i_state i = Listening)) then eret tt
            else
              run s <- eget;
              let '(isn, tab) := generate_isn (ep_table s) in
              let tcb := set_tstate (set_rcv_nxt (initialize_seq (tcb_new (fd k) local remote) isn) (wrap32 (seq + 1))) SynReceived in
              eput (fun s => set_table s (table_insert tab tcb))
        end
    end.

Definition process_tcp_segment (src_ip dst_ip segment : list Z) : ep unit :=
  if (length segment <? 20)%nat then eret tt
  else
    let h := read_header segment in
    let remote := mkAddr src_ip (h_src_port h) in
    let local := mkAddr dst_ip (h_dst_port h) in
    run s <- eget;
    match table_get (ep_table s) local remote with
    | Some t => process_tcp_with_tcb t (h_flags h) (h_seq h) (h_ack h) segment (h_offset h)
    | None => process_tcp_new_connection local remote (h_flags h) (h_seq h)
    end.

(** ** The timer *)

Definition check_retransmit_timeouts : ep unit :=
  run s <- eget;
  let '(sent, gone, qs) := check_timeouts (ep_queues s) (current_tick (ep_table s)) in
  eput (fun s => set_sent (set_table (set_queues s qs)
    (foldl (fun t k => table_remove t k.1 k.2) (ep_table s) gone)) (ep_sent s ++ sent)).

Definition tick : ep unit :=
  run s <- eget;
  let t := ep_table s in
  run_ eput (fun s => set_table s (mkTable (tcb_entries t) (seq_counter t) (current_tick t +w 1)));
  if current_tick t mod 100 =? 0 then check_retransmit_timeouts else eret tt.

(** One turn of [network_event_task]: the event awaited, then all others, as many
    as the queue holds since the handlers send none. *)
Fixpoint drain_loop (n : nat) : ep unit :=
  match n with
  | O => eret tt
  | S n' =>
      run s <- eget;
      let '(e, q) := event_recv (ep_events s) in
      run_ eput (fun s => set_events s q);
      match e with
      | Some e => run_ handle_event e; drain_loop n'
      | None => eret tt
      end
  end.
Definition event_turn (e : NetworkEvent) : ep EventHandleResult :=
  run r <- handle_event e;
  run s <- eget;
  run_ drain_loop (S (length (events (ep_events s))));
  eret r.
