(* ===== verification/EndpointTheorems.v ===== *)
(** * Theorems on sockets and the TCP state machine *)

From stdpp Require Import base list gmap relations.
From Stdlib Require Import ZArith Lia.
From S2P Require Import Prelude NetBytes TcpWindow TcpSegment TcpSegmentTheorems Endpoint EndpointOps.



(** * Sockets: the invariant of the endpoint module

    Every operation, run on a state that satisfies the invariant with handles
    that exist, returns, keeps the invariant, and moves the state of each socket
    only along the transitions of [transition_to]. *)

Import WindowScale Congestion FlowControl Segment Retransmit RetransmitSpec.

Local Open Scope Z_scope.

(** Socket states move along the table. *)
Definition may_become : relation SocketState := rtc (fun a b => valid_transition a b = true).

Lemma may_become_refl (a : SocketState) : may_become a a.
Proof. apply rtc_refl. Qed.
Lemma may_become_step (a b : SocketState) : valid_transition a b = true -> may_become a b.
Proof. intros H. unfold may_become. by apply (rtc_once a b). Qed.
Lemma may_become_trans (a b c : SocketState) : may_become a b -> may_become b c -> may_become a c.
Proof. intros H1 H2. unfold may_become in *. by etransitivity. Qed.

Lemma closed_stays (b : SocketState) : may_become Closed b -> b = Closed.
Proof.
  intros H. remember Closed as a eqn:E. induction H as [|x y z Hxy _ IH]; [done|]. subst x.
  assert (y = Closed) as -> by (by destruct y; cbn in Hxy; bool_to_prop). by apply IH.
Qed.

Record wf (s : endpoint) : Prop := mkWf {
  wf_store : forall id, is_Some (ep_store s !! id) <-> (id < ep_next s)%nat;
  wf_handles : forall m f k, ep_manager s = Some m -> sockets m !! f = Some k -> (inner k < ep_next s)%nat;
  wf_ports : forall m, ep_manager s = Some m -> tcp_ports m = ∅ /\ udp_ports m = ∅;
  wf_queues : forall k q, ep_queues s !! k = Some q -> rto_ok (rto_calc q)
}.

(** Sockets are added and change their state only along the table. *)
Definition grows (s s' : endpoint) : Prop :=
  (ep_next s <= ep_next s')%nat /\
  forall id i, ep_store s !! id = Some i -> exists i', ep_store s' !! id = Some i' /\ may_become (i_state i) (i_state i').

Lemma grows_refl (s : endpoint) : grows s s.
Proof. split; [lia|]. intros id i H. exists i. split; [done | apply may_become_refl]. Qed.

Lemma grows_trans (a b c : endpoint) : grows a b -> grows b c -> grows a c.
Proof.
  intros [H1 H2] [H3 H4]. split; [lia|]. intros id i Hi. destruct (H2 id i Hi) as (j & Hj & Hij). destruct (H4 id j Hj) as (l & Hl & Hjl).
  exists l. split; [done|]. by eapply may_become_trans.
Qed.

Definition valid (k : Socket) (s : endpoint) : Prop := (inner k < ep_next s)%nat.

Lemma valid_grows (k : Socket) (s s' : endpoint) : grows s s' -> valid k s -> valid k s'.
Proof. intros [H _] Hv. unfold valid in *. lia. Qed.

(** ** Runs *)

(** [m] returns from every good state with [P], keeps it good, and ends with [Q].
    Conditions only speak of handles that exist, which no operation undoes. *)
Definition hoare {A} (P : endpoint -> Prop) (m : ep A) (Q : A -> endpoint -> Prop) : Prop :=
  forall s, wf s -> P s -> exists a s', m s = Ret (a, s') /\ wf s' /\ grows s s' /\ Q a s'.

Definition stable (P : endpoint -> Prop) : Prop := forall s s', grows s s' -> P s -> P s'.

(** No condition is left to prove. *)
Definition good {A} (P : endpoint -> Prop) (m : ep A) : Prop := hoare P m (fun _ _ => True).

Create HintDb endpoint.

Lemma stable_true : stable (fun _ => True).
Proof. done. Qed.
Lemma stable_valid (k : Socket) : stable (valid k).
Proof. intros s s'. apply valid_grows. Qed.
Lemma stable_and (P Q : endpoint -> Prop) : stable P -> stable Q -> stable (fun s => P s /\ Q s).
Proof. intros HP HQ s s' Hg [H1 H2]. split; [by eapply HP | by eapply HQ]. Qed.
#[export] Hint Resolve stable_true stable_valid stable_and : endpoint.

Lemma hoare_bind {A B} (P : endpoint -> Prop) (m : ep A) (k : A -> ep B) (Q : A -> endpoint -> Prop) (R : B -> endpoint -> Prop) :
  stable P -> hoare P m Q -> (forall a, hoare (fun s => Q a s /\ P s) (k a) R) -> hoare P (ebind m k) R.
Proof.
  intros Hst Hm Hk s Hw HP. destruct (Hm s Hw HP) as (a & s1 & E1 & Hw1 & Hg1 & HQ).
  destruct (Hk a s1 Hw1) as (b & s2 & E2 & Hw2 & Hg2 & HR); [split; [done | by eapply Hst]|].
  exists b, s2. unfold ebind. rewrite E1. split; [done|]. split; [done|]. split; [by eapply grows_trans | done].
Qed.

Lemma hoare_weaken {A} (P P' : endpoint -> Prop) (m : ep A) (Q Q' : A -> endpoint -> Prop) :
  (forall s, P' s -> P s) -> (forall a s, Q a s -> Q' a s) -> hoare P m Q -> hoare P' m Q'.
Proof.
  intros HP HQ Hm s Hw Hs. destruct (Hm s Hw (HP s Hs)) as (a & s' & E & H1 & H2 & H3). exists a, s'. split; [done|]. split; [done|]. split; [done | by apply HQ].
Qed.

Lemma good_bind {A B} (P : endpoint -> Prop) (m : ep A) (k : A -> ep B) :
  stable P -> good P m -> (forall a, good P (k a)) -> good P (ebind m k).
Proof.
  intros Hst Hm Hk. eapply hoare_bind; [done | exact Hm |]. intros a. eapply hoare_weaken; [|done|apply Hk]. by intros s [_ H].
Qed.

Lemma good_ret {A} (P : endpoint -> Prop) (a : A) : good P (eret a).
Proof. intros s Hw _. exists a, s. split; [done|]. split; [done|]. split; [apply grows_refl | done]. Qed.

(** After reading the state, what is known of it may be used. *)
Lemma good_get {B} (P : endpoint -> Prop) (k : endpoint -> ep B) :
  (forall s0, wf s0 -> P s0 -> good (fun s => s = s0) (k s0)) -> good P (ebind eget k).
Proof. intros H s Hw HP. destruct (H s Hw HP s Hw eq_refl) as (b & s' & E & H'). exists b, s'. unfold ebind, eget. by rewrite E. Qed.

Lemma good_any {A} (P : endpoint -> Prop) (m : ep A) : good (fun _ => True) m -> good P m.
Proof. intros H. by eapply hoare_weaken; [|done|apply H]. Qed.

Lemma good_at {A} (P : endpoint -> Prop) (s0 : endpoint) (m : ep A) : P s0 -> good P m -> good (fun s => s = s0) m.
Proof. intros HP H. eapply hoare_weaken; [|done|apply H]. by intros s ->. Qed.

(** A write that leaves sockets, manager and queues alone. *)
Definition same_core (s s' : endpoint) : Prop :=
  ep_store s' = ep_store s /\ ep_next s' = ep_next s /\ ep_manager s' = ep_manager s /\ ep_queues s' = ep_queues s.

Lemma same_core_wf (s s' : endpoint) : same_core s s' -> wf s -> wf s' /\ grows s s'.
Proof.
  intros (E1 & E2 & E3 & E4) [H1 H2 H3 H4]. split.
  - split; rewrite ?E1, ?E2, ?E3, ?E4; done.
  - split; [lia|]. rewrite E1. intros id i Hi. exists i. split; [done | apply may_become_refl].
Qed.

Lemma good_put (P : endpoint -> Prop) (f : endpoint -> endpoint) : (forall s, same_core s (f s)) -> good P (eput f).
Proof. intros H s Hw _. destruct (same_core_wf s (f s) (H s) Hw). by exists tt, (f s). Qed.

Lemma good_put_queues (P : endpoint -> Prop) (f : endpoint -> endpoint) :
  (forall s, ep_store (f s) = ep_store s /\ ep_next (f s) = ep_next s /\ ep_manager (f s) = ep_manager s) ->
  (forall s, wf s -> P s -> forall k q, ep_queues (f s) !! k = Some q -> rto_ok (rto_calc q)) -> good P (eput f).
Proof.
  intros H Hq s Hw HP. destruct (H s) as (E1 & E2 & E3). exists tt, (f s). split; [done|]. destruct Hw as [H1 H2 H3 H4]. split.
  - split; rewrite ?E1, ?E2, ?E3; try done. by apply Hq.
  - split; [|done]. split; [lia|]. rewrite E1. intros id i Hi. exists i. split; [done | apply may_become_refl].
Qed.

Lemma good_wake (P : endpoint -> Prop) (l : list Z) : good P (wake l).
Proof. by apply good_put. Qed.

(** A lock section that respects the table. *)
Definition respects {A} (f : SocketInner -> A * SocketInner) : Prop := forall i, may_become (i_state i) (i_state (f i).2).

Lemma good_on_inner {A} (k : Socket) (f : SocketInner -> A * SocketInner) : respects f -> good (valid k) (on_inner k f).
Proof.
  intros Hf s Hw Hv. pose proof Hw as [H1 H2 H3 H4]. unfold on_inner. destruct (proj2 (H1 (inner k)) Hv) as [i Hi]. rewrite Hi.
  pose proof (Hf i) as Hfi. destruct (f i) as [a i'] eqn:E. exists a, (set_store s (<[inner k := i']> (ep_store s))). split; [done|]. split; [|split; [|done]].
  - split; cbn [set_store ep_store ep_next ep_manager ep_queues]; try done. intros id. rewrite <- H1. destruct (decide (id = inner k)) as [->|Hne].
    + rewrite lookup_insert_eq, Hi. done.
    + by rewrite lookup_insert_ne.
  - split; [done|]. cbn [set_store ep_store]. intros id j Hj. destruct (decide (id = inner k)) as [->|Hne].
    + rewrite lookup_insert_eq. exists i'. split; [done|]. by simplify_eq.
    + rewrite lookup_insert_ne by done. exists j. split; [done | apply may_become_refl].
Qed.

Definition manager_ok (n : nat) (m : SocketManager) : Prop :=
  (forall f k, sockets m !! f = Some k -> (inner k < n)%nat) /\ tcp_ports m = ∅ /\ udp_ports m = ∅.

Lemma good_on_manager {A} (P : endpoint -> Prop) (f : SocketManager -> A * SocketManager) :
  (forall s m, P s -> manager_ok (ep_next s) m -> manager_ok (ep_next s) (f m).2) -> good P (on_manager f).
Proof.
  intros Hf s Hw HP. pose proof Hw as [H1 H2 H3 H4]. unfold on_manager. destruct (ep_manager s) as [m|] eqn:Em.
  - assert (Hm : manager_ok (ep_next s) m) by (split; [intros fd k; by apply H2 | by apply H3]).
    specialize (Hf s m HP Hm). destruct (f m) as [a m']. destruct Hf as (Ha & Hb & Hc). exists (Some a), (set_manager s (Some m')). split; [done|]. split.
    + split; cbn [set_manager ep_store ep_next ep_manager ep_queues]; try done; intros ?? ; [intros k [= <-]; apply Ha | by simplify_eq].
    + split; [|done]. split; [done|]. intros id i Hi. exists i. split; [done | apply may_become_refl].
  - exists None, s. split; [done|]. split; [done|]. split; [apply grows_refl | done].
Qed.

(** ** The operations *)

Lemma good_inner {A} (P : endpoint -> Prop) (k : Socket) (f : SocketInner -> A * SocketInner) :
  (forall s, P s -> valid k s) -> respects f -> good P (on_inner k f).
Proof. intros HP Hf. eapply hoare_weaken; [exact HP | done | by apply good_on_inner]. Qed.

Lemma good_read {B} (P : endpoint -> Prop) (k : endpoint -> ep B) :
  (forall s0, wf s0 -> P s0 -> good P (k s0)) -> good P (ebind eget k).
Proof. intros H. apply good_get. intros s0 Hw HP. by eapply good_at; [|apply H]. Qed.

(** Sections that only touch other fields. *)
Lemma respects_same {A} (f : SocketInner -> A * SocketInner) : (forall i, i_state (f i).2 = i_state i) -> respects f.
Proof. intros H i. rewrite H. apply may_become_refl. Qed.

Lemma transition_respects (i : SocketInner) (st : SocketState) : may_become (i_state i) (i_state (transition_to i st).2).
Proof.
  unfold transition_to. destruct (valid_transition (i_state i) st) eqn:E; [by apply may_become_step | apply may_become_refl].
Qed.

Ltac prove_respects :=
  first [ done | apply respects_same; intros i; cbv beta; repeat case_match; simplify_eq; done
        | intros i; cbv beta; repeat case_match; simplify_eq; cbn [fst snd];
          first [ apply may_become_refl | match goal with |- context [transition_to ?j ?st] => exact (transition_respects j st) end | match goal with H : transition_to ?j ?st = _ |- _ =>
            let T := fresh in pose proof (transition_respects j st) as T; rewrite H in T; exact T end ] ].

Ltac walk_step :=
  lazymatch goal with
  | |- good _ (eret _) => apply good_ret
  | |- good _ (wake _) => apply good_wake
  | |- good _ (eput _) => apply good_put; done
  | |- good _ (ebind eget _) => apply good_read; intros ? ? ?
  | |- good _ (ebind _ _) => apply good_bind; [solve [auto 6 with endpoint] | | intros ?]
  | |- good _ (on_inner _ _) => apply good_inner; [solve [intros; intuition eauto] | prove_respects]
  | |- good _ (if ?b then _ else _) => destruct b
  | |- good _ (match ?x with _ => _ end) => destruct x
  | |- good _ (let _ := _ in _) => cbv zeta
  | |- good _ _ => solve [auto 6 with endpoint]
  end.
Ltac walk := repeat (cbv beta; walk_step).

Lemma good_send_event (P : endpoint -> Prop) (e : NetworkEvent) : stable P -> good P (send_event e).
Proof. intros HP. unfold send_event. walk. Qed.
#[export] Hint Resolve good_send_event : endpoint.

(** New sockets come with a valid handle. *)
Lemma hoare_with_fd (P : endpoint -> Prop) (t : SocketType) (f : Z) : hoare P (Socket_with_fd t f) (fun k s => valid k s).
Proof.
  intros s Hw HP. pose proof Hw as [H1 H2 H3 H4].
  exists (mkSocketHandle f t (ep_next s)), (set_next (set_store s (<[ep_next s := inner_new]> (ep_store s))) (S (ep_next s))).
  split; [done|]. split; [|split; [|unfold valid; cbn; lia]].
  - split; cbn [set_next set_store ep_store ep_next ep_manager ep_queues]; try done.
    + intros id. destruct (decide (id = ep_next s)) as [->|Hne]; [rewrite lookup_insert_eq; split; [lia | done]|].
      rewrite lookup_insert_ne, H1 by done. lia.
    + intros m g k Hm Hk. specialize (H2 m g k Hm Hk). lia.
  - split; [cbn; lia|]. cbn [set_next set_store ep_store]. intros id i Hi. exists i.
    rewrite lookup_insert_ne; [split; [done | apply may_become_refl]|]. intros <-.
    assert (H : (ep_next s < ep_next s)%nat) by (apply H1; eauto). lia.
Qed.

Lemma hoare_new (P : endpoint -> Prop) (t : SocketType) : stable P -> hoare P (Socket_new t) (fun k s => valid k s).
Proof.
  intros HP. unfold Socket_new. eapply hoare_bind; [done | | intros s0].
  - instantiate (1 := fun _ _ => True). intros s Hw Hs. exists s, s. split; [done|]. split; [done|]. split; [apply grows_refl | done].
  - eapply hoare_bind; [by apply stable_and | by apply good_put |]. intros []. apply hoare_with_fd.
Qed.

(** Using a fresh socket. *)
Lemma good_fresh {B} (P : endpoint -> Prop) (t : SocketType) (f : Z) (k : Socket -> ep B) :
  stable P -> (forall n, good (fun s => valid n s /\ P s) (k n)) -> good P (ebind (Socket_with_fd t f) k).
Proof. intros HP H. eapply hoare_bind; [done | by apply hoare_with_fd | apply H]. Qed.
Lemma good_fresh_new {B} (P : endpoint -> Prop) (t : SocketType) (k : Socket -> ep B) :
  stable P -> (forall n, good (fun s => valid n s /\ P s) (k n)) -> good P (ebind (Socket_new t) k).
Proof. intros HP H. eapply hoare_bind; [done | by apply hoare_new | apply H]. Qed.

Lemma manager_ok_register (n : nat) (m : SocketManager) (k : Socket) : (inner k < n)%nat -> manager_ok n m -> manager_ok n (register m k).
Proof.
  intros Hk (H1 & H2 & H3). split; [|done]. cbn [register sockets]. intros f j Hj.
  destruct (decide (f = fd k)) as [->|Hne]; [rewrite lookup_insert_eq in Hj; by simplify_eq | rewrite lookup_insert_ne in Hj by done; by eapply H1].
Qed.

Lemma manager_ok_unregister (n : nat) (m : SocketManager) (local : Socket -> option SocketAddr) (f : Z) :
  manager_ok n m -> manager_ok n (unregister local m f).2.
Proof.
  intros (H1 & H2 & H3). unfold unregister.
  assert (Hd : manager_ok n (mkManager (delete f (sockets m)) (tcp_ports m) (udp_ports m) (next_ephemeral_port m))).
  { split; [|done]. cbn [sockets]. intros g j Hj. apply lookup_delete_Some in Hj as [_ Hj]. by eapply H1. }
  destruct (sockets m !! f) as [k|]; [|done]. cbn [snd]. destruct (local k) as [a|]; [|done].
  destruct Hd as (D1 & D2 & D3). cbn [sockets tcp_ports udp_ports] in *.
  destruct (socket_type k); cbn [ports_of set_ports tcp_ports udp_ports]; rewrite ?H2, ?H3, ?delete_empty; (split; [exact D1|]); done.
Qed.

Lemma manager_ok_ephemeral (n : nat) (m : SocketManager) (t : SocketType) :
  manager_ok n m -> manager_ok n (allocate_ephemeral_port m t).2.
Proof.
  intros (H1 & H2 & H3). unfold allocate_ephemeral_port. destruct (ports_of m t) as [p|]; [|done]. by destruct (ephemeral_loop _ _ _).
Qed.

Lemma good_register (P : endpoint -> Prop) (k : Socket) : (forall s, P s -> valid k s) -> good P (on_manager (fun m => (tt, register m k))).
Proof. intros HP. apply good_on_manager. intros s m Hs Hm. apply manager_ok_register; [by apply HP | done]. Qed.
Lemma good_unregister (P : endpoint -> Prop) (local : Socket -> option SocketAddr) (f : Z) : good P (on_manager (fun m => unregister local m f)).
Proof. apply good_on_manager. intros s m _. apply manager_ok_unregister. Qed.
Lemma good_ephemeral (P : endpoint -> Prop) (t : SocketType) : good P (on_manager (fun m => allocate_ephemeral_port m t)).
Proof. apply good_on_manager. intros s m _. apply manager_ok_ephemeral. Qed.
#[export] Hint Resolve good_unregister good_ephemeral : endpoint.

Lemma good_bind_op (k : Socket) (a : SocketAddr) : good (valid k) (socket_bind k a).
Proof. unfold socket_bind. walk. Qed.
Lemma good_connect (k : Socket) (a : SocketAddr) : good (valid k) (socket_connect k a).
Proof. unfold socket_connect. walk. Qed.
Lemma good_listen (k : Socket) (b : Z) : good (valid k) (socket_listen k b).
Proof. unfold socket_listen. walk. Qed.
Lemma good_send (k : Socket) (d : list Z) : good (valid k) (socket_send k d).
Proof. unfold socket_send, send_to_buffer. walk. Qed.
Lemma good_recv (k : Socket) (n : nat) : good (valid k) (socket_recv k n).
Proof. unfold socket_recv, recv_from_buffer. walk. Qed.
Lemma good_send_to (k : Socket) (d : list Z) (a : SocketAddr) : good (valid k) (socket_send_to k d a).
Proof. unfold socket_send_to. walk. Qed.
Lemma good_recv_from (k : Socket) (n : nat) : good (valid k) (socket_recv_from k n).
Proof. unfold socket_recv_from. walk. Qed.
Lemma good_push_data (k : Socket) (d : list Z) : good (valid k) (push_data k d).
Proof. unfold push_data, push_recv_data. walk. Qed.
Lemma good_push_packet (k : Socket) (a : SocketAddr) (d : list Z) : good (valid k) (push_packet k a d).
Proof. unfold push_packet. walk. Qed.
Lemma good_close (k : Socket) : good (valid k) (socket_close k).
Proof. unfold socket_close. walk. Qed.
Lemma good_register_waker (k : Socket) (w : Z) : good (valid k) (register_accept_waker k w).
Proof. unfold register_accept_waker. walk. Qed.
Lemma good_recv_poll (k : Socket) (n : nat) (w : Z) : good (valid k) (recv_poll k n w).
Proof. unfold recv_poll. walk. Qed.
Lemma good_send_poll (k : Socket) (d : list Z) (o : nat) (w : Z) : good (valid k) (send_poll k d o w).
Proof. unfold send_poll. walk. Qed.
#[export] Hint Resolve good_bind_op good_connect good_listen good_send good_recv good_send_to good_recv_from good_push_data
  good_push_packet good_close good_register_waker good_recv_poll good_send_poll : endpoint.

Lemma good_weaken {A} (P P' : endpoint -> Prop) (m : ep A) : good P m -> (forall s, P' s -> P s) -> good P' m.
Proof. intros H HP. by eapply hoare_weaken; [exact HP | done | exact H]. Qed.

(** Steps with operations that are known to be good under fewer conditions. *)
Ltac walk_known :=
  repeat (cbv beta; first [walk_step | eapply good_weaken; [solve [auto 6 with endpoint] | solve [intros; intuition]]]).

Lemma good_accept (k : Socket) : good (valid k) (socket_accept k).
Proof.
  unfold socket_accept. walk_step; [walk|]. walk_step; [walk|]. walk_step; [|walk].
  apply good_fresh; [auto with endpoint|]. intros n. walk_step; [walk|]. walk_step; [|walk].
  apply good_register. intuition.
Qed.
Lemma good_backlog (k : Socket) (a : SocketAddr) : good (valid k) (accept_from_backlog k a).
Proof.
  unfold accept_from_backlog. walk_step; [walk|]. walk_step; [walk|]. walk_step; [walk|].
  apply good_fresh_new; [auto with endpoint|]. intros n. walk.
Qed.
#[export] Hint Resolve good_accept good_backlog : endpoint.

Lemma good_accept_poll (k : Socket) (w : Z) : good (valid k) (accept_poll k w).
Proof. unfold accept_poll. walk. Qed.
Lemma good_recv_from_poll (k : Socket) (n : nat) : good (valid k) (recv_from_poll k n).
Proof. unfold recv_from_poll. walk. Qed.

(** A new owned socket used by [next]. *)
Lemma hoare_owned (P : endpoint -> Prop) (t : SocketType) : stable P -> hoare P (owned_new t) (fun k s => valid k s).
Proof.
  intros HP. unfold owned_new. eapply hoare_bind; [done | by apply hoare_new |]. intros k.
  eapply hoare_bind; [by auto with endpoint | apply good_register; by intros s [H _] |].
  intros r s Hw H. exists k, s. split; [done|]. split; [done|]. split; [apply grows_refl | apply H].
Qed.

Lemma good_drop (k : Socket) : good (valid k) (owned_drop k).
Proof. unfold owned_drop. walk. Qed.
#[export] Hint Resolve good_drop : endpoint.

Lemma good_or_drop (P : endpoint -> Prop) (k : Socket) (r : result unit SocketError) (next : ep (result Socket SocketError)) :
  stable P -> (forall s, P s -> valid k s) -> good P next -> good P (or_drop k r next).
Proof.
  intros HP Hk Hn. unfold or_drop. destruct r; [done|]. walk_step; [|walk]. by eapply good_weaken; [apply good_drop|].
Qed.

Lemma good_server (a : SocketAddr) (b : Z) : good (fun _ => True) (create_tcp_server a b).
Proof.
  unfold create_tcp_server. eapply hoare_bind; [done | by apply hoare_owned |]. intros k.
  apply (good_weaken (valid k)); [|intuition]. walk_step; [walk|].
  apply good_or_drop; [auto with endpoint | done |]. walk_step; [walk|]. apply good_or_drop; [auto with endpoint | done | walk].
Qed.
Lemma good_tcp_connect (a : SocketAddr) : good (fun _ => True) (tcp_connect a).
Proof.
  unfold tcp_connect. eapply hoare_bind; [done | by apply hoare_owned |]. intros k.
  apply (good_weaken (valid k)); [|intuition]. walk_step; [walk|]. apply good_or_drop; [auto with endpoint | done | walk].
Qed.
Lemma good_udp_bind (a : SocketAddr) : good (fun _ => True) (udp_bind a).
Proof.
  unfold udp_bind. eapply hoare_bind; [done | by apply hoare_owned |]. intros k.
  apply (good_weaken (valid k)); [|intuition]. walk_step; [walk|]. apply good_or_drop; [auto with endpoint | done | walk].
Qed.

(** *** Events *)

Lemma good_with_socket (P : endpoint -> Prop) (f : Z) (k : Socket -> ep EventHandleResult) :
  (forall sock, good (valid sock) (k sock)) -> good P (with_socket f k).
Proof.
  intros Hk. unfold with_socket. apply good_get. intros s0 Hw _. destruct (ep_manager s0) as [m|] eqn:Em; [|apply good_ret].
  unfold manager_get. destruct (sockets m !! f) as [sock|] eqn:Es; [|apply good_ret].
  eapply good_at; [|apply Hk]. by eapply wf_handles.
Qed.

Lemma good_handle_connect (P : endpoint -> Prop) (f : Z) (l r : SocketAddr) : good P (handle_connect f l r).
Proof. unfold handle_connect, handler_send. apply good_with_socket. intros sock. walk. Qed.

Lemma good_handle_event (P : endpoint -> Prop) (e : NetworkEvent) : good P (handle_event e).
Proof.
  destruct e as [f t|f l r|f l b|f|f d r]; cbn [handle_event]; [|apply good_handle_connect|..];
    unfold handle_data_ready, handle_listen, handle_close, handle_send_to; apply good_with_socket; intros sock; walk.
Qed.
#[export] Hint Resolve good_handle_event : endpoint.

Lemma good_drain (P : endpoint -> Prop) (n : nat) : stable P -> good P (drain_loop n).
Proof. intros HP. induction n as [|n IH]; cbn [drain_loop]; walk. Qed.
#[export] Hint Resolve good_drain : endpoint.

Lemma good_turn (P : endpoint -> Prop) (e : NetworkEvent) : stable P -> good P (event_turn e).
Proof. intros HP. unfold event_turn. walk. Qed.

(** *** Segments *)

Lemma good_update_tcb (P : endpoint -> Prop) (t : TcpControlBlockEntry) (f : TcpControlBlockEntry -> TcpControlBlockEntry) : good P (update_tcb t f).
Proof.
  intros s Hw HP. unfold update_tcb. destruct (table_update _ _ _ _) as [b tab]. exists b, (set_table s tab). split; [done|].
  destruct (same_core_wf s (set_table s tab)) as [H1 H2]; [done | done|]. done.
Qed.
#[export] Hint Resolve good_update_tcb : endpoint.

(** The socket a descriptor leads to exists. *)
Lemma good_by_fd {B} (P : endpoint -> Prop) (f : Z) (k : option Socket -> ep B) :
  (forall sock, good (valid sock) (k (Some sock))) -> good (fun _ => True) (k None) -> good P (ebind (get_socket_by_fd f) k).
Proof.
  intros H1 H2 s Hw HP. set (r := match ep_manager s with Some m => manager_get m f | None => None end).
  assert (E : ebind (get_socket_by_fd f) k s = k r s) by done. rewrite E. destruct r as [sock|] eqn:Er; [|by apply H2].
  apply H1; [done|]. unfold r in Er. destruct (ep_manager s) as [m|] eqn:Em; [|done]. by eapply wf_handles.
Qed.

Lemma good_notify (P : endpoint -> Prop) (f : Z) : good P (notify_socket_connected f).
Proof.
  unfold notify_socket_connected. apply good_by_fd; [|apply good_ret]. intros sock. walk_step; [|walk].
  apply good_inner; [done|]. intros i. unfold notify_connected. cbn [snd]. exact (transition_respects i Connected).
Qed.
#[export] Hint Resolve good_notify : endpoint.

Lemma good_remove (P : endpoint -> Prop) (t : TcpControlBlockEntry) : good P (remove_connection t).
Proof.
  apply good_put_queues; [done|]. intros s Hw _ k q. unfold queues_remove. cbn [set_table set_queues ep_queues].
  intros [_ H]%lookup_delete_Some. by eapply wf_queues.
Qed.
#[export] Hint Resolve good_remove : endpoint.

Lemma good_rst (P : endpoint -> Prop) (t : TcpControlBlockEntry) : stable P -> good P (handle_rst_received t).
Proof.
  intros HP. unfold handle_rst_received. walk_step; [walk|].
  apply good_by_fd; [intros sock | walk]. walk_step; [|walk]. walk_step; [|walk].
  apply good_inner; [done|]. by apply respects_same.
Qed.

Lemma queues_ack_ok (qs : queues) (k : conn) (ack t : Z) :
  (forall k q, qs !! k = Some q -> rto_ok (rto_calc q)) ->
  exists qs', queues_ack qs k ack t = Ret qs' /\ forall k q, qs' !! k = Some q -> rto_ok (rto_calc q).
Proof.
  intros H. unfold queues_ack. destruct (qs !! k) as [q|] eqn:E; [|by exists qs].
  unfold ack_received. destruct (ack_loop_ok (unacked q) (rto_calc q) ack t (H k q E)) as (c & -> & Hc). cbn [obind].
  eexists. split; [done|]. intros k' q' Hq'. destruct (decide (k' = k)) as [->|Hne];
    [rewrite lookup_insert_eq in Hq'; by simplify_eq | rewrite lookup_insert_ne in Hq' by done; by eapply H].
Qed.

Lemma good_ack (P : endpoint -> Prop) (t : TcpControlBlockEntry) (ack : Z) : stable P -> good P (handle_ack_received t ack).
Proof.
  intros HP. unfold handle_ack_received. walk_step; [walk|]. apply good_get. intros s0 Hw0 _.
  destruct (queues_ack_ok (ep_queues s0) (t_local t, t_remote t) ack (current_tick (ep_table s0)) (wf_queues _ Hw0)) as (qs & E & Hqs).
  assert (Hput : good (fun _ => True) (eput (fun s => set_queues s qs))) by (apply good_put_queues; [done | intros s _ _; exact Hqs]).
  rewrite E. intros s Hw ->. destruct (Hput s0 Hw I) as (b & s' & E' & H'). exists b, s'. split; [exact E' | done].
Qed.
#[export] Hint Resolve good_rst good_ack : endpoint.

Lemma good_create (P : endpoint -> Prop) (t : TcpControlBlockEntry) : stable P -> good P (create_accepted_socket t).
Proof.
  intros HP. unfold create_accepted_socket. apply good_read. intros s0 Hw0 _. destruct (ep_manager s0) as [m0|]; [|walk]. cbv zeta.
  walk_step; [walk|]. walk_step; [walk|]. walk_step; [|walk].
  apply good_put_queues; [done|]. intros s Hw _ k q. unfold get_or_create. cbn [set_queues ep_queues].
  destruct (ep_queues s !! _) eqn:E; cbn [snd]; [by eapply wf_queues|]. intros Hq.
  destruct (decide (k = (t_local t, t_remote t))) as [->|Hne];
    [rewrite lookup_insert_eq in Hq; simplify_eq; apply rto_new_ok | rewrite lookup_insert_ne in Hq by done; by eapply wf_queues].
Qed.

Lemma good_push_accept (P : endpoint -> Prop) (port : Z) (c : AcceptedConnection) : good P (push_to_accept_queue port c).
Proof.
  unfold push_to_accept_queue. apply good_get. intros s0 Hw _. destruct (ep_manager s0) as [m|] eqn:Em; [|apply good_ret].
  unfold find_by_port. cbn [ports_of]. rewrite (proj1 (wf_ports _ Hw m Em)), lookup_empty. apply good_ret.
Qed.
#[export] Hint Resolve good_create good_push_accept : endpoint.

Lemma good_ack_for_syn (P : endpoint -> Prop) (t : TcpControlBlockEntry) (ack : Z) : stable P -> good P (handle_ack_for_syn t ack).
Proof. intros HP. unfold handle_ack_for_syn. walk. Qed.
Lemma good_syn_ack (P : endpoint -> Prop) (t : TcpControlBlockEntry) (seq ack : Z) : stable P -> good P (handle_syn_ack_received t seq ack).
Proof. intros HP. unfold handle_syn_ack_received. walk. Qed.
Lemma good_data (P : endpoint -> Prop) (t : TcpControlBlockEntry) (seq : Z) (d : list Z) : stable P -> good P (handle_data_received t seq d).
Proof.
  intros HP. unfold handle_data_received. walk_step; [walk|]. walk_step; [walk|]. apply good_by_fd; [intros sock | walk]. walk.
Qed.
Lemma good_fin (P : endpoint -> Prop) (t : TcpControlBlockEntry) (seq : Z) : stable P -> good P (handle_fin_received t seq).
Proof. intros HP. unfold handle_fin_received. walk. Qed.
#[export] Hint Resolve good_ack_for_syn good_syn_ack good_data good_fin : endpoint.

Lemma good_with_tcb (P : endpoint -> Prop) (t : TcpControlBlockEntry) (flags seq ack : Z) (seg : list Z) (off : nat) :
  stable P -> good P (process_tcp_with_tcb t flags seq ack seg off).
Proof.
  intros HP. unfold process_tcp_with_tcb, handle_fin_ack_received, handle_ack_for_fin, handle_final_ack. cbv zeta. walk.
Qed.

(** No port is bound, so nobody listens. *)
Lemma new_connection_ignored (s : endpoint) (local remote : SocketAddr) (flags seq : Z) :
  wf s -> process_tcp_new_connection local remote flags seq s = Ret (tt, s).
Proof.
  intros Hw. unfold process_tcp_new_connection. destruct (negb _); [done|]. unfold ebind, eget. destruct (ep_manager s) as [m|] eqn:Em; [|done].
  unfold find_by_port. cbn [ports_of]. by rewrite (proj1 (wf_ports _ Hw m Em)), lookup_empty.
Qed.

Lemma good_segment (src dst seg : list Z) : good (fun _ => True) (process_tcp_segment src dst seg).
Proof.
  unfold process_tcp_segment. walk_step; [walk|]. cbv zeta. apply good_read. intros s0 _ _.
  destruct (table_get _ _ _); [by apply good_with_tcb|]. intros s Hw _. eexists _, s. split; [by apply new_connection_ignored|].
  split; [done|]. split; [apply grows_refl | done].
Qed.

(** *** The timer *)

Lemma after_check_ok (q q' : RetransmitQueue) (t : Z) : rto_ok (rto_calc q) -> after_check q t = Some q' -> rto_ok (rto_calc q').
Proof.
  intros H. unfold after_check, check_queue, retransmit. destruct (check_timeout q t); [|by intros [= <-]].
  destruct (unacked q) as [|u0 rest]; [by intros|]. destruct (_ >=? _); [by intros|]. intros [= <-]. by apply backoff_ok.
Qed.

Lemma good_timeouts (P : endpoint -> Prop) : good P check_retransmit_timeouts.
Proof.
  unfold check_retransmit_timeouts. apply good_get. intros s0 Hw0 _.
  pose proof (check_timeouts_lookup (ep_queues s0) (current_tick (ep_table s0))) as Hc.
  destruct (check_timeouts _ _) as [[sent gone] qs]. apply good_put_queues; [done|].
  intros s Hw -> k q Hq. cbn [set_sent set_table set_queues ep_queues] in Hq. rewrite Hc in Hq.
  destruct (ep_queues s0 !! k) as [q0|] eqn:E; [|done]. by eapply after_check_ok; [eapply wf_queues|].
Qed.
#[export] Hint Resolve good_timeouts : endpoint.

Lemma good_tick : good (fun _ => True) tick.
Proof. unfold tick. walk. Qed.

Import WindowScale Congestion FlowControl Segment Retransmit RetransmitSpec SegmentSpec.

Local Open Scope Z_scope.

(** ** Every run of the interface *)

(** What programs, drivers and the timer may call. *)
Inductive api :=
| ANew (t : SocketType) | AOwned (t : SocketType) | ADrop (k : Socket)
| ABind (k : Socket) (a : SocketAddr) | AConnect (k : Socket) (a : SocketAddr) | AListen (k : Socket) (b : Z)
| AAccept (k : Socket) | ABacklog (k : Socket) (a : SocketAddr)
| ASend (k : Socket) (d : list Z) | ARecv (k : Socket) (n : nat)
| ASendTo (k : Socket) (d : list Z) (a : SocketAddr) | ARecvFrom (k : Socket) (n : nat)
| APushData (k : Socket) (d : list Z) | APushPacket (k : Socket) (a : SocketAddr) (d : list Z) | AClose (k : Socket)
| ARecvPoll (k : Socket) (n : nat) (w : Z) | ASendPoll (k : Socket) (d : list Z) (o : nat) (w : Z)
| AAcceptPoll (k : Socket) (w : Z) | ARecvFromPoll (k : Socket) (n : nat)
| AServer (a : SocketAddr) (b : Z) | ATcpConnect (a : SocketAddr) | AUdpBind (a : SocketAddr)
| ATurn (e : NetworkEvent) | ASegment (src dst seg : list Z) | ATick.

Definition ignore {A} (m : ep A) : ep unit := run_ m; eret tt.

Definition run_api (o : api) : ep unit :=
  match o with
  | ANew t => ignore (Socket_new t)
  | AOwned t => ignore (owned_new t)
  | ADrop k => owned_drop k
  | ABind k a => ignore (socket_bind k a)
  | AConnect k a => ignore (socket_connect k a)
  | AListen k b => ignore (socket_listen k b)
  | AAccept k => ignore (socket_accept k)
  | ABacklog k a => ignore (accept_from_backlog k a)
  | ASend k d => ignore (socket_send k d)
  | ARecv k n => ignore (socket_recv k n)
  | ASendTo k d a => ignore (socket_send_to k d a)
  | ARecvFrom k n => ignore (socket_recv_from k n)
  | APushData k d => push_data k d
  | APushPacket k a d => push_packet k a d
  | AClose k => ignore (socket_close k)
  | ARecvPoll k n w => ignore (recv_poll k n w)
  | ASendPoll k d o w => ignore (send_poll k d o w)
  | AAcceptPoll k w => ignore (accept_poll k w)
  | ARecvFromPoll k n => ignore (recv_from_poll k n)
  | AServer a b => ignore (create_tcp_server a b)
  | ATcpConnect a => ignore (tcp_connect a)
  | AUdpBind a => ignore (udp_bind a)
  | ATurn e => ignore (event_turn e)
  | ASegment src dst seg => process_tcp_segment src dst seg
  | ATick => tick
  end.

Definition handle_of (o : api) : option Socket :=
  match o with
  | ADrop k | ABind k _ | AConnect k _ | AListen k _ | AAccept k | ABacklog k _ | ASend k _ | ARecv k _ | ASendTo k _ _ | ARecvFrom k _
  | APushData k _ | APushPacket k _ _ | AClose k | ARecvPoll k _ _ | ASendPoll k _ _ _ | AAcceptPoll k _ | ARecvFromPoll k _ => Some k
  | _ => None
  end.
Definition handle_ok (o : api) (s : endpoint) : Prop := match handle_of o with Some k => valid k s | None => True end.

(** [init_socket_manager] on the statics. *)
Definition start : endpoint := set_manager endpoint_new (Some manager_new).

Inductive reachable : endpoint -> Prop :=
| reach_start : reachable start
| reach_step s o s' : reachable s -> handle_ok o s -> run_api o s = Ret (tt, s') -> reachable s'.

Lemma start_wf : wf start.
Proof.
  split; cbn [start set_manager endpoint_new ep_store ep_next ep_manager ep_queues].
  - intros id. rewrite lookup_empty. split; [by intros [? ?] | lia].
  - intros m f k [= <-]. cbn [manager_new sockets]. by rewrite lookup_empty.
  - by intros m [= <-].
  - intros k q. by rewrite lookup_empty.
Qed.

Lemma good_ignore {A} (P : endpoint -> Prop) (m : ep A) : stable P -> good P m -> good P (ignore m).
Proof. intros HP Hm. apply good_bind; [done | done | intros; apply good_ret]. Qed.

Lemma stable_handle (o : api) : stable (handle_ok o).
Proof. unfold handle_ok. destruct (handle_of o); [apply stable_valid | done]. Qed.

Lemma good_api (o : api) : good (handle_ok o) (run_api o).
Proof.
  pose proof (stable_handle o) as Hs. destruct o; cbn [run_api]; try (apply good_ignore; [exact Hs|]);
    first [ apply good_bind_op | apply good_connect | apply good_listen | apply good_accept | apply good_backlog | apply good_send | apply good_recv
          | apply good_send_to | apply good_recv_from | apply good_push_data | apply good_push_packet | apply good_close | apply good_recv_poll
          | apply good_send_poll | apply good_accept_poll | apply good_recv_from_poll | apply good_drop
          | apply good_server | apply good_tcp_connect | apply good_udp_bind | by apply good_turn | apply good_segment | apply good_tick | idtac ].
  - eapply hoare_weaken; [done | done | by apply hoare_new].
  - eapply hoare_weaken; [done | done | by apply hoare_owned].
Qed.

Lemma reachable_wf (s : endpoint) : reachable s -> wf s.
Proof.
  induction 1 as [|s o s' _ IH Ho E]; [apply start_wf|]. destruct (good_api o s IH Ho) as (u & s1 & E1 & H1 & _).
  rewrite E in E1. by simplify_eq.
Qed.

(** no operation of the socket interface panics in any state the module can
    reach, whatever events, segments and timer ticks arrive in between; a socket's
    state moves only along the transition table; a closed socket stays closed;
    and every descriptor the manager knows leads to a socket that exists. *)
Theorem socket_interface_sound (s : endpoint) (o : api) :
  reachable s -> handle_ok o s ->
  exists s', run_api o s = Ret (tt, s') /\ reachable s' /\
    (forall id i, ep_store s !! id = Some i -> exists i', ep_store s' !! id = Some i' /\ may_become (i_state i) (i_state i') /\
       (i_state i = Closed -> i_state i' = Closed)) /\
    forall m f k, ep_manager s' = Some m -> sockets m !! f = Some k -> exists i, ep_store s' !! inner k = Some i.
Proof.
  intros Hr Ho. destruct (good_api o s (reachable_wf s Hr) Ho) as ([] & s' & E & Hw & Hg & _). exists s'.
  split; [done|]. split; [by eapply reach_step|]. split.
  - intros id i Hi. destruct (proj2 Hg id i Hi) as (i' & Hi' & Hb). exists i'. split; [done|]. split; [done|].
    intros Hc. rewrite Hc in Hb. by apply closed_stays.
  - intros m f k Hm Hk. destruct (proj2 (wf_store _ Hw (inner k)) (wf_handles _ Hw m f k Hm Hk)) as [i Hi]. by exists i.
Qed.

Lemma socket_interface_sound_witness : exists s', run_api (ATcpConnect (mkAddr [10; 0; 0; 2] 80)) start = Ret (tt, s').
Proof.
  destruct (socket_interface_sound start (ATcpConnect (mkAddr [10; 0; 0; 2] 80)) reach_start I) as (s' & E & _). by exists s'.
Defined.

(** ** Connections from outside *)

(** a server never sees a connection: no operation of the module binds a port, so
    in every reachable state a segment for which there is no control block, a SYN
    to a listening socket above all, changes nothing. *)
Theorem incoming_connection_ignored (s : endpoint) (src dst seg : list Z) :
  reachable s ->
  table_get (ep_table s) (mkAddr dst (h_dst_port (read_header seg))) (mkAddr src (h_src_port (read_header seg))) = None ->
  process_tcp_segment src dst seg s = Ret (tt, s).
Proof.
  intros Hr Ht. unfold process_tcp_segment. destruct (_ <? 20)%nat; [done|]. unfold ebind, eget. rewrite Ht.
  apply new_connection_ignored. by apply reachable_wf.
Qed.

(** A server that listens on port 80, and the SYN of a client. *)
Definition listening : endpoint :=
  match run_api (AServer (mkAddr [10; 0; 0; 1] 80) 16) start with
  | Ret (_, s) => s
  | Panic => start
  end.
Definition client_syn : list Z := syn_segment (mkAddr [10; 0; 0; 2] 50000) (mkAddr [10; 0; 0; 1] 80) 7.

Lemma incoming_connection_ignored_witness :
  (exists i, ep_store listening !! 0%nat = Some i /\ i_state i = Listening) /\
  process_tcp_segment [10; 0; 0; 2] [10; 0; 0; 1] client_syn listening = Ret (tt, listening).
Proof.
  split; [eexists; split; vm_compute; reflexivity|]. apply incoming_connection_ignored; [|vm_compute; reflexivity].
  apply (reach_step start (AServer (mkAddr [10; 0; 0; 1] 80) 16)); [apply reach_start | exact I | vm_compute; reflexivity].
Defined.

(** ** The client's handshake *)

Lemma handle_connect_entry (f : Z) (local remote : SocketAddr) (s s1 : endpoint) :
  sa_port local <> 0 -> handle_connect f local remote s = Ret (HSuccess, s1) ->
  exists t, table_get (ep_table s1) local remote = Some t /\ t_state t = SynSent /\ snd_nxt t = seq_counter (ep_table s) /\
    t_local t = local /\ t_remote t = remote.
Proof.
  intros Hp. unfold handle_connect, with_socket. unfold ebind at 1, eget at 1. destruct (ep_manager s) as [m|]; [|done].
  destruct (manager_get m f) as [k|]; [|done]. rewrite (proj2 (Z.eqb_neq _ _) Hp). unfold ebind, eret, eget, eput, on_inner, handler_send, generate_isn.
  destruct (ep_store s !! inner k) as [i|]; [|done]. cbn [ep_table set_store set_table]. intros [= <-].
  eexists. split; [unfold table_get, table_insert; cbn [tcb_entries ep_table set_table t_local t_remote set_tstate initialize_seq set_snd tcb_new]|].
  - destruct local as [ip port]. cbn [sa_ip sa_port]. apply lookup_insert_eq.
  - destruct local as [ip port]. cbn. done.
Qed.

(** the client's handshake cannot complete: after [handle_connect] a SYN-ACK that
    acknowledges the SYN as TCP asks, with the number after the initial one, is
    thrown away with the state unchanged; only one that acknowledges nothing
    would be taken. *)
Theorem client_handshake_refused (f : Z) (local remote : SocketAddr) (s s1 : endpoint) (seg : list Z) :
  sa_port local <> 0 -> handle_connect f local remote s = Ret (HSuccess, s1) -> is_u32 (seq_counter (ep_table s)) ->
  let h := read_header seg in
  h_src_port h = sa_port remote -> h_dst_port h = sa_port local -> (20 <= length seg)%nat ->
  has_flag (h_flags h) SYN = true -> has_flag (h_flags h) ACK = true ->
  (h_ack h = wrap32 (seq_counter (ep_table s) + 1) -> process_tcp_segment (sa_ip remote) (sa_ip local) seg s1 = Ret (tt, s1)) /\
  forall u s2, process_tcp_segment (sa_ip remote) (sa_ip local) seg s1 = Ret (u, s2) -> s2 <> s1 -> h_ack h = seq_counter (ep_table s).
Proof.
  intros Hp E Hc h Hsrc Hdst Hlen Hsyn Hack. destruct (handle_connect_entry f local remote s s1 Hp E) as (t & Ht & Hst & Hn & Hl & Hr).
  assert (Eseg : process_tcp_segment (sa_ip remote) (sa_ip local) seg s1 = handle_syn_ack_received t (h_seq h) (h_ack h) s1).
  { unfold process_tcp_segment. rewrite (proj2 (Nat.ltb_ge _ _)) by lia. fold h. unfold ebind, eget. rewrite Hsrc, Hdst.
    replace (mkAddr (sa_ip local) (sa_port local)) with local by (by destruct local).
    replace (mkAddr (sa_ip remote) (sa_port remote)) with remote by (by destruct remote).
    rewrite Ht. unfold process_tcp_with_tcb. by rewrite Hst, Hsyn, Hack. }
  rewrite Eseg. unfold handle_syn_ack_received. rewrite Hn. destruct (Z.eqb_spec (h_ack h) (seq_counter (ep_table s))) as [Ea|Ea]; cbn [negb].
  - split; [|done]. intros Hw. exfalso. rewrite Ea in Hw. unfold is_u32, u32_modulus, wrap32 in *.
    destruct (Z.eq_dec (seq_counter (ep_table s)) (2 ^ 32 - 1)) as [Em|]; [rewrite Em in Hw; discriminate | rewrite Z.mod_small in Hw; unfold u32_modulus in *; lia].
  - split; [done|]. intros u s2 [= _ <-] Hne. by exfalso.
Qed.

(** A socket that has asked for a connection, and the server's answer. *)
Definition created : endpoint := match run_api (AOwned Tcp) start with Ret (_, s) => s | Panic => start end.
Definition client_addr : SocketAddr := mkAddr [10; 0; 0; 1] 50000.
Definition server_addr : SocketAddr := mkAddr [10; 0; 0; 2] 80.
Definition connecting : endpoint :=
  match handle_connect 0 client_addr server_addr created with Ret (_, s) => s | Panic => created end.
Definition answer : list Z := syn_ack_segment server_addr client_addr 99 1.

Lemma client_handshake_refused_witness :
  process_tcp_segment (sa_ip server_addr) (sa_ip client_addr) answer connecting = Ret (tt, connecting).
Proof.
  apply (client_handshake_refused 0 client_addr server_addr created connecting answer);
    first [discriminate | vm_compute; reflexivity | vm_compute; split; [discriminate | reflexivity] | vm_compute; lia].
Defined.

(** ** Accepted sockets *)

(** a socket that [accept] hands out cannot be used: its state is still the one
    of a new socket (the transition to [Connected] is not in the table and its
    error is ignored), so sending and receiving on it fail. *)
Theorem accepted_socket_unusable (k : Socket) (s s' : endpoint) (n : Socket) (a : SocketAddr) (d : list Z) (len : nat) :
  socket_accept k s = Ret (Ok (n, a), s') ->
  (exists i, ep_store s' !! inner n = Some i /\ i_state i = Created /\ i_remote i = Some a) /\
  (exists s2, socket_send n d s' = Ret (Err NotConnected, s2)) /\ (exists s3, socket_recv n len s' = Ret (Err NotConnected, s3)).
Proof.
  intros H. assert (Hi : exists i, ep_store s' !! inner n = Some i /\ i_state i = Created /\ i_remote i = Some a).
  { revert H. unfold socket_accept. destruct (negb _); [done|]. unfold ebind at 1, on_inner at 1. destruct (ep_store s !! inner k) as [i|]; [|done].
    destruct (negb _); [done|]. destruct (accept_queue i) as [|c rest]; [done|].
    unfold Socket_with_fd, ebind, eget, eput, eret. cbn [set_store ep_next ep_store set_next inner]. unfold on_inner. cbn [inner ep_store set_next set_store ep_next].
    rewrite lookup_insert_eq.
    change (transition_to (set_addrs inner_new (Some (ac_local c)) (Some (ac_remote c))) Connected)
      with (Err (A := unit) InvalidStateTransition, set_addrs inner_new (Some (ac_local c)) (Some (ac_remote c))).
    unfold on_manager. cbn [set_store set_next ep_manager].
    destruct (ep_manager s); intros [= <- <- <-]; eexists; (split; [apply lookup_insert_eq | done]). }
  split; [done|]. destruct Hi as (i & Hi & Hs & _). unfold socket_send, socket_recv, ebind, on_inner. rewrite Hi, Hs. cbn [can_send can_receive negb].
  split; eexists; reflexivity.
Qed.

(** A listening socket with one connection waiting. *)
Definition waiting_server : endpoint :=
  let c := mkAccepted 5 server_addr client_addr (tcb_new 5 server_addr client_addr) in
  match ep_store listening !! 0%nat with
  | Some i => set_store listening (<[0%nat := set_accepts i [c]]> (ep_store listening))
  | None => listening
  end.
Definition server_handle : Socket := mkSocketHandle 0 Tcp 0.
Definition accepted_handle : Socket := mkSocketHandle 5 Tcp 1.

Lemma accepted_socket_unusable_witness :
  exists s', socket_accept server_handle waiting_server = Ret (Ok (accepted_handle, client_addr), s') /\
    exists s2, socket_send accepted_handle [1; 2; 3] s' = Ret (Err NotConnected, s2).
Proof.
  eexists. split; [vm_compute; reflexivity|].
  eapply (accepted_socket_unusable server_handle waiting_server _ accepted_handle client_addr [1; 2; 3] 0). vm_compute; reflexivity.
Defined.

(** ** The stream a connection receives *)

Section Stream.

Context (local remote : SocketAddr) (k : Socket) (irs : Z) (stream : list Z).

(** Data segments of the peer carry a part of its stream under the number of its
    first byte; the program reads. *)
Inductive stream_op := Arrive (off len : nat) (ack : Z) | Read (n : nat).

Definition data_segment (off len : nat) (ack : Z) : list Z :=
  let b := seg_data (seg_ack_flag (seg_ack (seg_seq (segment_new (sa_port remote) (sa_port local)) (wrap32 (irs + Z.of_nat off))) ack))
    (take len (drop off stream)) in
  calculate_checksum (segment_build b) (sa_ip remote) (sa_ip local).

(** The state and what the program has read so far. *)
Definition stream_step (sr : endpoint * list Z) (o : stream_op) : outcome (endpoint * list Z) :=
  let '(s, got) := sr in
  match o with
  | Arrive off len ack =>
      let! (_, s') := process_tcp_segment (sa_ip remote) (sa_ip local) (data_segment off len ack) s in Ret (s', got)
  | Read n =>
      let! (r, s') := socket_recv k n s in
      Ret (s', match r with Ok d => got ++ d | Err _ => got end)
  end.

(** A segment carries what an IP packet has room for. *)
Definition stream_op_ok (o : stream_op) : Prop :=
  match o with
  | Arrive off len ack => (0 < len)%nat /\ (off + len <= length stream)%nat /\ Z.of_nat len <= 65515 /\ is_u32 ack
  | Read _ => True
  end.

(** The specification: the place of the next byte, what was read, what is buffered, and
    whether a segment was cut because the buffer was full. *)
Record stream_state := mkStream { ss_next : nat; ss_read : list Z; ss_buf : list Z; ss_cut : bool }.

Definition stream_spec (st : stream_state) (o : stream_op) : stream_state :=
  match o with
  | Arrive off len _ =>
      if decide (off = ss_next st) then
        let free := (Z.to_nat MAX_BUFFER_SIZE - length (ss_buf st))%nat in
        mkStream (off + len) (ss_read st) (ss_buf st ++ take free (take len (drop off stream))) (ss_cut st || (free <? len)%nat)
      else st
  | Read n => mkStream (ss_next st) (ss_read st ++ take n (ss_buf st)) (drop n (ss_buf st)) (ss_cut st)
  end.

(** The connection is established and as the specification says. *)
Record tracks (st : stream_state) (s : endpoint) : Prop := mkTracks {
  rv_tcb : exists t, table_get (ep_table s) local remote = Some t /\ t_state t = Established /\ t_local t = local /\ t_remote t = remote /\
    t_fd t = fd k /\ rcv_nxt t = wrap32 (irs + Z.of_nat (ss_next st));
  rv_manager : exists m, ep_manager s = Some m /\ sockets m !! fd k = Some k;
  rv_inner : exists i, ep_store s !! inner k = Some i /\ i_state i = Connected /\ recv_buffer_limit i = MAX_BUFFER_SIZE /\ recv_buffer i = ss_buf st;
  rv_bound : (ss_next st <= length stream)%nat
}.

Context (Hlp : is_u16 (sa_port local)) (Hrp : is_u16 (sa_port remote)) (Hli : bytes (sa_ip local)) (Hri : bytes (sa_ip remote)).
Context (Hstream : bytes stream) (Hsize : Z.of_nat (length stream) < 2 ^ 32).

Lemma data_segment_read (off len : nat) (ack : Z) : stream_op_ok (Arrive off len ack) ->
  let g := data_segment off len ack in
  read_header g = mkHeader (sa_port remote) (sa_port local) (wrap32 (irs + Z.of_nat off)) ack 20 16 /\
  drop 20 g = take len (drop off stream) /\ (20 < length g)%nat.
Proof.
  intros (Hl & Hf & Hmax & Ha) g.
  set (b := seg_data (seg_ack_flag (seg_ack (seg_seq (segment_new (sa_port remote) (sa_port local)) (wrap32 (irs + Z.of_nat off))) ack)) (take len (drop off stream))).
  assert (Hlen : length (take len (drop off stream)) = len) by (rewrite length_take, length_drop; lia).
  assert (Hb : segment_ok b).
  { split; cbn [b seg_data seg_ack_flag seg_flags seg_ack seg_seq segment_new src_port dst_port seq_num ack_num flags window payload]; try done.
    - unfold is_u32, wrap32, u32_modulus. apply Z.mod_pos_bound. lia.
    - by apply Forall_take, Forall_drop.
    - rewrite Hlen. lia. }
  destruct (segment_spec b (sa_ip remote) (sa_ip local) Hb Hri Hli) as (H1 & _ & H2 & H3 & _).
  assert (Eg : calculate_checksum (segment_build b) (sa_ip remote) (sa_ip local) = g) by done. rewrite Eg in H1, H2, H3.
  change (payload b) with (take len (drop off stream)) in *. rewrite Hlen in H1. rewrite H2 in H3. split; [exact H2|]. split; [exact H3 | lia].
Qed.

(** Two places of the stream with the same number are the same. *)
Lemma offset_unique (a b : nat) :
  (a <= length stream)%nat -> (b <= length stream)%nat -> wrap32 (irs + Z.of_nat a) = wrap32 (irs + Z.of_nat b) -> a = b.
Proof.
  intros Ha Hb E. unfold wrap32, u32_modulus in E.
  assert (E2 : (Z.of_nat a - Z.of_nat b) mod 2 ^ 32 = 0).
  { replace (Z.of_nat a - Z.of_nat b) with ((irs + Z.of_nat a) - (irs + Z.of_nat b)) by lia. rewrite Zminus_mod, E, Z.sub_diag. done. }
  destruct (Z.lt_total (Z.of_nat a) (Z.of_nat b)) as [H|[H|H]]; [|lia|].
  - rewrite <- (Z_mod_plus_full _ 1), Z.mod_small in E2 by lia. lia.
  - rewrite Z.mod_small in E2 by lia. lia.
Qed.

Lemma take_take_drop (n len : nat) : take n stream ++ take len (drop n stream) = take (n + len) stream.
Proof. by rewrite take_take_drop. Qed.

(** A segment in order is appended as far as there is room, any other is ignored. *)
Lemma arrive_ok (st : stream_state) (s : endpoint) (off len : nat) (ack : Z) :
  tracks st s -> stream_op_ok (Arrive off len ack) ->
  exists s', process_tcp_segment (sa_ip remote) (sa_ip local) (data_segment off len ack) s = Ret (tt, s') /\ tracks (stream_spec st (Arrive off len ack)) s'.
Proof.
  intros [(t & Ht & Hst & Htl & Htr & Htf & Hrn) (m & Hm & Hmk) (i & Hi & His & Hil & Hgot) Hb] Ho.
  destruct (data_segment_read off len ack Ho) as (Hh & Hd & H20). set (g := data_segment off len ack) in *. destruct Ho as (Hl & Hf & Hmax & Ha).
  assert (E : process_tcp_segment (sa_ip remote) (sa_ip local) g s = handle_data_received t (wrap32 (irs + Z.of_nat off)) (take len (drop off stream)) s).
  { unfold process_tcp_segment. rewrite (proj2 (Nat.ltb_ge _ _)) by lia. rewrite Hh. cbn [h_src_port h_dst_port h_flags h_seq h_ack h_offset].
    unfold ebind, eget. replace (mkAddr (sa_ip local) (sa_port local)) with local by (by destruct local).
    replace (mkAddr (sa_ip remote) (sa_port remote)) with remote by (by destruct remote).
    rewrite Ht. unfold process_tcp_with_tcb. rewrite Hst. change (has_flag 16 FIN) with false. change (has_flag 16 RST) with false.
    cbv iota. by rewrite (proj2 (Nat.ltb_lt _ _)), Hd by lia. }
  rewrite E. unfold handle_data_received. rewrite Hrn. cbn [stream_spec].
  assert (Hlen : length (take len (drop off stream)) = len) by (rewrite length_take, length_drop; lia).
  destruct (decide (off = ss_next st)) as [->|Hne].
  2: { rewrite (proj2 (Z.eqb_neq _ _)) by (intros He; apply Hne, offset_unique; [lia | lia | done]). exists s. split; [done|]. split; eauto 12. }
  rewrite Z.eqb_refl. cbn [negb]. unfold ebind, update_tcb, table_update, get_socket_by_fd, eget, eret. unfold table_get in Ht. rewrite Htl, Htr, Ht.
  unfold ebind, eget. cbn [set_table ep_manager]. rewrite Hm. unfold manager_get. rewrite Htf, Hmk.
  unfold push_data, ebind, on_inner. cbn [set_table ep_store]. rewrite Hi. unfold push_recv_data. cbn [fst snd].
  set (d := take (Nat.min _ _) _). unfold wake, eput. eexists. split; [reflexivity|].
  assert (Hd' : d = take (Z.to_nat MAX_BUFFER_SIZE - length (ss_buf st)) (take len (drop (ss_next st) stream))).
  { unfold d, room. rewrite Hil, Hgot, Hlen, !take_take. f_equal. unfold MAX_BUFFER_SIZE. lia. }
  rewrite Hd'. split; cbn [ss_next ss_buf].
  - eexists. split; [unfold table_get; cbn [set_woken set_store set_table ep_table tcb_entries]; apply lookup_insert_eq|].
    cbn [set_rcv_nxt t_state t_local t_remote t_fd rcv_nxt]. split; [done|]. split; [done|]. split; [done|]. split; [done|].
    rewrite Hrn, Hlen. unfold wrap32. rewrite Zplus_mod_idemp_l. f_equal. lia.
  - exists m. done.
  - eexists. split; [cbn [set_woken set_store ep_store]; apply lookup_insert_eq|]. split; [done|]. split; [done|].
    cbn [no_recv_waker set_wakers set_recv recv_buffer]. by rewrite Hgot.
  - lia.
Qed.

Lemma read_ok (st : stream_state) (s : endpoint) (len : nat) :
  tracks st s -> exists s', stream_step (s, ss_read st) (Read len) = Ret (s', ss_read (stream_spec st (Read len))) /\ tracks (stream_spec st (Read len)) s'.
Proof.
  intros [Htcb (m & Hm & Hmk) (i & Hi & His & Hil & Hgot) Hb]. unfold stream_step, socket_recv, ebind, on_inner. rewrite Hi, His. cbn [can_receive negb].
  unfold recv_from_buffer. cbn [fst snd]. unfold wake, eput, eret. cbn [obind fst snd stream_spec ss_read]. rewrite Hgot.
  assert (Et : take (Nat.min len (length (ss_buf st))) (ss_buf st) = take len (ss_buf st)) by (destruct (Nat.min_spec len (length (ss_buf st))) as [[_ ->]|[? ->]]; [done | by rewrite !take_ge]).
  assert (Ed : drop (Nat.min len (length (ss_buf st))) (ss_buf st) = drop len (ss_buf st)) by (destruct (Nat.min_spec len (length (ss_buf st))) as [[_ ->]|[? ->]]; [done | by rewrite !drop_ge]).
  rewrite Et, Ed. set (d := take len (ss_buf st)).
  eexists. split; [destruct d eqn:Edd; [by rewrite app_nil_r | reflexivity]|]. split; cbn [ss_next ss_buf]; [exact Htcb | by exists m | | done].
  eexists. split; [cbn [set_woken set_store ep_store]; apply lookup_insert_eq|]. done.
Qed.

Lemma stream_run (ops : list stream_op) (st : stream_state) (s : endpoint) :
  tracks st s -> Forall stream_op_ok ops ->
  exists s', ofold stream_step (s, ss_read st) ops = Ret (s', ss_read (foldl stream_spec st ops)) /\ tracks (foldl stream_spec st ops) s'.
Proof.
  intros Hr Ho. revert st s Hr. induction Ho as [|o ops Ho _ IH]; intros st s Hr; [by exists s|]. cbn [ofold foldl].
  destruct o as [off len ack|len].
  - destruct (arrive_ok st s off len ack Hr Ho) as (s1 & E & H1). unfold stream_step at 1. rewrite E. cbn [obind].
    replace (ss_read st) with (ss_read (stream_spec st (Arrive off len ack))) by (cbn [stream_spec]; by case_decide). by apply IH.
  - destruct (read_ok st s len Hr) as (s1 & E & H1). rewrite E. cbn [obind]. by apply IH.
Qed.

(** As long as no segment is cut, what was read and what is buffered is the stream so far. *)
Definition in_order (st : stream_state) : Prop := ss_cut st = false -> ss_read st ++ ss_buf st = take (ss_next st) stream.

Lemma spec_in_order (ops : list stream_op) (st : stream_state) : Forall stream_op_ok ops -> in_order st ->
  in_order (foldl stream_spec st ops) /\ (ss_next st <= ss_next (foldl stream_spec st ops))%nat.
Proof.
  intros Ho. revert st. induction Ho as [|o ops Ho _ IH]; intros st Hi; [done|]. cbn [foldl].
  assert (H : in_order (stream_spec st o) /\ (ss_next st <= ss_next (stream_spec st o))%nat).
  { destruct o as [off len ack|n]; cbn [stream_spec].
    - destruct (decide (off = ss_next st)) as [->|]; [|done]. split; [|cbn; lia]. unfold in_order. cbn [ss_cut ss_read ss_buf ss_next].
      intros [Hc Hroom]%orb_false_iff. apply Nat.ltb_ge in Hroom. rewrite take_ge by (rewrite length_take; lia). rewrite app_assoc, Hi by done. apply take_take_drop.
    - split; [|done]. unfold in_order. cbn [ss_cut ss_read ss_buf ss_next]. intros Hc. by rewrite <- app_assoc, take_drop, Hi. }
  destruct (IH _ (proj1 H)) as [H1 H2]. split; [done | lia].
Qed.

(** C26: an established connection receives the peer's stream, of less than 2^32 bytes,
    as [stream_spec] says: whatever order the segments come in, duplicated or out of
    place, mixed with reads of any size, a segment that starts at the next byte is
    appended to the buffer, as far as there is room for it, every other one is ignored,
    and reads take from the front.  Unless a segment was cut because the buffer of 64 KiB
    was full (its missing bytes then count as received), what the program has read,
    followed by what is buffered, is the first part of the stream, and it never
    shrinks. *)
Theorem stream_delivered_in_order (ops : list stream_op) (st : stream_state) (s : endpoint) :
  tracks st s -> ss_read st ++ ss_buf st = take (ss_next st) stream -> Forall stream_op_ok ops ->
  let st' := foldl stream_spec st ops in
  exists s', ofold stream_step (s, ss_read st) ops = Ret (s', ss_read st') /\ (ss_next st <= ss_next st')%nat /\
    (exists i, ep_store s' !! inner k = Some i /\ recv_buffer i = ss_buf st') /\
    (exists t, table_get (ep_table s') local remote = Some t /\ rcv_nxt t = wrap32 (irs + Z.of_nat (ss_next st'))) /\
    (ss_cut st' = false -> ss_read st' ++ ss_buf st' = take (ss_next st') stream).
Proof.
  intros Hr Hi Ho st'. destruct (stream_run ops st s Hr Ho) as (s' & E & Hr'). fold st' in E, Hr'. exists s'. split; [exact E|].
  destruct (spec_in_order ops st Ho (fun _ => Hi)) as [H1 H2]. split; [exact H2|]. destruct Hr' as [(t & Ht & _ & _ & _ & _ & Hn) _ (i & Hii & _ & _ & Hb) _].
  split; [by exists i|]. split; [by exists t | exact H1].
Qed.

End Stream.

(** A connected socket. *)
Definition client_handle : Socket := mkSocketHandle 0 Tcp 0.
Definition established_tcb : TcpControlBlockEntry :=
  set_tstate (set_rcv_nxt (tcb_new 0 client_addr server_addr) 1000) Established.
Definition established : endpoint :=
  set_table (set_store created {[0%nat := set_state inner_new Connected]}) (table_insert table_new established_tcb).

Definition stream_start : stream_state := mkStream 0 [] [] false.

Lemma established_tracks : tracks client_addr server_addr client_handle 1000 [10; 20; 30; 40] stream_start established.
Proof.
  split.
  - exists established_tcb. split; [vm_compute; reflexivity|]. repeat split.
  - eexists. split; [reflexivity|]. vm_compute. reflexivity.
  - eexists. split; [vm_compute; reflexivity|]. repeat split.
  - cbn. lia.
Qed.

Lemma stream_delivered_in_order_witness :
  let ops := [Arrive 2 2 0; Arrive 0 2 0; Read 1; Arrive 2 2 0; Arrive 0 2 0] in
  exists s', ofold (stream_step client_addr server_addr client_handle 1000 [10; 20; 30; 40]) (established, []) ops = Ret (s', [10]) /\
    exists i, ep_store s' !! 0%nat = Some i /\ recv_buffer i = [20; 30; 40].
Proof.
  destruct (stream_delivered_in_order client_addr server_addr client_handle 1000 [10; 20; 30; 40]) with
    (ops := [Arrive 2 2 0; Arrive 0 2 0; Read 1; Arrive 2 2 0; Arrive 0 2 0]) (st := stream_start) (s := established)
    as (s' & E & _ & Hi & _);
    [unfold is_u16; cbn; lia | unfold is_u16; cbn; lia | by apply bytes_check | by apply bytes_check | by apply bytes_check | cbn; lia
    | exact established_tracks | reflexivity | repeat constructor; unfold is_u32, u32_modulus; cbn; lia | ].
  exists s'. split; [exact E | exact Hi].
Defined.

(** *** Where the stream is not delivered *)

(** Data the full buffer cannot take is thrown away and yet counted as received:
    the peer will never send it again. *)
Definition full_buffer : endpoint :=
  set_store established {[0%nat := mkInner Connected None None [1; 2; 3] [] 4 MAX_BUFFER_SIZE false false false [] [] DEFAULT_BACKLOG None None None None None]}.

Lemma overflow_counted_as_received :
  let seg := data_segment client_addr server_addr 1000 [10; 20; 30; 40] 0 4 0 in
  match process_tcp_segment [10; 0; 0; 2] [10; 0; 0; 1] seg full_buffer with
  | Ret (_, s) =>
      (recv_buffer <$> ep_store s !! 0%nat) = Some [1; 2; 3; 10] /\
      (rcv_nxt <$> table_get (ep_table s) client_addr server_addr) = Some 1004
  | Panic => False
  end.
Proof. vm_compute. done. Qed.

(** A FIN ahead of its place ends the stream although bytes before it are missing,
    and an acknowledgement that comes with data is not looked at. *)
Definition early_fin : list Z :=
  calculate_checksum (segment_build (seg_fin (seg_ack_flag (seg_seq (segment_new 80 50000) 1500)))) [10; 0; 0; 2] [10; 0; 0; 1].

Lemma early_fin_accepted :
  match process_tcp_segment [10; 0; 0; 2] [10; 0; 0; 1] early_fin established with
  | Ret (_, s) => (fun t => (t_state t, rcv_nxt t)) <$> table_get (ep_table s) client_addr server_addr = Some (CloseWait, 1501)
  | Panic => False
  end.
Proof. vm_compute. done. Qed.

Lemma ack_with_data_ignored :
  let t0 := set_snd established_tcb 500 400 in
  let s0 := set_table established (table_insert table_new t0) in
  match process_tcp_segment [10; 0; 0; 2] [10; 0; 0; 1] (data_segment client_addr server_addr 1000 [10; 20] 0 2 500) s0 with
  | Ret (_, s) => snd_una <$> table_get (ep_table s) client_addr server_addr = Some 400
  | Panic => False
  end.
Proof. vm_compute. done. Qed.

(** What a program sends is drained from the socket and dropped. *)
Lemma sent_data_dropped :
  match (run_ socket_send client_handle [1; 2; 3]; event_turn (DataReady 0 Tcp)) established with
  | Ret (r, s) => r = ProtocolError NotConnected /\ send_buffer <$> ep_store s !! 0%nat = Some [] /\ ep_sent s = []
  | Panic => False
  end.
Proof. vm_compute. done. Qed.

(** Descriptors of accepted connections come from a counter of their own and hit
    those of sockets that exist. *)
Lemma accepted_fd_collides :
  match (run k <- owned_new Tcp; run c <- create_accepted_socket established_tcb; eret (k, c)) established with
  | Ret ((k, Some c), _) => fd k = ac_fd c
  | _ => False
  end.
Proof. vm_compute. done. Qed.

(** ** Ports *)

Lemma ephemeral_range (c : Z) : 49152 <= ephemeral c <= 65535.
Proof.
  unfold ephemeral, EPHEMERAL_PORT_START, RANGE_SIZE, EPHEMERAL_PORT_END, EPHEMERAL_PORT_START.
  pose proof (Z.mod_pos_bound (wrap32 (c - 49152)) (65535 - 49152 + 1) ltac:(lia)). lia.
Qed.

Lemma wrap32_mod (z : Z) : wrap32 z mod 16384 = z mod 16384.
Proof.
  unfold wrap32, u32_modulus. change (2 ^ 32) with (16384 * 262144). rewrite Z.rem_mul_r by lia.
  by rewrite <- Z.add_mod_idemp_r, (Z.mul_comm 16384), Z.mod_mul, Z.add_0_r, Z.mod_mod by lia.
Qed.

Lemma ephemeral_eq (c : Z) : ephemeral c = 49152 + c mod 16384.
Proof.
  unfold ephemeral, EPHEMERAL_PORT_START, RANGE_SIZE, EPHEMERAL_PORT_END, EPHEMERAL_PORT_START. change (65535 - 49152 + 1) with 16384.
  rewrite wrap32_mod. f_equal. replace (c - 49152) with (c + (-3) * 16384) by lia. by rewrite Z.mod_add.
Qed.

(** The [n] ports tried from a counter on are the next ones on the circle. *)
Lemma ephemeral_loop_spec (ports : gmap Z Z) (n : nat) (c : Z) :
  let r := ephemeral_loop ports n c in
  match r.1 with
  | Some p => 49152 <= p <= 65535 /\ ports !! p = None
  | None => forall j, 0 <= j < Z.of_nat n -> is_Some (ports !! ephemeral (c + j))
  end.
Proof.
  revert c. induction n as [|n IH]; intros c; cbn [ephemeral_loop fst]; [intros j; lia|].
  destruct (ports !! ephemeral c) eqn:E; cbn [fst]; [|split; [apply ephemeral_range | done]].
  specialize (IH (wrap32 (c + 1))). cbv zeta in IH. destruct (ephemeral_loop ports n (wrap32 (c + 1))).1; [done|].
  intros j Hj. destruct (Z.eq_dec j 0) as [->|Hne]; [rewrite Z.add_0_r; eauto|].
  specialize (IH (j - 1) ltac:(lia)). rewrite ephemeral_eq in *. replace (c + j) with (c + 1 + (j - 1)) by lia.
  by rewrite <- Zplus_mod_idemp_l, wrap32_mod, Zplus_mod_idemp_l in IH.
Qed.

(** a port the manager picks is in the dynamic range and free, also when the
    32-bit counter has wrapped around, and it finds one whenever there is one. *)
Theorem ephemeral_port_found (m : SocketManager) (t : SocketType) (ports : gmap Z Z) :
  ports_of m t = Some ports ->
  match (allocate_ephemeral_port m t).1 with
  | Some p => EPHEMERAL_PORT_START <= p <= EPHEMERAL_PORT_END /\ ports !! p = None
  | None => forall p, EPHEMERAL_PORT_START <= p <= EPHEMERAL_PORT_END -> is_Some (ports !! p)
  end.
Proof.
  intros Hp. unfold allocate_ephemeral_port. rewrite Hp. pose proof (ephemeral_loop_spec ports (Z.to_nat RANGE_SIZE) (next_ephemeral_port m)) as H.
  cbv zeta in H. destruct (ephemeral_loop _ _ _) as [r c]. cbn [fst] in *. destruct r as [p|]; [done|].
  intros p Hr. unfold EPHEMERAL_PORT_START, EPHEMERAL_PORT_END in Hr.
  specialize (H ((p - 49152 - next_ephemeral_port m) mod 16384)). rewrite ephemeral_eq, Zplus_mod_idemp_r in H.
  replace (next_ephemeral_port m + (p - 49152 - next_ephemeral_port m)) with (p - 49152) in H by lia. rewrite (Z.mod_small (p - 49152)) in H by lia.
  replace (49152 + (p - 49152)) with p in H by lia. apply H. change (Z.of_nat (Z.to_nat RANGE_SIZE)) with 16384. apply Z.mod_pos_bound. lia.
Qed.

Lemma ephemeral_port_found_witness :
  match (allocate_ephemeral_port (mkManager ∅ {[49152 := 0]} ∅ 49152) Tcp).1 with
  | Some p => EPHEMERAL_PORT_START <= p <= EPHEMERAL_PORT_END /\ ({[49152 := 0]} : gmap Z Z) !! p = None
  | None => forall p, EPHEMERAL_PORT_START <= p <= EPHEMERAL_PORT_END -> is_Some (({[49152 := 0]} : gmap Z Z) !! p)
  end.
Proof. apply (ephemeral_port_found (mkManager ∅ {[49152 := 0]} ∅ 49152) Tcp). reflexivity. Defined.

(** ** The event queue *)

Inductive event_op := ESend (e : NetworkEvent) | ERecv | EDrain | EPoll (w : Z) (between : list NetworkEvent).

(** The queue, the events it accepted and the events it gave out, in order. *)
Record event_run := mkEventRun { er_queue : NetworkEventQueue; er_in : list NetworkEvent; er_out : list NetworkEvent }.

Definition accepted (q : NetworkEventQueue) (es : list NetworkEvent) : list NetworkEvent :=
  take (EVENT_CAPACITY - length (events q)) es.

Definition event_apply (r : event_run) (o : event_op) : event_run :=
  let q := er_queue r in
  match o with
  | ESend e => mkEventRun (event_send q e).2 (er_in r ++ accepted q [e]) (er_out r)
  | ERecv => mkEventRun (event_recv q).2 (er_in r) (er_out r ++ option_list (event_recv q).1)
  | EDrain => mkEventRun (drain_all q).2 (er_in r) (er_out r ++ (drain_all q).1)
  | EPoll w between =>
      let '(e, _, q') := event_poll q w between in
      mkEventRun q' (er_in r ++ match events q with [] => accepted q between | _ => [] end) (er_out r ++ option_list e)
  end.

(** The flag tells whether there are events, and a task is parked only without. *)
Record queue_ok (q : NetworkEventQueue) : Prop := mkQueueOk {
  qo_bound : (length (events q) <= EVENT_CAPACITY)%nat;
  qo_flag : has_events q = match events q with [] => false | _ => true end;
  qo_parked : ev_waker q <> None -> events q = []
}.

Lemma event_send_ok (q : NetworkEventQueue) (e : NetworkEvent) :
  queue_ok q -> queue_ok (event_send q e).2 /\ events (event_send q e).2 = events q ++ accepted q [e] /\
  (accepted q [e] <> [] -> (event_send q e).1.2 = option_list (ev_waker q) /\ ev_waker (event_send q e).2 = None) /\
  (accepted q [e] = [] -> (event_send q e).2 = q).
Proof.
  intros [Hb Hf Hp]. unfold event_send, accepted. destruct (Nat.leb_spec EVENT_CAPACITY (length (events q))) as [H|H]; cbn [fst snd].
  - replace (EVENT_CAPACITY - length (events q))%nat with 0%nat by lia. cbn [take]. rewrite app_nil_r. done.
  - rewrite take_ge by (cbn [length]; lia). cbn [events ev_waker]. split; [|done]. split; cbn [events has_events ev_waker].
    + rewrite length_app. cbn [length]. lia.
    + by destruct (events q).
    + done.
Qed.

Lemma event_recv_ok (q : NetworkEventQueue) :
  queue_ok q -> queue_ok (event_recv q).2 /\ events q = option_list (event_recv q).1 ++ events (event_recv q).2.
Proof.
  intros [Hb Hf Hp]. unfold event_recv. destruct (events q) as [|e es] eqn:E; cbn [fst snd events option_list app]; (split; [|done]).
  - split; cbn; [lia | done | done].
  - split; cbn [events has_events ev_waker]; [cbn [length] in Hb; lia | destruct es; [done | by rewrite Hf] | intros H; by apply Hp in H].
Qed.

Lemma sends_ok (es : list NetworkEvent) (ws : list Z) (q : NetworkEventQueue) :
  queue_ok q ->
  let r := foldl (fun acc e => let '(woken, q) := acc in let '(_, ws, q') := event_send q e in (woken ++ ws, q')) (ws, q) es in
  queue_ok r.2 /\ events r.2 = events q ++ accepted q es.
Proof.
  revert ws q. induction es as [|e es IH]; intros ws q Hq; cbn [foldl].
  - split; [done|]. unfold accepted. by rewrite take_nil, app_nil_r.
  - destruct (event_send_ok q e Hq) as (H1 & H2 & _). destruct (event_send q e) as [[b w] q1]. cbn [snd] in *.
    destruct (IH (ws ++ w) q1 H1) as [H3 H4]. split; [exact H3|]. rewrite H4, H2, <- app_assoc. f_equal. unfold accepted in *.
    rewrite H2, length_app, length_take. cbn [length]. destruct (EVENT_CAPACITY - length (events q))%nat as [|n] eqn:En; cbn [take].
    + replace (EVENT_CAPACITY - _)%nat with 0%nat by lia. done.
    + rewrite take_nil. cbn [app]. do 2 f_equal. lia.
Qed.

Lemma event_poll_ok (q : NetworkEventQueue) (w : Z) (between : list NetworkEvent) :
  queue_ok q ->
  let '(e, _, q') := event_poll q w between in
  queue_ok q' /\ events q ++ (match events q with [] => accepted q between | _ => [] end) = option_list e ++ events q' /\
  (e = None -> ev_waker q' = Some w).
Proof.
  intros Hq. unfold event_poll. destruct (event_recv_ok q Hq) as [H1 H2]. destruct (event_recv q) as [[e|] q1] eqn:E; cbn [fst snd] in *.
  - destruct (events q) as [|e0 es] eqn:Eq; [done|]. rewrite app_nil_r. done.
  - unfold event_recv in E. destruct (events q) as [|e0 es] eqn:Eq; [|done]. injection E as <-. cbn [events has_events ev_waker].
    assert (Hq0 : queue_ok (mkEvents [] (Some w) false)) by (split; cbn; [lia | done | done]).
    destruct (sends_ok between [] (mkEvents [] (Some w) false) Hq0) as [H3 H4].
    assert (Hac : accepted (mkEvents [] (Some w) false) between = accepted q between) by (unfold accepted; by rewrite Eq). rewrite Hac in H4. cbn [events app] in H4.
    assert (Hnil : accepted q between = [] -> foldl (fun acc e => let '(woken, q) := acc in let '(_, ws, q') := event_send q e in (woken ++ ws, q'))
      ([], mkEvents [] (Some w) false) between = ([], mkEvents [] (Some w) false)).
    { unfold accepted. rewrite Eq. destruct between; [done|]. done. }
    destruct (foldl _ _ between) as [ws q2] eqn:Ef. cbn [snd] in *. destruct (event_recv_ok q2 H3) as [H5 H6].
    destruct (event_recv q2) as [r q3] eqn:Er. cbn [fst snd] in *. split; [done|]. split; [by rewrite <- H4, <- H6|].
    intros ->. cbn [option_list app] in H6. unfold event_recv in Er. destruct (events q2) as [|e2 es2] eqn:E2; [|done]. injection Er as <-. cbn [ev_waker].
    specialize (Hnil (eq_sym H4)). by injection Hnil as _ ->.
Qed.

(** the event queue is a bounded queue: after any sends, receives, drains and
    polls, what it gave out followed by what it holds is exactly what it accepted,
    in order; it holds at most 256 events; its flag tells whether it holds any; a
    poll that waits has left its waker; and no task waits while there are
    events, also when they arrive during the poll. *)
Theorem event_queue_correct (ops : list event_op) :
  let r := foldl event_apply (mkEventRun events_new [] []) ops in
  let q := er_queue r in
  er_in r = er_out r ++ events q /\ (length (events q) <= EVENT_CAPACITY)%nat /\
  has_events q = match events q with [] => false | _ => true end /\ (ev_waker q <> None -> events q = []) /\
  forall w between, (event_poll q w between).1.1 = None -> ev_waker (event_poll q w between).2 = Some w.
Proof.
  assert (H : forall r, queue_ok (er_queue r) /\ er_in r = er_out r ++ events (er_queue r) ->
    queue_ok (er_queue (foldl event_apply r ops)) /\ er_in (foldl event_apply r ops) = er_out (foldl event_apply r ops) ++ events (er_queue (foldl event_apply r ops))).
  { induction ops as [|o ops IH]; intros r Hr; [done|]. cbn [foldl]. apply IH. destruct Hr as [Hq Hi]. destruct o as [e| | |w bt]; cbn [event_apply er_queue er_in er_out].
    - destruct (event_send_ok (er_queue r) e Hq) as (H1 & H2 & _). split; [done|]. by rewrite H2, Hi, <- app_assoc.
    - destruct (event_recv_ok (er_queue r) Hq) as [H1 H2]. split; [done|]. rewrite Hi, H2 at 1. by rewrite app_assoc.
    - split; [split; cbn; [lia | done | done]|]. unfold drain_all. cbn [fst snd events]. by rewrite app_nil_r.
    - pose proof (event_poll_ok (er_queue r) w bt Hq) as Hp. destruct (event_poll (er_queue r) w bt) as [[e ws] q']. destruct Hp as (H1 & H2 & _).
      cbn [er_queue er_in er_out]. split; [done|]. by rewrite Hi, <- !app_assoc, H2. }
  intros r q. destruct (H (mkEventRun events_new [] [])) as [Hq Hi]; [split; [split; cbn; [lia | done | done] | done]|]. fold r in Hq, Hi. fold q in Hq, Hi.
  split; [done|]. split; [apply Hq|]. split; [apply Hq|]. split; [apply Hq|].
  intros w bt. pose proof (event_poll_ok q w bt Hq) as Hp. destruct (event_poll q w bt) as [[e ws] q']. apply Hp.
Qed.

(** An acknowledgement across the wrap-around of the numbers is not seen as new,
    although the retransmission queue takes it. *)
Lemma wrapped_ack_ignored :
  snd_una (on_ack_received (set_snd established_tcb 32 0xFFFFFFF0) 16 false) = 0xFFFFFFF0 /\ seq_before 0xFFFFFFF0 16 = true.
Proof. vm_compute. done. Qed.
