(* ===== verification/LockFree.v ===== *)
(** * Lock-free rings between cores (src/src/sync/lockfree.rs)

    Back-off, the single-producer ring, the multi-producer ring with its bounded
    channel, the ring for many producers and consumers, and the sequence lock.

    An operation on shared memory is a machine over program points, one atomic or
    slot access per step, so that the steps of several cores interleave; the
    memory is sequentially consistent (the acquire and release orders of the
    source are stronger than needed for that on x86, where these rings run).  A
    slot is [None] while it is uninitialised: reading one, or reading a value a
    second time after it moved out, is undefined behaviour, a [Panic].  The loops
    of the source go back to the first program point; [compare_exchange_weak] may
    fail for no reason, which the scheduler decides. *)

From stdpp Require Import base list gmap.
From Stdlib Require Import ZArith Lia.
From S2P Require Import Prelude.

Local Open Scope Z_scope.

(** ** Exponential back-off *)

Module Backoff.

Definition BACKOFF_SPIN_LIMIT : Z := 6.
Definition BACKOFF_YIELD_LIMIT : Z := 10.

Record Backoff := mkBackoff { step : Z }.

Definition backoff_new : Backoff := mkBackoff 0.
Definition reset (b : Backoff) : Backoff := mkBackoff 0.

(** The number of pause hints executed, and the back-off afterwards. *)
Definition spin (b : Backoff) : Z * Backoff :=
  let hints :=
    if step b <=? BACKOFF_SPIN_LIMIT then Z.shiftl 1 (step b)
    else if step b <=? BACKOFF_YIELD_LIMIT then Z.shiftl 1 BACKOFF_SPIN_LIMIT
    else Z.shiftl 1 BACKOFF_SPIN_LIMIT in
  (hints, if step b <? BACKOFF_YIELD_LIMIT then mkBackoff (step b + 1) else b).

Definition snooze (b : Backoff) : Z * Backoff :=
  if step b <=? BACKOFF_SPIN_LIMIT then (Z.shiftl 1 (step b), mkBackoff (step b + 1)) else (1, b).

Definition is_completed (b : Backoff) : bool := step b >? BACKOFF_YIELD_LIMIT.

End Backoff.
Import Backoff.

(** ** Slots *)

Definition peek_slot {T} (b : list (option T)) (i : Z) : outcome T :=
  let! o := index b (Z.to_nat i) in
  match o with Some v => Ret v | None => Panic end.

Definition take_slot {T} (b : list (option T)) (i : Z) : outcome (T * list (option T)) :=
  let! v := peek_slot b i in
  let! b' := index_set b (Z.to_nat i) None in
  Ret (v, b').

Definition write_slot {T} (b : list (option T)) (i : Z) (v : T) : outcome (list (option T)) :=
  index_set b (Z.to_nat i) (Some v).

(** ** One producer, one consumer *)

Module Spsc.
Section spsc.
Context {T : Type} (N : Z).

Record SpscRingBuffer := mkSpsc { head : Z; tail : Z; buffer : list (option T) }.

Definition spsc_new : outcome SpscRingBuffer :=
  if N >=? 2 then Ret (mkSpsc 0 0 (replicate (Z.to_nat N) None)) else Panic.

Definition capacity : Z := N - 1.
Definition len (r : SpscRingBuffer) : Z := (head r -w tail r) mod N.
Definition is_empty (r : SpscRingBuffer) : bool := head r =? tail r.
Definition is_full (r : SpscRingBuffer) : bool := (head r +w 1) mod N =? tail r.

(** Program points of [push]: load [head]; load [tail]; write the slot; store
    [head]. *)
Inductive push_pc :=
| PushStart (value : T)
| PushHead (value : T) (head : Z)
| PushRoom (value : T) (head next_head : Z)
| PushWritten (value : T) (next_head : Z)
| PushDone (r : result unit T).

Definition push_step (r : SpscRingBuffer) (pc : push_pc) : outcome (SpscRingBuffer * push_pc) :=
  match pc with
  | PushStart v => Ret (r, PushHead v (head r))
  | PushHead v h =>
      let next_head := (h +w 1) mod N in
      if next_head =? tail r then Ret (r, PushDone (Err v)) else Ret (r, PushRoom v h next_head)
  | PushRoom v h next_head =>
      let! b := write_slot (buffer r) h v in Ret (mkSpsc (head r) (tail r) b, PushWritten v next_head)
  | PushWritten v next_head => Ret (mkSpsc next_head (tail r) (buffer r), PushDone (Ok tt))
  | PushDone _ => Ret (r, pc)
  end.

(** Program points of [pop] and [peek]: load [tail]; load [head]; read the slot;
    store [tail]. *)
Inductive pop_pc :=
| PopStart
| PopTail (tail : Z)
| PopSome (tail : Z)
| PopRead (value : T) (tail : Z)
| PopDone (r : option T)
| PeekStart
| PeekTail (tail : Z)
| PeekSome (tail : Z)
| PeekDone (r : option T).

Definition pop_step (r : SpscRingBuffer) (pc : pop_pc) : outcome (SpscRingBuffer * pop_pc) :=
  match pc with
  | PopStart => Ret (r, PopTail (tail r))
  | PopTail t => if t =? head r then Ret (r, PopDone None) else Ret (r, PopSome t)
  | PopSome t =>
      let! vb := take_slot (buffer r) t in
      Ret (mkSpsc (head r) (tail r) vb.2, PopRead vb.1 t)
  | PopRead v t => Ret (mkSpsc (head r) ((t +w 1) mod N) (buffer r), PopDone (Some v))
  | PopDone _ => Ret (r, pc)
  | PeekStart => Ret (r, PeekTail (tail r))
  | PeekTail t => if t =? head r then Ret (r, PeekDone None) else Ret (r, PeekSome t)
  | PeekSome t => let! v := peek_slot (buffer r) t in Ret (r, PeekDone (Some v))
  | PeekDone _ => Ret (r, pc)
  end.

(** A whole call, when no other core interferes. *)
Definition push (r : SpscRingBuffer) (value : T) : outcome (SpscRingBuffer * result unit T) :=
  let h := head r in
  let next_head := (h +w 1) mod N in
  if next_head =? tail r then Ret (r, Err value)
  else
    let! b := write_slot (buffer r) h value in
    Ret (mkSpsc next_head (tail r) b, Ok tt).

Definition pop (r : SpscRingBuffer) : outcome (SpscRingBuffer * option T) :=
  let t := tail r in
  if t =? head r then Ret (r, None)
  else
    let! vb := take_slot (buffer r) t in
    Ret (mkSpsc (head r) ((t +w 1) mod N) vb.2, Some vb.1).

(** Dropping the ring pops until it is empty. *)
Fixpoint drop_loop (fuel : nat) (r : SpscRingBuffer) : outcome (SpscRingBuffer * list T) :=
  match fuel with
  | O => Panic
  | S fuel =>
      let! p := pop r in
      match p.2 with
      | Some v => let! q := drop_loop fuel p.1 in Ret (q.1, v :: q.2)
      | None => Ret (p.1, [])
      end
  end.

Definition spsc_drop (r : SpscRingBuffer) : outcome (SpscRingBuffer * list T) := drop_loop (Z.to_nat N) r.

End spsc.
Arguments SpscRingBuffer : clear implicits.
Arguments push_pc : clear implicits.
Arguments pop_pc : clear implicits.
End Spsc.

(** ** Many producers, one consumer *)

Module Mpsc.
Section mpsc.
Context {T : Type} (N : Z).

Record MpscRingBuffer := mkMpsc { head : Z; committed : Z; tail : Z; buffer : list (option T) }.

Definition mpsc_new : outcome MpscRingBuffer :=
  if N >=? 2 then Ret (mkMpsc 0 0 0 (replicate (Z.to_nat N) None)) else Panic.

Definition capacity : Z := N - 1.
Definition is_empty (r : MpscRingBuffer) : bool := committed r =? tail r.
Definition len (r : MpscRingBuffer) : Z := (committed r -w tail r) mod N.

(** Program points of [push]: load [head]; load [tail]; exchange [head]; write
    the slot; wait for the slots before it; store [committed]. *)
Inductive push_pc :=
| PushLoop (value : T) (backoff : Backoff)
| PushHead (value : T) (backoff : Backoff) (head : Z)
| PushRoom (value : T) (backoff : Backoff) (head next_head : Z)
| PushReserved (value : T) (head next_head : Z)
| PushWaiting (value : T) (commit_backoff : Backoff) (head next_head : Z)
| PushTurn (value : T) (next_head : Z)
| PushDone (r : result unit T).

Definition push_start (value : T) : push_pc := PushLoop value backoff_new.

(** [weak] says whether a weak exchange fails although the values agree. *)
Definition push_step (weak : bool) (r : MpscRingBuffer) (pc : push_pc) : outcome (MpscRingBuffer * push_pc) :=
  match pc with
  | PushLoop v bo => Ret (r, PushHead v bo (head r))
  | PushHead v bo h =>
      let next_head := (h +w 1) mod N in
      if next_head =? tail r then Ret (r, PushDone (Err v)) else Ret (r, PushRoom v bo h next_head)
  | PushRoom v bo h next_head =>
      if (head r =? h) && negb weak then Ret (mkMpsc next_head (committed r) (tail r) (buffer r), PushReserved v h next_head)
      else Ret (r, PushLoop v (spin bo).2)
  | PushReserved v h next_head =>
      let! b := write_slot (buffer r) h v in
      Ret (mkMpsc (head r) (committed r) (tail r) b, PushWaiting v backoff_new h next_head)
  | PushWaiting v cbo h next_head =>
      if negb (committed r =? h) then Ret (r, PushWaiting v (snooze cbo).2 h next_head) else Ret (r, PushTurn v next_head)
  | PushTurn v next_head => Ret (mkMpsc (head r) next_head (tail r) (buffer r), PushDone (Ok tt))
  | PushDone _ => Ret (r, pc)
  end.

Inductive pop_pc :=
| PopStart
| PopTail (tail : Z)
| PopSome (tail : Z)
| PopRead (value : T) (tail : Z)
| PopDone (r : option T).

Definition pop_step (r : MpscRingBuffer) (pc : pop_pc) : outcome (MpscRingBuffer * pop_pc) :=
  match pc with
  | PopStart => Ret (r, PopTail (tail r))
  | PopTail t => if t =? committed r then Ret (r, PopDone None) else Ret (r, PopSome t)
  | PopSome t =>
      let! vb := take_slot (buffer r) t in
      Ret (mkMpsc (head r) (committed r) (tail r) vb.2, PopRead vb.1 t)
  | PopRead v t => Ret (mkMpsc (head r) (committed r) ((t +w 1) mod N) (buffer r), PopDone (Some v))
  | PopDone _ => Ret (r, pc)
  end.

(** The bounded channel: a sender and a receiver share a ring. *)
Definition send (value : T) : push_pc := push_start value.
Definition sender_is_full (r : MpscRingBuffer) : bool := (head r +w 1) mod N =? tail r.
Definition recv : pop_pc := PopStart.
Definition receiver_is_empty (r : MpscRingBuffer) : bool := is_empty r.

End mpsc.
Arguments MpscRingBuffer : clear implicits.
Arguments push_pc : clear implicits.
Arguments pop_pc : clear implicits.
End Mpsc.

(** ** Messages between cores *)

Module InterCore.

Inductive InterCoreMessage :=
| MigrateTask (task_id from_core to_core : Z)
| StealRequest (from_core : Z)
| StealResponse (task_id : option Z)
| RelayInterrupt (vector : Z)
| Shutdown
| Custom (value : Z).

Definition DEFAULT_QUEUE_SIZE : Z := 256.

Definition create_inter_core_channel : outcome (Spsc.SpscRingBuffer InterCoreMessage) := Spsc.spsc_new DEFAULT_QUEUE_SIZE.

End InterCore.

(** ** Many producers, many consumers *)

Module Mpmc.
Section mpmc.
Context {T : Type} (N : Z).

Definition SLOT_EMPTY : Z := 0.
Definition SLOT_WRITING : Z := 1.
Definition SLOT_READY : Z := 2.
Definition SLOT_READING : Z := 3.

Record MpmcSlot := mkSlot { state : Z; sequence : Z; data : option T }.

Definition slot_new (seq : Z) : MpmcSlot := mkSlot SLOT_EMPTY seq None.

Record MpmcRingBuffer := mkMpmc { head : Z; tail : Z; slots : list MpmcSlot }.

Definition mpmc_new : outcome MpmcRingBuffer :=
  if N >=? 2 then Ret (mkMpmc 0 0 ((fun i => slot_new (Z.of_nat i)) <$> seq 0 (Z.to_nat N))) else Panic.

Definition capacity : Z := N.
Definition len (r : MpmcRingBuffer) : Z := head r -w tail r.
Definition is_empty (r : MpmcRingBuffer) : bool := len r =? 0.

Definition slot_at (r : MpmcRingBuffer) (position : Z) : outcome MpmcSlot := index (slots r) (Z.to_nat (position mod N)).

Definition set_slot (r : MpmcRingBuffer) (position : Z) (s : MpmcSlot) : outcome MpmcRingBuffer :=
  let! ss := index_set (slots r) (Z.to_nat (position mod N)) s in Ret (mkMpmc (head r) (tail r) ss).

(** Writing the data of a slot, moving it out, and storing its sequence. *)
Definition write_data (r : MpmcRingBuffer) (position : Z) (v : T) : outcome MpmcRingBuffer :=
  let! s := slot_at r position in set_slot r position (mkSlot (state s) (sequence s) (Some v)).

Definition take_data (r : MpmcRingBuffer) (position : Z) : outcome (T * MpmcRingBuffer) :=
  let! s := slot_at r position in
  match data s with
  | Some v => let! r' := set_slot r position (mkSlot (state s) (sequence s) None) in Ret (v, r')
  | None => Panic
  end.

Definition store_sequence (r : MpmcRingBuffer) (position seq : Z) : outcome MpmcRingBuffer :=
  let! s := slot_at r position in set_slot r position (mkSlot (state s) seq (data s)).

(** Program points of [push] and [try_push]: load
    [head]; load [tail]; load the sequence; exchange [head]; write; store the
    sequence. *)
Inductive push_pc :=
| PushLoop (value : T) (backoff : Backoff)
| PushHead (value : T) (backoff : Backoff) (head : Z)
| PushRoom (value : T) (backoff : Backoff) (head : Z)
| PushReady (value : T) (backoff : Backoff) (head : Z)
| PushReserved (value : T) (head : Z)
| PushWritten (head : Z)
| PushDone (r : result unit T).

Definition push_step (weak : bool) (r : MpmcRingBuffer) (pc : push_pc) : outcome (MpmcRingBuffer * push_pc) :=
  match pc with
  | PushLoop v bo => Ret (r, PushHead v bo (head r))
  | PushHead v bo h =>
      if (h -w tail r) >=? N then
        if is_completed bo then Ret (r, PushDone (Err v)) else Ret (r, PushLoop v (spin bo).2)
      else Ret (r, PushRoom v bo h)
  | PushRoom v bo h =>
      let! s := slot_at r h in
      if sequence s =? h then Ret (r, PushReady v bo h)
      else if sequence s <? h then Ret (r, PushLoop v (spin bo).2)
      else Ret (r, PushLoop v (snooze bo).2)
  | PushReady v bo h =>
      if (head r =? h) && negb weak then Ret (mkMpmc (h +w 1) (tail r) (slots r), PushReserved v h)
      else Ret (r, PushLoop v (snooze bo).2)
  | PushReserved v h => let! r' := write_data r h v in Ret (r', PushWritten h)
  | PushWritten h => let! r' := store_sequence r h (h +w 1) in Ret (r', PushDone (Ok tt))
  | PushDone _ => Ret (r, pc)
  end.

Definition try_push_step (r : MpmcRingBuffer) (pc : push_pc) : outcome (MpmcRingBuffer * push_pc) :=
  match pc with
  | PushLoop v bo => Ret (r, PushHead v bo (head r))
  | PushHead v bo h => if (h -w tail r) >=? N then Ret (r, PushDone (Err v)) else Ret (r, PushRoom v bo h)
  | PushRoom v bo h =>
      let! s := slot_at r h in
      if negb (sequence s =? h) then Ret (r, PushDone (Err v)) else Ret (r, PushReady v bo h)
  | PushReady v bo h =>
      if head r =? h then Ret (mkMpmc (h +w 1) (tail r) (slots r), PushReserved v h) else Ret (r, PushDone (Err v))
  | PushReserved v h => let! r' := write_data r h v in Ret (r', PushWritten h)
  | PushWritten h => let! r' := store_sequence r h (h +w 1) in Ret (r', PushDone (Ok tt))
  | PushDone _ => Ret (r, pc)
  end.

(** Program points of [pop] and [try_pop]: load [tail]; load [head]; load the
    sequence; (load [tail] again;) exchange [tail]; read; store the sequence. *)
Inductive pop_pc :=
| PopLoop (backoff : Backoff)
| PopTail (backoff : Backoff) (tail : Z)
| PopSome (backoff : Backoff) (tail : Z)
| PopUnwritten (backoff : Backoff) (tail : Z)
| PopReady (backoff : Backoff) (tail : Z)
| PopReserved (tail : Z)
| PopRead (value : T) (tail : Z)
| PopDone (r : option T).

Definition pop_step (weak : bool) (r : MpmcRingBuffer) (pc : pop_pc) : outcome (MpmcRingBuffer * pop_pc) :=
  match pc with
  | PopLoop bo => Ret (r, PopTail bo (tail r))
  | PopTail bo t => if t =? head r then Ret (r, PopDone None) else Ret (r, PopSome bo t)
  | PopSome bo t =>
      let! s := slot_at r t in
      let expected_seq := t +w 1 in
      if sequence s =? expected_seq then Ret (r, PopReady bo t)
      else if sequence s <? expected_seq then Ret (r, PopUnwritten bo t)
      else Ret (r, PopLoop (snooze bo).2)
  | PopUnwritten bo t =>
      if t =? tail r then
        if is_completed bo then Ret (r, PopDone None) else Ret (r, PopLoop (spin bo).2)
      else Ret (r, PopLoop bo)
  | PopReady bo t =>
      if (tail r =? t) && negb weak then Ret (mkMpmc (head r) (t +w 1) (slots r), PopReserved t)
      else Ret (r, PopLoop (snooze bo).2)
  | PopReserved t => let! vr := take_data r t in Ret (vr.2, PopRead vr.1 t)
  | PopRead v t => let! r' := store_sequence r t (t +w N) in Ret (r', PopDone (Some v))
  | PopDone _ => Ret (r, pc)
  end.

Definition try_pop_step (r : MpmcRingBuffer) (pc : pop_pc) : outcome (MpmcRingBuffer * pop_pc) :=
  match pc with
  | PopLoop bo => Ret (r, PopTail bo (tail r))
  | PopTail bo t => if t =? head r then Ret (r, PopDone None) else Ret (r, PopSome bo t)
  | PopSome bo t =>
      let! s := slot_at r t in
      if negb (sequence s =? t +w 1) then Ret (r, PopDone None) else Ret (r, PopReady bo t)
  | PopReady bo t =>
      if tail r =? t then Ret (mkMpmc (head r) (t +w 1) (slots r), PopReserved t) else Ret (r, PopDone None)
  | PopReserved t => let! vr := take_data r t in Ret (vr.2, PopRead vr.1 t)
  | PopRead v t => let! r' := store_sequence r t (t +w N) in Ret (r', PopDone (Some v))
  | PopUnwritten _ _ | PopDone _ => Ret (r, pc)
  end.

End mpmc.
Arguments MpmcSlot : clear implicits.
Arguments MpmcRingBuffer : clear implicits.
Arguments push_pc : clear implicits.
Arguments pop_pc : clear implicits.
End Mpmc.

(** ** Sequence locks *)

Module SeqLock.

(** The protected value is copied word by word. *)
Record Seqlock := mkSeqlock { sequence : Z; data : list Z }.

Definition seqlock_new (value : list Z) : Seqlock := mkSeqlock 0 value.

(** Program points of [read]: load the sequence; copy the words; load the sequence
    again. *)
Inductive read_pc :=
| ReadLoop
| ReadCopy (seq1 : Z) (copied : list Z)
| ReadDone (value : list Z).

Definition read_step (l : Seqlock) (pc : read_pc) : outcome read_pc :=
  match pc with
  | ReadLoop => if negb (Z.land (sequence l) 1 =? 0) then Ret ReadLoop else Ret (ReadCopy (sequence l) [])
  | ReadCopy seq1 copied =>
      if (length copied <? length (data l))%nat then
        let! w := index (data l) (length copied) in Ret (ReadCopy seq1 (copied ++ [w]))
      else if seq1 =? sequence l then Ret (ReadDone copied) else Ret ReadLoop
  | ReadDone _ => Ret pc
  end.

(** Program points of [write] and of a [write_guard] through which words are
    assigned: add one; store words; add one. *)
Inductive write_pc :=
| WriteStart (stores : list (nat * Z))
| WriteCopy (stores : list (nat * Z))
| WriteDone.

Definition write_step (l : Seqlock) (pc : write_pc) : outcome (Seqlock * write_pc) :=
  match pc with
  | WriteStart stores => Ret (mkSeqlock (sequence l +w 1) (data l), WriteCopy stores)
  | WriteCopy ((i, w) :: stores) => let! d := index_set (data l) i w in Ret (mkSeqlock (sequence l) d, WriteCopy stores)
  | WriteCopy [] => Ret (mkSeqlock (sequence l +w 1) (data l), WriteDone)
  | WriteDone => Ret (l, pc)
  end.

(** [write] stores every word; a guard stores what its holder assigns and adds the
    second one when it is dropped. *)
Definition write (value : list Z) : write_pc := WriteStart (zip (seq 0 (length value)) value).
Definition write_guard (stores : list (nat * Z)) : write_pc := WriteStart stores.

End SeqLock.
