(* ===== verification/LockFreeTheorems.v ===== *)
(** * Rings between cores: interleavings of one producer and one consumer, of many
    producers, and of readers with a writer *)

From stdpp Require Import base list gmap.
From Stdlib Require Import ZArith Lia.
From S2P Require Import Prelude LockFree.

Local Open Scope Z_scope.

(** ** Back-off never completes *)

Inductive backoff_op := Spin | Snooze | Reset.

Definition backoff_apply (b : Backoff.Backoff) (o : backoff_op) : Backoff.Backoff :=
  match o with Spin => (Backoff.spin b).2 | Snooze => (Backoff.snooze b).2 | Reset => Backoff.reset b end.

Definition backoff_ok (b : Backoff.Backoff) : Prop := 0 <= Backoff.step b <= Backoff.BACKOFF_YIELD_LIMIT.

Lemma backoff_apply_ok (b : Backoff.Backoff) (o : backoff_op) : backoff_ok b -> backoff_ok (backoff_apply b o).
Proof.
  unfold backoff_ok, Backoff.BACKOFF_YIELD_LIMIT. destruct o; cbn [backoff_apply]; [| |cbn; lia].
  - unfold Backoff.spin, Backoff.BACKOFF_YIELD_LIMIT. cbn [snd]. case_if; cbn; lia.
  - unfold Backoff.snooze, Backoff.BACKOFF_SPIN_LIMIT. case_if; cbn; lia.
Qed.

Lemma backoff_not_completed (b : Backoff.Backoff) : backoff_ok b -> Backoff.is_completed b = false.
Proof. unfold backoff_ok, Backoff.is_completed. intros H. rewrite Z.gtb_ltb. apply Z.ltb_ge. lia. Qed.

(** a back-off never reports completion, however often it spins or snoozes. *)
Theorem backoff_never_completes (ops : list backoff_op) :
  Backoff.is_completed (foldl backoff_apply Backoff.backoff_new ops) = false.
Proof.
  apply backoff_not_completed. assert (H : backoff_ok Backoff.backoff_new) by (by vm_compute).
  revert H. generalize Backoff.backoff_new. induction ops as [|o ops IH]; intros b H; [done|].
  apply IH. by apply backoff_apply_ok.
Qed.

(** ** Positions and slots

    Rings count positions modulo [N]; the proofs count them without bound. *)

Section Positions.
Context (N : Z) (HN : 2 <= N < u64_modulus).

Definition pos (p : nat) : Z := Z.of_nat p mod N.
Definition cell (p : nat) : nat := Z.to_nat (pos p).

Lemma pos_range (p : nat) : 0 <= pos p < N.
Proof. apply Z.mod_pos_bound. lia. Qed.

Lemma cell_lt (p : nat) : (cell p < Z.to_nat N)%nat.
Proof. unfold cell. pose proof (pos_range p). lia. Qed.

(** Positions less than a lap apart are told apart. *)
Lemma pos_inj (p q : nat) : pos p = pos q -> (p <= q)%nat -> Z.of_nat q - Z.of_nat p < N -> p = q.
Proof.
  unfold pos. intros E Hle Hd. assert (Hm : (Z.of_nat q - Z.of_nat p) mod N = 0) by (rewrite Zminus_mod, E, Z.sub_diag; apply Z.mod_0_l; lia).
  rewrite Z.mod_small in Hm by lia. lia.
Qed.

Lemma cell_inj (p q : nat) : cell p = cell q -> (p <= q)%nat -> Z.of_nat q - Z.of_nat p < N -> p = q.
Proof.
  unfold cell. intros E. apply pos_inj. pose proof (pos_range p). pose proof (pos_range q). lia.
Qed.

Lemma pos_near (p q : nat) : pos p = pos q -> Z.abs (Z.of_nat q - Z.of_nat p) < N -> p = q.
Proof.
  intros E Hd. destruct (decide (p <= q)%nat); [by apply pos_inj; [|done|lia]|]. symmetry. apply pos_inj; [done|lia|lia].
Qed.

Lemma cell_near (p q : nat) : cell p = cell q -> Z.abs (Z.of_nat q - Z.of_nat p) < N -> p = q.
Proof.
  intros E Hd. destruct (decide (p <= q)%nat); [by apply cell_inj; [|done|lia]|]. symmetry. apply cell_inj; [done|lia|lia].
Qed.

Lemma pos_S (p q : nat) : pos (S p) = pos (S q) -> pos p = pos q.
Proof.
  unfold pos. intros E. replace (Z.of_nat p) with (Z.of_nat (S p) - 1) by lia. replace (Z.of_nat q) with (Z.of_nat (S q) - 1) by lia.
  rewrite Zminus_mod, E. by rewrite <- Zminus_mod.
Qed.

Lemma pos_lap (p : nat) : pos (p + Z.to_nat N) = pos p.
Proof. unfold pos. rewrite Nat2Z.inj_add, Z2Nat.id by lia. rewrite <- (Z.mul_1_l N) at 1. by rewrite Z_mod_plus_full. Qed.

Lemma cell_lap (p : nat) : cell (p + Z.to_nat N) = cell p.
Proof. unfold cell. by rewrite pos_lap. Qed.

Lemma next_pos (p : nat) : (pos p +w 1) mod N = pos (S p).
Proof.
  pose proof (pos_range p). rewrite wrap64_small by (unfold is_u64; lia). unfold pos. rewrite Zplus_mod_idemp_l. f_equal. lia.
Qed.

(** The next position meets the tail exactly when the ring is a slot short of a lap. *)
Lemma next_meets (h t : nat) : (t <= h)%nat -> Z.of_nat h - Z.of_nat t < N -> pos (S h) = pos t <-> Z.of_nat (S h) - Z.of_nat t = N.
Proof.
  intros Hle Hd. split; intros E.
  - destruct (decide (Z.of_nat (S h) - Z.of_nat t < N)) as [Hl|]; [|lia].
    symmetry in E. apply pos_inj in E; lia.
  - replace (S h) with (t + Z.to_nat N)%nat by lia. apply pos_lap.
Qed.

Lemma pos_0 : pos 0 = 0.
Proof. unfold pos. apply Z.mod_0_l. lia. Qed.

End Positions.

(** ** The specification: a bounded queue *)

Inductive queue_event (T : Type) := Pushed (v : T) | Full | Popped (v : T) | Empty | Peeked (v : T).
Arguments Pushed {T} v.
Arguments Full {T}.
Arguments Popped {T} v.
Arguments Empty {T}.
Arguments Peeked {T} v.

Inductive queue_step {T} (cap : Z) : list T -> queue_event T -> list T -> Prop :=
| q_push q v : Z.of_nat (length q) < cap -> queue_step cap q (Pushed v) (q ++ [v])
| q_full q : Z.of_nat (length q) = cap -> queue_step cap q Full q
| q_pop q v : queue_step cap (v :: q) (Popped v) q
| q_empty : queue_step cap [] Empty []
| q_peek q v : queue_step cap (v :: q) (Peeked v) (v :: q).

(** A sequence of events takes a queue from [q] to [q']. *)
Fixpoint legal {T} (cap : Z) (q : list T) (es : list (queue_event T)) (q' : list T) : Prop :=
  match es with
  | [] => q = q'
  | e :: es => exists q1, queue_step cap q e q1 /\ legal cap q1 es q'
  end.

Lemma legal_app {T} (cap : Z) (q q1 q' : list T) (es es' : list (queue_event T)) :
  legal cap q es q1 -> legal cap q1 es' q' -> legal cap q (es ++ es') q'.
Proof.
  revert q. induction es as [|e es IH]; intros q; cbn [legal app]; [by intros ->|]. intros (q2 & Hs & Hl) H'. exists q2. split; [done|]. by apply IH.
Qed.

Lemma legal_one {T} (cap : Z) (q q' : list T) (e : queue_event T) : queue_step cap q e q' -> legal cap q [e] q'.
Proof. intros H. by exists q'. Qed.

Lemma drop_snoc {T} (t : nat) (l : list T) (v : T) : (t <= length l)%nat -> drop t (l ++ [v]) = drop t l ++ [v].
Proof. intros H. rewrite drop_app. replace (t - length l)%nat with O by lia. done. Qed.

Lemma drop_nil_ge {T} (t : nat) (l : list T) : t = length l -> drop t l = [].
Proof. intros ->. apply drop_all. Qed.

(** Accesses to a slot that is in range. *)
Lemma index_lookup {A} (l : list A) (i : nat) (a : A) : l !! i = Some a -> index l i = Ret a.
Proof. intros H. by apply index_Ret. Qed.

Lemma index_set_insert {A} (l : list A) (i : nat) (a : A) : (i < length l)%nat -> index_set l i a = Ret (<[i := a]> l).
Proof. intros H. by apply index_set_Ret. Qed.

(** ** One producer and one consumer *)

Module SpscSpec.
Import Spsc.
Section spec.
Context {T : Type} (N : Z) (HN : 2 <= N < u64_modulus).

Record sys := mkSys { ring : SpscRingBuffer T; producer : push_pc T; consumer : pop_pc T }.

(** The two cores: each may begin a call when its last one is done, or take a
    step. *)
Inductive move := Produce (v : T) | ProducerStep | Consume | Peek | ConsumerStep.

Definition producer_event (pc pc' : push_pc T) : list (queue_event T) :=
  match pc, pc' with
  | PushHead _ _, PushDone (Err _) => [Full]
  | PushWritten v _, PushDone (Ok _) => [Pushed v]
  | _, _ => []
  end.

Definition consumer_event (pc pc' : pop_pc T) : list (queue_event T) :=
  match pc, pc' with
  | PopTail _, PopDone None => [Empty]
  | PopRead v _, PopDone (Some _) => [Popped v]
  | PeekTail _, PeekDone None => [Empty]
  | PeekSome _, PeekDone (Some v) => [Peeked v]
  | _, _ => []
  end.

Definition idle (pc : pop_pc T) : bool := match pc with PopDone _ | PeekDone _ => true | _ => false end.

Definition sys_step (s : sys) (m : move) : outcome (sys * list (queue_event T)) :=
  match m with
  | Produce v => match producer s with PushDone _ => Ret (mkSys (ring s) (PushStart v) (consumer s), []) | _ => Ret (s, []) end
  | ProducerStep =>
      let! rp := push_step N (ring s) (producer s) in
      Ret (mkSys rp.1 rp.2 (consumer s), producer_event (producer s) rp.2)
  | Consume => if idle (consumer s) then Ret (mkSys (ring s) (producer s) PopStart, []) else Ret (s, [])
  | Peek => if idle (consumer s) then Ret (mkSys (ring s) (producer s) PeekStart, []) else Ret (s, [])
  | ConsumerStep =>
      let! rp := pop_step N (ring s) (consumer s) in
      Ret (mkSys rp.1 (producer s) rp.2, consumer_event (consumer s) rp.2)
  end.

Fixpoint sys_run (s : sys) (ms : list move) : outcome (sys * list (queue_event T)) :=
  match ms with
  | [] => Ret (s, [])
  | m :: ms => let! r := sys_step s m in let! r' := sys_run r.1 ms in Ret (r'.1, r.2 ++ r'.2)
  end.

(** Everything pushed so far, and how much of it was popped. *)
Definition producer_ok (r : SpscRingBuffer T) (hist : list T) (t : nat) (pc : push_pc T) : Prop :=
  let room := Z.of_nat (length hist) - Z.of_nat t < N - 1 in
  match pc with
  | PushStart _ | PushDone _ => True
  | PushHead _ h => h = pos N (length hist)
  | PushRoom _ h next => h = pos N (length hist) /\ next = pos N (S (length hist)) /\ room
  | PushWritten v next => next = pos N (S (length hist)) /\ room /\ buffer r !! cell N (length hist) = Some (Some v)
  end.

Definition consumer_ok (hist : list T) (t : nat) (pc : pop_pc T) : Prop :=
  match pc with
  | PopStart | PopDone _ | PeekStart | PeekDone _ => True
  | PopTail x | PeekTail x => x = pos N t
  | PopSome x | PeekSome x => x = pos N t /\ (t < length hist)%nat
  | PopRead v x => x = pos N t /\ hist !! t = Some v
  end.

Definition moving (pc : pop_pc T) : bool := match pc with PopRead _ _ => true | _ => false end.

Record spsc_inv (s : sys) (hist : list T) (t : nat) : Prop := {
  si_head : head (ring s) = pos N (length hist);
  si_tail : tail (ring s) = pos N t;
  si_le : (t <= length hist)%nat;
  si_room : Z.of_nat (length hist) - Z.of_nat t <= N - 1;
  si_len : length (buffer (ring s)) = Z.to_nat N;
  si_held : forall p v, hist !! p = Some v -> (t <= p)%nat -> (moving (consumer s) = true -> p <> t) -> buffer (ring s) !! cell N p = Some (Some v);
  si_producer : producer_ok (ring s) hist t (producer s);
  si_consumer : consumer_ok hist t (consumer s) }.

Definition moves_to (s : sys) (m : move) (hist : list T) (t : nat) : Prop :=
  exists s' es hist' t', sys_step s m = Ret (s', es) /\ spsc_inv s' hist' t' /\ legal (N - 1) (drop t hist) es (drop t' hist').

Lemma spsc_silent (s s' : sys) (m : move) (hist : list T) (t : nat) :
  sys_step s m = Ret (s', []) -> spsc_inv s' hist t -> moves_to s m hist t.
Proof. intros E H. exists s', [], hist, t. done. Qed.

Lemma spsc_producer_moves (s : sys) (hist : list T) (t : nat) : spsc_inv s hist t -> moves_to s ProducerStep hist t.
Proof.
  intros Hi. destruct s as [r pp cp]. destruct Hi as [Eh Et Hle Hr Hl Hh Hp Hc]. cbn [ring producer consumer] in *.
  destruct pp as [v|v h|v h nx|v nx|o]; cbn [producer_ok] in Hp; cbn [sys_step] in *.
  - eapply spsc_silent; [done|]. constructor; done.
  - subst h. pose proof (next_meets N HN (length hist) t Hle ltac:(lia)) as Hn. destruct (Z.eqb_spec (pos N (S (length hist))) (tail r)) as [E|E].
    + exists (mkSys r (PushDone (Err v)) cp), [Full], hist, t. unfold sys_step, push_step. cbn. rewrite next_pos by done.
      rewrite (proj2 (Z.eqb_eq _ _) E). cbn. split; [done|]. split; [by constructor|]. rewrite Et in E. apply Hn in E.
      apply legal_one. apply q_full. rewrite length_drop. lia.
    + eapply spsc_silent; [unfold sys_step, push_step; cbn; rewrite next_pos by done; by rewrite (proj2 (Z.eqb_neq _ _) E)|].
      constructor; cbn; try done. split; [done|]. split; [done|]. rewrite Et in E. lia.
  - destruct Hp as (-> & -> & Hp). eapply spsc_silent.
    { unfold sys_step, push_step, write_slot. cbn. fold (cell N (length hist)).
      rewrite index_set_insert by (rewrite Hl; by apply cell_lt). done. }
    constructor; cbn; try done.
    + by rewrite length_insert.
    + intros p w Hw Htp Hm. rewrite list_lookup_insert_ne; [by apply Hh|]. intros E.
      apply lookup_lt_Some in Hw. symmetry in E. apply cell_inj in E; [lia|done|lia|lia].
    + split; [done|]. split; [done|]. apply list_lookup_insert_eq. rewrite Hl. by apply cell_lt.
  - destruct Hp as (-> & Hp & Hs). exists (mkSys (mkSpsc (pos N (S (length hist))) (tail r) (buffer r)) (PushDone (Ok tt)) cp), [Pushed v], (hist ++ [v]), t.
    split; [done|]. split.
    + constructor; cbn; try done; rewrite ?length_app, ?Nat.add_1_r; try done; try lia.
      * intros p w Hw Htp Hm. destruct (decide (p = length hist)) as [->|Hne].
        -- rewrite list_lookup_middle in Hw by done. by injection Hw as ->.
        -- apply Hh; [|done|done]. apply lookup_lt_Some in Hw as Hlt. rewrite length_app in Hlt. cbn in Hlt. rewrite lookup_app_l in Hw by lia. done.
      * destruct cp; cbn in Hc |- *; try done.
        -- destruct Hc. split; [done|]. rewrite length_app. cbn. lia.
        -- destruct Hc as [? Hv]. split; [done|]. apply lookup_app_l_Some. done.
        -- destruct Hc. split; [done|]. rewrite length_app. cbn. lia.
    + rewrite drop_snoc by done. apply legal_one. apply q_push. rewrite length_drop. lia.
  - eapply spsc_silent; [done|]. by constructor.
Qed.

(** What the consumer's loads tell it about the queue. *)
Lemma tail_meets_head (r : SpscRingBuffer T) (hist : list T) (t : nat) :
  head r = pos N (length hist) -> (t <= length hist)%nat -> Z.of_nat (length hist) - Z.of_nat t <= N - 1 ->
  (pos N t =? head r) = bool_decide (t = length hist).
Proof.
  intros Eh Hle Hr. rewrite Eh. case_bool_decide as E; [subst; apply Z.eqb_refl|].
  apply Z.eqb_neq. intros Ep. apply pos_inj in Ep; lia.
Qed.

Lemma held_front (s : sys) (hist : list T) (t : nat) :
  spsc_inv s hist t -> moving (consumer s) = false -> (t < length hist)%nat ->
  exists v rest, drop t hist = v :: rest /\ hist !! t = Some v /\ buffer (ring s) !! cell N t = Some (Some v) /\ rest = drop (S t) hist.
Proof.
  intros Hi Hm Hlt. destruct (lookup_lt_is_Some_2 hist t Hlt) as [v Hv]. exists v, (drop (S t) hist).
  split; [by apply drop_S|]. split; [done|]. split; [|done]. apply (si_held _ _ _ Hi); [done|lia|congruence].
Qed.

Lemma spsc_consumer_moves (s : sys) (hist : list T) (t : nat) : spsc_inv s hist t -> moves_to s ConsumerStep hist t.
Proof.
  intros Hi. pose proof Hi as [Eh Et Hle Hr Hl Hh Hp Hc]. destruct s as [r pp cp]. cbn [ring producer consumer] in *.
  destruct cp as [|x|x|v x|o| |x|x|o]; cbn [consumer_ok] in Hc; cbn [sys_step moving] in *.
  - eapply spsc_silent; [done|]. constructor; done.
  - subst x. pose proof (tail_meets_head r hist t Eh Hle Hr) as Hb. case_bool_decide as E.
    + exists (mkSys r pp (PopDone None)), [Empty], hist, t. unfold sys_step, pop_step. cbn. rewrite Hb. cbn.
      split; [done|]. split; [by constructor|]. rewrite drop_nil_ge by done. apply legal_one, q_empty.
    + eapply spsc_silent; [unfold sys_step, pop_step; cbn; by rewrite Hb|]. constructor; cbn; try done. split; [done|lia].
  - destruct Hc as [-> Hlt]. destruct (held_front _ _ _ Hi eq_refl Hlt) as (v & rest & Hd & Hv & Hs & _). cbn [ring] in Hs.
    eapply spsc_silent.
    { unfold sys_step, pop_step, take_slot, peek_slot. cbn. fold (cell N t). rewrite (index_lookup _ _ _ Hs). cbn.
      rewrite index_set_insert by (rewrite Hl; by apply cell_lt). done. }
    constructor; cbn; try done.
    + by rewrite length_insert.
    + intros p w Hw Htp Hm. specialize (Hm eq_refl). rewrite list_lookup_insert_ne; [by apply Hh|]. intros E.
      apply lookup_lt_Some in Hw. apply cell_inj in E; [lia|done|lia|lia].
    + destruct pp as [w|w h|w h nx|w nx|o]; cbn in Hp |- *; try done. destruct Hp as (-> & Hq & Hb). split; [done|]. split; [done|].
      rewrite list_lookup_insert_ne; [done|]. intros E. apply cell_inj in E; [lia|done|lia|lia].
  - destruct Hc as [-> Hv]. assert (Hlt : (t < length hist)%nat) by (by eapply lookup_lt_Some).
    exists (mkSys (mkSpsc (head r) (pos N (S t)) (buffer r)) pp (PopDone (Some v))), [Popped v], hist, (S t).
    split; [unfold sys_step, pop_step; cbn; by rewrite next_pos|]. split.
    + constructor; cbn; try done; try lia.
      * intros p w Hw Htp _. apply Hh; [done|lia|intros _; lia].
      * destruct pp as [w|w h|w h nx|w nx|o]; cbn [producer_ok] in Hp |- *; [done|done| | |done].
        -- destruct Hp as (? & ? & ?). split; [done|]. split; [done|lia].
        -- destruct Hp as (? & ? & ?). split; [done|]. split; [lia|done].
    + rewrite (drop_S _ _ _ Hv). apply legal_one, q_pop.
  - eapply spsc_silent; [done|]. by constructor.
  - eapply spsc_silent; [done|]. constructor; done.
  - subst x. pose proof (tail_meets_head r hist t Eh Hle Hr) as Hb. case_bool_decide as E.
    + exists (mkSys r pp (PeekDone None)), [Empty], hist, t. unfold sys_step, pop_step. cbn. rewrite Hb. cbn.
      split; [done|]. split; [by constructor|]. rewrite drop_nil_ge by done. apply legal_one, q_empty.
    + eapply spsc_silent; [unfold sys_step, pop_step; cbn; by rewrite Hb|]. constructor; cbn; try done. split; [done|lia].
  - destruct Hc as [-> Hlt]. destruct (held_front _ _ _ Hi eq_refl Hlt) as (v & rest & Hd & Hv & Hs & _). cbn [ring] in Hs.
    exists (mkSys r pp (PeekDone (Some v))), [Peeked v], hist, t. unfold sys_step, pop_step, peek_slot. cbn. fold (cell N t).
    rewrite (index_lookup _ _ _ Hs). cbn. split; [done|]. split; [by constructor|]. rewrite Hd. apply legal_one, q_peek.
  - eapply spsc_silent; [done|]. by constructor.
Qed.

Lemma spsc_step_ok (s : sys) (m : move) (hist : list T) (t : nat) : spsc_inv s hist t -> moves_to s m hist t.
Proof.
  intros Hi. destruct m; [| by apply spsc_producer_moves | | | by apply spsc_consumer_moves].
  - destruct (producer s) as [| | | |o] eqn:E; (eapply spsc_silent; [unfold sys_step; by rewrite E|]); [done..|].
    destruct Hi. by constructor.
  - destruct (idle (consumer s)) eqn:E; (eapply spsc_silent; [unfold sys_step; by rewrite E|]); [|done].
    destruct Hi as [? ? ? ? ? Hh ? ?]. constructor; cbn; try done. intros p v Hv Hp _. apply Hh; [done..|]. by destruct (consumer s).
  - destruct (idle (consumer s)) eqn:E; (eapply spsc_silent; [unfold sys_step; by rewrite E|]); [|done].
    destruct Hi as [? ? ? ? ? Hh ? ?]. constructor; cbn; try done. intros p v Hv Hp _. apply Hh; [done..|]. by destruct (consumer s).
Qed.

Lemma spsc_run_ok (ms : list move) (s : sys) (hist : list T) (t : nat) :
  spsc_inv s hist t ->
  exists s' es hist' t', sys_run s ms = Ret (s', es) /\ spsc_inv s' hist' t' /\ legal (N - 1) (drop t hist) es (drop t' hist').
Proof.
  revert s hist t. induction ms as [|m ms IH]; intros s hist t Hi; [by exists s, [], hist, t|].
  destruct (spsc_step_ok s m hist t Hi) as (s1 & es1 & h1 & t1 & E1 & H1 & L1).
  destruct (IH s1 h1 t1 H1) as (s2 & es2 & h2 & t2 & E2 & H2 & L2). exists s2, (es1 ++ es2), h2, t2.
  cbn [sys_run]. rewrite E1. cbn. rewrite E2. cbn. split; [done|]. split; [done|]. by eapply legal_app.
Qed.

Definition sys_new (r : SpscRingBuffer T) : sys := mkSys r (PushDone (Ok tt)) (PopDone None).

Lemma spsc_new_eq : spsc_new N = Ret (mkSpsc 0 0 (replicate (Z.to_nat N) None) : SpscRingBuffer T).
Proof. unfold spsc_new. rewrite (proj2 (Z.geb_le _ _)) by lia. done. Qed.

Lemma spsc_new_inv : spsc_inv (sys_new (mkSpsc 0 0 (replicate (Z.to_nat N) None))) [] 0.
Proof. constructor; cbn; rewrite ?pos_0, ?length_replicate by done; try done; try lia. Qed.

(** The length modulo [N] of the difference of two positions. *)
Lemma len_exact (r : SpscRingBuffer T) (h t : nat) :
  (N | u64_modulus) -> head r = pos N h -> tail r = pos N t -> (t <= h)%nat -> Z.of_nat h - Z.of_nat t < N ->
  len N r = Z.of_nat h - Z.of_nat t.
Proof.
  intros Hd Eh Et Hle Hl. unfold len. rewrite Eh, Et. unfold pos, wrap64. rewrite <- Znumtheory.Zmod_div_mod by (done || lia).
  rewrite <- Zminus_mod. apply Z.mod_small. lia.
Qed.

(** C30: whatever way the steps of a producer and a consumer on another core
    interleave, no uninitialised slot is read and no value is read twice, and the
    moments at which the calls take effect make the run of a queue of capacity
    [N - 1]: what is popped or peeked is the oldest element, a refused push
    found the queue full, an empty answer found it empty; and what the ring
    reports of itself is true of that queue (the length only where [N] is a power
    of two). *)
Theorem spsc_linearizable (ms : list move) :
  exists r s es q, spsc_new N = Ret r /\ sys_run (sys_new r) ms = Ret (s, es) /\ legal (N - 1) [] es q /\
    is_empty (ring s) = bool_decide (q = []) /\ is_full N (ring s) = bool_decide (Z.of_nat (length q) = N - 1) /\
    ((N | u64_modulus) -> len N (ring s) = Z.of_nat (length q)).
Proof.
  destruct (spsc_run_ok ms _ _ _ spsc_new_inv) as (s & es & hist & t & E & [Eh Et Hle Hr _ _ _ _] & L).
  eexists _, s, es, (drop t hist). split; [apply spsc_new_eq|]. split; [done|]. split; [done|]. rewrite length_drop. split; [|split].
  - unfold is_empty. rewrite Z.eqb_sym, Et, (tail_meets_head (ring s) hist t) by done. apply bool_decide_ext.
    rewrite <- (length_zero_iff_nil (drop t hist)), length_drop. lia.
  - unfold is_full. rewrite Eh, Et, next_pos by done. pose proof (next_meets N HN (length hist) t Hle ltac:(lia)) as Hn.
    case_bool_decide as Eq; [apply Z.eqb_eq, Hn; lia | apply Z.eqb_neq; intros Ep%Hn; lia].
  - intros Hd. rewrite (len_exact _ (length hist) t) by (done || lia). lia.
Qed.

(** Without interference the steps of a call are the call. *)
Definition run_push (n : nat) (rp : outcome (SpscRingBuffer T * push_pc T)) : outcome (SpscRingBuffer T * push_pc T) :=
  Nat.iter n (fun o => let! rp := o in push_step N rp.1 rp.2) rp.

Definition run_pop (n : nat) (rp : outcome (SpscRingBuffer T * pop_pc T)) : outcome (SpscRingBuffer T * pop_pc T) :=
  Nat.iter n (fun o => let! rp := o in pop_step N rp.1 rp.2) rp.

(** run alone, [push] and [pop] are done after four steps with the result and
    the ring that their code computes in one go. *)
Theorem spsc_calls_alone (r : SpscRingBuffer T) (v : T) :
  run_push 4 (Ret (r, PushStart v)) = (let! p := push N r v in Ret (p.1, PushDone p.2)) /\
  run_pop 4 (Ret (r, PopStart)) = (let! p := pop N r in Ret (p.1, PopDone p.2)).
Proof.
  split; unfold run_push, run_pop, push, pop; cbn.
  - destruct (_ =? tail r); [done|]. cbn. by destruct (write_slot (buffer r) (head r) v).
  - destruct (tail r =? head r); [done|]. cbn. by destruct (take_slot (buffer r) (tail r)) as [[w b]|].
Qed.

(** A whole [pop] while the consumer is idle. *)
Lemma spsc_pop_spec (s : sys) (hist : list T) (t : nat) :
  spsc_inv s hist t -> idle (consumer s) = true ->
  match hist !! t with
  | Some v => exists r', pop N (ring s) = Ret (r', Some v) /\ spsc_inv (mkSys r' (producer s) (PopDone (Some v))) hist (S t)
  | None => pop N (ring s) = Ret (ring s, None)
  end.
Proof.
  intros Hi Hidle. assert (Hm : moving (consumer s) = false) by (by destruct (consumer s)). unfold pop.
  rewrite (si_tail _ _ _ Hi), (tail_meets_head _ hist t) by apply Hi. destruct (hist !! t) as [v|] eqn:Hv.
  - apply lookup_lt_Some in Hv as Hlt. rewrite bool_decide_eq_false_2 by lia. destruct (held_front _ _ _ Hi Hm Hlt) as (v' & _ & _ & Hv' & Hs & _).
    assert (v' = v) by congruence. subst v'. unfold take_slot, peek_slot. fold (cell N t). rewrite (index_lookup _ _ _ Hs). cbn [obind].
    rewrite index_set_insert by (rewrite (si_len _ _ _ Hi); by apply cell_lt). cbn [obind fst snd]. rewrite next_pos by done. eexists. split; [done|].
    destruct Hi as [Eh Et Hle Hr Hl Hh Hp Hc]. constructor; cbn [ring producer consumer head tail buffer]; try done; try lia.
    + by rewrite length_insert.
    + intros p w Hw Htp _. rewrite list_lookup_insert_ne; [apply Hh; [done|lia|congruence]|]. intros E.
      apply lookup_lt_Some in Hw. apply cell_inj in E; [lia|done|lia|lia].
    + destruct (producer s) as [w|w h|w h nx|w nx|o]; cbn [producer_ok buffer] in Hp |- *; [done|done| | |done].
      * destruct Hp as (? & ? & ?). split; [done|]. split; [done|lia].
      * destruct Hp as (? & ? & ?). split; [done|]. split; [lia|]. rewrite list_lookup_insert_ne; [done|]. intros E. apply cell_inj in E; [lia|done|lia|lia].
  - apply lookup_ge_None in Hv. rewrite bool_decide_eq_true_2; [done|]. pose proof (si_le _ _ _ Hi). lia.
Qed.

(** dropping a ring whose cores are done returns all that is left in it, in
    order, in at most [N] rounds. *)
Theorem spsc_drop_drains (s : sys) (hist : list T) (t : nat) :
  spsc_inv s hist t -> idle (consumer s) = true -> exists r', spsc_drop N (ring s) = Ret (r', drop t hist).
Proof.
  intros Hi Hidle. unfold spsc_drop. assert (Hf : (length hist - t < Z.to_nat N)%nat) by (pose proof (si_room _ _ _ Hi); pose proof (si_le _ _ _ Hi); lia).
  revert s t Hi Hidle Hf. induction (Z.to_nat N) as [|fuel IH]; intros s t Hi Hidle Hf; [lia|]. cbn [drop_loop].
  pose proof (spsc_pop_spec s hist t Hi Hidle) as Hp. destruct (hist !! t) as [v|] eqn:Hv.
  - destruct Hp as (r' & Ep & Hi'). rewrite Ep. cbn. apply lookup_lt_Some in Hv as Hlt.
    destruct (IH _ (S t) Hi' eq_refl ltac:(lia)) as (r2 & E2). cbn [ring] in E2. rewrite E2. cbn. exists r2. by rewrite (drop_S _ _ _ Hv).
  - rewrite Hp. cbn. exists (ring s). rewrite drop_nil_ge; [done|]. apply lookup_ge_None in Hv. pose proof (si_le _ _ _ Hi). lia.
Qed.

End spec.

Lemma spsc_drop_drains_witness :
  exists r', spsc_drop 4 (mkSpsc 0 0 (replicate 4 None) : SpscRingBuffer Z) = Ret (r', []).
Proof. exact (spsc_drop_drains 4 ltac:(by vm_compute) _ [] 0 (spsc_new_inv 4 ltac:(by vm_compute)) eq_refl). Defined.

Lemma spsc_linearizable_witness :
  2 <= 256 < u64_modulus /\
  exists r s es q, spsc_new 256 = Ret r /\ sys_run 256 (sys_new r) (Produce 7 :: replicate 4 ProducerStep ++ Consume :: replicate 4 ConsumerStep) = Ret (s, es) /\
    legal (256 - 1) [] es q /\ is_empty (ring s) = bool_decide (q = []) /\ is_full 256 (ring s) = bool_decide (Z.of_nat (length q) = 256 - 1) /\
    ((256 | u64_modulus) -> len 256 (ring s) = Z.of_nat (length q)).
Proof. split; [by vm_compute|]. apply (spsc_linearizable 256). by vm_compute. Defined.

(** A ring of three slots reports two elements where it holds one: the difference
    of the positions wraps at 2^64, which three does not divide. *)
Lemma spsc_len_wraps :
  len 3 (mkSpsc 0 2 [None; None; Some 7] : SpscRingBuffer Z) = 2 /\
  pop 3 (mkSpsc 0 2 [None; None; Some 7]) = Ret (mkSpsc 0 0 [None; None; None], Some 7).
Proof. by vm_compute. Qed.

End SpscSpec.

(** ** Many producers and one consumer *)

Module MpscSpec.
Import Mpsc.
Section spec.
Context {T : Type} (N : Z) (HN : 2 <= N < u64_modulus).

(** Beside the ring and the program points, the system counts the reservations
    made so far; a producer has with it the count at its last load of [head]. *)
Record sys := mkSys {
  ring : MpscRingBuffer T;
  producers : gmap nat (push_pc T * nat);
  consumer : pop_pc T;
  reserved : nat }.

Inductive move := Send (i : nat) (v : T) | ProducerStep (i : nat) (weak : bool) | Recv | ConsumerStep.

Definition producer_event (pc pc' : push_pc T) : list (queue_event T) :=
  match pc, pc' with
  | PushTurn v _, PushDone _ => [Pushed v]
  | _, _ => []
  end.

Definition consumer_event (pc pc' : pop_pc T) : list (queue_event T) :=
  match pc, pc' with
  | PopTail _, PopDone None => [Empty]
  | PopRead v _, PopDone (Some _) => [Popped v]
  | _, _ => []
  end.

(** The counts after a step. *)
Definition count (s : sys) (pc pc' : push_pc T) (seen : nat) : nat * nat :=
  match pc, pc' with
  | PushLoop _ _, PushHead _ _ _ => (reserved s, reserved s)
  | PushRoom _ _ _ _, PushReserved _ _ _ => (S (reserved s), seen)
  | _, _ => (reserved s, seen)
  end.

Definition sys_step (s : sys) (m : move) : outcome (sys * list (queue_event T)) :=
  match m with
  | Send i v =>
      match producers s !! i with
      | Some (PushDone _, _) | None => Ret (mkSys (ring s) (<[i := (send v, O)]> (producers s)) (consumer s) (reserved s), [])
      | _ => Ret (s, [])
      end
  | ProducerStep i weak =>
      match producers s !! i with
      | Some (pc, seen) =>
          let! rp := push_step N weak (ring s) pc in
          let '(total, seen') := count s pc rp.2 seen in
          Ret (mkSys rp.1 (<[i := (rp.2, seen')]> (producers s)) (consumer s) total, producer_event pc rp.2)
      | None => Ret (s, [])
      end
  | Recv => match consumer s with PopDone _ => Ret (mkSys (ring s) (producers s) recv (reserved s), []) | _ => Ret (s, []) end
  | ConsumerStep =>
      let! rp := pop_step N (ring s) (consumer s) in
      Ret (mkSys rp.1 (producers s) rp.2 (reserved s), consumer_event (consumer s) rp.2)
  end.

Fixpoint sys_run (s : sys) (ms : list move) : outcome (sys * list (queue_event T)) :=
  match ms with
  | [] => Ret (s, [])
  | m :: ms => let! r := sys_step s m in let! r' := sys_run r.1 ms in Ret (r'.1, r.2 ++ r'.2)
  end.

(** A producer is lapped when [head] is back at the value it loaded although slots
    were reserved since: its exchange then succeeds when it should not. *)
Definition calm (s : sys) (m : move) : bool :=
  match m with
  | ProducerStep i _ =>
      match producers s !! i with
      | Some (PushRoom _ _ h _, seen) => negb (h =? head (ring s)) || bool_decide (seen = reserved s)
      | _ => true
      end
  | _ => true
  end.

Fixpoint calm_run (s : sys) (ms : list move) : bool :=
  match ms with
  | [] => true
  | m :: ms => calm s m && match sys_step s m with Ret r => calm_run r.1 ms | Panic => true end
  end.

(** The position a producer has reserved. *)
Definition owns (pc : push_pc T) (p : nat) : Prop :=
  match pc with
  | PushReserved _ h next | PushWaiting _ _ h next => h = pos N p /\ next = pos N (S p)
  | PushTurn _ next => next = pos N (S p)
  | _ => False
  end.

Definition holding (pc : push_pc T) : bool :=
  match pc with PushReserved _ _ _ | PushWaiting _ _ _ _ | PushTurn _ _ => true | _ => false end.

(** [c] positions are committed, [t] of them popped, [total] reserved. *)
Definition producer_ok (r : MpscRingBuffer T) (c t total : nat) (pc : push_pc T) (seen : nat) : Prop :=
  match pc with
  | PushLoop _ _ | PushDone _ => True
  | PushHead _ _ h => h = pos N seen /\ (seen <= total)%nat
  | PushRoom _ _ h next => h = pos N seen /\ next = pos N (S seen) /\ (seen <= total)%nat /\ Z.of_nat seen - Z.of_nat t < N - 1
  | PushReserved _ _ _ => exists p, owns pc p /\ (c <= p < total)%nat
  | PushWaiting v _ _ _ => exists p, owns pc p /\ (c <= p < total)%nat /\ buffer r !! cell N p = Some (Some v)
  | PushTurn v _ => owns pc c /\ (c < total)%nat /\ buffer r !! cell N c = Some (Some v)
  end.

Definition consumer_ok (hist : list T) (t : nat) (pc : pop_pc T) : Prop :=
  match pc with
  | PopStart | PopDone _ => True
  | PopTail x => x = pos N t
  | PopSome x => x = pos N t /\ (t < length hist)%nat
  | PopRead v x => x = pos N t /\ hist !! t = Some v
  end.

Definition moving (pc : pop_pc T) : bool := match pc with PopRead _ _ => true | _ => false end.

Record mpsc_inv (s : sys) (hist : list T) (t : nat) : Prop := {
  mi_head : head (ring s) = pos N (reserved s);
  mi_committed : committed (ring s) = pos N (length hist);
  mi_tail : tail (ring s) = pos N t;
  mi_le : (t <= length hist <= reserved s)%nat;
  mi_room : Z.of_nat (reserved s) - Z.of_nat t <= N - 1;
  mi_len : length (buffer (ring s)) = Z.to_nat N;
  mi_held : forall p v, hist !! p = Some v -> (t <= p)%nat -> (moving (consumer s) = true -> p <> t) -> buffer (ring s) !! cell N p = Some (Some v);
  mi_producers : forall i pc seen, producers s !! i = Some (pc, seen) -> producer_ok (ring s) (length hist) t (reserved s) pc seen;
  mi_unique : forall i j pi pj ki kj p, producers s !! i = Some (pi, ki) -> producers s !! j = Some (pj, kj) ->
    owns pi p -> owns pj p -> (length hist <= p < reserved s)%nat -> i = j;
  mi_consumer : consumer_ok hist t (consumer s) }.

Definition moves_to (s : sys) (m : move) (hist : list T) (t : nat) : Prop :=
  exists s' es hist' t', sys_step s m = Ret (s', es) /\ mpsc_inv s' hist' t' /\ legal (N - 1) (drop t hist) es (drop t' hist').

Lemma mpsc_silent (s s' : sys) (m : move) (hist : list T) (t : nat) :
  sys_step s m = Ret (s', []) -> mpsc_inv s' hist t -> moves_to s m hist t.
Proof. intros E H. exists s', [], hist, t. done. Qed.

(** A producer may change its program point when it does not come to own more. *)
Lemma mpsc_set_pc (s : sys) (hist : list T) (t i : nat) (pc : push_pc T) (seen : nat) :
  mpsc_inv s hist t -> producer_ok (ring s) (length hist) t (reserved s) pc seen ->
  (forall p, owns pc p -> exists old k, producers s !! i = Some (old, k) /\ owns old p) ->
  mpsc_inv (mkSys (ring s) (<[i := (pc, seen)]> (producers s)) (consumer s) (reserved s)) hist t.
Proof.
  intros [] Hp Ho. constructor; cbn [ring producers consumer reserved]; try done.
  - intros j pj kj. rewrite lookup_insert. case_decide; [by intros [= <- <-]|eauto].
  - assert (Hb : forall j pj kj p, <[i := (pc, seen)]> (producers s) !! j = Some (pj, kj) -> owns pj p ->
      exists old k, producers s !! j = Some (old, k) /\ owns old p).
    { intros j pj kj p. rewrite lookup_insert. case_decide; [intros [= <- <-]; subst; apply Ho | eauto]. }
    intros a b pa pb ka kb p Ha Hb' Oa Ob. destruct (Hb _ _ _ _ Ha Oa) as (? & ? & ? & ?). destruct (Hb _ _ _ _ Hb' Ob) as (? & ? & ? & ?). eauto.
Qed.

(** The last position is reserved: the others still own what they did. *)
Lemma mpsc_reserve_ok (s : sys) (hist : list T) (t i : nat) (v : T) (seen : nat) :
  mpsc_inv s hist t -> Z.of_nat (reserved s) - Z.of_nat t < N - 1 ->
  mpsc_inv (mkSys (mkMpsc (pos N (S (reserved s))) (committed (ring s)) (tail (ring s)) (buffer (ring s)))
    (<[i := (PushReserved v (pos N (reserved s)) (pos N (S (reserved s))), seen)]> (producers s)) (consumer s) (S (reserved s))) hist t.
Proof.
  intros [Eh Ec Et Hle Hr Hl Hh Hp Hu Hc] Hroom. constructor; cbn [ring producers consumer reserved head committed tail buffer]; try done; try lia.
  - intros j pj kj. rewrite lookup_insert. case_decide as E.
    + intros [= <- <-]. exists (reserved s). split; [done|lia].
    + intros Hj. specialize (Hp j pj kj Hj). destruct pj; cbn [producer_ok] in *; try done.
      * destruct Hp. split; [done|lia].
      * destruct Hp as (? & ? & ? & ?). split_and!; try done; lia.
      * destruct Hp as (p & ? & ?). exists p. split; [done|lia].
      * destruct Hp as (p & ? & ? & ?). exists p. split; [done|]. split; [lia|done].
      * destruct Hp as (? & ? & ?). split; [done|]. split; [lia|done].
  - assert (Hold : forall j pj kj p, producers s !! j = Some (pj, kj) -> owns pj p -> (length hist <= p < S (reserved s))%nat -> (p < reserved s)%nat).
    { intros j pj kj p Hj Ho Hb. specialize (Hp j pj kj Hj). destruct pj; try done; cbn [producer_ok owns] in *.
      - destruct Hp as (p' & [E _] & Hq). destruct Ho as [-> _]. assert (p' = p) by (apply (pos_near N HN p' p); [congruence|lia]). lia.
      - destruct Hp as (p' & [E _] & Hq & _). destruct Ho as [-> _]. assert (p' = p) by (apply (pos_near N HN p' p); [congruence|lia]). lia.
      - destruct Hp as (E & Hq & _). subst. assert (S (length hist) = S p) by (apply (pos_near N HN); [congruence|lia]). lia. }
    intros a b pa pb ka kb p. rewrite !lookup_insert. repeat case_decide; subst; try done.
    + intros [= <- <-] Hb [E _] Ob Hq. pose proof (Hold _ _ _ _ Hb Ob Hq). apply (pos_near N HN) in E; lia.
    + intros Ha [= <- <-] Oa [E _] Hq. pose proof (Hold _ _ _ _ Ha Oa Hq). apply (pos_near N HN) in E; lia.
    + intros Ha Hb Oa Ob Hq. pose proof (Hold _ _ _ _ Ha Oa Hq). eapply Hu; eauto. lia.
Qed.

(** The positions in use are less than a lap apart. *)
Lemma owned_range (s : sys) (hist : list T) (t i : nat) (pc : push_pc T) (seen p : nat) :
  mpsc_inv s hist t -> producers s !! i = Some (pc, seen) -> owns pc p -> (length hist <= p < reserved s)%nat ->
  forall q, (t <= q <= reserved s)%nat -> q <> p -> cell N q <> cell N p.
Proof. intros [] _ _ Hq q Hb Hne E. apply (cell_near N HN) in E; lia. Qed.

Lemma mpsc_write_ok (s : sys) (hist : list T) (t i : nat) (v : T) (bo : Backoff.Backoff) (seen p : nat) (h next : Z) :
  mpsc_inv s hist t -> producers s !! i = Some (PushReserved v h next, seen) -> owns (PushReserved v h next) p ->
  (length hist <= p < reserved s)%nat ->
  mpsc_inv (mkSys (mkMpsc (head (ring s)) (committed (ring s)) (tail (ring s)) (<[cell N p := Some v]> (buffer (ring s))))
    (<[i := (PushWaiting v bo h next, seen)]> (producers s)) (consumer s) (reserved s)) hist t.
Proof.
  intros Hi Hpi Ho Hq. pose proof (owned_range _ _ _ _ _ _ _ Hi Hpi Ho Hq) as Hcell. destruct Hi as [Eh Ec Et Hle Hr Hl Hh Hp Hu Hc].
  constructor; cbn [ring producers consumer reserved head committed tail buffer]; try done.
  - by rewrite length_insert.
  - intros q w Hw Htq Hm. apply lookup_lt_Some in Hw as Hlt. rewrite list_lookup_insert_ne; [by apply Hh|]. intros E. by apply (Hcell q); [lia|lia|].
  - intros j pj kj. rewrite lookup_insert. case_decide as E.
    + intros [= <- <-]. exists p. split; [done|]. split; [done|]. apply list_lookup_insert_eq. rewrite Hl. by apply cell_lt.
    + intros Hj. pose proof (Hp j pj kj Hj) as Hpj. destruct pj; cbn [producer_ok buffer] in *; try done.
      * destruct Hpj as (p' & Hop & Hq' & Hb). exists p'. split; [done|]. split; [done|]. rewrite list_lookup_insert_ne; [done|].
        intros Ec'. apply (Hcell p'); [lia| |done]. intros ->. apply E. eapply (Hu i j); eauto.
      * destruct Hpj as (Hop & Hq' & Hb). split; [done|]. split; [done|]. rewrite list_lookup_insert_ne; [done|].
        intros Ec'. apply (Hcell (length hist)); [lia| |done]. intros <-. apply E. eapply (Hu i j); eauto.
  - assert (Hb : forall j pj kj q, <[i := (PushWaiting v bo h next, seen)]> (producers s) !! j = Some (pj, kj) -> owns pj q ->
      exists old k, producers s !! j = Some (old, k) /\ owns old q).
    { intros j pj kj q. rewrite lookup_insert. case_decide; [intros [= <- <-]; subst; eauto | eauto]. }
    intros a b pa pb ka kb q Ha Hb' Oa Ob. destruct (Hb _ _ _ _ Ha Oa) as (? & ? & ? & ?). destruct (Hb _ _ _ _ Hb' Ob) as (? & ? & ? & ?). eauto.
Qed.

Lemma mpsc_commit_ok (s : sys) (hist : list T) (t i : nat) (v : T) (seen : nat) (next : Z) :
  mpsc_inv s hist t -> producers s !! i = Some (PushTurn v next, seen) ->
  mpsc_inv (mkSys (mkMpsc (head (ring s)) next (tail (ring s)) (buffer (ring s)))
    (<[i := (PushDone (Ok tt), seen)]> (producers s)) (consumer s) (reserved s)) (hist ++ [v]) t.
Proof.
  intros [Eh Ec Et Hle Hr Hl Hh Hp Hu Hc] Hpi. destruct (Hp _ _ _ Hpi) as (Ho & Hlt & Hb). cbn [owns] in Ho. subst next.
  assert (Hlen : length (hist ++ [v]) = S (length hist)) by (rewrite length_app; cbn; lia).
  assert (Hnot : forall j pj kj p, producers s !! j = Some (pj, kj) -> i <> j -> owns pj p -> (length hist <= p < reserved s)%nat -> (S (length hist) <= p)%nat).
  { intros j pj kj p Hj Hne Hop Hq. destruct (decide (p = length hist)) as [->|]; [|lia]. destruct Hne. by eapply (Hu i j); eauto. }
  constructor; cbn [ring producers consumer reserved head committed tail buffer]; try done; rewrite ?Hlen; try done; try lia.
  - intros p w Hw Htp Hm. destruct (decide (p = length hist)) as [->|Hne].
    + rewrite list_lookup_middle in Hw by done. by injection Hw as ->.
    + apply Hh; [|done|done]. apply lookup_lt_Some in Hw as Hlt'. rewrite lookup_app_l in Hw by lia. done.
  - intros j pj kj. rewrite lookup_insert. case_decide as E; [by intros [= <- <-]|]. intros Hj. pose proof (Hp j pj kj Hj) as Hpj.
    destruct pj; cbn [producer_ok] in *; try done.
    + destruct Hpj as (p & Hop & Hq). exists p. split; [done|]. pose proof (Hnot _ _ _ _ Hj E Hop Hq). lia.
    + destruct Hpj as (p & Hop & Hq & ?). exists p. split; [done|]. pose proof (Hnot _ _ _ _ Hj E Hop Hq). split; [lia|done].
    + destruct Hpj as (Hop & Hq & ?). pose proof (Hnot _ _ _ _ Hj E Hop ltac:(lia)). lia.
  - intros a b pa pb ka kb p. rewrite !lookup_insert. repeat case_decide; subst; try done; try (intros [= <- <-]); try done.
    + intros Ha [= <- <-] _ [].
    + intros Ha Hb' Oa Ob Hq. eapply (Hu a b); eauto. lia.
  - destruct (consumer s); cbn in Hc |- *; try done.
    + destruct Hc. split; [done|]. lia.
    + destruct Hc as [? Hv]. split; [done|]. by apply lookup_app_l_Some.
Qed.

Ltac producer_silent E := eapply mpsc_silent; [unfold sys_step; rewrite E; cbn -[insert]; try done|].

Lemma mpsc_producer_moves (s : sys) (hist : list T) (t i : nat) (weak : bool) :
  mpsc_inv s hist t -> calm s (ProducerStep i weak) = true -> moves_to s (ProducerStep i weak) hist t.
Proof.
  intros Hi Hcalm. pose proof Hi as [Eh Ec Et Hle Hr Hl Hh Hp Hu Hc]. unfold calm in Hcalm.
  destruct (producers s !! i) as [[pc seen]|] eqn:E; [|by eapply mpsc_silent; [unfold sys_step; rewrite E|]]. pose proof (Hp i pc seen E) as Hpc.
  destruct pc as [v bo|v bo h|v bo h nx|v h nx|v cbo h nx|v nx|o]; cbn [producer_ok] in Hpc.
  - producer_silent E. apply mpsc_set_pc; [done| |done]. split; [done|lia].
  - destruct Hpc as [-> Hs]. destruct (Z.eqb_spec (pos N (S seen)) (tail (ring s))) as [Em|Em].
    + producer_silent E; [rewrite next_pos by done; by rewrite (proj2 (Z.eqb_eq _ _) Em)|]. by apply mpsc_set_pc.
    + producer_silent E; [rewrite next_pos by done; by rewrite (proj2 (Z.eqb_neq _ _) Em)|].
      apply mpsc_set_pc; [done| |done]. cbn. split; [done|]. split; [done|]. split; [done|].
      assert (Z.of_nat (S seen) - Z.of_nat t <> N); [|lia]. intros Eq. apply Em. rewrite Et.
      replace (S seen) with (t + Z.to_nat N)%nat by lia. by apply pos_lap.
  - destruct Hpc as (-> & -> & Hs & Hroom). destruct ((head (ring s) =? pos N seen) && negb weak) eqn:Ex.
    + apply andb_true_iff in Ex as [Eq Ew]. rewrite Z.eqb_sym, Eq in Hcalm. cbn [negb orb] in Hcalm. apply bool_decide_eq_true in Hcalm. subst seen.
      eapply mpsc_silent; [unfold sys_step; rewrite E; cbn [push_step]; rewrite Eq, Ew; cbn -[insert]; done|]. by apply mpsc_reserve_ok.
    + producer_silent E; [by rewrite Ex|]. by apply mpsc_set_pc.
  - destruct Hpc as (p & [-> ->] & Hq). eapply mpsc_silent.
    { unfold sys_step. rewrite E. cbn [push_step]. unfold write_slot. fold (cell N p). rewrite index_set_insert by (rewrite Hl; by apply cell_lt). cbn. done. }
    by apply mpsc_write_ok.
  - destruct Hpc as (p & [-> ->] & Hq & Hb). destruct (Z.eqb_spec (committed (ring s)) (pos N p)) as [Em|Em].
    + producer_silent E; [by rewrite (proj2 (Z.eqb_eq _ _) Em)|]. rewrite Ec in Em. apply (pos_near N HN) in Em; [|lia]. subst p.
      apply mpsc_set_pc; [done | split; [done|]; split; [lia|done] |]. intros q Hoq. eexists _, _. split; [done|]. split; [by apply pos_S|done].
    + producer_silent E; [by rewrite (proj2 (Z.eqb_neq _ _) Em)|]. apply mpsc_set_pc; [done| by exists p | intros q Hoq; by eexists _, _].
  - exists (mkSys (mkMpsc (head (ring s)) nx (tail (ring s)) (buffer (ring s))) (<[i := (PushDone (Ok tt), seen)]> (producers s)) (consumer s) (reserved s)), [Pushed v], (hist ++ [v]), t.
    split; [unfold sys_step; by rewrite E|]. split; [by apply mpsc_commit_ok|]. destruct Hpc as (_ & Hlt & _).
    rewrite drop_snoc by lia. apply legal_one, q_push. rewrite length_drop. lia.
  - producer_silent E. by apply mpsc_set_pc.
Qed.

Lemma tail_meets_committed (s : sys) (hist : list T) (t : nat) :
  mpsc_inv s hist t -> (pos N t =? committed (ring s)) = bool_decide (t = length hist).
Proof.
  intros [Eh Ec Et Hle Hr _ _ _ _ _]. rewrite Ec. case_bool_decide as E; [subst; apply Z.eqb_refl|].
  apply Z.eqb_neq. intros Ep. apply (pos_near N HN) in Ep; lia.
Qed.

(** The consumer moves an element out: the producers' slots are others. *)
Lemma mpsc_take_ok (s : sys) (hist : list T) (t : nat) (v : T) :
  mpsc_inv s hist t -> hist !! t = Some v -> moving (consumer s) = false ->
  mpsc_inv (mkSys (mkMpsc (head (ring s)) (committed (ring s)) (tail (ring s)) (<[cell N t := None]> (buffer (ring s))))
    (producers s) (PopRead v (pos N t)) (reserved s)) hist t.
Proof.
  intros [Eh Ec Et Hle Hr Hl Hh Hp Hu Hc] Hv Hm. apply lookup_lt_Some in Hv as Hlt.
  constructor; cbn [ring producers consumer reserved head committed tail buffer]; try done.
  - by rewrite length_insert.
  - intros p w Hw Htp Hne. specialize (Hne eq_refl). apply lookup_lt_Some in Hw as Hlt'.
    rewrite list_lookup_insert_ne; [apply Hh; [done|done|congruence]|]. intros E. apply (cell_near N HN) in E; lia.
  - intros i pc seen Hi. specialize (Hp _ _ _ Hi). destruct pc; cbn [producer_ok buffer] in *; try done.
    + destruct Hp as (p & ? & ? & Hb). exists p. split; [done|]. split; [done|]. rewrite list_lookup_insert_ne; [done|].
      intros E. apply (cell_near N HN) in E; lia.
    + destruct Hp as (? & ? & Hb). split; [done|]. split; [done|]. rewrite list_lookup_insert_ne; [done|].
      intros E. apply (cell_near N HN) in E; lia.
Qed.

Lemma mpsc_consumer_moves (s : sys) (hist : list T) (t : nat) : mpsc_inv s hist t -> moves_to s ConsumerStep hist t.
Proof.
  intros Hi. pose proof Hi as [Eh Ec Et Hle Hr Hl Hh Hp Hu Hc].
  assert (Hpc : forall pc, consumer_ok hist t pc -> (moving (consumer s) = true -> moving pc = true) ->
    mpsc_inv (mkSys (ring s) (producers s) pc (reserved s)) hist t) by (intros pc Hok Hm; constructor; cbn; eauto).
  destruct (consumer s) as [|x|x|v x|o] eqn:E; cbn [consumer_ok] in Hc.
  - eapply mpsc_silent; [unfold sys_step; by rewrite E|]. by apply Hpc.
  - subst x. pose proof (tail_meets_committed s hist t Hi) as Hb. case_bool_decide as Eb.
    + exists (mkSys (ring s) (producers s) (PopDone None) (reserved s)), [Empty], hist, t. unfold sys_step. rewrite E. cbn. rewrite Hb. cbn.
      split; [done|]. split; [by apply Hpc|]. rewrite drop_nil_ge by done. apply legal_one, q_empty.
    + eapply mpsc_silent; [unfold sys_step; rewrite E; cbn; by rewrite Hb|]. apply Hpc; [|done]. split; [done|lia].
  - destruct Hc as [-> Hlt]. destruct (lookup_lt_is_Some_2 hist t Hlt) as [v Hv].
    eapply mpsc_silent.
    { unfold sys_step. rewrite E. cbn [pop_step]. unfold take_slot, peek_slot. fold (cell N t).
      rewrite (index_lookup _ _ (Some v)) by (apply Hh; [done|lia|done]). cbn [obind].
      rewrite index_set_insert by (rewrite Hl; by apply cell_lt). cbn. done. }
    apply mpsc_take_ok; [done|done|by rewrite E].
  - destruct Hc as [-> Hv]. apply lookup_lt_Some in Hv as Hlt.
    exists (mkSys (mkMpsc (head (ring s)) (committed (ring s)) (pos N (S t)) (buffer (ring s))) (producers s) (PopDone (Some v)) (reserved s)), [Popped v], hist, (S t).
    split; [unfold sys_step; rewrite E; cbn; by rewrite next_pos|]. split.
    + constructor; cbn [ring producers consumer reserved head committed tail buffer]; try done; try lia.
      * intros p w Hw Htp _. apply Hh; [done|lia|intros _; lia].
      * intros i pc seen Hpi. specialize (Hp _ _ _ Hpi). destruct pc; cbn [producer_ok buffer] in *; try done.
        destruct Hp as (? & ? & ? & ?). split_and!; try done. lia.
    + rewrite (drop_S _ _ _ Hv). apply legal_one, q_pop.
  - eapply mpsc_silent; [unfold sys_step; by rewrite E|]. by apply Hpc.
Qed.

Lemma mpsc_step_ok (s : sys) (m : move) (hist : list T) (t : nat) : mpsc_inv s hist t -> calm s m = true -> moves_to s m hist t.
Proof.
  intros Hi Hcalm. destruct m as [i v|i w| |]; [| by apply mpsc_producer_moves | | by apply mpsc_consumer_moves].
  - destruct (producers s !! i) as [[[] k]|] eqn:E; (eapply mpsc_silent; [unfold sys_step; by rewrite E|]); try done; by apply mpsc_set_pc.
  - destruct (consumer s) eqn:E; (eapply mpsc_silent; [unfold sys_step; by rewrite E|]); [done..|].
    destruct Hi as [? ? ? ? ? ? Hh ? ? ?]. constructor; cbn [ring producers consumer reserved]; try done.
    intros p v Hv Hp _. apply Hh; [done..|]. by rewrite E.
Qed.

Lemma mpsc_run_ok (ms : list move) (s : sys) (hist : list T) (t : nat) :
  mpsc_inv s hist t -> calm_run s ms = true ->
  exists s' es hist' t', sys_run s ms = Ret (s', es) /\ mpsc_inv s' hist' t' /\ legal (N - 1) (drop t hist) es (drop t' hist').
Proof.
  revert s hist t. induction ms as [|m ms IH]; intros s hist t Hi Hc; [by exists s, [], hist, t|]. cbn [calm_run] in Hc.
  apply andb_true_iff in Hc as [Hc1 Hc2]. destruct (mpsc_step_ok s m hist t Hi Hc1) as (s1 & es1 & h1 & t1 & E1 & H1 & L1).
  rewrite E1 in Hc2. destruct (IH s1 h1 t1 H1 Hc2) as (s2 & es2 & h2 & t2 & E2 & H2 & L2). exists s2, (es1 ++ es2), h2, t2.
  cbn [sys_run]. rewrite E1. cbn. rewrite E2. cbn. split; [done|]. split; [done|]. by eapply legal_app.
Qed.

Definition sys_new (r : MpscRingBuffer T) : sys := mkSys r ∅ (PopDone None) 0.

Lemma mpsc_new_eq : mpsc_new N = Ret (mkMpsc 0 0 0 (replicate (Z.to_nat N) None) : MpscRingBuffer T).
Proof. unfold mpsc_new. rewrite (proj2 (Z.geb_le _ _)) by lia. done. Qed.

Lemma mpsc_new_inv : mpsc_inv (sys_new (mkMpsc 0 0 0 (replicate (Z.to_nat N) None))) [] 0.
Proof. constructor; cbn [sys_new ring head committed tail reserved producers consumer buffer length]; rewrite ?pos_0, ?length_replicate by done; try done; try lia. Qed.

(** with any number of producers, in any interleaving in which no producer
    sleeps between its load of [head] and its exchange while the others reserve a
    whole lap of slots, nothing uninitialised is read, and the commits and the
    receiver's answers are the run of a queue of capacity [N - 1]: values come
    out in the order of their commits, each once, and none is lost. *)
Theorem mpsc_linearizable (ms : list move) :
  exists r, mpsc_new N = Ret r /\
    (calm_run (sys_new r) ms = true ->
     exists s es q, sys_run (sys_new r) ms = Ret (s, es) /\ legal (N - 1) [] es q /\ is_empty (ring s) = bool_decide (q = [])).
Proof.
  eexists. split; [apply mpsc_new_eq|]. intros Hc. destruct (mpsc_run_ok ms _ _ _ mpsc_new_inv Hc) as (s & es & hist & t & E & Hi & L).
  exists s, es, (drop t hist). split; [done|]. split; [done|]. unfold is_empty. rewrite Z.eqb_sym, (mi_tail _ _ _ Hi), (tail_meets_committed s hist t Hi).
  apply bool_decide_ext. rewrite <- (length_zero_iff_nil (drop t hist)), length_drop. pose proof (mi_le _ _ _ Hi). lia.
Qed.

End spec.

(** Runs of a ring with two slots, by producers 0 and 1. *)
Definition start2 : sys := sys_new (mkMpsc 0 0 0 [None; None] : MpscRingBuffer Z).

Definition whole_push (i : nat) (v : Z) : list (move (T := Z)) := Send i v :: replicate 6 (ProducerStep i false).
Definition whole_pop : list (move (T := Z)) := Recv :: replicate 4 ConsumerStep.

Lemma mpsc_linearizable_witness :
  (calm_run 2 start2 (whole_push 0 7 ++ whole_pop) = true) /\
  exists s es q, sys_run 2 start2 (whole_push 0 7 ++ whole_pop) = Ret (s, es) /\ legal 1 [] es q /\ is_empty (ring s) = bool_decide (q = []).
Proof.
  split; [by vm_compute|]. destruct (mpsc_linearizable 2 ltac:(unfold u64_modulus; lia) (whole_push 0 7 ++ whole_pop)) as (r & Hr & H).
  injection Hr as <-. apply H. by vm_compute.
Defined.

(** Producer 0 loads [head] and checks for room, then sleeps while producer 1 sends
    8, the receiver takes it, and producer 1 sends 9: [head] is back where it was
    and the exchange of producer 0 succeeds on a full ring.  The receiver finds the
    ring empty: 9 and 7 are lost although both sends reported success. *)
Lemma mpsc_lapped_send_loses :
  let ms := [Send 0 7; ProducerStep 0 false; ProducerStep 0 false] ++ whole_push 1 8 ++ whole_pop ++ whole_push 1 9 ++
            replicate 4 (ProducerStep 0 false) ++ whole_pop in
  exists s, sys_run 2 start2 ms = Ret (s, [Pushed 8; Popped 8; Pushed 9; Pushed 7; Empty]) /\
    producers s !! 0%nat = Some (PushDone (Ok tt), O) /\ is_empty (ring s) = true.
Proof. eexists. split; [by vm_compute|]. split; by vm_compute. Qed.

(** Producer 0 loads [head], producer 1 sends 8 and the receiver takes it: the
    ring is empty, and producer 0 is told that it is full. *)
Lemma mpsc_empty_ring_refuses :
  exists s, sys_run 2 start2 ([Send 0 7; ProducerStep 0 false] ++ whole_push 1 8 ++ whole_pop ++ [ProducerStep 0 false]) = Ret (s, [Pushed 8; Popped 8]) /\
    producers s !! 0%nat = Some (PushDone (Err 7), O) /\ is_empty (ring s) = true.
Proof. eexists. split; [by vm_compute|]. split; by vm_compute. Qed.

End MpscSpec.

(** ** Readers and writers of a sequence lock *)

Module SeqLockSpec.
Import SeqLock.

Record sys := mkSys { lock : Seqlock; writers : gmap nat write_pc; readers : gmap nat read_pc; writing : option nat }.

Inductive move := BeginWrite (i : nat) (w : write_pc) | WriterStep (i : nat) | BeginRead (j : nat) | ReaderStep (j : nat).

(** Writes and reads at the moments they take effect. *)
Inductive register_event := Wrote (value : list Z) | Returned (value : list Z).

Definition begins (w : write_pc) : bool := match w with WriteStart _ => true | _ => false end.

Definition writer_event (l' : Seqlock) (pc pc' : write_pc) : list register_event :=
  match pc, pc' with WriteCopy _, WriteDone => [Wrote (data l')] | _, _ => [] end.

Definition next_writing (s : sys) (i : nat) (pc pc' : write_pc) : option nat :=
  match pc, pc' with
  | WriteStart _, WriteCopy _ => Some i
  | WriteCopy _, WriteDone => None
  | _, _ => writing s
  end.

Definition reader_event (pc pc' : read_pc) : list register_event :=
  match pc, pc' with ReadCopy _ _, ReadDone v => [Returned v] | _, _ => [] end.

Definition sys_step (s : sys) (m : move) : outcome (sys * list register_event) :=
  match m with
  | BeginWrite i w =>
      match writers s !! i with
      | Some WriteDone | None => Ret (mkSys (lock s) (if begins w then <[i := w]> (writers s) else writers s) (readers s) (writing s), [])
      | _ => Ret (s, [])
      end
  | WriterStep i =>
      match writers s !! i with
      | Some pc =>
          let! lp := write_step (lock s) pc in
          Ret (mkSys lp.1 (<[i := lp.2]> (writers s)) (readers s) (next_writing s i pc lp.2), writer_event lp.1 pc lp.2)
      | None => Ret (s, [])
      end
  | BeginRead j =>
      match readers s !! j with
      | Some (ReadDone _) | None => Ret (mkSys (lock s) (writers s) (<[j := ReadLoop]> (readers s)) (writing s), [])
      | _ => Ret (s, [])
      end
  | ReaderStep j =>
      match readers s !! j with
      | Some pc =>
          let! pc' := read_step (lock s) pc in
          Ret (mkSys (lock s) (writers s) (<[j := pc']> (readers s)) (writing s), reader_event pc pc')
      | None => Ret (s, [])
      end
  end.

Fixpoint sys_run (s : sys) (ms : list move) : outcome (sys * list register_event) :=
  match ms with
  | [] => Ret (s, [])
  | m :: ms => let! r := sys_step s m in let! r' := sys_run r.1 ms in Ret (r'.1, r.2 ++ r'.2)
  end.

(** Writers take turns, and assign words of the value. *)
Definition exclusive (width : nat) (s : sys) (m : move) : bool :=
  match m with
  | BeginWrite _ (WriteStart stores) => forallb (fun st => (st.1 <? width)%nat) stores
  | WriterStep i => match writers s !! i with Some (WriteStart _) => bool_decide (writing s = None) | _ => true end
  | _ => true
  end.

Fixpoint exclusive_run (width : nat) (s : sys) (ms : list move) : bool :=
  match ms with
  | [] => true
  | m :: ms => exclusive width s m && match sys_step s m with Ret r => exclusive_run width r.1 ms | Panic => true end
  end.

(** A register: a read returns what was written last. *)
Fixpoint register (v : list Z) (es : list register_event) (v' : list Z) : Prop :=
  match es with
  | [] => v = v'
  | Wrote w :: es => register w es v'
  | Returned w :: es => w = v /\ register v es v'
  end.

Lemma register_app (v v1 v' : list Z) (es es' : list register_event) :
  register v es v1 -> register v1 es' v' -> register v (es ++ es') v'.
Proof.
  revert v. induction es as [|[w|w] es IH]; intros v; cbn [register app]; [by intros -> | eauto |]. intros [-> H] H'. split; [done|eauto].
Qed.

Definition writer_ok (width : nat) (s : sys) (i : nat) (pc : write_pc) : Prop :=
  match pc with
  | WriteStart stores => Forall (fun st => st.1 < width)%nat stores
  | WriteCopy stores => Forall (fun st => st.1 < width)%nat stores /\ writing s = Some i
  | WriteDone => True
  end.

Definition reader_ok (l : Seqlock) (pc : read_pc) : Prop :=
  match pc with
  | ReadCopy seq1 copied =>
      Z.even seq1 = true /\ seq1 <= sequence l /\ (length copied <= length (data l))%nat /\
      (seq1 = sequence l -> copied = take (length copied) (data l))
  | _ => True
  end.

(** [v] was written last; [n] steps were taken. *)
Record seq_inv (width : nat) (s : sys) (v : list Z) (n : nat) : Prop := {
  sq_width : length (data (lock s)) = width;
  sq_range : 0 <= sequence (lock s) <= Z.of_nat n;
  sq_parity : Z.even (sequence (lock s)) = bool_decide (writing s = None);
  sq_value : writing s = None -> data (lock s) = v;
  sq_writers : forall i pc, writers s !! i = Some pc -> writer_ok width s i pc;
  sq_readers : forall j pc, readers s !! j = Some pc -> reader_ok (lock s) pc }.

Lemma land1_even (z : Z) : (Z.land z 1 =? 0) = Z.even z.
Proof.
  change 1 with (Z.ones 1). rewrite Z.land_ones by done. change (2 ^ 1) with 2. rewrite Zmod_even. by destruct (Z.even z).
Qed.

Lemma even_succ (z : Z) : Z.even (z + 1) = negb (Z.even z).
Proof. rewrite Z.add_1_r, Z.even_succ. symmetry. apply Z.negb_even. Qed.

(** Readers lose their copy when the sequence moves on. *)
Lemma readers_moved (s : sys) (l' : Seqlock) (j : nat) (pc : read_pc) :
  reader_ok (lock s) pc -> sequence (lock s) < sequence l' -> data l' = data (lock s) -> reader_ok l' pc.
Proof.
  intros H Hlt Hd. destruct pc as [|seq1 copied|]; cbn in *; try done. destruct H as (? & ? & ? & ?). rewrite Hd.
  split; [done|]. split; [lia|]. split; [done|]. lia.
Qed.

Definition moves_to (width : nat) (s : sys) (m : move) (v : list Z) (n : nat) : Prop :=
  exists s' es v', sys_step s m = Ret (s', es) /\ seq_inv width s' v' (S n) /\ register v es v'.

Lemma seq_writer_moves (width : nat) (s : sys) (i : nat) (v : list Z) (n : nat) :
  seq_inv width s v n -> Z.of_nat n < u64_max -> exclusive width s (WriterStep i) = true -> moves_to width s (WriterStep i) v n.
Proof.
  intros [Hw Hr Hp Hv Hws Hrs] Hn Hx. unfold exclusive in Hx. unfold moves_to, sys_step.
  destruct (writers s !! i) as [pc|] eqn:E; [|eexists _, [], v; split; [done|]; split; [by constructor; try done; lia|done]].
  pose proof (Hws _ _ E) as Hpc. destruct pc as [stores|[|[k w] stores]|]; cbn [write_step obind fst snd].
  - apply bool_decide_eq_true in Hx. rewrite bool_decide_eq_true_2 in Hp by done.
    eexists _, [], v. split; [done|]. split; [|done]. unfold u64_max in Hn.
    assert (Es : sequence (lock s) +w 1 = sequence (lock s) + 1) by (apply wrap64_small; unfold is_u64, u64_modulus; lia).
    constructor; cbn [lock writers readers writing sequence data next_writing]; rewrite ?Es; try done; try lia.
    + rewrite even_succ, Hp. done.
    + intros j pj. rewrite lookup_insert. case_decide; [intros [= <-]; subst; cbn; done|]. intros Hj. pose proof (Hws _ _ Hj) as Hok.
      destruct pj; cbn in *; try done. destruct Hok; congruence.
    + intros j pj Hj. eapply readers_moved; [done|eauto|cbn; lia|done].
  - destruct Hpc as [_ Hwr]. rewrite Hwr in Hp. rewrite bool_decide_eq_false_2 in Hp by done.
    eexists _, _, (data (lock s)). split; [done|]. split; [|done]. unfold u64_max in Hn.
    assert (Es : sequence (lock s) +w 1 = sequence (lock s) + 1) by (apply wrap64_small; unfold is_u64, u64_modulus; lia).
    constructor; cbn [lock writers readers writing sequence data next_writing]; rewrite ?Es; try done; try lia.
    + rewrite even_succ, Hp. done.
    + intros j pj. rewrite lookup_insert. case_decide as Ej; [by intros [= <-]|]. intros Hj. pose proof (Hws _ _ Hj) as Hok.
      destruct pj; cbn in *; try done. destruct Hok; congruence.
    + intros j pj Hj. eapply readers_moved; [done|eauto|cbn; lia|done].
  - destruct Hpc as [Hst Hwr]. apply Forall_cons in Hst as [Hk Hst]. cbn in Hk. rewrite index_set_insert by lia. cbn [obind fst snd].
    rewrite Hwr in Hp. rewrite bool_decide_eq_false_2 in Hp by done.
    eexists _, [], v. split; [done|]. split; [|done].
    constructor; cbn [lock writers readers writing sequence data next_writing]; try done; try lia.
    + by rewrite length_insert.
    + by rewrite Hwr.
    + congruence.
    + intros j pj. rewrite lookup_insert. case_decide as Ej; [intros [= <-]; subst; done|]. intros Hj. exact (Hws _ _ Hj).
    + intros j pj Hj. specialize (Hrs _ _ Hj). destruct pj as [|seq1 copied|]; cbn in *; try done. destruct Hrs as (He & ? & ? & ?).
      rewrite length_insert. split; [done|]. split; [done|]. split; [done|]. congruence.
  - eexists _, [], v. split; [done|]. split; [|done]. constructor; cbn [lock writers readers writing next_writing]; try done; try lia.
    intros j pj. rewrite lookup_insert. case_decide; [by intros [= <-]|exact (Hws j pj)].
Qed.

Lemma seq_reader_moves (width : nat) (s : sys) (j : nat) (v : list Z) (n : nat) :
  seq_inv width s v n -> moves_to width s (ReaderStep j) v n.
Proof.
  intros [Hw Hr Hp Hv Hws Hrs]. unfold moves_to, sys_step.
  destruct (readers s !! j) as [pc|] eqn:E; [|eexists _, [], v; split; [done|]; split; [by constructor; try done; lia|done]].
  assert (Hset : forall pc', reader_ok (lock s) pc' -> seq_inv width (mkSys (lock s) (writers s) (<[j := pc']> (readers s)) (writing s)) v (S n)).
  { intros pc' Hok. constructor; cbn [lock writers readers writing]; try done; try lia. intros k pk. rewrite lookup_insert. case_decide; [by intros [= <-]|eauto]. }
  pose proof (Hrs _ _ E) as Hpc. destruct pc as [|seq1 copied|w]; cbn [read_step].
  - rewrite land1_even. destruct (Z.even (sequence (lock s))) eqn:Ev; cbn; eexists _, [], v; (split; [done|]); (split; [|done]); apply Hset; [|done].
    cbn. rewrite take_0. split; [done|]. split; [lia|]. split; [lia|done].
  - destruct Hpc as (He & Hle & Hlc & Hc). destruct (Nat.ltb_spec (length copied) (length (data (lock s)))) as [Hlt|Hge].
    + destruct (lookup_lt_is_Some_2 _ _ Hlt) as [w Hword]. rewrite (index_lookup _ _ _ Hword). cbn. eexists _, [], v. split; [done|]. split; [|done].
      apply Hset. cbn. rewrite length_app. cbn. split; [done|]. split; [done|]. split; [lia|]. intros Es. rewrite Nat.add_1_r, (take_S_r _ _ w) by done.
      by rewrite <- Hc.
    + destruct (Z.eqb_spec seq1 (sequence (lock s))) as [Es|Es]; cbn.
      * eexists _, _, v. split; [done|]. split; [by apply Hset|]. split; [|done]. rewrite Es in He. rewrite He in Hp. symmetry in Hp. apply bool_decide_eq_true in Hp.
        rewrite <- (Hv Hp), (Hc Es). apply take_ge. lia.
      * eexists _, [], v. split; [done|]. split; [by apply Hset|done].
  - eexists _, [], v. cbn. split; [done|]. split; [by apply Hset|done].
Qed.

Lemma seq_step_ok (width : nat) (s : sys) (m : move) (v : list Z) (n : nat) :
  seq_inv width s v n -> Z.of_nat n < u64_max -> exclusive width s m = true -> moves_to width s m v n.
Proof.
  intros Hi Hn Hx. destruct m as [i w|i|j|j]; [| by apply seq_writer_moves | | by apply seq_reader_moves].
  - pose proof Hi as [Hw Hr Hp Hv Hws Hrs]. unfold moves_to, sys_step.
    assert (Hsame : seq_inv width s v (S n)) by (constructor; try done; lia).
    assert (Hnew : seq_inv width (mkSys (lock s) (if begins w then <[i := w]> (writers s) else writers s) (readers s) (writing s)) v (S n)).
    { constructor; cbn [lock writers readers writing]; try done; try lia. destruct w as [stores| |]; cbn [begins]; try exact Hws.
      intros k pk. rewrite lookup_insert. case_decide; [intros [= <-] | exact (Hws k pk)]. cbn in Hx |- *.
      apply Forall_forall. intros st Hst%list_elem_of_In. rewrite forallb_forall in Hx. specialize (Hx _ Hst). by apply Nat.ltb_lt in Hx. }
    destruct (writers s !! i) as [[]|]; eexists _, [], v; by split.
  - pose proof Hi as [Hw Hr Hp Hv Hws Hrs]. unfold moves_to, sys_step.
    assert (Hsame : seq_inv width s v (S n)) by (constructor; try done; lia).
    assert (Hnew : seq_inv width (mkSys (lock s) (writers s) (<[j := ReadLoop]> (readers s)) (writing s)) v (S n)).
    { constructor; cbn [lock writers readers writing]; try done; try lia. intros k pk. rewrite lookup_insert. case_decide; [by intros [= <-]|eauto]. }
    destruct (readers s !! j) as [[]|]; eexists _, [], v; by split.
Qed.

Lemma seq_run_ok (width : nat) (ms : list move) (s : sys) (v : list Z) (n : nat) :
  seq_inv width s v n -> Z.of_nat n + Z.of_nat (length ms) <= u64_max -> exclusive_run width s ms = true ->
  exists s' es v', sys_run s ms = Ret (s', es) /\ register v es v'.
Proof.
  revert s v n. induction ms as [|m ms IH]; intros s v n Hi Hn Hx; [by exists s, [], v|]. cbn [exclusive_run length] in *.
  apply andb_true_iff in Hx as [Hx1 Hx2]. destruct (seq_step_ok width s m v n Hi ltac:(lia) Hx1) as (s1 & es1 & v1 & E1 & H1 & R1).
  rewrite E1 in Hx2. destruct (IH s1 v1 (S n) H1 ltac:(lia) Hx2) as (s2 & es2 & v2 & E2 & R2). exists s2, (es1 ++ es2), v2.
  cbn [sys_run]. rewrite E1. cbn. rewrite E2. cbn. split; [done|]. by eapply register_app.
Qed.

Definition sys_new (value : list Z) : sys := mkSys (seqlock_new value) ∅ ∅ None.

(** as long as writers take turns, in any interleaving with any number of
    readers the lock is a register: a read that returns gives the whole value
    that was written last, never a mixture of two (for runs in which the sequence
    does not wrap around). *)
Theorem seqlock_is_register (value : list Z) (ms : list move) :
  Z.of_nat (length ms) <= u64_max -> exclusive_run (length value) (sys_new value) ms = true ->
  exists s es v, sys_run (sys_new value) ms = Ret (s, es) /\ register value es v.
Proof. intros Hn Hx. apply (seq_run_ok (length value) ms _ value 0); [|lia|done]. constructor; cbn; try done; lia. Qed.

Definition alone_write (i : nat) (v : list Z) : list move := BeginWrite i (write v) :: replicate 4 (WriterStep i).

Lemma seqlock_is_register_witness :
  let ms := alone_write 0 [1; 1] ++ BeginRead 0 :: replicate 4 (ReaderStep 0) in
  exclusive_run 2 (sys_new [0; 0]) ms = true /\ exists s es v, sys_run (sys_new [0; 0]) ms = Ret (s, es) /\ register [0; 0] es v.
Proof. split; [by vm_compute|]. apply seqlock_is_register; [by vm_compute | by vm_compute]. Defined.

(** Nothing in [write] makes writers take turns.  Two of them together leave the
    sequence even half way through, and a reader returns half of a value. *)
Lemma seqlock_two_writers_torn :
  exists s, sys_run (sys_new [0; 0])
      ([BeginWrite 0 (write [1; 1]); BeginWrite 1 (write [2; 2]); WriterStep 0; WriterStep 1; WriterStep 0; BeginRead 0] ++ replicate 4 (ReaderStep 0))
    = Ret (s, [Returned [1; 0]]).
Proof. eexists. by vm_compute. Qed.

End SeqLockSpec.
