(* ===== verification/MpmcTheorems.v ===== *)
(** * The ring for many producers and consumers

    Every slot is, at any time, in the hands of at most one core; positions are
    handed out in order; what is read at a position is what was pushed there. *)

From stdpp Require Import base list gmap sets.
From Stdlib Require Import ZArith Lia.
From S2P Require Import Prelude LockFree LockFreeTheorems.

Local Open Scope Z_scope.

Import Mpmc.

Section spec.
Context {T : Type} (N : Z) (HN : 2 <= N < u64_modulus).

(** Beside the ring and the program points (with [true] for [try_push] and
    [try_pop]), the system keeps the values pushed, by position. *)
Record sys := mkSys {
  ring : MpmcRingBuffer T;
  producers : gmap nat (bool * push_pc T);
  consumers : gmap nat (bool * pop_pc T);
  pushed : list T }.

Inductive move :=
| Send (i : nat) (try : bool) (v : T)
| ProducerStep (i : nat) (weak : bool)
| Recv (j : nat) (try : bool)
| ConsumerStep (j : nat) (weak : bool).

(** A call takes effect when its exchange succeeds or when it finds the ring
    empty; [Took p v] is the read of position [p]. *)
Inductive event := At (e : queue_event T) | Took (p : Z) (v : T).

Definition push_event (pc pc' : push_pc T) : list event :=
  match pc, pc' with PushReady _ _ _, PushReserved v _ => [At (Pushed v)] | _, _ => [] end.

Definition push_value (pc pc' : push_pc T) : list T :=
  match pc, pc' with PushReady _ _ _, PushReserved v _ => [v] | _, _ => [] end.

Definition pop_event (s : sys) (pc pc' : pop_pc T) : list event :=
  match pc, pc' with
  | PopReady _ t, PopReserved _ => match pushed s !! Z.to_nat t with Some v => [At (Popped v)] | None => [] end
  | PopTail _ _, PopDone None => [At Empty]
  | PopReserved t, PopRead v _ => [Took t v]
  | _, _ => []
  end.

Definition sys_step (s : sys) (m : move) : outcome (sys * list event) :=
  match m with
  | Send i try v =>
      match producers s !! i with
      | Some (_, PushDone _) | None => Ret (mkSys (ring s) (<[i := (try, PushLoop v Backoff.backoff_new)]> (producers s)) (consumers s) (pushed s), [])
      | _ => Ret (s, [])
      end
  | ProducerStep i weak =>
      match producers s !! i with
      | Some (try, pc) =>
          let! rp := (if (try : bool) then try_push_step N (ring s) pc else push_step N weak (ring s) pc) in
          Ret (mkSys rp.1 (<[i := (try, rp.2)]> (producers s)) (consumers s) (pushed s ++ push_value pc rp.2), push_event pc rp.2)
      | None => Ret (s, [])
      end
  | Recv j try =>
      match consumers s !! j with
      | Some (_, PopDone _) | None => Ret (mkSys (ring s) (producers s) (<[j := (try, PopLoop Backoff.backoff_new)]> (consumers s)) (pushed s), [])
      | _ => Ret (s, [])
      end
  | ConsumerStep j weak =>
      match consumers s !! j with
      | Some (try, pc) =>
          let! rp := (if (try : bool) then try_pop_step N (ring s) pc else pop_step N weak (ring s) pc) in
          Ret (mkSys rp.1 (producers s) (<[j := (try, rp.2)]> (consumers s)) (pushed s), pop_event s pc rp.2)
      | None => Ret (s, [])
      end
  end.

Fixpoint sys_run (s : sys) (ms : list move) : outcome (sys * list event) :=
  match ms with
  | [] => Ret (s, [])
  | m :: ms => let! r := sys_step s m in let! r' := sys_run r.1 ms in Ret (r'.1, r.2 ++ r'.2)
  end.

(** The two readings of a trace. *)
Definition ats (es : list event) : list (queue_event T) := omap (fun e => match e with At q => Some q | Took _ _ => None end) es.
Definition takes (es : list event) : list (Z * T) := omap (fun e => match e with Took p v => Some (p, v) | At _ => None end) es.

(** *** The invariant *)

(** The slot of a position from [t] to [t + N]: written or being written below
    the head, free or still being read above it. *)
Definition slot_ok (hist : list T) (p : nat) (s : MpmcSlot T) : Prop :=
  if decide (p < length hist)%nat then sequence s = Z.of_nat p \/ (sequence s = Z.of_nat p + 1 /\ data s = hist !! p)
  else sequence s = Z.of_nat p \/ sequence s = Z.of_nat p - N + 1.

Definition at_slot (r : MpmcRingBuffer T) (p : nat) (Q : MpmcSlot T -> Prop) : Prop := exists s, slots r !! cell N p = Some s /\ Q s.

(** The position a core has to itself. *)
Definition push_owns (pc : push_pc T) (p : nat) : Prop :=
  match pc with PushReserved _ h | PushWritten h => h = Z.of_nat p | _ => False end.

Definition pop_owns (pc : pop_pc T) (p : nat) : Prop :=
  match pc with PopReserved h | PopRead _ h => h = Z.of_nat p | _ => False end.

Definition producer_ok (r : MpmcRingBuffer T) (hist : list T) (t : nat) (pc : push_pc T) : Prop :=
  match pc with
  | PushLoop _ _ | PushDone _ => True
  | PushHead _ _ h => exists p, h = Z.of_nat p /\ (p <= length hist)%nat
  | PushRoom _ _ h => exists p, h = Z.of_nat p /\ (p <= length hist)%nat /\ Z.of_nat p < Z.of_nat t + N
  | PushReady _ _ h => exists p, h = Z.of_nat p /\ (p <= length hist)%nat /\ Z.of_nat p < Z.of_nat t + N /\
      (p = length hist -> at_slot r p (fun s => sequence s = Z.of_nat p))
  | PushReserved v h => exists p, h = Z.of_nat p /\ (t <= p < length hist)%nat /\ hist !! p = Some v /\ at_slot r p (fun s => sequence s = Z.of_nat p)
  | PushWritten h => exists p, h = Z.of_nat p /\ (t <= p < length hist)%nat /\
      at_slot r p (fun s => sequence s = Z.of_nat p /\ data s = hist !! p)
  end.

Definition consumer_ok (r : MpmcRingBuffer T) (hist : list T) (t : nat) (pc : pop_pc T) : Prop :=
  match pc with
  | PopLoop _ | PopDone _ => True
  | PopTail _ x => exists p, x = Z.of_nat p /\ (p <= t)%nat
  | PopSome _ x | PopUnwritten _ x => exists p, x = Z.of_nat p /\ (p <= t)%nat /\ (p < length hist)%nat
  | PopReady _ x => exists p, x = Z.of_nat p /\ (p <= t)%nat /\ (p < length hist)%nat /\
      (p = t -> at_slot r p (fun s => sequence s = Z.of_nat p + 1))
  | PopReserved x => exists p, x = Z.of_nat p /\ (p < t)%nat /\ Z.of_nat (length hist) <= Z.of_nat p + N /\
      at_slot r p (fun s => sequence s = Z.of_nat p + 1 /\ data s = hist !! p)
  | PopRead v x => exists p, x = Z.of_nat p /\ (p < t)%nat /\ Z.of_nat (length hist) <= Z.of_nat p + N /\ hist !! p = Some v /\
      at_slot r p (fun s => sequence s = Z.of_nat p + 1)
  end.

(** [es] happened, in [n] steps. *)
Record mpmc_inv (s : sys) (t : nat) (es : list event) (n : nat) : Prop := {
  mm_head : head (ring s) = Z.of_nat (length (pushed s));
  mm_tail : tail (ring s) = Z.of_nat t;
  mm_le : (t <= length (pushed s))%nat;
  mm_room : Z.of_nat (length (pushed s)) <= Z.of_nat t + N;
  mm_bound : (length (pushed s) <= n)%nat;
  mm_len : length (slots (ring s)) = Z.to_nat N;
  mm_slots : forall p, (t <= p)%nat -> Z.of_nat p < Z.of_nat t + N -> at_slot (ring s) p (slot_ok (pushed s) p);
  mm_producers : forall i try pc, producers s !! i = Some (try, pc) -> producer_ok (ring s) (pushed s) t pc;
  mm_consumers : forall j try pc, consumers s !! j = Some (try, pc) -> consumer_ok (ring s) (pushed s) t pc;
  mm_one_producer : forall i i' a b p pc pc', producers s !! i = Some (a, pc) -> producers s !! i' = Some (b, pc') -> push_owns pc p -> push_owns pc' p -> i = i';
  mm_one_consumer : forall j j' a b p pc pc', consumers s !! j = Some (a, pc) -> consumers s !! j' = Some (b, pc') -> pop_owns pc p -> pop_owns pc' p -> j = j';
  mm_history : legal N [] (ats es) (drop t (pushed s));
  mm_takes : forall p v, (p, v) ∈ takes es -> exists k, p = Z.of_nat k /\ (k < t)%nat /\ pushed s !! k = Some v;
  mm_once : NoDup (takes es).*1;
  mm_all : forall p, (p < t)%nat -> Z.of_nat p ∈ (takes es).*1 \/ exists j try, consumers s !! j = Some (try, PopReserved (Z.of_nat p));
  mm_pending : forall j try p, consumers s !! j = Some (try, PopReserved p) -> p ∉ (takes es).*1 }.

(** Different positions in use have different slots. *)
Lemma in_use_apart (p q : nat) : Z.abs (Z.of_nat p - Z.of_nat q) < N -> p <> q -> cell N p <> cell N q.
Proof. intros Hd Hne E. apply Hne. apply (cell_near N HN p q E). lia. Qed.

Lemma at_slot_ext (r r' : MpmcRingBuffer T) (p : nat) (Q : MpmcSlot T -> Prop) :
  slots r' !! cell N p = slots r !! cell N p -> at_slot r p Q -> at_slot r' p Q.
Proof. intros E (s & Hs & HQ). exists s. split; [by rewrite E|done]. Qed.

Lemma at_slot_impl (r : MpmcRingBuffer T) (p : nat) (Q Q' : MpmcSlot T -> Prop) : (forall s, Q s -> Q' s) -> at_slot r p Q -> at_slot r p Q'.
Proof. intros H (s & Hs & HQ). exists s. eauto. Qed.

Lemma slot_at_eq (r : MpmcRingBuffer T) (p : nat) (s : MpmcSlot T) : slots r !! cell N p = Some s -> slot_at N r (Z.of_nat p) = Ret s.
Proof. intros H. unfold slot_at. by apply index_lookup. Qed.

Lemma set_slot_eq (r : MpmcRingBuffer T) (p : nat) (s : MpmcSlot T) :
  length (slots r) = Z.to_nat N -> set_slot N r (Z.of_nat p) s = Ret (mkMpmc (head r) (tail r) (<[cell N p := s]> (slots r))).
Proof. intros H. unfold set_slot. fold (pos N p) (cell N p). rewrite index_set_insert by (rewrite H; by apply cell_lt). done. Qed.

(** *** What a core may change *)

Lemma push_owned (s : sys) (t : nat) (es : list event) (n i : nat) (a : bool) (pc : push_pc T) (p : nat) :
  mpmc_inv s t es n -> producers s !! i = Some (a, pc) -> push_owns pc p ->
  (t <= p < length (pushed s))%nat /\ at_slot (ring s) p (fun sl => sequence sl = Z.of_nat p).
Proof.
  intros Hi Hpi Ho. pose proof (mm_producers _ _ _ _ Hi _ _ _ Hpi) as Hok. destruct pc; cbn in Ho; try done; subst.
  - destruct Hok as (p' & <-%Nat2Z.inj & ? & ? & ?). done.
  - destruct Hok as (p' & <-%Nat2Z.inj & ? & Hs). split; [done|]. eapply at_slot_impl; [|done]. by intros ? [].
Qed.

Lemma pop_owned (s : sys) (t : nat) (es : list event) (n j : nat) (a : bool) (pc : pop_pc T) (p : nat) :
  mpmc_inv s t es n -> consumers s !! j = Some (a, pc) -> pop_owns pc p ->
  (p < t)%nat /\ Z.of_nat (length (pushed s)) <= Z.of_nat p + N /\ at_slot (ring s) p (fun sl => sequence sl = Z.of_nat p + 1).
Proof.
  intros Hi Hpi Ho. pose proof (mm_consumers _ _ _ _ Hi _ _ _ Hpi) as Hok. destruct pc; cbn in Ho; try done; subst.
  - destruct Hok as (p' & <-%Nat2Z.inj & ? & ? & Hs). split; [done|]. split; [done|]. eapply at_slot_impl; [|done]. by intros ? [].
  - destruct Hok as (p' & <-%Nat2Z.inj & ? & ? & ? & ?). done.
Qed.

(** Two facts on one slot. *)
Lemma same_slot (r : MpmcRingBuffer T) (p q : nat) (x y : Z) :
  at_slot r p (fun sl => sequence sl = x) -> at_slot r q (fun sl => sequence sl = y) -> cell N p = cell N q -> x = y.
Proof. intros (s1 & H1 & <-) (s2 & H2 & <-) E. rewrite E in H1. congruence. Qed.

(** The slot of position [p] changes and nothing else does. *)
Definition only_slot (r r' : MpmcRingBuffer T) (p : nat) : Prop := forall c, c <> cell N p -> slots r' !! c = slots r !! c.

Lemma at_slot_other (r r' : MpmcRingBuffer T) (p q : nat) (Q : MpmcSlot T -> Prop) :
  only_slot r r' p -> cell N q <> cell N p -> at_slot r q Q -> at_slot r' q Q.
Proof. intros H Hne. apply at_slot_ext. by apply H. Qed.

Section Frames.
Context (s : sys) (t : nat) (es : list event) (n : nat) (Hi : mpmc_inv s t es n) (p : nat) (r' : MpmcRingBuffer T).
Context (Honly : only_slot (ring s) r' p).

(** ... by the producer that owns it. *)
Lemma producer_frame (i : nat) (a : bool) (pc0 : push_pc T) :
  producers s !! i = Some (a, pc0) -> push_owns pc0 p ->
  (forall i' b pc, i' <> i -> producers s !! i' = Some (b, pc) -> producer_ok r' (pushed s) t pc) /\
  (forall j b pc, consumers s !! j = Some (b, pc) -> consumer_ok r' (pushed s) t pc) /\
  (forall q, (t <= q)%nat -> Z.of_nat q < Z.of_nat t + N -> q <> p -> at_slot r' q (slot_ok (pushed s) q)).
Proof.
  intros Hpi Ho. destruct (push_owned _ _ _ _ _ _ _ _ Hi Hpi Ho) as [Hr Hsl].
  pose proof (mm_le _ _ _ _ Hi) as Hle. pose proof (mm_room _ _ _ _ Hi) as Hroom.
  assert (Hother : forall q (Q : MpmcSlot T -> Prop), Z.abs (Z.of_nat q - Z.of_nat p) < N -> q <> p -> at_slot (ring s) q Q -> at_slot r' q Q).
  { intros q Q Hd Hne. apply at_slot_other with (p := p); [done|]. by apply in_use_apart. }
  split; [|split].
  - intros i' b pc Hne Hi'. pose proof (mm_producers _ _ _ _ Hi _ _ _ Hi') as Hok. destruct pc as [| | |? ? h|? h|h|]; cbn [producer_ok] in *; try done.
    + destruct Hok as (q & ? & ? & ? & Hq). exists q. split; [done|]. split; [done|]. split; [done|]. intros Eq. apply Hother; [lia|lia|auto].
    + destruct Hok as (q & -> & ? & ? & Hq). exists q. split; [done|]. split; [done|]. split; [done|]. apply Hother; [lia| |done].
      intros ->. apply Hne. by eapply (mm_one_producer _ _ _ _ Hi i' i).
    + destruct Hok as (q & -> & ? & Hq). exists q. split; [done|]. split; [done|]. apply Hother; [lia| |done].
      intros ->. apply Hne. by eapply (mm_one_producer _ _ _ _ Hi i' i).
  - intros j b pc Hj. pose proof (mm_consumers _ _ _ _ Hi _ _ _ Hj) as Hok. destruct pc as [| | | |? x|x|? x|]; cbn [consumer_ok] in *; try done.
    + destruct Hok as (q & ? & ? & ? & Hq). exists q. split; [done|]. split; [done|]. split; [done|]. intros Eq. specialize (Hq Eq).
      apply Hother; [lia| |done]. intros ->. pose proof (same_slot _ _ _ _ _ Hsl Hq eq_refl). lia.
    + destruct Hok as (q & -> & ? & ? & Hq). exists q. split; [done|]. split; [done|]. split; [done|]. apply Hother; [lia|lia|done].
    + destruct Hok as (q & -> & ? & ? & ? & Hq). exists q. split; [done|]. split; [done|]. split; [done|]. split; [done|]. apply Hother; [lia|lia|done].
  - intros q Hq1 Hq2 Hne. apply Hother; [lia|done|]. by apply (mm_slots _ _ _ _ Hi).
Qed.

(** ... by the consumer that owns it. *)
Lemma consumer_frame (j : nat) (a : bool) (pc0 : pop_pc T) :
  consumers s !! j = Some (a, pc0) -> pop_owns pc0 p ->
  (forall i b pc, producers s !! i = Some (b, pc) -> producer_ok r' (pushed s) t pc) /\
  (forall j' b pc, j' <> j -> consumers s !! j' = Some (b, pc) -> consumer_ok r' (pushed s) t pc) /\
  (forall q, (t <= q)%nat -> Z.of_nat q < Z.of_nat t + N -> Z.of_nat q <> Z.of_nat p + N -> at_slot r' q (slot_ok (pushed s) q)).
Proof.
  intros Hpj Ho. destruct (pop_owned _ _ _ _ _ _ _ _ Hi Hpj Ho) as (Hr & Hrm & Hsl).
  pose proof (mm_le _ _ _ _ Hi) as Hle. pose proof (mm_room _ _ _ _ Hi) as Hroom.
  assert (Hother : forall q (Q : MpmcSlot T -> Prop), Z.abs (Z.of_nat q - Z.of_nat p) < N -> q <> p -> at_slot (ring s) q Q -> at_slot r' q Q).
  { intros q Q Hd Hne. apply at_slot_other with (p := p); [done|]. by apply in_use_apart. }
  assert (Hlap : forall q x, Z.of_nat q = Z.of_nat p + N -> at_slot (ring s) q (fun sl => sequence sl = x) -> x = Z.of_nat p + 1).
  { intros q x Eq Hx. symmetry. apply (same_slot (ring s) p q); [done|done|]. replace q with (p + Z.to_nat N)%nat by lia. by rewrite cell_lap. }
  split; [|split].
  - intros i b pc Hi'. pose proof (mm_producers _ _ _ _ Hi _ _ _ Hi') as Hok. destruct pc as [| | |? ? h|? h|h|]; cbn [producer_ok] in *; try done.
    + destruct Hok as (q & ? & ? & ? & Hq). exists q. split; [done|]. split; [done|]. split; [done|]. intros Eq. specialize (Hq Eq).
      destruct (decide (Z.of_nat q = Z.of_nat p + N)) as [El|]; [specialize (Hlap q _ El Hq); lia|]. apply Hother; [lia|lia|done].
    + destruct Hok as (q & -> & ? & ? & Hq). exists q. split; [done|]. split; [done|]. split; [done|]. apply Hother; [lia|lia|done].
    + destruct Hok as (q & -> & ? & Hq). exists q. split; [done|]. split; [done|]. apply Hother; [lia|lia|done].
  - intros j' b pc Hne Hj. pose proof (mm_consumers _ _ _ _ Hi _ _ _ Hj) as Hok. destruct pc as [| | | |? x|x|? x|]; cbn [consumer_ok] in *; try done.
    + destruct Hok as (q & ? & ? & ? & Hq). exists q. split; [done|]. split; [done|]. split; [done|]. intros Eq. specialize (Hq Eq).
      apply Hother; [|lia|done]. lia.
    + destruct Hok as (q & -> & ? & ? & Hq). exists q. split; [done|]. split; [done|]. split; [done|]. apply Hother; [lia| |done].
      intros ->. apply Hne. by eapply (mm_one_consumer _ _ _ _ Hi j' j).
    + destruct Hok as (q & -> & ? & ? & ? & Hq). exists q. split; [done|]. split; [done|]. split; [done|]. split; [done|]. apply Hother; [lia| |done].
      intros ->. apply Hne. by eapply (mm_one_consumer _ _ _ _ Hi j' j).
  - intros q Hq1 Hq2 Hne. pose proof (mm_slots _ _ _ _ Hi q Hq1 Hq2) as Hq. destruct (decide (Z.of_nat q < Z.of_nat p + N)); [apply Hother; [lia|lia|done]|].
    apply (at_slot_other _ _ p q _ Honly); [|done]. replace q with ((q - Z.to_nat N) + Z.to_nat N)%nat by lia. rewrite cell_lap by done.
    apply in_use_apart; lia.
Qed.

End Frames.

(** *** Steps *)

(** A producer moves on, keeping the position it has or giving it up. *)
Lemma change_producer (s : sys) (t : nat) (es : list event) (n i : nat) (a : bool) (pc : push_pc T) (r' : MpmcRingBuffer T) :
  mpmc_inv s t es n -> head r' = head (ring s) -> tail r' = tail (ring s) -> length (slots r') = Z.to_nat N ->
  (forall q, (t <= q)%nat -> Z.of_nat q < Z.of_nat t + N -> at_slot r' q (slot_ok (pushed s) q)) ->
  (forall i' b pc', i' <> i -> producers s !! i' = Some (b, pc') -> producer_ok r' (pushed s) t pc') ->
  (forall j b pc', consumers s !! j = Some (b, pc') -> consumer_ok r' (pushed s) t pc') ->
  producer_ok r' (pushed s) t pc -> (forall p, push_owns pc p -> exists b old, producers s !! i = Some (b, old) /\ push_owns old p) ->
  mpmc_inv (mkSys r' (<[i := (a, pc)]> (producers s)) (consumers s) (pushed s)) t es (S n).
Proof.
  intros [] Eh Et El Hsl Hps Hcs Hpc Ho. constructor; cbn [ring producers consumers pushed]; try done; try congruence; try lia.
  - intros i' b pc'. rewrite lookup_insert. case_decide; [by intros [= <- <-]|]. by apply Hps.
  - assert (Hb : forall j b pj p, <[i := (a, pc)]> (producers s) !! j = Some (b, pj) -> push_owns pj p -> exists b' old, producers s !! j = Some (b', old) /\ push_owns old p).
    { intros j b pj p. rewrite lookup_insert. case_decide; [intros [= <- <-]; subst; apply Ho | eauto]. }
    intros i1 i2 a1 a2 p pc1 pc2 H1 H2 O1 O2. destruct (Hb _ _ _ _ H1 O1) as (? & ? & ? & ?). destruct (Hb _ _ _ _ H2 O2) as (? & ? & ? & ?). eauto.
Qed.

Lemma quiet_producer (s : sys) (t : nat) (es : list event) (n i : nat) (a : bool) (pc : push_pc T) :
  mpmc_inv s t es n -> producer_ok (ring s) (pushed s) t pc -> (forall p, ~ push_owns pc p) ->
  mpmc_inv (mkSys (ring s) (<[i := (a, pc)]> (producers s)) (consumers s) (pushed s)) t es (S n).
Proof.
  intros Hi Hpc Ho. apply change_producer; try done; [apply (mm_len _ _ _ _ Hi) | apply (mm_slots _ _ _ _ Hi) | | apply (mm_consumers _ _ _ _ Hi) | by intros p ?%Ho].
  intros i' b pc' _. apply (mm_producers _ _ _ _ Hi).
Qed.

(** A consumer moves on without reading. *)
Lemma change_consumer (s : sys) (t : nat) (es es' : list event) (n j : nat) (a : bool) (pc : pop_pc T) (r' : MpmcRingBuffer T) :
  mpmc_inv s t es n -> head r' = head (ring s) -> tail r' = tail (ring s) -> length (slots r') = Z.to_nat N ->
  (forall q, (t <= q)%nat -> Z.of_nat q < Z.of_nat t + N -> at_slot r' q (slot_ok (pushed s) q)) ->
  (forall i b pc', producers s !! i = Some (b, pc') -> producer_ok r' (pushed s) t pc') ->
  (forall j' b pc', j' <> j -> consumers s !! j' = Some (b, pc') -> consumer_ok r' (pushed s) t pc') ->
  consumer_ok r' (pushed s) t pc -> (forall p, ~ pop_owns pc p) -> (forall b p, consumers s !! j <> Some (b, PopReserved p)) ->
  takes es' = takes es -> legal N [] (ats es') (drop t (pushed s)) ->
  mpmc_inv (mkSys r' (producers s) (<[j := (a, pc)]> (consumers s)) (pushed s)) t es' (S n).
Proof.
  intros [] Eh Et El Hsl Hps Hcs Hpc Ho Hnr Etk Hl. constructor; cbn [ring producers consumers pushed]; rewrite ?Etk; try done; try congruence; try lia.
  - intros j' b pc'. rewrite lookup_insert. case_decide; [by intros [= <- <-]|]. by apply Hcs.
  - intros j1 j2 a1 a2 p pc1 pc2. rewrite !lookup_insert. repeat case_decide; subst; try done; try eauto.
    + intros [= <- <-] _ O1. by destruct (Ho p).
    + intros _ [= <- <-] _ O2. by destruct (Ho p).
  - intros p Hp. destruct (mm_all0 p Hp) as [|(j' & b & Hj)]; [by left|]. right. exists j', b. rewrite lookup_insert_ne; [done|]. intros ->. by apply (Hnr b (Z.of_nat p)).
  - intros j' b p. rewrite lookup_insert. case_decide; [|eauto]. intros [= <- ->]. destruct Hpc as (k & -> & _). by destruct (Ho k).
Qed.

Lemma quiet_consumer (s : sys) (t : nat) (es es' : list event) (n j : nat) (a : bool) (pc : pop_pc T) :
  mpmc_inv s t es n -> consumer_ok (ring s) (pushed s) t pc -> (forall p, ~ pop_owns pc p) -> (forall b p, consumers s !! j <> Some (b, PopReserved p)) ->
  takes es' = takes es -> legal N [] (ats es') (drop t (pushed s)) ->
  mpmc_inv (mkSys (ring s) (producers s) (<[j := (a, pc)]> (consumers s)) (pushed s)) t es' (S n).
Proof.
  intros Hi Hpc Ho Hnr Etk Hl. eapply change_consumer; try done; [apply (mm_len _ _ _ _ Hi) | apply (mm_slots _ _ _ _ Hi) | apply (mm_producers _ _ _ _ Hi) |].
  intros j' b pc' _. apply (mm_consumers _ _ _ _ Hi).
Qed.

Lemma ats_app (es es' : list event) : ats (es ++ es') = ats es ++ ats es'.
Proof. apply omap_app. Qed.

Lemma takes_app (es es' : list event) : takes (es ++ es') = takes es ++ takes es'.
Proof. apply omap_app. Qed.

(** A producer writes its slot, and then publishes it. *)
Lemma write_step_ok (s : sys) (t : nat) (es : list event) (n i : nat) (a : bool) (v : T) (p : nat) :
  mpmc_inv s t es n -> producers s !! i = Some (a, PushReserved v (Z.of_nat p)) ->
  exists r', write_data N (ring s) (Z.of_nat p) v = Ret r' /\
    mpmc_inv (mkSys r' (<[i := (a, PushWritten (Z.of_nat p))]> (producers s)) (consumers s) (pushed s)) t es (S n).
Proof.
  intros Hi Hpi. destruct (push_owned _ _ _ _ _ _ _ p Hi Hpi eq_refl) as [Hr (sl & Hsl & Hseq)]. cbn in Hseq.
  destruct (mm_producers _ _ _ _ Hi _ _ _ Hpi) as (p' & <-%Nat2Z.inj & _ & Hv & _). pose proof (mm_len _ _ _ _ Hi) as Hlen.
  eexists. split; [unfold write_data; rewrite (slot_at_eq _ _ _ Hsl); cbn; rewrite set_slot_eq by done; done|].
  set (r' := mkMpmc _ _ _). assert (Hon : only_slot (ring s) r' p) by (intros c Hc; cbn; by rewrite list_lookup_insert_ne).
  assert (Hnew : slots r' !! cell N p = Some (mkSlot (state sl) (sequence sl) (Some v))) by (cbn; apply list_lookup_insert_eq; rewrite Hlen; by apply cell_lt).
  destruct (producer_frame s t es n Hi p r' Hon i a _ Hpi eq_refl) as (Hps & Hcs & Hss).
  apply change_producer; try done; [cbn; by rewrite length_insert | | | by intros q Hq; eexists _, _].
  - intros q Hq1 Hq2. destruct (decide (q = p)) as [->|]; [|by apply Hss]. eexists. split; [done|]. unfold slot_ok. rewrite decide_True by lia. by left.
  - exists p. split; [done|]. split; [done|]. eexists. split; [done|]. by rewrite Hv.
Qed.

Lemma publish_step_ok (s : sys) (t : nat) (es : list event) (n i : nat) (a : bool) (p : nat) :
  mpmc_inv s t es n -> Z.of_nat n + N < u64_modulus -> producers s !! i = Some (a, PushWritten (Z.of_nat p)) ->
  exists r', store_sequence N (ring s) (Z.of_nat p) (Z.of_nat p +w 1) = Ret r' /\
    mpmc_inv (mkSys r' (<[i := (a, PushDone (Ok tt))]> (producers s)) (consumers s) (pushed s)) t es (S n).
Proof.
  intros Hi Hn Hpi. destruct (push_owned _ _ _ _ _ _ _ p Hi Hpi eq_refl) as [Hr _]. pose proof (mm_bound _ _ _ _ Hi) as Hbound.
  destruct (mm_producers _ _ _ _ Hi _ _ _ Hpi) as (p' & <-%Nat2Z.inj & _ & (sl & Hsl & Hseq & Hd)). pose proof (mm_len _ _ _ _ Hi) as Hlen.
  eexists. split; [unfold store_sequence; rewrite (slot_at_eq _ _ _ Hsl); cbn; rewrite set_slot_eq by done; done|].
  rewrite wrap64_small by (unfold is_u64; lia). set (r' := mkMpmc _ _ _). assert (Hon : only_slot (ring s) r' p) by (intros c Hc; cbn; by rewrite list_lookup_insert_ne).
  assert (Hnew : slots r' !! cell N p = Some (mkSlot (state sl) (Z.of_nat p + 1) (data sl))) by (cbn; apply list_lookup_insert_eq; rewrite Hlen; by apply cell_lt).
  destruct (producer_frame s t es n Hi p r' Hon i a _ Hpi eq_refl) as (Hps & Hcs & Hss).
  apply change_producer; try done; [cbn; by rewrite length_insert |].
  intros q Hq1 Hq2. destruct (decide (q = p)) as [->|]; [|by apply Hss]. eexists. split; [done|]. unfold slot_ok. rewrite decide_True by lia. by right.
Qed.

(** A producer gets the next position. *)
Lemma reserve_push_ok (s : sys) (t : nat) (es : list event) (n i : nat) (a : bool) (v : T) (bo : Backoff.Backoff) :
  mpmc_inv s t es n -> Z.of_nat n + N < u64_modulus -> producers s !! i = Some (a, PushReady v bo (Z.of_nat (length (pushed s)))) ->
  mpmc_inv (mkSys (mkMpmc (Z.of_nat (length (pushed s)) +w 1) (tail (ring s)) (slots (ring s)))
    (<[i := (a, PushReserved v (Z.of_nat (length (pushed s))))]> (producers s)) (consumers s) (pushed s ++ [v])) t (es ++ [At (Pushed v)]) (S n).
Proof.
  intros Hi Hn Hpi. destruct (mm_producers _ _ _ _ Hi _ _ _ Hpi) as (p & Ep%Nat2Z.inj & _ & Hroom & Hsl). subst p. specialize (Hsl eq_refl).
  pose proof Hi as [Eh Et Hle Hr Hb Hl Hss Hps Hcs H1p H1c Hh Htk Hnd Hall Hpd].
  assert (Hlen : length (pushed s ++ [v]) = S (length (pushed s))) by (rewrite length_app; cbn; lia).
  assert (Hlk : forall q w, pushed s !! q = Some w -> (pushed s ++ [v]) !! q = Some w) by (intros q w; apply lookup_app_l_Some).
  rewrite wrap64_small by (unfold is_u64; lia).
  constructor; cbn [ring producers consumers pushed head tail slots]; rewrite ?ats_app, ?takes_app, ?app_nil_r, ?Hlen; try done; try lia.
  - intros q Hq1 Hq2. destruct (Hss q Hq1 Hq2) as (sl & Hsq & Hok). unfold slot_ok in Hok |- *. rewrite Hlen. destruct (decide (q = length (pushed s))) as [->|].
    + destruct Hsl as (sl' & Hsl' & Hseq). assert (sl = sl') by congruence. subst. exists sl'. split; [done|]. rewrite decide_True by lia. by left.
    + exists sl. split; [done|]. destruct (decide (q < length (pushed s))%nat).
      * rewrite decide_True by lia. rewrite lookup_app_l by lia. done.
      * rewrite decide_False by lia. done.
  - intros i' b pc'. rewrite lookup_insert. case_decide.
    + intros [= <- <-]. exists (length (pushed s)). split; [done|]. split; [lia|]. split; [by apply list_lookup_middle|done].
    + intros Hi'. specialize (Hps _ _ _ Hi'). destruct pc'; cbn [producer_ok] in *; rewrite ?Hlen; try done.
      * destruct Hps as (q & ? & ?). exists q. split; [done|lia].
      * destruct Hps as (q & ? & ? & ?). exists q. split; [done|lia].
      * destruct Hps as (q & ? & ? & ? & ?). exists q. split; [done|]. split; [lia|]. split; [done|]. lia.
      * destruct Hps as (q & ? & ? & ? & ?). exists q. split; [done|]. split; [lia|]. split; [by apply Hlk|done].
      * destruct Hps as (q & ? & ? & ?). exists q. split; [done|]. split; [lia|]. rewrite lookup_app_l by lia. done.
  - intros j b pc' Hj. pose proof (pop_owned s t es n j b pc') as Hpo. specialize (Hcs _ _ _ Hj). destruct pc'; cbn [consumer_ok pop_owns] in *; rewrite ?Hlen; try done.
    + destruct Hcs as (q & ? & ? & ?). exists q. split; [done|]. lia.
    + destruct Hcs as (q & ? & ? & ?). exists q. split; [done|]. lia.
    + destruct Hcs as (q & ? & ? & ? & ?). exists q. split; [done|]. split; [done|]. split; [lia|done].
    + destruct Hcs as (q & -> & ? & ? & Hd). destruct (Hpo q Hi Hj eq_refl) as (_ & _ & Hq). exists q. split; [done|]. split; [done|]. split; [|rewrite lookup_app_l by lia; done].
      destruct (decide (Z.of_nat (length (pushed s)) = Z.of_nat q + N)) as [El|]; [|lia]. exfalso.
      assert (Z.of_nat q + 1 = Z.of_nat (length (pushed s))); [|lia]. apply (same_slot (ring s) q (length (pushed s))); [done|done|].
      replace (length (pushed s)) with (q + Z.to_nat N)%nat by lia. by rewrite cell_lap.
    + destruct Hcs as (q & -> & ? & ? & Hd & Hs). destruct (Hpo q Hi Hj eq_refl) as (_ & _ & Hq). exists q. split; [done|]. split; [done|]. split; [|split; [by apply Hlk|done]].
      destruct (decide (Z.of_nat (length (pushed s)) = Z.of_nat q + N)) as [El|]; [|lia]. exfalso.
      assert (Z.of_nat q + 1 = Z.of_nat (length (pushed s))); [|lia]. apply (same_slot (ring s) q (length (pushed s))); [done|done|].
      replace (length (pushed s)) with (q + Z.to_nat N)%nat by lia. by rewrite cell_lap.
  - intros i1 i2 a1 a2 q pc1 pc2. rewrite !lookup_insert. repeat case_decide; subst; try done; try (by eauto).
    + intros [= <- <-] H2 O1 O2. cbn in O1. apply Nat2Z.inj in O1. subst. destruct (push_owned _ _ _ _ _ _ _ _ Hi H2 O2). lia.
    + intros H1' [= <- <-] O1 O2. cbn in O2. apply Nat2Z.inj in O2. subst. destruct (push_owned _ _ _ _ _ _ _ _ Hi H1' O1). lia.
  - eapply legal_app; [done|]. rewrite drop_snoc by done. apply legal_one, q_push. rewrite length_drop. lia.
  - intros q w Hq. destruct (Htk q w Hq) as (k & -> & ? & ?). exists k. split; [done|]. split; [done|by apply Hlk].
Qed.

(** A consumer gets the next position. *)
Lemma reserve_pop_ok (s : sys) (t : nat) (es : list event) (n j : nat) (a : bool) (bo : Backoff.Backoff) :
  mpmc_inv s t es n -> Z.of_nat n + N < u64_modulus -> consumers s !! j = Some (a, PopReady bo (Z.of_nat t)) ->
  mpmc_inv (mkSys (mkMpmc (head (ring s)) (Z.of_nat t +w 1) (slots (ring s)))
    (producers s) (<[j := (a, PopReserved (Z.of_nat t))]> (consumers s)) (pushed s)) (S t)
    (es ++ pop_event s (PopReady bo (Z.of_nat t)) (PopReserved (Z.of_nat t))) (S n).
Proof.
  intros Hi Hn Hpj. destruct (mm_consumers _ _ _ _ Hi _ _ _ Hpj) as (p & Ep%Nat2Z.inj & _ & Hlt & Hsl). subst p. specialize (Hsl eq_refl).
  pose proof Hi as [Eh Et Hle Hr Hb Hl Hss Hps Hcs H1p H1c Hh Htk Hnd Hall Hpd].
  destruct (lookup_lt_is_Some_2 _ _ Hlt) as [v Hv]. cbn [pop_event]. rewrite Nat2Z.id, Hv. rewrite wrap64_small by (unfold is_u64; lia).
  assert (Hd : at_slot (ring s) t (fun sl => sequence sl = Z.of_nat t + 1 /\ data sl = pushed s !! t)).
  { destruct Hsl as (sl & Hsl & Hseq). exists sl. split; [done|]. split; [done|]. destruct (Hss t ltac:(lia) ltac:(lia)) as (sl' & Hsl' & Hok).
    assert (sl' = sl) by congruence. subst. unfold slot_ok in Hok. rewrite decide_True in Hok by done. destruct Hok as [|[]]; [lia|done]. }
  constructor; cbn [ring producers consumers pushed head tail slots]; rewrite ?ats_app, ?takes_app, ?app_nil_r; try done; try lia.
  - intros q Hq1 Hq2. destruct (decide (Z.of_nat q < Z.of_nat t + N)); [apply Hss; lia|]. destruct Hsl as (sl & Hsl & Hseq).
    exists sl. replace q with (t + Z.to_nat N)%nat by lia. cbn. rewrite cell_lap by done. split; [done|]. unfold slot_ok. rewrite decide_False by lia. right. lia.
  - intros i b pc' Hi'. pose proof (push_owned s t es n i b pc') as Hpo. specialize (Hps _ _ _ Hi').
    assert (Hne : forall q, push_owns pc' q -> (S t <= q)%nat).
    { intros q Ho. destruct (Hpo q Hi Hi' Ho) as [? Hq]. destruct (decide (q = t)) as [->|]; [|lia]. pose proof (same_slot _ _ _ _ _ Hsl Hq eq_refl). lia. }
    destruct pc'; cbn [producer_ok push_owns] in *; try done.
    + destruct Hps as (q & ? & ? & ?). exists q. split; [done|lia].
    + destruct Hps as (q & ? & ? & ? & ?). exists q. split; [done|]. split; [done|]. split; [lia|done].
    + destruct Hps as (q & -> & ? & ? & ?). exists q. split; [done|]. specialize (Hne q eq_refl). split; [lia|done].
    + destruct Hps as (q & -> & ? & ?). exists q. split; [done|]. specialize (Hne q eq_refl). split; [lia|done].
  - intros j' b pc'. rewrite lookup_insert. case_decide.
    + intros [= <- <-]. exists t. split; [done|]. split; [lia|]. split; [lia|done].
    + intros Hj. specialize (Hcs _ _ _ Hj). destruct pc'; cbn [consumer_ok] in *; try done.
      * destruct Hcs as (q & ? & ?). exists q. split; [done|lia].
      * destruct Hcs as (q & ? & ? & ?). exists q. split; [done|lia].
      * destruct Hcs as (q & ? & ? & ?). exists q. split; [done|lia].
      * destruct Hcs as (q & ? & ? & ? & ?). exists q. split; [done|]. split; [lia|]. split; [done|]. lia.
      * destruct Hcs as (q & ? & ? & ? & ?). exists q. split; [done|]. split; [lia|done].
      * destruct Hcs as (q & ? & ? & ? & ?). exists q. split; [done|]. split; [lia|done].
  - intros j1 j2 a1 a2 q pc1 pc2. rewrite !lookup_insert. repeat case_decide; subst; try done; try (by eauto).
    + intros [= <- <-] H2 O1 O2. cbn in O1. apply Nat2Z.inj in O1. subst. destruct (pop_owned _ _ _ _ _ _ _ _ Hi H2 O2). lia.
    + intros H1' [= <- <-] O1 O2. cbn in O2. apply Nat2Z.inj in O2. subst. destruct (pop_owned _ _ _ _ _ _ _ _ Hi H1' O1). lia.
  - eapply legal_app; [done|]. rewrite (drop_S _ _ _ Hv). apply legal_one, q_pop.
  - intros q w Hq. destruct (Htk q w Hq) as (k & -> & ? & ?). exists k. split; [done|]. split; [lia|done].
  - intros q Hq. destruct (decide (q = t)) as [->|]; [right; exists j, a; by rewrite lookup_insert_eq|].
    destruct (Hall q ltac:(lia)) as [|(j' & b & Hj)]; [by left|]. right. exists j', b. rewrite lookup_insert_ne; [done|]. intros ->. congruence.
  - intros j' b q. rewrite lookup_insert. case_decide; [|eauto]. intros [= <- <-]. intros ([q' w] & Eq & Hq)%list_elem_of_fmap. cbn in Eq. subst q'.
    destruct (Htk _ _ Hq) as (k & Ek%Nat2Z.inj & ? & _). lia.
Qed.

(** A consumer reads its slot, and then frees it. *)
Lemma take_step_ok (s : sys) (t : nat) (es : list event) (n j : nat) (a : bool) (p : nat) :
  mpmc_inv s t es n -> consumers s !! j = Some (a, PopReserved (Z.of_nat p)) ->
  exists v r', take_data N (ring s) (Z.of_nat p) = Ret (v, r') /\
    mpmc_inv (mkSys r' (producers s) (<[j := (a, PopRead v (Z.of_nat p))]> (consumers s)) (pushed s)) t (es ++ [Took (Z.of_nat p) v]) (S n).
Proof.
  intros Hi Hpj. destruct (pop_owned _ _ _ _ _ _ _ p Hi Hpj eq_refl) as (Hlt & Hrm & _).
  destruct (mm_consumers _ _ _ _ Hi _ _ _ Hpj) as (p' & <-%Nat2Z.inj & _ & _ & (sl & Hsl & Hseq & Hd)).
  destruct (lookup_lt_is_Some_2 (pushed s) p) as [v Hv]; [pose proof (mm_le _ _ _ _ Hi); lia|]. rewrite Hv in Hd.
  exists v. eexists. split; [unfold take_data; rewrite (slot_at_eq _ _ _ Hsl); cbn; rewrite Hd, set_slot_eq by apply (mm_len _ _ _ _ Hi); done|].
  set (r' := mkMpmc _ _ _). assert (Hon : only_slot (ring s) r' p) by (intros c Hc; cbn; by rewrite list_lookup_insert_ne).
  assert (Hnew : slots r' !! cell N p = Some (mkSlot (state sl) (sequence sl) None))
    by (cbn; apply list_lookup_insert_eq; rewrite (mm_len _ _ _ _ Hi); by apply cell_lt).
  destruct (consumer_frame s t es n Hi p r' Hon j a _ Hpj eq_refl) as (Hps' & Hcs' & Hss').
  pose proof Hi as [Eh Et Hle Hr Hb Hl Hss Hps Hcs H1p H1c Hh Htk Hnd Hall Hpd].
  constructor; cbn [ring producers consumers pushed]; rewrite ?ats_app, ?takes_app, ?app_nil_r; try done; try lia.
  - cbn. by rewrite length_insert.
  - intros q Hq1 Hq2. destruct (decide (Z.of_nat q = Z.of_nat p + N)); [|by apply Hss']. exists (mkSlot (state sl) (sequence sl) None).
    replace q with (p + Z.to_nat N)%nat by lia. rewrite cell_lap by done. split; [done|]. unfold slot_ok. rewrite decide_False by lia. right. cbn. lia.
  - intros j' b pc'. rewrite lookup_insert. case_decide; [|by intros Hj; eapply Hcs'].
    intros [= <- <-]. exists p. split; [done|]. split; [done|]. split; [done|]. split; [done|]. eexists. split; [done|]. done.
  - assert (Hback : forall j' b pc' q, <[j := (a, PopRead v (Z.of_nat p))]> (consumers s) !! j' = Some (b, pc') -> pop_owns pc' q ->
      exists b' old, consumers s !! j' = Some (b', old) /\ pop_owns old q).
    { intros j' b pc' q. rewrite lookup_insert. case_decide; [intros [= <- <-]; subst; eauto | eauto]. }
    intros j1 j2 a1 a2 q pc1 pc2 H1 H2 O1 O2. destruct (Hback _ _ _ _ H1 O1) as (? & ? & ? & ?). destruct (Hback _ _ _ _ H2 O2) as (? & ? & ? & ?). eauto.
  - intros q w [Hq|Hq]%elem_of_app; [by apply Htk|]. apply list_elem_of_singleton in Hq. injection Hq as -> ->. exists p. done.
  - rewrite fmap_app. apply NoDup_app. split; [done|]. split; [|apply NoDup_singleton]. intros q Hq Hq'%list_elem_of_singleton. subst q. by apply (Hpd _ _ _ Hpj).
  - intros q Hq. rewrite fmap_app, elem_of_app. destruct (Hall q Hq) as [|(j' & b & Hj)]; [by left; left|].
    destruct (decide (j' = j)) as [->|]; [|by right; exists j', b; rewrite lookup_insert_ne]. left; right.
    rewrite Hpj in Hj. injection Hj as <- Eq. cbn. rewrite Eq. apply list_elem_of_singleton. done.
  - intros j' b q. rewrite lookup_insert. case_decide as Ej; [done|]. intros Hj. rewrite fmap_app, elem_of_app. intros [Hq|Hq]; [by apply (Hpd _ _ _ Hj)|].
    apply list_elem_of_singleton in Hq. cbn in Hq. subst q. apply Ej. by eapply (H1c j j').
Qed.

Lemma free_step_ok (s : sys) (t : nat) (es : list event) (n j : nat) (a : bool) (v : T) (p : nat) :
  mpmc_inv s t es n -> Z.of_nat n + N < u64_modulus -> consumers s !! j = Some (a, PopRead v (Z.of_nat p)) ->
  exists r', store_sequence N (ring s) (Z.of_nat p) (Z.of_nat p +w N) = Ret r' /\
    mpmc_inv (mkSys r' (producers s) (<[j := (a, PopDone (Some v))]> (consumers s)) (pushed s)) t es (S n).
Proof.
  intros Hi Hn Hpj. destruct (pop_owned _ _ _ _ _ _ _ p Hi Hpj eq_refl) as (Hlt & Hrm & (sl & Hsl & Hseq)).
  pose proof (mm_le _ _ _ _ Hi) as Hle. pose proof (mm_bound _ _ _ _ Hi) as Hb.
  eexists. split; [unfold store_sequence; rewrite (slot_at_eq _ _ _ Hsl); cbn; rewrite set_slot_eq by apply (mm_len _ _ _ _ Hi); done|].
  rewrite wrap64_small by (unfold is_u64; lia). set (r' := mkMpmc _ _ _). assert (Hon : only_slot (ring s) r' p) by (intros c Hc; cbn; by rewrite list_lookup_insert_ne).
  assert (Hnew : slots r' !! cell N p = Some (mkSlot (state sl) (Z.of_nat p + N) (data sl)))
    by (cbn; apply list_lookup_insert_eq; rewrite (mm_len _ _ _ _ Hi); by apply cell_lt).
  destruct (consumer_frame s t es n Hi p r' Hon j a _ Hpj eq_refl) as (Hps & Hcs & Hss).
  eapply (change_consumer s t es es); try done; [cbn; rewrite length_insert; apply (mm_len _ _ _ _ Hi) | | by intros b [] | by intros b q; rewrite Hpj | apply (mm_history _ _ _ _ Hi)].
  intros q Hq1 Hq2. destruct (decide (Z.of_nat q = Z.of_nat p + N)); [|by apply Hss]. eexists. replace q with (p + Z.to_nat N)%nat by lia. rewrite cell_lap by done.
  split; [done|]. unfold slot_ok. rewrite decide_False by lia. left. cbn. lia.
Qed.

Definition moves_to (s : sys) (m : move) (t : nat) (es : list event) (n : nat) : Prop :=
  exists s' es' t', sys_step s m = Ret (s', es') /\ mpmc_inv s' t' (es ++ es') (S n).

Lemma still (s : sys) (t : nat) (es : list event) (n : nat) : mpmc_inv s t es n -> mpmc_inv s t es (S n).
Proof. intros []. constructor; try done. lia. Qed.

(** Loads and refusals of a producer. *)
Lemma producer_quiet (s : sys) (t : nat) (es : list event) (n i : nat) (weak a : bool) (pc pc' : push_pc T) :
  mpmc_inv s t es n -> producers s !! i = Some (a, pc) ->
  (if a then try_push_step N (ring s) pc else push_step N weak (ring s) pc) = Ret (ring s, pc') ->
  producer_ok (ring s) (pushed s) t pc' -> (forall p, ~ push_owns pc' p) -> moves_to s (ProducerStep i weak) t es n.
Proof.
  intros Hi Hpi E Hok Ho. assert (Ev : push_value pc pc' = [] /\ push_event pc pc' = []) by (destruct pc; try done; destruct pc' as [| | | |? h| |]; try done; by destruct Hok as (p & -> & _); destruct (Ho p)).
  destruct Ev as [E1 E2]. eexists _, [], t. split; [unfold sys_step; rewrite Hpi, E; cbn; by rewrite E1, E2, app_nil_r|].
  rewrite app_nil_r. by apply quiet_producer.
Qed.

Lemma consumer_quiet (s : sys) (t : nat) (es : list event) (n j : nat) (weak a : bool) (pc pc' : pop_pc T) :
  mpmc_inv s t es n -> consumers s !! j = Some (a, pc) -> (forall p, pc <> PopReserved p) ->
  (if a then try_pop_step N (ring s) pc else pop_step N weak (ring s) pc) = Ret (ring s, pc') ->
  consumer_ok (ring s) (pushed s) t pc' -> (forall p, ~ pop_owns pc' p) ->
  legal N (drop t (pushed s)) (ats (pop_event s pc pc')) (drop t (pushed s)) -> takes (pop_event s pc pc') = [] ->
  moves_to s (ConsumerStep j weak) t es n.
Proof.
  intros Hi Hpj Hnr E Hok Ho Hl Htk. eexists _, _, t. split; [unfold sys_step; by rewrite Hpj, E|].
  cbn [fst snd]. apply quiet_consumer with (es := es); [done|done|done|intros b p; rewrite Hpj; congruence | rewrite takes_app, Htk; apply app_nil_r |].
  rewrite ats_app. eapply legal_app; [apply (mm_history _ _ _ _ Hi)|done].
Qed.

(** The tail was loaded after the head: the difference is a difference of
    positions, or wraps to a number no ring is as large as. *)
Lemma room_check (h t : nat) :
  Z.of_nat h + N < u64_modulus -> Z.of_nat t + N < u64_modulus -> ((Z.of_nat h -w Z.of_nat t) >=? N) = false -> Z.of_nat h < Z.of_nat t + N.
Proof.
  intros Hh Ht. rewrite Z.geb_leb, Z.leb_gt. unfold wrap64. intros Hlt. destruct (decide (t <= h)%nat).
  - rewrite Z.mod_small in Hlt; [lia|]. lia.
  - lia.
Qed.

Lemma mpmc_producer_moves (s : sys) (t : nat) (es : list event) (n i : nat) (weak : bool) :
  mpmc_inv s t es n -> Z.of_nat n + N < u64_modulus -> moves_to s (ProducerStep i weak) t es n.
Proof.
  intros Hi Hn. pose proof (mm_head _ _ _ _ Hi) as Eh. pose proof (mm_tail _ _ _ _ Hi) as Et. pose proof (mm_le _ _ _ _ Hi) as Hle. pose proof (mm_bound _ _ _ _ Hi) as Hb.
  destruct (producers s !! i) as [[a pc]|] eqn:E; [|eexists _, [], t; split; [unfold sys_step; by rewrite E|]; rewrite app_nil_r; by apply still].
  pose proof (mm_producers _ _ _ _ Hi _ _ _ E) as Hok. destruct pc as [v bo|v bo h|v bo h|v bo h|v h|h|o]; cbn [producer_ok] in Hok.
  - eapply producer_quiet; [done|done|by destruct a| |by intros ? []]. exists (length (pushed s)). by rewrite Eh.
  - destruct Hok as (p & -> & Hp). destruct ((Z.of_nat p -w tail (ring s)) >=? N) eqn:Er.
    + destruct a; [eapply producer_quiet; [done|done|cbn; by rewrite Er|done|by intros ? []]|].
      destruct (Backoff.is_completed bo) eqn:Ec; (eapply producer_quiet; [done|done|cbn; by rewrite Er, Ec|done|by intros ? []]).
    + eapply producer_quiet with (pc' := PushRoom v bo (Z.of_nat p)); [done|done|destruct a; cbn; by rewrite Er| |by intros ? []].
      exists p. split; [done|]. split; [done|]. rewrite Et in Er. apply room_check in Er; lia.
  - destruct Hok as (p & -> & Hp & Hr). destruct (lookup_lt_is_Some_2 (slots (ring s)) (cell N p)) as [sl Hsl]; [rewrite (mm_len _ _ _ _ Hi); by apply cell_lt|].
    pose proof (slot_at_eq _ _ _ Hsl) as Es. destruct (Z.eqb_spec (sequence sl) (Z.of_nat p)) as [Eq|Eq].
    + eapply producer_quiet with (pc' := PushReady v bo (Z.of_nat p)); [done|done|destruct a; cbn; rewrite Es; cbn; by rewrite Eq, Z.eqb_refl| |by intros ? []].
      exists p. split; [done|]. split; [done|]. split; [done|]. intros _. by exists sl.
    + apply Z.eqb_neq in Eq. destruct a; [eapply producer_quiet; [done|done|cbn; rewrite Es; cbn; by rewrite Eq|done|by intros ? []]|].
      destruct (sequence sl <? Z.of_nat p) eqn:El; (eapply producer_quiet; [done|done|cbn; rewrite Es; cbn; by rewrite Eq, El|done|by intros ? []]).
  - destruct Hok as (p & -> & Hp & Hr & Hsl). destruct (head (ring s) =? Z.of_nat p) eqn:Eq.
    + destruct (negb a && weak) eqn:Ew.
      { destruct a; [done|]. destruct weak; [|done]. eapply producer_quiet; [done|done|cbn; by rewrite andb_false_r|done|by intros ? []]. }
      apply Z.eqb_eq in Eq. rewrite Eh in Eq. apply Nat2Z.inj in Eq. subst p.
      eexists _, [At (Pushed v)], t. split; [|by eapply reserve_push_ok]. unfold sys_step. rewrite E.
      destruct a; [|destruct weak; [done|]]; cbn; rewrite Eh, Z.eqb_refl; done.
    + eapply producer_quiet with (pc' := if a then PushDone (Err v) else PushLoop v (Backoff.snooze bo).2); [done|done|destruct a; cbn; by rewrite Eq|by destruct a|by destruct a; intros ? []].
  - destruct Hok as (p & -> & Hp & _). destruct (write_step_ok _ _ _ _ _ _ _ _ Hi E) as (r' & Er & Hi'). eexists _, [], t.
    split; [unfold sys_step; rewrite E; destruct a; cbn; rewrite Er; cbn; done|]. rewrite !app_nil_r. done.
  - destruct Hok as (p & -> & Hp & _). destruct (publish_step_ok _ _ _ _ _ _ _ Hi Hn E) as (r' & Er & Hi'). eexists _, [], t.
    split; [unfold sys_step; rewrite E; destruct a; cbn; rewrite Er; cbn; done|]. rewrite !app_nil_r. done.
  - eapply producer_quiet; [done|done|by destruct a|done|by intros ? []].
Qed.

Lemma mpmc_consumer_moves (s : sys) (t : nat) (es : list event) (n j : nat) (weak : bool) :
  mpmc_inv s t es n -> Z.of_nat n + N < u64_modulus -> moves_to s (ConsumerStep j weak) t es n.
Proof.
  intros Hi Hn. pose proof (mm_head _ _ _ _ Hi) as Eh. pose proof (mm_tail _ _ _ _ Hi) as Et. pose proof (mm_le _ _ _ _ Hi) as Hle. pose proof (mm_bound _ _ _ _ Hi) as Hb.
  destruct (consumers s !! j) as [[a pc]|] eqn:E; [|eexists _, [], t; split; [unfold sys_step; by rewrite E|]; rewrite app_nil_r; by apply still].
  pose proof (mm_consumers _ _ _ _ Hi _ _ _ E) as Hok. destruct pc as [bo|bo x|bo x|bo x|bo x|x|v x|o]; cbn [consumer_ok] in Hok.
  - eapply consumer_quiet; [done|done|done|by destruct a| |by intros ? []|done|done]. exists t. by rewrite Et.
  - destruct Hok as (p & -> & Hp). destruct (Z.of_nat p =? head (ring s)) eqn:Eq.
    + eapply consumer_quiet with (pc' := PopDone None); [done|done|done|destruct a; cbn; by rewrite Eq|done|by intros ? []| |done].
      apply Z.eqb_eq in Eq. rewrite Eh in Eq. apply Nat2Z.inj in Eq. rewrite drop_nil_ge by lia. apply legal_one, q_empty.
    + eapply consumer_quiet with (pc' := PopSome bo (Z.of_nat p)); [done|done|done|destruct a; cbn; by rewrite Eq| |by intros ? []|done|done].
      exists p. split; [done|]. split; [done|]. apply Z.eqb_neq in Eq. lia.
  - destruct Hok as (p & -> & Hp & Hl). destruct (lookup_lt_is_Some_2 (slots (ring s)) (cell N p)) as [sl Hsl]; [rewrite (mm_len _ _ _ _ Hi); by apply cell_lt|].
    pose proof (slot_at_eq _ _ _ Hsl) as Es. assert (Ew : Z.of_nat p +w 1 = Z.of_nat p + 1) by (apply wrap64_small; unfold is_u64; lia).
    destruct (Z.eqb_spec (sequence sl) (Z.of_nat p + 1)) as [Eq|Eq].
    + eapply consumer_quiet with (pc' := PopReady bo (Z.of_nat p)); [done|done|done|destruct a; cbn; rewrite Es; cbn; by rewrite Ew, Eq, Z.eqb_refl| |by intros ? []|done|done].
      exists p. split; [done|]. split; [done|]. split; [done|]. intros _. by exists sl.
    + apply Z.eqb_neq in Eq. destruct a; [eapply consumer_quiet; [done|done|done|cbn; rewrite Es; cbn; by rewrite Ew, Eq|done|by intros ? []|done|done]|].
      destruct (sequence sl <? Z.of_nat p + 1) eqn:El; (eapply consumer_quiet; [done|done|done|cbn; rewrite Es; cbn; by rewrite Ew, Eq, El| |by intros ? []|done|done]); [|done].
      by exists p.
  - destruct Hok as (p & -> & Hp & Hl). destruct a; [eapply consumer_quiet; [done|done|done|done| |by intros ? []|done|done]; by exists p|].
    destruct (Z.of_nat p =? tail (ring s)) eqn:Eq; [destruct (Backoff.is_completed bo) eqn:Ec|];
      (eapply consumer_quiet; [done|done|done|cbn; rewrite Eq, ?Ec; done|done|by intros ? []|done|done]).
  - destruct Hok as (p & -> & Hp & Hl & Hsl). destruct (tail (ring s) =? Z.of_nat p) eqn:Eq.
    + destruct (negb a && weak) eqn:Ew.
      { destruct a; [done|]. destruct weak; [|done]. eapply consumer_quiet; [done|done|done|cbn; by rewrite andb_false_r|done|by intros ? []|done|done]. }
      apply Z.eqb_eq in Eq. rewrite Et in Eq. apply Nat2Z.inj in Eq. subst p.
      eexists _, _, (S t). split; [|by eapply reserve_pop_ok]. unfold sys_step. rewrite E.
      destruct a; [|destruct weak; [done|]]; cbn; rewrite Et, Z.eqb_refl; done.
    + eapply consumer_quiet with (pc' := if a then PopDone None else PopLoop (Backoff.snooze bo).2); [done|done|done|destruct a; cbn; by rewrite Eq|by destruct a|by destruct a; intros ? []|by destruct a|by destruct a].
  - destruct Hok as (p & -> & Hp & _). destruct (take_step_ok _ _ _ _ _ _ _ Hi E) as (v & r' & Er & Hi'). eexists _, _, t.
    split; [unfold sys_step; rewrite E; destruct a; cbn; rewrite Er; cbn; done|]. done.
  - destruct Hok as (p & -> & Hp & _). destruct (free_step_ok _ _ _ _ _ _ _ _ Hi Hn E) as (r' & Er & Hi'). eexists _, [], t.
    split; [unfold sys_step; rewrite E; destruct a; cbn; rewrite Er; cbn; done|]. rewrite app_nil_r. done.
  - eapply consumer_quiet; [done|done|done|by destruct a|done|by intros ? []|done|done].
Qed.

Lemma mpmc_step_ok (s : sys) (m : move) (t : nat) (es : list event) (n : nat) :
  mpmc_inv s t es n -> Z.of_nat n + N < u64_modulus -> moves_to s m t es n.
Proof.
  intros Hi Hn. destruct m as [i a v|i w|j a|j w]; [| by apply mpmc_producer_moves | | by apply mpmc_consumer_moves].
  - assert (Hnew : mpmc_inv (mkSys (ring s) (<[i := (a, PushLoop v Backoff.backoff_new)]> (producers s)) (consumers s) (pushed s)) t es (S n))
      by (apply quiet_producer; [done|done|by intros ? []]).
    pose proof (still _ _ _ _ Hi). unfold moves_to, sys_step. destruct (producers s !! i) as [[b []]|]; eexists _, [], t; rewrite app_nil_r; done.
  - assert (Hnew : (forall b p, consumers s !! j <> Some (b, PopReserved p)) ->
      mpmc_inv (mkSys (ring s) (producers s) (<[j := (a, PopLoop Backoff.backoff_new)]> (consumers s)) (pushed s)) t es (S n)).
    { intros Hnr. apply quiet_consumer with (es := es); [done|done|by intros ? []|done|done|apply (mm_history _ _ _ _ Hi)]. }
    pose proof (still _ _ _ _ Hi). unfold moves_to, sys_step. destruct (consumers s !! j) as [[b []]|] eqn:E; eexists _, [], t; rewrite app_nil_r; (split; [done|]); try done; by apply Hnew.
Qed.

Lemma mpmc_run_ok (ms : list move) (s : sys) (t : nat) (es : list event) (n : nat) :
  mpmc_inv s t es n -> Z.of_nat n + Z.of_nat (length ms) + N <= u64_modulus ->
  exists s' es' t', sys_run s ms = Ret (s', es') /\ mpmc_inv s' t' (es ++ es') (n + length ms).
Proof.
  revert s t es n. induction ms as [|m ms IH]; intros s t es n Hi Hn; [exists s, [], t; rewrite app_nil_r, Nat.add_0_r; done|]. cbn [length] in *.
  destruct (mpmc_step_ok s m t es n Hi ltac:(lia)) as (s1 & es1 & t1 & E1 & H1). destruct (IH s1 t1 (es ++ es1) (S n) H1 ltac:(lia)) as (s2 & es2 & t2 & E2 & H2).
  exists s2, (es1 ++ es2), t2. cbn [sys_run]. rewrite E1. cbn. rewrite E2. cbn. split; [done|]. rewrite app_assoc. by replace (n + S (length ms))%nat with (S n + length ms)%nat by lia.
Qed.

Definition first_slots : list (MpmcSlot T) := (fun i => slot_new (Z.of_nat i)) <$> seq 0 (Z.to_nat N).
Definition sys_new (r : MpmcRingBuffer T) : sys := mkSys r ∅ ∅ [].

Lemma mpmc_new_eq : mpmc_new N = Ret (mkMpmc 0 0 first_slots : MpmcRingBuffer T).
Proof. unfold mpmc_new. rewrite (proj2 (Z.geb_le _ _)) by lia. done. Qed.

Lemma mpmc_new_inv : mpmc_inv (sys_new (mkMpmc 0 0 first_slots)) 0 [] 0.
Proof.
  constructor; cbn [sys_new ring head tail slots producers consumers pushed length]; try done; try lia.
  - unfold first_slots. by rewrite length_fmap, length_seq.
  - intros p _ Hp. exists (slot_new (Z.of_nat p)). assert (Ec : cell N p = p) by (unfold cell, pos; rewrite Z.mod_small by lia; lia).
    rewrite Ec. unfold first_slots. cbn [slots]. rewrite list_lookup_fmap, lookup_seq_lt by lia. split; [done|]. unfold slot_ok. rewrite decide_False by (cbn; lia). by left.
  - intros p v Hp. by apply elem_of_nil in Hp.
  - apply NoDup_nil_2.
Qed.

(** C29: with any number of producers and consumers, blocking or not, in any
    interleaving (of less than 2^64 steps), nothing uninitialised is read and no
    value twice; the successful exchanges and the empty answers are the run of
    a queue of capacity [N]; a consumer that was given position [p] reads the
    value pushed at [p]; and once no consumer is between its exchange and its
    read, exactly the positions below the tail were read. *)
Theorem mpmc_linearizable (ms : list move) :
  Z.of_nat (length ms) + N <= u64_modulus ->
  exists r s es q, mpmc_new N = Ret r /\ sys_run (sys_new r) ms = Ret (s, es) /\ legal N [] (ats es) q /\ len (ring s) = Z.of_nat (length q) /\
    (forall p v, (p, v) ∈ takes es -> pushed s !! Z.to_nat p = Some v) /\ NoDup (takes es).*1 /\
    ((forall j try p, consumers s !! j <> Some (try, PopReserved p)) -> (takes es).*1 ≡ₚ Z.of_nat <$> seq 0 (Z.to_nat (tail (ring s)))).
Proof.
  intros Hn. destruct (mpmc_run_ok ms _ _ _ _ mpmc_new_inv ltac:(lia)) as (s & es & t & E & Hi). cbn [app] in Hi.
  pose proof Hi as [Eh Et Hle Hr Hb Hl Hss Hps Hcs H1p H1c Hh Htk Hnd Hall Hpd]. eexists _, s, es, (drop t (pushed s)).
  split; [apply mpmc_new_eq|]. split; [done|]. split; [done|]. split; [|split; [|split; [done|]]].
  - unfold len. rewrite Eh, Et, length_drop, wrap64_small by (unfold is_u64; lia). lia.
  - intros p v Hp. destruct (Htk p v Hp) as (k & -> & _ & Hv). by rewrite Nat2Z.id.
  - intros Hno. rewrite Et, Nat2Z.id. apply NoDup_Permutation; [done|apply NoDup_fmap_2; [apply _|apply NoDup_seq]|].
    intros p. rewrite !list_elem_of_fmap. split.
    + intros ([p' v] & -> & Hp). destruct (Htk p' v Hp) as (k & -> & Hk & _). exists k. split; [done|]. apply elem_of_seq. lia.
    + intros (k & -> & Hk%elem_of_seq). destruct (Hall k ltac:(lia)) as [Hin|(j & b & Hj)]; [by apply list_elem_of_fmap|by destruct (Hno j b (Z.of_nat k))].
Qed.

(** *** A full ring *)

Definition run_push (ws : list bool) (r : MpmcRingBuffer T) (pc : push_pc T) : outcome (MpmcRingBuffer T * push_pc T) :=
  ofold (fun rp w => push_step N w rp.1 rp.2) (r, pc) ws.

Lemma full_push_loops (r : MpmcRingBuffer T) (v : T) (ws : list bool) (pc : push_pc T) :
  ((head r -w tail r) >=? N) = true ->
  (exists bo, backoff_ok bo /\ (pc = PushLoop v bo \/ pc = PushHead v bo (head r))) ->
  exists bo, backoff_ok bo /\ (run_push ws r pc = Ret (r, PushLoop v bo) \/ run_push ws r pc = Ret (r, PushHead v bo (head r))).
Proof.
  intros Hf. unfold run_push. revert pc. induction ws as [|w ws IH]; intros pc (bo & Hbo & Hpc).
  - exists bo. split; [done|]. destruct Hpc as [->| ->]; [left|right]; done.
  - destruct Hpc as [->| ->]; cbn [ofold push_step fst snd obind].
    + apply IH. exists bo. split; [done|by right].
    + rewrite Hf, (backoff_not_completed bo Hbo). cbn [obind]. apply IH. exists (Backoff.spin bo).2. split; [|by left].
      by apply (backoff_apply_ok bo Spin).
Qed.

(** [push] on a full ring never returns while no element is taken out: it does
    not answer that the ring is full, as it is documented to, because its back-off
    never completes. *)
Theorem mpmc_full_push_never_returns (r : MpmcRingBuffer T) (v : T) (ws : list bool) :
  ((head r -w tail r) >=? N) = true ->
  exists pc, run_push ws r (PushLoop v Backoff.backoff_new) = Ret (r, pc) /\ forall res, pc <> PushDone res.
Proof.
  intros Hf. destruct (full_push_loops r v ws (PushLoop v Backoff.backoff_new) Hf) as (bo & _ & [E|E]).
  - exists Backoff.backoff_new. split; [by vm_compute|by left].
  - eexists. split; [done|]. done.
  - eexists. split; [done|]. done.
Qed.

End spec.

(** Two producers and two consumers on a ring of two slots. *)
Definition full2 : MpmcRingBuffer Z := mkMpmc 2 0 [mkSlot 0 1 (Some 5); mkSlot 0 2 (Some 6)].

Definition busy_run : list (move (T := Z)) :=
  [Send 0 false 5; Send 1 true 6; ProducerStep 0 false; ProducerStep 1 false; ProducerStep 0 false; ProducerStep 0 false; ProducerStep 0 false] ++
  replicate 2 (ProducerStep 0 false) ++ [Send 1 false 6] ++ replicate 9 (ProducerStep 1 false) ++
  [Recv 0 false; Recv 1 true] ++ replicate 6 (ConsumerStep 0 false) ++ replicate 6 (ConsumerStep 1 false).

Lemma mpmc_linearizable_witness :
  Z.of_nat (length busy_run) + 2 <= u64_modulus /\
  exists r s es q, mpmc_new 2 = Ret r /\ sys_run 2 (sys_new r) busy_run = Ret (s, es) /\ legal 2 [] (ats es) q /\ len (ring s) = Z.of_nat (length q) /\
    (forall p v, (p, v) ∈ takes es -> pushed s !! Z.to_nat p = Some v) /\ NoDup (takes es).*1 /\
    ((forall j try p, consumers s !! j <> Some (try, PopReserved p)) -> (takes es).*1 ≡ₚ Z.of_nat <$> seq 0 (Z.to_nat (tail (ring s)))).
Proof. split; [by vm_compute|]. apply (mpmc_linearizable 2); by vm_compute. Defined.

Lemma mpmc_full_push_never_returns_witness :
  exists pc, run_push 2 (replicate 100 false) full2 (PushLoop 7 Backoff.backoff_new) = Ret (full2, pc) /\ forall res, pc <> PushDone res.
Proof. apply mpmc_full_push_never_returns. by vm_compute. Defined.
