(* ===== verification/Scheduler.v ===== *)
(** * Threads and the preemptive scheduler
    (src/src/task/context.rs and src/src/task/scheduler.rs)

    Task control blocks live in a store under their leaked addresses.  The
    scheduler of a processor is behind a lock that is held across the context
    switch; whether the lock is released afterwards depends on where the next task
    continues, so the lock bits and the saved instruction pointers are part of the
    state.  An operation is done, panics, or spins on a lock for ever. *)

From stdpp Require Import base list gmap.
From Stdlib Require Import ZArith Lia.
From S2P Require Import Prelude.

Local Open Scope Z_scope.

(** ** context.rs *)

Inductive TaskState := Ready | Running | Blocked | Terminated.

#[export] Instance task_state_eq_dec : EqDecision TaskState.
Proof. solve_decision. Defined.

(** Where a saved context continues: at the trampoline of a new task, or behind the
    switch it left by. *)
Inductive code := Unset | Trampoline | AfterSwitch.

Record CpuContext := mkContext {
  rbx : Z; rbp : Z; r12 : Z; r13 : Z; r14 : Z; r15 : Z; rsp : Z; rip : code; rflags : Z }.

Definition context_empty : CpuContext := mkContext 0 0 0 0 0 0 0 Unset 512.

Definition new_task (entry_point stack_top arg : Z) : CpuContext :=
  mkContext 0 0 entry_point arg 0 0 (stack_top -w 8) Trampoline 512.

(** The registers are saved with the address behind the switch, the new ones are
    loaded and control goes to their instruction pointer. *)
Definition switch_context (cpu new : CpuContext) : CpuContext * CpuContext :=
  (mkContext (rbx cpu) (rbp cpu) (r12 cpu) (r13 cpu) (r14 cpu) (r15 cpu) (rsp cpu) AfterSwitch (rflags cpu), new).

Definition KERNEL_STACK_SIZE : Z := 16 * 1024.

(** [memory] is the address of the stack. *)
Record KernelStack := mkStack { memory : Z }.

Definition stack_top (k : KernelStack) : Z := Z.land (memory k +w KERNEL_STACK_SIZE) (not64 15).
Definition stack_bottom (k : KernelStack) : Z := memory k.

Record TaskControlBlock := mkTcb {
  id : Z; state : TaskState; context : CpuContext; kernel_stack : KernelStack; priority : Z; cpu_time : Z; last_cpu : option Z }.

Definition set_state (t : TaskControlBlock) (s : TaskState) : TaskControlBlock :=
  mkTcb (id t) s (context t) (kernel_stack t) (priority t) (cpu_time t) (last_cpu t).
Definition set_context (t : TaskControlBlock) (c : CpuContext) : TaskControlBlock :=
  mkTcb (id t) (state t) c (kernel_stack t) (priority t) (cpu_time t) (last_cpu t).
Definition set_last_cpu (t : TaskControlBlock) (c : option Z) : TaskControlBlock :=
  mkTcb (id t) (state t) (context t) (kernel_stack t) (priority t) (cpu_time t) c.

(** [stack] is what the allocator answers for the stack: [None] when it is out of
    memory. *)
Definition tcb_new (new_id entry_point arg prio : Z) (stack : option Z) : option TaskControlBlock :=
  match stack with
  | Some m =>
      let k := mkStack m in
      Some (mkTcb new_id Ready (new_task entry_point (stack_top k) arg) k prio 0 None)
  | None => None
  end.

Definition tcb_idle (new_id cpu_id : Z) (stack : option Z) : outcome TaskControlBlock :=
  match stack with
  | Some m => Ret (mkTcb new_id Running context_empty (mkStack m) 255 0 (Some cpu_id))
  | None => Panic
  end.

(** ** scheduler.rs: one processor *)

Definition PRIORITY_LEVELS : nat := 8.
Definition DEFAULT_TIME_SLICE : Z := 10.

Record PerCpuScheduler := mkScheduler {
  cpu_id : Z; ready_queues : list (list Z); current : option Z; idle_task : option Z; remaining_slice : Z; need_reschedule : bool }.

Definition set_queues (s : PerCpuScheduler) (q : list (list Z)) : PerCpuScheduler :=
  mkScheduler (cpu_id s) q (current s) (idle_task s) (remaining_slice s) (need_reschedule s).
Definition set_current (s : PerCpuScheduler) (c : option Z) (slice : Z) : PerCpuScheduler :=
  mkScheduler (cpu_id s) (ready_queues s) c (idle_task s) slice (need_reschedule s).
Definition set_need (s : PerCpuScheduler) (b : bool) : PerCpuScheduler :=
  mkScheduler (cpu_id s) (ready_queues s) (current s) (idle_task s) (remaining_slice s) b.

Definition scheduler_new (cpu : Z) : PerCpuScheduler :=
  mkScheduler cpu (replicate PRIORITY_LEVELS []) None None DEFAULT_TIME_SLICE false.

Definition set_idle_task (s : PerCpuScheduler) (idle : Z) : PerCpuScheduler :=
  mkScheduler (cpu_id s) (ready_queues s) (match current s with None => Some idle | Some c => Some c end) (Some idle)
    (remaining_slice s) (need_reschedule s).

Definition queue_idx (prio : Z) : nat := Z.to_nat (Z.min prio (Z.of_nat PRIORITY_LEVELS - 1)).

(** The blocks in memory. *)
Notation tcb_map := (gmap Z TaskControlBlock).

Definition deref (m : tcb_map) (p : Z) : outcome TaskControlBlock :=
  match m !! p with Some t => Ret t | None => Panic end.

Definition enqueue (m : tcb_map) (s : PerCpuScheduler) (tcb : Z) : outcome PerCpuScheduler :=
  let! t := deref m tcb in
  let! q := index (ready_queues s) (queue_idx (priority t)) in
  let! qs := index_set (ready_queues s) (queue_idx (priority t)) (q ++ [tcb]) in
  Ret (set_queues s qs).

Fixpoint dequeue_highest (qs : list (list Z)) : option Z * list (list Z) :=
  match qs with
  | [] => (None, [])
  | [] :: rest => let '(o, rest') := dequeue_highest rest in (o, [] :: rest')
  | (tcb :: q) :: rest => (Some tcb, q :: rest)
  end.

Definition pick_next (s : PerCpuScheduler) : outcome (Z * PerCpuScheduler) :=
  match dequeue_highest (ready_queues s) with
  | (Some next, qs) => Ret (next, set_queues s qs)
  | (None, qs) => match idle_task s with Some i => Ret (i, set_queues s qs) | None => Panic end
  end.

Definition tick (s : PerCpuScheduler) : bool * PerCpuScheduler :=
  let slice := if remaining_slice s >? 0 then remaining_slice s - 1 else remaining_slice s in
  let s' := mkScheduler (cpu_id s) (ready_queues s) (current s) (idle_task s) slice (need_reschedule s) in
  if slice =? 0 then (true, set_need s' true) else (false, s').

Definition request_reschedule (s : PerCpuScheduler) : PerCpuScheduler := set_need s true.

(** ** The machine *)

(** Registers and current task of a processor, and the lock on its scheduler. *)
Record processor := mkProcessor { regs : CpuContext; current_task : option Z; locked : bool; scheduler : option PerCpuScheduler }.

Record machine := mkMachine {
  tcbs : tcb_map; next_addr : Z; next_id : Z; processors : list processor; task_list : list Z; switch_count : Z }.

Definition set_tcbs (m : machine) (t : tcb_map) : machine :=
  mkMachine t (next_addr m) (next_id m) (processors m) (task_list m) (switch_count m).
Definition set_processors (m : machine) (p : list processor) : machine :=
  mkMachine (tcbs m) (next_addr m) (next_id m) p (task_list m) (switch_count m).

Definition MAX_CPUS : nat := 64.

Definition machine_new : machine :=
  mkMachine ∅ 1 0 (replicate MAX_CPUS (mkProcessor context_empty None false None)) [] 0.

Inductive run (A : Type) := Done (a : A) | Panics | Spins.
Arguments Done {A} a.
Arguments Panics {A}.
Arguments Spins {A}.

Definition bind {A B} (r : run A) (k : A -> run B) : run B :=
  match r with Done a => k a | Panics => Panics | Spins => Spins end.

Definition lift {A} (o : outcome A) : run A := match o with Ret a => Done a | Panic => Panics end.

Notation "'do!' x := r 'in' k" := (bind r (fun x => k)) (at level 200, x name, r at level 100, k at level 200).

(** [get_current_task] and [set_current_task] ignore processors from 64 on. *)
Definition get_current_task (m : machine) (cpu : Z) : option Z :=
  if cpu <? 64 then match processors m !! Z.to_nat cpu with Some p => current_task p | None => None end else None.

Definition set_current_task (m : machine) (cpu : Z) (tcb : Z) : machine :=
  if cpu <? 64 then
    match processors m !! Z.to_nat cpu with
    | Some p => set_processors m (<[Z.to_nat cpu := mkProcessor (regs p) (Some tcb) (locked p) (scheduler p)]> (processors m))
    | None => m
    end
  else m.

(** The switch; the result says where control continues.  A context that was never
    filled in continues at address 0. *)
Definition schedule_switch (m : machine) (cpu : Z) (cur next : Z) : outcome (machine * code) :=
  if cur =? next then Ret (m, AfterSwitch)
  else
    let! c := deref (tcbs m) cur in
    let m1 := <[cur := set_state c Ready]> (tcbs m) in
    let! n := deref m1 next in
    let m2 := <[next := set_last_cpu (set_state n Running) (Some cpu)]> m1 in
    let ma := set_current_task (mkMachine m2 (next_addr m) (next_id m) (processors m) (task_list m) (switch_count m +w 1)) cpu next in
    let! p := index (processors ma) (Z.to_nat cpu) in
    let! n' := deref m2 next in
    let! c' := deref m2 cur in
    let '(old, new) := switch_context (regs p) (context n') in
    let m3 := <[cur := set_context c' old]> m2 in
    let ps := <[Z.to_nat cpu := mkProcessor new (current_task p) (locked p) (scheduler p)]> (processors ma) in
    match rip new with
    | Unset => Panic
    | where_to => Ret (set_processors (set_tcbs ma m3) ps, where_to)
    end.

(** [PerCpuScheduler::schedule]. *)
Definition schedule_method (m : machine) (s : PerCpuScheduler) : outcome (machine * PerCpuScheduler * code) :=
  if negb (need_reschedule s) then Ret (m, s, AfterSwitch)
  else
    let s := set_need s false in
    match current s with
    | None => Ret (m, s, AfterSwitch)
    | Some cur =>
        let! c := deref (tcbs m) cur in
        let! s1 := (if priority c <? 255 then enqueue (tcbs m) s cur else Ret s) in
        let! ns := pick_next s1 in
        let '(next, s2) := ns in
        if negb (cur =? next) then
          let s3 := set_current s2 (Some next) DEFAULT_TIME_SLICE in
          let! mc := schedule_switch m (cpu_id s3) cur next in
          Ret (mc.1, s3, mc.2)
        else Ret (m, s2, AfterSwitch)
    end.

Definition block_current (m : machine) (s : PerCpuScheduler) : outcome (machine * PerCpuScheduler) :=
  match current s with
  | Some cur =>
      let! c := deref (tcbs m) cur in
      Ret (set_tcbs m (<[cur := set_state c Blocked]> (tcbs m)), request_reschedule s)
  | None => Ret (m, s)
  end.

Definition unblock (m : machine) (s : PerCpuScheduler) (tcb : Z) : outcome (machine * PerCpuScheduler) :=
  let! t := deref (tcbs m) tcb in
  let m' := set_tcbs m (<[tcb := set_state t Ready]> (tcbs m)) in
  let! s' := enqueue (tcbs m') s tcb in
  Ret (m', request_reschedule s').

(** ** The global functions *)

(** [SCHEDULERS[cpu].lock()], the body on what the lock protects, and the drop of
    the guard, which happens unless control has gone to the start of a new task. *)
Definition with_scheduler {A} (m : machine) (cpu : nat) (body : machine -> option PerCpuScheduler -> outcome (machine * option PerCpuScheduler * code * A))
    : run (machine * A) :=
  do! p := lift (index (processors m) cpu) in
  if locked p then Spins
  else
    do! r := lift (body m (scheduler p)) in
    let '(m', s', where_to, a) := r in
    do! p' := lift (index (processors m') cpu) in
    let held := match where_to with Trampoline => true | _ => false end in
    Done (set_processors m' (<[cpu := mkProcessor (regs p') (current_task p') held s']> (processors m')), a).

Definition init_scheduler (m : machine) (cpu : nat) (stack : option Z) : run machine :=
  do! r := with_scheduler m cpu (fun m o =>
    match o with
    | Some s => Ret (m, Some s, AfterSwitch, tt)
    | None =>
        let! t := tcb_idle (next_id m) (Z.of_nat cpu) stack in
        let addr := next_addr m in
        let m' := mkMachine (<[addr := t]> (tcbs m)) (addr + 1) (next_id m +w 1) (processors m) (task_list m) (switch_count m) in
        Ret (m', Some (set_idle_task (scheduler_new (Z.of_nat cpu)) addr), AfterSwitch, tt)
    end) in
  Done r.1.

Definition spawn_task (m : machine) (entry_point arg prio : Z) (stack : option Z) : run (machine * option Z) :=
  match tcb_new (next_id m) entry_point arg prio stack with
  | None => Done (m, None)
  | Some t =>
      let addr := next_addr m in
      let m1 := mkMachine (<[addr := t]> (tcbs m)) (addr + 1) (next_id m +w 1) (processors m) (task_list m ++ [addr]) (switch_count m) in
      do! r := with_scheduler m1 0 (fun m o =>
        match o with
        | Some s => let! s' := enqueue (tcbs m) s addr in Ret (m, Some s', AfterSwitch, tt)
        | None => Ret (m, None, AfterSwitch, tt)
        end) in
      Done (r.1, Some (id t))
  end.

Definition timer_tick (m : machine) (cpu : nat) : run machine :=
  do! r := with_scheduler m cpu (fun m o =>
    match o with
    | Some s => Ret (m, Some (tick s).2, AfterSwitch, tt)
    | None => Ret (m, None, AfterSwitch, tt)
    end) in
  Done r.1.

Definition schedule (m : machine) (cpu : nat) : run machine :=
  do! r := with_scheduler m cpu (fun m o =>
    match o with
    | Some s => let! x := schedule_method m s in let '(m', s', c) := x in Ret (m', Some s', c, tt)
    | None => Ret (m, None, AfterSwitch, tt)
    end) in
  Done r.1.

Definition request_reschedule_on (m : machine) (cpu : nat) : run machine :=
  do! r := with_scheduler m cpu (fun m o =>
    match o with
    | Some s => Ret (m, Some (request_reschedule s), AfterSwitch, tt)
    | None => Ret (m, None, AfterSwitch, tt)
    end) in
  Done r.1.

Definition yield_current (m : machine) (cpu : nat) : run machine :=
  do! m' := request_reschedule_on m cpu in schedule m' cpu.

Definition context_switch_count (m : machine) : Z := switch_count m.
