(* ===== verification/SchedulerTheorems.v ===== *)
(** * The scheduler keeps its tasks, runs the best ones in turn, and what goes wrong
    with blocked and with new tasks *)

From stdpp Require Import base list gmap.
From Stdlib Require Import ZArith Lia.
From S2P Require Import Prelude Scheduler.

Local Open Scope Z_scope.

(** ** The invariant of one processor *)

(** A block that can be queued: a priority of its own, and a context to continue. *)
Definition queued_ok (m : tcb_map) (l : nat) (p : Z) : Prop :=
  exists t, m !! p = Some t /\ 0 <= priority t < 255 /\ queue_idx (priority t) = l /\ rip (context t) <> Unset.

Definition all_queued (s : PerCpuScheduler) : list Z := concat (ready_queues s).

(** The tasks a processor looks after, beside its idle task. *)
Definition tasks (s : PerCpuScheduler) : list Z :=
  (if decide (current s = idle_task s) then [] else option_list (current s)) ++ all_queued s.

Record sched_wf (m : machine) (s : PerCpuScheduler) : Prop := {
  sw_levels : length (ready_queues s) = PRIORITY_LEVELS;
  sw_queued : forall l q p, ready_queues s !! l = Some q -> p ∈ q -> queued_ok (tcbs m) l p;
  sw_once : NoDup (tasks s);
  sw_current : exists c i t ti, current s = Some c /\ idle_task s = Some i /\ tcbs m !! c = Some t /\ tcbs m !! i = Some ti /\
    priority ti = 255 /\ i ∉ all_queued s /\ (c = i \/ (0 <= priority t < 255 /\ rip (context ti) <> Unset));
  sw_cpu : exists k p, cpu_id s = Z.of_nat k /\ (k < 64)%nat /\ processors m !! k = Some p }.

Lemma queue_idx_lt (p : Z) : 0 <= p -> (queue_idx p < PRIORITY_LEVELS)%nat.
Proof. unfold queue_idx, PRIORITY_LEVELS. lia. Qed.

Lemma concat_insert (qs : list (list Z)) (l : nat) (q : list Z) (x : Z) :
  qs !! l = Some q -> concat (<[l := q ++ [x]]> qs) ≡ₚ x :: concat qs.
Proof.
  revert l. induction qs as [|q0 qs IH]; intros [|l] H; cbn in *; simplify_eq; [|].
  - rewrite (Permutation_app_comm q [x]). done.
  - rewrite (IH l H), Permutation_middle. done.
Qed.

Lemma elem_of_concat_queues (qs : list (list Z)) (p : Z) : p ∈ concat qs <-> exists l q, qs !! l = Some q /\ p ∈ q.
Proof.
  induction qs as [|q0 qs IH]; cbn [concat].
  - rewrite elem_of_nil. split; [done|]. by intros (l & q & H & _).
  - rewrite elem_of_app, IH. split.
    + intros [H|(l & q & H1 & H2)]; [by exists O, q0 | by exists (S l), q].
    + intros ([|l] & q & H1 & H2); [left; by injection H1 as -> | right; by exists l, q].
Qed.

Lemma dequeue_highest_spec (qs : list (list Z)) :
  match dequeue_highest qs with
  | (Some x, qs') => concat qs = x :: concat qs' /\ length qs' = length qs /\
      (forall l q' p, qs' !! l = Some q' -> p ∈ q' -> exists q, qs !! l = Some q /\ p ∈ q)
  | (None, qs') => qs' = qs /\ concat qs = []
  end.
Proof.
  induction qs as [|[|x q] qs IH]; cbn [dequeue_highest concat app]; [done| |].
  - destruct (dequeue_highest qs) as [[x|] qs']; cbn [concat app length].
    + destruct IH as (H1 & H2 & H3). split; [done|]. split; [by rewrite H2|]. intros [|l] q' p; cbn; [|by apply H3].
      intros [= <-] H. by apply elem_of_nil in H.
    + destruct IH as [-> H]. done.
  - split; [done|]. split; [done|]. intros [|l] q' p; cbn; [|by eauto].
    intros [= <-] H. exists (x :: q). split; [done|]. by apply elem_of_cons; right.
Qed.

Lemma enqueue_spec (m : tcb_map) (s : PerCpuScheduler) (p : Z) (t : TaskControlBlock) :
  length (ready_queues s) = PRIORITY_LEVELS -> m !! p = Some t -> 0 <= priority t ->
  exists q, ready_queues s !! queue_idx (priority t) = Some q /\
    enqueue m s p = Ret (set_queues s (<[queue_idx (priority t) := q ++ [p]]> (ready_queues s))).
Proof.
  intros Hl Ht Hp. destruct (lookup_lt_is_Some_2 (ready_queues s) (queue_idx (priority t))) as [q Hq]; [rewrite Hl; by apply queue_idx_lt|].
  exists q. split; [done|]. unfold enqueue, deref. rewrite Ht. cbn [obind]. rewrite (proj2 (index_Ret _ _ _) Hq). cbn [obind].
  rewrite (proj2 (index_set_Ret _ _ _ _)) by (split; [by eapply lookup_lt_Some|done]). done.
Qed.

(** The queues when the running task is put back. *)
Definition put_back (m : machine) (s : PerCpuScheduler) : list (list Z) :=
  match current s with
  | Some c =>
      match tcbs m !! c with
      | Some t =>
          if priority t <? 255 then
            match ready_queues s !! queue_idx (priority t) with
            | Some q => <[queue_idx (priority t) := q ++ [c]]> (ready_queues s)
            | None => ready_queues s
            end
          else ready_queues s
      | None => ready_queues s
      end
  | None => ready_queues s
  end.

Lemma set_current_task_eq (m : machine) (k : nat) (p : processor) (x : Z) :
  (k < 64)%nat -> processors m !! k = Some p ->
  set_current_task m (Z.of_nat k) x = set_processors m (<[k := mkProcessor (regs p) (Some x) (locked p) (scheduler p)]> (processors m)).
Proof. intros Hk Hp. unfold set_current_task. rewrite (proj2 (Z.ltb_lt _ _)) by lia. by rewrite Nat2Z.id, Hp. Qed.

(** A switch between two blocks that exist. *)
Lemma schedule_switch_spec (m : machine) (k : nat) (p : processor) (cur next : Z) (c n : TaskControlBlock) :
  (k < 64)%nat -> processors m !! k = Some p -> cur <> next -> tcbs m !! cur = Some c -> tcbs m !! next = Some n -> rip (context n) <> Unset ->
  exists m', schedule_switch m (Z.of_nat k) cur next = Ret (m', rip (context n)) /\
    tcbs m' = <[cur := set_context (set_state c Ready) (switch_context (regs p) (context n)).1]> (<[next := set_last_cpu (set_state n Running) (Some (Z.of_nat k))]> (tcbs m)) /\
    processors m' = <[k := mkProcessor (context n) (Some next) (locked p) (scheduler p)]> (processors m) /\
    switch_count m' = switch_count m +w 1 /\ next_addr m' = next_addr m.
Proof.
  intros Hk Hp Hne Hc Hn Hr. unfold schedule_switch. rewrite (proj2 (Z.eqb_neq _ _) Hne). unfold deref at 1. rewrite Hc. cbn [obind].
  unfold deref at 1. rewrite lookup_insert_ne by done. rewrite Hn. cbn [obind].
  rewrite (set_current_task_eq _ k p) by done. cbn [processors set_processors tcbs next_addr next_id task_list switch_count].
  apply lookup_lt_Some in Hp as Hlt. rewrite Nat2Z.id.
  rewrite (proj2 (index_Ret _ _ (mkProcessor (regs p) (Some next) (locked p) (scheduler p)))) by (apply list_lookup_insert_eq; done). cbn [obind].
  unfold deref at 1. rewrite lookup_insert_eq. cbn [obind]. unfold deref. rewrite lookup_insert_ne by done. rewrite lookup_insert_eq. cbn [obind].
  cbn [switch_context context set_last_cpu set_state regs current_task locked scheduler rip].
  destruct (rip (context n)) eqn:Er; [done| |]; (eexists; split; [done|]; cbn [tcbs processors switch_count next_addr set_processors set_tcbs]; split; [|split; [|done]]);
    [| by rewrite list_insert_insert_eq | | by rewrite list_insert_insert_eq];
    by rewrite (insert_insert_ne _ next cur), insert_insert_eq by done.
Qed.

(** *** One call of the scheduler *)

Section Schedule.
Context (m : machine) (s : PerCpuScheduler) (Hwf : sched_wf m s) (Hneed : need_reschedule s = true).

Let s0 : PerCpuScheduler := set_need s false.

Lemma put_back_spec :
  exists c i t, current s = Some c /\ idle_task s = Some i /\ tcbs m !! c = Some t /\
    (if priority t <? 255 then enqueue (tcbs m) s0 c else Ret s0) = Ret (set_queues s0 (put_back m s)) /\
    length (put_back m s) = PRIORITY_LEVELS /\ concat (put_back m s) ≡ₚ tasks s /\
    (forall l q p, put_back m s !! l = Some q -> p ∈ q -> (p = c /\ priority t < 255 /\ l = queue_idx (priority t)) \/ (p <> c /\ queued_ok (tcbs m) l p)) /\
    (concat (put_back m s) = [] -> c = i).
Proof.
  destruct (sw_current _ _ Hwf) as (c & i & t & ti & Ec & Ei & Ht & Hti & Hpi & Hni & Hc). exists c, i, t. split; [done|]. split; [done|]. split; [done|].
  pose proof (sw_once _ _ Hwf) as Hnd. unfold put_back, tasks in *. rewrite Ec, Ei, Ht in *. destruct Hc as [-> | [Hp Hr]].
  - rewrite decide_True in * by done. assert (ti = t) by congruence. subst ti. rewrite Hpi. cbn [app]. split; [unfold s0; clear; by destruct s|].
    split; [apply (sw_levels _ _ Hwf)|]. split; [done|]. split; [|done]. intros l q p Hq Hin. right. split; [|by eapply (sw_queued _ _ Hwf)].
    intros ->. apply Hni. apply elem_of_concat_queues. by exists l, q.
  - assert (Hne : c <> i) by (intros ->; assert (t = ti) by congruence; subst; lia). rewrite decide_False in * by congruence.
    rewrite (proj2 (Z.ltb_lt _ _)) by lia. destruct (enqueue_spec (tcbs m) s0 c t (sw_levels _ _ Hwf) Ht ltac:(lia)) as (q & Hq & Eq).
    cbn [ready_queues s0 set_need] in Hq. rewrite Hq. split; [done|]. split; [rewrite length_insert; apply (sw_levels _ _ Hwf)|].
    split; [cbn; by apply concat_insert|]. split.
    + intros l q' p Hl Hin. rewrite list_lookup_insert in Hl. case_decide as Ed.
      * destruct Ed as [<- _]. injection Hl as <-. apply elem_of_app in Hin as [Hin|Hin%list_elem_of_singleton]; [|left; subst; split; [done|split; [lia|done]]].
        right. split; [|exact (sw_queued _ _ Hwf _ _ _ Hq Hin)]. intros ->. cbn in Hnd. apply NoDup_cons in Hnd as [Hnd _]. apply Hnd, elem_of_concat_queues. eauto.
      * right. split; [|exact (sw_queued _ _ Hwf _ _ _ Hl Hin)]. intros ->. cbn in Hnd. apply NoDup_cons in Hnd as [Hnd _]. apply Hnd, elem_of_concat_queues. eauto.
    + intros E. apply (f_equal length) in E. rewrite (Permutation_length (concat_insert _ _ _ c Hq)) in E. done.
Qed.

(** The task that runs next, and the queues behind it. *)
Definition next_of (qs : list (list Z)) (idle : Z) : Z * list (list Z) :=
  match dequeue_highest qs with (Some x, qs') => (x, qs') | (None, qs') => (idle, qs') end.

Lemma schedule_spec :
  exists c i m' code,
    current s = Some c /\ idle_task s = Some i /\
    let '(next, qs) := next_of (put_back m s) i in
    schedule_method m s = Ret (m', mkScheduler (cpu_id s) qs (Some next) (Some i) (if next =? c then remaining_slice s else DEFAULT_TIME_SLICE) false, code) /\
    (next = c -> m' = m /\ code = AfterSwitch) /\
    (next <> c -> exists t n, tcbs m !! c = Some t /\ tcbs m !! next = Some n /\ code = rip (context n) /\ rip (context n) <> Unset /\
       schedule_switch m (cpu_id s) c next = Ret (m', code)).
Proof.
  destruct put_back_spec as (c & i & t & Ec & Ei & Ht & Eq & Hl & Hp & Hq & Hi). destruct (sw_cpu _ _ Hwf) as (k & p & Ek & Hk & Hpk).
  unfold schedule_method. rewrite Hneed. cbn [negb]. fold s0. cbn [current s0 set_need]. rewrite Ec. unfold deref at 1. rewrite Ht. cbn [obind]. rewrite Eq. cbn [obind].
  unfold pick_next, next_of. cbn [ready_queues set_queues idle_task s0 set_need]. rewrite Ei.
  pose proof (dequeue_highest_spec (put_back m s)) as Hd. destruct (dequeue_highest (put_back m s)) as [[next|] qs]; cbn [obind].
  - destruct Hd as (Hc & Hlen & Hsub). rewrite (Z.eqb_sym c next). destruct (Z.eqb_spec next c) as [->|Hne]; cbn [negb].
    + eexists c, i, m, AfterSwitch. split; [done|]. split; [done|]. split; [|done]. unfold set_queues, set_need, s0. cbn. by rewrite ?Z.eqb_refl, ?Ec, ?Ei.
    + assert (Hn : exists l q, put_back m s !! l = Some q /\ next ∈ q) by (apply elem_of_concat_queues; rewrite Hc; left).
      destruct Hn as (l & q & Hlq & Hin). destruct (Hq l q next Hlq Hin) as [[-> _]|[_ (n & Hn & Hpn & _ & Hr)]]; [done|].
      destruct (schedule_switch_spec m k p c next t n Hk Hpk ltac:(congruence) Ht Hn Hr) as (m' & Em & _).
      cbn [cpu_id set_current set_queues s0 set_need]. rewrite Ek, Em. cbn [obind fst snd]. eexists c, i, m', _. split; [done|]. split; [done|]. split; [unfold set_queues, set_current, set_need, s0; cbn; by rewrite ?(proj2 (Z.eqb_neq _ _) Hne), ?Ei, ?Ek|].
      split; [done|]. intros _. exists t, n. done.
  - destruct Hd as [-> Hnil]. specialize (Hi Hnil). subst i. rewrite Z.eqb_refl. cbn [negb]. eexists c, c, m, AfterSwitch. split; [done|]. split; [done|].
    rewrite Z.eqb_refl. split; [|done]. unfold set_queues, set_need, s0. cbn. by rewrite ?Z.eqb_refl, ?Ec, ?Ei.
Qed.

End Schedule.

(** What a switch leaves of the blocks. *)
Lemma switch_tcbs (m m' : machine) (k : nat) (p : processor) (cur next : Z) (c n : TaskControlBlock) (code : code) :
  (k < 64)%nat -> processors m !! k = Some p -> cur <> next -> tcbs m !! cur = Some c -> tcbs m !! next = Some n -> rip (context n) <> Unset ->
  schedule_switch m (Z.of_nat k) cur next = Ret (m', code) ->
  (forall x t, tcbs m !! x = Some t -> exists t', tcbs m' !! x = Some t' /\ priority t' = priority t /\
     (rip (context t) <> Unset \/ x = cur -> rip (context t') <> Unset)) /\
  (exists p', processors m' !! k = Some p').
Proof.
  intros Hk Hp Hne Hc Hn Hr E. destruct (schedule_switch_spec m k p cur next c n Hk Hp Hne Hc Hn Hr) as (m1 & E1 & Et & Eps & _).
  rewrite E in E1. apply Ret_pair_inj in E1 as [-> _]. split.
  - intros x t Hx. rewrite Et. destruct (decide (x = cur)) as [->|Hxc]; [|destruct (decide (x = next)) as [->|Hxn]].
    + rewrite lookup_insert_eq. eexists. split; [done|]. assert (t = c) by congruence. subst. done.
    + rewrite lookup_insert_ne, lookup_insert_eq by done. eexists. split; [done|]. assert (t = n) by congruence. subst. done.
    + rewrite !lookup_insert_ne by done. exists t. split; [done|]. split; [done|]. by intros [?|?].
  - rewrite Eps. eexists. apply list_lookup_insert_eq. by eapply lookup_lt_Some.
Qed.

(** The task taken from the queues is not the idle task. *)
Lemma taken_is_task (m : machine) (s : PerCpuScheduler) (x c i : Z) (rest : list Z) :
  sched_wf m s -> current s = Some c -> idle_task s = Some i -> concat (put_back m s) = x :: rest ->
  exists n, tcbs m !! x = Some n /\ 0 <= priority n < 255 /\ x <> i.
Proof.
  intros Hwf Ec Ei Hc. destruct (put_back_spec m s Hwf) as (c' & i' & t & Ec' & Ei' & Ht & _ & _ & _ & Hq & _).
  destruct (sw_current _ _ Hwf) as (c2 & i2 & t2 & ti & Ec2 & Ei2 & Ht2 & Hti & Hpi & _ & Hcur).
  assert (c' = c /\ c2 = c /\ i' = i /\ i2 = i) as (-> & -> & -> & ->) by (split_and!; congruence). assert (t2 = t) by congruence. subst t2.
  assert (Hn : exists l q, put_back m s !! l = Some q /\ x ∈ q) by (apply elem_of_concat_queues; rewrite Hc; left).
  destruct Hn as (l & q & Hlq & Hin). destruct (Hq l q x Hlq Hin) as [(-> & Hlt & _)|[_ (n & Hn & Hpn & _ & Hr)]].
  - exists t. split; [done|]. destruct Hcur as [->|[? _]]; [simplify_eq; lia|]. split; [done|]. intros ->. simplify_eq. lia.
  - exists n. split; [done|]. split; [done|]. intros ->. simplify_eq. lia.
Qed.

(** What a call of the scheduler leaves of the blocks and the processor. *)
Lemma schedule_tcbs (m m' : machine) (s : PerCpuScheduler) (c x : Z) (code : code) :
  sched_wf m s -> (x = c -> m' = m /\ code = AfterSwitch) ->
  (x <> c -> exists t n, tcbs m !! c = Some t /\ tcbs m !! x = Some n /\ code = rip (context n) /\ rip (context n) <> Unset /\
     schedule_switch m (cpu_id s) c x = Ret (m', code)) ->
  (forall y u, tcbs m !! y = Some u -> exists u', tcbs m' !! y = Some u' /\ priority u' = priority u /\
     (rip (context u) <> Unset \/ (y = c /\ x <> c) -> rip (context u') <> Unset)) /\
  exists k p, cpu_id s = Z.of_nat k /\ (k < 64)%nat /\ processors m' !! k = Some p.
Proof.
  intros Hwf Hsame Hdiff. destruct (sw_cpu _ _ Hwf) as (k & p & Ek & Hk & Hpk). destruct (decide (x = c)) as [->|Hne].
  - destruct (Hsame eq_refl) as [-> _]. split; [|by exists k, p]. intros y u Hy. exists u. split; [done|]. split; [done|]. by intros [?|[? ?]].
  - destruct (Hdiff Hne) as (t & n & Ht & Hn & _ & Hr & Esw). rewrite Ek in Esw.
    destruct (switch_tcbs m m' k p c x t n code Hk Hpk ltac:(congruence) Ht Hn Hr Esw) as [H [p' Hp']]. split; [|by exists k, p'].
    intros y u Hy. destruct (H y u Hy) as (u' & ? & ? & Hru). exists u'. split; [done|]. split; [done|]. intros [?|[? ?]]; apply Hru; auto.
Qed.

(** The invariant after a task was taken from the queues. *)
Lemma taken_wf (m m' : machine) (s : PerCpuScheduler) (c i x : Z) (qs : list (list Z)) (slice : Z) (code : code) :
  sched_wf m s -> current s = Some c -> idle_task s = Some i -> dequeue_highest (put_back m s) = (Some x, qs) ->
  (x = c -> m' = m /\ code = AfterSwitch) ->
  (x <> c -> exists t n, tcbs m !! c = Some t /\ tcbs m !! x = Some n /\ code = rip (context n) /\ rip (context n) <> Unset /\
     schedule_switch m (cpu_id s) c x = Ret (m', code)) ->
  let s' := mkScheduler (cpu_id s) qs (Some x) (Some i) slice false in sched_wf m' s' /\ tasks s' = x :: concat qs /\ x :: concat qs ≡ₚ tasks s.
Proof.
  intros Hwf Ec Ei Eq Hsame Hdiff s'. destruct (put_back_spec m s Hwf) as (c' & i' & t & Ec' & Ei' & Ht & _ & Hl & Hp & Hq & _).
  destruct (sw_current _ _ Hwf) as (c2 & i2 & t2 & ti & Ec2 & Ei2 & Ht2 & Hti & Hpi & Hni & Hcur).
  assert (c' = c /\ c2 = c /\ i' = i /\ i2 = i) as (-> & -> & -> & ->) by (split_and!; congruence). assert (t2 = t) by congruence. subst t2.
  pose proof (dequeue_highest_spec (put_back m s)) as Hd. rewrite Eq in Hd. destruct Hd as (Hc & Hlen & Hsub).
  destruct (taken_is_task m s x c i _ Hwf Ec Ei Hc) as (n & Hn & Hpn & Hxi). destruct (schedule_tcbs m m' s c x code Hwf Hsame Hdiff) as [Hold Hcpu].
  assert (Etasks : tasks s' = x :: concat qs) by (unfold tasks, s'; cbn; by rewrite decide_False by congruence).
  assert (Hperm : x :: concat qs ≡ₚ tasks s) by (rewrite <- Hc; done). split; [|done].
  assert (Hndx : NoDup (x :: concat qs)) by (rewrite Hperm; apply (sw_once _ _ Hwf)).
  constructor; rewrite ?Etasks; cbn [s' ready_queues current idle_task cpu_id]; [lia| |done| |done].
  - intros l q y Hlq Hin. destruct (Hsub l q y Hlq Hin) as (q' & Hlq' & Hin'). assert (Hy : y ∈ concat qs) by (apply elem_of_concat_queues; eauto).
    assert (Hyx : y <> x) by (intros ->; by apply NoDup_cons in Hndx as [? _]).
    destruct (Hq l q' y Hlq' Hin') as [(-> & Hlt & ->)|[_ (u & Hu & Hpu & Hlu & Hru)]].
    + destruct (Hold c t Ht) as (u' & Hu' & Hpr & Hr'). exists u'. split; [done|]. rewrite Hpr. destruct Hcur as [->|[? _]]; [simplify_eq; lia|]. split; [done|]. split; [done|]. auto.
    + destruct (Hold y u Hu) as (u' & Hu' & Hpr & Hr'). exists u'. split; [done|]. rewrite Hpr. split; [done|]. split; [done|]. auto.
  - destruct (Hold x n Hn) as (n' & Hn' & Hprn & _). destruct (Hold i ti Hti) as (ti' & Hti' & Hpri & Hri). exists x, i, n', ti'. split; [done|]. split; [done|]. split; [done|]. split; [done|].
    split; [lia|]. split.
    + unfold all_queued. cbn [s' ready_queues]. intros Hii. assert (Hit : i ∈ tasks s) by (rewrite <- Hperm; by right).
      unfold tasks in Hit. apply elem_of_app in Hit as [Hit|Hit]; [|done]. rewrite Ec, Ei in Hit. case_decide; [by apply elem_of_nil in Hit|].
      apply list_elem_of_singleton in Hit. congruence.
    + right. split; [by rewrite Hprn|]. apply Hri. destruct Hcur as [->|[_ ?]]; [right; split; [done|congruence]|by left].
Qed.

Lemma schedule_correct (m : machine) (s : PerCpuScheduler) :
  sched_wf m s -> need_reschedule s = true ->
  exists m' s' c, schedule_method m s = Ret (m', s', c) /\ sched_wf m' s' /\ tasks s' ≡ₚ tasks s /\
    (forall x rest, concat (put_back m s) = x :: rest -> current s' = Some x /\ all_queued s' = rest) /\
    (concat (put_back m s) = [] -> current s' = idle_task s').
Proof.
  intros Hwf Hneed. destruct (put_back_spec m s Hwf) as (c & i & t & Ec & Ei & Ht & _ & Hl & Hp & Hq & Hi).
  destruct (schedule_spec m s Hwf Hneed) as (c' & i' & m' & code & Ec' & Ei' & Hs). assert (c' = c /\ i' = i) as [-> ->] by (split; congruence).
  unfold next_of in Hs. destruct (dequeue_highest (put_back m s)) as [[x|] qs] eqn:Ed; pose proof (dequeue_highest_spec (put_back m s)) as Hd; rewrite Ed in Hd.
  - destruct Hs as (Es & Hsame & Hdiff). eexists m', _, code. split; [exact Es|].
    destruct (taken_wf m m' s c i x qs (if x =? c then remaining_slice s else DEFAULT_TIME_SLICE) code Hwf Ec Ei Ed Hsame Hdiff) as (Hw & Et & Hperm).
    split; [done|]. split; [by rewrite Et|]. destruct Hd as [-> _]. split; [by intros x' rest [= <- <-]|done].
  - destruct Hd as [-> Hnil]. specialize (Hi Hnil). subst i. destruct Hs as (Es & Hsame & _). destruct (Hsame eq_refl) as [-> ->].
    eexists m, _, AfterSwitch. split; [exact Es|]. assert (Et0 : tasks s = []) by (apply Permutation_nil; by rewrite <- Hp, Hnil).
    split; [|split; [|split; [by rewrite Hnil|done]]].
    + destruct (sw_current _ _ Hwf) as (c2 & i2 & t2 & ti & Ec2 & Ei2 & Ht2 & Hti & Hpi & _). assert (c2 = c /\ i2 = c) as [-> ->] by (split; congruence).
      constructor; cbn [ready_queues current idle_task cpu_id]; [done| |unfold tasks, all_queued; cbn; rewrite decide_True by done; rewrite Hnil; apply NoDup_nil_2| |apply (sw_cpu _ _ Hwf)].
      * intros l q y Hlq Hin. exfalso. assert (Hy : y ∈ concat (put_back m s)) by (apply elem_of_concat_queues; eauto). rewrite Hnil in Hy. by apply elem_of_nil in Hy.
      * exists c, c, ti, ti. unfold all_queued. cbn. rewrite Hnil. split_and!; try done; [apply not_elem_of_nil|by left].
    + rewrite Et0. unfold tasks, all_queued. cbn. rewrite decide_True by done. by rewrite Hnil.
Qed.

(** C31: on a well-formed processor, where no task but the idle one has priority 255, a
    call of the scheduler loses no task and duplicates none: the tasks of the
    processor, running or queued, are the same before and after, each once, every
    one in the queue of its priority; and the task that runs next is the first of
    the best level, the task that ran so far being put behind its level. *)
Theorem schedule_keeps_tasks (m : machine) (s : PerCpuScheduler) :
  sched_wf m s -> need_reschedule s = true ->
  exists m' s' c, schedule_method m s = Ret (m', s', c) /\ sched_wf m' s' /\ tasks s' ≡ₚ tasks s /\
    (forall x rest, concat (put_back m s) = x :: rest -> current s' = Some x /\ all_queued s' = rest) /\
    (concat (put_back m s) = [] -> current s' = idle_task s').
Proof. apply schedule_correct. Qed.

(** ** Turns *)

(** The running task gives up the processor again and again. *)
Fixpoint yields (n : nat) (m : machine) (s : PerCpuScheduler) : outcome (machine * PerCpuScheduler) :=
  match n with
  | O => Ret (m, s)
  | S n => let! r := schedule_method m (request_reschedule s) in yields n r.1.1 r.1.2
  end.

Lemma wf_request (m : machine) (s : PerCpuScheduler) : sched_wf m s -> sched_wf m (request_reschedule s).
Proof. intros [H1 H2 H3 H4 H5]. constructor; done. Qed.

(** [c] runs and [q] waits at level [l]; nothing better waits. *)
Record top (m : machine) (s : PerCpuScheduler) (l : nat) (c : Z) (q : list Z) : Prop := {
  tp_current : current s = Some c;
  tp_task : exists t, tcbs m !! c = Some t /\ priority t < 255 /\ queue_idx (priority t) = l;
  tp_queues : exists rest, ready_queues s = replicate l [] ++ q :: rest }.

Lemma dequeue_skips (l : nat) (x : Z) (q : list Z) (rest : list (list Z)) :
  dequeue_highest (replicate l [] ++ (x :: q) :: rest) = (Some x, replicate l [] ++ q :: rest).
Proof. induction l as [|l IH]; cbn; [done|]. by rewrite IH. Qed.

Lemma insert_at_level (l : nat) (q q' : list Z) (rest : list (list Z)) :
  <[l := q']> (replicate l [] ++ q :: rest) = replicate l [] ++ q' :: rest.
Proof. rewrite insert_app_r_alt by (rewrite length_replicate; lia). rewrite length_replicate, Nat.sub_diag. done. Qed.

Lemma turn (m : machine) (s : PerCpuScheduler) (l : nat) (c c' : Z) (q q' : list Z) :
  sched_wf m s -> top m s l c q -> q ++ [c] = c' :: q' ->
  exists m' s' code, schedule_method m (request_reschedule s) = Ret (m', s', code) /\ sched_wf m' s' /\ top m' s' l c' q'.
Proof.
  intros Hwf [Ec (t & Ht & Hpt & Hlt) (rest & Eq)] Erot. apply wf_request in Hwf. set (s1 := request_reschedule s) in *.
  destruct (schedule_spec m s1 Hwf eq_refl) as (c0 & i & m' & code & Ec0 & Ei & Hs). assert (c0 = c) as -> by (cbn in Ec0; congruence).
  assert (Epb : put_back m s1 = replicate l [] ++ (c' :: q') :: rest).
  { unfold put_back, s1. cbn. rewrite Ec, Ht. rewrite (proj2 (Z.ltb_lt _ _)) by done. rewrite Hlt, Eq.
    rewrite lookup_app_r by (rewrite length_replicate; lia). rewrite length_replicate, Nat.sub_diag. cbn. by rewrite insert_at_level, Erot. }
  unfold next_of in Hs. rewrite Epb, dequeue_skips in Hs. destruct Hs as (Es & Hsame & Hdiff). eexists m', _, code. split; [exact Es|].
  destruct (taken_wf m m' s1 c i c' _ (if c' =? c then remaining_slice s1 else DEFAULT_TIME_SLICE) code Hwf Ec Ei ltac:(rewrite Epb; apply dequeue_skips) Hsame Hdiff) as (Hw & _).
  split; [done|]. constructor; [done| |by exists rest].
  assert (Hn : exists n, tcbs m !! c' = Some n /\ priority n < 255 /\ queue_idx (priority n) = l).
  { destruct (decide (c' ∈ q)) as [Hin|Hin].
    - destruct (sw_queued _ _ Hwf l q c') as (n & ? & ? & ? & ?); [|done|exists n; split_and!; [done|lia|done]].
      cbn. rewrite Eq, lookup_app_r by (rewrite length_replicate; lia). by rewrite length_replicate, Nat.sub_diag.
    - assert (c' ∈ q ++ [c]) as [?| ->%list_elem_of_singleton]%elem_of_app by (rewrite Erot; left); [done|]. by exists t. }
  destruct Hn as (n & Hn & Hpn & Hln). destruct (schedule_tcbs m m' s1 c c' code Hwf Hsame Hdiff) as [Hold _].
  destruct (Hold c' n Hn) as (n' & ? & Hpr & _). exists n'. by rewrite Hpr.
Qed.

Lemma turns (l k : nat) (m : machine) (s : PerCpuScheduler) (c : Z) (q : list Z) :
  sched_wf m s -> top m s l c q -> (k <= length q)%nat ->
  exists m' s' c' q', yields k m s = Ret (m', s') /\ sched_wf m' s' /\ top m' s' l c' q' /\ c' :: q' = drop k (c :: q) ++ take k (c :: q).
Proof.
  revert m s c q. induction k as [|k IH]; intros m s c q Hwf Htop Hk; [exists m, s, c, q; rewrite app_nil_r; done|].
  destruct q as [|x q]; [cbn in Hk; lia|]. destruct (turn m s l c x (x :: q) (q ++ [c]) Hwf Htop eq_refl) as (m1 & s1 & code & E1 & Hw1 & Ht1).
  destruct (IH m1 s1 x (q ++ [c]) Hw1 Ht1 ltac:(rewrite length_app; cbn in *; lia)) as (m2 & s2 & c2 & q2 & E2 & Hw2 & Ht2 & Er).
  exists m2, s2, c2, q2. cbn [yields]. rewrite E1. cbn [obind fst snd]. split; [done|]. split; [done|]. split; [done|]. rewrite Er.
  cbn [length] in Hk. change (x :: q ++ [c]) with ((x :: q) ++ [c]). rewrite drop_app_le, take_app_le by (cbn; lia). rewrite <- app_assoc. done.
Qed.

(** tasks of the best level run in turn: when [c] runs and the queue of its
    level is [q], nothing better waiting, then after [n] changes the [n]th of them
    runs, and behind it wait the others in order, [c] and those that ran after it
    last. *)
Theorem round_robin (m : machine) (s : PerCpuScheduler) (l : nat) (c : Z) (q : list Z) (n : nat) :
  sched_wf m s -> top m s l c q -> (n <= length q)%nat ->
  exists m' s' c' q', yields n m s = Ret (m', s') /\ top m' s' l c' q' /\ c' :: q' = drop n (c :: q) ++ take n (c :: q).
Proof.
  intros Hwf Htop Hn. destruct (turns l n m s c q Hwf Htop Hn) as (m' & s' & c' & q' & E & _ & H). by exists m', s', c', q'.
Qed.

(** ** Time slices *)

Lemma ticks_spec (n : nat) (s : PerCpuScheduler) :
  0 <= remaining_slice s -> need_reschedule s = false ->
  let s' := Nat.iter n (fun s => (tick s).2) s in
  remaining_slice s' = Z.max 0 (remaining_slice s - Z.of_nat n) /\
  need_reschedule s' = ((0 <? Z.of_nat n) && (remaining_slice s <=? Z.of_nat n)) /\ ready_queues s' = ready_queues s /\ current s' = current s.
Proof.
  intros H0 Hn. induction n as [|n IH]; [cbn; split; [lia|done]|]. cbn [Nat.iter nat_rect]. destruct IH as (Hr & Hd & Hq & Hc).
  set (s1 := Nat.iter n _ s) in *. change (nat_rect _ s _ n) with s1. unfold tick. rewrite Hr.
  assert (E : (if Z.max 0 (remaining_slice s - Z.of_nat n) >? 0 then Z.max 0 (remaining_slice s - Z.of_nat n) - 1 else Z.max 0 (remaining_slice s - Z.of_nat n)) =
    Z.max 0 (remaining_slice s - Z.of_nat (S n))) by (rewrite Z.gtb_ltb; case_if; lia).
  rewrite E. rewrite (proj2 (Z.ltb_lt 0 (Z.of_nat (S n)))) by lia. cbn [andb].
  destruct (Z.eqb_spec (Z.max 0 (remaining_slice s - Z.of_nat (S n))) 0) as [Ez|Ez]; cbn.
  - split; [done|]. split; [symmetry; apply Z.leb_le; lia|]. done.
  - split; [done|]. split; [|done]. rewrite Hd. rewrite (proj2 (Z.leb_gt _ _)) by lia. rewrite (proj2 (Z.leb_gt _ _)) by lia. apply andb_false_r.
Qed.

(** a task that was just given the processor keeps it for ten ticks: no
    reschedule is requested by the first nine, and one is by the tenth and by every
    one after it; ticks move nothing in the queues. *)
Theorem time_slice_expires (m m' : machine) (s s' : PerCpuScheduler) (c : Z) (code : code) (n : nat) :
  sched_wf m s -> need_reschedule s = true -> current s = Some c -> schedule_method m s = Ret (m', s', code) -> current s' <> Some c ->
  let s2 := Nat.iter n (fun s => (tick s).2) s' in
  need_reschedule s2 = (10 <=? Z.of_nat n) /\ current s2 = current s' /\ ready_queues s2 = ready_queues s'.
Proof.
  intros Hwf Hneed Ec Es Hne. destruct (schedule_spec m s Hwf Hneed) as (c0 & i & m1 & code1 & Ec0 & Ei & Hs). assert (c0 = c) as -> by congruence.
  destruct (next_of (put_back m s) i) as [next qs]. destruct Hs as (Es1 & _). rewrite Es in Es1. injection Es1 as -> -> ->. cbn in Hne.
  destruct (Z.eqb_spec next c) as [->|]; [done|]. intros s2.
  destruct (ticks_spec n (mkScheduler (cpu_id s) qs (Some next) (Some i) DEFAULT_TIME_SLICE false)) as (Hr & Hn & Hq & Hc); [done|done|].
  split; [|done]. unfold s2. rewrite Hn. cbn [remaining_slice]. unfold DEFAULT_TIME_SLICE. destruct n; [done|]. rewrite (proj2 (Z.ltb_lt 0 _)) by lia. done.
Qed.

(** ** Blocking *)

Lemma block_spec (m : machine) (s : PerCpuScheduler) (c : Z) :
  sched_wf m s -> current s = Some c ->
  exists m1, block_current m s = Ret (m1, request_reschedule s) /\ sched_wf m1 (request_reschedule s) /\ processors m1 = processors m /\
    (exists t, tcbs m1 !! c = Some t /\ state t = Blocked).
Proof.
  intros Hwf Ec. destruct (sw_current _ _ Hwf) as (c' & i & t & ti & Ec' & Ei & Ht & Hti & Hpi & Hni & Hcur). assert (c' = c) as -> by congruence.
  unfold block_current. rewrite Ec. unfold deref. rewrite Ht. cbn [obind]. eexists. split; [done|].
  assert (Hold : forall x u, tcbs m !! x = Some u -> exists u', <[c := set_state t Blocked]> (tcbs m) !! x = Some u' /\ priority u' = priority u /\ context u' = context u).
  { intros x u Hx. rewrite lookup_insert. case_decide; [subst; assert (u = t) by congruence; subst; by eexists|by exists u]. }
  split; [|split; [done|]; eexists; split; [apply lookup_insert_eq|done]].
  destruct Hwf as [H1 H2 H3 _ H5]. constructor; cbn [tcbs set_tcbs processors]; try done.
  - intros l q p Hq Hp. destruct (H2 l q p Hq Hp) as (u & Hu & Hpu & Hlu & Hru). destruct (Hold p u Hu) as (u' & ? & E1 & E2). exists u'. rewrite E1, E2. done.
  - destruct (Hold c t Ht) as (t' & Ht' & E1 & _). destruct (Hold i ti Hti) as (ti' & Hti' & E2 & E3). exists c, i, t', ti'. rewrite E1, E2, E3. done.
Qed.

(** a task that blocks is not taken off the processor: after [block_current]
    and the call of the scheduler that it requests, the task is still running or
    waits in a ready queue, so it runs again without having been unblocked; and
    if another task was chosen, its state says ready, not blocked. *)
Theorem blocked_task_stays_ready (m : machine) (s : PerCpuScheduler) (c : Z) :
  sched_wf m s -> current s = Some c -> idle_task s <> Some c ->
  exists m1 m2 s2 code, block_current m s = Ret (m1, request_reschedule s) /\ schedule_method m1 (request_reschedule s) = Ret (m2, s2, code) /\
    c ∈ tasks s2 /\ (current s2 <> Some c -> c ∈ all_queued s2 /\ exists t, tcbs m2 !! c = Some t /\ state t = Ready).
Proof.
  intros Hwf Ec Hidle. destruct (block_spec m s c Hwf Ec) as (m1 & Eb & Hw1 & Ep & _). set (s1 := request_reschedule s) in *.
  destruct (schedule_correct m1 s1 Hw1 eq_refl) as (m2 & s2 & code & Es & Hw2 & Hperm & _).
  assert (Hin : c ∈ tasks s2) by (rewrite Hperm; unfold tasks, s1; cbn; rewrite decide_False by congruence; rewrite Ec; left).
  exists m1, m2, s2, code. split; [done|]. split; [done|]. split; [done|]. intros Hne. split.
  - unfold tasks in Hin. case_decide; cbn in Hin; [done|]. apply elem_of_app in Hin as [Hin|]; [|done]. destruct (current s2) as [c2|]; [|by apply elem_of_nil in Hin].
    apply list_elem_of_singleton in Hin. congruence.
  - destruct (schedule_spec m1 s1 Hw1 eq_refl) as (c0 & i & m3 & code3 & Ec0 & Ei & Hs). assert (c0 = c) as -> by (cbn in Ec0; congruence).
    destruct (next_of (put_back m1 s1) i) as [next qs]. destruct Hs as (Es3 & _ & Hdiff). rewrite Es in Es3. injection Es3 as -> -> ->. cbn in Hne.
    destruct (Hdiff ltac:(congruence)) as (t & n & Ht & Hn & _ & Hr & Esw). destruct (sw_cpu _ _ Hw1) as (k & p & Ek & Hk & Hpk). rewrite Ek in Esw.
    destruct (schedule_switch_spec m1 k p c next t n Hk Hpk ltac:(congruence) Ht Hn Hr) as (m4 & E4 & Et & _). rewrite Esw in E4. apply Ret_pair_inj in E4 as [-> _].
    rewrite Et, lookup_insert_eq. by eexists.
Qed.

(** ** New tasks *)

(** the lock on a processor's scheduler is held across the context switch and
    released by the task that continues.  When that is a task that has never run,
    nothing releases it: after the switch every operation on the scheduler of
    that processor, the timer tick included, spins for ever. *)
Theorem new_task_keeps_lock (m : machine) (cpu : nat) (p : processor) (s : PerCpuScheduler) (x : Z) (rest : list Z) (n : TaskControlBlock) :
  processors m !! cpu = Some p -> locked p = false -> scheduler p = Some s -> cpu_id s = Z.of_nat cpu ->
  sched_wf m s -> need_reschedule s = true -> concat (put_back m s) = x :: rest -> current s <> Some x ->
  tcbs m !! x = Some n -> rip (context n) = Trampoline ->
  exists m', schedule m cpu = Done m' /\ get_current_task m' (Z.of_nat cpu) = Some x /\
    timer_tick m' cpu = Spins /\ schedule m' cpu = Spins /\ request_reschedule_on m' cpu = Spins /\ yield_current m' cpu = Spins.
Proof.
  intros Hp Hl Hs Hcpu Hwf Hneed Hpb Hne Hn Hr. destruct (schedule_spec m s Hwf Hneed) as (c & i & m1 & code & Ec & Ei & Hspec).
  pose proof (dequeue_highest_spec (put_back m s)) as Hd. unfold next_of in Hspec. destruct (dequeue_highest (put_back m s)) as [[x'|] qs]; [|destruct Hd; congruence].
  destruct Hd as [Hx _]. rewrite Hpb in Hx. injection Hx as <- _. destruct Hspec as (Es & _ & Hdiff). destruct (Hdiff ltac:(congruence)) as (t & n' & Ht & Hn' & Ecode & _ & Esw).
  assert (n' = n) as -> by congruence. destruct (sw_cpu _ _ Hwf) as (k & p' & Ek & Hk & Hpk). assert (k = cpu) as -> by lia. assert (p' = p) as -> by congruence. rewrite Ek in Esw.
  destruct (schedule_switch_spec m cpu p c x t n Hk Hp ltac:(congruence) Ht Hn ltac:(congruence)) as (m2 & E2 & _ & Eps & _). rewrite Esw in E2. apply Ret_pair_inj in E2 as [-> _].
  apply lookup_lt_Some in Hp as Hlt. assert (Hp2 : processors m2 !! cpu = Some (mkProcessor (context n) (Some x) (locked p) (scheduler p))) by (rewrite Eps; by apply list_lookup_insert_eq).
  eexists. split.
  { unfold schedule, with_scheduler. rewrite (proj2 (index_Ret _ _ _) Hp). cbn [lift bind]. rewrite Hl, Hs, Es. cbn [obind lift bind]. rewrite (proj2 (index_Ret _ _ _) Hp2). cbn [lift bind fst].
    rewrite Ecode, Hr. done. }
  set (m' := set_processors m2 _).
  assert (Hp' : index (processors m') cpu = Ret (mkProcessor (context n) (Some x) true (Some (mkScheduler (cpu_id s) qs (Some x) (Some i) (if x =? c then remaining_slice s else DEFAULT_TIME_SLICE) false)))).
  { apply index_Ret. unfold m'. cbn [processors set_processors]. apply list_lookup_insert_eq. rewrite Eps, length_insert. done. }
  split; [|split_and!; unfold timer_tick, schedule, yield_current, request_reschedule_on, with_scheduler; rewrite Hp'; done].
  unfold get_current_task. rewrite (proj2 (Z.ltb_lt _ _)) by lia. rewrite Nat2Z.id. apply index_Ret in Hp'. by rewrite Hp'.
Qed.

(** ** Concrete machines *)

(** The machine after start-up, the start of a task of priority 3 and a request to
    reschedule. *)
Definition after_spawn : run machine :=
  do! m := init_scheduler machine_new 0 (Some 65536) in
  do! r := spawn_task m 4096 7 3 (Some 131072) in
  request_reschedule_on r.1 0.

Definition booted : machine := match after_spawn with Done m => m | _ => machine_new end.
Definition booted_cpu : processor := default (mkProcessor context_empty None false None) (processors booted !! O).
Definition booted_scheduler : PerCpuScheduler := default (scheduler_new 0) (scheduler booted_cpu).

(** Two tasks of priority 3, at 2 and 3; 2 runs. *)
Definition task_at (n prio : Z) (c : code) : TaskControlBlock :=
  mkTcb n Ready (mkContext 0 0 0 0 0 0 0 c 512) (mkStack 65536) prio 0 None.
Definition two_tasks : machine :=
  mkMachine {[1 := task_at 0 255 AfterSwitch; 2 := task_at 1 3 AfterSwitch; 3 := task_at 2 3 AfterSwitch]} 4 3
    (replicate 64 (mkProcessor context_empty None false None)) [2; 3] 0.
Definition two_scheduler : PerCpuScheduler := mkScheduler 0 [[]; []; []; [3]; []; []; []; []] (Some 2) (Some 1) 0 true.

Lemma two_tasks_wf : sched_wf two_tasks two_scheduler.
Proof.
  constructor; [done| | | |].
  - intros l q p Hq Hp. destruct l as [|[|[|[|[|[|[|[|l]]]]]]]]; vm_compute in Hq; try done; injection Hq as <-; try (by apply elem_of_nil in Hp).
    apply list_elem_of_singleton in Hp. subst p. eexists. split; [by vm_compute|]. by vm_compute.
  - by apply (bool_decide_unpack _); vm_compute.
  - eexists 2, 1, _, _. split; [done|]. split; [done|]. split; [by vm_compute|]. split; [by vm_compute|]. split; [done|].
    split; [by apply (bool_decide_unpack _); vm_compute|]. right. by vm_compute.
  - eexists O, _. split; [done|]. split; [lia|]. done.
Qed.

Lemma booted_sched_wf : sched_wf booted booted_scheduler.
Proof.
  constructor; [by vm_compute| | | |].
  - intros l q p Hq Hp. destruct l as [|[|[|[|[|[|[|[|l]]]]]]]]; vm_compute in Hq; try done; injection Hq as <-; try (by apply elem_of_nil in Hp).
    apply list_elem_of_singleton in Hp. subst p. eexists. split; [by vm_compute|]. by vm_compute.
  - by apply (bool_decide_unpack _); vm_compute.
  - eexists 1, 1, _, _. split; [by vm_compute|]. split; [by vm_compute|]. split; [by vm_compute|]. split; [by vm_compute|]. split; [by vm_compute|].
    split; [by apply (bool_decide_unpack _); vm_compute|]. by left.
  - eexists O, _. split; [done|]. split; [lia|]. by vm_compute.
Qed.

Lemma schedule_keeps_tasks_witness :
  exists m' s' c, schedule_method two_tasks two_scheduler = Ret (m', s', c) /\ sched_wf m' s' /\ tasks s' ≡ₚ tasks two_scheduler /\
    (forall x rest, concat (put_back two_tasks two_scheduler) = x :: rest -> current s' = Some x /\ all_queued s' = rest) /\
    (concat (put_back two_tasks two_scheduler) = [] -> current s' = idle_task s').
Proof. apply schedule_keeps_tasks; [exact two_tasks_wf | done]. Defined.

Lemma two_top : top two_tasks two_scheduler 3 2 [3].
Proof. constructor; [done| |by eexists]. eexists. split; [by vm_compute|]. by vm_compute. Qed.

Lemma round_robin_witness :
  exists m' s' c' q', yields 1 two_tasks two_scheduler = Ret (m', s') /\ top m' s' 3 c' q' /\ c' :: q' = drop 1 [2; 3] ++ take 1 [2; 3].
Proof. apply round_robin; [exact two_tasks_wf | exact two_top | cbn; lia]. Defined.

Lemma time_slice_expires_witness :
  match schedule_method two_tasks two_scheduler with
  | Ret (_, s', _) =>
      let s2 := Nat.iter 10 (fun s => (tick s).2) s' in
      need_reschedule s2 = (10 <=? Z.of_nat 10) /\ current s2 = current s' /\ ready_queues s2 = ready_queues s'
  | Panic => False
  end.
Proof.
  destruct (schedule_method two_tasks two_scheduler) as [[[m' s'] c]|] eqn:E; [|by vm_compute in E].
  apply (time_slice_expires two_tasks m' two_scheduler s' 2 c 10 two_tasks_wf eq_refl eq_refl E). vm_compute in E. injection E as _ <- _. done.
Defined.

Lemma blocked_task_stays_ready_witness :
  exists m1 m2 s2 code, block_current two_tasks two_scheduler = Ret (m1, request_reschedule two_scheduler) /\
    schedule_method m1 (request_reschedule two_scheduler) = Ret (m2, s2, code) /\
    2 ∈ tasks s2 /\ (current s2 <> Some 2 -> 2 ∈ all_queued s2 /\ exists t, tcbs m2 !! 2 = Some t /\ state t = Ready).
Proof. apply blocked_task_stays_ready; [exact two_tasks_wf | done | done]. Defined.

Lemma new_task_keeps_lock_witness :
  exists m', schedule booted 0 = Done m' /\ get_current_task m' 0 = Some 2 /\
    timer_tick m' 0 = Spins /\ schedule m' 0 = Spins /\ request_reschedule_on m' 0 = Spins /\ yield_current m' 0 = Spins.
Proof.
  eapply (new_task_keeps_lock booted 0 booted_cpu booted_scheduler 2 []); [by vm_compute | by vm_compute | by vm_compute | by vm_compute | exact booted_sched_wf
    | by vm_compute | by vm_compute | by vm_compute | by vm_compute | by vm_compute].
Defined.

(** A task that blocks, is unblocked by an event and was queued all along is queued
    twice. *)
Lemma unblock_queues_twice :
  match block_current two_tasks two_scheduler with
  | Ret (m1, s1) => match schedule_method m1 s1 with
    | Ret (m2, s2, _) => match unblock m2 s2 2 with Ret (_, s3) => all_queued s3 = [2; 2] | Panic => False end
    | Panic => False end
  | Panic => False end.
Proof. by vm_compute. Qed.
