(* ===== verification/OrderedMap.v ===== *)
(** * Ordered maps

    [BTreeMap] is a [gmap]; where the source iterates over it, it does so in the
    order of the keys.  [entries] is that iteration, for the two kinds of key the
    kernel uses, machine words and strings; [min_by_key] is the iterator adaptor
    that returns the first element with the least key. *)

From stdpp Require Import base list gmap strings sorting.
From Stdlib Require Import ZArith Lia.
From S2P Require Import Prelude.

Local Open Scope Z_scope.

(** A type of keys with the order of the source's [Ord]. *)
Class KeyOrder (K : Type) `{Countable K} := {
  key_le : relation K;
  #[global] key_le_dec :: RelDecision key_le;
  #[global] key_le_trans :: Transitive key_le;
  #[global] key_le_total :: Total key_le;
  #[global] key_le_antisymm :: AntiSymm (=) key_le }.

#[export] Instance key_order_Z : KeyOrder Z := { key_le := Z.le }.

#[export] Instance key_order_string : KeyOrder string := { key_le := String.le }.

Section Entries.
Context {K : Type} `{KeyOrder K} {A : Type}.
Implicit Types (m : gmap K A) (k : K) (a : A).

Definition entry_le (x y : K * A) : Prop := key_le x.1 y.1.
#[global] Instance entry_le_dec : RelDecision entry_le.
Proof. intros x y. unfold entry_le. apply _. Defined.

(** [map.iter()] *)
Definition entries m : list (K * A) := merge_sort entry_le (map_to_list m).

(** [map.values()] *)
Definition map_values m : list A := (entries m).*2.

Lemma entries_perm m : entries m ≡ₚ map_to_list m.
Proof. apply merge_sort_Permutation. Qed.

Lemma elem_of_entries m k a : (k, a) ∈ entries m <-> m !! k = Some a.
Proof. by rewrite entries_perm, elem_of_map_to_list. Qed.

Lemma entries_keys_NoDup m : NoDup (entries m).*1.
Proof. rewrite entries_perm. apply NoDup_fst_map_to_list. Qed.

Lemma entries_NoDup m : NoDup (entries m).
Proof. rewrite entries_perm. apply NoDup_map_to_list. Qed.

Lemma entries_sorted m : StronglySorted entry_le (entries m).
Proof.
  apply StronglySorted_merge_sort.
  - intros x y z Hxy Hyz. unfold entry_le in *. by etrans.
  - intros x y. unfold entry_le. apply total, _.
Qed.

Lemma entries_length m : length (entries m) = base.size m.
Proof. by rewrite entries_perm, length_map_to_list. Qed.

Lemma entries_empty : entries (∅ : gmap K A) = [].
Proof. unfold entries. by rewrite map_to_list_empty. Qed.

Lemma elem_of_map_values m a : a ∈ map_values m <-> exists k, m !! k = Some a.
Proof.
  unfold map_values. rewrite list_elem_of_fmap. split.
  - intros ([k b] & -> & Hin). exists k. by apply elem_of_entries.
  - intros [k Hk]. exists (k, a). split; [done | by apply elem_of_entries].
Qed.

End Entries.

(** ** [Iterator::sum] *)

Definition sum (l : list Z) : Z := foldr Z.add 0 l.

Lemma sum_perm (l l' : list Z) : l ≡ₚ l' -> sum l = sum l'.
Proof. unfold sum. induction 1; cbn; lia. Qed.

(** ** [Iterator::min_by_key] *)

Section MinBy.
Context {A : Type} (f : A -> Z).

Definition min_step (best : option A) (x : A) : option A :=
  match best with
  | Some b => if f x <? f b then Some x else Some b
  | None => Some x
  end.

Definition min_by_key (l : list A) : option A := foldl min_step None l.

Lemma min_steps (l : list A) (best : A) :
  exists r, foldl min_step (Some best) l = Some r /\ (r = best \/ r ∈ l) /\ f r <= f best /\ forall x, x ∈ l -> f r <= f x.
Proof.
  revert best. induction l as [|y l IH]; intros best; cbn.
  { exists best. split; [done|]. split; [by left|]. split; [lia|]. by intros x ?%elem_of_nil. }
  case_if.
  - destruct (IH y) as (r & -> & Hr & Hle & Hmin). exists r. split; [done|].
    split; [right; destruct Hr as [->|Hr]; [apply list_elem_of_here | by apply list_elem_of_further]|].
    split; [lia|]. intros x [->|Hx]%elem_of_cons; [done | by apply Hmin].
  - destruct (IH best) as (r & -> & Hr & Hle & Hmin). exists r. split; [done|].
    split; [destruct Hr as [->|Hr]; [by left | right; by apply list_elem_of_further]|].
    split; [done|]. intros x [->|Hx]%elem_of_cons; [lia | by apply Hmin].
Qed.

Lemma min_by_key_Some (l : list A) (r : A) :
  min_by_key l = Some r -> r ∈ l /\ forall x, x ∈ l -> f r <= f x.
Proof.
  destruct l as [|y l]; [done|]. unfold min_by_key. cbn.
  destruct (min_steps l y) as (r' & -> & Hr & Hle & Hmin). intros [= ->]. split.
  - destruct Hr as [->|Hr]; [apply list_elem_of_here | by apply list_elem_of_further].
  - intros x [->|Hx]%elem_of_cons; [done | by apply Hmin].
Qed.

Lemma min_by_key_None (l : list A) : min_by_key l = None -> l = [].
Proof.
  destruct l as [|y l]; [done|]. unfold min_by_key. cbn.
  destruct (min_steps l y) as (r' & -> & _). done.
Qed.

End MinBy.
