(* ===== verification/PageCache.v ===== *)
(** * The page cache of files (src/src/fs/cache.rs)

    Pages are kept per file, each with its dirty flag and the time of its last
    access; [insert] evicts the least recently used clean page when the limit is
    reached.  Pages are reachable through the cache only, so a page is a value of
    the cache; the methods run one after the other. *)

From stdpp Require Import base list gmap sorting.
From Stdlib Require Import ZArith Lia.
From S2P Require Import Prelude OrderedMap.

Local Open Scope Z_scope.

Definition PAGE_SIZE : Z := 4096.
Definition DEFAULT_CACHE_LIMIT : Z := 64 * 1024 * 1024.

Inductive PageState := Clean | Dirty | Reading | Writing | Invalid.

#[export] Instance page_state_eq_dec : EqDecision PageState.
Proof. solve_decision. Defined.

(** ** A page *)

Record CachedPage := mkPage {
  data : list Z; page_num : Z; state : PageState; last_access : Z; pin_count : Z; dirty : bool }.

Definition page_new (pn : Z) (d : list Z) : CachedPage := mkPage d pn Clean 0 0 false.
Definition page_new_empty (pn : Z) : CachedPage := page_new pn (replicate (Z.to_nat PAGE_SIZE) 0).

Definition set_state (p : CachedPage) (s : PageState) : CachedPage :=
  mkPage (data p) (page_num p) s (last_access p) (pin_count p) (dirty p).
Definition page_mark_dirty (p : CachedPage) : CachedPage :=
  set_state (mkPage (data p) (page_num p) (state p) (last_access p) (pin_count p) true) Dirty.
Definition mark_clean (p : CachedPage) : CachedPage :=
  set_state (mkPage (data p) (page_num p) (state p) (last_access p) (pin_count p) false) Clean.
Definition touch (p : CachedPage) (time : Z) : CachedPage :=
  mkPage (data p) (page_num p) (state p) time (pin_count p) (dirty p).
Definition pin (p : CachedPage) : CachedPage :=
  mkPage (data p) (page_num p) (state p) (last_access p) (pin_count p +w 1) (dirty p).
Definition unpin (p : CachedPage) : CachedPage :=
  mkPage (data p) (page_num p) (state p) (last_access p) (pin_count p -w 1) (dirty p).
Definition is_pinned (p : CachedPage) : bool := pin_count p >? 0.

(** The number of bytes copied and the buffer afterwards. *)
Definition page_read (p : CachedPage) (offset : Z) (buf : list Z) : Z * list Z :=
  let available := Z.max 0 (Z.of_nat (length (data p)) - offset) in
  let to_read := Z.min (Z.of_nat (length buf)) available in
  if to_read >? 0 then
    (to_read, take (Z.to_nat to_read) (drop (Z.to_nat offset) (data p)) ++ drop (Z.to_nat to_read) buf)
  else (to_read, buf).

(** The page is left as it is. *)
Definition page_write (p : CachedPage) (offset : Z) (buf : list Z) : Z * CachedPage :=
  let available := Z.max 0 (PAGE_SIZE - offset) in
  (Z.min (Z.of_nat (length buf)) available, p).

(** ** The cache of a file *)

Record FileCache := mkFile { ino : Z; pages : gmap Z CachedPage; file_size : Z }.

Definition file_new (i size : Z) : FileCache := mkFile i ∅ size.
Definition with_pages (f : FileCache) (ps : gmap Z CachedPage) : FileCache := mkFile (ino f) ps (file_size f).
Definition get_page (f : FileCache) (pn : Z) : option CachedPage := pages f !! pn.
Definition insert_page (f : FileCache) (p : CachedPage) : FileCache := with_pages f (<[page_num p := p]> (pages f)).
Definition remove_page (f : FileCache) (pn : Z) : option CachedPage * FileCache :=
  (pages f !! pn, with_pages f (delete pn (pages f))).
Definition page_count (f : FileCache) : Z := Z.of_nat (base.size (pages f)).
Definition dirty_pages (f : FileCache) : list CachedPage := filter (fun p => dirty p = true) (map_values (pages f)).
Definition evictable (p : CachedPage) : bool := negb (is_pinned p) && negb (dirty p).
Definition find_lru_page (f : FileCache) : option Z :=
  fst <$> min_by_key (fun kp => last_access kp.2) (filter (fun kp => evictable kp.2 = true) (entries (pages f))).

(** ** The cache *)

Record CacheStats := mkStats {
  hits : Z; misses : Z; stat_pages : Z; bytes : Z; stat_dirty : Z; evictions : Z; writebacks : Z }.

Record PageCache := mkCache {
  files : gmap Z FileCache; limit : Z; current_size : Z; stats : CacheStats; time : Z }.

Definition cache_new (lim : Z) : PageCache := mkCache ∅ lim 0 (mkStats 0 0 0 0 0 0 0) 0.
Definition with_default_limit : PageCache := cache_new DEFAULT_CACHE_LIMIT.

Definition with_files (c : PageCache) (fs : gmap Z FileCache) : PageCache :=
  mkCache fs (limit c) (current_size c) (stats c) (time c).
Definition with_stats (c : PageCache) (st : CacheStats) : PageCache :=
  mkCache (files c) (limit c) (current_size c) st (time c).
Definition with_size (c : PageCache) (n : Z) : PageCache :=
  mkCache (files c) (limit c) n (stats c) (time c).

Definition get_or_create_file_cache (c : PageCache) (i size : Z) : PageCache :=
  match files c !! i with
  | Some _ => c
  | None => with_files c (<[i := file_new i size]> (files c))
  end.

Definition tick (c : PageCache) : Z * PageCache :=
  (time c, mkCache (files c) (limit c) (current_size c) (stats c) (time c +w 1)).

Definition count_hit (st : CacheStats) : CacheStats :=
  mkStats (hits st +w 1) (misses st) (stat_pages st) (bytes st) (stat_dirty st) (evictions st) (writebacks st).
Definition count_miss (st : CacheStats) : CacheStats :=
  mkStats (hits st) (misses st +w 1) (stat_pages st) (bytes st) (stat_dirty st) (evictions st) (writebacks st).
Definition count_insert (st : CacheStats) (size : Z) : CacheStats :=
  mkStats (hits st) (misses st) (stat_pages st +w 1) size (stat_dirty st) (evictions st) (writebacks st).
Definition count_dirty (st : CacheStats) : CacheStats :=
  mkStats (hits st) (misses st) (stat_pages st) (bytes st) (stat_dirty st +w 1) (evictions st) (writebacks st).
Definition count_eviction (st : CacheStats) (size : Z) : CacheStats :=
  mkStats (hits st) (misses st) (Z.max 0 (stat_pages st - 1)) size (stat_dirty st) (evictions st +w 1) (writebacks st).
Definition count_writeback (st : CacheStats) : CacheStats :=
  mkStats (hits st) (misses st) (stat_pages st) (bytes st) (Z.max 0 (stat_dirty st - 1)) (evictions st) (writebacks st +w 1).
Definition count_invalidated (st : CacheStats) (n size : Z) : CacheStats :=
  mkStats (hits st) (misses st) (Z.max 0 (stat_pages st - n)) size (stat_dirty st) (evictions st) (writebacks st).

(** A change of one page of one file. *)
Definition update_page (c : PageCache) (i : Z) (f : FileCache) (p : CachedPage) : PageCache :=
  with_files c (<[i := insert_page f p]> (files c)).

Definition read (c : PageCache) (i offset : Z) (buf : list Z) (size : Z) : option (Z * list Z) * PageCache :=
  let c1 := get_or_create_file_cache c i size in
  let pn := offset / PAGE_SIZE in
  let page_offset := offset mod PAGE_SIZE in
  let '(now, c2) := tick c1 in
  match files c2 !! i with
  | None => (None, c2)
  | Some f =>
      match get_page f pn with
      | Some p =>
          let c3 := update_page c2 i f (touch p now) in
          (Some (page_read p page_offset buf), with_stats c3 (count_hit (stats c3)))
      | None => (None, with_stats c2 (count_miss (stats c2)))
      end
  end.

(** *** Eviction *)

(** One round of the search over the files: the best page so far and its time. *)
Definition lru_round (best : option (Z * Z) * Z) (kf : Z * FileCache) : option (Z * Z) * Z :=
  match find_lru_page kf.2 with
  | Some pn =>
      match get_page kf.2 pn with
      | Some p => if last_access p <? best.2 then (Some (kf.1, pn), last_access p) else best
      | None => best
      end
  | None => best
  end.
Definition best_page (c : PageCache) : option (Z * Z) :=
  (foldl lru_round (None, u64_max) (entries (files c))).1.

(** The removal of the page found. *)
Definition evict_one (c : PageCache) (i pn freed : Z) : PageCache * Z :=
  match files c !! i with
  | Some f =>
      match remove_page f pn with
      | (Some _, f') =>
          let c1 := with_files c (<[i := f']> (files c)) in
          let c2 := with_size c1 (current_size c1 -w PAGE_SIZE) in
          (with_stats c2 (count_eviction (stats c2) (current_size c2)), freed +w PAGE_SIZE)
      | (None, f') => (with_files c (<[i := f']> (files c)), freed)
      end
  | None => (c, freed)
  end.

(** [None] when the fuel is used up. *)
Fixpoint evict_loop (fuel : nat) (c : PageCache) (freed needed : Z) : option PageCache :=
  match fuel with
  | O => None
  | S fuel' =>
      if freed <? needed then
        match best_page c with
        | Some (i, pn) =>
            let '(c', freed') := evict_one c i pn freed in
            evict_loop fuel' c' freed' needed
        | None => Some c
        end
      else Some c
  end.

Definition total_pages (c : PageCache) : nat := sum_list ((fun kf => base.size (pages kf.2)) <$> map_to_list (files c)).

Definition evict_pages (c : PageCache) (needed : Z) : option PageCache :=
  evict_loop (total_pages c + 2) c 0 needed.

(** *** Insertion, dirty pages *)

(** [None] would be an eviction that does not end. *)
Definition insert (c : PageCache) (i pn : Z) (d : list Z) (size : Z) : option PageCache :=
  let c1 := get_or_create_file_cache c i size in
  c2 ← (if current_size c1 +w PAGE_SIZE >? limit c1 then evict_pages c1 PAGE_SIZE else Some c1);
  let '(now, c3) := tick c2 in
  let p := touch (page_new pn d) now in
  match files c3 !! i with
  | Some f =>
      let c4 := update_page c3 i f p in
      let c5 := with_size c4 (current_size c4 +w PAGE_SIZE) in
      Some (with_stats c5 (count_insert (stats c5) (current_size c5)))
  | None => Some c3
  end.

Definition mark_dirty (c : PageCache) (i pn : Z) : bool * PageCache :=
  match files c !! i with
  | Some f =>
      match get_page f pn with
      | Some p =>
          let c1 := update_page c i f (page_mark_dirty p) in
          (true, with_stats c1 (count_dirty (stats c1)))
      | None => (false, c)
      end
  | None => (false, c)
  end.

Section Sync.
(** The writer: a closure with a state of its own. *)
Context {W : Type}.

(** The page was written to the device: it is clean. *)
Definition cleaned (c : PageCache) (i : Z) (p : CachedPage) : PageCache :=
  match files c !! i with
  | Some f =>
      let c1 := update_page c i f (mark_clean p) in
      with_stats c1 (count_writeback (stats c1))
  | None => c
  end.

Definition page_offset (p : CachedPage) : Z := page_num p *w PAGE_SIZE.

(** The pages of one file in turn, up to the first error of the writer. *)
Fixpoint sync_pages (writer : W -> Z -> list Z -> result unit unit * W) (c : PageCache) (w : W) (i : Z)
    (l : list CachedPage) (synced : Z) : result Z unit * (PageCache * W) :=
  match l with
  | [] => (Ok synced, (c, w))
  | p :: l' =>
      match writer w (page_offset p) (data p) with
      | (Err tt, w') => (Err tt, (c, w'))
      | (Ok tt, w') => sync_pages writer (cleaned c i p) w' i l' (synced +w 1)
      end
  end.

Definition sync_file (c : PageCache) (i : Z) (writer : W -> Z -> list Z -> result unit unit * W) (w : W) :
    result Z unit * (PageCache * W) :=
  match files c !! i with
  | Some f => sync_pages writer c w i (dirty_pages f) 0
  | None => (Ok 0, (c, w))
  end.

(** The files in turn. *)
Fixpoint sync_files (writer : W -> Z -> Z -> list Z -> result unit unit * W) (c : PageCache) (w : W)
    (l : list (Z * FileCache)) (total : Z) : result Z unit * (PageCache * W) :=
  match l with
  | [] => (Ok total, (c, w))
  | (i, f) :: l' =>
      match sync_pages (fun w => writer w i) c w i (dirty_pages f) total with
      | (Ok n, (c', w')) => sync_files writer c' w' l' n
      | (Err e, s) => (Err e, s)
      end
  end.

Definition sync_all (c : PageCache) (writer : W -> Z -> Z -> list Z -> result unit unit * W) (w : W) :
    result Z unit * (PageCache * W) :=
  sync_files writer c w (entries (files c)) 0.

End Sync.

Definition invalidate (c : PageCache) (i : Z) : PageCache :=
  match files c !! i with
  | Some f =>
      let c1 := with_files c (delete i (files c)) in
      let freed := page_count f *w PAGE_SIZE in
      let c2 := with_size c1 (current_size c1 -w freed) in
      with_stats c2 (count_invalidated (stats c2) (page_count f) (current_size c2))
  | None => c
  end.

(** The ratio as a fraction: hits over all reads, [0] before the first. *)
Definition hit_ratio (c : PageCache) : Z * Z :=
  let total := hits (stats c) +w misses (stats c) in
  if total =? 0 then (0, 1) else (hits (stats c), total).
