(* ===== verification/PageCacheTheorems.v ===== *)
(** * Theorems of the page cache

    The cache refines a list of pages in the order of their last use: every run of
    its operations answers what the list answers.  Write-back hands every dirty
    page to the device once and stops at the first error.  The size the cache
    counts is exact while no page is inserted twice. *)

From stdpp Require Import base list gmap sorting.
From Stdlib Require Import ZArith Lia.
From S2P Require Import Prelude OrderedMap PageCache.

Local Open Scope Z_scope.

(** * The page cache as a list of pages in the order of their last use

    [repr c l]: the pages of [c] with their keys are those of [l], least recently
    used first.  One lemma per kind of change: a page is used (it goes to the end),
    pages are dropped, the pages are changed in place; and [best_page] is the
    first page of the list that may be evicted. *)

Notation key := (Z * Z)%type.

(** ** The page under a key *)

Definition cached (c : PageCache) (k : key) : option CachedPage := files c !! k.1 ≫= fun f => pages f !! k.2.

Lemma cached_update c i f p k :
  files c !! i = Some f ->
  cached (update_page c i f p) k = if decide (k = (i, page_num p)) then Some p else cached c k.
Proof.
  intros Hf. destruct k as [j q]. unfold cached. cbn [files update_page with_files insert_page with_pages pages fst snd].
  rewrite lookup_insert. case_decide as Hj.
  - subst j. cbn. rewrite lookup_insert, Hf. cbn. repeat case_decide; naive_solver.
  - case_decide; naive_solver.
Qed.

Lemma cached_get_or_create c i size k : cached (get_or_create_file_cache c i size) k = cached c k.
Proof.
  unfold get_or_create_file_cache. destruct (files c !! i) eqn:Hi; [done|].
  destruct k as [j q]. unfold cached. cbn. rewrite lookup_insert. case_decide as Hj; [|done]. subst j. by rewrite Hi.
Qed.

Lemma file_get_or_create c i size : exists f, files (get_or_create_file_cache c i size) !! i = Some f.
Proof.
  unfold get_or_create_file_cache. destruct (files c !! i) eqn:Hi; [by eexists|].
  cbn. rewrite lookup_insert_eq. by eexists.
Qed.

Lemma time_get_or_create c i size : time (get_or_create_file_cache c i size) = time c.
Proof. unfold get_or_create_file_cache. by destruct (files c !! i). Qed.
Lemma size_get_or_create c i size : current_size (get_or_create_file_cache c i size) = current_size c.
Proof. unfold get_or_create_file_cache. by destruct (files c !! i). Qed.
Lemma limit_get_or_create c i size : limit (get_or_create_file_cache c i size) = limit c.
Proof. unfold get_or_create_file_cache. by destruct (files c !! i). Qed.

Lemma cached_invalidate c i k :
  cached (invalidate c i) k = if decide (k.1 = i) then None else cached c k.
Proof.
  unfold invalidate. destruct k as [j q]. destruct (files c !! i) eqn:Hi.
  - unfold cached. cbn. rewrite lookup_delete. repeat case_decide; naive_solver.
  - case_decide as Hj; [|done]. cbn in Hj. subst j. unfold cached. cbn. by rewrite Hi.
Qed.

Lemma evict_one_spec c i pn freed p :
  cached c (i, pn) = Some p ->
  exists c', evict_one c i pn freed = (c', freed +w PAGE_SIZE) /\ time c' = time c /\ limit c' = limit c /\
    current_size c' = current_size c -w PAGE_SIZE /\
    (forall j, is_Some (files c !! j) -> is_Some (files c' !! j)) /\
    forall k, cached c' k = if decide (k = (i, pn)) then None else cached c k.
Proof.
  unfold cached at 1. cbn [fst snd]. intros (f & Hf & Hp)%bind_Some.
  unfold evict_one, remove_page. rewrite Hf, Hp. eexists. split; [done|]. repeat split; [|].
  - intros j Hj. cbn. rewrite lookup_insert. by case_decide.
  - intros [j q]. unfold cached. cbn. rewrite lookup_insert. case_decide as Hj.
    + subst j. cbn. rewrite Hf. cbn. rewrite lookup_delete. repeat case_decide; naive_solver.
    + case_decide; naive_solver.
Qed.

(** ** The least recently used page *)

Lemma find_lru_page_Some f pn :
  find_lru_page f = Some pn ->
  exists p, pages f !! pn = Some p /\ evictable p = true /\
    forall q p', pages f !! q = Some p' -> evictable p' = true -> last_access p <= last_access p'.
Proof.
  unfold find_lru_page. intros ([k p] & Hm & ->)%fmap_Some.
  apply min_by_key_Some in Hm as [Hin Hmin]. apply list_elem_of_filter in Hin as [He Hin].
  apply elem_of_entries in Hin. exists p. cbn [fst]. split; [done|]. split; [done|].
  intros q p' Hq He'. apply (Hmin (q, p')). apply list_elem_of_filter. split; [done | by apply elem_of_entries].
Qed.

Lemma find_lru_page_None f q p : find_lru_page f = None -> pages f !! q = Some p -> evictable p = false.
Proof.
  unfold find_lru_page. intros Hm%fmap_None Hq. apply min_by_key_None in Hm.
  apply not_true_is_false. intros He.
  assert (Hin : (q, p) ∈ filter (fun kp => evictable kp.2 = true) (entries (pages f))).
  { apply list_elem_of_filter. split; [done | by apply elem_of_entries]. }
  rewrite Hm in Hin. by apply elem_of_nil in Hin.
Qed.

(** What the search over the files has found after some of them. *)
Definition found (l : list (Z * FileCache)) (r : option (Z * Z) * Z) : Prop :=
  r.2 <= u64_max /\
  (forall j f q p, (j, f) ∈ l -> pages f !! q = Some p -> evictable p = true -> r.2 <= last_access p) /\
  match r.1 with
  | Some (i, pn) => exists f p, (i, f) ∈ l /\ pages f !! pn = Some p /\ evictable p = true /\ last_access p = r.2
  | None => r.2 = u64_max
  end.

Lemma lru_round_found l r kf : found l r -> found (l ++ [kf]) (lru_round r kf).
Proof.
  intros (Hle & Hmin & Hr). destruct kf as [i f]. unfold lru_round. cbn [fst snd].
  assert (Hkeep : (forall q p, pages f !! q = Some p -> evictable p = true -> r.2 <= last_access p) -> found (l ++ [(i, f)]) r).
  { intros Hf. split; [done|]. split.
    - intros j g q p Hin. apply elem_of_app in Hin as [Hin|Hin]; [by eapply Hmin|].
      apply list_elem_of_singleton in Hin as [= -> ->]. by apply Hf.
    - destruct r.1 as [[j pn]|]; [|done]. destruct Hr as (g & p & Hin & H). exists g, p. split; [set_solver | done]. }
  destruct (find_lru_page f) as [pn|] eqn:Hpn.
  - apply find_lru_page_Some in Hpn as (p & Hp & He & Hfmin). unfold get_page. rewrite Hp. case_if.
    + split; [cbn; lia|]. cbn [fst snd]. split; [|exists f, p; split; [set_solver | done]].
      intros j g q p' Hin Hq Hq'. apply elem_of_app in Hin as [Hin|Hin]; [specialize (Hmin j g q p' Hin Hq Hq'); lia|].
      apply list_elem_of_singleton in Hin as [= -> ->]. by eapply Hfmin.
    + apply Hkeep. intros q p' Hq Hq'. specialize (Hfmin q p' Hq Hq'). lia.
  - apply Hkeep. intros q p' Hq Hq'. by rewrite (find_lru_page_None f q p') in Hq'.
Qed.

Lemma lru_rounds_found l l' r : found l r -> found (l ++ l') (foldl lru_round r l').
Proof.
  revert l r. induction l' as [|kf l' IH]; intros l r H; [by rewrite app_nil_r|].
  cbn. rewrite (cons_middle kf l l'), (app_assoc l [kf] l'). apply IH. by apply lru_round_found.
Qed.

Lemma best_page_found c : found (entries (files c)) (foldl lru_round (None, u64_max) (entries (files c))).
Proof. apply (lru_rounds_found []). split; [done|]. split; [|done]. intros j f q p []%elem_of_nil. Qed.

Lemma best_page_Some c k :
  best_page c = Some k ->
  exists p, cached c k = Some p /\ evictable p = true /\
    forall k' p', cached c k' = Some p' -> evictable p' = true -> last_access p <= last_access p'.
Proof.
  unfold best_page. pose proof (best_page_found c) as (_ & Hmin & Hr). intros Hk. rewrite Hk in Hr.
  destruct k as [i pn]. destruct Hr as (f & p & Hin & Hp & He & Hla). apply elem_of_entries in Hin.
  exists p. split; [unfold cached; cbn; by rewrite Hin|]. split; [done|].
  intros [j q] p' (g & Hg & Hq)%bind_Some He'. rewrite Hla. eapply Hmin; [by apply elem_of_entries | done | done].
Qed.

Lemma best_page_None c k p :
  best_page c = None -> cached c k = Some p -> evictable p = true -> u64_max <= last_access p.
Proof.
  unfold best_page. pose proof (best_page_found c) as (_ & Hmin & Hr). intros Hk. rewrite Hk in Hr.
  intros (g & Hg & Hq)%bind_Some He. rewrite <- Hr. eapply Hmin; [by apply elem_of_entries | done | done].
Qed.

(** ** The list in the order of last use *)

Notation entry := (key * CachedPage)%type.

Definition older (x y : entry) : Prop := last_access x.2 < last_access y.2.

Definition page_ok (now : Z) (x : entry) : Prop :=
  page_num x.2 = x.1.2 /\ pin_count x.2 = 0 /\ 0 <= last_access x.2 < now.

Record repr (c : PageCache) (l : list entry) : Prop := {
  repr_sorted : StronglySorted older l;
  repr_exact : forall k p, (k, p) ∈ l <-> cached c k = Some p;
  repr_ok : forall x, x ∈ l -> page_ok (time c) x;
  repr_time : 0 <= time c }.

Lemma repr_new lim : repr (cache_new lim) [].
Proof.
  split; [constructor | | |done].
  - intros k p. split; [by intros ?%elem_of_nil | by unfold cached].
  - by intros x ?%elem_of_nil.
Qed.

Lemma StronglySorted_filter {A} (R : relation A) (P : A -> Prop) `{forall x, Decision (P x)} (l : list A) :
  StronglySorted R l -> StronglySorted R (filter P l).
Proof.
  induction 1 as [|x l Hl IH Hx]; [constructor|]. rewrite filter_cons. case_decide; [|done].
  constructor; [done|]. rewrite Forall_forall in *. intros y Hy. apply list_elem_of_filter in Hy. apply Hx, Hy.
Qed.

Lemma StronglySorted_snoc {A} (R : relation A) (l : list A) (x : A) :
  StronglySorted R l -> Forall (fun y => R y x) l -> StronglySorted R (l ++ [x]).
Proof.
  induction 1 as [|y l Hl IH Hy]; intros Hx; cbn; [by repeat constructor|].
  apply Forall_cons in Hx as [Hyx Hx]. constructor; [by apply IH|]. apply Forall_app. split; [done | by constructor].
Qed.

(** A page was used: it goes to the end. *)
Definition place (l : list entry) (k : key) (p : CachedPage) : list entry := filter (fun x => x.1 <> k) l ++ [(k, p)].

Lemma repr_place c c' l k p :
  repr c l ->
  (forall k', cached c' k' = if decide (k' = k) then Some p else cached c k') ->
  last_access p = time c -> time c' = time c + 1 -> page_num p = k.2 -> pin_count p = 0 ->
  repr c' (place l k p).
Proof.
  intros [Hs He Ho Ht] Hc Hla Hc' Hn Hp. unfold place. split; [| | |lia].
  - apply StronglySorted_snoc; [by apply StronglySorted_filter|]. apply Forall_forall. intros x [_ Hx]%list_elem_of_filter.
    destruct (Ho x Hx) as (_ & _ & Hlt). unfold older. cbn. lia.
  - intros k' p'. rewrite elem_of_app, list_elem_of_filter, list_elem_of_singleton, Hc, He. cbn [fst].
    case_decide; naive_solver.
  - intros x [[_ Hx]%list_elem_of_filter | ->%list_elem_of_singleton]%elem_of_app.
    + destruct (Ho x Hx) as (? & ? & ?). repeat split; [done | done | lia | lia].
    + repeat split; cbn; [done | done | lia | lia].
Qed.

(** Pages were dropped. *)
Lemma repr_drop c c' l (P : key -> Prop) `{forall k, Decision (P k)} :
  repr c l -> (forall k, cached c' k = if decide (P k) then None else cached c k) -> time c' = time c ->
  repr c' (filter (fun x => ~ P x.1) l).
Proof.
  intros [Hs He Ho Ht] Hc Hc'. split; [by apply StronglySorted_filter | | |lia].
  - intros k p. rewrite list_elem_of_filter, Hc, He. cbn [fst]. case_decide; naive_solver.
  - intros x [_ Hx]%list_elem_of_filter. rewrite Hc'. by apply Ho.
Qed.

(** Pages were changed in place. *)
Definition same_use (p q : CachedPage) : Prop :=
  page_num p = page_num q /\ pin_count p = pin_count q /\ last_access p = last_access q.

Lemma repr_map c c' l (g : key -> CachedPage -> CachedPage) :
  repr c l -> (forall k, cached c' k = g k <$> cached c k) -> (forall k p, same_use (g k p) p) -> time c' = time c ->
  repr c' ((fun x => (x.1, g x.1 x.2)) <$> l).
Proof.
  intros [Hs He Ho Ht] Hc Hg Hc'. split; [| | |lia].
  - clear -Hs Hg. induction Hs as [|x l Hl IH Hx]; cbn; constructor; [done|].
    apply Forall_fmap. eapply Forall_impl; [exact Hx|]. intros y Hxy. unfold older in *. cbn.
    destruct (Hg x.1 x.2) as (_ & _ & ->), (Hg y.1 y.2) as (_ & _ & ->). done.
  - intros k p. rewrite list_elem_of_fmap, Hc, fmap_Some. split.
    + intros ([k' p'] & [= -> ->] & Hin). exists p'. split; [by apply He | done].
    + intros (p' & Hp' & ->). exists (k, p'). split; [done | by apply He].
  - intros x (y & -> & Hy)%list_elem_of_fmap. destruct (Ho y Hy) as (? & ? & ?).
    destruct (Hg y.1 y.2) as (E1 & E2 & E3). rewrite Hc'. unfold page_ok. cbn. rewrite E1, E2, E3. done.
Qed.

Lemma repr_ext c c' l : repr c l -> (forall k, cached c' k = cached c k) -> time c' = time c -> repr c' l.
Proof.
  intros [Hs He Ho Ht] Hc Hc'. split; [done | | |lia].
  - intros k p. by rewrite Hc, He.
  - rewrite Hc'. done.
Qed.

Lemma repr_NoDup c l : repr c l -> NoDup l.
Proof.
  intros [Hs _ _ _]. induction Hs as [|x l Hl IH Hx]; constructor; [|done].
  intros Hin. rewrite Forall_forall in Hx. specialize (Hx x Hin). unfold older in Hx. lia.
Qed.

Lemma repr_fun c l k p q : repr c l -> (k, p) ∈ l -> (k, q) ∈ l -> p = q.
Proof. intros H Hp%(repr_exact _ _ H) Hq%(repr_exact _ _ H). congruence. Qed.

(** ** The page that is evicted *)

Definition first_clean (l : list entry) : option entry := head (filter (fun x => dirty x.2 = false) l).

Lemma unpinned_evictable c l x : repr c l -> x ∈ l -> evictable x.2 = negb (dirty x.2).
Proof. intros H Hx. destruct (repr_ok _ _ H x Hx) as (_ & Hp & _). unfold evictable, is_pinned. by rewrite Hp. Qed.

Lemma sorted_first_older (l : list entry) x y :
  StronglySorted older l -> head l = Some x -> y ∈ l -> y = x \/ older x y.
Proof.
  destruct 1 as [|z l Hl Hz]; [done|]. intros [= ->] [->|Hy]%elem_of_cons; [by left | right].
  rewrite Forall_forall in Hz. by apply Hz.
Qed.

Lemma best_page_first_clean c l :
  repr c l -> time c <= u64_max -> best_page c = fst <$> first_clean l.
Proof.
  intros H Ht. unfold first_clean. pose proof (StronglySorted_filter older (fun x => dirty x.2 = false) l (repr_sorted _ _ H)) as Hs.
  destruct (best_page c) as [k|] eqn:Hb.
  - apply best_page_Some in Hb as (p & Hp & He & Hmin). pose proof (proj2 (repr_exact _ _ H k p) Hp) as Hin.
    pose proof (unpinned_evictable c l _ H Hin) as Hd. cbn [snd] in Hd. rewrite He in Hd.
    assert (Hf : (k, p) ∈ filter (fun x : entry => dirty x.2 = false) l).
    { apply list_elem_of_filter. split; [cbn [snd]; by destruct (dirty p) | done]. }
    destruct (filter _ l) as [|x f] eqn:Hfe; [by apply elem_of_nil in Hf|]. cbn. f_equal.
    destruct (sorted_first_older _ x (k, p) Hs eq_refl Hf) as [<-|Hlt]; [done|].
    assert (Hx : x ∈ filter (fun x : entry => dirty x.2 = false) l) by (rewrite Hfe; apply list_elem_of_here).
    apply list_elem_of_filter in Hx as [Hxd Hx]. unfold older in Hlt. cbn in Hlt.
    assert (Hxe : evictable x.2 = true) by (rewrite (unpinned_evictable c l x H Hx), Hxd; done).
    destruct x as [k' p']. specialize (Hmin k' p' (proj1 (repr_exact _ _ H k' p') Hx) Hxe). cbn in *. lia.
  - destruct (filter _ l) as [|x f] eqn:Hfe; [done|]. exfalso.
    assert (Hx : x ∈ filter (fun x : entry => dirty x.2 = false) l) by (rewrite Hfe; apply list_elem_of_here).
    apply list_elem_of_filter in Hx as [Hxd Hx].
    assert (Hxe : evictable x.2 = true) by (rewrite (unpinned_evictable c l x H Hx), Hxd; done).
    destruct (repr_ok _ _ H x Hx) as (_ & _ & Hla). destruct x as [k' p'].
    pose proof (best_page_None c k' p' Hb (proj1 (repr_exact _ _ H k' p') Hx) Hxe). cbn in *. lia.
Qed.

(** Eviction of one page: the first clean one goes. *)
Definition evicted (l : list entry) : list entry :=
  match first_clean l with
  | Some x => filter (fun y => y.1 <> x.1) l
  | None => l
  end.

Lemma evict_pages_spec c l :
  repr c l -> time c <= u64_max ->
  exists c', evict_pages c PAGE_SIZE = Some c' /\ repr c' (evicted l) /\ time c' = time c /\ limit c' = limit c /\
    (forall j, is_Some (files c !! j) -> is_Some (files c' !! j)) /\
    current_size c' = (if first_clean l then current_size c -w PAGE_SIZE else current_size c).
Proof.
  intros H Ht. unfold evict_pages, evicted. rewrite Nat.add_comm. cbn [evict_loop Nat.add].
  change (0 <? PAGE_SIZE) with true. cbn match. rewrite (best_page_first_clean c l H Ht).
  destruct (first_clean l) as [[[i pn] p]|] eqn:Hf; cbn [fmap option_fmap option_map fst]; [|by exists c].
  assert (Hin : ((i, pn), p) ∈ l).
  { unfold first_clean in Hf. destruct (filter _ l) as [|y f] eqn:Hfe; [done|]. injection Hf as ->.
    assert (Hy : ((i, pn), p) ∈ filter (fun x : entry => dirty x.2 = false) l) by (rewrite Hfe; apply list_elem_of_here).
    apply list_elem_of_filter in Hy. apply Hy. }
  apply (repr_exact _ _ H) in Hin.
  destruct (evict_one_spec c i pn 0 p Hin) as (c' & -> & Ht' & Hl' & Hs' & Hfs & Hc'). cbn zeta iota beta.
  exists c'. split; [reflexivity|]. split; [|done].
  by apply (repr_drop c c' l (fun k => k = (i, pn)) (H := fun k => decide_rel eq k (i, pn))).
Qed.

(** ** The specification: pages in the order of their last use *)

Module Lru.

(** A page: its bytes and whether it must be written back. *)
Notation page := (list Z * bool)%type.

(** The pages, least recently used first, and the bytes accounted for. *)
Record lru := mkLru { order : list (key * page); counted : Z }.

Inductive op :=
| Read (i offset : Z) (buf : list Z) (size : Z)
| Insert (i pn : Z) (d : list Z) (size : Z)
| MarkDirty (i pn : Z)
| SyncAll
| Invalidate (i : Z).

Inductive answer := Bytes (r : option (Z * list Z)) | Marked (b : bool) | Done.

Definition find_page (l : list (key * page)) (k : key) : option page := snd <$> head (filter (fun x => x.1 = k) l).
Definition without (l : list (key * page)) (k : key) : list (key * page) := filter (fun x => x.1 <> k) l.
Definition use (l : list (key * page)) (k : key) (p : page) : list (key * page) := without l k ++ [(k, p)].

(** Without its first page that is not dirty. *)
Definition evict (l : list (key * page)) : option (list (key * page)) :=
  match head (filter (fun x => x.2.2 = false) l) with
  | Some x => Some (without l x.1)
  | None => None
  end.

Definition make_room (limit : Z) (a : lru) : lru :=
  if counted a +w PAGE_SIZE >? limit then
    match evict (order a) with
    | Some l => mkLru l (counted a -w PAGE_SIZE)
    | None => a
    end
  else a.

Definition step (limit : Z) (a : lru) (o : op) : answer * lru :=
  match o with
  | Read i off buf _ =>
      let k := (i, off / PAGE_SIZE) in
      match find_page (order a) k with
      | Some p => (Bytes (Some (page_read (page_new k.2 p.1) (off mod PAGE_SIZE) buf)), mkLru (use (order a) k p) (counted a))
      | None => (Bytes None, a)
      end
  | Insert i pn d _ =>
      let b := make_room limit a in
      (Done, mkLru (use (order b) (i, pn) (d, false)) (counted b +w PAGE_SIZE))
  | MarkDirty i pn =>
      (Marked (bool_decide (is_Some (find_page (order a) (i, pn)))),
       mkLru ((fun x : key * page => if decide (x.1 = (i, pn)) then (x.1, (x.2.1, true)) else x) <$> order a) (counted a))
  | SyncAll => (Done, mkLru ((fun x : key * page => (x.1, (x.2.1, false))) <$> order a) (counted a))
  | Invalidate i =>
      let l := filter (fun x => ~ x.1.1 = i) (order a) in
      (Done, mkLru l (counted a -w PAGE_SIZE * (Z.of_nat (length (order a)) - Z.of_nat (length l))))
  end.

Fixpoint run (limit : Z) (a : lru) (ops : list op) : list answer * lru :=
  match ops with
  | [] => ([], a)
  | o :: ops' =>
      let '(r, a1) := step limit a o in
      let '(rs, a2) := run limit a1 ops' in (r :: rs, a2)
  end.

End Lru.

(** ** Runs of the cache *)

(** The device of [SyncAll] takes everything. *)
Definition accepting (w : list (Z * Z * list Z)) (i off : Z) (d : list Z) : result unit unit * list (Z * Z * list Z) :=
  (Ok tt, w ++ [(i, off, d)]).

Definition cache_step (c : PageCache) (o : Lru.op) : option (Lru.answer * PageCache) :=
  match o with
  | Lru.Read i off buf size => let '(r, c') := read c i off buf size in Some (Lru.Bytes r, c')
  | Lru.Insert i pn d size => (fun c' => (Lru.Done, c')) <$> insert c i pn d size
  | Lru.MarkDirty i pn => let '(b, c') := mark_dirty c i pn in Some (Lru.Marked b, c')
  | Lru.SyncAll => Some (Lru.Done, (sync_all c accepting []).2.1)
  | Lru.Invalidate i => Some (Lru.Done, invalidate c i)
  end.

Fixpoint cache_run (c : PageCache) (ops : list Lru.op) : option (list Lru.answer * PageCache) :=
  match ops with
  | [] => Some ([], c)
  | o :: ops' =>
      '(r, c1) ← cache_step c o;
      '(rs, c2) ← cache_run c1 ops'; Some (r :: rs, c2)
  end.

(** ** The refinement *)

Definition view (x : entry) : key * Lru.page := (x.1, (data x.2, dirty x.2)).

Definition refines (c : PageCache) (a : Lru.lru) : Prop :=
  exists l, repr c l /\ Lru.order a = view <$> l /\ Lru.counted a = current_size c /\ is_u64 (current_size c).

Lemma filter_view (P : key -> Prop) `{forall k, Decision (P k)} (l : list entry) :
  filter (fun x : key * Lru.page => P x.1) (view <$> l) = view <$> filter (fun x : entry => P x.1) l.
Proof.
  induction l as [|x l IH]; [done|]. rewrite fmap_cons, !filter_cons. cbn [view fst snd].
  case_decide; rewrite ?fmap_cons; by rewrite IH.
Qed.

Lemma filter_view_clean (l : list entry) :
  filter (fun x : key * Lru.page => x.2.2 = false) (view <$> l) = view <$> filter (fun x : entry => dirty x.2 = false) l.
Proof.
  induction l as [|x l IH]; [done|]. rewrite fmap_cons, !filter_cons. cbn [view fst snd].
  case_decide; rewrite ?fmap_cons; by rewrite IH.
Qed.

Lemma find_page_view c l k : repr c l -> Lru.find_page (view <$> l) k = (fun p => (data p, dirty p)) <$> cached c k.
Proof.
  intros H. unfold Lru.find_page. rewrite (filter_view (fun x => x = k) (H := fun x => decide_rel eq x k)).
  destruct (filter (fun x : entry => x.1 = k) l) as [|x f] eqn:Hf.
  - cbn. destruct (cached c k) as [p|] eqn:Hp; [|done]. exfalso.
    assert (Hin : (k, p) ∈ filter (fun x : entry => x.1 = k) l).
    { apply list_elem_of_filter. split; [done | by apply (repr_exact _ _ H)]. }
    rewrite Hf in Hin. by apply elem_of_nil in Hin.
  - assert (Hin : x ∈ filter (fun x : entry => x.1 = k) l) by (rewrite Hf; apply list_elem_of_here).
    apply list_elem_of_filter in Hin as [Hk Hin]. destruct x as [k' p]. cbn in Hk. subst k'.
    apply (repr_exact _ _ H) in Hin. by rewrite Hin.
Qed.

Lemma use_view l k p : Lru.use (view <$> l) k (data p, dirty p) = view <$> place l k p.
Proof. unfold Lru.use, Lru.without, place. rewrite (filter_view (fun x => x <> k) (H := fun x => @not_dec _ (decide_rel eq x k))), fmap_app. done. Qed.

Lemma evict_view l : Lru.evict (view <$> l) = (fun x => view <$> filter (fun y => y.1 <> x.1) l) <$> first_clean l.
Proof.
  unfold Lru.evict, first_clean. rewrite filter_view_clean. destruct (filter _ l) as [|x f]; [done|]. cbn.
  unfold Lru.without. by rewrite (filter_view (fun k => k <> x.1) (H := fun k => @not_dec _ (decide_rel eq k x.1))).
Qed.

Lemma tick_small c : 0 <= time c < u64_max -> time c +w 1 = time c + 1.
Proof. intros H. apply wrap64_small. unfold is_u64, u64_modulus, u64_max in *. lia. Qed.

Lemma page_read_data p q off buf : data p = data q -> page_read p off buf = page_read q off buf.
Proof. unfold page_read. by intros ->. Qed.

(** *** Each operation *)

Lemma read_refines c a i off buf size :
  refines c a -> time c < u64_max ->
  let '(r, c') := read c i off buf size in
  exists a', Lru.step (limit c) a (Lru.Read i off buf size) = (Lru.Bytes r, a') /\ refines c' a' /\
    limit c' = limit c /\ time c' = time c + 1.
Proof.
  intros (l & H & Ho & Hn & Hu) Ht. pose proof (repr_time _ _ H) as H0. unfold read, tick. cbn zeta.
  set (c1 := get_or_create_file_cache c i size). destruct (file_get_or_create c i size) as [f Hf]. fold c1 in Hf.
  cbn [files]. rewrite Hf. unfold get_page.
  assert (Hk : cached c (i, off / PAGE_SIZE) = pages f !! (off / PAGE_SIZE)).
  { rewrite <- (cached_get_or_create c i size). fold c1. unfold cached. cbn [fst snd]. by rewrite Hf. }
  unfold Lru.step. cbn zeta. rewrite Ho, (find_page_view c l _ H), Hk.
  assert (E1 : time c1 +w 1 = time c + 1).
  { unfold c1. rewrite time_get_or_create. apply tick_small. lia. }
  assert (E2 : limit c1 = limit c) by apply limit_get_or_create.
  assert (E3 : current_size c1 = current_size c) by apply size_get_or_create.
  destruct (pages f !! (off / PAGE_SIZE)) as [p|] eqn:Hp; cbn [fmap option_fmap option_map].
  - eexists. split; [f_equal; by apply (f_equal (fun r => Lru.Bytes (Some r))), page_read_data|].
    split; [|by cbn; rewrite E1, E2].
    destruct (repr_ok _ _ H ((i, off / PAGE_SIZE), p)) as (P1 & P2 & P3); [by apply (repr_exact _ _ H); rewrite Hk|].
    exists (place l (i, off / PAGE_SIZE) (touch p (time c))). split; [|split; [cbn; by rewrite <- use_view|by cbn; rewrite Hn, E3]].
    apply (repr_place c); [done| |done|by cbn|done|done]. intros k'.
    replace (time c1) with (time c) by (symmetry; apply time_get_or_create).
    change (cached (with_stats ?x _) k') with (cached x k').
    rewrite (cached_update _ i f) by exact Hf. cbn [page_num touch fst snd] in *. rewrite P1.
    case_decide; [done|]. transitivity (cached c1 k'); [done | apply cached_get_or_create].
  - eexists. split; [done|]. split; [|by cbn; rewrite E1, E2]. exists l. split; [|split; [done | by cbn; rewrite Hn, E3]].
    destruct H as [Hs He Hok H0']. split; [done| | |cbn; lia].
    + intros k p. rewrite He, <- (cached_get_or_create c i size k). done.
    + intros x Hx. destruct (Hok x Hx) as (? & ? & ?). cbn. rewrite E1. repeat split; [done|done|lia|lia].
Qed.

Lemma make_room_refines c a :
  refines c a -> time c < u64_max ->
  exists c', (if current_size c +w PAGE_SIZE >? limit c then evict_pages c PAGE_SIZE else Some c) = Some c' /\
    refines c' (Lru.make_room (limit c) a) /\ time c' = time c /\ limit c' = limit c /\
    forall j, is_Some (files c !! j) -> is_Some (files c' !! j).
Proof.
  intros (l & H & Ho & Hn & Hu) Ht. unfold Lru.make_room. rewrite Hn, Ho. case_if.
  - destruct (evict_pages_spec c l H) as (c' & -> & Hr & Ht' & Hl' & Hf & Hs); [lia|].
    exists c'. split; [done|]. split; [|done]. exists (evicted l). split; [done|].
    unfold evicted in *. rewrite evict_view. destruct (first_clean l); cbn; rewrite Hs; (split; [done|]); (split; [done|]); [apply wrap64_range | done].
  - exists c. split; [done|]. split; [by exists l | done].
Qed.

Lemma insert_refines c a i pn d size :
  refines c a -> time c < u64_max ->
  exists c', insert c i pn d size = Some c' /\ refines c' (Lru.step (limit c) a (Lru.Insert i pn d size)).2 /\
    limit c' = limit c /\ time c' = time c + 1.
Proof.
  intros Ha Ht. unfold insert. cbn zeta. set (c1 := get_or_create_file_cache c i size).
  assert (Ha1 : refines c1 a).
  { destruct Ha as (l & H & Ho & Hn & Hu). exists l. unfold c1. rewrite size_get_or_create. split; [|done].
    apply (repr_ext c); [done | intros k; apply cached_get_or_create | apply time_get_or_create]. }
  assert (E1 : time c1 = time c) by apply time_get_or_create.
  assert (E2 : limit c1 = limit c) by apply limit_get_or_create.
  destruct (make_room_refines c1 a Ha1) as (c2 & -> & (l & H & Ho & Hn & Hu) & Ht2 & Hl2 & Hf2); [lia|].
  destruct (Hf2 i) as [f Hf]; [apply file_get_or_create|]. pose proof (repr_time _ _ H) as H0.
  cbn [mbind option_bind]. unfold tick. cbn zeta iota beta. cbn [files]. rewrite Hf.
  eexists. split; [done|]. rewrite <- E2. cbn [limit time with_stats with_size update_page with_files].
  rewrite tick_small by lia. split; [|lia].
  exists (place l (i, pn) (touch (page_new pn d) (time c2))). cbn [Lru.step snd Lru.order Lru.counted].
  rewrite Ho, Hn. split; [|split; [apply (use_view l (i, pn) (touch (page_new pn d) (time c2))) | split; [done | apply wrap64_range]]].
  apply (repr_place c2); [done| |done|done|done|done].
  intros k'. change (cached (with_stats (with_size ?x _) _) k') with (cached x k').
  rewrite (cached_update _ i f) by exact Hf. done.
Qed.

Lemma mark_dirty_refines c a i pn :
  refines c a ->
  let '(b, c') := mark_dirty c i pn in
  exists a', Lru.step (limit c) a (Lru.MarkDirty i pn) = (Lru.Marked b, a') /\ refines c' a' /\
    limit c' = limit c /\ time c' = time c.
Proof.
  intros (l & H & Ho & Hn & Hu). unfold Lru.step. rewrite Ho, (find_page_view c l _ H).
  assert (Hmap : forall c', (forall k, cached c' k = (if decide (k = (i, pn)) then page_mark_dirty <$> cached c k else cached c k)) ->
    time c' = time c -> current_size c' = current_size c ->
    refines c' (Lru.mkLru ((fun x : key * Lru.page => if decide (x.1 = (i, pn)) then (x.1, (x.2.1, true)) else x) <$> (view <$> l)) (Lru.counted a))).
  { intros c' Hc' Ht' Hs'.
    set (g := fun k : key => if decide (k = (i, pn)) then page_mark_dirty else id).
    exists ((fun x => (x.1, g x.1 x.2)) <$> l). split; [|split].
    - apply (repr_map c c' l g H); [| |done].
      + intros k. unfold g. rewrite Hc'. case_decide; [done|]. by destruct (cached c k).
      + intros k p. unfold g. case_decide; done.
    - cbn. rewrite <- !list_fmap_compose. apply list_fmap_ext. intros j x Hx. unfold g. cbn. case_decide; done.
    - cbn. split; [congruence | by rewrite Hs']. }
  unfold mark_dirty, cached. cbn [fst snd]. destruct (files c !! i) as [f|] eqn:Hf; cbn [mbind option_bind].
  - unfold get_page. destruct (pages f !! pn) as [p|] eqn:Hp; cbn [fmap option_fmap option_map].
    + eexists. split; [done|]. split; [|done]. apply Hmap; [|done|done].
      intros k. change (cached (with_stats ?x _) k) with (cached x k). rewrite (cached_update _ i f) by exact Hf.
      destruct (repr_ok _ _ H ((i, pn), p)) as (P1 & _); [apply (repr_exact _ _ H); unfold cached; cbn; by rewrite Hf|].
      cbn [page_num page_mark_dirty set_state] in *. cbn in P1. rewrite P1. case_decide as Hk; [|done]. subst k.
      unfold cached. cbn. rewrite Hf. cbn. by rewrite Hp.
    + eexists. split; [done|]. split; [|done]. apply Hmap; [|done|done]. intros k. case_decide as Hk; [|done]. subst k.
      unfold cached. cbn. rewrite Hf. cbn. by rewrite Hp.
  - eexists. split; [done|]. split; [|done]. apply Hmap; [|done|done]. intros k. case_decide as Hk; [|done]. subst k.
    unfold cached. cbn. by rewrite Hf.
Qed.

Lemma invalidate_counts c l i :
  repr c l ->
  Z.of_nat (length l) - Z.of_nat (length (filter (fun x : entry => ~ x.1.1 = i) l)) =
  from_option page_count 0 (files c !! i).
Proof.
  intros H.
  assert (Hlen : length l = (length (filter (fun x : entry => x.1.1 = i) l) + length (filter (fun x : entry => ~ x.1.1 = i) l))%nat).
  { clear H. induction l as [|x l IH]; [done|]. rewrite !filter_cons. repeat case_decide; cbn; try lia; tauto. }
  enough (Hn : Z.of_nat (length (filter (fun x : entry => x.1.1 = i) l)) = from_option page_count 0 (files c !! i)) by lia.
  assert (Hp : (fun x : entry => (x.1.2, x.2)) <$> filter (fun x : entry => x.1.1 = i) l ≡ₚ
    from_option (fun f => map_to_list (pages f)) [] (files c !! i)).
  { apply NoDup_Permutation.
    - apply NoDup_fmap_2_strong.
      + intros [[j q] p] [[j' q'] p'] [Hx _]%list_elem_of_filter [Hy _]%list_elem_of_filter. cbn in *. congruence.
      + by apply NoDup_filter, (repr_NoDup c).
    - destruct (files c !! i); [apply NoDup_map_to_list | constructor].
    - intros [q p]. rewrite list_elem_of_fmap. split.
      + intros ([[j q'] p'] & [= -> ->] & [Hj Hin]%list_elem_of_filter). cbn in Hj. subst j.
        apply (repr_exact _ _ H) in Hin as (f & Hf & Hp)%bind_Some. cbn in Hf. rewrite Hf. by apply elem_of_map_to_list.
      + intros Hin. destruct (files c !! i) as [f|] eqn:Hf; [|by apply elem_of_nil in Hin].
        apply elem_of_map_to_list in Hin. exists ((i, q), p). split; [done|]. apply list_elem_of_filter. split; [done|].
        apply (repr_exact _ _ H). unfold cached. cbn. by rewrite Hf. }
  apply Permutation_length in Hp. rewrite length_fmap in Hp. rewrite Hp.
  destruct (files c !! i); [|done]. cbn. by rewrite length_map_to_list.
Qed.

Lemma invalidate_refines c a i :
  refines c a -> refines (invalidate c i) (Lru.step (limit c) a (Lru.Invalidate i)).2 /\
    limit (invalidate c i) = limit c /\ time (invalidate c i) = time c.
Proof.
  intros (l & H & Ho & Hn & Hu). cbn [Lru.step snd].
  assert (Hr : repr (invalidate c i) (filter (fun x : entry => ~ x.1.1 = i) l)).
  { apply (repr_drop c _ l (fun k : key => k.1 = i) (H := fun k : key => decide_rel eq k.1 i)); [done| |].
    - intros k. apply cached_invalidate.
    - unfold invalidate. by destruct (files c !! i). }
  split; [|unfold invalidate; by destruct (files c !! i)].
  exists (filter (fun x : entry => ~ x.1.1 = i) l). split; [done|].
  rewrite Ho. rewrite (filter_view (fun k : key => ~ k.1 = i) (H := fun k : key => @not_dec _ (decide_rel eq k.1 i))).
  cbn [Lru.order Lru.counted]. split; [done|]. rewrite !length_fmap, Hn, (invalidate_counts c l i H).
  unfold invalidate. destruct (files c !! i) as [f|] eqn:Hf; cbn [from_option current_size with_stats with_size].
  - unfold with_files. cbn [current_size]. split; [|apply wrap64_range]. rewrite Z.mul_comm. unfold wrap64. by rewrite Zminus_mod_idemp_r.
  - rewrite Z.mul_0_r, Z.sub_0_r. split; [by apply wrap64_small | done].
Qed.

(** *** Write-back *)

(** The pages [l] of file [i] were cleaned and nothing else changed. *)
Record cleaned_pages (c : PageCache) (i : Z) (l : list CachedPage) (c' : PageCache) : Prop := {
  cp_cached : forall k, cached c' k = if decide (k.1 = i /\ k.2 ∈ page_num <$> l) then mark_clean <$> cached c k else cached c k;
  cp_time : time c' = time c;
  cp_limit : limit c' = limit c;
  cp_size : current_size c' = current_size c;
  cp_files : forall j, is_Some (files c' !! j) <-> is_Some (files c !! j) }.

Lemma cleaned_pages_nil c i : cleaned_pages c i [] c.
Proof. split; try done. intros k. case_decide as Hd; [|done]. by destruct Hd as [_ []%elem_of_nil]. Qed.

Lemma cleaned_spec c i p : cached c (i, page_num p) = Some p -> cleaned_pages c i [p] (cleaned c i p).
Proof.
  intros Hp. pose proof Hp as (f & Hf & _)%bind_Some. cbn in Hf. unfold cleaned. rewrite Hf.
  split; try done.
  - intros k. change (cached (with_stats ?x _) k) with (cached x k). rewrite (cached_update _ i f) by exact Hf.
    cbn [page_num mark_clean set_state fmap list_fmap]. destruct k as [j q]. cbn [fst snd].
    case_decide as H1; case_decide as H2.
    + by simplify_eq; rewrite Hp.
    + simplify_eq. destruct H2. split; [done | by apply list_elem_of_singleton].
    + destruct H2 as [-> ->%list_elem_of_singleton]. done.
    + done.
  - intros j. cbn. rewrite lookup_insert. case_decide as Hj; [|done]. subst j. rewrite Hf. by split.
Qed.

Lemma cleaned_pages_app c c1 c2 i l1 l2 :
  cleaned_pages c i l1 c1 -> cleaned_pages c1 i l2 c2 -> (forall n, n ∈ page_num <$> l1 -> n ∉ page_num <$> l2) ->
  cleaned_pages c i (l1 ++ l2) c2.
Proof.
  intros [A1 A2 A3 A4 A5] [B1 B2 B3 B4 B5] Hd. split; try congruence.
  - intros k. rewrite B1, A1. specialize (Hd k.2).
    assert (E : k.2 ∈ page_num <$> l1 ++ l2 <-> k.2 ∈ page_num <$> l1 \/ k.2 ∈ page_num <$> l2) by (by rewrite fmap_app, elem_of_app).
    repeat case_decide; naive_solver.
  - intros j. by rewrite B5, A5.
Qed.

Section SyncPages.
Context {W : Type} (writer : W -> Z -> list Z -> result unit unit * W).

Definition written (w : W) (l : list CachedPage) : W := foldl (fun w p => (writer w (page_offset p) (data p)).2) w l.
Definition write_ok (w : W) (p : CachedPage) : Prop := (writer w (page_offset p) (data p)).1 = Ok tt.

(** The pages before the first error are written and clean; the others are untouched. *)
Lemma sync_pages_spec i l c w n :
  NoDup (page_num <$> l) -> (forall p, p ∈ l -> cached c (i, page_num p) = Some p) -> is_u64 n ->
  let '(r, (c', w')) := sync_pages writer c w i l n in
  exists l1 l2, l = l1 ++ l2 /\ cleaned_pages c i l1 c' /\
    match r with
    | Ok m => l2 = [] /\ m = wrap64 (n + Z.of_nat (length l1)) /\ w' = written w l1
    | Err _ => exists p l3, l2 = p :: l3 /\ ~ write_ok (written w l1) p /\ w' = written w (l1 ++ [p])
    end.
Proof.
  revert c w n. induction l as [|p l IH]; intros c w n Hnd Hin Hn; cbn [sync_pages].
  { exists [], []. split; [done|]. split; [apply cleaned_pages_nil|]. split; [done|]. split; [|done].
    cbn. rewrite Z.add_0_r. symmetry. by apply wrap64_small. }
  destruct (writer w (page_offset p) (data p)) as [[[]|[]] w1] eqn:Hw.
  - apply NoDup_cons in Hnd as [Hp Hnd]. pose proof (cleaned_spec c i p (Hin p (list_elem_of_here _ _))) as Hc1.
    assert (Hin' : forall q, q ∈ l -> cached (cleaned c i p) (i, page_num q) = Some q).
    { intros q Hq. rewrite (cp_cached _ _ _ _ Hc1). case_decide as Hd; [|by apply Hin, list_elem_of_further].
      destruct Hd as [_ Hd]. apply list_elem_of_singleton in Hd. cbn in Hd. destruct Hp. rewrite <- Hd.
      by apply list_elem_of_fmap_2. }
    specialize (IH (cleaned c i p) w1 (n +w 1) Hnd Hin' (wrap64_range _)).
    destruct (sync_pages writer (cleaned c i p) w1 i l (n +w 1)) as [r [c' w']].
    destruct IH as (l1 & l2 & -> & Hc & Hr). exists (p :: l1), l2. split; [done|]. split.
    + apply (cleaned_pages_app _ _ _ i [p] l1 Hc1 Hc). intros m ->%list_elem_of_singleton. intros Hm. apply Hp.
      change (page_num p ∈ page_num <$> (l1 ++ l2)). rewrite fmap_app. apply elem_of_app. by left.
    + destruct r as [m|[]].
      * destruct Hr as (-> & -> & ->). split; [done|]. split; [|unfold written; cbn; by rewrite Hw].
        cbn [length]. rewrite Nat2Z.inj_succ. unfold wrap64. rewrite Zplus_mod_idemp_l. f_equal. lia.
      * destruct Hr as (q & l3 & -> & Hq & ->). exists q, l3. unfold written in *. cbn. by rewrite Hw.
  - exists [], (p :: l). split; [done|]. split; [apply cleaned_pages_nil|]. exists p, l. split; [done|].
    unfold write_ok, written. cbn. rewrite Hw. done.
Qed.

End SyncPages.

Lemma dirty_pages_in c l i f :
  repr c l -> files c !! i = Some f ->
  NoDup (page_num <$> dirty_pages f) /\ (forall p, p ∈ dirty_pages f -> cached c (i, page_num p) = Some p) /\
  (forall p q, cached c (i, q) = Some p -> dirty p = true -> p ∈ dirty_pages f).
Proof.
  intros H Hf.
  assert (Hn : forall q p, pages f !! q = Some p -> page_num p = q).
  { intros q p Hp. destruct (repr_ok _ _ H ((i, q), p)) as [P1 _]; [|done].
    apply (repr_exact _ _ H). unfold cached. cbn. by rewrite Hf. }
  split; [|split].
  - unfold dirty_pages, map_values. pose proof (entries_keys_NoDup (pages f)) as Hnd.
    assert (Hall : forall x, x ∈ entries (pages f) -> page_num x.2 = x.1).
    { intros [q p] Hx%elem_of_entries. by apply Hn. }
    revert Hnd Hall. induction (entries (pages f)) as [|x e IH]; intros Hnd Hall; [constructor|].
    apply NoDup_cons in Hnd as [Hx Hnd]. rewrite fmap_cons, filter_cons.
    assert (IH' := IH Hnd (fun y Hy => Hall y (list_elem_of_further _ _ _ Hy))).
    case_decide; [|done]. rewrite fmap_cons. constructor; [|done]. rewrite (Hall x) by apply list_elem_of_here.
    intros (p & Hp & [_ Hin]%list_elem_of_filter)%list_elem_of_fmap. apply list_elem_of_fmap in Hin as (y & -> & Hy).
    rewrite (Hall y) in Hp by (by apply list_elem_of_further). apply Hx. rewrite Hp. by apply list_elem_of_fmap_2.
  - intros p [_ Hin]%list_elem_of_filter. apply elem_of_map_values in Hin as [q Hq]. rewrite (Hn q p Hq).
    unfold cached. cbn. by rewrite Hf.
  - intros p q (g & Hg & Hp)%bind_Some Hd. cbn in Hg, Hp. rewrite Hf in Hg. injection Hg as <-.
    apply list_elem_of_filter. split; [done|]. apply elem_of_map_values. by exists q.
Qed.

(** The dirty pages in the order of the write-back. *)
Definition dirty_list (fl : list (Z * FileCache)) : list (Z * CachedPage) :=
  fl ≫= fun kf => (fun p => (kf.1, p)) <$> dirty_pages kf.2.

Definition page_key (x : Z * CachedPage) : key := (x.1, page_num x.2).

Record cleaned_keys (c : PageCache) (ks : list key) (c' : PageCache) : Prop := {
  ck_cached : forall k, cached c' k = if decide (k ∈ ks) then mark_clean <$> cached c k else cached c k;
  ck_time : time c' = time c;
  ck_limit : limit c' = limit c;
  ck_size : current_size c' = current_size c }.

Lemma cleaned_keys_app c c1 c2 ks1 ks2 :
  cleaned_keys c ks1 c1 -> cleaned_keys c1 ks2 c2 -> (forall k, k ∈ ks1 -> k ∉ ks2) -> cleaned_keys c (ks1 ++ ks2) c2.
Proof.
  intros [A1 A2 A3 A4] [B1 B2 B3 B4] Hd. split; try congruence.
  intros k. rewrite B1, A1. specialize (Hd k).
  assert (E : k ∈ ks1 ++ ks2 <-> k ∈ ks1 \/ k ∈ ks2) by apply elem_of_app. repeat case_decide; naive_solver.
Qed.

Lemma page_keys_of (i : Z) (l : list CachedPage) (k : key) : k ∈ page_key <$> ((fun p => (i, p)) <$> l) <-> k.1 = i /\ k.2 ∈ page_num <$> l.
Proof.
  destruct k as [j q]. cbn. rewrite <- list_fmap_compose, !list_elem_of_fmap. unfold page_key. cbn. naive_solver.
Qed.

Lemma cleaned_pages_keys c i l c' : cleaned_pages c i l c' -> cleaned_keys c (page_key <$> ((fun p => (i, p)) <$> l)) c'.
Proof.
  intros [H1 H2 H3 H4 _]. split; try done. intros k. rewrite H1. pose proof (page_keys_of i l k) as E.
  repeat case_decide; naive_solver.
Qed.

Section SyncAll.
Context {W : Type} (writer : W -> Z -> Z -> list Z -> result unit unit * W).
Hypothesis accepts : forall w i off d, (writer w i off d).1 = Ok tt.

Definition device (w : W) (l : list (Z * CachedPage)) : W :=
  foldl (fun w x => (writer w x.1 (page_offset x.2) (data x.2)).2) w l.

Lemma device_written w i l : written (fun w => writer w i) w l = device w ((fun p => (i, p)) <$> l).
Proof. revert w. induction l as [|p l IH]; intros w; [done|]. unfold written, device in *. cbn. apply IH. Qed.

Lemma device_app w l1 l2 : device w (l1 ++ l2) = device (device w l1) l2.
Proof. apply foldl_app. Qed.

Lemma sync_files_spec fl c w n :
  NoDup fl.*1 ->
  (forall i f, (i, f) ∈ fl -> NoDup (page_num <$> dirty_pages f) /\ forall p, p ∈ dirty_pages f -> cached c (i, page_num p) = Some p) ->
  is_u64 n ->
  exists c', sync_files writer c w fl n =
      (Ok (wrap64 (n + Z.of_nat (length (dirty_list fl)))), (c', device w (dirty_list fl))) /\
    cleaned_keys c (page_key <$> dirty_list fl) c'.
Proof.
  revert c w n. induction fl as [|[i f] fl IH]; intros c w n Hnd Hin Hn; cbn [sync_files].
  { exists c. cbn. rewrite Z.add_0_r, wrap64_small by done. split; [done|]. by split. }
  apply NoDup_cons in Hnd as [Hi Hnd]. destruct (Hin i f (list_elem_of_here _ _)) as [Hf1 Hf2].
  pose proof (sync_pages_spec (fun w => writer w i) i (dirty_pages f) c w n Hf1 Hf2 Hn) as Hs.
  destruct (sync_pages (fun w => writer w i) c w i (dirty_pages f) n) as [r [c1 w1]].
  destruct Hs as (l1 & l2 & Hl & Hc1 & Hr). destruct r as [m|e].
  2:{ destruct Hr as (p & l3 & _ & Hp & _). destruct Hp. apply accepts. }
  destruct Hr as (-> & -> & ->). rewrite app_nil_r in Hl. subst l1. apply cleaned_pages_keys in Hc1.
  assert (Hdis : forall j g, (j, g) ∈ fl -> j <> i).
  { intros j g Hj ->. apply Hi. apply list_elem_of_fmap. by exists (i, g). }
  destruct (IH c1 (written (fun w => writer w i) w (dirty_pages f)) (wrap64 (n + Z.of_nat (length (dirty_pages f)))) Hnd) as (c2 & E & Hc2).
  { intros j g Hj. destruct (Hin j g (list_elem_of_further _ _ _ Hj)) as [Hg1 Hg2]. split; [done|]. intros p Hp.
    rewrite (ck_cached _ _ _ Hc1). case_decide as Hd; [|by apply Hg2].
    apply page_keys_of in Hd as [Hji _]. cbn in Hji. by apply Hdis in Hj. }
  { apply wrap64_range. }
  exists c2. rewrite E. unfold dirty_list. cbn [mbind list_bind fst snd].
  rewrite length_app, length_fmap, device_app, <- device_written, fmap_app. split.
  - f_equal. f_equal. unfold wrap64. rewrite Zplus_mod_idemp_l. f_equal. lia.
  - apply (cleaned_keys_app c c1 c2); [done | done|].
    intros k [Hk _]%page_keys_of. intros (x & -> & Hx)%list_elem_of_fmap.
    apply list_elem_of_bind in Hx as ([j g] & Hx & Hj). apply list_elem_of_fmap in Hx as (p & -> & _). cbn in Hk.
    by apply Hdis in Hj.
Qed.

Lemma dirty_list_exact c l i p :
  repr c l -> (i, p) ∈ dirty_list (entries (files c)) <-> (cached c (i, page_num p) = Some p /\ dirty p = true).
Proof.
  intros H. unfold dirty_list. rewrite list_elem_of_bind. split.
  - intros ([j f] & Hp & Hf%elem_of_entries). apply list_elem_of_fmap in Hp as (p' & [= -> <-] & Hp). cbn in *.
    destruct (dirty_pages_in c l j f H Hf) as (_ & Hin & _). split; [by apply Hin|]. by apply list_elem_of_filter in Hp as [Hd _].
  - intros [Hp Hd]. pose proof Hp as (f & Hf & _)%bind_Some. cbn in Hf. exists (i, f).
    destruct (dirty_pages_in c l i f H Hf) as (_ & _ & Hin). split; [|by apply elem_of_entries].
    apply list_elem_of_fmap. exists p. split; [done | by eapply Hin].
Qed.

Lemma dirty_list_NoDup c l : repr c l -> NoDup (page_key <$> dirty_list (entries (files c))).
Proof.
  intros H.
  assert (Hf : forall i f, (i, f) ∈ entries (files c) -> NoDup (page_num <$> dirty_pages f)).
  { intros i f Hf%elem_of_entries. by destruct (dirty_pages_in c l i f H Hf). }
  pose proof (entries_keys_NoDup (files c)) as Hnd. revert Hf Hnd.
  generalize (entries (files c)) as fl. induction fl as [|[i f] fl IH]; intros Hf Hnd; [constructor|].
  apply NoDup_cons in Hnd as [Hi Hnd]. unfold dirty_list. cbn [mbind list_bind fst snd]. rewrite fmap_app.
  apply NoDup_app. split; [|split].
  - rewrite <- list_fmap_compose. change (page_key ∘ pair i) with ((fun q : Z => (i, q)) ∘ page_num).
    rewrite (list_fmap_compose page_num (fun q : Z => (i, q))). apply (NoDup_fmap_2 (fun q : Z => (i, q))), (Hf i f), list_elem_of_here.
  - intros k [Hk _]%page_keys_of (x & -> & Hx)%list_elem_of_fmap.
    apply list_elem_of_bind in Hx as ([j g] & Hx & Hj). apply list_elem_of_fmap in Hx as (p & -> & _). cbn in Hk. subst j.
    apply Hi. apply list_elem_of_fmap. by exists (i, g).
  - apply IH; [|done]. intros j g Hj. by apply (Hf j g), list_elem_of_further.
Qed.

Definition written_back (p : CachedPage) : CachedPage := if dirty p then mark_clean p else p.

Lemma sync_all_spec c l w :
  repr c l ->
  exists c', sync_all c writer w =
      (Ok (wrap64 (Z.of_nat (length (dirty_list (entries (files c)))))), (c', device w (dirty_list (entries (files c))))) /\
    (forall k, cached c' k = written_back <$> cached c k) /\
    time c' = time c /\ limit c' = limit c /\ current_size c' = current_size c.
Proof.
  intros H. unfold sync_all. destruct (sync_files_spec (entries (files c)) c w 0) as (c' & E & Hc).
  - apply entries_keys_NoDup.
  - intros i f Hf%elem_of_entries. destruct (dirty_pages_in c l i f H Hf) as (? & ? & _). done.
  - done.
  - exists c'. split; [exact E|]. destruct Hc as [H1 H2 H3 H4]. split; [|done]. intros k. rewrite H1.
    destruct (cached c k) as [p|] eqn:Hk; [|by case_decide]. cbn. unfold written_back.
    assert (Hn : page_num p = k.2).
    { destruct (repr_ok _ _ H (k, p)) as [P _]; [by apply (repr_exact _ _ H) | done]. }
    case_decide as Hd.
    + apply list_elem_of_fmap in Hd as ([i q] & -> & Hin). apply (dirty_list_exact c l i q H) in Hin as [Hq Hdq].
      unfold page_key in Hk. cbn in Hk. rewrite Hq in Hk. injection Hk as ->. by rewrite Hdq.
    + destruct (dirty p) eqn:Hdp; [|done]. destruct Hd. apply list_elem_of_fmap. exists (k.1, p).
      assert (Ek : k = (k.1, page_num p)) by (rewrite Hn; by destruct k).
      split; [done|]. apply (dirty_list_exact c l k.1 p H). split; [by rewrite <- Ek | done].
Qed.

End SyncAll.

Lemma sync_refines c a :
  refines c a -> let c' := (sync_all c accepting []).2.1 in
  refines c' (Lru.step (limit c) a Lru.SyncAll).2 /\ limit c' = limit c /\ time c' = time c.
Proof.
  intros (l & H & Ho & Hn & Hu).
  destruct (sync_all_spec accepting (fun _ _ _ _ => eq_refl) c l [] H) as (c' & -> & Hc & Ht & Hl & Hs). cbn [snd fst Lru.step].
  split; [|done]. exists ((fun x => (x.1, written_back x.2)) <$> l). split; [|split; [|cbn; rewrite Hs; done]].
  - apply (repr_map c c' l (fun _ => written_back) H); [done| |done]. intros k p. unfold written_back. by destruct (dirty p).
  - cbn. rewrite Ho, <- !list_fmap_compose. apply list_fmap_ext. intros j x _. cbn. unfold view, written_back.
    cbn. destruct (dirty x.2) eqn:E; cbn; by rewrite ?E.
Qed.

Lemma refines_new lim : refines (cache_new lim) (Lru.mkLru [] 0).
Proof. exists []. split; [apply repr_new|]. done. Qed.

Lemma step_refines c a o :
  refines c a -> time c < u64_max ->
  exists c', cache_step c o = Some ((Lru.step (limit c) a o).1, c') /\ refines c' (Lru.step (limit c) a o).2 /\
    limit c' = limit c /\ time c <= time c' <= time c + 1.
Proof.
  intros Ha Ht. destruct o as [i off buf size|i pn d size|i pn| |i]; cbn [cache_step].
  - pose proof (read_refines c a i off buf size Ha Ht) as H. destruct (read c i off buf size) as [r c'].
    destruct H as (a' & -> & Ha' & Hl & Ht'). exists c'. repeat split; try done; cbn; lia.
  - destruct (insert_refines c a i pn d size Ha Ht) as (c' & -> & Ha' & Hl & Ht'). exists c'. repeat split; try done; lia.
  - pose proof (mark_dirty_refines c a i pn Ha) as H. destruct (mark_dirty c i pn) as [b c'].
    destruct H as (a' & -> & Ha' & Hl & Ht'). exists c'. repeat split; try done; cbn; lia.
  - destruct (sync_refines c a Ha) as (Ha' & Hl & Ht'). eexists. repeat split; try done; lia.
  - destruct (invalidate_refines c a i Ha) as (Ha' & Hl & Ht'). eexists. repeat split; try done; lia.
Qed.

Lemma run_refines ops c a :
  refines c a -> time c + Z.of_nat (length ops) <= u64_max ->
  exists c', cache_run c ops = Some ((Lru.run (limit c) a ops).1, c') /\ refines c' (Lru.run (limit c) a ops).2 /\
    limit c' = limit c /\ time c' <= time c + Z.of_nat (length ops).
Proof.
  revert c a. induction ops as [|o ops IH]; intros c a Ha Ht; cbn [cache_run Lru.run length].
  { exists c. repeat split; try done; lia. }
  destruct (step_refines c a o Ha) as (c1 & -> & Ha1 & Hl1 & Ht1); [cbn [length] in Ht; lia|]. cbn [mbind option_bind].
  destruct (Lru.step (limit c) a o) as [r a1]. cbn [fst snd] in *.
  destruct (IH c1 a1 Ha1) as (c2 & -> & Ha2 & Hl2 & Ht2); [cbn [length] in Ht; lia|]. rewrite Hl1 in *.
  cbn [mbind option_bind]. destruct (Lru.run (limit c) a1 ops) as [rs a2]. exists c2. repeat split; try done; lia.
Qed.

(** ** The bytes accounted for *)

(** Inserting a page that is not cached. *)
Definition fresh_op (a : Lru.lru) (o : Lru.op) : Prop :=
  match o with
  | Lru.Insert i pn _ _ => Lru.find_page (Lru.order a) (i, pn) = None
  | _ => True
  end.

Fixpoint fresh_run (lim : Z) (a : Lru.lru) (ops : list Lru.op) : Prop :=
  match ops with
  | [] => True
  | o :: ops' => fresh_op a o /\ fresh_run lim (Lru.step lim a o).2 ops'
  end.

Definition marks (o : Lru.op) : bool := match o with Lru.MarkDirty _ _ => true | _ => false end.

Lemma filter_keys_NoDup (P : key * Lru.page -> Prop) `{forall x, Decision (P x)} (l : list (key * Lru.page)) :
  NoDup l.*1 -> NoDup (filter P l).*1.
Proof.
  induction l as [|x l IH]; [done|]. rewrite fmap_cons. intros [Hx Hl]%NoDup_cons. rewrite filter_cons.
  case_decide; [|by apply IH]. rewrite fmap_cons. constructor; [|by apply IH].
  intros (y & E & [_ Hy]%list_elem_of_filter)%list_elem_of_fmap. apply Hx. rewrite E. by apply list_elem_of_fmap_2.
Qed.

Lemma without_absent l k : k ∉ l.*1 -> Lru.without l k = l.
Proof.
  induction l as [|x l IH]; [done|]. rewrite fmap_cons. intros [Hx Hl]%not_elem_of_cons. unfold Lru.without in *.
  rewrite filter_cons. case_decide; [by rewrite IH | congruence].
Qed.

Lemma find_page_None l k : Lru.find_page l k = None <-> k ∉ l.*1.
Proof.
  unfold Lru.find_page. induction l as [|x l IH]; [split; [by intros _ ?%elem_of_nil | done]|].
  rewrite filter_cons, fmap_cons, not_elem_of_cons. case_decide as Hx.
  - cbn. split; [done|]. intros [Hk _]. congruence.
  - rewrite IH. split; [intros H; split; [congruence | done] | by intros [_ H]].
Qed.

Lemma without_present l k : NoDup l.*1 -> k ∈ l.*1 -> S (length (Lru.without l k)) = length l.
Proof.
  induction l as [|x l IH]; [by intros _ ?%elem_of_nil|]. rewrite fmap_cons. intros [Hx Hl]%NoDup_cons [->|Hk]%elem_of_cons.
  - unfold Lru.without. rewrite filter_cons. case_decide; [congruence|]. cbn. f_equal. f_equal. by apply without_absent.
  - unfold Lru.without in *. rewrite filter_cons. cbn. case_decide; [cbn; f_equal; by apply IH|]. subst k. done.
Qed.

Lemma use_NoDup l k p : NoDup l.*1 -> NoDup (Lru.use l k p).*1.
Proof.
  intros Hl. unfold Lru.use. rewrite fmap_app. apply NoDup_app. split; [by apply filter_keys_NoDup|].
  split; [|apply NoDup_singleton]. intros x Hx ->%list_elem_of_singleton. cbn in Hx.
  apply list_elem_of_fmap in Hx as (y & -> & [Hy _]%list_elem_of_filter). done.
Qed.

(** The pages have distinct keys, and their bytes are what is counted. *)
Record exact (a : Lru.lru) : Prop := {
  ex_keys : NoDup (Lru.order a).*1;
  ex_counted : Lru.counted a = PAGE_SIZE * Z.of_nat (length (Lru.order a)) }.

Lemma evict_exact l l' : NoDup l.*1 -> Lru.evict l = Some l' -> NoDup l'.*1 /\ S (length l') = length l.
Proof.
  intros Hl. unfold Lru.evict. destruct (head (filter _ l)) as [x|] eqn:Hx; [|done]. intros [= <-].
  split; [by apply filter_keys_NoDup|]. apply without_present; [done|].
  destruct (filter _ l) as [|y f] eqn:Hf; [done|]. injection Hx as ->.
  assert (Hin : x ∈ filter (fun x : key * Lru.page => x.2.2 = false) l) by (rewrite Hf; apply list_elem_of_here).
  apply list_elem_of_filter in Hin as [_ Hin]. by apply list_elem_of_fmap_2.
Qed.

Lemma make_room_exact lim a :
  exact a -> PAGE_SIZE * (Z.of_nat (length (Lru.order a)) + 1) < u64_modulus ->
  exact (Lru.make_room lim a) /\ (length (Lru.order (Lru.make_room lim a)) <= length (Lru.order a))%nat.
Proof.
  intros [Hk Hc] Hb. unfold Lru.make_room. case_if; [|by split].
  destruct (Lru.evict (Lru.order a)) as [l'|] eqn:He; [|by split].
  destruct (evict_exact _ _ Hk He) as [Hk' Hl']. split; [|cbn; lia]. split; [done|]. cbn. rewrite Hc, <- Hl'.
  rewrite wrap64_small; unfold is_u64, PAGE_SIZE, u64_modulus in *; lia.
Qed.

Lemma step_exact lim a o :
  exact a -> fresh_op a o -> PAGE_SIZE * (Z.of_nat (length (Lru.order a)) + 1) < u64_modulus ->
  exact (Lru.step lim a o).2 /\ (length (Lru.order (Lru.step lim a o).2) <= S (length (Lru.order a)))%nat.
Proof.
  intros Ha Hf Hb. destruct o as [i off buf size|i pn d size|i pn| |i]; cbn [Lru.step] in *.
  - destruct (Lru.find_page (Lru.order a) (i, off / PAGE_SIZE)) as [p|] eqn:Hp; cbn; [|by split; [|lia]].
    destruct Ha as [Hk Hc].
    assert (Hin : (i, off / PAGE_SIZE) ∈ (Lru.order a).*1).
    { destruct (decide ((i, off / PAGE_SIZE) ∈ (Lru.order a).*1)) as [|Hn]; [done|]. apply find_page_None in Hn. congruence. }
    pose proof (without_present _ _ Hk Hin) as Hl.
    assert (E : length (Lru.use (Lru.order a) (i, off / PAGE_SIZE) p) = length (Lru.order a)).
    { unfold Lru.use. rewrite length_app. cbn. lia. }
    rewrite E. split; [|lia]. split; cbn; [by apply use_NoDup | by rewrite E].
  - destruct (make_room_exact lim a Ha Hb) as [[Hk Hc] Hl]. cbn.
    assert (Habs : (i, pn) ∉ (Lru.order (Lru.make_room lim a)).*1).
    { apply find_page_None in Hf. intros Hin. apply Hf. unfold Lru.make_room in Hin. case_if_in Hin; [|done].
      destruct (Lru.evict (Lru.order a)) as [l'|] eqn:He; [|done]. unfold Lru.evict in He.
      destruct (head _); [|done]. injection He as <-. cbn in Hin.
      apply list_elem_of_fmap in Hin as (y & -> & [_ Hy]%list_elem_of_filter). by apply list_elem_of_fmap_2. }
    assert (E : length (Lru.use (Lru.order (Lru.make_room lim a)) (i, pn) (d, false)) = S (length (Lru.order (Lru.make_room lim a)))).
    { unfold Lru.use. rewrite without_absent by done. rewrite length_app. cbn. lia. }
    rewrite E. split; [|lia]. split; cbn; [by apply use_NoDup|]. rewrite E, Hc, wrap64_small; unfold is_u64, PAGE_SIZE, u64_modulus in *; lia.
  - destruct Ha as [Hk Hc]. cbn. rewrite length_fmap. split; [|lia]. split; cbn; [|by rewrite length_fmap].
    rewrite <- list_fmap_compose. erewrite list_fmap_ext; [exact Hk|]. intros j x _. cbn. by case_decide.
  - destruct Ha as [Hk Hc]. cbn. rewrite length_fmap. split; [|lia]. split; cbn; [|by rewrite length_fmap].
    by rewrite <- list_fmap_compose.
  - destruct Ha as [Hk Hc]. cbn. pose proof (length_filter (fun x : key * Lru.page => ~ x.1.1 = i) (Lru.order a)) as Hl.
    split; [|lia]. split; cbn; [by apply filter_keys_NoDup|]. rewrite Hc, wrap64_small; unfold is_u64, PAGE_SIZE, u64_modulus in *; lia.
Qed.

Definition clean (a : Lru.lru) : Prop := forall x, x ∈ Lru.order a -> x.2.2 = false.

Lemma filter_clean a (P : key * Lru.page -> Prop) `{forall x, Decision (P x)} n : clean a -> clean (Lru.mkLru (filter P (Lru.order a)) n).
Proof. intros Ha x [_ Hx]%list_elem_of_filter. by apply Ha. Qed.

Lemma use_clean a k d n : clean a -> clean (Lru.mkLru (Lru.use (Lru.order a) k (d, false)) n).
Proof.
  intros Ha x [[_ Hx]%list_elem_of_filter | ->%list_elem_of_singleton]%elem_of_app; [by apply Ha | done].
Qed.

Lemma make_room_clean lim a :
  exact a -> clean a -> PAGE_SIZE <= lim -> Lru.counted a <= lim -> PAGE_SIZE * (Z.of_nat (length (Lru.order a)) + 1) < u64_modulus ->
  clean (Lru.make_room lim a) /\ Lru.counted (Lru.make_room lim a) + PAGE_SIZE <= lim.
Proof.
  intros [Hk Hc] Ha Hp Hl Hb. unfold Lru.make_room.
  assert (E : Lru.counted a +w PAGE_SIZE = Lru.counted a + PAGE_SIZE).
  { apply wrap64_small. unfold is_u64, PAGE_SIZE, u64_modulus in *. lia. }
  rewrite E. case_if; [|split; [done | lia]].
  unfold Lru.evict. destruct (Lru.order a) as [|x l] eqn:Ho; [unfold PAGE_SIZE in *; cbn in *; lia|].
  rewrite filter_cons. assert (Hx : x.2.2 = false) by (apply Ha; rewrite Ho; apply list_elem_of_here).
  destruct (decide (x.2.2 = false)); [|congruence]. cbn [head]. split.
  - unfold Lru.without. rewrite <- Ho. by apply (filter_clean a).
  - cbn [Lru.counted]. cbn [length] in *. rewrite wrap64_small; unfold is_u64, PAGE_SIZE, u64_modulus in *; lia.
Qed.

Lemma find_page_in l k p : Lru.find_page l k = Some p -> (k, p) ∈ l.
Proof.
  unfold Lru.find_page. intros (x & Hx & ->)%fmap_Some. destruct (filter _ l) as [|y f] eqn:Hf; [done|]. injection Hx as ->.
  assert (Hin : x ∈ filter (fun x : key * Lru.page => x.1 = k) l) by (rewrite Hf; apply list_elem_of_here).
  apply list_elem_of_filter in Hin as [<- Hin]. by destruct x.
Qed.

Lemma step_clean lim a o :
  exact a -> fresh_op a o -> clean a -> marks o = false -> PAGE_SIZE <= lim -> Lru.counted a <= lim ->
  PAGE_SIZE * (Z.of_nat (length (Lru.order a)) + 1) < u64_modulus ->
  clean (Lru.step lim a o).2 /\ Lru.counted (Lru.step lim a o).2 <= lim.
Proof.
  intros Ha Hf Hcl Hm Hp Hl Hb. pose proof (step_exact lim a o Ha Hf Hb) as [He _].
  destruct o as [i off buf size|i pn d size|i pn| |i]; cbn [Lru.step] in *; [| |done| |].
  - destruct (Lru.find_page (Lru.order a) (i, off / PAGE_SIZE)) as [[d b]|] eqn:Hpg; cbn; [|done].
    apply find_page_in in Hpg. pose proof (Hcl _ Hpg) as Hb'. cbn in Hb'. subst b. split; [by apply use_clean | done].
  - destruct (make_room_clean lim a) as [H1 H2]; [done..|]. cbn. split; [by apply use_clean|].
    destruct He as [_ He]. cbn in He. destruct (make_room_exact lim a Ha Hb) as [[_ Hc] Hlen]. 
    rewrite wrap64_small; [done|]. unfold is_u64, PAGE_SIZE, u64_modulus in *. lia.
  - split; [|done]. intros x (y & -> & _)%list_elem_of_fmap. done.
  - split; [by apply filter_clean|]. destruct He as [_ He]. cbn in He. cbn. rewrite He.
    pose proof (length_filter (fun x : key * Lru.page => ~ x.1.1 = i) (Lru.order a)). destruct Ha as [_ Hc].
    unfold PAGE_SIZE in *. lia.
Qed.

Lemma run_exact lim ops a :
  exact a -> fresh_run lim a ops -> PAGE_SIZE * (Z.of_nat (length (Lru.order a)) + Z.of_nat (length ops)) < u64_modulus ->
  exact (Lru.run lim a ops).2 /\
  (forallb (fun o => negb (marks o)) ops = true -> clean a -> PAGE_SIZE <= lim -> Lru.counted a <= lim ->
   Lru.counted (Lru.run lim a ops).2 <= lim).
Proof.
  revert a. induction ops as [|o ops IH]; intros a Ha Hf Hb; cbn [Lru.run forallb].
  { split; [done|]. by intros. }
  destruct Hf as [Hf Hfr]. cbn [length] in Hb.
  assert (Hb1 : PAGE_SIZE * (Z.of_nat (length (Lru.order a)) + 1) < u64_modulus) by (unfold PAGE_SIZE in *; lia).
  destruct (step_exact lim a o Ha Hf Hb1) as [Ha1 Hl1].
  pose proof (fun H1 H2 H3 H4 => step_clean lim a o Ha Hf H1 H2 H3 H4 Hb1) as Hcl.
  destruct (Lru.step lim a o) as [r a1]. cbn [snd] in *.
  destruct (IH a1 Ha1 Hfr) as [He Hc]; [unfold PAGE_SIZE in *; lia|].
  destruct (Lru.run lim a1 ops) as [rs a2]. cbn [snd] in *. split; [done|].
  intros [Hm Hms]%andb_true_iff Hca Hp Hl. apply negb_true_iff in Hm. destruct (Hcl Hca Hm Hp Hl) as [Hca1 Hl1']. by apply Hc.
Qed.

(** ** The properties *)

(** C40: the page cache is a list of pages in the order of their last use: a run of
    its operations answers what the list answers (the bytes last inserted, hit or
    miss), and the page evicted for a new one is the least recently used of those
    that need no write-back. *)
Theorem page_cache_refines_lru (lim : Z) (ops : list Lru.op) :
  Z.of_nat (length ops) <= u64_max ->
  exists c, cache_run (cache_new lim) ops = Some ((Lru.run lim (Lru.mkLru [] 0) ops).1, c) /\
    refines c (Lru.run lim (Lru.mkLru [] 0) ops).2.
Proof.
  intros H. destruct (run_refines ops (cache_new lim) _ (refines_new lim)) as (c & E & Hr & _); [done|].
  by exists c.
Qed.

(** [sync_all] hands every dirty page to the device exactly once and leaves the
    cache with the same bytes and no dirty page. *)
Theorem sync_all_writes_back {W} (writer : W -> Z -> Z -> list Z -> result unit unit * W) (w : W) (lim : Z) (ops : list Lru.op) rs c :
  (forall w i off d, (writer w i off d).1 = Ok tt) ->
  Z.of_nat (length ops) <= u64_max ->
  cache_run (cache_new lim) ops = Some (rs, c) ->
  exists c' l, sync_all c writer w = (Ok (wrap64 (Z.of_nat (length l))), (c', device writer w l)) /\
    NoDup (page_key <$> l) /\
    (forall i p, (i, p) ∈ l <-> cached c (i, page_num p) = Some p /\ dirty p = true) /\
    (forall k, data <$> cached c' k = data <$> cached c k) /\
    forall k p, cached c' k = Some p -> dirty p = false.
Proof.
  intros Hw Hl Hrun. destruct (run_refines ops (cache_new lim) _ (refines_new lim)) as (c0 & E & (l & H & _) & _); [done|].
  rewrite Hrun in E. injection E as _ <-.
  destruct (sync_all_spec writer Hw c l w H) as (c' & E & Hc & _). exists c', (dirty_list (entries (files c))).
  split; [exact E|]. split; [by apply (dirty_list_NoDup c l)|]. split; [intros i p; by apply (dirty_list_exact c l)|].
  split; intros k; [|intros p]; rewrite Hc; destruct (cached c k) as [q|]; cbn; try done.
  - unfold written_back. by destruct (dirty q).
  - intros [= <-]. unfold written_back. by destruct (dirty q) eqn:Hd.
Qed.

(** while no page is inserted twice the bytes the cache counts are those of its
    pages, and without dirty pages they stay within the limit. *)
Theorem cache_size_exact (lim : Z) (ops : list Lru.op) rs c :
  fresh_run lim (Lru.mkLru [] 0) ops -> PAGE_SIZE * Z.of_nat (length ops) < u64_modulus ->
  cache_run (cache_new lim) ops = Some (rs, c) ->
  (exists ks, NoDup ks /\ (forall k, k ∈ ks <-> is_Some (cached c k)) /\ current_size c = PAGE_SIZE * Z.of_nat (length ks)) /\
  (forallb (fun o => negb (marks o)) ops = true -> PAGE_SIZE <= lim -> current_size c <= lim).
Proof.
  intros Hf Hb Hrun. assert (H0 : exact (Lru.mkLru [] 0)) by (split; [constructor | done]).
  destruct (run_exact lim ops _ H0 Hf Hb) as [[Hk Hc] Hcl].
  destruct (run_refines ops (cache_new lim) _ (refines_new lim)) as (c0 & E & (l & H & Ho & Hn & _) & _).
  { unfold PAGE_SIZE, u64_modulus, u64_max in *. cbn [time cache_new]. lia. }
  rewrite Hrun in E. injection E as _ <-. cbn [limit cache_new] in *. rewrite Hn in *. split.
  - exists (Lru.order (Lru.run lim (Lru.mkLru [] 0) ops).2).*1. split; [done|]. split; [|by rewrite length_fmap].
    intros k. rewrite Ho, <- list_fmap_compose, list_elem_of_fmap. split.
    + intros ([k' p] & -> & Hin). apply (repr_exact _ _ H) in Hin. by exists p.
    + intros [p Hp]. exists (k, p). split; [done | by apply (repr_exact _ _ H)].
  - intros Hm Hp. apply Hcl; [done| |done|cbn; unfold PAGE_SIZE in *; lia]. intros x []%elem_of_nil.
Qed.

(** ** Concrete runs *)

Definition two_page_run : list Lru.op :=
  [Lru.Insert 1 0 [7; 8; 9] 3; Lru.Insert 1 1 [5] 1; Lru.Read 1 1 [0; 0] 3; Lru.MarkDirty 1 0; Lru.Insert 2 0 [6] 1; Lru.Read 1 4096 [0] 1].

(** Page 1 of file 1 was used least recently: it makes room for the page of file 2. *)
Lemma page_cache_refines_lru_witness :
  Z.of_nat (length two_page_run) <= u64_max /\
  exists c, cache_run (cache_new 8192) two_page_run =
    Some ([Lru.Done; Lru.Done; Lru.Bytes (Some (2, [8; 9])); Lru.Marked true; Lru.Done; Lru.Bytes None], c).
Proof.
  split; [done|]. destruct (page_cache_refines_lru 8192 two_page_run) as (c & E & _); [done|]. exists c. rewrite E. by vm_compute.
Defined.

Definition two_page_cache : PageCache := from_option snd (cache_new 0) (cache_run (cache_new 8192) two_page_run).

Lemma sync_all_writes_back_witness :
  (sync_all two_page_cache accepting []).1 = Ok 1 /\ (sync_all two_page_cache accepting []).2.2 = [(1, 0, [7; 8; 9])] /\
  exists c' l, sync_all two_page_cache accepting [] = (Ok (wrap64 (Z.of_nat (length l))), (c', device accepting [] l)) /\
    forall k p, cached c' k = Some p -> dirty p = false.
Proof.
  split; [by vm_compute|]. split; [by vm_compute|].
  destruct (sync_all_writes_back accepting [] 8192 two_page_run (Lru.run 8192 (Lru.mkLru [] 0) two_page_run).1 two_page_cache)
    as (c' & l & E & _ & _ & _ & Hd); [done | done | vm_compute; reflexivity | exists c', l; exact (conj E Hd)].
Defined.

Lemma cache_size_exact_witness :
  current_size (from_option snd (cache_new 0) (cache_run (cache_new 8192) (take 3 two_page_run ++ [Lru.Insert 2 0 [6] 1]))) <= 8192.
Proof.
  apply (cache_size_exact 8192 (take 3 two_page_run ++ [Lru.Insert 2 0 [6] 1])
    (Lru.run 8192 (Lru.mkLru [] 0) (take 3 two_page_run ++ [Lru.Insert 2 0 [6] 1])).1); [|done|by vm_compute|done|done].
  by vm_compute.
Defined.

(** A page inserted twice is counted twice: one page of bytes, two pages counted. *)
Lemma reinsert_counted_twice :
  (fun r => (base.size <$> (pages <$> files r.2 !! 1), current_size r.2)) <$>
  cache_run (cache_new 8192) [Lru.Insert 1 0 [7] 1; Lru.Insert 1 0 [8] 1] = Some (Some 1%nat, 8192).
Proof. by vm_compute. Qed.

(** A page marked twice is counted as two dirty pages; after the write-back one is left. *)
Lemma dirty_counted_twice :
  (fun r => stat_dirty (stats r.2)) <$>
  cache_run (cache_new 8192) [Lru.Insert 1 0 [7] 1; Lru.MarkDirty 1 0; Lru.MarkDirty 1 0; Lru.SyncAll] = Some 1.
Proof. by vm_compute. Qed.

(** Dirty pages are not evicted and not written back to make room: the limit is passed. *)
Lemma dirty_pages_exceed_limit :
  (fun r => current_size r.2) <$>
  cache_run (cache_new 4096) [Lru.Insert 1 0 [7] 1; Lru.MarkDirty 1 0; Lru.Insert 1 1 [8] 1] = Some 8192.
Proof. by vm_compute. Qed.
