(* ===== verification/FsTypes.v ===== *)
(** * The filesystem interface (src/src/fs/fs_abstraction.rs)

    Errors, file types, attributes, the [Inode] trait as a class of operations on
    a world [W] of inodes, and the code written against it: open files, the
    asynchronous reads and writes, path resolution and the mount table.  An
    operation of an inode returns a value or an error, changes the world, or
    panics. *)

From stdpp Require Import base list gmap strings.
From Stdlib Require Import ZArith Lia Ascii.
From S2P Require Import Prelude.

Local Open Scope Z_scope.

Inductive FsError :=
| NotFound | PermissionDenied | AlreadyExists | NotDirectory | IsDirectory | InvalidArgument | NoSpace | ReadOnly | IoError
| NotSupported | InvalidPath | NotEmpty | TooManyOpenFiles | BadFileDescriptor | CrossDeviceLink | NameTooLong | Interrupted.

#[export] Instance fs_error_eq_dec : EqDecision FsError.
Proof. solve_decision. Defined.

Inductive FileType := Regular | Directory | Symlink | BlockDevice | CharDevice | Fifo | Socket.

#[export] Instance file_type_eq_dec : EqDecision FileType.
Proof. solve_decision. Defined.

(** ** Results *)

Definition fs (W A : Type) : Type := W -> outcome (result A FsError * W).

Section Monad.
Context {W : Type}.

Definition fs_ok {A} (a : A) : fs W A := fun w => Ret (Ok a, w).
Definition fs_err {A} (e : FsError) : fs W A := fun w => Ret (Err e, w).

(** [let a = m?; k a] *)
Definition fs_bind {A B} (m : fs W A) (k : A -> fs W B) : fs W B := fun w =>
  match m w with
  | Ret (Ok a, w') => k a w'
  | Ret (Err e, w') => Ret (Err e, w')
  | Panic => Panic
  end.

(** [match m { Ok(a) => .., Err(e) => .. }] *)
Definition fs_match {A B} (m : fs W A) (k : result A FsError -> fs W B) : fs W B := fun w =>
  match m w with
  | Ret (r, w') => k r w'
  | Panic => Panic
  end.

(** A function of the world. *)
Definition fs_get {A} (f : W -> A) : fs W A := fun w => Ret (Ok (f w), w).
Definition fs_put (f : W -> W) : fs W unit := fun w => Ret (Ok tt, f w).

End Monad.

Declare Scope fs_scope.
Delimit Scope fs_scope with fs.
Notation "x <-? m ; k" := (fs_bind m (fun x => k)) (at level 100, m at next level, right associativity) : fs_scope.
Notation "m ;? k" := (fs_bind m (fun _ => k)) (at level 100, right associativity) : fs_scope.

(** ** Modes and flags *)

Definition S_IRUSR : Z := 256.
Definition S_IWUSR : Z := 128.
Definition S_IXUSR : Z := 64.
Definition DEFAULT_FILE : Z := 420.
Definition DEFAULT_DIR : Z := 493.

Definition owner_read (mode : Z) : bool := negb (Z.land mode S_IRUSR =? 0).
Definition owner_write (mode : Z) : bool := negb (Z.land mode S_IWUSR =? 0).
Definition owner_execute (mode : Z) : bool := negb (Z.land mode S_IXUSR =? 0).

Module OpenFlags.

Definition O_RDONLY : Z := 0.
Definition O_WRONLY : Z := 1.
Definition O_RDWR : Z := 2.
Definition O_CREAT : Z := 64.
Definition O_TRUNC : Z := 512.
Definition O_APPEND : Z := 1024.

Definition can_read (f : Z) : bool := negb (Z.land f 3 =? O_WRONLY).
Definition can_write (f : Z) : bool := negb (Z.land f 3 =? O_RDONLY).
Definition create (f : Z) : bool := negb (Z.land f O_CREAT =? 0).
Definition truncate (f : Z) : bool := negb (Z.land f O_TRUNC =? 0).
Definition append (f : Z) : bool := negb (Z.land f O_APPEND =? 0).

End OpenFlags.

Inductive SeekFrom := SeekStart (offset : Z) | SeekEnd (offset : Z) | SeekCurrent (offset : Z).

Record FileAttr := mkAttr {
  attr_ino : Z; attr_size : Z; blocks : Z; attr_type : FileType; attr_mode : Z; nlink : Z; uid : Z; gid : Z;
  rdev : Z; blksize : Z; atime : Z; mtime : Z; ctime : Z }.

Definition attr_default : FileAttr := mkAttr 0 0 0 Regular DEFAULT_FILE 1 0 0 0 4096 0 0 0.

Record DirEntry := mkEntry { entry_name : string; entry_ino : Z; entry_type : FileType }.

Record FsStats := mkFsStats {
  fs_blocks : Z; bfree : Z; bavail : Z; fs_files : Z; ffree : Z; bsize : Z; namelen : Z; frsize : Z }.

(** ** Inodes *)

Module Inode.

(** Inodes [I] of a world [W]. *)
Class Ops (W I : Type) := mkOps {
  getattr : I -> fs W FileAttr;
  setattr : I -> FileAttr -> fs W unit;
  lookup : I -> string -> fs W I;
  readdir : I -> Z -> fs W (list DirEntry);
  create : I -> string -> Z -> Z -> fs W I;
  mkdir : I -> string -> Z -> fs W I;
  unlink : I -> string -> fs W unit;
  rmdir : I -> string -> fs W unit;
  rename : I -> string -> I -> string -> fs W unit;
  link : I -> string -> I -> fs W unit;
  symlink : I -> string -> string -> fs W I;
  readlink : I -> fs W string;
  read : I -> Z -> list Z -> fs W (Z * list Z);
  write : I -> Z -> list Z -> fs W Z;
  truncate : I -> Z -> fs W unit;
  fsync : I -> bool -> fs W unit }.

End Inode.

(** ** Open files *)

Section Handles.
Context {W I : Type} `{!Inode.Ops W I}.

Record FileHandle := mkHandle { inode : I; flags : Z; position : Z }.

Definition handle_new (i : I) (f : Z) : FileHandle := mkHandle i f 0.
Definition at_position (h : FileHandle) (p : Z) : FileHandle := mkHandle (inode h) (flags h) p.

(** The result, the handle and the world afterwards. *)
Definition handle_read (h : FileHandle) (buf : list Z) (w : W) :
    outcome (result (Z * list Z) FsError * FileHandle * W) :=
  if negb (OpenFlags.can_read (flags h)) then Ret (Err PermissionDenied, h, w)
  else
    match Inode.read (inode h) (position h) buf w with
    | Ret (Ok (n, buf'), w') => Ret (Ok (n, buf'), at_position h (position h +w n), w')
    | Ret (Err e, w') => Ret (Err e, h, w')
    | Panic => Panic
    end.

Definition handle_write_at (h : FileHandle) (buf : list Z) (w : W) : outcome (result Z FsError * FileHandle * W) :=
  match Inode.write (inode h) (position h) buf w with
  | Ret (Ok n, w') => Ret (Ok n, at_position h (position h +w n), w')
  | Ret (Err e, w') => Ret (Err e, h, w')
  | Panic => Panic
  end.

Definition handle_write (h : FileHandle) (buf : list Z) (w : W) : outcome (result Z FsError * FileHandle * W) :=
  if negb (OpenFlags.can_write (flags h)) then Ret (Err PermissionDenied, h, w)
  else if OpenFlags.append (flags h) then
    match Inode.getattr (inode h) w with
    | Ret (Ok a, w') => handle_write_at (at_position h (attr_size a)) buf w'
    | Ret (Err e, w') => Ret (Err e, h, w')
    | Panic => Panic
    end
  else handle_write_at h buf w.

(** [base] moved by a signed offset: to the left with a check, to the right with
    the wrap-around of the addition. *)
Definition seek_by (base offset : Z) : result Z FsError :=
  if offset <? 0 then
    if base <? - offset then Err InvalidArgument else Ok (base - - offset)
  else Ok (base +w offset).

Definition seek_to (h : FileHandle) (p : result Z FsError) (w : W) : outcome (result Z FsError * FileHandle * W) :=
  match p with
  | Ok new_pos => Ret (Ok new_pos, at_position h new_pos, w)
  | Err e => Ret (Err e, h, w)
  end.

Definition seek (h : FileHandle) (pos : SeekFrom) (w : W) : outcome (result Z FsError * FileHandle * W) :=
  match pos with
  | SeekStart offset => seek_to h (Ok offset) w
  | SeekEnd offset =>
      match Inode.getattr (inode h) w with
      | Ret (Ok a, w') => seek_to h (seek_by (attr_size a) offset) w'
      | Ret (Err e, w') => Ret (Err e, h, w')
      | Panic => Panic
      end
  | SeekCurrent offset => seek_to h (seek_by (position h) offset) w
  end.

(** *** Asynchronous operations *)

Record AsyncReadFuture := mkReadFuture { rf_inode : I; rf_position : Z; rf_buf : list Z; rf_completed : bool }.

Definition read_future (h : FileHandle) (buf : list Z) : AsyncReadFuture := mkReadFuture (inode h) (position h) buf false.

(** A poll is always ready; a second one is an error. *)
Definition read_poll (f : AsyncReadFuture) (w : W) : outcome (result Z FsError * AsyncReadFuture * W) :=
  if rf_completed f then Ret (Err InvalidArgument, f, w)
  else
    let done b := mkReadFuture (rf_inode f) (rf_position f) b true in
    match Inode.read (rf_inode f) (rf_position f) (rf_buf f) w with
    | Ret (Ok (n, buf'), w') => Ret (Ok n, done buf', w')
    | Ret (Err e, w') => Ret (Err e, done (rf_buf f), w')
    | Panic => Panic
    end.

Record AsyncWriteFuture := mkWriteFuture { wf_inode : I; wf_position : Z; wf_buf : list Z; wf_completed : bool }.

Definition write_future (h : FileHandle) (buf : list Z) : AsyncWriteFuture := mkWriteFuture (inode h) (position h) buf false.

Definition write_poll (f : AsyncWriteFuture) (w : W) : outcome (result Z FsError * AsyncWriteFuture * W) :=
  if wf_completed f then Ret (Err InvalidArgument, f, w)
  else
    match Inode.write (wf_inode f) (wf_position f) (wf_buf f) w with
    | Ret (r, w') => Ret (r, mkWriteFuture (wf_inode f) (wf_position f) (wf_buf f) true, w')
    | Panic => Panic
    end.

End Handles.

Arguments FileHandle : clear implicits.
Arguments AsyncReadFuture : clear implicits.
Arguments AsyncWriteFuture : clear implicits.

(** ** Strings *)

Definition slash : ascii := "/"%char.
Definition is_slash (a : ascii) : bool := Ascii.eqb a slash.

(** [s.split('/')] *)
Fixpoint split_slash (s : string) : list string :=
  match s with
  | EmptyString => [EmptyString]
  | String a s' =>
      if is_slash a then EmptyString :: split_slash s'
      else
        match split_slash s' with
        | c :: cs => String a c :: cs
        | [] => [String a EmptyString]
        end
  end.

Definition starts_with_slash (s : string) : bool :=
  match s with
  | String a _ => is_slash a
  | EmptyString => false
  end.

(** [s.trim_end_matches('/')] *)
Fixpoint trim_end_slash (s : string) : string :=
  match s with
  | EmptyString => EmptyString
  | String a s' =>
      match trim_end_slash s' with
      | EmptyString => if is_slash a then EmptyString else String a EmptyString
      | t => String a t
      end
  end.

(** [s.rfind('/')] with the two parts: what is before the last slash and what is behind it. *)
Fixpoint rsplit_slash (s : string) : option (string * string) :=
  match s with
  | EmptyString => None
  | String a s' =>
      match rsplit_slash s' with
      | Some (p, n) => Some (String a p, n)
      | None => if is_slash a then Some (EmptyString, s') else None
      end
  end.

(** [parts.join("/")] *)
Fixpoint join_slash (l : list string) : string :=
  match l with
  | [] => EmptyString
  | [c] => c
  | c :: cs => String.append c (String slash (join_slash cs))
  end.

(** ** Path resolution *)

Section Resolver.
Context {W I : Type} `{!Inode.Ops W I}.
Local Open Scope fs_scope.

Record PathResolver := mkResolver { resolver_root : I; resolver_cwd : I }.

Definition resolver_new (root : I) : PathResolver := mkResolver root root.

Definition skipped (c : string) : bool :=
  bool_decide (c = EmptyString) || bool_decide (c = "."%string) || bool_decide (c = ".."%string).

Fixpoint walk (current : I) (components : list string) : fs W I :=
  match components with
  | [] => fs_ok current
  | c :: cs => if skipped c then walk current cs else child <-? Inode.lookup current c; walk child cs
  end.

Definition tail_string (s : string) : string := match s with String _ s' => s' | EmptyString => EmptyString end.

Definition resolve (r : PathResolver) (path : string) : fs W I :=
  if bool_decide (path = EmptyString) then fs_err InvalidPath
  else if starts_with_slash path then walk (resolver_root r) (split_slash (tail_string path))
  else walk (resolver_cwd r) (split_slash path).

Definition resolve_parent (r : PathResolver) (path : string) : fs W (I * string) :=
  if bool_decide (path = EmptyString) then fs_err InvalidPath
  else
    let path := trim_end_slash path in
    match rsplit_slash path with
    | Some (p, name) =>
        parent <-? resolve r (if bool_decide (p = EmptyString) then "/"%string else p);
        fs_ok (parent, name)
    | None => fs_ok (resolver_cwd r, path)
    end.

Definition set_cwd (r : PathResolver) (path : string) : fs W PathResolver :=
  i <-? resolve r path;
  a <-? Inode.getattr i;
  if bool_decide (attr_type a = Directory) then fs_ok (mkResolver (resolver_root r) i) else fs_err NotDirectory.

End Resolver.

Arguments PathResolver : clear implicits.

(** ** The mount table *)

Section Mounts.
(** The mounted filesystems and what their [unmount] answers. *)
Context {F : Type} (fs_unmount : F -> result unit FsError).

Record MountEntry := mkMount { mount_path : string; mount_fs : F }.

Definition mount (mounts : list MountEntry) (path : string) (f : F) : result unit FsError * list MountEntry :=
  if existsb (fun m => bool_decide (mount_path m = path)) mounts then (Err AlreadyExists, mounts)
  else (Ok tt, mounts ++ [mkMount path f]).

(** The entry is removed before its filesystem is asked. *)
Definition unmount (mounts : list MountEntry) (path : string) : result unit FsError * list MountEntry :=
  match list_find (fun m => mount_path m = path) mounts with
  | Some (pos, entry) => (fs_unmount (mount_fs entry), delete pos mounts)
  | None => (Err NotFound, mounts)
  end.

Definition max_mount (best : option MountEntry) (m : MountEntry) : option MountEntry :=
  match best with
  | Some b => if (String.length (mount_path m) <? String.length (mount_path b))%nat then Some b else Some m
  | None => Some m
  end.

(** [max_by_key] returns the last of several longest paths. *)
Definition find_mount (mounts : list MountEntry) (path : string) : option F :=
  mount_fs <$> foldl max_mount None (filter (fun m => String.prefix (mount_path m) path = true) mounts).

End Mounts.

Arguments MountEntry : clear implicits.
