(* ===== verification/MemFs.v ===== *)
(** * The memory filesystem and its shell interface (src/src/fs/memfs.rs)

    Inodes are shared ([Arc]): they live in a heap under an address, a directory
    maps names to addresses, and whoever holds an address sees every change.  A
    removed inode stays in the heap, as it does while a handle keeps it alive.  The
    functions the shell calls walk from the root of the one global filesystem. *)

From stdpp Require Import base list gmap strings sorting.
From Stdlib Require Import ZArith Lia Ascii.
From S2P Require Import Prelude OrderedMap FsTypes.

Local Open Scope Z_scope.
Local Open Scope fs_scope.

(** ** State *)

Record MemoryInode := mkInode {
  ino : Z; name : string; file_type : FileType; mode : Z; size : Z;
  content : list Z; children : gmap string Z; symlink_target : option string; next_child_ino : Z }.

(** [root] is the address of the root inode. *)
Record MemoryFs := mkMemoryFs { root : Z; next_ino : Z }.

Record world := mkWorld { heap : gmap Z MemoryInode; next_addr : Z; SHELL_FS : option MemoryFs }.

Definition with_heap (w : world) (h : gmap Z MemoryInode) : world := mkWorld h (next_addr w) (SHELL_FS w).

Notation memfs := (fs world).

(** ** Inodes *)

Definition new_dir (i : Z) (n : string) (m : Z) : MemoryInode := mkInode i n Directory m 0 [] ∅ None (i +w 1000).
Definition new_file (i : Z) (n : string) (m : Z) : MemoryInode := mkInode i n Regular m 0 [] ∅ None 0.
Definition new_symlink (i : Z) (n target : string) : MemoryInode :=
  mkInode i n Symlink 511 (Z.of_nat (String.length target)) [] ∅ (Some target) 0.

Definition with_children (x : MemoryInode) (cs : gmap string Z) : MemoryInode :=
  mkInode (ino x) (name x) (file_type x) (mode x) (size x) (content x) cs (symlink_target x) (next_child_ino x).
Definition with_content (x : MemoryInode) (c : list Z) (sz : Z) : MemoryInode :=
  mkInode (ino x) (name x) (file_type x) (mode x) sz c (children x) (symlink_target x) (next_child_ino x).
Definition with_next_child (x : MemoryInode) (n : Z) : MemoryInode :=
  mkInode (ino x) (name x) (file_type x) (mode x) (size x) (content x) (children x) (symlink_target x) n.

(** [self]: an [Arc] is never dangling. *)
Definition self (a : Z) : memfs MemoryInode := fun w =>
  match heap w !! a with
  | Some x => Ret (Ok x, w)
  | None => Panic
  end.
Definition store (a : Z) (x : MemoryInode) : memfs unit := fs_put (fun w => with_heap w (<[a := x]> (heap w))).

(** [Arc::new] *)
Definition alloc (x : MemoryInode) : memfs Z := fun w =>
  Ret (Ok (next_addr w), mkWorld (<[next_addr w := x]> (heap w)) (next_addr w + 1) (SHELL_FS w)).

Definition require_type (x : MemoryInode) (t : FileType) (e : FsError) : memfs unit :=
  if bool_decide (file_type x = t) then fs_ok tt else fs_err e.

Definition getattr (a : Z) : memfs FileAttr :=
  x <-? self a;
  fs_ok (mkAttr (ino x) (size x) ((size x +w 511) / 512) (file_type x) (mode x) 1 0 0 0 4096 0 0 0).

Definition setattr (a : Z) (attr : FileAttr) : memfs unit := fs_ok tt.

Definition lookup (a : Z) (n : string) : memfs Z :=
  x <-? self a;
  require_type x Directory NotDirectory;?
  match children x !! n with
  | Some c => fs_ok c
  | None => fs_err NotFound
  end.

(** The entries of the children in the order of their names. *)
Fixpoint read_entries (l : list (string * Z)) : memfs (list DirEntry) :=
  match l with
  | [] => fs_ok []
  | (n, c) :: l' =>
      x <-? self c;
      rest <-? read_entries l';
      fs_ok (mkEntry n (ino x) (file_type x) :: rest)
  end.

Definition readdir (a : Z) (offset : Z) : memfs (list DirEntry) :=
  x <-? self a;
  require_type x Directory NotDirectory;?
  es <-? read_entries (entries (children x));
  fs_ok (mkEntry "." (ino x) Directory :: mkEntry ".." (ino x) Directory :: es).

(** What [create], [mkdir] and [symlink] share: a new child under a new number. *)
Definition add_child (a : Z) (n : string) (mk : Z -> MemoryInode) : memfs Z :=
  x <-? self a;
  require_type x Directory NotDirectory;?
  match children x !! n with
  | Some _ => fs_err AlreadyExists
  | None =>
      c <-? alloc (mk (next_child_ino x));
      store a (with_children (with_next_child x (next_child_ino x +w 1)) (<[n := c]> (children x)));?
      fs_ok c
  end.

Definition create (a : Z) (n : string) (m flags : Z) : memfs Z := add_child a n (fun i => new_file i n m).
Definition mkdir (a : Z) (n : string) (m : Z) : memfs Z := add_child a n (fun i => new_dir i n m).
Definition symlink (a : Z) (n target : string) : memfs Z := add_child a n (fun i => new_symlink i n target).

Definition unlink (a : Z) (n : string) : memfs unit :=
  x <-? self a;
  require_type x Directory NotDirectory;?
  match children x !! n with
  | Some c =>
      y <-? self c;
      if bool_decide (file_type y = Directory) then fs_err IsDirectory
      else store a (with_children x (delete n (children x)))
  | None => fs_err NotFound
  end.

Definition rmdir (a : Z) (n : string) : memfs unit :=
  x <-? self a;
  require_type x Directory NotDirectory;?
  match children x !! n with
  | Some c =>
      y <-? self c;
      require_type y Directory NotDirectory;?
      if bool_decide (children y = ∅) then store a (with_children x (delete n (children x)))
      else fs_err NotEmpty
  | None => fs_err NotFound
  end.

(** The directories are compared by their numbers. *)
Definition rename (a : Z) (old_name : string) (new_dir : Z) (new_name : string) : memfs unit :=
  d <-? getattr new_dir;
  x <-? self a;
  if bool_decide (ino x = attr_ino d) then
    match children x !! old_name with
    | Some c => store a (with_children x (<[new_name := c]> (delete old_name (children x))))
    | None => fs_err NotFound
    end
  else fs_err CrossDeviceLink.

Definition link (a : Z) (n : string) (i : Z) : memfs unit := fs_err NotSupported.

Definition readlink (a : Z) : memfs string :=
  x <-? self a;
  require_type x Symlink InvalidArgument;?
  match symlink_target x with
  | Some t => fs_ok t
  | None => fs_err InvalidArgument
  end.

(** [content[start..end]] panics when it is not a range of the content. *)
Definition slice (l : list Z) (start stop : Z) : memfs (list Z) := fun w =>
  if (start <=? stop) && (stop <=? Z.of_nat (length l)) then
    Ret (Ok (take (Z.to_nat (stop - start)) (drop (Z.to_nat start) l)), w)
  else Panic.

Definition read (a : Z) (offset : Z) (buf : list Z) : memfs (Z * list Z) :=
  x <-? self a;
  require_type x Regular IsDirectory;?
  let n := Z.of_nat (length (content x)) in
  if offset >=? n then fs_ok (0, buf)
  else
    let stop := Z.min (offset +w Z.of_nat (length buf)) n in
    let len := stop -w offset in
    bytes <-? slice (content x) offset stop;
    fs_ok (len, bytes ++ drop (Z.to_nat len) buf).

(** [Vec::resize]: a capacity over [isize::MAX] panics. *)
Definition resize (l : list Z) (n : Z) : memfs (list Z) := fun w =>
  if n <=? ISIZE_MAX then Ret (Ok (take (Z.to_nat n) l ++ replicate (Z.to_nat n - length l) 0), w) else Panic.

(** [content[start..end].copy_from_slice(buf)] *)
Definition overwrite (l : list Z) (start stop : Z) (buf : list Z) : memfs (list Z) := fun w =>
  if (start <=? stop) && (stop <=? Z.of_nat (length l)) && (stop - start =? Z.of_nat (length buf)) then
    Ret (Ok (take (Z.to_nat start) l ++ buf ++ drop (Z.to_nat stop) l), w)
  else Panic.

Definition write (a : Z) (offset : Z) (buf : list Z) : memfs Z :=
  x <-? self a;
  require_type x Regular IsDirectory;?
  let stop := offset +w Z.of_nat (length buf) in
  c1 <-? (if stop >? Z.of_nat (length (content x)) then resize (content x) stop else fs_ok (content x));
  c2 <-? overwrite c1 offset stop buf;
  store a (with_content x c2 (Z.of_nat (length c2)));?
  fs_ok (Z.of_nat (length buf)).

Definition truncate (a : Z) (n : Z) : memfs unit :=
  x <-? self a;
  require_type x Regular IsDirectory;?
  c <-? resize (content x) n;
  store a (with_content x c n).

Definition fsync (a : Z) (datasync : bool) : memfs unit := fs_ok tt.

#[export] Instance memory_inode : Inode.Ops world Z := {
  Inode.getattr := getattr; Inode.setattr := setattr; Inode.lookup := lookup; Inode.readdir := readdir;
  Inode.create := create; Inode.mkdir := mkdir; Inode.unlink := unlink; Inode.rmdir := rmdir; Inode.rename := rename;
  Inode.link := link; Inode.symlink := symlink; Inode.readlink := readlink; Inode.read := read; Inode.write := write;
  Inode.truncate := truncate; Inode.fsync := fsync }.

(** ** The filesystem *)

Definition memoryfs_new : memfs MemoryFs :=
  r <-? alloc (new_dir 1 "/" DEFAULT_DIR); fs_ok (mkMemoryFs r 2).

Definition alloc_ino (f : MemoryFs) : Z * MemoryFs := (next_ino f, mkMemoryFs (root f) (next_ino f +w 1)).

Definition components (s : string) : list string := filter (fun c => c <> EmptyString) (split_slash s).

Fixpoint create_from (current : Z) (cs : list string) : memfs unit :=
  match cs with
  | [] => fs_ok tt
  | c :: cs' =>
      fs_match (lookup current c) (fun r =>
        match r with
        | Ok child => create_from child cs'
        | Err NotFound => new_dir <-? mkdir current c DEFAULT_DIR; create_from new_dir cs'
        | Err e => fs_err e
        end)
  end.

Definition create_path (f : MemoryFs) (path : string) : memfs unit := create_from (root f) (components path).

Definition statfs (f : MemoryFs) : FsStats := mkFsStats (1024 * 1024) (1024 * 1024) (1024 * 1024) 65536 65536 4096 255 4096.

(** ** The shell *)

Definition ascii_bytes (s : string) : list Z := (fun a => Z.of_N (N_of_ascii a)) <$> String.list_ascii_of_string s.

Definition newline : string := String (ascii_of_nat 10) EmptyString.

(** A call whose result is ignored. *)
Definition ignored {A} (m : memfs A) : memfs unit := fs_match m (fun _ => fs_ok tt).

(** A file with its first content. *)
Definition seed_file (dir : Z) (n : string) (bytes : list Z) : memfs unit :=
  fs_match (create dir n DEFAULT_FILE 0) (fun r =>
    match r with
    | Ok f => ignored (write f 0 bytes)
    | Err _ => fs_ok tt
    end).

(** The first directories and files. *)
Definition populate (r : Z) : memfs unit :=
  ignored (mkdir r "bin" DEFAULT_DIR);?
  ignored (mkdir r "dev" DEFAULT_DIR);?
  ignored (mkdir r "etc" DEFAULT_DIR);?
  ignored (mkdir r "home" DEFAULT_DIR);?
  ignored (mkdir r "proc" DEFAULT_DIR);?
  ignored (mkdir r "tmp" DEFAULT_DIR);?
  ignored (mkdir r "var" DEFAULT_DIR);?
  fs_match (lookup r "etc") (fun e =>
    match e with
    | Ok etc =>
        seed_file etc "hostname" (ascii_bytes (String.append "ranyos" newline));?
        seed_file etc "version" (ascii_bytes (String.append "ExoRust/RanyOS v0.3.0-alpha" newline))
    | Err _ => fs_ok tt
    end);?
  fs_match (lookup r "home") (fun e =>
    match e with
    | Ok home => ignored (mkdir home "user" DEFAULT_DIR)
    | Err _ => fs_ok tt
    end).

Definition build_shell_fs : memfs MemoryFs :=
  f <-? memoryfs_new;
  populate (root f);?
  fs_ok f.

Definition init_shell_fs : memfs unit := fun w =>
  match SHELL_FS w with
  | Some _ => Ret (Ok tt, w)
  | None =>
      (f <-? build_shell_fs; fs_put (fun w => mkWorld (heap w) (next_addr w) (Some f))) w
  end.

Definition shell_fs : memfs MemoryFs := fun w =>
  match SHELL_FS w with
  | Some f => Ret (Ok f, w)
  | None => Ret (Err IoError, w)
  end.

(** [cwd/path] *)
Definition append_path (path cwd : string) : string :=
  if bool_decide (cwd = "/"%string) then String slash path else String.append cwd (String slash path).

Definition parent_of (cwd : string) : string :=
  match components cwd with
  | [] => "/"
  | parts =>
      match removelast parts with
      | [] => "/"
      | parent => String slash (join_slash parent)
      end
  end.

Definition absolute_path (path cwd : string) : string :=
  if starts_with_slash path then path
  else if bool_decide (path = "."%string) then cwd
  else if bool_decide (path = ".."%string) then parent_of cwd
  else append_path path cwd.

Fixpoint walk_from (current : Z) (cs : list string) : memfs Z :=
  match cs with
  | [] => fs_ok current
  | c :: cs' =>
      if bool_decide (c = "."%string) then walk_from current cs'
      else if bool_decide (c = ".."%string) then walk_from current cs'
      else next <-? lookup current c; walk_from next cs'
  end.

Definition resolve_path (path cwd : string) : memfs Z :=
  f <-? shell_fs;
  walk_from (root f) (components (absolute_path path cwd)).

Definition list_directory (path cwd : string) : memfs (list DirEntry) :=
  i <-? resolve_path path cwd; readdir i 0.

Definition read_file_content (path cwd : string) : memfs (list Z) :=
  i <-? resolve_path path cwd;
  attr <-? getattr i;
  if bool_decide (attr_type attr = Directory) then fs_err IsDirectory
  else
    r <-? read i 0 (replicate (Z.to_nat (attr_size attr)) 0);
    fs_ok r.2.

(** The parent of a path and the last name. *)
Definition split_path (path cwd : string) : string * string :=
  let abs_path := trim_end_slash (if starts_with_slash path then path else append_path path cwd) in
  match rsplit_slash abs_path with
  | Some (p, n) => (if bool_decide (p = EmptyString) then "/"%string else p, n)
  | None => (cwd, abs_path)
  end.

Definition make_directory (path cwd : string) : memfs unit :=
  let '(parent_path, n) := split_path path cwd in
  parent <-? resolve_path parent_path cwd;
  mkdir parent n DEFAULT_DIR;? fs_ok tt.

(** The entry [n] of a directory, created when it is missing. *)
Definition lookup_or_create (parent : Z) (n : string) : memfs Z :=
  fs_match (lookup parent n) (fun r =>
    match r with
    | Ok i => fs_ok i
    | Err NotFound => create parent n DEFAULT_FILE 0
    | Err e => fs_err e
    end).

Definition touch_file (path cwd : string) : memfs unit :=
  let '(parent_path, n) := split_path path cwd in
  parent <-? resolve_path parent_path cwd;
  lookup_or_create parent n;? fs_ok tt.

Definition remove_file (path cwd : string) : memfs unit :=
  let '(parent_path, n) := split_path path cwd in
  parent <-? resolve_path parent_path cwd;
  unlink parent n.

Definition remove_directory (path cwd : string) : memfs unit :=
  let '(parent_path, n) := split_path path cwd in
  parent <-? resolve_path parent_path cwd;
  rmdir parent n.

Definition move_file (src dst cwd : string) : memfs unit :=
  let '(src_parent_path, src_name) := split_path src cwd in
  let '(dst_parent_path, dst_name) := split_path dst cwd in
  src_parent <-? resolve_path src_parent_path cwd;
  dst_parent <-? resolve_path dst_parent_path cwd;
  rename src_parent src_name dst_parent dst_name.

(** The content of a file replaced. *)
Definition replace_content (i : Z) (bytes : list Z) : memfs unit :=
  truncate i 0;? write i 0 bytes;? fs_ok tt.

Definition copy_file (src dst cwd : string) : memfs unit :=
  bytes <-? read_file_content src cwd;
  let '(dst_parent_path, dst_name) := split_path dst cwd in
  dst_parent <-? resolve_path dst_parent_path cwd;
  dst_inode <-? lookup_or_create dst_parent dst_name;
  replace_content dst_inode bytes.

Definition write_file_content (path cwd : string) (bytes : list Z) : memfs unit :=
  fs_match (resolve_path path cwd) (fun r =>
    match r with
    | Ok i => replace_content i bytes
    | Err NotFound =>
        let '(parent_path, n) := split_path path cwd in
        parent <-? resolve_path parent_path cwd;
        i <-? create parent n DEFAULT_FILE 0;
        replace_content i bytes
    | Err e => fs_err e
    end).

Definition stat_file (path cwd : string) : memfs FileAttr :=
  i <-? resolve_path path cwd; getattr i.

Definition create_symlink (target link_name cwd : string) : memfs unit :=
  let '(parent_path, n) := split_path link_name cwd in
  parent <-? resolve_path parent_path cwd;
  symlink parent n target;? fs_ok tt.
