(* ===== verification/MemFsSpec.v ===== *)
(** * The memory filesystem as a tree of names

    [tree r w]: from the root [r] the inodes form a tree (every inode has one
    parent and one name, an inode is younger than its directory) and every inode
    has the fields of its kind.  [locate] follows a list of names; [view] is the
    filesystem as a map from lists of names to nodes.  The first lemmas say how the
    changes of the operations act on both, the next ones what each operation of an
    inode does to the heap and what path resolution finds, the last ones how the
    string functions act on the components of a path. *)

From stdpp Require Import base list gmap strings.
From Stdlib Require Import ZArith Lia Ascii.
From S2P Require Import Prelude OrderedMap FsTypes MemFs.

Local Open Scope Z_scope.
Local Open Scope fs_scope.

Notation path := (list string).
Notation iheap := (gmap Z MemoryInode).

(** ** Following names *)

Definition step_to (h : iheap) (a : Z) (n : string) : option Z :=
  h !! a ≫= fun x => if bool_decide (file_type x = Directory) then children x !! n else None.

Fixpoint locate (h : iheap) (a : Z) (p : path) : option Z :=
  match p with
  | [] => Some a
  | n :: p' => step_to h a n ≫= fun c => locate h c p'
  end.

Lemma locate_app h a p q : locate h a (p ++ q) = locate h a p ≫= fun b => locate h b q.
Proof. revert a. induction p as [|n p IH]; intros a; [done|]. cbn. destruct (step_to h a n); cbn; [apply IH | done]. Qed.

Lemma locate_snoc h a p n : locate h a (p ++ [n]) = locate h a p ≫= fun b => step_to h b n.
Proof. rewrite locate_app. destruct (locate h a p); [|done]. cbn. by destruct (step_to h _ n). Qed.

(** ** The tree *)

Definition kind_ok (x : MemoryInode) : Prop :=
  match file_type x with
  | Regular => children x = ∅ /\ size x = Z.of_nat (length (content x)) /\ Z.of_nat (length (content x)) <= ISIZE_MAX
  | Directory => True
  | Symlink => children x = ∅ /\ is_Some (symlink_target x)
  | _ => False
  end.

Record tree (r : Z) (w : world) : Prop := {
  t_root : exists x, heap w !! r = Some x /\ file_type x = Directory;
  t_alloc : forall a x, heap w !! a = Some x -> a < next_addr w;
  t_kind : forall a x, heap w !! a = Some x -> kind_ok x;
  t_child : forall a n c, step_to (heap w) a n = Some c -> is_Some (heap w !! c) /\ a < c;
  t_parent : forall a b m n c, step_to (heap w) a m = Some c -> step_to (heap w) b n = Some c -> a = b /\ m = n;
  t_orphan : forall a n, step_to (heap w) a n <> Some r }.

Lemma step_to_eq h a n x : h !! a = Some x -> file_type x = Directory -> step_to h a n = children x !! n.
Proof. intros Hx Ht. unfold step_to. rewrite Hx. cbn. by rewrite bool_decide_eq_true_2. Qed.

Lemma step_to_no_dir h a n x : h !! a = Some x -> file_type x <> Directory -> step_to h a n = None.
Proof. intros Hx Ht. unfold step_to. rewrite Hx. cbn. by rewrite bool_decide_eq_false_2. Qed.

Lemma child_step r w a n x c : tree r w -> heap w !! a = Some x -> children x !! n = Some c -> step_to (heap w) a n = Some c.
Proof.
  intros Ht Hx Hc. pose proof (t_kind _ _ Ht a x Hx) as Hk. rewrite (step_to_eq _ _ _ x Hx); [done|].
  unfold kind_ok in Hk. destruct (file_type x); try done; destruct Hk as [Hk _]; rewrite Hk in Hc; by rewrite lookup_empty in Hc.
Qed.

Lemma locate_heap r w p a : tree r w -> locate (heap w) r p = Some a -> is_Some (heap w !! a).
Proof.
  intros Ht. destruct p as [|n p _] using rev_ind; [intros [= <-]; by destruct (t_root _ _ Ht) as (x & -> & _)|].
  rewrite locate_snoc. intros (b & _ & Hs)%bind_Some. by apply (t_child _ _ Ht) in Hs as [? _].
Qed.

(** No inode has two paths. *)
Lemma locate_inj r w p q a : tree r w -> locate (heap w) r p = Some a -> locate (heap w) r q = Some a -> p = q.
Proof.
  intros Ht. revert q a. induction p as [|m p IH] using rev_ind; intros q a.
  - intros [= <-]. destruct q as [|n q _] using rev_ind; [done|]. rewrite locate_snoc. intros (b & _ & Hs)%bind_Some.
    by apply (t_orphan _ _ Ht) in Hs.
  - rewrite locate_snoc. intros (b & Hb & Hs)%bind_Some. destruct q as [|n q _] using rev_ind.
    + intros [= <-]. by apply (t_orphan _ _ Ht) in Hs.
    + rewrite locate_snoc. intros (b' & Hb' & Hs')%bind_Some. destruct (t_parent _ _ Ht _ _ _ _ _ Hs Hs') as [<- <-].
      by rewrite (IH q b Hb Hb').
Qed.

(** ** The filesystem as a map from paths *)

(** Every node has the number [getattr] gives. *)
Inductive node := NFile (i : Z) (bytes : list Z) | NDir (i : Z) | NLink (i : Z) (target : string).

Definition number (x : node) : Z := match x with NFile i _ | NDir i | NLink i _ => i end.

Definition node_of (x : MemoryInode) : node :=
  match file_type x with
  | Regular => NFile (ino x) (content x)
  | Symlink => NLink (ino x) (default EmptyString (symlink_target x))
  | _ => NDir (ino x)
  end.

Definition view (r : Z) (w : world) (p : path) : option node := node_of <$> (locate (heap w) r p ≫= fun a => heap w !! a).

Lemma view_eq r w p a x : locate (heap w) r p = Some a -> heap w !! a = Some x -> view r w p = Some (node_of x).
Proof. intros Ha Hx. unfold view. rewrite Ha. cbn. by rewrite Hx. Qed.

Lemma view_None r w p : tree r w -> view r w p = None <-> locate (heap w) r p = None.
Proof.
  intros Ht. unfold view. destruct (locate (heap w) r p) as [a|] eqn:Ha; [|done].
  destruct (locate_heap r w p a Ht Ha) as [x Hx]. cbn. by rewrite Hx.
Qed.

Lemma node_of_dir x : kind_ok x -> node_of x = NDir (ino x) <-> file_type x = Directory.
Proof. unfold kind_ok, node_of. destruct (file_type x); done. Qed.

Lemma node_is_dir x i : kind_ok x -> node_of x = NDir i -> file_type x = Directory.
Proof. unfold kind_ok, node_of. destruct (file_type x); done. Qed.

Lemma number_node x : number (node_of x) = ino x.
Proof. unfold node_of. by destruct (file_type x). Qed.

(** ** A new child *)

Definition added (w : world) (a : Z) (x : MemoryInode) (n : string) (new : MemoryInode) : world :=
  mkWorld (<[a := with_children (with_next_child x (next_child_ino x +w 1)) (<[n := next_addr w]> (children x))]>
            (<[next_addr w := new]> (heap w))) (next_addr w + 1) (SHELL_FS w).

(** A node without entries. *)
Definition leaf (x : MemoryInode) : Prop := kind_ok x /\ children x = ∅.

Section Added.
Context (r : Z) (w : world) (a : Z) (x : MemoryInode) (n : string) (new : MemoryInode).
Hypothesis Ht : tree r w.
Hypothesis Hx : heap w !! a = Some x.
Hypothesis Hdir : file_type x = Directory.
Hypothesis Hn : children x !! n = None.
Hypothesis Hleaf : leaf new.

Notation w' := (added w a x n new).
Notation c := (next_addr w).

Lemma fresh_addr b y : heap w !! b = Some y -> b <> c.
Proof. intros Hb%(t_alloc _ _ Ht). lia. Qed.

Lemma fresh_none : heap w !! c = None.
Proof. destruct (heap w !! c) eqn:E; [|done]. by apply fresh_addr in E. Qed.

Lemma added_step b m :
  step_to (heap w') b m = if decide (b = a /\ m = n) then Some c else step_to (heap w) b m.
Proof.
  pose proof (fresh_addr a x Hx) as Hac. unfold step_to. cbn [heap added]. rewrite !lookup_insert.
  destruct (decide (a = b)) as [<-|Hba].
  - cbn. rewrite Hx, Hdir. cbn. rewrite lookup_insert. repeat case_decide; naive_solver.
  - destruct (decide (b = a /\ m = n)) as [[-> _]|_]; [done|]. case_decide as Hb; [|done]. subst b. cbn.
    rewrite fresh_none. cbn. destruct Hleaf as [_ ->]. rewrite lookup_empty. by case_bool_decide.
Qed.

Lemma added_heap b : heap w' !! b =
  if decide (b = a) then Some (with_children (with_next_child x (next_child_ino x +w 1)) (<[n := c]> (children x)))
  else if decide (b = c) then Some new else heap w !! b.
Proof. cbn [heap added]. rewrite !lookup_insert. repeat case_decide; congruence. Qed.

Lemma added_old b m d : step_to (heap w) b m = Some d -> d <> c.
Proof. intros Hs%(t_child _ _ Ht). destruct Hs as [[y Hy] _]. by apply fresh_addr in Hy. Qed.

Lemma added_tree : tree r w'.
Proof.
  pose proof (fresh_addr a x Hx) as Hac. split.
  - destruct (t_root _ _ Ht) as (y & Hy & Hyd). rewrite added_heap. repeat case_decide.
    + by eexists.
    + by destruct (fresh_addr r y Hy).
    + by exists y.
  - intros b y. rewrite added_heap. pose proof (t_alloc _ _ Ht a x Hx) as Hlt. cbn [next_addr added].
    repeat case_decide; intros Hy; [lia | lia | apply (t_alloc _ _ Ht) in Hy; lia].
  - intros b y. rewrite added_heap. repeat case_decide; intros Hy.
    + injection Hy as <-. unfold kind_ok. cbn. by rewrite Hdir.
    + injection Hy as <-. apply Hleaf.
    + by apply (t_kind _ _ Ht) in Hy.
  - intros b m d. rewrite added_step. case_decide as Hd.
    + destruct Hd as [-> ->]. intros [= <-]. rewrite added_heap. pose proof (t_alloc _ _ Ht a x Hx).
      split; [|lia]. destruct (decide (c = a)); [by eexists|]. destruct (decide (c = c)); [by eexists | done].
    + intros Hs. destruct (t_child _ _ Ht _ _ _ Hs) as [[y Hy] Hlt]. split; [|done]. rewrite added_heap.
      repeat case_decide; by eexists.
  - intros b b' m m' d. rewrite !added_step. do 2 case_decide; intros H1 H2.
    + naive_solver.
    + injection H1 as <-. by apply added_old in H2.
    + injection H2 as <-. by apply added_old in H1.
    + by eapply (t_parent _ _ Ht).
  - intros b m. rewrite added_step. case_decide; [|apply (t_orphan _ _ Ht)]. intros [= E].
    destruct (t_root _ _ Ht) as (y & Hy & _). by destruct (fresh_addr r y Hy).
Qed.

Lemma added_locate p q : locate (heap w) r p = Some a ->
  locate (heap w') r q = if decide (q = p ++ [n]) then Some c else locate (heap w) r q.
Proof.
  intros Hp. induction q as [|m q IH] using rev_ind.
  { cbn. case_decide as E; [|done]. by destruct p. }
  rewrite !locate_snoc, IH. destruct (decide (q = p ++ [n])) as [->|Hq].
  - rewrite locate_snoc, Hp. cbn. rewrite (step_to_eq _ _ _ x Hx Hdir), Hn. cbn. rewrite added_step.
    pose proof (fresh_addr a x Hx) as Hac. destruct (decide (c = a /\ m = n)) as [[E _]|_]; [by destruct Hac|].
    assert (E : step_to (heap w) c m = None) by (unfold step_to; by rewrite fresh_none). rewrite E.
    case_decide as E2; [|done]. apply (f_equal length) in E2. rewrite !length_app in E2. cbn in E2. lia.
  - destruct (locate (heap w) r q) as [b|] eqn:Hb; cbn.
    + rewrite added_step. destruct (decide (b = a /\ m = n)) as [[-> ->]|Hbm].
      * rewrite (locate_inj r w q p a Ht Hb Hp). by rewrite decide_True.
      * case_decide as E; [|done]. apply app_inj_tail in E as [-> ->]. rewrite Hp in Hb. naive_solver.
    + case_decide as E; [|done]. apply app_inj_tail in E as [-> ->]. congruence.
Qed.

Lemma added_view p q : locate (heap w) r p = Some a ->
  view r w' q = if decide (q = p ++ [n]) then Some (node_of new) else view r w q.
Proof.
  intros Hp. unfold view. rewrite (added_locate p q Hp). pose proof (fresh_addr a x Hx) as Hac.
  case_decide as Hq.
  - cbn [mbind option_bind]. rewrite added_heap, decide_False, decide_True by congruence. done.
  - destruct (locate (heap w) r q) as [b|] eqn:Hb; [|done]. cbn [mbind option_bind]. rewrite added_heap.
    destruct (locate_heap r w q b Ht Hb) as [y Hy]. pose proof (fresh_addr b y Hy) as Hbc.
    destruct (decide (b = a)) as [->|Hba]; [|by rewrite decide_False].
    rewrite Hx. cbn. unfold node_of. cbn. by rewrite Hdir.
Qed.

End Added.

(** ** An inode changed in place *)

Definition updated (w : world) (a : Z) (x' : MemoryInode) : world := with_heap w (<[a := x']> (heap w)).

Section Updated.
Context (r : Z) (w : world) (a : Z) (x x' : MemoryInode).
Hypothesis Ht : tree r w.
Hypothesis Hx : heap w !! a = Some x.
Hypothesis Htype : file_type x' = file_type x.

Notation w' := (updated w a x').

Lemma updated_heap b : heap w' !! b = if decide (b = a) then Some x' else heap w !! b.
Proof. cbn. rewrite lookup_insert. repeat case_decide; congruence. Qed.

Lemma updated_step b m :
  step_to (heap w') b m =
  if decide (b = a) then (if bool_decide (file_type x = Directory) then children x' !! m else None) else step_to (heap w) b m.
Proof. unfold step_to. rewrite updated_heap. case_decide; [|done]. cbn. by rewrite Htype. Qed.

Lemma updated_tree :
  kind_ok x' ->
  (forall m c, children x' !! m = Some c -> exists m0, children x !! m0 = Some c) ->
  (forall m m' c, children x' !! m = Some c -> children x' !! m' = Some c -> m = m') ->
  tree r w'.
Proof.
  intros Hk Hold Hinj.
  assert (Hstep : forall b m d, step_to (heap w') b m = Some d -> exists m0, step_to (heap w) b m0 = Some d).
  { intros b m d. rewrite updated_step. case_decide as Hb; [|by exists m]. subst b. case_bool_decide as Hd; [|done].
    intros Hm. destruct (Hold m d Hm) as [m0 Hm0]. exists m0. by rewrite (step_to_eq _ _ _ x). }
  split.
  - destruct (t_root _ _ Ht) as (y & Hy & Hyd). rewrite updated_heap. case_decide as E; [|by exists y].
    exists x'. split; [done|]. rewrite Htype. congruence.
  - intros b y. rewrite updated_heap. cbn. case_decide as E; intros Hy; [subst b; by apply (t_alloc _ _ Ht) in Hx|].
    by apply (t_alloc _ _ Ht) in Hy.
  - intros b y. rewrite updated_heap. case_decide; intros Hy; [by injection Hy as <- | by apply (t_kind _ _ Ht) in Hy].
  - intros b m d Hs. destruct (Hstep b m d Hs) as [m0 Hm0]. destruct (t_child _ _ Ht _ _ _ Hm0) as [[y Hy] Hlt].
    split; [|done]. rewrite updated_heap. case_decide; by eexists.
  - intros b b' m m' d H1 H2. destruct (Hstep _ _ _ H1) as [m1 Hm1], (Hstep _ _ _ H2) as [m2 Hm2].
    destruct (t_parent _ _ Ht _ _ _ _ _ Hm1 Hm2) as [<- <-]. split; [done|]. revert H1 H2. rewrite !updated_step.
    case_decide; [|intros H1 H2; by destruct (t_parent _ _ Ht _ _ _ _ _ H1 H2)]. case_bool_decide; [|done]. by apply Hinj.
  - intros b m Hs. destruct (Hstep _ _ _ Hs) as [m0 Hm0]. by apply (t_orphan _ _ Ht) in Hm0.
Qed.

(** The same children: every path leads where it led. *)
Lemma updated_same_locate b q : children x' = children x -> locate (heap w') b q = locate (heap w) b q.
Proof.
  intros Hc. revert b. induction q as [|m q IH]; intros b; [done|]. cbn [locate].
  assert (E : step_to (heap w') b m = step_to (heap w) b m).
  { rewrite updated_step. case_decide as E; [|done]. subst b. unfold step_to. rewrite Hx, Hc. done. }
  rewrite E. destruct (step_to (heap w) b m); cbn; [apply IH | done].
Qed.

Lemma updated_same_tree : kind_ok x' -> children x' = children x -> tree r w'.
Proof.
  intros Hk Hc. apply updated_tree; [done | intros m c; rewrite Hc; by exists m |]. intros m m' c. rewrite Hc. intros H1 H2.
  destruct (t_parent _ _ Ht a a m m' c); [by apply (child_step r w _ _ x) | by apply (child_step r w _ _ x) | done].
Qed.

Lemma updated_same_view p q : children x' = children x -> locate (heap w) r p = Some a ->
  view r w' q = if decide (q = p) then Some (node_of x') else view r w q.
Proof.
  intros Hc Hp. unfold view. rewrite (updated_same_locate r q Hc). destruct (locate (heap w) r q) as [b|] eqn:Hb.
  - cbn [mbind option_bind]. rewrite updated_heap. destruct (decide (b = a)) as [->|Hba].
    + rewrite (locate_inj r w q p a Ht Hb Hp). by rewrite decide_True.
    + rewrite decide_False; [done|]. intros ->. congruence.
  - rewrite decide_False; [done|]. intros ->. congruence.
Qed.

End Updated.

(** ** A child removed *)

Section Removed.
Context (r : Z) (w : world) (a : Z) (x : MemoryInode) (n : string) (c : Z) (y : MemoryInode).
Hypothesis Ht : tree r w.
Hypothesis Hx : heap w !! a = Some x.
Hypothesis Hdir : file_type x = Directory.
Hypothesis Hn : children x !! n = Some c.
Hypothesis Hy : heap w !! c = Some y.
Hypothesis Hleaf : leaf y.

Notation w' := (updated w a (with_children x (delete n (children x)))).

Lemma dir_kind cs : kind_ok (with_children x cs).
Proof. unfold kind_ok. cbn. by rewrite Hdir. Qed.

Lemma removed_tree : tree r w'.
Proof.
  apply (updated_tree r w a x _ Ht Hx); [done | apply dir_kind | |].
  - intros m d. cbn. rewrite lookup_delete_Some. intros [_ H]. by exists m.
  - intros m m' d. cbn. rewrite !lookup_delete_Some. intros [_ H1] [_ H2].
    destruct (t_parent _ _ Ht a a m m' d); [by apply (child_step r w _ _ x) | by apply (child_step r w _ _ x) | done].
Qed.

Lemma removed_step b m : step_to (heap w') b m = if decide (b = a /\ m = n) then None else step_to (heap w) b m.
Proof.
  rewrite (updated_step w a x) by done. rewrite bool_decide_eq_true_2 by done. cbn. rewrite lookup_delete.
  destruct (decide (b = a)) as [->|Hb].
  - rewrite (step_to_eq _ _ _ x Hx Hdir). repeat case_decide; naive_solver.
  - case_decide; [naive_solver | done].
Qed.

Lemma leaf_step m : step_to (heap w) c m = None.
Proof. unfold step_to. rewrite Hy. cbn. destruct Hleaf as [_ ->]. rewrite lookup_empty. by case_bool_decide. Qed.

Lemma removed_locate p q : locate (heap w) r p = Some a ->
  locate (heap w') r q = if decide (q = p ++ [n]) then None else locate (heap w) r q.
Proof.
  intros Hp. induction q as [|m q IH] using rev_ind.
  { cbn. case_decide as E; [|done]. by destruct p. }
  rewrite !locate_snoc, IH. destruct (decide (q = p ++ [n])) as [->|Hq].
  - rewrite locate_snoc, Hp. cbn. rewrite (step_to_eq _ _ _ x Hx Hdir), Hn. cbn. rewrite leaf_step. by case_decide.
  - destruct (locate (heap w) r q) as [b|] eqn:Hb; cbn; [|by case_decide].
    rewrite removed_step. destruct (decide (b = a /\ m = n)) as [[-> ->]|Hbm].
    + rewrite (locate_inj r w q p a Ht Hb Hp). by rewrite decide_True.
    + case_decide as E; [|done]. apply app_inj_tail in E as [-> ->]. rewrite Hp in Hb. naive_solver.
Qed.

Lemma removed_view p q : locate (heap w) r p = Some a ->
  view r w' q = if decide (q = p ++ [n]) then None else view r w q.
Proof.
  intros Hp. unfold view. rewrite (removed_locate p q Hp). case_decide; [done|].
  destruct (locate (heap w) r q) as [b|]; [|done]. cbn [mbind option_bind]. rewrite updated_heap.
  case_decide as Hb; [|done]. subst b. by rewrite Hx.
Qed.

End Removed.

(** ** A child renamed *)

(** Names in a directory after [old] became [new]. *)
Definition renamed_name (old new m : string) : option string :=
  if decide (m = new) then Some old else if decide (m = old) then None else Some m.

Section Renamed.
Context (r : Z) (w : world) (a : Z) (x : MemoryInode) (old new : string) (c : Z).
Hypothesis Ht : tree r w.
Hypothesis Hx : heap w !! a = Some x.
Hypothesis Hdir : file_type x = Directory.
Hypothesis Hc : children x !! old = Some c.

Notation w' := (updated w a (with_children x (<[new := c]> (delete old (children x))))).

Lemma renamed_children m : (<[new := c]> (delete old (children x)) : gmap string Z) !! m = renamed_name old new m ≫= fun k => children x !! k.
Proof.
  unfold renamed_name. rewrite lookup_insert, lookup_delete. repeat case_decide; cbn; congruence.
Qed.

Lemma renamed_name_inj m m' k : renamed_name old new m = Some k -> renamed_name old new m' = Some k -> m = m'.
Proof. unfold renamed_name. repeat case_decide; congruence. Qed.

Lemma renamed_tree : tree r w'.
Proof.
  apply (updated_tree r w a x _ Ht Hx); [done | by apply dir_kind | |].
  - intros m d. cbn. rewrite renamed_children. intros (k & _ & Hk)%bind_Some. by exists k.
  - intros m m' d. cbn. rewrite !renamed_children. intros (k & Hm & Hk)%bind_Some (k' & Hm' & Hk')%bind_Some.
    destruct (t_parent _ _ Ht a a k k' d) as [_ <-]; [by apply (child_step r w _ _ x)..|]. by eapply renamed_name_inj.
Qed.

Lemma renamed_step b m : step_to (heap w') b m =
  if decide (b = a) then renamed_name old new m ≫= fun k => step_to (heap w) a k else step_to (heap w) b m.
Proof.
  rewrite (updated_step w a x) by done. rewrite bool_decide_eq_true_2 by done. case_decide; [|done]. cbn.
  rewrite renamed_children. destruct (renamed_name old new m); [|done]. cbn. by rewrite (step_to_eq _ _ _ x Hx Hdir).
Qed.

(** Below the directory nothing leads back to it. *)
Lemma locate_below b q d : locate (heap w) b q = Some d -> b <= d.
Proof.
  revert b. induction q as [|m q IH]; intros b; cbn; [intros [= <-]; lia|].
  intros (e & He & Hd)%bind_Some. apply (t_child _ _ Ht) in He as [_ He]. apply IH in Hd. lia.
Qed.

Lemma renamed_locate_below b q : a < b -> locate (heap w') b q = locate (heap w) b q.
Proof.
  revert b. induction q as [|m q IH]; intros b Hb; [done|]. cbn [locate]. rewrite renamed_step, decide_False by lia.
  destruct (step_to (heap w) b m) as [e|] eqn:He; [|done]. cbn. apply IH. apply (t_child _ _ Ht) in He. lia.
Qed.

(** Where a path of the new tree was in the old one. *)
Definition renamed_path (p q : path) : option path :=
  if decide (take (length p) q = p /\ (length p < length q)%nat) then
    match drop (length p) q with
    | m :: rest => (fun k => p ++ k :: rest) <$> renamed_name old new m
    | [] => Some q
    end
  else Some q.

Lemma renamed_locate_through p m rest : locate (heap w) r p = Some a ->
  locate (heap w') r p = Some a ->
  locate (heap w') r (p ++ m :: rest) = renamed_name old new m ≫= fun k => locate (heap w) r (p ++ k :: rest).
Proof.
  intros Hp Hp'. rewrite locate_app, Hp'. cbn [mbind option_bind locate]. rewrite renamed_step, decide_True by done.
  destruct (renamed_name old new m) as [k|]; [|done]. cbn. rewrite locate_app, Hp. cbn.
  destruct (step_to (heap w) a k) as [e|] eqn:He; [|done]. cbn. apply renamed_locate_below. by apply (t_child _ _ Ht) in He as [_ He].
Qed.

(** A path that does not go through the directory leads where it led. *)
Lemma renamed_locate_beside b q :
  (forall q1 m q2, q = q1 ++ m :: q2 -> locate (heap w) b q1 <> Some a) -> locate (heap w') b q = locate (heap w) b q.
Proof.
  revert b. induction q as [|m q IH]; intros b Hq; [done|]. cbn [locate]. rewrite renamed_step.
  rewrite decide_False; [|intros ->; by apply (Hq [] m q)]. destruct (step_to (heap w) b m) as [e|] eqn:He; [|done].
  cbn. apply IH. intros q1 m' q2 -> Hl. apply (Hq (m :: q1) m' q2); [done|]. cbn. by rewrite He.
Qed.

Lemma renamed_locate p q : locate (heap w) r p = Some a ->
  locate (heap w') r q = renamed_path p q ≫= fun q' => locate (heap w) r q'.
Proof.
  intros Hp.
  assert (Hp' : locate (heap w') r p = Some a).
  { rewrite renamed_locate_beside; [done|]. intros q1 m q2 E Hq1. pose proof (locate_inj r w q1 p a Ht Hq1 Hp) as ->.
    apply (f_equal length) in E. rewrite length_app in E. cbn in E. lia. }
  unfold renamed_path. case_decide as Hd.
  - destruct Hd as [Hd Hl]. rewrite <- (take_drop (length p) q), Hd at 1.
    destruct (drop (length p) q) as [|m rest] eqn:Hdr; [apply (f_equal length) in Hdr; rewrite length_drop in Hdr; cbn in Hdr; lia|].
    rewrite (renamed_locate_through p m rest Hp Hp'). by destruct (renamed_name old new m).
  - cbn. apply renamed_locate_beside. intros q1 m q2 -> Hq1. apply Hd.
    pose proof (locate_inj r w q1 p a Ht Hq1 Hp) as ->. rewrite take_app_length. split; [done|].
    rewrite length_app. cbn. lia.
Qed.

Lemma renamed_view p q : locate (heap w) r p = Some a -> view r w' q = renamed_path p q ≫= view r w.
Proof.
  intros Hp. unfold view. rewrite (renamed_locate p q Hp). destruct (renamed_path p q) as [q'|]; [|done].
  cbn [mbind option_bind]. destruct (locate (heap w) r q') as [b|]; [|done]. cbn [mbind option_bind].
  rewrite updated_heap. case_decide as E; [|done]. subst b. by rewrite Hx.
Qed.

End Renamed.

(** ** One inode *)

Lemma self_eq w a x : heap w !! a = Some x -> self a w = Ret (Ok x, w).
Proof. intros Hx. unfold self. by rewrite Hx. Qed.

(** Runs the reads of inodes known to be in the heap. *)
Ltac run_fs :=
  repeat (unfold fs_bind, fs_match, fs_ok, fs_err, fs_put, store, require_type in *; cbn beta iota;
    match goal with
    | H : heap ?w !! ?a = Some ?x |- context [self ?a ?w] => rewrite (self_eq w a x H)
    | H : file_type ?x = _ |- context [file_type ?x] => rewrite H
    | |- context [bool_decide (?t = ?t)] => rewrite (bool_decide_eq_true_2 (t = t)) by reflexivity
    | H : ?s <> ?t |- context [bool_decide (?s = ?t)] => rewrite (bool_decide_eq_false_2 (s = t) H)
    end); cbn beta iota.

Lemma getattr_eq w a x : heap w !! a = Some x ->
  getattr a w = Ret (Ok (mkAttr (ino x) (size x) ((size x +w 511) / 512) (file_type x) (mode x) 1 0 0 0 4096 0 0 0), w).
Proof. intros Hx. unfold getattr. by run_fs. Qed.

Lemma lookup_eq w a x n : heap w !! a = Some x ->
  lookup a n w = Ret (if bool_decide (file_type x = Directory) then from_option Ok (Err NotFound) (children x !! n) else Err NotDirectory, w).
Proof.
  intros Hx. unfold lookup. run_fs. case_bool_decide; cbn; [|done]. by destruct (children x !! n).
Qed.

Lemma add_child_eq w a x n mk : heap w !! a = Some x ->
  add_child a n mk w =
    if bool_decide (file_type x = Directory) then
      match children x !! n with
      | Some _ => Ret (Err AlreadyExists, w)
      | None => Ret (Ok (next_addr w), added w a x n (mk (next_child_ino x)))
      end
    else Ret (Err NotDirectory, w).
Proof.
  intros Hx. unfold add_child, alloc. run_fs. case_bool_decide; cbn; [|done]. by destruct (children x !! n).
Qed.

Lemma leaf_new_dir i n m : leaf (new_dir i n m).
Proof. done. Qed.
Lemma leaf_new_file i n m : leaf (new_file i n m).
Proof. done. Qed.
Lemma leaf_new_symlink i n t : leaf (new_symlink i n t).
Proof. split; [split; [done | by eexists] | done]. Qed.

Lemma unlink_eq w a x n : heap w !! a = Some x ->
  (forall c, children x !! n = Some c -> is_Some (heap w !! c)) ->
  unlink a n w =
    if bool_decide (file_type x = Directory) then
      match children x !! n ≫= fun c => heap w !! c with
      | Some y =>
          if bool_decide (file_type y = Directory) then Ret (Err IsDirectory, w)
          else Ret (Ok tt, updated w a (with_children x (delete n (children x))))
      | None => Ret (Err NotFound, w)
      end
    else Ret (Err NotDirectory, w).
Proof.
  intros Hx Hc. unfold unlink. run_fs. case_bool_decide; cbn; [|done]. destruct (children x !! n) as [c|]; [|done]. cbn.
  destruct (Hc c eq_refl) as [y Hy]. rewrite Hy. run_fs. by case_bool_decide.
Qed.

Lemma rmdir_eq w a x n : heap w !! a = Some x ->
  (forall c, children x !! n = Some c -> is_Some (heap w !! c)) ->
  rmdir a n w =
    if bool_decide (file_type x = Directory) then
      match children x !! n ≫= fun c => heap w !! c with
      | Some y =>
          if bool_decide (file_type y = Directory) then
            if bool_decide (children y = ∅) then Ret (Ok tt, updated w a (with_children x (delete n (children x))))
            else Ret (Err NotEmpty, w)
          else Ret (Err NotDirectory, w)
      | None => Ret (Err NotFound, w)
      end
    else Ret (Err NotDirectory, w).
Proof.
  intros Hx Hc. unfold rmdir. run_fs. case_bool_decide; cbn; [|done]. destruct (children x !! n) as [c|]; [|done]. cbn.
  destruct (Hc c eq_refl) as [y Hy]. rewrite Hy. run_fs. case_bool_decide; cbn; [|done]. by case_bool_decide.
Qed.

Lemma rename_eq w a x old d y new : heap w !! a = Some x -> heap w !! d = Some y ->
  rename a old d new w =
    if bool_decide (ino x = ino y) then
      match children x !! old with
      | Some c => Ret (Ok tt, updated w a (with_children x (<[new := c]> (delete old (children x)))))
      | None => Ret (Err NotFound, w)
      end
    else Ret (Err CrossDeviceLink, w).
Proof.
  intros Hx Hy. unfold rename. unfold fs_bind at 1. rewrite (getattr_eq w d y Hy). cbn. run_fs. case_bool_decide; [|done].
  by destruct (children x !! old).
Qed.

(** ** Contents *)

Lemma wrap_small_nat n : Z.of_nat n <= ISIZE_MAX -> wrap64 (Z.of_nat n) = Z.of_nat n.
Proof. intros H. apply wrap64_small. unfold is_u64, u64_modulus, ISIZE_MAX in *. lia. Qed.

Lemma write_eq w a x bytes : heap w !! a = Some x -> file_type x = Regular -> content x = [] -> Z.of_nat (length bytes) <= ISIZE_MAX ->
  write a 0 bytes w = Ret (Ok (Z.of_nat (length bytes)), updated w a (with_content x bytes (Z.of_nat (length bytes)))).
Proof.
  intros Hx Hr Hc Hl. unfold write. run_fs. cbn zeta. rewrite Hc, Z.add_0_l, (wrap_small_nat _ Hl). cbn [length].
  assert (Ho : forall l, length l = length bytes ->
    overwrite l 0 (Z.of_nat (length bytes)) bytes w = Ret (Ok bytes, w)).
  { intros l E. unfold overwrite. rewrite E, Z.sub_0_r, Z.leb_refl, Z.eqb_refl.
    destruct (Z.leb_spec 0 (Z.of_nat (length bytes))); [|lia]. cbn [andb]. rewrite Nat2Z.id, drop_ge by lia. cbn. by rewrite app_nil_r. }
  case_if.
  - unfold resize. destruct (Z.leb_spec (Z.of_nat (length bytes)) ISIZE_MAX); [|lia]. rewrite Ho; [done|].
    rewrite length_app, length_replicate, length_take. cbn. lia.
  - rewrite Ho; [done|]. cbn. lia.
Qed.

Lemma truncate_eq w a x : heap w !! a = Some x -> file_type x = Regular ->
  truncate a 0 w = Ret (Ok tt, updated w a (with_content x [] 0)).
Proof. intros Hx Hr. unfold truncate. run_fs. unfold resize. done. Qed.

Lemma replace_content_eq w a x bytes : heap w !! a = Some x -> Z.of_nat (length bytes) <= ISIZE_MAX ->
  replace_content a bytes w =
    if bool_decide (file_type x = Regular) then Ret (Ok tt, updated w a (with_content x bytes (Z.of_nat (length bytes))))
    else Ret (Err IsDirectory, w).
Proof.
  intros Hx Hl. unfold replace_content. case_bool_decide as Hr.
  - unfold fs_bind at 1. rewrite (truncate_eq w a x Hx Hr). cbn beta iota. unfold fs_bind.
    rewrite (write_eq _ a (with_content x [] 0)); [|cbn; by rewrite lookup_insert_eq|done|done|done].
    cbn. unfold updated, with_heap, fs_ok. cbn. by rewrite insert_insert_eq.
  - unfold truncate. by run_fs.
Qed.

Lemma read_eq w a x : heap w !! a = Some x -> file_type x = Regular -> kind_ok x ->
  read a 0 (replicate (Z.to_nat (size x)) 0) w = Ret (Ok (Z.of_nat (length (content x)), content x), w).
Proof.
  intros Hx Hr Hk. unfold kind_ok in Hk. rewrite Hr in Hk. destruct Hk as (_ & Hs & Hl). rewrite Hs, Nat2Z.id.
  unfold read. run_fs. cbn zeta. case_if.
  - destruct (content x); [done|]. cbn [length] in *. lia.
  - rewrite length_replicate, Z.add_0_l, (wrap_small_nat _ Hl), Z.min_id, Z.sub_0_r, (wrap_small_nat _ Hl). unfold slice. rewrite Z.sub_0_r, Z.leb_refl, Nat2Z.id.
    destruct (Z.leb_spec 0 (Z.of_nat (length (content x)))); [|lia]. cbn [andb drop Z.to_nat].
    rewrite (drop_ge (replicate _ _)) by (rewrite length_replicate; lia). rewrite ?drop_0, firstn_all, app_nil_r. done.
Qed.

(** ** Paths *)

Definition plain (cs : list string) : path := filter (fun c => c <> "."%string /\ c <> ".."%string) cs.

(** The error of a walk that does not arrive. *)
Fixpoint whynot (V : path -> option node) (pre : path) (cs : path) : FsError :=
  match cs with
  | [] => NotFound
  | c :: cs' =>
      match V (pre ++ [c]) with
      | Some _ => whynot V (pre ++ [c]) cs'
      | None =>
          match V pre with
          | Some (NDir _) => NotFound
          | _ => NotDirectory
          end
      end
  end.

Definition walk_result (r : Z) (w : world) (p : path) : result Z FsError :=
  match locate (heap w) r p with
  | Some a => Ok a
  | None => Err (whynot (view r w) [] p)
  end.

Lemma whynot_app r w pre cs a : tree r w -> locate (heap w) r pre = Some a -> locate (heap w) r (pre ++ cs) = None ->
  whynot (view r w) [] (pre ++ cs) = whynot (view r w) pre cs.
Proof.
  intros Ht. enough (G : forall pre0 a, locate (heap w) r (pre0 ++ pre) = Some a ->
    whynot (view r w) pre0 (pre ++ cs) = whynot (view r w) (pre0 ++ pre) cs).
  { intros Ha _. apply (G [] a Ha). }
  induction pre as [|c pre IH]; intros pre0 b Hb; cbn [app]; [by rewrite app_nil_r|]. cbn [whynot].
  rewrite (cons_middle c pre0 pre), (app_assoc pre0 [c] pre) in Hb |- *.
  destruct (view r w (pre0 ++ [c])) eqn:Hv; [by apply (IH _ b)|].
  apply (view_None r w _ Ht) in Hv. rewrite locate_app, Hv in Hb. done.
Qed.

Lemma walk_from_eq r w pre a cs : tree r w -> locate (heap w) r pre = Some a ->
  walk_from a cs w = Ret (walk_result r w (pre ++ plain cs), w).
Proof.
  intros Ht. revert pre a. induction cs as [|c cs IH]; intros pre a Ha; cbn [walk_from].
  { unfold walk_result. cbn. by rewrite app_nil_r, Ha. }
  unfold plain. rewrite filter_cons. fold (plain cs).
  destruct (bool_decide (c = "."%string)) eqn:E1; [apply bool_decide_eq_true_1 in E1; rewrite decide_False by tauto; by apply IH|].
  destruct (bool_decide (c = ".."%string)) eqn:E2; [apply bool_decide_eq_true_1 in E2; rewrite decide_False by tauto; by apply IH|].
  apply bool_decide_eq_false_1 in E1, E2. rewrite decide_True by done.
  destruct (locate_heap r w pre a Ht Ha) as [x Hx]. unfold fs_bind. rewrite (lookup_eq w a x c Hx).
  assert (Hs : step_to (heap w) a c = if bool_decide (file_type x = Directory) then children x !! c else None)
    by (unfold step_to; by rewrite Hx).
  assert (Hl : locate (heap w) r (pre ++ [c]) = step_to (heap w) a c) by (rewrite locate_snoc, Ha; done).
  rewrite (cons_middle c pre (plain cs)), (app_assoc pre [c] (plain cs)).
  destruct (step_to (heap w) a c) as [b|] eqn:Hb.
  - rewrite <- (IH (pre ++ [c]) b Hl). revert Hs. case_bool_decide; [|done]. intros Hs. by rewrite <- Hs.
  - unfold walk_result. rewrite locate_app, Hl. cbn [mbind option_bind].
    rewrite <- app_assoc. rewrite (whynot_app r w pre _ a Ht Ha); [|rewrite app_assoc, locate_app, Hl; done].
    cbn [app whynot]. rewrite (proj2 (view_None r w _ Ht) Hl), (view_eq r w pre a x Ha Hx).
    pose proof (t_kind _ _ Ht a x Hx) as Hk. pose proof (node_of_dir x Hk) as Hnd.
    revert Hs. case_bool_decide as Hd; intros Hs; cbn; [|].
    + rewrite <- Hs. cbn. by rewrite (proj2 Hnd Hd).
    + destruct (node_of x) eqn:Hn; try done. by destruct Hd; apply (node_is_dir x i).
Qed.

(** Where a path of the shell leads. *)
Definition target (p cwd : string) : path := plain (components (absolute_path p cwd)).

Definition mounted (r : Z) (w : world) : Prop := exists k, SHELL_FS w = Some (mkMemoryFs r k).

Lemma resolve_path_eq r w p cwd : tree r w -> mounted r w ->
  resolve_path p cwd w = Ret (walk_result r w (target p cwd), w).
Proof.
  intros Ht [k Hm]. unfold resolve_path, fs_bind, shell_fs. rewrite Hm. cbn [root].
  by rewrite (walk_from_eq r w [] r).
Qed.

Local Notation append := String.append.
Local Notation cat a b := (append a (String slash b)).

Lemma split_slash_ne s : split_slash s <> [].
Proof. destruct s as [|a s]; cbn; [done|]. destruct (is_slash a); [done|]. by destruct (split_slash s). Qed.

Lemma is_slash_slash : is_slash slash = true.
Proof. done. Qed.

Lemma split_cat a b : split_slash (cat a b) = split_slash a ++ split_slash b.
Proof.
  induction a as [|x a IH]; [done|]. change (split_slash (cat (String x a) b)) with
    (if is_slash x then EmptyString :: split_slash (cat a b)
     else match split_slash (cat a b) with c :: cs => String x c :: cs | [] => [String x EmptyString] end).
  rewrite IH. cbn [split_slash]. destruct (is_slash x); [done|].
  pose proof (split_slash_ne a). by destruct (split_slash a).
Qed.

Lemma components_cat a b : components (cat a b) = components a ++ components b.
Proof. unfold components. by rewrite split_cat, filter_app. Qed.

Lemma components_slash b : components (String slash b) = components b.
Proof. apply (components_cat EmptyString b). Qed.

(** ** No slash *)

Definition no_slash (s : string) : Prop := split_slash s = [s].

Lemma no_slash_cons a s : no_slash (String a s) <-> is_slash a = false /\ no_slash s.
Proof.
  unfold no_slash. cbn. destruct (is_slash a).
  - split; [|by intros [? _]]. intros E. by injection E.
  - pose proof (split_slash_ne s). destruct (split_slash s) as [|c cs]; [done|]. split.
    + intros E. injection E as -> ->. done.
    + intros [_ E]. injection E as -> ->. done.
Qed.

Lemma no_slash_components s : no_slash s -> s <> EmptyString -> components s = [s].
Proof. intros Hs Hn. unfold components. rewrite Hs, filter_cons, decide_True by done. done. Qed.

(** ** Trailing slashes *)

Fixpoint slashes (k : nat) : string := match k with O => EmptyString | S k' => String slash (slashes k') end.

Lemma components_slashes k : components (slashes k) = [].
Proof. induction k as [|k IH]; [done|]. cbn [slashes]. by rewrite components_slash. Qed.

Lemma is_slash_true a : is_slash a = true -> a = slash.
Proof. apply Ascii.eqb_eq. Qed.

Lemma trim_spec s : exists k, s = append (trim_end_slash s) (slashes k).
Proof.
  induction s as [|a s [k IH]]; [by exists O|]. cbn [trim_end_slash]. destruct (trim_end_slash s) as [|b t] eqn:E.
  - cbn in IH. destruct (is_slash a) eqn:Ha.
    + apply is_slash_true in Ha as ->. exists (S k). by rewrite IH.
    + exists k. by rewrite IH.
  - exists k. cbn. by rewrite IH.
Qed.

Lemma append_nil s : append s EmptyString = s.
Proof. induction s as [|a s IH]; [done|]. exact (f_equal (String a) IH). Qed.

Lemma components_trim s : components (trim_end_slash s) = components s.
Proof.
  destruct (trim_spec s) as [k E]. rewrite E at 2. destruct k as [|k].
  - by rewrite append_nil.
  - cbn [slashes]. by rewrite components_cat, components_slashes, app_nil_r.
Qed.

(** ** The last slash *)

Lemma rsplit_None s : rsplit_slash s = None -> no_slash s.
Proof.
  induction s as [|a s IH]; [done|]. cbn. destruct (rsplit_slash s) as [[p n]|]; [done|].
  destruct (is_slash a) eqn:Ha; [done|]. intros _. apply no_slash_cons. split; [done | by apply IH].
Qed.

Lemma rsplit_Some s p n : rsplit_slash s = Some (p, n) -> s = cat p n /\ no_slash n.
Proof.
  revert p. induction s as [|a s IH]; intros p; [done|]. cbn. destruct (rsplit_slash s) as [[p' n']|] eqn:E.
  - intros [= <- <-]. destruct (IH p' eq_refl) as [-> Hn]. done.
  - destruct (is_slash a) eqn:Ha; [|done]. intros [= <- <-]. apply is_slash_true in Ha as ->.
    split; [done | by apply rsplit_None].
Qed.

Lemma rsplit_trim s p n : rsplit_slash (trim_end_slash s) = Some (p, n) -> n <> EmptyString.
Proof.
  revert p. induction s as [|a s IH]; intros p; [done|]. cbn [trim_end_slash].
  destruct (trim_end_slash s) as [|b t].
  - destruct (is_slash a) eqn:Ha; [done|]. cbn. by rewrite Ha.
  - cbn [rsplit_slash] in *. destruct (match rsplit_slash t with Some (p, n) => Some (String b p, n) | None => if is_slash b then Some (EmptyString, t) else None end) as [[p' n']|] eqn:E.
    + intros [= <- <-]. by apply (IH p').
    + destruct (is_slash a); [|done]. by intros [= <- <-].
Qed.

Lemma trim_starts s : starts_with_slash s = true -> trim_end_slash s = EmptyString \/ starts_with_slash (trim_end_slash s) = true.
Proof.
  destruct s as [|a s]; [done|]. cbn. intros Ha. destruct (trim_end_slash s); [|by right]. rewrite Ha. by left.
Qed.

(** ** Absolute paths *)

Definition split_base (p cwd : string) : string := if starts_with_slash p then p else append_path p cwd.

Lemma append_starts a b : starts_with_slash a = true -> starts_with_slash (append a b) = true.
Proof. by destruct a. Qed.

Lemma split_base_starts p cwd : starts_with_slash cwd = true -> starts_with_slash (split_base p cwd) = true.
Proof.
  intros Hc. unfold split_base, append_path. destruct (starts_with_slash p) eqn:E; [done|]. case_bool_decide; [done|]. by apply append_starts.
Qed.

Lemma components_append_path p cwd : components (append_path p cwd) = components cwd ++ components p.
Proof.
  unfold append_path. case_bool_decide as E; [subst cwd; apply components_slash | apply components_cat].
Qed.

(** The directory and the last name of a path. *)
Lemma split_path_spec p cwd : starts_with_slash cwd = true ->
  let '(d, n) := split_path p cwd in
  (components (split_base p cwd) = [] /\ n = EmptyString) \/
  (n <> EmptyString /\ no_slash n /\ starts_with_slash d = true /\ components (split_base p cwd) = components d ++ [n]).
Proof.
  intros Hc. pose proof (split_base_starts p cwd Hc) as Hs. unfold split_path. fold (split_base p cwd).
  pose proof (trim_starts _ Hs) as Ht. rewrite <- (components_trim (split_base p cwd)).
  destruct (rsplit_slash (trim_end_slash (split_base p cwd))) as [[d n]|] eqn:E.
  - right. pose proof (rsplit_trim _ _ _ E) as Hn. apply rsplit_Some in E as [E Hns]. split; [done|]. split; [done|].
    rewrite E, components_cat, (no_slash_components n Hns Hn). case_bool_decide as Hd; [subst d; done|]. split; [|done].
    rewrite E in Ht. destruct Ht as [Ht|Ht]; [by destruct d|]. by destruct d.
  - left. apply rsplit_None in E. destruct Ht as [->|Ht]; [done|]. destruct (trim_end_slash (split_base p cwd)) as [|a t]; [done|].
    apply no_slash_cons in E as [E _]. cbn in Ht. congruence.
Qed.

(** Without a name the directory is the working directory. *)
Lemma split_path_root p cwd : (split_path p cwd).2 = EmptyString -> (split_path p cwd).1 = cwd.
Proof.
  unfold split_path. fold (split_base p cwd). destruct (rsplit_slash (trim_end_slash (split_base p cwd))) as [[d n]|] eqn:E; [|done].
  cbn [fst snd]. intros ->. by apply rsplit_trim in E.
Qed.

(** ** Joined components *)

Lemma no_slash_elem s c : c ∈ split_slash s -> no_slash c.
Proof.
  revert c. induction s as [|a s IH]; intros c; cbn.
  - intros ->%list_elem_of_singleton. done.
  - destruct (is_slash a) eqn:Ha; [intros [->|Hc]%elem_of_cons; [done | by apply IH]|].
    pose proof (split_slash_ne s). destruct (split_slash s) as [|d ds]; [done|]. intros [->|Hc]%elem_of_cons.
    + apply no_slash_cons. split; [done|]. apply IH. apply list_elem_of_here.
    + apply IH. by apply list_elem_of_further.
Qed.

Definition name_ok (c : string) : Prop := no_slash c /\ c <> EmptyString.

Lemma components_ok s : Forall name_ok (components s).
Proof.
  apply Forall_forall. intros c [Hc Hin]%list_elem_of_filter. split; [by apply no_slash_elem in Hin | done].
Qed.

Lemma components_join l : Forall name_ok l -> components (join_slash l) = l.
Proof.
  induction 1 as [|c l [Hc1 Hc2] Hl IH]; [done|]. destruct l as [|d l]; [by apply no_slash_components|].
  change (join_slash (c :: d :: l)) with (cat c (join_slash (d :: l))). rewrite components_cat, IH, no_slash_components; done.
Qed.

Lemma components_parent_of cwd : components (parent_of cwd) = removelast (components cwd).
Proof.
  unfold parent_of. pose proof (components_ok cwd) as Hok. destruct (components cwd) as [|c cs] eqn:E; [done|].
  destruct (removelast (c :: cs)) as [|d ds] eqn:Er; [done|]. rewrite components_slash. apply components_join.
  rewrite <- Er. apply Forall_forall. intros x Hx. rewrite Forall_forall in Hok. apply Hok.
  rewrite (app_removelast_last EmptyString (l := c :: cs)) by done. apply elem_of_app. by left.
Qed.

(** ** The target of a path *)

Definition special (n : string) : Prop := n = "."%string \/ n = ".."%string.

Lemma plain_app a b : plain (a ++ b) = plain a ++ plain b.
Proof. apply filter_app. Qed.

Lemma plain_name n : ~ special n -> plain [n] = [n].
Proof. intros Hn. unfold plain, special in *. rewrite filter_cons, decide_True by tauto. done. Qed.

Lemma plain_special n : special n -> plain [n] = [].
Proof. intros Hn. unfold plain, special in *. rewrite filter_cons, decide_False by tauto. done. Qed.

Lemma absolute_starts p cwd : starts_with_slash p = true -> absolute_path p cwd = p.
Proof. intros H. unfold absolute_path. by rewrite H. Qed.

(** A path other than [..] leads to its last name in its directory; [..] to a
    directory above it. *)
Lemma target_split p cwd : starts_with_slash cwd = true ->
  let '(d, n) := split_path p cwd in
  (target p cwd = [] /\ n = EmptyString) \/
  (n <> EmptyString /\ ~ special n /\ target p cwd = target d cwd ++ [n]) \/
  (special n /\ exists rest, target d cwd = target p cwd ++ rest).
Proof.
  intros Hc. pose proof (split_path_spec p cwd Hc) as Hs. destruct (split_path p cwd) as [d n].
  assert (Hbase : starts_with_slash p = true \/ ~ special p -> target p cwd = plain (components (split_base p cwd))).
  { intros Hp. unfold target, absolute_path, split_base, special in *. destruct (starts_with_slash p) eqn:E; [done|].
    destruct Hp as [|Hp]; [done|]. rewrite !bool_decide_eq_false_2 by tauto. done. }
  destruct Hs as [[Hcs ->] | (Hn & Hns & Hd & Hcs)].
  - left. split; [|done]. destruct (decide (starts_with_slash p = true \/ ~ special p)) as [Hp|Hp]; [by rewrite (Hbase Hp), Hcs|].
    exfalso. unfold split_base in Hcs. destruct (starts_with_slash p) eqn:E; [tauto|]. rewrite components_append_path in Hcs.
    assert (Hsp : special p) by (unfold special in *; destruct (decide (p = "."%string)), (decide (p = ".."%string)); tauto).
    apply app_eq_nil in Hcs as [_ Hcs]. by destruct Hsp as [-> | ->].
  - right. assert (Ed : target d cwd = plain (components d)) by (unfold target; by rewrite absolute_starts).
    destruct (decide (starts_with_slash p = true \/ ~ special p)) as [Hp|Hp].
    + rewrite (Hbase Hp), Hcs, plain_app, <- Ed. destruct (decide (special n)) as [Hsp|Hsp].
      * right. split; [done|]. exists []. by rewrite (plain_special n Hsp), !app_nil_r.
      * left. by rewrite (plain_name n Hsp).
    + right. unfold split_base in Hcs. destruct (starts_with_slash p) eqn:E; [tauto|]. rewrite components_append_path in Hcs.
      assert (Hsp : special p) by (unfold special in *; destruct (decide (p = "."%string)), (decide (p = ".."%string)); tauto).
      assert (Hcp : components p = [p]) by (by destruct Hsp as [-> | ->]).
      rewrite Hcp in Hcs. apply app_inj_tail in Hcs as [Hcs ->]. split; [done|]. rewrite Ed, <- Hcs. unfold target, absolute_path.
      rewrite E. destruct Hsp as [-> | ->].
      * exists []. by rewrite bool_decide_eq_true_2, app_nil_r.
      * rewrite bool_decide_eq_false_2, bool_decide_eq_true_2 by done. rewrite components_parent_of.
        destruct (decide (components cwd = [])) as [E0|E0]; [rewrite E0; by exists []|].
        exists (plain [List.last (components cwd) EmptyString]). rewrite <- plain_app. f_equal. by apply app_removelast_last.
Qed.
