(* ===== verification/MemFsTheorems.v ===== *)
(** * Theorems of the memory filesystem

    The calls of the shell refine a map from paths to nodes, keep the tree, change
    nothing when they fail, and what is written to a path is what is read from it. *)

From stdpp Require Import base list gmap strings.
From Stdlib Require Import ZArith Lia Ascii.
From S2P Require Import Prelude OrderedMap FsTypes MemFs MemFsSpec.

Local Open Scope Z_scope.
Local Open Scope fs_scope.

(** ** The calls of the shell *)

Inductive call :=
| MakeDirectory (p : string)
| TouchFile (p : string)
| RemoveFile (p : string)
| RemoveDirectory (p : string)
| MoveFile (src dst : string)
| CopyFile (src dst : string)
| WriteFile (p : string) (bytes : list Z)
| CreateSymlink (t p : string)
| ReadFile (p : string).

Definition no_answer (m : memfs unit) : memfs (list Z) := _ <-? m; fs_ok [].

Definition exec (cwd : string) (c : call) : memfs (list Z) :=
  match c with
  | MakeDirectory p => no_answer (make_directory p cwd)
  | TouchFile p => no_answer (touch_file p cwd)
  | RemoveFile p => no_answer (remove_file p cwd)
  | RemoveDirectory p => no_answer (remove_directory p cwd)
  | MoveFile src dst => no_answer (move_file src dst cwd)
  | CopyFile src dst => no_answer (copy_file src dst cwd)
  | WriteFile p bytes => no_answer (write_file_content p cwd bytes)
  | CreateSymlink t p => no_answer (create_symlink t p cwd)
  | ReadFile p => read_file_content p cwd
  end.

(** The argument is a slice of the machine. *)
Definition call_ok (c : call) : Prop :=
  match c with
  | WriteFile _ bytes => Z.of_nat (length bytes) <= ISIZE_MAX
  | _ => True
  end.

(** ** The specification: a map from paths to nodes *)

Module Paths.

Notation fsmap := (path -> option node).

(** *** Reading path strings *)

(** The names between the slashes of a string. *)
Fixpoint names_from (cur s : string) : list string :=
  let here := match cur with EmptyString => [] | _ => [cur] end in
  match s with
  | EmptyString => here
  | String c s' => if Ascii.eqb c "/" then here ++ names_from EmptyString s' else names_from (String.append cur (String c EmptyString)) s'
  end.
Definition names (s : string) : list string := names_from EmptyString s.
Definition absolute (s : string) : bool := match s with String c _ => Ascii.eqb c "/" | EmptyString => false end.

(** Where a path leads: the names [.] and [..] are skipped, but as the whole path they are
    the working directory and the one above it. *)
Definition leads_to (p cwd : string) : path :=
  plain (if absolute p then names p
         else if bool_decide (p = "."%string) then names cwd
         else if bool_decide (p = ".."%string) then removelast (names cwd)
         else names cwd ++ names p).

(** The directory and the last name of a path; a path without names is the empty name in
    the working directory. *)
Definition full (p cwd : string) : list string := if absolute p then names p else names cwd ++ names p.
Definition directory (p cwd : string) : path := plain (match full p cwd with [] => names cwd | l => removelast l end).
Definition base_name (p cwd : string) : string := List.last (full p cwd) EmptyString.

(** *** The calls *)

(** The answer, and the map with at most one path changed. *)
Definition answers (V V' : fsmap) (r ans : result (list Z) FsError) (change : option (path * option node)) : Prop :=
  r = ans /\ forall q, V' q = match change with Some (k, o) => if decide (q = k) then o else V q | None => V q end.

Definition fails (V V' : fsmap) (r : result (list Z) FsError) (e : FsError) : Prop := answers V V' r (Err e) None.

(** Inside the directory [d]. *)
Definition in_directory (V V' : fsmap) (r : result (list Z) FsError) (d : path) (k : Prop) : Prop :=
  match V d with
  | Some (NDir _) => k
  | Some _ => fails V V' r NotDirectory
  | None => fails V V' r (whynot V [] d)
  end.

(** A new node gets some number. *)
Definition makes (V V' : fsmap) r (q : path) (new : Z -> node) : Prop := exists i, answers V V' r (Ok []) (Some (q, Some (new i))).

Definition add (V V' : fsmap) r (d : path) (n : string) (new : Z -> node) : Prop :=
  in_directory V V' r d
    match V (d ++ [n]) with
    | Some _ => fails V V' r AlreadyExists
    | None => makes V V' r (d ++ [n]) new
    end.

Definition store_file (V V' : fsmap) r (d : path) (n : string) (bytes : list Z) : Prop :=
  in_directory V V' r d
    match V (d ++ [n]) with
    | Some (NFile i _) => answers V V' r (Ok []) (Some (d ++ [n], Some (NFile i bytes)))
    | None => makes V V' r (d ++ [n]) (fun i => NFile i bytes)
    | Some _ => fails V V' r IsDirectory
    end.

(** What a call does, for a reading of paths: where they lead, their directory and their
    last name. *)
Definition spec_with (tg pr : string -> path) (nm : string -> string) (V : fsmap) (c : call) (r : result (list Z) FsError) (V' : fsmap) : Prop :=
  match c with
  | MakeDirectory p => add V V' r (pr p) (nm p) NDir
  | CreateSymlink t p => add V V' r (pr p) (nm p) (fun i => NLink i t)
  | TouchFile p =>
      let q := pr p ++ [nm p] in
      in_directory V V' r (pr p)
        match V q with
        | Some _ => answers V V' r (Ok []) None
        | None => makes V V' r q (fun i => NFile i [])
        end
  | RemoveFile p =>
      let q := pr p ++ [nm p] in
      in_directory V V' r (pr p)
        match V q with
        | Some (NDir _) => fails V V' r IsDirectory
        | Some _ => answers V V' r (Ok []) (Some (q, None))
        | None => fails V V' r NotFound
        end
  | RemoveDirectory p =>
      let q := pr p ++ [nm p] in
      in_directory V V' r (pr p)
        match V q with
        | Some (NDir _) =>
            (fails V V' r NotEmpty /\ exists n, V (q ++ [n]) <> None) \/
            (answers V V' r (Ok []) (Some (q, None)) /\ forall n, V (q ++ [n]) = None)
        | Some _ => fails V V' r NotDirectory
        | None => fails V V' r NotFound
        end
  | MoveFile src dst =>
      let d := pr src in let d' := pr dst in
      match V d, V d' with
      | None, _ => fails V V' r (whynot V [] d)
      | Some _, None => fails V V' r (whynot V [] d')
      | Some x, Some y =>
          if number x =? number y then
            match V (d ++ [nm src]) with
            | Some _ => r = Ok [] /\ forall q, V' q = renamed_path (nm src) (nm dst) d q ≫= V
            | None => fails V V' r NotFound
            end
          else fails V V' r CrossDeviceLink
      end
  | CopyFile src dst =>
      match V (tg src) with
      | Some (NFile _ bytes) => store_file V V' r (pr dst) (nm dst) bytes
      | Some _ => fails V V' r IsDirectory
      | None => fails V V' r (whynot V [] (tg src))
      end
  | WriteFile p bytes =>
      match V (tg p) with
      | Some (NFile i _) => answers V V' r (Ok []) (Some (tg p, Some (NFile i bytes)))
      | Some _ => fails V V' r IsDirectory
      | None =>
          match whynot V [] (tg p) with
          | NotFound => add V V' r (pr p) (nm p) (fun i => NFile i bytes)
          | e => fails V V' r e
          end
      end
  | ReadFile p =>
      match V (tg p) with
      | Some (NFile _ bytes) => answers V V' r (Ok bytes) None
      | Some _ => fails V V' r IsDirectory
      | None => fails V V' r (whynot V [] (tg p))
      end
  end.

Definition spec (cwd : string) : fsmap -> call -> result (list Z) FsError -> fsmap -> Prop :=
  spec_with (fun p => leads_to p cwd) (fun p => directory p cwd) (fun p => base_name p cwd).

(** *** The same with the strings as the code reads them *)

Definition parent (p cwd : string) : path := target (split_path p cwd).1 cwd.
Definition last_name (p cwd : string) : string := (split_path p cwd).2.
Definition code_spec (cwd : string) : fsmap -> call -> result (list Z) FsError -> fsmap -> Prop :=
  spec_with (fun p => target p cwd) (fun p => parent p cwd) (fun p => last_name p cwd).

End Paths.

Import Paths.

(** ** The refinement, call by call *)

(** The call returns; the tree is kept, as is the root; the answer is the
    specified one; a failed call leaves the world as it was. *)
Definition done_by (r : Z) (w : world) (m : outcome (result (list Z) FsError * world))
    (S : result (list Z) FsError -> (path -> option node) -> Prop) : Prop :=
  exists ans w', m = Ret (ans, w') /\ tree r w' /\ SHELL_FS w' = SHELL_FS w /\
    S ans (MemFsSpec.view r w') /\ (forall e, ans = Err e -> w' = w).

Notation view := MemFsSpec.view.

Lemma done_unchanged r w ans (S : result (list Z) FsError -> (path -> option node) -> Prop) :
  tree r w -> S ans (view r w) -> done_by r w (Ret (ans, w)) S.
Proof. intros Ht HS. by exists ans, w. Qed.

Lemma done_changed r w w' (S : result (list Z) FsError -> (path -> option node) -> Prop) :
  tree r w' -> SHELL_FS w' = SHELL_FS w -> S (Ok []) (view r w') -> done_by r w (Ret (Ok [], w')) S.
Proof. intros Ht Hm HS. by exists (Ok []), w'. Qed.

Lemma fails_same V e : fails V V (Err e) e.
Proof. by split. Qed.

#[local] Hint Resolve fails_same : exo.

(** The parent directory is resolved first. *)
Lemma with_parent r w p cwd (k : Z -> memfs unit) (S : result (list Z) FsError -> (path -> option node) -> Prop) :
  tree r w -> mounted r w ->
  (forall a, locate (heap w) r (target p cwd) = Some a -> done_by r w (no_answer (k a) w) S) ->
  (locate (heap w) r (target p cwd) = None -> S (Err (whynot (view r w) [] (target p cwd))) (view r w)) ->
  done_by r w (no_answer (a <-? resolve_path p cwd; k a) w) S.
Proof.
  intros Ht Hm Hk Hn. unfold no_answer, fs_bind at 1 2. rewrite (resolve_path_eq r w p cwd Ht Hm). unfold walk_result.
  destruct (locate (heap w) r (target p cwd)) as [a|] eqn:Ha; [by apply Hk|]. apply done_unchanged; [done|]. by apply Hn.
Qed.

(** An inode and its path. *)
Record at_path (r : Z) (w : world) (d : path) (a : Z) (x : MemoryInode) : Prop := {
  ap_tree : tree r w;
  ap_locate : locate (heap w) r d = Some a;
  ap_heap : heap w !! a = Some x;
  ap_kind : kind_ok x;
  ap_view : view r w d = Some (node_of x) }.

Lemma at_path_intro r w d a : tree r w -> locate (heap w) r d = Some a -> exists x, at_path r w d a x.
Proof.
  intros Ht Ha. destruct (locate_heap r w d a Ht Ha) as [x Hx]. exists x. split; try done.
  - by apply (t_kind _ _ Ht a).
  - by apply (view_eq r w d a).
Qed.

(** The children of a directory in the view. *)
Lemma child_view r w d a x n : at_path r w d a x -> file_type x = Directory ->
  match children x !! n with
  | Some c => exists y, at_path r w (d ++ [n]) c y
  | None => view r w (d ++ [n]) = None
  end.
Proof.
  intros [Ht Ha Hx _ _] Hd. assert (E : locate (heap w) r (d ++ [n]) = children x !! n).
  { rewrite locate_snoc, Ha. cbn. by apply step_to_eq. }
  destruct (children x !! n) as [c|]; [by apply at_path_intro | by apply view_None].
Qed.

Lemma child_alive r w d a x n c : at_path r w d a x -> children x !! n = Some c -> is_Some (heap w !! c).
Proof.
  intros [Ht Ha Hx _ _] Hc. apply (t_child _ _ Ht a n). by apply (child_step r w a n x).
Qed.

(** In a directory the specification continues, otherwise it is an error. *)
Lemma in_directory_dir r w d a x V' ans (k : Prop) :
  at_path r w d a x -> file_type x = Directory -> in_directory (view r w) V' ans d k = k.
Proof. intros H Hd. unfold in_directory. rewrite (ap_view _ _ _ _ _ H). by rewrite (proj2 (node_of_dir x (ap_kind _ _ _ _ _ H)) Hd). Qed.

Lemma in_directory_other r w d a x (k : Prop) :
  at_path r w d a x -> file_type x <> Directory -> in_directory (view r w) (view r w) (Err NotDirectory) d k.
Proof.
  intros H Hd. unfold in_directory. rewrite (ap_view _ _ _ _ _ H).
  destruct (node_of x) eqn:E; [apply fails_same | | apply fails_same]. by apply (node_is_dir x _ (ap_kind _ _ _ _ _ H)) in E.
Qed.

Lemma in_directory_none r w d V' ans (k : Prop) :
  tree r w -> locate (heap w) r d = None -> in_directory (view r w) V' ans d k = fails (view r w) V' ans (whynot (view r w) [] d).
Proof. intros Ht Hl. unfold in_directory. by rewrite (proj2 (view_None r w d Ht) Hl). Qed.

(** [create], [mkdir] and [symlink]. *)
Lemma add_child_done r w d a x n mk new :
  at_path r w d a x -> (forall i, leaf (mk i) /\ node_of (mk i) = new i) ->
  done_by r w (no_answer (add_child a n mk;? fs_ok tt) w) (fun ans V' => add (view r w) V' ans d n new).
Proof.
  intros H Hl. unfold no_answer, fs_bind. rewrite (add_child_eq w a x n mk (ap_heap _ _ _ _ _ H)).
  unfold add. case_bool_decide as Hd; [|apply done_unchanged; [apply H | by apply (in_directory_other r w d a x)]].
  pose proof (child_view r w d a x n H Hd) as Hc. destruct (children x !! n) as [c|] eqn:Hn; cbn beta iota.
  - destruct Hc as [y Hy]. apply done_unchanged; [apply H|]. rewrite (in_directory_dir r w d a x) by done.
    rewrite (ap_view _ _ _ _ _ Hy). apply fails_same.
  - unfold fs_ok. destruct (Hl (next_child_ino x)) as [Hleaf Hnew].
    apply done_changed; [apply added_tree; first [done | apply H] | done|].
    rewrite (in_directory_dir r w d a x), Hc by done. exists (next_child_ino x). split; [done|].
    intros q. rewrite <- Hnew. apply (added_view r w a x); first [done | apply H].
Qed.

(** The path is split, its directory resolved, and the call continues there. *)
Lemma with_split r w p cwd (k : Z -> string -> memfs unit) (S : result (list Z) FsError -> (path -> option node) -> Prop) :
  tree r w -> mounted r w ->
  (forall a x, at_path r w (parent p cwd) a x -> done_by r w (no_answer (k a (last_name p cwd)) w) S) ->
  (locate (heap w) r (parent p cwd) = None -> S (Err (whynot (view r w) [] (parent p cwd))) (view r w)) ->
  done_by r w (no_answer (let '(parent_path, n) := split_path p cwd in a <-? resolve_path parent_path cwd; k a n) w) S.
Proof.
  intros Ht Hm Hk Hn. unfold parent, last_name in *. destruct (split_path p cwd) as [pp n]. cbn [fst snd] in *.
  apply (with_parent r w pp cwd (fun a => k a n)); [done | done | | done].
  intros a Ha. destruct (at_path_intro r w _ a Ht Ha) as [x Hx]. by apply (Hk a x).
Qed.

(** ... where a missing directory is the error of the specification. *)
Lemma with_split_dir r w p cwd (k : Z -> string -> memfs unit) (K : result (list Z) FsError -> (path -> option node) -> Prop) :
  tree r w -> mounted r w ->
  (forall a x, at_path r w (parent p cwd) a x ->
    done_by r w (no_answer (k a (last_name p cwd)) w) (fun ans V' => in_directory (view r w) V' ans (parent p cwd) (K ans V'))) ->
  done_by r w (no_answer (let '(parent_path, n) := split_path p cwd in a <-? resolve_path parent_path cwd; k a n) w)
    (fun ans V' => in_directory (view r w) V' ans (parent p cwd) (K ans V')).
Proof.
  intros Ht Hm Hk. apply with_split; [done | done | done|]. intros Hl. rewrite in_directory_none by done. apply fails_same.
Qed.

Lemma make_directory_done r w p cwd : tree r w -> mounted r w ->
  done_by r w (exec cwd (MakeDirectory p) w) (fun ans V' => code_spec cwd (view r w) (MakeDirectory p) ans V').
Proof.
  intros Ht Hm. apply with_split_dir; [done | done|]. intros a x Hx.
  apply (add_child_done r w _ a x _ (fun i => new_dir i _ DEFAULT_DIR)); [done|]. intros i. split; [apply leaf_new_dir | done].
Qed.

Lemma create_symlink_done r w t p cwd : tree r w -> mounted r w ->
  done_by r w (exec cwd (CreateSymlink t p) w) (fun ans V' => code_spec cwd (view r w) (CreateSymlink t p) ans V').
Proof.
  intros Ht Hm. apply with_split_dir; [done | done|]. intros a x Hx.
  apply (add_child_done r w _ a x _ (fun i => new_symlink i _ t)); [done|]. intros i. split; [apply leaf_new_symlink | done].
Qed.

(** [lookup_or_create]: the entry there is, or a new empty file. *)
Lemma lookup_or_create_eq w a x n : heap w !! a = Some x ->
  lookup_or_create a n w =
    if bool_decide (file_type x = Directory) then
      match children x !! n with
      | Some c => Ret (Ok c, w)
      | None => Ret (Ok (next_addr w), added w a x n (new_file (next_child_ino x) n DEFAULT_FILE))
      end
    else Ret (Err NotDirectory, w).
Proof.
  intros Hx. unfold lookup_or_create, fs_match. rewrite (lookup_eq w a x n Hx). case_bool_decide as Hd; [|done].
  destruct (children x !! n) eqn:Hn; [done|]. cbn. unfold create. rewrite (add_child_eq w a x n _ Hx).
  by rewrite bool_decide_eq_true_2, Hn.
Qed.

Lemma touch_file_done r w p cwd : tree r w -> mounted r w ->
  done_by r w (exec cwd (TouchFile p) w) (fun ans V' => code_spec cwd (view r w) (TouchFile p) ans V').
Proof.
  intros Ht Hm. apply (with_split_dir r w p cwd (fun a n => lookup_or_create a n;? fs_ok tt)); [done | done|]. intros a x H.
  unfold no_answer, fs_bind. rewrite (lookup_or_create_eq w a x _ (ap_heap _ _ _ _ _ H)).
  case_bool_decide as Hd; [|apply done_unchanged; [done | by apply (in_directory_other r w _ a x)]].
  pose proof (child_view r w _ a x (last_name p cwd) H Hd) as Hc.
  destruct (children x !! last_name p cwd) as [c|] eqn:Hn; unfold fs_ok; cbn beta iota.
  - destruct Hc as [y Hy]. apply done_changed; [done | done|]. rewrite (in_directory_dir r w _ a x) by done.
    rewrite (ap_view _ _ _ _ _ Hy). by split.
  - apply done_changed; [apply added_tree; first [done | apply H] | done|].
    rewrite (in_directory_dir r w _ a x), Hc by done. exists (next_child_ino x). split; [done|].
    intros q. by apply (added_view r w a x); first [done | apply H].
Qed.

(** A node that is no directory has no entries. *)
Lemma other_leaf x : kind_ok x -> file_type x <> Directory -> leaf x.
Proof. intros Hk Hd. split; [done|]. unfold kind_ok in Hk. destruct (file_type x); try done; by destruct Hk. Qed.

Lemma remove_file_done r w p cwd : tree r w -> mounted r w ->
  done_by r w (exec cwd (RemoveFile p) w) (fun ans V' => code_spec cwd (view r w) (RemoveFile p) ans V').
Proof.
  intros Ht Hm. apply (with_split_dir r w p cwd unlink); [done | done|]. intros a x H.
  unfold no_answer, fs_bind. rewrite (unlink_eq w a x _ (ap_heap _ _ _ _ _ H)) by (intros c; by apply (child_alive r w _ a x _ c H)).
  case_bool_decide as Hd; [|apply done_unchanged; [done | by apply (in_directory_other r w _ a x)]].
  pose proof (child_view r w _ a x (last_name p cwd) H Hd) as Hc.
  destruct (children x !! last_name p cwd) as [c|] eqn:Hn; cbn [mbind option_bind].
  2:{ apply done_unchanged; [done|]. rewrite (in_directory_dir r w _ a x), Hc by done. apply fails_same. }
  destruct Hc as [y Hy]. rewrite (ap_heap _ _ _ _ _ Hy). pose proof (node_of_dir y (ap_kind _ _ _ _ _ Hy)) as Hnd.
  case_bool_decide as Hyd; cbn beta iota; unfold fs_ok.
  - apply done_unchanged; [done|]. rewrite (in_directory_dir r w _ a x), (ap_view _ _ _ _ _ Hy), (proj2 Hnd Hyd) by done. apply fails_same.
  - assert (Hly : leaf y) by (apply other_leaf; [apply Hy | done]).
    apply done_changed; [apply (removed_tree r w a x); first [done | apply H] | done|].
    rewrite (in_directory_dir r w _ a x), (ap_view _ _ _ _ _ Hy) by done.
    assert (G : answers (view r w) (view r (updated w a (with_children x (delete (last_name p cwd) (children x))))) (Ok []) (Ok [])
      (Some (parent p cwd ++ [last_name p cwd], None))).
    { split; [done|]. intros q. apply (removed_view r w a x _ c y); first [done | apply H | apply Hy]. }
    destruct (node_of y) eqn:E; [done | | done]. by destruct Hyd; apply (node_is_dir y _ (ap_kind _ _ _ _ _ Hy) E).
Qed.

(** The entries of a directory in the view. *)
Lemma no_entries r w d a x : at_path r w d a x -> file_type x = Directory ->
  if decide (children x = ∅) then forall n, view r w (d ++ [n]) = None else exists n, view r w (d ++ [n]) <> None.
Proof.
  intros H Hd. case_decide as Hc.
  - intros n. pose proof (child_view r w d a x n H Hd) as Hn. rewrite Hc in Hn. by rewrite lookup_empty in Hn.
  - apply map_choose in Hc as (n & c & Hn). exists n. pose proof (child_view r w d a x n H Hd) as Hv. rewrite Hn in Hv.
    destruct Hv as [y Hy]. by rewrite (ap_view _ _ _ _ _ Hy).
Qed.

Lemma remove_directory_done r w p cwd : tree r w -> mounted r w ->
  done_by r w (exec cwd (RemoveDirectory p) w) (fun ans V' => code_spec cwd (view r w) (RemoveDirectory p) ans V').
Proof.
  intros Ht Hm. apply (with_split_dir r w p cwd rmdir); [done | done|]. intros a x H.
  unfold no_answer, fs_bind. rewrite (rmdir_eq w a x _ (ap_heap _ _ _ _ _ H)) by (intros c; by apply (child_alive r w _ a x _ c H)).
  case_bool_decide as Hd; [|apply done_unchanged; [done | by apply (in_directory_other r w _ a x)]].
  pose proof (child_view r w _ a x (last_name p cwd) H Hd) as Hc.
  destruct (children x !! last_name p cwd) as [c|] eqn:Hn; cbn [mbind option_bind].
  2:{ apply done_unchanged; [done|]. rewrite (in_directory_dir r w _ a x), Hc by done. apply fails_same. }
  destruct Hc as [y Hy]. rewrite (ap_heap _ _ _ _ _ Hy). pose proof (node_of_dir y (ap_kind _ _ _ _ _ Hy)) as Hnd.
  case_bool_decide as Hyd; cbn beta iota; unfold fs_ok.
  - pose proof (no_entries r w _ c y Hy Hyd) as Hne. case_bool_decide as He; cbn beta iota.
    + rewrite decide_True in Hne by done. assert (Hly : leaf y) by (split; [apply Hy | done]).
      apply done_changed; [apply (removed_tree r w a x); first [done | apply H] | done|].
      rewrite (in_directory_dir r w _ a x), (ap_view _ _ _ _ _ Hy), (proj2 Hnd Hyd) by done. right. split; [|done].
      split; [done|]. intros q. apply (removed_view r w a x _ c y); first [done | apply H | apply Hy].
    + rewrite decide_False in Hne by done. apply done_unchanged; [done|].
      rewrite (in_directory_dir r w _ a x), (ap_view _ _ _ _ _ Hy), (proj2 Hnd Hyd) by done. left. split; [apply fails_same | done].
  - apply done_unchanged; [done|]. rewrite (in_directory_dir r w _ a x), (ap_view _ _ _ _ _ Hy) by done.
    destruct (node_of y) eqn:E; [apply fails_same | | apply fails_same]. by destruct Hyd; apply (node_is_dir y _ (ap_kind _ _ _ _ _ Hy) E).
Qed.

(** [rename], for an inode and the view of its children. *)
Lemma rename_done r w d a x d' b y old new : at_path r w d a x -> at_path r w d' b y ->
  done_by r w (no_answer (rename a old b new) w) (fun ans V' =>
    if number (node_of x) =? number (node_of y) then
      match view r w (d ++ [old]) with
      | Some _ => ans = Ok [] /\ forall q, V' q = renamed_path old new d q ≫= view r w
      | None => fails (view r w) V' ans NotFound
      end
    else fails (view r w) V' ans CrossDeviceLink).
Proof.
  intros H H'. unfold no_answer, fs_bind. rewrite (rename_eq w a x old b y new (ap_heap _ _ _ _ _ H) (ap_heap _ _ _ _ _ H')). rewrite !number_node.
  case_bool_decide as Hi; cbn beta iota; unfold fs_ok; [rewrite (proj2 (Z.eqb_eq _ _) Hi) | rewrite (proj2 (Z.eqb_neq _ _) Hi); apply done_unchanged; [apply H | apply fails_same]].
  assert (E : locate (heap w) r (d ++ [old]) = if bool_decide (file_type x = Directory) then children x !! old else None).
  { rewrite locate_snoc, (ap_locate _ _ _ _ _ H). cbn. unfold step_to. by rewrite (ap_heap _ _ _ _ _ H). }
  destruct (children x !! old) as [c|] eqn:Hc.
  - assert (Hd : file_type x = Directory).
    { pose proof (ap_kind _ _ _ _ _ H) as Hk. unfold kind_ok in Hk.
      destruct (file_type x); try done; destruct Hk as [Hk _]; rewrite Hk in Hc; by rewrite lookup_empty in Hc. }
    pose proof (child_view r w d a x old H Hd) as Hv. rewrite Hc in Hv. destruct Hv as [z Hz].
    apply done_changed; [apply (renamed_tree r w a x); first [done | apply H] | done|].
    rewrite (ap_view _ _ _ _ _ Hz). split; [done|]. intros q. apply (renamed_view r w a x); first [done | apply H].
  - apply done_unchanged; [apply H|]. rewrite (proj2 (view_None r w _ (ap_tree _ _ _ _ _ H))); [apply fails_same|].
    rewrite E. by case_bool_decide.
Qed.

Lemma move_file_done r w src dst cwd : tree r w -> mounted r w ->
  done_by r w (exec cwd (MoveFile src dst) w) (fun ans V' => code_spec cwd (view r w) (MoveFile src dst) ans V').
Proof.
  intros Ht Hm. unfold exec, move_file, code_spec, spec_with.
  assert (G : forall a x, at_path r w (parent src cwd) a x ->
    done_by r w (no_answer (let '(dp, n) := split_path dst cwd in b <-? resolve_path dp cwd; rename a (last_name src cwd) b n) w)
      (fun ans V' => code_spec cwd (view r w) (MoveFile src dst) ans V')).
  { intros a x H. apply (with_split r w dst cwd (fun b n => rename a (last_name src cwd) b n)); [done | done | |].
    - intros b y H'. cbn [code_spec spec_with]. rewrite (ap_view _ _ _ _ _ H), (ap_view _ _ _ _ _ H'). by apply (rename_done r w (parent src cwd) a x (parent dst cwd) b y).
    - intros Hl. cbn [code_spec spec_with]. rewrite (ap_view _ _ _ _ _ H), (proj2 (view_None r w _ Ht) Hl). apply fails_same. }
  cbn [code_spec spec_with] in G. unfold parent, last_name in *. destruct (split_path src cwd) as [sp sn]. destruct (split_path dst cwd) as [dp dn]. cbn [fst snd] in *.
  apply (with_parent r w sp cwd (fun a => b <-? resolve_path dp cwd; rename a sn b dn)); [done | done | |].
  - intros a Ha. destruct (at_path_intro r w _ a Ht Ha) as [x Hx]. by apply (G a x).
  - intros Hl. rewrite (proj2 (view_None r w _ Ht) Hl). apply fails_same.
Qed.

Lemma read_file_eq r w p cwd : tree r w -> mounted r w ->
  exists ans, read_file_content p cwd w = Ret (ans, w) /\ code_spec cwd (view r w) (ReadFile p) ans (view r w).
Proof.
  intros Ht Hm. unfold read_file_content, fs_bind. rewrite (resolve_path_eq r w p cwd Ht Hm). unfold walk_result. cbn [code_spec spec_with].
  destruct (locate (heap w) r (target p cwd)) as [a|] eqn:Ha.
  2:{ eexists. split; [done|]. rewrite (proj2 (view_None r w _ Ht) Ha). apply fails_same. }
  destruct (at_path_intro r w _ a Ht Ha) as [x H]. rewrite (getattr_eq w a x (ap_heap _ _ _ _ _ H)). cbn [attr_type attr_size].
  rewrite (ap_view _ _ _ _ _ H). pose proof (ap_kind _ _ _ _ _ H) as Hk. unfold kind_ok, node_of in *.
  destruct (file_type x) eqn:Hf; try done.
  - rewrite bool_decide_eq_false_2 by done.
    rewrite (read_eq w a x (ap_heap _ _ _ _ _ H) Hf (ap_kind _ _ _ _ _ H)). eexists. split; [done|]. by split.
  - rewrite bool_decide_eq_true_2 by done. eexists. split; [done|]. apply fails_same.
  - rewrite bool_decide_eq_false_2 by done. unfold read, fs_bind. rewrite (self_eq w a x (ap_heap _ _ _ _ _ H)).
    unfold require_type. rewrite Hf, bool_decide_eq_false_2 by done. eexists. split; [done|]. apply fails_same.
Qed.

Lemma read_file_done r w p cwd : tree r w -> mounted r w ->
  done_by r w (exec cwd (ReadFile p) w) (fun ans V' => code_spec cwd (view r w) (ReadFile p) ans V').
Proof.
  intros Ht Hm. destruct (read_file_eq r w p cwd Ht Hm) as (ans & E & HS). unfold exec. rewrite E. by apply done_unchanged.
Qed.

(** *** Contents *)

Lemma with_content_kind x bytes : file_type x = Regular -> kind_ok x -> Z.of_nat (length bytes) <= ISIZE_MAX ->
  kind_ok (with_content x bytes (Z.of_nat (length bytes))).
Proof. unfold kind_ok. cbn. intros Hr. rewrite Hr. by intros (? & _). Qed.

(** The content of the inode at [d] replaced. *)
Lemma replace_content_done r w d a x bytes (S : result (list Z) FsError -> (path -> option node) -> Prop) :
  at_path r w d a x -> Z.of_nat (length bytes) <= ISIZE_MAX ->
  (file_type x = Regular -> forall V', answers (view r w) V' (Ok []) (Ok []) (Some (d, Some (NFile (ino x) bytes))) -> S (Ok []) V') ->
  (file_type x <> Regular -> S (Err IsDirectory) (view r w)) ->
  done_by r w (no_answer (replace_content a bytes) w) S.
Proof.
  intros H Hl HOk HErr. unfold no_answer, fs_bind. rewrite (replace_content_eq w a x bytes (ap_heap _ _ _ _ _ H) Hl).
  case_bool_decide as Hr; [|apply done_unchanged; [apply H | by apply HErr]]. cbn beta iota. unfold fs_ok.
  pose proof (with_content_kind x bytes Hr (ap_kind _ _ _ _ _ H) Hl) as Hk.
  apply done_changed; [by apply (updated_same_tree r w a x); first [done | apply H] | done|].
  apply HOk; [done|]. split; [done|]. intros q.
  rewrite (updated_same_view r w a x (with_content x bytes (Z.of_nat (length bytes))) (ap_tree _ _ _ _ _ H) (ap_heap _ _ _ _ _ H) eq_refl d q eq_refl (ap_locate _ _ _ _ _ H)).
  unfold node_of. cbn. by rewrite Hr.
Qed.

(** A new file is created at [d ++ [n]] and filled. *)
Lemma create_filled_done r w d a x n mk bytes (S : result (list Z) FsError -> (path -> option node) -> Prop) :
  at_path r w d a x -> file_type x = Directory -> children x !! n = None -> Z.of_nat (length bytes) <= ISIZE_MAX ->
  leaf mk -> file_type mk = Regular ->
  (forall V', answers (view r w) V' (Ok []) (Ok []) (Some (d ++ [n], Some (NFile (ino mk) bytes))) -> S (Ok []) V') ->
  done_by r w (no_answer (replace_content (next_addr w) bytes) (added w a x n mk)) S.
Proof.
  intros H Hd Hn Hl Hmk Hreg HOk. pose proof (ap_tree _ _ _ _ _ H) as Ht. pose proof (ap_heap _ _ _ _ _ H) as Hx.
  set (w1 := added w a x n mk). assert (Ht1 : tree r w1) by (by apply added_tree).
  assert (Hl1 : locate (heap w1) r (d ++ [n]) = Some (next_addr w)).
  { unfold w1. rewrite (added_locate r w a x n mk Ht Hx Hd Hn Hmk d _ (ap_locate _ _ _ _ _ H)). by rewrite decide_True. }
  assert (Hx1 : heap w1 !! next_addr w = Some mk).
  { unfold w1. rewrite added_heap, decide_False, decide_True; [done | done|].
    intros E. by apply (fresh_addr r w Ht a x Hx). }
  assert (H1 : at_path r w1 (d ++ [n]) (next_addr w) mk).
  { split; [done | done | done | apply Hmk | by apply (view_eq r w1 _ (next_addr w))]. }
  destruct (replace_content_done r w1 (d ++ [n]) (next_addr w) mk bytes (fun ans V' => ans = Ok [] /\ S (Ok []) V') H1 Hl)
    as (ans & w' & E & Ht' & Hs' & [-> HS] & _).
  - intros _ V' [_ HV]. split; [done|]. apply HOk. split; [done|]. intros q. rewrite HV. unfold w1.
    rewrite (added_view r w a x n mk Ht Hx Hd Hn Hmk d q (ap_locate _ _ _ _ _ H)). by case_decide.
  - congruence.
  - exists (Ok []), w'. rewrite E. split; [done|]. split; [done|]. by rewrite Hs'.
Qed.

Lemma write_file_done r w p cwd bytes : tree r w -> mounted r w -> Z.of_nat (length bytes) <= ISIZE_MAX ->
  done_by r w (exec cwd (WriteFile p bytes) w) (fun ans V' => code_spec cwd (view r w) (WriteFile p bytes) ans V').
Proof.
  intros Ht Hm Hl. unfold exec, write_file_content. unfold no_answer at 1, fs_bind at 1, fs_match.
  rewrite (resolve_path_eq r w p cwd Ht Hm). unfold walk_result. cbn [code_spec spec_with].
  destruct (locate (heap w) r (target p cwd)) as [a|] eqn:Ha.
  - destruct (at_path_intro r w _ a Ht Ha) as [x H]. rewrite (ap_view _ _ _ _ _ H).
    apply (replace_content_done r w (target p cwd) a x bytes); [done | done | |].
    + intros Hr V' HV. unfold node_of. by rewrite Hr.
    + intros Hr. pose proof (ap_kind _ _ _ _ _ H) as Hk. unfold kind_ok, node_of in *. destruct (file_type x); try done; apply fails_same.
  - rewrite (proj2 (view_None r w _ Ht) Ha).
    destruct (whynot (view r w) [] (target p cwd)); try (apply done_unchanged; [done | apply fails_same]).
    apply (with_split_dir r w p cwd (fun a n => i <-? create a n DEFAULT_FILE 0; replace_content i bytes)); [done | done|].
    intros a x H. unfold no_answer at 1, fs_bind at 1 2, create. rewrite (add_child_eq w a x _ _ (ap_heap _ _ _ _ _ H)).
    case_bool_decide as Hd; [|apply done_unchanged; [done | by apply (in_directory_other r w _ a x)]].
    pose proof (child_view r w _ a x (last_name p cwd) H Hd) as Hc.
    destruct (children x !! last_name p cwd) as [c|] eqn:Hn.
    + destruct Hc as [y Hy]. apply done_unchanged; [done|]. rewrite (in_directory_dir r w _ a x), (ap_view _ _ _ _ _ Hy) by done. apply fails_same.
    + apply (create_filled_done r w (parent p cwd) a x _ (new_file (next_child_ino x) (last_name p cwd) DEFAULT_FILE) bytes); try done.
      intros V' HV. rewrite (in_directory_dir r w _ a x), Hc by done. by exists (next_child_ino x).
Qed.

Lemma copy_file_done r w src dst cwd : tree r w -> mounted r w ->
  done_by r w (exec cwd (CopyFile src dst) w) (fun ans V' => code_spec cwd (view r w) (CopyFile src dst) ans V').
Proof.
  intros Ht Hm. unfold exec, copy_file. unfold no_answer at 1, fs_bind at 1 2. cbn [code_spec spec_with].
  destruct (read_file_eq r w src cwd Ht Hm) as (ans & -> & HS). cbn [code_spec spec_with] in HS.
  destruct (view r w (target src cwd)) as [[i0 bytes|i0|i0 t]|] eqn:Hv.
  2-4: destruct HS as [-> _]; apply done_unchanged; [done | apply fails_same].
  destruct HS as [-> _].
  assert (Hl : Z.of_nat (length bytes) <= ISIZE_MAX).
  { unfold MemFsSpec.view in Hv. destruct (locate (heap w) r (target src cwd)) as [a|] eqn:Ha; [|done]. cbn in Hv.
    destruct (heap w !! a) as [x|] eqn:Hx; [|done]. injection Hv as Hv. pose proof (t_kind _ _ Ht a x Hx) as Hk.
    unfold kind_ok, node_of in *. destruct (file_type x); try done. injection Hv as <- <-. apply Hk. }
  apply (with_split_dir r w dst cwd (fun a n => i <-? lookup_or_create a n; replace_content i bytes)); [done | done|].
  intros a x H. unfold no_answer at 1, fs_bind at 1 2. rewrite (lookup_or_create_eq w a x _ (ap_heap _ _ _ _ _ H)).
  case_bool_decide as Hd; [|apply done_unchanged; [done | by apply (in_directory_other r w _ a x)]].
  pose proof (child_view r w _ a x (last_name dst cwd) H Hd) as Hc.
  destruct (children x !! last_name dst cwd) as [c|] eqn:Hn.
  - destruct Hc as [y Hy]. apply (replace_content_done r w (parent dst cwd ++ [last_name dst cwd]) c y bytes); [done | done | |].
    + intros Hr V' HV. rewrite (in_directory_dir r w _ a x), (ap_view _ _ _ _ _ Hy) by done. unfold node_of. by rewrite Hr.
    + intros Hr. rewrite (in_directory_dir r w _ a x), (ap_view _ _ _ _ _ Hy) by done.
      pose proof (ap_kind _ _ _ _ _ Hy) as Hk. unfold kind_ok, node_of in *. destruct (file_type y); try done; apply fails_same.
  - apply (create_filled_done r w (parent dst cwd) a x _ (new_file (next_child_ino x) (last_name dst cwd) DEFAULT_FILE) bytes); try done.
    intros V' HV. rewrite (in_directory_dir r w _ a x), Hc by done. by exists (next_child_ino x).
Qed.

Lemma exec_done r w cwd c : tree r w -> mounted r w -> call_ok c ->
  done_by r w (exec cwd c w) (fun ans V' => code_spec cwd (view r w) c ans V').
Proof.
  intros Ht Hm Hc. destruct c.
  - by apply make_directory_done.
  - by apply touch_file_done.
  - by apply remove_file_done.
  - by apply remove_directory_done.
  - by apply move_file_done.
  - by apply copy_file_done.
  - by apply write_file_done.
  - by apply create_symlink_done.
  - by apply read_file_done.
Qed.

(** ** The start *)

(** Before anything is mounted. *)
Definition empty_world : world := mkWorld ∅ 0 None.

(** A step of the start: it returns and keeps the tree. *)
Definition keeps (r : Z) (m : memfs unit) : Prop :=
  forall w, tree r w -> exists w', m w = Ret (Ok tt, w') /\ tree r w' /\ SHELL_FS w' = SHELL_FS w.

Lemma keeps_then r m k : keeps r m -> keeps r k -> keeps r (m;? k).
Proof.
  intros Hm Hk w Ht. destruct (Hm w Ht) as (w1 & E1 & Ht1 & Hs1). destruct (Hk w1 Ht1) as (w2 & E2 & Ht2 & Hs2).
  exists w2. unfold fs_bind. rewrite E1. split; [done|]. split; [done | congruence].
Qed.

Lemma keeps_mkdir r d n m : d = r -> keeps r (ignored (mkdir d n m)).
Proof.
  intros -> w Ht. destruct (t_root _ _ Ht) as (x & Hx & Hd). unfold ignored, fs_match, mkdir.
  rewrite (add_child_eq w r x n _ Hx), bool_decide_eq_true_2 by done. destruct (children x !! n) eqn:Hn.
  - by exists w.
  - eexists. split; [done|]. split; [|done]. by apply added_tree; try apply leaf_new_dir.
Qed.

(** What is done in a directory found under the root. *)
Lemma keeps_in_child r n (k : Z -> memfs unit) :
  (forall c w, tree r w -> is_Some (heap w !! c) -> exists w', k c w = Ret (Ok tt, w') /\ tree r w' /\ SHELL_FS w' = SHELL_FS w) ->
  keeps r (fs_match (lookup r n) (fun e => match e with Ok c => k c | Err _ => fs_ok tt end)).
Proof.
  intros Hk w Ht. destruct (t_root _ _ Ht) as (x & Hx & Hd). unfold fs_match. rewrite (lookup_eq w r x n Hx), bool_decide_eq_true_2 by done.
  destruct (children x !! n) as [c|] eqn:Hn; cbn; [|by exists w]. apply Hk; [done|].
  apply (t_child _ _ Ht r n). by apply (child_step r w r n x).
Qed.

Lemma mkdir_anywhere r c n m w : tree r w -> is_Some (heap w !! c) ->
  exists w', ignored (mkdir c n m) w = Ret (Ok tt, w') /\ tree r w' /\ SHELL_FS w' = SHELL_FS w.
Proof.
  intros Ht [x Hx]. unfold ignored, fs_match, mkdir. rewrite (add_child_eq w c x n _ Hx). case_bool_decide as Hd; [|by exists w].
  destruct (children x !! n) eqn:Hn; [by exists w|]. eexists. split; [done|]. split; [|done]. by apply added_tree; try apply leaf_new_dir.
Qed.

Lemma seed_file_spec r c n bytes w : tree r w -> is_Some (heap w !! c) -> Z.of_nat (length bytes) <= ISIZE_MAX ->
  exists w', seed_file c n bytes w = Ret (Ok tt, w') /\ tree r w' /\ SHELL_FS w' = SHELL_FS w /\ is_Some (heap w' !! c).
Proof.
  intros Ht [x Hx] Hl. unfold seed_file, fs_match, create. rewrite (add_child_eq w c x n _ Hx).
  case_bool_decide as Hd; [|exists w; by rewrite Hx]. destruct (children x !! n) eqn:Hn; [exists w; by rewrite Hx|].
  set (mk := new_file (next_child_ino x) n DEFAULT_FILE). set (w1 := added w c x n mk).
  assert (Ht1 : tree r w1) by (by apply added_tree).
  pose proof (fresh_addr r w Ht c x Hx) as Hf.
  assert (Hx1 : heap w1 !! next_addr w = Some mk) by (unfold w1; by rewrite added_heap, decide_False, decide_True).
  unfold ignored, fs_match. rewrite (write_eq w1 (next_addr w) mk bytes Hx1 eq_refl eq_refl Hl).
  eexists. split; [done|]. split; [|split; [done|]].
  - apply (updated_same_tree r w1 _ mk); [done | done | done | | done]. by apply with_content_kind.
  - rewrite updated_heap, decide_False by done. unfold w1. rewrite added_heap, decide_True by done. by eexists.
Qed.

Lemma new_fs_tree : exists w, memoryfs_new empty_world = Ret (Ok (mkMemoryFs 0 2), w) /\ tree 0 w /\ SHELL_FS w = None.
Proof.
  eexists. split; [done|]. split; [|done].
  assert (Hs : forall a n, step_to (<[0 := new_dir 1 "/" DEFAULT_DIR]> ∅) a n = None).
  { intros a n. unfold step_to. rewrite lookup_insert. by case_decide. }
  split; cbn [heap next_addr].
  - eexists. by rewrite lookup_insert_eq.
  - intros a x. rewrite lookup_insert. case_decide; [intros; subst; lia | done].
  - intros a x. rewrite lookup_insert. case_decide; [by intros [= <-] | done].
  - intros a n c H. by rewrite Hs in H.
  - intros a b m n c H. by rewrite Hs in H.
  - intros a n H. by rewrite Hs in H.
Qed.

Lemma init_tree : exists w, init_shell_fs empty_world = Ret (Ok tt, w) /\ tree 0 w /\ mounted 0 w.
Proof.
  destruct new_fs_tree as (w0 & E0 & Ht0 & Hs0).
  assert (G : keeps 0 (populate 0)).
  { repeat (apply keeps_then; [by apply keeps_mkdir|]). apply keeps_then.
    - apply keeps_in_child. intros c w Ht Hc.
      destruct (seed_file_spec 0 c "hostname" (ascii_bytes (String.append "ranyos" newline)) w Ht Hc) as (w1 & E1 & Ht1 & Hs1 & Hc1); [done|].
      destruct (seed_file_spec 0 c "version" (ascii_bytes (String.append "ExoRust/RanyOS v0.3.0-alpha" newline)) w1 Ht1 Hc1)
        as (w2 & E2 & Ht2 & Hs2 & Hc2); [done|].
      exists w2. unfold fs_bind. rewrite E1. split; [done|]. split; [done | congruence].
    - apply keeps_in_child. intros c w Ht Hc. by apply mkdir_anywhere. }
  destruct (G w0 Ht0) as (w1 & E1 & Ht1 & Hs1). exists (mkWorld (heap w1) (next_addr w1) (Some (mkMemoryFs 0 2))).
  split; [|split; [|by eexists]].
  - unfold init_shell_fs. cbn [SHELL_FS empty_world]. unfold build_shell_fs, fs_bind. rewrite E0. cbn [root]. rewrite E1. done.
  - destruct Ht1 as [A1 A2 A3 A4 A5 A6]. by split.
Qed.

(** ** The strings of paths *)

Lemma append_nil_r s : String.append s EmptyString = s.
Proof. induction s as [|c s IH]; [done | exact (f_equal (String c) IH)]. Qed.

Lemma append_assoc a b c : String.append (String.append a b) c = String.append a (String.append b c).
Proof. induction a as [|x a IH]; [done | exact (f_equal (String x) IH)]. Qed.

Lemma names_from_split s : forall cur, names_from cur s =
  filter (fun c => c <> EmptyString) match split_slash s with c :: cs => String.append cur c :: cs | [] => [cur] end.
Proof.
  induction s as [|x s IH]; intros cur; cbn [names_from split_slash].
  - rewrite append_nil_r, filter_cons. destruct cur; [by rewrite decide_False by tauto | by rewrite decide_True].
  - change (Ascii.eqb x "/") with (is_slash x). destruct (is_slash x).
    + rewrite IH, append_nil_r, filter_cons. pose proof (split_slash_ne s). destruct (split_slash s) as [|c cs]; [done|]. cbn [String.append].
      destruct cur; [by rewrite decide_False by tauto | by rewrite decide_True].
    + rewrite IH. pose proof (split_slash_ne s). destruct (split_slash s) as [|c cs]; [done|]. by rewrite append_assoc.
Qed.

Lemma names_components s : names s = components s.
Proof. unfold names, components. rewrite names_from_split. pose proof (split_slash_ne s). by destruct (split_slash s). Qed.

Lemma leads_to_target p cwd : leads_to p cwd = target p cwd.
Proof.
  unfold leads_to, target, absolute_path. rewrite !names_components. change (absolute p) with (starts_with_slash p).
  destruct (starts_with_slash p); [done|]. repeat (case_bool_decide; [by rewrite ?components_parent_of|]). by rewrite components_append_path.
Qed.

Lemma full_base p cwd : full p cwd = components (split_base p cwd).
Proof.
  unfold full, split_base. rewrite !names_components. change (absolute p) with (starts_with_slash p). destruct (starts_with_slash p); [done|]. by rewrite components_append_path.
Qed.

Lemma directory_split p cwd : starts_with_slash cwd = true -> directory p cwd = parent p cwd /\ base_name p cwd = last_name p cwd.
Proof.
  intros Hc. pose proof (split_path_spec p cwd Hc) as Hs. unfold directory, base_name, parent, last_name. rewrite full_base.
  pose proof (split_path_root p cwd) as Hr. destruct (split_path p cwd) as [d n]. cbn [fst snd] in *. destruct Hs as [[E ->] | (Hn & _ & Hd & E)].
  - rewrite E. split; [|done]. rewrite (Hr eq_refl). unfold target. rewrite absolute_starts by done. by rewrite names_components.
  - rewrite E, last_last. split; [|done]. unfold target. rewrite absolute_starts by done. destruct (components d ++ [n]) as [|c l] eqn:El; [by apply app_eq_nil in El as [_ ?]|].
    rewrite <- El. by rewrite removelast_last.
Qed.

Lemma code_spec_reads cwd V c ans V' : starts_with_slash cwd = true -> code_spec cwd V c ans V' -> spec cwd V c ans V'.
Proof.
  intros Hc. unfold spec, code_spec. assert (Ht : forall p, leads_to p cwd = target p cwd) by (intros p; apply leads_to_target).
  assert (Hd : forall p, directory p cwd = parent p cwd) by (intros p; by apply directory_split). assert (Hn : forall p, base_name p cwd = last_name p cwd) by (intros p; by apply directory_split).
  destruct c; cbn [spec_with]; by rewrite ?Ht, ?Hd, ?Hn.
Qed.

(** ** Sessions *)

(** Calls with the working directory they are made in. *)
Fixpoint session (l : list (string * call)) (w : world) : outcome (list (result (list Z) FsError) * world) :=
  match l with
  | [] => Ret ([], w)
  | (cwd, c) :: l' =>
      match exec cwd c w with
      | Ret (ans, w1) =>
          match session l' w1 with
          | Ret (rs, w2) => Ret (ans :: rs, w2)
          | Panic => Panic
          end
      | Panic => Panic
      end
  end.

Inductive spec_session : list (string * call) -> (path -> option node) -> list (result (list Z) FsError) -> (path -> option node) -> Prop :=
| spec_end V : spec_session [] V [] V
| spec_call cwd c l V ans V1 rs V2 :
    spec cwd V c ans V1 -> spec_session l V1 rs V2 -> spec_session ((cwd, c) :: l) V (ans :: rs) V2.

Lemma mounted_same r w w' : mounted r w -> SHELL_FS w' = SHELL_FS w -> mounted r w'.
Proof. intros [k Hk] E. exists k. congruence. Qed.

Lemma session_refines r l w : tree r w -> mounted r w -> Forall (fun x => starts_with_slash x.1 = true /\ call_ok x.2) l ->
  exists rs w', session l w = Ret (rs, w') /\ tree r w' /\ mounted r w' /\ spec_session l (view r w) rs (view r w').
Proof.
  revert w. induction l as [|[cwd c] l IH]; intros w Ht Hm Hl; cbn [session].
  { exists [], w. split; [done|]. split; [done|]. split; [done | constructor]. }
  apply Forall_cons in Hl as [[Hcwd Hc] Hl]. cbn [fst snd] in *. destruct (exec_done r w cwd c Ht Hm Hc) as (ans & w1 & -> & Ht1 & Hs1 & HS & _).
  destruct (IH w1 Ht1 (mounted_same r w w1 Hm Hs1) Hl) as (rs & w2 & -> & Ht2 & Hm2 & HS2).
  exists (ans :: rs), w2. split; [done|]. split; [done|]. split; [done|]. econstructor; [by apply code_spec_reads | done].
Qed.

(** The view only knows paths whose directories it knows. *)
Lemma view_prefix r w p q : tree r w -> view r w p = None -> view r w (p ++ q) = None.
Proof. intros Ht. rewrite !view_None by done. intros E. rewrite locate_app, E. done. Qed.

(** ** The properties *)

(** C37: from the start on every sequence of shell calls, made in working directories
    that start with a slash, returns and answers as a map from paths to files,
    directories and links with their inode numbers does ([Paths.spec], which reads path
    strings on its own): each call changes the one path it names, or fails with the
    specified error.  A move compares the numbers of the two directories, as [rename]
    does: with different numbers it is refused; with equal ones it renames inside the
    directory of the source, also when the other directory is another one of the same
    number. *)
Theorem memfs_refines_paths (l : list (string * call)) :
  Forall (fun x => starts_with_slash x.1 = true /\ call_ok x.2) l ->
  exists w0 rs w, init_shell_fs empty_world = Ret (Ok tt, w0) /\ session l w0 = Ret (rs, w) /\
    tree 0 w /\ spec_session l (view 0 w0) rs (view 0 w).
Proof.
  intros Hl. destruct init_tree as (w0 & E0 & Ht0 & Hm0).
  destruct (session_refines 0 l w0 Ht0 Hm0 Hl) as (rs & w & E & Ht & _ & HS). exists w0, rs, w.
  exact (conj E0 (conj E (conj Ht HS))).
Qed.

(** what a successful write stores at a path is what the next read of that path
    returns, for any spelling of the path and any absolute working directory. *)
Theorem write_read_roundtrip r w p cwd bytes w' :
  tree r w -> mounted r w -> starts_with_slash cwd = true -> Z.of_nat (length bytes) <= ISIZE_MAX ->
  write_file_content p cwd bytes w = Ret (Ok tt, w') ->
  read_file_content p cwd w' = Ret (Ok bytes, w').
Proof.
  intros Ht Hm Hc Hl Hw. destruct (write_file_done r w p cwd bytes Ht Hm Hl) as (ans & w1 & E & Ht1 & Hs1 & HS & _).
  unfold exec, no_answer, fs_bind in E. rewrite Hw in E. injection E as <- <-.
  assert (HV : exists i, view r w' (target p cwd) = Some (NFile i bytes)).
  { cbn [code_spec spec_with] in HS. pose proof (target_split p cwd Hc) as Hsp. unfold parent, last_name in HS.
    destruct (split_path p cwd) as [d n]. cbn [fst snd] in HS.
    destruct (view r w (target p cwd)) as [[i b|i|i t]|] eqn:Hv; try (by destruct HS as [? _]).
    - destruct HS as [_ HS]. exists i. by rewrite HS, decide_True.
    - destruct (whynot (view r w) [] (target p cwd)); try (by destruct HS as [? _]).
      destruct Hsp as [[E _] | [(Hn & Hns & E) | (Hns & rest & E)]].
      + rewrite E in Hv. destruct (t_root _ _ Ht) as (x & Hx & _). by rewrite (view_eq r w [] r x) in Hv.
      + unfold add, in_directory in HS. destruct (view r w (target d cwd)) as [[| |]|]; try (by destruct HS as [? _]).
        rewrite <- E, Hv in HS. destruct HS as (j & _ & HS). exists j. by rewrite HS, decide_True.
      + unfold add, in_directory in HS. rewrite E, (view_prefix r w _ rest Ht Hv) in HS. by destruct HS as [? _]. }
  destruct (read_file_eq r w' p cwd Ht1 (mounted_same r w w' Hm Hs1)) as (ans & -> & HR). cbn [code_spec spec_with] in HR.
  destruct HV as [i HV]. rewrite HV in HR. by destruct HR as [-> _].
Qed.

(** C38: a call that fails leaves the filesystem exactly as it was, inode numbers
    included. *)
Theorem failed_call_changes_nothing r w cwd c e w' :
  tree r w -> mounted r w -> call_ok c -> exec cwd c w = Ret (Err e, w') -> w' = w.
Proof.
  intros Ht Hm Hc He. destruct (exec_done r w cwd c Ht Hm Hc) as (ans & w1 & E & _ & _ & _ & HE).
  rewrite He in E. injection E as <- <-. by apply (HE e).
Qed.

(** ** Concrete runs *)

Definition shell_world : world := match init_shell_fs empty_world with Ret (_, w) => w | Panic => empty_world end.

Lemma shell_tree : tree 0 shell_world /\ mounted 0 shell_world.
Proof. unfold shell_world. destruct init_tree as (w & -> & Ht & Hm). exact (conj Ht Hm). Qed.

Definition shell_session : list (string * call) :=
  [("/"%string, MakeDirectory "tmp/a"); ("/tmp"%string, WriteFile "a/x" [1; 2; 3]); ("/tmp/a"%string, MoveFile "x" "y");
   ("/tmp/a"%string, CopyFile "y" "../b"); ("/"%string, ReadFile "tmp/a/y"); ("/tmp"%string, RemoveDirectory "a");
   ("/etc"%string, RemoveFile "/etc/hostname")].

Lemma memfs_refines_paths_witness :
  Forall (fun x => starts_with_slash x.1 = true /\ call_ok x.2) shell_session /\
  exists w0 rs w, init_shell_fs empty_world = Ret (Ok tt, w0) /\ session shell_session w0 = Ret (rs, w) /\ tree 0 w.
Proof.
  assert (Hl : Forall (fun x => starts_with_slash x.1 = true /\ call_ok x.2) shell_session)
    by (repeat (apply Forall_cons; split; [split; [reflexivity|]; cbn [call_ok snd]; first [exact I | vm_compute; discriminate]|]); apply Forall_nil_2). split; [exact Hl|].
  destruct (memfs_refines_paths shell_session Hl) as (w0 & rs & w & E0 & E & Ht & _). exists w0, rs, w.
  exact (conj E0 (conj E Ht)).
Defined.

(** The answers of that session. *)
Lemma shell_session_answers :
  match session shell_session shell_world with Ret (rs, _) => rs | Panic => [] end =
  [Ok []; Ok []; Ok []; Ok []; Ok [1; 2; 3]; Err NotEmpty; Ok []].
Proof. vm_compute. reflexivity. Qed.

Lemma write_read_roundtrip_witness :
  match write_file_content "./notes//" "/tmp" [7; 8] shell_world with
  | Ret (r, w) => r = Ok tt /\ read_file_content "./notes//" "/tmp" w = Ret (Ok [7; 8], w)
  | Panic => False
  end.
Proof.
  destruct (write_file_content "./notes//" "/tmp" [7; 8] shell_world) as [[r w]|] eqn:E.
  - assert (Hr : match write_file_content "./notes//" "/tmp" [7; 8] shell_world with Ret (r, _) => r | Panic => Err NotFound end = Ok tt)
      by (vm_compute; reflexivity).
    rewrite E in Hr. subst r. split; [reflexivity|]. destruct shell_tree as [Ht Hm].
    apply (write_read_roundtrip 0 shell_world "./notes//" "/tmp" [7; 8] w Ht Hm); [reflexivity | done | exact E].
  - assert (Hr : match write_file_content "./notes//" "/tmp" [7; 8] shell_world with Ret (r, _) => r | Panic => Err NotFound end = Ok tt)
      by (vm_compute; reflexivity).
    rewrite E in Hr. discriminate.
Defined.

Lemma failed_call_changes_nothing_witness :
  match exec "/" (RemoveFile "etc") shell_world with
  | Ret (r, w) => r = Err IsDirectory /\ w = shell_world
  | Panic => False
  end.
Proof.
  destruct (exec "/" (RemoveFile "etc") shell_world) as [[r w]|] eqn:E.
  - assert (Hr : match exec "/" (RemoveFile "etc") shell_world with Ret (r, _) => r | Panic => Ok [] end = Err IsDirectory)
      by (vm_compute; reflexivity).
    rewrite E in Hr. subst r. split; [reflexivity|]. destruct shell_tree as [Ht Hm].
    apply (failed_call_changes_nothing 0 shell_world "/" (RemoveFile "etc") IsDirectory w Ht Hm); [exact I | exact E].
  - assert (Hr : match exec "/" (RemoveFile "etc") shell_world with Ret (r, _) => r | Panic => Ok [] end = Err IsDirectory)
      by (vm_compute; reflexivity).
    rewrite E in Hr. discriminate.
Defined.

(** The answers of a session from the start. *)
Definition answers_of (l : list (string * call)) : list (result (list Z) FsError) :=
  match session l shell_world with Ret (rs, _) => rs | Panic => [] end.

(** Directories are told apart by their numbers, and numbers repeat: the second
    directory in /bin and the first in /dev share one, so a move between them is
    accepted, and the file stays in the source directory. *)
Lemma move_between_directories_lost :
  answers_of [("/"%string, MakeDirectory "/bin/b1"); ("/"%string, MakeDirectory "/bin/b2"); ("/"%string, MakeDirectory "/dev/d1");
    ("/"%string, WriteFile "/bin/b2/f" [1]); ("/"%string, MoveFile "/bin/b2/f" "/dev/d1/g");
    ("/"%string, ReadFile "/dev/d1/g"); ("/"%string, ReadFile "/bin/b2/g")] =
  [Ok []; Ok []; Ok []; Ok []; Ok []; Err NotFound; Ok [1]].
Proof. vm_compute. reflexivity. Qed.

(** A move onto a directory drops the directory with what is in it. *)
Lemma move_onto_directory_drops_it :
  answers_of [("/tmp"%string, WriteFile "a" [1]); ("/tmp"%string, MakeDirectory "b"); ("/tmp"%string, WriteFile "b/c" [2]);
    ("/tmp"%string, MoveFile "a" "b"); ("/tmp"%string, ReadFile "b/c"); ("/tmp"%string, ReadFile "b")] =
  [Ok []; Ok []; Ok []; Ok []; Err NotDirectory; Ok [1]].
Proof. vm_compute. reflexivity. Qed.

(** The root can be made once more: an entry without a name appears in the working
    directory. *)
Lemma make_root_adds_nameless_entry :
  match exec "/tmp" (MakeDirectory "/") shell_world with
  | Ret (_, w) => match list_directory "/tmp" "/" w with Ret (Ok es, _) => entry_name <$> es | _ => [] end
  | Panic => []
  end = ["."; ".."; EmptyString]%string.
Proof. vm_compute. reflexivity. Qed.

(** A component [..] inside a path is skipped instead of leading up. *)
Lemma dotdot_inside_path_ignored :
  answers_of [("/"%string, ReadFile "/home/../etc/hostname"); ("/"%string, ReadFile "/etc/../hostname")] =
  [Err NotFound; Ok (ascii_bytes (String.append "ranyos" newline))].
Proof. vm_compute. reflexivity. Qed.
