(* ===== verification/FsHandleTheorems.v ===== *)
(** * Theorems of open files and the mount table

    Open files over the memory filesystem: bytes written at a position are read
    back from it, and appending extends the content.  The mount table finds the
    longest mounted prefix. *)

From stdpp Require Import base list gmap strings.
From Stdlib Require Import ZArith Lia Ascii.
From S2P Require Import Prelude OrderedMap FsTypes MemFs MemFsSpec.

Local Open Scope Z_scope.

(** ** Writing anywhere *)

(** The content after [bytes] were written at [off]: padded with zeros. *)
Definition spliced (l : list Z) (off : nat) (bytes : list Z) : list Z :=
  take off l ++ replicate (off - length l) 0 ++ bytes ++ drop (off + length bytes) l.

Lemma spliced_length l off bytes : length (spliced l off bytes) = Nat.max (length l) (off + length bytes).
Proof. unfold spliced. rewrite !length_app, length_take, length_replicate, length_drop. lia. Qed.

Lemma write_at_eq w a x off bytes :
  heap w !! a = Some x -> file_type x = Regular -> Z.of_nat (length (content x)) <= ISIZE_MAX ->
  Z.of_nat off + Z.of_nat (length bytes) <= ISIZE_MAX ->
  MemFs.write a (Z.of_nat off) bytes w =
    Ret (Ok (Z.of_nat (length bytes)),
         updated w a (with_content x (spliced (content x) off bytes) (Z.of_nat (length (spliced (content x) off bytes))))).
Proof.
  intros Hx Hr Hc Hl. unfold MemFs.write. run_fs. cbn zeta. rewrite <- Nat2Z.inj_add in *. rewrite (wrap_small_nat _ Hl).
  assert (Ho : forall l, (off + length bytes <= length l)%nat ->
    overwrite l (Z.of_nat off) (Z.of_nat (off + length bytes)) bytes w = Ret (Ok (take off l ++ bytes ++ drop (off + length bytes) l), w)).
  { intros l E. unfold overwrite. rewrite !Nat2Z.id.
    destruct (Z.leb_spec (Z.of_nat off) (Z.of_nat (off + length bytes))); [|lia].
    destruct (Z.leb_spec (Z.of_nat (off + length bytes)) (Z.of_nat (length l))); [|lia].
    destruct (Z.eqb_spec (Z.of_nat (off + length bytes) - Z.of_nat off) (Z.of_nat (length bytes))); [done|lia]. }
  case_if.
  - unfold resize. destruct (Z.leb_spec (Z.of_nat (off + length bytes)) ISIZE_MAX); [|lia]. rewrite !Nat2Z.id.
    rewrite (take_ge (content x)) by lia. rewrite Ho by (rewrite length_app, length_replicate; lia).
    assert (Hsp : take off (content x ++ replicate (off + length bytes - length (content x)) 0) ++ bytes ++
        drop (off + length bytes) (content x ++ replicate (off + length bytes - length (content x)) 0) = spliced (content x) off bytes).
    { unfold spliced. rewrite (drop_ge (_ ++ _)) by (rewrite length_app, length_replicate; lia). rewrite (drop_ge (content x)) by lia.
      rewrite take_app, take_replicate, app_nil_r, <- app_assoc. f_equal. f_equal. f_equal. lia. }
    rewrite Hsp. done.
  - rewrite Ho by lia. unfold spliced. replace (off - length (content x))%nat with O by lia. done.
Qed.

Lemma read_at_eq w a x off (buf : list Z) :
  heap w !! a = Some x -> file_type x = Regular -> Z.of_nat (length (content x)) <= ISIZE_MAX -> Z.of_nat (length buf) <= ISIZE_MAX ->
  (off < length (content x))%nat ->
  let n := Nat.min (length buf) (length (content x) - off) in
  MemFs.read a (Z.of_nat off) buf w = Ret (Ok (Z.of_nat n, take n (drop off (content x)) ++ drop n buf), w).
Proof.
  intros Hx Hr Hc Hb Ho n. unfold MemFs.read. run_fs. cbn zeta. case_if; [lia|].
  rewrite wrap64_small by (unfold is_u64, u64_modulus, ISIZE_MAX in *; lia).
  assert (Hmin : Z.min (Z.of_nat off + Z.of_nat (length buf)) (Z.of_nat (length (content x))) = Z.of_nat (off + n)) by lia.
  rewrite Hmin. replace (Z.of_nat (off + n) - Z.of_nat off) with (Z.of_nat n) by lia.
  rewrite wrap64_small by (unfold is_u64, u64_modulus, ISIZE_MAX in *; lia).
  unfold slice. destruct (Z.leb_spec (Z.of_nat off) (Z.of_nat (off + n))); [|lia].
  destruct (Z.leb_spec (Z.of_nat (off + n)) (Z.of_nat (length (content x)))); [|lia]. cbn [andb].
  replace (Z.of_nat (off + n) - Z.of_nat off) with (Z.of_nat n) by lia. by rewrite !Nat2Z.id.
Qed.

Lemma spliced_slice l off bytes : take (length bytes) (drop off (spliced l off bytes)) = bytes.
Proof.
  unfold spliced. rewrite (app_assoc (take off l)). rewrite drop_app_length'; [by rewrite take_app_length|].
  rewrite length_app, length_take, length_replicate. lia.
Qed.

(** ** Open files *)

Notation handle := (FileHandle Z).

(** bytes written through an open file are read back after seeking to where they
    were written, whatever the file held and however far behind its end. *)
Theorem handle_roundtrip w (h : handle) x off bytes buf :
  heap w !! inode h = Some x -> file_type x = Regular -> Z.of_nat (length (content x)) <= ISIZE_MAX ->
  flags h = OpenFlags.O_RDWR -> position h = Z.of_nat off -> Z.of_nat off + Z.of_nat (length bytes) <= ISIZE_MAX ->
  bytes <> [] -> length buf = length bytes ->
  exists h1 w1, handle_write h bytes w = Ret (Ok (Z.of_nat (length bytes)), h1, w1) /\
    exists h2, seek h1 (SeekCurrent (- Z.of_nat (length bytes))) w1 = Ret (Ok (position h), h2, w1) /\
      exists h3, handle_read h2 buf w1 = Ret (Ok (Z.of_nat (length bytes), bytes), h3, w1) /\ position h3 = position h1.
Proof.
  intros Hx Hr Hc Hf Hp Hl Hne Hb.
  assert (Hpos : position h +w Z.of_nat (length bytes) = Z.of_nat (off + length bytes)).
  { rewrite Hp, wrap64_small; unfold is_u64, u64_modulus, ISIZE_MAX in *; lia. }
  set (x1 := with_content x (spliced (content x) off bytes) (Z.of_nat (length (spliced (content x) off bytes)))).
  set (h1 := mkHandle (inode h) (flags h) (Z.of_nat (off + length bytes))). set (w1 := updated w (inode h) x1).
  exists h1, w1. split.
  { unfold handle_write, handle_write_at. rewrite Hf. cbn [OpenFlags.can_write OpenFlags.append negb Z.land Z.eqb].
    change (Inode.write (inode h) (position h) bytes w) with (MemFs.write (inode h) (position h) bytes w).
    pose proof (write_at_eq w (inode h) x off bytes Hx Hr Hc Hl) as Hw. rewrite <- Hp in Hw. rewrite Hw. cbn beta iota. unfold at_position, h1.
    by rewrite Hpos. }
  exists (at_position h1 (position h)).
  assert (Hlen : (0 < length bytes)%nat) by (destruct bytes; [done | cbn; lia]). split.
  { unfold seek, seek_by. cbn [position h1]. destruct (Z.ltb_spec (- Z.of_nat (length bytes)) 0); [|lia].
    destruct (Z.ltb_spec (Z.of_nat (off + length bytes)) (- - Z.of_nat (length bytes))); [lia|]. cbn. rewrite Hp.
    replace (Z.of_nat (off + length bytes) - - - Z.of_nat (length bytes)) with (Z.of_nat off) by lia. done. }
  exists (at_position h1 (Z.of_nat (off + length bytes))). split; [|done].
  unfold handle_read. cbn [flags at_position h1 inode position]. rewrite Hf. cbn [OpenFlags.can_read negb Z.land Z.eqb].
  change (Inode.read (inode h) (position h) buf w1) with (MemFs.read (inode h) (position h) buf w1).
  pose proof (read_at_eq w1 (inode h) x1 off buf) as Hread. cbn [content x1 with_content] in Hread. rewrite <- Hp in Hread.
  rewrite Hread; [| by unfold w1, updated; cbn; rewrite lookup_insert_eq | done | | lia |]; rewrite ?spliced_length; [|lia..].
  replace (Nat.min (length buf) (Nat.max (length (content x)) (off + length bytes) - off)) with (length bytes) by lia.
  rewrite spliced_slice, <- Hb, drop_all, app_nil_r, Hb. by rewrite Hpos.
Qed.

(** a write through a file opened for appending goes to the end of the content,
    wherever the position was. *)
Theorem append_write_extends w (h : handle) x bytes :
  heap w !! inode h = Some x -> file_type x = Regular -> kind_ok x ->
  flags h = OpenFlags.O_WRONLY + OpenFlags.O_APPEND -> Z.of_nat (length (content x)) + Z.of_nat (length bytes) <= ISIZE_MAX ->
  exists h' w' x', handle_write h bytes w = Ret (Ok (Z.of_nat (length bytes)), h', w') /\
    heap w' !! inode h = Some x' /\ content x' = content x ++ bytes /\ position h' = Z.of_nat (length (content x ++ bytes)).
Proof.
  intros Hx Hr Hk Hf Hl. unfold kind_ok in Hk. rewrite Hr in Hk. destruct Hk as (_ & Hs & Hc).
  unfold handle_write, handle_write_at. rewrite Hf. cbn [OpenFlags.can_write OpenFlags.append OpenFlags.O_WRONLY OpenFlags.O_APPEND negb Z.land Z.eqb].
  change (Inode.getattr (inode h) w) with (MemFs.getattr (inode h) w). rewrite (getattr_eq w _ x Hx). cbn [attr_size inode at_position position].
  rewrite Hs. change (negb (Z.land (1 + 1024) 3 =? 0)) with true. cbn.
  change (Inode.write (inode h) (Z.of_nat (length (content x))) bytes w) with (MemFs.write (inode h) (Z.of_nat (length (content x))) bytes w).
  rewrite (write_at_eq w _ x (length (content x)) bytes Hx Hr Hc Hl).
  assert (E : spliced (content x) (length (content x)) bytes = content x ++ bytes).
  { unfold spliced. rewrite firstn_all, Nat.sub_diag, drop_ge by lia. cbn. by rewrite app_nil_r. }
  eexists _, _, _. split; [done|]. split; [cbn; by rewrite lookup_insert_eq|]. cbn. split; [done|].
  rewrite length_app, wrap64_small; unfold is_u64, u64_modulus, ISIZE_MAX in *; lia.
Qed.

(** ** The mount table *)

Section MountFind.
Context {F : Type}.
Implicit Types (m : MountEntry F) (l : list (MountEntry F)).

Lemma max_mounts l (b : MountEntry F) :
  exists r, foldl max_mount (Some b) l = Some r /\ (r = b \/ r ∈ l) /\
    (String.length (mount_path b) <= String.length (mount_path r))%nat /\
    forall m, m ∈ l -> (String.length (mount_path m) <= String.length (mount_path r))%nat.
Proof.
  revert b. induction l as [|m l IH]; intros b; cbn [foldl].
  { exists b. split; [done|]. split; [by left|]. split; [lia|]. by intros m ?%elem_of_nil. }
  change (max_mount (Some b) m) with (if (String.length (mount_path m) <? String.length (mount_path b))%nat then Some b else Some m).
  destruct (Nat.ltb_spec (String.length (mount_path m)) (String.length (mount_path b))).
  - destruct (IH b) as (r & -> & Hr & Hb & Hl). exists r. split; [done|]. split; [set_solver|]. split; [done|].
    intros m' [->|Hm]%elem_of_cons; [lia | by apply Hl].
  - destruct (IH m) as (r & -> & Hr & Hb & Hl). exists r. split; [done|]. split; [set_solver|]. split; [lia|].
    intros m' [->|Hm]%elem_of_cons; [done | by apply Hl].
Qed.

(** a path is served by the filesystem with the longest mount path that is a
    prefix of it; it has none exactly when no mount path is a prefix. *)
Theorem find_mount_longest l (p : string) :
  match find_mount l p with
  | Some f => exists m, m ∈ l /\ mount_fs m = f /\ String.prefix (mount_path m) p = true /\
      forall m', m' ∈ l -> String.prefix (mount_path m') p = true -> (String.length (mount_path m') <= String.length (mount_path m))%nat
  | None => forall m, m ∈ l -> String.prefix (mount_path m) p = false
  end.
Proof.
  unfold find_mount. destruct (filter (fun m => String.prefix (mount_path m) p = true) l) as [|b fl] eqn:E; cbn [foldl].
  - cbn. intros m Hm. apply not_true_is_false. intros Hp.
    assert (Hin : m ∈ filter (fun m => String.prefix (mount_path m) p = true) l) by (by apply list_elem_of_filter).
    rewrite E in Hin. by apply elem_of_nil in Hin.
  - destruct (max_mounts fl b) as (r & Hr & Hin & Hb & Hl). cbn [max_mount]. rewrite Hr. cbn. exists r.
    assert (Hr' : r ∈ filter (fun m => String.prefix (mount_path m) p = true) l) by (rewrite E; set_solver).
    apply list_elem_of_filter in Hr' as [Hp Hrl]. split; [done|]. split; [done|]. split; [done|].
    intros m' Hm' Hp'. assert (Hf : m' ∈ filter (fun m => String.prefix (mount_path m) p = true) l) by (by apply list_elem_of_filter).
    rewrite E in Hf. apply elem_of_cons in Hf as [->|Hf]; [done | by apply Hl].
Qed.

End MountFind.

(** ** Concrete runs *)

Definition one_file : world := mkWorld {[ 0 := with_content (new_file 5 "f" DEFAULT_FILE) [1; 2] 2 ]} 1 None.

Lemma handle_roundtrip_witness :
  exists h1 w1, handle_write (mkHandle 0 OpenFlags.O_RDWR 4) [7; 8] one_file = Ret (Ok 2, h1, w1) /\
    exists h2, seek h1 (SeekCurrent (-2)) w1 = Ret (Ok 4, h2, w1) /\
      exists h3, handle_read h2 [0; 0] w1 = Ret (Ok (2, [7; 8]), h3, w1) /\ position h3 = position h1.
Proof.
  apply (handle_roundtrip one_file (mkHandle 0 OpenFlags.O_RDWR 4) (with_content (new_file 5 "f" DEFAULT_FILE) [1; 2] 2) 4 [7; 8] [0; 0]);
    try reflexivity; done.
Defined.

Lemma append_write_extends_witness :
  exists h' w' x', handle_write (mkHandle 0 1025 0) [7] one_file = Ret (Ok 1, h', w') /\
    heap w' !! 0 = Some x' /\ content x' = [1; 2; 7] /\ position h' = 3.
Proof.
  apply (append_write_extends one_file (mkHandle 0 1025 0) (with_content (new_file 5 "f" DEFAULT_FILE) [1; 2] 2) [7]); try reflexivity; done.
Defined.

(** The prefix is one of characters, not of components. *)
Lemma mount_prefix_of_other_name : find_mount [mkMount "/mnt" 1] "/mntx/file" = Some 1.
Proof. by vm_compute. Qed.
