(* ===== verification/Async.v ===== *)
(** * Asynchronous tasks (src/src/task/timer.rs, interrupt_waker.rs, preemption.rs,
      mod.rs, executor.rs and the timer part of src/src/interrupts/mod.rs)

    Sleeping, the wakers behind interrupts, time slices, and the executor with its
    queues.  A waker is the number of the task it wakes.  The queues between
    processors ([LockFreeQueue]) are machines over single atomic accesses; the
    executor uses them call by call.  A future is a value of a type [F] with a
    transition function: whether it is ready, what it becomes, and what it did
    meanwhile (tasks it woke and spawned). *)

From stdpp Require Import base list gmap sorting.
From Stdlib Require Import ZArith Lia.
From S2P Require Import Prelude OrderedMap.

Local Open Scope Z_scope.

(** ** timer.rs *)

Module Timer.

Record timer := mkTimer { TICKS : Z; SLEEP_REGISTRY : gmap Z Z }.

Definition timer_new : timer := mkTimer 0 ∅.

(** The tasks woken, in the order of their deadlines. *)
Definition handle_timer_interrupt (t : timer) : list Z * timer :=
  let current_tick := TICKS t +w 1 in
  let due := filter (fun kw => kw.1 <= current_tick) (entries (SLEEP_REGISTRY t)) in
  (due.*2, mkTimer current_tick (foldl (fun r k => delete k r) (SLEEP_REGISTRY t) due.*1)).

Record SleepFuture := mkSleep { wake_tick : Z; registered : bool }.

Definition sleep_new (t : timer) (duration_ms : Z) : SleepFuture := mkSleep (TICKS t +w duration_ms) false.

(** Whether the sleep is over. *)
Definition poll (t : timer) (f : SleepFuture) (waker : Z) : bool * SleepFuture * timer :=
  if TICKS t >=? wake_tick f then (true, f, t)
  else if registered f then (false, f, t)
  else (false, mkSleep (wake_tick f) true, mkTimer (TICKS t) (<[wake_tick f := waker]> (SLEEP_REGISTRY t))).

Definition drop_sleep (t : timer) (f : SleepFuture) : timer :=
  if registered f then mkTimer (TICKS t) (delete (wake_tick f) (SLEEP_REGISTRY t)) else t.

End Timer.

(** ** interrupt_waker.rs *)

Module IntWaker.

Inductive InterruptSource := STimer | SKeyboard | SMouse | SSerial | SVirtioNet (q : Z) | SVirtioBlk (q : Z) | SNvme (q : Z) | SIrq (n : Z).

#[export] Instance interrupt_source_eq_dec : EqDecision InterruptSource.
Proof. solve_decision. Defined.

Definition from_vector (v : Z) : option InterruptSource :=
  if v =? 32 then Some STimer
  else if v =? 33 then Some SKeyboard
  else if v =? 36 then Some SSerial
  else if v =? 44 then Some SMouse
  else if (48 <=? v) && (v <=? 63) then Some (SVirtioNet (v - 48))
  else if (64 <=? v) && (v <=? 79) then Some (SVirtioBlk (v - 64))
  else if (80 <=? v) && (v <=? 95) then Some (SNvme (v - 80))
  else Some (SIrq v).

(** *** A waker shared with interrupt handlers

    The lock is in the state: an interrupt arrives between any two accesses of
    [register], also while it holds the lock. *)
Record AtomicWaker := mkAtomicWaker { has_waker : bool; waker : option Z; locked : bool; wake_requested : bool }.

Definition atomic_waker_new : AtomicWaker := mkAtomicWaker false None false false.

(** [register]: where it is between two accesses.  [Woke] is the waker it wakes at
    the end, if any. *)
Inductive reg_pc := RegLock (w : Z) | RegStore (w : Z) | RegFlag | RegSwap | RegTake | RegUnflag (w : Z) | RegUnlock (w : option Z) | RegDone (woken : option Z).

Definition set_lock (a : AtomicWaker) (b : bool) : AtomicWaker := mkAtomicWaker (has_waker a) (waker a) b (wake_requested a).
Definition set_waker (a : AtomicWaker) (w : option Z) : AtomicWaker := mkAtomicWaker (has_waker a) w (locked a) (wake_requested a).
Definition set_has (a : AtomicWaker) (b : bool) : AtomicWaker := mkAtomicWaker b (waker a) (locked a) (wake_requested a).
Definition set_requested (a : AtomicWaker) (b : bool) : AtomicWaker := mkAtomicWaker (has_waker a) (waker a) (locked a) b.

Definition register_step (a : AtomicWaker) (pc : reg_pc) : AtomicWaker * reg_pc :=
  match pc with
  | RegLock w => if locked a then (a, RegLock w) else (set_lock a true, RegStore w)
  | RegStore w =>
      if bool_decide (waker a = Some w) then (a, RegSwap) else (set_waker a (Some w), RegFlag)
  | RegFlag => (set_has a true, RegSwap)
  | RegSwap => (set_requested a false, if wake_requested a then RegTake else RegUnlock None)
  | RegTake =>
      match waker a with
      | Some w => (set_waker a None, RegUnflag w)
      | None => (a, RegUnlock None)
      end
  | RegUnflag w => (set_has a false, RegUnlock (Some w))
  | RegUnlock w => (set_lock a false, RegDone w)
  | RegDone w => (a, RegDone w)
  end.

(** [wake]: called by an interrupt handler, it runs to its end.  The task woken. *)
Definition wake (a : AtomicWaker) : option Z * AtomicWaker :=
  let pending := if has_waker a then set_requested a true else a in
  if locked a then (None, pending)
  else
    match waker a with
    | Some w => (Some w, set_has (set_waker a None) false)
    | None => (None, pending)
    end.

Definition clear (a : AtomicWaker) : AtomicWaker := mkAtomicWaker false None false false.

(** *** The registry

    [None] in the lock of the registry: nobody holds it. *)
Record Registry := mkRegistry {
  wakers : list (InterruptSource * AtomicWaker); registry_locked : bool; interrupt_count : Z; wake_count : Z }.

Definition registry_new : Registry := mkRegistry [] false 0 0.

Fixpoint find_source (s : InterruptSource) (l : list (InterruptSource * AtomicWaker)) : option AtomicWaker :=
  match l with
  | [] => None
  | (s', a) :: l' => if decide (s' = s) then Some a else find_source s l'
  end.

Fixpoint set_source (s : InterruptSource) (a : AtomicWaker) (l : list (InterruptSource * AtomicWaker)) : list (InterruptSource * AtomicWaker) :=
  match l with
  | [] => [(s, a)]
  | (s', b) :: l' => if decide (s' = s) then (s', a) :: l' else (s', b) :: set_source s a l'
  end.

(** [register] runs with interrupts between its steps only in its own machine; here
    it runs to its end. *)
Definition register_all (a : AtomicWaker) (w : Z) : AtomicWaker * option Z :=
  let '(a', pc) := Nat.iter 8 (fun s => register_step s.1 s.2) (a, RegLock w) in
  (a', match pc with RegDone r => r | _ => None end).

Definition register (r : Registry) (s : InterruptSource) (w : Z) : Registry * option Z :=
  let a := default atomic_waker_new (find_source s (wakers r)) in
  let '(a', woken) := register_all a w in
  (mkRegistry (set_source s a' (wakers r)) (registry_locked r) (interrupt_count r) (wake_count r), woken).

Definition wake_source (r : Registry) (s : InterruptSource) : Registry * option Z :=
  let r1 := mkRegistry (wakers r) (registry_locked r) (interrupt_count r +w 1) (wake_count r) in
  if registry_locked r1 then (r1, None)
  else
    match find_source s (wakers r1) with
    | Some a =>
        let '(woken, a') := wake a in
        (mkRegistry (set_source s a' (wakers r1)) (registry_locked r1) (interrupt_count r1) (wake_count r1 +w 1), woken)
    | None => (r1, None)
    end.

Fixpoint wake_each (r : Registry) (l : list InterruptSource) : Registry * list Z :=
  match l with
  | [] => (r, [])
  | s :: l' =>
      match find_source s (wakers r) with
      | Some a =>
          let '(woken, a') := wake a in
          let '(r', ws) := wake_each (mkRegistry (set_source s a' (wakers r)) (registry_locked r) (interrupt_count r) (wake_count r +w 1)) l' in
          (r', option_list woken ++ ws)
      | None => wake_each r l'
      end
  end.

Definition wake_many (r : Registry) (l : list InterruptSource) : Registry * list Z :=
  let r1 := mkRegistry (wakers r) (registry_locked r) (interrupt_count r +w Z.of_nat (length l)) (wake_count r) in
  if registry_locked r1 then (r1, []) else wake_each r1 l.

Definition unregister (r : Registry) (s : InterruptSource) : Registry :=
  mkRegistry (filter (fun x => x.1 <> s) (wakers r)) (registry_locked r) (interrupt_count r) (wake_count r).

(** *** Waiting for an interrupt *)

Record InterruptFuture := mkIntFuture { source : InterruptSource; int_registered : bool }.

Definition wait_for_interrupt (s : InterruptSource) : InterruptFuture := mkIntFuture s false.

(** Ready at the second poll, whoever caused it. *)
Definition poll (r : Registry) (f : InterruptFuture) (w : Z) : bool * InterruptFuture * Registry * option Z :=
  if int_registered f then (true, f, r, None)
  else
    let '(r', woken) := register r (source f) w in
    (false, mkIntFuture (source f) true, r', woken).

End IntWaker.

(** ** preemption.rs *)

Module Preempt.

Definition DEFAULT_TIME_SLICE : Z := 10.
Definition MIN_TIME_SLICE : Z := 1.
Definition MAX_TIME_SLICE : Z := 100.

Record PreemptionController := mkController {
  time_slice : Z; task_start_tick : Z; preemption_pending : bool; enabled : bool; forced_preemptions : Z; voluntary_yields : Z }.

Definition controller_new : PreemptionController := mkController DEFAULT_TIME_SLICE 0 false true 0 0.

Definition clamp (x lo hi : Z) : Z := if x <? lo then lo else if x >? hi then hi else x.

Definition set_time_slice (c : PreemptionController) (ticks : Z) : PreemptionController :=
  mkController (clamp ticks MIN_TIME_SLICE MAX_TIME_SLICE) (task_start_tick c) (preemption_pending c) (enabled c) (forced_preemptions c) (voluntary_yields c).
Definition set_enabled (c : PreemptionController) (b : bool) : PreemptionController :=
  mkController (time_slice c) (task_start_tick c) (preemption_pending c) b (forced_preemptions c) (voluntary_yields c).
Definition task_started (c : PreemptionController) (current_tick : Z) : PreemptionController :=
  mkController (time_slice c) current_tick false (enabled c) (forced_preemptions c) (voluntary_yields c).

Definition check_time_slice (c : PreemptionController) (current_tick : Z) : PreemptionController :=
  if negb (enabled c) then c
  else
    let elapsed := Z.max 0 (current_tick - task_start_tick c) in
    if elapsed >=? time_slice c then
      mkController (time_slice c) (task_start_tick c) true (enabled c) (forced_preemptions c +w 1) (voluntary_yields c)
    else c.

Definition should_preempt (c : PreemptionController) : bool := preemption_pending c.
Definition clear_preemption (c : PreemptionController) : PreemptionController :=
  mkController (time_slice c) (task_start_tick c) false (enabled c) (forced_preemptions c) (voluntary_yields c).
Definition record_voluntary_yield (c : PreemptionController) : PreemptionController :=
  mkController (time_slice c) (task_start_tick c) (preemption_pending c) (enabled c) (forced_preemptions c) (voluntary_yields c +w 1).

(** The statics of the module. *)
Record preempt := mkPreempt { CONTROLLER : PreemptionController; PREEMPTION_PENDING : bool; YIELD_REQUESTED : bool }.

Definition preempt_new : preempt := mkPreempt controller_new false false.

Definition handle_timer_tick (p : preempt) (current_tick : Z) : preempt :=
  mkPreempt (check_time_slice (CONTROLLER p) current_tick) (PREEMPTION_PENDING p) (YIELD_REQUESTED p).

Definition decrement_time_slice (p : preempt) : preempt :=
  let c := CONTROLLER p in
  if time_slice c >? 0 then
    mkPreempt (mkController (time_slice c -w 1) (task_start_tick c) (preemption_pending c) (enabled c) (forced_preemptions c) (voluntary_yields c))
      (PREEMPTION_PENDING p) (YIELD_REQUESTED p)
  else p.

Definition request_yield (p : preempt) : preempt := mkPreempt (CONTROLLER p) (PREEMPTION_PENDING p) true.
Definition set_preemption_pending (p : preempt) : preempt := mkPreempt (CONTROLLER p) true (YIELD_REQUESTED p).
Definition clear_preemption_pending (p : preempt) : preempt := mkPreempt (CONTROLLER p) false (YIELD_REQUESTED p).
Definition check_and_clear_yield_request (p : preempt) : bool * preempt :=
  (YIELD_REQUESTED p, mkPreempt (CONTROLLER p) (PREEMPTION_PENDING p) false).
Definition notify_task_started (p : preempt) (tick : Z) : preempt :=
  mkPreempt (task_started (CONTROLLER p) tick) (PREEMPTION_PENDING p) (YIELD_REQUESTED p).

(** The request is dropped and the task goes on. *)
Definition yield_point (p : preempt) : preempt :=
  if should_preempt (CONTROLLER p) then mkPreempt (clear_preemption (CONTROLLER p)) (PREEMPTION_PENDING p) (YIELD_REQUESTED p) else p.

Definition voluntary_yield (p : preempt) : preempt :=
  mkPreempt (record_voluntary_yield (CONTROLLER p)) (PREEMPTION_PENDING p) (YIELD_REQUESTED p).

(** [YieldNow]: ready at the second poll; the first one wakes the task itself. *)
Definition poll_yield (p : preempt) (yielded : bool) : bool * bool * preempt :=
  if yielded then (true, true, p) else (false, true, voluntary_yield p).

Record CpuTimeTracker := mkTracker { total_ticks : Z; last_start : Z; run_count : Z }.

Definition tracker_new : CpuTimeTracker := mkTracker 0 0 0.
Definition tracker_start (t : CpuTimeTracker) (tick : Z) : CpuTimeTracker := mkTracker (total_ticks t) tick (run_count t +w 1).
Definition tracker_stop (t : CpuTimeTracker) (tick : Z) : CpuTimeTracker :=
  mkTracker (total_ticks t +w Z.max 0 (tick - last_start t)) (last_start t) (run_count t).
Definition average_run_time (t : CpuTimeTracker) : Z := if run_count t >? 0 then total_ticks t / run_count t else 0.

Record AdaptiveTimeSlice := mkAdaptive { base_slice : Z; adjustment : Z }.

Definition adaptive_new : AdaptiveTimeSlice := mkAdaptive DEFAULT_TIME_SLICE 100.
Definition adjust (a : AdaptiveTimeSlice) (average : Z) : AdaptiveTimeSlice :=
  mkAdaptive (base_slice a) (if average <? 1 then 50 else if average <? 5 then 75 else if average >? 20 then 150 else 100).
Definition get_time_slice (a : AdaptiveTimeSlice) : Z :=
  clamp ((base_slice a *w adjustment a) / 100) MIN_TIME_SLICE MAX_TIME_SLICE.

End Preempt.

(** ** The timer interrupt (interrupts/mod.rs) *)

Module TimerInterrupt.
Import Timer Preempt.

Record clock := mkClock { TIMER_TICKS : Z; TIMER_EVENT_PENDING : bool; sleepers : timer; slices : preempt; registry : IntWaker.Registry }.

Definition clock_new : clock := mkClock 0 false timer_new preempt_new IntWaker.registry_new.

(** The tasks woken and the state afterwards. *)
Definition timer_interrupt_handler (c : clock) : list Z * clock :=
  let p1 := decrement_time_slice (slices c) in
  let '(r, woken) := IntWaker.wake_source (registry c) IntWaker.STimer in
  let p2 := if should_preempt (CONTROLLER p1) then set_preemption_pending p1 else p1 in
  (option_list woken, mkClock (TIMER_TICKS c +w 1) true (sleepers c) p2 r).

Definition poll_timer_events (c : clock) : list Z * clock :=
  if TIMER_EVENT_PENDING c then
    let '(w1, t1) := handle_timer_interrupt (sleepers c) in
    let p1 := handle_timer_tick (slices c) (TIMER_TICKS c) in
    let '(r, w2) := IntWaker.wake_source (registry c) IntWaker.STimer in
    let '(w3, t2) := handle_timer_interrupt t1 in
    let p2 := if PREEMPTION_PENDING p1 then request_yield p1 else p1 in
    (w1 ++ option_list w2 ++ w3, mkClock (TIMER_TICKS c) false t2 p2 r)
  else ([], c).

End TimerInterrupt.

(** ** The queue of task numbers (executor.rs) *)

Module TaskQueue.

Definition QUEUE_SIZE : Z := 1024.
Definition EMPTY_SLOT : Z := u64_max.

Record queue := mkQueue { buffer : list Z; head : Z; tail : Z }.

Definition queue_new : queue := mkQueue (replicate (Z.to_nat QUEUE_SIZE) EMPTY_SLOT) 0 0.

Definition slot (i : Z) : nat := Z.to_nat (i mod QUEUE_SIZE).

Inductive push_pc := PushLoadTail (v : Z) | PushLoadHead (v t : Z) | PushCas (v t : Z) | PushStore (v t : Z) | PushDone (ok : bool).
Inductive pop_pc := PopLoadHead | PopLoadTail (h : Z) | PopLoadSlot (h : Z) | PopCas (h v : Z) | PopStore (h v : Z) | PopDone (r : option Z).

(** One access of [push]. *)
Definition push_step (q : queue) (pc : push_pc) : outcome (queue * push_pc) :=
  match pc with
  | PushLoadTail v => Ret (q, PushLoadHead v (tail q))
  | PushLoadHead v t => Ret (q, if (t -w head q) >=? QUEUE_SIZE then PushDone false else PushCas v t)
  | PushCas v t => Ret (if tail q =? t then (mkQueue (buffer q) (head q) (t +w 1), PushStore v t) else (q, PushLoadTail v))
  | PushStore v t => let! b := index_set (buffer q) (slot t) v in Ret (mkQueue b (head q) (tail q), PushDone true)
  | PushDone ok => Ret (q, PushDone ok)
  end.

(** One access of [pop]. *)
Definition pop_step (q : queue) (pc : pop_pc) : outcome (queue * pop_pc) :=
  match pc with
  | PopLoadHead => Ret (q, PopLoadTail (head q))
  | PopLoadTail h => Ret (q, if h =? tail q then PopDone None else PopLoadSlot h)
  | PopLoadSlot h => let! v := index (buffer q) (slot h) in Ret (q, if v =? EMPTY_SLOT then PopLoadHead else PopCas h v)
  | PopCas h v => Ret (if head q =? h then (mkQueue (buffer q) (h +w 1) (tail q), PopStore h v) else (q, PopLoadHead))
  | PopStore h v => let! b := index_set (buffer q) (slot h) EMPTY_SLOT in Ret (mkQueue b (head q) (tail q), PopDone (Some v))
  | PopDone r => Ret (q, PopDone r)
  end.

(** A call alone, with as many accesses as [fuel]. *)
Fixpoint push_run (fuel : nat) (q : queue) (pc : push_pc) : outcome (queue * push_pc) :=
  match fuel with
  | O => Ret (q, pc)
  | S fuel' => let! (q', pc') := push_step q pc in push_run fuel' q' pc'
  end.
Fixpoint pop_run (fuel : nat) (q : queue) (pc : pop_pc) : outcome (queue * pop_pc) :=
  match fuel with
  | O => Ret (q, pc)
  | S fuel' => let! (q', pc') := pop_step q pc in pop_run fuel' q' pc'
  end.

Definition is_empty (q : queue) : bool := head q =? tail q.
Definition len (q : queue) : Z := tail q -w head q.

End TaskQueue.

(** ** The executor (executor.rs, mod.rs) *)

Module Exec.

Definition MAX_CPUS : nat := 64.
Definition QUEUE_SIZE : nat := 1024.

Section Exec.
(** Futures, as far as the executor sees them. *)
Context {F : Type}.

Record Task := mkTask { task_id : Z; future : F }.

(** What a future does while it is polled: wake a task, spawn one. *)
Inductive effect := Wake (id : Z) | Spawn (f : F).

Context (poll_future : F -> bool * F * list effect).

Record PerCoreTaskStore := mkStore { tasks : gmap Z Task; active : bool; task_count : Z }.

Definition store_new : PerCoreTaskStore := mkStore ∅ false 0.

Definition store_insert (s : PerCoreTaskStore) (id : Z) (t : Task) : PerCoreTaskStore :=
  mkStore (<[id := t]> (tasks s)) (active s) (task_count s +w 1).

Definition store_remove (s : PerCoreTaskStore) (id : Z) : option Task * PerCoreTaskStore :=
  match tasks s !! id with
  | Some t => (Some t, mkStore (delete id (tasks s)) (active s) (task_count s -w 1))
  | None => (None, mkStore (delete id (tasks s)) (active s) (task_count s))
  end.

Definition steal_one (s : PerCoreTaskStore) : option (Z * Task) * PerCoreTaskStore :=
  match entries (tasks s) with
  | (id, t) :: _ => (Some (id, t), mkStore (delete id (tasks s)) (active s) (task_count s -w 1))
  | [] => (None, s)
  end.

Record ExecutorStats := mkExecStats {
  tasks_spawned : Z; tasks_completed : Z; wakeups : Z; poll_cycles : Z; global_fetches : Z; idle_cycles : Z; steals : Z }.

(** The statics: the queues are used call by call. *)
Record shared := mkShared {
  GLOBAL_QUEUE : list Z; WAKE_QUEUE : list Z; PER_CORE_STORES : list PerCoreTaskStore; TASK_STORE : gmap Z Task;
  EXECUTOR_STATS : ExecutorStats; ACTIVE_CPU_COUNT : Z; NEXT_ID : Z }.

Definition shared_new : shared :=
  mkShared [] [] (replicate MAX_CPUS store_new) ∅ (mkExecStats 0 0 0 0 0 0 0) 1 0.

(** [push] of a queue: a full queue refuses. *)
Definition enqueue (q : list Z) (id : Z) : list Z := if (QUEUE_SIZE <=? length q)%nat then q else q ++ [id].

Definition set_global (s : shared) (q : list Z) : shared :=
  mkShared q (WAKE_QUEUE s) (PER_CORE_STORES s) (TASK_STORE s) (EXECUTOR_STATS s) (ACTIVE_CPU_COUNT s) (NEXT_ID s).
Definition set_wake (s : shared) (q : list Z) : shared :=
  mkShared (GLOBAL_QUEUE s) q (PER_CORE_STORES s) (TASK_STORE s) (EXECUTOR_STATS s) (ACTIVE_CPU_COUNT s) (NEXT_ID s).
Definition set_stores (s : shared) (l : list PerCoreTaskStore) : shared :=
  mkShared (GLOBAL_QUEUE s) (WAKE_QUEUE s) l (TASK_STORE s) (EXECUTOR_STATS s) (ACTIVE_CPU_COUNT s) (NEXT_ID s).
Definition set_legacy (s : shared) (m : gmap Z Task) : shared :=
  mkShared (GLOBAL_QUEUE s) (WAKE_QUEUE s) (PER_CORE_STORES s) m (EXECUTOR_STATS s) (ACTIVE_CPU_COUNT s) (NEXT_ID s).
Definition set_stats (s : shared) (st : ExecutorStats) : shared :=
  mkShared (GLOBAL_QUEUE s) (WAKE_QUEUE s) (PER_CORE_STORES s) (TASK_STORE s) st (ACTIVE_CPU_COUNT s) (NEXT_ID s).
Definition set_next_id (s : shared) (n : Z) : shared :=
  mkShared (GLOBAL_QUEUE s) (WAKE_QUEUE s) (PER_CORE_STORES s) (TASK_STORE s) (EXECUTOR_STATS s) (ACTIVE_CPU_COUNT s) n.

Definition count_spawned (st : ExecutorStats) : ExecutorStats :=
  mkExecStats (tasks_spawned st +w 1) (tasks_completed st) (wakeups st) (poll_cycles st) (global_fetches st) (idle_cycles st) (steals st).
Definition count_completed (st : ExecutorStats) : ExecutorStats :=
  mkExecStats (tasks_spawned st) (tasks_completed st +w 1) (wakeups st) (poll_cycles st) (global_fetches st) (idle_cycles st) (steals st).
Definition count_wakeup (st : ExecutorStats) : ExecutorStats :=
  mkExecStats (tasks_spawned st) (tasks_completed st) (wakeups st +w 1) (poll_cycles st) (global_fetches st) (idle_cycles st) (steals st).
Definition count_polls (st : ExecutorStats) (n : Z) : ExecutorStats :=
  mkExecStats (tasks_spawned st) (tasks_completed st) (wakeups st) (poll_cycles st +w n) (global_fetches st) (idle_cycles st) (steals st).
Definition count_fetches (st : ExecutorStats) (n : Z) : ExecutorStats :=
  mkExecStats (tasks_spawned st) (tasks_completed st) (wakeups st) (poll_cycles st) (global_fetches st +w n) (idle_cycles st) (steals st).
Definition count_idle (st : ExecutorStats) : ExecutorStats :=
  mkExecStats (tasks_spawned st) (tasks_completed st) (wakeups st) (poll_cycles st) (global_fetches st) (idle_cycles st +w 1) (steals st).
Definition count_steal (st : ExecutorStats) : ExecutorStats :=
  mkExecStats (tasks_spawned st) (tasks_completed st) (wakeups st) (poll_cycles st) (global_fetches st) (idle_cycles st) (steals st +w 1).

Definition register_cpu (s : shared) (cpu : nat) : shared :=
  match PER_CORE_STORES s !! cpu with
  | Some st =>
      mkShared (GLOBAL_QUEUE s) (WAKE_QUEUE s) (<[cpu := mkStore (tasks st) true (task_count st)]> (PER_CORE_STORES s)) (TASK_STORE s)
        (EXECUTOR_STATS s) (ACTIVE_CPU_COUNT s +w 1) (NEXT_ID s)
  | None => s
  end.

Definition wake_task (s : shared) (id : Z) : shared :=
  let s1 := set_wake s (enqueue (WAKE_QUEUE s) id) in
  set_stats s1 (count_wakeup (EXECUTOR_STATS s1)).

(** [Task::new] *)
Definition task_new (s : shared) (f : F) : Task * shared := (mkTask (NEXT_ID s) f, set_next_id s (NEXT_ID s +w 1)).

Definition with_store (s : shared) (cpu : nat) (k : PerCoreTaskStore -> PerCoreTaskStore) : outcome shared :=
  let! st := index (PER_CORE_STORES s) cpu in Ret (set_stores s (<[cpu := k st]> (PER_CORE_STORES s))).

Definition spawn_on_cpu (s : shared) (t : Task) (cpu : nat) : outcome shared :=
  let target_cpu := if (cpu <? MAX_CPUS)%nat then cpu else O in
  let! s1 := with_store s target_cpu (fun st => store_insert st (task_id t) t) in
  let s2 := set_global s1 (enqueue (GLOBAL_QUEUE s1) (task_id t)) in
  Ret (set_stats s2 (count_spawned (EXECUTOR_STATS s2))).

Definition spawn_global (s : shared) (t : Task) : outcome shared :=
  let! s1 := with_store s O (fun st => store_insert st (task_id t) t) in
  let s2 := set_global s1 (enqueue (GLOBAL_QUEUE s1) (task_id t)) in
  Ret (set_stats s2 (count_spawned (EXECUTOR_STATS s2))).

(** *** One executor *)

Record Executor := mkExecutor { local_queue : list Task; local_cache : list Z; cpu_id : nat; batch_size : nat }.

Definition with_cpu_id (cpu : nat) : Executor := mkExecutor [] [] cpu 32.
Definition set_queue (e : Executor) (q : list Task) : Executor := mkExecutor q (local_cache e) (cpu_id e) (batch_size e).
Definition push_back (e : Executor) (t : Task) : Executor := set_queue e (local_queue e ++ [t]).
Definition push_cache (e : Executor) (id : Z) : Executor := mkExecutor (local_queue e) (local_cache e ++ [id]) (cpu_id e) (batch_size e).

Definition spawn (s : shared) (e : Executor) (t : Task) : shared * Executor :=
  (set_stats s (count_spawned (EXECUTOR_STATS s)), push_back e t).

(** What the future did during the poll. *)
Definition run_effect (s : shared) (ef : effect) : outcome shared :=
  match ef with
  | Wake id => Ret (wake_task s id)
  | Spawn f => let '(t, s1) := task_new s f in spawn_global s1 t
  end.

(** One task is polled: a finished one is dropped, the others go to the store of
    the processor. *)
Definition poll_one (s : shared) (e : Executor) (t : Task) : outcome shared :=
  let '(ready, f', effects) := poll_future (future t) in
  let! s1 := ofold run_effect s effects in
  if ready then Ret (set_stats s1 (count_completed (EXECUTOR_STATS s1)))
  else with_store s1 (cpu_id e) (fun st => store_insert st (task_id t) (mkTask (task_id t) f')).

(** The first [n] tasks of the queue; the tasks polled. *)
Fixpoint run_batch (n : nat) (s : shared) (e : Executor) (processed : nat) : outcome (shared * Executor * nat) :=
  match n with
  | O => Ret (s, e, processed)
  | S n' =>
      match local_queue e with
      | [] => Ret (s, e, processed)
      | t :: q =>
          let! s1 := poll_one s (set_queue e q) t in
          run_batch n' s1 (set_queue e q) (S processed)
      end
  end.

(** The bound of a batch is compared after a task was polled, so at least one is. *)
Definition batch (e : Executor) : nat := Nat.max 1 (batch_size e).

Definition run_ready_tasks (s : shared) (e : Executor) : outcome (shared * Executor) :=
  let! (s1, e1, processed) := run_batch (batch e) s e O in
  Ret (if (0 <? processed)%nat then set_stats s1 (count_polls (EXECUTOR_STATS s1) (Z.of_nat processed)) else s1, e1).

(** The first store among [cpus] that has the task. *)
Fixpoint remove_from (s : shared) (cpus : list nat) (id : Z) : outcome (option Task * shared) :=
  match cpus with
  | [] => Ret (None, s)
  | c :: cs =>
      let! st := index (PER_CORE_STORES s) c in
      let '(r, st') := store_remove st id in
      let s1 := set_stores s (<[c := st']> (PER_CORE_STORES s)) in
      match r with
      | Some t => Ret (Some t, s1)
      | None => remove_from s1 cs id
      end
  end.

Definition remove_legacy (s : shared) (id : Z) : option Task * shared :=
  (TASK_STORE s !! id, set_legacy s (delete id (TASK_STORE s))).

(** The stores other than that of the executor, only active ones when asked. *)
Definition is_active (s : shared) (c : nat) : bool := from_option active false (PER_CORE_STORES s !! c).
Definition other_cpus (s : shared) (e : Executor) (only_active : bool) : list nat :=
  filter (fun c => c <> cpu_id e /\ negb only_active || is_active s c = true) (seq 0 MAX_CPUS).

(** Looks a task up in the own store, the other stores and the old store. *)
Definition find_task (s : shared) (e : Executor) (only_active : bool) (id : Z) : outcome (option Task * shared) :=
  let! (r, s1) := remove_from s [cpu_id e] id in
  match r with
  | Some t => Ret (Some t, s1)
  | None =>
      let! (r2, s2) := remove_from s1 (other_cpus s1 e only_active) id in
      match r2 with
      | Some t => Ret (Some t, s2)
      | None => Ret (remove_legacy s2 id)
      end
  end.

(** Every round takes one number out of the queue. *)
Fixpoint wake_loop (n : nat) (s : shared) (e : Executor) (woken : nat) : outcome (shared * Executor) :=
  match n with
  | O => Ret (s, e)
  | S n' =>
      match WAKE_QUEUE s with
      | [] => Ret (s, e)
      | id :: q =>
          let! (r, s1) := find_task (set_wake s q) e true id in
          let '(e1, woken1) := match r with Some t => (push_back e t, S woken) | None => (push_cache e id, woken) end in
          if (batch_size e <=? woken1)%nat then Ret (s1, e1) else wake_loop n' s1 e1 woken1
      end
  end.

Definition process_wake_queue (s : shared) (e : Executor) : outcome (shared * Executor) :=
  wake_loop (length (WAKE_QUEUE s)) s e O.

Fixpoint fetch_loop (n : nat) (s : shared) (e : Executor) (fetched : nat) : outcome (shared * Executor * nat) :=
  match n with
  | O => Ret (s, e, fetched)
  | S n' =>
      if (fetched <? batch_size e)%nat then
        match GLOBAL_QUEUE s with
        | [] => Ret (s, e, fetched)
        | id :: q =>
            let! (r, s1) := find_task (set_global s q) e false id in
            match r with
            | Some t => fetch_loop n' s1 (push_back e t) (S fetched)
            | None => fetch_loop n' s1 e fetched
            end
        end
      else Ret (s, e, fetched)
  end.

Definition fetch_from_global (s : shared) (e : Executor) : outcome (shared * Executor) :=
  let! (s1, e1, fetched) := fetch_loop (length (GLOBAL_QUEUE s)) s e O in
  Ret (if (0 <? fetched)%nat then set_stats s1 (count_fetches (EXECUTOR_STATS s1) (Z.of_nat fetched)) else s1, e1).

(** The round over the other processors, starting behind the own one. *)
Fixpoint steal_loop (cpus : list nat) (s : shared) (e : Executor) (stolen : nat) : outcome (shared * Executor) :=
  match cpus with
  | [] => Ret (s, e)
  | c :: cs =>
      if (c =? cpu_id e)%nat then steal_loop cs s e stolen
      else
        let! st := index (PER_CORE_STORES s) c in
        if negb (active st) then steal_loop cs s e stolen
        else if task_count st >? 1 then
          match steal_one st with
          | (Some (_, t), st') =>
              let s1 := set_stores s (<[c := st']> (PER_CORE_STORES s)) in
              let s2 := set_stats s1 (count_steal (EXECUTOR_STATS s1)) in
              if (batch_size e / 2 <=? S stolen)%nat then Ret (s2, push_back e t) else steal_loop cs s2 (push_back e t) (S stolen)
          | (None, st') => steal_loop cs s e stolen
          end
        else steal_loop cs s e stolen
  end.

Definition try_steal (s : shared) (e : Executor) : outcome (shared * Executor) :=
  if ACTIVE_CPU_COUNT s <=? 1 then Ret (s, e)
  else
    let start := ((cpu_id e + 1) mod MAX_CPUS)%nat in
    steal_loop ((fun i => ((start + i) mod MAX_CPUS)%nat) <$> seq 0 MAX_CPUS) s e O.

Definition idle_queues (e : Executor) : bool := bool_decide (local_queue e = []) && bool_decide (local_cache e = []).

(** One round of [run]; whether it ends by halting the processor. *)
Definition turn (s : shared) (e : Executor) : outcome (shared * Executor * bool) :=
  let! (s1, e1) := run_ready_tasks s e in
  let! (s2, e2) := process_wake_queue s1 e1 in
  let! (s3, e3) := fetch_from_global s2 e2 in
  let! (s4, e4) := (if idle_queues e3 then try_steal s3 e3 else Ret (s3, e3)) in
  if idle_queues e4 then Ret (set_stats s4 (count_idle (EXECUTOR_STATS s4)), e4, true) else Ret (s4, e4, false).

End Exec.

Arguments Task : clear implicits.
Arguments effect : clear implicits.
Arguments PerCoreTaskStore : clear implicits.
Arguments shared : clear implicits.
Arguments Executor : clear implicits.

(** *** Time-outs (mod.rs) *)

Inductive TimeoutResult (T : Type) := Completed (t : T) | TimedOut.
Arguments Completed {T} t.
Arguments TimedOut {T}.

Definition is_timed_out {T} (r : TimeoutResult T) : bool := match r with TimedOut => true | Completed _ => false end.
Definition timeout_ok {T} (r : TimeoutResult T) : option T := match r with TimedOut => None | Completed t => Some t end.

Section Timeout.
Context {F T : Type} (poll_inner : F -> option T * F).

Record TimeoutFuture := mkTimeout { inner : F; deadline : Z }.

Definition timeout_new (now : Z) (f : F) (timeout_ms : Z) : TimeoutFuture := mkTimeout f (now +w timeout_ms).

(** The deadline is looked at before the future. *)
Definition timeout_poll (now : Z) (f : TimeoutFuture) : option (TimeoutResult T) * TimeoutFuture :=
  if now >=? deadline f then (Some TimedOut, f)
  else
    let '(r, i) := poll_inner (inner f) in
    (Completed <$> r, mkTimeout i (deadline f)).

End Timeout.

End Exec.
