(* ===== verification/ExecutorTheorems.v ===== *)
(** * Theorems of the executor

    Every task is in exactly one place: the queue of its executor, the store of a
    processor or the old store.  A round of the executor moves tasks between them,
    adds the spawned ones and drops the finished ones; a woken task of the own
    processor is queued; a wake-up that finds no task keeps the executor from ever
    idling or stealing. *)

From stdpp Require Import base list gmap sorting.
From Stdlib Require Import ZArith Lia.
From S2P Require Import Prelude OrderedMap Async.

Import Exec.
Local Open Scope Z_scope.

Section ExecutorSpec.
Context {F : Type} (poll_future : F -> bool * F * list (effect F)).
Implicit Types (s : shared F) (e : Executor F) (st : PerCoreTaskStore F) (t : Task F).

(** ** Where the tasks are *)

Definition store_ids st : list Z := (map_to_list (tasks st)).*1.
Definition stores_ids (l : list (PerCoreTaskStore F)) : list Z := l ≫= store_ids.
Definition legacy_ids s : list Z := (map_to_list (TASK_STORE s)).*1.
Definition ids s e : list Z := (task_id <$> local_queue e) ++ stores_ids (PER_CORE_STORES s) ++ legacy_ids s.

Lemma elem_store_ids st id : id ∈ store_ids st <-> is_Some (tasks st !! id).
Proof.
  unfold store_ids. rewrite list_elem_of_fmap. split.
  - intros ([k t] & -> & H%elem_of_map_to_list). by exists t.
  - intros [t H]. exists (id, t). split; [done | by apply elem_of_map_to_list].
Qed.

Lemma stores_ids_split (l : list (PerCoreTaskStore F)) c st st' :
  l !! c = Some st -> exists rest, stores_ids l ≡ₚ store_ids st ++ rest /\ stores_ids (<[c := st']> l) ≡ₚ store_ids st' ++ rest.
Proof.
  intros Hc. exists (stores_ids (take c l) ++ stores_ids (drop (S c) l)). unfold stores_ids.
  rewrite insert_take_drop by (by apply lookup_lt_Some in Hc). rewrite <- (take_drop_middle l c st Hc) at 1.
  rewrite !bind_app, !bind_cons. split; solve_Permutation.
Qed.

Lemma store_insert_ids st id t : tasks st !! id = None -> store_ids (store_insert st id t) ≡ₚ id :: store_ids st.
Proof. intros H. unfold store_ids. cbn. by rewrite map_to_list_insert. Qed.

Lemma store_delete_ids st id t st' : tasks st !! id = Some t -> tasks st' = delete id (tasks st) -> store_ids st ≡ₚ id :: store_ids st'.
Proof.
  intros H E. unfold store_ids. rewrite E, <- (map_to_list_delete (tasks st) id t H). done.
Qed.

(** ** The invariant *)

Record sane s e : Prop := {
  sa_stores : length (PER_CORE_STORES s) = MAX_CPUS;
  sa_cpu : (cpu_id e < MAX_CPUS)%nat;
  sa_unique : NoDup (ids s e);
  sa_old : forall id, id ∈ ids s e -> 0 <= id < NEXT_ID s;
  sa_next : 0 <= NEXT_ID s < u64_modulus;
  sa_own : forall c st id t, PER_CORE_STORES s !! c = Some st -> tasks st !! id = Some t -> task_id t = id;
  sa_legacy : forall id t, TASK_STORE s !! id = Some t -> task_id t = id }.

Definition done_count s : Z := tasks_completed (EXECUTOR_STATS s).

(** Tasks [d] finished, the numbers from [NEXT_ID] on were given to new tasks, all
    other tasks are still there. *)
Record moves s e s' e' (d : list Z) : Prop := {
  mv_sane : sane s' e';
  mv_next : NEXT_ID s <= NEXT_ID s';
  mv_ids : ids s' e' ++ d ≡ₚ ids s e ++ seqZ (NEXT_ID s) (NEXT_ID s' - NEXT_ID s);
  mv_done : done_count s' = wrap64 (done_count s + Z.of_nat (length d));
  mv_batch : batch_size e' = batch_size e }.

Lemma moves_trans s e s1 e1 d1 s2 e2 d2 :
  moves s e s1 e1 d1 -> moves s1 e1 s2 e2 d2 -> moves s e s2 e2 (d1 ++ d2).
Proof.
  intros [A1 A2 A3 A4 A5] [B1 B2 B3 B4 B5]. split; [done | lia | | | congruence].
  - assert (E : seqZ (NEXT_ID s) (NEXT_ID s2 - NEXT_ID s) = seqZ (NEXT_ID s) (NEXT_ID s1 - NEXT_ID s) ++ seqZ (NEXT_ID s1) (NEXT_ID s2 - NEXT_ID s1)).
    { replace (NEXT_ID s2 - NEXT_ID s) with ((NEXT_ID s1 - NEXT_ID s) + (NEXT_ID s2 - NEXT_ID s1)) by lia.
      rewrite seqZ_app by lia. by replace (NEXT_ID s + (NEXT_ID s1 - NEXT_ID s)) with (NEXT_ID s1) by lia. }
    rewrite E. set (B := seqZ (NEXT_ID s1) (NEXT_ID s2 - NEXT_ID s1)) in *. transitivity ((ids s1 e1 ++ d1) ++ B).
    + transitivity ((ids s2 e2 ++ d2) ++ d1); [solve_Permutation|]. rewrite B3. solve_Permutation.
    + rewrite A3. by rewrite app_assoc.
  - rewrite B4, A4, length_app, Nat2Z.inj_add. unfold wrap64. rewrite Zplus_mod_idemp_l. f_equal. lia.
Qed.

(** A step that finishes and spawns nothing. *)
Lemma moves_quiet s e s' e' :
  sane s' e' -> NEXT_ID s' = NEXT_ID s -> ids s' e' ≡ₚ ids s e -> done_count s' = done_count s -> is_u64 (done_count s) ->
  batch_size e' = batch_size e -> moves s e s' e' [].
Proof.
  intros H1 H2 H3 H4 Hu H5. split; [done | lia | | | done].
  - rewrite H2, Z.sub_diag, app_nil_r. cbn. by rewrite app_nil_r.
  - cbn. rewrite Z.add_0_r, H4. symmetry. by apply wrap64_small.
Qed.

(** The parts of the state the tasks are in. *)
Lemma ids_ext s e s' e' :
  local_queue e' = local_queue e -> PER_CORE_STORES s' = PER_CORE_STORES s -> TASK_STORE s' = TASK_STORE s -> ids s' e' = ids s e.
Proof. intros H1 H2 H3. unfold ids, legacy_ids. by rewrite H1, H2, H3. Qed.

Lemma sane_ext s e s' e' :
  sane s e -> local_queue e' = local_queue e -> cpu_id e' = cpu_id e -> PER_CORE_STORES s' = PER_CORE_STORES s ->
  TASK_STORE s' = TASK_STORE s -> NEXT_ID s' = NEXT_ID s -> sane s' e'.
Proof.
  intros [A1 A2 A3 A4 A5 A6 A7] H1 H2 H3 H4 H5. pose proof (ids_ext s e s' e' H1 H3 H4) as E.
  split; rewrite ?E, ?H2, ?H3, ?H4, ?H5; done.
Qed.

(** ** A task taken out of a store *)

Lemma in_store s e c st id t :
  PER_CORE_STORES s !! c = Some st -> tasks st !! id = Some t -> id ∈ stores_ids (PER_CORE_STORES s).
Proof.
  intros Hc Ht. unfold stores_ids. apply list_elem_of_bind. exists st. split; [by apply elem_store_ids; exists t|].
  by apply list_elem_of_lookup_2 in Hc.
Qed.

(** The task goes from its store to the end of the queue. *)
Lemma take_from_store s e c st id t st' s' :
  sane s e -> PER_CORE_STORES s !! c = Some st -> tasks st !! id = Some t -> tasks st' = delete id (tasks st) ->
  PER_CORE_STORES s' = <[c := st']> (PER_CORE_STORES s) -> TASK_STORE s' = TASK_STORE s -> NEXT_ID s' = NEXT_ID s ->
  sane s' (push_back e t) /\ ids s' (push_back e t) ≡ₚ ids s e.
Proof.
  intros H Hc Ht Hd Hs Hl Hn. pose proof (sa_own _ _ H c st id t Hc Ht) as Hid.
  assert (Hp : ids s' (push_back e t) ≡ₚ ids s e).
  { unfold ids, legacy_ids. rewrite Hl, Hs. cbn [local_queue push_back set_queue]. rewrite fmap_app. cbn. rewrite Hid.
    destruct (stores_ids_split (PER_CORE_STORES s) c st st' Hc) as (rest & -> & ->).
    rewrite (store_delete_ids st id t st' Ht Hd). solve_Permutation. }
  split; [|done]. destruct H as [A1 A2 A3 A4 A5 A6 A7]. split; rewrite ?Hs, ?Hl, ?Hn.
  - by rewrite length_insert.
  - done.
  - by rewrite Hp.
  - intros i Hi. rewrite Hp in Hi. by apply A4.
  - done.
  - intros c' st2 i t2 Hc' Ht2. destruct (decide (c' = c)) as [->|Hne].
    + rewrite list_lookup_insert_eq in Hc' by (by apply lookup_lt_Some in Hc). injection Hc' as <-.
      rewrite Hd in Ht2. apply lookup_delete_Some in Ht2 as [_ Ht2]. by apply (A6 c st).
    + rewrite list_lookup_insert_ne in Hc' by done. by apply (A6 c' st2).
  - done.
Qed.

Lemma take_from_legacy s e id t :
  sane s e -> TASK_STORE s !! id = Some t ->
  let s' := set_legacy s (delete id (TASK_STORE s)) in sane s' (push_back e t) /\ ids s' (push_back e t) ≡ₚ ids s e.
Proof.
  intros H Ht s'. pose proof (sa_legacy _ _ H id t Ht) as Hid.
  assert (Hp : ids s' (push_back e t) ≡ₚ ids s e).
  { unfold ids, legacy_ids. cbn [local_queue push_back set_queue PER_CORE_STORES TASK_STORE s' set_legacy]. rewrite fmap_app. cbn. rewrite Hid.
    rewrite <- (map_to_list_delete (TASK_STORE s) id t Ht). cbn. solve_Permutation. }
  split; [|done]. destruct H as [A1 A2 A3 A4 A5 A6 A7]. split; try done.
  - by rewrite Hp.
  - intros i Hi. rewrite Hp in Hi. by apply A4.
  - intros i t2. cbn. rewrite lookup_delete_Some. intros [_ Hi]. by apply A7.
Qed.

(** A store that does not have the task is as it was. *)
Lemma store_remove_absent st id : tasks st !! id = None -> (store_remove st id) = (None, st).
Proof. intros H. unfold store_remove. rewrite H. rewrite delete_id by done. by destruct st. Qed.

(** Everything but the stores is as it was. *)
Record same_rest s s' : Prop := {
  sr_wake : WAKE_QUEUE s' = WAKE_QUEUE s;
  sr_global : GLOBAL_QUEUE s' = GLOBAL_QUEUE s;
  sr_stats : EXECUTOR_STATS s' = EXECUTOR_STATS s;
  sr_next : NEXT_ID s' = NEXT_ID s;
  sr_active : ACTIVE_CPU_COUNT s' = ACTIVE_CPU_COUNT s }.

(** [remove_from]: the task of the first store that has it. *)
Lemma remove_from_spec s e cpus id :
  sane s e -> Forall (fun c => (c < MAX_CPUS)%nat) cpus ->
  exists r s', remove_from s cpus id = Ret (r, s') /\ same_rest s s' /\
    match r with
    | Some t => task_id t = id /\ sane s' (push_back e t) /\ ids s' (push_back e t) ≡ₚ ids s e
    | None => s' = s /\ forall c st, c ∈ cpus -> PER_CORE_STORES s !! c = Some st -> tasks st !! id = None
    end.
Proof.
  intros H Hc. induction cpus as [|c cpus IH]; cbn [remove_from].
  { exists None, s. split; [done|]. split; [done|]. split; [done|]. by intros c st ?%elem_of_nil. }
  apply Forall_cons in Hc as [Hc Hcs]. destruct (lookup_lt_is_Some_2 (PER_CORE_STORES s) c) as [st Hst]; [by rewrite (sa_stores _ _ H)|].
  unfold index. rewrite Hst. cbn [obind]. destruct (tasks st !! id) as [t|] eqn:Ht.
  - unfold store_remove. rewrite Ht.
    destruct (take_from_store s e c st id t (mkStore (delete id (tasks st)) (active st) (task_count st -w 1))
      (set_stores s (<[c := mkStore (delete id (tasks st)) (active st) (task_count st -w 1)]> (PER_CORE_STORES s))) H Hst Ht) as [Hs Hi]; try done.
    eexists (Some t), _. split; [done|]. split; [done|]. split; [by apply (sa_own _ _ H c st)|]. by split.
  - rewrite (store_remove_absent st id Ht). rewrite list_insert_id by done.
    assert (E : set_stores s (PER_CORE_STORES s) = s) by (by destruct s). rewrite E.
    destruct (IH Hcs) as (r & s' & Er & H1 & Hr). exists r, s'. rewrite Er. split; [done|]. split; [done|].
    destruct r; [done|]. destruct Hr as [-> Hr]. split; [done|]. intros c' st' [->|Hin]%elem_of_cons Hst'; [congruence | by eapply Hr].
Qed.

(** [find_task]: the task with the number, wherever the executor looks. *)
Lemma find_task_spec s e b id :
  sane s e ->
  exists r s', find_task s e b id = Ret (r, s') /\ same_rest s s' /\
    match r with
    | Some t => task_id t = id /\ sane s' (push_back e t) /\ ids s' (push_back e t) ≡ₚ ids s e
    | None => sane s' e /\ ids s' e ≡ₚ ids s e /\ PER_CORE_STORES s' = PER_CORE_STORES s /\
        forall st, PER_CORE_STORES s !! cpu_id e = Some st -> tasks st !! id = None
    end.
Proof.
  intros H. unfold find_task.
  destruct (remove_from_spec s e [cpu_id e] id H) as (r1 & s1 & -> & A1 & Hr1); [constructor; [apply H | done]|].
  cbn [obind]. destruct r1 as [t|]; [by exists (Some t), s1|]. destruct Hr1 as [-> Hown].
  destruct (remove_from_spec s e (other_cpus s e b) id H) as (r2 & s2 & -> & B1 & Hr2).
  { apply Forall_forall. intros c [_ Hc]%list_elem_of_filter. apply elem_of_seq in Hc. lia. }
  cbn [obind]. destruct r2 as [t|]; [by exists (Some t), s2|]. destruct Hr2 as [-> _].
  unfold remove_legacy. destruct (TASK_STORE s !! id) as [t|] eqn:Ht.
  - destruct (take_from_legacy s e id t H Ht) as [Hs Hi]. eexists (Some t), _. split; [done|].
    split; [done|]. split; [by apply (sa_legacy _ _ H)|]. by split.
  - eexists None, _. split; [done|]. rewrite delete_id by done.
    assert (E : set_legacy s (TASK_STORE s) = s) by (by destruct s). rewrite E. split; [done|]. split; [done|]. split; [done|]. split; [done|].
    intros st Hst. eapply Hown; [|done]. apply list_elem_of_here.
Qed.

(** ** Steps that only move tasks to the queue *)

Record quiet s e s' e' : Prop := {
  q_sane : sane s' e';
  q_next : NEXT_ID s' = NEXT_ID s;
  q_ids : ids s' e' ≡ₚ ids s e;
  q_done : done_count s' = done_count s;
  q_cpu : cpu_id e' = cpu_id e;
  q_batch : batch_size e' = batch_size e;
  q_queue : exists l, local_queue e' = local_queue e ++ l;
  q_cache : exists l, local_cache e' = local_cache e ++ l }.

Lemma quiet_refl s e : sane s e -> quiet s e s e.
Proof. intros H. split; try done; exists []; by rewrite app_nil_r. Qed.

Lemma quiet_trans s e s1 e1 s2 e2 : quiet s e s1 e1 -> quiet s1 e1 s2 e2 -> quiet s e s2 e2.
Proof.
  intros [A1 A2 A3 A4 A5 A6 [l A7] [k A8]] [B1 B2 B3 B4 B5 B6 [l' B7] [k' B8]].
  split; try congruence; [by rewrite B3 | exists (l ++ l') | exists (k ++ k')]; rewrite app_assoc; congruence.
Qed.

Lemma quiet_moves s e s' e' : quiet s e s' e' -> is_u64 (done_count s) -> moves s e s' e' [].
Proof. intros H Hu. apply moves_quiet; try apply H. done. Qed.

(** A found task is queued. *)
Lemma quiet_found s s1 e t : sane s1 (push_back e t) -> ids s1 (push_back e t) ≡ₚ ids s e ->
  NEXT_ID s1 = NEXT_ID s -> EXECUTOR_STATS s1 = EXECUTOR_STATS s -> quiet s e s1 (push_back e t).
Proof.
  intros H Hi R4 R3. split; try done; [unfold done_count; by rewrite R3 | by exists [t] |].
  exists []. cbn. by rewrite app_nil_r.
Qed.

Lemma sane_cache s e id : sane s e -> sane s (push_cache e id).
Proof. intros H. by apply (sane_ext s e). Qed.

Lemma sane_set_wake s e q : sane s e -> sane (set_wake s q) e.
Proof. intros H. by apply (sane_ext s e). Qed.
Lemma sane_set_global s e q : sane s e -> sane (set_global s q) e.
Proof. intros H. by apply (sane_ext s e). Qed.

(** One number of the wake queue: the task is queued, or the number is kept. *)
Lemma wake_round s e id q :
  sane s e ->
  exists r s1, find_task (set_wake s q) e true id = Ret (r, s1) /\ WAKE_QUEUE s1 = q /\
    let e1 := match r with Some t => push_back e t | None => push_cache e id end in
    quiet s e s1 e1 /\
    (forall st, PER_CORE_STORES s !! cpu_id e = Some st -> is_Some (tasks st !! id) -> exists t, r = Some t /\ task_id t = id).
Proof.
  intros H. destruct (find_task_spec (set_wake s q) e true id (sane_set_wake s e q H)) as (r & s1 & E & R & Hr).
  exists r, s1. split; [done|]. split; [by rewrite (sr_wake _ _ R)|]. destruct r as [t|]; cbn zeta.
  - destruct Hr as (Hid & Hs & Hi). split; [|by intros; exists t]. apply quiet_found; [done | done | apply R | apply R].
  - destruct Hr as (Hs & Hi & Hst & Hno). split.
    + split; try done; [by apply sane_cache | apply R | unfold done_count; by rewrite (sr_stats _ _ R) | exists [] | by exists [id]].
      by rewrite app_nil_r.
    + intros st E1 [t E2]. by rewrite (Hno st E1) in E2.
Qed.

Lemma wake_loop_spec n s e k :
  sane s e -> exists s' e', wake_loop n s e k = Ret (s', e') /\ quiet s e s' e'.
Proof.
  revert s e k. induction n as [|n IH]; intros s e k H; cbn [wake_loop]; [exists s, e; split; [done | by apply quiet_refl]|].
  destruct (WAKE_QUEUE s) as [|id q] eqn:Hq; [exists s, e; split; [done | by apply quiet_refl]|].
  destruct (wake_round s e id q H) as (r & s1 & -> & Hq1 & Hqu & _). cbn [obind].
  destruct r as [t|]; cbn zeta iota beta in *;
    (case_if; [eexists _, _; by split|]);
    match goal with |- context [wake_loop n s1 ?e1 ?k1] => destruct (IH s1 e1 k1 (q_sane _ _ _ _ Hqu)) as (s' & e' & -> & Hq') end;
    exists s', e'; (split; [done | by apply (quiet_trans _ _ _ _ _ _ Hqu)]).
Qed.

Lemma fetch_loop_spec n s e k :
  sane s e -> exists s' e' k', fetch_loop n s e k = Ret (s', e', k') /\ quiet s e s' e'.
Proof.
  revert s e k. induction n as [|n IH]; intros s e k H; cbn [fetch_loop]; [exists s, e, k; split; [done | by apply quiet_refl]|].
  case_if; [|exists s, e, k; split; [done | by apply quiet_refl]].
  destruct (GLOBAL_QUEUE s) as [|id q] eqn:Hq; [exists s, e, k; split; [done | by apply quiet_refl]|].
  destruct (find_task_spec (set_global s q) e false id (sane_set_global s e q H)) as (r & s1 & -> & R & Hr). cbn [obind].
  destruct r as [t|].
  - destruct Hr as (_ & Hs & Hi).
    assert (Hqu : quiet s e s1 (push_back e t)) by (apply quiet_found; [done | done | apply R | apply R]).
    destruct (IH s1 (push_back e t) (S k) Hs) as (s' & e' & k' & -> & Hq'). exists s', e', k'.
    split; [done | by apply (quiet_trans _ _ _ _ _ _ Hqu)].
  - destruct Hr as (Hs & Hi & _).
    assert (Hqu : quiet s e s1 e).
    { split; try done; [apply R | unfold done_count; by rewrite (sr_stats _ _ R) | |]; exists []; by rewrite app_nil_r. }
    destruct (IH s1 e k Hs) as (s' & e' & k' & -> & Hq'). exists s', e', k'.
    split; [done | by apply (quiet_trans _ _ _ _ _ _ Hqu)].
Qed.

(** A change of the counters that are not about finished tasks. *)
Lemma quiet_stats s e s' e' (x : ExecutorStats) :
  quiet s e s' e' -> tasks_completed x = done_count s' -> quiet s e (set_stats s' x) e'.
Proof.
  intros [A1 A2 A3 A4 A5 A6 A7 A8] Hd. split; try done; [by apply (sane_ext s' e') | unfold done_count in *; cbn; congruence].
Qed.

Lemma process_wake_queue_spec s e : sane s e -> exists s' e', process_wake_queue s e = Ret (s', e') /\ quiet s e s' e'.
Proof. apply wake_loop_spec. Qed.

Lemma fetch_from_global_spec s e : sane s e -> exists s' e', fetch_from_global s e = Ret (s', e') /\ quiet s e s' e'.
Proof.
  intros H. unfold fetch_from_global. destruct (fetch_loop_spec (length (GLOBAL_QUEUE s)) s e O H) as (s' & e' & k & -> & Hq).
  cbn [obind]. eexists _, e'. split; [done|]. case_if; [by apply quiet_stats | done].
Qed.

Lemma steal_loop_spec cpus s e k :
  sane s e -> Forall (fun c => (c < MAX_CPUS)%nat) cpus ->
  exists s' e', steal_loop cpus s e k = Ret (s', e') /\ quiet s e s' e'.
Proof.
  revert s e k. induction cpus as [|c cpus IH]; intros s e k H Hc; cbn [steal_loop]; [exists s, e; split; [done | by apply quiet_refl]|].
  apply Forall_cons in Hc as [Hc Hcs]. case_if; [by apply IH|].
  destruct (lookup_lt_is_Some_2 (PER_CORE_STORES s) c) as [st Hst]; [by rewrite (sa_stores _ _ H)|].
  unfold index. rewrite Hst. cbn [obind]. destruct (negb (active st)); [by apply IH|]. case_if; [|by apply IH].
  unfold steal_one. destruct (entries (tasks st)) as [|[id t] l] eqn:Ee; [by apply IH|].
  assert (Ht : tasks st !! id = Some t) by (apply elem_of_entries; rewrite Ee; apply list_elem_of_here).
  set (st' := mkStore (delete id (tasks st)) (active st) (task_count st -w 1)).
  set (s1 := set_stores s (<[c := st']> (PER_CORE_STORES s))).
  destruct (take_from_store s e c st id t st' s1 H Hst Ht) as [Hs Hi]; try done.
  assert (Hqu : quiet s e s1 (push_back e t)) by (by apply quiet_found).
  assert (Hqu2 : quiet s e (set_stats s1 (count_steal (EXECUTOR_STATS s1))) (push_back e t)) by (by apply quiet_stats).
  case_if; [eexists _, _; by split|].
  destruct (IH (set_stats s1 (count_steal (EXECUTOR_STATS s1))) (push_back e t) (S k) (q_sane _ _ _ _ Hqu2) Hcs) as (s' & e' & -> & Hq').
  exists s', e'. split; [done | by apply (quiet_trans _ _ _ _ _ _ Hqu2)].
Qed.

Lemma try_steal_spec s e : sane s e -> exists s' e', try_steal s e = Ret (s', e') /\ quiet s e s' e'.
Proof.
  intros H. unfold try_steal. case_if; [exists s, e; split; [done | by apply quiet_refl]|]. apply steal_loop_spec; [done|].
  apply Forall_fmap, Forall_forall. intros i _. apply Nat.mod_upper_bound. done.
Qed.

(** ** Polling *)

Lemma put_in_store s e c st id t s' :
  sane s e -> PER_CORE_STORES s !! c = Some st -> id ∉ ids s e -> task_id t = id ->
  PER_CORE_STORES s' = <[c := store_insert st id t]> (PER_CORE_STORES s) -> TASK_STORE s' = TASK_STORE s ->
  NEXT_ID s <= NEXT_ID s' < u64_modulus -> 0 <= id < NEXT_ID s' ->
  sane s' e /\ ids s' e ≡ₚ id :: ids s e.
Proof.
  intros H Hc Hid Ht Hs Hl Hn Hlt.
  assert (Hno : tasks st !! id = None).
  { destruct (tasks st !! id) as [u|] eqn:E; [|done]. destruct Hid. unfold ids. rewrite !elem_of_app. right; left.
    by apply (in_store s e c st id u). }
  assert (Hp : ids s' e ≡ₚ id :: ids s e).
  { unfold ids, legacy_ids. rewrite Hs, Hl.
    destruct (stores_ids_split (PER_CORE_STORES s) c st (store_insert st id t) Hc) as (rest & -> & ->).
    rewrite (store_insert_ids st id t Hno). solve_Permutation. }
  split; [|done]. destruct H as [A1 A2 A3 A4 A5 A6 A7]. split; rewrite ?Hs, ?Hl.
  - by rewrite length_insert.
  - done.
  - rewrite Hp. by constructor.
  - intros i Hi. rewrite Hp in Hi. apply elem_of_cons in Hi as [->|Hi]; [done|]. apply A4 in Hi. lia.
  - lia.
  - intros c' st2 i u Hc' Hu. destruct (decide (c' = c)) as [->|Hne].
    + rewrite list_lookup_insert_eq in Hc' by (by apply lookup_lt_Some in Hc). injection Hc' as <-. cbn in Hu.
      rewrite lookup_insert in Hu. case_decide; [congruence | by apply (A6 c st)].
    + rewrite list_lookup_insert_ne in Hc' by done. by apply (A6 c' st2).
  - done.
Qed.

Lemma with_store_eq s e c k : sane s e -> (c < MAX_CPUS)%nat ->
  exists st, PER_CORE_STORES s !! c = Some st /\ with_store s c k = Ret (set_stores s (<[c := k st]> (PER_CORE_STORES s))).
Proof.
  intros H Hc. destruct (lookup_lt_is_Some_2 (PER_CORE_STORES s) c) as [st Hst]; [by rewrite (sa_stores _ _ H)|].
  exists st. split; [done|]. unfold with_store, index. by rewrite Hst.
Qed.

Lemma effect_spec s e ef :
  sane s e -> is_u64 (done_count s) -> NEXT_ID s + 1 < u64_modulus ->
  exists s', run_effect s ef = Ret s' /\ moves s e s' e [] /\ NEXT_ID s' <= NEXT_ID s + 1 /\ done_count s' = done_count s.
Proof.
  intros H Hu Hb. destruct ef as [id|f]; cbn [run_effect].
  - eexists. split; [done|]. split; [|split; [cbn; lia | done]]. apply moves_quiet; try done. by apply (sane_ext s e).
  - unfold task_new, spawn_global. set (s0 := set_next_id s (NEXT_ID s +w 1)).
    assert (En : NEXT_ID s0 = NEXT_ID s + 1) by (cbn; apply wrap64_small; pose proof (sa_next _ _ H); unfold is_u64; lia).
    pose proof (sa_next _ _ H) as Hn.
    destruct (lookup_lt_is_Some_2 (PER_CORE_STORES s) O) as [st Hst]; [rewrite (sa_stores _ _ H); unfold MAX_CPUS; lia|].
    unfold with_store, index. cbn [PER_CORE_STORES set_next_id s0]. rewrite Hst. cbn [obind]. eexists. split; [done|].
    set (t := mkTask (NEXT_ID s) f).
    match goal with |- moves s e ?x e [] /\ _ => set (s' := x) end.
    assert (Hnot : NEXT_ID s ∉ ids s e) by (intros Hi%(sa_old _ _ H); lia).
    assert (En' : NEXT_ID s' = NEXT_ID s + 1) by exact En.
    destruct (put_in_store s e O st (NEXT_ID s) t s' H Hst Hnot) as [Hs Hi]; try done; [lia..|].
    split; [|split; [lia | done]]. split; [done | lia | | | done].
    + replace (NEXT_ID s' - NEXT_ID s) with 1 by lia. rewrite app_nil_r, Hi.
      rewrite seqZ_cons by lia. cbn [Z.pred]. rewrite (seqZ_nil _ 0) by lia. solve_Permutation.
    + cbn. rewrite Z.add_0_r. symmetry. by apply wrap64_small.
Qed.

Lemma effects_spec s e l :
  sane s e -> is_u64 (done_count s) -> NEXT_ID s + Z.of_nat (length l) < u64_modulus ->
  exists s', ofold run_effect s l = Ret s' /\ moves s e s' e [] /\ NEXT_ID s' <= NEXT_ID s + Z.of_nat (length l) /\
    done_count s' = done_count s.
Proof.
  revert s. induction l as [|ef l IH]; intros s H Hu Hb; cbn [ofold length] in *.
  { exists s. split; [done|]. split; [by apply moves_quiet|]. split; [lia | done]. }
  destruct (effect_spec s e ef H Hu) as (s1 & -> & Hm1 & Hn1 & Hd1); [lia|]. cbn [obind].
  destruct (IH s1 (mv_sane _ _ _ _ _ Hm1)) as (s2 & -> & Hm2 & Hn2 & Hd2); [by rewrite Hd1 | lia|].
  exists s2. split; [done|]. split; [apply (moves_trans _ _ _ _ _ _ _ _ Hm1 Hm2)|]. split; [lia | congruence].
Qed.

(** The task at the front of the queue is polled. *)
Lemma poll_one_spec s e t q :
  sane s e -> is_u64 (done_count s) -> local_queue e = t :: q ->
  NEXT_ID s + Z.of_nat (length (poll_future (future t)).2) < u64_modulus ->
  exists s' d, poll_one poll_future s (set_queue e q) t = Ret s' /\ moves s e s' (set_queue e q) d /\
    NEXT_ID s' <= NEXT_ID s + Z.of_nat (length (poll_future (future t)).2) /\
    d = (if (poll_future (future t)).1.1 then [task_id t] else []).
Proof.
  intros H Hu Hq Hb. set (e0 := set_queue e q).
  assert (Hids : ids s e = task_id t :: ids s e0) by (unfold ids; by rewrite Hq).
  assert (H0 : sane s e0).
  { destruct H as [A1 A2 A3 A4 A5 A6 A7]. rewrite Hids in A3, A4. apply NoDup_cons in A3 as [_ A3].
    split; try done. intros i Hi. by apply A4, list_elem_of_further. }
  assert (Hold : 0 <= task_id t < NEXT_ID s) by (apply (sa_old _ _ H); rewrite Hids; apply list_elem_of_here).
  unfold poll_one. destruct (poll_future (future t)) as [[ready f'] efs]. cbn [fst snd] in *.
  destruct (effects_spec s e0 efs H0 Hu Hb) as (s1 & -> & Hm & Hn1 & Hd1). cbn [obind].
  pose proof (mv_next _ _ _ _ _ Hm) as Hn0. pose proof (mv_ids _ _ _ _ _ Hm) as Hp. rewrite app_nil_r in Hp.
  destruct ready.
  - eexists _, [task_id t]. split; [done|]. split; [|split; [done|done]].
    split; [by apply (sane_ext s1 e0); [apply Hm|..] | done | | unfold done_count in *; cbn; by rewrite Hd1 | done].
    rewrite Hids. cbn [NEXT_ID set_stats]. rewrite (ids_ext s1 e0) by done. rewrite Hp. solve_Permutation.
  - destruct (with_store_eq s1 e0 (cpu_id e0) (fun st => store_insert st (task_id t) (mkTask (task_id t) f')) (mv_sane _ _ _ _ _ Hm))
      as (st & Hst & ->); [apply H|].
    assert (Hnot : task_id t ∉ ids s1 e0).
    { rewrite Hp, elem_of_app. intros [Hi|Hi].
      - pose proof (sa_unique _ _ H) as Hnd. rewrite Hids in Hnd. by apply NoDup_cons in Hnd as [Hnd _].
      - apply elem_of_seqZ in Hi. lia. }
    eexists _, []. split; [done|]. split; [|split; [done|done]].
    match goal with |- moves s e ?x e0 [] => set (s' := x) end.
    destruct (put_in_store s1 e0 (cpu_id e0) st (task_id t) (mkTask (task_id t) f') s' (mv_sane _ _ _ _ _ Hm) Hst Hnot) as [Hs Hi];
      try done; [pose proof (sa_next _ _ (mv_sane _ _ _ _ _ Hm)); cbn; lia | cbn; lia|].
    split; [done | done | | unfold done_count in *; cbn; rewrite Z.add_0_r, Hd1; symmetry; by apply wrap64_small | done].
    rewrite app_nil_r, Hi, Hids. cbn [NEXT_ID set_stores s']. rewrite Hp. solve_Permutation.
Qed.

(** How many tasks a future may spawn in one poll. *)
Context (B : nat).
Hypothesis effects_bounded : forall f, (length (poll_future f).2 <= B)%nat.

Lemma run_batch_spec n s e k :
  sane s e -> is_u64 (done_count s) -> NEXT_ID s + Z.of_nat (n * B) < u64_modulus ->
  exists s' e' k' d, run_batch poll_future n s e k = Ret (s', e', k') /\ moves s e s' e' d /\
    NEXT_ID s' <= NEXT_ID s + Z.of_nat (n * B) /\ local_cache e' = local_cache e /\ cpu_id e' = cpu_id e /\
    local_queue e' = drop n (local_queue e) /\
    d = (task_id <$> filter (fun t => (poll_future (future t)).1.1 = true) (take n (local_queue e))).
Proof.
  revert s e k. induction n as [|n IH]; intros s e k H Hu Hb; cbn [run_batch].
  { exists s, e, k, []. split; [done|]. split; [by apply moves_quiet|]. by split; [lia|]. }
  destruct (local_queue e) as [|t q] eqn:Hq.
  { exists s, e, k, []. split; [done|]. split; [by apply moves_quiet|]. rewrite Hq. by split; [lia|]. }
  pose proof (effects_bounded (future t)) as Hf.
  destruct (poll_one_spec s e t q H Hu Hq) as (s1 & d1 & -> & Hm1 & Hn1 & Hd1); [lia|]. cbn [obind].
  assert (Hu1 : is_u64 (done_count s1)) by (rewrite (mv_done _ _ _ _ _ Hm1); apply wrap64_range).
  destruct (IH s1 (set_queue e q) (S k) (mv_sane _ _ _ _ _ Hm1) Hu1) as (s' & e' & k' & d2 & -> & Hm2 & Hn2 & Hc2 & Hp2 & Hl2 & Hd2); [lia|].
  exists s', e', k', (d1 ++ d2). split; [done|]. split; [by apply (moves_trans _ _ _ _ _ _ _ _ Hm1 Hm2)|].
  split; [lia|]. split; [done|]. split; [done|]. split; [done|]. cbn [take]. rewrite filter_cons.
  cbn [local_queue set_queue] in Hd2. rewrite Hd1, Hd2. destruct ((poll_future (future t)).1.1) eqn:E.
  - rewrite decide_True by done. by rewrite fmap_cons.
  - rewrite decide_False by done. done.
Qed.

Lemma run_ready_tasks_spec s e :
  sane s e -> is_u64 (done_count s) -> NEXT_ID s + Z.of_nat (batch e * B) < u64_modulus ->
  exists s' e' d, run_ready_tasks poll_future s e = Ret (s', e') /\ moves s e s' e' d /\
    local_cache e' = local_cache e /\ cpu_id e' = cpu_id e /\
    d = (task_id <$> filter (fun t => (poll_future (future t)).1.1 = true) (take (batch e) (local_queue e))).
Proof.
  intros H Hu Hb. unfold run_ready_tasks.
  destruct (run_batch_spec (batch e) s e O H Hu Hb) as (s' & e' & k & d & -> & Hm & Hn & Hc & Hp & Hl & Hd). cbn [obind].
  eexists _, e', d. split; [done|]. split; [|done]. case_if; [|done].
  destruct Hm as [M1 M2 M3 M4 M5]. split; [by apply (sane_ext s' e') | done | | done | done].
  by rewrite (ids_ext s' e').
Qed.

(** One round: what is left and what is finished is what was there and what was spawned. *)
Lemma turn_spec s e :
  sane s e -> is_u64 (done_count s) -> NEXT_ID s + Z.of_nat (batch e * B) < u64_modulus ->
  exists s' e' halted d, turn poll_future s e = Ret (s', e', halted) /\ moves s e s' e' d /\
    d = (task_id <$> filter (fun t => (poll_future (future t)).1.1 = true) (take (batch e) (local_queue e))) /\
    (exists l, local_cache e' = local_cache e ++ l) /\ halted = idle_queues e'.
Proof.
  intros H Hu Hb. unfold turn.
  destruct (run_ready_tasks_spec s e H Hu Hb) as (s1 & e1 & d & -> & M1 & C1 & P1 & Hd). cbn [obind].
  destruct (process_wake_queue_spec s1 e1 (mv_sane _ _ _ _ _ M1)) as (s2 & e2 & -> & Q2). cbn [obind].
  destruct (fetch_from_global_spec s2 e2 (q_sane _ _ _ _ Q2)) as (s3 & e3 & -> & Q3). cbn [obind].
  assert (Q4 : exists s4 e4, (if idle_queues e3 then try_steal s3 e3 else Ret (s3, e3)) = Ret (s4, e4) /\ quiet s3 e3 s4 e4).
  { destruct (idle_queues e3); [apply try_steal_spec, Q3 | exists s3, e3; split; [done | apply quiet_refl, Q3]]. }
  destruct Q4 as (s4 & e4 & -> & Q4). cbn [obind].
  pose proof (quiet_trans _ _ _ _ _ _ Q2 (quiet_trans _ _ _ _ _ _ Q3 Q4)) as Q.
  assert (Hu1 : is_u64 (done_count s1)) by (rewrite (mv_done _ _ _ _ _ M1); apply wrap64_range).
  assert (Hcache : exists l, local_cache e4 = local_cache e ++ l) by (rewrite <- C1; apply Q).
  destruct (idle_queues e4) eqn:Ei.
  - assert (Q5 : quiet s1 e1 (set_stats s4 (count_idle (EXECUTOR_STATS s4))) e4) by (by apply quiet_stats).
    eexists _, e4, true, d. split; [done|]. split; [|by rewrite Ei].
    pose proof (moves_trans _ _ _ _ _ _ _ _ M1 (quiet_moves _ _ _ _ Q5 Hu1)) as M. by rewrite app_nil_r in M.
  - exists s4, e4, false, d. split; [done|]. split; [|by rewrite Ei].
    pose proof (moves_trans _ _ _ _ _ _ _ _ M1 (quiet_moves _ _ _ _ Q Hu1)) as M. by rewrite app_nil_r in M.
Qed.

(** ** A woken task is queued *)

Definition in_own s (c : nat) (id : Z) : Prop := exists st, PER_CORE_STORES s !! c = Some st /\ is_Some (tasks st !! id).

Lemma store_remove_other st id id' : id <> id' -> tasks (store_remove st id').2 !! id = tasks st !! id.
Proof. intros H. unfold store_remove. destruct (tasks st !! id'); cbn; by rewrite lookup_delete_ne by done. Qed.

Lemma remove_from_keeps s cpus id id' r s' c :
  remove_from s cpus id' = Ret (r, s') -> id <> id' -> in_own s c id -> in_own s' c id.
Proof.
  revert s. induction cpus as [|k cpus IH]; intros s E Hne Hin; cbn [remove_from] in E; [by injection E as _ <-|].
  unfold index in E. destruct (PER_CORE_STORES s !! k) as [st|] eqn:Hk; [|done]. cbn [obind] in E.
  pose proof (store_remove_other st id id' Hne) as Ho. destruct (store_remove st id') as [r1 st'] eqn:Er. cbn [snd] in Ho.
  assert (Hin' : in_own (set_stores s (<[k := st']> (PER_CORE_STORES s))) c id).
  { destruct Hin as (st0 & Hc & Hs0). unfold in_own. cbn. destruct (decide (c = k)) as [->|Hck].
    - exists st'. rewrite list_lookup_insert_eq by (by apply lookup_lt_Some in Hk). split; [done|]. rewrite Ho. congruence.
    - exists st0. by rewrite list_lookup_insert_ne by done. }
  destruct r1; [by injection E as _ <- | by apply (IH _ E)].
Qed.

Lemma find_task_keeps s e b id id' r s' c :
  find_task s e b id' = Ret (r, s') -> id <> id' -> in_own s c id -> in_own s' c id.
Proof.
  unfold find_task. intros E Hne Hin. destruct (remove_from s [cpu_id e] id') as [[r1 s1]|] eqn:E1; try done. cbn [obind] in E.
  pose proof (remove_from_keeps _ _ _ _ _ _ c E1 Hne Hin) as H1. destruct r1; [by injection E as _ <-|].
  destruct (remove_from s1 _ id') as [[r2 s2]|] eqn:E2; try done. cbn [obind] in E.
  pose proof (remove_from_keeps _ _ _ _ _ _ c E2 Hne H1) as H2. destruct r2; [by injection E as _ <-|].
  unfold remove_legacy in E. by injection E as _ <-.
Qed.

Lemma wake_loop_queues n s e k id :
  sane s e -> n = length (WAKE_QUEUE s) -> (k + n <= batch_size e)%nat -> id ∈ WAKE_QUEUE s -> in_own s (cpu_id e) id ->
  exists s' e', wake_loop n s e k = Ret (s', e') /\ quiet s e s' e' /\ id ∈ task_id <$> local_queue e'.
Proof.
  revert s e k. induction n as [|n IH]; intros s e k H Hn Hk Hid Hown; cbn [wake_loop];
    (destruct (WAKE_QUEUE s) as [|id' q] eqn:Hq; [by apply elem_of_nil in Hid|]; try done).
  cbn in Hn. injection Hn as Hn. destruct (wake_round s e id' q H) as (r & s1 & Ef & Hq1 & Hqu & Hfound).
  rewrite Ef. cbn [obind]. cbn zeta in Hqu.
  set (e1 := match r with Some t => push_back e t | None => push_cache e id' end) in *.
  set (k1 := match r with Some _ => S k | None => k end).
  assert (E : (match r with Some t => (push_back e t, S k) | None => (push_cache e id', k) end) = (e1, k1)) by (by destruct r). rewrite E.
  assert (Hk1 : (k1 <= S k)%nat) by (unfold k1; destruct r; lia).
  destruct (decide (id' = id)) as [->|Hne].
  - assert (Hin : id ∈ task_id <$> local_queue e1).
    { destruct Hown as (st & E1 & E2). destruct (Hfound st E1 E2) as (t & Hr & Ht). subst r. unfold e1. cbn.
      rewrite fmap_app, elem_of_app. right. cbn. rewrite Ht. apply list_elem_of_here. }
    case_if; [exists s1, e1; by split|].
    destruct (wake_loop_spec n s1 e1 k1 (q_sane _ _ _ _ Hqu)) as (s' & e' & -> & Hq'). exists s', e'. split; [done|].
    split; [by apply (quiet_trans _ _ _ _ _ _ Hqu)|]. destruct (q_queue _ _ _ _ Hq') as [l ->]. rewrite fmap_app, elem_of_app. by left.
  - apply elem_of_cons in Hid as [->|Hid]; [done|]. pose proof (q_batch _ _ _ _ Hqu) as Hb.
    assert (0 < length q)%nat by (destruct q; [by apply elem_of_nil in Hid | cbn; lia]).
    rewrite (proj2 (Nat.leb_gt _ _)) by lia.
    destruct (IH s1 e1 k1 (q_sane _ _ _ _ Hqu)) as (s' & e' & -> & Hq' & Hin'); [by rewrite Hq1 | lia | by rewrite Hq1 | |].
    + rewrite (q_cpu _ _ _ _ Hqu). by apply (find_task_keeps _ _ _ _ _ _ _ _ Ef).
    + exists s', e'. split; [done|]. by split; [apply (quiet_trans _ _ _ _ _ _ Hqu)|].
Qed.

End ExecutorSpec.

(** ** The first states *)

Lemma ids_new {F} c : ids (shared_new (F := F)) (with_cpu_id c) = [].
Proof. unfold ids, stores_ids, legacy_ids. cbn. by rewrite map_to_list_empty. Qed.

Lemma sane_new {F} c : (c < MAX_CPUS)%nat -> sane (shared_new (F := F)) (with_cpu_id c).
Proof.
  intros Hc. split; try done.
  - rewrite ids_new. constructor.
  - intros id. rewrite ids_new. by intros ?%elem_of_nil.
  - intros c' st id t [-> _]%lookup_replicate. intros H. cbn in H. by rewrite lookup_empty in H.
Qed.

(** [spawn] of a new task on the executor itself. *)
Lemma sane_spawn {F} (s : shared F) e f :
  sane s e -> NEXT_ID s + 1 < u64_modulus ->
  let '(t, s1) := task_new s f in let '(s2, e2) := spawn s1 e t in sane s2 e2.
Proof.
  intros [A1 A2 A3 A4 A5 A6 A7] Hb. cbn. assert (En : NEXT_ID s +w 1 = NEXT_ID s + 1) by (apply wrap64_small; unfold is_u64; lia).
  set (s2 := set_stats _ _). set (e2 := push_back _ _).
  assert (Hp : ids s2 e2 ≡ₚ NEXT_ID s :: ids s e).
  { unfold ids, legacy_ids. cbn. rewrite fmap_app. cbn. solve_Permutation. }
  assert (En2 : NEXT_ID s2 = NEXT_ID s + 1) by exact En.
  split; try done; rewrite ?En2; try lia.
  - rewrite Hp. constructor; [|done]. intros Hi%A4. lia.
  - intros i Hi. rewrite Hp in Hi. apply elem_of_cons in Hi as [->|Hi]; [lia|]. apply A4 in Hi. lia.
Qed.

(** A future that needs so many polls, waking its task and spawning one each time. *)
Definition countdown (n : nat) : bool * nat * list (effect nat) :=
  match n with O => (true, O, []) | S k => (false, k, [Wake 0; Spawn O]) end.

Definition demo_shared : shared nat := (spawn (task_new shared_new 1%nat).2 (with_cpu_id 0) (mkTask 0 1%nat)).1.
Definition demo_executor : Executor nat := (spawn (task_new shared_new 1%nat).2 (with_cpu_id 0) (mkTask 0 1%nat)).2.

Lemma demo_sane : sane demo_shared demo_executor.
Proof. apply (sane_spawn shared_new (with_cpu_id 0) 1%nat); [apply sane_new; unfold MAX_CPUS; lia | done]. Qed.

Lemma countdown_bounded f : (length (countdown f).2 <= 2)%nat.
Proof. destruct f; cbn; lia. Qed.

(** The next state and executor of a call, for examples. *)
Definition ran {S E} (o : outcome (S * E)) (d : S * E) : S * E := match o with Ret x => x | _ => d end.

(** [demo]: a task that is not ready is in the store of its processor. *)
Definition parked : shared nat * Executor nat := ran (run_ready_tasks (fun n => (false, n, [])) demo_shared demo_executor) (demo_shared, demo_executor).

Lemma parked_sane : sane parked.1 parked.2.
Proof.
  destruct (run_ready_tasks_spec (fun n => (false, n, [] : list (effect nat))) O (fun _ => le_n _) demo_shared demo_executor demo_sane)
    as (s' & e' & d & E & M & _); [vm_compute; split; congruence | reflexivity |].
  unfold parked. rewrite E. apply M.
Qed.

(** C27: One round of an executor loses and duplicates no task.  Wherever the tasks
    are (the queue of the executor, the stores of the processors, the old store), and
    whatever the futures do while they are polled (as long as one poll makes at most
    [B] wakes and spawns), the round returns, every number is still in exactly one
    place, and the numbers there afterwards with those of the tasks that finished are
    those there before with those spawned meanwhile.  The finished ones are exactly
    the polled ones whose future said so, in order, and the counter of completed
    tasks grew by their number. *)
Theorem executor_conserves_tasks {F} (poll_future : F -> bool * F * list (effect F)) (B : nat) (s : shared F) (e : Executor F) :
  (forall f, (length (poll_future f).2 <= B)%nat) ->
  sane s e -> is_u64 (done_count s) -> NEXT_ID s + Z.of_nat (batch e * B) < u64_modulus ->
  exists s' e' halted,
    let finished := task_id <$> filter (fun t => (poll_future (future t)).1.1 = true) (take (batch e) (local_queue e)) in
    turn poll_future s e = Ret (s', e', halted) /\ sane s' e' /\ NEXT_ID s <= NEXT_ID s' /\
    ids s' e' ++ finished ≡ₚ ids s e ++ seqZ (NEXT_ID s) (NEXT_ID s' - NEXT_ID s) /\
    done_count s' = wrap64 (done_count s + Z.of_nat (length finished)).
Proof.
  intros HB H Hu Hb. destruct (turn_spec poll_future B HB s e H Hu Hb) as (s' & e' & h & d & E & M & Hd & _).
  exists s', e', h. cbn zeta. rewrite <- Hd. split; [done|]. split; [apply M|]. split; [apply M|]. split; apply M.
Qed.

Lemma executor_conserves_tasks_witness : exists s' e' halted,
  turn countdown demo_shared demo_executor = Ret (s', e', halted) /\ sane s' e'.
Proof.
  destruct (executor_conserves_tasks countdown 2 demo_shared demo_executor countdown_bounded demo_sane) as (s' & e' & h & E & Hs & _);
    [vm_compute; split; congruence | reflexivity |].
  exists s', e', h. exact (conj E Hs).
Defined.

(** A wake-up of a task that waits on the processor of the executor is never
    lost: when no more numbers are in the wake queue than one batch, [process_wake_queue]
    returns with the task in the queue of the executor. *)
Theorem woken_task_is_queued {F} (s : shared F) (e : Executor F) id :
  sane s e -> (length (WAKE_QUEUE s) <= batch_size e)%nat -> id ∈ WAKE_QUEUE s -> in_own s (cpu_id e) id ->
  exists s' e', process_wake_queue s e = Ret (s', e') /\ sane s' e' /\ ids s' e' ≡ₚ ids s e /\ id ∈ task_id <$> local_queue e'.
Proof.
  intros H Hl Hid Hown.
  destruct (wake_loop_queues (length (WAKE_QUEUE s)) s e O id H eq_refl Hl Hid Hown) as (s' & e' & E & Q & Hin).
  exists s', e'. split; [exact E|]. split; [apply Q|]. split; [apply Q | done].
Qed.

Lemma woken_task_is_queued_witness : exists s' e',
  process_wake_queue (wake_task parked.1 0) parked.2 = Ret (s', e') /\ 0 ∈ task_id <$> local_queue e'.
Proof.
  destruct (woken_task_is_queued (wake_task parked.1 0) parked.2 0) as (s' & e' & E & _ & _ & H).
  - apply (sane_ext parked.1 parked.2); [exact parked_sane | reflexivity..].
  - vm_compute. lia.
  - change (WAKE_QUEUE (wake_task parked.1 0)) with [0]. apply list_elem_of_here.
  - eexists. split; [vm_compute; reflexivity | vm_compute; eexists; reflexivity].
  - exists s', e'. exact (conj E H).
Defined.

(** A number in [local_cache] is never taken out: from then on the executor
    neither halts nor looks at the other processors, whatever the tasks do. *)
Theorem stale_wake_never_idles {F} (poll_future : F -> bool * F * list (effect F)) (B : nat) (s : shared F) (e : Executor F) :
  (forall f, (length (poll_future f).2 <= B)%nat) ->
  sane s e -> is_u64 (done_count s) -> NEXT_ID s + Z.of_nat (batch e * B) < u64_modulus ->
  local_cache e <> [] -> exists s' e', turn poll_future s e = Ret (s', e', false) /\ local_cache e' <> [].
Proof.
  intros HB H Hu Hb Hc. destruct (turn_spec poll_future B HB s e H Hu Hb) as (s' & e' & h & d & E & M & Hd & [l Hl] & Hh).
  assert (Hne : local_cache e' <> []) by (rewrite Hl; by destruct (local_cache e)).
  exists s', e'. split; [|done]. rewrite E, Hh. unfold idle_queues. rewrite (bool_decide_eq_false_2 (local_cache e' = [])) by done.
  by rewrite andb_false_r.
Qed.

(** A task woken twice before the executor looks leaves its number in the cache. *)
Definition woken_twice : shared nat * Executor nat :=
  ran (process_wake_queue (wake_task (wake_task parked.1 0) 0) parked.2) parked.

Lemma double_wake_leaves_number : local_cache woken_twice.2 = [0] /\ (task_id <$> local_queue woken_twice.2) = [0].
Proof. vm_compute. by split. Qed.

Lemma woken_twice_sane : sane woken_twice.1 woken_twice.2.
Proof.
  destruct (process_wake_queue_spec (wake_task (wake_task parked.1 0) 0) parked.2) as (s' & e' & E & Q).
  - apply (sane_ext parked.1 parked.2); [exact parked_sane | reflexivity..].
  - unfold woken_twice. rewrite E. apply Q.
Qed.

Lemma stale_wake_never_idles_witness : exists s' e',
  turn countdown woken_twice.1 woken_twice.2 = Ret (s', e', false) /\ local_cache e' <> [].
Proof.
  destruct (stale_wake_never_idles countdown 2 woken_twice.1 woken_twice.2 countdown_bounded woken_twice_sane) as (s' & e' & E & H).
  - vm_compute; split; congruence.
  - vm_compute; reflexivity.
  - vm_compute; congruence.
  - exists s', e'. exact (conj E H).
Defined.

(** Another processor looks at the wake queue while the task is being polled: the task
    is in no store, so its number goes to the cache of that processor, and the task is
    put back into the store with nobody left to wake it. *)
Lemma wake_during_poll_lost :
  let own := set_queue demo_executor [] in
  let other := ran (process_wake_queue (wake_task demo_shared 0) (with_cpu_id 1)) (demo_shared, with_cpu_id 1) in
  let back := with_store other.1 (cpu_id own) (fun st => store_insert st 0 (mkTask 0 1%nat)) in
  match back with
  | Ret s => WAKE_QUEUE s = [] /\ GLOBAL_QUEUE s = [] /\ local_queue other.2 = [] /\ local_cache other.2 = [0] /\
      match turn countdown s own with Ret (s', e', halted) => local_queue e' = [] /\ halted = true | _ => False end
  | _ => False
  end.
Proof. vm_compute. tauto. Qed.

(** A full queue drops the number without a word: the wake-up is counted and lost. *)
Lemma full_queue_drops_wake {F} (s : shared F) id :
  length (WAKE_QUEUE s) = QUEUE_SIZE -> WAKE_QUEUE (wake_task s id) = WAKE_QUEUE s /\
  wakeups (EXECUTOR_STATS (wake_task s id)) = wakeups (EXECUTOR_STATS s) +w 1.
Proof. intros H. unfold wake_task, enqueue. cbn [WAKE_QUEUE set_wake set_stats]. rewrite H, (proj2 (Nat.leb_le _ _)) by lia. done. Qed.
