(* ===== verification/Loader.v ===== *)
(** * The loader of cells (src/src/loader/)

    Cells are ELF files with a signature section.  The file is a list of bytes, a
    struct read through a pointer is decoded from the bytes at its offset (outside
    the file the read is undefined and panics here), and memory is a map from
    addresses to bytes, so that a write may go anywhere, as it may in the source.
    Names are the bytes of UTF-8 strings.  The hash function and the signature
    scheme (crates sha2 and ed25519-dalek) and the global allocator are arguments. *)

From stdpp Require Import base list gmap strings.
From Stdlib Require Import ZArith Lia.
From S2P Require Import Prelude OrderedMap.

Local Open Scope Z_scope.
Open Scope word_scope.

Definition name := list Z.

(** ** Errors *)

Inductive LoadError :=
| InvalidFormat (msg : string) | InvalidSignature | UnresolvedDependency (sym : name) | OutOfMemory | UnsafeNotAllowed | AlreadyLoaded.

(** A function that returns a [Result] and may panic. *)
Definition res (A : Type) : Type := outcome (result A LoadError).

Definition ok {A} (a : A) : res A := Ret (Ok a).
Definition err {A} (e : LoadError) : res A := Ret (Err e).
Definition invalid {A} (msg : string) : res A := err (InvalidFormat msg).

(** [let x = m?; k] *)
Definition rbind {A B} (m : res A) (k : A -> res B) : res B :=
  match m with
  | Ret (Ok a) => k a
  | Ret (Err e) => Ret (Err e)
  | Panic => Panic
  end.

Notation "'let?' x := m 'in' k" := (rbind m (fun x => k)) (at level 10, x pattern, m at level 100, k at level 200) : word_scope.

(** [for x in l { s = f(s, x)? }] *)
Fixpoint rfold {A S} (f : S -> A -> res S) (s : S) (l : list A) : res S :=
  match l with
  | [] => ok s
  | x :: l' => let? s' := f s x in rfold f s' l'
  end.

(** ** UTF-8 *)

Module Utf8.

(** [core::str::from_utf8(b).is_ok()]: the lead byte, the range of the byte behind
    it, and the number of bytes behind that. *)
Definition utf8_lead (b : Z) : option (option (Z * Z * nat)) :=
  if (0 <=? b) && (b <=? 127) then Some None
  else if (194 <=? b) && (b <=? 223) then Some (Some (128, 191, O))
  else if b =? 224 then Some (Some (160, 191, 1%nat))
  else if ((225 <=? b) && (b <=? 236)) || (b =? 238) || (b =? 239) then Some (Some (128, 191, 1%nat))
  else if b =? 237 then Some (Some (128, 159, 1%nat))
  else if b =? 240 then Some (Some (144, 191, 2%nat))
  else if (241 <=? b) && (b <=? 243) then Some (Some (128, 191, 2%nat))
  else if b =? 244 then Some (Some (128, 143, 2%nat))
  else None.

(** [more]: the range of the next byte, if one must follow, and how many after it. *)
Fixpoint utf8 (more : option (Z * Z * nat)) (l : list Z) : bool :=
  match more, l with
  | None, [] => true
  | Some _, [] => false
  | None, b :: l' => match utf8_lead b with Some m => utf8 m l' | None => false end
  | Some (lo, hi, k), b :: l' =>
      (lo <=? b) && (b <=? hi) && utf8 (match k with O => None | S k' => Some (128, 191, k') end) l'
  end.

Definition from_utf8 (l : list Z) : option name := if utf8 None l then Some l else None.

(** The bytes up to the first zero. *)
Fixpoint until_zero (l : list Z) : list Z :=
  match l with
  | [] => []
  | b :: l' => if b =? 0 then [] else b :: until_zero l'
  end.

End Utf8.
Import Bytes Utf8.

(** ** elf.rs *)

Definition ELF_MAGIC : list Z := [127; 69; 76; 70].
Definition ELFCLASS64 : Z := 2.
Definition ELFDATA2LSB : Z := 1.
Definition PT_LOAD : Z := 1.
Definition SHT_SYMTAB : Z := 2.
Definition SHT_RELA : Z := 4.
Definition SHT_DYNSYM : Z := 11.
Definition STB_GLOBAL : Z := 1.

(** The sizes of the structs.  The records below have the fields that are read. *)
Definition header_size : nat := 64.
Definition program_header_size : nat := 56.
Definition section_header_size : nat := 64.
Definition symbol_size : nat := 24.
Definition rela_size : nat := 24.

Record Elf64Header := mkHeader {
  e_ident : list Z; e_machine : Z; e_entry : Z; e_phoff : Z; e_shoff : Z;
  e_phentsize : Z; e_phnum : Z; e_shentsize : Z; e_shnum : Z; e_shstrndx : Z }.

Definition decode_header (s : list Z) : Elf64Header :=
  mkHeader (take 16 s) (field s 18 2) (field s 24 8) (field s 32 8) (field s 40 8)
    (field s 54 2) (field s 56 2) (field s 58 2) (field s 60 2) (field s 62 2).

Record Elf64ProgramHeader := mkProgramHeader {
  p_type : Z; p_flags : Z; p_offset : Z; p_vaddr : Z; p_filesz : Z; p_memsz : Z; p_align : Z }.

Definition decode_program_header (s : list Z) : Elf64ProgramHeader :=
  mkProgramHeader (field s 0 4) (field s 4 4) (field s 8 8) (field s 16 8) (field s 32 8) (field s 40 8) (field s 48 8).

Record Elf64SectionHeader := mkSectionHeader {
  sh_name : Z; sh_type : Z; sh_offset : Z; sh_size : Z; sh_link : Z }.

Definition decode_section_header (s : list Z) : Elf64SectionHeader :=
  mkSectionHeader (field s 0 4) (field s 4 4) (field s 24 8) (field s 32 8) (field s 40 4).

Record Elf64Symbol := mkSymbol { st_name : Z; st_info : Z; st_shndx : Z; st_value : Z }.

Definition decode_symbol (s : list Z) : Elf64Symbol :=
  mkSymbol (field s 0 4) (field s 4 1) (field s 6 2) (field s 8 8).

Definition binding (s : Elf64Symbol) : Z := Z.shiftr (st_info s) 4.

(** The addend is kept as the word it is stored as. *)
Record Elf64Rela := mkRela { r_offset : Z; r_info : Z; r_addend : Z }.

Definition decode_rela (s : list Z) : Elf64Rela := mkRela (field s 0 8) (field s 8 8) (field s 16 8).

Definition rela_symbol (r : Elf64Rela) : Z := wrap32 (Z.shiftr (r_info r) 32).
Definition reloc_type (r : Elf64Rela) : Z := wrap32 (r_info r).

Record SegmentInfo := mkSegment { file_offset : Z; vaddr : Z; file_size : Z; mem_size : Z; seg_flags : Z }.

Record CellInfo := mkCellInfo {
  entry_offset : Z; memory_size : Z; alignment : Z; exports : list name; imports : list name; segments : list SegmentInfo }.

Record LoadedCell := mkLoaded { base_address : Z; loaded_size : Z; entry_point : option Z }.

Record ElfLoader := mkLoader { data : list Z; header : Elf64Header }.

Definition loader_new (d : list Z) : res ElfLoader :=
  if len d <? Z.of_nat header_size then invalid "File too small"
  else
    let! s := read d 0 header_size in
    let h := decode_header s in
    if negb (bool_decide (take 4 (e_ident h) = ELF_MAGIC)) then invalid "Invalid ELF magic"
    else if negb (nth 4 (e_ident h) 0 =? ELFCLASS64) then invalid "Not 64-bit ELF"
    else if negb (nth 5 (e_ident h) 0 =? ELFDATA2LSB) then invalid "Not little endian"
    else if negb (e_machine h =? 62) then invalid "Not x86_64"
    else ok (mkLoader d h).

(** [0..n] *)
Definition upto (n : Z) : list Z := seqZ 0 n.

(** *** Program headers *)

Record segment_acc := mkAcc { acc_segments : list SegmentInfo; max_addr : Z; acc_align : Z }.

Definition parse_segment (l : ElfLoader) (acc : segment_acc) (i : Z) : res segment_acc :=
  let ph_offset := e_phoff (header l) +w (i *w e_phentsize (header l)) in
  if (ph_offset +w Z.of_nat program_header_size) >? len (data l) then invalid "Program header out of bounds"
  else
    let! s := read (data l) ph_offset program_header_size in
    let ph := decode_program_header s in
    if p_type ph =? PT_LOAD then
      ok (mkAcc (acc_segments acc ++ [mkSegment (p_offset ph) (p_vaddr ph) (p_filesz ph) (p_memsz ph) (p_flags ph)])
                (Z.max (max_addr acc) (p_vaddr ph +w p_memsz ph)) (Z.max (acc_align acc) (p_align ph)))
    else ok acc.

(** *** Symbols *)

(** [sh_offset] of a section header; [None] when it is not in the file. *)
Definition section_at (l : ElfLoader) (i : Z) : Z := e_shoff (header l) +w (i *w e_shentsize (header l)).
Definition section_out (l : ElfLoader) (i : Z) : bool := (section_at l i +w Z.of_nat section_header_size) >? len (data l).
Definition read_section (l : ElfLoader) (i : Z) : outcome Elf64SectionHeader :=
  let! s := read (data l) (section_at l i) section_header_size in Ret (decode_section_header s).

Definition get_string_table (l : ElfLoader) (i : Z) : res (list Z) :=
  if section_out l i then invalid "String table section out of bounds"
  else
    let! sh := read_section l i in
    let end_ := sh_offset sh +w sh_size sh in
    if end_ >? len (data l) then invalid "String table data out of bounds"
    else let! s := slice (data l) (sh_offset sh) end_ in ok s.

Definition get_string (strtab : list Z) (offset : Z) : option name :=
  if offset >=? len strtab then None else from_utf8 (until_zero (drop (Z.to_nat offset) strtab)).

Definition symbol_at (sh : Elf64SectionHeader) (j : Z) : Z := sh_offset sh +w (j *w Z.of_nat symbol_size).

(** The exports and the imports found so far. *)
Definition process_symbol (l : ElfLoader) (sh : Elf64SectionHeader) (strtab : list Z) (acc : list name * list name) (j : Z)
    : res (list name * list name) :=
  let sym_offset := symbol_at sh j in
  if (sym_offset +w Z.of_nat symbol_size) >? len (data l) then ok acc
  else
    let! s := read (data l) sym_offset symbol_size in
    let sym := decode_symbol s in
    if (binding sym =? STB_GLOBAL) && negb (st_name sym =? 0) then
      match get_string strtab (st_name sym) with
      | Some n => if st_shndx sym =? 0 then ok (acc.1, acc.2 ++ [n]) else ok (acc.1 ++ [n], acc.2)
      | None => ok acc
      end
    else ok acc.

Definition process_symbol_table (l : ElfLoader) (sh : Elf64SectionHeader) (acc : list name * list name) : res (list name * list name) :=
  let sym_count := sh_size sh / Z.of_nat symbol_size in
  let? strtab := get_string_table l (sh_link sh) in
  rfold (process_symbol l sh strtab) acc (upto sym_count).

Definition parse_section (l : ElfLoader) (acc : list name * list name) (i : Z) : res (list name * list name) :=
  if section_out l i then ok acc
  else
    let! sh := read_section l i in
    if (sh_type sh =? SHT_SYMTAB) || (sh_type sh =? SHT_DYNSYM) then process_symbol_table l sh acc else ok acc.

Definition parse_symbols (l : ElfLoader) : res (list name * list name) :=
  rfold (parse_section l) ([], []) (upto (e_shnum (header l))).

Definition parse (l : ElfLoader) : res CellInfo :=
  let? acc := rfold (parse_segment l) (mkAcc [] 0 4096) (upto (e_phnum (header l))) in
  let? (exps, imps) := parse_symbols l in
  ok (mkCellInfo (e_entry (header l)) (max_addr acc) (acc_align acc) exps imps (acc_segments acc)).

(** *** Memory *)

Notation memory := (gmap Z Z).

(** Bytes written from an address on; addresses wrap around. *)
Fixpoint write_bytes (m : memory) (addr : Z) (bs : list Z) : memory :=
  match bs with
  | [] => m
  | b :: bs' => write_bytes (<[wrap64 addr := b]> m) (addr + 1) bs'
  end.

Definition ISIZE_LIMIT : Z := 2 ^ 63 - 4096.

(** A function that also writes to memory: what it has written stays when it fails. *)
Definition io (A : Type) : Type := memory -> outcome (result A LoadError * memory).

Definition io_ok {A} (a : A) : io A := fun m => Ret (Ok a, m).
Definition io_err {A} (e : LoadError) : io A := fun m => Ret (Err e, m).
Definition io_lift {A} (r : res A) : io A := fun m => let! x := r in Ret (x, m).
Definition io_write (addr : Z) (bs : list Z) : io unit := fun m => Ret (Ok tt, write_bytes m addr bs).

Definition io_bind {A B} (c : io A) (k : A -> io B) : io B := fun m =>
  match c m with
  | Ret (Ok a, m') => k a m'
  | Ret (Err e, m') => Ret (Err e, m')
  | Panic => Panic
  end.

Notation "'do' x <- c ; k" := (io_bind c (fun x => k)) (at level 10, x pattern, c at level 100, k at level 200) : word_scope.

Fixpoint io_for {A} (f : A -> io unit) (l : list A) : io unit :=
  match l with
  | [] => io_ok tt
  | x :: l' => do _ <- f x; io_for f l'
  end.

(** *** Loading *)

Section Load.
(** [alloc_zeroed] of a size with alignment 4096: an address, or [None] for null. *)
Context (alloc_zeroed : Z -> option Z).

Definition allocate_memory (size : Z) : io Z :=
  if size >? ISIZE_LIMIT then io_err OutOfMemory
  else
    match alloc_zeroed size with
    | Some base => do _ <- io_write base (replicate (Z.to_nat size) 0); io_ok base
    | None => io_err OutOfMemory
    end.

Definition load_segment (l : ElfLoader) (base : Z) (s : SegmentInfo) : io unit :=
  let dest := base +w vaddr s in
  let src_end := file_offset s +w file_size s in
  if src_end >? len (data l) then io_err (InvalidFormat "Segment data out of bounds")
  else
    do bs <- io_lift (let! b := read (data l) (file_offset s) (Z.to_nat (file_size s)) in ok b);
    do _ <- io_write dest bs;
    if mem_size s >? file_size s
    then io_write (dest +w file_size s) (replicate (Z.to_nat (mem_size s - file_size s)) 0) else io_ok tt.

Definition load (l : ElfLoader) (info : CellInfo) : io LoadedCell :=
  do base <- allocate_memory (memory_size info);
  do _ <- io_for (load_segment l base) (segments info);
  io_ok (mkLoaded base (memory_size info) (if negb (entry_offset info =? 0) then Some (base +w entry_offset info) else None)).

End Load.

(** *** Relocation *)

Definition apply_relocation (r : Elf64Rela) (base sym_value : Z) : io unit :=
  let target := base +w r_offset r in
  if reloc_type r =? 1 then io_write target (to_le 8 (sym_value +w r_addend r))
  else if reloc_type r =? 2 then io_write target (to_le 4 ((sym_value +w r_addend r) -w target))
  else if reloc_type r =? 10 then io_write target (to_le 4 (sym_value +w r_addend r))
  else io_ok tt.

Definition get_section_header (l : ElfLoader) (i : Z) : res Elf64SectionHeader :=
  if section_out l i then invalid "Section header out of bounds" else let! sh := read_section l i in ok sh.

Section Relocate.
Context (resolve : name -> option Z).

(** The value of a symbol. *)
Definition symbol_value (loaded : LoadedCell) (strtab : list Z) (sym : Elf64Symbol) : res Z :=
  if st_shndx sym =? 0 then
    match get_string strtab (st_name sym) with
    | None => invalid "Invalid symbol name"
    | Some n => match resolve n with Some v => ok v | None => err (UnresolvedDependency n) end
    end
  else ok (base_address loaded +w st_value sym).

Definition rela_at (sh : Elf64SectionHeader) (j : Z) : Z := sh_offset sh +w (j *w Z.of_nat rela_size).

(** The entry and the value of its symbol; [None] when one of them is not in the file. *)
Definition rela_entry (l : ElfLoader) (loaded : LoadedCell) (sh symtab_sh : Elf64SectionHeader) (strtab : list Z) (j : Z) : res (option (Elf64Rela * Z)) :=
  if (rela_at sh j +w Z.of_nat rela_size) >? len (data l) then ok None
  else
    let! s := read (data l) (rela_at sh j) rela_size in
    let rela := decode_rela s in
    let sym_offset := symbol_at symtab_sh (rela_symbol rela) in
    if (sym_offset +w Z.of_nat symbol_size) >? len (data l) then ok None
    else
      let! s2 := read (data l) sym_offset symbol_size in
      let? v := symbol_value loaded strtab (decode_symbol s2) in ok (Some (rela, v)).

Definition relocate_one (l : ElfLoader) (loaded : LoadedCell) (sh symtab_sh : Elf64SectionHeader) (strtab : list Z) (j : Z) : io unit :=
  do e <- io_lift (rela_entry l loaded sh symtab_sh strtab j);
  match e with
  | Some (rela, v) => apply_relocation rela (base_address loaded) v
  | None => io_ok tt
  end.

Definition apply_relocations (l : ElfLoader) (loaded : LoadedCell) (sh : Elf64SectionHeader) : io unit :=
  do symtab_sh <- io_lift (get_section_header l (sh_link sh));
  do strtab <- io_lift (get_string_table l (sh_link symtab_sh));
  io_for (relocate_one l loaded sh symtab_sh strtab) (upto (sh_size sh / Z.of_nat rela_size)).

Definition relocate_section (l : ElfLoader) (loaded : LoadedCell) (i : Z) : io unit :=
  if section_out l i then io_ok tt
  else
    do sh <- io_lift (let! sh := read_section l i in ok sh);
    if sh_type sh =? SHT_RELA then apply_relocations l loaded sh else io_ok tt.

Definition relocate (l : ElfLoader) (loaded : LoadedCell) : io unit :=
  io_for (relocate_section l loaded) (upto (e_shnum (header l))).

End Relocate.

(** ** signature.rs *)

Definition SIGNATURE_SECTION_NAME : name := [46; 101; 120; 111; 114; 117; 115; 116; 95; 115; 105; 103].
Definition SIGNATURE_MAGIC : list Z := [69; 88; 79; 82; 83; 73; 71; 0].
Definition SIGNATURE_VERSION : Z := 1.
Definition ED25519_SIGNATURE_SIZE : nat := 64.
Definition signature_header_size : nat := 104.
Definition dev_name : name := [100; 101; 118].

Record CellSignature := mkSignature {
  version : Z; contains_unsafe : bool; uses_framework_only : bool; compiler_version : name; build_timestamp : Z;
  hash : list Z; signature : list Z; public_key : list Z }.

Definition zeros32 : list Z := replicate 32 0.

Definition is_well_formed (s : CellSignature) : bool :=
  (version s =? SIGNATURE_VERSION) && (length (signature s) =? ED25519_SIGNATURE_SIZE)%nat && negb (bool_decide (public_key s = zeros32)).

Definition is_dev_signature (s : CellSignature) : bool :=
  bool_decide (compiler_version s = dev_name) || bool_decide (signature s = []).

Record SignatureHeader := mkSigHeader {
  sg_magic : list Z; sg_version : Z; sg_flags : Z; compiler_version_offset : Z; compiler_version_len : Z;
  sg_timestamp : Z; sg_hash : list Z; sg_public_key : list Z; signature_len : Z }.

Definition decode_sig_header (s : list Z) : SignatureHeader :=
  mkSigHeader (take 8 s) (field s 8 4) (field s 12 4) (field s 16 4) (field s 20 4) (field s 24 8)
    (take 32 (drop 32 s)) (take 32 (drop 64 s)) (field s 96 4).

Definition CONTAINS_UNSAFE : Z := 1.
Definition FRAMEWORK_ONLY : Z := 2.

Inductive VerificationError := MalformedSignature | UntrustedKey | BadSignature | HashMismatch | VersionMismatch.

Record VerifierStats := mkVerifierStats {
  verification_attempts : Z; successful_verifications : Z; failed_verifications : Z; dev_mode_bypasses : Z }.

Record SignatureVerifier := mkVerifier { trusted_keys : list (list Z); allow_dev_mode : bool; stats : VerifierStats }.

Definition no_stats : VerifierStats := mkVerifierStats 0 0 0 0.

Section Signature.
(** The feature [require_signatures], and the two crates. *)
Context (require_signatures : bool) (sha256 : list Z -> list Z) (ed25519 : list Z -> list Z -> list Z -> bool).

Definition verifier_new : SignatureVerifier := mkVerifier [] (negb require_signatures) no_stats.
Definition production : SignatureVerifier := mkVerifier [] false no_stats.

Definition is_trusted_key (v : SignatureVerifier) (k : list Z) : bool := bool_decide (k ∈ trusted_keys v).

Definition add_trusted_key (v : SignatureVerifier) (k : list Z) : SignatureVerifier :=
  if is_trusted_key v k then v else mkVerifier (trusted_keys v ++ [k]) (allow_dev_mode v) (stats v).

Definition set_dev_mode (v : SignatureVerifier) (b : bool) : SignatureVerifier := mkVerifier (trusted_keys v) b (stats v).

Definition verify_ed25519 (key message sig : list Z) : bool :=
  if negb (length sig =? ED25519_SIGNATURE_SIZE)%nat then false
  else if forallb (fun b => b =? 0) key then false
  else if forallb (fun b => b =? 0) message then false
  else ed25519 key message sig.

Definition with_stats (v : SignatureVerifier) (s : VerifierStats) : SignatureVerifier := mkVerifier (trusted_keys v) (allow_dev_mode v) s.
Definition count_attempt (s : VerifierStats) : VerifierStats :=
  mkVerifierStats (verification_attempts s +w 1) (successful_verifications s) (failed_verifications s) (dev_mode_bypasses s).
Definition count_success (s : VerifierStats) : VerifierStats :=
  mkVerifierStats (verification_attempts s) (successful_verifications s +w 1) (failed_verifications s) (dev_mode_bypasses s).
Definition count_failure (s : VerifierStats) : VerifierStats :=
  mkVerifierStats (verification_attempts s) (successful_verifications s) (failed_verifications s +w 1) (dev_mode_bypasses s).
Definition count_bypass (s : VerifierStats) : VerifierStats :=
  mkVerifierStats (verification_attempts s) (successful_verifications s) (failed_verifications s) (dev_mode_bypasses s +w 1).

Definition verify (v0 : SignatureVerifier) (s : CellSignature) (d : list Z) : result unit VerificationError * SignatureVerifier :=
  let v := with_stats v0 (count_attempt (stats v0)) in
  let failed := with_stats v (count_failure (stats v)) in
  if allow_dev_mode v && is_dev_signature s then (Ok tt, with_stats v (count_success (count_bypass (stats v))))
  else if negb (is_well_formed s) then (Err MalformedSignature, failed)
  else if negb (bool_decide (trusted_keys v = [])) && negb (is_trusted_key v (public_key s)) then (Err UntrustedKey, failed)
  else if negb (bool_decide (sha256 d = hash s)) then (Err HashMismatch, failed)
  else if negb (verify_ed25519 (public_key s) (hash s) (signature s)) then (Err BadSignature, failed)
  else (Ok tt, with_stats v (count_success (stats v))).

(** *** The signature section *)

(** The section named by the offset, if it is the signature section and in the file. *)
Definition signature_section (d : list Z) (h : Elf64Header) (shstrtab : list Z) (i : Z) : outcome (option (list Z)) :=
  let l := mkLoader d h in
  if section_out l i then Ret None
  else
    let! sh := read_section l i in
    if sh_name sh >=? len shstrtab then Ret None
    else if bool_decide (until_zero (drop (Z.to_nat (sh_name sh)) shstrtab) = SIGNATURE_SECTION_NAME) then
      let data_end := sh_offset sh +w sh_size sh in
      if data_end <=? len d then let! s := slice d (sh_offset sh) data_end in Ret (Some s) else Ret None
    else Ret None.

Fixpoint first_section (d : list Z) (h : Elf64Header) (shstrtab : list Z) (l : list Z) : outcome (option (list Z)) :=
  match l with
  | [] => Ret None
  | i :: l' =>
      let! r := signature_section d h shstrtab i in
      match r with
      | Some s => Ret (Some s)
      | None => first_section d h shstrtab l'
      end
  end.

Definition find_signature_section (d : list Z) : outcome (option (list Z)) :=
  if len d <? Z.of_nat header_size then Ret None
  else
    let! s := read d 0 header_size in
    let h := decode_header s in
    if negb (bool_decide (take 4 (e_ident h) = ELF_MAGIC)) then Ret None
    else
      let l := mkLoader d h in
      if section_out l (e_shstrndx h) then Ret None
      else
        let! sh := read_section l (e_shstrndx h) in
        let shstrtab_end := sh_offset sh +w sh_size sh in
        if shstrtab_end >? len d then Ret None
        else
          let! shstrtab := slice d (sh_offset sh) shstrtab_end in
          first_section d h shstrtab (upto (e_shnum h)).

Definition parse_compiler_version (d : list Z) (h : SignatureHeader) : res name :=
  if compiler_version_len h >? 0 then
    let end_ := compiler_version_offset h + compiler_version_len h in
    if end_ >? len d then invalid "Invalid compiler version offset"
    else
      let! s := slice d (compiler_version_offset h) end_ in
      match from_utf8 s with
      | Some n => ok n
      | None => invalid "Invalid UTF-8 in compiler version"
      end
  else ok [].

Definition parse_signature_section (d : list Z) : res CellSignature :=
  if len d <? Z.of_nat signature_header_size then invalid "Signature section too small"
  else
    let! s := read d 0 signature_header_size in
    let h := decode_sig_header s in
    if negb (bool_decide (sg_magic h = SIGNATURE_MAGIC)) then err InvalidSignature
    else if negb (sg_version h =? SIGNATURE_VERSION) then invalid "Unsupported signature version"
    else
      let? cv := parse_compiler_version d h in
      let sig_start := Z.of_nat signature_header_size in
      let sig_end := sig_start + signature_len h in
      if sig_end >? len d then invalid "Invalid signature data"
      else
        let! sig := slice d sig_start sig_end in
        ok (mkSignature (sg_version h) (negb (Z.land (sg_flags h) CONTAINS_UNSAFE =? 0)) (negb (Z.land (sg_flags h) FRAMEWORK_ONLY =? 0))
              cv (sg_timestamp h) (sg_hash h) sig (sg_public_key h)).

(** What an unsigned cell gets in a development build. *)
Definition dev_signature : CellSignature := mkSignature SIGNATURE_VERSION false true dev_name 0 zeros32 [] zeros32.

Definition extract_signature (d : list Z) : res CellSignature :=
  if len d <? 64 then invalid "ELF too small"
  else
    let! s := find_signature_section d in
    match s with
    | Some sig_data => parse_signature_section sig_data
    | None => if require_signatures then err InvalidSignature else ok dev_signature
    end.

(** The global verifier is made at its first use. *)
Definition verify_signature (v : option SignatureVerifier) (s : CellSignature) (d : list Z) : bool * option SignatureVerifier :=
  let '(r, v') := verify (default verifier_new v) s d in
  (match r with Ok _ => true | Err _ => false end, Some v').

(** ** mod.rs: the registry *)

Inductive CellState := Pending | Loading | Loaded | Running | Stopped | CellFailed.

Record CellEntry := mkCell {
  id : Z; cell_name : name; state : CellState; load_address : Z; load_size : Z; cell_entry : option Z;
  cell_exports : list name; cell_imports : list name; dependencies : list Z; is_safe : bool; signature_verified : bool }.

Record CellRegistry := mkRegistry { cells : gmap Z CellEntry; symbol_table : gmap name Z; next_id : Z }.

Definition KERNEL : Z := 0.

Definition registry_new : CellRegistry := mkRegistry ∅ ∅ 1.

Definition allocate_id (r : CellRegistry) : Z * CellRegistry := (next_id r, mkRegistry (cells r) (symbol_table r) (next_id r +w 1)).

Definition register (r : CellRegistry) (e : CellEntry) : CellRegistry :=
  mkRegistry (<[id e := e]> (cells r)) (foldl (fun t s => <[s := load_address e]> t) (symbol_table r) (cell_exports e)) (next_id r).

Definition resolve_symbol (r : CellRegistry) (n : name) : option Z := symbol_table r !! n.

Definition unload (r : CellRegistry) (i : Z) : option CellEntry * CellRegistry :=
  match cells r !! i with
  | Some e => (Some e, mkRegistry (delete i (cells r)) (foldl (fun t s => delete s t) (symbol_table r) (cell_exports e)) (next_id r))
  | None => (None, r)
  end.

Definition find_by_name (r : CellRegistry) (n : name) : option CellEntry := head (filter (fun c => cell_name c = n) (map_values (cells r))).

(** ** mod.rs: loading a cell *)

Record world := mkWorld { GLOBAL_VERIFIER : option SignatureVerifier; CELL_REGISTRY : CellRegistry; mem : memory }.

Section LoadCell.
Context (alloc_zeroed : Z -> option Z).

(** The first import nobody exports. *)
Definition unresolved (r : CellRegistry) (l : list name) : option name := head (filter (fun n => resolve_symbol r n = None) l).

Definition cell_of (i : Z) (n : name) (s : CellSignature) (info : CellInfo) (loaded : LoadedCell) : CellEntry :=
  mkCell i n Loaded (base_address loaded) (loaded_size loaded) (entry_point loaded) (exports info) (imports info) []
    (negb (contains_unsafe s)) true.

(** Parsing, placing and relocating, after the signature was accepted. *)
Definition place_cell (d : list Z) (r : CellRegistry) : io (CellInfo * LoadedCell) :=
  do loader <- io_lift (loader_new d);
  do info <- io_lift (parse loader);
  match unresolved r (imports info) with
  | Some n => io_err (UnresolvedDependency n)
  | None =>
      do loaded <- load alloc_zeroed loader info;
      do _ <- relocate (resolve_symbol r) loader loaded;
      io_ok (info, loaded)
  end.

Definition load_cell (w : world) (n : name) (d : list Z) (allow_unsafe : bool) : outcome (result Z LoadError * world) :=
  let! rs := extract_signature d in
  match rs with
  | Err e => Ret (Err e, w)
  | Ok s =>
      let '(good, v) := verify_signature (GLOBAL_VERIFIER w) s d in
      let w1 := mkWorld v (CELL_REGISTRY w) (mem w) in
      if negb good then Ret (Err InvalidSignature, w1)
      else if negb allow_unsafe && contains_unsafe s then Ret (Err UnsafeNotAllowed, w1)
      else
        let! (rp, m) := place_cell d (CELL_REGISTRY w) (mem w) in
        match rp with
        | Err e => Ret (Err e, mkWorld v (CELL_REGISTRY w) m)
        | Ok (info, loaded) =>
            let '(i, r1) := allocate_id (CELL_REGISTRY w) in
            Ret (Ok i, mkWorld v (register r1 (cell_of i n s info loaded)) m)
        end
  end.

End LoadCell.

End Signature.

(** "Cell has active dependents" *)
Definition dependents_message : name :=
  [67; 101; 108; 108; 32; 104; 97; 115; 32; 97; 99; 116; 105; 118; 101; 32; 100; 101; 112; 101; 110; 100; 101; 110; 116; 115].

Definition unload_cell (r : CellRegistry) (i : Z) : result unit LoadError * CellRegistry :=
  if existsb (fun c => bool_decide (i ∈ dependencies c)) (map_values (cells r)) then (Err (UnresolvedDependency dependents_message), r)
  else (Ok tt, (unload r i).2).

Definition kernel_name : name := [107; 101; 114; 110; 101; 108].

Definition init_kernel_cell (r : CellRegistry) : CellRegistry :=
  register r (mkCell KERNEL kernel_name Running 0 0 None [] [] [] false true).
