(* ===== verification/LoaderTheorems.v ===== *)
(** * Theorems of the loader

    What a loaded cell was checked for; which symbols resolve; that parsing stays
    inside the file and placing inside the allocated block, for files whose
    offsets do not wrap around; what a relocation writes; and what files that lie
    about their sizes can do. *)

From stdpp Require Import base list gmap strings relations.
From Stdlib Require Import ZArith Lia.
From S2P Require Import Prelude OrderedMap Loader.

Import Bytes Utf8.
Local Open Scope Z_scope.
Open Scope word_scope.

(** ** Functions that return *)

Definition returns {A} (r : outcome A) : Prop := exists x, r = Ret x.

Lemma returns_Ret {A} (x : A) : returns (Ret x).
Proof. by exists x. Qed.

Lemma returns_obind {A B} (r : outcome A) (k : A -> outcome B) : returns r -> (forall x, r = Ret x -> returns (k x)) -> returns (obind r k).
Proof. intros [x ->] H. by apply H. Qed.

Lemma returns_rbind {A B} (r : res A) (k : A -> res B) : returns r -> (forall x, r = ok x -> returns (k x)) -> returns (rbind r k).
Proof. intros [[x|e] ->] H; [by apply H | by eexists]. Qed.

Lemma returns_if {A} (b : bool) (r1 r2 : outcome A) : (b = true -> returns r1) -> (b = false -> returns r2) -> returns (if b then r1 else r2).
Proof. destruct b; auto. Qed.

Lemma returns_rfold {A S} (f : S -> A -> res S) l : (forall s x, x ∈ l -> returns (f s x)) -> forall s, returns (rfold f s l).
Proof.
  induction l as [|x l IH]; intros H s; cbn; [apply returns_Ret|].
  apply returns_rbind; [apply H, list_elem_of_here|]. intros s' _. apply IH. intros s2 y Hy. by apply H, list_elem_of_further.
Qed.

Lemma returns_io_bind {A B} (c : io A) (k : A -> io B) m : returns (c m) -> (forall x m', c m = Ret (Ok x, m') -> returns (k x m')) -> returns (io_bind c k m).
Proof. intros [[[x|e] m'] E] H; unfold io_bind; rewrite E; [by apply H | by eexists]. Qed.

Lemma returns_io_lift {A} (r : res A) m : returns r -> returns (io_lift r m).
Proof. intros [x ->]. apply returns_Ret. Qed.

Lemma returns_io_for {A} (f : A -> io unit) l m : (forall x m', x ∈ l -> returns (f x m')) -> returns (io_for f l m).
Proof.
  revert m. induction l as [|x l IH]; intros m H; cbn; [apply returns_Ret|].
  apply returns_io_bind; [apply H, list_elem_of_here|]. intros [] m' _. apply IH. intros y m2 Hy. by apply H, list_elem_of_further.
Qed.

#[export] Hint Resolve returns_Ret returns_io_lift : exo.

Lemma read_returns d off n : 0 <= off -> off + Z.of_nat n <= len d -> returns (read d off n).
Proof. intros H1 H2. unfold read. rewrite (proj2 (Z.leb_le _ _)), (proj2 (Z.leb_le _ _)) by lia. apply returns_Ret. Qed.

Lemma slice_returns d a b : 0 <= a -> a <= b -> b <= len d -> returns (slice d a b).
Proof. intros H1 H2 H3. unfold slice. rewrite !(proj2 (Z.leb_le _ _)) by lia. apply returns_Ret. Qed.

(** ** Files whose offsets are small *)

(** The decoded fields are words: they come from bytes. *)
Definition is_file (d : list Z) : Prop := Forall (fun b => 0 <= b < 256) d.

Lemma field_bound d s off i n k :
  is_file d -> read d off k = Ret s -> 0 <= field s i n < 256 ^ Z.of_nat n.
Proof.
  intros Hf E. unfold read in E. destruct ((0 <=? off) && (off + Z.of_nat k <=? len d)); [|done]. injection E as <-.
  unfold field. set (l := take n (drop i (take k (drop (Z.to_nat off) d)))).
  assert (Hl : Forall (fun b => 0 <= b < 256) l) by (by apply Forall_take, Forall_drop, Forall_take, Forall_drop).
  pose proof (from_le_bound l Hl) as Hb. assert (Hn : (length l <= n)%nat) by (unfold l; rewrite length_take; lia).
  assert (256 ^ Z.of_nat (length l) <= 256 ^ Z.of_nat n) by (apply Z.pow_le_mono_r; lia). lia.
Qed.

Definition small (z : Z) : Prop := z < 2 ^ 62.

(** The tables of the file, its sections and its segments lie below 2^62. *)
Record modest (l : ElfLoader) : Prop := {
  mo_file : is_file (data l);
  mo_len : len (data l) < 2 ^ 62;
  mo_header : exists s, read (data l) 0 header_size = Ret s /\ header l = decode_header s;
  mo_ph : small (e_phoff (header l));
  mo_sh : small (e_shoff (header l));
  mo_sections : forall i sh, 0 <= i < 2 ^ 32 -> read_section l i = Ret sh -> small (sh_offset sh) /\ small (sh_size sh);
  mo_segments : forall i s, 0 <= i < e_phnum (header l) ->
    read (data l) (e_phoff (header l) + i * e_phentsize (header l)) program_header_size = Ret s ->
    small (p_offset (decode_program_header s)) /\ small (p_filesz (decode_program_header s)) }.

Lemma wrap_u64 z : 0 <= z < 2 ^ 64 -> wrap64 z = z.
Proof. intros H. by apply wrap64_small. Qed.

(** A table entry below 2^62 is where it says. *)
Lemma entry_bound i e : 0 <= i < 2 ^ 32 -> 0 <= e < 2 ^ 16 -> 0 <= i * e < 2 ^ 48.
Proof. intros H1 H2. split; [nia|]. assert (i * e <= (2 ^ 32 - 1) * (2 ^ 16 - 1)) by nia. lia. Qed.

Section Modest.
Context (l : ElfLoader) (Hl : modest l).

Lemma header_words :
  0 <= e_phoff (header l) < 2 ^ 62 /\ 0 <= e_shoff (header l) < 2 ^ 62 /\ 0 <= e_phentsize (header l) < 2 ^ 16 /\
  0 <= e_phnum (header l) < 2 ^ 16 /\ 0 <= e_shentsize (header l) < 2 ^ 16 /\ 0 <= e_shnum (header l) < 2 ^ 16 /\
  0 <= e_shstrndx (header l) < 2 ^ 16.
Proof.
  destruct (mo_header l Hl) as (s & E & Eh).
  pose proof (mo_ph l Hl) as Hp. pose proof (mo_sh l Hl) as Hs. unfold small in *. rewrite Eh in *. cbn in *.
  pose proof (fun i n => field_bound (data l) s 0 i n header_size (mo_file l Hl) E) as F.
  pose proof (F 32%nat 8%nat). pose proof (F 40%nat 8%nat). pose proof (F 54%nat 2%nat). pose proof (F 56%nat 2%nat).
  pose proof (F 58%nat 2%nat). pose proof (F 60%nat 2%nat). pose proof (F 62%nat 2%nat). cbn in *. lia.
Qed.

Lemma section_at_small i : 0 <= i < 2 ^ 32 -> 0 <= section_at l i < 2 ^ 62 + 2 ^ 48 /\ section_at l i = e_shoff (header l) + i * e_shentsize (header l).
Proof.
  intros Hi. pose proof header_words as Hw. pose proof (entry_bound i (e_shentsize (header l)) Hi ltac:(lia)) as Hb.
  unfold section_at. rewrite (wrap_u64 (i * _)) by lia. rewrite wrap_u64 by lia. lia.
Qed.

(** The bounds check of a section header is exact. *)
Lemma section_in i : 0 <= i < 2 ^ 32 -> section_out l i = false -> section_at l i + Z.of_nat section_header_size <= len (data l).
Proof.
  intros Hi. pose proof (section_at_small i Hi) as [Hs _]. unfold section_out. rewrite wrap_u64 by (unfold section_header_size; lia).
  rewrite Z.gtb_ltb, Z.ltb_ge. done.
Qed.

Lemma read_section_returns i : 0 <= i < 2 ^ 32 -> section_out l i = false -> returns (read_section l i).
Proof.
  intros Hi Ho. pose proof (section_in i Hi Ho). pose proof (section_at_small i Hi). unfold read_section.
  apply returns_obind; [apply read_returns; lia|]. intros s _. apply returns_Ret.
Qed.

(** The words of a section header. *)
Lemma section_words i sh : 0 <= i < 2 ^ 32 -> read_section l i = Ret sh ->
  0 <= sh_offset sh < 2 ^ 62 /\ 0 <= sh_size sh < 2 ^ 62 /\ 0 <= sh_link sh < 2 ^ 32 /\ 0 <= sh_name sh.
Proof.
  intros Hi E. pose proof (mo_sections l Hl i sh Hi E) as [H1 H2]. unfold read_section in E.
  destruct (read (data l) (section_at l i) section_header_size) as [s|] eqn:Es; [|done]. cbn in E. injection E as <-.
  pose proof (fun j n => field_bound (data l) s _ j n section_header_size (mo_file l Hl) Es) as F.
  pose proof (F 0%nat 4%nat). pose proof (F 24%nat 8%nat). pose proof (F 32%nat 8%nat). pose proof (F 40%nat 4%nat). unfold small in *. cbn in *. lia.
Qed.

Lemma get_string_table_returns i : 0 <= i < 2 ^ 32 -> returns (get_string_table l i).
Proof.
  intros Hi. unfold get_string_table. apply returns_if; intros Ho; [apply returns_Ret|].
  apply returns_obind; [by apply read_section_returns|]. intros sh E. pose proof (section_words i sh ltac:(lia) E) as (H1 & H2 & _).
  rewrite wrap_u64 by lia. apply returns_if; intros Hb; [apply returns_Ret|]. rewrite Z.gtb_ltb, Z.ltb_ge in Hb.
  apply returns_obind; [apply slice_returns; lia|]. intros s _. apply returns_Ret.
Qed.

(** An entry of a table of structs of 24 bytes. *)
Lemma table_entry off j :
  0 <= off < 2 ^ 62 -> 0 <= j < 2 ^ 58 -> (off +w (j *w 24)) = off + j * 24 /\ ((off +w (j *w 24)) +w 24) = off + j * 24 + 24.
Proof. intros H1 H2. rewrite (wrap_u64 (j * 24)) by lia. rewrite (wrap_u64 (off + j * 24)) by lia. by rewrite wrap_u64 by lia. Qed.

Lemma table_read off j :
  0 <= off < 2 ^ 62 -> 0 <= j < 2 ^ 58 -> (((off +w (j *w 24)) +w 24) >? len (data l)) = false -> returns (read (data l) (off +w (j *w 24)) 24).
Proof.
  intros H1 H2. destruct (table_entry off j H1 H2) as [E1 E2]. rewrite E2, Z.gtb_ltb, Z.ltb_ge. intros Hb.
  rewrite E1. apply read_returns; [lia|]. change (Z.of_nat 24) with 24. lia.
Qed.

Lemma process_symbol_table_returns i sh acc : 0 <= i < 2 ^ 32 -> read_section l i = Ret sh -> returns (process_symbol_table l sh acc).
Proof.
  intros Hi E. pose proof (section_words i sh Hi E) as (H1 & H2 & H3 & _). unfold process_symbol_table.
  apply returns_rbind; [by apply get_string_table_returns|]. intros strtab _. apply returns_rfold. intros s j [Hj1 Hj2]%elem_of_seqZ.
  change (Z.of_nat symbol_size) with 24 in *. assert (sh_size sh / 24 <= sh_size sh / 16) by (apply Z.div_le_compat_l; lia).
  assert (sh_size sh / 16 < 2 ^ 58) by (apply Z.div_lt_upper_bound; lia).
  unfold process_symbol, symbol_at. change (Z.of_nat symbol_size) with 24. apply returns_if; intros Hb; [apply returns_Ret|].
  apply returns_obind; [apply table_read; [lia | lia | done]|]. intros b _.
  apply returns_if; intros _; [|apply returns_Ret]. destruct (get_string strtab _); [apply returns_if; intros _|]; apply returns_Ret.
Qed.

Lemma parse_segment_returns acc i : 0 <= i < 2 ^ 16 -> returns (parse_segment l acc i).
Proof.
  intros Hi. pose proof header_words as Hw. pose proof (entry_bound i (e_phentsize (header l)) ltac:(lia) ltac:(lia)) as Hb.
  unfold parse_segment. rewrite (wrap_u64 (i * _)) by lia. rewrite (wrap_u64 (_ + i * _)) by lia. rewrite wrap_u64 by (unfold program_header_size; lia).
  apply returns_if; intros Ho; [apply returns_Ret|]. rewrite Z.gtb_ltb, Z.ltb_ge in Ho.
  apply returns_obind; [apply read_returns; lia|]. intros s _. apply returns_if; intros _; apply returns_Ret.
Qed.

Lemma parse_returns : returns (parse l).
Proof.
  pose proof header_words as Hw. unfold parse. apply returns_rbind.
  { apply returns_rfold. intros acc i [H1 H2]%elem_of_seqZ. apply parse_segment_returns. lia. }
  intros acc _. apply returns_rbind; [|intros [exps imps] _; apply returns_Ret]. unfold parse_symbols. apply returns_rfold.
  intros a i [H1 H2]%elem_of_seqZ. unfold parse_section. apply returns_if; intros Ho; [apply returns_Ret|].
  assert (Hi : 0 <= i < 2 ^ 32) by lia. apply returns_obind; [by apply read_section_returns|]. intros sh E.
  apply returns_if; intros _; [by apply (process_symbol_table_returns i) | apply returns_Ret].
Qed.

(** *** Placing and relocating *)

Lemma rfold_ind {A S} (P : S -> Prop) (f : S -> A -> res S) xs s s' :
  (forall s0 x s1, x ∈ xs -> P s0 -> f s0 x = ok s1 -> P s1) -> P s -> rfold f s xs = ok s' -> P s'.
Proof.
  revert s. induction xs as [|x xs IH]; intros s Hf Hs E; cbn in E; [by injection E as <-|].
  destruct (f s x) as [[s1|e]|] eqn:Ef; try done. cbn in E. apply (IH s1); [|by apply (Hf s x); [apply list_elem_of_here|..] | done].
  intros s0 y s2 Hy. by apply Hf, list_elem_of_further.
Qed.

Definition segment_words (s : SegmentInfo) : Prop := 0 <= file_offset s < 2 ^ 62 /\ 0 <= file_size s < 2 ^ 62.

Lemma parse_segments info : parse l = ok info -> Forall segment_words (segments info).
Proof.
  unfold parse. destruct (rfold (parse_segment l) _ _) as [[acc|e]|] eqn:E; try done. cbn [rbind].
  destruct (parse_symbols l) as [[[exps imps]|e]|]; try done. cbn. intros H. injection H as <-. cbn.
  apply (rfold_ind (fun a => Forall segment_words (acc_segments a)) (parse_segment l) (upto (e_phnum (header l))) (mkAcc [] 0 4096) acc); [|constructor | done].
  clear E acc exps imps. intros a i a' Hi%elem_of_seqZ Ha E. unfold parse_segment in E.
  pose proof header_words as Hw. pose proof (entry_bound i (e_phentsize (header l)) ltac:(lia) ltac:(lia)) as Hb.
  rewrite (wrap_u64 (i * _)) in E by lia. rewrite (wrap_u64 (_ + i * _)) in E by lia. case_if_in E; [done|].
  destruct (read (data l) _ program_header_size) as [b|] eqn:Eb; [|done]. cbn [obind] in E. cbn zeta in E. case_if_in E; injection E as <-; [|done]. cbn [acc_segments].
  apply Forall_app. split; [done|]. constructor; [|constructor]. pose proof (mo_segments l Hl i _ ltac:(lia) Eb) as [H1 H2].
  pose proof (fun j n => field_bound (data l) b _ j n program_header_size (mo_file l Hl) Eb) as F.
  pose proof (F 8%nat 8%nat). pose proof (F 32%nat 8%nat). unfold segment_words, small in *. cbn in *. lia.
Qed.

Lemma load_segment_returns base s m : segment_words s -> returns (load_segment l base s m).
Proof.
  intros [H1 H2]. unfold load_segment. cbn zeta. rewrite (wrap_u64 (file_offset s + file_size s)) by lia.
  destruct (file_offset s + file_size s >? len (data l)) eqn:Hb; [apply returns_Ret|]. rewrite Z.gtb_ltb, Z.ltb_ge in Hb.
  apply returns_io_bind.
  - apply returns_io_lift. apply returns_obind; [apply read_returns; lia|]. intros b _. apply returns_Ret.
  - intros bs m1 _. apply returns_io_bind; [apply returns_Ret|]. intros [] m2 _. destruct (mem_size s >? file_size s); apply returns_Ret.
Qed.

Lemma load_returns alloc info m : Forall segment_words (segments info) -> returns (load alloc l info m).
Proof.
  intros Hs. unfold load. apply returns_io_bind.
  - unfold allocate_memory. destruct (memory_size info >? ISIZE_LIMIT); [apply returns_Ret|]. destruct (alloc _); apply returns_Ret.
  - intros base m1 _. apply returns_io_bind; [|intros [] m2 _; apply returns_Ret]. apply returns_io_for.
    intros s m2 Hin. apply load_segment_returns. by rewrite Forall_forall in Hs; apply Hs.
Qed.

Lemma relocate_one_returns resolve loaded i sh k symtab strtab j m :
  0 <= i < 2 ^ 32 -> read_section l i = Ret sh -> 0 <= k < 2 ^ 32 -> read_section l k = Ret symtab -> 0 <= j < sh_size sh / 24 ->
  returns (relocate_one resolve l loaded sh symtab strtab j m).
Proof.
  intros Hi E Hk Ek Hj. pose proof (section_words i sh Hi E) as (H1 & H2 & _). pose proof (section_words k symtab Hk Ek) as (K1 & K2 & _).
  assert (sh_size sh / 24 <= sh_size sh / 16) by (apply Z.div_le_compat_l; lia).
  assert (sh_size sh / 16 < 2 ^ 58) by (apply Z.div_lt_upper_bound; lia).
  unfold relocate_one. apply returns_io_bind.
  - apply returns_io_lift. unfold rela_entry, rela_at, symbol_at. change (Z.of_nat rela_size) with 24. change (Z.of_nat symbol_size) with 24.
    apply returns_if; intros Hb; [apply returns_Ret|]. apply returns_obind; [apply table_read; [lia | lia | done]|]. intros b _. cbn zeta.
    pose proof (Z.mod_pos_bound (Z.shiftr (r_info (decode_rela b)) 32) u32_modulus eq_refl) as Hm.
    assert (Hs : 0 <= rela_symbol (decode_rela b) < 2 ^ 58) by (unfold rela_symbol, wrap32; change u32_modulus with (2 ^ 32) in *; lia).
    apply returns_if; intros Hb2; [apply returns_Ret|]. apply returns_obind; [apply table_read; [lia | lia | done]|]. intros b2 _.
    apply returns_rbind; [|intros v _; apply returns_Ret]. unfold symbol_value. apply returns_if; intros _; [|apply returns_Ret].
    destruct (get_string strtab _) as [n|]; [|apply returns_Ret]. destruct (resolve n); apply returns_Ret.
  - intros [[r v]|] m1 _; [|apply returns_Ret]. unfold apply_relocation. cbn zeta.
    destruct (reloc_type r =? 1), (reloc_type r =? 2), (reloc_type r =? 10); apply returns_Ret.
Qed.

Lemma relocate_returns resolve loaded m : returns (relocate resolve l loaded m).
Proof.
  pose proof header_words as Hw. unfold relocate. apply returns_io_for. intros i m1 [H1 H2]%elem_of_seqZ. unfold relocate_section.
  destruct (section_out l i) eqn:Ho; [apply returns_Ret|]. assert (Hi : 0 <= i < 2 ^ 32) by lia.
  destruct (read_section_returns i Hi Ho) as [sh E]. apply returns_io_bind; [rewrite E; apply returns_io_lift, returns_Ret|].
  intros x m2 Hx. rewrite E in Hx. injection Hx as <- <-. destruct (sh_type sh =? SHT_RELA); [|apply returns_Ret].
  pose proof (section_words i sh ltac:(lia) E) as (_ & _ & H3 & _). unfold apply_relocations.
  assert (Hg : returns (get_section_header l (sh_link sh))).
  { unfold get_section_header. apply returns_if; intros Ho2; [apply returns_Ret|].
    apply returns_obind; [by apply read_section_returns|]. intros y _. apply returns_Ret. }
  apply returns_io_bind; [by apply returns_io_lift|]. intros symtab m3 Es. unfold get_section_header in Es.
  destruct (section_out l (sh_link sh)); [done|]. destruct (read_section l (sh_link sh)) as [y|] eqn:Ey; [|done]. cbn in Es. injection Es as <- <-.
  pose proof (section_words (sh_link sh) y ltac:(lia) Ey) as (_ & _ & H4 & _).
  apply returns_io_bind; [by apply returns_io_lift, get_string_table_returns|]. intros strtab m4 _.
  apply returns_io_for. intros j m5 Hj%elem_of_seqZ. apply (relocate_one_returns resolve loaded i sh (sh_link sh)); [lia | done | lia | done |].
  change (Z.of_nat rela_size) with 24 in Hj. lia.
Qed.

End Modest.

(** ** The signature section *)

Lemma slice_file d a b s : is_file d -> slice d a b = Ret s -> is_file s.
Proof.
  intros Hf E. unfold slice in E. destruct (_ && _); [|done]. injection E as <-. by apply Forall_take, Forall_drop.
Qed.

Lemma parse_signature_returns d : is_file d -> returns (parse_signature_section d).
Proof.
  intros Hf. unfold parse_signature_section. apply returns_if; intros Hl; [apply returns_Ret|]. rewrite Z.ltb_ge in Hl.
  apply returns_obind; [by apply read_returns|]. intros s E. cbn zeta. apply returns_if; intros _; [apply returns_Ret|].
  apply returns_if; intros _; [apply returns_Ret|].
  pose proof (fun j n => field_bound d s 0 j n signature_header_size Hf E) as F.
  pose proof (F 16%nat 4%nat). pose proof (F 20%nat 4%nat). pose proof (F 96%nat 4%nat). cbn in *.
  apply returns_rbind.
  - unfold parse_compiler_version. cbn. apply returns_if; intros _; [|apply returns_Ret]. apply returns_if; intros Hb; [apply returns_Ret|].
    rewrite Z.gtb_ltb, Z.ltb_ge in Hb. apply returns_obind; [apply slice_returns; lia|]. intros b _. destruct (from_utf8 b); apply returns_Ret.
  - intros cv _. apply returns_if; intros Hb; [apply returns_Ret|]. rewrite Z.gtb_ltb, Z.ltb_ge in Hb.
    apply returns_obind; [apply slice_returns; lia|]. intros b _. apply returns_Ret.
Qed.

(** What [first_section] finds lies in the file. *)
Lemma signature_section_spec d h t i : modest (mkLoader d h) -> 0 <= i < 2 ^ 32 ->
  exists r, signature_section d h t i = Ret r /\ forall s, r = Some s -> exists a b, slice d a b = Ret s.
Proof.
  intros Hl Hi. unfold signature_section. destruct (section_out (mkLoader d h) i) eqn:Ho; [by eexists|].
  destruct (read_section_returns _ Hl i Hi Ho) as [sh E]. rewrite E. cbn [obind]. case_if; [by eexists|]. case_if; [|by eexists].
  pose proof (section_words _ Hl i sh ltac:(lia) E) as (H1 & H2 & _). rewrite (wrap_u64 (sh_offset sh + sh_size sh)) by lia.
  case_if; [|by eexists]. destruct (slice_returns d (sh_offset sh) (sh_offset sh + sh_size sh)) as [s Es]; [lia | lia | lia |].
  rewrite Es. cbn. eexists. split; [done|]. intros s' Hs. injection Hs as <-. by eexists _, _.
Qed.

Lemma first_section_spec d h t js : modest (mkLoader d h) -> Forall (fun i => 0 <= i < 2 ^ 32) js ->
  exists r, first_section d h t js = Ret r /\ forall s, r = Some s -> exists a b, slice d a b = Ret s.
Proof.
  intros Hl. induction 1 as [|i js Hi Hjs IH]; cbn [first_section]; [by eexists|].
  destruct (signature_section_spec d h t i Hl Hi) as (r & E & Hr). rewrite E. cbn [obind]. destruct r as [s|]; [|done].
  eexists. split; [done|]. intros s' Hs. injection Hs as <-. by apply Hr.
Qed.

(** The file of a loader whose header is the one at its start. *)
Definition modest_file (d : list Z) : Prop :=
  is_file d /\ forall s, read d 0 header_size = Ret s -> modest (mkLoader d (decode_header s)).

Lemma find_signature_spec d : modest_file d ->
  exists r, find_signature_section d = Ret r /\ forall s, r = Some s -> exists a b, slice d a b = Ret s.
Proof.
  intros [Hf Hm]. unfold find_signature_section. destruct (len d <? Z.of_nat header_size) eqn:Hlen; [by eexists|]. rewrite Z.ltb_ge in Hlen.
  destruct (read_returns d 0 header_size) as [s E]; [lia | lia |]. rewrite E. cbn [obind]. specialize (Hm s E). set (h := decode_header s) in *.
  case_if; [by eexists|]. pose proof (header_words _ Hm) as Hw. cbn [header] in Hw.
  destruct (section_out (mkLoader d h) (e_shstrndx h)) eqn:Ho; [by eexists|].
  destruct (read_section_returns _ Hm (e_shstrndx h) ltac:(lia) Ho) as [sh Es]. rewrite Es. cbn [obind].
  pose proof (section_words _ Hm (e_shstrndx h) sh ltac:(lia) Es) as (H1 & H2 & _). rewrite (wrap_u64 (sh_offset sh + sh_size sh)) by lia.
  case_if; [by eexists|]. destruct (slice_returns d (sh_offset sh) (sh_offset sh + sh_size sh)) as [t Et]; [lia.. |]. rewrite Et. cbn [obind].
  apply first_section_spec; [done|]. apply Forall_forall. intros i Hi%elem_of_seqZ. lia.
Qed.

Lemma extract_returns req d : modest_file d -> returns (extract_signature req d).
Proof.
  intros Hm. unfold extract_signature. apply returns_if; intros _; [apply returns_Ret|].
  destruct (find_signature_spec d Hm) as (r & -> & Hr). cbn [obind]. destruct r as [s|]; [|destruct req; apply returns_Ret].
  destruct (Hr s eq_refl) as (a & b & Es). apply parse_signature_returns. destruct Hm as [Hf _]. by apply (slice_file d a b).
Qed.

Lemma loader_new_spec d : returns (loader_new d) /\ forall l, loader_new d = ok l -> exists s, read d 0 header_size = Ret s /\ l = mkLoader d (decode_header s).
Proof.
  unfold loader_new. destruct (len d <? Z.of_nat header_size) eqn:Hlen; [by split; [apply returns_Ret|]|]. rewrite Z.ltb_ge in Hlen.
  destruct (read_returns d 0 header_size) as [s E]; [lia | lia |]. rewrite E. cbn [obind]. cbn zeta. split.
  - do 4 (case_if; [apply returns_Ret|]). apply returns_Ret.
  - intros l Hl. repeat case_if_in Hl; try done. injection Hl as <-. by exists s.
Qed.

Lemma place_cell_returns alloc d r m : modest_file d -> returns (place_cell alloc d r m).
Proof.
  intros [Hf Hm]. destruct (loader_new_spec d) as [Hn Hs]. unfold place_cell. apply returns_io_bind; [by apply returns_io_lift|].
  intros l m1 E. unfold io_lift in E. destruct (loader_new d) as [[l'|e]|] eqn:En; try done. cbn in E. injection E as <- <-.
  destruct (Hs l' eq_refl) as (s & Er & ->). specialize (Hm s Er). set (l := mkLoader d (decode_header s)) in *.
  apply returns_io_bind; [by apply returns_io_lift, parse_returns|]. intros info m2 Ei. unfold io_lift in Ei.
  destruct (parse l) as [[i'|e]|] eqn:Ep; try done. cbn in Ei. injection Ei as <- <-.
  destruct (unresolved r (imports i')); [apply returns_Ret|].
  apply returns_io_bind; [by eapply load_returns, parse_segments|]. intros loaded m3 _.
  apply returns_io_bind; [by apply relocate_returns|]. intros [] m4 _. apply returns_Ret.
Qed.

Lemma load_cell_returns req sha ed alloc w n d allow : modest_file d -> returns (load_cell req sha ed alloc w n d allow).
Proof.
  intros Hm. unfold load_cell. apply returns_obind; [by apply extract_returns|]. intros [s|e] _; [|apply returns_Ret].
  destruct (verify_signature _ _ _ _ s d) as [good v]. apply returns_if; intros _; [apply returns_Ret|].
  apply returns_if; intros _; [apply returns_Ret|]. apply returns_obind; [by apply place_cell_returns|].
  intros [[[info loaded]|e] m] _; apply returns_Ret.
Qed.

(** ** Memory *)

Lemma write_bytes_lookup m a bs x :
  0 <= a -> a + len bs <= u64_modulus ->
  write_bytes m a bs !! x = if decide (a <= x < a + len bs) then bs !! Z.to_nat (x - a) else m !! x.
Proof.
  revert m a. induction bs as [|b bs IH]; intros m a Ha Hb; unfold len in *; cbn [write_bytes length] in *.
  { rewrite decide_False by lia. done. }
  rewrite IH by lia. rewrite wrap64_small by (unfold is_u64; lia). destruct (decide (x = a)) as [->|Hne].
  - rewrite decide_False, decide_True by lia. rewrite lookup_insert_eq. by replace (Z.to_nat (a - a)) with O by lia.
  - rewrite lookup_insert_ne by done. destruct (decide (a + 1 <= x < a + 1 + Z.of_nat (length bs))).
    + rewrite decide_True by lia. replace (Z.to_nat (x - a)) with (S (Z.to_nat (x - (a + 1)))) by lia. done.
    + by rewrite decide_False by lia.
Qed.

Lemma len_app (a b : list Z) : len (a ++ b) = len a + len b.
Proof. unfold len. rewrite length_app. lia. Qed.

Lemma len_replicate n (x : Z) : len (replicate n x) = Z.of_nat n.
Proof. unfold len. by rewrite length_replicate. Qed.

(** Two writes that follow each other. *)
Lemma write_bytes_app m a b c : 0 <= a -> a + len b + len c <= u64_modulus -> write_bytes (write_bytes m a b) (a + len b) c = write_bytes m a (b ++ c).
Proof.
  intros Ha Hb. apply map_eq. intros x. pose proof (Nat2Z.is_nonneg (length b)). pose proof (Nat2Z.is_nonneg (length c)). unfold len in *.
  rewrite !write_bytes_lookup by (unfold len; rewrite ?length_app; lia). unfold len. rewrite length_app.
  destruct (decide (a + Z.of_nat (length b) <= x < a + Z.of_nat (length b) + Z.of_nat (length c))).
  - rewrite decide_True by lia. rewrite lookup_app_r by lia. f_equal. lia.
  - destruct (decide (a <= x < a + Z.of_nat (length b))).
    + rewrite decide_True by lia. by rewrite lookup_app_l by lia.
    + by rewrite decide_False by lia.
Qed.

(** ** Placing *)

Section Place.
Context (l : ElfLoader) (base size : Z).
Context (Hlen : len (data l) < u64_modulus) (Hbase : 0 <= base) (Htop : base + size <= u64_modulus).

(** The segment lies in the file and in the block. *)
Record fits (s : SegmentInfo) : Prop := {
  ft_file : 0 <= file_offset s /\ file_offset s + file_size s <= len (data l);
  ft_sizes : 0 <= file_size s <= mem_size s;
  ft_block : 0 <= vaddr s /\ vaddr s + mem_size s <= size }.

(** What the segment holds in memory. *)
Definition image (s : SegmentInfo) : list Z :=
  take (Z.to_nat (file_size s)) (drop (Z.to_nat (file_offset s)) (data l)) ++ replicate (Z.to_nat (mem_size s - file_size s)) 0.

Lemma len_image s : fits s -> len (image s) = mem_size s.
Proof.
  intros [[H1 H2] [H3 H4] _]. unfold image. rewrite len_app, len_replicate. unfold len in *. rewrite length_take, length_drop. lia.
Qed.

Lemma load_segment_spec s m : fits s -> load_segment l base s m = Ret (Ok tt, write_bytes m (base + vaddr s) (image s)).
Proof.
  intros Hs. pose proof Hs as [[H1 H2] [H3 H4] [H5 H6]]. pose proof (len_image s Hs) as Hi. unfold load_segment.
  pose proof u64_modulus_pos as Hu. rewrite (wrap64_small (file_offset s + file_size s)) by (unfold is_u64; lia).
  rewrite Z.gtb_ltb, (proj2 (Z.ltb_ge _ _)) by lia. unfold io_bind, io_lift, io_write, io_ok, read.
  rewrite !(proj2 (Z.leb_le _ _)) by lia. cbn [andb obind ok]. unfold image in *. set (bs := take _ _) in *.
  assert (Hbs : len bs = file_size s).
  { unfold bs, len in *. rewrite length_take, length_drop. lia. }
  rewrite Z.gtb_ltb. destruct (Z.ltb_spec (file_size s) (mem_size s)) as [Hlt|Hge].
  - rewrite (wrap64_small (base + vaddr s)) by (unfold is_u64; lia). rewrite (wrap64_small (base + vaddr s + file_size s)) by (unfold is_u64; lia).
    rewrite <- Hbs at 1. rewrite write_bytes_app; [done | lia |]. rewrite len_replicate. lia.
  - replace (Z.to_nat (mem_size s - file_size s)) with O by lia. cbn [replicate]. rewrite app_nil_r.
    destruct (Z.eq_dec (file_size s) 0) as [Hz|Hnz]; [|by rewrite (wrap64_small (base + vaddr s)) by (unfold is_u64; lia)].
    destruct bs; [done | unfold len in Hbs; cbn in Hbs; lia].
Qed.

Definition write_segments (m : memory) (segs : list SegmentInfo) : memory :=
  foldl (fun m s => write_bytes m (base + vaddr s) (image s)) m segs.

Lemma load_segments_spec segs m : Forall fits segs -> io_for (load_segment l base) segs m = Ret (Ok tt, write_segments m segs).
Proof.
  intros H. revert m. induction H as [|s segs Hs Hss IH]; intros m; [done|]. cbn [io_for]. unfold io_bind. rewrite load_segment_spec by done. apply IH.
Qed.

Definition in_segment (s : SegmentInfo) (x : Z) : Prop := base + vaddr s <= x < base + vaddr s + mem_size s.

Lemma write_segment_lookup s m x : fits s ->
  write_bytes m (base + vaddr s) (image s) !! x = if decide (base + vaddr s <= x < base + vaddr s + mem_size s) then image s !! Z.to_nat (x - (base + vaddr s)) else m !! x.
Proof.
  intros Hs. pose proof Hs as [_ _ [H5 H6]]. rewrite write_bytes_lookup by (rewrite ?len_image by done; lia). by rewrite len_image.
Qed.

Lemma write_segments_outside segs m x : Forall fits segs -> Forall (fun s => ~ in_segment s x) segs -> write_segments m segs !! x = m !! x.
Proof.
  intros H. revert m. induction H as [|s segs Hs Hss IH]; intros m Hx; [done|]. apply Forall_cons in Hx as [Hx Hxs]. cbn.
  rewrite IH by done. rewrite write_segment_lookup by done. by rewrite decide_False.
Qed.

(** Segments apart from each other in memory. *)
Definition apart (s t : SegmentInfo) : Prop := vaddr s + mem_size s <= vaddr t \/ vaddr t + mem_size t <= vaddr s.

Lemma write_segments_inside segs m s x : Forall fits segs -> ForallOrdPairs apart segs -> s ∈ segs -> in_segment s x ->
  write_segments m segs !! x = image s !! Z.to_nat (x - (base + vaddr s)).
Proof.
  intros H Hd. revert m. induction Hd as [|t segs Ht Hd IH]; intros m Hin Hx; [by apply elem_of_nil in Hin|].
  apply Forall_cons in H as [Hft Hfs]. cbn. apply elem_of_cons in Hin as [->|Hin]; [|by apply IH].
  change (write_segments (write_bytes m (base + vaddr t) (image t)) segs !! x = image t !! Z.to_nat (x - (base + vaddr t))).
  rewrite write_segments_outside; [|done|].
  - rewrite write_segment_lookup by done. by rewrite decide_True.
  - rewrite List.Forall_forall in Ht. apply Forall_forall. intros u Hu. specialize (Ht u ltac:(by apply list_elem_of_In)).
    unfold apart, in_segment in *. lia.
Qed.

Lemma image_lookup s k : fits s -> 0 <= k < mem_size s ->
  image s !! Z.to_nat k = if decide (k < file_size s) then data l !! Z.to_nat (file_offset s + k) else Some 0.
Proof.
  intros [[H1 H2] [H3 H4] _] Hk. unfold image. set (bs := take _ _).
  assert (Hbs : length bs = Z.to_nat (file_size s)).
  { unfold bs, len in *. rewrite length_take, length_drop. lia. }
  destruct (decide (k < file_size s)).
  - rewrite lookup_app_l by lia. unfold bs. rewrite lookup_take_lt by lia. rewrite lookup_drop. f_equal. lia.
  - rewrite lookup_app_r by lia. apply lookup_replicate_2. lia.
Qed.

End Place.

(** C39: a cell whose segments lie in the file and in the block the allocator gives it,
    apart from each other, with the block inside the address space, is placed as the file says: the load succeeds; every byte of a segment is the
    byte of the file, and zero behind the part that is in the file; every other byte
    of the block is zero; nothing outside the block is touched. *)
Theorem load_places_segments alloc l info m base :
  len (data l) < u64_modulus -> alloc (memory_size info) = Some base -> 0 <= memory_size info <= ISIZE_LIMIT ->
  0 <= base -> base + memory_size info <= u64_modulus ->
  Forall (fits l (memory_size info)) (segments info) -> ForallOrdPairs apart (segments info) ->
  exists m', load alloc l info m =
      Ret (Ok (mkLoaded base (memory_size info) (if negb (entry_offset info =? 0) then Some (base +w entry_offset info) else None)), m') /\
    (forall s k, s ∈ segments info -> 0 <= k < mem_size s ->
       m' !! (base + vaddr s + k) = if decide (k < file_size s) then data l !! Z.to_nat (file_offset s + k) else Some 0) /\
    (forall x, base <= x < base + memory_size info -> Forall (fun s => ~ in_segment base s x) (segments info) -> m' !! x = Some 0) /\
    (forall x, ~ base <= x < base + memory_size info -> m' !! x = m !! x).
Proof.
  intros Hlen Ha Hsz Hb Ht Hf Hd. set (m0 := write_bytes m base (replicate (Z.to_nat (memory_size info)) 0)).
  assert (Hm0 : forall x, m0 !! x = if decide (base <= x < base + memory_size info) then Some 0 else m !! x).
  { intros x. unfold m0. rewrite write_bytes_lookup by (rewrite ?len_replicate; lia). rewrite len_replicate, Z2Nat.id by lia.
    destruct (decide _); [|done]. apply lookup_replicate_2. lia. }
  exists (write_segments l base m0 (segments info)). split.
  { unfold load, io_bind, allocate_memory. rewrite Z.gtb_ltb, (proj2 (Z.ltb_ge _ _)) by lia. rewrite Ha. unfold io_write, io_ok, io_bind. fold m0.
    by rewrite (load_segments_spec l base (memory_size info) Hlen Hb Ht). }
  split; [|split].
  - intros s k Hs Hk. rewrite (write_segments_inside l base (memory_size info) Hb Ht _ _ s) by (try done; unfold in_segment; lia).
    replace (base + vaddr s + k - (base + vaddr s)) with k by lia. apply (image_lookup l (memory_size info)); [|done].
    rewrite Forall_forall in Hf. by apply Hf.
  - intros x Hx Hno. rewrite (write_segments_outside l base (memory_size info)) by done. by rewrite Hm0, decide_True.
  - intros x Hx. rewrite (write_segments_outside l base (memory_size info)); [by rewrite Hm0, decide_False | done..|].
    apply Forall_forall. intros s Hs Hin. rewrite Forall_forall in Hf. destruct (Hf s Hs) as [_ H3 [H5 H6]]. unfold in_segment in Hin. lia.
Qed.

(** ** Which cells are accepted *)

Section Accept.
Context (req : bool) (sha : list Z -> list Z) (ed : list Z -> list Z -> list Z -> bool).

(** Signed by a key that is trusted (any key, when none is listed), over the hash of
    the file. *)
Definition signed (v : SignatureVerifier) (s : CellSignature) (d : list Z) : Prop :=
  is_well_formed s = true /\ (trusted_keys v = [] \/ public_key s ∈ trusted_keys v) /\ sha d = hash s /\
  ed (public_key s) (hash s) (signature s) = true.

Definition bypassed (v : SignatureVerifier) (s : CellSignature) : Prop := allow_dev_mode v = true /\ is_dev_signature s = true.

Lemma verify_ed25519_sound key msg sig : verify_ed25519 ed key msg sig = true -> ed key msg sig = true.
Proof. unfold verify_ed25519. by repeat case_if. Qed.

Lemma verify_sound v s d v' : verify sha ed v s d = (Ok tt, v') -> bypassed v s \/ signed v s d.
Proof.
  unfold verify. cbn [with_stats allow_dev_mode trusted_keys stats].
  destruct (allow_dev_mode v && is_dev_signature s) eqn:Ed; [apply andb_prop in Ed; by left|].
  destruct (is_well_formed s) eqn:Ew; [|done]. cbn [negb]. intros E. right. split; [done|].
  destruct (negb (bool_decide (trusted_keys v = [])) && negb (is_trusted_key (with_stats v (count_attempt (stats v))) (public_key s))) eqn:Et; [done|].
  destruct (bool_decide (sha d = hash s)) eqn:Eh; [|done]. cbn [negb] in E. apply bool_decide_eq_true in Eh.
  destruct (verify_ed25519 ed (public_key s) (hash s) (signature s)) eqn:Ev; [|done]. apply verify_ed25519_sound in Ev.
  split; [|done]. apply andb_false_iff in Et as [Et|Et]; apply negb_false_iff, bool_decide_eq_true in Et; [by left | by right].
Qed.

(** What a development signature is is decided by the file itself. *)
Lemma verify_complete v s d : bypassed v s -> exists v', verify sha ed v s d = (Ok tt, v').
Proof. intros [H1 H2]. unfold verify. cbn. rewrite H1, H2. by eexists. Qed.

Lemma verify_stats v s d : let '(r, v') := verify sha ed v s d in
  trusted_keys v' = trusted_keys v /\ allow_dev_mode v' = allow_dev_mode v /\
  stats v' = mkVerifierStats (verification_attempts (stats v) +w 1)
    (match r with Ok _ => successful_verifications (stats v) +w 1 | Err _ => successful_verifications (stats v) end)
    (match r with Ok _ => failed_verifications (stats v) | Err _ => failed_verifications (stats v) +w 1 end)
    (if allow_dev_mode v && is_dev_signature s then dev_mode_bypasses (stats v) +w 1 else dev_mode_bypasses (stats v)).
Proof.
  unfold verify. cbn. destruct (allow_dev_mode v && is_dev_signature s); [done|]. by repeat case_if.
Qed.

(** [load_cell] on success, step by step. *)
Lemma load_cell_ok alloc w n d allow i w' :
  load_cell req sha ed alloc w n d allow = Ret (Ok i, w') ->
  exists s v info loaded m, extract_signature req d = ok s /\
    verify sha ed (default (verifier_new req) (GLOBAL_VERIFIER w)) s d = (Ok tt, v) /\ (contains_unsafe s = true -> allow = true) /\
    place_cell alloc d (CELL_REGISTRY w) (mem w) = Ret (Ok (info, loaded), m) /\ i = next_id (CELL_REGISTRY w) /\
    w' = mkWorld (Some v) (register (mkRegistry (cells (CELL_REGISTRY w)) (symbol_table (CELL_REGISTRY w)) (next_id (CELL_REGISTRY w) +w 1))
           (cell_of i n s info loaded)) m.
Proof.
  unfold load_cell. destruct (extract_signature req d) as [[s|e]|]; try done. cbn [obind]. unfold verify_signature.
  destruct (verify sha ed _ s d) as [r v] eqn:Ev. destruct r as [[]|e]; [|done]. cbn [negb].
  destruct (negb allow && contains_unsafe s) eqn:Eu; [done|]. destruct (place_cell _ _ _ _) as [[[[info loaded]|e] m]|] eqn:Ep; try done.
  cbn. intros E. injection E as <- <-. exists s, v, info, loaded, m. split; [done|]. split; [done|]. split; [|done].
  intros Hc. rewrite Hc, andb_true_r in Eu. by apply negb_false_iff in Eu.
Qed.

(** A failed load leaves the registry as it was. *)
Lemma load_cell_err alloc w n d allow e w' : load_cell req sha ed alloc w n d allow = Ret (Err e, w') -> CELL_REGISTRY w' = CELL_REGISTRY w.
Proof.
  unfold load_cell. destruct (extract_signature req d) as [[s|e']|]; try done; cbn [obind]; [|intros E; by injection E as _ <-].
  unfold verify_signature. destruct (verify sha ed _ s d) as [r v]. destruct r as [[]|e']; cbn [negb]; [|intros E; by injection E as _ <-].
  destruct (negb allow && contains_unsafe s); [intros E; by injection E as _ <-|].
  destruct (place_cell _ _ _ _) as [[[[info loaded]|e'] m]|]; try done. cbn. intros E. by injection E as _ <-.
Qed.

Lemma place_cell_imports alloc d r m info loaded m' :
  place_cell alloc d r m = Ret (Ok (info, loaded), m') -> forall n, n ∈ imports info -> is_Some (symbol_table r !! n).
Proof.
  unfold place_cell, io_bind, io_lift. destruct (loader_new d) as [[l|e]|]; try done. cbn [obind].
  destruct (parse l) as [[i'|e]|]; try done. cbn [obind]. destruct (unresolved r (imports i')) eqn:Eu; [done|].
  destruct (load _ _ _ _) as [[[ld|e] m1]|]; try done. destruct (relocate _ _ _ _) as [[[[]|e] m2]|]; try done.
  intros E. injection E as <- _ _. intros n Hn. destruct (symbol_table r !! n) eqn:Es; [by eexists|]. exfalso.
  assert (Hf : n ∈ filter (fun n => resolve_symbol r n = None) (imports i')) by (by apply list_elem_of_filter).
  unfold unresolved in Eu. destruct (filter _ _); [by apply elem_of_nil in Hf | done].
Qed.

(** ** The registry *)

(** A symbol that resolves belongs to a cell that is loaded, at its address. *)
Record registry_sound (r : CellRegistry) : Prop := {
  rs_ids : forall i e, cells r !! i = Some e -> id e = i /\ 0 <= i < next_id r;
  rs_next : 0 < next_id r;
  rs_symbols : forall n a, symbol_table r !! n = Some a -> exists i e, cells r !! i = Some e /\ n ∈ cell_exports e /\ load_address e = a }.

Lemma exports_inserted_lookup (names : list name) (a : Z) (t : gmap name Z) n :
  foldl (fun t s => <[s := a]> t) t names !! n = if decide (n ∈ names) then Some a else t !! n.
Proof.
  revert t. induction names as [|x names IH]; intros t; cbn [foldl]; [by rewrite decide_False by apply not_elem_of_nil|].
  rewrite IH. destruct (decide (n ∈ names)) as [Hn|Hn].
  - rewrite decide_True by (by apply list_elem_of_further). done.
  - destruct (decide (n = x)) as [->|Hne].
    + rewrite decide_True by apply list_elem_of_here. by rewrite lookup_insert_eq.
    + rewrite decide_False by (by intros [?|?]%elem_of_cons). by rewrite lookup_insert_ne by done.
Qed.

Lemma exports_deleted_lookup (names : list name) (t : gmap name Z) n :
  foldl (fun t s => delete s t) t names !! n = if decide (n ∈ names) then None else t !! n.
Proof.
  revert t. induction names as [|x names IH]; intros t; cbn [foldl]; [by rewrite decide_False by apply not_elem_of_nil|].
  rewrite IH. destruct (decide (n ∈ names)) as [Hn|Hn].
  - by rewrite decide_True by (by apply list_elem_of_further).
  - destruct (decide (n = x)) as [->|Hne].
    + rewrite decide_True by apply list_elem_of_here. by rewrite lookup_delete_eq.
    + rewrite decide_False by (by intros [?|?]%elem_of_cons). by rewrite lookup_delete_ne by done.
Qed.

Lemma register_sound r e :
  registry_sound r -> cells r !! id e = None -> 0 <= id e < next_id r -> registry_sound (register r e).
Proof.
  intros [A1 A2 A3] Hno Hid. split; cbn.
  - intros i e' H. rewrite lookup_insert in H. case_decide; [|by apply A1]. by injection H as <-; subst.
  - done.
  - intros n a H. rewrite exports_inserted_lookup in H. destruct (decide (n ∈ cell_exports e)) as [Hn|Hn].
    + injection H as <-. exists (id e), e. by rewrite lookup_insert_eq.
    + destruct (A3 n a H) as (i & e' & Hi & He). exists i, e'. rewrite lookup_insert_ne; [done | congruence].
Qed.

Lemma unload_sound r i : registry_sound r -> registry_sound (unload r i).2.
Proof.
  intros [A1 A2 A3]. unfold unload. destruct (cells r !! i) as [e|] eqn:Ei; [|done]. split; cbn.
  - intros j e' H. apply lookup_delete_Some in H as [_ H]. by apply A1.
  - done.
  - intros n a H. rewrite exports_deleted_lookup in H. destruct (decide (n ∈ cell_exports e)) as [Hn|Hn]; [done|].
    destruct (A3 n a H) as (j & e' & Hj & He & Ha). exists j, e'. split; [|done]. rewrite lookup_delete_ne; [done|]. intros ->. congruence.
Qed.

Lemma next_id_sound r : registry_sound r -> next_id r + 1 < u64_modulus -> registry_sound (mkRegistry (cells r) (symbol_table r) (next_id r +w 1)) /\ cells r !! next_id r = None.
Proof.
  intros [A1 A2 A3] Hn. rewrite wrap64_small by (unfold is_u64; lia). split.
  - split; cbn; [|lia | done]. intros i e H. destruct (A1 i e H). lia.
  - destruct (cells r !! next_id r) as [e|] eqn:E; [|done]. apply A1 in E. lia.
Qed.

Lemma load_cell_sound alloc w n d allow i w' :
  load_cell req sha ed alloc w n d allow = Ret (Ok i, w') -> registry_sound (CELL_REGISTRY w) -> next_id (CELL_REGISTRY w) + 1 < u64_modulus ->
  registry_sound (CELL_REGISTRY w') /\ cells (CELL_REGISTRY w) !! i = None.
Proof.
  intros E H Hn. destruct (load_cell_ok _ _ _ _ _ _ _ E) as (s & v & info & loaded & m & _ & _ & _ & _ & -> & ->). cbn.
  destruct (next_id_sound _ H Hn) as [Hs Hno]. split; [|done]. apply register_sound; [done | done |]. cbn.
  rewrite wrap64_small by (pose proof (rs_next _ H); unfold is_u64; lia). pose proof (rs_next _ H). lia.
Qed.

End Accept.

(** Loading and unloading, from the registry with the kernel in it. *)
Inductive registry_step : CellRegistry -> CellRegistry -> Prop :=
| step_load req sha ed alloc w n d allow i w' :
    load_cell req sha ed alloc w n d allow = Ret (Ok i, w') -> registry_step (CELL_REGISTRY w) (CELL_REGISTRY w')
| step_unload r i : registry_step r (unload_cell r i).2.

Definition booted_registry : CellRegistry := init_kernel_cell registry_new.

Lemma booted_registry_sound : registry_sound booted_registry.
Proof.
  split; [|done|].
  - intros i e H. cbn in H. rewrite lookup_insert in H. case_decide; [|by rewrite lookup_empty in H]. injection H as <-. subst. cbn. split; [done|]. unfold KERNEL. lia.
  - intros n a H. cbn in H. by rewrite lookup_empty in H.
Qed.

Lemma registry_step_sound r r' : registry_step r r' -> registry_sound r -> next_id r + 1 < u64_modulus -> registry_sound r' /\ next_id r' <= next_id r + 1.
Proof.
  intros [req sha ed alloc w n d allow i w' E | r0 i] H Hn.
  - destruct (load_cell_sound _ _ _ _ _ _ _ _ _ _ E H Hn) as [Hs _]. split; [done|].
    destruct (load_cell_ok _ _ _ _ _ _ _ _ _ _ E) as (s & v & info & loaded & m & _ & _ & _ & _ & -> & ->). cbn.
    rewrite wrap64_small by (pose proof (rs_next _ H); unfold is_u64; lia). lia.
  - unfold unload_cell. destruct (existsb _ _); cbn [snd]; [by split; [|lia]|]. split; [by apply unload_sound|].
    unfold unload. destruct (cells r0 !! i); cbn; lia.
Qed.

Lemma registry_steps_sound k r : nsteps registry_step k booted_registry r -> Z.of_nat k < 2 ^ 63 -> registry_sound r /\ next_id r <= Z.of_nat k + 1.
Proof.
  revert r. induction k as [|k IH]; intros r H Hk.
  - inversion H; subst. split; [apply booted_registry_sound | done].
  - apply nsteps_inv_r in H as (r1 & H1 & H2). destruct (IH r1 H1 ltac:(lia)) as [Hs Hn].
    destruct (registry_step_sound r1 r H2 Hs) as [Hs' Hn']; [change u64_modulus with (2 ^ 64); lia|]. split; [done | lia].
Qed.

(** No cell is recorded to depend on another. *)
Lemma registry_steps_dependencies k r : nsteps registry_step k booted_registry r -> forall i e, cells r !! i = Some e -> dependencies e = [].
Proof.
  revert r. induction k as [|k IH]; intros r H.
  - inversion H; subst. intros i e E. cbn in E. rewrite lookup_insert in E. case_decide; [by injection E as <- | by rewrite lookup_empty in E].
  - apply nsteps_inv_r in H as (r1 & H1 & H2). specialize (IH r1 H1). destruct H2 as [req sha ed alloc w n d allow j w' E | r0 j]; intros i e Hi.
    + destruct (load_cell_ok _ _ _ _ _ _ _ _ _ _ E) as (s & v & info & loaded & m & _ & _ & _ & _ & -> & ->). cbn in Hi.
      rewrite lookup_insert in Hi. case_decide; [by injection Hi as <- | by apply (IH i)].
    + unfold unload_cell in Hi. destruct (existsb _ _); cbn [snd] in Hi; [by apply (IH i)|]. unfold unload in Hi.
      destruct (cells r0 !! j); cbn in Hi; [|by apply (IH i)]. apply lookup_delete_Some in Hi as [_ Hi]. by apply (IH i).
Qed.

(** ** Where the hash of an accepted file is *)

Lemma slice_sub d a b s i n : slice d a b = Ret s -> (i + n <= length s)%nat -> exists off, take n (drop i s) = take n (drop off d).
Proof.
  intros E Hl. unfold slice in E. destruct (_ && _) eqn:Hc; [|done]. injection E as <-. exists (Z.to_nat a + i)%nat.
  rewrite skipn_firstn_comm, take_take, drop_drop. f_equal. rewrite length_take in Hl. lia.
Qed.

Lemma first_section_slice d h t js s : first_section d h t js = Ret (Some s) -> exists a b, slice d a b = Ret s.
Proof.
  induction js as [|j js IH]; cbn; [done|]. unfold signature_section.
  destruct (section_out _ j); cbn [obind]; [done|]. destruct (read_section _ j) as [sh|]; [|done]. cbn [obind].
  case_if; cbn [obind]; [done|]. case_if; cbn [obind]; [|done]. case_if; cbn [obind]; [|done].
  destruct (slice d (sh_offset sh) _) as [x|] eqn:Ex; [|done]. cbn. intros Eq. injection Eq as <-. by eexists _, _.
Qed.

Lemma find_signature_slice d s : find_signature_section d = Ret (Some s) -> exists a b, slice d a b = Ret s.
Proof.
  unfold find_signature_section. case_if; [done|]. destruct (read d 0 header_size) as [x|]; [|done]. cbn [obind]. cbn zeta. case_if; [done|].
  destruct (section_out _ _); [done|]. destruct (read_section _ _) as [sh|]; [|done]. cbn [obind]. case_if; [done|].
  destruct (slice d _ _) as [t|]; [|done]. cbn [obind]. apply first_section_slice.
Qed.

Lemma parse_signature_hash d s : parse_signature_section d = ok s -> hash s = take 32 (drop 32 d) /\ (64 <= length d)%nat.
Proof.
  unfold parse_signature_section. destruct (len d <? Z.of_nat signature_header_size) eqn:Hl; [done|]. rewrite Z.ltb_ge in Hl.
  unfold read. destruct (_ && _); [|done]. cbn [obind Z.to_nat drop]. cbn zeta. case_if; [done|]. case_if; [done|].
  destruct (parse_compiler_version _ _) as [[cv|e]|]; try done. cbn [rbind]. case_if; [done|].
  destruct (slice d _ _) as [g|]; [|done]. cbn. intros Eq. injection Eq as <-. cbn [hash]. unfold signature_header_size, len in *. split; [|lia].
  rewrite skipn_firstn_comm. rewrite take_take. done.
Qed.

Lemma extract_hash req d s : extract_signature req d = ok s -> signature s = [] \/ exists off, hash s = take 32 (drop off d).
Proof.
  unfold extract_signature. case_if; [done|]. destruct (find_signature_section d) as [[x|]|] eqn:Ef; try done; cbn [obind].
  - intros Eq. right. destruct (parse_signature_hash x s Eq) as [-> Hl]. destruct (find_signature_slice d x Ef) as (a & b & Es). apply (slice_sub d a b x 32 32 Es). lia.
  - destruct req; [done|]. intros Eq. injection Eq as <-. by left.
Qed.

(** ** Relocations *)

Lemma to_le_lookup_read m a n v : 0 <= a -> a + Z.of_nat n <= u64_modulus ->
  forall i, (i < n)%nat -> write_bytes m a (to_le n v) !! (a + Z.of_nat i) = to_le n v !! i.
Proof.
  intros Ha Hn i Hi. rewrite write_bytes_lookup; [| done | unfold len; rewrite length_to_le; done].
  unfold len. rewrite length_to_le. rewrite decide_True by lia. f_equal. lia.
Qed.

(** The bytes of memory at an address. *)
Definition peek (m : memory) (a : Z) (n : nat) : list Z := (fun i => default 0 (m !! (a + Z.of_nat i))) <$> seq 0 n.

Lemma peek_write m a n v : 0 <= a -> a + Z.of_nat n <= u64_modulus -> peek (write_bytes m a (to_le n v)) a n = to_le n v.
Proof.
  intros Ha Hn. apply list_eq. intros i. unfold peek. rewrite list_lookup_fmap. destruct (decide (i < n)%nat) as [Hi|Hi].
  - rewrite lookup_seq_lt by done. cbn [fmap option_fmap option_map]. rewrite ?Nat.add_0_l. rewrite (to_le_lookup_read m a n v Ha Hn i Hi).
    destruct (lookup_lt_is_Some_2 (to_le n v) i) as [b ->]; [by rewrite length_to_le | done].
  - rewrite lookup_seq_ge by lia. symmetry. apply lookup_ge_None_2. rewrite length_to_le. lia.
Qed.

(** ** A signed cell *)

Definition demo_header (shnum phoff : Z) : list Z :=
  ELF_MAGIC ++ [2; 1; 1; 0; 0; 0; 0; 0; 0; 0; 0; 0] ++ to_le 2 3 ++ to_le 2 62 ++ to_le 4 1 ++ to_le 8 16 ++ to_le 8 phoff ++ to_le 8 302 ++
  to_le 4 0 ++ to_le 2 64 ++ to_le 2 56 ++ to_le 2 1 ++ to_le 2 64 ++ to_le 2 shnum ++ to_le 2 0.

Definition demo_program_header (filesz memsz : Z) : list Z :=
  to_le 4 1 ++ to_le 4 5 ++ to_le 8 0 ++ to_le 8 0 ++ to_le 8 0 ++ to_le 8 filesz ++ to_le 8 memsz ++ to_le 8 4096.

Definition demo_section (nm off sz : Z) : list Z :=
  to_le 4 nm ++ to_le 4 1 ++ to_le 8 0 ++ to_le 8 0 ++ to_le 8 off ++ to_le 8 sz ++ to_le 4 0 ++ to_le 4 0 ++ to_le 8 1 ++ to_le 8 0.

Definition demo_hash : list Z := replicate 32 9.
Definition demo_key : list Z := replicate 32 7.

Definition demo_signature : list Z :=
  SIGNATURE_MAGIC ++ to_le 4 1 ++ to_le 4 2 ++ to_le 4 0 ++ to_le 4 0 ++ to_le 8 0 ++ demo_hash ++ demo_key ++ to_le 4 64 ++ to_le 4 0 ++ replicate 64 3.

Definition demo_file : list Z :=
  demo_header 2 64 ++ demo_program_header 16 32 ++ (0 :: SIGNATURE_SECTION_NAME ++ [0]) ++ demo_signature ++ demo_section 0 120 14 ++ demo_section 1 134 168.

(** A hash function and a signature scheme with one hash and one key. *)
Definition demo_sha (d : list Z) : list Z := demo_hash.
Definition demo_ed (k m s : list Z) : bool := bool_decide (k = demo_key) && bool_decide (m = demo_hash).
Definition demo_alloc (size : Z) : option Z := Some 4096.

Definition demo_world : world := mkWorld (Some (add_trusted_key production demo_key)) booted_registry ∅.
Definition demo_load : outcome (result Z LoadError * world) := load_cell true demo_sha demo_ed demo_alloc demo_world [97] demo_file false.
Definition demo_loaded : world := match demo_load with Ret (_, w) => w | Panic => demo_world end.

Lemma demo_load_ok : demo_load = Ret (Ok 1, demo_loaded).
Proof. vm_compute. reflexivity. Qed.

(** C21: A cell is only registered when its signature was accepted: signed over the
    hash of the file by a trusted key (any key when no key is listed), unless the
    verifier allows development cells and the file calls itself one; when the
    signature says that the cell contains unsafe code, the caller allowed it; every
    import resolved.  The cell gets a new number and is recorded as safe exactly when
    the signature says so; the other cells stay. *)
Theorem loaded_cell_was_accepted req sha ed alloc w n d allow i w' :
  load_cell req sha ed alloc w n d allow = Ret (Ok i, w') -> registry_sound (CELL_REGISTRY w) -> next_id (CELL_REGISTRY w) + 1 < u64_modulus ->
  let v := default (verifier_new req) (GLOBAL_VERIFIER w) in
  exists s e, extract_signature req d = ok s /\ (bypassed v s \/ signed sha ed v s d) /\ (contains_unsafe s = true -> allow = true) /\
    (forall m, m ∈ cell_imports e -> is_Some (symbol_table (CELL_REGISTRY w) !! m)) /\
    cells (CELL_REGISTRY w) !! i = None /\ cells (CELL_REGISTRY w') = <[i := e]> (cells (CELL_REGISTRY w)) /\
    cell_name e = n /\ is_safe e = negb (contains_unsafe s) /\ registry_sound (CELL_REGISTRY w').
Proof.
  intros E H Hn v. destruct (load_cell_sound _ _ _ _ _ _ _ _ _ _ E H Hn) as [Hs Hno].
  destruct (load_cell_ok _ _ _ _ _ _ _ _ _ _ E) as (s & v' & info & loaded & m & E1 & E2 & E3 & E4 & -> & ->).
  exists s, (cell_of (next_id (CELL_REGISTRY w)) n s info loaded). split; [done|]. split; [by eapply verify_sound|]. split; [done|].
  split; [by eapply place_cell_imports|]. done.
Qed.

Lemma loaded_cell_was_accepted_witness : exists s e, extract_signature true demo_file = ok s /\ signed demo_sha demo_ed (add_trusted_key production demo_key) s demo_file /\
  cells (CELL_REGISTRY demo_loaded) !! 1 = Some e.
Proof.
  destruct (loaded_cell_was_accepted true demo_sha demo_ed demo_alloc demo_world [97] demo_file false 1 demo_loaded demo_load_ok booted_registry_sound eq_refl)
    as (s & e & E1 & [[E2 _]|E2] & _ & _ & _ & E3 & _).
  - vm_compute in E2. congruence.
  - exists s, e. split; [exact E1|]. split; [exact E2|]. rewrite E3. apply lookup_insert_eq.
Defined.

(** A symbol that resolves belongs to a cell that is loaded, at the address of that
    cell, after any sequence of loads and unloads since the start of the kernel. *)
Theorem symbols_belong_to_loaded_cells k r :
  nsteps registry_step k booted_registry r -> Z.of_nat k < 2 ^ 63 ->
  forall n a, resolve_symbol r n = Some a -> exists i e, cells r !! i = Some e /\ id e = i /\ n ∈ cell_exports e /\ load_address e = a.
Proof.
  intros H Hk n a Hn. destruct (registry_steps_sound k r H Hk) as [[A1 A2 A3] _]. destruct (A3 n a Hn) as (i & e & Hi & He).
  exists i, e. split; [done|]. by split; [apply (A1 i e Hi)|].
Qed.

Definition exporting (i : Z) (n : name) (a : Z) : CellEntry := mkCell i n Loaded a 32 None [[102]] [] [] true true.

Lemma symbols_belong_to_loaded_cells_witness : forall n a, resolve_symbol (CELL_REGISTRY demo_loaded) n = Some a -> exists i e,
  cells (CELL_REGISTRY demo_loaded) !! i = Some e /\ id e = i /\ n ∈ cell_exports e /\ load_address e = a.
Proof.
  apply (symbols_belong_to_loaded_cells 1); [|reflexivity]. apply nsteps_once.
  exact (step_load true demo_sha demo_ed demo_alloc demo_world [97] demo_file false 1 demo_loaded demo_load_ok).
Defined.

(** [unload_cell] refuses to unload a cell others depend on, but no cell ever
    records what it depends on: every unload succeeds. *)
Theorem unload_is_never_refused k r i : nsteps registry_step k booted_registry r -> unload_cell r i = (Ok tt, (unload r i).2).
Proof.
  intros H. unfold unload_cell. destruct (existsb _ _) eqn:E; [|done]. exfalso. apply existsb_exists in E as (e & Hin & He).
  apply list_elem_of_In, elem_of_map_values in Hin as [j Hj]. rewrite (registry_steps_dependencies k r H j e Hj) in He. done.
Qed.

Lemma unload_is_never_refused_witness : unload_cell (CELL_REGISTRY demo_loaded) 1 = (Ok tt, (unload (CELL_REGISTRY demo_loaded) 1).2).
Proof.
  apply (unload_is_never_refused 1). apply nsteps_once.
  exact (step_load true demo_sha demo_ed demo_alloc demo_world [97] demo_file false 1 demo_loaded demo_load_ok).
Defined.

(** The hash is taken over the whole file, the signature section included: a file
    passes only if it contains the hash of itself. *)
Theorem signed_file_contains_its_hash req sha ed v s d :
  extract_signature req d = ok s -> signed sha ed v s d -> exists off, sha d = take 32 (drop off d).
Proof.
  intros E (Hw & _ & Hh & _). destruct (extract_hash req d s E) as [Hs|[off Ho]]; [|exists off; congruence].
  unfold is_well_formed in Hw. rewrite Hs in Hw. cbn in Hw. by rewrite andb_false_r in Hw.
Qed.

Lemma signed_file_contains_its_hash_witness : exists off, demo_sha demo_file = take 32 (drop off demo_file).
Proof.
  destruct (extract_signature true demo_file) as [[s|e]|] eqn:E; [|vm_compute in E; congruence..].
  apply (signed_file_contains_its_hash true demo_sha demo_ed production s demo_file E).
  vm_compute in E. injection E as <-. split; [reflexivity|]. split; [left; reflexivity|]. split; reflexivity.
Defined.

(** ** Files that do not wrap around *)

Lemma demo_is_file : is_file demo_file.
Proof. apply (bool_decide_eq_true_1 (Forall (fun b => 0 <= b < 256) demo_file)). vm_compute. reflexivity. Qed.

Definition demo_loader : ElfLoader := mkLoader demo_file (decode_header (take 64 demo_file)).

Lemma demo_sections i sh : 0 <= i < 2 ^ 32 -> read_section demo_loader i = Ret sh -> small (sh_offset sh) /\ small (sh_size sh).
Proof.
  intros Hi E. assert (Ha : section_at demo_loader i = 302 + i * 64).
  { unfold section_at. change (e_shoff (header demo_loader)) with 302. change (e_shentsize (header demo_loader)) with 64.
    rewrite (wrap_u64 (i * 64)) by lia. by rewrite wrap_u64 by lia. }
  unfold read_section, read in E. rewrite Ha in E. change (len (data demo_loader)) with 430 in E. change (Z.of_nat section_header_size) with 64 in E.
  destruct (Z.leb_spec (302 + i * 64 + 64) 430) as [Hle|Hgt]; [|by rewrite andb_false_r in E].
  assert (i = 0 \/ i = 1) as [->| ->] by lia; vm_compute in E; injection E as <-; by vm_compute.
Qed.

Lemma demo_modest : modest_file demo_file.
Proof.
  split; [apply demo_is_file|]. intros s Es. assert (Hs : s = take 64 demo_file) by (vm_compute in Es; vm_compute; congruence). subst s.
  fold demo_loader. split; [apply demo_is_file | vm_compute; done | by exists (take 64 demo_file) | by vm_compute | by vm_compute | apply demo_sections |].
  intros i s Hi E. change (e_phnum (header demo_loader)) with 1 in Hi. assert (i = 0) as -> by lia. vm_compute in E. injection E as <-. by vm_compute.
Qed.

(** Loading a cell reads no byte outside the file, whatever the file says and
    however the load ends, as long as the offsets and sizes in its tables are below
    2^62: the load returns, with a cell or with an error. *)
Theorem load_cell_stays_in_file req sha ed alloc w n d allow :
  modest_file d -> exists r w', load_cell req sha ed alloc w n d allow = Ret (r, w') /\ (forall e, r = Err e -> CELL_REGISTRY w' = CELL_REGISTRY w).
Proof.
  intros H. destruct (load_cell_returns req sha ed alloc w n d allow H) as [[r w'] E]. exists r, w'. split; [done|].
  intros e ->. by apply (load_cell_err _ _ _ _ _ _ _ _ _ _ E).
Qed.

Lemma load_cell_stays_in_file_witness : exists r w', load_cell false demo_sha demo_ed demo_alloc demo_world [97] demo_file true = Ret (r, w').
Proof.
  destruct (load_cell_stays_in_file false demo_sha demo_ed demo_alloc demo_world [97] demo_file true demo_modest) as (r & w' & E & _).
  exists r, w'. exact E.
Defined.

(** The bounds check of a table wraps around: with its program headers at 2^64 - 56
    the file is accepted as a development cell and read outside of it. *)
Lemma wrapped_offset_reads_outside :
  load_cell false demo_sha demo_ed demo_alloc (mkWorld None booted_registry ∅) [97] (demo_header 0 (2 ^ 64 - 56)) false = Panic.
Proof. vm_compute. reflexivity. Qed.

(** ** Writes outside of the block *)

(** A segment with more bytes in the file than in memory overruns the block: the
    block has 8 bytes, sixteen are written. *)
Definition overrun : list Z := demo_header 0 64 ++ demo_program_header 16 8.

Lemma oversized_segment_overruns :
  match load_cell false demo_sha demo_ed demo_alloc (mkWorld None booted_registry {[ 4104 := 255 ]}) [97] overrun false with
  | Ret (Ok i, w) => (load_size <$> cells (CELL_REGISTRY w) !! i) = Some 8 /\ mem w !! 4104 = Some 0
  | _ => False
  end.
Proof. vm_compute. by split. Qed.

Lemma pc32_value x target : (((x mod u64_modulus - target) mod u64_modulus) mod 2 ^ 32 + target) mod 2 ^ 32 = x mod 2 ^ 32.
Proof.
  assert (Hd : (2 ^ 32 | u64_modulus)) by (by exists (2 ^ 32)).
  rewrite (Z.mod_mod_divide _ _ _ Hd), Zplus_mod_idemp_l. replace (x mod u64_modulus - target + target) with (x mod u64_modulus) by lia.
  by apply Z.mod_mod_divide.
Qed.

(** A relocation that lies in the block writes what the ABI says (the symbol plus the
    addend, as 64 or as 32 bits, or relative to the place) and nothing else. *)
Theorem relocation_value r base v m :
  let target := base + r_offset r in
  0 <= base -> 0 <= r_offset r -> target + 8 <= u64_modulus -> 0 <= v -> 0 <= r_addend r ->
  exists m', apply_relocation r base v m = Ret (Ok tt, m') /\
    (reloc_type r = 1 -> from_le (peek m' target 8) = (v + r_addend r) mod 2 ^ 64) /\
    (reloc_type r = 2 -> (from_le (peek m' target 4) + target) mod 2 ^ 32 = (v + r_addend r) mod 2 ^ 32) /\
    (reloc_type r = 10 -> from_le (peek m' target 4) = (v + r_addend r) mod 2 ^ 32) /\
    (forall x, ~ target <= x < target + 8 -> m' !! x = m !! x).
Proof.
  intros target Hb Ho Ht Hv Ha. pose proof u64_modulus_pos as Hu.
  assert (Et : base +w r_offset r = target) by (apply wrap64_small; unfold is_u64, target in *; lia).
  assert (H32 : (u64_modulus = 2 ^ 32 * 2 ^ 32)) by done.
  assert (Hw : forall n x y, (n <= 8)%nat -> ~ target <= x < target + 8 -> write_bytes m target (to_le n y) !! x = m !! x).
  { intros n x y Hn Hx. rewrite write_bytes_lookup by (unfold len; rewrite ?length_to_le; unfold target in *; lia).
    unfold len. rewrite length_to_le. by rewrite decide_False by lia. }
  assert (Hp : forall n y, (n <= 8)%nat -> 0 <= y -> from_le (peek (write_bytes m target (to_le n y)) target n) = y mod 256 ^ Z.of_nat n).
  { intros n y Hn Hy. rewrite peek_write by (unfold target in *; lia). by apply from_to_le. }
  unfold apply_relocation. rewrite Et. cbn zeta.
  destruct (Z.eqb_spec (reloc_type r) 1) as [E1|N1].
  { eexists. split; [reflexivity|]. split; [intros _|split; [intros ?; lia|split; [intros ?; lia | intros x Hx; by apply Hw; [lia|]]]].
    rewrite Hp by (try lia; by apply Z.mod_pos_bound). change (256 ^ Z.of_nat 8) with u64_modulus. unfold wrap64. by rewrite Z.mod_mod by lia. }
  destruct (Z.eqb_spec (reloc_type r) 2) as [E2|N2].
  { eexists. split; [reflexivity|]. split; [done|]. split; [intros _|split; [intros ?; lia | intros x Hx; by apply Hw; [lia|]]].
    rewrite Hp by (try lia; by apply Z.mod_pos_bound). change (256 ^ Z.of_nat 4) with (2 ^ 32). unfold wrap64. apply pc32_value. }
  destruct (Z.eqb_spec (reloc_type r) 10) as [E3|N3]; eexists; (split; [reflexivity|]); [|done].
  split; [done|]. split; [done|]. split; [intros _ | intros x Hx; by apply Hw; [lia|]].
  rewrite Hp by (try lia; by apply Z.mod_pos_bound). change (256 ^ Z.of_nat 4) with (2 ^ 32). unfold wrap64. rewrite H32. apply Z.mod_mod_divide. by exists (2 ^ 32).
Qed.

Lemma relocation_value_witness : exists m', apply_relocation (mkRela 16 1 5) 4096 100 ∅ = Ret (Ok tt, m') /\ from_le (peek m' (4096 + 16) 8) = 105.
Proof.
  destruct (relocation_value (mkRela 16 1 5) 4096 100 ∅) as (m' & E & H1 & _); [vm_compute; congruence..|].
  exists m'. split; [exact E | exact (H1 eq_refl)].
Defined.

(** Nothing checks the place of a relocation: a file can write any word anywhere. *)
Lemma relocation_writes_anywhere base sym m a v :
  0 <= base < u64_modulus -> 0 <= a -> a + 8 <= u64_modulus -> is_u64 v ->
  exists r m', apply_relocation r base sym m = Ret (Ok tt, m') /\ from_le (peek m' a 8) = v.
Proof.
  intros Hb Ha Ht Hv. pose proof u64_modulus_pos as Hu. exists (mkRela (a -w base) 1 (v -w sym)). eexists.
  assert (E1 : base +w (a -w base) = a) by (unfold wrap64; rewrite Zplus_mod_idemp_r; replace (base + (a - base)) with a by lia; apply Z.mod_small; lia).
  assert (E2 : sym +w (v -w sym) = v) by (unfold wrap64; rewrite Zplus_mod_idemp_r; replace (sym + (v - sym)) with v by lia; by apply Z.mod_small).
  unfold apply_relocation. cbn [r_offset r_addend r_info reloc_type]. rewrite E1, E2. split; [reflexivity|].
  rewrite peek_write by (cbn; lia). rewrite from_to_le by apply Hv. change (256 ^ Z.of_nat 8) with u64_modulus. by apply Z.mod_small.
Qed.

(** Every export resolves to the start of its cell, whatever the value of its symbol. *)
Lemma exports_resolve_to_base req sha ed alloc w n d allow i w' e m :
  load_cell req sha ed alloc w n d allow = Ret (Ok i, w') -> cells (CELL_REGISTRY w') !! i = Some e -> m ∈ cell_exports e ->
  resolve_symbol (CELL_REGISTRY w') m = Some (load_address e).
Proof.
  intros E. destruct (load_cell_ok _ _ _ _ _ _ _ _ _ _ E) as (s & v & info & loaded & mm & _ & _ & _ & _ & -> & ->). cbn.
  rewrite lookup_insert_eq. intros He Hm. injection He as <-. cbn in Hm. unfold resolve_symbol. cbn. rewrite exports_inserted_lookup. by rewrite decide_True.
Qed.

(** Unloading the second of two cells with the same export leaves the first one, loaded,
    without it. *)
Lemma unload_drops_foreign_symbol :
  let r := register (register booted_registry (exporting 1 [97] 4096)) (exporting 2 [98] 8192) in
  let r' := (unload_cell r 2).2 in
  resolve_symbol r [102] = Some 8192 /\ resolve_symbol r' [102] = None /\ is_Some (cells r' !! 1).
Proof. vm_compute. split; [done|]. split; [done|]. by eexists. Qed.

(** In a development build a file that calls its compiler "dev" needs no signature. *)
Lemma dev_file_needs_no_signature req sha ed v s d :
  allow_dev_mode v = true -> compiler_version s = dev_name -> exists v', verify_signature req sha ed (Some v) s d = (true, Some v').
Proof.
  intros H1 H2. unfold verify_signature. destruct (verify_complete sha ed v s d) as [v' E]; [|exists v'; cbn; by rewrite E].
  split; [done|]. unfold is_dev_signature. rewrite H2. by rewrite bool_decide_eq_true_2.
Qed.

Definition demo_info : CellInfo := mkCellInfo 16 32 4096 [] [] [mkSegment 0 0 16 32 5].

Lemma load_places_segments_witness : exists m', load demo_alloc demo_loader demo_info ∅ = Ret (Ok (mkLoaded 4096 32 (Some 4112)), m') /\ m' !! 4097 = Some 69 /\ m' !! 4127 = Some 0.
Proof.
  destruct (load_places_segments demo_alloc demo_loader demo_info ∅ 4096) as (m' & E & Hin & _).
  - vm_compute; reflexivity.
  - reflexivity.
  - vm_compute; split; congruence.
  - lia.
  - vm_compute; congruence.
  - constructor; [|constructor]. split; vm_compute; split; congruence.
  - constructor; constructor.
  - exists m'. split; [exact E|]. pose proof (Hin (mkSegment 0 0 16 32 5)) as Hs. split.
    + exact (Hs 1 (list_elem_of_here _ _) ltac:(cbn; lia)).
    + exact (Hs 31 (list_elem_of_here _ _) ltac:(cbn; lia)).
Defined.
