(* ===== verification/Disk.v ===== *)
(** * Block devices and the FAT32 filesystem (src/src/fs/block.rs, src/src/fs/fat32.rs)

    Requests to a block device are shared between the caller and the queue of the
    device, so they live in a store and are named by their number there.  The FAT32
    filesystem is written against the interface [Device] of its synchronous calls, of
    which the RAM disk of the source is an instance; what is proved of the filesystem
    holds for any device, also for one that fails or forgets.  A buffer is a list of
    bytes; names are strings of the bytes of their UTF-8 form. *)

From stdpp Require Import base list gmap strings.
From Stdlib Require Import ZArith Lia Ascii.
From S2P Require Import Prelude NetBytes Loader FsTypes.

Local Open Scope Z_scope.
Local Open Scope fs_scope.

(** ** Block devices *)

Module Block.

Inductive BlockError := NotReady | InvalidBlock | BIoError | BReadOnly | InvalidBufferSize | QueueFull | Timeout.
Inductive RequestType := Read | Write | Flush | Discard.
Inductive RequestState := Pending | Submitted | Completed | Failed (e : BlockError).

Record BlockRequest := mkRequest {
  b_id : Z; req_type : RequestType; block : Z; count : Z; buffer : option (list Z); state : RequestState; waker : option Z }.

Definition request_read (id blk cnt : Z) : BlockRequest := mkRequest id Read blk cnt (Some (replicate (Z.to_nat (cnt *w 512)) 0)) Pending None.
Definition request_write (id blk : Z) (data : list Z) : BlockRequest := mkRequest id Write blk (wrap32 (Z.of_nat (length data) / 512)) (Some data) Pending None.
Definition request_flush (id : Z) : BlockRequest := mkRequest id Flush 0 0 None Pending None.

(** The request and the wakers woken *)
Definition set_state (r : BlockRequest) (s : RequestState) : BlockRequest * list Z :=
  (mkRequest (b_id r) (req_type r) (block r) (count r) (buffer r) s None, match waker r with Some w => [w] | None => [] end).
Definition is_complete (r : BlockRequest) : bool := match state r with Completed | Failed _ => true | _ => false end.
Definition register_waker (r : BlockRequest) (w : Z) : BlockRequest := mkRequest (b_id r) (req_type r) (block r) (count r) (buffer r) (state r) (Some w).

Record BlockDeviceInfo := mkInfo { total_blocks : Z; block_size : Z; read_only : bool; max_sectors : Z; num_queues : Z }.

(** *** The RAM disk, with the store of the requests *)

Record RamDisk := mkRam { info : BlockDeviceInfo; data : list Z; pending : list Z; store : gmap Z BlockRequest; next_ref : Z; ids : Z }.

Definition ram_new (size_blocks bsz : Z) : RamDisk :=
  mkRam (mkInfo size_blocks bsz false 256 1) (replicate (Z.to_nat (size_blocks *w bsz)) 0) [] ∅ 0 0.

Definition new_1mb : RamDisk := ram_new 2048 512.
Definition next_id (d : RamDisk) : Z * RamDisk := (ids d, mkRam (info d) (data d) (pending d) (store d) (next_ref d) (ids d +w 1)).
Definition take_buffer (r : BlockRequest) : option (list Z) * BlockRequest := (buffer r, mkRequest (b_id r) (req_type r) (block r) (count r) None (state r) (waker r)).

(** [Arc::new(request)] *)
Definition new_request (d : RamDisk) (r : BlockRequest) : Z * RamDisk :=
  (next_ref d, mkRam (info d) (data d) (pending d) (<[next_ref d := r]> (store d)) (next_ref d + 1) (ids d)).

Definition change_request (d : RamDisk) (x : Z) (s : RequestState) : RamDisk * list Z :=
  match store d !! x with
  | Some r => let '(r', w) := set_state r s in (mkRam (info d) (data d) (pending d) (<[x := r']> (store d)) (next_ref d) (ids d), w)
  | None => (d, [])
  end.

Definition ram_submit (d : RamDisk) (x : Z) : result unit BlockError * RamDisk * list Z :=
  let '(d1, w) := change_request d x Submitted in
  (Ok tt, mkRam (info d1) (data d1) (pending d1 ++ [x]) (store d1) (next_ref d1) (ids d1), w).

Definition with_data (d : RamDisk) (l : list Z) : RamDisk := mkRam (info d) l (pending d) (store d) (next_ref d) (ids d).

(** The bounds of a request are compared after a wrapping addition; a slice out of them panics. *)
Definition process_request (d : RamDisk) (x : Z) : outcome (RamDisk * list Z) :=
  match store d !! x with
  | None => Ret (d, [])
  | Some r =>
      let offset := block r *w block_size (info d) in
      let size := count r *w block_size (info d) in
      let total := Z.of_nat (length (data d)) in
      let inside := offset +w size <=? total in
      match req_type r with
      | Read => Ret (if inside then change_request d x Completed else change_request d x (Failed InvalidBlock))
      | Write =>
          if inside then
            match buffer r with
            | Some b =>
                let n := Nat.min (length b) (Z.to_nat size) in
                if offset + Z.of_nat n <=? total then Ret (change_request (with_data d (put (data d) (Z.to_nat offset) (take n b))) x Completed) else Panic
            | None => Ret (change_request d x Completed)
            end
          else Ret (change_request d x (Failed InvalidBlock))
      | Flush => Ret (change_request d x Completed)
      | Discard =>
          if inside then
            if offset + size <=? total then Ret (change_request (with_data d (put (data d) (Z.to_nat offset) (replicate (Z.to_nat size) 0))) x Completed) else Panic
          else Ret (change_request d x (Failed InvalidBlock))
      end
  end.

Fixpoint process_all (xs : list Z) (d : RamDisk) : outcome (RamDisk * list Z) :=
  match xs with
  | [] => Ret (d, [])
  | x :: xs' =>
      match process_request d x with
      | Ret (d1, w1) => match process_all xs' d1 with Ret (d2, w2) => Ret (d2, w1 ++ w2) | Panic => Panic end
      | Panic => Panic
      end
  end.

Definition poll_completions (d : RamDisk) : outcome (nat * RamDisk * list Z) :=
  match process_all (pending d) (mkRam (info d) (data d) [] (store d) (next_ref d) (ids d)) with
  | Ret (d1, w) => Ret (length (pending d), d1, w)
  | Panic => Panic
  end.

(** *** The synchronous calls: submit, then poll until the request has ended *)

(** [None] is a call that goes on polling. *)
Fixpoint await (fuel : nat) (d : RamDisk) (x : Z) : option (outcome (result unit BlockError * RamDisk)) :=
  match fuel with
  | O => None
  | S f =>
      match poll_completions d with
      | Panic => Some Panic
      | Ret (_, d1, _) =>
          match state <$> store d1 !! x with
          | Some Completed => Some (Ret (Ok tt, d1))
          | Some (Failed e) => Some (Ret (Err e, d1))
          | _ => await f d1 x
          end
      end
  end.

Definition sync (fuel : nat) (d : RamDisk) (r : BlockRequest) : option (outcome (result unit BlockError * RamDisk)) :=
  let '(x, d1) := new_request d r in
  let '(_, d2, _) := ram_submit d1 x in
  await fuel d2 x.

(** The buffer is not written: the data stays in the request. *)
Definition read_sync (fuel : nat) (d : RamDisk) (blk : Z) (buf : list Z) : option (outcome (result (list Z) BlockError * RamDisk)) :=
  if block_size (info d) =? 0 then Some Panic
  else
    match sync fuel d (request_read 0 blk (wrap32 (Z.of_nat (length buf) / block_size (info d)))) with
    | Some (Ret (Ok _, d')) => Some (Ret (Ok buf, d'))
    | Some (Ret (Err e, d')) => Some (Ret (Err e, d'))
    | Some Panic => Some Panic
    | None => None
    end.

Definition write_sync (fuel : nat) (d : RamDisk) (blk : Z) (buf : list Z) : option (outcome (result unit BlockError * RamDisk)) := sync fuel d (request_write 0 blk buf).
Definition flush (fuel : nat) (d : RamDisk) : option (outcome (result unit BlockError * RamDisk)) := sync fuel d (request_flush 0).

(** *** Futures *)

Inductive BPoll (A : Type) := BReady (r : result A BlockError) | BPending.
Arguments BReady {A} r.
Arguments BPending {A}.

(** [BlockReadFuture::poll] and [BlockWriteFuture::poll] of the request [x]; [done] makes the value *)
Definition future_poll {A} (done : BlockRequest -> A) (d : RamDisk) (x w : Z) : outcome (BPoll A * RamDisk) :=
  let d1 := match state <$> store d !! x with Some Pending => (ram_submit d x).1.2 | _ => d end in
  match poll_completions d1 with
  | Panic => Panic
  | Ret (_, d2, _) =>
      Ret match store d2 !! x with
          | Some r =>
              match state r with
              | Completed => (BReady (Ok (done r)), d2)
              | Failed e => (BReady (Err e), d2)
              | _ => (BPending, mkRam (info d2) (data d2) (pending d2) (<[x := register_waker r w]> (store d2)) (next_ref d2) (ids d2))
              end
          | None => (BPending, d2)
          end
  end.
Definition read_future_poll : RamDisk -> Z -> Z -> outcome (BPoll (list Z) * RamDisk) := future_poll (fun r => default [] (buffer r)).
Definition write_future_poll : RamDisk -> Z -> Z -> outcome (BPoll Z * RamDisk) := future_poll (fun r => count r *w 512).

(** *** The registry of devices *)

Section Manager.
Context {D : Type}.
Implicit Types (m : list (string * D)) (n : string).

Definition register m n (x : D) : list (string * D) := m ++ [(n, x)].
Definition get_device m n : option D := snd <$> find (fun e => bool_decide (e.1 = n)) m.
Definition list_devices m : list string := m.*1.
Fixpoint unregister m n : option D * list (string * D) :=
  match m with
  | [] => (None, [])
  | e :: m' => if bool_decide (e.1 = n) then (Some e.2, m') else let '(o, r) := unregister m' n in (o, e :: r)
  end.
End Manager.

End Block.

(** ** FAT32 *)

Module Fat.
Import Bytes.

(** *** Clusters and the structures on the disk *)

Definition ROOT : Z := 2.
Definition FREE : Z := 0.
Definition BAD : Z := 0x0FFFFFF7.
Definition EOF : Z := 0x0FFFFFF8.
Definition is_valid (c : Z) : bool := (c >=? 2) && (c <? 0x0FFFFFF0).
Definition is_eof (c : Z) : bool := c >=? EOF.
Definition is_free (c : Z) : bool := c =? FREE.

Definition BLOCK_SIZE : nat := 512.
Definition FAT32_SIGNATURE : Z := 0xAA55.
Definition DIR_ENTRY_SIZE : nat := 32.
Definition DELETED_ENTRY : Z := 0xE5.
Definition END_OF_DIR : Z := 0.

(** [FileAttributes] *)
Definition attr_is_directory (a : Z) : bool := negb (Z.land a 0x10 =? 0).
Definition attr_is_long_name (a : Z) : bool := Z.land a 0x0F =? 0x0F.
Definition attr_is_read_only (a : Z) : bool := negb (Z.land a 0x01 =? 0).
Definition attr_is_volume_id (a : Z) : bool := negb (Z.land a 0x08 =? 0).
Definition attr_is_hidden (a : Z) : bool := negb (Z.land a 0x02 =? 0).
Definition attr_is_system (a : Z) : bool := negb (Z.land a 0x04 =? 0).

(** [BootSector], read from its bytes *)
Definition bs_sectors_per_cluster (b : list Z) : Z := field b 13 1.
Definition bs_reserved_sectors (b : list Z) : Z := field b 14 2.
Definition bs_num_fats (b : list Z) : Z := field b 16 1.
Definition bs_fat_size_32 (b : list Z) : Z := field b 36 4.
Definition bs_root_cluster (b : list Z) : Z := field b 44 4.
Definition bs_total_sectors (b : list Z) : Z := if negb (field b 19 2 =? 0) then field b 19 2 else field b 32 4.
Definition bs_fs_type (b : list Z) : list Z := take 8 (drop 82 b).
Definition bs_from_bytes (b : list Z) : result (list Z) FsError :=
  if (length b <? BLOCK_SIZE)%nat then Err InvalidArgument
  else if negb (field b 510 2 =? FAT32_SIGNATURE) then Err InvalidArgument
  else Ok (take BLOCK_SIZE b).

(** [DirEntryRaw], 32 bytes *)
Definition raw_first_cluster (e : list Z) : Z := Z.lor (Z.shiftl (field e 20 2) 16) (field e 26 2).
Definition raw_attr (e : list Z) : Z := get e 11.
Definition raw_file_size (e : list Z) : Z := field e 28 4.
Definition raw_is_deleted (e : list Z) : bool := get e 0 =? DELETED_ENTRY.
Definition raw_is_end (e : list Z) : bool := get e 0 =? END_OF_DIR.

(** A character as UTF-8 *)
Definition utf8_char (c : Z) : list Z :=
  if c <? 128 then [c]
  else if c <? 2048 then [Z.lor 192 (Z.shiftr c 6); Z.lor 128 (Z.land c 63)]
  else if c <? 65536 then [Z.lor 224 (Z.shiftr c 12); Z.lor 128 (Z.land (Z.shiftr c 6) 63); Z.lor 128 (Z.land c 63)]
  else [Z.lor 240 (Z.shiftr c 18); Z.lor 128 (Z.land (Z.shiftr c 12) 63); Z.lor 128 (Z.land (Z.shiftr c 6) 63); Z.lor 128 (Z.land c 63)].

Fixpoint to_string (l : list Z) : string :=
  match l with [] => EmptyString | b :: l' => String (ascii_of_N (Z.to_N b)) (to_string l') end.

Fixpoint until_space (l : list Z) : list Z := match l with [] => [] | c :: l' => if c =? 32 then [] else c :: until_space l' end.

Definition raw_short_name (e : list Z) : string :=
  let base := until_space (take 8 e) in
  let ext := until_space (take 3 (drop 8 e)) in
  to_string (flat_map utf8_char base ++ match ext with [] => [] | _ => 46 :: flat_map utf8_char ext end).

(** [LfnEntry], 32 bytes *)
Definition lfn_sequence (e : list Z) : Z := Z.land (get e 0) 0x1F.
Definition lfn_is_last (e : list Z) : bool := negb (Z.land (get e 0) 0x40 =? 0).
Definition lfn_units (e : list Z) : list Z := (fun k => field e k 2) <$> [1; 3; 5; 7; 9; 14; 16; 18; 20; 22; 24; 28; 30]%nat.
Fixpoint until_end (l : list Z) : list Z := match l with [] => [] | c :: l' => if (c =? 0) || (c =? 0xFFFF) then [] else c :: until_end l' end.

(** [String::from_utf16_lossy] *)
Fixpoint utf16_lossy (l : list Z) : list Z :=
  match l with
  | [] => []
  | u :: l' =>
      if negb ((0xD800 <=? u) && (u <? 0xE000)) then u :: utf16_lossy l'
      else if u >=? 0xDC00 then 0xFFFD :: utf16_lossy l'
      else match l' with
           | v :: l'' => if (0xDC00 <=? v) && (v <? 0xE000) then (0x10000 + Z.lor (Z.shiftl (Z.land u 0x3FF) 10) (Z.land v 0x3FF)) :: utf16_lossy l'' else 0xFFFD :: utf16_lossy l'
           | [] => [0xFFFD]
           end
  end.
Definition lfn_name_part (e : list Z) : list Z := flat_map utf8_char (utf16_lossy (until_end (lfn_units e))).

Definition calc_short_name_checksum (n : list Z) : Z :=
  foldl (fun s b => (Z.lor (Z.shiftr s 1) (Z.land (Z.shiftl s 7) 128) + b) mod 256) 0 n.

(** *** The device *)

(** [read_sync] of a block into a buffer of its size, and [write_sync] *)
Class Device (D : Type) := {
  dev_read : D -> Z -> list Z -> outcome (result (list Z) Block.BlockError * D);
  dev_write : D -> Z -> list Z -> outcome (result unit Block.BlockError * D) }.

Section Filesystem.
Context {D : Type} `{Device D}.

Record Fat32FileSystem := mkFat {
  device : D; fat_start_sector : Z; data_start_sector : Z; sectors_per_cluster : Z; total_clusters : Z; root_cluster : Z;
  fat_cache : list Z; free_clusters : Z; fat_size : Z }.

Definition F (A : Type) : Type := fs Fat32FileSystem A.

Definition with_device (w : Fat32FileSystem) (d : D) : Fat32FileSystem :=
  mkFat d (fat_start_sector w) (data_start_sector w) (sectors_per_cluster w) (total_clusters w) (root_cluster w) (fat_cache w) (free_clusters w) (fat_size w).
Definition with_cache (w : Fat32FileSystem) (l : list Z) : Fat32FileSystem :=
  mkFat (device w) (fat_start_sector w) (data_start_sector w) (sectors_per_cluster w) (total_clusters w) (root_cluster w) l (free_clusters w) (fat_size w).
Definition with_free (w : Fat32FileSystem) (n : Z) : Fat32FileSystem :=
  mkFat (device w) (fat_start_sector w) (data_start_sector w) (sectors_per_cluster w) (total_clusters w) (root_cluster w) (fat_cache w) n (fat_size w).

(** The calls of the device; every error becomes [IoError]. *)
Definition read_block (sector : Z) (buf : list Z) : F (list Z) := fun w =>
  match dev_read (device w) sector buf with
  | Ret (Ok b, d) => Ret (Ok b, with_device w d)
  | Ret (Err _, d) => Ret (Err IoError, with_device w d)
  | Panic => Panic
  end.
Definition write_block (sector : Z) (buf : list Z) : F unit := fun w =>
  match dev_write (device w) sector buf with
  | Ret (Ok _, d) => Ret (Ok tt, with_device w d)
  | Ret (Err _, d) => Ret (Err IoError, with_device w d)
  | Panic => Panic
  end.

Definition decode_sector (b : list Z) : list Z := (fun j => Z.land (field b (j * 4) 4) 0x0FFFFFFF) <$> seq 0 (BLOCK_SIZE / 4).

Fixpoint load_loop (sectors : list Z) (buf : list Z) : F (list Z) :=
  match sectors with
  | [] => fs_ok []
  | i :: r =>
      start <-? fs_get fat_start_sector;
      b <-? read_block (wrap32 (start + i)) buf;
      rest <-? load_loop r b;
      fs_ok (decode_sector b ++ rest)
  end.

Definition count_free (l : list Z) : Z := Z.of_nat (length (List.filter is_free l)).

Definition load_fat : F unit :=
  n <-? fs_get fat_size;
  fat <-? load_loop (seqZ 0 n) (replicate BLOCK_SIZE 0);
  fs_put (fun w => with_free (with_cache w fat) (wrap32 (count_free fat))).

Definition mount (d : D) : outcome (result Fat32FileSystem FsError) :=
  match dev_read d 0 (replicate BLOCK_SIZE 0) with
  | Panic => Panic
  | Ret (Err _, _) => Ret (Err IoError)
  | Ret (Ok boot_data, d1) =>
      match bs_from_bytes boot_data with
      | Err e => Ret (Err e)
      | Ok b =>
          if negb (bool_decide (take 5 (bs_fs_type b) = [70; 65; 84; 51; 50])) then Ret (Err InvalidArgument)
          else
            let fat_start := bs_reserved_sectors b in
            let data_start := wrap32 (fat_start + wrap32 (bs_num_fats b * bs_fat_size_32 b)) in
            let data_sectors := wrap32 (bs_total_sectors b - data_start) in
            let spc := bs_sectors_per_cluster b in
            if spc =? 0 then Panic
            else
              match load_fat (mkFat d1 fat_start data_start spc (data_sectors / spc) (bs_root_cluster b) [] 0 (bs_fat_size_32 b)) with
              | Panic => Panic
              | Ret (Ok _, w) => Ret (Ok w)
              | Ret (Err e, _) => Ret (Err e)
              end
      end
  end.

Definition cluster_to_sector (w : Fat32FileSystem) (c : Z) : Z := wrap32 (data_start_sector w + wrap32 (wrap32 (c - 2) * sectors_per_cluster w)).
Definition cluster_size (w : Fat32FileSystem) : Z := sectors_per_cluster w * 512.

Definition read_fat_entry (c : Z) : F Z := fun w =>
  match fat_cache w !! Z.to_nat c with Some v => Ret (Ok v, w) | None => Ret (Err InvalidArgument, w) end.

Definition write_fat_entry (c v : Z) : F unit := fun w =>
  if (length (fat_cache w) <=? Z.to_nat c)%nat then Ret (Err InvalidArgument, w)
  else
    let w1 := with_cache w (<[Z.to_nat c := v]> (fat_cache w)) in
    let sector := wrap32 (fat_start_sector w + c * 4 / 512) in
    let off := Z.to_nat (c * 4 mod 512) in
    (b <-? read_block sector (replicate BLOCK_SIZE 0);
     let b' := put b off (to_le 4 (Z.land v 0x0FFFFFFF)) in
     write_block sector b' ;?
     write_block (wrap32 (sector + fat_size w)) b') w1.

(** The first free entry from 2 on *)
Definition find_free (l : list Z) : option nat := (fun x => (2 + x.1)%nat) <$> list_find (fun e => is_free e = true) (drop 2 l).

Definition allocate_cluster : F Z :=
  l <-? fs_get fat_cache;
  match find_free l with
  | Some i =>
      let c := Z.of_nat i in
      write_fat_entry c EOF ;?
      fs_put (fun w => with_free w (Z.max 0 (free_clusters w - 1))) ;?
      fs_ok c
  | None => fs_err NoSpace
  end.

Definition free_cluster (c : Z) : F unit :=
  write_fat_entry c FREE ;? fs_put (fun w => with_free w (wrap32 (free_clusters w + 1))).

(** [None] is a loop that goes on. *)
Fixpoint free_cluster_chain (fuel : nat) (c : Z) (w : Fat32FileSystem) : option (outcome (result unit FsError * Fat32FileSystem)) :=
  if negb (is_valid c) then Some (Ret (Ok tt, w))
  else
    match fuel with
    | O => None
    | S f =>
        match (next <-? read_fat_entry c; free_cluster c ;? fs_ok next) w with
        | Ret (Ok next, w') => free_cluster_chain f next w'
        | Ret (Err e, w') => Some (Ret (Err e, w'))
        | Panic => Some Panic
        end
    end.

Fixpoint read_sectors (ns : list Z) (start : Z) (buf : list Z) : F (list Z) :=
  match ns with
  | [] => fs_ok buf
  | i :: r =>
      let off := Z.to_nat (i * 512) in
      b <-? read_block (wrap32 (start + i)) (take BLOCK_SIZE (drop off buf));
      read_sectors r start (put buf off b)
  end.

Definition read_cluster (c : Z) (buf : list Z) : F (list Z) := fun w =>
  if Z.of_nat (length buf) <? cluster_size w then Ret (Err InvalidArgument, w)
  else read_sectors (seqZ 0 (sectors_per_cluster w)) (cluster_to_sector w c) buf w.

Fixpoint write_sectors (ns : list Z) (start : Z) (buf : list Z) : F unit :=
  match ns with
  | [] => fs_ok tt
  | i :: r => write_block (wrap32 (start + i)) (take BLOCK_SIZE (drop (Z.to_nat (i * 512)) buf)) ;? write_sectors r start buf
  end.

Definition write_cluster (c : Z) (buf : list Z) : F unit := fun w =>
  if Z.of_nat (length buf) <? cluster_size w then Ret (Err InvalidArgument, w)
  else write_sectors (seqZ 0 (sectors_per_cluster w)) (cluster_to_sector w c) buf w.

(** *** Inodes *)

Record Fat32Inode := mkInode { first_cluster : Z; size : Z; file_type : FileType; parent_cluster : Z }.
Definition new_directory (c parent : Z) : Fat32Inode := mkInode c 0 Directory parent.
Definition new_file (c sz parent : Z) : Fat32Inode := mkInode c sz Regular parent.

(** The root works on a copy of the filesystem. *)
Definition root (w : Fat32FileSystem) : Fat32Inode * Fat32FileSystem := (new_directory (root_cluster w) 0, w).
Definition statfs (w : Fat32FileSystem) : FsStats :=
  mkFsStats (total_clusters w) (free_clusters w) (free_clusters w) 0 0 (wrap32 (cluster_size w)) 255 (wrap32 (cluster_size w)).

(** [sort_by_key] of the parts of a long name by their number *)
Fixpoint insert_part (p : Z * list Z) (l : list (Z * list Z)) : list (Z * list Z) :=
  match l with [] => [p] | q :: l' => if p.1 <? q.1 then p :: l else q :: insert_part p l' end.
Definition sort_parts (l : list (Z * list Z)) : list (Z * list Z) := foldl (fun s p => insert_part p s) [] l.

Definition dir_list : Type := list (string * list Z).

(** The entries of a cluster: the parts of a long name, the entries found, and whether the end was reached *)
Fixpoint scan_entries (es : list (list Z)) (parts : list (Z * list Z)) (acc : dir_list) : list (Z * list Z) * dir_list * bool :=
  match es with
  | [] => (parts, acc, false)
  | e :: es' =>
      if raw_is_end e then (parts, acc, true)
      else if raw_is_deleted e then scan_entries es' [] acc
      else if attr_is_long_name (raw_attr e) then scan_entries es' (parts ++ [(lfn_sequence e, lfn_name_part e)]) acc
      else if attr_is_volume_id (raw_attr e) then scan_entries es' [] acc
      else
        let n := match parts with [] => raw_short_name e | _ => to_string (concat (sort_parts parts).*2) end in
        if bool_decide (n = "."%string \/ n = ".."%string) then scan_entries es' [] acc
        else scan_entries es' [] (acc ++ [(n, e)])
  end.

Definition entries_of (buf : list Z) (n : nat) : list (list Z) := (fun i => take DIR_ENTRY_SIZE (drop (i * DIR_ENTRY_SIZE) buf)) <$> seq 0 n.

Fixpoint dir_loop (fuel : nat) (c : Z) (buf : list Z) (parts : list (Z * list Z)) (acc : dir_list) (w : Fat32FileSystem) : option (outcome (result dir_list FsError * Fat32FileSystem)) :=
  if negb (is_valid c) then Some (Ret (Ok acc, w))
  else
    match fuel with
    | O => None
    | S f =>
        match read_cluster c buf w with
        | Panic => Some Panic
        | Ret (Err e, w') => Some (Ret (Err e, w'))
        | Ret (Ok b, w') =>
            let '(parts', acc', ended) := scan_entries (entries_of b (Z.to_nat (cluster_size w / 32))) parts acc in
            if ended then Some (Ret (Ok acc', w'))
            else
              match read_fat_entry c w' with
              | Ret (Ok next, w2) => dir_loop f next b parts' acc' w2
              | Ret (Err e, w2) => Some (Ret (Err e, w2))
              | Panic => Some Panic
              end
        end
    end.

Definition read_dir_entries (fuel : nat) (i : Fat32Inode) (w : Fat32FileSystem) : option (outcome (result dir_list FsError * Fat32FileSystem)) :=
  if negb (bool_decide (file_type i = Directory)) then Some (Ret (Err NotDirectory, w))
  else dir_loop fuel (first_cluster i) (replicate (Z.to_nat (cluster_size w)) 0) [] [] w.

Definition ascii_lower (c : ascii) : ascii := let n := N_of_ascii c in if ((65 <=? n) && (n <=? 90))%N then ascii_of_N (n + 32) else c.
Fixpoint eq_ignore_ascii_case (a b : string) : bool :=
  match a, b with
  | EmptyString, EmptyString => true
  | String x a', String y b' => bool_decide (ascii_lower x = ascii_lower y) && eq_ignore_ascii_case a' b'
  | _, _ => false
  end.

Fixpoint find_entry (n : string) (parent : Z) (es : dir_list) : option Fat32Inode :=
  match es with
  | [] => None
  | (m, e) :: es' =>
      if eq_ignore_ascii_case m n then
        Some (if attr_is_directory (raw_attr e) then new_directory (raw_first_cluster e) parent else new_file (raw_first_cluster e) (raw_file_size e) parent)
      else find_entry n parent es'
  end.

Definition lookup (fuel : nat) (i : Fat32Inode) (n : string) (w : Fat32FileSystem) : option (outcome (result Fat32Inode FsError * Fat32FileSystem)) :=
  match read_dir_entries fuel i w with
  | None => None
  | Some Panic => Some Panic
  | Some (Ret (Err e, w')) => Some (Ret (Err e, w'))
  | Some (Ret (Ok es, w')) => Some (Ret (match find_entry n (first_cluster i) es with Some x => Ok x | None => Err NotFound end, w'))
  end.

Definition dir_entry_of (x : string * list Z) : DirEntry :=
  mkEntry x.1 (raw_first_cluster x.2) (if attr_is_directory (raw_attr x.2) then Directory else Regular).

Definition readdir (fuel : nat) (i : Fat32Inode) (w : Fat32FileSystem) : option (outcome (result (list DirEntry) FsError * Fat32FileSystem)) :=
  match read_dir_entries fuel i w with
  | None => None
  | Some Panic => Some Panic
  | Some (Ret (Err e, w')) => Some (Ret (Err e, w'))
  | Some (Ret (Ok es, w')) => Some (Ret (Ok (dir_entry_of <$> es), w'))
  end.

Definition getattr (i : Fat32Inode) (w : Fat32FileSystem) : FileAttr :=
  mkAttr (first_cluster i) (size i) ((size i +w 511) / 512) (file_type i) (if bool_decide (file_type i = Directory) then DEFAULT_DIR else DEFAULT_FILE) 1 0 0 0 (wrap32 (cluster_size w)) 0 0 0.

(** The cluster [n] links behind [c] *)
Fixpoint follow (n : nat) (c : Z) : F Z :=
  match n with
  | O => fs_ok c
  | S n' => next <-? read_fat_entry c; if is_valid next then follow n' next else fs_err IoError
  end.

(** Each round reads at least one byte. *)
Fixpoint read_loop (fuel : nat) (c : Z) (cluster_offset to_read bytes_read : nat) (cbuf buf : list Z) : F (nat * list Z) :=
  match fuel with
  | O => fs_ok (bytes_read, buf)
  | S f =>
      if ((bytes_read <? to_read)%nat && is_valid c) then
        b <-? read_cluster c cbuf;
        sz <-? fs_get cluster_size;
        let copy_len := Nat.min (Z.to_nat sz - cluster_offset) (to_read - bytes_read) in
        next <-? read_fat_entry c;
        read_loop f next 0 to_read (bytes_read + copy_len) b (put buf bytes_read (take copy_len (drop cluster_offset b)))
      else fs_ok (bytes_read, buf)
  end.

(** The number of bytes read and the buffer *)
Definition read (i : Fat32Inode) (offset : Z) (buf : list Z) : F (nat * list Z) := fun w =>
  if negb (bool_decide (file_type i = Regular)) then Ret (Err IsDirectory, w)
  else if offset >=? size i then Ret (Ok (0%nat, buf), w)
  else if cluster_size w =? 0 then Panic
  else
    let to_read := Nat.min (length buf) (Z.to_nat (size i - offset)) in
    (c <-? follow (Z.to_nat (offset / cluster_size w)) (first_cluster i);
     read_loop to_read c (Z.to_nat (offset mod cluster_size w)) to_read 0 (replicate (Z.to_nat (cluster_size w)) 0) buf) w.

(** The calls that would change the tree: create, mkdir, unlink, rmdir, rename, link, symlink, readlink, write and truncate *)
Definition refused {A} : F A := fs_err NotSupported.
(** setattr, sync, unmount and fsync *)
Definition accepted : F unit := fs_ok tt.

End Filesystem.
Arguments Fat32FileSystem : clear implicits.

(** The RAM disk; one poll ends every request. *)
#[export] Instance ram_device : Device Block.RamDisk := {|
  dev_read := fun d b buf => default Panic (Block.read_sync 1 d b buf);
  dev_write := fun d b buf => default Panic (Block.write_sync 1 d b buf)
|}.

End Fat.

(** ** The theorems *)

Module DiskSpec.
Import Bytes Fat.

(** *** The RAM disk *)

(** A read of the RAM disk leaves the buffer as it was, whatever is on the disk. *)
Lemma ram_read_returns_nothing d blk buf b d' : dev_read d blk buf = Ret (Ok b, d') -> b = buf.
Proof.
  cbn. unfold Block.read_sync. destruct (_ =? 0); [done|]. destruct (Block.sync _ _ _) as [[[[u|e] d1]|]|]; cbn; try done. by intros [= <- _].
Qed.

(** A RAM disk is never mounted, whatever was written to it: its boot sector is read
    as zeros. *)
Theorem ram_disk_never_mounts d w : mount (D := Block.RamDisk) d <> Ret (Ok w).
Proof.
  unfold mount. destruct (dev_read d 0 (replicate BLOCK_SIZE 0)) as [[[b|e] d1]|] eqn:E; [|done|done]. apply ram_read_returns_nothing in E as ->. by vm_compute.
Qed.

(** What is written is on the disk. *)
Lemma ram_write_stores d blk buf : Block.pending d = [] -> Block.block_size (Block.info d) = 512 -> 0 <= blk ->
  (512 | Z.of_nat (length buf)) -> blk * 512 + Z.of_nat (length buf) <= Z.of_nat (length (Block.data d)) < 2 ^ 32 ->
  exists d', Block.write_sync 1 d blk buf = Some (Ret (Ok tt, d')) /\ Block.data d' = put (Block.data d) (Z.to_nat (blk * 512)) buf.
Proof.
  intros Hp Hb H0 [q Hq] Hr. unfold Block.write_sync, Block.request_write, Block.sync, Block.new_request, Block.ram_submit, Block.change_request. cbn [Block.store]. rewrite lookup_insert, decide_True by done. cbn [Block.set_state Block.request_write Block.waker].
  cbn [Block.info Block.data Block.pending Block.store Block.next_ref]. rewrite Hp. cbn [app Block.await]. unfold Block.poll_completions. cbn [Block.pending Block.process_all]. unfold Block.process_request. cbn [Block.store Block.info Block.data].
  rewrite lookup_insert, decide_True by done. cbn [Block.req_type Block.block Block.count Block.buffer]. rewrite Hb. assert (Hn : wrap32 (Z.of_nat (length buf) / 512) = q) by (rewrite Hq, Z.div_mul by lia; apply wrap32_small; unfold is_u32, u32_modulus; lia).
  rewrite Hn, (wrap64_small (blk * 512)), (wrap64_small (q * 512)), (wrap64_small (_ + _)) by (unfold is_u64, u64_modulus; lia). rewrite (proj2 (Z.leb_le (blk * 512 + q * 512) _)) by lia. rewrite (proj2 (Z.leb_le (_ + Z.of_nat (_ `min` _)) _)) by lia. unfold Block.change_request, Block.with_data. cbn [Block.store Block.info Block.data Block.pending Block.next_ref].
  rewrite lookup_insert, decide_True by done. cbn [Block.set_state Block.waker]. cbn [Block.store Block.info Block.data Block.pending Block.next_ref Block.process_all]. rewrite lookup_insert, decide_True by done. cbn.
  eexists. split; [reflexivity|]. cbn. f_equal. rewrite take_ge by lia. done.
Qed.

(** *** Entries in the sectors of the table *)

Lemma put_lookup (b bs : list Z) o i : (o + length bs <= length b)%nat -> put b o bs !! i = if decide (o <= i < o + length bs)%nat then bs !! (i - o)%nat else b !! i.
Proof.
  intros Hl. unfold put. destruct (decide (o <= i < o + length bs)%nat) as [Hd|Hd].
  - rewrite lookup_app_r, length_take by (rewrite length_take; lia). replace (o `min` length b)%nat with o by lia. by rewrite lookup_app_l by lia.
  - destruct (decide (i < o)%nat) as [Hi|Hi].
    + rewrite lookup_app_l by (rewrite length_take; lia). by rewrite lookup_take_lt.
    + rewrite lookup_app_r, length_take by (rewrite length_take; lia). rewrite lookup_app_r by lia. rewrite lookup_drop. f_equal. lia.
Qed.

Lemma field_put_same b o v n : (o + n <= length b)%nat -> 0 <= v < 256 ^ Z.of_nat n -> field (put b o (to_le n v)) o n = v.
Proof.
  intros Hl Hv. unfold field. assert (E : take n (drop o (put b o (to_le n v))) = to_le n v).
  { unfold put. rewrite drop_app_length' by (rewrite length_take; lia). by rewrite take_app_length' by by rewrite length_to_le. }
  rewrite E, from_to_le by lia. by apply Z.mod_small.
Qed.

Lemma field_put_other b o bs a n : (o + length bs <= length b)%nat -> (a + n <= o \/ o + length bs <= a)%nat -> field (put b o bs) a n = field b a n.
Proof.
  intros Hl Hd. unfold field. f_equal. apply list_eq. intros i. destruct (decide (i < n)%nat) as [Hi|Hi]; [|rewrite !lookup_take_ge by lia; done]. rewrite !lookup_take_lt, !lookup_drop by done. rewrite put_lookup by done. by rewrite decide_False by lia.
Qed.

Lemma decode_length b : length (decode_sector b) = 128%nat.
Proof. unfold decode_sector. by rewrite length_fmap, length_seq. Qed.

(** Writing an entry into a sector is writing it into the decoded sector. *)
Lemma decode_put b k v : length b = 512%nat -> (k < 128)%nat -> 0 <= v < 2 ^ 28 -> decode_sector (put b (k * 4) (to_le 4 v)) = <[k := v]> (decode_sector b).
Proof.
  intros Hb Hk Hv. apply list_eq. intros j. destruct (decide (j < 128)%nat) as [Hj|Hj]; [|rewrite !lookup_ge_None_2 by (rewrite ?length_insert, decode_length; lia); done].
  destruct (decide (j = k)) as [->|Hne].
  - rewrite list_lookup_insert_eq by (rewrite decode_length; lia). unfold decode_sector. rewrite list_lookup_fmap, lookup_seq_lt by done. cbn [fmap option_fmap option_map]. rewrite Nat.add_0_l, field_put_same by lia. f_equal.
    change 0x0FFFFFFF with (Z.ones 28). rewrite Z.land_ones by lia. by apply Z.mod_small.
  - rewrite list_lookup_insert_ne by done. unfold decode_sector. rewrite !list_lookup_fmap, !lookup_seq_lt by done. cbn [fmap option_fmap option_map]. rewrite Nat.add_0_l, field_put_other; [done | rewrite length_to_le; lia | rewrite length_to_le; lia].
Qed.

(** *** The table in memory, over any device *)


Lemma count_free_insert l k v x : l !! k = Some x -> count_free (<[k := v]> l) = count_free l - (if is_free x then 1 else 0) + (if is_free v then 1 else 0).
Proof.
  revert k. unfold count_free. induction l as [|y l IH]; intros [|k] Hk; try done; cbn in Hk.
  - injection Hk as ->. change (<[0%nat := v]> (x :: l)) with (v :: l). cbn [List.filter]. destruct (is_free x), (is_free v); cbn [length]; lia.
  - specialize (IH k Hk). change (<[S k := v]> (y :: l)) with (y :: <[k := v]> l). cbn [List.filter]. destruct (is_free y); cbn [length]; lia.
Qed.

Lemma count_free_bound l : 0 <= count_free l <= Z.of_nat (length l).
Proof. unfold count_free. pose proof (List.filter_length_le is_free l). lia. Qed.

Lemma count_free_pos l k x : l !! k = Some x -> is_free x = true -> 1 <= count_free l.
Proof.
  revert k. unfold count_free. induction l as [|y l IH]; intros [|k] Hk Hx; try done; cbn in *; [injection Hk as ->; rewrite Hx; cbn; lia|]. specialize (IH k Hk Hx). destruct (is_free y); cbn [length]; lia.
Qed.

Lemma find_free_Some l i : find_free l = Some i <-> (2 <= i)%nat /\ l !! i = Some FREE /\ forall j x, (2 <= j < i)%nat -> l !! j = Some x -> is_free x = false.
Proof.
  unfold find_free. rewrite fmap_Some. split.
  - intros [[k x] [Hf ->]]. apply list_find_Some in Hf as (Hk & Hx & Hb). rewrite lookup_drop in Hk. cbn [fst]. split; [lia|]. split; [unfold is_free in Hx; apply Z.eqb_eq in Hx as ->; done|].
    intros j y Hj Hy. apply Bool.not_true_is_false. intros Hfr. apply (Hb (j - 2)%nat y); [rewrite lookup_drop, <- Hy; f_equal; lia | lia | done].
  - intros (H2 & Hi & Hb). exists ((i - 2)%nat, FREE). split; [|cbn; lia]. apply list_find_Some. rewrite lookup_drop. replace (2 + (i - 2))%nat with i by lia. split_and!; [done | done|].
    intros j y Hy Hj. rewrite lookup_drop in Hy. by rewrite (Hb (2 + j)%nat y) by (done || lia).
Qed.

Lemma find_free_None l : find_free l = None <-> forall j x, (2 <= j)%nat -> l !! j = Some x -> is_free x = false.
Proof.
  unfold find_free. rewrite fmap_None, list_find_None, Forall_lookup. setoid_rewrite lookup_drop. split.
  - intros Hf j x Hj Hx. apply Bool.not_true_is_false. apply (Hf (j - 2)%nat). rewrite <- Hx. f_equal. lia.
  - intros Hf j x Hx. by rewrite (Hf (2 + j)%nat x) by (done || lia).
Qed.

(** *** Chains of clusters *)

(** The clusters from [c] to the end of its chain *)
Fixpoint chain (l : list Z) (c : Z) (cs : list Z) : Prop :=
  match cs with
  | [] => is_valid c = false
  | x :: cs' => x = c /\ is_valid c = true /\ exists nx, l !! Z.to_nat c = Some nx /\ chain l nx cs'
  end.

Lemma chain_det l cs : forall c cs', chain l c cs -> chain l c cs' -> cs = cs'.
Proof.
  induction cs as [|x cs IH]; intros c [|y cs']; cbn; try done; [intros -> (_ & ? & _); done | intros (_ & ? & _) ?; congruence|].
  intros (-> & _ & n1 & E1 & C1) (-> & _ & n2 & E2 & C2). rewrite E1 in E2. injection E2 as <-. f_equal. by apply (IH n1).
Qed.

Lemma chain_from l cs : forall c x, chain l c cs -> x ∈ cs -> exists k, chain l x (drop k cs) /\ (k < length cs)%nat.
Proof.
  induction cs as [|y cs IH]; intros c x Hc Hx; [by apply not_elem_of_nil in Hx|]. apply elem_of_cons in Hx as [->|Hx]; [exists 0%nat; split; [|cbn; lia]; destruct Hc as (-> & Hc); done|].
  destruct Hc as (_ & _ & nx & _ & Hc). destruct (IH nx x Hc Hx) as (k & Hk & Hl). exists (S k). split; [done | cbn; lia].
Qed.

(** A chain that ends does not meet a cluster twice. *)
Lemma chain_NoDup l cs : forall c, chain l c cs -> NoDup cs.
Proof.
  induction cs as [|x cs IH]; intros c Hc; [constructor|]. pose proof Hc as (-> & Hv & nx & E & Hc'). constructor; [|by apply (IH nx)].
  intros Hin. destruct (chain_from l cs nx c Hc' Hin) as (k & Hk & _). pose proof (chain_det _ _ _ _ Hc Hk) as Heq. apply (f_equal length) in Heq. rewrite length_drop in Heq. cbn in Heq. lia.
Qed.

Lemma chain_insert l cs : forall c k v, (forall x, x ∈ cs -> Z.to_nat x <> k) -> chain l c cs -> chain (<[k := v]> l) c cs.
Proof.
  induction cs as [|x cs IH]; intros c k v Hn Hc; [done|]. destruct Hc as (-> & Hv & nx & E & Hc). split; [done|]. split; [done|]. exists nx. split; [rewrite list_lookup_insert_ne; [done|]; pose proof (Hn c ltac:(left)); lia|]. apply IH; [|done]. intros y Hy. apply Hn. by right.
Qed.

Lemma chain_valid l cs : forall c x, chain l c cs -> x ∈ cs -> is_valid x = true.
Proof.
  intros c x Hc Hx. destruct (chain_from _ _ _ _ Hc Hx) as (k & Hk & Hl). destruct (drop k cs) eqn:E; [apply (f_equal length) in E; rewrite length_drop in E; cbn in E; lia|]. by destruct Hk as (-> & Hv & _).
Qed.

Lemma is_valid_range c : is_valid c = true -> 2 <= c < 0x0FFFFFF0.
Proof. unfold is_valid. intros Hv. apply andb_true_iff in Hv as [H1 H2]. apply Z.geb_le in H1. apply Z.ltb_lt in H2. lia. Qed.

(** The table with the clusters of a list freed *)
Definition freed (cs : list Z) (l : list Z) : list Z := foldl (fun m c => <[Z.to_nat c := FREE]> m) l cs.

Section AnyDevice.
Context {D : Type} `{Device D}.
Implicit Types (w : Fat32FileSystem D).

(** The calls of the device change nothing but the device. *)
Definition same_table w w' : Prop := fat_cache w' = fat_cache w /\ free_clusters w' = free_clusters w /\ fat_size w' = fat_size w.

Lemma read_block_table x buf w r w' : read_block x buf w = Ret (r, w') -> same_table w w'.
Proof. unfold read_block. destruct (dev_read _ _ _) as [[[b|e] d]|]; [| |done]; by intros [= _ <-]. Qed.

Lemma write_block_table x buf w r w' : write_block x buf w = Ret (r, w') -> same_table w w'.
Proof. unfold write_block. destruct (dev_write _ _ _) as [[[b|e] d]|]; [| |done]; by intros [= _ <-]. Qed.

(** The entry is in memory before the disk is written: also when a write fails. *)
Lemma write_fat_entry_table c v w r w' : write_fat_entry c v w = Ret (r, w') ->
  free_clusters w' = free_clusters w /\ fat_cache w' = <[Z.to_nat c := v]> (fat_cache w) /\ (r = Ok tt -> (Z.to_nat c < length (fat_cache w))%nat).
Proof.
  unfold write_fat_entry. destruct (Nat.leb_spec (length (fat_cache w)) (Z.to_nat c)) as [Hl|Hl]; [intros [= <- <-]; by rewrite list_insert_ge|]. set (w1 := with_cache w _). intros E.
  assert (Ht : same_table w1 w'); [|destruct Ht as (-> & -> & _); done]. revert E. unfold fs_bind.
  destruct (read_block _ _ w1) as [[[b|e] w2]|] eqn:E1; [apply read_block_table in E1 as (A1 & B1 & C1) | by intros [= _ <-]; apply read_block_table in E1 | done].
  destruct (write_block _ _ w2) as [[[[]|e] w3]|] eqn:E2; [apply write_block_table in E2 as (A2 & B2 & C2) | intros [= _ <-]; apply write_block_table in E2 as (A2 & B2 & C2); by split_and!; congruence | done].
  intros E3. apply write_block_table in E3 as (A3 & B3 & C3). split_and!; congruence.
Qed.

(** The first free cluster from 2 on is taken and marked as the end of a chain; without one
    nothing changes; when the disk fails the entry stays marked and the count is not lowered. *)
Lemma allocate_cluster_table w r w' : allocate_cluster w = Ret (r, w') ->
  match find_free (fat_cache w) with
  | Some i => fat_cache w' = <[i := EOF]> (fat_cache w) /\ (r = Ok (Z.of_nat i) /\ free_clusters w' = Z.max 0 (free_clusters w - 1) \/ (exists e, r = Err e) /\ free_clusters w' = free_clusters w)
  | None => r = Err NoSpace /\ w' = w
  end.
Proof.
  unfold allocate_cluster, fs_bind, fs_get. destruct (find_free (fat_cache w)) as [i|]; [|by intros [= <- <-]].
  destruct (write_fat_entry _ _ w) as [[[[]|e] w1]|] eqn:E; [| |done]; apply write_fat_entry_table in E as (Hf & Hl & _); rewrite Nat2Z.id in Hl; intros [= <- <-]; (split; [done|]); [left; split; [done | by cbn; rewrite Hf] | right; eauto].
Qed.

(** The count goes up whether the cluster was free or not. *)
Lemma free_cluster_table c w r w' : free_cluster c w = Ret (r, w') ->
  fat_cache w' = <[Z.to_nat c := FREE]> (fat_cache w) /\ (r = Ok tt -> free_clusters w' = wrap32 (free_clusters w + 1)).
Proof.
  unfold free_cluster, fs_bind. destruct (write_fat_entry _ _ w) as [[[[]|e] w1]|] eqn:E; [| |done]; apply write_fat_entry_table in E as (Hf & Hl & _); intros [= <- <-]; (split; [done|]); [by cbn; rewrite Hf | done].
Qed.

(** A chain that is freed without an error is free, each of its clusters once, and nothing else is. *)
Lemma free_chain_table cs : forall w c w', chain (fat_cache w) c cs -> free_cluster_chain (length cs) c w = Some (Ret (Ok tt, w')) -> fat_cache w' = freed cs (fat_cache w).
Proof.
  induction cs as [|x cs IH]; intros w c w' Hc; cbn [length free_cluster_chain]; [cbn in Hc; rewrite Hc; by intros [= <-]|].
  pose proof (chain_NoDup _ _ _ Hc) as Hnd. apply NoDup_cons in Hnd as [Hni _]. destruct Hc as (-> & Hv & nx & E & Hc). rewrite Hv. cbn [negb]. unfold fs_bind, read_fat_entry. rewrite E.
  destruct (free_cluster c w) as [[[[]|e] w1]|] eqn:E1; [| by intros | done]. apply free_cluster_table in E1 as [Hl _]. cbn [fs_ok]. intros E2. rewrite (IH w1 nx w'); [cbn [freed foldl]; by rewrite Hl | rewrite Hl; apply chain_insert; [|done] | done].
  intros y Hy Heq. pose proof (is_valid_range _ (chain_valid _ _ _ _ Hc Hy)). pose proof (is_valid_range _ Hv). apply Hni. by replace c with y by lia.
Qed.

(** Freeing ends on every table, a cycle included, whatever the device answers: the clusters
    behind are free. *)
Lemma free_chain_ends n : forall w c, Z.of_nat (length (fat_cache w)) - count_free (fat_cache w) <= Z.of_nat n -> free_cluster_chain (2 + n) c w <> None.
Proof.
  induction n as [|n IH]; intros w c Hm.
  all: cbn [Nat.add free_cluster_chain]; destruct (is_valid c) eqn:Hv; cbn [negb]; [|done]; unfold fs_bind at 1, read_fat_entry; destruct (fat_cache w !! Z.to_nat c) as [nx|] eqn:E; [|done].
  all: unfold fs_bind; destruct (free_cluster c w) as [[[[]|e] w1]|] eqn:E1; [| done | done]; apply free_cluster_table in E1 as [Hl _]; cbn [fs_ok].
  all: destruct (is_free nx) eqn:Hf; [unfold is_free in Hf; apply Z.eqb_eq in Hf as ->; done|]; pose proof (count_free_insert _ _ FREE _ E) as Hci; rewrite Hf in Hci; cbn in Hci.
  - exfalso. pose proof (count_free_bound (<[Z.to_nat c := FREE]> (fat_cache w))). rewrite length_insert in *. lia.
  - apply IH. rewrite Hl, length_insert. lia.
Qed.

Lemma free_cluster_chain_total w c : free_cluster_chain (2 + length (fat_cache w)) c w <> None.
Proof. apply free_chain_ends. pose proof (count_free_bound (fat_cache w)). lia. Qed.

(** The cluster [n] links behind, without the disk *)
Lemma follow_spec w cs : forall n c, chain (fat_cache w) c cs -> (n < length cs)%nat -> exists c', follow n c w = Ret (Ok c', w) /\ chain (fat_cache w) c' (drop n cs).
Proof.
  induction cs as [|x cs IH]; intros [|n] c Hc Hn; cbn [length] in Hn; try lia; [by exists c|]. destruct Hc as (-> & Hv & nx & E & Hc). destruct (IH n nx Hc ltac:(lia)) as (c' & Ef & Hc'). exists c'. split; [|done].
  cbn [follow]. unfold fs_bind, read_fat_entry. rewrite E. destruct cs as [|y cs]; [cbn in Hn; lia|]. destruct Hc as (-> & -> & _). apply Ef.
Qed.

Lemma read_sectors_size ns start : forall buf w b w', read_sectors ns start buf w = Ret (Ok b, w') -> cluster_size w' = cluster_size w /\ fat_cache w' = fat_cache w.
Proof.
  induction ns as [|i ns IH]; intros buf w b w'; cbn [read_sectors]; [by intros [= _ <-]|]. unfold fs_bind, read_block. destruct (dev_read _ _ _) as [[[s|e] d]|]; try done. intros E. by apply IH in E.
Qed.

(** One round for each byte is enough: with more, the answer is the same. *)
Lemma read_loop_enough f : forall k c off to_read br cbuf buf w, 0 < cluster_size w -> (off < Z.to_nat (cluster_size w))%nat -> (to_read - br <= f)%nat ->
  read_loop (f + k) c off to_read br cbuf buf w = read_loop f c off to_read br cbuf buf w.
Proof.
  induction f as [|f IH]; intros k c off to_read br cbuf buf w Hs Ho Hf.
  - destruct k; [done|]. cbn [Nat.add read_loop]. by rewrite (proj2 (Nat.ltb_ge _ _)) by lia.
  - cbn [Nat.add read_loop]. destruct (Nat.ltb_spec br to_read); [|done]. destruct (is_valid c); [|done]. cbn [andb]. unfold fs_bind, fs_get, read_fat_entry.
    destruct (read_cluster c cbuf w) as [[[b|e] w1]|] eqn:E; [|done|done]. unfold read_cluster in E. destruct (_ <? _); [done|]. apply read_sectors_size in E as [E1 E2]. rewrite E1, E2.
    destruct (fat_cache w !! Z.to_nat c); [|done]. apply IH; rewrite ?E1; lia.
Qed.

End AnyDevice.

(** *** Directories *)

(** The scan of two clusters is the scan of the second from where the first stopped. *)
Lemma scan_entries_app es es' : forall parts acc, scan_entries (es ++ es') parts acc = let '(p, l, ended) := scan_entries es parts acc in if ended then (p, l, true) else scan_entries es' p l.
Proof. induction es as [|e es IH]; intros parts acc; [done|]. cbn [app scan_entries]. destruct (raw_is_end e); [done|]. destruct (raw_is_deleted e), (attr_is_long_name (raw_attr e)), (attr_is_volume_id (raw_attr e)); try by apply IH. case_bool_decide; by apply IH. Qed.

Lemma scan_not_ended es : forall parts acc, Forall (fun e => raw_is_end e = false) es -> (scan_entries es parts acc).2 = false.
Proof. induction es as [|e es IH]; intros parts acc Hf; [done|]. apply Forall_cons in Hf as [He Hf]. cbn [scan_entries]. rewrite He. destruct (raw_is_deleted e), (attr_is_long_name (raw_attr e)), (attr_is_volume_id (raw_attr e)); try by apply IH. case_bool_decide; by apply IH. Qed.

(** *** Two concrete devices *)

(** A device whose blocks are all ones *)
Definition ones_device : Device unit := {| dev_read := fun d x buf => Ret (Ok (replicate 512 1), d); dev_write := fun d x buf => Ret (Ok tt, d) |}.
(** The root directory is the cluster 2, which links to itself. *)
Definition cyclic_volume : Fat32FileSystem unit := mkFat tt 32 33 1 1 2 [EOF; EOF; 2] 0 1.

(** A directory whose cluster links to itself, without an end mark, is read forever. *)
Lemma dir_cycle_runs_on fuel : read_dir_entries (H := ones_device) fuel (root cyclic_volume).1 cyclic_volume = None.
Proof.
  unfold read_dir_entries. cbn [root cyclic_volume fst new_directory file_type root_cluster first_cluster]. rewrite bool_decide_eq_true_2 by done. cbn [negb]. change (replicate _ 0) with (replicate 512 0).
  assert (G : forall fuel buf parts acc, length buf = 512%nat -> dir_loop (H := ones_device) fuel 2 buf parts acc cyclic_volume = None); [|by apply G].
  clear fuel. induction fuel as [|f IH]; intros buf parts acc Hb; [done|]. cbn [dir_loop].
  assert (Hr : read_cluster (H := ones_device) 2 buf cyclic_volume = Ret (Ok (replicate 512 1), cyclic_volume)).
  { unfold read_cluster. rewrite Hb. change (seqZ 0 _) with [0]. cbn [read_sectors]. unfold fs_bind, read_block. cbn. unfold put, fs_ok. rewrite take_0, drop_ge by (rewrite Hb; cbn; lia). done. }
  change (negb (is_valid 2)) with false. cbn [negb]. rewrite Hr. set (es := entries_of _ _). assert (Hes : Forall (fun e => raw_is_end e = false) es) by (apply Forall_forall; intros e He; vm_compute in He; set_solver).
  pose proof (scan_not_ended es parts acc Hes) as Hen. destruct (scan_entries es parts acc) as [[p l] en]. cbn in Hen. subst en. change (read_fat_entry 2 cyclic_volume) with (Ret (Ok 2, cyclic_volume) : outcome (result Z FsError * Fat32FileSystem unit)). cbn match. by apply IH.
Qed.

(** A device that records where it is written *)
Definition log_device : Device (list Z) := {| dev_read := fun d x buf => Ret (Ok buf, d); dev_write := fun d x buf => Ret (Ok tt, d ++ [x]) |}.

(** With a single table the write of the second copy goes to the data area. *)
Lemma single_table_hits_data (w : Fat32FileSystem (list Z)) c v : 0 <= fat_start_sector w -> 0 <= c < Z.of_nat (length (fat_cache w)) -> c < 2 ^ 28 -> data_start_sector w = fat_start_sector w + fat_size w -> 0 <= fat_size w -> data_start_sector w < 2 ^ 31 ->
  exists w', write_fat_entry (H := log_device) c v w = Ret (Ok tt, w') /\ device w' = device w ++ [fat_start_sector w + c * 4 / 512; data_start_sector w + c * 4 / 512].
Proof.
  intros Hst Hc Hc28 Hd Hfs Hds. unfold write_fat_entry. rewrite (proj2 (Nat.leb_gt _ _)) by lia. assert (Hq : 0 <= c * 4 / 512 <= 2 ^ 21) by (split; [apply Z.div_pos; lia | apply Z.div_le_upper_bound; lia]). rewrite !wrap32_small by (unfold is_u32, u32_modulus; lia).
  eexists. split; [reflexivity|]. cbn. rewrite <- app_assoc. cbn. do 3 f_equal. lia.
Qed.

End DiskSpec.
