(* ===== verification/Clock.v ===== *)
(** * Time (src/src/time/mod.rs and src/src/io/rtc.rs)

    The two calendars, the real-time clock behind both, the system clock and the
    interval timer.  The clock registers change by themselves, so the hardware is a
    function of time: [cmos n r] is what register [r] reads at the [n]-th access,
    and a driver moves on by one at every access. *)

From stdpp Require Import base list.
From Stdlib Require Import ZArith Lia.
From S2P Require Import Prelude.

Local Open Scope Z_scope.
Open Scope word_scope.

Definition wrap8 (z : Z) : Z := z mod 2 ^ 8.
Definition wrap16 (z : Z) : Z := z mod 2 ^ 16.

(** ** The calendar of io/rtc.rs *)

Module Calendar.

Record DateTime := mkDateTime { year : Z; month : Z; day : Z; hour : Z; minute : Z; second : Z; day_of_week : Z }.

#[export] Instance date_time_eq_dec : EqDecision DateTime.
Proof. solve_decision. Defined.

Definition is_leap_year (y : Z) : bool := ((y mod 4 =? 0) && negb (y mod 100 =? 0)) || (y mod 400 =? 0).

Definition days_in_year (y : Z) : Z := if is_leap_year y then 366 else 365.

Definition days_in_month (y : Z) : list Z :=
  if is_leap_year y then [0; 31; 29; 31; 30; 31; 30; 31; 31; 30; 31; 30; 31] else [0; 31; 28; 31; 30; 31; 30; 31; 31; 30; 31; 30; 31].

(** [for y in 1970..year] and [for m in 1..month] *)
Definition years_before (y : Z) : Z := foldl (fun d x => d + days_in_year x) 0 (seqZ 1970 (y - 1970)).
Definition add_month (y : Z) (d m : Z) : outcome Z := let! n := index (days_in_month y) (Z.to_nat m) in Ret (d + n).

Definition to_unix_timestamp (t : DateTime) : outcome Z :=
  let! days := ofold (add_month (year t)) (years_before (year t)) (seqZ 1 (month t - 1)) in
  let days := days + day t - 1 in
  Ret (days * 86400 + hour t * 3600 + minute t * 60 + second t).

(** The year and the days left; [None] when the rounds are used up. *)
Fixpoint year_loop (fuel : nat) (y remaining : Z) : option (Z * Z) :=
  if remaining <? days_in_year y then Some (y, remaining)
  else
    match fuel with
    | O => None
    | S f => year_loop f (wrap16 (y + 1)) (remaining - days_in_year y)
    end.

(** The month and the days left: twelve rounds at most. *)
Fixpoint month_loop (fuel : nat) (table : list Z) (m remaining : Z) : outcome (Z * Z) :=
  match fuel with
  | O => Ret (m, remaining)
  | S f =>
      if m <=? 12 then
        let! n := index table (Z.to_nat m) in
        if remaining >=? n then month_loop f table (m + 1) (remaining - n) else Ret (m, remaining)
      else Ret (m, remaining)
  end.

(** Every year of the loop takes off at least 365 days. *)
Definition from_unix_timestamp (timestamp : Z) : option (outcome DateTime) :=
  let second := wrap8 (Z.rem timestamp 60) in
  let r1 := Z.quot timestamp 60 in
  let minute := wrap8 (Z.rem r1 60) in
  let r2 := Z.quot r1 60 in
  let hour := wrap8 (Z.rem r2 24) in
  let r3 := Z.quot r2 24 in
  let day_of_week := wrap8 (Z.rem (r3 + 4) 7 + 1) in
  match year_loop (Z.to_nat (r3 / 365)) 1970 r3 with
  | None => None
  | Some (y, r4) =>
      Some (let! (m, r5) := month_loop 12 (days_in_month y) 1 r4 in
            Ret (mkDateTime y m (wrap8 (wrap8 r5 + 1)) hour minute second day_of_week))
  end.

End Calendar.

(** ** BCD *)

Definition bcd_to_binary (v : Z) : Z := wrap8 (Z.land v 15 + Z.shiftr v 4 * 10).
Definition binary_to_bcd (v : Z) : Z := Z.lor (wrap8 (Z.shiftl (v / 10) 4)) (v mod 10).

(** ** The driver of io/rtc.rs *)

Module RtcDriver.
Import Calendar.

Definition SECONDS : Z := 0.
Definition SECONDS_ALARM : Z := 1.
Definition MINUTES : Z := 2.
Definition MINUTES_ALARM : Z := 3.
Definition HOURS : Z := 4.
Definition HOURS_ALARM : Z := 5.
Definition DAY_OF_WEEK : Z := 6.
Definition DAY_OF_MONTH : Z := 7.
Definition MONTH : Z := 8.
Definition YEAR : Z := 9.
Definition STATUS_A : Z := 10.
Definition STATUS_B : Z := 11.
Definition STATUS_C : Z := 12.
Definition UPDATE_IN_PROGRESS : Z := 128.
Definition HOUR_24 : Z := 2.
Definition BINARY_MODE : Z := 4.
Definition UPDATE_ENDED_INT : Z := 16.
Definition ALARM_INT : Z := 32.
Definition PERIODIC_INT : Z := 64.
Definition SET : Z := 128.

Record Rtc := mkRtc { binary_mode : bool; hour_24 : bool; century_register : option Z }.

(** The bit [mask] of a register. *)
Definition has (v mask : Z) : bool := negb (Z.land v mask =? 0).

Definition rtc_new (status_b : Z) : Rtc := mkRtc (has status_b BINARY_MODE) (has status_b HOUR_24) None.

Definition set_century_register (r : Rtc) (reg : Z) : Rtc := mkRtc (binary_mode r) (hour_24 r) (Some reg).

Section Read.
Context (cmos : nat -> Z -> Z).

(** [while is_update_in_progress() {}]: the time at which the wait ends. *)
Fixpoint wait_update (fuel n : nat) : option nat :=
  if has (cmos n STATUS_A) UPDATE_IN_PROGRESS then match fuel with O => None | S f => wait_update f (S n) end else Some (S n).

(** The hour of a register, in the clock's own format. *)
Definition decode_hour (r : Rtc) (v : Z) : Z :=
  let h := if binary_mode r then Z.land v 127 else bcd_to_binary (Z.land v 127) in
  if negb (hour_24 r) && has v 128 then h mod 12 + 12 else h.

Definition decode (r : Rtc) (v : Z) : Z := if binary_mode r then v else bcd_to_binary v.

(** Eight accesses from time [n] on. *)
Definition read_registers (r : Rtc) (n : nat) : DateTime :=
  let second := cmos n SECONDS in
  let minute := cmos (n + 1) MINUTES in
  let hour := cmos (n + 2) HOURS in
  let day := cmos (n + 3) DAY_OF_MONTH in
  let month := cmos (n + 4) MONTH in
  let year := cmos (n + 5) YEAR in
  let day_of_week := cmos (n + 6) DAY_OF_WEEK in
  let century := match century_register r with Some reg => cmos (n + 7) reg | None => 32 end in
  mkDateTime (wrap16 (decode r century * 100 + decode r year)) (decode r month) (decode r day) (decode_hour r hour)
    (decode r minute) (decode r second) day_of_week.

Definition read_datetime (r : Rtc) (fuel n : nat) : option DateTime :=
  match wait_update fuel n with
  | Some n' => Some (read_registers r n')
  | None => None
  end.

End Read.

(** The writes of a call, in order. *)
Definition encode (r : Rtc) (v : Z) : Z := if binary_mode r then v else binary_to_bcd v.

Definition write_datetime (r : Rtc) (status_b : Z) (t : DateTime) : list (Z * Z) :=
  [(STATUS_B, Z.lor status_b SET); (SECONDS, encode r (second t)); (MINUTES, encode r (minute t)); (HOURS, encode r (hour t));
   (DAY_OF_MONTH, encode r (day t)); (MONTH, encode r (month t)); (YEAR, encode r (wrap8 (year t mod 100)));
   (DAY_OF_WEEK, day_of_week t)] ++
  match century_register r with Some reg => [(reg, encode r (wrap8 (year t / 100)))] | None => [] end ++
  [(STATUS_B, status_b)].

Definition set_alarm (r : Rtc) (status_b hour minute second : Z) : list (Z * Z) :=
  [(HOURS_ALARM, encode r hour); (MINUTES_ALARM, encode r minute); (SECONDS_ALARM, encode r second); (STATUS_B, Z.lor status_b ALARM_INT)].

Definition clamp (x lo hi : Z) : Z := if x <? lo then lo else if x >? hi then hi else x.

Definition set_periodic_interrupt (status_a status_b rate : Z) : list (Z * Z) :=
  [(STATUS_A, Z.lor (Z.land status_a 240) (clamp rate 3 15)); (STATUS_B, Z.lor status_b PERIODIC_INT)].

Definition disable_interrupts (status_b : Z) : list (Z * Z) :=
  [(STATUS_B, Z.land status_b (255 - Z.lor (Z.lor PERIODIC_INT ALARM_INT) UPDATE_ENDED_INT))].

Record InterruptStatus := mkStatus { update_ended : bool; alarm : bool; periodic : bool; irq : bool }.

Definition interrupt_status (status_c : Z) : InterruptStatus := mkStatus (has status_c 16) (has status_c 32) (has status_c 64) (has status_c 128).

(** The statics of the module. *)
Record clock := mkClock { RTC : option Rtc; SYSTEM_TIME : Z; BOOT_TIMESTAMP : Z; TICKS : Z }.

Definition clock_new : clock := mkClock None 0 0 0.

(** [init], given what the clock reads. *)
Definition init (c : clock) (status_b : Z) (t : DateTime) : outcome clock :=
  let! ts := to_unix_timestamp t in
  Ret (mkClock (Some (rtc_new status_b)) (SYSTEM_TIME c) (if ts >? 0 then wrap64 ts else BOOT_TIMESTAMP c) (TICKS c)).

(** [x as i64] *)
Definition as_i64 (x : Z) : Z := if x <? 2 ^ 63 then x else x - 2 ^ 64.

Definition get_unix_timestamp (c : clock) : Z := as_i64 (BOOT_TIMESTAMP c +w SYSTEM_TIME c).

(** The interrupt, given the status register. *)
Definition periodic_interrupt_handler (c : clock) (status_c : Z) : clock :=
  match RTC c with
  | Some _ =>
      if periodic (interrupt_status status_c)
      then mkClock (RTC c) (if TICKS c mod 1024 =? 0 then SYSTEM_TIME c +w 1 else SYSTEM_TIME c) (BOOT_TIMESTAMP c) (TICKS c +w 1)
      else c
  | None => c
  end.

End RtcDriver.

(** ** time/mod.rs *)

Module SysTime.

Definition NANOS_PER_SEC : Z := 1000000000.
Definition NANOS_PER_MILLI : Z := 1000000.

(** *** The calendar *)

Record DateTime := mkDateTime { year : Z; month : Z; day : Z; hour : Z; minute : Z; second : Z }.

#[export] Instance sys_date_time_eq_dec : EqDecision DateTime.
Proof. solve_decision. Defined.

Definition is_leap_year (y : Z) : bool := ((y mod 4 =? 0) && negb (y mod 100 =? 0)) || (y mod 400 =? 0).

Definition DAYS_BEFORE_MONTH : list Z := [0; 31; 59; 90; 120; 151; 181; 212; 243; 273; 304; 334].

Definition to_unix_timestamp (t : DateTime) : outcome Z :=
  let days := foldl (fun d y => d + (if is_leap_year y then 366 else 365)) 0 (seqZ 1970 (year t - 1970)) in
  let! days := (if (month t >=? 1) && (month t <=? 12) then
      let! n := index DAYS_BEFORE_MONTH (Z.to_nat (month t - 1)) in
      Ret (days + n + (if (month t >? 2) && is_leap_year (year t) then 1 else 0))
    else Ret days) in
  let days := days + (day t - 1) in
  Ret (days * 86400 + hour t * 3600 + minute t * 60 + second t).

(** *** The time stamp counter *)

Definition tsc_to_nanos (frequency tsc : Z) : Z :=
  if frequency =? 0 then 0
  else (tsc / frequency *w NANOS_PER_SEC) +w ((tsc mod frequency *w NANOS_PER_SEC) / frequency).

Definition nanos_to_tsc (frequency nanos : Z) : Z :=
  if frequency =? 0 then 0
  else (nanos / NANOS_PER_SEC *w frequency) +w ((nanos mod NANOS_PER_SEC *w frequency) / NANOS_PER_SEC).

(** *** The real-time clock *)

Section Rtc.
Context (cmos : nat -> Z -> Z).

(** The fields from eight accesses at time [n]. *)
Definition decode_hour (is_binary is_24h : bool) (v : Z) : Z :=
  if is_binary then v
  else if negb is_24h && negb (Z.land v 128 =? 0) then wrap8 (bcd_to_binary (Z.land v 127) + 12) mod 24
  else bcd_to_binary v.

Definition full_year (century year : Z) : Z :=
  if negb (century =? 0) && negb (century =? 255) then wrap16 (bcd_to_binary century * 100 + year)
  else if year <? 70 then 2000 + year else 1900 + year.

Definition read_datetime_internal (n : nat) : DateTime :=
  let status_b := cmos n 11 in
  let is_binary := negb (Z.land status_b 4 =? 0) in
  let is_24h := negb (Z.land status_b 2 =? 0) in
  let conv v := if is_binary then v else bcd_to_binary v in
  let second := conv (cmos (n + 1) 0) in
  let minute := conv (cmos (n + 2) 2) in
  let hour := decode_hour is_binary is_24h (cmos (n + 3) 4) in
  let day := conv (cmos (n + 4) 7) in
  let month := conv (cmos (n + 5) 8) in
  let year := conv (cmos (n + 6) 9) in
  let century := cmos (n + 7) 50 in
  mkDateTime (full_year century year) month day hour minute second.

Fixpoint wait_update (fuel n : nat) : option nat :=
  if negb (Z.land (cmos n 10) 128 =? 0) then match fuel with O => None | S f => wait_update f (S n) end else Some (S n).

(** Reads twice until both readings agree. *)
Fixpoint read_stable (fuel n : nat) : option DateTime :=
  let first := read_datetime_internal n in
  let again := read_datetime_internal (n + 8) in
  if decide (first = again) then Some first
  else match fuel with O => None | S f => read_stable f (n + 16) end.

Definition read_datetime (fuel n : nat) : option DateTime :=
  match wait_update fuel n with
  | Some n' => read_stable fuel n'
  | None => None
  end.

End Rtc.

(** *** The system clock *)

Inductive TimerSource := TSC | HPET | LapicTimer | PIT | AcpiPmTimer.

Record SystemClock := mkSystemClock { boot_time : Z; uptime_nanos : Z; timer_source : TimerSource; tsc_frequency : option Z; last_tsc : Z }.

Definition system_clock_new : SystemClock := mkSystemClock 0 0 PIT None 0.

Definition set_boot_time (c : SystemClock) (t : Z) : SystemClock := mkSystemClock t (uptime_nanos c) (timer_source c) (tsc_frequency c) (last_tsc c).
Definition uptime_millis (c : SystemClock) : Z := uptime_nanos c / NANOS_PER_MILLI.
Definition uptime_secs (c : SystemClock) : Z := uptime_nanos c / NANOS_PER_SEC.
Definition now (c : SystemClock) : Z := boot_time c +w (uptime_nanos c / NANOS_PER_SEC).
Definition tick (c : SystemClock) (delta_nanos : Z) : SystemClock :=
  mkSystemClock (boot_time c) (uptime_nanos c +w delta_nanos) (timer_source c) (tsc_frequency c) (last_tsc c).
Definition set_tsc_info (c : SystemClock) (frequency : Z) : SystemClock :=
  mkSystemClock (boot_time c) (uptime_nanos c) TSC (Some frequency) (last_tsc c).

(** The counter is read only when its frequency is known. *)
Definition precise_time_nanos (c : SystemClock) (tsc : Z) : Z * SystemClock :=
  match tsc_frequency c with
  | Some f => (tsc_to_nanos f tsc, mkSystemClock (boot_time c) (uptime_nanos c) (timer_source c) (tsc_frequency c) tsc)
  | None => (uptime_nanos c, c)
  end.

(** *** The interval timer *)

Definition BASE_FREQUENCY : Z := 1193182.

Definition clamp_divisor (d : Z) : Z := Z.min (Z.max d 1) 65535.

(** The bytes written to the data port, and the frequency that results. *)
Definition pit_init (frequency : Z) : outcome (list Z * Z) :=
  if frequency =? 0 then Panic
  else
    let divisor := clamp_divisor (BASE_FREQUENCY / frequency) in
    Ret ([Z.land divisor 255; Z.shiftr divisor 8], BASE_FREQUENCY / divisor).

Definition delay_ticks (microseconds : Z) : Z := clamp_divisor ((BASE_FREQUENCY *w microseconds) / 1000000).

(** The frequency from two readings of the counter 10 ms apart. *)
Definition calibrated_frequency (start_tsc end_tsc : Z) : Z := Z.max 0 (end_tsc - start_tsc) *w 100.

(** [init]: the boot time is the reading of the clock, the counter is calibrated. *)
Definition init (c : SystemClock) (reading : DateTime) (start_tsc end_tsc : Z) : outcome SystemClock :=
  let! ts := to_unix_timestamp reading in
  Ret (set_tsc_info (set_boot_time c (wrap64 ts)) (calibrated_frequency start_tsc end_tsc)).

End SysTime.
