(* ===== verification/ClockTheorems.v ===== *)
(** * Theorems of time

    Dates and timestamps are in bijection, both calendars agree, what is written to
    the clock is what is read, a reading is never a mix of two times when it is
    taken twice, the counter is converted exactly, and seconds are counted. *)

From stdpp Require Import base list.
From Stdlib Require Import ZArith Lia.
From S2P Require Import Prelude Clock.

Local Open Scope Z_scope.
Open Scope word_scope.

(** ** The calendar *)

Module CalendarSpec.
Import Calendar.

(** The days of the months [m0 .. m0 + n - 1]. *)
Fixpoint month_sum (table : list Z) (m0 : Z) (n : nat) : Z :=
  match n with
  | O => 0
  | S n' => nth (Z.to_nat m0) table 0 + month_sum table (m0 + 1) n'
  end.

Lemma days_in_month_length y : length (days_in_month y) = 13%nat.
Proof. unfold days_in_month. by destruct (is_leap_year y). Qed.

Lemma days_in_month_bound y m : 1 <= m <= 12 -> 28 <= nth (Z.to_nat m) (days_in_month y) 0 <= 31.
Proof.
  intros Hm. assert (E : exists k, m = Z.of_nat (S k) /\ (k < 12)%nat) by (exists (Z.to_nat (m - 1)); lia). destruct E as (k & -> & Hk). rewrite Nat2Z.id.
  unfold days_in_month. destruct (is_leap_year y); do 12 (destruct k as [|k]; [cbn; lia|]); lia.
Qed.

Lemma index_month y m : 0 <= m <= 12 -> index (days_in_month y) (Z.to_nat m) = Ret (nth (Z.to_nat m) (days_in_month y) 0).
Proof.
  intros Hm. unfold index. destruct (days_in_month y !! Z.to_nat m) as [d|] eqn:E.
  - by rewrite (nth_lookup_Some _ _ _ _ E).
  - apply lookup_ge_None_1 in E. rewrite days_in_month_length in E. lia.
Qed.

Lemma months_spec y d m0 n : 0 <= m0 -> m0 + Z.of_nat n <= 13 ->
  ofold (add_month y) d (seqZ m0 (Z.of_nat n)) = Ret (d + month_sum (days_in_month y) m0 n).
Proof.
  revert d m0. induction n as [|n IH]; intros d m0 H0 H1; [rewrite seqZ_nil by lia; cbn; by rewrite Z.add_0_r|].
  rewrite seqZ_cons by lia. cbn [ofold month_sum]. unfold add_month at 1. rewrite index_month by lia. cbn [obind].
  replace (Z.pred (Z.of_nat (S n))) with (Z.of_nat n) by lia. replace (Z.succ m0) with (m0 + 1) by lia. rewrite IH by lia. f_equal. lia.
Qed.

Lemma month_sum_nonneg y m0 n : 1 <= m0 -> m0 + Z.of_nat n <= 13 -> 0 <= month_sum (days_in_month y) m0 n.
Proof.
  revert m0. induction n as [|n IH]; intros m0 H0 H1; cbn [month_sum]; [lia|].
  pose proof (days_in_month_bound y m0 ltac:(lia)). pose proof (IH (m0 + 1) ltac:(lia) ltac:(lia)). lia.
Qed.

(** The loop finds the month the days fall into. *)
Lemma month_loop_spec y fuel m0 n r : 1 <= m0 -> m0 + Z.of_nat n <= 12 -> (n < fuel)%nat ->
  month_sum (days_in_month y) m0 n <= r < month_sum (days_in_month y) m0 (S n) ->
  month_loop fuel (days_in_month y) m0 r = Ret (m0 + Z.of_nat n, r - month_sum (days_in_month y) m0 n).
Proof.
  revert m0 n r. induction fuel as [|fuel IH]; intros m0 n r H0 H1 Hf Hr; [lia|].
  cbn [month_loop]. rewrite (proj2 (Z.leb_le _ _)) by lia. rewrite index_month by lia. cbn [obind]. rewrite Z.geb_leb.
  destruct n as [|n]; cbn [month_sum] in *.
  - rewrite (proj2 (Z.leb_gt _ _)) by lia. f_equal. f_equal; lia.
  - pose proof (month_sum_nonneg y (m0 + 1) n ltac:(lia) ltac:(lia)).
    rewrite (proj2 (Z.leb_le _ _)) by lia. rewrite (IH (m0 + 1) n) by (cbn [month_sum]; lia). f_equal. f_equal; lia.
Qed.

Lemma months_of_year y : month_sum (days_in_month y) 1 12 = days_in_year y.
Proof. unfold days_in_month, days_in_year. by destruct (is_leap_year y). Qed.

(** *** Years *)

Lemma years_before_S y : 1970 <= y -> years_before (y + 1) = years_before y + days_in_year y.
Proof.
  intros Hy. unfold years_before. replace (y + 1 - 1970) with ((y - 1970) + 1) by lia. rewrite seqZ_app by lia. rewrite foldl_app.
  replace (1970 + (y - 1970)) with y by lia. done.
Qed.

Lemma days_in_year_bound y : 365 <= days_in_year y <= 366.
Proof. unfold days_in_year. destruct (is_leap_year y); lia. Qed.

Lemma years_before_add y (k : nat) : 1970 <= y -> years_before y + 365 * Z.of_nat k <= years_before (y + Z.of_nat k).
Proof.
  intros Hy. induction k as [|k IH]; [replace (y + Z.of_nat 0) with y by lia; lia|]. replace (y + Z.of_nat (S k)) with (y + Z.of_nat k + 1) by lia.
  rewrite years_before_S by lia. pose proof (days_in_year_bound (y + Z.of_nat k)). lia.
Qed.

Lemma years_before_mono y z : 1970 <= y <= z -> years_before y <= years_before z.
Proof. intros H. pose proof (years_before_add y (Z.to_nat (z - y)) ltac:(lia)) as Ha. rewrite Z2Nat.id in Ha by lia. replace (y + (z - y)) with z in Ha by lia. lia. Qed.

Lemma year_loop_spec fuel y0 (k : nat) r : 1970 <= y0 -> y0 + Z.of_nat k < 65536 -> (k <= fuel)%nat ->
  years_before (y0 + Z.of_nat k) - years_before y0 <= r < years_before (y0 + Z.of_nat k + 1) - years_before y0 ->
  year_loop fuel y0 r = Some (y0 + Z.of_nat k, r - (years_before (y0 + Z.of_nat k) - years_before y0)).
Proof.
  revert fuel y0 r. induction k as [|k IH]; intros fuel y0 r H0 H1 Hf Hr.
  - replace (y0 + Z.of_nat 0) with y0 in * by lia. rewrite years_before_S in Hr by lia. destruct fuel; cbn [year_loop]; rewrite (proj2 (Z.ltb_lt _ _)) by lia; do 2 f_equal; lia.
  - destruct fuel as [|fuel]; [lia|]. cbn [year_loop]. pose proof (years_before_S y0 H0) as Hy.
    pose proof (years_before_mono (y0 + 1) (y0 + Z.of_nat (S k)) ltac:(lia)) as Hm. rewrite (proj2 (Z.ltb_ge _ _)) by lia.
    unfold wrap16. rewrite Z.mod_small by lia. replace (y0 + Z.of_nat (S k)) with (y0 + 1 + Z.of_nat k) in * by lia.
    rewrite IH by lia. do 2 f_equal. lia.
Qed.

(** *** Dates *)

Record valid (t : DateTime) : Prop := {
  va_year : 1970 <= year t <= 65535;
  va_month : 1 <= month t <= 12;
  va_day : 1 <= day t <= nth (Z.to_nat (month t)) (days_in_month (year t)) 0;
  va_hour : 0 <= hour t < 24;
  va_minute : 0 <= minute t < 60;
  va_second : 0 <= second t < 60 }.

(** Days since 1970-01-01. *)
Definition days_of (t : DateTime) : Z := years_before (year t) + month_sum (days_in_month (year t)) 1 (Z.to_nat (month t - 1)) + (day t - 1).
Definition seconds_of (t : DateTime) : Z := days_of t * 86400 + hour t * 3600 + minute t * 60 + second t.

Lemma to_unix_spec t : 1 <= month t <= 13 -> to_unix_timestamp t = Ret (seconds_of t).
Proof.
  intros Hm. unfold to_unix_timestamp. replace (month t - 1) with (Z.of_nat (Z.to_nat (month t - 1))) by lia.
  rewrite months_spec by lia. cbn [obind]. unfold seconds_of, days_of. f_equal. lia.
Qed.

Lemma month_sum_S y m0 n : month_sum (days_in_month y) m0 (S n) = month_sum (days_in_month y) m0 n + nth (Z.to_nat (m0 + Z.of_nat n)) (days_in_month y) 0.
Proof.
  revert m0. induction n as [|n IH]; intros m0; [cbn [month_sum]; replace (m0 + Z.of_nat 0) with m0 by lia; lia|].
  change (nth (Z.to_nat m0) (days_in_month y) 0 + month_sum (days_in_month y) (m0 + 1) (S n) = month_sum (days_in_month y) m0 (S n) + nth (Z.to_nat (m0 + Z.of_nat (S n))) (days_in_month y) 0).
  rewrite IH. cbn [month_sum].
  replace (m0 + 1 + Z.of_nat n) with (m0 + Z.of_nat (S n)) by lia. lia.
Qed.

Lemma month_sum_le y (n k : nat) : (n + k <= 12)%nat -> month_sum (days_in_month y) 1 n <= month_sum (days_in_month y) 1 (n + k).
Proof.
  intros H. induction k as [|k IH]; [rewrite Nat.add_0_r; lia|]. rewrite Nat.add_succ_r, month_sum_S.
  pose proof (days_in_month_bound y (1 + Z.of_nat (n + k)) ltac:(lia)). lia.
Qed.

(** The days of a date fall into its year and, there, into its month. *)
Lemma days_in t : valid t ->
  let r := days_of t - years_before (year t) in
  month_sum (days_in_month (year t)) 1 (Z.to_nat (month t - 1)) <= r < month_sum (days_in_month (year t)) 1 (S (Z.to_nat (month t - 1))) /\
  0 <= r < days_in_year (year t).
Proof.
  intros [A1 A2 A3 _ _ _] r. unfold r, days_of. rewrite month_sum_S. replace (1 + Z.of_nat (Z.to_nat (month t - 1))) with (month t) by lia.
  pose proof (month_sum_nonneg (year t) 1 (Z.to_nat (month t - 1)) ltac:(lia) ltac:(lia)).
  pose proof (month_sum_le (year t) (S (Z.to_nat (month t - 1))) (12 - S (Z.to_nat (month t - 1))) ltac:(lia)) as Hle.
  replace (S (Z.to_nat (month t - 1)) + (12 - S (Z.to_nat (month t - 1))))%nat with 12%nat in Hle by lia.
  rewrite months_of_year, month_sum_S in Hle. replace (1 + Z.of_nat (Z.to_nat (month t - 1))) with (month t) in Hle by lia. lia.
Qed.

Definition weekday (days : Z) : Z := (days + 4) mod 7 + 1.

Lemma quot_rem_spec k a b : 0 <= a -> 0 <= b < k -> Z.quot (a * k + b) k = a /\ Z.rem (a * k + b) k = b.
Proof.
  intros Ha Hb. rewrite Z.quot_div_nonneg, Z.rem_mod_nonneg by nia. split; symmetry.
  - apply (Z.div_unique_pos _ _ _ b); lia.
  - apply (Z.mod_unique_pos _ _ a b); lia.
Qed.

(** [from_unix_timestamp] undoes [to_unix_timestamp]. *)
Lemma from_unix_spec t : valid t ->
  from_unix_timestamp (seconds_of t) = Some (Ret (mkDateTime (year t) (month t) (day t) (hour t) (minute t) (second t) (weekday (days_of t)))).
Proof.
  intros Hv. pose proof (days_in t Hv) as [Hm Hy]. pose proof Hv as [A1 A2 A3 A4 A5 A6]. set (D := days_of t) in *.
  pose proof (years_before_mono 1970 (year t) ltac:(lia)) as Hpos. change (years_before 1970) with 0 in Hpos.
  pose proof (years_before_add 1970 (Z.to_nat (year t - 1970)) ltac:(lia)) as Hyears. change (years_before 1970) with 0 in Hyears.
  replace (1970 + Z.of_nat (Z.to_nat (year t - 1970))) with (year t) in Hyears by lia.
  assert (Es : seconds_of t = ((D * 24 + hour t) * 60 + minute t) * 60 + second t) by (unfold seconds_of; fold D; lia).
  unfold from_unix_timestamp. rewrite Es.
  destruct (quot_rem_spec 60 ((D * 24 + hour t) * 60 + minute t) (second t)) as [-> ->]; [lia | lia |].
  destruct (quot_rem_spec 60 (D * 24 + hour t) (minute t)) as [-> ->]; [lia | lia |].
  destruct (quot_rem_spec 24 D (hour t)) as [-> ->]; [lia | lia |].
  unfold wrap8. rewrite !(Z.mod_small (second t)), !(Z.mod_small (minute t)), !(Z.mod_small (hour t)) by lia.
  rewrite (Z.rem_mod_nonneg (D + 4)) by lia. pose proof (Z.mod_pos_bound (D + 4) 7 ltac:(lia)) as Hw. rewrite (Z.mod_small ((D + 4) mod 7 + 1)) by lia.
  rewrite (year_loop_spec (Z.to_nat (D / 365)) 1970 (Z.to_nat (year t - 1970)) D); [| lia | lia | | ].
  - replace (1970 + Z.of_nat (Z.to_nat (year t - 1970))) with (year t) by lia. change (years_before 1970) with 0. rewrite Z.sub_0_r.
    rewrite (month_loop_spec (year t) 12 1 (Z.to_nat (month t - 1))) by lia. cbn [obind].
    replace (1 + Z.of_nat (Z.to_nat (month t - 1))) with (month t) by lia. unfold D, days_of in Hm |- *.
    pose proof (days_in_month_bound (year t) (month t) A2). do 2 f_equal. f_equal. rewrite (Z.mod_small (_ - _ - _)) by lia. rewrite Z.mod_small by lia. lia.
  - assert (Z.of_nat (Z.to_nat (year t - 1970)) <= D / 365) by (apply Z.div_le_lower_bound; lia). lia.
  - replace (1970 + Z.of_nat (Z.to_nat (year t - 1970))) with (year t) by lia. change (years_before 1970) with 0. rewrite years_before_S by lia. lia.
Qed.

(** *** Every day has a date *)

Lemma year_of_days z T : 0 <= T < years_before z -> exists y, 1970 <= y < z /\ years_before y <= T < years_before (y + 1).
Proof.
  destruct (Z.le_gt_cases z 1970) as [Hz|Hz].
  { unfold years_before at 1. rewrite seqZ_nil by lia. cbn. lia. }
  assert (E : exists k, z = 1970 + Z.of_nat k) by (exists (Z.to_nat (z - 1970)); lia). destruct E as [k ->]. clear Hz.
  induction k as [|k IH]; intros HT; [change (years_before (1970 + Z.of_nat 0)) with 0 in HT; lia|].
  destruct (Z.lt_ge_cases T (years_before (1970 + Z.of_nat k))) as [Hlt|Hge].
  - destruct (IH ltac:(lia)) as (y & Hy & HT'). exists y. lia.
  - exists (1970 + Z.of_nat k). replace (1970 + Z.of_nat (S k)) with (1970 + Z.of_nat k + 1) in HT by lia. lia.
Qed.

Lemma month_of_days y (k : nat) r : (k <= 12)%nat -> 0 <= r < month_sum (days_in_month y) 1 k ->
  exists n, (n < k)%nat /\ month_sum (days_in_month y) 1 n <= r < month_sum (days_in_month y) 1 (S n).
Proof.
  intros Hk. induction k as [|k IH]; intros Hr; [cbn in Hr; lia|].
  destruct (Z.lt_ge_cases r (month_sum (days_in_month y) 1 k)) as [Hlt|Hge].
  - destruct (IH ltac:(lia) ltac:(lia)) as (n & Hn & Hr'). exists n. lia.
  - exists k. lia.
Qed.

(** The first second that is not in a year a [u16] can hold. *)
Definition end_of_time : Z := years_before 65536 * 86400.

Lemma date_before z ts : z <= 65536 -> 0 <= ts < years_before z * 86400 -> exists t, valid t /\ seconds_of t = ts.
Proof.
  intros Hz Hts. set (T := ts / 86400). set (s := ts mod 86400).
  assert (HT : 0 <= T < years_before z) by (unfold T; split; [apply Z.div_pos; lia | apply Z.div_lt_upper_bound; lia]).
  assert (Ets : ts = 86400 * T + s) by (apply Z.div_mod; lia). pose proof (Z.mod_pos_bound ts 86400 ltac:(lia)) as Hs. fold s in Hs.
  destruct (year_of_days z T HT) as (y & Hy & HyT). rewrite years_before_S in HyT by lia.
  destruct (month_of_days y 12 (T - years_before y)) as (n & Hn & Hr); [lia | rewrite months_of_year; lia |].
  set (d := T - years_before y - month_sum (days_in_month y) 1 n).
  exists (mkDateTime y (Z.of_nat n + 1) (d + 1) (s / 3600) ((s mod 3600) / 60) (s mod 60) 0).
  assert (Ed : Z.to_nat (Z.of_nat n + 1 - 1) = n) by lia. rewrite month_sum_S in Hr. replace (1 + Z.of_nat n) with (Z.of_nat n + 1) in Hr by lia.
  pose proof (Z.div_mod s 3600 ltac:(lia)). pose proof (Z.mod_pos_bound s 3600 ltac:(lia)).
  pose proof (Z.div_mod (s mod 3600) 60 ltac:(lia)). pose proof (Z.mod_pos_bound (s mod 3600) 60 ltac:(lia)).
  assert (E60 : s mod 60 = (s mod 3600) mod 60) by (symmetry; apply Z.mod_mod_divide; by exists 60).
  assert (0 <= s / 3600 < 24) by (split; [apply Z.div_pos; lia | apply Z.div_lt_upper_bound; lia]).
  assert (0 <= s mod 3600 / 60 < 60) by (split; [apply Z.div_pos; lia | apply Z.div_lt_upper_bound; lia]).
  split; [split; cbn [year month day hour minute second]; lia|]. unfold seconds_of, days_of. cbn [year month day hour minute second]. rewrite Ed. lia.
Qed.

Lemma date_of ts : 0 <= ts < end_of_time -> exists t, valid t /\ seconds_of t = ts.
Proof. apply date_before. reflexivity. Qed.

(** C36: Dates and timestamps are in bijection, from 1970-01-01 00:00:00 to the end of the
    year 65535: a timestamp is converted to a valid date (with the right weekday),
    and that date back to the timestamp; and only one date gives it. *)
Theorem timestamp_roundtrip ts :
  0 <= ts < end_of_time ->
  exists t, from_unix_timestamp ts = Some (Ret t) /\ valid t /\ day_of_week t = weekday (ts / 86400) /\ to_unix_timestamp t = Ret ts /\
    forall t', valid t' -> to_unix_timestamp t' = Ret ts ->
      (year t', month t', day t', hour t', minute t', second t') = (year t, month t, day t, hour t, minute t, second t).
Proof.
  intros Hts. destruct (date_of ts Hts) as (t & Hv & Es). exists (mkDateTime (year t) (month t) (day t) (hour t) (minute t) (second t) (weekday (days_of t))).
  pose proof (from_unix_spec t Hv) as E. rewrite Es in E. pose proof Hv as [A1 A2 A3 A4 A5 A6]. split; [done|]. split; [by split|]. split; [|split].
  - cbn. f_equal. unfold seconds_of in Es. apply (Z.div_unique _ _ _ (hour t * 3600 + minute t * 60 + second t)); lia.
  - rewrite to_unix_spec by (cbn; lia). by rewrite <- Es.
  - intros t' Hv' Ht'. rewrite to_unix_spec in Ht' by (pose proof (va_month t' Hv'); lia). injection Ht' as Ht'.
    pose proof (from_unix_spec t' Hv') as E'. rewrite Ht', E in E'. injection E' as <- <- <- <- <- <- _. done.
Qed.

(** The year 2100 is before the end. *)
Lemma after_2100 z : 2100 <= z -> 4102444800 <= years_before z * 86400.
Proof.
  intros Hz. pose proof (years_before_mono 2100 z ltac:(lia)) as H. assert (E : years_before 2100 = 47482) by (vm_compute; reflexivity). lia.
Qed.

Lemma timestamp_roundtrip_witness : exists t, from_unix_timestamp 1709210096 = Some (Ret t) /\ to_unix_timestamp t = Ret 1709210096.
Proof.
  destruct (timestamp_roundtrip 1709210096) as (t & E & _ & _ & E2 & _); [pose proof (after_2100 65536 ltac:(lia)) as H; unfold end_of_time; lia|].
  exists t. exact (conj E E2).
Defined.

(** Midday on the last day of February 2024, a Thursday. *)
Lemma leap_day : from_unix_timestamp 1709210096 = Some (Ret (mkDateTime 2024 2 29 12 34 56 5)).
Proof. vm_compute. reflexivity. Qed.

(** The year loop ends for every timestamp: its rounds are enough. *)
Lemma year_loop_ends fuel y r : r / 365 <= Z.of_nat fuel -> is_Some (year_loop fuel y r).
Proof.
  revert y r. induction fuel as [|fuel IH]; intros y r H; cbn [year_loop]; pose proof (days_in_year_bound y) as Hb.
  - rewrite (proj2 (Z.ltb_lt _ _)); [by eexists|]. pose proof (Z.mul_succ_div_gt r 365 ltac:(lia)). nia.
  - destruct (Z.ltb_spec r (days_in_year y)); [by eexists|]. apply IH.
    assert (H1 : (r - days_in_year y) / 365 <= (r + -1 * 365) / 365) by (apply Z.div_le_mono; lia).
    rewrite Z.div_add in H1 by lia. lia.
Qed.

Lemma from_unix_returns ts : exists o, from_unix_timestamp ts = Some o.
Proof.
  unfold from_unix_timestamp. set (r := Z.quot _ 24). destruct (year_loop_ends (Z.to_nat (r / 365)) 1970 r) as [[y r'] ->]; [lia | by eexists].
Qed.

(** A time before 1970 is not a date: the remainders are negative. *)
Lemma before_epoch : from_unix_timestamp (-1) = Some (Ret (mkDateTime 1970 1 1 0 0 255 5)).
Proof. vm_compute. reflexivity. Qed.

(** Both calendars give the same timestamp for every date, also for days and times
    out of range, as long as the month is one. *)
Theorem calendars_agree y m d h mi s w :
  1 <= m <= 12 -> SysTime.to_unix_timestamp (SysTime.mkDateTime y m d h mi s) = to_unix_timestamp (mkDateTime y m d h mi s w).
Proof.
  intros Hm. rewrite to_unix_spec by (cbn; lia). unfold SysTime.to_unix_timestamp. cbn [SysTime.year SysTime.month SysTime.day SysTime.hour SysTime.minute SysTime.second].
  rewrite Z.geb_leb, (proj2 (Z.leb_le _ _)), (proj2 (Z.leb_le _ _)) by lia. cbn [andb].
  assert (E : exists n, index SysTime.DAYS_BEFORE_MONTH (Z.to_nat (m - 1)) = Ret n /\
    n + (if (m >? 2) && SysTime.is_leap_year y then 1 else 0) = month_sum (days_in_month y) 1 (Z.to_nat (m - 1))).
  { assert (Hk : exists k, m = Z.of_nat k + 1 /\ (k < 12)%nat) by (exists (Z.to_nat (m - 1)); lia). destruct Hk as (k & -> & Hk).
    change (SysTime.is_leap_year y) with (is_leap_year y). unfold days_in_month. replace (Z.to_nat (Z.of_nat k + 1 - 1)) with k by lia.
    destruct (is_leap_year y); do 12 (destruct k as [|k]; [eexists; split; reflexivity|]); lia. }
  destruct E as (n & -> & En). cbn [obind]. unfold seconds_of, days_of. cbn [year month day hour minute second]. rewrite <- En.
  change (foldl _ 0 (seqZ 1970 (y - 1970))) with (years_before y). f_equal. lia.
Qed.

Lemma calendars_agree_witness : SysTime.to_unix_timestamp (SysTime.mkDateTime 2024 2 29 12 34 56) = to_unix_timestamp (mkDateTime 2024 2 29 12 34 56 5).
Proof. apply calendars_agree. lia. Defined.

(** A month that is none: one calendar skips it, the other panics. *)
Lemma month_14 : SysTime.to_unix_timestamp (SysTime.mkDateTime 1970 14 1 0 0 0) = Ret 0 /\ to_unix_timestamp (mkDateTime 1970 14 1 0 0 0 0) = Panic.
Proof. split; vm_compute; reflexivity. Qed.

End CalendarSpec.

(** ** The real-time clock *)

Module RtcSpec.
Import Calendar RtcDriver.

Lemma bcd_roundtrip v : 0 <= v < 100 -> bcd_to_binary (binary_to_bcd v) = v.
Proof.
  intros Hv. assert (H : forallb (fun n => bcd_to_binary (binary_to_bcd (Z.of_nat n)) =? Z.of_nat n) (seq 0 100) = true) by (vm_compute; reflexivity).
  rewrite forallb_forall in H. specialize (H (Z.to_nat v) ltac:(apply in_seq; lia)). rewrite Z2Nat.id in H by lia. by apply Z.eqb_eq.
Qed.

(** The hour fits into seven bits, so the flag for the afternoon is clear. *)
Lemma hour_bits v : 0 <= v < 24 -> Z.land v 127 = v /\ Z.land (binary_to_bcd v) 127 = binary_to_bcd v /\ has v 128 = false.
Proof.
  intros Hv. assert (H : forallb (fun n => (Z.land (Z.of_nat n) 127 =? Z.of_nat n) && (Z.land (binary_to_bcd (Z.of_nat n)) 127 =? binary_to_bcd (Z.of_nat n)) && negb (has (Z.of_nat n) 128)) (seq 0 24) = true) by (vm_compute; reflexivity).
  rewrite forallb_forall in H. specialize (H (Z.to_nat v) ltac:(apply in_seq; lia)). rewrite Z2Nat.id in H by lia.
  apply andb_prop in H as [[H1 H2]%andb_prop H3]. apply Z.eqb_eq in H1, H2. by apply negb_true_iff in H3.
Qed.

(** The registers after some writes. *)
Definition registers : Type := Z -> Z.
Definition apply_write (f : registers) (w : Z * Z) : registers := fun x => if x =? w.1 then w.2 else f x.
Definition apply_writes (f : registers) (ws : list (Z * Z)) : registers := foldl apply_write f ws.

Lemma decode_encode r v : 0 <= v < 100 -> decode r (encode r v) = v.
Proof. intros Hv. unfold decode, encode. destruct (binary_mode r); [done | by apply bcd_roundtrip]. Qed.

Lemma decode_encode_hour r v : hour_24 r = true -> 0 <= v < 24 -> decode_hour r (encode r v) = v.
Proof.
  intros Hr Hv. destruct (hour_bits v Hv) as (H1 & H2 & _). unfold decode_hour, encode. rewrite Hr. cbn [negb andb].
  destruct (binary_mode r); [done|]. rewrite H2. apply bcd_roundtrip. lia.
Qed.

(** A date and a time the registers can hold. *)
Record writable (t : DateTime) : Prop := {
  wr_year : 0 <= year t < 10000;
  wr_month : 0 <= month t < 100;
  wr_day : 0 <= day t < 100;
  wr_hour : 0 <= hour t < 24;
  wr_minute : 0 <= minute t < 100;
  wr_second : 0 <= second t < 100 }.

(** The registers after [write_datetime]. *)
Lemma written r reg f status_b t : century_register r = Some reg -> 11 < reg ->
  let after := apply_writes f (write_datetime r status_b t) in
  after SECONDS = encode r (second t) /\ after MINUTES = encode r (minute t) /\ after HOURS = encode r (hour t) /\
  after DAY_OF_MONTH = encode r (day t) /\ after MONTH = encode r (month t) /\ after YEAR = encode r (wrap8 (year t mod 100)) /\
  after DAY_OF_WEEK = day_of_week t /\ after reg = encode r (wrap8 (year t / 100)) /\ after STATUS_A = f STATUS_A /\ after STATUS_B = status_b.
Proof.
  intros Hc Hreg after. assert (Hne : forall x, x <= 11 -> (x =? reg) = false) by (intros; apply Z.eqb_neq; lia).
  unfold after, apply_writes, write_datetime. rewrite Hc. cbn [app foldl]. unfold apply_write. cbn [fst snd].
  rewrite (Hne SECONDS), (Hne MINUTES), (Hne HOURS), (Hne DAY_OF_MONTH), (Hne MONTH), (Hne YEAR), (Hne DAY_OF_WEEK), (Hne STATUS_A) by (vm_compute; congruence).
  rewrite (proj2 (Z.eqb_neq reg STATUS_B)) by (unfold STATUS_B; lia). rewrite (Z.eqb_refl reg). do 9 (split; [reflexivity|]). reflexivity.
Qed.

Lemma wait_ready cmos fuel n : has (cmos n STATUS_A) UPDATE_IN_PROGRESS = false -> wait_update cmos fuel n = Some (S n).
Proof. intros H. destruct fuel; cbn [wait_update]; by rewrite H. Qed.

(** What is written to the clock is what is read back, in binary as in BCD mode,
    when the clock runs in 24-hour mode and has a century register, and the registers
    do not change in between. *)
Theorem rtc_roundtrip r reg f status_b t n fuel :
  hour_24 r = true -> century_register r = Some reg -> 11 < reg -> writable t -> has (f STATUS_A) UPDATE_IN_PROGRESS = false ->
  read_datetime (fun _ => apply_writes f (write_datetime r status_b t)) r fuel n = Some t.
Proof.
  intros Hr Hc Hreg [H1 H2 H3 H4 H5 H6] Hf. destruct (written r reg f status_b t Hc Hreg) as (E1 & E2 & E3 & E4 & E5 & E6 & E7 & E8 & E9 & _).
  unfold read_datetime. rewrite wait_ready by (by rewrite E9). unfold read_registers. rewrite Hc, E1, E2, E3, E4, E5, E6, E7, E8.
  pose proof (Z.mod_pos_bound (year t) 100 ltac:(lia)). assert (0 <= year t / 100 < 100) by (split; [apply Z.div_pos; lia | apply Z.div_lt_upper_bound; lia]).
  unfold wrap8. rewrite !(Z.mod_small (year t mod 100)), !(Z.mod_small (year t / 100)) by lia.
  rewrite !decode_encode by lia. rewrite decode_encode_hour by done. destruct t as [y mo d h mi s w]. cbn in *.
  unfold wrap16. rewrite Z.mod_small by (pose proof (Z.div_mod y 100); lia). do 2 f_equal. pose proof (Z.div_mod y 100). lia.
Qed.

Lemma rtc_roundtrip_witness :
  read_datetime (fun _ => apply_writes (fun _ => 0) (write_datetime (mkRtc false true (Some 50)) 2 (mkDateTime 2024 2 29 12 34 56 5))) (mkRtc false true (Some 50)) 0 0
  = Some (mkDateTime 2024 2 29 12 34 56 5).
Proof. apply (rtc_roundtrip (mkRtc false true (Some 50)) 50); [reflexivity | reflexivity | lia | split; cbn; lia | reflexivity]. Defined.

(** *** What the drivers get wrong *)

(** The hour after midnight, 12 AM, is read as noon by this driver, and noon, 12 PM, as
    midnight by the other. *)
Lemma twelve_hour_clock : decode_hour (mkRtc false false None) 18 = 12 /\ SysTime.decode_hour false false 146 = 0.
Proof. split; vm_compute; reflexivity. Qed.

(** In 12-hour mode the hours of the afternoon are written as if the day had 24. *)
Lemma afternoon_written_as_is : (HOURS, 19) ∈ write_datetime (mkRtc false false None) 0 (mkDateTime 2024 1 1 13 0 0 1).
Proof. vm_compute. do 3 right. left. Qed.

(** Without a century register the default century is the BCD number 0x20, which a
    clock in binary mode takes for 32. *)
Lemma binary_mode_century : year (read_registers (fun _ r => if r =? YEAR then 25 else 1) (mkRtc true true None) 0) = 3225.
Proof. vm_compute. reflexivity. Qed.

(** The registers change between two accesses: a clock that goes from 09:59:59 to
    10:00:00 is read as 10:00:59. *)
Definition rolling (n : nat) (r : Z) : Z :=
  if (n <? 2)%nat then (if r =? SECONDS then 89 else if r =? MINUTES then 89 else if r =? HOURS then 9 else 1)
  else (if r =? SECONDS then 0 else if r =? MINUTES then 0 else if r =? HOURS then 16 else 1).

Lemma torn_reading : read_datetime rolling (mkRtc false true None) 0 0 = Some (mkDateTime 2001 1 1 10 0 59 1).
Proof. vm_compute. reflexivity. Qed.

(** *** Reading twice *)

Definition reading (f : registers) : SysTime.DateTime := SysTime.read_datetime_internal (fun _ => f) O.

(** The registers change once, at time [k]. *)
Definition updated_at (k : nat) (old new : registers) : nat -> registers := fun n => if (n <? k)%nat then old else new.

Lemma reading_before k old new n : (n + 8 <= k)%nat -> SysTime.read_datetime_internal (updated_at k old new) n = reading old.
Proof.
  intros H. unfold SysTime.read_datetime_internal, updated_at.
  rewrite !(proj2 (Nat.ltb_lt _ _)) by lia. reflexivity.
Qed.

Lemma reading_after k old new n : (k <= n)%nat -> SysTime.read_datetime_internal (updated_at k old new) n = reading new.
Proof.
  intros H. unfold SysTime.read_datetime_internal, updated_at.
  rewrite !(proj2 (Nat.ltb_ge _ _)) by lia. reflexivity.
Qed.

(** A reading of the clock of time/mod.rs is never torn: when the registers change
    once while it is taken, it is the date before or the date after the change; it
    ends after one more round at most. *)
Theorem double_reading_is_whole k old new fuel n :
  (1 <= fuel)%nat -> exists t, SysTime.read_stable (updated_at k old new) fuel n = Some t /\ (t = reading old \/ t = reading new).
Proof.
  intros Hf. destruct fuel as [|fuel]; [lia|]. cbn [SysTime.read_stable].
  destruct (Nat.le_gt_cases (n + 8) k) as [Hk|Hk].
  - rewrite (reading_before k old new n) by lia. destruct (decide _) as [E|E]; [by eexists; split; [|left]|].
    assert (Hafter : (k <= n + 16)%nat).
    { destruct (Nat.le_gt_cases k (n + 16)); [done|]. exfalso. apply E. symmetry. apply reading_before. lia. }
    destruct fuel; cbn [SysTime.read_stable]; rewrite (reading_after k old new (n + 16)), (reading_after k old new (n + 16 + 8)) by lia;
      rewrite decide_True by done; (by eexists; split; [|right]).
  - rewrite (reading_after k old new (n + 8)) by lia. destruct (decide _) as [E|E]; [by eexists; split; [|right]|].
    destruct fuel; cbn [SysTime.read_stable]; rewrite (reading_after k old new (n + 16)), (reading_after k old new (n + 16 + 8)) by lia;
      rewrite decide_True by done; (by eexists; split; [|right]).
Qed.

Lemma double_reading_is_whole_witness : exists t, SysTime.read_stable (updated_at 3 (rolling 0) (rolling 2)) 1 0 = Some t /\ (t = reading (rolling 0) \/ t = reading (rolling 2)).
Proof. apply double_reading_is_whole. lia. Defined.

(** *** Counting seconds *)

(** The clock of the periodic interrupt counts a second at the first tick and then at
    every 1024th: after [n] interrupts it shows the next second already begun. *)
Theorem periodic_seconds (n : nat) c r :
  RTC c = Some r -> TICKS c = 0 -> 0 <= SYSTEM_TIME c -> SYSTEM_TIME c + Z.of_nat n < u64_modulus ->
  SYSTEM_TIME (Nat.iter n (fun c => periodic_interrupt_handler c PERIODIC_INT) c) = SYSTEM_TIME c + (Z.of_nat n + 1023) / 1024.
Proof.
  intros Hr Ht Hs Hn. set (run k := Nat.iter k (fun c => periodic_interrupt_handler c PERIODIC_INT) c).
  assert (H : forall k, (k <= n)%nat -> RTC (run k) = Some r /\ TICKS (run k) = Z.of_nat k /\ SYSTEM_TIME (run k) = SYSTEM_TIME c + (Z.of_nat k + 1023) / 1024).
  { induction k as [|k IH]; intros Hk; [cbn; rewrite Z.div_small by lia; split; [done|]; split; [done | lia]|].
    destruct (IH ltac:(lia)) as (H1 & H2 & H3). change (run (S k)) with (periodic_interrupt_handler (run k) PERIODIC_INT).
    unfold periodic_interrupt_handler. rewrite H1. change (periodic (interrupt_status PERIODIC_INT)) with true. cbn [RTC TICKS SYSTEM_TIME].
    rewrite H2, H3. split; [done|]. assert (Hd : (Z.of_nat k + 1023) / 1024 < Z.of_nat k + 1) by (apply Z.div_lt_upper_bound; lia).
    pose proof (Z.div_pos (Z.of_nat k + 1023) 1024 ltac:(lia) ltac:(lia)) as Hp.
    split; [rewrite wrap64_small by (unfold is_u64; lia); lia|]. replace (Z.of_nat (S k) + 1023) with (Z.of_nat k + 1 * 1024) by lia. rewrite Z.div_add by lia.
    pose proof (Z.div_mod (Z.of_nat k) 1024 ltac:(lia)) as Hdm. pose proof (Z.mod_pos_bound (Z.of_nat k) 1024 ltac:(lia)) as Hmb.
    destruct (Z.eqb_spec (Z.of_nat k mod 1024) 0) as [E|E].
    - rewrite wrap64_small by (unfold is_u64; lia). replace (Z.of_nat k + 1023) with (1023 + Z.of_nat k / 1024 * 1024) by lia. rewrite Z.div_add, Z.div_small by lia. lia.
    - replace ((Z.of_nat k + 1023) / 1024) with (Z.of_nat k / 1024 + 1); [lia|].
      apply (Z.div_unique _ _ _ (Z.of_nat k mod 1024 - 1)); lia. }
  apply (H n). lia.
Qed.

Lemma periodic_seconds_witness :
  SYSTEM_TIME (Nat.iter 1 (fun c => periodic_interrupt_handler c PERIODIC_INT) (mkClock (Some (mkRtc true true None)) 0 0 0)) = 0 + (Z.of_nat 1 + 1023) / 1024.
Proof. apply (periodic_seconds 1 (mkClock (Some (mkRtc true true None)) 0 0 0) (mkRtc true true None)); [reflexivity | reflexivity | cbn; lia | vm_compute; reflexivity]. Defined.

End RtcSpec.

(** ** The system clock *)

Module SysTimeSpec.
Import SysTime.

Lemma scaled_floor a f n : 0 < f -> a * n / f = (a / f) * n + (a mod f * n) / f.
Proof.
  intros Hf. rewrite (Z.div_mod a f) at 1 by lia. replace ((f * (a / f) + a mod f) * n) with (a mod f * n + (a / f * n) * f) by lia.
  rewrite Z.div_add by lia. lia.
Qed.

Lemma no_wrap a f n : 0 < f -> 0 <= n -> 0 <= a -> f * n <= u64_modulus -> a * n / f < u64_modulus ->
  (a / f *w n) +w ((a mod f *w n) / f) = a * n / f.
Proof.
  intros Hf Hn Ha Hm Hr. rewrite (scaled_floor a f n Hf) in *. pose proof (Z.mod_pos_bound a f Hf) as Hb. pose proof (Z.div_pos a f Ha Hf).
  assert (0 <= a mod f * n / f) by (apply Z.div_pos; nia). rewrite (wrap64_small (a mod f * n)) by (unfold is_u64; nia).
  rewrite (wrap64_small (a / f * n)) by (unfold is_u64; nia). by rewrite wrap64_small by (unfold is_u64; nia).
Qed.

(** C35: for frequencies up to 18.4 GHz and results that fit 64 bits, the counter is converted to nanoseconds and back without overflow or drift: the
    conversion is the exact quotient, rounded down, and there and back loses less
    than one nanosecond's worth of ticks, plus one. *)
Theorem tsc_conversion f t :
  0 < f -> f * NANOS_PER_SEC <= u64_modulus -> 0 <= t < u64_modulus -> t * NANOS_PER_SEC / f < u64_modulus ->
  tsc_to_nanos f t = t * NANOS_PER_SEC / f /\ t - f / NANOS_PER_SEC - 1 <= nanos_to_tsc f (tsc_to_nanos f t) <= t.
Proof.
  intros Hf Hm Ht Hr. assert (HN : 0 < NANOS_PER_SEC) by done.
  assert (E : tsc_to_nanos f t = t * NANOS_PER_SEC / f).
  { unfold tsc_to_nanos. rewrite (proj2 (Z.eqb_neq f 0)) by lia. apply no_wrap; lia. }
  split; [done|]. rewrite E. set (ns := t * NANOS_PER_SEC / f) in *. assert (Hns : 0 <= ns) by (apply Z.div_pos; nia).
  pose proof (Z.div_mod (t * NANOS_PER_SEC) f ltac:(lia)) as Hdm. pose proof (Z.mod_pos_bound (t * NANOS_PER_SEC) f Hf) as Hb. fold ns in Hdm.
  assert (Hle : ns * f / NANOS_PER_SEC <= t) by (apply Z.div_le_upper_bound; nia).
  assert (Hback : nanos_to_tsc f ns = ns * f / NANOS_PER_SEC).
  { unfold nanos_to_tsc. rewrite (proj2 (Z.eqb_neq f 0)) by lia. apply no_wrap; lia. }
  rewrite Hback. split; [|done]. pose proof (Z.div_mod f NANOS_PER_SEC ltac:(lia)) as Hq. pose proof (Z.mod_pos_bound f NANOS_PER_SEC HN) as Hqb.
  apply Z.div_le_lower_bound; nia.
Qed.

Lemma tsc_conversion_witness : tsc_to_nanos 3000000000 7000000001 = 7000000001 * NANOS_PER_SEC / 3000000000.
Proof. apply (tsc_conversion 3000000000 7000000001); vm_compute; [reflexivity | congruence | split; congruence | reflexivity]. Defined.

(** The clock shows the boot time plus the whole seconds of all ticks. *)
Lemma now_after_ticks c deltas :
  0 <= boot_time c -> Forall (fun d => 0 <= d) deltas -> 0 <= uptime_nanos c -> uptime_nanos c + foldr Z.add 0 deltas < u64_modulus ->
  boot_time c + (uptime_nanos c + foldr Z.add 0 deltas) / NANOS_PER_SEC < u64_modulus ->
  now (foldl tick c deltas) = boot_time c + (uptime_nanos c + foldr Z.add 0 deltas) / NANOS_PER_SEC.
Proof.
  intros Hb Hd. revert c Hb. induction Hd as [|d ds Hd0 Hds IH]; intros c Hb Hu Hlt Hres; cbn [foldl foldr] in *.
  - rewrite Z.add_0_r in *. unfold now. apply wrap64_small. unfold is_u64. pose proof (Z.div_pos (uptime_nanos c) NANOS_PER_SEC Hu ltac:(done)). lia.
  - assert (Hs : 0 <= foldr Z.add 0 ds) by (clear - Hds; induction Hds; cbn; lia).
    assert (Et : uptime_nanos (tick c d) = uptime_nanos c + d) by (cbn; apply wrap64_small; unfold is_u64; lia).
    rewrite IH; [| done | rewrite Et; lia | rewrite Et; lia |]; rewrite Et; cbn [boot_time tick]; rewrite <- Z.add_assoc; done.
Qed.

End SysTimeSpec.
