(* ===== verification/Mmap.v ===== *)
(** * Memory mappings (src/src/mm/mmap.rs)

    Mappings are shared by reference: [store] has every mapping ever made, the map
    of the manager has the numbers of the registered ones by address, and a
    reference that was taken before a mapping was removed stays usable.  Finding an
    address and registering a mapping take the lock one after the other and are
    definitions of their own.  Whether a vector can be allocated, and what is in
    memory that was never written, are arguments. *)

From stdpp Require Import base list gmap strings.
From Stdlib Require Import ZArith Lia.
From S2P Require Import Prelude OrderedMap.

Import Bytes.
Local Open Scope Z_scope.
Open Scope word_scope.

Module Mmap.

Definition PAGE_SIZE : Z := 4096.

Definition is_page_aligned (a : Z) : bool := a mod PAGE_SIZE =? 0.
Definition page_count (size : Z) : Z := ((size +w PAGE_SIZE) -w 1) / PAGE_SIZE.
Definition page_aligned (size : Z) : Z := page_count size *w PAGE_SIZE.

(** The bits of [Protection] *)
Definition can_read (p : Z) : bool := negb (Z.land p 1 =? 0).
Definition can_write (p : Z) : bool := negb (Z.land p 2 =? 0).
Definition can_exec (p : Z) : bool := negb (Z.land p 4 =? 0).

Record MappingFlags := mkFlags {
  shared : bool; private : bool; fixed : bool; anonymous : bool; stack : bool; locked : bool; huge_pages : bool; no_reserve : bool; zero_init : bool }.
Definition default_flags : MappingFlags := mkFlags false true false false false false false false true.
Definition anonymous_private : MappingFlags := mkFlags false true false true false false false false true.
Definition shared_mapping : MappingFlags := mkFlags true false false false false false false false true.

Inductive MmapError :=
| InvalidAddress | InvalidSize | InvalidOffset | OutOfMemory | Overlapping | PermissionDenied | AlignmentError | FileNotFound | NotMapped | NotSupported | NoResources.

Inductive MappingType :=
| Anonymous | File (path : string) (offset : Z) | Device (device : string) (phys_addr : Z) | SharedMemory (shm_id : Z).

(** ** One mapping *)

Record MemoryMapping := mkMapping {
  address : Z; size : Z; protection : Z; flags : MappingFlags; mapping_type : MappingType; memory : option (list Z); access_count : Z; dirty : bool }.

Section Make.
(** [try_reserve] of a vector of bytes, and the byte found at an index of memory
    that was not cleared. *)
Context (reserve : Z -> bool) (garbage : nat -> Z).

Definition anonymous_mapping (a sz p : Z) (f : MappingFlags) : result MemoryMapping MmapError :=
  let aligned_size := page_aligned sz in
  if reserve aligned_size then
    let n := Z.to_nat aligned_size in
    Ok (mkMapping a aligned_size p f Anonymous (Some (if zero_init f then replicate n 0 else garbage <$> seq 0 n)) 0 false)
  else Err OutOfMemory.

Definition file_mapping (a sz p : Z) (f : MappingFlags) (path : string) (offset : Z) : result MemoryMapping MmapError :=
  if negb (is_page_aligned offset) then Err AlignmentError
  else
    let aligned_size := page_aligned sz in
    if reserve aligned_size then Ok (mkMapping a aligned_size p f (File path offset) (Some (replicate (Z.to_nat aligned_size) 0)) 0 false)
    else Err OutOfMemory.

Definition device_mapping (a sz p : Z) (device : string) (phys_addr : Z) : result MemoryMapping MmapError :=
  Ok (mkMapping a (page_aligned sz) p (mkFlags true false false false false true false false true) (Device device phys_addr) None 0 false).

End Make.

Definition end_address (m : MemoryMapping) : Z := address m +w size m.
Definition contains (m : MemoryMapping) (a : Z) : bool := (a >=? address m) && (a <? end_address m).

Definition set_protection (m : MemoryMapping) (p : Z) : result unit MmapError * MemoryMapping :=
  if can_write p && can_exec p then (Err PermissionDenied, m)
  else (Ok tt, mkMapping (address m) (size m) p (flags m) (mapping_type m) (memory m) (access_count m) (dirty m)).

(** The bytes read into a buffer of [n] bytes. *)
Definition m_read (m : MemoryMapping) (offset n : Z) : result (list Z) MmapError * MemoryMapping :=
  if negb (can_read (protection m)) then (Err PermissionDenied, m)
  else
    match memory m with
    | None => (Err NotSupported, m)
    | Some mem =>
        if offset >=? len mem then (Ok [], m)
        else (Ok (take (Z.to_nat (Z.min n (len mem - offset))) (drop (Z.to_nat offset) mem)),
              mkMapping (address m) (size m) (protection m) (flags m) (mapping_type m) (memory m) (access_count m +w 1) (dirty m))
    end.

(** The number of bytes written. *)
Definition m_write (m : MemoryMapping) (offset : Z) (data : list Z) : result Z MmapError * MemoryMapping :=
  if negb (can_write (protection m)) then (Err PermissionDenied, m)
  else
    match memory m with
    | None => (Err NotSupported, m)
    | Some mem =>
        if offset >=? len mem then (Ok 0, m)
        else
          let to_write := Z.min (len data) (len mem - offset) in
          let mem' := take (Z.to_nat offset) mem ++ take (Z.to_nat to_write) data ++ drop (Z.to_nat (offset + to_write)) mem in
          (Ok to_write, mkMapping (address m) (size m) (protection m) (flags m) (mapping_type m) (Some mem') (access_count m +w 1) true)
    end.

Definition clear_dirty (m : MemoryMapping) : MemoryMapping :=
  mkMapping (address m) (size m) (protection m) (flags m) (mapping_type m) (memory m) (access_count m) false.

(** The content is not written back. *)
Definition sync (m : MemoryMapping) : result unit MmapError * MemoryMapping :=
  if negb (dirty m) then (Ok tt, m)
  else match mapping_type m with
       | File _ _ => (Ok tt, clear_dirty m)
       | _ => (Ok tt, m)
       end.

Record MappingInfo := mkInfo { i_address : Z; i_size : Z; i_protection : Z; is_shared : bool; is_anonymous : bool; is_dirty : bool }.

Definition info_of (m : MemoryMapping) : MappingInfo :=
  mkInfo (address m) (size m) (protection m) (shared (flags m)) (match mapping_type m with Anonymous => true | _ => false end) (dirty m).

(** ** The manager *)

Record MmapManager := mkManager {
  store : list MemoryMapping; mappings : gmap Z nat; next_addr : Z; base_addr : Z; max_addr : Z; total_mapped : Z; total_unmapped : Z }.

Definition DEFAULT_BASE : Z := 0x700000000000.
Definition DEFAULT_MAX : Z := 0x7fffffffffff.

Definition manager_new : MmapManager := mkManager [] ∅ DEFAULT_BASE DEFAULT_BASE DEFAULT_MAX 0 0.

Definition set_next (s : MmapManager) (a : Z) : MmapManager :=
  mkManager (store s) (mappings s) a (base_addr s) (max_addr s) (total_mapped s) (total_unmapped s).
Definition set_store (s : MmapManager) (l : list MemoryMapping) : MmapManager :=
  mkManager l (mappings s) (next_addr s) (base_addr s) (max_addr s) (total_mapped s) (total_unmapped s).

(** The registered mappings in the order of their keys. *)
Definition registered (s : MmapManager) : list MemoryMapping := omap (fun i => store s !! i) (map_values (mappings s)).

Definition overlaps (current aligned_size : Z) (m : MemoryMapping) : bool :=
  negb ((current +w aligned_size <=? address m) || (current >=? end_address m)).

Fixpoint find_loop (fuel : nat) (ms : list MemoryMapping) (aligned_size max current : Z) : option (option Z) :=
  if current +w aligned_size >? max then Some None
  else if existsb (overlaps current aligned_size) ms then
    match fuel with
    | O => None
    | S f => find_loop f ms aligned_size max (current +w PAGE_SIZE)
    end
  else Some (Some current).

(** A mapping is in the way of so many candidates at most. *)
Definition blocked (aligned_size : Z) (m : MemoryMapping) : nat := Z.to_nat ((size m + aligned_size) / PAGE_SIZE + 1).
Definition find_fuel (aligned_size : Z) (ms : list MemoryMapping) : nat := sum_list (blocked aligned_size <$> ms).

(** [None] while the loop goes on. *)
Definition find_free_address (s : MmapManager) (sz : Z) : option (option Z * MmapManager) :=
  let aligned_size := page_aligned sz in
  let ms := registered s in
  match find_loop (find_fuel aligned_size ms) ms aligned_size (max_addr s) (next_addr s) with
  | None => None
  | Some None => Some (None, s)
  | Some (Some a) => Some (Some a, set_next s (a +w aligned_size))
  end.

Definition choose_address (s : MmapManager) (addr : option Z) (sz : Z) (f : MappingFlags) : option (result Z MmapError * MmapManager) :=
  match addr with
  | Some a =>
      if fixed f then Some (if negb (is_page_aligned a) then Err AlignmentError else Ok a, s)
      else (fun x => (match x.1 with Some a => Ok a | None => Err OutOfMemory end, x.2)) <$> find_free_address s sz
  | None => (fun x => (match x.1 with Some a => Ok a | None => Err OutOfMemory end, x.2)) <$> find_free_address s sz
  end.

(** The map may have had a mapping at the address, which is replaced. *)
Definition insert_mapping (s : MmapManager) (a : Z) (m : MemoryMapping) : MmapManager :=
  mkManager (store s ++ [m]) (<[a := length (store s)]> (mappings s)) (next_addr s) (base_addr s) (max_addr s) (total_mapped s +w size m) (total_unmapped s).

Definition map_with (s : MmapManager) (addr : option Z) (sz : Z) (f : MappingFlags) (make : Z -> result MemoryMapping MmapError)
    : option (result Z MmapError * MmapManager) :=
  if sz =? 0 then Some (Err InvalidSize, s)
  else
    match choose_address s addr sz f with
    | None => None
    | Some (Err e, s1) => Some (Err e, s1)
    | Some (Ok a, s1) =>
        match make a with
        | Err e => Some (Err e, s1)
        | Ok m => Some (Ok a, insert_mapping s1 a m)
        end
    end.

Definition mmap_anonymous (reserve : Z -> bool) (garbage : nat -> Z) (s : MmapManager) (addr : option Z) (sz p : Z) (f : MappingFlags) :=
  map_with s addr sz f (fun a => anonymous_mapping reserve garbage a sz p f).

Definition mmap_file (reserve : Z -> bool) (s : MmapManager) (addr : option Z) (sz p : Z) (f : MappingFlags) (path : string) (offset : Z) :=
  map_with s addr sz f (fun a => file_mapping reserve a sz p f path offset).

(** The size of the call is not used. *)
Definition munmap (s : MmapManager) (addr : Z) : result unit MmapError * MmapManager :=
  match mappings s !! addr with
  | None => (Err NotMapped, s)
  | Some i =>
      let sz := from_option size 0 (store s !! i) in
      (Ok tt, mkManager (store s) (delete addr (mappings s)) (next_addr s) (base_addr s) (max_addr s) (total_mapped s) (total_unmapped s +w sz))
  end.

(** An operation on the mapping of a reference. *)
Definition on_mapping {A} (s : MmapManager) (i : nat) (f : MemoryMapping -> result A MmapError * MemoryMapping) : result A MmapError * MmapManager :=
  match store s !! i with
  | Some m => let '(r, m') := f m in (r, set_store s (<[i := m']> (store s)))
  | None => (Err NotMapped, s)
  end.

Definition mprotect (s : MmapManager) (addr p : Z) : result unit MmapError * MmapManager :=
  match mappings s !! addr with
  | None => (Err NotMapped, s)
  | Some i => on_mapping s i (fun m => set_protection m p)
  end.

Definition msync (s : MmapManager) (addr : Z) : result unit MmapError * MmapManager :=
  match mappings s !! addr with
  | None => (Err NotMapped, s)
  | Some i => on_mapping s i sync
  end.

(** The exact address, else the first mapping around it. *)
Definition get_mapping (s : MmapManager) (addr : Z) : option nat :=
  match mappings s !! addr with
  | Some i => Some i
  | None => head (filter (fun i => from_option (fun m => contains m addr) false (store s !! i) = true) (map_values (mappings s)))
  end.

Definition info (s : MmapManager) (addr : Z) : option MappingInfo :=
  match get_mapping s addr with
  | Some i => info_of <$> store s !! i
  | None => None
  end.

Definition list_mappings (s : MmapManager) : list MappingInfo := info_of <$> registered s.

Record MmapStats := mkStats { s_total_mapped : Z; s_total_unmapped : Z; active_mappings : Z }.
Definition stats (s : MmapManager) : MmapStats := mkStats (total_mapped s) (total_unmapped s) (Z.of_nat (base.size (mappings s))).

(** The linear mapping, for any address. *)
Definition get_sas_linear_mapping (physical_memory_offset phys_addr sz : Z) : option Z :=
  if sz =? 0 then None else Some (physical_memory_offset +w phys_addr).

End Mmap.

Module MmapSpec.
Import Mmap.

(** ** The search for an address *)

(** A mapping of the usual kind: whole pages, which do not wrap around. *)
Record mapping_ok (m : MemoryMapping) : Prop := {
  mp_address : 0 <= address m;
  mp_aligned : (PAGE_SIZE | address m);
  mp_size : 0 < size m;
  mp_top : address m + size m < 2 ^ 63;
  mp_memory : forall d, memory m = Some d -> len d = size m }.

(** The candidate [current] and a mapping have a byte in common. *)
Definition in_way (current al : Z) (m : MemoryMapping) : Prop := address m < current + al /\ current < address m + size m.
#[global] Instance in_way_dec current al m : Decision (in_way current al m).
Proof. unfold in_way. apply _. Defined.

Lemma wrap_small (z : Z) : 0 <= z < 2 ^ 64 -> wrap64 z = z.
Proof. intros H. apply wrap64_small. unfold is_u64. change u64_modulus with (2 ^ 64). lia. Qed.

Lemma end_address_ok m : mapping_ok m -> end_address m = address m + size m.
Proof. intros [H1 _ H2 H3 _]. apply wrap_small. lia. Qed.

Lemma overlaps_spec current al m : mapping_ok m -> 0 <= current -> 0 <= al -> current + al < 2 ^ 63 -> overlaps current al m = true <-> in_way current al m.
Proof.
  intros Hm Hc Ha Ht. unfold overlaps, in_way. rewrite wrap_small by lia. rewrite end_address_ok by done.
  rewrite negb_true_iff, orb_false_iff, Z.leb_gt, Z.geb_leb, Z.leb_gt. lia.
Qed.

Lemma existsb_spec current al ms : Forall mapping_ok ms -> 0 <= current -> 0 <= al -> current + al < 2 ^ 63 ->
  existsb (overlaps current al) ms = true <-> exists m, m ∈ ms /\ in_way current al m.
Proof.
  intros Hms Hc Ha Ht. rewrite existsb_exists. rewrite Forall_forall in Hms. split; intros (m & Hin & H); exists m; (split; [by apply list_elem_of_In|]).
  - apply list_elem_of_In in Hin. by apply overlaps_spec; [apply Hms|..].
  - by apply overlaps_spec; [apply Hms|..].
Qed.

(** *** Counting the candidates that mappings are in the way of *)

Definition candidate (c : Z) (i : nat) : Z := c + PAGE_SIZE * Z.of_nat i.

Lemma blocked_count c al m n : 0 < size m -> 0 <= al ->
  (length (filter (fun i => in_way (candidate c i) al m) (seq 0 n)) <= blocked al m)%nat.
Proof.
  intros Hs Ha. set (l := filter _ _). set (f := fun i : nat => Z.to_nat ((candidate c i - (address m - al)) / PAGE_SIZE)).
  assert (Hf : forall i, in_way (candidate c i) al m -> Z.of_nat (f i) = (c - (address m - al)) / PAGE_SIZE + Z.of_nat i /\ (f i < blocked al m)%nat).
  { intros i [H1 H2]. assert (E : candidate c i - (address m - al) = c - (address m - al) + Z.of_nat i * PAGE_SIZE) by (unfold candidate; lia).
    assert (H0 : 0 <= (candidate c i - (address m - al)) / PAGE_SIZE) by (apply Z.div_pos; unfold PAGE_SIZE; lia).
    assert (Hle : (candidate c i - (address m - al)) / PAGE_SIZE <= (size m + al) / PAGE_SIZE) by (apply Z.div_le_mono; unfold PAGE_SIZE; lia).
    unfold f, blocked. split; [|lia]. rewrite Z2Nat.id by done. rewrite E, Z.div_add by (unfold PAGE_SIZE; lia). done. }
  assert (Hnd : NoDup (f <$> l)).
  { apply NoDup_fmap_2_strong; [|apply NoDup_filter, NoDup_seq]. intros i j Hi Hj E. apply list_elem_of_filter in Hi as [Hi _], Hj as [Hj _].
    pose proof (proj1 (Hf i Hi)). pose proof (proj1 (Hf j Hj)). lia. }
  rewrite <- (length_fmap f l), <- (length_seq (blocked al m) 0). apply submseteq_length, NoDup_submseteq; [done|].
  intros x Hx. apply list_elem_of_fmap in Hx as (i & -> & Hi). apply list_elem_of_filter in Hi as [Hi _]. apply elem_of_seq. pose proof (proj2 (Hf i Hi)). lia.
Qed.

Lemma filter_length_le {A} (P Q : A -> Prop) `{!forall x, Decision (P x)} `{!forall x, Decision (Q x)} (s : list A) :
  (length (filter P (filter Q s)) <= length (filter P s))%nat.
Proof.
  induction s as [|x s IH]; [done|]. rewrite (filter_cons Q). destruct (decide (Q x)); rewrite !(filter_cons P); destruct (decide (P x)); cbn; lia.
Qed.

(** Pigeonhole: where every candidate is blocked there are no more than all
    mappings block together. *)
Lemma cover_count {A B} (R : B -> A -> Prop) `{!forall b a, Decision (R b a)} (l : list B) (s : list A) :
  (forall a, a ∈ s -> exists b, b ∈ l /\ R b a) -> (length s <= sum_list ((fun b => length (filter (R b) s)) <$> l))%nat.
Proof.
  revert s. induction l as [|b l IH]; intros s Hcov; cbn [fmap list_fmap sum_list].
  - destruct s as [|a s]; [done|]. destruct (Hcov a (list_elem_of_here _ _)) as (b & Hb & _). by apply elem_of_nil in Hb.
  - set (s' := filter (fun a => ~ R b a) s). assert (Hs : length s = (length (filter (R b) s) + length s')%nat).
    { unfold s'. clear. induction s as [|a s IH]; [done|]. rewrite !filter_cons. destruct (decide (R b a)), (decide (~ R b a)); cbn; lia || done. }
    assert (Hs' : (length s' <= sum_list ((fun b => length (filter (R b) s')) <$> l))%nat).
    { apply IH. intros a Ha. apply list_elem_of_filter in Ha as [Hn Ha]. destruct (Hcov a Ha) as (b' & Hb & HR).
      apply elem_of_cons in Hb as [->|Hb]; [done | by exists b']. }
    assert (Hm : (sum_list ((fun b => length (filter (R b) s')) <$> l) <= sum_list ((fun b => length (filter (R b) s)) <$> l))%nat).
    { subst s'. clear. induction l as [|b' l IH]; cbn [fmap list_fmap sum_list]; [done|]. apply Nat.add_le_mono; [apply filter_length_le | exact IH]. }
    rewrite Hs. apply Nat.add_le_mono_l. etrans; [exact Hs' | exact Hm].
Qed.

Lemma blocked_bound c al ms n : Forall mapping_ok ms -> 0 <= al ->
  (forall i, (i < n)%nat -> exists m, m ∈ ms /\ in_way (candidate c i) al m) -> (n <= find_fuel al ms)%nat.
Proof.
  intros Hms Ha H. pose proof (cover_count (fun m i => in_way (candidate c i) al m) ms (seq 0 n)) as Hc. rewrite length_seq in Hc. etrans; [apply Hc|].
  - intros i Hi. apply elem_of_seq in Hi. apply H. lia.
  - unfold find_fuel. clear Hc H. induction Hms as [|m ms Hm Hms IH]; [done|]. cbn [fmap list_fmap sum_list].
    apply Nat.add_le_mono; [by apply blocked_count, Ha; apply Hm | exact IH].
Qed.

(** What a search from [c] finds: the first candidate that no mapping is in the way
    of, or that every candidate up to the top is blocked. *)
Definition search_result (ms : list MemoryMapping) (al max c : Z) (r : option Z) : Prop :=
  match r with
  | Some a => exists n, a = candidate c n /\ a + al <= max /\ (forall m, m ∈ ms -> ~ in_way a al m) /\
      forall i, (i < n)%nat -> exists m, m ∈ ms /\ in_way (candidate c i) al m
  | None => forall i, candidate c i + al <= max -> exists m, m ∈ ms /\ in_way (candidate c i) al m
  end.

Lemma find_loop_spec ms al max c fuel k :
  Forall mapping_ok ms -> 0 <= c -> PAGE_SIZE <= al <= 2 ^ 63 -> max < 2 ^ 61 -> candidate c k <= 2 ^ 61 ->
  (forall i, (i < k)%nat -> exists m, m ∈ ms /\ in_way (candidate c i) al m) -> (find_fuel al ms <= fuel + k)%nat ->
  exists r, find_loop fuel ms al max (candidate c k) = Some r /\ search_result ms al max c r.
Proof.
  intros Hms Hc Ha Hmax. revert k. induction fuel as [|fuel IH]; intros k Hk Hblk Hf.
  all: assert (H0 : 0 <= candidate c k) by (unfold candidate, PAGE_SIZE; lia); unfold PAGE_SIZE in Ha.
  all: cbn [find_loop]; rewrite wrap_small by lia; rewrite Z.gtb_ltb; destruct (Z.ltb_spec max (candidate c k + al)) as [Hlt|Hge].
  1,3: exists None; (split; [done|]); intros i Hi; apply Hblk; unfold candidate, PAGE_SIZE in *; lia.
  all: destruct (existsb _ ms) eqn:E.
  2,4: exists (Some (candidate c k)); (split; [done|]); exists k; (split; [done|]); (split; [done|]); (split; [|done]); intros m Hm Hw;
    assert (Ht : existsb (overlaps (candidate c k) al) ms = true) by (apply existsb_spec; [done | lia | lia | lia | by exists m]); congruence.
  all: apply existsb_spec in E; [|done | lia | lia | lia].
  all: assert (Hblk' : forall i, (i < S k)%nat -> exists m, m ∈ ms /\ in_way (candidate c i) al m)
    by (intros i Hi; destruct (decide (i = k)) as [->|]; [done | apply Hblk; lia]).
  - exfalso. pose proof (blocked_bound c al ms (S k) Hms ltac:(lia) Hblk'). lia.
  - rewrite wrap_small by (unfold PAGE_SIZE; lia). replace (candidate c k + PAGE_SIZE) with (candidate c (S k)) by (unfold candidate; lia).
    apply IH; [unfold candidate, PAGE_SIZE in *; lia | done | lia].
Qed.

(** ** The invariant of the manager *)

Record manager_ok (s : MmapManager) : Prop := {
  mk_range : 0 <= next_addr s <= 2 ^ 61 /\ max_addr s < 2 ^ 61;
  mk_aligned : (PAGE_SIZE | next_addr s);
  mk_map : forall a i, mappings s !! a = Some i -> exists m, store s !! i = Some m /\ address m = a /\ mapping_ok m }.

Lemma page_aligned_ok sz : 0 < sz < 2 ^ 63 -> PAGE_SIZE <= page_aligned sz <= 2 ^ 63 /\ sz <= page_aligned sz /\ (PAGE_SIZE | page_aligned sz).
Proof.
  intros H. unfold page_aligned, page_count. rewrite (wrap_small (sz + PAGE_SIZE)), (wrap_small (sz + PAGE_SIZE - 1)) by (unfold PAGE_SIZE; lia).
  unfold PAGE_SIZE. pose proof (Z.div_mod (sz + 4096 - 1) 4096 ltac:(lia)). pose proof (Z.mod_pos_bound (sz + 4096 - 1) 4096 ltac:(lia)).
  rewrite wrap_small by lia. split; [lia|]. split; [lia | apply Z.divide_factor_r].
Qed.

Lemma elem_of_registered s m : m ∈ registered s <-> exists a i, mappings s !! a = Some i /\ store s !! i = Some m.
Proof.
  unfold registered. rewrite list_elem_of_omap. split.
  - intros (i & Hi & Hm). apply elem_of_map_values in Hi as [a Ha]. by exists a, i.
  - intros (a & i & Ha & Hm). exists i. split; [|done]. apply elem_of_map_values. by exists a.
Qed.

Lemma registered_ok s : manager_ok s -> Forall mapping_ok (registered s).
Proof.
  intros [_ _ H]. apply Forall_forall. intros m Hm. apply elem_of_registered in Hm as (a & i & Ha & Hi). destruct (H a i Ha) as (m' & E & _ & Hok). congruence.
Qed.

Lemma find_free_spec s sz : manager_ok s -> 0 < sz < 2 ^ 63 ->
  exists r, find_free_address s sz = Some (r, match r with Some a => set_next s (a + page_aligned sz) | None => s end) /\
    search_result (registered s) (page_aligned sz) (max_addr s) (next_addr s) r.
Proof.
  intros H Hsz. destruct (page_aligned_ok sz Hsz) as (Ha & _ & _). pose proof H as [[Hn Hmax] _ _].
  destruct (find_loop_spec (registered s) (page_aligned sz) (max_addr s) (next_addr s) (find_fuel (page_aligned sz) (registered s)) 0%nat) as (r & E & Hr).
  - by apply registered_ok.
  - lia.
  - done.
  - done.
  - unfold candidate. lia.
  - intros i Hi. lia.
  - lia.
  - exists r. split; [|done]. unfold find_free_address. replace (candidate (next_addr s) 0) with (next_addr s) in E by (unfold candidate; lia). rewrite E.
    destruct r as [a|]; [|done]. destruct Hr as (n & -> & Htop & _). rewrite wrap_small by (unfold candidate, PAGE_SIZE in *; lia). done.
Qed.

(** No registered mapping has a byte in the range. *)
Definition range_free (s : MmapManager) (a al : Z) : Prop := forall m, m ∈ registered s -> a + al <= address m \/ address m + size m <= a.

(** The page addresses from the cursor on are the candidates. *)
Lemma page_candidate c b : (PAGE_SIZE | c) -> (PAGE_SIZE | b) -> c <= b -> exists i, b = candidate c i.
Proof. intros [x ->] [y ->] Hle. exists (Z.to_nat (y - x)). unfold candidate, PAGE_SIZE in *. lia. Qed.

Lemma page_aligned_least sz : 0 < sz < 2 ^ 63 -> sz <= page_aligned sz < sz + PAGE_SIZE /\ (PAGE_SIZE | page_aligned sz).
Proof.
  intros H. unfold page_aligned, page_count. rewrite (wrap_small (sz + PAGE_SIZE)), (wrap_small (sz + PAGE_SIZE - 1)) by (unfold PAGE_SIZE; lia).
  unfold PAGE_SIZE. pose proof (Z.div_mod (sz + 4096 - 1) 4096 ltac:(lia)). pose proof (Z.mod_pos_bound (sz + 4096 - 1) 4096 ltac:(lia)).
  rewrite wrap_small by lia. split; [lia | apply Z.divide_factor_r].
Qed.

(** C10: for a size below 2^63 the search for an address ends.  It looks at the page
    addresses from the cursor of the manager upwards, for the size rounded up to
    pages, and answers with the first at which the new mapping ends below the top and
    has no byte in common with a registered one, moving the cursor behind it; it
    answers with none, changing nothing, exactly when there is no such page address
    at or above the cursor. Gaps below the cursor are not looked at. *)
Theorem find_free_address_correct s sz :
  manager_ok s -> 0 < sz < 2 ^ 63 ->
  let al := page_aligned sz in
  sz <= al < sz + PAGE_SIZE /\ (PAGE_SIZE | al) /\
  exists r s', find_free_address s sz = Some (r, s') /\
    match r with
    | Some a => s' = set_next s (a + al) /\ (PAGE_SIZE | a) /\ next_addr s <= a /\ a + al <= max_addr s /\ range_free s a al /\
        forall b, (PAGE_SIZE | b) -> next_addr s <= b < a -> ~ range_free s b al
    | None => s' = s /\ forall b, (PAGE_SIZE | b) -> next_addr s <= b -> b + al <= max_addr s -> ~ range_free s b al
    end.
Proof.
  intros H Hsz al. destruct (page_aligned_least sz Hsz) as [Hle Hpg]. split; [exact Hle|]. split; [exact Hpg|].
  assert (Hnf : forall b, (exists m, m ∈ registered s /\ in_way b al m) -> ~ range_free s b al) by (intros b (m & Hm & Hw) Hf; specialize (Hf m Hm); unfold in_way in Hw; lia).
  destruct (find_free_spec s sz H Hsz) as (r & E & Hr). pose proof (mk_aligned _ H) as Hal. exists r, (match r with Some a => set_next s (a + al) | None => s end). split; [exact E|].
  destruct r as [a|]; cbn [search_result] in Hr; (split; [done|]).
  - destruct Hr as (n & -> & Htop & Hfree & Hbefore). split; [by apply Z.divide_add_r; [done | apply Z.divide_factor_l]|].
    split; [unfold candidate, PAGE_SIZE; lia|]. split; [exact Htop|]. split; [intros m Hm; specialize (Hfree m Hm); unfold in_way in Hfree; fold al in Hfree; lia|].
    intros b Hb Hlt. destruct (page_candidate _ b Hal Hb) as [i ->]; [lia|]. apply Hnf, Hbefore. unfold candidate, PAGE_SIZE in Hlt. lia.
  - intros b Hb Hge Htop. destruct (page_candidate _ b Hal Hb Hge) as [i ->]. by apply Hnf, Hr.
Qed.

Lemma mmap_new_ok : manager_ok manager_new.
Proof. split; [cbn [next_addr max_addr manager_new]; unfold DEFAULT_BASE, DEFAULT_MAX; lia | exists 0x700000000; reflexivity | intros a i Hi; cbn in Hi; by rewrite lookup_empty in Hi]. Qed.

Lemma find_free_address_correct_witness : exists r s', find_free_address manager_new 5000 = Some (r, s').
Proof.
  destruct (find_free_address_correct manager_new 5000 mmap_new_ok) as (_ & _ & r & s' & E & _); [lia|]. exists r, s'. exact E.
Defined.

(** ** Mappings stay apart *)

Definition size_at (st : list MemoryMapping) (i : nat) : Z := from_option size 0 (st !! i).
Definition live_bytes (s : MmapManager) : Z := sum ((fun x => size_at (store s) x.2) <$> map_to_list (mappings s)).

Record space_ok (s : MmapManager) : Prop := {
  so_mgr : manager_ok s;
  so_base : base_addr s <= next_addr s;
  so_in : forall a i, mappings s !! a = Some i -> base_addr s <= a /\ a + size_at (store s) i <= Z.min (next_addr s) (max_addr s);
  so_apart : forall a b i j, mappings s !! a = Some i -> mappings s !! b = Some j -> a < b -> a + size_at (store s) i <= b;
  so_bytes : total_mapped s -w total_unmapped s = wrap64 (live_bytes s) }.

Lemma live_bytes_ext s s' : mappings s' = mappings s -> (forall a i, mappings s !! a = Some i -> size_at (store s') i = size_at (store s) i) -> live_bytes s' = live_bytes s.
Proof.
  intros Em H. unfold live_bytes. rewrite Em. f_equal. apply list_fmap_ext. intros k [a i] Hk. cbn. apply (H a).
  apply list_elem_of_lookup_2 in Hk. by apply elem_of_map_to_list in Hk.
Qed.

(** The mappings change, not in place and size. *)
Lemma space_ok_ext s st :
  space_ok s -> (forall i m, store s !! i = Some m -> exists m', st !! i = Some m' /\ address m' = address m /\ size m' = size m /\ (mapping_ok m -> mapping_ok m')) ->
  space_ok (set_store s st).
Proof.
  intros [[M1 M2 M3] B1 B2 B3 B4] H.
  assert (Hsz : forall a i, mappings s !! a = Some i -> size_at st i = size_at (store s) i).
  { intros a i Hi. destruct (M3 a i Hi) as (m & Em & _). destruct (H i m Em) as (m' & Em' & _ & Hs & _). unfold size_at. by rewrite Em, Em'. }
  split; [split| | | |]; cbn [next_addr base_addr max_addr mappings store total_mapped total_unmapped set_store]; try done.
  - intros a i Hi. destruct (M3 a i Hi) as (m & Em & Ha & Hok). destruct (H i m Em) as (m' & Em' & Ea & _ & Hok'). exists m'. split; [done|]. split; [congruence | auto].
  - intros a i Hi. rewrite (Hsz a i Hi). by apply B2.
  - intros a b i j Hi Hj. rewrite (Hsz a i Hi). by apply (B3 a b i j).
  - rewrite B4. f_equal. symmetry. by apply live_bytes_ext.
Qed.

Lemma on_mapping_ok {A} s i (f : MemoryMapping -> result A MmapError * MemoryMapping) :
  space_ok s -> (forall m, address (f m).2 = address m /\ size (f m).2 = size m /\ (mapping_ok m -> mapping_ok (f m).2)) -> space_ok (on_mapping s i f).2.
Proof.
  intros H Hf. unfold on_mapping. destruct (store s !! i) as [m|] eqn:Em; [|done]. specialize (Hf m). destruct (f m) as [r m']. cbn [snd] in *.
  apply space_ok_ext; [done|]. intros j x Hx. destruct (decide (j = i)) as [->|Hne].
  - rewrite list_lookup_insert_eq by (by apply lookup_lt_Some in Hx). rewrite Em in Hx. injection Hx as <-. by exists m'.
  - rewrite list_lookup_insert_ne by done. by exists x.
Qed.

Lemma set_protection_shape m p : address (set_protection m p).2 = address m /\ size (set_protection m p).2 = size m /\ (mapping_ok m -> mapping_ok (set_protection m p).2).
Proof. unfold set_protection. destruct (_ && _); [done|]. cbn. split; [done|]. split; [done|]. intros [? ? ? ? ?]. by split. Qed.

Lemma sync_shape m : address (sync m).2 = address m /\ size (sync m).2 = size m /\ (mapping_ok m -> mapping_ok (sync m).2).
Proof.
  unfold sync, clear_dirty. destruct (dirty m); cbn [negb]; [|done]. destruct (mapping_type m); cbn [snd]; try done. cbn [address size]. split; [done|]. split; [done|].
  intros [? ? ? ? ?]. by split.
Qed.

Lemma m_read_shape off n m : address (m_read m off n).2 = address m /\ size (m_read m off n).2 = size m /\ (mapping_ok m -> mapping_ok (m_read m off n).2).
Proof.
  unfold m_read. destruct (negb _); [done|]. destruct (memory m) as [mem|] eqn:Em; [|done]. destruct (_ >=? _); [done|]. cbn [snd address size]. split; [done|]. split; [done|].
  intros [? ? ? ? H]. split; try done. cbn. intros d Hd. injection Hd as <-. by apply H.
Qed.

Lemma written_length (mem data : list Z) off : 0 <= off < len mem ->
  let n := Z.min (len data) (len mem - off) in
  len (take (Z.to_nat off) mem ++ take (Z.to_nat n) data ++ drop (Z.to_nat (off + n)) mem) = len mem.
Proof. unfold len. cbn zeta. intros H. rewrite !length_app, !length_take, length_drop. lia. Qed.

Lemma m_write_shape off data m : 0 <= off ->
  address (m_write m off data).2 = address m /\ size (m_write m off data).2 = size m /\ (mapping_ok m -> mapping_ok (m_write m off data).2).
Proof.
  intros Ho. unfold m_write. destruct (negb _); [done|]. destruct (memory m) as [mem|] eqn:Em; [|done]. rewrite Z.geb_leb. destruct (Z.leb_spec (len mem) off); [done|].
  cbn [snd address size]. split; [done|]. split; [done|]. intros [? ? ? ? Hl]. split; try done. cbn [memory size]. intros d Hd. injection Hd as <-.
  rewrite (written_length mem data off) by lia. by apply Hl.
Qed.

Lemma wrap_account a b c z : a -w b = wrap64 c -> wrap64 (a + z) -w b = wrap64 (z + c) /\ (forall d, c = z + d -> a -w wrap64 (b + z) = wrap64 d).
Proof.
  unfold wrap64. intros H. split.
  - rewrite Zminus_mod_idemp_l. replace (a + z - b) with (z + (a - b)) by lia. by rewrite <- Zplus_mod_idemp_r, H, Zplus_mod_idemp_r.
  - intros d ->. rewrite Zminus_mod_idemp_r. replace (a - (b + z)) with (a - b - z) by lia. rewrite <- Zminus_mod_idemp_l, H, Zminus_mod_idemp_l. f_equal. lia.
Qed.

Lemma munmap_ok s a : space_ok s -> space_ok (munmap s a).2.
Proof.
  intros [[M1 M2 M3] B1 B2 B3 B4]. unfold munmap. destruct (mappings s !! a) as [i|] eqn:Ea; [|by split]. cbn [snd].
  split; [split| | | |]; cbn [next_addr base_addr max_addr mappings store total_mapped total_unmapped]; try done.
  - intros b j Hj. apply lookup_delete_Some in Hj as [_ Hj]. by apply M3.
  - intros b j Hj. apply lookup_delete_Some in Hj as [_ Hj]. by apply B2.
  - intros b c j k Hj Hk. apply lookup_delete_Some in Hj as [_ Hj], Hk as [_ Hk]. by apply (B3 b c j k).
  - apply (wrap_account _ _ _ _ B4). unfold live_bytes. cbn [mappings store]. rewrite (sum_perm _ _ (fmap_Permutation _ _ _ (symmetry (map_to_list_delete _ _ _ Ea)))). done.
Qed.

Lemma next_moved_ok s a : space_ok s -> next_addr s <= a <= 2 ^ 61 -> (PAGE_SIZE | a) -> space_ok (set_next s a).
Proof.
  intros [[M1 M2 M3] B1 B2 B3 B4] Ha Hd. split; [split| | | |]; cbn [next_addr base_addr max_addr mappings store total_mapped total_unmapped set_next]; try done; try lia.
  intros b i Hi. destruct (B2 b i Hi). lia.
Qed.

Lemma insert_ok s a m : space_ok s -> mapping_ok m -> address m = a -> next_addr s <= a -> a + size m <= max_addr s -> (PAGE_SIZE | a + size m) ->
  space_ok (insert_mapping (set_next s (a + size m)) a m).
Proof.
  intros H Hm Ha Hn Htop Hd. pose proof H as [[M1 M2 M3] B1 B2 B3 B4]. pose proof (mp_size m Hm) as Hsz.
  assert (Hlt : forall b j, mappings s !! b = Some j -> (j < length (store s))%nat /\ b + size_at (store s) j <= a /\ 0 < size_at (store s) j).
  { intros b j Hj. destruct (M3 b j Hj) as (x & Ex & _ & Hx). destruct (B2 b j Hj). split; [by apply lookup_lt_Some in Ex|]. split; [lia|].
    unfold size_at. rewrite Ex. apply (mp_size x Hx). }
  assert (Hold : forall b j, mappings s !! b = Some j -> size_at (store s ++ [m]) j = size_at (store s) j) by (intros b j Hj; unfold size_at; rewrite lookup_app_l by (by apply (Hlt b)); done).
  assert (Hnew : size_at (store s ++ [m]) (length (store s)) = size m) by (unfold size_at; rewrite lookup_app_r, Nat.sub_diag by lia; done).
  assert (Hfresh : mappings s !! a = None) by (destruct (mappings s !! a) as [j|] eqn:Ej; [|done]; destruct (Hlt a j Ej) as (_ & ? & ?); lia).
  split; [split| | | |]; cbn [next_addr base_addr max_addr mappings store total_mapped total_unmapped set_next insert_mapping]; try lia; try done.
  - intros b j. rewrite lookup_insert. destruct (decide (a = b)) as [<-|Hne]; intros Ej.
    + injection Ej as <-. exists m. rewrite lookup_app_r, Nat.sub_diag by lia. done.
    + destruct (M3 b j Ej) as (x & Ex & ?). exists x. rewrite lookup_app_l by (by apply lookup_lt_Some in Ex). done.
  - intros b j. rewrite lookup_insert. destruct (decide (a = b)) as [<-|Hne]; intros Ej; [injection Ej as <-; rewrite Hnew; lia|].
    rewrite (Hold b j Ej). destruct (B2 b j Ej). lia.
  - intros b c j k. rewrite !lookup_insert. destruct (decide (a = b)) as [<-|Hb], (decide (a = c)) as [<-|Hc]; intros Ej Ek Hlt'; try (injection Ej as <-); try (injection Ek as <-); try lia.
    + destruct (Hlt c k Ek) as (_ & ? & ?). lia.
    + rewrite (Hold b j Ej). by apply (Hlt b j).
    + rewrite (Hold b j Ej). by apply (B3 b c j k).
  - rewrite (proj1 (wrap_account _ _ _ (size m) B4)). f_equal. unfold live_bytes. cbn [mappings store insert_mapping set_next].
    rewrite (sum_perm _ _ (fmap_Permutation _ _ _ (map_to_list_insert _ _ (length (store s)) Hfresh))). cbn [fmap list_fmap sum foldr snd]. rewrite Hnew. f_equal.
    symmetry. apply (live_bytes_ext s (set_store s (store s ++ [m]))); [done | exact Hold].
Qed.

(** What a mapping is made of: the address and the rounded size. *)
Definition makes (sz : Z) (make : Z -> result MemoryMapping MmapError) : Prop :=
  forall a m, make a = Ok m -> address m = a /\ size m = page_aligned sz /\ (forall d, memory m = Some d -> len d = size m).

Lemma map_with_ok s addr sz f make : space_ok s -> fixed f = false -> 0 <= sz < 2 ^ 63 -> makes sz make ->
  exists r s', map_with s addr sz f make = Some (r, s') /\ space_ok s' /\ (forall a, r = Ok a -> next_addr s <= a /\ a + page_aligned sz = next_addr s').
Proof.
  intros H Hf Hsz Hmk. unfold map_with. destruct (Z.eqb_spec sz 0) as [->|Hne]; [by eexists _, s|]. assert (Hsz' : 0 < sz < 2 ^ 63) by lia.
  pose proof H as [Hmgr B1 B2 B3 B4]. pose proof Hmgr as [M1 M2 M3]. destruct (page_aligned_ok sz Hsz') as (Hal & _ & Hdiv).
  destruct (find_free_spec s sz Hmgr Hsz') as (r & E & Hr).
  assert (Ec : choose_address s addr sz f = Some (match r with Some a => Ok a | None => Err OutOfMemory end, match r with Some a => set_next s (a + page_aligned sz) | None => s end)).
  { unfold choose_address. rewrite Hf, E. by destruct addr. }
  rewrite Ec. destruct r as [a|]; [|by eexists _, s]. destruct Hr as (n & -> & Htop & Hfree & _). set (a := candidate (next_addr s) n) in *.
  assert (Hge : next_addr s <= a) by (unfold a, candidate, PAGE_SIZE; lia). assert (Hda : (PAGE_SIZE | a)) by (apply Z.divide_add_r; [done | by exists (Z.of_nat n); lia]).
  unfold PAGE_SIZE in Hal. assert (Hd2 : (PAGE_SIZE | a + page_aligned sz)) by (by apply Z.divide_add_r).
  destruct (make a) as [m|e] eqn:Em.
  - destruct (Hmk a m Em) as (Ha & Hs & Hmem). assert (Hm : mapping_ok m) by (split; rewrite ?Ha, ?Hs; try done; try lia; rewrite <- Hs; exact Hmem).
    eexists _, _. split; [reflexivity|]. rewrite <- Hs in *. split; [by apply insert_ok|]. intros b Eb. injection Eb as <-. done.
  - eexists _, _. split; [reflexivity|]. split; [apply next_moved_ok; [done | lia | done] | done].
Qed.

Lemma anonymous_makes reserve garbage sz p f : 0 < sz < 2 ^ 63 -> makes sz (fun a => anonymous_mapping reserve garbage a sz p f).
Proof.
  intros Hsz a m. destruct (page_aligned_ok sz Hsz) as (Hal & _). unfold PAGE_SIZE in Hal. unfold anonymous_mapping. destruct (reserve _); [|done].
  intros E. injection E as <-. cbn. split; [done|]. split; [done|]. intros d Hd. injection Hd as <-. unfold len. destruct (zero_init f).
  - rewrite length_replicate. lia.
  - rewrite length_fmap, length_seq. lia.
Qed.

Lemma file_makes reserve sz p f path offset : 0 < sz < 2 ^ 63 -> makes sz (fun a => file_mapping reserve a sz p f path offset).
Proof.
  intros Hsz a m. destruct (page_aligned_ok sz Hsz) as (Hal & _). unfold PAGE_SIZE in Hal. unfold file_mapping. destruct (negb _); [done|]. destruct (reserve _); [|done].
  intros E. injection E as <-. cbn. split; [done|]. split; [done|]. intros d Hd. injection Hd as <-. unfold len. rewrite length_replicate. lia.
Qed.

Inductive mmap_op :=
| MAnonymous (addr : option Z) (sz p : Z) (f : MappingFlags) | MFile (addr : option Z) (sz p : Z) (f : MappingFlags) (path : string) (offset : Z)
| MUnmap (a : Z) | MProtect (a p : Z) | MSync (a : Z) | MRead (i : nat) (off n : Z) | MWrite (i : nat) (off : Z) (d : list Z).

Section Runs.
Context (reserve : Z -> bool) (garbage : nat -> Z).

(** An operation, with the address of a new mapping. *)
Definition mmap_step (s : MmapManager) (o : mmap_op) : option (option (Z * Z) * MmapManager) :=
  let made sz x := (match x.1 with Ok a => Some (a, page_aligned sz) | Err _ => None end, x.2) in
  match o with
  | MAnonymous addr sz p f => made sz <$> mmap_anonymous reserve garbage s addr sz p f
  | MFile addr sz p f path offset => made sz <$> mmap_file reserve s addr sz p f path offset
  | MUnmap a => Some (None, (munmap s a).2)
  | MProtect a p => Some (None, (mprotect s a p).2)
  | MSync a => Some (None, (msync s a).2)
  | MRead i off n => Some (None, (on_mapping s i (fun m => m_read m off n)).2)
  | MWrite i off d => Some (None, (on_mapping s i (fun m => m_write m off d)).2)
  end.

(** The ranges handed out, in order. *)
Fixpoint mmap_run (s : MmapManager) (l : list mmap_op) : option (list (Z * Z) * MmapManager) :=
  match l with
  | [] => Some ([], s)
  | o :: l' =>
      match mmap_step s o with
      | None => None
      | Some (x, s1) => (fun y => (match x with Some r => r :: y.1 | None => y.1 end, y.2)) <$> mmap_run s1 l'
      end
  end.

(** The address is left to the manager, and sizes are below 2^63, the limit of an
    allocation. *)
Definition op_plain (o : mmap_op) : Prop :=
  match o with
  | MAnonymous _ sz _ f | MFile _ sz _ f _ _ => fixed f = false /\ 0 <= sz < 2 ^ 63
  | MWrite _ off _ => 0 <= off
  | _ => True
  end.

Lemma on_mapping_next {A} s i (f : MemoryMapping -> result A MmapError * MemoryMapping) : next_addr (on_mapping s i f).2 = next_addr s.
Proof. unfold on_mapping. destruct (store s !! i) as [m|]; [|done]. by destruct (f m). Qed.

Lemma map_step_ok s addr sz f make : space_ok s -> fixed f = false /\ 0 <= sz < 2 ^ 63 -> (0 < sz < 2 ^ 63 -> makes sz make) ->
  exists x s', (fun x => (match x.1 with Ok a => Some (a, page_aligned sz) | Err _ => None end, x.2)) <$> map_with s addr sz f make = Some (x, s') /\
    space_ok s' /\ next_addr s <= next_addr s' /\ match x with Some (a, n) => next_addr s <= a /\ a + n <= next_addr s' /\ 0 < n | None => True end.
Proof.
  intros H [Hf Hsz] Hmk. destruct (Z.eq_dec sz 0) as [->|Hne]; [by exists None, s|]. assert (Hsz' : 0 < sz < 2 ^ 63) by lia.
  destruct (map_with_ok s addr sz f make H Hf Hsz (Hmk Hsz')) as (r & s' & E & Hs' & Hr). rewrite E. cbn [fmap option_fmap option_map fst snd].
  eexists _, s'. split; [done|]. split; [done|]. destruct (page_aligned_ok sz Hsz') as (Hal & _). unfold PAGE_SIZE in Hal. destruct r as [a|e]; cbn.
  - destruct (Hr a eq_refl). lia.
  - split; [|done]. clear Hr. unfold map_with in E. rewrite (proj2 (Z.eqb_neq sz 0) Hne) in E.
    destruct (find_free_spec s sz (so_mgr s H) Hsz') as (r & Ef & Hfr). unfold choose_address in E. rewrite Hf, Ef in E. destruct r as [a|].
    + assert (Ha : next_addr s <= a) by (destruct Hfr as (n & -> & _); unfold candidate, PAGE_SIZE; lia).
      destruct addr; cbn in E; destruct (make a); (discriminate E || injection E as _ <-); cbn; lia.
    + destruct addr; cbn in E; injection E as _ <-; lia.
Qed.

Lemma mmap_step_ok s o : space_ok s -> op_plain o -> exists x s', mmap_step s o = Some (x, s') /\ space_ok s' /\ next_addr s <= next_addr s' /\
  match x with Some (a, n) => next_addr s <= a /\ a + n <= next_addr s' /\ 0 < n | None => True end.
Proof.
  intros H Ho. destruct o; cbn [mmap_step op_plain] in *.
  - apply map_step_ok; [done | done | intros; by apply anonymous_makes].
  - apply map_step_ok; [done | done | intros; by apply file_makes].
  - exists None, (munmap s a).2. split; [done|]. split; [by apply munmap_ok|]. unfold munmap. by destruct (mappings s !! a).
  - eexists None, _. split; [done|]. unfold mprotect. destruct (mappings s !! a) as [i|]; [|done]. rewrite on_mapping_next. split; [|done].
    apply on_mapping_ok; [done | intros m; apply set_protection_shape].
  - eexists None, _. split; [done|]. unfold msync. destruct (mappings s !! a) as [i|]; [|done]. rewrite on_mapping_next. split; [|done].
    apply on_mapping_ok; [done | apply sync_shape].
  - eexists None, _. split; [done|]. rewrite on_mapping_next. split; [|done]. apply on_mapping_ok; [done | intros m; apply m_read_shape].
  - eexists None, _. split; [done|]. rewrite on_mapping_next. split; [|done]. apply on_mapping_ok; [done | intros m; by apply m_write_shape].
Qed.

(** Ranges one after the other. *)
Fixpoint ascending (from : Z) (l : list (Z * Z)) : Prop :=
  match l with
  | [] => True
  | (a, n) :: l' => from <= a /\ 0 < n /\ ascending (a + n) l'
  end.

Lemma ascending_mono x y l : x <= y -> ascending y l -> ascending x l.
Proof. destruct l as [|[a n] l]; [done|]. cbn. intros ? (? & ? & ?). split; [lia | done]. Qed.

Lemma mmap_run_ok l s : space_ok s -> Forall op_plain l -> exists rs s', mmap_run s l = Some (rs, s') /\ space_ok s' /\ ascending (next_addr s) rs.
Proof.
  revert s. induction l as [|o l IH]; intros s H Hl; cbn [mmap_run]; [by exists [], s|]. apply Forall_cons in Hl as [Ho Hl].
  destruct (mmap_step_ok s o H Ho) as (x & s1 & E & H1 & Hn & Hx). rewrite E. destruct (IH s1 H1 Hl) as (rs & s' & E' & H' & Ha). rewrite E'. cbn.
  eexists _, s'. split; [done|]. split; [done|]. destruct x as [[a n]|]; cbn.
  - destruct Hx as (H2 & H3 & H4). split; [done|]. split; [done|]. by apply (ascending_mono _ (next_addr s1)).
  - by apply (ascending_mono _ (next_addr s1)).
Qed.

Lemma manager_new_space : space_ok manager_new.
Proof. split; [apply mmap_new_ok | done | intros a i Hi; cbn in Hi; by rewrite lookup_empty in Hi | intros a b i j Hi; cbn in Hi; by rewrite lookup_empty in Hi | reflexivity]. Qed.

(** C9: whatever is mapped without a fixed address, in sizes below 2^63, removed,
    protected, read and written, every call ends; the registered mappings lie inside the area of the
    manager, on page boundaries and apart from each other, with as many bytes as
    their size; the difference of the totals is the number of bytes mapped; and no
    address is ever handed out twice. *)
Theorem mappings_stay_apart l :
  Forall op_plain l ->
  exists rs s', mmap_run manager_new l = Some (rs, s') /\ space_ok s' /\ ascending DEFAULT_BASE rs.
Proof. intros Hl. exact (mmap_run_ok l manager_new manager_new_space Hl). Qed.

End Runs.

Definition demo_ops : list mmap_op :=
  [MAnonymous None 5000 3 default_flags; MFile (Some 4096) 1 1 default_flags "f" 0; MWrite 0 10 [1; 2]; MUnmap DEFAULT_BASE; MAnonymous None 1 3 default_flags].

Lemma mappings_stay_apart_witness : exists s', mmap_run (fun _ => true) (fun _ => 7) manager_new demo_ops = Some ([(DEFAULT_BASE, 8192); (DEFAULT_BASE + 8192, 4096); (DEFAULT_BASE + 12288, 4096)], s') /\ space_ok s'.
Proof.
  destruct (mappings_stay_apart (fun _ => true) (fun _ => 7) demo_ops) as (rs & s' & E & H & _).
  - repeat constructor; cbn; lia.
  - exists s'. split; [|exact H]. rewrite E. f_equal. f_equal.
    assert (Er : fst <$> mmap_run (fun _ => true) (fun _ => 7) manager_new demo_ops = Some [(DEFAULT_BASE, 8192); (DEFAULT_BASE + 8192, 4096); (DEFAULT_BASE + 12288, 4096)]) by (vm_compute; reflexivity).
    rewrite E in Er. cbn in Er. by injection Er.
Defined.

(** ** One mapping *)

(** bytes written to a mapping are read back, as far as the mapping goes. *)
Theorem mapping_write_read m off d mem :
  can_read (protection m) = true -> can_write (protection m) = true -> memory m = Some mem -> 0 <= off < len mem ->
  let n := Z.min (len d) (len mem - off) in
  (m_write m off d).1 = Ok n /\ (m_read (m_write m off d).2 off (len d)).1 = Ok (take (Z.to_nat n) d) /\ dirty (m_write m off d).2 = true.
Proof.
  intros Hr Hw Em Ho n. unfold m_write. rewrite Hw, Em. cbn [negb]. rewrite Z.geb_leb, (proj2 (Z.leb_gt _ _)) by lia. fold n. cbn [fst snd dirty]. split; [done|]. split; [|done].
  assert (Hn : (Z.to_nat n <= length d)%nat) by (unfold n, len; lia).
  unfold m_read. cbn [protection memory]. rewrite Hr. cbn [negb]. set (mem' := take _ _ ++ _). assert (Hl : len mem' = len mem) by (by apply written_length).
  rewrite Hl, Z.geb_leb, (proj2 (Z.leb_gt _ _)) by lia. fold n. cbn [fst]. f_equal. unfold mem', len in *.
  rewrite drop_app_length' by (rewrite length_take; lia). rewrite take_app_le by (rewrite length_take; lia). by rewrite take_take, Nat.min_id.
Qed.

Definition demo_mapping : MemoryMapping := mkMapping 4096 4 3 default_flags Anonymous (Some [0; 0; 0; 0]) 0 false.

Lemma mapping_write_read_witness : (m_read (m_write demo_mapping 2 [5; 6; 7]).2 2 3).1 = Ok [5; 6].
Proof. apply (mapping_write_read demo_mapping 2 [5; 6; 7] [0; 0; 0; 0]); [reflexivity | reflexivity | reflexivity | unfold len; cbn [length]; lia]. Defined.

(** The protection of a mapping is only ever changed to one that is not writable and
    executable at once. *)
Lemma mprotect_write_xor_execute s a p s' : mprotect s a p = (Ok tt, s') -> can_write p && can_exec p = false.
Proof.
  unfold mprotect. destruct (mappings s !! a) as [i|]; [|done]. unfold on_mapping, set_protection. destruct (store s !! i) as [m|]; [|done]. destruct (can_write p && can_exec p); done.
Qed.

(** ** Boundary behaviour *)

Definition fixed_flags : MappingFlags := mkFlags false true true true false false false false true.

(** New mappings may be writable and executable. *)
Lemma mmap_write_execute : match mmap_anonymous (fun _ => true) (fun _ => 0) manager_new None 1 7 default_flags with
  | Some (Ok a, s) => i_protection <$> info s a = Some 7
  | _ => False
  end.
Proof. vm_compute. reflexivity. Qed.

(** A mapping at a fixed address is not checked against the others: it may overlap
    one, or replace it without its bytes being counted as unmapped. *)
Lemma fixed_mapping_overlaps : match mmap_anonymous (fun _ => true) (fun _ => 0) manager_new None 8192 3 default_flags with
  | Some (Ok a, s) =>
      match mmap_anonymous (fun _ => true) (fun _ => 0) s (Some (a + 4096)) 1 3 fixed_flags, mmap_anonymous (fun _ => true) (fun _ => 0) s (Some a) 1 3 fixed_flags with
      | Some (Ok b, s1), Some (Ok c, s2) =>
          ((fun x => (i_address x, i_size x)) <$> list_mappings s1) = [(a, 8192); (a + 4096, 4096)] /\ stats s2 = mkStats 12288 0 1
      | _, _ => False
      end
  | _ => False
  end.
Proof. vm_compute. auto. Qed.

(** A huge size wraps around the check against the top; the call fails for want of
    memory, but the next mapping is put at address 0. *)
Lemma huge_mapping_moves_next : match mmap_anonymous (fun n => n <? 2 ^ 40) (fun _ => 0) manager_new None (2 ^ 64 - DEFAULT_BASE) 3 default_flags with
  | Some (Err OutOfMemory, s) => fst <$> mmap_anonymous (fun n => n <? 2 ^ 40) (fun _ => 0) s None 1 3 default_flags = Some (Ok 0)
  | _ => False
  end.
Proof. vm_compute. reflexivity. Qed.

(** Two calls that search before either registers get the same address, and the
    second replaces the first. *)
Lemma concurrent_search : match find_free_address manager_new 1, anonymous_mapping (fun _ => true) (fun _ => 0) DEFAULT_BASE 1 3 default_flags with
  | Some (Some a, s), Ok m => base.size (mappings (insert_mapping (insert_mapping s a m) a m)) = 1%nat /\ fst <$> find_free_address manager_new 1 = Some (Some a)
  | _, _ => False
  end.
Proof. vm_compute. auto. Qed.

End MmapSpec.
