(* ===== verification/SharedMem.v ===== *)
(** * Shared memory and proxies (src/src/ipc/shared_mem.rs, src/src/ipc/proxy.rs)

    Regions are shared by reference counting: [store] has every region a manager or
    a handle may refer to, the maps of the manager name some of them, and a handle
    is a region and a flag.  A region that nobody refers to any more stays in
    [store], where nothing can reach it.  Methods are transitions; the two halves
    of a creation, between which the lock is released, are definitions of their
    own.  Whether a vector of a size can be allocated is an argument. *)

From stdpp Require Import base list gmap strings.
From Stdlib Require Import ZArith Lia.
From S2P Require Import Prelude.

Import Bytes.
Local Open Scope Z_scope.
Open Scope word_scope.

Module Shm.

Definition PAGE_SIZE : Z := 4096.
Definition IPC_PRIVATE : Z := 0.

Definition page_aligned (size : Z) : Z := (((size +w PAGE_SIZE) -w 1) / PAGE_SIZE) *w PAGE_SIZE.

Record ShmPermissions := mkPerms { p_read : bool; p_write : bool; p_execute : bool; mode : Z }.
Definition default_permissions : ShmPermissions := mkPerms true true false 384.

Record ShmFlags := mkFlags { create : bool; exclusive : bool; remove_on_last_detach : bool; huge_pages : bool; locked : bool }.
Definition default_flags : ShmFlags := mkFlags false false false false false.

Inductive ShmError :=
| NotFound | AlreadyExists | PermissionDenied | InvalidSize | OutOfMemory | InvalidAddress | AlreadyAttached | NotAttached | InUse | InvalidId | NoResources.

#[export] Instance shm_error_eq_dec : EqDecision ShmError.
Proof. solve_decision. Defined.

(** ** Regions *)

Record SharedMemoryRegion := mkRegion {
  key : Z; size : Z; memory : list Z; permissions : ShmPermissions; flags : ShmFlags;
  attach_count : Z; total_attaches : Z; total_detaches : Z; marked_for_removal : bool; name : option string }.

Definition set_memory (r : SharedMemoryRegion) (m : list Z) : SharedMemoryRegion :=
  mkRegion (key r) (size r) m (permissions r) (flags r) (attach_count r) (total_attaches r) (total_detaches r) (marked_for_removal r) (name r).

Definition region_attach (r : SharedMemoryRegion) : SharedMemoryRegion :=
  mkRegion (key r) (size r) (memory r) (permissions r) (flags r) (attach_count r +w 1) (total_attaches r +w 1) (total_detaches r) (marked_for_removal r) (name r).

(** Whether the region may be removed now. *)
Definition region_detach (r : SharedMemoryRegion) : bool * SharedMemoryRegion :=
  ((attach_count r =? 1) && marked_for_removal r,
   mkRegion (key r) (size r) (memory r) (permissions r) (flags r) (attach_count r -w 1) (total_attaches r) (total_detaches r +w 1) (marked_for_removal r) (name r)).

Definition mark_for_removal (r : SharedMemoryRegion) : SharedMemoryRegion :=
  mkRegion (key r) (size r) (memory r) (permissions r) (flags r) (attach_count r) (total_attaches r) (total_detaches r) true (name r).

Definition can_be_removed (r : SharedMemoryRegion) : bool := marked_for_removal r && (attach_count r =? 0).

(** ** The manager and the handles *)

Record ShmHandle := mkHandle { region : Z; attached : bool }.

Record shm := mkShm {
  next_id : Z; store : gmap Z SharedMemoryRegion;
  regions_by_id : gset Z; regions_by_key : gmap Z Z; regions_by_name : gmap string Z;
  total_created : Z; total_destroyed : Z; total_bytes : Z; handles : list ShmHandle }.

Definition shm_new : shm := mkShm 1 ∅ ∅ ∅ ∅ 0 0 0 [].

Definition set_store (s : shm) (m : gmap Z SharedMemoryRegion) : shm :=
  mkShm (next_id s) m (regions_by_id s) (regions_by_key s) (regions_by_name s) (total_created s) (total_destroyed s) (total_bytes s) (handles s).
Definition set_handles (s : shm) (l : list ShmHandle) : shm :=
  mkShm (next_id s) (store s) (regions_by_id s) (regions_by_key s) (regions_by_name s) (total_created s) (total_destroyed s) (total_bytes s) l.

Section Create.
(** [try_reserve] of a vector of bytes. *)
Context (reserve : Z -> bool).

Definition region_new (k sz : Z) (p : ShmPermissions) (f : ShmFlags) (n : option string) : result SharedMemoryRegion ShmError :=
  let aligned := page_aligned sz in
  if reserve aligned then Ok (mkRegion k aligned (replicate (Z.to_nat aligned) 0) p f 0 0 0 false n) else Err OutOfMemory.

Definition generate_id (s : shm) : Z * shm :=
  (next_id s, mkShm (next_id s +w 1) (store s) (regions_by_id s) (regions_by_key s) (regions_by_name s) (total_created s) (total_destroyed s) (total_bytes s) (handles s)).

(** The region enters the maps that name it. *)
Definition register (s : shm) (id : Z) (r : SharedMemoryRegion) : shm :=
  mkShm (next_id s) (<[id := r]> (store s)) ({[id]} ∪ regions_by_id s)
    (if negb (key r =? IPC_PRIVATE) then <[key r := id]> (regions_by_key s) else regions_by_key s)
    (match name r with Some n => <[n := id]> (regions_by_name s) | None => regions_by_name s end)
    (total_created s +w 1) (total_destroyed s) (total_bytes s +w size r) (handles s).

Definition make (s : shm) (k sz : Z) (p : ShmPermissions) (f : ShmFlags) (n : option string) : result Z ShmError * shm :=
  let '(id, s1) := generate_id s in
  match region_new k sz p f n with
  | Err e => (Err e, s1)
  | Ok r => (Ok id, register s1 id r)
  end.

(** An existing key ends the call here. *)
Definition check_key (s : shm) (k : Z) (f : ShmFlags) : option (result Z ShmError) :=
  if negb (k =? IPC_PRIVATE) then
    match regions_by_key s !! k with
    | Some id => Some (if exclusive f then Err AlreadyExists else Ok id)
    | None => None
    end
  else None.

Definition shm_create (s : shm) (k sz : Z) (p : ShmPermissions) (f : ShmFlags) : result Z ShmError * shm :=
  match check_key s k f with
  | Some r => (r, s)
  | None => make s k sz p f None
  end.

Definition check_name (s : shm) (n : string) (f : ShmFlags) : option (result Z ShmError) :=
  match regions_by_name s !! n with
  | Some id => Some (if exclusive f then Err AlreadyExists else Ok id)
  | None => None
  end.

Definition create_named (s : shm) (n : string) (sz : Z) (p : ShmPermissions) (f : ShmFlags) : result Z ShmError * shm :=
  match check_name s n f with
  | Some r => (r, s)
  | None => make s IPC_PRIVATE sz p f (Some n)
  end.

(** [shmget] and [shm_open] *)
Definition shmget (s : shm) (k sz : Z) (f : ShmFlags) : result Z ShmError * shm :=
  if create f || (k =? IPC_PRIVATE) then shm_create s k sz default_permissions f
  else (match regions_by_key s !! k with Some id => Ok id | None => Err NotFound end, s).

Definition shm_open (s : shm) (n : string) (sz : Z) (f : ShmFlags) : result Z ShmError * shm :=
  if create f then create_named s n sz default_permissions f
  else (match regions_by_name s !! n with Some id => Ok id | None => Err NotFound end, s).

End Create.

(** The number of the new handle. *)
Definition attach (s : shm) (id : Z) : result nat ShmError * shm :=
  if decide (id ∈ regions_by_id s) then
    match store s !! id with
    | Some r => (Ok (length (handles s)), set_handles (set_store s (<[id := region_attach r]> (store s))) (handles s ++ [mkHandle id true]))
    | None => (Err NotFound, s)
    end
  else (Err NotFound, s).

Definition do_remove (s : shm) (id : Z) (r : SharedMemoryRegion) : shm :=
  mkShm (next_id s) (store s) (regions_by_id s ∖ {[id]})
    (if negb (key r =? IPC_PRIVATE) then delete (key r) (regions_by_key s) else regions_by_key s)
    (match name r with Some n => delete n (regions_by_name s) | None => regions_by_name s end)
    (total_created s) (total_destroyed s +w 1) (total_bytes s -w size r) (handles s).

Definition remove (s : shm) (id : Z) : result unit ShmError * shm :=
  if decide (id ∈ regions_by_id s) then
    match store s !! id with
    | Some r =>
        let s1 := set_store s (<[id := mark_for_removal r]> (store s)) in
        if attach_count r >? 0 then (Ok tt, s1) else (Ok tt, do_remove s1 id r)
    | None => (Err NotFound, s)
    end
  else (Err NotFound, s).

Definition shm_unlink (s : shm) (n : string) : result unit ShmError * shm :=
  match regions_by_name s !! n with
  | Some id => remove s id
  | None => (Err NotFound, s)
  end.

(** ** Handles *)

(** The memory a handle gives access to; [None] after it was detached. *)
Definition h_memory (s : shm) (h : nat) : option (list Z) :=
  match handles s !! h with
  | Some x => if attached x then memory <$> store s !! region x else None
  | None => None
  end.

Definition update_memory (s : shm) (h : nat) (m : list Z) : shm :=
  match handles s !! h with
  | Some x => match store s !! region x with Some r => set_store s (<[region x := set_memory r m]> (store s)) | None => s end
  | None => s
  end.

(** [mem[off..off + n].copy_from_slice(bs)] *)
Definition poke (m : list Z) (off : Z) (bs : list Z) : outcome (list Z) :=
  let! _ := slice m off (off +w len bs) in
  Ret (take (Z.to_nat off) m ++ bs ++ drop (Z.to_nat off + length bs) m).

Definition write_at (s : shm) (h : nat) (offset : Z) (d : list Z) : outcome (result unit ShmError * shm) :=
  match h_memory s h with
  | None => Ret (Err NotAttached, s)
  | Some m =>
      if (offset +w len d) >? len m then Ret (Err InvalidAddress, s)
      else let! m' := poke m offset d in Ret (Ok tt, update_memory s h m')
  end.

(** The bytes read into a buffer of [n] bytes. *)
Definition read_at (s : shm) (h : nat) (offset : Z) (n : Z) : result (list Z) ShmError :=
  match h_memory s h with
  | None => Err NotAttached
  | Some m =>
      if offset >=? len m then Err InvalidAddress
      else Ok (take (Z.to_nat (Z.min n (len m - offset))) (drop (Z.to_nat offset) m))
  end.

(** What [region.detach] answers is dropped. *)
Definition detach (s : shm) (h : nat) : result unit ShmError * shm :=
  match handles s !! h with
  | Some x =>
      if attached x then
        let s1 := set_handles s (<[h := mkHandle (region x) false]> (handles s)) in
        (Ok tt, match store s1 !! region x with
                | Some r => set_store s1 (<[region x := (region_detach r).2]> (store s1))
                | None => s1
                end)
      else (Err NotAttached, s)
  | None => (Err NotAttached, s)
  end.

Definition drop_handle (s : shm) (h : nat) : shm :=
  match handles s !! h with
  | Some x => if attached x then (detach s h).2 else s
  | None => s
  end.

Record ShmInfo := mkInfo { i_id : Z; i_key : Z; i_size : Z; i_attach_count : Z; i_permissions : ShmPermissions; i_name : option string }.

Definition info (s : shm) (id : Z) : option ShmInfo :=
  if decide (id ∈ regions_by_id s) then
    (fun r => mkInfo id (key r) (size r) (attach_count r) (permissions r) (name r)) <$> store s !! id
  else None.

(** ** A value in shared memory

    A value of a [Copy] type is its bytes. *)
Definition value_write (s : shm) (h : nat) (v : list Z) : outcome (result unit ShmError * shm) :=
  match h_memory s h with
  | None => Ret (Err NotAttached, s)
  | Some m => if len m <? len v then Ret (Err InvalidSize, s) else let! m' := poke m 0 v in Ret (Ok tt, update_memory s h m')
  end.

Definition value_read (s : shm) (h : nat) (type_size : nat) : outcome (result (list Z) ShmError) :=
  match h_memory s h with
  | None => Ret (Err NotAttached)
  | Some m => if len m <? Z.of_nat type_size then Ret (Err InvalidSize) else let! v := read m 0 type_size in Ret (Ok v)
  end.

(** ** The ring in shared memory *)

(** [size_of::<SharedRingHeader>()]: two positions, the capacity and the size of an
    element, a word each. *)
Definition header_size : Z := 32.

Record SharedRingBuffer := mkRing { r_handle : nat; producer : Z; consumer : Z; capacity : Z }.

Definition put_word (m : list Z) (off v : Z) : outcome (list Z) := poke m off (to_le 8 v).
Definition get_word (m : list Z) (off : Z) : outcome Z := let! b := read m off 8 in Ret (from_le b).

Section Ring.
Context (reserve : Z -> bool) (element_size : nat).

Definition init_header (m : list Z) (cap : Z) : outcome (list Z) :=
  let! m1 := put_word m 0 0 in
  let! m2 := put_word m1 8 0 in
  let! m3 := put_word m2 16 cap in
  put_word m3 24 (Z.of_nat element_size).

Definition ring_create (s : shm) (n : string) (cap prod cons : Z) : outcome (result SharedRingBuffer ShmError * shm) :=
  let total_size := header_size +w (cap *w Z.of_nat element_size) in
  match shm_open reserve s n total_size (mkFlags true true false false false) with
  | (Err e, s1) => Ret (Err e, s1)
  | (Ok id, s1) =>
      match attach s1 id with
      | (Err e, s2) => Ret (Err e, s2)
      | (Ok h, s2) =>
          match h_memory s2 h with
          | None => Ret (Err NotAttached, s2)
          | Some m => let! m' := init_header m cap in Ret (Ok (mkRing h prod cons cap), update_memory s2 h m')
          end
      end
  end.

Definition ring_open (s : shm) (n : string) (prod cons : Z) : outcome (result SharedRingBuffer ShmError * shm) :=
  match regions_by_name s !! n with
  | None => Ret (Err NotFound, s)
  | Some id =>
      match attach s id with
      | (Err e, s2) => Ret (Err e, s2)
      | (Ok h, s2) =>
          match h_memory s2 h with
          | None => Ret (Err NotAttached, s2)
          | Some m => let! cap := get_word m 16 in Ret (Ok (mkRing h prod cons cap), s2)
          end
      end
  end.

(** [x % capacity], which panics for zero *)
Definition next_pos (pos cap : Z) : outcome Z := if cap =? 0 then Panic else Ret ((pos +w 1) mod cap).

(** [push] and [pop] on the memory of the region, through raw pointers; [Panic] also
    stands for an access outside the region, which the source does not check. *)
Definition mem_push (m : list Z) (cap : Z) (v : list Z) : outcome (result (list Z) ShmError) :=
  let! write_pos := get_word m 0 in
  let! read_pos := get_word m 8 in
  let! next_write := next_pos write_pos cap in
  if next_write =? read_pos then Ret (Err OutOfMemory)
  else
    let offset := header_size +w (write_pos *w Z.of_nat element_size) in
    let! m1 := poke m offset v in
    let! m2 := put_word m1 0 next_write in
    Ret (Ok m2).

Definition mem_pop (m : list Z) (cap : Z) : outcome (result (list Z * list Z) ShmError) :=
  let! write_pos := get_word m 0 in
  let! read_pos := get_word m 8 in
  if read_pos =? write_pos then Ret (Err NotFound)
  else
    let offset := header_size +w (read_pos *w Z.of_nat element_size) in
    let! v := read m offset element_size in
    let! next_read := next_pos read_pos cap in
    let! m1 := put_word m 8 next_read in
    Ret (Ok (v, m1)).

Definition ring_push (s : shm) (r : SharedRingBuffer) (v : list Z) : outcome (result unit ShmError * shm) :=
  match h_memory s (r_handle r) with
  | None => Ret (Err NotAttached, s)
  | Some m =>
      let! x := mem_push m (capacity r) v in
      match x with
      | Err e => Ret (Err e, s)
      | Ok m' => Ret (Ok tt, update_memory s (r_handle r) m')
      end
  end.

Definition ring_pop (s : shm) (r : SharedRingBuffer) : outcome (result (list Z) ShmError * shm) :=
  match h_memory s (r_handle r) with
  | None => Ret (Err NotAttached, s)
  | Some m =>
      let! x := mem_pop m (capacity r) in
      match x with
      | Err e => Ret (Err e, s)
      | Ok (v, m') => Ret (Ok v, update_memory s (r_handle r) m')
      end
  end.

Definition ring_is_empty (s : shm) (r : SharedRingBuffer) : outcome bool :=
  match h_memory s (r_handle r) with
  | None => Ret true
  | Some m => let! w := get_word m 0 in let! r := get_word m 8 in Ret (w =? r)
  end.

Definition ring_is_full (s : shm) (r : SharedRingBuffer) : outcome bool :=
  match h_memory s (r_handle r) with
  | None => Ret true
  | Some m => let! w := get_word m 0 in let! rp := get_word m 8 in let! n := next_pos w (capacity r) in Ret (n =? rp)
  end.

End Ring.

End Shm.

(** ** Proxies (proxy.rs) *)

Module Proxy.

Inductive ProxyError :=
| DomainPanicked (msg : string) | DomainUnresponsive | DomainNotFound | CommunicationError (msg : string) | PermissionDenied | Timeout | Other (msg : string).

Record BasicProxy := mkProxy { target_domain : Z; caller_domain : Z; timeout_ms : Z }.

Definition proxy_new (caller target : Z) : BasicProxy := mkProxy target caller 5000.
Definition with_timeout (p : BasicProxy) (t : Z) : BasicProxy := mkProxy (target_domain p) (caller_domain p) t.

(** The statics: the current domain of the panic handler, and the panic state. *)
Record statics := mkStatics { CURRENT_DOMAIN_ID : Z; PROXY_PANIC_STATE : bool; PROXY_PANIC_MESSAGE : option string }.

Definition set_current_domain (s : statics) (d : Z) : statics := mkStatics d (PROXY_PANIC_STATE s) (PROXY_PANIC_MESSAGE s).
Definition record_proxy_panic (s : statics) (msg : string) : statics := mkStatics (CURRENT_DOMAIN_ID s) true (Some msg).

Section Call.
Context {T : Type}.

(** A call: it may change the statics, and it may panic. *)
Definition proxy_call (p : BasicProxy) (s : statics) (func : statics -> outcome (T * statics)) : outcome (result T ProxyError * statics) :=
  let prev_domain := CURRENT_DOMAIN_ID s in
  let s1 := set_current_domain s (target_domain p) in
  let s2 := mkStatics (CURRENT_DOMAIN_ID s1) false (PROXY_PANIC_MESSAGE s1) in
  let! (r, s3) := func s2 in
  let s4 := set_current_domain s3 prev_domain in
  if PROXY_PANIC_STATE s4 then
    Ret (Err (DomainPanicked (default EmptyString (PROXY_PANIC_MESSAGE s4))), mkStatics (CURRENT_DOMAIN_ID s4) (PROXY_PANIC_STATE s4) None)
  else Ret (Ok r, s4).

(** The future of an asynchronous call does not have the function. *)
Definition call_async_poll (p : BasicProxy) : result T ProxyError := Err (Other "Async proxy not fully implemented").

Definition invoke : result T ProxyError := Err (Other "Not implemented").

Record RetryConfig := mkRetry { max_retries : nat; retry_interval_ms : Z; exponential_backoff : bool }.
Definition default_retry : RetryConfig := mkRetry 3 100 true.

Fixpoint retry_loop (n : nat) (p : BasicProxy) (s : statics) (func : statics -> outcome (T * statics)) (last_error : ProxyError)
    : outcome (result T ProxyError * statics) :=
  match n with
  | O => Ret (Err last_error, s)
  | S n' =>
      let! (r, s1) := proxy_call p s func in
      match r with
      | Ok x => Ret (Ok x, s1)
      | Err e => retry_loop n' p s1 func e
      end
  end.

Definition call_with_retry (p : BasicProxy) (c : RetryConfig) (s : statics) (func : statics -> outcome (T * statics)) : outcome (result T ProxyError * statics) :=
  retry_loop (S (max_retries c)) p s func (Other "No attempts made").

End Call.

End Proxy.
