(* ===== verification/SharedMemTheorems.v ===== *)
(** * Theorems of shared memory and proxies

    The maps of the manager name exactly the registered regions, the counters are
    exact and a region counts its handles, after any calls; what one handle writes
    the others read; the ring is a bounded queue.  A region removed while it is
    attached is never destroyed, and headers in shared memory are trusted. *)

From stdpp Require Import base list gmap strings.
From Stdlib Require Import ZArith Lia.
From S2P Require Import Prelude OrderedMap SharedMem.

Import Bytes.
Local Open Scope Z_scope.
Open Scope word_scope.

Module ShmSpec.
Import Shm.

(** ** The maps of the manager *)

(** What the maps depend on. *)
Definition shape (r : SharedMemoryRegion) : Z * Z * option string := (key r, size r, name r).
Definition shape_at (s : shm) (id : Z) : option (Z * Z * option string) := shape <$> store s !! id.
Definition size_at (s : shm) (id : Z) : Z := from_option (fun x => x.1.2) 0 (shape_at s id).

Record mgr_ok (s : shm) : Prop := {
  mo_next : 0 < next_id s;
  mo_ids : forall id, id ∈ regions_by_id s -> is_Some (shape_at s id);
  mo_range : forall id, is_Some (shape_at s id) -> 0 < id < next_id s;
  mo_key : forall k id, regions_by_key s !! k = Some id <-> k <> IPC_PRIVATE /\ id ∈ regions_by_id s /\ exists z n, shape_at s id = Some (k, z, n);
  mo_name : forall n id, regions_by_name s !! n = Some id <-> id ∈ regions_by_id s /\ exists k z, shape_at s id = Some (k, z, Some n);
  mo_bytes : total_bytes s = wrap64 (sum (size_at s <$> elements (regions_by_id s)));
  mo_count : total_created s -w total_destroyed s = wrap64 (Z.of_nat (base.size (regions_by_id s))) }.

Lemma fmap_ext_elem {A B} (f g : A -> B) (l : list A) : (forall x, x ∈ l -> f x = g x) -> f <$> l = g <$> l.
Proof. intros H. apply list_fmap_ext. intros i x Hx. apply H. by apply list_elem_of_lookup_2 in Hx. Qed.

(** The store may change in everything but the shapes. *)
Lemma mgr_ok_ext s s' :
  mgr_ok s -> next_id s' = next_id s -> regions_by_id s' = regions_by_id s -> regions_by_key s' = regions_by_key s -> regions_by_name s' = regions_by_name s ->
  total_created s' = total_created s -> total_destroyed s' = total_destroyed s -> total_bytes s' = total_bytes s ->
  (forall id, shape_at s' id = shape_at s id) -> mgr_ok s'.
Proof.
  intros [A1 A2 A3 A4 A5 A6 A7] H1 H2 H3 H4 H5 H6 H7 H8. split; rewrite ?H1, ?H2, ?H3, ?H4, ?H5, ?H6, ?H7; try done.
  - intros id Hid. rewrite H8. by apply A2.
  - intros id. rewrite H8. apply A3.
  - intros k id. rewrite A4. by rewrite H8.
  - intros n id. rewrite A5. by rewrite H8.
  - rewrite A6. do 2 f_equal. apply fmap_ext_elem. intros id _. unfold size_at. by rewrite H8.
Qed.

Lemma shape_at_insert s id r r' i :
  store s !! id = Some r -> shape r' = shape r -> shape <$> (<[id := r']> (store s) !! i) = shape_at s i.
Proof.
  intros H E. unfold shape_at. destruct (decide (i = id)) as [->|Hne]; [|by rewrite lookup_insert_ne by done].
  rewrite lookup_insert_eq, H. cbn. by rewrite E.
Qed.

(** Registering a new region. *)
Lemma shm_register_ok s r id :
  mgr_ok s -> store s !! id = None -> 0 < id < next_id s ->
  (key r <> IPC_PRIVATE -> regions_by_key s !! key r = None) -> (forall n, name r = Some n -> regions_by_name s !! n = None) ->
  mgr_ok (register s id r).
Proof.
  intros [A1 A2 A3 A4 A5 A6 A7] Hno Hid Hk Hn.
  assert (Hfresh : id ∉ regions_by_id s) by (intros Hin; apply A2 in Hin; unfold shape_at in Hin; rewrite Hno in Hin; by destruct Hin).
  assert (Hs : forall i, shape_at (register s id r) i = if decide (i = id) then Some (shape r) else shape_at s i).
  { intros i. unfold shape_at. cbn [store register]. rewrite lookup_insert. destruct (decide (id = i)) as [->|]; [by rewrite decide_True|].
    by rewrite decide_False by congruence. }
  split; cbn [next_id regions_by_id regions_by_key regions_by_name total_created total_destroyed total_bytes register].
  - done.
  - intros i Hi. rewrite Hs. destruct (decide (i = id)); [by eexists|]. apply A2. set_solver.
  - intros i. rewrite Hs. destruct (decide (i = id)) as [->|]; [done | apply A3].
  - intros k i. rewrite Hs. destruct (decide (i = id)) as [->|Hne].
    + destruct (Z.eqb_spec (key r) IPC_PRIVATE) as [Ep|Ep]; cbn [negb].
      * rewrite A4. split; [by intros (_ & Hi & _)|]. intros (Hk0 & _ & z & n & E). unfold shape in E. congruence.
      * rewrite lookup_insert. destruct (decide (key r = k)) as [<-|Hkk].
        -- split; [|done]. intros _. split; [done|]. split; [set_solver|]. by eexists _, _.
        -- rewrite A4. split; [by intros (_ & Hi & _)|]. intros (Hk0 & _ & z & n & E). unfold shape in E. congruence.
    + transitivity (regions_by_key s !! k = Some i); [|rewrite A4; set_solver].
      destruct (Z.eqb_spec (key r) IPC_PRIVATE); cbn [negb]; [done|]. rewrite lookup_insert. destruct (decide (key r = k)) as [<-|]; [|done].
      rewrite Hk by done. split; congruence.
  - intros n i. rewrite Hs. destruct (decide (i = id)) as [->|Hne].
    + destruct (name r) as [m|] eqn:Em.
      * rewrite lookup_insert. destruct (decide (m = n)) as [<-|Hmn].
        -- split; [|done]. intros _. split; [set_solver|]. unfold shape. rewrite Em. by eexists _, _.
        -- rewrite A5. split; [by intros (Hi & _)|]. intros (_ & k & z & E). unfold shape in E. congruence.
      * rewrite A5. split; [by intros (Hi & _)|]. intros (_ & k & z & E). unfold shape in E. congruence.
    + transitivity (regions_by_name s !! n = Some i); [|rewrite A5; set_solver].
      destruct (name r) as [m|] eqn:Em; [|done]. rewrite lookup_insert. destruct (decide (m = n)) as [<-|]; [|done].
      rewrite (Hn m eq_refl). split; congruence.
  - rewrite (sum_perm _ (size_at (register s id r) <$> id :: elements (regions_by_id s))) by (by rewrite elements_union_singleton).
    cbn [fmap list_fmap sum foldr]. unfold size_at at 1. rewrite Hs, decide_True by done. cbn [from_option fst snd shape].
    rewrite (fmap_ext_elem (size_at (register s id r)) (size_at s)).
    { rewrite A6. unfold wrap64. rewrite Zplus_mod_idemp_l. f_equal. unfold sum. lia. }
    intros i Hi%elem_of_elements. unfold size_at. rewrite Hs, decide_False by congruence. done.
  - rewrite size_union by set_solver. rewrite size_singleton. unfold wrap64 in *. rewrite Zminus_mod_idemp_l.
    replace (total_created s + 1 - total_destroyed s) with (total_created s - total_destroyed s + 1) by lia.
    rewrite <- Zplus_mod_idemp_l, A7, Zplus_mod_idemp_l. f_equal. lia.
Qed.

(** Removing one. *)
Lemma do_remove_ok s id r :
  mgr_ok s -> id ∈ regions_by_id s -> shape_at s id = Some (shape r) -> mgr_ok (do_remove s id r).
Proof.
  intros [A1 A2 A3 A4 A5 A6 A7] Hin Hr.
  assert (Hs : forall i, shape_at (do_remove s id r) i = shape_at s i) by done.
  split; cbn [next_id regions_by_id regions_by_key regions_by_name total_created total_destroyed total_bytes do_remove].
  - done.
  - intros i Hi. rewrite Hs. apply A2. set_solver.
  - intros i. rewrite Hs. apply A3.
  - intros k i. rewrite Hs. destruct (Z.eqb_spec (key r) IPC_PRIVATE) as [Ep|Ep]; cbn [negb].
    + rewrite A4. split; [|set_solver]. intros (Hk & Hi & z & n & E). split; [done|]. split; [|by eexists _, _].
      assert (i <> id) by (intros ->; rewrite Hr in E; unfold shape in E; congruence). set_solver.
    + rewrite lookup_delete_Some, A4. split.
      * intros (Hne & Hk & Hi & z & n & E). split; [done|]. split; [|by eexists _, _].
        assert (i <> id) by (intros ->; rewrite Hr in E; unfold shape in E; congruence). set_solver.
      * intros (Hk & Hi & z & n & E). split; [|split; [done|]; split; [set_solver | by eexists _, _]]. intros Hkk. subst k.
        assert (E1 : regions_by_key s !! key r = Some i) by (apply A4; split; [done|]; split; [set_solver | by eexists _, _]).
        assert (E2 : regions_by_key s !! key r = Some id) by (apply A4; split; [done|]; split; [done | by eexists _, _]). set_solver.
  - intros n i. rewrite Hs. destruct (name r) as [m|] eqn:Em.
    + rewrite lookup_delete_Some, A5. split.
      * intros (Hne & Hi & k & z & E). split; [|by eexists _, _].
        assert (i <> id) by (intros ->; rewrite Hr in E; unfold shape in E; congruence). set_solver.
      * intros (Hi & k & z & E). split; [|split; [set_solver | by eexists _, _]]. intros Hmn. subst n.
        assert (E1 : regions_by_name s !! m = Some i) by (apply A5; split; [set_solver | by eexists _, _]).
        assert (E2 : regions_by_name s !! m = Some id) by (apply A5; split; [done|]; unfold shape in Hr; rewrite Em in Hr; by eexists _, _). set_solver.
    + rewrite A5. split; [|set_solver]. intros (Hi & k & z & E). split; [|by eexists _, _].
      assert (i <> id) by (intros ->; rewrite Hr in E; unfold shape in E; congruence). set_solver.
  - assert (Hp : elements (regions_by_id s) ≡ₚ id :: elements (regions_by_id s ∖ {[id]})).
    { rewrite <- elements_union_singleton by set_solver. apply elements_proper. intros x. rewrite elem_of_union, elem_of_difference, elem_of_singleton.
      destruct (decide (x = id)) as [->|]; set_solver. }
    assert (Hsum : sum (size_at s <$> elements (regions_by_id s)) = sum (size_at s <$> id :: elements (regions_by_id s ∖ {[id]}))) by (apply sum_perm; by rewrite Hp).
    rewrite A6, Hsum. cbn [fmap list_fmap]. unfold size_at at 1. rewrite Hr. cbn [from_option fst snd shape sum foldr].
    unfold wrap64. rewrite Zminus_mod_idemp_l. f_equal. change (size_at (do_remove s id r)) with (size_at s). unfold sum. cbn [foldr]. lia.
  - assert (Hsz : (base.size (regions_by_id s) = S (base.size (regions_by_id s ∖ {[id]})))%nat).
    { rewrite size_difference by set_solver. rewrite size_singleton. assert (base.size (regions_by_id s) <> O); [|lia].
      apply size_non_empty_iff. set_solver. }
    rewrite Hsz in A7. unfold wrap64 in *. rewrite Zminus_mod_idemp_r.
    replace (total_created s - (total_destroyed s + 1)) with (total_created s - total_destroyed s - 1) by lia.
    rewrite <- Zminus_mod_idemp_l, A7, Zminus_mod_idemp_l. f_equal. lia.
Qed.

(** ** Handles *)

Definition attached_to (id : Z) (h : ShmHandle) : Prop := region h = id /\ attached h = true.
#[global] Instance attached_to_dec id h : Decision (attached_to id h).
Proof. unfold attached_to. apply _. Defined.

Definition count (l : list ShmHandle) (id : Z) : Z := Z.of_nat (length (filter (attached_to id) l)).

Lemma count_app l x id : count (l ++ [x]) id = count l id + (if decide (attached_to id x) then 1 else 0).
Proof.
  unfold count. rewrite filter_app, length_app, filter_cons. destruct (decide (attached_to id x)); cbn; lia.
Qed.

Lemma count_insert l h x y id : l !! h = Some x ->
  count (<[h := y]> l) id = count l id - (if decide (attached_to id x) then 1 else 0) + (if decide (attached_to id y) then 1 else 0).
Proof.
  intros Hh. pose proof (lookup_lt_Some _ _ _ Hh) as Hlt. unfold count. rewrite (insert_take_drop l h y Hlt). rewrite <- (take_drop_middle l h x Hh) at 3.
  rewrite !filter_app, !filter_cons, !length_app. destruct (decide (attached_to id x)), (decide (attached_to id y)); cbn; lia.
Qed.

Record use_ok (s : shm) : Prop := {
  uo_memory : forall id r, store s !! id = Some r -> len (memory r) = size r;
  uo_attach : forall id r, store s !! id = Some r -> attach_count r = wrap64 (count (handles s) id);
  uo_handles : forall h x, handles s !! h = Some x -> is_Some (store s !! region x) }.

Definition shm_ok (s : shm) : Prop := mgr_ok s /\ use_ok s.

(** A region changes, not in shape and not in the size of its memory. *)
Lemma region_changed s id r r' hs :
  shm_ok s -> store s !! id = Some r -> shape r' = shape r -> len (memory r') = size r' ->
  attach_count r' = wrap64 (count hs id) -> (forall i, i <> id -> count hs i = count (handles s) i) ->
  (forall h x, hs !! h = Some x -> region x = id \/ exists h', handles s !! h' = Some x) ->
  shm_ok (set_handles (set_store s (<[id := r']> (store s))) hs).
Proof.
  intros [Hm [U1 U2 U3]] Hr Hsh Hmem Hat Hc Hh. split.
  - apply (mgr_ok_ext s); try done. intros i. cbn. by apply (shape_at_insert s id r).
  - split; cbn [store handles set_store set_handles].
    + intros i r0. rewrite lookup_insert. destruct (decide (id = i)); [intros E; by injection E as <- | apply U1].
    + intros i r0. rewrite lookup_insert. destruct (decide (id = i)) as [->|Hne]; [intros E; by injection E as <-|].
      intros E. rewrite Hc by congruence. by apply U2.
    + intros h x Hx. rewrite lookup_insert. destruct (decide (id = region x)) as [|Hne]; [by eexists|].
      destruct (Hh h x Hx) as [E|[h' E]]; [congruence | by apply (U3 h')].
Qed.

Lemma set_handles_same s m : set_handles (set_store s m) (handles s) = set_store s m.
Proof. by destruct s. Qed.

Lemma region_updated s id r r' :
  shm_ok s -> store s !! id = Some r -> shape r' = shape r -> len (memory r') = size r' -> attach_count r' = attach_count r ->
  shm_ok (set_store s (<[id := r']> (store s))).
Proof.
  intros H Hr Hsh Hmem Hat. rewrite <- set_handles_same. apply (region_changed s id r); try done.
  - rewrite Hat. destruct H as [_ [_ U2 _]]. by apply U2.
  - intros h x Hx. right. by exists h.
Qed.

(** ** The calls *)

Lemma attach_ok s id : shm_ok s -> shm_ok (attach s id).2.
Proof.
  intros H. unfold attach. destruct (decide (id ∈ regions_by_id s)); [|done]. destruct (store s !! id) as [r|] eqn:Hr; [|done]. cbn [snd].
  pose proof H as [_ [U1 U2 U3]]. apply (region_changed s id r); try done.
  - exact (U1 id r Hr).
  - cbn. rewrite count_app, decide_True by done. rewrite (U2 id r Hr). unfold wrap64. by rewrite Zplus_mod_idemp_l.
  - intros i Hi. rewrite count_app, decide_False; [lia|]. intros [? _]. cbn in *. congruence.
  - intros h x Hx. apply lookup_app_Some in Hx as [Hx|[_ Hx]]; [right; by exists h|]. left.
    destruct (h - length (handles s))%nat as [|k]; cbn in Hx; [by injection Hx as <- | done].
Qed.

Lemma detach_ok s h : shm_ok s -> shm_ok (detach s h).2.
Proof.
  intros H. unfold detach. destruct (handles s !! h) as [x|] eqn:Hx; [|done]. destruct (attached x) eqn:Ha; [|done]. cbn [snd].
  pose proof H as [_ [U1 U2 U3]]. destruct (U3 h x Hx) as [r Hr]. cbn [store set_handles]. rewrite Hr.
  change (set_store (set_handles s ?hs) ?m) with (set_handles (set_store s m) hs).
  apply (region_changed s (region x) r); try done.
  - exact (U1 (region x) r Hr).
  - cbn. rewrite (count_insert _ _ x) by done. rewrite decide_True, decide_False; [| by intros [_ ?] | done]. rewrite (U2 _ r Hr).
    unfold wrap64. rewrite Zminus_mod_idemp_l. f_equal. lia.
  - intros i Hi. rewrite (count_insert _ _ x) by done. rewrite !decide_False; [lia | by intros [? _] | intros [? _]; congruence].
  - intros k y Hy. destruct (decide (k = h)) as [->|Hne].
    + rewrite list_lookup_insert_eq in Hy by (by apply lookup_lt_Some in Hx). injection Hy as <-. by left.
    + rewrite list_lookup_insert_ne in Hy by done. right. by exists k.
Qed.

Lemma drop_ok s h : shm_ok s -> shm_ok (drop_handle s h).
Proof. intros H. unfold drop_handle. destruct (handles s !! h) as [x|]; [|done]. destruct (attached x); [by apply detach_ok | done]. Qed.

Lemma shm_remove_ok s id : shm_ok s -> shm_ok (remove s id).2.
Proof.
  intros H. unfold remove. destruct (decide (id ∈ regions_by_id s)) as [Hin|]; [|done]. destruct (store s !! id) as [r|] eqn:Hr; [|done].
  pose proof H as [_ [U1 U2 U3]].
  assert (H1 : shm_ok (set_store s (<[id := mark_for_removal r]> (store s)))) by (apply (region_updated s id r); try done; exact (U1 id r Hr)).
  cbn zeta. case_if; [done|]. destruct H1 as [Hm [V1 V2 V3]]. split; [|by split].
  apply do_remove_ok; [done | done |]. unfold shape_at. cbn. by rewrite lookup_insert_eq.
Qed.

Lemma make_ok reserve s k sz p f n :
  shm_ok s -> next_id s + 1 < u64_modulus -> (k <> IPC_PRIVATE -> regions_by_key s !! k = None) -> (forall m, n = Some m -> regions_by_name s !! m = None) ->
  shm_ok (make reserve s k sz p f n).2.
Proof.
  intros [Hm [U1 U2 U3]] Hnext Hk Hn. pose proof Hm as [A1 A2 A3 A4 A5 A6 A7]. unfold make. cbn [generate_id].
  set (s1 := mkShm (next_id s +w 1) _ _ _ _ _ _ _ _).
  assert (En : next_id s1 = next_id s + 1) by (cbn; apply wrap64_small; unfold is_u64; lia).
  assert (Hm1 : mgr_ok s1).
  { split; try done; [lia|]. intros id Hid. rewrite En. change (shape_at s1 id) with (shape_at s id) in Hid. apply A3 in Hid. lia. }
  assert (Hno : store s !! next_id s = None).
  { destruct (store s !! next_id s) as [r|] eqn:E; [|done]. assert (Hs : is_Some (shape_at s (next_id s))) by (unfold shape_at; rewrite E; by eexists).
    apply A3 in Hs. lia. }
  unfold region_new. destruct (reserve (page_aligned sz)); cbn [snd]; [|by split].
  set (r := mkRegion k _ _ p f 0 0 0 false n). split; [apply shm_register_ok; try done; lia|].
  assert (Hcount : count (handles s) (next_id s) = 0).
  { unfold count. destruct (filter _ _) as [|x l] eqn:E; [done|]. exfalso. assert (Hx : x ∈ filter (attached_to (next_id s)) (handles s)) by (rewrite E; apply list_elem_of_here).
    apply list_elem_of_filter in Hx as [[Hx _] Hin]. apply list_elem_of_lookup in Hin as [h Hh]. destruct (U3 h x Hh) as [r0 Hr0]. congruence. }
  split; cbn [store handles register s1].
  - intros id r0. rewrite lookup_insert. destruct (decide (next_id s = id)); [|apply U1]. intros E. injection E as <-. cbn. unfold len. rewrite length_replicate.
    rewrite Z2Nat.id; [done|]. apply Z.mod_pos_bound. done.
  - intros id r0. rewrite lookup_insert. destruct (decide (next_id s = id)) as [<-|]; [|apply U2]. intros E. injection E as <-. by rewrite Hcount.
  - intros h x Hx. rewrite lookup_insert. destruct (decide (next_id s = region x)); [by eexists | by apply (U3 h)].
Qed.

Lemma create_ok reserve s k sz p f : shm_ok s -> next_id s + 1 < u64_modulus -> shm_ok (shm_create reserve s k sz p f).2.
Proof.
  intros H Hn. unfold shm_create, check_key. destruct (Z.eqb_spec k IPC_PRIVATE) as [->|Hk]; cbn [negb]; [by apply make_ok|].
  destruct (regions_by_key s !! k) eqn:E; [done|]. by apply make_ok.
Qed.

Lemma create_named_ok reserve s n sz p f : shm_ok s -> next_id s + 1 < u64_modulus -> shm_ok (create_named reserve s n sz p f).2.
Proof.
  intros H Hn. unfold create_named, check_name. destruct (regions_by_name s !! n) eqn:E; [done|]. apply make_ok; try done. intros m Em. by injection Em as <-.
Qed.

(** ** Writing and reading *)

Lemma poke_spec m off bs m' : len bs < u64_modulus -> poke m off bs = Ret m' ->
  0 <= off /\ off + len bs <= len m /\ m' = take (Z.to_nat off) m ++ bs ++ drop (Z.to_nat off + length bs) m /\ len m' = len m.
Proof.
  intros Hb E. unfold poke, slice in E.
  destruct ((0 <=? off) && (off <=? off +w len bs) && (off +w len bs <=? len m)) eqn:Hc; [|done]. cbn in E. injection E as <-.
  apply andb_prop in Hc as [[H1 H2]%andb_prop H3]. apply Z.leb_le in H1, H2, H3.
  assert (Hn : 0 <= len bs) by (unfold len; lia). pose proof (Z.mod_pos_bound (off + len bs) u64_modulus ltac:(done)) as Hp. unfold wrap64 in *.
  pose proof (Z.div_mod (off + len bs) u64_modulus ltac:(done)) as Hdm. assert ((off + len bs) / u64_modulus = 0) by nia.
  assert (off + len bs <= len m) by nia. split; [done|]. split; [done|]. split; [done|]. unfold len in *. rewrite !length_app, length_take, length_drop. lia.
Qed.

Lemma poke_in m off bs : 0 <= off -> off + len bs <= len m -> len m < u64_modulus ->
  poke m off bs = Ret (take (Z.to_nat off) m ++ bs ++ drop (Z.to_nat off + length bs) m).
Proof.
  intros H1 H2 H3. unfold poke, slice. assert (Hn : 0 <= len bs) by (unfold len; lia). rewrite wrap64_small by (unfold is_u64; lia).
  by rewrite !(proj2 (Z.leb_le _ _)) by lia.
Qed.

Lemma update_memory_ok s h x r m : shm_ok s -> handles s !! h = Some x -> store s !! region x = Some r -> len m = size r -> shm_ok (update_memory s h m).
Proof.
  intros H Hh Hr Hm. unfold update_memory. rewrite Hh, Hr. by apply (region_updated s (region x) r).
Qed.

Lemma h_memory_Some s h m : h_memory s h = Some m -> exists x r, handles s !! h = Some x /\ attached x = true /\ store s !! region x = Some r /\ memory r = m.
Proof.
  unfold h_memory. destruct (handles s !! h) as [x|]; [|done]. destruct (attached x) eqn:Ea; [|done]. destruct (store s !! region x) as [r|] eqn:Er; [|done].
  cbn. intros E. injection E as <-. by exists x, r.
Qed.

Lemma write_at_ok s h off d r s' : shm_ok s -> len d < u64_modulus -> write_at s h off d = Ret (r, s') -> shm_ok s'.
Proof.
  intros H Hd. unfold write_at. destruct (h_memory s h) as [m|] eqn:Em; [|intros E; by injection E as _ <-].
  case_if; [intros Eq; by injection Eq as _ <-|]. destruct (poke m off d) as [m'|] eqn:Ep; [|done]. cbn. intros Eq. injection Eq as _ <-.
  destruct (h_memory_Some s h m Em) as (x & r0 & Hx & _ & Hr & Hm). destruct (poke_spec m off d m' Hd Ep) as (_ & _ & _ & Hl).
  apply (update_memory_ok s h x r0); try done. destruct H as [_ [U1 _ _]]. rewrite Hl, <- Hm. exact (U1 (region x) r0 Hr).
Qed.

Lemma poke_lookup m off bs m' i : len bs < u64_modulus -> poke m off bs = Ret m' ->
  m' !! i = if decide (off <= Z.of_nat i < off + len bs) then bs !! Z.to_nat (Z.of_nat i - off) else m !! i.
Proof.
  intros Hb E. destruct (poke_spec m off bs m' Hb E) as (H1 & H2 & -> & _). unfold len in *.
  assert (Ht : length (take (Z.to_nat off) m) = Z.to_nat off) by (rewrite length_take; lia). destruct (decide _) as [Hd|Hd].
  - rewrite lookup_app_r by lia. rewrite lookup_app_l by lia. f_equal. lia.
  - destruct (Z.lt_ge_cases (Z.of_nat i) off) as [Hlt|Hge].
    + rewrite lookup_app_l by lia. rewrite lookup_take_lt by lia. done.
    + rewrite lookup_app_r by lia. rewrite lookup_app_r by lia. rewrite lookup_drop. f_equal. lia.
Qed.

(** A read sees only the bytes it reads. *)
Lemma read_ext m m' off n : len m = len m' -> (forall i, off <= Z.of_nat i < off + Z.of_nat n -> m !! i = m' !! i) -> read m off n = read m' off n.
Proof.
  intros Hl H. unfold read. rewrite Hl. destruct ((0 <=? off) && (off + Z.of_nat n <=? len m')) eqn:Hc; [|done]. f_equal.
  apply andb_prop in Hc as [H1 H2]. apply Z.leb_le in H1, H2. apply list_eq. intros i. destruct (decide (i < n)%nat) as [Hi|Hi].
  - rewrite !lookup_take_lt, !lookup_drop by done. apply H. lia.
  - by rewrite !lookup_take_ge by lia.
Qed.

Lemma read_poke_same m off bs m' : len bs < u64_modulus -> poke m off bs = Ret m' -> read m' off (length bs) = Ret bs.
Proof.
  intros Hb E. destruct (poke_spec m off bs m' Hb E) as (H1 & H2 & -> & Hl). unfold read. rewrite Hl. unfold len in *.
  rewrite !(proj2 (Z.leb_le _ _)) by lia. cbn [andb]. f_equal. rewrite drop_app_length' by (rewrite length_take; lia). by rewrite take_app_length.
Qed.

Lemma read_poke_other m off bs m' a n : len bs < u64_modulus -> poke m off bs = Ret m' ->
  a + Z.of_nat n <= off \/ off + len bs <= a -> read m' a n = read m a n.
Proof.
  intros Hb E Hd. apply read_ext; [by destruct (poke_spec m off bs m' Hb E) as (_ & _ & _ & ?)|].
  intros i Hi. rewrite (poke_lookup m off bs m') by done. by rewrite decide_False by lia.
Qed.

(** ** Words of the header *)

Lemma len_word v : len (to_le 8 v) = 8.
Proof. unfold len. by rewrite length_to_le. Qed.

Lemma put_word_in m off v : 0 <= off -> off + 8 <= len m -> len m < u64_modulus -> exists m', put_word m off v = Ret m' /\ len m' = len m.
Proof.
  intros H1 H2 H3. unfold put_word. rewrite poke_in by (rewrite ?len_word; lia). eexists. split; [done|].
  unfold len in *. rewrite !length_app, length_take, length_drop, length_to_le. lia.
Qed.

Lemma get_put_same m off v m' : is_u64 v -> put_word m off v = Ret m' -> get_word m' off = Ret v.
Proof.
  intros Hv E. unfold get_word. pose proof (read_poke_same m off (to_le 8 v) m') as H. rewrite length_to_le in H. rewrite H; [|by rewrite len_word | done].
  cbn [obind]. rewrite from_to_le by apply Hv. f_equal. change (256 ^ Z.of_nat 8) with u64_modulus. by apply Z.mod_small.
Qed.

Lemma get_put_other m off v m' a : put_word m off v = Ret m' -> a + 8 <= off \/ off + 8 <= a -> get_word m' a = get_word m a.
Proof.
  intros E Hd. unfold get_word. rewrite (read_poke_other m off (to_le 8 v) m'); [done | by rewrite len_word | done | by rewrite len_word].
Qed.

(** ** The ring is a bounded queue *)

Section RingSpec.
Context (es : nat).

Definition slot (cap : Z) (pos : Z) : Z := header_size + (pos mod cap) * Z.of_nat es.

Record ring_holds (m : list Z) (cap : Z) (q : list (list Z)) : Prop := {
  rh_cap : 0 < cap;
  rh_room : header_size + cap * Z.of_nat es <= len m;
  rh_len : len m < 2 ^ 63;
  rh_count : Z.of_nat (length q) < cap;
  rh_pos : exists rp, 0 <= rp < cap /\ get_word m 8 = Ret rp /\ get_word m 0 = Ret ((rp + Z.of_nat (length q)) mod cap) /\
    forall i v, q !! i = Some v -> length v = es /\ read m (slot cap (rp + Z.of_nat i)) es = Ret v }.

(** Slots of different positions are apart. *)
Lemma slot_apart cap a b : 0 < cap -> a mod cap <> b mod cap -> slot cap a + Z.of_nat es <= slot cap b \/ slot cap b + Z.of_nat es <= slot cap a.
Proof. intros Hc Hne. unfold slot. destruct (Z.lt_total (a mod cap) (b mod cap)) as [H|[H|H]]; [left; nia | lia | right; nia]. Qed.

Lemma slot_in m cap q a : ring_holds m cap q -> header_size <= slot cap a /\ slot cap a + Z.of_nat es <= len m.
Proof. intros [H1 H2 _ _ _]. unfold slot. pose proof (Z.mod_pos_bound a cap H1). nia. Qed.

Lemma pos_apart rp cap i j : 0 <= i < cap -> 0 <= j < cap -> i <> j -> (rp + i) mod cap <> (rp + j) mod cap.
Proof.
  intros Hi Hj Hne E. apply Hne. assert (Hd : (cap | (rp + i) - (rp + j))) by (apply Z.mod_divide; [lia|]; rewrite Zminus_mod, E, Z.sub_diag; apply Z.mod_0_l; lia).
  destruct Hd as [k Hk]. assert (k = 0) by nia. lia.
Qed.

(** The offsets of the source are those of the slots. *)
Lemma offset_slot m cap q p : ring_holds m cap q -> 0 <= p < cap -> header_size +w (p *w Z.of_nat es) = slot cap p.
Proof.
  intros [H1 H2 H3 _ _] Hp. unfold slot. rewrite (Z.mod_small p cap) by lia. change u64_modulus with (2 ^ 64).
  assert (Hm : 0 <= p * Z.of_nat es <= cap * Z.of_nat es) by nia. unfold header_size in *.
  rewrite (wrap64_small (p * _)) by (unfold is_u64; change u64_modulus with (2 ^ 64); lia). apply wrap64_small. unfold is_u64. change u64_modulus with (2 ^ 64). lia.
Qed.

Lemma next_pos_spec cap p : 0 < cap -> 0 <= p < cap -> cap < 2 ^ 63 -> next_pos p cap = Ret ((p + 1) mod cap).
Proof.
  intros Hc Hp Hb. unfold next_pos. rewrite (proj2 (Z.eqb_neq cap 0)) by lia. by rewrite wrap64_small by (unfold is_u64; change u64_modulus with (2 ^ 64); lia).
Qed.

Lemma shm_push_spec m cap q v : ring_holds m cap q -> length v = es -> (0 < es)%nat ->
  if decide (Z.of_nat (length q) = cap - 1) then mem_push es m cap v = Ret (Err OutOfMemory)
  else exists m', mem_push es m cap v = Ret (Ok m') /\ ring_holds m' cap (q ++ [v]).
Proof.
  intros Hr Hv Hes. pose proof Hr as [H1 H2 H3 H4 (rp & Hrp & Er & Ew & Hq)]. set (n := Z.of_nat (length q)) in *.
  assert (Hwp : 0 <= (rp + n) mod cap < cap) by (by apply Z.mod_pos_bound).
  assert (Hcap : cap < 2 ^ 63) by (unfold header_size in H2; nia).
  unfold mem_push. rewrite Ew, Er. cbn [obind]. rewrite (next_pos_spec cap) by lia. cbn [obind]. rewrite (Zplus_mod_idemp_l (rp + n) 1).
  assert (Hfull : (rp + n + 1) mod cap = rp <-> n = cap - 1).
  { split.
    - intros E. destruct (Z.eq_dec n (cap - 1)) as [|Hn]; [done|]. exfalso. apply (pos_apart rp cap (n + 1) 0); [lia | lia | lia |].
      rewrite Z.add_0_r, (Z.mod_small rp) by lia. rewrite <- E at 2. f_equal. lia.
    - intros ->. replace (rp + (cap - 1) + 1) with (rp + 1 * cap) by lia. rewrite Z.mod_add by lia. apply Z.mod_small. lia. }
  destruct (decide (n = cap - 1)) as [Hn|Hn]; [rewrite (proj2 Hfull Hn), Z.eqb_refl; done|].
  rewrite (proj2 (Z.eqb_neq _ _)) by (intros E; by apply Hn, Hfull). rewrite (offset_slot m cap q) by done.
  pose proof (slot_in m cap q ((rp + n) mod cap) Hr) as Hs. unfold header_size in Hs. assert (Hlv : len v = Z.of_nat es) by (unfold len; by rewrite Hv).
  assert (Hlu : len v < u64_modulus) by (change u64_modulus with (2 ^ 64); unfold len in *; lia).
  destruct (poke m (slot cap ((rp + n) mod cap)) v) as [m1|] eqn:E1; [|rewrite poke_in in E1 by (change u64_modulus with (2 ^ 64); lia); done]. cbn [obind].
  destruct (poke_spec _ _ _ _ Hlu E1) as (_ & _ & _ & Hl1).
  destruct (put_word_in m1 0 ((rp + n + 1) mod cap)) as (m2 & E2 & Hl2); [lia | lia | change u64_modulus with (2 ^ 64); lia|].
  rewrite E2. cbn [obind]. exists m2. split; [done|]. assert (Hslot : slot cap ((rp + n) mod cap) = slot cap (rp + n)) by (unfold slot; by rewrite Z.mod_mod by lia).
  rewrite Hslot in *. split; [done | lia | lia | rewrite length_app; cbn; lia |]. exists rp. split; [done|].
  pose proof (Z.mod_pos_bound (rp + n + 1) cap H1). rewrite (get_put_other m1 0 _ m2 8 E2) by lia. rewrite (get_put_same m1 0 ((rp + n + 1) mod cap) m2); [|unfold is_u64; change u64_modulus with (2 ^ 64); lia | done].
  assert (Hg8 : get_word m1 8 = get_word m 8) by (unfold get_word; rewrite (read_poke_other m (slot cap (rp + n)) v m1) by (try done; lia); done).
  split; [by rewrite Hg8|]. split; [rewrite length_app; cbn; f_equal; f_equal; lia|].
  assert (Hread : forall a, 32 <= a -> read m2 a es = read m1 a es) by (intros a Ha; apply (read_poke_other m1 0 (to_le 8 ((rp + n + 1) mod cap))); [by rewrite len_word | done | rewrite len_word; lia]).
  intros i x Hi. pose proof (slot_in m cap q (rp + Z.of_nat i) Hr) as Hsi. unfold header_size in Hsi. rewrite Hread by lia.
  apply lookup_app_Some in Hi as [Hi|[Hi1 Hi2]].
  - pose proof (lookup_lt_Some _ _ _ Hi). destruct (Hq i x Hi) as [Hx1 Hx2]. split; [done|]. rewrite (read_poke_other m (slot cap (rp + n)) v m1); [done | done | done |].
    rewrite Hlv. apply slot_apart; [done|]. apply pos_apart; lia.
  - destruct (i - length q)%nat as [|k] eqn:Ek; cbn in Hi2; [|done]. injection Hi2 as <-. split; [done|]. assert (Ei : Z.of_nat i = n) by lia. rewrite Ei.
    pose proof (read_poke_same m _ v m1 Hlu E1) as R. by rewrite Hv in R.
Qed.

Lemma shm_pop_spec m cap q : ring_holds m cap q -> (0 < es)%nat ->
  match q with
  | [] => mem_pop es m cap = Ret (Err NotFound)
  | v :: q' => exists m', mem_pop es m cap = Ret (Ok (v, m')) /\ ring_holds m' cap q'
  end.
Proof.
  intros Hr Hes. pose proof Hr as [H1 H2 H3 H4 (rp & Hrp & Er & Ew & Hq)]. assert (Hcap : cap < 2 ^ 63) by (unfold header_size in H2; nia).
  unfold mem_pop. rewrite Ew, Er. cbn [obind]. destruct q as [|v q']; cbn [length] in *.
  { rewrite Z.add_0_r, Z.mod_small by lia. by rewrite Z.eqb_refl. }
  rewrite (proj2 (Z.eqb_neq _ _)).
  2:{ rewrite <- (Z.mod_small rp cap) at 1 by lia. replace rp with (rp + 0) at 1 by lia. apply pos_apart; lia. }
  rewrite (offset_slot m cap (v :: q')) by done. destruct (Hq O v eq_refl) as [Hv Hrd]. rewrite Z.add_0_r in Hrd. rewrite Hrd. cbn [obind].
  rewrite next_pos_spec by lia. cbn [obind]. destruct (put_word_in m 8 ((rp + 1) mod cap)) as (m' & E & Hl); [lia | unfold header_size in H2; nia | change u64_modulus with (2 ^ 64); lia|].
  rewrite E. cbn [obind]. exists m'. split; [done|]. split; [done | lia | lia | lia |]. pose proof (Z.mod_pos_bound (rp + 1) cap H1).
  exists ((rp + 1) mod cap). split; [done|]. rewrite (get_put_same m 8 ((rp + 1) mod cap) m'); [|unfold is_u64; change u64_modulus with (2 ^ 64); lia | done].
  split; [done|]. rewrite (get_put_other m 8 _ m' 0 E) by lia. rewrite Ew. split; [rewrite Zplus_mod_idemp_l; do 2 f_equal; lia|].
  intros i x Hi. destruct (Hq (S i) x Hi) as [Hx1 Hx2]. split; [done|]. pose proof (slot_in m cap (v :: q') (rp + Z.of_nat (S i)) Hr) as Hs. unfold header_size in Hs.
  replace (slot cap ((rp + 1) mod cap + Z.of_nat i)) with (slot cap (rp + Z.of_nat (S i))) by (unfold slot; rewrite Zplus_mod_idemp_l; do 3 f_equal; lia).
  rewrite (read_poke_other m 8 (to_le 8 ((rp + 1) mod cap)) m'); [done | by rewrite len_word | done | rewrite len_word; lia].
Qed.

End RingSpec.

(** ** Handles of one region *)

(** Two handles of one region, whose memory is [m]. *)
Definition linked (s : shm) (h1 h2 : nat) (m : list Z) : Prop :=
  exists id r, handles s !! h1 = Some (mkHandle id true) /\ handles s !! h2 = Some (mkHandle id true) /\ store s !! id = Some r /\ memory r = m.

Lemma linked_sym s h1 h2 m : linked s h1 h2 m -> linked s h2 h1 m.
Proof. intros (id & r & ? & ? & ? & ?). by exists id, r. Qed.

Lemma linked_memory s h1 h2 m : linked s h1 h2 m -> h_memory s h1 = Some m.
Proof. intros (id & r & H1 & _ & Hr & <-). unfold h_memory. rewrite H1. cbn. by rewrite Hr. Qed.

Lemma linked_update s h1 h2 m m' : linked s h1 h2 m -> linked (update_memory s h1 m') h1 h2 m'.
Proof.
  intros (id & r & H1 & H2 & Hr & Hm). unfold update_memory. rewrite H1. cbn [region]. rewrite Hr. exists id, (set_memory r m'). cbn. by rewrite lookup_insert_eq.
Qed.

(** what is written through one handle is what another handle of the same
    region reads at that place. *)
Theorem shared_write_visible s h1 h2 m off d s' :
  linked s h1 h2 m -> 0 < len d < u64_modulus -> len m < u64_modulus -> write_at s h1 off d = Ret (Ok tt, s') ->
  read_at s' h2 off (len d) = Ok d /\ linked s' h1 h2 (take (Z.to_nat off) m ++ d ++ drop (Z.to_nat off + length d) m).
Proof.
  intros Hl Hd Hlm. unfold write_at. rewrite (linked_memory s h1 h2 m Hl). case_if; [done|]. destruct (poke m off d) as [m'|] eqn:Ep; [|done].
  cbn [obind]. intros Eq. injection Eq as <-. pose proof (linked_update s h1 h2 m m' Hl) as Hu.
  destruct (poke_spec m off d m' (proj2 Hd) Ep) as (H1 & H2 & Hm' & Hlen). rewrite <- Hm'. split; [|done].
  unfold read_at. rewrite (linked_memory _ h2 h1 m' (linked_sym _ _ _ _ Hu)). rewrite Hlen, Z.geb_leb, (proj2 (Z.leb_gt _ _)) by lia.
  f_equal. rewrite Z.min_l by lia. pose proof (read_poke_same m off d m' (proj2 Hd) Ep) as R. unfold read in R.
  destruct (_ && _); [|done]. injection R as R. unfold len. by rewrite Nat2Z.id.
Qed.

Definition demo_region : SharedMemoryRegion := mkRegion 7 4 [1; 2; 3; 4] default_permissions default_flags 2 2 0 false None.
Definition demo_shm : shm := mkShm 2 {[1 := demo_region]} {[1]} {[7 := 1]} ∅ 1 0 4 [mkHandle 1 true; mkHandle 1 true].

Lemma shared_write_visible_witness : exists s', write_at demo_shm 0%nat 1 [8; 9] = Ret (Ok tt, s') /\ read_at s' 1%nat 1 2 = Ok [8; 9].
Proof.
  eexists. split; [vm_compute; reflexivity|].
  apply (shared_write_visible demo_shm 0%nat 1%nat [1; 2; 3; 4] 1 [8; 9]); [exists 1, demo_region; vm_compute; auto | vm_compute; auto | vm_compute; auto | vm_compute; reflexivity].
Defined.

(** ** The invariant, for all calls *)

Inductive shm_op :=
| OCreate (k sz : Z) (p : ShmPermissions) (f : ShmFlags) | ONamed (n : string) (sz : Z) (p : ShmPermissions) (f : ShmFlags)
| OAttach (id : Z) | ORemove (id : Z) | OUnlink (n : string) | OWrite (h : nat) (off : Z) (d : list Z) | ODetach (h : nat) | ODrop (h : nat).

Definition shm_step (reserve : Z -> bool) (s : shm) (o : shm_op) : outcome shm :=
  match o with
  | OCreate k sz p f => Ret (shm_create reserve s k sz p f).2
  | ONamed n sz p f => Ret (create_named reserve s n sz p f).2
  | OAttach id => Ret (attach s id).2
  | ORemove id => Ret (remove s id).2
  | OUnlink n => Ret (shm_unlink s n).2
  | OWrite h off d => let! (_, s') := write_at s h off d in Ret s'
  | ODetach h => Ret (detach s h).2
  | ODrop h => Ret (drop_handle s h)
  end.

Fixpoint shm_run (reserve : Z -> bool) (s : shm) (l : list shm_op) : outcome shm :=
  match l with
  | [] => Ret s
  | o :: l' => let! s' := shm_step reserve s o in shm_run reserve s' l'
  end.

Definition op_fits (o : shm_op) : Prop := match o with OWrite _ _ d => len d < u64_modulus | _ => True end.

Lemma make_next reserve s k sz p f n : next_id s + 1 < u64_modulus -> 0 < next_id s -> next_id (make reserve s k sz p f n).2 = next_id s + 1.
Proof. intros H Hp. unfold make. cbn. destruct (region_new _ _ _ _ _ _); cbn; apply wrap64_small; unfold is_u64; lia. Qed.

Lemma update_memory_next s h m : next_id (update_memory s h m) = next_id s.
Proof. unfold update_memory. destruct (handles s !! h) as [x|]; [|done]. by destruct (store s !! region x). Qed.

Lemma remove_next s id : next_id (remove s id).2 = next_id s.
Proof. unfold remove. destruct (decide _); [|done]. destruct (store s !! id); [|done]. cbn zeta. by case_if. Qed.

Lemma detach_next s h : next_id (detach s h).2 = next_id s.
Proof. unfold detach. destruct (handles s !! h) as [x|]; [|done]. destruct (attached x); [|done]. cbn. by destruct (store s !! region x). Qed.

Lemma shm_step_next reserve s o s' : 0 < next_id s -> next_id s + 1 < u64_modulus -> shm_step reserve s o = Ret s' -> next_id s' <= next_id s + 1.
Proof.
  intros Hp Hn. destruct o; cbn [shm_step].
  - intros E. injection E as <-. unfold shm_create. destruct (check_key s k f); cbn [snd]; [lia|]. rewrite make_next by done. lia.
  - intros E. injection E as <-. unfold create_named. destruct (check_name s n f); cbn [snd]; [lia|]. rewrite make_next by done. lia.
  - intros E. injection E as <-. unfold attach. destruct (decide _); [|cbn; lia]. destruct (store s !! id); cbn; lia.
  - intros E. injection E as <-. rewrite remove_next. lia.
  - intros E. injection E as <-. unfold shm_unlink. destruct (regions_by_name s !! n); [rewrite remove_next|cbn]; lia.
  - unfold write_at. destruct (h_memory s h) as [m|]; [|cbn; intros E; injection E as <-; lia]. case_if; [cbn; intros Eq; injection Eq as <-; lia|].
    destruct (poke m off d) as [m'|]; [|done]. cbn. intros Eq. injection Eq as <-. rewrite update_memory_next. lia.
  - intros E. injection E as <-. rewrite detach_next. lia.
  - intros E. injection E as <-. unfold drop_handle. destruct (handles s !! h) as [x|]; [|lia]. destruct (attached x); [rewrite detach_next|]; lia.
Qed.

Lemma shm_step_ok reserve s o s' : shm_ok s -> next_id s + 1 < u64_modulus -> op_fits o -> shm_step reserve s o = Ret s' -> shm_ok s'.
Proof.
  intros H Hn Hf. destruct o; cbn [shm_step op_fits] in *; intros E; try (injection E as <-).
  - by apply create_ok.
  - by apply create_named_ok.
  - by apply attach_ok.
  - by apply shm_remove_ok.
  - unfold shm_unlink. destruct (regions_by_name s !! n); [by apply shm_remove_ok | done].
  - destruct (write_at s h off d) as [[r s1]|] eqn:Ew; [|done]. cbn in E. injection E as <-. by apply (write_at_ok s h off d r).
  - by apply detach_ok.
  - by apply drop_ok.
Qed.

Lemma shm_new_ok : shm_ok shm_new.
Proof.
  split; [split|split]; cbn; try done.
  - intros id [x Hx]. unfold shape_at in Hx. cbn in Hx. by rewrite lookup_empty in Hx.
  - intros k id. rewrite lookup_empty. split; [done | intros (_ & Hid & _); by apply elem_of_empty in Hid].
  - intros n id. rewrite lookup_empty. split; [done | intros (Hid & _); by apply elem_of_empty in Hid].
Qed.

Lemma shm_run_ok reserve l s s' : shm_ok s -> next_id s + Z.of_nat (length l) < u64_modulus -> Forall op_fits l -> shm_run reserve s l = Ret s' -> shm_ok s'.
Proof.
  revert s. induction l as [|o l IH]; intros s H Hn Hf E; cbn in E; [by injection E as <-|]. apply Forall_cons in Hf as [Hf1 Hf2].
  destruct (shm_step reserve s o) as [s1|] eqn:Es; [|done]. cbn in E, Hn. pose proof (mo_next s (proj1 H)) as Hp.
  pose proof (shm_step_next reserve s o s1 Hp ltac:(lia) Es). apply (IH s1); try done; [by apply (shm_step_ok reserve s o); [|lia|..] | lia].
Qed.

(** C14: whatever calls are made from the start, and while the identifiers last, the
    maps by key and by name have exactly the registered regions, the totals of the
    manager are exact, and every region counts its attached handles and keeps the
    size of its memory. *)
Theorem shm_invariant reserve l s' :
  Z.of_nat (length l) + 1 < u64_modulus -> Forall op_fits l -> shm_run reserve shm_new l = Ret s' -> shm_ok s'.
Proof. intros Hl Hf E. apply (shm_run_ok reserve l shm_new); [apply shm_new_ok | cbn [shm_new next_id]; lia | done | done]. Qed.

Definition demo_calls : list shm_op :=
  [OCreate 7 10 default_permissions default_flags; OAttach 1; OAttach 1; OWrite 0 4 [1; 2]; ORemove 1; ODetach 0; ODrop 1; ONamed "a" 5 default_permissions default_flags].

Lemma shm_invariant_witness : exists s', shm_run (fun _ => true) shm_new demo_calls = Ret s' /\ shm_ok s'.
Proof.
  destruct (shm_run (fun _ => true) shm_new demo_calls) as [s'|] eqn:E; [|vm_compute in E; discriminate]. exists s'. split; [reflexivity|].
  apply (shm_invariant (fun _ => true) demo_calls s'); [vm_compute; reflexivity | repeat constructor | exact E].
Defined.

(** ** The ring between two handles *)

Inductive ring_call := RPush (v : list Z) | RPop.

Section RingRun.
Context (es : nat).

(** The producer has the ring [r1], the consumer the ring [r2]. *)
Definition ring_step (s : shm) (r1 r2 : SharedRingBuffer) (o : ring_call) : outcome (result (list Z) ShmError * shm) :=
  match o with
  | RPush v => let! (r, s') := ring_push es s r1 v in Ret (match r with Ok _ => Ok [] | Err e => Err e end, s')
  | RPop => ring_pop es s r2
  end.

Fixpoint ring_run (s : shm) (r1 r2 : SharedRingBuffer) (l : list ring_call) : outcome (list (result (list Z) ShmError) * shm) :=
  match l with
  | [] => Ret ([], s)
  | o :: l' => let! (a, s1) := ring_step s r1 r2 o in let! (bs, s2) := ring_run s1 r1 r2 l' in Ret (a :: bs, s2)
  end.

(** The queue of at most [cap - 1] elements *)
Definition queue_step (cap : Z) (q : list (list Z)) (o : ring_call) : result (list Z) ShmError * list (list Z) :=
  match o, q with
  | RPush v, _ => if decide (Z.of_nat (length q) = cap - 1) then (Err OutOfMemory, q) else (Ok [], q ++ [v])
  | RPop, [] => (Err NotFound, [])
  | RPop, v :: q' => (Ok v, q')
  end.

Fixpoint queue_run (cap : Z) (q : list (list Z)) (l : list ring_call) : list (result (list Z) ShmError) * list (list Z) :=
  match l with
  | [] => ([], q)
  | o :: l' => let '(a, q1) := queue_step cap q o in let '(bs, q2) := queue_run cap q1 l' in (a :: bs, q2)
  end.

Definition ring_pair (s : shm) (r1 r2 : SharedRingBuffer) (q : list (list Z)) : Prop :=
  capacity r1 = capacity r2 /\ exists m, linked s (r_handle r1) (r_handle r2) m /\ ring_holds es m (capacity r1) q.

Definition call_fits (o : ring_call) : Prop := match o with RPush v => length v = es | RPop => True end.

Lemma ring_step_spec s r1 r2 q o : ring_pair s r1 r2 q -> (0 < es)%nat -> call_fits o ->
  exists s', ring_step s r1 r2 o = Ret ((queue_step (capacity r1) q o).1, s') /\ ring_pair s' r1 r2 (queue_step (capacity r1) q o).2.
Proof.
  intros (Hc & m & Hl & Hr) Hes Hf. destruct o as [v|]; cbn [ring_step queue_step call_fits] in *.
  - unfold ring_push. rewrite (linked_memory _ _ _ m Hl). pose proof (shm_push_spec es m _ q v Hr Hf Hes) as P. destruct (decide _).
    + rewrite P. cbn. exists s. split; [done|]. split; [done|]. by exists m.
    + destruct P as (m' & E & Hr'). rewrite E. cbn. eexists. split; [done|]. split; [done|]. exists m'. split; [by apply (linked_update s _ _ m) | done].
  - unfold ring_pop. rewrite (linked_memory _ _ _ m (linked_sym _ _ _ _ Hl)), <- Hc. pose proof (shm_pop_spec es m _ q Hr Hes) as P. destruct q as [|v q'].
    + rewrite P. cbn. exists s. split; [done|]. split; [done|]. by exists m.
    + destruct P as (m' & E & Hr'). rewrite E. cbn. eexists. split; [done|]. split; [done|]. exists m'.
      split; [by apply linked_sym, (linked_update s _ _ m), linked_sym | done].
Qed.

Lemma ring_run_spec l s r1 r2 q : ring_pair s r1 r2 q -> (0 < es)%nat -> Forall call_fits l ->
  exists s', ring_run s r1 r2 l = Ret ((queue_run (capacity r1) q l).1, s') /\ ring_pair s' r1 r2 (queue_run (capacity r1) q l).2.
Proof.
  revert s q. induction l as [|o l IH]; intros s q Hp Hes Hf; cbn [ring_run queue_run]; [by exists s|]. apply Forall_cons in Hf as [Hf1 Hf2].
  destruct (ring_step_spec s r1 r2 q o Hp Hes Hf1) as (s1 & E1 & Hp1). rewrite E1. cbn [obind]. destruct (queue_step _ _ _) as [a q1]. cbn [fst snd] in *.
  destruct (IH s1 q1 Hp1 Hes Hf2) as (s2 & E2 & Hp2). rewrite E2. cbn [obind]. destruct (queue_run _ _ _) as [bs q2]. by exists s2.
Qed.

(** ** Making a ring *)

Lemma init_header_spec m cap : is_u64 cap -> header_size <= len m -> len m < 2 ^ 63 ->
  exists m', init_header es m cap = Ret m' /\ len m' = len m /\ get_word m' 0 = Ret 0 /\ get_word m' 8 = Ret 0 /\ get_word m' 16 = Ret cap.
Proof.
  intros Hc Hm Hl. unfold header_size in Hm. assert (Hu : len m < u64_modulus) by (change u64_modulus with (2 ^ 64); lia). unfold init_header.
  destruct (put_word_in m 0 0) as (m1 & E1 & L1); [lia..|]. rewrite E1. cbn [obind].
  destruct (put_word_in m1 8 0) as (m2 & E2 & L2); [lia..|]. rewrite E2. cbn [obind].
  destruct (put_word_in m2 16 cap) as (m3 & E3 & L3); [lia..|]. rewrite E3. cbn [obind].
  destruct (put_word_in m3 24 (Z.of_nat es)) as (m4 & E4 & L4); [lia..|]. exists m4. split; [done|]. split; [lia|].
  rewrite !(get_put_other m3 24 (Z.of_nat es) m4) by (done || lia). rewrite (get_put_same m2 16 cap m3 Hc E3). split; [|split]; [| |done];
    rewrite (get_put_other m2 16 cap m3) by (done || lia).
  - rewrite (get_put_other m1 8 0 m2) by (done || lia). by apply (get_put_same m 0 0 m1).
  - by apply (get_put_same m1 8 0 m2).
Qed.

Lemma page_aligned_spec sz : 0 <= sz < 2 ^ 62 -> sz <= page_aligned sz < 2 ^ 63.
Proof.
  intros H. unfold page_aligned, PAGE_SIZE. rewrite (wrap64_small (sz + 4096)) by (unfold is_u64; change u64_modulus with (2 ^ 64); lia).
  rewrite (wrap64_small (sz + 4096 - 1)) by (unfold is_u64; change u64_modulus with (2 ^ 64); lia).
  pose proof (Z.div_mod (sz + 4096 - 1) 4096 ltac:(lia)). pose proof (Z.mod_pos_bound (sz + 4096 - 1) 4096 ltac:(lia)).
  rewrite wrap64_small by (unfold is_u64; change u64_modulus with (2 ^ 64); lia). lia.
Qed.

Lemma attach_registered s id r : id ∈ regions_by_id s -> store s !! id = Some r ->
  attach s id = (Ok (length (handles s)), set_handles (set_store s (<[id := region_attach r]> (store s))) (handles s ++ [mkHandle id true])).
Proof. intros Hin Hr. unfold attach. rewrite decide_True by done. by rewrite Hr. Qed.

(** A producer makes a ring under a free name, a consumer opens it: an empty ring
    between the two. *)
Lemma ring_create_open reserve s n cap p c p' c' :
  regions_by_name s !! n = None -> 0 < cap -> header_size + cap * Z.of_nat es < 2 ^ 62 ->
  reserve (page_aligned (header_size + cap * Z.of_nat es)) = true -> (0 < es)%nat ->
  exists r1 s1 r2 s2, ring_create reserve es s n cap p c = Ret (Ok r1, s1) /\ ring_open s1 n p' c' = Ret (Ok r2, s2) /\ ring_pair s2 r1 r2 [] /\ capacity r1 = cap.
Proof.
  intros Hn Hc Hsz Hres Hes. assert (Hcb : cap < 2 ^ 62) by (unfold header_size in Hsz; nia).
  assert (Et : header_size +w (cap *w Z.of_nat es) = header_size + cap * Z.of_nat es).
  { unfold header_size in *. rewrite (wrap64_small (cap * _)) by (unfold is_u64; change u64_modulus with (2 ^ 64); nia). apply wrap64_small. unfold is_u64. change u64_modulus with (2 ^ 64). nia. }
  set (tot := header_size + cap * Z.of_nat es) in *. assert (Htot : 0 <= tot) by (unfold tot, header_size; nia).
  destruct (page_aligned_spec tot) as [Hp1 Hp2]; [lia|]. unfold ring_create. rewrite Et. unfold shm_open, create_named, check_name. cbn [create]. rewrite Hn.
  unfold make, generate_id, region_new. rewrite Hres. set (id := next_id s). set (m0 := replicate (Z.to_nat (page_aligned tot)) 0).
  assert (Hm0 : len m0 = page_aligned tot) by (unfold len, m0; rewrite length_replicate; lia). set (r0 := mkRegion _ _ m0 _ _ _ _ _ _ _).
  match goal with |- context [register ?a id r0] => set (s0 := register a id r0) end.
  rewrite (attach_registered s0 id r0) by (cbn; rewrite ?lookup_insert_eq; set_solver). set (h := length (handles s0)). set (s1 := set_handles _ _).
  assert (Hh : handles s1 !! h = Some (mkHandle id true)) by (cbn [s1 handles set_handles]; unfold h; rewrite lookup_app_r, Nat.sub_diag by lia; done).
  assert (Hst : store s1 !! id = Some (region_attach r0)) by (cbn [s1 store set_handles set_store]; apply lookup_insert_eq).
  assert (Em : h_memory s1 h = Some m0) by (unfold h_memory; rewrite Hh; cbn [attached region]; rewrite Hst; done). rewrite Em.
  destruct (init_header_spec m0 cap) as (m1 & E1 & Hl1 & G0 & G8 & G16); [unfold is_u64; change u64_modulus with (2 ^ 64); lia | unfold tot, header_size in *; lia | lia|].
  rewrite E1. cbn [obind]. unfold update_memory. rewrite Hh. cbn [region]. rewrite Hst. set (s2 := set_store s1 _).
  set (r2 := set_memory (region_attach r0) m1) in *. assert (Hst2 : store s2 !! id = Some r2) by (cbn [s2 store set_store]; apply lookup_insert_eq).
  assert (Hin2 : id ∈ regions_by_id s2) by (cbn; set_solver). pose proof (attach_registered s2 id r2 Hin2 Hst2) as Ea. set (s3 := set_handles _ _) in Ea.
  assert (Hlen : length (handles s2) = S h) by (cbn [s2 handles set_store s1 set_handles]; rewrite length_app; cbn; unfold h; lia).
  assert (H1 : handles s3 !! h = Some (mkHandle id true)) by (cbn [s3 handles set_handles]; rewrite lookup_app_l by lia; exact Hh).
  assert (H2 : handles s3 !! S h = Some (mkHandle id true)) by (cbn [s3 handles set_handles]; rewrite lookup_app_r, Hlen, Nat.sub_diag by lia; done).
  assert (H3 : store s3 !! id = Some (region_attach r2)) by (cbn [s3 store set_handles set_store]; apply lookup_insert_eq).
  exists (mkRing h p c cap), s2, (mkRing (S h) p' c' cap), s3. split; [done|]. split; [|split; [|done]].
  - unfold ring_open. assert (Hname : regions_by_name s2 !! n = Some id) by (cbn; apply lookup_insert_eq). rewrite Hname, Ea, Hlen.
    unfold h_memory. rewrite H2. cbn [attached region]. rewrite H3. cbn [fmap option_fmap option_map memory region_attach r2 set_memory]. rewrite G16. done.
  - split; [done|]. exists m1. cbn [r_handle capacity]. split; [by exists id, (region_attach r2)|]. split; cbn [length]; [done | fold tot; lia | lia | lia |].
    exists 0. rewrite G8, G0. cbn. rewrite Z.mod_0_l by lia. split; [lia|]. by split; [|split].
Qed.

(** a ring that a producer makes under a free name and a consumer opens by that
    name is a queue of at most [capacity - 1] elements: every sequence of pushes and
    pops through the two handles answers as the queue does, and never panics. *)
Theorem shared_ring_fifo reserve s n cap p c p' c' l :
  regions_by_name s !! n = None -> 0 < cap -> header_size + cap * Z.of_nat es < 2 ^ 62 ->
  reserve (page_aligned (header_size + cap * Z.of_nat es)) = true -> (0 < es)%nat -> Forall call_fits l ->
  exists r1 s1 r2 s2 s3,
    ring_create reserve es s n cap p c = Ret (Ok r1, s1) /\ ring_open s1 n p' c' = Ret (Ok r2, s2) /\
    ring_run s2 r1 r2 l = Ret ((queue_run cap [] l).1, s3) /\ ring_pair s3 r1 r2 (queue_run cap [] l).2.
Proof.
  intros Hn Hc Hsz Hres Hes Hf. destruct (ring_create_open reserve s n cap p c p' c' Hn Hc Hsz Hres Hes) as (r1 & s1 & r2 & s2 & E1 & E2 & Hp & <-).
  destruct (ring_run_spec l s2 r1 r2 [] Hp Hes Hf) as (s3 & E3 & Hp3). by exists r1, s1, r2, s2, s3.
Qed.

End RingRun.

Lemma shared_ring_fifo_witness : exists r1 s1 r2 s2 s3,
  ring_create (fun _ => true) 2 shm_new "r" 2 5 6 = Ret (Ok r1, s1) /\ ring_open s1 "r" 5 6 = Ret (Ok r2, s2) /\
  ring_run 2 s2 r1 r2 [RPush [1; 2]; RPush [3; 4]; RPop; RPop] = Ret ([Ok []; Err OutOfMemory; Ok [1; 2]; Err NotFound], s3).
Proof.
  destruct (shared_ring_fifo 2%nat (fun _ => true) shm_new "r" 2 5 6 5 6 [RPush [1; 2]; RPush [3; 4]; RPop; RPop]) as (r1 & s1 & r2 & s2 & s3 & E1 & E2 & E3 & _).
  - reflexivity.
  - lia.
  - unfold header_size. lia.
  - reflexivity.
  - lia.
  - repeat constructor.
  - exists r1, s1, r2, s2, s3. exact (conj E1 (conj E2 E3)).
Defined.

(** ** Removal *)

Definition handle_op (o : shm_op) : Prop := match o with OAttach _ | OWrite _ _ _ | ODetach _ | ODrop _ => True | _ => False end.

Lemma detach_ids s h : regions_by_id (detach s h).2 = regions_by_id s.
Proof. unfold detach. destruct (handles s !! h) as [x|]; [|done]. destruct (attached x); [|done]. cbn. by destruct (store s !! region x). Qed.

Lemma handle_op_ids reserve s o s' : handle_op o -> shm_step reserve s o = Ret s' -> regions_by_id s' = regions_by_id s.
Proof.
  destruct o; cbn [handle_op shm_step]; intros Ho E; try done.
  - injection E as <-. unfold attach. destruct (decide _); [|done]. by destruct (store s !! id).
  - destruct (write_at s h off d) as [[r s1]|] eqn:Ew; [|done]. cbn in E. injection E as <-. unfold write_at in Ew. destruct (h_memory s h) as [m|]; [|by injection Ew as _ <-].
    destruct (_ >? _); [by injection Ew as _ <-|]. destruct (poke m off d); [|done]. cbn in Ew. injection Ew as _ <-.
    unfold update_memory. destruct (handles s !! h) as [x|]; [|done]. by destruct (store s !! region x).
  - injection E as <-. apply detach_ids.
  - injection E as <-. unfold drop_handle. destruct (handles s !! h) as [x|]; [|done]. destruct (attached x); [apply detach_ids | done].
Qed.

Lemma handle_run_ids reserve l s s' : Forall handle_op l -> shm_run reserve s l = Ret s' -> regions_by_id s' = regions_by_id s.
Proof.
  revert s. induction l as [|o l IH]; intros s Hl E; cbn in E; [by injection E as <-|]. apply Forall_cons in Hl as [Ho Hl].
  destruct (shm_step reserve s o) as [s1|] eqn:Es; [|done]. cbn in E. rewrite (IH s1 Hl E). by apply (handle_op_ids reserve s o).
Qed.

(** a region that is removed while a handle is attached is registered for ever:
    however the handles are used, detached and dropped afterwards, it stays in the
    maps and can be attached again. *)
Theorem removal_deferred_for_ever reserve s id r l s' :
  shm_ok s -> id ∈ regions_by_id s -> store s !! id = Some r -> 0 < attach_count r ->
  Z.of_nat (length l) + next_id s < u64_modulus -> Forall op_fits l -> Forall handle_op l -> shm_run reserve (remove s id).2 l = Ret s' ->
  (remove s id).1 = Ok tt /\ id ∈ regions_by_id s' /\ exists h, (attach s' id).1 = Ok h.
Proof.
  intros H Hin Hr Ha Hn Hf Hl E. assert (Hrm : (remove s id).1 = Ok tt /\ regions_by_id (remove s id).2 = regions_by_id s).
  { unfold remove. rewrite decide_True by done. rewrite Hr. cbn zeta. rewrite Z.gtb_ltb, (proj2 (Z.ltb_lt _ _)) by lia. done. }
  split; [apply Hrm|]. pose proof (handle_run_ids reserve l _ s' Hl E) as Hids. rewrite (proj2 Hrm) in Hids.
  assert (Hok : shm_ok s') by (apply (shm_run_ok reserve l (remove s id).2); [by apply shm_remove_ok | rewrite remove_next; lia | done | done]).
  split; [by rewrite Hids|]. assert (Hin' : id ∈ regions_by_id s') by (by rewrite Hids). destruct (mo_ids s' (proj1 Hok) id Hin') as [x Hx].
  unfold shape_at in Hx. destruct (store s' !! id) as [r'|] eqn:Er'; [|done]. exists (length (handles s')). by rewrite (attach_registered s' id r').
Qed.

Definition demo_attached : shm := (attach (shm_create (fun _ => true) shm_new 7 1 default_permissions default_flags).2 1).2.

Lemma demo_attached_ok : shm_ok demo_attached.
Proof. apply attach_ok, create_ok; [apply shm_new_ok | done]. Qed.

Lemma removal_deferred_for_ever_witness : exists s', shm_run (fun _ => true) (remove demo_attached 1).2 [ODetach 0%nat] = Ret s' /\ 1 ∈ regions_by_id s'.
Proof.
  destruct (store demo_attached !! 1) as [r|] eqn:Er; [|vm_compute in Er; discriminate].
  destruct (shm_run (fun _ => true) (remove demo_attached 1).2 [ODetach 0%nat]) as [s'|] eqn:E; [|vm_compute in E; discriminate].
  exists s'. split; [reflexivity|]. apply (removal_deferred_for_ever (fun _ => true) demo_attached 1 r [ODetach 0%nat] s').
  - exact demo_attached_ok.
  - apply elem_of_union_l, elem_of_singleton. reflexivity.
  - exact Er.
  - vm_compute in Er. injection Er as <-. reflexivity.
  - reflexivity.
  - repeat constructor.
  - repeat constructor.
  - exact E.
Defined.

(** ** Boundary behaviour *)

(** The rounding of a size near the top wraps to an empty region. *)
Lemma huge_region_is_empty : match make (fun _ => true) shm_new 7 18446744073709551615 default_permissions default_flags None with
  | (Ok id, s) => memory <$> store s !! id = Some []
  | _ => False
  end.
Proof. vm_compute. reflexivity. Qed.

(** Two exclusive creators that check before either registers both succeed, and the
    first region cannot be found by its key any more. *)
Lemma exclusive_creators_race :
  let f := mkFlags true true false false false in
  let s1 := (make (fun _ => true) shm_new 7 0 default_permissions f None) in
  let s2 := (make (fun _ => true) s1.2 7 0 default_permissions f None) in
  check_key shm_new 7 f = None /\ s1.1 = Ok 1 /\ s2.1 = Ok 2 /\ regions_by_key s2.2 !! 7 = Some 2 /\ base.size (regions_by_id s2.2) = 2%nat.
Proof. vm_compute. auto. Qed.

(** An offset near the top passes the check and panics in the slice. *)
Lemma write_at_wraps : write_at demo_shm 0%nat 18446744073709551615 [1] = Panic.
Proof. vm_compute. reflexivity. Qed.

(** A ring without capacity divides by zero. *)
Lemma ring_without_capacity : match ring_create (fun _ => true) 8 shm_new "r" 0 1 2 with
  | Ret (Ok r, s) => ring_push 8 s r (replicate 8 1) = Panic
  | _ => False
  end.
Proof. vm_compute. reflexivity. Qed.

(** The positions in the shared header are trusted: after a peer has written one, a
    push goes outside the region. *)
Lemma ring_trusts_header : match ring_create (fun _ => true) 8 shm_new "r" 4 1 2 with
  | Ret (Ok r, s) =>
      match write_at s (r_handle r) 0 (to_le 8 4096) with
      | Ret (Ok _, s') => ring_push 8 s' r (replicate 8 1) = Panic
      | _ => False
      end
  | _ => False
  end.
Proof. vm_compute. reflexivity. Qed.

End ShmSpec.

(** ** Proxies *)

Module ProxySpec.
Import Proxy.

Section Calls.
Context {T : Type}.
Implicit Types (f : statics -> outcome (T * statics)).

(** Whatever the function does to the statics, a call that comes back leaves the
    caller's domain current, and is an error exactly when a panic was recorded. *)
Lemma proxy_call_spec p s f r s' : proxy_call p s f = Ret (r, s') ->
  CURRENT_DOMAIN_ID s' = CURRENT_DOMAIN_ID s /\
  exists x s1, f (mkStatics (target_domain p) false (PROXY_PANIC_MESSAGE s)) = Ret (x, s1) /\
    if PROXY_PANIC_STATE s1 then r = Err (DomainPanicked (default EmptyString (PROXY_PANIC_MESSAGE s1))) else r = Ok x.
Proof.
  unfold proxy_call. cbn [CURRENT_DOMAIN_ID set_current_domain PROXY_PANIC_MESSAGE]. destruct (f _) as [[x s1]|]; [|done]. cbn [obind set_current_domain PROXY_PANIC_STATE CURRENT_DOMAIN_ID PROXY_PANIC_MESSAGE].
  destruct (PROXY_PANIC_STATE s1) eqn:Ep; intros E; injection E as <- <-; cbn [CURRENT_DOMAIN_ID set_current_domain]; (split; [reflexivity|]); exists x, s1; rewrite Ep; done.
Qed.

(** Retrying answers with the value of some attempt or with the last error, and the
    caller's domain is current again. *)
Lemma retry_loop_spec n p f s e r s' : retry_loop n p s f e = Ret (r, s') ->
  CURRENT_DOMAIN_ID s' = CURRENT_DOMAIN_ID s /\ (n = O -> r = Err e).
Proof.
  revert s e. induction n as [|n IH]; intros s e E; cbn [retry_loop] in E; [by injection E as <- <-|].
  destruct (proxy_call p s f) as [[r1 s1]|] eqn:Ec; [|done]. cbn [obind] in E. destruct (proxy_call_spec p s f r1 s1 Ec) as [Hd _]. rewrite <- Hd.
  destruct r1 as [x|e1]; [by injection E as _ <-|]. split; [by apply (IH s1 e1) | done].
Qed.

(** a call through a proxy that comes back restores the domain of the caller, and
    it answers with the value of the function exactly when no panic was recorded; a
    panic of the function itself is not caught. *)
Theorem proxy_call_correct p s f :
  match f (mkStatics (target_domain p) false (PROXY_PANIC_MESSAGE s)) with
  | Panic => proxy_call p s f = Panic
  | Ret (x, s1) => exists r s', proxy_call p s f = Ret (r, s') /\ CURRENT_DOMAIN_ID s' = CURRENT_DOMAIN_ID s /\
      (r = Ok x <-> PROXY_PANIC_STATE s1 = false)
  end.
Proof.
  destruct (proxy_call p s f) as [[r s']|] eqn:E.
  - destruct (proxy_call_spec p s f r s' E) as (Hd & x & s1 & -> & Hr). exists r, s'. split; [done|]. split; [done|].
    destruct (PROXY_PANIC_STATE s1); rewrite Hr; done.
  - unfold proxy_call in E. cbn [CURRENT_DOMAIN_ID set_current_domain PROXY_PANIC_MESSAGE] in E. destruct (f _) as [[x s1]|]; [|done].
    cbn in E. by destruct (PROXY_PANIC_STATE s1).
Qed.

End Calls.

End ProxySpec.
