(* ===== verification/Process.v ===== *)
(** * Signals, processes, environments and work queues

    src/src/task/signal.rs, process.rs, environ.rs, work_stealing.rs and waker.rs.
    Contexts of signals are shared by reference and have numbers; the two halves of
    waiting for a signal, between which no lock is held, are definitions of their
    own.  Handlers, wakers and tasks are numbers.  Strings are their bytes: all
    characters with a meaning are ASCII. *)

From stdpp Require Import base list gmap strings.
From Stdlib Require Import ZArith Lia Ascii.
From S2P Require Import Prelude OrderedMap.

Local Open Scope Z_scope.
Open Scope word_scope.

(** ** Signals (signal.rs) *)

Module Signals.

Definition SIGKILL : Z := 9.
Definition SIGTERM : Z := 15.
Definition SIGSTOP : Z := 19.
Definition SIGCONT : Z := 18.
Definition SIGSEGV : Z := 11.
Definition SIGBUS : Z := 7.
Definition SIGILL : Z := 4.
Definition SIGFPE : Z := 8.
Definition SIGURG : Z := 23.
Definition SIGCHLD : Z := 17.
Definition SIGWAKE : Z := 64.
Definition SIGRTMIN : Z := 32.
Definition SIGRTMAX : Z := 63.

Definition is_realtime (s : Z) : bool := (s >=? SIGRTMIN) && (s <=? SIGRTMAX).
Definition is_uncatchable (s : Z) : bool := (s =? SIGKILL) || (s =? SIGSTOP).

Inductive SignalAction := Default | Ignore | Handle | Stop | Terminate | CoreDump | Continue.
#[export] Instance action_eq_dec : EqDecision SignalAction.
Proof. solve_decision. Defined.

Definition default_for (s : Z) : SignalAction :=
  if (s =? SIGKILL) || (s =? SIGTERM) then Terminate
  else if (s =? SIGSEGV) || (s =? SIGBUS) || (s =? SIGILL) || (s =? SIGFPE) then CoreDump
  else if s =? SIGSTOP then Stop
  else if s =? SIGCONT then Continue
  else if (s =? SIGCHLD) || (s =? SIGURG) then Ignore
  else Terminate.

Inductive SignalData := NoData | Int (i : Z) | Ptr (p : Z) | Child (pid status : Z) | Error (errno addr : Z) | Custom (c : Z).

Record SignalInfo := mkInfo { signal : Z; sender_pid : option Z; data : SignalData; timestamp : Z }.

(** Masks are words. *)
Definition mask_add (bits s : Z) : Z := if s <? 64 then Z.lor bits (Z.shiftl 1 s) else bits.
Definition mask_remove (bits s : Z) : Z := if s <? 64 then Z.land bits (not64 (Z.shiftl 1 s)) else bits.
Definition mask_contains (bits s : Z) : bool := if s <? 64 then negb (Z.land bits (Z.shiftl 1 s) =? 0) else false.
Definition mask_union (a b : Z) : Z := Z.lor a b.
Definition mask_difference (a b : Z) : Z := Z.land a (not64 b).

Record SignalFlags := mkFlags { reset_on_handle : bool; restart : bool; queued : bool; siginfo : bool }.
Record SignalConfig := mkConfig { action : SignalAction; handler : option Z; flags : SignalFlags; mask : Z }.

Inductive SignalError := InvalidSignal | Uncatchable | QueueFull | NoSuchTask | PermissionDenied | Interrupted.

(** *** The queue *)

Record SignalQueue := mkQueue { pending : list SignalInfo; pending_mask : Z; max_size : nat }.

Definition DEFAULT_MAX_SIZE : nat := 128.
Definition queue_new : SignalQueue := mkQueue [] 0 DEFAULT_MAX_SIZE.

Definition enqueue (q : SignalQueue) (i : SignalInfo) : result SignalQueue SignalError :=
  if (max_size q <=? length (pending q))%nat then Err QueueFull
  else Ok (mkQueue (pending q ++ [i]) (mask_add (pending_mask q) (signal i)) (max_size q)).

(** The first signal that is not masked, and the others. *)
Fixpoint take_unmasked (m : Z) (l : list SignalInfo) : option (SignalInfo * list SignalInfo) :=
  match l with
  | [] => None
  | i :: l' =>
      if negb (mask_contains m (signal i)) then Some (i, l')
      else match take_unmasked m l' with Some (x, r) => Some (x, i :: r) | None => None end
  end.

Definition has_signal (s : Z) (l : list SignalInfo) : bool := existsb (fun i => signal i =? s) l.

Definition dequeue (q : SignalQueue) (m : Z) : option (SignalInfo * SignalQueue) :=
  match take_unmasked m (pending q) with
  | None => None
  | Some (i, l) =>
      let has_same := has_signal (signal i) l in
      Some (i, mkQueue l (if negb has_same then mask_remove (pending_mask q) (signal i) else pending_mask q) (max_size q))
  end.

Definition is_pending (q : SignalQueue) (s : Z) : bool :=
  if s <? 64 then negb (Z.land (pending_mask q) (Z.shiftl 1 s) =? 0) else has_signal s (pending q).
Definition has_pending (q : SignalQueue) : bool := negb (pending_mask q =? 0).
Definition clear (q : SignalQueue) : SignalQueue := mkQueue [] 0 (max_size q).

(** *** The context of a task *)

Record SignalContext := mkContext {
  configs : gmap Z SignalConfig; queue : SignalQueue; blocked : Z; wakers : list Z; received_count : Z; handled_count : Z }.

Definition context_new : SignalContext := mkContext ∅ queue_new 0 [] 0 0.

Definition set_action (c : SignalContext) (s : Z) (a : SignalAction) (h : option Z) : result SignalContext SignalError :=
  if is_uncatchable s && negb (bool_decide (a = Default)) then Err Uncatchable
  else Ok (mkContext (<[s := mkConfig a h (mkFlags false false false false) 0]> (configs c)) (queue c) (blocked c) (wakers c) (received_count c) (handled_count c)).

Definition get_action (c : SignalContext) (s : Z) : SignalAction :=
  match configs c !! s with Some x => action x | None => default_for s end.

(** The answer, the wakers that are woken, and the context. *)
Definition send (c : SignalContext) (i : SignalInfo) : result unit SignalError * list Z * SignalContext :=
  let c1 := mkContext (configs c) (queue c) (blocked c) (wakers c) (received_count c +w 1) (handled_count c) in
  match enqueue (queue c) i with
  | Err e => (Err e, [], c1)
  | Ok q => (Ok tt, wakers c, mkContext (configs c) q (blocked c) [] (received_count c1) (handled_count c))
  end.

Record ProcessedSignal := mkProcessed { ps_info : SignalInfo; ps_action : SignalAction; ps_handler : option Z }.

Definition set_queue (c : SignalContext) (q : SignalQueue) : SignalContext := mkContext (configs c) q (blocked c) (wakers c) (received_count c) (handled_count c).

Definition process (c : SignalContext) : option ProcessedSignal * SignalContext :=
  match dequeue (queue c) (blocked c) with
  | None => (None, c)
  | Some (i, q) =>
      (Some (mkProcessed i (get_action c (signal i)) (match configs c !! signal i with Some x => handler x | None => None end)),
       mkContext (configs c) q (blocked c) (wakers c) (received_count c) (handled_count c +w 1))
  end.

Definition set_blocked (c : SignalContext) (m : Z) : SignalContext := mkContext (configs c) (queue c) m (wakers c) (received_count c) (handled_count c).
Definition block (c : SignalContext) (s : Z) : SignalContext := set_blocked c (mask_add (blocked c) s).
Definition unblock (c : SignalContext) (s : Z) : SignalContext := set_blocked c (mask_remove (blocked c) s).

(** The first half of a poll takes a signal, the second registers the waker. *)
Definition poll_dequeue (c : SignalContext) : option SignalInfo * SignalContext :=
  match dequeue (queue c) (blocked c) with
  | Some (i, q) => (Some i, set_queue c q)
  | None => (None, c)
  end.

Definition poll_register (c : SignalContext) (w : Z) : SignalContext :=
  mkContext (configs c) (queue c) (blocked c) (if bool_decide (w ∈ wakers c) then wakers c else wakers c ++ [w]) (received_count c) (handled_count c).

Definition poll (c : SignalContext) (w : Z) : option SignalInfo * SignalContext :=
  match poll_dequeue c with
  | (Some i, c') => (Some i, c')
  | (None, c') => (None, poll_register c' w)
  end.

(** *** The manager *)

Record SignalManager := mkManager { store : list SignalContext; contexts : gmap Z nat; total_sent : Z }.

Definition manager_new : SignalManager := mkManager [] ∅ 0.

Definition register (m : SignalManager) (task : Z) : nat * SignalManager :=
  (length (store m), mkManager (store m ++ [context_new]) (<[task := length (store m)]> (contexts m)) (total_sent m)).

Definition unregister (m : SignalManager) (task : Z) : SignalManager := mkManager (store m) (delete task (contexts m)) (total_sent m).

Definition get (m : SignalManager) (task : Z) : option SignalContext := match contexts m !! task with Some r => store m !! r | None => None end.

Definition send_to (m : SignalManager) (r : nat) (i : SignalInfo) : result unit SignalError * SignalManager :=
  match store m !! r with
  | Some c => let '(x, _, c') := send c i in (x, mkManager (<[r := c']> (store m)) (contexts m) (total_sent m))
  | None => (Err NoSuchTask, m)
  end.

Definition send_with_data (m : SignalManager) (target s : Z) (d : SignalData) : result unit SignalError * SignalManager :=
  match contexts m !! target with
  | None => (Err NoSuchTask, m)
  | Some r =>
      match send_to m r (mkInfo s None d 0) with
      | (Err e, m') => (Err e, m')
      | (Ok tt, m') => (Ok tt, mkManager (store m') (contexts m') (total_sent m' +w 1))
      end
  end.

Definition broadcast_step (s : Z) (x : Z * SignalManager) (r : nat) : Z * SignalManager :=
  match send_to x.2 r (mkInfo s None NoData 0) with
  | (Ok _, m') => (x.1 + 1, m')
  | (Err _, m') => (x.1, m')
  end.

Definition broadcast (m : SignalManager) (s : Z) : Z * SignalManager :=
  let '(count, m') := foldl (broadcast_step s) (0, m) (map_values (contexts m)) in
  (count, mkManager (store m') (contexts m') (total_sent m' +w count)).

(** [signal], [sigignore] and [sigdefault] *)
Definition set_task_action (m : SignalManager) (task s : Z) (a : SignalAction) (h : option Z) : result unit SignalError * SignalManager :=
  match contexts m !! task with
  | None => (Err NoSuchTask, m)
  | Some r =>
      match store m !! r with
      | None => (Err NoSuchTask, m)
      | Some c =>
          match set_action c s a h with
          | Err e => (Err e, m)
          | Ok c' => (Ok tt, mkManager (<[r := c']> (store m)) (contexts m) (total_sent m))
          end
      end
  end.

End Signals.

(** ** Processes (process.rs) *)

Module Procs.

Definition KERNEL : Z := 0.
Definition INIT : Z := 1.

Inductive ProcessState := Creating | Ready | Running | Blocked | Stopped | Zombie | Dead.
#[export] Instance state_eq_dec : EqDecision ProcessState.
Proof. solve_decision. Defined.

Definition priority_new (p : Z) : Z := if p <? -20 then -20 else if p >? 20 then 20 else p.

Record Credentials := mkCredentials { uid : Z; euid : Z; suid : Z; gid : Z; egid : Z; sgid : Z; groups : list Z }.
Definition default_credentials : Credentials := mkCredentials 0 0 0 0 0 0 [].
Definition is_privileged (c : Credentials) : bool := euid c =? 0.

Record ResourceLimit := mkLimit { soft : Z; hard : Z }.
Definition UNLIMITED : Z := u64_max.
Definition unlimited : ResourceLimit := mkLimit UNLIMITED UNLIMITED.

Inductive ResourceType :=
| CpuTime | FileSize | DataSize | StackSize | CoreSize | ResidentSet | NumProcesses | NumFiles | MemLock | AddressSpace | FileLocks | SignalsPending | MsgQueueSize.
#[export] Instance resource_eq_dec : EqDecision ResourceType.
Proof. solve_decision. Defined.

Definition default_limits : list (ResourceType * ResourceLimit) :=
  [(CpuTime, unlimited); (FileSize, unlimited); (DataSize, unlimited); (StackSize, mkLimit (8 * 1024 * 1024) UNLIMITED); (CoreSize, mkLimit 0 UNLIMITED);
   (ResidentSet, unlimited); (NumProcesses, mkLimit 4096 65536); (NumFiles, mkLimit 1024 65536); (MemLock, mkLimit (64 * 1024) (64 * 1024)); (AddressSpace, unlimited)].

Definition limit_get (l : list (ResourceType * ResourceLimit)) (r : ResourceType) : ResourceLimit :=
  match filter (fun x => x.1 = r) l with x :: _ => x.2 | [] => unlimited end.
Definition limit_set (l : list (ResourceType * ResourceLimit)) (r : ResourceType) (x : ResourceLimit) : list (ResourceType * ResourceLimit) :=
  (r, x) :: filter (fun y => y.1 <> r) l.

Record ProcessInfo := mkProcess {
  pid : Z; ppid : Z; pgid : Z; sid : Z; state : ProcessState; name : string; cmdline : list string; cwd : string; credentials : Credentials; priority : Z;
  limits : list (ResourceType * ResourceLimit); created_at : Z; exit_code : option Z; children : list Z; threads : list Z }.

Definition process_new (i parent : Z) (n : string) : ProcessInfo :=
  mkProcess i parent i i Creating n [] "/" default_credentials 0 default_limits 0 None [] [].

Definition with_state (p : ProcessInfo) (s : ProcessState) (e : option Z) : ProcessInfo :=
  mkProcess (pid p) (ppid p) (pgid p) (sid p) s (name p) (cmdline p) (cwd p) (credentials p) (priority p) (limits p) (created_at p) e (children p) (threads p).
Definition with_children (p : ProcessInfo) (l : list Z) : ProcessInfo :=
  mkProcess (pid p) (ppid p) (pgid p) (sid p) (state p) (name p) (cmdline p) (cwd p) (credentials p) (priority p) (limits p) (created_at p) (exit_code p) l (threads p).
Definition with_priority (p : ProcessInfo) (x : Z) : ProcessInfo :=
  mkProcess (pid p) (ppid p) (pgid p) (sid p) (state p) (name p) (cmdline p) (cwd p) (credentials p) x (limits p) (created_at p) (exit_code p) (children p) (threads p).

Definition add_child (p : ProcessInfo) (c : Z) : ProcessInfo := with_children p (children p ++ [c]).
Definition remove_child (p : ProcessInfo) (c : Z) : ProcessInfo := with_children p (filter (fun x => x <> c) (children p)).

Inductive ProcessError := NotFound | PermissionDenied | OutOfResources | InvalidOperation | NoChild | AlreadyExited | IsZombie.

Record ProcessManager := mkManager { processes : gmap Z ProcessInfo; next_pid : Z; next_tid : Z; total_created : Z; total_exited : Z }.

Definition manager_new : ProcessManager := mkManager ∅ 2 1 0 0.

Definition update (m : ProcessManager) (i : Z) (f : ProcessInfo -> ProcessInfo) : ProcessManager :=
  mkManager (alter f i (processes m)) (next_pid m) (next_tid m) (total_created m) (total_exited m).

Definition create (m : ProcessManager) (parent : Z) (n : string) : result Z ProcessError * ProcessManager :=
  let i := next_pid m in
  let m1 := mkManager (<[i := process_new i parent n]> (processes m)) (i +w 1) (next_tid m) (total_created m) (total_exited m) in
  let m2 := if negb (parent =? KERNEL) then update m1 parent (fun p => add_child p i) else m1 in
  (Ok i, mkManager (processes m2) (next_pid m2) (next_tid m2) (total_created m2 +w 1) (total_exited m2)).

Definition set_state (m : ProcessManager) (i : Z) (s : ProcessState) : result unit ProcessError * ProcessManager :=
  match processes m !! i with
  | None => (Err NotFound, m)
  | Some _ => (Ok tt, update m i (fun p => with_state p s (exit_code p)))
  end.

Definition exit (m : ProcessManager) (i code : Z) : result unit ProcessError * ProcessManager :=
  match processes m !! i with
  | None => (Err NotFound, m)
  | Some p =>
      if bool_decide (state p = Dead) then (Err AlreadyExited, m)
      else let m1 := update m i (fun p => with_state p Zombie (Some code)) in
           (Ok tt, mkManager (processes m1) (next_pid m1) (next_tid m1) (total_created m1) (total_exited m1 +w 1))
  end.

(** The code of a child that has ended. *)
Definition ended (m : ProcessManager) (c : Z) : option Z :=
  match processes m !! c with
  | Some p => if bool_decide (state p = Zombie) then exit_code p else None
  | None => None
  end.

Fixpoint wait_loop (m : ProcessManager) (target : option Z) (l : list Z) : option (Z * Z) :=
  match l with
  | [] => None
  | c :: l' =>
      if bool_decide (is_Some target) && negb (bool_decide (target = Some c)) then wait_loop m target l'
      else match ended m c with
           | Some code => Some (c, code)
           | None => wait_loop m target l'
           end
  end.

Definition reap (m : ProcessManager) (i : Z) : result ProcessManager ProcessError :=
  match processes m !! i with
  | None => Err NotFound
  | Some _ => Ok (mkManager (delete i (processes m)) (next_pid m) (next_tid m) (total_created m) (total_exited m))
  end.

Definition wait (m : ProcessManager) (parent : Z) (target : option Z) : result (Z * Z) ProcessError * ProcessManager :=
  match processes m !! parent with
  | None => (Err NotFound, m)
  | Some p =>
      if bool_decide (children p = []) then (Err NoChild, m)
      else if match target with Some t => negb (bool_decide (t ∈ children p)) | None => false end then (Err NoChild, m)
      else
        match wait_loop m target (children p) with
        | None => (Err NoChild, m)
        | Some (c, code) =>
            match reap m c with
            | Err e => (Err e, m)
            | Ok m1 => (Ok (c, code), update m1 parent (fun p => remove_child p c))
            end
        end
  end.

Definition list_pids (m : ProcessManager) : list Z := (entries (processes m)).*1.
Definition count (m : ProcessManager) : Z := Z.of_nat (base.size (processes m)).

Definition spawn (m : ProcessManager) (n : string) : result Z ProcessError * ProcessManager := create m INIT n.
Definition waitpid (m : ProcessManager) (i : option Z) : result (Z * Z) ProcessError * ProcessManager := wait m INIT i.
Definition setpriority (m : ProcessManager) (i p : Z) : result unit ProcessError * ProcessManager :=
  match processes m !! i with None => (Err NotFound, m) | Some _ => (Ok tt, update m i (fun x => with_priority x p)) end.
Definition getpriority (m : ProcessManager) (i : Z) : result Z ProcessError :=
  match processes m !! i with None => Err NotFound | Some p => Ok (priority p) end.

End Procs.

(** ** Environments (environ.rs) *)

Module Environ.

Definition is_alpha (c : ascii) : bool :=
  let n := Z.of_nat (nat_of_ascii c) in ((65 <=? n) && (n <=? 90)) || ((97 <=? n) && (n <=? 122)).
Definition is_digit (c : ascii) : bool := let n := Z.of_nat (nat_of_ascii c) in (48 <=? n) && (n <=? 57).
Definition is_word (c : ascii) : bool := is_alpha c || is_digit c || Ascii.eqb c "_".

Fixpoint all_word (s : string) : bool := match s with EmptyString => true | String c s' => is_word c && all_word s' end.

Definition is_valid (key : string) : bool :=
  match key with
  | EmptyString => false
  | String c _ => if negb (is_alpha c || Ascii.eqb c "_") then false else all_word key
  end.

Definition lower (c : ascii) : ascii := let n := nat_of_ascii c in if (65 <=? n)%nat && (n <=? 90)%nat then ascii_of_nat (n + 32) else c.
Fixpoint to_lowercase (s : string) : string := match s with EmptyString => EmptyString | String c s' => String (lower c) (to_lowercase s') end.

Definition parse_bool (v : string) : option bool :=
  let s := to_lowercase v in
  if bool_decide (s ∈ ["1"; "true"; "yes"; "on"]) then Some true
  else if bool_decide (s ∈ ["0"; "false"; "no"; "off"; EmptyString]) then Some false
  else None.

(** The text before the separator, and after it if there is one. *)
Fixpoint split_once (sep : ascii) (s : string) : option (string * string) :=
  match s with
  | EmptyString => None
  | String c s' => if Ascii.eqb c sep then Some (EmptyString, s') else match split_once sep s' with Some (a, b) => Some (String c a, b) | None => None end
  end.

(** The pieces between separators. *)
Fixpoint split (sep : ascii) (s : string) : list string :=
  match s with
  | EmptyString => [EmptyString]
  | String c s' =>
      if Ascii.eqb c sep then EmptyString :: split sep s'
      else match split sep s' with p :: l => String c p :: l | [] => [String c EmptyString] end
  end.

Definition parse_path_list (v : string) : list string := filter (fun s => s <> EmptyString) (split ":" v).

Inductive EnvError := InvalidKey | NotFound | ValueTooLarge | TooManyVariables.

Record Environment := mkEnv { vars : gmap string string; count : Z; max_vars : Z; max_value_size : Z }.

Definition with_limits (v s : Z) : Environment := mkEnv ∅ 0 v s.
Definition env_new : Environment := with_limits 1024 (32 * 1024).

Definition set (e : Environment) (key value : string) : result Environment EnvError :=
  if negb (is_valid key) then Err InvalidKey
  else if Z.of_nat (String.length value) >? max_value_size e then Err ValueTooLarge
  else
    match vars e !! key with
    | Some _ => Ok (mkEnv (<[key := value]> (vars e)) (count e) (max_vars e) (max_value_size e))
    | None =>
        if count e >=? max_vars e then Err TooManyVariables
        else Ok (mkEnv (<[key := value]> (vars e)) (count e +w 1) (max_vars e) (max_value_size e))
    end.

Definition defaults : list (string * string) :=
  [("PATH", "/bin:/usr/bin:/usr/local/bin"); ("HOME", "/root"); ("USER", "root"); ("SHELL", "/bin/sh"); ("TERM", "xterm-256color"); ("LANG", "en_US.UTF-8"); ("PWD", "/"); ("HOSTNAME", "exorust")].

Definition set_or_keep (e : Environment) (x : string * string) : Environment := match set e x.1 x.2 with Ok e' => e' | Err _ => e end.
Definition set_defaults (e : Environment) : Environment := foldl set_or_keep e defaults.

Definition get (e : Environment) (key : string) : option string := vars e !! key.

Definition unset (e : Environment) (key : string) : result Environment EnvError :=
  match vars e !! key with
  | Some _ => Ok (mkEnv (delete key (vars e)) (count e -w 1) (max_vars e) (max_value_size e))
  | None => Err NotFound
  end.

Definition all (e : Environment) : list (string * string) := entries (vars e).

Definition to_strings (e : Environment) : list string := (fun x => x.1 +:+ String "=" x.2) <$> entries (vars e).

Definition parse_and_set (e : Environment) (s : string) : result Environment EnvError :=
  match split_once "=" s with
  | Some (k, v) => set e k v
  | None => Err InvalidKey
  end.

Definition clear (e : Environment) : Environment := mkEnv ∅ 0 (max_vars e) (max_value_size e).
Definition clone_from (e other : Environment) : Environment := mkEnv (vars other) (Z.of_nat (base.size (vars other))) (max_vars e) (max_value_size e).

(** The name in braces, to the closing one or the end. *)
Fixpoint take_braced (s : string) : string * string :=
  match s with
  | EmptyString => (EmptyString, EmptyString)
  | String c s' => if Ascii.eqb c "}" then (EmptyString, s') else let '(n, r) := take_braced s' in (String c n, r)
  end.

Fixpoint take_word (s : string) : string * string :=
  match s with
  | EmptyString => (EmptyString, EmptyString)
  | String c s' => if is_word c then let '(n, r) := take_word s' in (String c n, r) else (EmptyString, s)
  end.

Definition variable (s : string) : string * string :=
  match s with
  | String c s' => if Ascii.eqb c "{" then take_braced s' else take_word s
  | EmptyString => take_word s
  end.

Fixpoint expand_loop (fuel : nat) (e : Environment) (s : string) : option string :=
  match s with
  | EmptyString => Some EmptyString
  | String c s' =>
      match fuel with
      | O => None
      | S f =>
          if Ascii.eqb c "$" then
            let '(n, r) := variable s' in
            String.append (default EmptyString (get e n)) <$> expand_loop f e r
          else String c <$> expand_loop f e s'
      end
  end.

Definition expand (e : Environment) (s : string) : option string := expand_loop (String.length s) e s.

End Environ.

(** ** Work queues (work_stealing.rs, waker.rs) *)

Module Stealing.

Section Queues.
Context {Task : Type}.

(** The front is the head of the list. *)
Definition push (q : list Task) (t : Task) : list Task := q ++ [t].
Definition pop (q : list Task) : option (Task * list Task) := match reverse q with t :: r => Some (t, reverse r) | [] => None end.
Definition steal (q : list Task) : option (Task * list Task) := match q with t :: r => Some (t, r) | [] => None end.

(** The statics: the queue all cores share and the queues of the workers. *)
Record statics := mkStatics { GLOBAL_INJECTOR : list Task; WORKER_QUEUES : list (list Task) }.

Definition inject_global (s : statics) (t : Task) : statics := mkStatics (push (GLOBAL_INJECTOR s) t) (WORKER_QUEUES s).
Definition steal_from_global (s : statics) : option Task * statics :=
  match steal (GLOBAL_INJECTOR s) with Some (t, q) => (Some t, mkStatics q (WORKER_QUEUES s)) | None => (None, s) end.
Definition register_worker (s : statics) (q : list Task) : statics := mkStatics (GLOBAL_INJECTOR s) (WORKER_QUEUES s ++ [q]).

(** From the queue with number [i] on. *)
Fixpoint steal_loop (my_index i : nat) (ws : list (list Task)) : option (Task * list (list Task)) :=
  match ws with
  | [] => None
  | w :: ws' =>
      match (if (i =? my_index)%nat then None else steal w) with
      | Some (t, w') => Some (t, w' :: ws')
      | None => match steal_loop my_index (S i) ws' with Some (t, r) => Some (t, w :: r) | None => None end
      end
  end.

Definition steal_from_workers (s : statics) (my_index : nat) : option Task * statics :=
  match steal_loop my_index 0 (WORKER_QUEUES s) with
  | Some (t, ws) => (Some t, mkStatics (GLOBAL_INJECTOR s) ws)
  | None => (None, s)
  end.

End Queues.

(** The wake queue of waker.rs *)
Definition wake_by_ref (q : list Z) (task_id : Z) : list Z := push q task_id.
Definition pop_woken_task (q : list Z) : option (Z * list Z) := steal q.

End Stealing.
