(* ===== verification/ProcessTheorems.v ===== *)
(** * Theorems of signals, processes, environments and work queues

    The mask of a queue has exactly the pending signals, no signal is lost and none
    is delivered while it is blocked; parents and children agree, and a wait takes
    the first child that has ended, once; an environment prints as strings that
    parse to the same environment; work is stolen while there is any. *)

From stdpp Require Import base list gmap strings sorting.
From Stdlib Require Import ZArith Lia Ascii.
From S2P Require Import Prelude OrderedMap Process.

Local Open Scope Z_scope.
Open Scope word_scope.

Module SignalSpec.
Import Signals.

(** ** Masks *)

Lemma land_bit b s : 0 <= s -> negb (Z.land b (Z.shiftl 1 s) =? 0) = Z.testbit b s.
Proof.
  intros Hs. rewrite Z.shiftl_1_l. destruct (Z.testbit b s) eqn:E.
  - apply negb_true_iff, Z.eqb_neq. intros H. assert (Ht : Z.testbit (Z.land b (2 ^ s)) s = true) by (by rewrite Z.land_spec, E, testbit_single, Z.eqb_refl).
    by rewrite H, Z.bits_0 in Ht.
  - apply negb_false_iff, Z.eqb_eq. apply Z.bits_inj. intros i. rewrite Z.bits_0, Z.land_spec, testbit_single by done.
    destruct (Z.eqb_spec i s) as [->|]; [by rewrite E | by rewrite andb_false_r].
Qed.

Lemma mask_add_bits b s i : 0 <= s < 64 -> Z.testbit (mask_add b s) i = Z.testbit b i || (i =? s).
Proof. intros H. unfold mask_add. rewrite (proj2 (Z.ltb_lt s 64)) by lia. by rewrite Z.lor_spec, Z.shiftl_1_l, testbit_single by lia. Qed.

Lemma mask_remove_bits b s i : 0 <= s < 64 -> 0 <= i < 64 -> Z.testbit (mask_remove b s) i = Z.testbit b i && negb (i =? s).
Proof. intros H Hi. unfold mask_remove. rewrite (proj2 (Z.ltb_lt s 64)) by lia. rewrite Z.land_spec, not64_bits, Z.shiftl_1_l, testbit_single by lia. done. Qed.

Lemma mask_contains_bit b s : 0 <= s < 64 -> mask_contains b s = Z.testbit b s.
Proof. intros H. unfold mask_contains. rewrite (proj2 (Z.ltb_lt s 64)) by lia. apply land_bit. lia. Qed.

Lemma bits_u64 b : is_u64 b <-> 0 <= b /\ forall i, 64 <= i -> Z.testbit b i = false.
Proof.
  unfold is_u64. split.
  - intros H. split; [lia|]. intros i Hi. by apply testbit_u64_high.
  - intros [H0 H]. split; [done|]. destruct (Z.eq_dec b 0) as [->|Hne]; [done|]. change u64_modulus with (2 ^ 64).
    apply Z.log2_lt_pow2; [lia|]. destruct (Z.lt_ge_cases (Z.log2 b) 64) as [|Hge]; [done|]. specialize (H (Z.log2 b) Hge).
    by rewrite Z.bit_log2 in H by lia.
Qed.

Lemma mask_add_u64 b s : is_u64 b -> 0 <= s -> is_u64 (mask_add b s).
Proof.
  intros Hb Hs. unfold mask_add. destruct (Z.ltb_spec s 64); [|done]. apply bits_u64 in Hb as [H0 Hb]. apply bits_u64. rewrite Z.shiftl_1_l. split; [apply Z.lor_nonneg; split; [done | apply Z.pow_nonneg; lia]|].
  intros i Hi. rewrite Z.lor_spec, (Hb i Hi), testbit_single by done. by apply Z.eqb_neq; lia.
Qed.

Lemma mask_remove_u64 b s : is_u64 b -> is_u64 (mask_remove b s).
Proof.
  intros Hb. unfold mask_remove. destruct (s <? 64); [|done]. apply bits_u64 in Hb as [H0 Hb]. apply bits_u64. split; [apply Z.land_nonneg; by left|].
  intros i Hi. by rewrite Z.land_spec, (Hb i Hi).
Qed.

Lemma zero_bits b : is_u64 b -> (b = 0 <-> forall i, 0 <= i < 64 -> Z.testbit b i = false).
Proof.
  intros Hb. apply bits_u64 in Hb as [H0 Hb]. split; [intros -> i _; apply Z.bits_0|]. intros H. apply Z.bits_inj. intros i. rewrite Z.bits_0.
  destruct (Z.lt_ge_cases i 0); [by apply Z.testbit_neg_r|]. destruct (Z.lt_ge_cases i 64); [by apply H | by apply Hb].
Qed.

(** ** The queue *)

Lemma has_signal_spec s l : has_signal s l = true <-> exists i, i ∈ l /\ signal i = s.
Proof.
  unfold has_signal. rewrite existsb_exists. split; intros (i & Hi & E); exists i.
  - by apply list_elem_of_In in Hi; apply Z.eqb_eq in E.
  - by apply list_elem_of_In in Hi; apply Z.eqb_eq in E.
Qed.

(** The mask says which signals below 64 are pending. *)
Record queue_ok (q : SignalQueue) : Prop := {
  qo_word : is_u64 (pending_mask q);
  qo_mask : forall s, 0 <= s < 64 -> Z.testbit (pending_mask q) s = has_signal s (pending q);
  qo_signals : Forall (fun i => 0 <= signal i) (pending q);
  qo_size : (length (pending q) <= max_size q)%nat }.

Lemma queue_new_ok : queue_ok queue_new.
Proof. split; cbn; [done | intros s _; by rewrite Z.bits_0 | constructor | lia]. Qed.

Lemma enqueue_ok q i q' : queue_ok q -> 0 <= signal i -> enqueue q i = Ok q' -> queue_ok q' /\ pending q' = pending q ++ [i].
Proof.
  intros [Q1 Q2 Q3 Q4] Hi. unfold enqueue. destruct (Nat.leb_spec (max_size q) (length (pending q))); [done|]. intros E. injection E as <-. cbn [pending]. split; [|done].
  assert (Hh : forall s, has_signal s (pending q ++ [i]) = has_signal s (pending q) || (signal i =? s)) by (intros s; unfold has_signal; rewrite existsb_app; cbn; by rewrite orb_false_r).
  split; cbn [pending pending_mask max_size].
  - by apply mask_add_u64.
  - intros s Hs. rewrite Hh, <- (Q2 s Hs). destruct (Z.lt_ge_cases (signal i) 64).
    + rewrite mask_add_bits by lia. by rewrite (Z.eqb_sym s).
    + unfold mask_add. rewrite (proj2 (Z.ltb_ge _ _)), (proj2 (Z.eqb_neq (signal i) s)) by lia. by rewrite orb_false_r.
  - apply Forall_app. split; [done | by constructor].
  - rewrite length_app. cbn. lia.
Qed.

(** What is taken is the first signal the mask lets through. *)
Lemma take_unmasked_Some m l i r : take_unmasked m l = Some (i, r) <->
  exists l1 l2, l = l1 ++ i :: l2 /\ r = l1 ++ l2 /\ mask_contains m (signal i) = false /\ Forall (fun x => mask_contains m (signal x) = true) l1.
Proof.
  revert i r. induction l as [|x l IH]; intros i r; cbn [take_unmasked].
  - split; [done|]. intros (l1 & l2 & E & _). by destruct l1.
  - destruct (mask_contains m (signal x)) eqn:Ex; cbn [negb].
    + split.
      * destruct (take_unmasked m l) as [[y r']|]; [|done]. intros E. injection E as -> <-. destruct (proj1 (IH i r') eq_refl) as (l1 & l2 & -> & -> & Hi & Hl).
        exists (x :: l1), l2. split; [done|]. split; [done|]. split; [done | by constructor].
      * intros (l1 & l2 & E & -> & Hi & Hl). destruct l1 as [|y l1]; [injection E as -> ->; congruence|]. injection E as -> ->.
        apply Forall_cons in Hl as [_ Hl]. rewrite (proj2 (IH i (l1 ++ l2))); [done|]. by exists l1, l2.
    + split.
      * intros E. injection E as -> ->. by exists [], r.
      * intros (l1 & l2 & E & -> & Hi & Hl). destruct l1 as [|y l1]; [by injection E as -> ->|]. injection E as -> ->. apply Forall_cons in Hl as [Hy _]. congruence.
Qed.

Lemma take_unmasked_None m l : take_unmasked m l = None <-> Forall (fun x => mask_contains m (signal x) = true) l.
Proof.
  induction l as [|x l IH]; cbn [take_unmasked]; [done|]. rewrite Forall_cons. destruct (mask_contains m (signal x)); cbn [negb]; [|by split; [|intros [? _]]].
  destruct (take_unmasked m l) as [[y r]|]; [|by rewrite <- IH]. split; [done|]. intros [_ H]. by apply IH in H.
Qed.

Lemma dequeue_ok q m i q' : queue_ok q -> dequeue q m = Some (i, q') ->
  queue_ok q' /\ exists l1 l2, pending q = l1 ++ i :: l2 /\ pending q' = l1 ++ l2 /\ mask_contains m (signal i) = false /\ Forall (fun x => mask_contains m (signal x) = true) l1.
Proof.
  intros [Q1 Q2 Q3 Q4]. unfold dequeue. destruct (take_unmasked m (pending q)) as [[x r]|] eqn:E; [|done]. intros H. injection H as -> <-. cbn [pending].
  pose proof (proj1 (take_unmasked_Some m (pending q) i r) E) as (l1 & l2 & El & Er & Hi & Hl). split; [|by exists l1, l2].
  assert (Hpos : 0 <= signal i) by (rewrite El in Q3; apply Forall_app in Q3 as [_ Q3]; by apply Forall_cons in Q3 as [? _]).
  assert (Hh : forall s, has_signal s (pending q) = has_signal s r || (signal i =? s)).
  { intros s. rewrite El, Er. unfold has_signal. rewrite !existsb_app. cbn. destruct (existsb _ l1), (existsb _ l2), (signal i =? s); done. }
  split; cbn [pending pending_mask max_size].
  - destruct (negb _); [by apply mask_remove_u64 | done].
  - intros s Hs. destruct (has_signal (signal i) r) eqn:Hr; cbn [negb].
    + rewrite (Q2 s Hs), Hh. destruct (Z.eqb_spec (signal i) s) as [<-|]; [by rewrite Hr | by rewrite orb_false_r].
    + destruct (Z.lt_ge_cases (signal i) 64) as [Hlt|Hge].
      * rewrite mask_remove_bits by lia. rewrite (Q2 s Hs), Hh, (Z.eqb_sym s). destruct (Z.eqb_spec (signal i) s) as [<-|]; cbn; [by rewrite andb_false_r, Hr | by rewrite orb_false_r, andb_true_r].
      * unfold mask_remove. rewrite (proj2 (Z.ltb_ge _ _)) by lia. rewrite (Q2 s Hs), Hh, (proj2 (Z.eqb_neq (signal i) s)) by lia. by rewrite orb_false_r.
  - rewrite Er. rewrite El in Q3. apply Forall_app in Q3 as [? Q3]. apply Forall_cons in Q3 as [_ ?]. by apply Forall_app.
  - rewrite El in Q4. rewrite Er. rewrite !length_app in *. cbn in Q4. lia.
Qed.

Lemma is_pending_spec q s : queue_ok q -> 0 <= s -> is_pending q s = has_signal s (pending q).
Proof.
  intros [_ Q2 _ _] Hs. unfold is_pending. destruct (Z.ltb_spec s 64); [|done]. rewrite land_bit by done. apply Q2. lia.
Qed.

Lemma has_pending_spec q : queue_ok q -> has_pending q = true <-> exists i, i ∈ pending q /\ signal i < 64.
Proof.
  intros [Q1 Q2 Q3 Q4]. unfold has_pending. rewrite negb_true_iff, Z.eqb_neq. rewrite Forall_forall in Q3. split.
  - intros Hne. destruct (decide (Exists (fun i => signal i < 64) (pending q))) as [He|He]; [by apply Exists_exists in He|]. exfalso. apply Hne.
    apply (zero_bits _ Q1). intros s Hs. rewrite (Q2 s Hs). destruct (has_signal s (pending q)) eqn:E; [|done]. exfalso. apply He.
    apply has_signal_spec in E as (i & Hi & <-). apply Exists_exists. exists i. split; [done | lia].
  - intros (i & Hi & Hlt) E. assert (Hb : Z.testbit (pending_mask q) (signal i) = true).
    { rewrite Q2 by (pose proof (Q3 i Hi); lia). apply has_signal_spec. by exists i. }
    by rewrite E, Z.bits_0 in Hb.
Qed.

(** ** Contexts *)

Inductive ctx_op :=
| SSend (i : SignalInfo) | SProcess | SPoll (w : Z) | SBlock (s : Z) | SUnblock (s : Z) | SSetBlocked (m : Z) | SAction (s : Z) (a : SignalAction) (h : option Z).

(** The signals accepted, those delivered with the mask of that moment, and the
    context. *)
Definition ctx_step (c : SignalContext) (o : ctx_op) : list SignalInfo * list (Z * SignalInfo) * SignalContext :=
  match o with
  | SSend i => match send c i with (Ok _, _, c') => ([i], [], c') | (Err _, _, c') => ([], [], c') end
  | SProcess => match process c with (Some p, c') => ([], [(blocked c, ps_info p)], c') | (None, c') => ([], [], c') end
  | SPoll w => match poll c w with (Some i, c') => ([], [(blocked c, i)], c') | (None, c') => ([], [], c') end
  | SBlock s => ([], [], block c s)
  | SUnblock s => ([], [], unblock c s)
  | SSetBlocked m => ([], [], set_blocked c m)
  | SAction s a h => ([], [], match set_action c s a h with Ok c' => c' | Err _ => c end)
  end.

Fixpoint ctx_run (c : SignalContext) (l : list ctx_op) : list SignalInfo * list (Z * SignalInfo) * SignalContext :=
  match l with
  | [] => ([], [], c)
  | o :: l' => let '(a, d, c1) := ctx_step c o in let '(a', d', c2) := ctx_run c1 l' in (a ++ a', d ++ d', c2)
  end.

Definition op_signal (o : ctx_op) : Prop := match o with SSend i => 0 <= signal i | _ => True end.

(** The action of a signal that cannot be caught is its default. *)
Definition uncatchable_ok (c : SignalContext) : Prop := forall s x, is_uncatchable s = true -> configs c !! s = Some x -> action x = Default.

Lemma dequeue_step c i q : queue_ok (queue c) -> dequeue (queue c) (blocked c) = Some (i, q) ->
  queue_ok q /\ pending (queue c) ≡ₚ i :: pending q /\ mask_contains (blocked c) (signal i) = false.
Proof.
  intros Hq E. destruct (dequeue_ok _ _ _ _ Hq E) as (Hq' & l1 & l2 & -> & -> & Hi & _). split; [done|]. split; [|done]. by rewrite <- Permutation_middle.
Qed.

Lemma ctx_step_ok c o a d c' : queue_ok (queue c) -> uncatchable_ok c -> op_signal o -> ctx_step c o = (a, d, c') ->
  queue_ok (queue c') /\ uncatchable_ok c' /\ a ++ pending (queue c) ≡ₚ d.*2 ++ pending (queue c') /\ Forall (fun x => mask_contains x.1 (signal x.2) = false) d.
Proof.
  intros Hq Hu Ho. destruct o; cbn [ctx_step op_signal] in *.
  - unfold send. destruct (enqueue (queue c) i) as [q|e] eqn:E; intros H; injection H as <- <- <-.
    + destruct (enqueue_ok _ _ _ Hq Ho E) as [Hq' Hp]. split; [done|]. split; [done|]. split; [|done]. cbn. rewrite Hp. by rewrite Permutation_app_comm.
    + done.
  - unfold process. destruct (dequeue (queue c) (blocked c)) as [[i q]|] eqn:E; intros H; injection H as <- <- <-; [|done].
    destruct (dequeue_step c i q Hq E) as (Hq' & Hp & Hm). split; [done|]. split; [done|]. split; [done | by constructor].
  - unfold poll, poll_dequeue. destruct (dequeue (queue c) (blocked c)) as [[i q]|] eqn:E; intros H; injection H as <- <- <-; [|done].
    destruct (dequeue_step c i q Hq E) as (Hq' & Hp & Hm). split; [done|]. split; [done|]. split; [done | by constructor].
  - intros H. by injection H as <- <- <-.
  - intros H. by injection H as <- <- <-.
  - intros H. by injection H as <- <- <-.
  - intros H. injection H as <- <- <-. unfold set_action. destruct (is_uncatchable s && negb (bool_decide (a0 = Default))) eqn:E; [done|].
    split; [done|]. split; [|done]. intros s' x Hs'. cbn. rewrite lookup_insert. destruct (decide (s = s')) as [<-|]; [|by apply Hu]. intros Ex. injection Ex as <-. cbn.
    rewrite Hs' in E. cbn in E. by apply negb_false_iff, bool_decide_eq_true in E.
Qed.

Lemma ctx_run_ok l c a d c' : queue_ok (queue c) -> uncatchable_ok c -> Forall op_signal l -> ctx_run c l = (a, d, c') ->
  queue_ok (queue c') /\ uncatchable_ok c' /\ a ++ pending (queue c) ≡ₚ d.*2 ++ pending (queue c') /\ Forall (fun x => mask_contains x.1 (signal x.2) = false) d.
Proof.
  revert c a d. induction l as [|o l IH]; intros c a d Hq Hu Hl E; cbn [ctx_run] in E; [by injection E as <- <- <-|]. apply Forall_cons in Hl as [Ho Hl].
  destruct (ctx_step c o) as [[a1 d1] c1] eqn:E1. destruct (ctx_run c1 l) as [[a2 d2] c2] eqn:E2. injection E as <- <- <-.
  destruct (ctx_step_ok c o a1 d1 c1 Hq Hu Ho E1) as (Hq1 & Hu1 & Hp1 & Hm1). destruct (IH c1 a2 d2 Hq1 Hu1 Hl E2) as (Hq2 & Hu2 & Hp2 & Hm2).
  split; [done|]. split; [done|]. split; [|by apply Forall_app]. rewrite fmap_app, <- !app_assoc, <- Hp2. rewrite (Permutation_app_comm a2), app_assoc, Hp1.
  rewrite <- app_assoc. apply Permutation_app_head, Permutation_app_comm.
Qed.

(** C34: over any sequence of sends, polls and changes of masks and actions, the
    signals accepted are exactly those delivered and those still pending, none is
    delivered while it is blocked, the pending mask has exactly the pending signals
    below 64, and the actions of signals that cannot be caught stay the default. *)
Theorem signals_conserved l a d c' :
  Forall op_signal l -> ctx_run context_new l = (a, d, c') ->
  a ≡ₚ d.*2 ++ pending (queue c') /\ Forall (fun x => mask_contains x.1 (signal x.2) = false) d /\
  (forall s, 0 <= s -> is_pending (queue c') s = has_signal s (pending (queue c'))) /\
  (has_pending (queue c') = true <-> exists i, i ∈ pending (queue c') /\ signal i < 64) /\
  (forall s, is_uncatchable s = true -> get_action c' s = Default \/ get_action c' s = default_for s).
Proof.
  intros Hl E. destruct (ctx_run_ok l context_new a d c' queue_new_ok) as (Hq & Hu & Hp & Hm); [by intros s x _; cbn; rewrite lookup_empty | done | done |].
  cbn in Hp. rewrite app_nil_r in Hp. split; [done|]. split; [done|]. split; [intros s Hs; by apply is_pending_spec|]. split; [by apply has_pending_spec|].
  intros s Hs. unfold get_action. destruct (configs c' !! s) as [x|] eqn:Ex; [left; by apply (Hu s x) | by right].
Qed.

Definition sig (s : Z) : SignalInfo := mkInfo s None NoData 0.

Lemma signals_conserved_witness : let r := ctx_run context_new [SSend (sig 15); SSend (sig 10); SBlock 15; SProcess; SAction 9 Handle None; SPoll 3] in
  r.1.1 ≡ₚ r.1.2.*2 ++ pending (queue r.2).
Proof.
  destruct (ctx_run context_new [SSend (sig 15); SSend (sig 10); SBlock 15; SProcess; SAction 9 Handle None; SPoll 3]) as [[a d] c'] eqn:E.
  apply (signals_conserved [SSend (sig 15); SSend (sig 10); SBlock 15; SProcess; SAction 9 Handle None; SPoll 3] a d c'); [|exact E].
  repeat constructor; cbn; lia.
Defined.

(** ** Waiting *)

Definition deliverable (c : SignalContext) : Prop := exists i, i ∈ pending (queue c) /\ mask_contains (blocked c) (signal i) = false.

(** Whoever waits, waits for a reason. *)
Definition waiting_ok (c : SignalContext) : Prop := wakers c <> [] -> ~ deliverable c.

Definition no_unblock (o : ctx_op) : Prop := match o with SUnblock _ | SSetBlocked _ => False | _ => True end.

Lemma dequeue_None_deliverable c : dequeue (queue c) (blocked c) = None <-> ~ deliverable c.
Proof.
  unfold dequeue, deliverable. destruct (take_unmasked (blocked c) (pending (queue c))) as [[i r]|] eqn:E.
  - split; [done|]. intros Hn. exfalso. apply Hn. apply take_unmasked_Some in E as (l1 & l2 & -> & _ & Hi & _). exists i. split; [|done].
    apply elem_of_app. right. apply list_elem_of_here.
  - split; [|done]. intros _ (i & Hi & Hm). apply take_unmasked_None in E. rewrite Forall_forall in E. specialize (E i Hi). congruence.
Qed.

Lemma mask_add_contains b s t : 0 <= t -> 0 <= s -> mask_contains b t = true -> mask_contains (mask_add b s) t = true.
Proof.
  intros Ht Hs. unfold mask_contains. destruct (Z.ltb_spec t 64); [|done]. rewrite !land_bit by done. intros Hb. destruct (Z.lt_ge_cases s 64).
  - rewrite mask_add_bits by lia. by rewrite Hb.
  - unfold mask_add. by rewrite (proj2 (Z.ltb_ge _ _)) by lia.
Qed.

Lemma waiting_step c o : queue_ok (queue c) -> op_signal o -> no_unblock o -> (match o with SBlock s => 0 <= s | _ => True end) -> waiting_ok c -> waiting_ok (ctx_step c o).2.
Proof.
  intros Hq Ho Hn Hb Hw. destruct o; cbn [ctx_step no_unblock] in *; try done.
  - unfold send. destruct (enqueue (queue c) i) as [q|e]; cbn [snd]; [|exact Hw]. intros H. by cbn in H.
  - unfold process. destruct (dequeue (queue c) (blocked c)) as [[i q]|] eqn:E; cbn [snd]; [|done]. intros H. exfalso. apply Hw in H. by apply dequeue_None_deliverable in H; rewrite H in E.
  - unfold poll, poll_dequeue. destruct (dequeue (queue c) (blocked c)) as [[i q]|] eqn:E; cbn [snd].
    + intros H. exfalso. apply Hw in H. by apply dequeue_None_deliverable in H; rewrite H in E.
    + intros _. apply dequeue_None_deliverable. exact E.
  - intros H (i & Hi & Hm). apply (Hw H). exists i. split; [done|]. cbn in Hm. destruct (mask_contains (blocked c) (signal i)) eqn:E; [|done].
    assert (Hpos : 0 <= signal i) by (pose proof (qo_signals _ Hq) as Q; rewrite Forall_forall in Q; by apply Q). by rewrite (mask_add_contains _ _ _ Hpos Hb E) in Hm.
  - unfold set_action. destruct (_ && _); cbn [snd]; exact Hw.
Qed.

Lemma waiting_run l c : queue_ok (queue c) -> uncatchable_ok c -> waiting_ok c ->
  Forall (fun o => op_signal o /\ no_unblock o /\ match o with SBlock s => 0 <= s | _ => True end) l -> waiting_ok (ctx_run c l).2.
Proof.
  revert c. induction l as [|o l IH]; intros c Hq Hu Hw Hl; cbn [ctx_run]; [done|]. apply Forall_cons in Hl as [(Ho & Hn & Hb) Hl].
  destruct (ctx_step c o) as [[a1 d1] c1] eqn:E1. destruct (ctx_step_ok c o a1 d1 c1 Hq Hu Ho E1) as (Hq1 & Hu1 & _).
  pose proof (waiting_step c o Hq Ho Hn Hb Hw) as Hw1. rewrite E1 in Hw1. cbn [snd] in Hw1. specialize (IH c1 Hq1 Hu1 Hw1 Hl).
  by destruct (ctx_run c1 l) as [[a2 d2] c2].
Qed.

(** as long as nothing is unblocked and polls are not interrupted, nobody waits
    while a signal could be delivered. *)
Theorem no_waiter_forgotten l :
  Forall (fun o => op_signal o /\ no_unblock o /\ match o with SBlock s => 0 <= s | _ => True end) l ->
  wakers (ctx_run context_new l).2 <> [] -> ~ deliverable (ctx_run context_new l).2.
Proof. intros Hl. apply (waiting_run l context_new queue_new_ok); [by intros s x _; cbn; rewrite lookup_empty | by intros H | done]. Qed.

Lemma no_waiter_forgotten_witness : ~ deliverable (ctx_run context_new [SBlock 15; SPoll 3; SSend (sig 15); SPoll 3]).2.
Proof. apply no_waiter_forgotten; [repeat constructor; cbn; lia | vm_compute; discriminate]. Defined.

(** Unblocking a pending signal wakes nobody. *)
Lemma unblock_wakes_nobody : let c := unblock (ctx_run context_new [SBlock 15; SSend (sig 15); SPoll 3]).2 15 in wakers c = [3] /\ is_Some (dequeue (queue c) (blocked c)).
Proof. vm_compute. eauto. Qed.

(** A signal sent between the two halves of a poll wakes nobody. *)
Lemma poll_loses_signal : let c := poll_register (send (poll_dequeue context_new).2 (sig 15)).2 3 in
  (poll_dequeue context_new).1 = None /\ (send (poll_dequeue context_new).2 (sig 15)).1 = (Ok tt, []) /\ wakers c = [3] /\ is_Some (dequeue (queue c) (blocked c)).
Proof. vm_compute. eauto. Qed.

(** The kernel's own signals, from 64 on, are not seen by [has_pending] and cannot be
    blocked; SIGKILL can. *)
Lemma signal_64_not_pending : let c := (ctx_run context_new [SSend (sig SIGWAKE)]).2 in has_pending (queue c) = false /\ is_Some (dequeue (queue c) u64_max).
Proof. vm_compute. eauto. Qed.

Lemma sigkill_can_be_blocked : fst (process (block (send context_new (sig SIGKILL)).2 SIGKILL)) = None.
Proof. vm_compute. reflexivity. Qed.

(** After an action was set back to the default, the action is [Default], not what
    the default is. *)
Lemma sigdefault_action : match set_action context_new SIGTERM Default None with Ok c => get_action c SIGTERM = Default /\ default_for SIGTERM = Terminate | Err _ => False end.
Proof. vm_compute. auto. Qed.

End SignalSpec.

Module ProcSpec.
Import Procs.

(** ** Parents and children *)

Record tree_ok (m : ProcessManager) : Prop := {
  tr_next : 2 <= next_pid m;
  tr_pid : forall i p, processes m !! i = Some p -> pid p = i /\ 2 <= i < next_pid m;
  tr_nodup : forall i p, processes m !! i = Some p -> NoDup (children p);
  tr_down : forall i p c, processes m !! i = Some p -> c ∈ children p -> exists q, processes m !! c = Some q /\ ppid q = i;
  tr_up : forall i p c q, processes m !! i = Some p -> processes m !! c = Some q -> ppid q = i -> i <= c -> c ∈ children p }.

Lemma manager_new_tree : tree_ok manager_new.
Proof. split; cbn; [lia|..]; intros; by rewrite lookup_empty in *. Qed.

(** A process changes in what the tree does not depend on. *)
Lemma update_tree m i f a b : tree_ok m -> (forall p, pid (f p) = pid p /\ ppid (f p) = ppid p /\ children (f p) = children p) ->
  tree_ok (mkManager (alter f i (processes m)) (next_pid m) (next_tid m) a b).
Proof.
  intros [T1 T2 T3 T4 T5] Hf. assert (Hl : forall j x, alter f i (processes m) !! j = Some x -> exists p, processes m !! j = Some p /\ pid x = pid p /\ ppid x = ppid p /\ children x = children p).
  { intros j x. rewrite lookup_alter. destruct (decide (i = j)) as [<-|]; [|intros E; by exists x]. destruct (processes m !! i) as [p|]; [|done].
    cbn. intros E. injection E as <-. exists p. destruct (Hf p) as (? & ? & ?). done. }
  assert (Hs : forall j p, processes m !! j = Some p -> exists x, alter f i (processes m) !! j = Some x /\ ppid x = ppid p).
  { intros j p Hp. rewrite lookup_alter. destruct (decide (i = j)) as [<-|]; [|by exists p]. rewrite Hp. exists (f p). split; [done | apply Hf]. }
  split; cbn [processes next_pid]; [done|..].
  - intros j x Hx. destruct (Hl j x Hx) as (p & Hp & -> & _). by apply T2.
  - intros j x Hx. destruct (Hl j x Hx) as (p & Hp & _ & _ & ->). by apply (T3 j).
  - intros j x c Hx. destruct (Hl j x Hx) as (p & Hp & _ & _ & ->). intros Hc. destruct (T4 j p c Hp Hc) as (q & Hq & Hqp). destruct (Hs c q Hq) as (y & Hy & Hyp). exists y. split; [done | congruence].
  - intros j x c y Hx Hy. destruct (Hl j x Hx) as (p & Hp & _ & _ & ->). destruct (Hl c y Hy) as (q & Hq & _ & -> & _). by apply (T5 j p c q).
Qed.

Lemma create_lookup m parent n j : processes (create m parent n).2 !! j =
  if decide (j = next_pid m) then Some (if negb (parent =? KERNEL) && (parent =? next_pid m) then add_child (process_new (next_pid m) parent n) (next_pid m) else process_new (next_pid m) parent n)
  else if negb (parent =? KERNEL) && (parent =? j) then (fun p => add_child p (next_pid m)) <$> processes m !! j else processes m !! j.
Proof.
  unfold create. destruct (Z.eqb_spec parent KERNEL) as [->|Hk]; cbn [negb andb snd processes update].
  - rewrite lookup_insert. destruct (decide (next_pid m = j)) as [<-|Hne]; [by rewrite decide_True | by rewrite decide_False].
  - rewrite lookup_alter. destruct (decide (parent = j)) as [<-|Hne].
    + rewrite Z.eqb_refl, lookup_insert. destruct (decide (next_pid m = parent)) as [<-|]; [by rewrite decide_True, Z.eqb_refl | by rewrite decide_False].
    + rewrite (proj2 (Z.eqb_neq parent j)) by done. rewrite lookup_insert. destruct (decide (next_pid m = j)) as [->|]; [|by rewrite decide_False].
      rewrite decide_True, (proj2 (Z.eqb_neq parent j)) by done. done.
Qed.

(** What is at a number after a creation, and what its children are. *)
Lemma create_shape m parent n j x : 2 <= next_pid m -> (forall i p, processes m !! i = Some p -> pid p = i /\ 2 <= i < next_pid m) -> let k := next_pid m in
  processes (create m parent n).2 !! j = Some x ->
    (j = k /\ pid x = k /\ ppid x = parent /\ (children x = [] \/ children x = [k] /\ parent = k) /\ (parent = k -> k ∈ children x)) \/
    (j <> k /\ exists p, processes m !! j = Some p /\ pid x = pid p /\ ppid x = ppid p /\ (children x = children p /\ parent <> j \/ children x = children p ++ [k] /\ parent = j)).
Proof.
  intros T1 T2 k. rewrite create_lookup. fold k. destruct (decide (j = k)) as [->|Hj].
  - intros E. injection E as <-. left. destruct (Z.eqb_spec parent k) as [Ek|Hk].
    + assert (Hk0 : (parent =? KERNEL) = false) by (apply Z.eqb_neq; unfold KERNEL; lia). rewrite Hk0. cbn. split; [done|]. split; [done|]. split; [done|]. split; [by right | intros _; apply list_elem_of_here].
    + rewrite andb_false_r. cbn. split; [done|]. split; [done|]. split; [done|]. split; [by left | done].
  - intros E. right. split; [done|]. destruct (Z.eqb_spec parent j) as [->|Hpj].
    + destruct (processes m !! j) as [p|] eqn:Ep; [|by destruct (negb _ && _)]. assert (Hk0 : (j =? KERNEL) = false) by (apply T2 in Ep; apply Z.eqb_neq; unfold KERNEL; lia).
      rewrite Hk0 in E. cbn in E. injection E as <-. exists p. split; [done|]. split; [done|]. split; [done|]. by right.
    + rewrite andb_false_r in E. exists x. split; [done|]. split; [done|]. split; [done|]. by left.
Qed.

Lemma create_tree m parent n : tree_ok m -> next_pid m + 1 < u64_modulus -> tree_ok (create m parent n).2.
Proof.
  intros [T1 T2 T3 T4 T5] Hn. set (k := next_pid m) in *. assert (Hnone : processes m !! k = None).
  { destruct (processes m !! k) as [p|] eqn:E; [|done]. apply T2 in E. lia. }
  assert (Enext : next_pid (create m parent n).2 = k + 1).
  { unfold create. destruct (negb _); cbn; apply wrap64_small; unfold is_u64, k in *; lia. }
  pose proof (fun j x => create_shape m parent n j x T1 T2) as Hl. fold k in Hl.
  assert (Hs : forall j p, processes m !! j = Some p -> exists x, processes (create m parent n).2 !! j = Some x /\ ppid x = ppid p).
  { intros j p Hp. rewrite create_lookup. fold k. rewrite decide_False by congruence. rewrite Hp. destruct (negb _ && _); eexists; split; done. }
  assert (Hk : exists x, processes (create m parent n).2 !! k = Some x /\ ppid x = parent) by (rewrite create_lookup; fold k; rewrite decide_True by done; destruct (negb _ && _); eexists; split; done).
  split; rewrite ?Enext; [lia|..].
  - intros j x Hx. destruct (Hl j x Hx) as [(-> & ? & _)|(_ & p & Hp & -> & _)]; [lia|]. apply T2 in Hp. lia.
  - intros j x Hx. destruct (Hl j x Hx) as [(_ & _ & _ & [->|[-> _]] & _)|(Hj & p & Hp & _ & _ & [[-> _]|[-> _]])].
    + constructor.
    + apply NoDup_singleton.
    + by apply (T3 j).
    + apply NoDup_app. split; [by apply (T3 j)|]. split; [|apply NoDup_singleton]. intros c Hc Hck. apply list_elem_of_singleton in Hck. subst c.
      destruct (T4 j p k Hp Hc) as (q & Hq & _). congruence.
  - intros j x c Hx Hc. destruct (Hl j x Hx) as [(-> & _ & Hpp & [E|[E Hpar]] & _)|(Hj & p & Hp & _ & _ & [[E _]|[E ->]])]; rewrite E in Hc.
    + by apply elem_of_nil in Hc.
    + apply list_elem_of_singleton in Hc. subst c. destruct Hk as (y & Hy & Hyp). exists y. split; [done | congruence].
    + destruct (T4 j p c Hp Hc) as (q & Hq & Hqp). destruct (Hs c q Hq) as (y & Hy & Hyp). exists y. split; [done | congruence].
    + apply elem_of_app in Hc as [Hc|Hc].
      * destruct (T4 j p c Hp Hc) as (q & Hq & Hqp). destruct (Hs c q Hq) as (y & Hy & Hyp). exists y. split; [done | congruence].
      * apply list_elem_of_singleton in Hc. subst c. exact Hk.
  - intros j x c y Hx Hy Hyp Hle. destruct (Hl c y Hy) as [(-> & _ & Hpp & _ & Hself)|(Hc & q & Hq & _ & Hqp & _)].
    + destruct (Hl j x Hx) as [(-> & _ & _ & _ & Hs2)|(Hj & p & Hp & _ & _ & [[_ Hne]|[-> _]])]; [apply Hs2; congruence | congruence |].
      apply elem_of_app. right. apply list_elem_of_here.
    + destruct (Hl j x Hx) as [(-> & _)|(Hj & p & Hp & _ & _ & [[-> _]|[-> _]])].
      * apply T2 in Hq. lia.
      * apply (T5 j p c q); congruence.
      * apply elem_of_app. left. apply (T5 j p c q); congruence.
Qed.

(** ** Waiting *)

Definition wanted (target : option Z) (c : Z) : Prop := match target with Some t => t = c | None => True end.

Lemma wanted_spec target c : bool_decide (is_Some target) && negb (bool_decide (target = Some c)) = false <-> wanted target c.
Proof.
  destruct target as [t|]; cbn [wanted].
  - rewrite (bool_decide_eq_true_2 (is_Some (Some t))) by (by eexists). cbn. rewrite negb_false_iff, bool_decide_eq_true. split; [by intros [= ->] | by intros ->].
  - rewrite (bool_decide_eq_false_2 (is_Some None)) by (by intros [? ?]). by split.
Qed.

Lemma wait_loop_spec m target l :
  match wait_loop m target l with
  | Some (c, code) => exists l1 l2, l = l1 ++ c :: l2 /\ wanted target c /\ ended m c = Some code /\ Forall (fun x => wanted target x -> ended m x = None) l1
  | None => Forall (fun x => wanted target x -> ended m x = None) l
  end.
Proof.
  induction l as [|x l IH]; cbn [wait_loop]; [constructor|]. destruct (bool_decide (is_Some target) && _) eqn:Ew.
  - assert (Hn : ~ wanted target x) by (rewrite <- wanted_spec; congruence). destruct (wait_loop m target l) as [[c code]|].
    + destruct IH as (l1 & l2 & -> & ? & ? & ?). exists (x :: l1), l2. split; [done|]. split; [done|]. split; [done|]. by constructor.
    + by constructor.
  - apply wanted_spec in Ew. destruct (ended m x) as [code|] eqn:Ee.
    + exists [], l. split; [done|]. split; [done|]. split; [done | constructor].
    + destruct (wait_loop m target l) as [[c code]|]; [|by constructor]. destruct IH as (l1 & l2 & -> & ? & ? & ?). exists (x :: l1), l2.
      split; [done|]. split; [done|]. split; [done|]. by constructor.
Qed.

Lemma wait_spec m parent target p : tree_ok m -> processes m !! parent = Some p ->
  match wait m parent target with
  | (Ok (c, code), m') => exists l1 l2, children p = l1 ++ c :: l2 /\ wanted target c /\ ended m c = Some code /\ Forall (fun x => wanted target x -> ended m x = None) l1 /\
      m' = mkManager (alter (fun p => remove_child p c) parent (delete c (processes m))) (next_pid m) (next_tid m) (total_created m) (total_exited m)
  | (Err e, m') => e = NoChild /\ m' = m /\ Forall (fun x => wanted target x -> ended m x = None) (children p)
  end.
Proof.
  intros T Hp. unfold wait. rewrite Hp. destruct (bool_decide (children p = [])) eqn:E0.
  { apply bool_decide_eq_true in E0. rewrite E0. done. }
  destruct (match target with Some t => negb (bool_decide (t ∈ children p)) | None => false end) eqn:Et.
  { destruct target as [t|]; [|done]. apply negb_true_iff, bool_decide_eq_false in Et. split; [done|]. split; [done|]. apply Forall_forall. intros x Hx Hw. cbn in Hw. by subst x. }
  pose proof (wait_loop_spec m target (children p)) as Hw. destruct (wait_loop m target (children p)) as [[c code]|]; [|done].
  destruct Hw as (l1 & l2 & El & Hc & He & Hf). unfold reap. unfold ended in He. destruct (processes m !! c) as [q|] eqn:Eq; [|done].
  exists l1, l2. split; [done|]. split; [done|]. split; [by unfold ended; rewrite Eq|]. split; [done|]. done.
Qed.

Lemma collect_tree m parent p c a b : tree_ok m -> processes m !! parent = Some p -> c ∈ children p ->
  tree_ok (mkManager (alter (fun p => remove_child p c) parent (delete c (processes m))) (next_pid m) (next_tid m) a b).
Proof.
  intros [T1 T2 T3 T4 T5] Hp Hc. destruct (T4 parent p c Hp Hc) as (qc & Hqc & Hqp).
  assert (Hl : forall j x, alter (fun p => remove_child p c) parent (delete c (processes m)) !! j = Some x ->
    j <> c /\ exists y, processes m !! j = Some y /\ pid x = pid y /\ ppid x = ppid y /\ children x = if decide (j = parent) then filter (fun z => z <> c) (children y) else children y).
  { intros j x. rewrite lookup_alter. destruct (decide (parent = j)) as [<-|Hj].
    - rewrite lookup_delete. destruct (decide (c = parent)); [done|]. rewrite Hp. cbn. intros E. injection E as <-. split; [done|]. exists p. rewrite decide_True by done. done.
    - intros E. apply lookup_delete_Some in E as [Hne E]. split; [done|]. exists x. rewrite decide_False by done. done. }
  assert (Hs : forall j y, processes m !! j = Some y -> j <> c -> exists x, alter (fun p => remove_child p c) parent (delete c (processes m)) !! j = Some x /\ ppid x = ppid y).
  { intros j y Hy Hne. rewrite lookup_alter. destruct (decide (parent = j)) as [->|]; rewrite lookup_delete_ne, Hy by done; eexists; split; done. }
  split; cbn [processes next_pid]; [done|..].
  - intros j x Hx. destruct (Hl j x Hx) as (_ & y & Hy & -> & _). by apply T2.
  - intros j x Hx. destruct (Hl j x Hx) as (_ & y & Hy & _ & _ & ->). pose proof (T3 j y Hy). destruct (decide (j = parent)); [by apply NoDup_filter | done].
  - intros j x d Hx Hd. destruct (Hl j x Hx) as (_ & y & Hy & _ & _ & Ec). rewrite Ec in Hd. assert (Hd' : d ∈ children y /\ d <> c).
    { destruct (decide (j = parent)) as [->|Hj]; [by apply list_elem_of_filter in Hd as [? ?]|]. split; [done|]. intros ->. destruct (T4 j y c Hy Hd) as (q & Hq & E). congruence. }
    destruct Hd' as [Hd1 Hd2]. destruct (T4 j y d Hy Hd1) as (q & Hq & E). destruct (Hs d q Hq Hd2) as (x' & Hx' & E'). exists x'. split; [done | congruence].
  - intros j x d z Hx Hz Hpz Hle. destruct (Hl j x Hx) as (_ & y & Hy & _ & _ & ->). destruct (Hl d z Hz) as (Hdc & w & Hw & _ & Ew & _).
    assert (Hin : d ∈ children y) by (apply (T5 j y d w); congruence). destruct (decide (j = parent)); [by apply list_elem_of_filter | done].
Qed.

Lemma wait_tree m parent target : tree_ok m -> tree_ok (wait m parent target).2.
Proof.
  intros T. destruct (processes m !! parent) as [p|] eqn:Hp; [|unfold wait; by rewrite Hp]. pose proof (wait_spec m parent target p T Hp) as H.
  destruct (wait m parent target) as [[[c code]|e] m']; cbn [snd].
  - destruct H as (l1 & l2 & El & _ & _ & _ & ->). apply (collect_tree m parent p); [done | done | rewrite El; apply elem_of_app; right; apply list_elem_of_here].
  - by destruct H as (_ & -> & _).
Qed.

Lemma set_state_tree m i s : tree_ok m -> tree_ok (set_state m i s).2.
Proof. intros T. unfold set_state. destruct (processes m !! i); [|done]. by apply update_tree. Qed.

Lemma exit_tree m i code : tree_ok m -> tree_ok (exit m i code).2.
Proof. intros T. unfold exit. destruct (processes m !! i) as [p|]; [|done]. destruct (bool_decide _); [done|]. by apply (update_tree m i). Qed.

Lemma setpriority_tree m i x : tree_ok m -> tree_ok (setpriority m i x).2.
Proof. intros T. unfold setpriority. destruct (processes m !! i); [|done]. by apply update_tree. Qed.

Inductive proc_op := PCreate (parent : Z) (n : string) | PState (i : Z) (s : ProcessState) | PExit (i code : Z) | PWait (parent : Z) (target : option Z) | PPriority (i x : Z).

Definition proc_step (m : ProcessManager) (o : proc_op) : ProcessManager :=
  match o with
  | PCreate parent n => (create m parent n).2
  | PState i s => (set_state m i s).2
  | PExit i code => (exit m i code).2
  | PWait parent target => (wait m parent target).2
  | PPriority i x => (setpriority m i x).2
  end.

Lemma proc_step_tree m o : tree_ok m -> next_pid m + 1 < u64_modulus -> tree_ok (proc_step m o) /\ next_pid (proc_step m o) <= next_pid m + 1.
Proof.
  intros T Hn. pose proof (tr_next m T) as H2. destruct o; cbn [proc_step].
  - split; [by apply create_tree|]. unfold create. destruct (negb _); cbn; rewrite wrap64_small by (unfold is_u64; lia); lia.
  - split; [by apply set_state_tree|]. unfold set_state. destruct (processes m !! i); cbn; lia.
  - split; [by apply exit_tree|]. unfold exit. destruct (processes m !! i); [|cbn; lia]. destruct (bool_decide _); cbn; lia.
  - split; [by apply wait_tree|]. unfold wait. destruct (processes m !! parent); [|cbn; lia]. destruct (bool_decide _); [cbn; lia|]. destruct (match target with Some _ => _ | None => _ end); [cbn; lia|].
    destruct (wait_loop _ _ _) as [[c code]|]; [|cbn; lia]. unfold reap. destruct (processes m !! c); cbn; lia.
  - split; [by apply setpriority_tree|]. unfold setpriority. destruct (processes m !! i); cbn; lia.
Qed.

Lemma proc_run_tree l m : tree_ok m -> next_pid m + Z.of_nat (length l) < u64_modulus -> tree_ok (foldl proc_step m l).
Proof.
  revert m. induction l as [|o l IH]; intros m T Hn; [done|]. cbn [foldl length] in *. destruct (proc_step_tree m o T) as [T' Hn']; [lia|]. apply IH; [done | lia].
Qed.

(** whatever processes are created, ended and waited for, every process is known
    under its own number, children and parents agree, and no child is listed twice. *)
Theorem process_tree_sound l : Z.of_nat (length l) + 2 < u64_modulus -> tree_ok (foldl proc_step manager_new l).
Proof. intros H. apply proc_run_tree; [apply manager_new_tree | cbn [manager_new next_pid]; lia]. Qed.

Definition demo_ops : list proc_op := [PCreate 0 "a"; PCreate 2 "b"; PCreate 2 "c"; PExit 4 7; PExit 3 1; PWait 2 None; PPriority 2 5].
Lemma process_tree_sound_witness : tree_ok (foldl proc_step manager_new demo_ops).
Proof. apply process_tree_sound. vm_compute. reflexivity. Defined.

(** a wait collects the first child, in the order of creation, that is wanted and
    has ended: it answers with its code, the child is gone from the table and from
    the list of its parent, and every other process is as before.  Without such a
    child it answers that there is none and changes nothing. *)
Theorem wait_collects_first m parent target p :
  tree_ok m -> processes m !! parent = Some p ->
  match wait m parent target with
  | (Ok (c, code), m') =>
      (exists l1 l2, children p = l1 ++ c :: l2 /\ Forall (fun x => wanted target x -> ended m x = None) l1) /\ wanted target c /\ ended m c = Some code /\
      processes m' !! c = None /\ (parent <> c -> processes m' !! parent = Some (remove_child p c)) /\ forall j, j <> c -> j <> parent -> processes m' !! j = processes m !! j
  | (Err e, m') => e = NoChild /\ m' = m /\ forall x, x ∈ children p -> wanted target x -> ended m x = None
  end.
Proof.
  intros T Hp. pose proof (wait_spec m parent target p T Hp) as H. destruct (wait m parent target) as [[[c code]|e] m'].
  - destruct H as (l1 & l2 & El & Hw & He & Hf & ->). split; [by exists l1, l2|]. split; [done|]. split; [done|]. cbn [processes]. split; [|split].
    + rewrite lookup_alter. destruct (decide (parent = c)) as [->|]; by rewrite lookup_delete_eq.
    + intros Hne. rewrite lookup_alter, decide_True, lookup_delete_ne by done. by rewrite Hp.
    + intros j H1 H2. rewrite lookup_alter, decide_False, lookup_delete_ne by done. done.
  - destruct H as (-> & -> & Hf). split; [done|]. split; [done|]. by rewrite Forall_forall in Hf.
Qed.

Definition demo_ended : ProcessManager := foldl proc_step manager_new [PCreate 0 "a"; PCreate 2 "b"; PCreate 2 "c"; PExit 4 7; PExit 3 1].

Lemma wait_collects_first_witness : (wait demo_ended 2 None).1 = Ok (3, 1) /\ processes (wait demo_ended 2 None).2 !! 3 = None.
Proof.
  assert (T : tree_ok demo_ended) by (apply proc_run_tree; [apply manager_new_tree | vm_compute; reflexivity]).
  destruct (processes demo_ended !! 2) as [p|] eqn:Hp; [|vm_compute in Hp; discriminate]. pose proof (wait_collects_first demo_ended 2 None p T Hp) as H.
  destruct (wait demo_ended 2 None) as [[[c code]|e] m'] eqn:E; [|vm_compute in E; discriminate]. assert (Ec : (c, code) = (3, 1)) by (vm_compute in E; congruence).
  injection Ec as -> ->. split; [reflexivity|]. exact (proj1 (proj2 (proj2 (proj2 H)))).
Defined.

(** nothing that was spawned can ever be waited for: the parent of spawned
    processes, number 1, is not a process. *)
Theorem waitpid_never_succeeds l i : Z.of_nat (length l) + 2 < u64_modulus ->
  waitpid (foldl proc_step manager_new l) i = (Err NotFound, foldl proc_step manager_new l).
Proof.
  intros H. assert (T : tree_ok (foldl proc_step manager_new l)) by (apply proc_run_tree; [apply manager_new_tree | cbn [manager_new next_pid]; lia]).
  unfold waitpid, wait. destruct (processes _ !! INIT) as [p|] eqn:E; [|done]. apply (tr_pid _ T) in E. unfold INIT in E. lia.
Qed.

Lemma waitpid_never_succeeds_witness : (waitpid (foldl proc_step manager_new [PCreate 1 "a"; PExit 2 0]) None).1 = Err NotFound.
Proof. rewrite (waitpid_never_succeeds [PCreate 1 "a"; PExit 2 0] None) by (vm_compute; reflexivity). reflexivity. Defined.

(** A process that has ended can end again, with another code. *)
Lemma exit_twice : let m := foldl proc_step manager_new [PCreate 0 "a"; PExit 2 1; PExit 2 7] in ended m 2 = Some 7 /\ total_exited m = 2.
Proof. vm_compute. auto. Qed.

(** The children of a process that was collected stay, and nobody can wait for them. *)
Lemma orphans_stay : let m := foldl proc_step manager_new [PCreate 0 "a"; PCreate 2 "b"; PCreate 3 "c"; PExit 4 0; PExit 3 0; PWait 2 None] in
  ended m 4 = Some 0 /\ ppid <$> processes m !! 4 = Some 3 /\ (wait m 3 None).1 = Err NotFound.
Proof. vm_compute. auto. Qed.

End ProcSpec.

Module EnvSpec.
Import Environ.

(** ** Variables *)

Definition fits (e : Environment) (k v : string) : Prop := is_valid k = true /\ Z.of_nat (String.length v) <= max_value_size e.

Record env_ok (e : Environment) : Prop := {
  eo_count : count e = Z.of_nat (base.size (vars e));
  eo_max : count e <= max_vars e < u64_modulus;
  eo_vars : forall k v, vars e !! k = Some v -> fits e k v }.

Lemma with_limits_ok v s : 0 <= v < u64_modulus -> env_ok (with_limits v s).
Proof. intros H. split; cbn; [done | done |]. intros k x Hx. by rewrite lookup_empty in Hx. Qed.

(** Setting a variable, in all cases. *)
Lemma set_spec e k v : env_ok e ->
  match set e k v with
  | Ok e' => fits e k v /\ vars e' = <[k := v]> (vars e) /\ max_vars e' = max_vars e /\ max_value_size e' = max_value_size e /\ env_ok e'
  | Err InvalidKey => is_valid k = false
  | Err ValueTooLarge => is_valid k = true /\ max_value_size e < Z.of_nat (String.length v)
  | Err TooManyVariables => fits e k v /\ vars e !! k = None /\ Z.of_nat (base.size (vars e)) = max_vars e
  | Err NotFound => False
  end.
Proof.
  intros [E1 E2 E3]. unfold set, fits. destruct (is_valid k) eqn:Ek; cbn [negb]; [|done]. rewrite Z.gtb_ltb. destruct (Z.ltb_spec (max_value_size e) (Z.of_nat (String.length v))); [done|].
  assert (Hv : forall k' v', <[k := v]> (vars e) !! k' = Some v' -> is_valid k' = true /\ Z.of_nat (String.length v') <= max_value_size e).
  { intros k' v'. rewrite lookup_insert. destruct (decide (k = k')) as [<-|]; [|apply E3]. intros [= <-]. done. }
  destruct (vars e !! k) as [old|] eqn:Eo.
  - split; [done|]. split; [done|]. split; [done|]. split; [done|]. split; cbn [vars count max_vars max_value_size]; [|done | exact Hv]. rewrite map_size_insert, Eo. exact E1.
  - rewrite Z.geb_leb. destruct (Z.leb_spec (max_vars e) (count e)); [split; [done|]; split; [done | lia]|].
    split; [done|]. split; [done|]. split; [done|]. split; [done|]. assert (Ec : count e +w 1 = count e + 1) by (apply wrap64_small; unfold is_u64; lia).
    split; cbn [vars count max_vars max_value_size]; [rewrite Ec, map_size_insert, Eo; cbn; lia | rewrite Ec; lia | exact Hv].
Qed.

Lemma unset_spec e k : env_ok e ->
  match unset e k with
  | Ok e' => is_Some (vars e !! k) /\ vars e' = delete k (vars e) /\ env_ok e'
  | Err x => x = NotFound /\ vars e !! k = None
  end.
Proof.
  intros [E1 E2 E3]. unfold unset. destruct (vars e !! k) as [v|] eqn:Ek; [|done]. split; [by eexists|]. split; [done|].
  assert (Hs : base.size (vars e) = S (base.size (delete k (vars e)))) by (rewrite <- (insert_delete_id (vars e) k v Ek) at 1; by rewrite map_size_insert, lookup_delete_eq).
  assert (Ec : count e -w 1 = count e - 1) by (apply wrap64_small; unfold is_u64; lia).
  split; cbn [vars count max_vars max_value_size]; [lia | rewrite Ec; lia |]. intros k' v' Hk'. apply lookup_delete_Some in Hk' as [_ Hk']. by apply E3.
Qed.

(** ** Printing and parsing *)

Lemma split_once_word k v : all_word k = true -> split_once "=" (k +:+ String "=" v) = Some (k, v).
Proof.
  induction k as [|c k IH]; intros H; [done|]. cbn [all_word] in H. apply andb_prop in H as [Hc Hk]. specialize (IH Hk).
  change (String c k +:+ String "=" v) with (String c (k +:+ String "=" v)). cbn [split_once]. destruct (Ascii.eqb_spec c "=") as [->|]; [done|]. by rewrite IH.
Qed.

Lemma valid_word k : is_valid k = true -> all_word k = true.
Proof. destruct k as [|c k]; [done|]. unfold is_valid. by destruct (negb _). Qed.

(** [putenv] of each string, up to the first error. *)
Fixpoint put_all (e : Environment) (l : list string) : result Environment EnvError :=
  match l with
  | [] => Ok e
  | s :: l' => match parse_and_set e s with Ok e' => put_all e' l' | Err x => Err x end
  end.

Lemma put_all_spec l e : env_ok e -> Forall (fun x => fits e x.1 x.2) l -> NoDup l.*1 -> (forall x, x ∈ l -> vars e !! x.1 = None) ->
  Z.of_nat (base.size (vars e) + length l) <= max_vars e ->
  exists e', put_all e ((fun x => x.1 +:+ String "=" x.2) <$> l) = Ok e' /\ env_ok e' /\ vars e' = list_to_map l ∪ vars e.
Proof.
  revert e. induction l as [|[k v] l IH]; intros e H Hf Hnd Hno Hmax; cbn [fmap list_fmap put_all fst snd] in *.
  - exists e. split; [done|]. split; [done|]. symmetry. apply (left_id_L ∅ (∪)).
  - apply Forall_cons in Hf as [Hkv Hf]. apply NoDup_cons in Hnd as [Hk Hnd]. cbn [fst snd] in Hkv. unfold parse_and_set. cbn [fst snd]. rewrite (split_once_word k v) by (apply valid_word, Hkv).
    pose proof (set_spec e k v H) as Hs. pose proof (Hno (k, v) (list_elem_of_here _ _)) as Hnone. cbn [fst] in Hnone. destruct (set e k v) as [e1|x].
    + destruct Hs as (_ & Ev & Em & Es & Hok). destruct (IH e1) as (e' & E' & Hok' & Ev').
      * done.
      * eapply Forall_impl; [exact Hf|]. intros y. unfold fits. by rewrite Es.
      * done.
      * intros y Hy. rewrite Ev, lookup_insert_ne; [apply Hno; by apply list_elem_of_further|]. intros ->. apply Hk. apply list_elem_of_fmap. by exists y.
      * rewrite Ev, Em, map_size_insert, Hnone. cbn [length] in Hmax. lia.
      * exists e'. split; [done|]. split; [done|]. rewrite Ev', Ev. cbn [list_to_map foldr fst snd]. rewrite <- insert_union_r by (by apply not_elem_of_list_to_map). by rewrite insert_union_l.
    + exfalso. unfold fits in *. cbn [length] in Hmax. destruct x; [destruct Hkv; congruence | done | lia | lia].
Qed.

(** the strings an environment prints are read back, variable by variable, into
    an environment with the same variables. *)
Theorem environ_roundtrip e :
  env_ok e -> exists e', put_all (with_limits (max_vars e) (max_value_size e)) (to_strings e) = Ok e' /\ vars e' = vars e /\ env_ok e'.
Proof.
  intros H. pose proof H as [E1 E2 E3]. destruct (put_all_spec (entries (vars e)) (with_limits (max_vars e) (max_value_size e))) as (e' & E & Hok & Ev).
  - apply with_limits_ok. lia.
  - apply Forall_forall. intros [k v] Hx. apply elem_of_entries in Hx. exact (E3 k v Hx).
  - apply entries_keys_NoDup.
  - intros x _. apply lookup_empty.
  - cbn [vars with_limits max_vars]. rewrite map_size_empty, entries_length. lia.
  - exists e'. split; [done|]. split; [|done]. rewrite Ev. cbn [vars with_limits]. rewrite map_union_empty.
    rewrite (list_to_map_proper (entries (vars e)) (map_to_list (vars e))); [apply list_to_map_to_list | apply entries_keys_NoDup | apply entries_perm].
Qed.

Lemma defaults_ok : env_ok (set_defaults env_new).
Proof.
  unfold set_defaults, defaults. cbn [foldl]. assert (H : forall e x, env_ok e -> env_ok (set_or_keep e x)).
  { intros e x H. unfold set_or_keep. pose proof (set_spec e x.1 x.2 H) as Hs. destruct (set e x.1 x.2); [apply Hs | done]. }
  do 8 apply H. apply with_limits_ok. vm_compute. split; [discriminate | reflexivity].
Qed.

Lemma environ_roundtrip_witness : exists e', put_all (with_limits (max_vars (set_defaults env_new)) (max_value_size (set_defaults env_new))) (to_strings (set_defaults env_new)) = Ok e' /\ get e' "HOME" = Some "/root".
Proof.
  destruct (environ_roundtrip (set_defaults env_new) defaults_ok) as (e' & E & Ev & _). exists e'. split; [exact E|]. unfold get. rewrite Ev. vm_compute. reflexivity.
Defined.

(** ** Expansion *)

Lemma take_braced_length s : (String.length (take_braced s).2 <= String.length s)%nat.
Proof. induction s as [|c s IH]; cbn; [done|]. destruct (Ascii.eqb c "}"); cbn; [lia|]. destruct (take_braced s). cbn in *. lia. Qed.

Lemma take_word_length s : (String.length (take_word s).2 <= String.length s)%nat.
Proof. induction s as [|c s IH]; cbn [take_word String.length]; [done|]. destruct (is_word c); [|done]. destruct (take_word s). cbn in *. lia. Qed.

Lemma variable_length s : (String.length (variable s).2 <= String.length s)%nat.
Proof. unfold variable. destruct s as [|c s]; [done|]. destruct (Ascii.eqb c "{"); [pose proof (take_braced_length s); cbn; lia | apply take_word_length]. Qed.

(** Any fuel from the length on gives the same. *)
Lemma expand_loop_fuel e s f f' : (String.length s <= f)%nat -> (String.length s <= f')%nat -> expand_loop f e s = expand_loop f' e s /\ is_Some (expand_loop f e s).
Proof.
  revert s f'. induction f as [|f IH]; intros s f' H H'; destruct s as [|c s]; cbn [String.length] in *; try lia.
  - destruct f'; by split; [|eexists].
  - destruct f'; by split; [|eexists].
  - destruct f' as [|f']; [lia|]. cbn [expand_loop]. destruct (Ascii.eqb c "$").
    + pose proof (variable_length s). destruct (variable s) as [n r]. cbn [snd] in *. destruct (IH r f') as [E [x Hx]]; [lia | lia |]. rewrite <- E, Hx. split; [done | by eexists].
    + destruct (IH s f') as [E [x Hx]]; [lia | lia |]. rewrite <- E, Hx. split; [done | by eexists].
Qed.

Lemma expand_char e c s : Ascii.eqb c "$" = false -> expand e (String c s) = String c <$> expand e s.
Proof. intros H. unfold expand. cbn [expand_loop String.length]. by rewrite H. Qed.

Lemma expand_variable e s : expand e (String "$" s) = String.append (default EmptyString (get e (variable s).1)) <$> expand e (variable s).2.
Proof.
  unfold expand. cbn [expand_loop String.length]. change (Ascii.eqb "$" "$") with true. cbn iota. pose proof (variable_length s). destruct (variable s) as [n r]. cbn [fst snd] in *.
  by rewrite (proj1 (expand_loop_fuel e r (String.length s) (String.length r) ltac:(lia) ltac:(lia))).
Qed.

Fixpoint without (c : ascii) (s : string) : bool := match s with EmptyString => true | String d s' => negb (Ascii.eqb d c) && without c s' end.

Lemma take_braced_spec n r : without "}" n = true -> take_braced (n +:+ String "}" r) = (n, r).
Proof.
  induction n as [|c n IH]; intros H; [done|]. cbn [without] in H. apply andb_prop in H as [Hc Hn]. apply negb_true_iff in Hc.
  change (String c n +:+ String "}" r) with (String c (n +:+ String "}" r)). cbn [take_braced]. by rewrite Hc, (IH Hn).
Qed.

(** expansion always ends; it leaves text without variables alone and puts the
    value of a variable in the place of its name in braces, nothing for a variable
    that is not set, and goes on behind it. *)
Theorem expand_correct e pre n post :
  without "$" pre = true -> without "}" n = true ->
  exists t, expand e post = Some t /\ expand e (pre +:+ String "$" (String "{" (n +:+ String "}" post))) = Some (pre +:+ default EmptyString (get e n) +:+ t).
Proof.
  intros Hp Hn. destruct (proj2 (expand_loop_fuel e post (String.length post) (String.length post) ltac:(lia) ltac:(lia))) as [t Ht]. exists t. split; [exact Ht|].
  induction pre as [|c pre IH].
  - change (EmptyString +:+ ?x) with x. rewrite expand_variable. unfold variable. change (Ascii.eqb "{" "{") with true. cbn iota. rewrite (take_braced_spec n post Hn). cbn [fst snd]. unfold expand at 1. by rewrite Ht.
  - cbn [without] in Hp. apply andb_prop in Hp as [Hc Hp]. apply negb_true_iff in Hc. change (String c pre +:+ ?x) with (String c (pre +:+ x)). rewrite (expand_char e c _ Hc). by rewrite (IH Hp).
Qed.

Lemma expand_correct_witness : exists t, expand (set_defaults env_new) "/x" = Some t /\ expand (set_defaults env_new) "in ${HOME}/x" = Some ("in " +:+ "/root" +:+ t).
Proof. exact (expand_correct (set_defaults env_new) "in " "HOME" "/x" eq_refl eq_refl). Defined.

(** A dollar sign alone disappears, an open brace takes the rest. *)
Lemma expand_odd : expand env_new "a$ b" = Some "a b" /\ expand env_new "a${HOME b" = Some "a".
Proof. vm_compute. auto. Qed.

(** Copying an environment ignores the limits of the copy. *)
Lemma clone_ignores_limits : let e := clone_from (with_limits 1 10) (set_defaults env_new) in max_vars e = 1 /\ count e = 8.
Proof. vm_compute. auto. Qed.

End EnvSpec.

Module StealSpec.
Import Stealing.

Section Steal.
Context {Task : Type}.
Implicit Types (ws : list (list Task)) (t : Task).

Lemma worker_steal_spec me k ws :
  match steal_loop me k ws with
  | Some (t, ws') => exists i q, ws !! i = Some (t :: q) /\ (k + i <> me)%nat /\ ws' = <[i := q]> ws /\ forall j, (j < i)%nat -> (k + j)%nat <> me -> ws !! j = Some []
  | None => forall i q, ws !! i = Some q -> (k + i)%nat <> me -> q = []
  end.
Proof.
  revert k. induction ws as [|w ws IH]; intros k; cbn [steal_loop]; [done|].
  assert (Hskip : ((k =? me)%nat = true \/ w = []) -> match match steal_loop me (S k) ws with Some (t, r) => Some (t, w :: r) | None => None end with
    | Some (t, ws') => exists i q, (w :: ws) !! i = Some (t :: q) /\ (k + i <> me)%nat /\ ws' = <[i := q]> (w :: ws) /\ forall j, (j < i)%nat -> (k + j)%nat <> me -> (w :: ws) !! j = Some []
    | None => forall i q, (w :: ws) !! i = Some q -> (k + i)%nat <> me -> q = [] end).
  { intros Hw. specialize (IH (S k)). destruct (steal_loop me (S k) ws) as [[t r]|].
    - destruct IH as (i & q & Hi & Hne & -> & Hj). exists (S i), q. split; [done|]. split; [lia|]. split; [done|]. intros [|j] Hlt Hk; [|by apply (Hj j); lia].
      destruct Hw as [Hw| ->]; [apply Nat.eqb_eq in Hw; lia | done].
    - intros [|i] q Hi Hne; [|by apply (IH i); [|lia]]. destruct Hw as [Hw| ->]; [apply Nat.eqb_eq in Hw; lia | by injection Hi]. }
  destruct (k =? me)%nat eqn:Ek; [apply Hskip; by left|]. destruct w as [|t w]; cbn [steal]; [apply Hskip; by right|].
  exists 0%nat, w. split; [done|]. split; [apply Nat.eqb_neq in Ek; lia|]. split; [done|]. intros j Hj. lia.
Qed.

(** a worker steals the oldest task of the first other worker that has one, and
    finds nothing only when all others have nothing. *)
Theorem steal_takes_oldest (s : @statics Task) me :
  match steal_from_workers s me with
  | (Some t, s') => exists i q, WORKER_QUEUES s !! i = Some (t :: q) /\ i <> me /\ s' = mkStatics (GLOBAL_INJECTOR s) (<[i := q]> (WORKER_QUEUES s)) /\
      forall j, (j < i)%nat -> j <> me -> WORKER_QUEUES s !! j = Some []
  | (None, s') => s' = s /\ forall i q, WORKER_QUEUES s !! i = Some q -> i <> me -> q = []
  end.
Proof.
  unfold steal_from_workers. pose proof (worker_steal_spec me 0 (WORKER_QUEUES s)) as H. destruct (steal_loop me 0 (WORKER_QUEUES s)) as [[t ws]|]; [|done].
  destruct H as (i & q & Hi & Hne & -> & Hj). by exists i, q.
Qed.

(** The owner takes the newest task. *)
Lemma pop_newest (q : list Task) t : pop (push q t) = Some (t, q).
Proof. unfold pop, push. rewrite reverse_app. change (reverse [t]) with [t]. cbn [app]. by rewrite reverse_involutive. Qed.

End Steal.

End StealSpec.
