(* ===== verification/NetConfig.v ===== *)
(** * Name resolution and address configuration (src/src/net/dns.rs, src/src/net/dhcp.rs)

    Messages and names are lists of bytes.  Loops over a message take fuel; [None]
    is a loop that goes on, which a name with compression pointers can make happen.
    Offsets are natural numbers: they stay within a message and a few bytes more. *)

From stdpp Require Import base list gmap.
From Stdlib Require Import ZArith Lia.
From S2P Require Import Prelude NetBytes Ipv4 Loader.

Import Utf8.
Local Open Scope Z_scope.

(** ** Strings from bytes *)

Definition REPLACEMENT : list Z := [239; 191; 189].

(** [String::from_utf8_lossy]: every longest part that cannot be continued is
    replaced.  [pend] is a part of a character, [more] what must follow it. *)
Fixpoint lossy (pend : list Z) (more : option (Z * Z * nat)) (l : list Z) : list Z :=
  match l with
  | [] => match more with None => [] | Some _ => REPLACEMENT end
  | b :: l' =>
      match more with
      | Some (lo, hi, k) =>
          if (lo <=? b) && (b <=? hi) then
            match k with
            | O => pend ++ b :: lossy [] None l'
            | S k' => lossy (pend ++ [b]) (Some (128, 191, k')) l'
            end
          else
            REPLACEMENT ++
            match utf8_lead b with
            | Some None => b :: lossy [] None l'
            | Some m => lossy [b] m l'
            | None => REPLACEMENT ++ lossy [] None l'
            end
      | None =>
          match utf8_lead b with
          | Some None => b :: lossy [] None l'
          | Some m => lossy [b] m l'
          | None => REPLACEMENT ++ lossy [] None l'
          end
      end
  end.

Definition from_utf8_lossy (l : list Z) : list Z := lossy [] None l.

(** [str::split('.')] *)
Fixpoint split_dot (l : list Z) : list (list Z) :=
  match l with
  | [] => [[]]
  | b :: l' => if b =? 46 then [] :: split_dot l' else match split_dot l' with p :: r => (b :: p) :: r | [] => [[b]] end
  end.

(** [data[i..i + n].copy_from_slice(bs)] with its bounds check *)
Definition write (data : list Z) (i : nat) (bs : list Z) : outcome (list Z) :=
  if (i + length bs <=? length data)%nat then Ret (put data i bs) else Panic.

Definition from_be32 (data : list Z) (i : nat) : Z := Z.lor (Z.shiftl (get16 data i) 16) (get16 data (i + 2)).
Definition to_be32 (v : Z) : list Z := to_be16 (Z.shiftr v 16) ++ to_be16 (Z.land v 65535).

(** ** DNS *)

Module Dns.

Inductive DnsQueryType := A | NS | CNAME | SOA | PTR | MX | TXT | AAAA | ALL.
Definition query_type_u16 (t : DnsQueryType) : Z :=
  match t with A => 1 | NS => 2 | CNAME => 5 | SOA => 6 | PTR => 12 | MX => 15 | TXT => 16 | AAAA => 28 | ALL => 255 end.
Definition from_u16 (v : Z) : option DnsQueryType :=
  if v =? 1 then Some A else if v =? 2 then Some NS else if v =? 5 then Some CNAME else if v =? 6 then Some SOA else if v =? 12 then Some PTR
  else if v =? 15 then Some MX else if v =? 16 then Some TXT else if v =? 28 then Some AAAA else if v =? 255 then Some ALL else None.

Inductive DnsResponseCode := NoError | FormatError | ServerFailure | NameError | NotImplemented | Refused.
#[export] Instance code_eq_dec : EqDecision DnsResponseCode.
Proof. solve_decision. Defined.
Definition from_u8 (v : Z) : DnsResponseCode :=
  let c := Z.land v 15 in
  if c =? 0 then NoError else if c =? 1 then FormatError else if c =? 2 then ServerFailure else if c =? 3 then NameError
  else if c =? 4 then NotImplemented else if c =? 5 then Refused else ServerFailure.

(** The fields of the header *)
Definition SIZE : nat := 12.
Definition flags (data : list Z) : Z := get16 data 2.
Definition is_response (data : list Z) : bool := Z.land (Z.shiftr (flags data) 15) 1 =? 1.
Definition rcode (data : list Z) : DnsResponseCode := from_u8 (Z.land (flags data) 15).
Definition question_count (data : list Z) : nat := Z.to_nat (get16 data 4).
Definition answer_count (data : list Z) : nat := Z.to_nat (get16 data 6).

Inductive DnsRecordData := DataA (ip : list Z) | DataName (n : list Z) | DataMX (preference : Z) (n : list Z) | DataTXT (t : list Z) | DataRaw (d : list Z).
Record DnsRecord := mkRecord { r_name : list Z; rtype : DnsQueryType; ttl : Z; r_data : DnsRecordData }.

(** *** The cache *)

Record DnsCacheEntry := mkEntry { records : list DnsRecord; cached_at : Z; min_ttl : Z }.

Definition expired (e : DnsCacheEntry) (current_tick tick_rate : Z) : bool := Z.max 0 (current_tick - cached_at e) / tick_rate >? min_ttl e.

(** A division by a rate of zero panics. *)
Definition is_expired (e : DnsCacheEntry) (current_tick tick_rate : Z) : outcome bool :=
  if tick_rate =? 0 then Panic else Ret (expired e current_tick tick_rate).

Record DnsCache := mkCache { entries : gmap (list Z) DnsCacheEntry; max_entries : nat; tick_rate : Z }.
Definition cache_new (rate : Z) : DnsCache := mkCache ∅ 256 rate.

Definition lookup (c : DnsCache) (n : list Z) (current_tick : Z) : outcome (option DnsCacheEntry) :=
  match entries c !! n with
  | None => Ret None
  | Some e => let! x := is_expired e current_tick (tick_rate c) in Ret (if x then None else Some e)
  end.

(** [retain] over the entries *)
Definition cleanup (c : DnsCache) (current_tick : Z) : outcome DnsCache :=
  if (tick_rate c =? 0) && negb (bool_decide (entries c = ∅)) then Panic
  else Ret (mkCache (filter (fun x => expired x.2 current_tick (tick_rate c) = false) (entries c)) (max_entries c) (tick_rate c)).

Definition ttl_min (l : list DnsRecord) : Z := match ttl <$> l with [] => 300 | t :: r => foldl Z.min t r end.

Definition cache_insert (c : DnsCache) (n : list Z) (rs : list DnsRecord) (current_tick : Z) : outcome DnsCache :=
  let! c1 := if (max_entries c <=? base.size (entries c))%nat then cleanup c current_tick else Ret c in
  Ret (mkCache (<[n := mkEntry rs current_tick (ttl_min rs)]> (entries c1)) (max_entries c1) (tick_rate c1)).

(** *** The client *)

Record DnsStats := mkStats { queries_sent : Z; responses_received : Z; cache_hits : Z; cache_misses : Z; errors : Z }.
Record DnsClient := mkClient { servers : list (list Z); cache : DnsCache; next_id : Z; stats : DnsStats }.

Definition client_new (rate : Z) : DnsClient := mkClient [] (cache_new rate) 1 (mkStats 0 0 0 0 0).

Definition set_servers (c : DnsClient) (l : list (list Z)) : DnsClient := mkClient l (cache c) (next_id c) (stats c).
Definition add_server (c : DnsClient) (s : list Z) : DnsClient :=
  if negb (bool_decide (s ∈ servers c)) && (length (servers c) <? 3)%nat then set_servers c (servers c ++ [s]) else c.
Definition with_stats (c : DnsClient) (s : DnsStats) : DnsClient := mkClient (servers c) (cache c) (next_id c) s.

Fixpoint first_address (l : list DnsRecord) : option (list Z) :=
  match l with
  | [] => None
  | r :: l' => match r_data r with DataA ip => Some ip | _ => first_address l' end
  end.

Definition resolve_cached (c : DnsClient) (n : list Z) (current_tick : Z) : outcome (option (list Z) * DnsClient) :=
  let s := stats c in
  let hit := mkStats (queries_sent s) (responses_received s) (wrap64 (cache_hits s + 1)) (cache_misses s) (errors s) in
  let miss := mkStats (queries_sent s) (responses_received s) (cache_hits s) (wrap64 (cache_misses s + 1)) (errors s) in
  let! e := lookup (cache c) n current_tick in
  match e with
  | Some e => match first_address (records e) with
              | Some ip => Ret (Some ip, with_stats c hit)
              | None => Ret (None, with_stats c miss)
              end
  | None => Ret (None, with_stats c miss)
  end.

(** *** Queries *)

Inductive QueryError := BufferTooSmall | LabelTooLong.

(** The labels one after the other; the buffer so far is kept on an error. *)
Fixpoint write_labels (buffer : list Z) (offset : nat) (ls : list (list Z)) : outcome (result nat QueryError * list Z) :=
  match ls with
  | [] => Ret (Ok offset, buffer)
  | l :: ls' =>
      if bool_decide (l = []) then write_labels buffer offset ls'
      else if (63 <? length l)%nat then Ret (Err LabelTooLong, buffer)
      else
        let! b1 := write buffer offset [Z.of_nat (length l)] in
        let! b2 := write b1 (offset + 1) l in
        write_labels b2 (offset + 1 + length l) ls'
  end.

Definition build_query (c : DnsClient) (buffer n : list Z) (t : DnsQueryType) : outcome (result nat QueryError * list Z * DnsClient) :=
  if (length buffer <? SIZE + length n + 6)%nat then Ret (Err BufferTooSmall, buffer, c)
  else
    let id := next_id c in
    let c1 := mkClient (servers c) (cache c) (wrap16 (next_id c + 1)) (stats c) in
    let! b1 := write buffer 0 (to_be16 id ++ to_be16 256 ++ to_be16 1 ++ to_be16 0 ++ to_be16 0 ++ to_be16 0) in
    let! (r, b2) := write_labels b1 SIZE (split_dot n) in
    match r with
    | Err e => Ret (Err e, b2, c1)
    | Ok offset =>
        let! b3 := write b2 offset [0] in
        let! b4 := write b3 (offset + 1) (to_be16 (query_type_u16 t)) in
        let! b5 := write b4 (offset + 3) (to_be16 1) in
        let s := stats c1 in
        Ret (Ok (offset + 5)%nat, b5, with_stats c1 (mkStats (wrap64 (queries_sent s + 1)) (responses_received s) (cache_hits s) (cache_misses s) (errors s)))
    end.

(** *** Responses *)

Fixpoint skip_name (fuel : nat) (data : list Z) (offset : nat) : option (result nat DnsResponseCode) :=
  if (length data <=? offset)%nat then Some (Err FormatError)
  else
    let len := get data offset in
    if len =? 0 then Some (Ok (offset + 1)%nat)
    else if Z.land len 192 =? 192 then Some (Ok (offset + 2)%nat)
    else match fuel with
         | O => None
         | S f => skip_name f data (offset + 1 + Z.to_nat len)
         end.

(** Where a pointer leads. *)
Definition pointer (data : list Z) (offset : nat) : nat := Z.to_nat (Z.lor (Z.shiftl (Z.land (get data offset) 63) 8) (get data (offset + 1))).

(** One round of the loop: the end, or the state of the next round: offset, name,
    whether a pointer was followed, and the offset behind the name. *)
Definition name_round (data : list Z) (original : nat) (s : nat * list Z * bool * nat) : result (list Z * nat) DnsResponseCode + nat * list Z * bool * nat :=
  let '(offset, n, jumped, final) := s in
  if (length data <=? offset)%nat then inl (Err FormatError)
  else
    let len := get data offset in
    if len =? 0 then inl (Ok (n, if negb jumped then (offset + 1)%nat else final))
    else if Z.land len 192 =? 192 then
      if (length data <=? offset + 1)%nat then inl (Err FormatError)
      else
        let final' := if negb jumped then (offset + 2)%nat else final in
        if (original <=? pointer data offset)%nat then inl (Err FormatError)
        else inr (pointer data offset, n, true, final')
    else if (length data <? offset + 1 + Z.to_nat len)%nat then inl (Err FormatError)
    else inr ((offset + 1 + Z.to_nat len)%nat,
              (if bool_decide (n = []) then n else n ++ [46]) ++ from_utf8_lossy (take (Z.to_nat len) (drop (offset + 1) data)), jumped, final).

Fixpoint name_loop (fuel : nat) (data : list Z) (original : nat) (s : nat * list Z * bool * nat) : option (result (list Z * nat) DnsResponseCode) :=
  match name_round data original s with
  | inl r => Some r
  | inr s' => match fuel with O => None | S f => name_loop f data original s' end
  end.

Definition parse_name (fuel : nat) (data : list Z) (offset : nat) : option (result (list Z * nat) DnsResponseCode) :=
  name_loop fuel data offset (offset, [], false, offset).

Fixpoint skip_questions (n : nat) (data : list Z) (offset : nat) : option (result nat DnsResponseCode) :=
  match n with
  | O => Some (Ok offset)
  | S n' =>
      match skip_name (length data) data offset with
      | Some (Ok o) => skip_questions n' data (o + 4)
      | x => x
      end
  end.

(** The data of a record that begins at [start]; names may be outside of it. *)
Definition record_data (fuel : nat) (data : list Z) (t : Z) (start rdlength : nat) : option DnsRecordData :=
  let rdata := take rdlength (drop start data) in
  match from_u16 t with
  | Some A => Some (if (rdlength =? 4)%nat then DataA rdata else DataRaw rdata)
  | Some CNAME | Some NS | Some PTR =>
      match parse_name fuel data start with
      | None => None
      | Some (Ok (n, _)) => Some (DataName n)
      | Some (Err _) => Some (DataRaw rdata)
      end
  | Some MX =>
      if (3 <=? rdlength)%nat then
        match parse_name fuel data (start + 2) with
        | None => None
        | Some (Ok (n, _)) => Some (DataMX (get16 rdata 0) n)
        | Some (Err _) => Some (DataRaw rdata)
        end
      else Some (DataRaw rdata)
  | Some TXT =>
      let txt_len := Z.to_nat (get rdata 0) in
      Some (if negb (bool_decide (rdata = [])) && (txt_len <? rdlength)%nat then DataTXT (from_utf8_lossy (take txt_len (drop 1 rdata))) else DataRaw rdata)
  | _ => Some (DataRaw rdata)
  end.

Fixpoint parse_answers (n fuel : nat) (data : list Z) (offset : nat) (acc : list DnsRecord) : option (result (list DnsRecord) DnsResponseCode) :=
  match n with
  | O => Some (Ok acc)
  | S n' =>
      if (length data <=? offset)%nat then Some (Ok acc)
      else
        match parse_name fuel data offset with
        | None => None
        | Some (Err e) => Some (Err e)
        | Some (Ok (nm, o)) =>
            if (length data <? o + 10)%nat then Some (Ok acc)
            else
              let t := get16 data o in
              let rdlength := Z.to_nat (get16 data (o + 8)) in
              if (length data <? o + 10 + rdlength)%nat then Some (Ok acc)
              else
                match record_data fuel data t (o + 10) rdlength with
                | None => None
                | Some d => parse_answers n' fuel data (o + 10 + rdlength) (acc ++ [mkRecord nm (default A (from_u16 t)) (from_be32 data (o + 4)) d])
                end
        end
  end.

Definition parse_response (fuel : nat) (c : DnsClient) (data : list Z) (current_tick : Z) : option (outcome (result (list DnsRecord) DnsResponseCode * DnsClient)) :=
  if (length data <? SIZE)%nat then Some (Ret (Err FormatError, c))
  else if negb (is_response data) then Some (Ret (Err FormatError, c))
  else
    let s := stats c in
    if negb (bool_decide (rcode data = NoError)) then
      Some (Ret (Err (rcode data), with_stats c (mkStats (queries_sent s) (responses_received s) (cache_hits s) (cache_misses s) (wrap64 (errors s + 1)))))
    else
      match skip_questions (question_count data) data SIZE with
      | None => None
      | Some (Err e) => Some (Ret (Err e, c))
      | Some (Ok offset) =>
          match parse_answers (answer_count data) fuel data offset [] with
          | None => None
          | Some (Err e) => Some (Ret (Err e, c))
          | Some (Ok rs) =>
              let c1 := with_stats c (mkStats (queries_sent s) (wrap64 (responses_received s + 1)) (cache_hits s) (cache_misses s) (errors s)) in
              Some match rs with
                   | [] => Ret (Ok rs, c1)
                   | first :: _ =>
                       let! k := cache_insert (cache c1) (r_name first) rs current_tick in
                       Ret (Ok rs, mkClient (servers c1) k (next_id c1) (stats c1))
                   end
          end
      end.

Definition primary_server (c : DnsClient) : option (list Z) := head (servers c).

End Dns.

(** ** DHCP *)

Module Dhcp.

Definition DHCP_MAGIC_COOKIE : list Z := [99; 130; 83; 99].
Definition SIZE : nat := 236.

Inductive DhcpMessageType := Discover | Offer | Request | Decline | Ack | Nak | Release | Inform.
#[export] Instance message_type_eq_dec : EqDecision DhcpMessageType.
Proof. solve_decision. Defined.
Definition message_type_u8 (t : DhcpMessageType) : Z :=
  match t with Discover => 1 | Offer => 2 | Request => 3 | Decline => 4 | Ack => 5 | Nak => 6 | Release => 7 | Inform => 8 end.
Definition from_u8 (v : Z) : option DhcpMessageType :=
  if v =? 1 then Some Discover else if v =? 2 then Some Offer else if v =? 3 then Some Request else if v =? 4 then Some Decline
  else if v =? 5 then Some Ack else if v =? 6 then Some Nak else if v =? 7 then Some Release else if v =? 8 then Some Inform else None.

Record DhcpLease := mkLease {
  ip_address : list Z; subnet_mask : list Z; gateway : option (list Z); dns_servers : list (list Z); server_ip : list Z; lease_time : Z; obtained_at : Z;
  hostname : option (list Z); domain_name : option (list Z) }.

Definition elapsed_secs (since current_tick tick_rate : Z) : outcome Z := if tick_rate =? 0 then Panic else Ret (Z.max 0 (current_tick - since) / tick_rate).

Definition is_expired (l : DhcpLease) (current_tick tick_rate : Z) : outcome bool :=
  let! e := elapsed_secs (obtained_at l) current_tick tick_rate in Ret (e >? lease_time l).
Definition needs_renewal (l : DhcpLease) (current_tick tick_rate : Z) : outcome bool :=
  let! e := elapsed_secs (obtained_at l) current_tick tick_rate in Ret (e >? lease_time l / 2).

Inductive DhcpState := Init | Selecting | Requesting | Bound | Renewing | Rebinding.
#[export] Instance dhcp_state_eq_dec : EqDecision DhcpState.
Proof. solve_decision. Defined.

Record DhcpClient := mkClient {
  mac_address : list Z; state : DhcpState; xid : Z; lease : option DhcpLease; offered_lease : option DhcpLease; state_time : Z; retry_count : Z }.

Definition MAX_RETRIES : Z := 4.
Definition client_new (mac : list Z) : DhcpClient := mkClient mac Init 0 None None 0 0.

Definition set_state (c : DhcpClient) (s : DhcpState) : DhcpClient := mkClient (mac_address c) s (xid c) (lease c) (offered_lease c) (state_time c) (retry_count c).

(** *** Messages *)

(** The header of a request, filled with zeros up to the cookie. *)
Definition header (x : Z) (mac : list Z) : list Z :=
  [1; 1; 6; 0] ++ to_be32 x ++ to_be16 0 ++ to_be16 32768 ++ replicate 16 0 ++ mac ++ replicate 202 0.

Definition option_bytes (code : Z) (d : list Z) : list Z := code :: Z.of_nat (length d) :: d.

Definition discover_options (mac : list Z) : list Z :=
  option_bytes 53 [message_type_u8 Discover] ++ option_bytes 55 [1; 3; 6; 15] ++ option_bytes 61 (1 :: mac) ++ [255].
Definition request_options (mac : list Z) (l : DhcpLease) : list Z :=
  option_bytes 53 [message_type_u8 Request] ++ option_bytes 50 (ip_address l) ++ option_bytes 54 (server_ip l) ++
  option_bytes 55 [1; 3; 6; 15] ++ option_bytes 61 (1 :: mac) ++ [255].

Inductive BuildError := BufferTooSmall | NoOffer.

(** The length of the message, the buffer and the client. *)
Definition build_discover (c : DhcpClient) (buffer : list Z) (current_tick : Z) : outcome (result nat BuildError * list Z * DhcpClient) :=
  if (length buffer <? SIZE + 64)%nat then Ret (Err BufferTooSmall, buffer, c)
  else
    let x := Z.lxor (wrap32 current_tick) 0xDEADBEEF in
    let m := header x (mac_address c) ++ DHCP_MAGIC_COOKIE ++ discover_options (mac_address c) in
    let! b := write buffer 0 m in
    Ret (Ok (length m), b, mkClient (mac_address c) Selecting x (lease c) (offered_lease c) current_tick (retry_count c)).

Definition build_request (c : DhcpClient) (buffer : list Z) (current_tick : Z) : outcome (result nat BuildError * list Z * DhcpClient) :=
  if (length buffer <? SIZE + 64)%nat then Ret (Err BufferTooSmall, buffer, c)
  else
    match offered_lease c with
    | None => Ret (Err NoOffer, buffer, c)
    | Some l =>
        let m := header (xid c) (mac_address c) ++ DHCP_MAGIC_COOKIE ++ request_options (mac_address c) l in
        let! b := write buffer 0 m in
        Ret (Ok (length m), b, mkClient (mac_address c) Requesting (xid c) (lease c) (offered_lease c) current_tick (retry_count c))
    end.

(** *** Options *)

Record options := mkOptions {
  o_type : option DhcpMessageType; o_mask : option (list Z); o_router : option (list Z); o_dns : list (list Z); o_lease_time : Z; o_server : option (list Z);
  o_hostname : option (list Z); o_domain : option (list Z) }.
Definition no_options : options := mkOptions None None None [] 86400 None None None.

(** [chunks(4)], whole chunks only *)
Fixpoint chunks4 (l : list Z) : list (list Z) :=
  match l with
  | a :: b :: c :: d :: l' => [a; b; c; d] :: chunks4 l'
  | _ => []
  end.

Definition apply_option (o : options) (opt : Z) (d : list Z) : options :=
  let four := (4 <=? length d)%nat in
  if opt =? 53 then match d with [] => o | b :: _ => mkOptions (from_u8 b) (o_mask o) (o_router o) (o_dns o) (o_lease_time o) (o_server o) (o_hostname o) (o_domain o) end
  else if opt =? 1 then if four then mkOptions (o_type o) (Some (take 4 d)) (o_router o) (o_dns o) (o_lease_time o) (o_server o) (o_hostname o) (o_domain o) else o
  else if opt =? 3 then if four then mkOptions (o_type o) (o_mask o) (Some (take 4 d)) (o_dns o) (o_lease_time o) (o_server o) (o_hostname o) (o_domain o) else o
  else if opt =? 6 then mkOptions (o_type o) (o_mask o) (o_router o) (o_dns o ++ chunks4 d) (o_lease_time o) (o_server o) (o_hostname o) (o_domain o)
  else if opt =? 51 then if four then mkOptions (o_type o) (o_mask o) (o_router o) (o_dns o) (from_be32 d 0) (o_server o) (o_hostname o) (o_domain o) else o
  else if opt =? 54 then if four then mkOptions (o_type o) (o_mask o) (o_router o) (o_dns o) (o_lease_time o) (Some (take 4 d)) (o_hostname o) (o_domain o) else o
  else if opt =? 12 then mkOptions (o_type o) (o_mask o) (o_router o) (o_dns o) (o_lease_time o) (o_server o) (Some d) (o_domain o)
  else if opt =? 15 then mkOptions (o_type o) (o_mask o) (o_router o) (o_dns o) (o_lease_time o) (o_server o) (o_hostname o) (Some d)
  else o.

(** The loop over the options; one round for each byte is enough. *)
Fixpoint options_loop (fuel : nat) (data : list Z) (offset : nat) (o : options) : option (outcome options) :=
  if (length data <=? offset)%nat then Some (Ret o)
  else
    match fuel with
    | O => None
    | S f =>
        let opt := get data offset in
        if opt =? 0 then options_loop f data (offset + 1) o
        else if opt =? 255 then Some (Ret o)
        else if (length data <=? offset + 1)%nat then Some (Ret o)
        else
          let len := Z.to_nat (get data (offset + 1)) in
          match slice data (offset + 2) (offset + 2 + Nat.min len (length data - offset - 2)) with
          | Panic => Some Panic
          | Ret d => options_loop f data (offset + 2 + len) (apply_option o opt d)
          end
    end.

Inductive DhcpResponseResult := ROffer (l : DhcpLease) | RAck (l : DhcpLease) | RNak.
Inductive ResponseError := PacketTooSmall | XidMismatch | NotAReply | InvalidCookie | NoMessageType | UnexpectedType.

Definition lease_of (data : list Z) (o : options) (current_tick : Z) : DhcpLease :=
  mkLease (take 4 (drop 16 data)) (default [255; 255; 255; 0] (o_mask o)) (o_router o) (o_dns o) (default (take 4 (drop 20 data)) (o_server o)) (o_lease_time o) current_tick (o_hostname o) (o_domain o).

Definition process_response (c : DhcpClient) (data : list Z) (current_tick : Z) : option (outcome (result DhcpResponseResult ResponseError * DhcpClient)) :=
  if (length data <? SIZE + 4)%nat then Some (Ret (Err PacketTooSmall, c))
  else if negb (from_be32 data 4 =? xid c) then Some (Ret (Err XidMismatch, c))
  else if negb (get data 0 =? 2) then Some (Ret (Err NotAReply, c))
  else if negb (bool_decide (take 4 (drop SIZE data) = DHCP_MAGIC_COOKIE)) then Some (Ret (Err InvalidCookie, c))
  else
    match options_loop (length data) data (SIZE + 4) no_options with
    | None => None
    | Some Panic => Some Panic
    | Some (Ret o) =>
        Some (Ret
          match o_type o with
          | None => (Err NoMessageType, c)
          | Some Offer =>
              let l := lease_of data o current_tick in
              (Ok (ROffer l), mkClient (mac_address c) (state c) (xid c) (lease c) (Some l) (state_time c) (retry_count c))
          | Some Ack =>
              let l := lease_of data o current_tick in
              (Ok (RAck l), mkClient (mac_address c) Bound (xid c) (Some l) (offered_lease c) current_tick 0)
          | Some Nak => (Ok RNak, mkClient (mac_address c) Init (xid c) (lease c) None (state_time c) (retry_count c))
          | Some _ => (Err UnexpectedType, c)
          end)
    end.

Definition release (c : DhcpClient) : DhcpClient := mkClient (mac_address c) Init (xid c) None None (state_time c) (retry_count c).

Definition check_timeout (c : DhcpClient) (current_tick tick_rate : Z) : outcome (bool * DhcpClient) :=
  let! e := elapsed_secs (state_time c) current_tick tick_rate in
  match state c with
  | Selecting | Requesting =>
      if e >? 4 then
        if retry_count c >=? MAX_RETRIES then Ret (true, mkClient (mac_address c) Init (xid c) (lease c) (offered_lease c) (state_time c) 0)
        else Ret (true, mkClient (mac_address c) (state c) (xid c) (lease c) (offered_lease c) (state_time c) (wrap32 (retry_count c + 1)))
      else Ret (false, c)
  | Bound =>
      match lease c with
      | Some l => let! n := needs_renewal l current_tick tick_rate in Ret (if n then (true, set_state c Renewing) else (false, c))
      | None => Ret (false, c)
      end
  | _ => Ret (false, c)
  end.

End Dhcp.
