(* ===== verification/NetConfigTheorems.v ===== *)
(** * Theorems of name resolution and address configuration

    A query carries the name it was made for; the search through a name with
    pointers ends within as many rounds as the message has bytes or never, and there
    are messages for which it never ends; what a response says is what the cache
    answers until it expires.  The options of a DHCP message are read as written,
    whatever the message, and an acknowledgement binds the address it carries. *)

From stdpp Require Import base list gmap.
From Stdlib Require Import ZArith Lia.
From S2P Require Import Prelude NetBytes Ipv4 Loader NetConfig.

Local Open Scope Z_scope.

(** ** Strings and buffers *)

Definition ascii (l : list Z) : Prop := Forall (fun b => 0 <= b < 128) l.

Lemma lossy_ascii l : ascii l -> from_utf8_lossy l = l.
Proof.
  unfold from_utf8_lossy. induction 1 as [|b l Hb Hl IH]; [done|]. cbn [lossy]. unfold Utf8.utf8_lead.
  rewrite (proj2 (Z.leb_le 0 b)), (proj2 (Z.leb_le b 127)) by lia. cbn [andb]. by rewrite IH.
Qed.

Lemma write_in b i x : (i + length x <= length b)%nat -> write b i x = Ret (put b i x) /\ length (put b i x) = length b.
Proof.
  intros H. unfold write. rewrite (proj2 (Nat.leb_le _ _)) by done. split; [done|]. unfold put. rewrite !length_app, length_take, length_drop. lia.
Qed.

Lemma get_app_r a b i : (length a <= i)%nat -> get (a ++ b) i = get b (i - length a).
Proof. intros H. unfold get. by rewrite app_nth2. Qed.

Module DnsSpec.
Import Dns.

(** ** Queries carry their name *)

Definition encode (ls : list (list Z)) : list Z := concat ((fun l => Z.of_nat (length l) :: l) <$> ls).
Definition nonempty (ls : list (list Z)) : list (list Z) := filter (fun l => l <> []) ls.
Definition add_label (n l : list Z) : list Z := (if bool_decide (n = []) then n else n ++ [46]) ++ l.

Lemma write_labels_spec ls b o : Forall (fun l => (length l <= 63)%nat) ls -> (o + length (encode (nonempty ls)) <= length b)%nat ->
  write_labels b o ls = Ret (Ok (o + length (encode (nonempty ls)))%nat, put b o (encode (nonempty ls))).
Proof.
  revert b o. induction ls as [|l ls IH]; intros b o Hl Ho.
  - cbn. unfold put. cbn. by rewrite Nat.add_0_r, take_drop.
  - apply Forall_cons in Hl as [Hl1 Hl]. cbn [write_labels]. unfold nonempty in *. rewrite filter_cons in *. destruct (decide (l <> [])) as [Hne|He].
    + rewrite bool_decide_eq_false_2 by done. rewrite (proj2 (Nat.ltb_ge _ _)) by lia. cbn [encode fmap list_fmap concat] in *. fold (encode (filter (fun l => l <> []) ls)) in *.
      set (r := encode (filter (fun l => l <> []) ls)) in *. cbn [app length] in Ho. rewrite length_app in Ho.
      destruct (write_in b o [Z.of_nat (length l)]) as [E1 L1]; [cbn; lia|]. rewrite E1. cbn [obind].
      destruct (write_in (put b o [Z.of_nat (length l)]) (o + 1) l) as [E2 L2]; [lia|]. rewrite E2. cbn [obind].
      change (o + 1)%nat with (o + length [Z.of_nat (length l)])%nat in *. rewrite put_put in * by (cbn; lia). cbn [app] in *.
      replace (o + length [Z.of_nat (length l)] + length l)%nat with (o + length (Z.of_nat (length l) :: l))%nat by (cbn; lia).
      rewrite IH by (done || (rewrite L2, L1; fold r; cbn; lia)). fold r. rewrite put_put by (cbn; lia). do 3 f_equal. cbn [app length]. rewrite ?length_app. lia.
    + assert (l = []) as -> by (destruct l; [done | by exfalso; apply He]). rewrite bool_decide_eq_true_2 by done. by apply IH.
Qed.

Lemma split_dot_size n : (length (encode (nonempty (split_dot n))) <= length n + 1)%nat /\ split_dot n <> [].
Proof.
  assert (H : length (encode (split_dot n)) = (length n + 1)%nat /\ split_dot n <> []).
  { induction n as [|b n [IH Hne]]; [done|]. cbn [split_dot]. destruct (b =? 46).
    - split; [|done]. unfold encode in *. cbn. lia.
    - destruct (split_dot n) as [|p r]; [done|]. split; [|done]. unfold encode in *. cbn in *. lia. }
  destruct H as [H Hne]. split; [|done]. etrans; [|rewrite <- H; reflexivity]. unfold nonempty, encode. clear. induction (split_dot n) as [|l ls IH]; [done|].
  rewrite filter_cons. destruct (decide (l <> [])); cbn; rewrite ?length_app; lia.
Qed.

Lemma small_length_tag x : 0 <= x < 64 -> Z.land x 192 = 0.
Proof.
  intros H. assert (Ha : forallb (fun n => Z.land (Z.of_nat n) 192 =? 0) (seq 0 64) = true) by (vm_compute; reflexivity).
  rewrite forallb_forall in Ha. specialize (Ha (Z.to_nat x)). rewrite Z2Nat.id in Ha by lia. apply Z.eqb_eq, Ha. apply in_seq. lia.
Qed.

Definition label_ok (l : list Z) : Prop := l <> [] /\ (length l <= 63)%nat /\ ascii l.

(** Reading what was encoded, label by label. *)
Lemma name_loop_labels fuel ls pre post n orig fin : Forall label_ok ls -> (length ls <= fuel)%nat ->
  name_loop fuel (pre ++ encode ls ++ 0 :: post) orig (length pre, n, false, fin) = Some (Ok (foldl add_label n ls, (length pre + length (encode ls) + 1)%nat)).
Proof.
  revert fuel pre n. induction ls as [|l ls IH]; intros fuel pre n Hl Hf.
  - cbn [encode fmap list_fmap concat app foldl length]. destruct fuel; cbn [name_loop name_round]; rewrite (proj2 (Nat.leb_gt _ _)) by (rewrite length_app; cbn; lia);
      rewrite get_app_r by lia; rewrite Nat.sub_diag; cbn; do 3 f_equal; lia.
  - apply Forall_cons in Hl as [(Hne & H63 & Ha) Hl]. destruct fuel as [|fuel]; [cbn in Hf; lia|]. cbn [length] in Hf.
    assert (Hpos : (0 < length l)%nat) by (destruct l; [done | cbn; lia]). change (encode (l :: ls)) with (Z.of_nat (length l) :: (l ++ encode ls)).
    set (rest := l ++ encode ls ++ 0 :: post). assert (Ed : pre ++ (Z.of_nat (length l) :: l ++ encode ls) ++ 0 :: post = pre ++ Z.of_nat (length l) :: rest) by (unfold rest; cbn [app]; by rewrite <- app_assoc).
    rewrite Ed. set (data := pre ++ Z.of_nat (length l) :: rest). assert (Hd : length data = (length pre + 1 + length l + length (encode ls ++ 0%Z :: post))%nat) by (unfold data, rest; rewrite !length_app; cbn [length]; rewrite !length_app; cbn [length]; lia).
    assert (Hg : get data (length pre) = Z.of_nat (length l)) by (unfold data; rewrite get_app_r by lia; by rewrite Nat.sub_diag).
    cbn [name_loop]. unfold name_round. rewrite (proj2 (Nat.leb_gt _ _)), Hg by lia. rewrite (proj2 (Z.eqb_neq _ 0)) by lia. rewrite small_length_tag by lia. cbn [Z.eqb]. rewrite Nat2Z.id.
    rewrite (proj2 (Nat.ltb_ge _ _)) by lia. assert (Et : take (length l) (drop (length pre + 1) data) = l).
    { unfold data. rewrite drop_app_ge by lia. replace (length pre + 1 - length pre)%nat with 1%nat by lia. change (drop 1 (Z.of_nat (length l) :: rest)) with rest. unfold rest. by rewrite take_app_length. }
    rewrite Et, lossy_ascii by done. fold (add_label n l).
    specialize (IH fuel (pre ++ Z.of_nat (length l) :: l) (add_label n l) Hl ltac:(lia)). rewrite <- app_assoc in IH. cbn [app] in IH. fold rest in IH. fold data in IH.
    rewrite length_app in IH. cbn [length] in IH. replace (length pre + 1 + length l)%nat with (length pre + S (length l))%nat by lia. rewrite IH. cbn [foldl length]. do 3 f_equal. rewrite length_app. lia.
Qed.

Lemma foldl_add_label ls n : n <> [] -> Forall (fun l => l <> []) ls -> foldl add_label n ls = n ++ concat ((fun l => 46 :: l) <$> ls).
Proof.
  revert n. induction ls as [|l ls IH]; intros n Hn Hl; [by rewrite app_nil_r|]. apply Forall_cons in Hl as [Hl1 Hl]. cbn [foldl fmap list_fmap concat].
  rewrite IH; [|unfold add_label; by destruct n | done]. unfold add_label at 1. rewrite bool_decide_eq_false_2 by done. by rewrite <- !app_assoc.
Qed.

(** A name without empty labels is its labels with dots between them. *)
Lemma join_split n : Forall (fun l => l <> []) (split_dot n) -> foldl add_label [] (split_dot n) = n.
Proof.
  assert (H : forall n, exists p r, split_dot n = p :: r /\ n = p ++ concat ((fun l => 46 :: l) <$> r)).
  { clear. induction n as [|b n (p & r & E & En)]; [by exists [], []|]. cbn [split_dot]. rewrite E. destruct (Z.eqb_spec b 46) as [->|].
    - exists [], (p :: r). split; [done|]. cbn. by rewrite <- En.
    - exists (b :: p), r. split; [done|]. cbn. by rewrite <- En. }
  intros Hl. destruct (H n) as (p & r & E & En). rewrite E in *. apply Forall_cons in Hl as [Hp Hr]. cbn [foldl]. change (add_label [] p) with p. rewrite foldl_add_label by done. done.
Qed.

Definition query_header (id : Z) : list Z := to_be16 id ++ to_be16 256 ++ to_be16 1 ++ to_be16 0 ++ to_be16 0 ++ to_be16 0.

(** The message of a query, in front of what the buffer had. *)
Lemma build_query_spec c buffer n t : Forall (fun l => (length l <= 63)%nat) (split_dot n) -> (SIZE + length n + 6 <= length buffer)%nat ->
  let e := encode (nonempty (split_dot n)) in
  exists c', build_query c buffer n t = Ret (Ok (SIZE + length e + 5)%nat, query_header (next_id c) ++ e ++ 0 :: to_be16 (query_type_u16 t) ++ to_be16 1 ++ drop (SIZE + length e + 5) buffer, c') /\
    next_id c' = wrap16 (next_id c + 1).
Proof.
  intros Hl Hb e. destruct (split_dot_size n) as [Hs _]. fold e in Hs. unfold build_query. rewrite (proj2 (Nat.ltb_ge _ _)) by done. fold (query_header (next_id c)).
  destruct (write_in buffer 0 (query_header (next_id c))) as [E1 L1]; [cbn [query_header length app to_be16]; unfold SIZE in Hb; lia|]. rewrite E1. cbn [obind].
  rewrite write_labels_spec by (done || (fold e; rewrite L1; unfold SIZE in *; lia)). fold e. cbn [obind]. change SIZE with (0 + length (query_header (next_id c)))%nat at 1 2.
  rewrite put_put by (cbn [query_header length app to_be16]; unfold SIZE in *; lia). set (h := query_header (next_id c)) in *. assert (Hh : length h = 12%nat) by done. rewrite Nat.add_0_l.
  set (b2 := put buffer 0 (h ++ e)). assert (L2 : length b2 = length buffer) by (apply write_in; rewrite length_app; unfold SIZE in *; lia).
  change SIZE with 12%nat in *. destruct (write_in b2 (length h + length e) [0]) as [E3 L3]; [cbn; lia|]. rewrite Hh in E3, L3 |- *. rewrite E3. cbn [obind].
  destruct (write_in (put b2 (12 + length e) [0]) (12 + length e + 1) (to_be16 (query_type_u16 t))) as [E4 L4]; [cbn [length to_be16]; lia|]. rewrite E4. cbn [obind].
  destruct (write_in (put (put b2 (12 + length e) [0]) (12 + length e + 1) (to_be16 (query_type_u16 t))) (12 + length e + 3) (to_be16 1)) as [E5 L5]; [cbn [length to_be16]; lia|].
  rewrite E5. cbn [obind]. match goal with |- context [Ret (Ok _, ?b, _)] => assert (Eb : b = h ++ e ++ 0 :: to_be16 (query_type_u16 t) ++ to_be16 1 ++ drop (12 + length e + 5) buffer) end.
  { replace (12 + length e + 3)%nat with (12 + length e + length ([0%Z] ++ to_be16 (query_type_u16 t)))%nat by (cbn; lia). change (12 + length e + 1)%nat with (12 + length e + length [0%Z])%nat.
    rewrite put_put by (cbn; lia). rewrite put_put by (cbn; lia). unfold b2. replace (12 + length e)%nat with (0 + length (h ++ e))%nat at 1 by (rewrite length_app; lia).
    rewrite put_put by (rewrite ?length_app; cbn; lia). unfold put. rewrite take_0. cbn [app]. rewrite <- !app_assoc. do 2 f_equal. cbn [app to_be16]. do 5 f_equal. f_equal. rewrite !length_app, Hh. cbn. lia. }
  rewrite Eb. eexists. split; reflexivity.
Qed.

Lemma skip_name_labels fuel ls pre post : Forall label_ok ls -> (length ls <= fuel)%nat ->
  skip_name fuel (pre ++ encode ls ++ 0 :: post) (length pre) = Some (Ok (length pre + length (encode ls) + 1)%nat).
Proof.
  revert fuel pre. induction ls as [|l ls IH]; intros fuel pre Hl Hf.
  - cbn [encode fmap list_fmap concat app length]. destruct fuel; cbn [skip_name]; rewrite (proj2 (Nat.leb_gt _ _)) by (rewrite length_app; cbn; lia);
      rewrite get_app_r by lia; rewrite Nat.sub_diag; cbn; do 2 f_equal; lia.
  - apply Forall_cons in Hl as [(Hne & H63 & Ha) Hl]. destruct fuel as [|fuel]; [cbn in Hf; lia|]. cbn [length] in Hf.
    assert (Hpos : (0 < length l)%nat) by (destruct l; [done | cbn; lia]). change (encode (l :: ls)) with (Z.of_nat (length l) :: (l ++ encode ls)).
    specialize (IH fuel (pre ++ Z.of_nat (length l) :: l) Hl ltac:(lia)). rewrite <- !app_assoc in IH. cbn [app] in IH. rewrite length_app in IH. cbn [length app] in *. rewrite <- app_assoc.
    cbn [skip_name]. rewrite (proj2 (Nat.leb_gt _ _)) by (rewrite length_app; cbn; lia). rewrite get_app_r by lia. rewrite Nat.sub_diag. cbn [get nth].
    rewrite (proj2 (Z.eqb_neq _ 0)), small_length_tag by lia. cbn [Z.eqb]. rewrite Nat2Z.id. replace (length pre + 1 + length l)%nat with (length pre + S (length l))%nat by lia.
    rewrite IH. do 2 f_equal. rewrite length_app. lia.
Qed.

Lemma encode_length ls : (length ls <= length (encode ls))%nat.
Proof. unfold encode. induction ls as [|l ls IH]; cbn; rewrite ?length_app; lia. Qed.

(** C24: a query for a name of non-empty ASCII labels of at most 63 bytes fits into a buffer of
    the length the code asks for, and the name read from it, by the parser of
    responses, is the name asked for; skipping the name ends at the same place. *)
Theorem query_roundtrip c buffer n t :
  Forall label_ok (split_dot n) -> (SIZE + length n + 6 <= length buffer)%nat ->
  exists k b c', build_query c buffer n t = Ret (Ok k, b, c') /\ length b = length buffer /\
    parse_name (length b) b SIZE = Some (Ok (n, (k - 4)%nat)) /\ skip_name (length b) b SIZE = Some (Ok (k - 4)%nat) /\
    get16 b (k - 4) = query_type_u16 t /\ is_response b = false.
Proof.
  intros Hl Hb. assert (H63 : Forall (fun l => (length l <= 63)%nat) (split_dot n)) by (eapply Forall_impl; [exact Hl|]; by intros l (_ & ? & _)).
  assert (Hne : Forall (fun l => l <> []) (split_dot n)) by (eapply Forall_impl; [exact Hl|]; by intros l (? & _)).
  assert (En : nonempty (split_dot n) = split_dot n) by (unfold nonempty; clear - Hne; induction Hne as [|l ls Hx Hls IH]; [done|]; rewrite filter_cons, decide_True, IH by done; done).
  destruct (build_query_spec c buffer n t H63 Hb) as (c' & E & _). rewrite En in E. set (e := encode (split_dot n)) in *. set (post := to_be16 (query_type_u16 t) ++ to_be16 1 ++ drop (SIZE + length e + 5) buffer) in *.
  destruct (split_dot_size n) as [Hs _]. rewrite En in Hs. fold e in Hs. set (h := query_header (next_id c)) in *. assert (Hh : length h = 12%nat) by done. change SIZE with 12%nat in *.
  exists (12 + length e + 5)%nat, (h ++ e ++ 0 :: post), c'. split; [done|]. assert (Hlen : length (h ++ e ++ 0 :: post) = length buffer).
  { rewrite !length_app, Hh. cbn [length]. unfold post. rewrite !length_app, length_drop. cbn [length to_be16]. lia. }
  split; [done|]. assert (Hf : (length (split_dot n) <= length (h ++ e ++ 0%Z :: post))%nat) by (pose proof (encode_length (split_dot n)) as Hel; fold e in Hel; rewrite !length_app; lia).
  split; [|split; [|split]].
  - unfold parse_name. change 12%nat with (length h) at 1 2. unfold e. rewrite name_loop_labels by done. fold e. rewrite join_split by done. do 3 f_equal. lia.
  - change 12%nat with (length h) at 1. unfold e. rewrite skip_name_labels by done. fold e. do 2 f_equal. lia.
  - unfold get16. rewrite !get_app_r by (rewrite ?Hh; lia). rewrite Hh. replace (12 + length e + 5 - 4 - 12 - length e)%nat with 1%nat by lia. replace (12 + length e + 5 - 4 + 1 - 12 - length e)%nat with 2%nat by lia.
    destruct t; reflexivity.
  - unfold is_response, flags, get16, get. rewrite !app_nth1 by (rewrite Hh; lia). reflexivity.
Qed.

(** The name "a.bc" *)
Lemma query_roundtrip_witness : exists k b c', build_query (client_new 1) (replicate 30 7) [97; 46; 98; 99] A = Ret (Ok k, b, c') /\ parse_name (length b) b SIZE = Some (Ok ([97; 46; 98; 99], (k - 4)%nat)).
Proof.
  destruct (query_roundtrip (client_new 1) (replicate 30 7) [97; 46; 98; 99] A) as (k & b & c' & E & _ & E2 & _).
  - cbn. repeat constructor; discriminate || (cbn; lia).
  - vm_compute. repeat constructor.
  - exists k, b, c'. exact (conj E E2).
Defined.

(** ** Names with pointers *)

(** The offset of the next round depends on the offset alone. *)
Definition next_offset (data : list Z) (orig o : nat) : option nat :=
  if (length data <=? o)%nat then None
  else if get data o =? 0 then None
  else if Z.land (get data o) 192 =? 192 then
    if (length data <=? o + 1)%nat then None else if (orig <=? pointer data o)%nat then None else Some (pointer data o)
  else if (length data <? o + 1 + Z.to_nat (get data o))%nat then None else Some (o + 1 + Z.to_nat (get data o))%nat.

Lemma name_round_next data orig s :
  match name_round data orig s with
  | inl _ => next_offset data orig s.1.1.1 = None
  | inr s' => next_offset data orig s.1.1.1 = Some s'.1.1.1
  end.
Proof.
  destruct s as [[[o n] j] f]. unfold name_round, next_offset. cbn [fst]. destruct (length data <=? o)%nat; [done|]. destruct (get data o =? 0); [done|].
  destruct (Z.land (get data o) 192 =? 192).
  - destruct (length data <=? o + 1)%nat; [done|]. by destruct (orig <=? pointer data o)%nat.
  - by destruct (length data <? o + 1 + Z.to_nat (get data o))%nat.
Qed.

Section Walk.
Context (next : nat -> option nat).

Fixpoint walk (n : nat) (o : nat) : option nat := match n with O => Some o | S n' => match next o with Some o' => walk n' o' | None => None end end.

Lemma walk_add m n o : walk (m + n) o = match walk m o with Some x => walk n x | None => None end.
Proof. revert o. induction m as [|m IH]; intros o; [done|]. cbn. destruct (next o); [apply IH | done]. Qed.

Lemma walk_le m n o : (m <= n)%nat -> is_Some (walk n o) -> is_Some (walk m o).
Proof. intros H [x Hx]. replace n with (m + (n - m))%nat in Hx by lia. rewrite walk_add in Hx. destruct (walk m o); [by eexists | done]. Qed.

(** A walk that comes back never ends. *)
Lemma walk_cycle k o n : (0 < k)%nat -> walk k o = Some o -> is_Some (walk n o).
Proof.
  intros Hk E. revert n. assert (H : forall q, walk (q * k) o = Some o) by (induction q as [|q IH]; [done|]; replace (S q * k)%nat with (k + q * k)%nat by lia; by rewrite walk_add, E).
  intros n. apply (walk_le n (n * k)); [nia|]. rewrite H. by eexists.
Qed.

Lemma duplicate (l : list nat) : ~ NoDup l -> exists i j x, (i < j)%nat /\ l !! i = Some x /\ l !! j = Some x.
Proof.
  induction l as [|a l IH]; intros H; [by exfalso; apply H; constructor|]. destruct (decide (a ∈ l)) as [Ha|Ha].
  - apply list_elem_of_lookup in Ha as [j Hj]. exists 0%nat, (S j), a. split; [lia | done].
  - destruct IH as (i & j & x & Hij & Hi & Hj); [intros Hl; apply H; by constructor|]. exists (S i), (S j), x. split; [lia | done].
Qed.

(** A walk inside [L] places that takes more than [L] steps comes back. *)
Lemma long_walk_never_ends L o : (forall x, is_Some (next x) -> (x < L)%nat) -> is_Some (walk (S L) o) -> forall n, is_Some (walk n o).
Proof.
  intros HL Hw. set (l := (fun i => default O (walk i o)) <$> seq 0 (S L)).
  assert (Hall : forall i, (i < S L)%nat -> exists x, walk i o = Some x /\ (x < L)%nat).
  { intros i Hi. destruct (walk_le (S i) (S L) o ltac:(lia) Hw) as [y Hy]. replace (S i) with (i + 1)%nat in Hy by lia. rewrite walk_add in Hy.
    destruct (walk i o) as [x|]; [|done]. exists x. split; [done|]. apply HL. cbn in Hy. destruct (next x); [by eexists | done]. }
  assert (Hnd : ~ NoDup l).
  { intros Hnd. assert (Hs : l ⊆+ seq 0 L).
    { apply NoDup_submseteq; [done|]. intros x Hx. apply list_elem_of_fmap in Hx as (i & -> & Hi). apply elem_of_seq in Hi. destruct (Hall i ltac:(lia)) as (x & -> & Hx). apply elem_of_seq. cbn. lia. }
    apply submseteq_length in Hs. unfold l in Hs. rewrite length_fmap, !length_seq in Hs. lia. }
  destruct (duplicate l Hnd) as (i & j & x & Hij & Hi & Hj). unfold l in Hi, Hj. rewrite list_lookup_fmap in Hi, Hj.
  assert (Hjl : (j < S L)%nat) by (destruct (seq 0 (S L) !! j) as [y|] eqn:Ey; [|done]; apply lookup_lt_Some in Ey; by rewrite length_seq in Ey).
  rewrite lookup_seq_lt in Hi, Hj by lia. cbn in Hi, Hj. destruct (Hall i ltac:(lia)) as (xi & Ei & _), (Hall j Hjl) as (xj & Ej & _). rewrite Ei in Hi. rewrite Ej in Hj. cbn in Hi, Hj.
  injection Hi as ->. injection Hj as ->. assert (Ec : walk (j - i) x = Some x) by (replace j with (i + (j - i))%nat in Ej by lia; by rewrite walk_add, Ei in Ej).
  intros n. apply (walk_le n (i + n)); [lia|]. rewrite walk_add, Ei. apply (walk_cycle (j - i)); [lia | done].
Qed.

End Walk.

Lemma name_loop_walk fuel data orig s : name_loop fuel data orig s = None <-> is_Some (walk (next_offset data orig) (S fuel) s.1.1.1).
Proof.
  revert s. induction fuel as [|fuel IH]; intros s; cbn [name_loop]; pose proof (name_round_next data orig s) as H; destruct (name_round data orig s) as [r|s'].
  - cbn. rewrite H. split; [done | by intros [? ?]].
  - cbn. rewrite H. split; [by eexists | done].
  - change (walk _ (S (S fuel)) s.1.1.1) with (match next_offset data orig s.1.1.1 with Some o' => walk (next_offset data orig) (S fuel) o' | None => None end). rewrite H. split; [done | by intros [? ?]].
  - change (walk _ (S (S fuel)) s.1.1.1) with (match next_offset data orig s.1.1.1 with Some o' => walk (next_offset data orig) (S fuel) o' | None => None end). rewrite H. apply IH.
Qed.

Lemma parse_name_forever data o : parse_name (length data) data o = None -> forall fuel, parse_name fuel data o = None.
Proof.
  unfold parse_name. rewrite name_loop_walk. cbn [fst]. intros H fuel. apply name_loop_walk. cbn [fst]. apply (long_walk_never_ends _ (length data)); [|done].
  intros x [y Hy]. unfold next_offset in Hy. destruct (Nat.leb_spec (length data) x); [done | lia].
Qed.

Lemma name_loop_more data orig fuel fuel' s r : (fuel <= fuel')%nat -> name_loop fuel data orig s = Some r -> name_loop fuel' data orig s = Some r.
Proof.
  revert fuel' s. induction fuel as [|fuel IH]; intros fuel' s Hle E; cbn [name_loop] in E; destruct fuel' as [|fuel']; cbn [name_loop]; try lia; destruct (name_round data orig s); try done.
  apply IH; [lia | done].
Qed.

(** reading a name ends within as many rounds as the message has bytes, or never:
    with that many rounds the answer is known. *)
Theorem parse_name_decided data o :
  (exists r, forall fuel, (length data <= fuel)%nat -> parse_name fuel data o = Some r) \/ (forall fuel, parse_name fuel data o = None).
Proof.
  destruct (parse_name (length data) data o) as [r|] eqn:E; [|right; by apply parse_name_forever]. left. exists r. intros fuel Hf. unfold parse_name in *. by apply (name_loop_more _ _ (length data)).
Qed.

(** A response whose question is a pointer to itself. *)
Definition loop_message : list Z := [0; 1; 128; 0; 0; 1; 0; 1; 0; 0; 0; 0; 192; 12; 0; 1; 0; 1; 192; 12; 0; 1; 0; 1; 0; 0; 0; 9; 0; 4; 1; 2; 3; 4].

(** there is a response of 34 bytes that the client never finishes to read: a
    pointer may lead to itself, as long as it is in front of the name that is read. *)
Theorem pointer_loop_never_ends fuel c tick : parse_response fuel c loop_message tick = None.
Proof.
  assert (E : parse_name fuel loop_message 18 = None) by (apply parse_name_forever; vm_compute; reflexivity).
  unfold parse_response. change (length loop_message <? SIZE)%nat with false. change (is_response loop_message) with true. change (rcode loop_message) with NoError. rewrite bool_decide_eq_true_2 by done. cbn [negb].
  change (skip_questions (question_count loop_message) loop_message SIZE) with (Some (@Ok nat DnsResponseCode 18%nat)). change (answer_count loop_message) with 1%nat. cbn [parse_answers].
  change (length loop_message <=? 18)%nat with false. by rewrite E.
Qed.

(** ** The cache *)

Lemma cache_lookup_inserted c n rs t c' t' : cache_insert c n rs t = Ret c' -> tick_rate c <> 0 -> Z.max 0 (t' - t) / tick_rate c <= ttl_min rs -> lookup c' n t' = Ret (Some (mkEntry rs t (ttl_min rs))).
Proof.
  intros E Hr Hx. unfold cache_insert in E. assert (Ec : exists c1, c' = mkCache (<[n := mkEntry rs t (ttl_min rs)]> (entries c1)) (max_entries c1) (tick_rate c1) /\ tick_rate c1 = tick_rate c).
  { destruct (max_entries c <=? _)%nat; cbn [obind] in E; [|injection E as <-; by exists c]. unfold cleanup in E. rewrite (proj2 (Z.eqb_neq _ 0) Hr) in E. cbn [andb obind] in E. injection E as <-. eexists (mkCache _ _ _). split; reflexivity. }
  destruct Ec as (c1 & -> & Er). unfold lookup, is_expired. cbn [entries tick_rate]. rewrite lookup_insert_eq, Er, (proj2 (Z.eqb_neq _ 0) Hr). cbn [obind]. unfold expired. cbn [cached_at min_ttl].
  rewrite Z.gtb_ltb, (proj2 (Z.ltb_ge _ _)) by lia. done.
Qed.

(** the first address in a response is what the client answers for the name of
    the response's first record, until the shortest time to live in it is over. *)
Theorem response_is_cached fuel c data t r rs c' ip t' :
  parse_response fuel c data t = Some (Ret (Ok (r :: rs), c')) -> first_address (r :: rs) = Some ip -> tick_rate (cache c) <> 0 ->
  Z.max 0 (t' - t) / tick_rate (cache c) <= ttl_min (r :: rs) -> exists c'', resolve_cached c' (r_name r) t' = Ret (Some ip, c'').
Proof.
  intros E Hip Hr Hx. unfold parse_response in E. destruct (length data <? SIZE)%nat; [done|]. destruct (negb (is_response data)); [done|]. destruct (negb (bool_decide _)); [done|].
  destruct (skip_questions _ _ _) as [[o|e]|]; [|done|done]. destruct (parse_answers _ _ _ _ _) as [[rs'|e]|]; [|done|done]. destruct rs' as [|r' rs']; [by injection E|].
  cbn [obind] in E. destruct (cache_insert _ _ _ _) as [k|] eqn:Ek; [|by injection E]. cbn [obind] in E. injection E as -> -> <-.
  unfold resolve_cached. cbn [cache]. rewrite (cache_lookup_inserted _ _ _ _ _ t' Ek) by done. cbn [obind records]. rewrite Hip. by eexists.
Qed.

Definition answer : list Z := [0; 1; 128; 0; 0; 1; 0; 1; 0; 0; 0; 0; 1; 97; 0; 0; 1; 0; 1; 192; 12; 0; 1; 0; 1; 0; 0; 0; 9; 0; 4; 1; 2; 3; 4].

Lemma response_is_cached_witness : exists rs c' c'', parse_response 40 (client_new 10) answer 5 = Some (Ret (Ok rs, c')) /\ resolve_cached c' [97] 60 = Ret (Some [1; 2; 3; 4], c'').
Proof.
  destruct (parse_response 40 (client_new 10) answer 5) as [[[[[|r rs]|e] c']|]|] eqn:E; try (vm_compute in E; discriminate).
  destruct (response_is_cached 40 (client_new 10) answer 5 r rs c' [1; 2; 3; 4] 60 E) as [c'' H].
  - vm_compute in E. injection E as <- <- <-. reflexivity.
  - vm_compute. discriminate.
  - vm_compute in E. injection E as <- <- <-. vm_compute. discriminate.
  - assert (Hn : r_name r = [97]) by (vm_compute in E; injection E as <- <- <-; reflexivity). rewrite Hn in H. exists (r :: rs), c', c''. split; [reflexivity | exact H].
Defined.

(** A response is taken whether or not a question was asked, and whatever its
    number: here by a client that has asked nothing. *)
Lemma unsolicited_response : next_id (client_new 10) = 1 /\
  match parse_response 40 (client_new 10) (put answer 0 [77; 77]) 0 with Some (Ret (Ok rs, c')) => base.size (entries (cache c')) = 1%nat | _ => False end.
Proof. vm_compute. auto. Qed.

(** A full cache without expired entries grows. *)
Lemma cache_grows : match cache_insert (mkCache {[ [1] := mkEntry [] 0 300 ]} 1 10) [2] [] 0 with Ret c => base.size (entries c) = 2%nat | Panic => False end.
Proof. vm_compute. reflexivity. Qed.

End DnsSpec.

Module DhcpSpec.
Import Dhcp.

(** ** Options *)

Lemma slice_in data a n : (a + n <= length data)%nat -> slice data a (a + n) = Ret (take n (drop a data)).
Proof.
  intros H. unfold slice. rewrite (proj2 (Nat.leb_le a (a + n))), (proj2 (Nat.leb_le (a + n) (length data))) by lia. cbn [andb]. do 2 f_equal. lia.
Qed.

Lemma options_loop_ends fuel data offset o : (length data - offset <= fuel)%nat -> exists o', options_loop fuel data offset o = Some (Ret o').
Proof.
  revert offset o. induction fuel as [|fuel IH]; intros offset o H; cbn [options_loop]; (destruct (Nat.leb_spec (length data) offset); [by eexists|]); [lia|].
  destruct (get data offset =? 0); [apply IH; lia|]. destruct (get data offset =? 255); [by eexists|]. destruct (Nat.leb_spec (length data) (offset + 1)); [by eexists|].
  rewrite slice_in by lia. apply IH. lia.
Qed.

Definition option_ok (x : Z * list Z) : Prop := x.1 <> 0 /\ x.1 <> 255 /\ (length x.2 <= 255)%nat.
Definition options_bytes (l : list (Z * list Z)) : list Z := concat ((fun x => option_bytes x.1 x.2) <$> l) ++ [255].

(** Options written one after the other are read one after the other. *)
Lemma options_loop_spec fuel l pre post o : Forall option_ok l -> (length (options_bytes l) <= fuel)%nat ->
  options_loop fuel (pre ++ options_bytes l ++ post) (length pre) o = Some (Ret (foldl (fun o x => apply_option o x.1 x.2) o l)).
Proof.
  revert fuel pre o. induction l as [|[code d] l IH]; intros fuel pre o Hl Hf.
  - cbn [options_bytes fmap list_fmap concat app] in *. destruct fuel as [|fuel]; [cbn in Hf; lia|]. cbn [options_loop foldl].
    rewrite (proj2 (Nat.leb_gt _ _)) by (rewrite length_app; cbn; lia). rewrite get_app_r by lia. rewrite Nat.sub_diag. done.
  - apply Forall_cons in Hl as [(H0 & H255 & Hd) Hl]. cbn [fst snd] in *. destruct fuel as [|fuel]; [cbn in Hf; lia|].
    change (options_bytes ((code, d) :: l)) with ((option_bytes code d ++ concat ((fun x => option_bytes x.1 x.2) <$> l)) ++ [255]) in *.
    rewrite <- (app_assoc (option_bytes code d)) in *. fold (options_bytes l) in *. rewrite <- (app_assoc (option_bytes code d)). set (rest := options_bytes l ++ post).
    assert (Hob : length (option_bytes code d) = S (S (length d))) by done. rewrite length_app, Hob in Hf.
    set (data := pre ++ option_bytes code d ++ rest). assert (Hlen : length data = (length pre + S (S (length d)) + length rest)%nat) by (unfold data; rewrite !length_app, Hob; lia).
    assert (G0 : get data (length pre) = code) by (unfold data; rewrite get_app_r by lia; by rewrite Nat.sub_diag).
    assert (G1 : get data (length pre + 1) = Z.of_nat (length d)) by (unfold data; rewrite get_app_r by lia; by replace (length pre + 1 - length pre)%nat with 1%nat by lia).
    cbn [options_loop]. rewrite (proj2 (Nat.leb_gt _ _)), G0 by lia. rewrite (proj2 (Z.eqb_neq code 0)), (proj2 (Z.eqb_neq code 255)) by done. rewrite (proj2 (Nat.leb_gt _ _)), G1, Nat2Z.id by lia.
    rewrite Nat.min_l by lia. rewrite slice_in by lia. assert (Ed : take (length d) (drop (length pre + 2) data) = d).
    { unfold data. rewrite drop_app_ge by lia. replace (length pre + 2 - length pre)%nat with 2%nat by lia. change (drop 2 (option_bytes code d ++ rest)) with (d ++ rest). by rewrite take_app_length. }
    rewrite Ed. specialize (IH fuel (pre ++ option_bytes code d) (apply_option o code d) Hl ltac:(lia)). rewrite <- app_assoc in IH. fold rest in IH. fold data in IH.
    rewrite length_app, Hob in IH. replace (length pre + 2 + length d)%nat with (length pre + S (S (length d)))%nat by lia. exact IH.
Qed.

(** ** Responses *)

(** no message makes the client loop or panic. *)
Theorem process_response_returns c data t : exists r c', process_response c data t = Some (Ret (r, c')).
Proof.
  unfold process_response. destruct (length data <? SIZE + 4)%nat; [by eexists _, _|]. destruct (negb _); [by eexists _, _|]. destruct (negb _); [by eexists _, _|]. destruct (negb _); [by eexists _, _|].
  destruct (options_loop_ends (length data) data (SIZE + 4) no_options) as [o ->]; [lia|]. destruct (o_type o) as [[]|]; by eexists _, _.
Qed.

(** A reply of a server: the number of the request, the address, the server, and the
    options. *)
Definition reply (x : Z) (yi si : list Z) (l : list (Z * list Z)) : list Z :=
  [2; 1; 6; 0] ++ to_be32 x ++ replicate 8 0 ++ yi ++ si ++ replicate 212 0 ++ DHCP_MAGIC_COOKIE ++ options_bytes l.

Definition read_options (l : list (Z * list Z)) : options := foldl (fun o x => apply_option o x.1 x.2) no_options l.

Lemma be32_roundtrip x rest : 0 <= x < 2 ^ 32 -> from_be32 (to_be32 x ++ rest) 0 = x.
Proof.
  intros H. unfold from_be32, to_be32, get16. cbn [Nat.add app get nth to_be16].
  assert (E1 : from_be16 (Z.land (Z.shiftr (Z.shiftr x 16) 8) 255) (Z.land (Z.shiftr x 16) 255) = Z.shiftr x 16).
  { apply from_to_be16. rewrite Z.shiftr_div_pow2 by lia. split; [apply Z.div_pos; lia | apply Z.div_lt_upper_bound; lia]. }
  assert (E2 : from_be16 (Z.land (Z.shiftr (Z.land x 65535) 8) 255) (Z.land (Z.land x 65535) 255) = Z.land x 65535).
  { apply from_to_be16. change 65535 with (Z.ones 16). rewrite Z.land_ones by lia. apply Z.mod_pos_bound. lia. }
  cbn [nth]. rewrite E1, E2. change 65535 with (Z.ones 16). apply Z.bits_inj'. intros i Hi. rewrite Z.lor_spec, Z.land_spec, Z.testbit_ones by lia. destruct (Z.lt_ge_cases i 16).
  - rewrite Z.shiftl_spec_low by lia. rewrite (proj2 (Z.leb_le 0 i)), (proj2 (Z.ltb_lt i 16)) by lia. by rewrite andb_true_r.
  - rewrite Z.shiftl_spec, Z.shiftr_spec by lia. rewrite (proj2 (Z.ltb_ge i 16)) by lia. rewrite !andb_false_r, orb_false_r. f_equal. lia.
Qed.

Lemma reply_fields x yi si l : length yi = 4%nat -> length si = 4%nat -> 0 <= x < 2 ^ 32 ->
  let d := reply x yi si l in
  (SIZE + 4 <= length d)%nat /\ from_be32 d 4 = x /\ get d 0 = 2 /\ take 4 (drop SIZE d) = DHCP_MAGIC_COOKIE /\ take 4 (drop 16 d) = yi /\ take 4 (drop 20 d) = si /\
  exists pre, length pre = (SIZE + 4)%nat /\ d = pre ++ options_bytes l ++ [].
Proof.
  intros Hy Hs Hx d. destruct yi as [|y0 [|y1 [|y2 [|y3 [|? ?]]]]]; try done. destruct si as [|s0 [|s1 [|s2 [|s3 [|? ?]]]]]; try done.
  unfold d, reply. split; [rewrite !length_app; cbn; lia|]. split; [exact (be32_roundtrip x (replicate 8 0 ++ [y0; y1; y2; y3] ++ [s0; s1; s2; s3] ++ replicate 212 0 ++ DHCP_MAGIC_COOKIE ++ options_bytes l) Hx)|]. split; [reflexivity|]. split; [reflexivity|]. split; [reflexivity|]. split; [reflexivity|].
  exists ([2; 1; 6; 0] ++ to_be32 x ++ replicate 8 0 ++ [y0; y1; y2; y3] ++ [s0; s1; s2; s3] ++ replicate 212 0 ++ DHCP_MAGIC_COOKIE). split; [reflexivity|]. by rewrite app_nil_r, <- !app_assoc.
Qed.

(** What a reply with the number of the request does, by its type. *)
Lemma process_reply c x yi si l t : length yi = 4%nat -> length si = 4%nat -> 0 <= x < 2 ^ 32 -> xid c = x -> Forall option_ok l ->
  let o := read_options l in let d := mkLease yi (default [255; 255; 255; 0] (o_mask o)) (o_router o) (o_dns o) (default si (o_server o)) (o_lease_time o) t (o_hostname o) (o_domain o) in
  process_response c (reply x yi si l) t = Some (Ret
    match o_type o with
    | None => (Err NoMessageType, c)
    | Some Offer => (Ok (ROffer d), mkClient (mac_address c) (state c) (xid c) (lease c) (Some d) (state_time c) (retry_count c))
    | Some Ack => (Ok (RAck d), mkClient (mac_address c) Bound (xid c) (Some d) (offered_lease c) t 0)
    | Some Nak => (Ok RNak, mkClient (mac_address c) Init (xid c) (lease c) None (state_time c) (retry_count c))
    | Some _ => (Err UnexpectedType, c)
    end).
Proof.
  intros Hy Hs Hx Hc Hl o d. destruct (reply_fields x yi si l Hy Hs Hx) as (F1 & F2 & F3 & F4 & F5 & F6 & pre & Hp & Ep). set (m := reply x yi si l) in *.
  unfold process_response. rewrite (proj2 (Nat.ltb_ge _ _)), F2, Hc, Z.eqb_refl, F3, F4 by done. rewrite bool_decide_eq_true_2 by done. cbn [negb Z.eqb Pos.eqb].
  assert (Eo : options_loop (length m) m (SIZE + 4) no_options = Some (Ret o)).
  { rewrite <- Hp, Ep at 1. rewrite Ep. rewrite options_loop_spec; [done | done |]. rewrite !length_app. lia. }
  rewrite Eo. unfold lease_of. rewrite F5, F6. reflexivity.
Qed.

(** discovering, offer, request and acknowledgement bind the address of the
    acknowledgement: the request asks for the address and the server of the offer,
    and the client ends up with the lease the options describe. *)
Theorem handshake_binds mac t1 t2 t3 t4 b yi si lo la c1 k1 b1 :
  length mac = 6%nat -> length yi = 4%nat -> length si = 4%nat -> Forall option_ok lo -> Forall option_ok la ->
  o_type (read_options lo) = Some Offer -> o_type (read_options la) = Some Ack -> o_server (read_options lo) = None -> (SIZE + 64 <= length b)%nat ->
  build_discover (client_new mac) b t1 = Ret (Ok k1, b1, c1) ->
  exists c2 k3 b3 c3 l,
    process_response c1 (reply (xid c1) yi si lo) t2 = Some (Ret (Ok (ROffer l), c2)) /\ state c1 = Selecting /\
    build_request c2 b t3 = Ret (Ok k3, b3, c3) /\ state c3 = Requesting /\ b3 = header (xid c1) mac ++ DHCP_MAGIC_COOKIE ++ request_options mac l ++ drop k3 b /\ ip_address l = yi /\ server_ip l = si /\
    exists c4 l4, process_response c3 (reply (xid c1) yi si la) t4 = Some (Ret (Ok (RAck l4), c4)) /\ state c4 = Bound /\ lease c4 = Some l4 /\ ip_address l4 = yi /\ lease_time l4 = o_lease_time (read_options la).
Proof.
  intros Hm Hy Hs Hlo Hla To Ta So Hb E. unfold build_discover in E. rewrite (proj2 (Nat.ltb_ge _ _)) in E by done. destruct (write _ _ _) as [w|]; [|done]. cbn [obind] in E. injection E as _ _ <-.
  set (c1 := mkClient _ _ _ _ _ _ _). set (x := Z.lxor (wrap32 t1) 3735928559) in *.
  assert (Hx : 0 <= x < 2 ^ 32).
  { unfold x. assert (H1 : 0 <= wrap32 t1 < 2 ^ 32) by (unfold wrap32; apply Z.mod_pos_bound; reflexivity). assert (H0 : 0 <= Z.lxor (wrap32 t1) 3735928559) by (apply Z.lxor_nonneg; lia). split; [done|].
    destruct (Z.eq_dec (Z.lxor (wrap32 t1) 3735928559) 0) as [->|Hne]; [lia|]. apply Z.log2_lt_pow2; [lia|]. eapply Z.le_lt_trans; [apply Z.log2_lxor; lia|].
    apply Z.max_lub_lt; [destruct (Z.eq_dec (wrap32 t1) 0) as [->|]; [reflexivity | apply Z.log2_lt_pow2; lia] | reflexivity]. }
  change (xid c1) with x. rewrite (process_reply c1 x yi si lo t2 Hy Hs Hx eq_refl Hlo). rewrite To. eexists _, _, _, _, _. split; [reflexivity|]. split; [reflexivity|].
  unfold build_request. rewrite (proj2 (Nat.ltb_ge _ _)) by done. cbn [offered_lease xid mac_address]. change (mac_address c1) with mac. change (xid c1) with x. rewrite So. cbn [default from_option].
  set (l := mkLease yi _ _ _ si _ _ _ _). set (m := header x mac ++ DHCP_MAGIC_COOKIE ++ request_options mac l).
  assert (Hlen : length m = 271%nat).
  { unfold m, request_options, header, option_bytes, to_be32, to_be16. cbn [ip_address server_ip l]. repeat first [rewrite length_app | progress cbn [length app]]. rewrite ?length_replicate, ?Hm, ?Hy, ?Hs. reflexivity. }
  destruct (write_in b 0 m) as [E1 _]; [rewrite Hlen; unfold SIZE in Hb; lia|]. rewrite E1. cbn [obind]. split; [reflexivity|]. split; [reflexivity|]. split; [unfold put, m; rewrite take_0; cbn [app Nat.add]; by rewrite <- !app_assoc|].
  split; [reflexivity|]. split; [reflexivity|]. set (c3 := mkClient _ Requesting _ _ _ _ _). rewrite (process_reply c3 x yi si la t4 Hy Hs Hx eq_refl Hla). rewrite Ta. eexists _, _. split; [reflexivity|]. done.
Qed.

Definition demo_offer : list (Z * list Z) := [(53, [2]); (51, [0; 0; 14; 16])].
Definition demo_ack : list (Z * list Z) := [(53, [5]); (51, [0; 0; 14; 16]); (3, [10; 0; 0; 1])].

Lemma handshake_binds_witness : exists c2 k3 b3 c3 l c4 l4 c1 k1 b1,
  build_discover (client_new [1; 2; 3; 4; 5; 6]) (replicate 300 0) 5 = Ret (Ok k1, b1, c1) /\
  process_response c1 (reply (xid c1) [10; 0; 0; 7] [10; 0; 0; 1] demo_offer) 6 = Some (Ret (Ok (ROffer l), c2)) /\ build_request c2 (replicate 300 0) 7 = Ret (Ok k3, b3, c3) /\
  process_response c3 (reply (xid c1) [10; 0; 0; 7] [10; 0; 0; 1] demo_ack) 8 = Some (Ret (Ok (RAck l4), c4)) /\ ip_address l4 = [10; 0; 0; 7] /\ lease_time l4 = 3600.
Proof.
  destruct (build_discover (client_new [1; 2; 3; 4; 5; 6]) (replicate 300 0) 5) as [[[[k1|e] b1] c1]|] eqn:E; try (vm_compute in E; discriminate).
  destruct (handshake_binds [1; 2; 3; 4; 5; 6] 5 6 7 8 (replicate 300 0) [10; 0; 0; 7] [10; 0; 0; 1] demo_offer demo_ack c1 k1 b1) as (c2 & k3 & b3 & c3 & l & E1 & _ & E2 & _ & _ & _ & _ & c4 & l4 & E3 & _ & _ & E4 & E5);
    try reflexivity; try exact E.
  - unfold demo_offer. repeat (apply Forall_cons; split; [unfold option_ok; cbn [fst snd length]; lia|]). constructor.
  - unfold demo_ack. repeat (apply Forall_cons; split; [unfold option_ok; cbn [fst snd length]; lia|]). constructor.
  - exists c2, k3, b3, c3, l, c4, l4, c1, k1, b1. split; [reflexivity|]. split; [exact E1|]. split; [exact E2|]. split; [exact E3|]. split; [exact E4|]. exact E5.
Defined.

(** ** The states *)

(** A client that thinks it has an address has one. *)
Definition lease_ok (c : DhcpClient) : Prop := (state c = Bound \/ state c = Renewing) -> is_Some (lease c).

Inductive client_op := CDiscover (b : list Z) (t : Z) | CRequest (b : list Z) (t : Z) | CResponse (d : list Z) (t : Z) | CTimeout (t rate : Z) | CRelease.

Definition client_step (c : DhcpClient) (o : client_op) : option (outcome DhcpClient) :=
  match o with
  | CDiscover b t => Some (let! (_, c') := build_discover c b t in Ret c')
  | CRequest b t => Some (let! (_, c') := build_request c b t in Ret c')
  | CResponse d t => match process_response c d t with Some x => Some (let! (_, c') := x in Ret c') | None => None end
  | CTimeout t rate => Some (let! (_, c') := check_timeout c t rate in Ret c')
  | CRelease => Some (Ret (release c))
  end.

Lemma response_lease c d t r c' : lease_ok c -> process_response c d t = Some (Ret (r, c')) -> lease_ok c'.
Proof.
  intros H E. unfold process_response in E. destruct (length d <? SIZE + 4)%nat; [by injection E as _ <-|]. destruct (negb _); [by injection E as _ <-|]. destruct (negb _); [by injection E as _ <-|].
  destruct (negb _); [by injection E as _ <-|]. destruct (options_loop _ _ _ _) as [[o|]|]; [|done|done].
  destruct (o_type o) as [[]|]; injection E as _ <-; try done; unfold lease_ok in *; cbn [state lease]; [by eexists | intros [?|?]; discriminate].
Qed.

Lemma timeout_lease c t rate r c' : lease_ok c -> check_timeout c t rate = Ret (r, c') -> lease_ok c'.
Proof.
  intros H E. unfold check_timeout in E. destruct (elapsed_secs _ _ _) as [e|]; [|done]. cbn [obind] in E. destruct (state c) eqn:Es; try (by injection E as _ <-).
  1,2: destruct (e >? 4); [|by injection E as _ <-]; destruct (retry_count c >=? MAX_RETRIES); injection E as _ <-; unfold lease_ok; cbn [state]; intros [?|?]; discriminate.
  destruct (lease c) as [l|] eqn:El; [|by injection E as _ <-]. destruct (needs_renewal l t rate) as [n|]; [|done]. cbn [obind] in E. destruct n; injection E as _ <-; [|done].
  intros _. cbn. rewrite El. by eexists.
Qed.

(** whatever messages, timeouts and requests come, a client that is bound or
    renewing has a lease. *)
Theorem bound_has_lease c o c' : lease_ok c -> client_step c o = Some (Ret c') -> lease_ok c'.
Proof.
  intros H E. destruct o; cbn [client_step] in E.
  - unfold build_discover in E. destruct (length b <? SIZE + 64)%nat; [by injection E as <-|]. destruct (write _ _ _); [|done]. cbn in E. injection E as <-. intros [?|?]; discriminate.
  - unfold build_request in E. destruct (length b <? SIZE + 64)%nat; [by injection E as <-|]. destruct (offered_lease c); [|by injection E as <-]. destruct (write _ _ _); [|done]. cbn in E. injection E as <-. intros [?|?]; discriminate.
  - destruct (process_response c d t) as [[[r c1]|]|] eqn:Ep; try done. cbn in E. injection E as <-. by apply (response_lease c d t r).
  - destruct (check_timeout c t rate) as [[r c1]|] eqn:Ep; [|done]. cbn in E. injection E as <-. by apply (timeout_lease c t rate r).
  - injection E as <-. intros [?|?]; discriminate.
Qed.

Lemma bound_has_lease_witness : lease_ok (release (client_new [1; 2; 3; 4; 5; 6])).
Proof. apply (bound_has_lease (client_new [1; 2; 3; 4; 5; 6]) CRelease); [intros [?|?]; discriminate | reflexivity]. Defined.

(** An acknowledgement is taken in every state, also by a client that asked for
    nothing. *)
Lemma unsolicited_ack : match process_response (client_new [1; 2; 3; 4; 5; 6]) (reply 0 [6; 6; 6; 6] [6; 6; 6; 6] [(53, [5])]) 0 with
  | Some (Ret (Ok (RAck _), c)) => state c = Bound /\ ip_address <$> lease c = Some [6; 6; 6; 6]
  | _ => False
  end.
Proof. vm_compute. auto. Qed.

(** once half of the lease is over the client changes to renewing, and then no
    timeout ever moves it again: it keeps the address after the lease has expired. *)
Theorem renewing_never_ends c rate ticks : state c = Renewing -> rate <> 0 ->
  ofold (fun c t => let! (_, c') := check_timeout c t rate in Ret c') c ticks = Ret c.
Proof.
  intros Hs Hr. induction ticks as [|t l IH]; cbn [ofold]; [done|]. assert (E : check_timeout c t rate = Ret (false, c)).
  { unfold check_timeout, elapsed_secs. rewrite (proj2 (Z.eqb_neq rate 0) Hr). cbn [obind]. by rewrite Hs. }
  rewrite E. exact IH.
Qed.

Definition demo_bound : DhcpClient := mkClient [1; 2; 3; 4; 5; 6] Renewing 0 (Some (mkLease [10; 0; 0; 7] [255; 255; 255; 0] None [] [10; 0; 0; 1] 10 0 None None)) None 0 0.
Lemma renewing_never_ends_witness : ofold (fun c t => let! (_, c') := check_timeout c t 1 in Ret c') demo_bound [100; 200] = Ret demo_bound.
Proof. apply renewing_never_ends; [reflexivity | lia]. Defined.

(** More than three servers are kept. *)
Lemma many_dns_servers : length (o_dns (read_options [(6, [1; 1; 1; 1; 2; 2; 2; 2; 3; 3; 3; 3; 4; 4; 4; 4])])) = 4%nat.
Proof. vm_compute. reflexivity. Qed.

End DhcpSpec.
