(* ===== verification/IoSched.v ===== *)
(** * The I/O scheduler (src/src/io/io_scheduler.rs)

    Requests wait in five queues, one for each priority, and stay in a map under
    their number; a controller for each device chooses between interrupts and
    polling; a coordinator joins the scheduler with the polling executor and the
    interrupt bridge.  A waker is a number, and an operation returns the wakers it
    wakes.  The handlers of the drivers are an interface, [PollHandler], as in the
    source.  A method is one transition, so its compare-and-exchange loops succeed
    at once. *)

From stdpp Require Import base list gmap countable.
From Stdlib Require Import ZArith Lia.
From S2P Require Import Prelude OrderedMap.

Local Open Scope Z_scope.

(** ** Requests *)

Inductive IoOperationType := Read | Write | Flush | Ioctl | OpPoll | OpCustom (code : Z).
Inductive IoPriority := Background | Idle | Normal | High | Realtime.
Inductive IoState := Pending | InProgress | Completed | Failed | Cancelled.
Inductive IoError := DeviceError | Timeout | ErrCancelled | InvalidParameter | NoResources | Busy | NotSupported.
Inductive IoResult := Success (bytes : Z) | Error (e : IoError).

#[export] Instance io_state_eq_dec : EqDecision IoState.
Proof. solve_decision. Defined.

(** [priority as usize] *)
Definition priority_index (p : IoPriority) : nat :=
  match p with Background => 0 | Idle => 1 | Normal => 2 | High => 3 | Realtime => 4 end.

Inductive DeviceId :=
  | Nvme (controller namespace : Z)
  | VirtioBlk (index : Z)
  | VirtioNet (index : Z)
  | Ahci (port : Z)
  | Usb (bus dev : Z)
  | Custom (code : Z).

(** The derived order compares variants, then fields. *)
Definition device_key (d : DeviceId) : Z * Z * Z :=
  match d with
  | Nvme c n => (0, c, n)
  | VirtioBlk i => (1, i, 0)
  | VirtioNet i => (2, i, 0)
  | Ahci p => (3, p, 0)
  | Usb b x => (4, b, x)
  | Custom c => (5, c, 0)
  end.

Definition device_of_key (k : Z * Z * Z) : option DeviceId :=
  let '(t, a, b) := k in
  if t =? 0 then Some (Nvme a b) else if t =? 1 then Some (VirtioBlk a) else if t =? 2 then Some (VirtioNet a)
  else if t =? 3 then Some (Ahci a) else if t =? 4 then Some (Usb a b) else Some (Custom a).

Lemma device_of_to_key d : device_of_key (device_key d) = Some d.
Proof. by destruct d. Qed.

#[export] Instance device_eq_dec : EqDecision DeviceId.
Proof. solve_decision. Defined.
#[export] Instance device_countable : Countable DeviceId := inj_countable device_key device_of_key device_of_to_key.

Definition device_le (x y : DeviceId) : Prop :=
  let '(t1, a1, b1) := device_key x in
  let '(t2, a2, b2) := device_key y in
  t1 < t2 \/ t1 = t2 /\ (a1 < a2 \/ a1 = a2 /\ b1 <= b2).

#[export] Instance device_le_dec : RelDecision device_le.
Proof. intros x y. unfold device_le. destruct (device_key x) as [[??]?], (device_key y) as [[??]?]. apply _. Defined.

#[export] Instance key_order_device : KeyOrder DeviceId.
Proof.
  refine {| key_le := device_le |}.
  - intros x y z. unfold device_le. destruct (device_key x) as [[??]?], (device_key y) as [[??]?], (device_key z) as [[??]?]. lia.
  - intros x y. unfold device_le. destruct (device_key x) as [[??]?], (device_key y) as [[??]?]. lia.
  - intros x y. pose proof (device_of_to_key x) as Hx. pose proof (device_of_to_key y) as Hy. unfold device_le.
    destruct (device_key x) as [[t1 a1] b1], (device_key y) as [[t2 a2] b2]. intros H1 H2.
    assert (t1 = t2) as -> by lia. assert (a1 = a2) as -> by lia. assert (b1 = b2) as -> by lia. congruence.
Defined.

Record IoRequest := mkRequest {
  req_id : Z; device : DeviceId; operation : IoOperationType; io_priority : IoPriority; io_state : IoState;
  submitted_at : Z; completed_at : option Z; waker : option Z; io_result : option IoResult }.

(** [Clone for IoRequest]: the waker is not copied. *)
Definition request_clone (r : IoRequest) : IoRequest :=
  mkRequest (req_id r) (device r) (operation r) (io_priority r) (io_state r) (submitted_at r) (completed_at r) None (io_result r).

(** ** The mode of a device *)

Inductive IoMode := Interrupt | Polling | Hybrid.
#[export] Instance io_mode_eq_dec : EqDecision IoMode.
Proof. solve_decision. Defined.

Definition mode_u32 (m : IoMode) : Z := match m with Interrupt => 0 | Polling => 1 | Hybrid => 2 end.
Definition mode_of_u32 (v : Z) : IoMode := if v =? 0 then Interrupt else if v =? 1 then Polling else Hybrid.

Record ModeThresholds := mkThresholds {
  polling_threshold_iops : Z; interrupt_threshold_iops : Z; polling_threshold_latency_us : Z; interrupt_threshold_latency_us : Z;
  evaluation_interval : Z; hysteresis_count : Z }.
Definition default_thresholds : ModeThresholds := mkThresholds 50000 10000 50 500 100 3.

Record IoModeStats := mkModeStats { io_count : Z; total_latency : Z; min_latency : Z; max_latency : Z; recent_count : Z; window_start : Z }.
Definition mode_stats_new : IoModeStats := mkModeStats 0 0 (2 ^ 64 - 1) 0 0 0.

Definition record_io (s : IoModeStats) (latency_us : Z) : IoModeStats :=
  mkModeStats (io_count s +w 1) (total_latency s +w latency_us) (if latency_us >=? min_latency s then min_latency s else latency_us)
    (if latency_us <=? max_latency s then max_latency s else latency_us) (recent_count s +w 1) (window_start s).

Definition avg_latency_us (s : IoModeStats) : Z := if io_count s =? 0 then 0 else total_latency s / io_count s.

(** Reads and resets. *)
Definition iops (s : IoModeStats) : Z * IoModeStats :=
  (recent_count s, mkModeStats (io_count s) (total_latency s) (min_latency s) (max_latency s) 0 (window_start s)).

Record DeviceIoModeController := mkController {
  c_device : DeviceId; mode : Z; thresholds : ModeThresholds; mode_stats : IoModeStats; hysteresis : Z; last_evaluation : Z }.

Definition controller_new (d : DeviceId) (t : ModeThresholds) : DeviceIoModeController := mkController d (mode_u32 Interrupt) t mode_stats_new 0 0.

Definition current_mode (c : DeviceIoModeController) : IoMode := mode_of_u32 (mode c).

Definition record_completion (c : DeviceIoModeController) (latency_us : Z) : DeviceIoModeController :=
  mkController (c_device c) (mode c) (thresholds c) (record_io (mode_stats c) latency_us) (hysteresis c) (last_evaluation c).

Definition suggest_mode (t : ModeThresholds) (n latency_us : Z) : IoMode :=
  if (n >=? polling_threshold_iops t) || (latency_us <=? polling_threshold_latency_us t) then Polling
  else if (n <=? interrupt_threshold_iops t) || (latency_us >=? interrupt_threshold_latency_us t) then Interrupt
  else Hybrid.

Definition switch_mode (c : DeviceIoModeController) (m : IoMode) : DeviceIoModeController :=
  mkController (c_device c) (mode_u32 m) (thresholds c) (mode_stats c) (hysteresis c) (last_evaluation c).

Definition set_hysteresis (c : DeviceIoModeController) (h : Z) : DeviceIoModeController :=
  mkController (c_device c) (mode c) (thresholds c) (mode_stats c) h (last_evaluation c).

Definition evaluate_mode (c : DeviceIoModeController) (tick : Z) : option IoMode * DeviceIoModeController :=
  if tick -w last_evaluation c <? evaluation_interval (thresholds c) then (None, c)
  else
    let '(n, st) := iops (mode_stats c) in
    let c1 := mkController (c_device c) (mode c) (thresholds c) st (hysteresis c) tick in
    let suggested := suggest_mode (thresholds c) n (avg_latency_us st) in
    if bool_decide (suggested = current_mode c) then (None, set_hysteresis c1 0)
    else
      let c2 := set_hysteresis c1 (wrap32 (hysteresis c + 1)) in
      if hysteresis c >=? hysteresis_count (thresholds c) then (Some suggested, set_hysteresis (switch_mode c2 suggested) 0)
      else (None, c2).

(** ** The scheduler *)

Record IoSchedulerStats := mkSchedStats {
  total_submitted : Z; total_completed : Z; total_errors : Z; current_queue_depth : Z; max_queue_depth : Z }.

(** [COUNTER] and [TICK] are the statics of [IoRequestId::next] and of [current_tick],
    which counts its calls (there is no feature [task]). *)
Record IoScheduler := mkSched {
  queues : list (list Z); requests : gmap Z IoRequest; mode_controllers : gmap DeviceId DeviceIoModeController;
  io_stats : IoSchedulerStats; polling_enabled : bool; shutdown_flag : bool; COUNTER : Z; TICK : Z }.

Definition scheduler_new : IoScheduler := mkSched [[]; []; []; []; []] ∅ ∅ (mkSchedStats 0 0 0 0 0) true false 1 0.

Definition register_device (s : IoScheduler) (d : DeviceId) (t : ModeThresholds) : IoScheduler :=
  mkSched (queues s) (requests s) (<[d := controller_new d t]> (mode_controllers s)) (io_stats s) (polling_enabled s) (shutdown_flag s) (COUNTER s) (TICK s).

Definition submit (s : IoScheduler) (d : DeviceId) (op : IoOperationType) (p : IoPriority) : Z * IoScheduler :=
  let id := COUNTER s in
  let r := mkRequest id d op p Pending (TICK s) None None None in
  let st := io_stats s in
  let depth := current_queue_depth st +w 1 in
  (id, mkSched (alter (fun q => q ++ [id]) (priority_index p) (queues s)) (<[id := r]> (requests s)) (mode_controllers s)
         (mkSchedStats (total_submitted st +w 1) (total_completed st) (total_errors st) depth (if depth <=? max_queue_depth st then max_queue_depth st else depth))
         (polling_enabled s) (shutdown_flag s) (COUNTER s +w 1) (TICK s +w 1)).

Definition set_requests (s : IoScheduler) (m : gmap Z IoRequest) : IoScheduler :=
  mkSched (queues s) m (mode_controllers s) (io_stats s) (polling_enabled s) (shutdown_flag s) (COUNTER s) (TICK s).

Definition with_waker (r : IoRequest) (w : option Z) : IoRequest :=
  mkRequest (req_id r) (device r) (operation r) (io_priority r) (io_state r) (submitted_at r) (completed_at r) w (io_result r).

Definition set_waker (s : IoScheduler) (id w : Z) : IoScheduler :=
  match requests s !! id with
  | Some r => set_requests s (<[id := with_waker r (Some w)]> (requests s))
  | None => s
  end.

(** The first of the queues [n - 1], ..., [0] that is not empty *)
Fixpoint pop_highest (n : nat) (qs : list (list Z)) : option Z * list (list Z) :=
  match n with
  | O => (None, qs)
  | S i => match qs !! i with Some (id :: q) => (Some id, <[i := q]> qs) | _ => pop_highest i qs end
  end.

Definition next_request (s : IoScheduler) : option Z * IoScheduler :=
  let '(o, qs) := pop_highest 5 (queues s) in
  (o, mkSched qs (requests s) (mode_controllers s) (io_stats s) (polling_enabled s) (shutdown_flag s) (COUNTER s) (TICK s)).

Definition started (r : IoRequest) : IoRequest :=
  if bool_decide (io_state r = Pending) then
    mkRequest (req_id r) (device r) (operation r) (io_priority r) InProgress (submitted_at r) (completed_at r) (waker r) (io_result r)
  else r.

Definition start_request (s : IoScheduler) (id : Z) : option IoRequest * IoScheduler :=
  match requests s !! id with
  | Some r => (Some (request_clone (started r)), set_requests s (<[id := started r]> (requests s)))
  | None => (None, s)
  end.

Definition is_error (r : IoResult) : bool := match r with Error _ => true | Success _ => false end.

(** The state and the wakers woken *)
Definition complete_request (s : IoScheduler) (id : Z) (res : IoResult) : IoScheduler * list Z :=
  match requests s !! id with
  | None => (s, [])
  | Some r =>
      let now := TICK s in
      let st := io_stats s in
      let r' := mkRequest (req_id r) (device r) (operation r) (io_priority r) (if is_error res then Failed else Completed) (submitted_at r) (Some now) None (Some res) in
      let latency_us := (now -w submitted_at r) *w 1000 in
      let cs := match mode_controllers s !! device r with
                | Some c => <[device r := record_completion c latency_us]> (mode_controllers s)
                | None => mode_controllers s
                end in
      (mkSched (queues s) (<[id := r']> (requests s)) cs
         (mkSchedStats (total_submitted st) (total_completed st +w 1) (if is_error res then total_errors st +w 1 else total_errors st) (current_queue_depth st -w 1) (max_queue_depth st))
         (polling_enabled s) (shutdown_flag s) (COUNTER s) (now +w 1),
       match waker r with Some w => [w] | None => [] end)
  end.

Definition cancel_request (s : IoScheduler) (id : Z) : bool * IoScheduler * list Z :=
  match requests s !! id with
  | Some r =>
      if bool_decide (io_state r = Pending) then
        let st := io_stats s in
        let r' := mkRequest (req_id r) (device r) (operation r) (io_priority r) Cancelled (submitted_at r) (completed_at r) None (Some (Error ErrCancelled)) in
        let s' := mkSched (queues s) (<[id := r']> (requests s)) (mode_controllers s)
                    (mkSchedStats (total_submitted st) (total_completed st) (total_errors st) (current_queue_depth st -w 1) (max_queue_depth st))
                    (polling_enabled s) (shutdown_flag s) (COUNTER s) (TICK s) in
        match waker r with Some w => (true, s', [w]) | None => (false, s', []) end
      else (false, s, [])
  | None => (false, s, [])
  end.

Definition get_state (s : IoScheduler) (id : Z) : option IoState := io_state <$> requests s !! id.
Definition get_result (s : IoScheduler) (id : Z) : option IoResult := requests s !! id ≫= io_result.

Definition device_mode (s : IoScheduler) (d : DeviceId) : IoMode := default Interrupt (current_mode <$> mode_controllers s !! d).

(** Controllers do not share state, so the order of the evaluation does not matter. *)
Definition evaluate_modes (s : IoScheduler) (tick : Z) : IoScheduler :=
  mkSched (queues s) (requests s) ((fun c => (evaluate_mode c tick).2) <$> mode_controllers s) (io_stats s) (polling_enabled s) (shutdown_flag s) (COUNTER s) (TICK s).

Definition shutdown (s : IoScheduler) : IoScheduler :=
  mkSched (queues s) (requests s) (mode_controllers s) (io_stats s) (polling_enabled s) true (COUNTER s) (TICK s).

(** ** Futures *)

Record IoFuture := mkFuture { request_id : Z; registered : bool }.
Definition future_new (id : Z) : IoFuture := mkFuture id false.

Inductive Poll := PollPending | PollReady (r : result Z IoError).

Definition result_of (r : IoResult) : result Z IoError := match r with Success b => Ok b | Error e => Err e end.

Definition future_poll (f : IoFuture) (s : IoScheduler) (w : Z) : Poll * IoFuture * IoScheduler :=
  match get_state s (request_id f) with
  | None => (PollReady (Err InvalidParameter), f, s)
  | Some Completed => (PollReady match get_result s (request_id f) with Some r => result_of r | None => Err InvalidParameter end, f, s)
  | Some (Failed | Cancelled) => (PollReady match get_result s (request_id f) with Some r => result_of r | None => Err DeviceError end, f, s)
  | Some (Pending | InProgress) =>
      if registered f then (PollPending, f, s) else (PollPending, mkFuture (request_id f) true, set_waker s (request_id f) w)
  end.

(** ** Polling *)

Class PollHandler (H : Type) := { poll_completions : H -> list (Z * IoResult) * H; is_ready : H -> bool }.

Section Coordinator.
Context {H : Type} `{PollHandler H}.

Record PollingExecutor := mkExecutor { poll_handlers : gmap DeviceId H; max_poll_iterations : nat; poll_interval_us : Z; active : bool }.
Definition executor_new : PollingExecutor := mkExecutor ∅ 64 10 false.

Definition register_handler (e : PollingExecutor) (d : DeviceId) (h : H) : PollingExecutor :=
  mkExecutor (<[d := h]> (poll_handlers e)) (max_poll_iterations e) (poll_interval_us e) (active e).

Definition set_active (e : PollingExecutor) (b : bool) : PollingExecutor := mkExecutor (poll_handlers e) (max_poll_iterations e) (poll_interval_us e) b.
Definition start (e : PollingExecutor) : PollingExecutor := set_active e true.
Definition stop (e : PollingExecutor) : PollingExecutor := set_active e false.

(** [complete_request] for each result *)
Fixpoint complete_all (s : IoScheduler) (rs : list (Z * IoResult)) : IoScheduler * list Z :=
  match rs with
  | [] => (s, [])
  | (id, res) :: rs' => let '(s1, w1) := complete_request s id res in let '(s2, w2) := complete_all s1 rs' in (s2, w1 ++ w2)
  end.

Fixpoint poll_devices (hs : list (DeviceId * H)) (m : gmap DeviceId H) (s : IoScheduler) : nat * gmap DeviceId H * IoScheduler * list Z :=
  match hs with
  | [] => (O, m, s, [])
  | (d, h) :: hs' =>
      if is_ready h then
        let '(rs, h') := poll_completions h in
        let '(s1, w1) := complete_all s rs in
        let '(n, m', s', w2) := poll_devices hs' (<[d := h']> m) s1 in
        ((length rs + n)%nat, m', s', w1 ++ w2)
      else poll_devices hs' m s
  end.

Definition poll_once (e : PollingExecutor) (s : IoScheduler) : nat * PollingExecutor * IoScheduler * list Z :=
  if negb (active e) then (O, e, s, [])
  else
    let '(n, m, s', w) := poll_devices (entries (poll_handlers e)) (poll_handlers e) s in
    (n, mkExecutor m (max_poll_iterations e) (poll_interval_us e) (active e), s', w).

Fixpoint batch_loop (k : nat) (e : PollingExecutor) (s : IoScheduler) : nat * PollingExecutor * IoScheduler * list Z :=
  match k with
  | O => (O, e, s, [])
  | S k' =>
      let '(n, e1, s1, w1) := poll_once e s in
      if (n =? 0)%nat then (O, e1, s1, w1)
      else let '(t, e2, s2, w2) := batch_loop k' e1 s1 in ((n + t)%nat, e2, s2, w1 ++ w2)
  end.

Definition poll_batch (e : PollingExecutor) (s : IoScheduler) : nat * PollingExecutor * IoScheduler * list Z := batch_loop (max_poll_iterations e) e s.

(** ** Interrupts and the coordinator *)

Definition register_pending (m : gmap DeviceId (list Z)) (d : DeviceId) (id : Z) : gmap DeviceId (list Z) := <[d := default [] (m !! d) ++ [id]]> m.

Definition retain_pending (rs : list (Z * IoResult)) (q : list Z) : list Z := filter (fun id => id ∉ rs.*1) q.

Definition handle_interrupt (m : gmap DeviceId (list Z)) (s : IoScheduler) (d : DeviceId) (rs : list (Z * IoResult)) : gmap DeviceId (list Z) * IoScheduler * list Z :=
  let '(s', w) := complete_all s rs in
  (alter (retain_pending rs) d m, s', w).

Definition pending_count (m : gmap DeviceId (list Z)) (d : DeviceId) : nat := default 0%nat (length <$> m !! d).

Record HybridIoCoordinator := mkCoord { scheduler : IoScheduler; polling_executor : PollingExecutor; pending_requests : gmap DeviceId (list Z); global_mode_val : Z }.

Definition coordinator_new (s : IoScheduler) : HybridIoCoordinator := mkCoord s executor_new ∅ (mode_u32 Interrupt).

Definition global_mode (c : HybridIoCoordinator) : IoMode := mode_of_u32 (global_mode_val c).

Definition submit_io (c : HybridIoCoordinator) (d : DeviceId) (op : IoOperationType) (p : IoPriority) : IoFuture * HybridIoCoordinator :=
  let '(id, s) := submit (scheduler c) d op p in
  let pend := match device_mode s d with
              | Interrupt | Hybrid => register_pending (pending_requests c) d id
              | Polling => pending_requests c
              end in
  (future_new id, mkCoord s (polling_executor c) pend (global_mode_val c)).

Definition coordinator_tick (c : HybridIoCoordinator) (tick : Z) : HybridIoCoordinator * list Z :=
  let s := evaluate_modes (scheduler c) tick in
  match global_mode c with
  | Polling => let '(_, e, s', w) := poll_batch (polling_executor c) s in (mkCoord s' e (pending_requests c) (global_mode_val c), w)
  | Hybrid => let '(_, e, s', w) := poll_once (polling_executor c) s in (mkCoord s' e (pending_requests c) (global_mode_val c), w)
  | Interrupt => (mkCoord s (polling_executor c) (pending_requests c) (global_mode_val c), [])
  end.

Definition set_global_mode (c : HybridIoCoordinator) (m : IoMode) : HybridIoCoordinator :=
  mkCoord (scheduler c) (match m with Polling => start (polling_executor c) | _ => stop (polling_executor c) end) (pending_requests c) (mode_u32 m).

End Coordinator.
Arguments PollingExecutor : clear implicits.
Arguments HybridIoCoordinator : clear implicits.

(** ** The handlers of two drivers *)

(** [AhciPollHandler] (src/src/io/ahci/poll_handler.rs).  [read_port_reg] is what the
    registers of the controller read at the time of the poll. *)
Definition PX_CI : Z := 0x38.
Definition PX_TFD : Z := 0x20.

Record AhciPollHandler := mkAhci { read_port_reg : Z -> Z -> Z; ahci_pending : gmap Z (Z * Z); next_request_id : Z }.

Definition ahci_next_request_id (h : AhciPollHandler) : Z * AhciPollHandler :=
  (next_request_id h, mkAhci (read_port_reg h) (ahci_pending h) (next_request_id h +w 1)).

Definition add_pending (h : AhciPollHandler) (id port slot : Z) : AhciPollHandler :=
  mkAhci (read_port_reg h) (<[id := (port, slot)]> (ahci_pending h)) (next_request_id h).

Definition check_completion (h : AhciPollHandler) (port slot : Z) : option bool :=
  if Z.land (read_port_reg h port PX_CI) (Z.shiftl 1 (slot mod 32)) =? 0 then Some (negb (negb (Z.land (read_port_reg h port PX_TFD) 1 =? 0))) else None.

Definition ahci_result (h : AhciPollHandler) (x : Z * (Z * Z)) : option (Z * IoResult) :=
  (fun ok : bool => (x.1, if ok then Success 512 else Error DeviceError)) <$> check_completion h x.2.1 x.2.2.

Definition ahci_poll_completions (h : AhciPollHandler) : list (Z * IoResult) * AhciPollHandler :=
  let results := omap (ahci_result h) (entries (ahci_pending h)) in
  (results, mkAhci (read_port_reg h) (foldr delete (ahci_pending h) results.*1) (next_request_id h)).

#[export] Instance ahci_poll_handler : PollHandler AhciPollHandler := {| poll_completions := ahci_poll_completions; is_ready := fun _ => true |}.

(** The registration of the NVMe driver (src/src/io/nvme/scheduler.rs): a handler for
    each core, [new core nsid]. *)
Definition register_core {H} (new : Z -> Z -> H) (controller_id namespace_id : Z) (x : IoScheduler * PollingExecutor H) (core : Z) : IoScheduler * PollingExecutor H :=
  let d := Nvme controller_id namespace_id in
  (register_device x.1 d default_thresholds, register_handler x.2 d (new core namespace_id)).

Definition register_with_io_scheduler {H} (new : Z -> Z -> H) (s : IoScheduler) (e : PollingExecutor H) (controller_id namespace_id : Z) (num_cores : nat) : IoScheduler * PollingExecutor H :=
  foldl (register_core new controller_id namespace_id) (s, e) (seqZ 0 (Z.of_nat num_cores)).
