(* ===== verification/IoSchedTheorems.v ===== *)
(** * The I/O scheduler: dispatch order, counters, wake-ups, modes

    The invariant of the queues and of the map, the theorems about runs of the
    scheduler, futures that are woken exactly when their request ends, the rate of
    mode switches, and the polling and interrupt paths of the coordinator. *)

From stdpp Require Import base list gmap.
From Stdlib Require Import ZArith Lia Sorting.
From S2P Require Import Prelude OrderedMap IoSched.

Local Open Scope Z_scope.

Module IoSpec.

(** ** Runs *)

Inductive op :=
  | OSubmit (d : DeviceId) (o : IoOperationType) (p : IoPriority)
  | OWaker (id w : Z)
  | ONext
  | OStart (id : Z)
  | OComplete (id : Z) (res : IoResult)
  | OCancel (id : Z)
  | ORegister (d : DeviceId) (t : ModeThresholds)
  | OEvaluate (tick : Z)
  | OShutdown.

(** The state and the requests handed to a driver *)
Definition step (x : IoScheduler * list Z) (o : op) : IoScheduler * list Z :=
  let s := x.1 in
  match o with
  | OSubmit d o p => ((submit s d o p).2, x.2)
  | OWaker id w => (set_waker s id w, x.2)
  | ONext => let '(r, s') := next_request s in (s', x.2 ++ match r with Some id => [id] | None => [] end)
  | OStart id => ((start_request s id).2, x.2)
  | OComplete id res => ((complete_request s id res).1, x.2)
  | OCancel id => ((cancel_request s id).1.2, x.2)
  | ORegister d t => (register_device s d t, x.2)
  | OEvaluate tick => (evaluate_modes s tick, x.2)
  | OShutdown => (shutdown s, x.2)
  end.

Definition run (ops : list op) : IoScheduler * list Z := foldl step (scheduler_new, []) ops.

(** ** The invariant *)

Definition unfinished (r : IoRequest) : bool := match io_state r with Pending | InProgress => true | _ => false end.

(** A request has a result exactly when it has ended, and of the right kind. *)
Definition request_ok (id : Z) (r : IoRequest) : Prop :=
  req_id r = id /\
  match io_state r with
  | Pending | InProgress => io_result r = None
  | Completed => exists b, io_result r = Some (Success b)
  | Failed => exists e, io_result r = Some (Error e)
  | Cancelled => io_result r = Some (Error ErrCancelled)
  end.

Definition queue_ok (m : gmap Z IoRequest) (i : nat) (q : list Z) : Prop :=
  StronglySorted Z.lt q /\ Forall (fun id => exists r, m !! id = Some r /\ priority_index (io_priority r) = i) q.

Record sched_ok (s : IoScheduler) (done : list Z) : Prop := {
  ok_five : length (queues s) = 5%nat;
  ok_counter : 1 <= COUNTER s;
  ok_requests : forall id r, requests s !! id = Some r -> 1 <= id < COUNTER s /\ request_ok id r;
  ok_queues : forall i q, queues s !! i = Some q -> queue_ok (requests s) i q;
  ok_once : done ++ concat (queues s) ≡ₚ seqZ 1 (COUNTER s - 1) }.

(** Changes to requests that keep their number and priority *)
Definition same_requests (m m' : gmap Z IoRequest) : Prop :=
  forall id r, m !! id = Some r -> exists r', m' !! id = Some r' /\ io_priority r' = io_priority r.

Lemma queue_ok_same m m' i q : same_requests m m' -> queue_ok m i q -> queue_ok m' i q.
Proof.
  intros Hm [Hs Hq]. split; [done|]. eapply Forall_impl; [exact Hq|]. intros id (r & Hr & <-). destruct (Hm id r Hr) as (r' & Hr' & Hp). exists r'. by rewrite Hp.
Qed.

Lemma same_requests_insert m id r r' : m !! id = Some r -> io_priority r' = io_priority r -> same_requests m (<[id := r']> m).
Proof.
  intros Hr Hp j x Hj. destruct (decide (j = id)) as [->|Hne]; [|exists x; by rewrite lookup_insert_ne].
  exists r'. rewrite lookup_insert, decide_True by done. split; [done|]. congruence.
Qed.

(** An operation that changes one request keeps the invariant. *)
Lemma ok_update s s' done id r r' :
  sched_ok s done -> requests s !! id = Some r -> io_priority r' = io_priority r -> request_ok id r' ->
  queues s' = queues s -> COUNTER s' = COUNTER s -> requests s' = <[id := r']> (requests s) -> sched_ok s' done.
Proof.
  intros [H5 H1 Hr Hq Ho] Hid Hp Hok Eq Ec Er. split; rewrite ?Eq, ?Ec, ?Er; try done.
  - intros j x Hj. destruct (decide (j = id)) as [->|Hne].
    + rewrite lookup_insert, decide_True in Hj by done. injection Hj as <-. split; [by eapply Hr | done].
    + rewrite lookup_insert_ne in Hj by done. by apply Hr.
  - intros i q Hi. eapply queue_ok_same; [by eapply same_requests_insert | by apply Hq].
Qed.

Lemma ok_unchanged s s' done :
  sched_ok s done -> queues s' = queues s -> COUNTER s' = COUNTER s -> requests s' = requests s -> sched_ok s' done.
Proof. intros [H5 H1 Hr Hq Ho] Eq Ec Er. by split; rewrite ?Eq, ?Ec, ?Er. Qed.

(** *** Queues *)

Lemma concat_alter (f : list Z -> list Z) qs i q id :
  qs !! i = Some q -> f q = q ++ [id] -> concat (alter f i qs) ≡ₚ id :: concat qs.
Proof.
  revert i. induction qs as [|q0 qs IH]; intros [|i] Hi Hf; try done; cbn in *.
  - injection Hi as ->. rewrite Hf, <- app_assoc. cbn [app]. by rewrite <- Permutation_middle.
  - unfold alter in IH. rewrite (IH i) by done. by rewrite <- Permutation_middle.
Qed.

Lemma queue_snoc_sorted q id : StronglySorted Z.lt q -> Forall (fun x => x < id) q -> StronglySorted Z.lt (q ++ [id]).
Proof.
  induction 1 as [|x q Hs IH Hx]; intros Hf; cbn; [by repeat constructor|]. inversion Hf; subst. constructor; [by apply IH|]. apply Forall_app. split; [done | by constructor].
Qed.

Lemma submit_ok s d o p done :
  sched_ok s done -> COUNTER s < 2 ^ 64 - 1 -> sched_ok (submit s d o p).2 done.
Proof.
  intros [H5 H1 Hr Hq Ho] Hc. assert (Hn : requests s !! COUNTER s = None).
  { destruct (requests s !! COUNTER s) as [r|] eqn:E; [|done]. destruct (Hr _ _ E) as [? _]. lia. }
  assert (Hw : COUNTER s +w 1 = COUNTER s + 1) by (apply wrap64_small; unfold is_u64, u64_modulus; lia).
  assert (Hlt : (priority_index p < length (queues s))%nat) by (rewrite H5; destruct p; cbn; lia).
  destruct (lookup_lt_is_Some_2 _ _ Hlt) as [q Eq].
  assert (Hm : same_requests (requests s) (<[COUNTER s := mkRequest (COUNTER s) d o p Pending (TICK s) None None None]> (requests s))).
  { intros j x Hj. exists x. by rewrite lookup_insert_ne by congruence. }
  split; cbn [submit snd queues requests COUNTER]; rewrite ?Hw.
  - by rewrite length_alter.
  - lia.
  - intros j x Hj. destruct (decide (j = COUNTER s)) as [->|Hne].
    + rewrite lookup_insert, decide_True in Hj by done. injection Hj as <-. split; [lia | done].
    + rewrite lookup_insert_ne in Hj by done. destruct (Hr _ _ Hj) as [? ?]. split; [lia | done].
  - intros i x Hi. destruct (decide (i = priority_index p)) as [->|Hne].
    + rewrite list_lookup_alter, decide_True, Eq in Hi by done. injection Hi as <-. destruct (queue_ok_same _ _ _ _ Hm (Hq _ _ Eq)) as [Hs Hf].
      split; [|apply Forall_app; split; [done|]; constructor; [|done]; eexists; by rewrite lookup_insert, decide_True].
      apply queue_snoc_sorted; [done|]. destruct (Hq _ _ Eq) as [_ Hf']. eapply Forall_impl; [exact Hf'|]. intros y (r & Hy & _). destruct (Hr _ _ Hy). lia.
    + rewrite list_lookup_alter_ne in Hi by done. eapply queue_ok_same; [done | by apply Hq].
  - replace (COUNTER s + 1 - 1) with (COUNTER s - 1 + 1) by lia. rewrite seqZ_app by lia. rewrite <- Ho. replace (1 + (COUNTER s - 1)) with (COUNTER s) by lia. cbn [seqZ Z.to_nat seq].
    rewrite (concat_alter _ _ _ q (COUNTER s)) by done. change (seqZ (COUNTER s) 1) with [0 + COUNTER s]. rewrite Z.add_0_l. by rewrite <- Permutation_middle, Permutation_cons_append.
Qed.

Lemma pop_highest_spec n qs :
  match pop_highest n qs with
  | (None, qs') => qs' = qs /\ forall i q, (i < n)%nat -> qs !! i = Some q -> q = []
  | (Some id, qs') => exists i q, (i < n)%nat /\ qs !! i = Some (id :: q) /\ qs' = <[i := q]> qs /\ forall j q', (i < j < n)%nat -> qs !! j = Some q' -> q' = []
  end.
Proof.
  induction n as [|n IH]; cbn; [split; [done | lia]|].
  assert (Hrec : forall x, qs !! n = x -> (forall q', x = Some q' -> q' = []) ->
    match pop_highest n qs with
    | (None, qs') => qs' = qs /\ forall i q, (i < S n)%nat -> qs !! i = Some q -> q = []
    | (Some id, qs') => exists i q, (i < S n)%nat /\ qs !! i = Some (id :: q) /\ qs' = <[i := q]> qs /\ forall j q', (i < j < S n)%nat -> qs !! j = Some q' -> q' = []
    end).
  { intros x Hx Hn. destruct (pop_highest n qs) as [[id|] qs'].
    - destruct IH as (i & q & Hi & Hl & Hs & Hj). exists i, q. split_and!; [lia | done | done |]. intros j q' Hb Hq. destruct (decide (j = n)) as [->|]; [by apply Hn; congruence | apply (Hj j); [lia | done]].
    - destruct IH as [-> Hi]. split; [done|]. intros i q Hb Hq. destruct (decide (i = n)) as [->|]; [by apply Hn; congruence | apply (Hi i); [lia | done]]. }
  destruct (qs !! n) as [[|id q]|] eqn:E; [apply (Hrec (Some [])); [done|]; congruence | | by apply (Hrec None)].
  exists n, q. split_and!; [lia | done | done |]. lia.
Qed.

Lemma pop_concat (qs : list (list Z)) i id q : qs !! i = Some (id :: q) -> concat qs ≡ₚ id :: concat (<[i := q]> qs).
Proof.
  revert i. induction qs as [|q0 qs IH]; intros [|i] Hi; try done; cbn in *; [by injection Hi as ->|]. rewrite (IH i) by done. by rewrite <- Permutation_middle.
Qed.

Lemma next_ok s done : sched_ok s done -> sched_ok (next_request s).2 (done ++ match (next_request s).1 with Some id => [id] | None => [] end).
Proof.
  intros [H5 H1 Hr Hq Ho]. unfold next_request. pose proof (pop_highest_spec 5 (queues s)) as Hp. destruct (pop_highest 5 (queues s)) as [[id|] qs]; cbn [fst snd].
  - destruct Hp as (i & q & Hi & Hl & -> & _). split; cbn; try done.
    + by rewrite length_insert.
    + intros j x Hj. destruct (decide (j = i)) as [->|Hne]; [|rewrite list_lookup_insert_ne in Hj by done; by apply Hq].
      rewrite list_lookup_insert_eq in Hj by lia. injection Hj as <-. destruct (Hq _ _ Hl) as [Hs Hf]. inversion Hs; inversion Hf; subst. by split.
    + rewrite <- Ho, (pop_concat _ _ _ _ Hl), <- app_assoc. done.
  - destruct Hp as [-> _]. rewrite app_nil_r. by split.
Qed.

(** *** The other operations *)

Lemma start_ok s id done : sched_ok s done -> sched_ok (start_request s id).2 done.
Proof.
  intros H. unfold start_request. destruct (requests s !! id) as [r|] eqn:E; [|done]. destruct (ok_requests _ _ H _ _ E) as [_ [Hi Hs]].
  eapply ok_update; [done | done | | | done | done | done].
  - unfold started. by case_bool_decide.
  - unfold started. case_bool_decide as Hp; [|done]. split; [done|]. by rewrite Hp in Hs.
Qed.

Lemma complete_ok s id res done : sched_ok s done -> sched_ok (complete_request s id res).1 done.
Proof.
  intros H. unfold complete_request. destruct (requests s !! id) as [r|] eqn:E; [|done]. destruct (ok_requests _ _ H _ _ E) as [_ [Hi Hs]].
  eapply ok_update; [done | done | | | done | done | done]; [done|]. split; [done|]. destruct res; cbn; eauto.
Qed.

Lemma cancel_ok s id done : sched_ok s done -> sched_ok (cancel_request s id).1.2 done.
Proof.
  intros H. unfold cancel_request. destruct (requests s !! id) as [r|] eqn:E; [|done]. destruct (ok_requests _ _ H _ _ E) as [_ [Hi Hs]].
  case_bool_decide; [|done]. destruct (waker r); cbn [fst snd]; (eapply ok_update; [done | done | | | done | done | done]; done).
Qed.

Lemma set_waker_ok s id w done : sched_ok s done -> sched_ok (set_waker s id w) done.
Proof.
  intros H. unfold set_waker. destruct (requests s !! id) as [r|] eqn:E; [|done]. destruct (ok_requests _ _ H _ _ E) as [_ Hs].
  eapply ok_update; [done | done | | | done | done | done]; done.
Qed.

(** Numbers are given out by [submit] only. *)
Definition is_submit (o : op) : bool := match o with OSubmit _ _ _ => true | _ => false end.
Definition submits (ops : list op) : Z := Z.of_nat (length (List.filter is_submit ops)).

Lemma step_counter x o : COUNTER (step x o).1 = if is_submit o then COUNTER x.1 +w 1 else COUNTER x.1.
Proof.
  destruct o; cbn; auto.
  - unfold set_waker. by destruct (_ !! _).
  - by destruct (next_request x.1) eqn:E; unfold next_request in E; destruct (pop_highest _ _); injection E as <- <-.
  - unfold start_request. by destruct (_ !! _).
  - unfold complete_request. by destruct (_ !! _).
  - unfold cancel_request. destruct (_ !! _) as [r|]; [|done]. case_bool_decide; [|done]. by destruct (waker r).
Qed.

Lemma step_ok x o : sched_ok x.1 x.2 -> COUNTER x.1 < 2 ^ 64 - 1 -> sched_ok (step x o).1 (step x o).2.
Proof.
  intros H Hc. destruct o; cbn [step].
  - by apply submit_ok.
  - by apply set_waker_ok.
  - pose proof (next_ok _ _ H) as Hn. by destruct (next_request x.1).
  - by apply start_ok.
  - by apply complete_ok.
  - by apply cancel_ok.
  - by eapply ok_unchanged.
  - by eapply ok_unchanged.
  - by eapply ok_unchanged.
Qed.

Lemma new_ok : sched_ok scheduler_new [].
Proof. split; try done. intros i q. do 5 (destruct i as [|i]; [cbn; intros [= <-]; by repeat constructor|]). done. Qed.

Lemma run_snoc ops o : run (ops ++ [o]) = step (run ops) o.
Proof. unfold run. by rewrite foldl_app. Qed.

Lemma steps_ok x ops :
  sched_ok x.1 x.2 -> COUNTER x.1 + Z.of_nat (length ops) < 2 ^ 64 ->
  sched_ok (foldl step x ops).1 (foldl step x ops).2 /\ COUNTER (foldl step x ops).1 = COUNTER x.1 + submits ops.
Proof.
  revert x. induction ops as [|o ops IH]; intros x Hok Hl; [split; [done | unfold submits; cbn [foldl List.filter length]; lia]|]. cbn [length foldl] in *. pose proof (ok_counter _ _ Hok).
  assert (Hc : COUNTER (step x o).1 = COUNTER x.1 + (if is_submit o then 1 else 0)).
  { rewrite step_counter. destruct (is_submit o); [|lia]. apply wrap64_small. unfold is_u64, u64_modulus. lia. }
  destruct (IH (step x o)) as [H1 H2]; [apply step_ok; [done | lia] | rewrite Hc; destruct (is_submit o); lia |].
  split; [done|]. rewrite H2, Hc. unfold submits. cbn [List.filter]. destruct (is_submit o); cbn [length]; lia.
Qed.

Lemma run_ok ops : Z.of_nat (length ops) < 2 ^ 64 - 1 -> sched_ok (run ops).1 (run ops).2 /\ COUNTER (run ops).1 = 1 + submits ops.
Proof. intros Hl. apply (steps_ok (scheduler_new, [])); [exact new_ok | cbn; lia]. Qed.

(** *** Dispatch *)

(** C32: whatever is called, every submitted request is handed to a driver at most once and
    waits until then, and the next one handed out is the one of the highest
    priority that waits, the earliest among those. *)
Theorem dispatched_by_priority ops :
  Z.of_nat (length ops) < 2 ^ 64 - 1 ->
  let s := (run ops).1 in
  (run ops).2 ++ concat (queues s) ≡ₚ seqZ 1 (submits ops) /\
  match (next_request s).1 with
  | None => concat (queues s) = []
  | Some id => id ∈ concat (queues s) /\ forall id', id' ∈ concat (queues s) -> id' <> id ->
      exists r r', requests s !! id = Some r /\ requests s !! id' = Some r' /\
        ((priority_index (io_priority r') < priority_index (io_priority r))%nat \/ io_priority r' = io_priority r /\ id < id')
  end.
Proof.
  intros Hl s. destruct (run_ok ops Hl) as [Hok Hc]. fold s in Hok, Hc. split; [rewrite (ok_once _ _ Hok), Hc; by replace (1 + submits ops - 1) with (submits ops) by lia|].
  unfold next_request. pose proof (pop_highest_spec 5 (queues s)) as Hp. pose proof (ok_five _ _ Hok) as H5. destruct (pop_highest 5 (queues s)) as [[id|] qs]; cbn [fst].
  - destruct Hp as (i & q & Hi & Hq & _ & Hj). assert (Hin : id ∈ concat (queues s)) by (apply list_elem_of_In, in_concat; exists (id :: q); split; [apply list_elem_of_In; by eapply list_elem_of_lookup_2 | by left]).
    split; [done|]. intros id' Hin' Hne. apply list_elem_of_In, in_concat in Hin' as (q' & Hq' & Hin'). apply list_elem_of_In, list_elem_of_lookup in Hq' as (j & Hq').
    apply list_elem_of_In in Hin'. destruct (ok_queues _ _ Hok _ _ Hq) as [Hs Hf]. destruct (ok_queues _ _ Hok _ _ Hq') as [Hs' Hf']. inversion Hf as [|? ? (r & Hr & Er) _]; subst.
    rewrite Forall_forall in Hf'. destruct (Hf' _ Hin') as (r' & Hr' & Er'). exists r, r'. split_and!; [done | done|]. rewrite Er'.
    assert (Hlt : (j < 5)%nat) by (rewrite <- H5; by eapply lookup_lt_Some). destruct (decide (j < priority_index (io_priority r))%nat) as [|Hge]; [by left|]. right.
    destruct (decide (j = priority_index (io_priority r))) as [->|Hne'].
    + assert (q' = id :: q) as -> by congruence. split; [destruct (io_priority r), (io_priority r'); done|]. inversion Hs as [|? ? _ Hx]; subst. rewrite Forall_forall in Hx. apply elem_of_cons in Hin' as [|]; [done|]. by apply Hx.
    + rewrite (Hj j q') in Hin' by (done || lia). by apply elem_of_nil in Hin'.
  - destruct Hp as [_ Hp]. apply elem_of_nil_inv. intros x Hx. apply list_elem_of_In, in_concat in Hx as (q & Hq & Hx). apply list_elem_of_In, list_elem_of_lookup in Hq as (i & Hq).
    rewrite (Hp i q) in Hx; [by apply list_elem_of_In, elem_of_nil in Hx | rewrite <- H5; by eapply lookup_lt_Some | done].
Qed.

(** Two reads of different priority and one of the highest *)
Definition demo_ops : list op :=
  [OSubmit (Ahci 0) Read Normal; OSubmit (Ahci 0) Write High; ONext; OSubmit (Ahci 1) Read Background; OStart 2; OComplete 2 (Success 512)].

Lemma dispatched_by_priority_witness : (run demo_ops).2 = [2] /\ (next_request (run demo_ops).1).1 = Some 1 /\
  (run demo_ops).2 ++ concat (queues (run demo_ops).1) ≡ₚ seqZ 1 (submits demo_ops).
Proof. split; [reflexivity|]. split; [reflexivity|]. destruct (dispatched_by_priority demo_ops) as [H _]; [cbn; lia | exact H]. Defined.

(** *** The counters *)

Definition b2z (b : bool) : Z := if b then 1 else 0.
Definition tally (f : IoRequest -> bool) (m : gmap Z IoRequest) : Z := sum (map (fun x => b2z (f x.2)) (map_to_list m)).

Lemma tally_new f m id r : m !! id = None -> tally f (<[id := r]> m) = b2z (f r) + tally f m.
Proof. intros H. unfold tally. rewrite (sum_perm _ _ (Permutation_map _ (map_to_list_insert m id r H))). done. Qed.

Lemma tally_delete f m id r : m !! id = Some r -> tally f m = b2z (f r) + tally f (delete id m).
Proof. intros H. rewrite <- (insert_id m id r H) at 1. rewrite <- insert_delete_eq, tally_new by apply lookup_delete_eq. done. Qed.

Lemma tally_update f m id r r' : m !! id = Some r -> tally f (<[id := r']> m) = b2z (f r') + tally f m - b2z (f r).
Proof. intros H. rewrite <- insert_delete_eq, tally_new by apply lookup_delete_eq. rewrite (tally_delete f _ _ _ H). lia. Qed.

Lemma tally_bound f m : 0 <= tally f m <= tally (fun _ => true) m.
Proof. unfold tally, sum. induction (map_to_list m) as [|x l IH]; cbn [map foldr]; [lia|]. unfold b2z in *; destruct (f x.2); lia. Qed.

Lemma tally_in f m id r : m !! id = Some r -> f r = true -> 1 <= tally f m.
Proof. intros H Hf. pose proof (tally_bound f (delete id m)). rewrite (tally_delete _ _ _ _ H), Hf. cbn [b2z]. lia. Qed.

Definition answered (r : IoRequest) : bool := match io_state r with Completed | Failed => true | _ => false end.
Definition failed (r : IoRequest) : bool := match io_state r with Failed => true | _ => false end.

Record counters_ok (s : IoScheduler) : Prop := {
  c_all : tally (fun _ => true) (requests s) = COUNTER s - 1;
  c_submitted : total_submitted (io_stats s) = COUNTER s - 1;
  c_depth : current_queue_depth (io_stats s) = tally unfinished (requests s);
  c_completed : total_completed (io_stats s) = tally answered (requests s);
  c_errors : total_errors (io_stats s) = tally failed (requests s);
  c_max : current_queue_depth (io_stats s) <= max_queue_depth (io_stats s) }.

(** A driver completes a request once, and not after it was cancelled. *)
Definition orderly (s : IoScheduler) (o : op) : bool :=
  match o with
  | OComplete id _ => match requests s !! id with Some r => unfinished r | None => true end
  | _ => true
  end.
Fixpoint orderly_run (x : IoScheduler * list Z) (ops : list op) : bool :=
  match ops with [] => true | o :: ops' => orderly x.1 o && orderly_run (step x o) ops' end.

Lemma counters_same s s' : counters_ok s -> requests s' = requests s -> COUNTER s' = COUNTER s -> io_stats s' = io_stats s -> counters_ok s'.
Proof. intros [] Er Ec Es. split; rewrite ?Er, ?Ec, ?Es; done. Qed.

(** A change of a request that keeps its state *)
Lemma counters_keep s s' id r r' :
  counters_ok s -> requests s !! id = Some r -> unfinished r' = unfinished r -> answered r' = answered r -> failed r' = failed r ->
  requests s' = <[id := r']> (requests s) -> COUNTER s' = COUNTER s -> io_stats s' = io_stats s -> counters_ok s'.
Proof.
  intros [H1 H2 H3 H4 H5 H6] Hr Hu Ha Hf Er Ec Es. split; rewrite ?Er, ?Ec, ?Es, ?(tally_update _ _ _ _ _ Hr), ?Hu, ?Ha, ?Hf; lia.
Qed.

Ltac words := rewrite ?wrap64_small by (unfold is_u64, u64_modulus; lia).

Lemma submit_counters s d o p done : sched_ok s done -> counters_ok s -> COUNTER s < 2 ^ 64 - 1 -> counters_ok (submit s d o p).2.
Proof.
  intros Hok [H1 H2 H3 H4 H5 H6] Hc. pose proof (ok_counter _ _ Hok). assert (Hn : requests s !! COUNTER s = None).
  { destruct (requests s !! COUNTER s) as [r|] eqn:E; [|done]. destruct (ok_requests _ _ Hok _ _ E) as [? _]. lia. }
  pose proof (tally_bound unfinished (requests s)). split; cbn [submit snd requests COUNTER io_stats total_submitted current_queue_depth total_completed total_errors max_queue_depth];
    rewrite ?tally_new by done; cbn [b2z unfinished answered failed io_state]; words; try lia.
  destruct (Z.leb_spec (current_queue_depth (io_stats s) + 1) (max_queue_depth (io_stats s))); lia.
Qed.

Lemma complete_counters s id res done : sched_ok s done -> counters_ok s -> COUNTER s < 2 ^ 64 -> orderly s (OComplete id res) = true -> counters_ok (complete_request s id res).1.
Proof.
  intros Hok [H1 H2 H3 H4 H5 H6] Hc Ho. unfold orderly in Ho. unfold complete_request. destruct (requests s !! id) as [r|] eqn:E; [|done].
  pose proof (tally_bound answered (requests s)). pose proof (tally_bound failed (requests s)). pose proof (tally_bound unfinished (requests s)). pose proof (tally_in _ _ _ _ E Ho).
  assert (Ha : answered r = false) by (unfold answered, unfinished in *; by destruct (io_state r)). assert (Hf : failed r = false) by (unfold failed, unfinished in *; by destruct (io_state r)).
  set (r' := mkRequest _ _ _ _ _ _ _ _ _). assert (Hu' : unfinished r' = false) by by destruct res. assert (Ha' : answered r' = true) by by destruct res. assert (Hf' : failed r' = is_error res) by by destruct res.
  pose proof (tally_update answered _ _ _ r' E) as Ta. pose proof (tally_update failed _ _ _ r' E) as Tf. pose proof (tally_update unfinished _ _ _ r' E) as Tu. pose proof (tally_update (fun _ => true) _ _ _ r' E) as Tt.
  pose proof (tally_bound answered (<[id := r']> (requests s))). pose proof (tally_bound failed (<[id := r']> (requests s))).
  rewrite Ha, Ha' in Ta. rewrite Hf, Hf' in Tf. rewrite Ho, Hu' in Tu. cbn [b2z] in *.
  split; cbn [fst requests COUNTER io_stats total_submitted current_queue_depth total_completed total_errors max_queue_depth]; try lia.
  - words. lia.
  - words. lia.
  - destruct (is_error res); cbn [b2z] in *; [words|]; lia.
  - words. lia.
Qed.

Lemma cancel_counters s id done : sched_ok s done -> counters_ok s -> COUNTER s < 2 ^ 64 -> counters_ok (cancel_request s id).1.2.
Proof.
  intros Hok Hs Hc. unfold cancel_request. destruct (requests s !! id) as [r|] eqn:E; [|done]. case_bool_decide as Hp; [|done]. destruct Hs as [H1 H2 H3 H4 H5 H6].
  assert (Ho : unfinished r = true) by (unfold unfinished; by rewrite Hp). assert (Ha : answered r = false) by (unfold answered; by rewrite Hp). assert (Hf : failed r = false) by (unfold failed; by rewrite Hp).
  pose proof (tally_in _ _ _ _ E Ho). pose proof (tally_bound unfinished (requests s)).
  set (r' := mkRequest _ _ _ _ _ _ _ _ _). pose proof (tally_update answered _ _ _ r' E) as Ta. pose proof (tally_update failed _ _ _ r' E) as Tf. pose proof (tally_update unfinished _ _ _ r' E) as Tu. pose proof (tally_update (fun _ => true) _ _ _ r' E) as Tt.
  rewrite Ha in Ta. rewrite Hf in Tf. rewrite Ho in Tu. cbn [b2z unfinished answered failed io_state r'] in *.
  destruct (waker r); (split; cbn [fst snd requests COUNTER io_stats total_submitted current_queue_depth total_completed total_errors max_queue_depth]; fold r'; words; lia).
Qed.

Lemma step_counters x o : sched_ok x.1 x.2 -> counters_ok x.1 -> COUNTER x.1 < 2 ^ 64 - 1 -> orderly x.1 o = true -> counters_ok (step x o).1.
Proof.
  intros Hok Hs Hc Ho. destruct o; cbn [step fst].
  - by eapply submit_counters.
  - unfold set_waker. destruct (requests x.1 !! id) as [r|] eqn:E; [|done]. by eapply (counters_keep _ _ id r (with_waker r (Some w))).
  - destruct (next_request x.1) as [r s'] eqn:E. unfold next_request in E. destruct (pop_highest 5 _). injection E as _ <-. by eapply counters_same.
  - unfold start_request. destruct (requests x.1 !! id) as [r|] eqn:E; [|done]. eapply (counters_keep _ _ id r (started r)); try done; unfold started; case_bool_decide as Hp; try done; unfold unfinished, answered, failed; cbn; by rewrite Hp.
  - eapply complete_counters; [done | done | lia | done].
  - eapply cancel_counters; [done | done | lia].
  - by eapply counters_same.
  - by eapply counters_same.
  - by eapply counters_same.
Qed.

Lemma steps_counters x ops :
  sched_ok x.1 x.2 -> counters_ok x.1 -> COUNTER x.1 + Z.of_nat (length ops) < 2 ^ 64 -> orderly_run x ops = true -> counters_ok (foldl step x ops).1.
Proof.
  revert x. induction ops as [|o ops IH]; intros x Hok Hs Hl Ho; [done|]. cbn [length foldl orderly_run] in *. apply andb_true_iff in Ho as [Ho Hr].
  apply IH; [apply step_ok; [done | lia] | apply step_counters; [done | done | lia | done] | | done].
  pose proof (ok_counter _ _ Hok). rewrite step_counter. destruct (is_submit o); [rewrite wrap64_small by (unfold is_u64, u64_modulus; lia)|]; lia.
Qed.

(** as long as drivers complete a request once and not after it was cancelled, the
    counters are exact: the depth is the number of requests that have not ended, the
    others count what was submitted, answered and failed. *)
Theorem counters_exact ops :
  Z.of_nat (length ops) < 2 ^ 64 - 1 -> orderly_run (scheduler_new, []) ops = true ->
  let s := (run ops).1 in
  total_submitted (io_stats s) = submits ops /\ current_queue_depth (io_stats s) = tally unfinished (requests s) /\
  total_completed (io_stats s) = tally answered (requests s) /\ total_errors (io_stats s) = tally failed (requests s) /\
  current_queue_depth (io_stats s) <= max_queue_depth (io_stats s).
Proof.
  intros Hl Ho s. destruct (run_ok ops Hl) as [_ Hc]. destruct (steps_counters (scheduler_new, []) ops new_ok) as [H1 H2 H3 H4 H5 H6]; [by split | cbn; lia | done |].
  fold (run ops) in *. fold s in H1, H2, H3, H4, H5, H6, Hc. split_and!; try done. rewrite H2, Hc. lia.
Qed.

Lemma counters_exact_witness : current_queue_depth (io_stats (run demo_ops).1) = tally unfinished (requests (run demo_ops).1) /\ current_queue_depth (io_stats (run demo_ops).1) = 2.
Proof. split; [|reflexivity]. destruct (counters_exact demo_ops) as (_ & H & _); [cbn; lia | reflexivity | exact H]. Defined.

(** A request that is completed twice takes the depth below zero. *)
Example completed_twice : current_queue_depth (io_stats (run [OSubmit (Ahci 0) Read Normal; OComplete 1 (Success 512); OComplete 1 (Success 512)]).1) = 2 ^ 64 - 1.
Proof. reflexivity. Qed.

(** A request is cancelled, and the answer is that it was not, when nobody waits for it;
    it is still handed to the driver. *)
Example cancel_without_waker :
  let s := (run [OSubmit (Ahci 0) Read Normal]).1 in
  let '(b, s', w) := cancel_request s 1 in b = false /\ w = [] /\ get_state s' 1 = Some Cancelled /\ (next_request s').1 = Some 1.
Proof. by vm_compute. Qed.

(** ** Futures *)











(** A task that polls the future again with another waker is not woken: the first waker stays. *)
Example second_waker_ignored :
  let s := (run [OSubmit (Ahci 0) Read Normal]).1 in
  let '(_, f1, s1) := future_poll (future_new 1) s 7 in
  let '(p, _, s2) := future_poll f1 s1 8 in
  p = PollPending /\ (complete_request s2 1 (Success 512)).2 = [7].
Proof. by vm_compute. Qed.

(** ** Mode switches *)

Inductive event := Finished (latency_us : Z) | Evaluate (tick : Z).

(** The ticks at which the mode was switched *)
Fixpoint switches (c : DeviceIoModeController) (evs : list event) : list Z :=
  match evs with
  | [] => []
  | Finished l :: evs' => switches (record_completion c l) evs'
  | Evaluate t :: evs' => let '(m, c') := evaluate_mode c t in match m with Some _ => t :: switches c' evs' | None => switches c' evs' end
  end.

(** The clock of the evaluations does not go back. *)
Fixpoint monotone (t0 : Z) (evs : list event) : bool :=
  match evs with
  | [] => true
  | Finished _ :: evs' => monotone t0 evs'
  | Evaluate t :: evs' => (t0 <=? t) && (t <? 2 ^ 64) && monotone t evs'
  end.

Fixpoint spaced (gap t0 : Z) (ts : list Z) : Prop :=
  match ts with [] => True | t :: ts' => t0 + gap <= t /\ spaced gap t ts' end.

Definition thresholds_ok (t : ModeThresholds) : Prop := 0 <= evaluation_interval t /\ 0 <= hysteresis_count t < 2 ^ 32.

Record controller_ok (c : DeviceIoModeController) (since now : Z) : Prop := {
  k_thresholds : thresholds_ok (thresholds c);
  k_hysteresis : 0 <= hysteresis c <= hysteresis_count (thresholds c);
  k_times : 0 <= since /\ since + hysteresis c * evaluation_interval (thresholds c) <= last_evaluation c <= now;
  k_now : now < 2 ^ 64 }.

Lemma evaluate_ok c since now t : controller_ok c since now -> now <= t < 2 ^ 64 ->
  let '(m, c') := evaluate_mode c t in
  thresholds c' = thresholds c /\
  match m with
  | Some _ => since + (hysteresis_count (thresholds c) + 1) * evaluation_interval (thresholds c) <= t /\ controller_ok c' t t
  | None => controller_ok c' since t
  end.
Proof.
  intros [[Hi Hh] Hy [Hs Ht] Hn] Hle. unfold evaluate_mode. assert (He : t -w last_evaluation c = t - last_evaluation c) by (apply wrap64_small; unfold is_u64, u64_modulus; nia). rewrite He.
  destruct (Z.ltb_spec (t - last_evaluation c) (evaluation_interval (thresholds c))) as [|Hge]; [split; [done|]; split; [done | done | | lia]; lia|]. cbn [iops].
  case_bool_decide.
  - split; [done|]. split; cbn [set_hysteresis thresholds hysteresis last_evaluation]; [done | lia | nia | lia].
  - rewrite Z.geb_leb. destruct (Z.leb_spec (hysteresis_count (thresholds c)) (hysteresis c)) as [Hc|Hc]; (split; [done|]).
    + split; [nia|]. split; cbn [set_hysteresis switch_mode thresholds hysteresis last_evaluation]; [done | lia | nia | lia].
    + assert (Hw : wrap32 (hysteresis c + 1) = hysteresis c + 1) by (apply wrap32_small; unfold is_u32, u32_modulus; lia).
      split; cbn [set_hysteresis thresholds hysteresis last_evaluation]; rewrite ?Hw; [done | lia | nia | lia].
Qed.

Lemma switches_spaced c since now evs : controller_ok c since now -> monotone now evs = true ->
  spaced ((hysteresis_count (thresholds c) + 1) * evaluation_interval (thresholds c)) since (switches c evs).
Proof.
  revert c since now. induction evs as [|[l|t] evs IH]; intros c since now Hok Hm; cbn [switches monotone] in *; [done | |].
  - apply (IH (record_completion c l) since now); [|done]. by destruct Hok.
  - apply andb_true_iff in Hm as [Hm1 Hm]. apply andb_true_iff in Hm1 as [H1 H2]. apply Z.leb_le in H1. apply Z.ltb_lt in H2.
    pose proof (evaluate_ok c since now t Hok (conj H1 H2)) as He. destruct (evaluate_mode c t) as [[m|] c']; destruct He as [Et He].
    + destruct He as [Hs He]. split; [done|]. specialize (IH c' t t He Hm). by rewrite Et in IH.
    + specialize (IH c' since t He Hm). by rewrite Et in IH.
Qed.

(** the mode of a device is not switched more often than once in as many evaluation
    intervals as the hysteresis asks for and one more, whatever completes in
    between. *)
Theorem mode_switches_are_rare d t evs :
  thresholds_ok t -> monotone 0 evs = true -> spaced ((hysteresis_count t + 1) * evaluation_interval t) 0 (switches (controller_new d t) evs).
Proof. intros Ht Hm. apply (switches_spaced (controller_new d t) 0 0); [|done]. destruct Ht. split; cbn; [done | lia | lia | lia]. Qed.

Lemma mode_switches_are_rare_witness :
  switches (controller_new (Ahci 0) default_thresholds) (Evaluate <$> [100; 200; 250; 300; 400; 500]) = [400] /\
  spaced 400 0 (switches (controller_new (Ahci 0) default_thresholds) (Evaluate <$> [100; 200; 250; 300; 400; 500])).
Proof. split; [vm_compute; reflexivity|]. apply (mode_switches_are_rare (Ahci 0) default_thresholds); [split; cbn; lia | vm_compute; reflexivity]. Defined.

(** A device without any request is switched to polling: an average latency of nothing is low. *)
Example idle_device_polls : current_mode (foldl (fun c t => (evaluate_mode c t).2) (controller_new (Ahci 0) default_thresholds) [100; 200; 300; 400]) = Polling.
Proof. reflexivity. Qed.

(** ** Polling *)

Section Poll.
Context {H : Type} `{PollHandler H}.

(** What a handler delivers in a round, and its state after it *)
Definition delivered (h : H) : list (Z * IoResult) := if is_ready h then (poll_completions h).1 else [].
Definition polled (h : H) : H := if is_ready h then (poll_completions h).2 else h.

Definition round_results (m : gmap DeviceId H) : list (Z * IoResult) := concat (map (fun x => delivered x.2) (entries m)).

Lemma complete_all_app s rs rs' :
  complete_all s (rs ++ rs') = ((complete_all (complete_all s rs).1 rs').1, (complete_all s rs).2 ++ (complete_all (complete_all s rs).1 rs').2).
Proof.
  revert s. induction rs as [|[id res] rs IH]; intros s; cbn [app complete_all fst snd]; [by destruct (complete_all s rs')|].
  destruct (complete_request s id res) as [s1 w1]. rewrite IH. destruct (complete_all s1 rs) as [s2 w2]. cbn [fst snd]. destruct (complete_all s2 rs'). cbn. by rewrite app_assoc.
Qed.

Lemma poll_devices_spec hs m s :
  NoDup hs.*1 ->
  let rs := concat (map (fun x => delivered x.2) hs) in
  exists m', poll_devices hs m s = (length rs, m', (complete_all s rs).1, (complete_all s rs).2) /\
    forall d, m' !! d = match (list_to_map hs : gmap DeviceId H) !! d with Some h => if is_ready h then Some (polled h) else m !! d | None => m !! d end.
Proof.
  revert m s. induction hs as [|[d h] hs IH]; intros m s Hn; cbn [fmap list_fmap fst] in *; [by exists m|]. inversion Hn as [|? ? Hd Hn']; subst.
  cbv zeta.
  cbn [map concat snd poll_devices]. assert (Ed : delivered h = if is_ready h then (poll_completions h).1 else []) by reflexivity. rewrite Ed. destruct (is_ready h) eqn:E.
  - destruct (poll_completions h) as [rs h'] eqn:Ep. cbn [fst]. destruct (complete_all s rs) as [s1 w1] eqn:Ec. destruct (IH (<[d := h']> m) s1 Hn') as (m' & Hp & Hm).
    rewrite Hp. exists m'. split; [rewrite complete_all_app, Ec, length_app; done|]. intros d'. rewrite Hm. cbn. destruct (decide (d' = d)) as [->|Hne].
    + rewrite lookup_insert, decide_True by done. rewrite (not_elem_of_list_to_map_1 hs d Hd). rewrite lookup_insert, decide_True by done. rewrite E. unfold polled. by rewrite E, Ep.
    + rewrite !lookup_insert_ne by done. done.
  - destruct (IH m s Hn') as (m' & Hp & Hm). exists m'. rewrite Hp. split; [done|]. intros d'. rewrite Hm. cbn. destruct (decide (d' = d)) as [->|Hne].
    + rewrite lookup_insert, decide_True by done. by rewrite E, (not_elem_of_list_to_map_1 hs d Hd).
    + by rewrite lookup_insert_ne.
Qed.

Lemma poll_once_spec e s : active e = true ->
  poll_once e s = (length (round_results (poll_handlers e)), mkExecutor (polled <$> poll_handlers e) (max_poll_iterations e) (poll_interval_us e) true,
    (complete_all s (round_results (poll_handlers e))).1, (complete_all s (round_results (poll_handlers e))).2).
Proof.
  intros Ha. unfold poll_once. rewrite Ha. cbn [negb]. destruct (poll_devices_spec (entries (poll_handlers e)) (poll_handlers e) s (entries_keys_NoDup _)) as (m' & Hp & Hm).
  rewrite Hp. unfold round_results. do 3 f_equal. f_equal. apply map_eq. intros d. rewrite Hm, lookup_fmap.
  replace (list_to_map (entries (poll_handlers e)) : gmap DeviceId H) with (poll_handlers e).
  - destruct (poll_handlers e !! d) as [h|] eqn:E; [|done]. cbn. unfold polled. destruct (is_ready h) eqn:Er; [done|]. done.
  - rewrite <- (list_to_map_to_list (poll_handlers e)) at 1. apply list_to_map_proper; [|symmetry; apply entries_perm]. apply NoDup_fst_map_to_list.
Qed.

(** The results of the first rounds *)
Definition rounds (k : nat) (m : gmap DeviceId H) : list (Z * IoResult) := concat (map (fun i => round_results (Nat.iter i (fmap polled) m)) (seq 0 k)).

Lemma rounds_S k m : rounds (S k) m = round_results m ++ rounds k (polled <$> m).
Proof.
  unfold rounds. cbn [seq map concat Nat.iter nat_rect]. f_equal. f_equal. rewrite <- seq_shift, map_map. apply map_ext. intros i. f_equal.
  induction i as [|i IH]; [done|]. cbn in *. by rewrite IH.
Qed.

Lemma batch_loop_spec k e s : active e = true ->
  exists n, (n <= k)%nat /\ (forall i, (i < n)%nat -> round_results (Nat.iter i (fmap polled) (poll_handlers e)) <> []) /\
    ((n < k)%nat -> round_results (Nat.iter n (fmap polled) (poll_handlers e)) = []) /\
    let rs := rounds n (poll_handlers e) in
    let '(t, _, s', w) := batch_loop k e s in t = length rs /\ (s', w) = complete_all s rs.
Proof.
  revert e s. induction k as [|k IH]; intros e s Ha; [exists O; split_and!; try done; lia|]. cbn [batch_loop]. rewrite poll_once_spec by done.
  set (rs := round_results (poll_handlers e)). destruct rs as [|x rs'] eqn:Er.
  - exists O. cbn. split_and!; try done; lia.
  - cbn [length Nat.eqb]. set (e1 := mkExecutor (polled <$> poll_handlers e) _ _ true). destruct (IH e1 (complete_all s (x :: rs')).1 eq_refl) as (n & Hn & Hne & He & Hr).
    assert (Hit : forall i, Nat.iter (S i) (fmap polled) (poll_handlers e) = Nat.iter i (fmap polled) (poll_handlers e1)).
    { intros i. induction i as [|i IHi]; [done|]. cbn in *. by rewrite IHi. }
    exists (S n). split; [lia|]. split; [intros [|i] Hi; [unfold rs in Er; cbn; congruence | rewrite Hit; apply Hne; lia]|]. split; [intros Hlt; rewrite Hit; apply He; lia|].
    rewrite rounds_S. change (polled <$> poll_handlers e) with (poll_handlers e1). fold rs. rewrite Er. destruct (batch_loop k e1 _) as [[[t e2] s2] w2]. destruct Hr as [-> Hr].
    rewrite length_app. split; [done|]. rewrite complete_all_app, <- Hr. done.
Qed.

(** a batch polls all ready devices in the order of their identifiers, round after
    round, completes exactly what they deliver and counts it, and ends with the
    first round that delivers nothing or after the maximal number of rounds. *)
Theorem batch_completes_what_is_delivered e s :
  active e = true ->
  exists n, (n <= max_poll_iterations e)%nat /\
    (forall i, (i < n)%nat -> round_results (Nat.iter i (fmap polled) (poll_handlers e)) <> []) /\
    ((n < max_poll_iterations e)%nat -> round_results (Nat.iter n (fmap polled) (poll_handlers e)) = []) /\
    let '(t, _, s', w) := poll_batch e s in t = length (rounds n (poll_handlers e)) /\ (s', w) = complete_all s (rounds n (poll_handlers e)).
Proof. apply batch_loop_spec. Qed.

(** In the hybrid mode, which is meant to poll lightly, nothing is polled. *)
Lemma hybrid_never_polls (c : HybridIoCoordinator H) tick :
  let c' := set_global_mode c Hybrid in
  coordinator_tick c' tick = (mkCoord (evaluate_modes (scheduler c) tick) (polling_executor c') (pending_requests c) (mode_u32 Hybrid), []).
Proof. reflexivity. Qed.

End Poll.

(** An interrupt takes exactly the completed requests off the list of its device. *)
Lemma interrupt_clears_pending m s d rs m' s' w q :
  handle_interrupt m s d rs = (m', s', w) -> m !! d = Some q ->
  (s', w) = complete_all s rs /\ (forall id, id ∈ default [] (m' !! d) <-> id ∈ q /\ id ∉ rs.*1) /\ forall d', d' <> d -> m' !! d' = m !! d'.
Proof.
  unfold handle_interrupt. destruct (complete_all s rs) as [s1 w1]. intros [= <- <- <-] Hq. split; [done|]. split; [|intros d' Hd; by rewrite lookup_alter_ne].
  intros id. rewrite lookup_alter, decide_True, Hq by done. cbn. unfold retain_pending. rewrite list_elem_of_filter. tauto.
Qed.

(** ** Drivers *)

Lemma foldr_delete_lookup (ks : list Z) (m : gmap Z (Z * Z)) k : foldr delete m ks !! k = if bool_decide (k ∈ ks) then None else m !! k.
Proof.
  induction ks as [|j ks IH]; cbn; [done|]. destruct (decide (k = j)) as [->|Hne].
  - rewrite lookup_delete_eq, bool_decide_eq_true_2; [done | by left].
  - rewrite lookup_delete_ne, IH by done. assert (Hiff : k ∈ ks <-> k ∈ j :: ks) by (rewrite elem_of_cons; tauto). by rewrite (bool_decide_ext _ _ Hiff).
Qed.

(** A poll of the AHCI driver delivers the pending requests whose command has ended,
    each with its result, and keeps the others. *)
Lemma ahci_poll_exact h :
  let '(rs, h') := ahci_poll_completions h in
  (forall id res, (id, res) ∈ rs <-> exists port slot, ahci_pending h !! id = Some (port, slot) /\
     exists ok, check_completion h port slot = Some ok /\ res = if ok then Success 512 else Error DeviceError) /\
  (forall id port slot, ahci_pending h' !! id = Some (port, slot) <-> ahci_pending h !! id = Some (port, slot) /\ check_completion h port slot = None).
Proof.
  unfold ahci_poll_completions. set (rs := omap (ahci_result h) (entries (ahci_pending h))).
  assert (Hrs : forall id res, (id, res) ∈ rs <-> exists port slot, ahci_pending h !! id = Some (port, slot) /\ exists ok, check_completion h port slot = Some ok /\ res = if ok then Success 512 else Error DeviceError).
  { intros id res. unfold rs. rewrite list_elem_of_omap. split.
    - intros ([j [p sl]] & Hin & He). apply elem_of_entries in Hin. unfold ahci_result in He. cbn in He. destruct (check_completion h p sl) as [ok|] eqn:Ec; [|done]. injection He as <- <-. eauto 10.
    - intros (p & sl & Hp & ok & Ec & ->). exists (id, (p, sl)). split; [by apply elem_of_entries|]. unfold ahci_result. cbn. by rewrite Ec. }
  split; [done|]. cbn. intros id p sl. rewrite foldr_delete_lookup. case_bool_decide as Hin.
  - split; [done|]. intros [Hp Hc]. apply list_elem_of_fmap in Hin as ([j res] & -> & Hin). apply Hrs in Hin as (p' & sl' & Hp' & ok & Ec & _). cbn in Hp. congruence.
  - split; [|tauto]. intros Hp. split; [done|]. destruct (check_completion h p sl) as [ok|] eqn:Ec; [|done]. exfalso. apply Hin. apply list_elem_of_fmap. eexists (id, _). split; [done|]. apply Hrs. eauto 10.
Qed.

(** All cores of an NVMe controller are registered under one device: only the handler of
    the last core is ever polled. *)
Lemma nvme_last_core_only {H} (new : Z -> Z -> H) s e c ns n :
  poll_handlers (register_with_io_scheduler new s e c ns (S n)).2 = <[Nvme c ns := new (Z.of_nat n) ns]> (poll_handlers e).
Proof.
  unfold register_with_io_scheduler. revert s e. induction n as [|n IH]; intros s e; [done|].
  replace (Z.of_nat (S (S n))) with (Z.of_nat (S n) + 1) by lia. rewrite seqZ_app by lia. rewrite foldl_app. change (seqZ (0 + Z.of_nat (S n)) 1) with [0 + (0 + Z.of_nat (S n))]. cbn [foldl].
  unfold register_core at 1. cbn [snd register_handler poll_handlers]. rewrite IH, insert_insert, decide_True by done. by rewrite !Z.add_0_l.
Qed.

End IoSpec.
